(* ===== verification/_CoqProject ===== *)
-Q . S2P
Prelude.v
Me.v
RegUtils.v
MemBulk.v
MemAtomic.v
MemRing.v
MemCam.v
Cls.v
Xpb.v
MemBus.v
Conc.v
Synch.v
Pkt.v
PktCredits.v
Csum.v
Hash.v
HdrExt.v
TmConfig.v
CamHash.v
CppAt.v
Runtime.v
Lexer.v
Ast.v
Parser.v
ParserLogic.v
AstPrint.v
ParserRoundTrip.v
StmtRoundTrip.v
ModuleRoundTrip.v
ParserCases.v
Flow.v
FlowSolver.v
MinCut.v
Ir.v
Pipeline.v
Split.v
SplitSem.v
SplitCorrect.v
KCut.v
Pipelining.v
Mapping.v
MlirGen.v
MlirGenSsa.v
MlirGenSem.v
MlirGenCorrect.v
MlirGenControl.v
MlirGenModule.v
Deps.v
ArchMap.v
Dataflow.v
FieldSplit.v
BufferHist.v
Memcpy.v
Gro.v
GroOrder.v
Blm.v
Ctm.v
LmemHash.v
NfpLib.v
Cntrs.v
Events.v
RemoteMe.v
MemEngines.v
NfpStats.v
Pcie.v
ExternNet.v
