(* ===== verification/Prelude.v ===== *)
(** * Verification of Alkali: the compiler and the runtime

    Alkali compiles packet-processing programs in the ep2 language to several
    targets.  Its compiler reads a program with the lexer and parser of
    src/include/ep2/lang, builds operations of its own MLIR dialect (src/ep2c), and
    transforms them with passes (src/lib/ep2), of which the central one cuts handlers
    into pipelines that fit the target.  What the generated programs run on is C code:
    for the Netronome NFP the Micro-C library src/runtime_lib/netronome_runtime/microc/lib,
    and for a host src/runtime-llvm.  This development models the front end, the
    generator, the pipelining passes and that C code function by function: that the
    parser reads the programs it is meant to read, that what is generated and what
    is cut up means what the program says, and that the runtime keeps what it promises
    to generated programs.  Below, [lib] is
    src/runtime_lib/netronome_runtime/microc/lib, [lang] src/include/ep2/lang and
    [passes] src/lib/ep2.

    ** The program and its parts

    The microengines of the NFP run Micro-C.  They have registers and local
    memory, and reach everything else by commands: memory units, cluster local
    scratch, XPB registers, CSRs, a CRC unit.  The library is layered on those
    commands:
    - [lib]/nfp/_c: one function per command or register (me.c, mem_bulk.c,
      mem_atomic.c, mem_ring.c, mem_cam.c, cls.c, xpb.c), and the configuration of
      the traffic manager from tables in memory (tm_config.c);
    - [lib]/std/_c: register regions (reg_utils.c), hashes (hash.c) and credit
      semaphores that contexts share (synch.c);
    - [lib]/net/_c: checksums (csum.c) and header extraction (hdr_ext.c);
    - [lib]/pkt/libpkt.c: packet buffers, modification scripts, sends, and the
      credits for allocating buffers, which contexts share through scratch;
    - [lib]/lu/_c: a hash table looked up by CAM commands (cam_hash.c) and its copy
      in scratch (cam_cls_hash.c), over mem_cam.c, mem_bulk.c, hash.c, reg_utils.c;
      and a hash table in local memory (cam_lmem_hash.c);
    - [lib]/gro: the global reorder library, which puts packets that finish out of
      order back in the order of their sequence numbers;
    - microc/blocks/blm: lists of free buffers in rings that contexts share;
    - extern_net.h, nfplib.h and lmem_lookup.h: what the compiler emits calls to
      (receiving and sending packets, copying, tables kept by the CAM of a
      microengine and in its local memory);
    - the addresses of the device: nfp_cppat.h spreads addresses over its memory
      islands, nfp_resid.h packs identifiers.

    The front end is header-only C++: Lexer.h turns a buffer into tokens with one
    token of lookahead, Parser.h builds the trees of AST.h by recursive descent and
    prints diagnostics.  MLIRGen.cpp turns the trees into operations in SSA form: a
    symbol table gives each variable its current value, and a conditional yields the
    variables its branches assign.

    Pipelining works on functions of that dialect.  PipelineHandlerPass.cpp makes a
    graph of a handler, cuts it in two by flows that it balances, and searches over
    such cuts; SplitFunction.cpp turns a cut into two handlers, the first sending the
    second an event with the values that cross; the performance models and mappers of
    [passes]/Passes/Mapping give the pieces compute units.  A dependency analysis
    groups the handlers that send each other events and orders each group for the
    emitters.  Over the graph of that analysis ArchMappingPass.cpp places replicas of
    handlers on the units of a target by constraints for Z3, and forward dataflow
    analyses follow extracted structs, context variables and buffers; a pass splits the
    structs by their used fields, and a lowering decomposes copies into those the
    target has.

    ** How it is modelled

    A function that touches the hardware is a [prog] (Me): a tree of the events it
    issues (commands, CSR accesses, context arbitrations), each continued with the
    hardware's reply.  [exec] runs a program against any handler from states and
    events to replies and states; nothing of the hardware is fixed.  What a theorem
    relies on is a class whose fields are documented behaviour: [MemReads] (MemBus)
    for a byte memory, [CrcUnit] (Hash) for the CRC unit, [ConfigMem] (TmConfig) for
    the configuration tables, [CamHw] (CamHash) for the memory unit with CAM
    commands, [SemHw] (Synch) and [CreditHw] (PktCredits) for counters in memory and
    scratch, [GroHw] (GroOrder) for the slots of a reorder queue and its rings,
    [BlmHw] (Blm) for the rings of buffers, [MeCam] (NfpLib) for the CAM of a
    microengine.  Each class has an instance, a concrete hardware, on which the
    witnesses apply the theorems.

    A compile-time assertion is an outcome, [Stop CtAssert], and an argument carries
    whether the compiler knows it ([carg]), since the code branches on it.  Reading
    what C leaves undefined is [Stop Undef] or [None].  Words are [Z] in a range,
    with the wrap-around of each operation written out ([add32], [mul32], [s32]).
    A region of registers or local memory is a list of words, reached through
    pointers that may overlap (RegUtils).  Signals, and registers a command has not
    yet filled, are not tracked: a command's reply is there when it is issued.

    Contexts that run at once are a pool of programs (Conc): a step lets one of them
    issue its next event to the shared hardware, so that theorems about a pool hold
    for every interleaving of events.

    The lexer is a record of the members of the class, and each of its functions
    returns a [result]: a value, or a failed assertion, or undefined behaviour
    (isspace of a negative character, a null dereference, a double too large for an
    integer).  A parse function is a state monad over the lexer and the list of
    diagnostics; a null pointer is [None]; a loop or recursion has fuel.  The C++
    library functions the lexer calls are defined as their standard says (isspace and
    the like on ASCII, strtod with rounding to nearest even).

    The generator is a state monad over the state of MLIRGenImpl: a value, or a null
    result, or a crash (a null pointer read, an assertion).  Operations are records of
    their kind, operands, result types and regions.  The passes work on functions as
    MLIR shows them: blocks of operations with the blocks they branch to.  The flow
    solver and the topological sort are boost's: parameters, the first under the class
    [FlowSolver], of which there is an executable instance.  What an operation computes
    is a parameter as well, shared by a handler and what it is compiled or split to.

    ** The files

    - Prelude: words, bits, bytes, lists; the tactics and hints.
    - Me: events, programs, [exec], the assertion logics [wp] and [twp], the
      indirect-reference word, and me.c.
    - RegUtils (reg_utils.c), MemBulk (mem_bulk.c), MemAtomic (mem_atomic.c),
      MemRing (mem_ring.c), MemCam (mem_cam.c), Cls (cls.c), Xpb (xpb.c).
    - MemBus: the byte-memory interface between MemBulk and its clients.
    - Csum (csum.c), Hash (hash.c), HdrExt (hdr_ext.c, and the layouts of
      [lib]/net/*.h), TmConfig (tm_config.c), CamHash (cam_hash.c, cam_cls_hash.c).
    - Conc: interleaving; Synch ([lib]/std/_c/synch.c).
    - Pkt ([lib]/pkt/libpkt.c) and PktCredits, the credits of the packet engine when
      contexts share them.
    - Runtime: src/runtime-llvm/runtime.c.
    - Lexer ([lang]/Lexer.h), Ast ([lang]/AST.h), Parser ([lang]/Parser.h).
    - ParserLogic: the rules to reason about the parser on the tokens it still has to
      read, and its termination.  AstPrint: a printer and the trees it can print.
      ParserRoundTrip (expressions), StmtRoundTrip (types, declarations, statements)
      and ModuleRoundTrip (records, attributes, modules): reading back what is
      printed.  ParserCases: what happens outside that syntax.
    - Ir: the dialect (src/include/ep2/dialect/EP2Ops.td).
    - MlirGen (src/ep2c/MLIRGen.cpp); MlirGenSsa, its output is in SSA form;
      MlirGenSem, a reading of handlers over named variables and a semantics of
      generated operations; MlirGenCorrect (expressions, assignments, calls),
      MlirGenControl (conditionals, statements) and MlirGenModule (functions, modules):
      the two agree.  MlirGenModule also has programs outside that reading.
    - Flow: networks, cuts, the interface of a flow solver; FlowSolver: a solver.
    - MinCut, Pipeline and KCut ([passes]/PipelineHandlerPass.cpp): the balanced cut, the
      graph of a handler, the searches over cuts.
    - Split ([passes]/Passes/Conversion/SplitFunction.cpp), SplitSem, what a handler means,
      and SplitCorrect, what its two halves do; Pipelining: from end to end.
    - Mapping: performance models and mappers ([passes]/Passes/Mapping/PerformanceModel.cpp,
      PipeliningPass.cpp, PipelineCanonicalizePass.cpp, MappingUtils.cpp and
      src/include/ep2/passes/Mapping.h).
    - Deps ([passes]/HandlerDependencyAnalysis.cpp, declared in
      src/include/ep2/dialect/Passes.h), Memcpy (LowerMemcpyPass.cpp).
    - ArchMap (ArchMappingPass.cpp and src/include/ep2/dialect/CostModel.h): the mapping
      of handlers to the units of a target by constraints.
    - Dataflow (src/include/ep2/dialect/Analysis/ForwardDataflowAnalysis.h and Passes.h
      next to it), FieldSplit (Passes/DeadFieldEliminatePass.cpp), BufferHist
      (BufferAnalysis.cpp): used fields, the structs split by them, offsets in buffers.
    - CppAt (nfp_cppat.h, nfp_resid.h), Ctm ([lib]/nfp/_c/ctm.c), LmemHash
      ([lib]/lu/_c/cam_lmem_hash.c), NfpLib (nfplib.h, lmem_lookup.h), ExternNet
      (extern_net.h).
    - Gro ([lib]/gro/libgro.c, gro.h) and GroOrder, the order of delivery when contexts
      share a queue; Blm (blocks/blm/libblm.c).
    - The rest of the device library: Cntrs ([lib]/std/_c/cntrs.c), Events (event.c,
      write_alert.c, reorder.c), RemoteMe (remote_me.c), MemEngines (mem_lkup.c,
      mem_pe.c), NfpStats (tmq.c, macstats.c, mac_csr_synch.c), Pcie (pcie.c).
    A definition has the name of the C function it models, without the leading
    underscore of a macro.

    ** What the theorems show

    - Commands: every read, write, atomic, CAM, scratch and XPB function issues
      exactly one command that presents the operation, address, data and number of
      references asked for ([bulk_reads_command], [bulk_writes_command],
      [atomic_writes_command], [atomic_imms_command],
      [cam_lookups_command], [cls_ops_command], [xpb_access]), through direct and
      indirect encodings alike.
    - Rings and locks: descriptors encode the ring asked for
      ([mem_ring_setup_spec], [cls_ring_setup_spec]); the retried lock returns
      when the hardware grants it ([lock_retry_terminates]).
    - Registers: [reg_cp_eq_spec], with overlap.
    - Checksums: the code's carry chains compute RFC 1071 over the bytes in memory
      ([net_csum_ipv4_rfc1071], [net_csum_l4_ip_rfc]) and RFC 1624 updates
      ([net_csum_mod_rfc1624]).
    - Hashes: [hash_toeplitz_spec] against the GF(2) definition, [hash_me_crc_spec]
      against a fold of the CRC unit, [cls_hash_init_covers].
    - Headers: extraction inverts encoding and the lengths lead to the next header
      ([he_eth_ip4_walk], [he_l4_walk]); classification and error
      precedence ([switch_selects], [he_ip4_rejects], [HE_RESULT_class]), of protocols and
      fragments that hdr_ext.h does not name as well; the fit
      tests are sound ([he_fit_sound]).
    - Traffic manager: the exact register writes for any configuration
      ([config_schedulers_writes] with DWRR and [config_schedulers_plan] in general,
      [config_shapers_writes], [config_l0_writes]); the
      SRAM runs of the queues are disjoint, aligned and inside, and the
      configuration succeeds exactly when they fit ([config_queues_safe]); the
      register map has no two registers at one address ([reg_addr_inj]).
    - Hash table: lookups find exactly the stored keys ([camht_lookup_correct]) and
      additions keep the table well formed and the other keys in place
      ([camht_lookup_add_correct]).
    - Semaphores: at most the credited number of contexts is inside at once, whatever
      the interleaving ([sem_exclusion]); but a context that is overtaken waits as long
      as the counts stay ahead of its own ([sem_overtaken_starves]).
    - Packets: whatever the interleaving, the CTM credits add up, less one of each kind
      for every allocation granted ([credits_conserved]); the modification script is the
      direct no-operation or deletion that reaches the packet from its slot
      ([msd_write_script]); the bytes split between CTM and memory ([data_split]).
    - Host buffers: [emit_extract_roundtrip].
    - Front end: the lexer delivers the tokens of a longest-match specification
      ([lexer_refines]); the parser terminates on every text ([parse_terminates]),
      never rejects one in silence ([parse_null_reported]), and gives back, from its
      text, every module the syntax can write, precedence and all ([parse_print]).
    - Generator: whatever it accepts is in SSA form ([mlirGen_ssa]), and the operations
      of a handler have its effect ([mlirGen_correct]).
    - Pipelining: a cut that is found balances and is a minimum cut of a graph with some
      edges made infinite ([balanced_cut_sound]), makes stages of a pipeline
      ([pipeline_stages]) and is found or refused in bounded time
      ([pipeline_terminates]); the two handlers made of it send the events and leave the
      tables of the one ([pipelined_handler]); a search makes at most k pieces
      ([kcut_bounded]).
    - Mapping: units are handed out as the greedy rule says ([getMapping_correct],
      [simpleMapping_units]), the optimization loop ends ([optimization_loop]), and the
      pieces of a handler are found in order ([stages_in_order]).
    - Dependencies: the analysis ends, its subgraphs are the connected components of the
      graph of events
      ([connected_components]); the order of one with a single root, the first by
      address, is topological ([component_order]).
    - Placement: what satisfies the constraints of the mapping solver is a placement of
      the replicas that reaches the target throughput ([placement_sound]).
    - Fields and buffers: no use of an extracted field is missed ([used_fields_found]);
      a struct that is split keeps its used fields where they were ([split_fields]);
      the offsets in a buffer add up ([offsets_add_up]).
    - Copies: the pieces a copy is decomposed into tile it, each of a size the target
      has ([memcpy_tiles]).
    - Inline runtime: the copy loop copies ([bulk_memcpy_copies]), the CAM of a
      microengine replaces the least recently used entry ([me_cam_lru]), a packet that
      is received and sent is forwarded ([net_forward]).
    - Reordering: whatever the interleaving, a queue releases a prefix of its sequence,
      each packet with its sender's metadata ([gro_in_order]).
    - Buffer lists: whatever the interleaving, no buffer is created or lost
      ([blm_conserved]).
    - Addresses: to an island and back ([cppat_roundtrip]).
    - Device library: counters, event filters, write alerts, remote registers, lookups,
      statistics and PCIe windows reach the registers and fields they are meant to
      ([filter_reg_inj], [write_alert_fields], [remote_csr_write_read],
      [mem_pe_cmd_spec], [fix_40_bit_carries], [c2p_addr_fields], and others).
    Lemmas next to them record behaviour that differs from the comments
    ([net_csum_l4_ip_odd], [mem_sub64_runtime_length], [shaper_143_sets_l0],
    [sched_config_uninitialised], [camht_cls_idx_fixed], [add_collision],
    [he_ip4_last_fragment], [concat_position], [write_alert_passes],
    [tmq_status_refuses], [c2p_swap_loses_window], [packet_copy_offset],
    [net_send_loses_egress], [deep_split_fails], [first_unit_unused],
    [second_source_lost], [untracked_emit_erased], [merge_forgets_unknown],
    and others; for the parser, the lemmas
    of ParserCases; for the generator, those at the end of MlirGenModule).

    ** Bounds and fuel

    [RANGE_FUEL] is 1025: the bodies of the traffic manager's range loops fail above
    index 1023, so the loops end before it.  [ones_sum_mem] has one unit of fuel per
    byte and takes up to 64 bytes a round.  [do_repeat_loop] has the 15 rounds its
    counter allows.  The theorems state that results are reached, so no fuel runs
    out.  [lock_retry_loop] takes its fuel as an argument, any number above the
    retries the hardware asks for.

    The lexer has one unit of fuel per character left, the parser the length of the
    text and two more ([parse]): every round of a loop and every level of recursion
    reads a token, which [parse_terminates] proves.

    The generator recurses on the trees and needs none.  A round of the balanced cut
    joins a vertex to the source or the sink, so it has two rounds for each vertex and one
    more, in each of the 100 attempts of the code; the k-cut search has k + 1 steps, and
    the optimization loop as many rounds as the target latency and 1001 more, since each
    lowers a latency that starts 1000 above the target.

    Indices that the code keeps in an int are wrapped to one: the generation index of a
    piece doubles with every split, so [stages_in_order] is about less than 30 splits
    inside one another.  Sizes and offsets in bits stop the model at 2^31.

    The dependency analysis ends on every graph ([getConnectedComponents_ends]); a copy
    of n bytes has n + 1 rounds to be decomposed ([DECOMPOSE_FUEL]); the copy loop any
    number above its length.  The loops of a reorder queue need two rounds more than it
    has tapes when its ring always accepts (a ring that refuses may be retried for
    ever).  The loop over the ports of a MAC core has 7 rounds, for 6 pairs and the
    exit.  The loops of NfpLib that wait for the hardware take a bound.

    ** What is not modelled

    Of the compiler: diagnostics, file names and locations; the dumper of trees
    (AST.cpp) and the driver (ep2c.cpp); the other analyses, lowerings and emitters
    (the rest of [passes]), which are written against MLIR's rewriters and printers;
    the Z3 solver, a parameter of ArchMap; the pass options and the dumps of the passes
    that are modelled, and the changes of signatures in the elimination of dead fields.
    [mlirGen_correct] reads handlers without structs, returns, commands and bit
    operations; the model of the generator has them.
    Of the runtimes: the FPGA runtime (Verilog), the microcode blocks (.uc) and the
    headers that size their lists, the register and DPDK headers beyond the fields
    used, generated example outputs; extern_dma.c, endless loops that make up
    descriptors for a simulator; the pthread driver and the mutex stub of the host
    runtime. *)
From Stdlib Require Import ZArith Lia List.
From stdpp Require Import base list numbers option.

Declare Scope word_scope.
Delimit Scope word_scope with word.

#[global] Open Scope Z_scope.

(** ** Machine words: a [w]-bit unsigned integer is a [Z] in [0, 2^w). *)

Definition wrap (w x : Z) : Z := x mod 2 ^ w.
Abbreviation u8 := (wrap 8) (only parsing).
Abbreviation u16 := (wrap 16) (only parsing).
Abbreviation u32 := (wrap 32) (only parsing).
Abbreviation u64 := (wrap 64) (only parsing).

Definition in_word (w x : Z) : Prop := 0 <= x < 2 ^ w.
Notation "x ∈w w" := (in_word w x) (at level 70) : word_scope.
#[global] Open Scope word_scope.

#[export] Instance in_word_dec w x : Decision (in_word w x).
Proof. unfold in_word. apply _. Defined.

(** Bit operations; the shifts are the [≪] and [≫] of stdpp. *)
Notation "x '.&' y" := (Z.land x y) (at level 41, left associativity) : word_scope.
Notation "x '.|' y" := (Z.lor x y) (at level 43, left associativity) : word_scope.
Notation "x '.^' y" := (Z.lxor x y) (at level 42, left associativity) : word_scope.

(** Unsigned 32-bit arithmetic of the target. *)
Definition add32 (a b : Z) : Z := wrap 32 (a + b).
Definition sub32 (a b : Z) : Z := wrap 32 (a - b).
Definition mul32 (a b : Z) : Z := wrap 32 (a * b).
Definition shl32 (a n : Z) : Z := wrap 32 (a ≪ n).
Definition not32 (a : Z) : Z := 2 ^ 32 - 1 - a.

(** A signed 32-bit reading of a word (two's complement). *)
Definition s32 (x : Z) : Z := if x <? 2 ^ 31 then x else x - 2 ^ 32.

(** The bit-field [x[pos+len-1 : pos]]. *)
Definition field (pos len x : Z) : Z := wrap len (x ≫ pos).

(** ** Tactics *)

(** Euclidean reasoning on [/] and [mod] by constants. *)
Ltac divlia := Z.to_euclidean_division_equations; lia.

(** Split the goal into its conjuncts. *)
Ltac split_ands := repeat match goal with |- _ /\ _ => split end.

(** Case analysis on the boolean tests of a definition. *)
Ltac case_bool :=
  match goal with
  | |- context [if ?b then _ else _] =>
      let E := fresh "E" in destruct b eqn:E
  end.

Ltac bool_to_Z :=
  repeat match goal with
  | H : (_ && _)%bool = true |- _ => apply andb_true_iff in H; destruct H
  | H : (_ || _)%bool = false |- _ => apply orb_false_iff in H; destruct H
  | H : (_ <? _) = true |- _ => apply Z.ltb_lt in H
  | H : (_ <? _) = false |- _ => apply Z.ltb_ge in H
  | H : (_ <=? _) = true |- _ => apply Z.leb_le in H
  | H : (_ <=? _) = false |- _ => apply Z.leb_gt in H
  | H : (_ =? _) = true |- _ => apply Z.eqb_eq in H
  | H : (_ =? _) = false |- _ => apply Z.eqb_neq in H
  | H : negb _ = true |- _ => apply negb_true_iff in H
  | H : negb _ = false |- _ => apply negb_false_iff in H
  end.

(** Bit-level equality of words: extensionality on [Z.testbit], the rewriting
    database [bits], and a case analysis on the index comparisons. *)
Create Rewrite HintDb bits.

Lemma testbit_wrap w x i : 0 <= w -> 0 <= i ->
  Z.testbit (wrap w x) i = (i <? w) && Z.testbit x i.
Proof.
  intros Hw Hi. unfold wrap. destruct (Z.ltb_spec i w).
  - by rewrite Z.mod_pow2_bits_low.
  - rewrite Z.mod_pow2_bits_high by lia. done.
Qed.

Lemma testbit_ones n i : 0 <= n -> 0 <= i -> Z.testbit (Z.ones n) i = (i <? n).
Proof.
  intros. destruct (Z.ltb_spec i n).
  - apply Z.ones_spec_low; lia.
  - apply Z.ones_spec_high; lia.
Qed.

Lemma testbit_shiftl x n i : 0 <= n -> 0 <= i ->
  Z.testbit (x ≪ n) i = (n <=? i) && Z.testbit x (i - n).
Proof.
  intros. rewrite Z.shiftl_spec by lia. destruct (Z.leb_spec n i); [done|].
  rewrite Z.testbit_neg_r by lia. done.
Qed.

Lemma testbit_shiftr x n i : 0 <= i -> Z.testbit (x ≫ n) i = Z.testbit x (i + n).
Proof. intros. by rewrite Z.shiftr_spec by lia. Qed.

#[export] Hint Rewrite testbit_wrap testbit_shiftl testbit_shiftr testbit_ones
  Z.land_spec Z.lor_spec Z.lxor_spec Z.testbit_0_l using lia : bits.

Ltac bitwise_as i :=
  apply Z.bits_inj'; intros i ?; autorewrite with bits.

(** A word has no bit set at or above its width. *)
Lemma testbit_high w x i : in_word w x -> 0 <= w <= i -> Z.testbit x i = false.
Proof.
  intros Hx Hi. unfold in_word in Hx.
  destruct (decide (x = 0)) as [->|]; [by rewrite Z.testbit_0_l|].
  apply Z.bits_above_log2; [lia|].
  apply Z.log2_lt_pow2; [lia|]. eapply Z.lt_le_trans; [apply Hx|].
  apply Z.pow_le_mono_r; lia.
Qed.

(** [~a] has the other bits. *)
Lemma not32_testbit a i : in_word 32 a -> 0 <= i ->
  Z.testbit (not32 a) i = (i <? 32) && negb (Z.testbit a i).
Proof.
  intros Ha Hi. unfold not32. change (2 ^ 32 - 1) with (Z.ones 32).
  rewrite Z.sub_nocarry_ldiff.
  - rewrite Z.ldiff_spec. f_equal. rewrite testbit_ones by lia. done.
  - bitwise_as j. rewrite Z.ldiff_spec, testbit_ones by lia.
    destruct (Z.ltb_spec j 32); [by rewrite andb_false_r|]. by rewrite (testbit_high 32 a) by (done || lia).
Qed.

(** ** Laws of [wrap] and [field] *)

Lemma wrap_range w x : 0 <= w -> in_word w (wrap w x).
Proof. intros. apply Z.mod_pos_bound, Z.pow_pos_nonneg; lia. Qed.

Lemma wrap_id w x : in_word w x -> wrap w x = x.
Proof. intros. by apply Z.mod_small. Qed.

Lemma wrap_idem w x : 0 <= w -> wrap w (wrap w x) = wrap w x.
Proof. intros. by apply wrap_id, wrap_range. Qed.

Lemma wrap_add_l w a b : 0 <= w -> wrap w (wrap w a + b) = wrap w (a + b).
Proof. intros. apply Zplus_mod_idemp_l. Qed.

Lemma wrap_add_r w a b : 0 <= w -> wrap w (a + wrap w b) = wrap w (a + b).
Proof. intros. apply Zplus_mod_idemp_r. Qed.

Lemma wrap_sub_l w a b : 0 <= w -> wrap w (wrap w a - b) = wrap w (a - b).
Proof. intros. apply Zminus_mod_idemp_l. Qed.

Lemma wrap_land_ones w x : 0 <= w -> x .& Z.ones w = wrap w x.
Proof. intros. by apply Z.land_ones. Qed.

Lemma field_range pos len x : 0 <= len -> in_word len (field pos len x).
Proof. apply wrap_range. Qed.

Lemma field_eq pos len x : 0 <= pos -> field pos len x = (x / 2 ^ pos) mod 2 ^ len.
Proof. intros. unfold field, wrap. by rewrite Z.shiftr_div_pow2. Qed.

(** Concatenating disjoint fields by [|] is addition. *)
Lemma lor_shift_add hi lo n : 0 <= n -> in_word n lo ->
  (hi ≪ n) .| lo = hi * 2 ^ n + lo.
Proof.
  intros Hn Hlo. rewrite <- Z.shiftl_mul_pow2 by lia. symmetry.
  rewrite <- Z.lxor_lor, <- Z.add_nocarry_lxor; [done|..];
    bitwise_as i; destruct (Z.leb_spec n i); simpl; try done;
    by rewrite (testbit_high n lo), ?andb_false_r by (done || lia).
Qed.

Lemma in_word_mono v w x : 0 <= v <= w -> in_word v x -> in_word w x.
Proof.
  unfold in_word. intros Hw [? ?]. split; [done|].
  eapply Z.lt_le_trans; [done|]. apply Z.pow_le_mono_r; lia.
Qed.

Lemma in_word_lor w x y : 0 <= w -> in_word w x -> in_word w y -> in_word w (x .| y).
Proof.
  intros Hw Hx Hy. rewrite <- (wrap_id w x), <- (wrap_id w y) by done.
  replace (wrap w x .| wrap w y) with (wrap w (x .| y)); [by apply wrap_range|].
  bitwise_as i. by destruct (i <? w).
Qed.

Lemma in_word_land_r w x y : 0 <= w -> in_word w y -> in_word w (x .& y).
Proof.
  intros Hw Hy. rewrite <- (wrap_id w y) by done.
  replace (x .& wrap w y) with (wrap w (x .& y)); [by apply wrap_range|].
  bitwise_as i. destruct (i <? w); simpl; by rewrite ?andb_false_r.
Qed.

Lemma in_word_lxor w x y : 0 <= w -> in_word w x -> in_word w y -> in_word w (x .^ y).
Proof.
  intros Hw Hx Hy. rewrite <- (wrap_id w x), <- (wrap_id w y) by done.
  replace (wrap w x .^ wrap w y) with (wrap w (x .^ y)); [by apply wrap_range|].
  bitwise_as i. by destruct (i <? w).
Qed.

Create HintDb word discriminated.
#[export] Hint Resolve wrap_range field_range in_word_lor in_word_land_r in_word_lxor : word.
#[export] Hint Extern 1 (0 <= _) => lia : word.

(** ** Big-endian bytes and words *)

Definition be_bytes (w : Z) : list Z :=
  [field 24 8 w; field 16 8 w; field 8 8 w; field 0 8 w].

Definition be_word (b0 b1 b2 b3 : Z) : Z :=
  b0 * 2 ^ 24 + b1 * 2 ^ 16 + b2 * 2 ^ 8 + b3.

(** The 32-bit words of a byte string; a short last group is padded with
    zero bytes. *)
Fixpoint be_words (bs : list Z) : list Z :=
  match bs with
  | b0 :: b1 :: b2 :: b3 :: bs' => be_word b0 b1 b2 b3 :: be_words bs'
  | [b0; b1; b2] => [be_word b0 b1 b2 0]
  | [b0; b1] => [be_word b0 b1 0 0]
  | [b0] => [be_word b0 0 0 0]
  | [] => []
  end.

Definition bytes_of_words (ws : list Z) : list Z := concat (map be_bytes ws).

Lemma be_word_range b0 b1 b2 b3 :
  in_word 8 b0 -> in_word 8 b1 -> in_word 8 b2 -> in_word 8 b3 ->
  in_word 32 (be_word b0 b1 b2 b3).
Proof. unfold in_word, be_word. lia. Qed.

Lemma be_word_bytes w : in_word 32 w ->
  be_word (field 24 8 w) (field 16 8 w) (field 8 8 w) (field 0 8 w) = w.
Proof. unfold in_word, be_word. rewrite !field_eq by lia. intros. divlia. Qed.

Lemma be_words_bytes ws : Forall (in_word 32) ws -> be_words (bytes_of_words ws) = ws.
Proof.
  induction 1 as [|w ws Hw _ IH]; [done|].
  change (bytes_of_words (w :: ws)) with (be_bytes w ++ bytes_of_words ws).
  unfold be_bytes. cbn [app be_words]. by rewrite IH, be_word_bytes.
Qed.

(** ** Lists *)

(** [n] bytes or words starting at [a], out of range elements read as [0]. *)
Definition slice {A} (d : A) (l : list A) (a n : nat) : list A :=
  map (fun i => nth (a + i) l d) (seq 0 n).

Definition sumZ (l : list Z) : Z := fold_right Z.add 0 l.

Lemma sumZ_app l1 l2 : sumZ (l1 ++ l2) = sumZ l1 + sumZ l2.
Proof. induction l1; simpl; lia. Qed.

Lemma sumZ_nonneg l : Forall (fun x => 0 <= x) l -> 0 <= sumZ l.
Proof. induction 1; simpl; lia. Qed.

(** Clearing the low [n] bits of a [w]-bit word. *)
Lemma land_high w n x : 0 <= n <= w -> in_word w x ->
  x .& (Z.ones (w - n) ≪ n) = x / 2 ^ n * 2 ^ n.
Proof.
  intros Hn Hx. rewrite <- Z.shiftr_div_pow2, <- Z.shiftl_mul_pow2 by lia.
  bitwise_as i. destruct (Z.leb_spec n i); simpl; [|by rewrite andb_false_r].
  rewrite testbit_shiftr, testbit_ones by lia. replace (i - n + n) with i by lia.
  destruct (Z.ltb_spec (i - n) (w - n)); [by rewrite andb_true_r|].
  by rewrite (testbit_high w x i) by (done || lia).
Qed.

(** Reading inside a list of words. *)
Lemma nth_word w ws i : 0 <= w -> Forall (in_word w) ws -> in_word w (nth i ws 0).
Proof.
  intros Hw H. destruct (nth_in_or_default i ws 0) as [Hin| ->].
  - rewrite List.Forall_forall in H. by apply H.
  - split; [done|]. apply Z.pow_pos_nonneg; lia.
Qed.

Lemma slice_take {A} (d : A) l n : (n <= length l)%nat -> slice d l 0 n = take n l.
Proof.
  revert l. induction n as [|n IH]; intros [|x l] Hn; simpl in *; try done; try lia.
  change (slice d (x :: l) 0 (S n)) with (x :: map (fun i => nth (0 + i) (x :: l) d) (seq 1 n)).
  f_equal. rewrite <- (IH l) by lia. unfold slice. rewrite <- seq_shift, map_map. done.
Qed.

(** Distinct numbers below [n] are at most [n] many. *)
Lemma NoDup_below_length (l : list Z) n : 0 <= n -> NoDup l ->
  (forall x, x ∈ l -> 0 <= x < n) -> Z.of_nat (length l) <= n.
Proof.
  intros Hn Hnd Hl. assert (Hs : l ⊆+ seqZ 0 n).
  { apply NoDup_submseteq; [done|]. intros x Hx. apply elem_of_seqZ. specialize (Hl x Hx). lia. }
  apply submseteq_length in Hs. rewrite length_seqZ in Hs. lia.
Qed.
