(* ===== verification/Me.v ===== *)
(** The microengine: programs that issue commands to the hardware, and the
    functions of lib/nfp/_c/me.c.

    A Micro-C function that touches the hardware is a [prog]: a tree whose nodes
    are the commands, CSR accesses and context arbitrations it issues, each
    continuing with the hardware's reply.  The hardware is a handler from its
    own state and an event to a reply and a new state; no behaviour of it is
    fixed here. *)
From S2P Require Import Prelude.
From Stdlib Require Import ZArith Lia List String.
From stdpp Require Import base list numbers option strings.
#[local] Open Scope string_scope.
#[local] Open Scope Z_scope.

(** ** Arguments the compiler may know *)

(** An argument with the answer of [__is_ct_const] on it. *)
Record carg := CArg { cval : Z; is_ct : bool }.
Definition ct (x : Z) : carg := CArg x true.
Definition rt (x : Z) : carg := CArg x false.

(** ** Events *)

Inductive sync_t := sig_done | ctx_swap.
#[export] Instance sync_t_eq_dec : EqDecision sync_t.
Proof. solve_decision. Defined.

Inductive local_csr :=
  | local_csr_active_ctx_sts | local_csr_active_ctx_wakeup_events
  | local_csr_same_me_signal | local_csr_next_neighbor_signal
  | local_csr_prev_neighbor_signal | local_csr_timestamp_low
  | local_csr_timestamp_high | local_csr_active_ctx_future_count
  | local_csr_active_future_count_signal | local_csr_crc_remainder
  | local_csr_profile_count | local_csr_csr_ctx_pointer
  | local_csr_cmd_indirect_ref_0 | local_csr_mailbox_0 | local_csr_mailbox_1
  | local_csr_mailbox_2 | local_csr_mailbox_3.
#[export] Instance local_csr_eq_dec : EqDecision local_csr.
Proof. solve_decision. Defined.

Inductive target := T_mem | T_cls | T_ct | T_pcie | T_nbi.
#[export] Instance target_eq_dec : EqDecision target.
Proof. solve_decision. Defined.

(** One bus command: [tgt[op, *data, hi, (<<8,) lo, ref]] with its signal mode,
    the transfer registers written with it, and the PREV_ALU word when the
    instruction carries [indirect_ref]. *)
Record cmd := Cmd {
  c_tgt : target; c_op : string; c_data : list Z;
  c_hi : Z; c_shl8 : bool; c_lo : Z;
  c_ref : option Z; c_sync : option sync_t; c_prev : option Z }.

Inductive crc_poly := crc_32 | crc_iscsi.
Inductive crc_bytes_t :=
  | crc_bytes_0_3 | crc_bytes_0_2 | crc_bytes_0_1 | crc_byte_0
  | crc_bytes_1_3 | crc_bytes_2_3 | crc_byte_3.

Inductive arb := A_kill | A_voluntary | A_bpt | A_signals (mask : Z) | A_wait.

Inductive event :=
  | ECmd (c : cmd)
  | ECsrRd (r : local_csr)
  | ECsrWr (r : local_csr) (v : Z)
  | ECrc (p : crc_poly) (b : crc_bytes_t) (d : Z)
  | EInpState (name : Z)
  | EArb (a : arb).

(** The hardware's answer: the words of the read transfer registers (or of the
    CSR), and whether the odd signal of a pair, the error signal, was raised. *)
Record reply := Reply { r_words : list Z; r_odd : bool }.

Inductive failure :=
  | CtAssert   (* a compile-time assertion stops the build *)
  | Halted     (* the context or the microengine was stopped *)
  | Undef      (* the C code has no defined behaviour here *)
  | Fuel.      (* the model's loop bound was reached *)
#[export] Instance failure_eq_dec : EqDecision failure.
Proof. solve_decision. Defined.

Inductive prog (A : Type) :=
  | Ret (a : A)
  | Stop (f : failure)
  | Vis (e : event) (k : reply -> prog A).
Arguments Ret {A} _.
Arguments Stop {A} _.
Arguments Vis {A} _ _.

Fixpoint bind {A B} (p : prog A) (f : A -> prog B) : prog B :=
  match p with
  | Ret a => f a
  | Stop x => Stop x
  | Vis e k => Vis e (fun r => bind (k r) f)
  end.

#[export] Instance prog_ret : MRet prog := fun A a => Ret a.
#[export] Instance prog_bind : MBind prog := fun A B f p => bind p f.
#[export] Instance prog_fmap : FMap prog := fun A B f p => bind p (fun a => Ret (f a)).

Definition trigger (e : event) : prog reply := Vis e (fun r => Ret r).
Definition word0 (r : reply) : Z := nth 0 (r_words r) 0.
Definition issue (c : cmd) : prog (list Z) := Vis (ECmd c) (fun r => Ret (r_words r)).
Definition local_csr_read (r : local_csr) : prog Z := Vis (ECsrRd r) (fun x => Ret (word0 x)).
Definition local_csr_write (r : local_csr) (v : Z) : prog unit :=
  Vis (ECsrWr r v) (fun _ => Ret tt).

(** assert.h: [ctassert] always checks; [try_ctassert] only checks an expression
    the compiler knows. *)
Definition ctassert (b : bool) : prog unit := if b then Ret tt else Stop CtAssert.
Definition try_ctassert (known b : bool) : prog unit :=
  if known then ctassert b else Ret tt.
(** [__RT_ASSERT] suspends the microengine; [assert] checks when it can at compile
    time, else at run time. *)
Definition rt_assert (b : bool) : prog unit := if b then Ret tt else Stop Halted.
Definition c_assert (known b : bool) : prog unit := if known then ctassert b else rt_assert b.

(** ** Execution against a hardware *)

Record outcome (St A : Type) := Outcome {
  o_trace : list event; o_res : A + failure; o_st : St }.
Arguments Outcome {St A} _ _ _.
Arguments o_trace {St A} _.
Arguments o_res {St A} _.
Arguments o_st {St A} _.

Section Exec.
Context {St : Type} (h : St -> event -> reply * St).

Fixpoint exec {A} (p : prog A) (s : St) : outcome St A :=
  match p with
  | Ret a => Outcome [] (inl a) s
  | Stop f => Outcome [] (inr f) s
  | Vis e k =>
      let rs := h s e in
      let o := exec (k (fst rs)) (snd rs) in
      Outcome (e :: o_trace o) (o_res o) (o_st o)
  end.

(** Total correctness: the program finishes, with a result and a state of [Q]. *)
Fixpoint wp {A} (p : prog A) (Q : A -> St -> Prop) (s : St) : Prop :=
  match p with
  | Ret a => Q a s
  | Stop _ => False
  | Vis e k => let rs := h s e in wp (k (fst rs)) Q (snd rs)
  end.

Lemma exec_bind {A B} (p : prog A) (f : A -> prog B) s :
  exec (bind p f) s =
  let o := exec p s in
  match o_res o with
  | inl a => let o' := exec (f a) (o_st o) in
             Outcome (o_trace o ++ o_trace o') (o_res o') (o_st o')
  | inr x => Outcome (o_trace o) (inr x) (o_st o)
  end.
Proof.
  revert s. induction p as [a|x|e k IH]; intros s; simpl; [|done|].
  - by destruct (exec (f a) s).
  - rewrite IH. simpl. by destruct (o_res _).
Qed.

Lemma wp_bind {A B} (p : prog A) (f : A -> prog B) (Q : B -> St -> Prop) s :
  wp (bind p f) Q s <-> wp p (fun a s' => wp (f a) Q s') s.
Proof. revert s. induction p; intros s; simpl; auto. Qed.

Lemma wp_mono {A} (p : prog A) (Q Q' : A -> St -> Prop) s :
  (forall a s', Q a s' -> Q' a s') -> wp p Q s -> wp p Q' s.
Proof. intros HQ. revert s. induction p; intros s; simpl; auto. Qed.

Lemma wp_exec {A} (p : prog A) (Q : A -> St -> Prop) s :
  wp p Q s <-> exists a, o_res (exec p s) = inl a /\ Q a (o_st (exec p s)).
Proof.
  revert s. induction p as [a|x|e k IH]; intros s; simpl.
  - split; [by eauto | by intros (a' & [= <-] & ?)].
  - split; [done | by intros (? & ? & _)].
  - apply IH.
Qed.

(** The events of a program, whatever the replies. *)
Fixpoint only_events {A} (P : event -> Prop) (p : prog A) : Prop :=
  match p with
  | Vis e k => P e /\ forall r, only_events P (k r)
  | _ => True
  end.

Lemma only_events_mono {A} (P Q : event -> Prop) (p : prog A) :
  (forall e, P e -> Q e) -> only_events P p -> only_events Q p.
Proof. intros HPQ. induction p as [a|x|e k IH]; cbn; [done..|]. intros [He Hk]. auto. Qed.

Lemma only_events_bind {A B} P (p : prog A) (f : A -> prog B) :
  only_events P p -> (forall a, only_events P (f a)) -> only_events P (bind p f).
Proof.
  induction p as [a|x|e k IH]; simpl; intros Hp Hf; [done..|].
  destruct Hp as [He Hk]. split; [done|]. auto.
Qed.

(** What the events of a program preserve, the program preserves. *)
Lemma wp_frame {A} (P : event -> Prop) (I : St -> Prop) (p : prog A) (Q : A -> St -> Prop) s :
  (forall s e, P e -> I s -> I (snd (h s e))) -> only_events P p -> I s ->
  wp p Q s -> wp p (fun a s' => Q a s' /\ I s') s.
Proof.
  intros HI. revert s. induction p as [a|x|e k IH]; simpl; intros s Hp Hs Hw; [done..|].
  destruct Hp as [He Hk]. apply IH; auto.
Qed.

(** Total correctness with the trace: the program finishes, and its result, the
    events it issued and the final state are in [Q]. *)
Fixpoint twp {A} (p : prog A) (Q : A -> list event -> St -> Prop) (s : St) : Prop :=
  match p with
  | Ret a => Q a [] s
  | Stop _ => False
  | Vis e k => let rs := h s e in twp (k (fst rs)) (fun a tr => Q a (e :: tr)) (snd rs)
  end.

Lemma twp_mono {A} (p : prog A) (Q Q' : A -> list event -> St -> Prop) s :
  (forall a tr s', Q a tr s' -> Q' a tr s') -> twp p Q s -> twp p Q' s.
Proof.
  revert Q Q' s. induction p as [a|x|e k IH]; intros Q Q' s HQ; simpl; auto.
  apply IH. auto.
Qed.

Lemma twp_bind {A B} (p : prog A) (f : A -> prog B) (Q : B -> list event -> St -> Prop) s :
  twp (bind p f) Q s <->
  twp p (fun a tr s' => twp (f a) (fun b tr' => Q b (List.app tr tr')) s') s.
Proof. revert Q s. induction p as [a|x|e k IH]; intros Q s; simpl; [done..|]. apply IH. Qed.

Lemma twp_exec {A} (p : prog A) (Q : A -> list event -> St -> Prop) s :
  twp p Q s <-> exists a, o_res (exec p s) = inl a /\ Q a (o_trace (exec p s)) (o_st (exec p s)).
Proof.
  revert Q s. induction p as [a|x|e k IH]; intros Q s; simpl.
  - split; [by eauto | by intros (a' & [= <-] & ?)].
  - split; [done | by intros (? & ? & _)].
  - apply IH.
Qed.
End Exec.

(** ** The PREV_ALU indirect reference word (struct nfp_mecsr_prev_alu) *)

Record prev_alu := PrevAlu {
  pa_ov_sm : Z; pa_ove_master : Z; pa_ove_data : Z; pa_ov_bm_csr : Z; pa_ov_len : Z;
  pa_length : Z; pa_ov_sig_num : Z; pa_ov_sig_ctx : Z; pa_data16 : Z }.

(** [ind.__raw = 0] *)
Definition prev_alu_zero : prev_alu := PrevAlu 0 0 0 0 0 0 0 0 0.

(** [ind.__raw]: assigning a bit-field keeps its low bits. *)
Definition prev_alu_raw (p : prev_alu) : Z :=
  (wrap 16 (pa_data16 p) ≪ 16) .| (wrap 1 (pa_ov_sig_ctx p) ≪ 14)
  .| (wrap 1 (pa_ov_sig_num p) ≪ 13) .| (wrap 5 (pa_length p) ≪ 8)
  .| (wrap 1 (pa_ov_len p) ≪ 7) .| (wrap 1 (pa_ov_bm_csr p) ≪ 6)
  .| (wrap 3 (pa_ove_data p) ≪ 3) .| (wrap 2 (pa_ove_master p) ≪ 1)
  .| wrap 1 (pa_ov_sm p).

(** [ind.ov_len = 1; ind.length = len] *)
Definition ind_len (len : Z) : Z :=
  prev_alu_raw (PrevAlu 0 0 0 0 1 len 0 0 0).

(** [ind.ove_data = ove; ind.data16 = d; ind.ov_len = 1; ind.length = len] *)
Definition ind_data (ove d len : Z) : Z :=
  prev_alu_raw (PrevAlu 0 0 ove 0 1 len 0 0 d).

(** What the command unit reads back from the word. *)
Definition prev_ov_len (raw : Z) : Z := field 7 1 raw.
Definition prev_length (raw : Z) : Z := field 8 5 raw.
Definition prev_data16 (raw : Z) : Z := field 16 16 raw.
Definition prev_ove_data (raw : Z) : Z := field 3 3 raw.

(** The number of references a command makes: the indirect length overrides the
    count of the instruction, and codes one less than the count. *)
Definition cmd_count (c : cmd) : option Z :=
  match c_prev c with
  | Some raw => if prev_ov_len raw =? 1 then Some (prev_length raw + 1) else c_ref c
  | None => c_ref c
  end.

(** The 40-bit address a command presents. *)
Definition cmd_addr (c : cmd) : Z :=
  (if c_shl8 c then c_hi c ≪ 8 else c_hi c) + c_lo c.

(** [((unsigned long long int)addr >> 8) & 0xff000000] and
    [(unsigned long long int)addr & 0xffffffff] *)
Definition addr_hi (addr : Z) : Z := (addr ≫ 8) .& 0xff000000.
Definition addr_lo (addr : Z) : Z := addr .& 0xffffffff.

Lemma addr_split addr : in_word 40 addr ->
  (addr_hi addr ≪ 8) + addr_lo addr = addr.
Proof.
  intros Ha. unfold addr_hi, addr_lo.
  change 0xff000000 with (Z.ones 8 ≪ 24). change 0xffffffff with (Z.ones 32).
  assert (E : ((addr ≫ 8) .& (Z.ones 8 ≪ 24)) ≪ 8 = (addr ≫ 32) ≪ 32).
  { bitwise_as i. destruct (Z.leb_spec 8 i), (Z.leb_spec 32 i); simpl; try done; try lia.
    - rewrite !testbit_shiftr, testbit_shiftl, testbit_ones by lia.
      replace (i - 8 + 8) with i by lia. replace (i - 32 + 32) with i by lia.
      destruct (Z.leb_spec 24 (i - 8)); [|lia]. simpl.
      destruct (Z.ltb_spec (i - 8 - 24) 8); [by rewrite andb_true_r|].
      rewrite (testbit_high 40 addr i) by (done || lia). done.
    - rewrite testbit_shiftl by lia. destruct (Z.leb_spec 24 (i - 8)); [lia|].
      by rewrite andb_false_l, andb_false_r. }
  rewrite E, Z.land_ones, Z.shiftl_mul_pow2, Z.shiftr_div_pow2 by lia. divlia.
Qed.

(** Decide the index comparisons left by [bitwise_as], rewriting under the
    shifts whose index becomes non-negative on the way. *)
Ltac bits_cases :=
  repeat (first
    [ match goal with
      | |- context [?a <=? ?b] => destruct (Z.leb_spec a b); try lia
      | |- context [?a <? ?b] => destruct (Z.ltb_spec a b); try lia
      end
    | progress (rewrite ?andb_false_r, ?andb_true_r, ?orb_false_r)
    | progress autorewrite with bits ]; simpl; try done).

(** Close equalities of one bit at two provably equal indices. *)
Ltac same_bit :=
  match goal with
  | |- Z.testbit ?x ?a = Z.testbit ?x ?b => replace a with b by lia; reflexivity
  | |- context [Z.testbit ?x ?a] => rewrite (testbit_high 32 x a) by (done || lia);
      rewrite ?orb_false_r; try same_bit; done
  end.

Lemma prev_alu_length p : prev_length (prev_alu_raw p) = wrap 5 (pa_length p).
Proof.
  unfold prev_length, field, prev_alu_raw. bitwise_as i.
  bits_cases; f_equal; lia.
Qed.

Lemma prev_alu_ov_len p : prev_ov_len (prev_alu_raw p) = wrap 1 (pa_ov_len p).
Proof.
  unfold prev_ov_len, field, prev_alu_raw. bitwise_as i.
  bits_cases; f_equal; lia.
Qed.

Lemma prev_alu_data16 p : prev_data16 (prev_alu_raw p) = wrap 16 (pa_data16 p).
Proof.
  unfold prev_data16, field, prev_alu_raw. bitwise_as i.
  bits_cases; f_equal; lia.
Qed.

Lemma prev_alu_ove_data p : prev_ove_data (prev_alu_raw p) = wrap 3 (pa_ove_data p).
Proof.
  unfold prev_ove_data, field, prev_alu_raw. bitwise_as i.
  bits_cases; f_equal; lia.
Qed.

(** ** me.c *)
Module MeC.

(** The 4-bit [me_id] at bit 3 and the 6-bit [il_id] at bit 25 of ACTIVE_CTX_STS. *)
Definition __ME : prog Z :=
  ctxsts ← local_csr_read local_csr_active_ctx_sts;
  Ret (add32 (field 25 6 ctxsts ≪ 4) (field 3 4 ctxsts)).

Inductive signal_t := kill | voluntary | bpt | other_signal.
#[export] Instance signal_t_eq_dec : EqDecision signal_t.
Proof. solve_decision. Defined.

Definition ctx_wait (sig : signal_t) : prog unit :=
  _ ← ctassert (bool_decide (sig = kill) || bool_decide (sig = voluntary)
                || bool_decide (sig = bpt));
  if bool_decide (sig = kill) then Vis (EArb A_kill) (fun _ => Stop Halted)
  else if bool_decide (sig = voluntary) then Vis (EArb A_voluntary) (fun _ => Ret tt)
  else Vis (EArb A_bpt) (fun _ => Ret tt).

(** The CSR write sits in the arbitration's defer slot: it takes effect before
    the context swaps out. *)
Definition wait_sig_mask (sigmask : Z) : prog unit :=
  _ ← local_csr_write local_csr_active_ctx_wakeup_events sigmask;
  Vis (EArb (A_signals sigmask)) (fun _ => Ret tt).

(** The fields of the SAME_ME, NEXT_ and PREV_NEIGHBOR_SIGNAL registers. *)
Definition SIGNAL_SIG_NO (x : Z) : Z := (x .& 0xf) ≪ 3.
Definition SIGNAL_CTX (x : Z) : Z := (x .& 7) ≪ 0.
Definition SIGNAL_NEXT_CTX : Z := 1 ≪ 7.

Definition signal_ctx (ctx sig_no : Z) : prog unit :=
  local_csr_write local_csr_same_me_signal (SIGNAL_SIG_NO sig_no .| SIGNAL_CTX ctx).

Definition signal_next_ctx (sig_no : Z) : prog unit :=
  local_csr_write local_csr_same_me_signal (SIGNAL_NEXT_CTX .| SIGNAL_SIG_NO sig_no).

Definition signal_next_me (ctx sig_no : Z) : prog unit :=
  local_csr_write local_csr_next_neighbor_signal (SIGNAL_SIG_NO sig_no .| SIGNAL_CTX ctx).

Definition signal_prev_me (ctx sig_no : Z) : prog unit :=
  local_csr_write local_csr_prev_neighbor_signal (SIGNAL_SIG_NO sig_no .| SIGNAL_CTX ctx).

(** [sig] is the number the compiler gave the signal ([__signal_number]). *)
Definition set_alarm (cycles sig : Z) : prog unit :=
  tslo ← local_csr_read local_csr_timestamp_low;
  _ ← local_csr_write local_csr_active_ctx_future_count (add32 tslo (cycles ≫ 4));
  local_csr_write local_csr_active_future_count_signal sig.

Definition clear_alarm : prog unit :=
  local_csr_write local_csr_active_future_count_signal 0.

Definition sleep (cycles sig : Z) : prog unit :=
  _ ← set_alarm cycles sig;
  Vis (EArb A_wait) (fun _ => Ret tt).

Definition halt : prog unit := Stop Halted.

(** [br_bset] branches when the bit is set. *)
Definition bit_test (data : Z) (bit_pos : carg) : prog Z :=
  _ ← ctassert (is_ct bit_pos);
  Ret (if Z.testbit data (cval bit_pos) then 1 else 0).

(** The index of the least significant set bit; [ffs] of zero is undefined. *)
Fixpoint ctz (p : positive) : Z :=
  match p with
  | xO p' => 1 + ctz p'
  | _ => 0
  end.

Definition ffs (data : Z) : option Z :=
  match data with
  | Zpos p => Some (ctz p)
  | _ => None
  end.

Definition ffs64 (data : Z) : option Z :=
  if negb (u32 data =? 0) then s32 <$> ffs (u32 data)
  else
    let hi := u32 (data ≫ 32) in
    if negb (hi =? 0) then (fun x => s32 (add32 x 32)) <$> ffs hi
    else Some (s32 (u32 (-1))).

(** [alu[r, --, B, v, >>rotn]] *)
Definition ROTR32 (v n : Z) : Z := (v ≫ n) .| shl32 v (32 - n).

(** [dbl_shf[r, a, b, >>indirect]]: the low word of [a:b] shifted by the low
    five bits of the previous ALU instruction's A operand. *)
Definition dbl_shf (a b n : Z) : Z := u32 (((a ≪ 32) .| b) ≫ (wrap 5 n)).

(** A C shift by 32 or more of a 32-bit word is undefined: [None]. *)
Definition c_shl (x n : Z) : option Z := if n <? 32 then Some (shl32 x n) else None.

Definition rotr32 (val amt : carg) : option Z :=
  let v := cval val in
  if is_ct amt then
    let a := cval amt mod 32 in
    if is_ct val then
      hi ← c_shl v (32 - a);
      Some ((v ≫ a) .| hi)
    else if a =? 0 then Some v
    else Some (ROTR32 v a)
  else Some (dbl_shf v v (cval amt)).

Definition rotl32 (val amt : carg) : option Z :=
  rotr32 val (CArg (sub32 32 (cval amt)) (is_ct amt)).

Definition crc_read : prog Z := local_csr_read local_csr_crc_remainder.
Definition crc_write (residue : Z) : prog unit :=
  local_csr_write local_csr_crc_remainder residue.

(** The two byte-select dispatches; [crc_bytes_t] only has the seven asserted
    constants. *)
Definition crc_32_be (data : Z) (bspec : crc_bytes_t) : prog Z :=
  Vis (ECrc crc_32 bspec data) (fun r => Ret (word0 r)).
Definition crc_iscsi_be (data : Z) (bspec : crc_bytes_t) : prog Z :=
  Vis (ECrc crc_iscsi bspec data) (fun r => Ret (word0 r)).

Definition inp_state_test (statename : carg) : prog Z :=
  _ ← ctassert (is_ct statename);
  Vis (EInpState (cval statename)) (fun r => Ret (if word0 r =? 0 then 0 else 1)).

(** Two 32-bit reads, low word first. *)
Definition me_tsc_read : prog Z :=
  lo ← local_csr_read local_csr_timestamp_low;
  hi ← local_csr_read local_csr_timestamp_high;
  Ret ((hi ≪ 32) .| lo).

Definition me_pc_read : prog Z :=
  v ← local_csr_read local_csr_profile_count;
  Ret (u16 v).

End MeC.

(** ** Commands issued *)

(** [__ct_const_val]: the assembler needs a constant. *)
Definition ct_const_val (x : carg) (v : Z) : prog Z :=
  if is_ct x then Ret v else Stop CtAssert.

(** [__is_aligned(x, n)] *)
Definition is_aligned (x n : Z) : bool := x mod n =? 0.

(** The command [c] transfers [count] references at [addr] with operation [op]. *)
Record presents (c : cmd) (t : target) (op : string) (data : list Z) (addr : Z)
    (count : option Z) (sync : option sync_t) : Prop := Presents {
  pr_tgt : c_tgt c = t; pr_op : c_op c = op; pr_data : c_data c = data;
  pr_addr : cmd_addr c = addr; pr_count : cmd_count c = count; pr_sync : c_sync c = sync }.

(** Whatever the hardware does, [p] issues exactly the command [c] and returns
    [f] of the words of the reply. *)
Definition issues_one {A} (p : prog A) (c : cmd) (f : list Z -> A) : Prop :=
  forall St (h : St -> event -> reply * St) s,
    exec h p s = Outcome [ECmd c] (inl (f (r_words (fst (h s (ECmd c))))))
                         (snd (h s (ECmd c))).

Lemma issues_one_issue c : issues_one (issue c) c (fun ws => ws).
Proof. done. Qed.

Lemma issues_one_ret {A B} (p : prog A) c (f : list Z -> A) (g : A -> B) :
  issues_one p c f -> issues_one (bind p (fun a => Ret (g a))) c (fun ws => g (f ws)).
Proof. intros H St h s. rewrite exec_bind, H. done. Qed.

Lemma exec_issues {A B St} (p : prog A) c (g : list Z -> A) (f : A -> prog B)
    (h : St -> event -> reply * St) s : issues_one p c g ->
  exec h (bind p f) s =
  let r := h s (ECmd c) in
  let o := exec h (f (g (r_words (fst r)))) (snd r) in
  Outcome (ECmd c :: o_trace o) (o_res o) (o_st o).
Proof. intros H. rewrite exec_bind, H. reflexivity. Qed.

(** The same for a program run for its trace. *)
Lemma twp_issues {A B St} (p : prog A) c (g : list Z -> A) (f : A -> prog B)
    (h : St -> event -> reply * St) Q s : issues_one p c g ->
  twp h (f (g (r_words (fst (h s (ECmd c)))))) (fun b tr => Q b (ECmd c :: tr)) (snd (h s (ECmd c))) ->
  twp h (bind p f) Q s.
Proof.
  intros H Hf. apply twp_bind, twp_exec. rewrite H. by eexists.
Qed.

Lemma ind_len_count n c : 1 <= n <= 32 -> c_prev c = Some (ind_len (sub32 n 1)) ->
  cmd_count c = Some n.
Proof.
  intros Hn Hc. unfold cmd_count, ind_len in *. rewrite Hc.
  rewrite prev_alu_ov_len, prev_alu_length. simpl. f_equal.
  unfold sub32. rewrite !wrap_id; unfold in_word; try lia.
  rewrite wrap_id; unfold in_word; lia.
Qed.

(** A compile-time assertion that holds leaves the program as it is. *)
Lemma try_ctassert_true {A} k b (p : prog A) : b = true ->
  bind (try_ctassert k b) (fun _ => p) = p.
Proof. intros ->. by destruct k. Qed.

Lemma ctassert_true {A} b (p : prog A) : b = true -> bind (ctassert b) (fun _ => p) = p.
Proof. by intros ->. Qed.

(** One case per function of a table. *)
Ltac table_cases H tac := repeat (destruct H as [<-|H]; [tac|]); destruct H.

Ltac head t := match t with ?f _ => head f | _ => t end.

(** Unfold the function whose command the goal is about. *)
Ltac unfold_issuer :=
  match goal with |- context [issues_one ?p] => let f := head p in unfold f end.

(** Discharge the compile-time assertions in front of a command; [Hwh] is the
    alignment of the size. *)
Ltac drop_asserts_at Hwh :=
  unfold mbind, prog_bind;
  rewrite ?try_ctassert_true
    by (first [apply Z.leb_le; lia | apply Z.ltb_lt; lia | apply Z.eqb_eq; exact Hwh
              | apply negb_true_iff, Z.eqb_neq; lia]).

Ltac drop_asserts Hwh := unfold_issuer; drop_asserts_at Hwh.
