(* ===== verification/RegUtils.v ===== *)
(** lib/std/_c/reg_utils.c: setting, copying and comparing regions of registers
    or local memory through manually unrolled loops. *)
From S2P Require Import Prelude Me.
From Stdlib Require Import ZArith Lia List.
From stdpp Require Import base list numbers option.

#[local] Open Scope Z_scope.

Module RegUtils.

(** The registers a pointer can reach by index: local memory and the general
    register array, as 32-bit words. *)
Record regs := Regs { lmem : list Z; gpr : list Z }.

(** A pointer and where the compiler says it points ([__is_in_lmem],
    [__is_in_reg]). *)
Inductive ptr := InLmem (i : nat) | InReg (i : nat) | InMem (a : Z).

Definition is_in_lmem (p : ptr) : bool := match p with InLmem _ => true | _ => false end.
Definition is_in_reg (p : ptr) : bool := match p with InReg _ => true | _ => false end.
Definition is_in_reg_or_lmem (p : ptr) : bool := is_in_lmem p || is_in_reg p.

(** [((__lmem unsigned int * )p)[x]] and [((__gpr unsigned int * )p)[x]] *)
Definition get (m : regs) (p : ptr) (x : nat) : Z :=
  match p with
  | InLmem i => nth (i + x)%nat (lmem m) 0
  | InReg i => nth (i + x)%nat (gpr m) 0
  | InMem _ => 0
  end.

Definition set (m : regs) (p : ptr) (x : nat) (v : Z) : regs :=
  match p with
  | InLmem i => Regs (<[i + x := v]> (lmem m))%nat (gpr m)
  | InReg i => Regs (lmem m) (<[i + x := v]> (gpr m))%nat
  | InMem _ => m
  end.

(** The indices EXEC_MACRO runs on, in order, for each case of the switch. *)
Definition SWITCH_CASE (n : Z) : list nat :=
  match n with
  | 4 => [0]%nat
  | 8 => [0; 1]%nat
  | 12 => [0; 1; 2]%nat
  | 16 => [0; 1; 2; 3]%nat
  | 20 => [0; 1; 2; 3; 4]%nat
  | 24 => [0; 1; 2; 3; 4; 5]%nat
  | 28 => [0; 1; 2; 3; 4; 5; 6]%nat
  | 32 => [0; 1; 2; 3; 4; 5; 6; 7]%nat
  | 36 => [0; 1; 2; 3; 4; 5; 6; 7; 8]%nat
  | 40 => [0; 1; 2; 3; 4; 5; 6; 7; 8; 9]%nat
  | 44 => [0; 1; 2; 3; 4; 5; 6; 7; 8; 9; 10]%nat
  | 48 => [0; 1; 2; 3; 4; 5; 6; 7; 8; 9; 10; 11]%nat
  | 52 => [0; 1; 2; 3; 4; 5; 6; 7; 8; 9; 10; 11; 12]%nat
  | 56 => [0; 1; 2; 3; 4; 5; 6; 7; 8; 9; 10; 11; 12; 13]%nat
  | 60 => [0; 1; 2; 3; 4; 5; 6; 7; 8; 9; 10; 11; 12; 13; 14]%nat
  | 64 => [0; 1; 2; 3; 4; 5; 6; 7; 8; 9; 10; 11; 12; 13; 14; 15]%nat
  | _ => []
  end.

(** The indices whose equality is tested, in order, for each case; [None] when
    no case matches and [ret] keeps its initial value. *)
Definition EQ_SWITCH_CASE (n : Z) : option (list nat) :=
  match n with
  | 4 => Some [0]%nat
  | 8 => Some [0; 1]%nat
  | 12 => Some [0; 1; 2]%nat
  | 16 => Some [0; 1; 2; 3]%nat
  | 20 => Some [0; 1; 2; 3; 4]%nat
  | 24 => Some [0; 1; 2; 3; 4; 5]%nat
  | 28 => Some [0; 1; 2; 3; 4; 5; 6]%nat
  | 32 => Some [0; 1; 2; 3; 4; 5; 6; 7]%nat
  | 36 => Some [0; 1; 2; 3; 4; 5; 6; 7; 8]%nat
  | 40 => Some [0; 1; 2; 3; 4; 5; 6; 7; 8; 9]%nat
  | 44 => Some [0; 1; 2; 3; 4; 5; 6; 7; 8; 9; 10]%nat
  | 48 => Some [0; 1; 2; 3; 4; 5; 6; 7; 8; 9; 10; 11]%nat
  | 52 => Some [0; 1; 2; 3; 4; 5; 6; 7; 8; 9; 10; 11; 12]%nat
  | 56 => Some [0; 1; 2; 3; 4; 5; 6; 7; 8; 9; 10; 11; 12; 13]%nat
  | 60 => Some [0; 1; 2; 3; 4; 5; 6; 7; 8; 9; 10; 11; 12; 13; 14]%nat
  | 64 => Some [0; 1; 2; 3; 4; 5; 6; 7; 8; 9; 10; 11; 12; 13; 14; 15]%nat
  | _ => None
  end.

Definition check_args (ok : bool) (n : carg) : option failure :=
  if ok && is_ct n && (cval n <=? 64) && (cval n mod 4 =? 0) then None
  else Some CtAssert.

Definition reg_set (d : ptr) (s_val : Z) (n : carg) (m : regs) : regs + failure :=
  match check_args (is_in_reg_or_lmem d) n with
  | Some f => inr f
  | None => inl (fold_left (fun m x => set m d x s_val) (SWITCH_CASE (cval n)) m)
  end.

Definition reg_zero (s : ptr) (n : carg) (m : regs) : regs + failure := reg_set s 0 n m.

(** The four placements of [d] and [s] run the same copies, each word read from
    the registers as the copies before it left them. *)
Definition reg_cp (d s : ptr) (n : carg) (m : regs) : regs + failure :=
  match check_args (is_in_reg_or_lmem d && is_in_reg_or_lmem s) n with
  | Some f => inr f
  | None => inl (fold_left (fun m x => set m d x (get m s x)) (SWITCH_CASE (cval n)) m)
  end.

Definition reg_eq (s1 s2 : ptr) (n : carg) (m : regs) : Z + failure :=
  match check_args (is_in_reg_or_lmem s1 && is_in_reg_or_lmem s2) n with
  | Some f => inr f
  | None =>
      match EQ_SWITCH_CASE (cval n) with
      | Some xs => inl (if forallb (fun x => get m s1 x =? get m s2 x) xs then 1 else 0)
      | None => inl 0
      end
  end.

(** ** Specification *)

(** The [k] words a pointer designates, and their being inside the array. *)
Definition region (m : regs) (p : ptr) (k : nat) : list Z := map (get m p) (seq 0 k).

Definition fits (m : regs) (p : ptr) (k : nat) : Prop :=
  match p with
  | InLmem i => (i + k <= length (lmem m))%nat
  | InReg i => (i + k <= length (gpr m))%nat
  | InMem _ => False
  end.

(** Two pointers to the same word. *)
Definition same_word (p : ptr) (x : nat) (q : ptr) (y : nat) : Prop :=
  match p, q with
  | InLmem i, InLmem j | InReg i, InReg j => (i + x = j + y)%nat
  | _, _ => False
  end.
#[export] Instance same_word_dec p x q y : Decision (same_word p x q y).
Proof. destruct p, q; simpl; apply _. Defined.

(** No word of [s] is overwritten before it is copied. *)
Definition copies_forward (d s : ptr) (k : nat) : Prop :=
  forall x y, (x < y < k)%nat -> ~ same_word d x s y.

Lemma get_set m p x v q y : fits m p (S x) ->
  get (set m p x v) q y = if decide (same_word p x q y) then v else get m q y.
Proof.
  unfold get, set, same_word. destruct p as [i|i|], q as [j|j|]; simpl; intros Hf;
    repeat case_decide; try done; rewrite !nth_lookup.
  - rewrite <- H. rewrite list_lookup_insert_eq by lia. done.
  - rewrite list_lookup_insert_ne by lia. done.
  - rewrite <- H. rewrite list_lookup_insert_eq by lia. done.
  - rewrite list_lookup_insert_ne by lia. done.
Qed.

Lemma fits_le m p j k : (j <= k)%nat -> fits m p k -> fits m p j.
Proof. destruct p; simpl; lia. Qed.

Lemma fits_set m p x v q k : fits m q k -> fits (set m p x v) q k.
Proof. destruct p, q; simpl; rewrite ?length_insert; lia. Qed.

Lemma same_word_self p x y : same_word p x p y -> x = y.
Proof. destruct p; simpl; lia. Qed.

Lemma same_word_get m p x q y : same_word p x q y -> get m p x = get m q y.
Proof. destruct p, q; simpl; try done; by intros ->. Qed.

(** The unrolled tables run on the first [n / 4] indices, in order. *)
Lemma SWITCH_CASE_seq n : 0 <= n <= 64 -> n mod 4 = 0 ->
  SWITCH_CASE n = seq 0 (Z.to_nat (n / 4)).
Proof.
  intros Hn H4. assert (E : n = 4 * (n / 4)) by divlia.
  assert (Hk : 0 <= n / 4 <= 16) by divlia. revert E Hk.
  generalize (n / 4). intros k -> Hk.
  assert (Hin : In k (map Z.of_nat (seq 0 17))).
  { apply in_map_iff. exists (Z.to_nat k). split; [lia|]. apply in_seq. lia. }
  cbv in Hin. repeat (destruct Hin as [<-|Hin]; [reflexivity|]). done.
Qed.

Lemma EQ_SWITCH_CASE_seq n : 0 < n <= 64 -> n mod 4 = 0 ->
  EQ_SWITCH_CASE n = Some (seq 0 (Z.to_nat (n / 4))).
Proof.
  intros Hn H4. assert (E : n = 4 * (n / 4)) by divlia.
  assert (Hk : 1 <= n / 4 <= 16) by divlia. revert E Hk.
  generalize (n / 4). intros k -> Hk.
  assert (Hin : In k (map Z.of_nat (seq 1 16))).
  { apply in_map_iff. exists (Z.to_nat k). split; [lia|]. apply in_seq. lia. }
  cbv in Hin. repeat (destruct Hin as [<-|Hin]; [reflexivity|]). done.
Qed.

Lemma check_args_ok ok n : ok = true -> cval n <= 64 -> cval n mod 4 = 0 ->
  is_ct n = true -> check_args ok n = None.
Proof.
  intros -> Hn H4 Hc. unfold check_args. rewrite Hc.
  by rewrite (proj2 (Z.leb_le _ _) Hn), (proj2 (Z.eqb_eq _ _) H4).
Qed.

Lemma fits_reg m p k : fits m p k -> is_in_reg_or_lmem p = true.
Proof. by destruct p. Qed.

(** A loop writing [f m x] at [d + x], when [f] reads nothing the steps before
    it wrote: every word takes its value, and no other word changes. *)
Lemma copy_loop d (f : regs -> nat -> Z) (v : nat -> Z) k m :
  fits m d k ->
  (forall j m', (j < k)%nat ->
     (forall q y, (forall x, (x < j)%nat -> ~ same_word d x q y) -> get m' q y = get m q y) ->
     f m' j = v j) ->
  let m' := fold_left (fun m x => set m d x (f m x)) (seq 0 k) m in
  (forall x, (x < k)%nat -> get m' d x = v x) /\
  (forall q y, (forall x, (x < k)%nat -> ~ same_word d x q y) -> get m' q y = get m q y) /\
  fits m' d k.
Proof.
  intros Hfit Hf. cut (forall j, (j <= k)%nat ->
    let m' := fold_left (fun m x => set m d x (f m x)) (seq 0 j) m in
    (forall x, (x < j)%nat -> get m' d x = v x) /\
    (forall q y, (forall x, (x < j)%nat -> ~ same_word d x q y) -> get m' q y = get m q y) /\
    fits m' d k); [intros H; by apply (H k)|].
  induction j as [|j IH]; intros Hj; cbv zeta; [split_ands; [lia|done|done]|].
  destruct IH as (IHd & IHo & IHf); [lia|].
  rewrite seq_S, fold_left_app. simpl.
  set (m1 := fold_left _ (seq 0 j) m) in *.
  assert (Hfj : fits m1 d (S j)) by (apply (fits_le _ _ _ k); [lia|done]).
  split_ands.
  - intros x Hx. rewrite get_set by done. case_decide as Hs.
    + apply same_word_self in Hs as <-. apply Hf; [lia|done].
    + apply IHd. destruct (decide (x = j)) as [->|]; [|lia].
      exfalso. apply Hs. destruct d; simpl in *; done.
  - intros q y Hq. rewrite get_set, decide_False by (done || (apply Hq; lia)).
    apply IHo. intros x Hx. apply Hq. lia.
  - by apply fits_set.
Qed.

Lemma region_eq m m' p q k :
  (forall x, (x < k)%nat -> get m p x = get m' q x) -> region m p k = region m' q k.
Proof. intros H. apply map_ext_in. intros x Hx. apply in_seq in Hx. apply H. lia. Qed.

(** [reg_cp] is a forward copy. *)
Lemma reg_cp_copies d s n m :
  is_ct n = true -> 0 <= cval n <= 64 -> cval n mod 4 = 0 ->
  let k := Z.to_nat (cval n / 4) in
  fits m d k -> fits m s k -> copies_forward d s k ->
  exists m', reg_cp d s n m = inl m' /\ region m' d k = region m s k /\
    (forall q y, (forall x, (x < k)%nat -> ~ same_word d x q y) -> get m' q y = get m q y).
Proof.
  intros Hc Hn H4 k Hd Hs Hov. unfold reg_cp.
  rewrite check_args_ok by (rewrite ?(fits_reg m d k), ?(fits_reg m s k) by done; lia || done).
  rewrite SWITCH_CASE_seq by done. fold k.
  destruct (copy_loop d (fun m x => get m s x) (get m s) k m) as (H1 & H2 & _); [done| |].
  { intros j m' Hj Hout. apply Hout. intros x Hx. by apply Hov. }
  eexists. split; [done|]. split; [by apply region_eq|done].
Qed.

(** Setting n words of a region fills exactly those words with the value. *)
Theorem reg_set_spec d v n m :
  is_ct n = true -> 0 <= cval n <= 64 -> cval n mod 4 = 0 ->
  let k := Z.to_nat (cval n / 4) in
  fits m d k ->
  exists m', reg_set d v n m = inl m' /\ region m' d k = replicate k v /\
    (forall q y, (forall x, (x < k)%nat -> ~ same_word d x q y) -> get m' q y = get m q y).
Proof.
  intros Hc Hn H4 k Hd. unfold reg_set.
  rewrite check_args_ok by (rewrite ?(fits_reg m d k) by done; lia || done).
  rewrite SWITCH_CASE_seq by done. fold k.
  destruct (copy_loop d (fun _ _ => v) (fun _ => v) k m) as (H1 & H2 & _); [done..|].
  eexists. split; [done|]. split; [|done].
  apply nth_ext with 0 0; unfold region; rewrite length_map, length_seq.
  { by rewrite length_replicate. }
  intros i Hi. rewrite nth_indep with (d' := get (fold_left (fun m x => set m d x v) (seq 0 k) m) d 0)
    by (by rewrite length_map, length_seq).
  rewrite map_nth, seq_nth, H1 by lia. symmetry.
  rewrite nth_lookup, lookup_replicate_2 by lia. done.
Qed.

Lemma reg_set_spec_witness :
  exists m', reg_set (InReg 1) 7 (ct 8) (Regs [] [1; 2; 3; 4]) = inl m' /\
    region m' (InReg 1) 2 = [7; 7].
Proof.
  destruct (reg_set_spec (InReg 1) 7 (ct 8) (Regs [] [1; 2; 3; 4])) as (m' & E & Hr & _).
  - reflexivity.
  - cbn. lia.
  - reflexivity.
  - apply Nat.leb_le. reflexivity.
  - exists m'. exact (conj E Hr).
Defined.

(** [reg_eq] compares the regions. *)
Lemma reg_eq_compares s1 s2 n m :
  is_ct n = true -> 0 < cval n <= 64 -> cval n mod 4 = 0 ->
  let k := Z.to_nat (cval n / 4) in
  fits m s1 k -> fits m s2 k ->
  exists r, reg_eq s1 s2 n m = inl r /\ (r = 0 \/ r = 1) /\
    (r = 1 <-> region m s1 k = region m s2 k).
Proof.
  intros Hc Hn H4 k H1 H2. unfold reg_eq.
  rewrite check_args_ok by (rewrite ?(fits_reg m s1 k), ?(fits_reg m s2 k) by done; lia || done).
  rewrite EQ_SWITCH_CASE_seq by done. fold k.
  assert (E : forallb (fun x => get m s1 x =? get m s2 x) (seq 0 k) = true
              <-> region m s1 k = region m s2 k).
  { rewrite forallb_forall. unfold region. split.
    - intros H. apply map_ext_in. intros x Hx. by apply Z.eqb_eq, H.
    - intros H x Hx. apply Z.eqb_eq. eapply ext_in_map in H; done. }
  destruct (forallb _ _); eexists; (split; [done|]); (split; [lia|]);
    split; intros; try lia; try by apply E.
  apply E in H. done.
Qed.

(** Copying n words between two regions of registers or local memory,
    overlapping only forwards, leaves the old source words in the destination and
    changes no other word; comparing the regions tells whether their words are
    equal. *)
Theorem reg_cp_eq_spec d s n m :
  is_ct n = true -> 0 < cval n <= 64 -> cval n mod 4 = 0 ->
  let k := Z.to_nat (cval n / 4) in
  fits m d k -> fits m s k -> copies_forward d s k ->
  exists m', reg_cp d s n m = inl m' /\ region m' d k = region m s k /\
    (forall q y, (forall x, (x < k)%nat -> ~ same_word d x q y) -> get m' q y = get m q y) /\
    exists r, reg_eq d s n m = inl r /\ (r = 0 \/ r = 1) /\
      (r = 1 <-> region m d k = region m s k) /\
      (r = 1 -> forall q y, get m' q y = get m q y).
Proof.
  intros Hc Hn H4 k Hd Hs Hov.
  destruct (reg_cp_copies d s n m) as (m' & E & Hr & Ho); [done|lia|done..|].
  destruct (reg_eq_compares d s n m) as (r & Er & H01 & Heq); [done..|].
  exists m'. split_ands; [done..|]. exists r. split_ands; [done..|].
  intros H1. apply Heq in H1. intros q y.
  destruct (decide (Exists (fun x => same_word d x q y) (seq 0 k))) as [Hex|Hno].
  - apply List.Exists_exists in Hex as (x & Hx & Hsw). rewrite <- (same_word_get _ _ _ _ _ Hsw), <- (same_word_get _ _ _ _ _ Hsw).
    rewrite <- H1 in Hr. unfold region in Hr.
    by apply ext_in_map with (a := x) in Hr.
  - apply Ho. intros x Hx Hsw. apply Hno, List.Exists_exists. exists x.
    split; [|done]. apply in_seq. fold k in Hx. lia.
Qed.

Lemma reg_cp_eq_spec_witness :
  exists m', reg_cp (InReg 0) (InLmem 2) (ct 8) (Regs [9; 9; 5; 6] [1; 2; 3]) = inl m' /\
    region m' (InReg 0) 2 = [5; 6].
Proof.
  destruct (reg_cp_eq_spec (InReg 0) (InLmem 2) (ct 8) (Regs [9; 9; 5; 6] [1; 2; 3]))
    as (m' & E & Hr & _).
  - reflexivity.
  - cbn. lia.
  - reflexivity.
  - apply Nat.leb_le. reflexivity.
  - apply Nat.leb_le. reflexivity.
  - intros x y _ [].
  - exists m'. exact (conj E Hr).
Defined.

End RegUtils.
