(* ===== verification/MemBulk.v ===== *)
(** lib/nfp/_c/mem_bulk.c: bulk reads and writes of memory.

    [MEM_CMD] is the macro all the functions expand; a read returns the words of
    its transfer registers, a write takes them.  The check that [data] is a read
    (write) transfer register holds by this typing, and so does [sync] being one
    of the two constants.  [*sig] is the signal of the command itself. *)
From Stdlib Require Import ZArith Lia List String.
From stdpp Require Import base list numbers option strings.
From S2P Require Import Prelude Me.
#[local] Open Scope Z_scope.

Module MemBulk.

Definition MEM_CMD (cmdname : string) (data : list Z) (addr : Z)
    (size max_size : carg) (sync : sync_t) (shift : Z) : prog (list Z) :=
  let count := cval size ≫ shift in
  let max_count := cval max_size ≫ shift in
  _ ← try_ctassert (is_ct size) (negb (cval size =? 0));
  let mem r ind :=
    issue (Cmd T_mem cmdname data (addr_hi addr) true (addr_lo addr)
               (Some r) (Some sync) ind) in
  if is_ct size then
    if count <=? 8 then mem count None
    else mem count (Some (ind_len (sub32 count 1)))
  else
    r ← ct_const_val max_size max_count;
    mem r (Some (ind_len (sub32 count 1))).


Definition __mem_read64 (addr : Z) (size max_size : carg) (sync : sync_t) : prog (list Z) :=
  _ ← try_ctassert (is_ct size) (is_aligned (cval size) 8);
  _ ← try_ctassert (is_ct size) (cval size <=? 128);
  MEM_CMD "read" [] addr size max_size sync 3.

Definition mem_read64 (addr : Z) (size : carg) : prog (list Z) :=
  __mem_read64 addr size size ctx_swap.

Definition __mem_read64_le (addr : Z) (size max_size : carg) (sync : sync_t) : prog (list Z) :=
  _ ← try_ctassert (is_ct size) (is_aligned (cval size) 8);
  _ ← try_ctassert (is_ct size) (cval size <=? 128);
  MEM_CMD "read_le" [] addr size max_size sync 3.

Definition mem_read64_le (addr : Z) (size : carg) : prog (list Z) :=
  __mem_read64_le addr size size ctx_swap.

Definition __mem_read64_swap (addr : Z) (size max_size : carg) (sync : sync_t) : prog (list Z) :=
  _ ← try_ctassert (is_ct size) (is_aligned (cval size) 8);
  _ ← try_ctassert (is_ct size) (cval size <=? 128);
  MEM_CMD "read_swap" [] addr size max_size sync 3.

Definition mem_read64_swap (addr : Z) (size : carg) : prog (list Z) :=
  __mem_read64_swap addr size size ctx_swap.

Definition __mem_read64_swap_le (addr : Z) (size max_size : carg) (sync : sync_t) : prog (list Z) :=
  _ ← try_ctassert (is_ct size) (is_aligned (cval size) 8);
  _ ← try_ctassert (is_ct size) (cval size <=? 128);
  MEM_CMD "read_swap_le" [] addr size max_size sync 3.

Definition mem_read64_swap_le (addr : Z) (size : carg) : prog (list Z) :=
  __mem_read64_swap_le addr size size ctx_swap.

Definition __mem_read32 (addr : Z) (size max_size : carg) (sync : sync_t) : prog (list Z) :=
  _ ← try_ctassert (is_ct size) (is_aligned (cval size) 4);
  _ ← try_ctassert (is_ct size) (cval size <=? 128);
  MEM_CMD "read32" [] addr size max_size sync 2.

Definition mem_read32 (addr : Z) (size : carg) : prog (list Z) :=
  __mem_read32 addr size size ctx_swap.

Definition __mem_read32_le (addr : Z) (size max_size : carg) (sync : sync_t) : prog (list Z) :=
  _ ← try_ctassert (is_ct size) (is_aligned (cval size) 4);
  _ ← try_ctassert (is_ct size) (cval size <=? 128);
  MEM_CMD "read32_le" [] addr size max_size sync 2.

Definition mem_read32_le (addr : Z) (size : carg) : prog (list Z) :=
  __mem_read32_le addr size size ctx_swap.

Definition __mem_read32_swap (addr : Z) (size max_size : carg) (sync : sync_t) : prog (list Z) :=
  _ ← try_ctassert (is_ct size) (is_aligned (cval size) 4);
  _ ← try_ctassert (is_ct size) (cval size <=? 128);
  MEM_CMD "read32_swap" [] addr size max_size sync 2.

Definition mem_read32_swap (addr : Z) (size : carg) : prog (list Z) :=
  __mem_read32_swap addr size size ctx_swap.

Definition __mem_read32_swap_le (addr : Z) (size max_size : carg) (sync : sync_t) : prog (list Z) :=
  _ ← try_ctassert (is_ct size) (is_aligned (cval size) 4);
  _ ← try_ctassert (is_ct size) (cval size <=? 128);
  MEM_CMD "read32_swap_le" [] addr size max_size sync 2.

Definition mem_read32_swap_le (addr : Z) (size : carg) : prog (list Z) :=
  __mem_read32_swap_le addr size size ctx_swap.

Definition __mem_read8 (addr : Z) (size max_size : carg) (sync : sync_t) : prog (list Z) :=
  _ ← try_ctassert (is_ct size) (cval size <=? 32);
  MEM_CMD "read8" [] addr size max_size sync 0.

Definition mem_read8 (addr : Z) (size : carg) : prog (list Z) :=
  __mem_read8 addr size size ctx_swap.

Definition __mem_write64 (data : list Z) (addr : Z) (size max_size : carg) (sync : sync_t) : prog unit :=
  _ ← try_ctassert (is_ct size) (is_aligned (cval size) 8);
  _ ← try_ctassert (is_ct size) (cval size <=? 128);
  _ ← MEM_CMD "write" data addr size max_size sync 3;
  Ret tt.

Definition mem_write64 (data : list Z) (addr : Z) (size : carg) : prog unit :=
  __mem_write64 data addr size size ctx_swap.

Definition __mem_write64_le (data : list Z) (addr : Z) (size max_size : carg) (sync : sync_t) : prog unit :=
  _ ← try_ctassert (is_ct size) (is_aligned (cval size) 8);
  _ ← try_ctassert (is_ct size) (cval size <=? 128);
  _ ← MEM_CMD "write_le" data addr size max_size sync 3;
  Ret tt.

Definition mem_write64_le (data : list Z) (addr : Z) (size : carg) : prog unit :=
  __mem_write64_le data addr size size ctx_swap.

Definition __mem_write64_swap (data : list Z) (addr : Z) (size max_size : carg) (sync : sync_t) : prog unit :=
  _ ← try_ctassert (is_ct size) (is_aligned (cval size) 8);
  _ ← try_ctassert (is_ct size) (cval size <=? 128);
  _ ← MEM_CMD "write_swap" data addr size max_size sync 3;
  Ret tt.

Definition mem_write64_swap (data : list Z) (addr : Z) (size : carg) : prog unit :=
  __mem_write64_swap data addr size size ctx_swap.

Definition __mem_write64_swap_le (data : list Z) (addr : Z) (size max_size : carg) (sync : sync_t) : prog unit :=
  _ ← try_ctassert (is_ct size) (is_aligned (cval size) 8);
  _ ← try_ctassert (is_ct size) (cval size <=? 128);
  _ ← MEM_CMD "write_swap_le" data addr size max_size sync 3;
  Ret tt.

Definition mem_write64_swap_le (data : list Z) (addr : Z) (size : carg) : prog unit :=
  __mem_write64_swap_le data addr size size ctx_swap.

Definition __mem_write32 (data : list Z) (addr : Z) (size max_size : carg) (sync : sync_t) : prog unit :=
  _ ← try_ctassert (is_ct size) (is_aligned (cval size) 4);
  _ ← try_ctassert (is_ct size) (cval size <=? 128);
  _ ← MEM_CMD "write32" data addr size max_size sync 2;
  Ret tt.

Definition mem_write32 (data : list Z) (addr : Z) (size : carg) : prog unit :=
  __mem_write32 data addr size size ctx_swap.

Definition __mem_write32_le (data : list Z) (addr : Z) (size max_size : carg) (sync : sync_t) : prog unit :=
  _ ← try_ctassert (is_ct size) (is_aligned (cval size) 4);
  _ ← try_ctassert (is_ct size) (cval size <=? 128);
  _ ← MEM_CMD "write32_le" data addr size max_size sync 2;
  Ret tt.

Definition mem_write32_le (data : list Z) (addr : Z) (size : carg) : prog unit :=
  __mem_write32_le data addr size size ctx_swap.

Definition __mem_write32_swap (data : list Z) (addr : Z) (size max_size : carg) (sync : sync_t) : prog unit :=
  _ ← try_ctassert (is_ct size) (is_aligned (cval size) 4);
  _ ← try_ctassert (is_ct size) (cval size <=? 128);
  _ ← MEM_CMD "write32_swap" data addr size max_size sync 2;
  Ret tt.

Definition mem_write32_swap (data : list Z) (addr : Z) (size : carg) : prog unit :=
  __mem_write32_swap data addr size size ctx_swap.

Definition __mem_write32_swap_le (data : list Z) (addr : Z) (size max_size : carg) (sync : sync_t) : prog unit :=
  _ ← try_ctassert (is_ct size) (is_aligned (cval size) 4);
  _ ← try_ctassert (is_ct size) (cval size <=? 128);
  _ ← MEM_CMD "write32_swap_le" data addr size max_size sync 2;
  Ret tt.

Definition mem_write32_swap_le (data : list Z) (addr : Z) (size : carg) : prog unit :=
  __mem_write32_swap_le data addr size size ctx_swap.

Definition __mem_write8 (data : list Z) (addr : Z) (size max_size : carg) (sync : sync_t) : prog unit :=
  _ ← try_ctassert (is_ct size) (cval size <=? 32);
  _ ← MEM_CMD "write8" data addr size max_size sync 0;
  Ret tt.

Definition mem_write8 (data : list Z) (addr : Z) (size : carg) : prog unit :=
  __mem_write8 data addr size size ctx_swap.

Definition __mem_write8_le (data : list Z) (addr : Z) (size max_size : carg) (sync : sync_t) : prog unit :=
  _ ← try_ctassert (is_ct size) (cval size <=? 32);
  _ ← MEM_CMD "write8_le" data addr size max_size sync 0;
  Ret tt.

Definition mem_write8_le (data : list Z) (addr : Z) (size : carg) : prog unit :=
  __mem_write8_le data addr size size ctx_swap.

Definition __mem_write8_swap (data : list Z) (addr : Z) (size max_size : carg) (sync : sync_t) : prog unit :=
  _ ← try_ctassert (is_ct size) (cval size <=? 32);
  _ ← MEM_CMD "write8_swap" data addr size max_size sync 0;
  Ret tt.

Definition mem_write8_swap (data : list Z) (addr : Z) (size : carg) : prog unit :=
  __mem_write8_swap data addr size size ctx_swap.

Definition __mem_write8_swap_le (data : list Z) (addr : Z) (size max_size : carg) (sync : sync_t) : prog unit :=
  _ ← try_ctassert (is_ct size) (cval size <=? 32);
  _ ← MEM_CMD "write8_swap_le" data addr size max_size sync 0;
  Ret tt.

Definition mem_write8_swap_le (data : list Z) (addr : Z) (size : carg) : prog unit :=
  __mem_write8_swap_le data addr size size ctx_swap.

(** The functions of the interface: the command of each, the shift from bytes to
    references, and the largest size. *)
Record bulk_fn (F G : Type) := BulkFn {
  bf_async : F; bf_sync : G; bf_op : string; bf_shift : Z; bf_limit : Z }.
Arguments BulkFn {F G} _ _ _ _ _.
Arguments bf_async {F G} _.
Arguments bf_sync {F G} _.
Arguments bf_op {F G} _.
Arguments bf_shift {F G} _.
Arguments bf_limit {F G} _.

Definition bulk_reads : list (bulk_fn (Z -> carg -> carg -> sync_t -> prog (list Z))
                                      (Z -> carg -> prog (list Z))) :=
  [ BulkFn __mem_read64 mem_read64 "read" 3 128;
    BulkFn __mem_read64_le mem_read64_le "read_le" 3 128;
    BulkFn __mem_read64_swap mem_read64_swap "read_swap" 3 128;
    BulkFn __mem_read64_swap_le mem_read64_swap_le "read_swap_le" 3 128;
    BulkFn __mem_read32 mem_read32 "read32" 2 128;
    BulkFn __mem_read32_le mem_read32_le "read32_le" 2 128;
    BulkFn __mem_read32_swap mem_read32_swap "read32_swap" 2 128;
    BulkFn __mem_read32_swap_le mem_read32_swap_le "read32_swap_le" 2 128;
    BulkFn __mem_read8 mem_read8 "read8" 0 32 ].

Definition bulk_writes : list (bulk_fn (list Z -> Z -> carg -> carg -> sync_t -> prog unit)
                                       (list Z -> Z -> carg -> prog unit)) :=
  [ BulkFn __mem_write64 mem_write64 "write" 3 128;
    BulkFn __mem_write64_le mem_write64_le "write_le" 3 128;
    BulkFn __mem_write64_swap mem_write64_swap "write_swap" 3 128;
    BulkFn __mem_write64_swap_le mem_write64_swap_le "write_swap_le" 3 128;
    BulkFn __mem_write32 mem_write32 "write32" 2 128;
    BulkFn __mem_write32_le mem_write32_le "write32_le" 2 128;
    BulkFn __mem_write32_swap mem_write32_swap "write32_swap" 2 128;
    BulkFn __mem_write32_swap_le mem_write32_swap_le "write32_swap_le" 2 128;
    BulkFn __mem_write8 mem_write8 "write8" 0 32;
    BulkFn __mem_write8_le mem_write8_le "write8_le" 0 32;
    BulkFn __mem_write8_swap mem_write8_swap "write8_swap" 0 32;
    BulkFn __mem_write8_swap_le mem_write8_swap_le "write8_swap_le" 0 32 ].


(** ** The command each function issues *)

(** The sizes a bulk function takes: a positive number of whole references, up to
    the limit; a size known at run time needs a maximum the compiler knows. *)
Record size_ok (limit shift : Z) (size max_size : carg) : Prop := SizeOk {
  so_pos : 0 < cval size <= limit;
  so_whole : (cval size) mod (2 ^ shift) = 0;
  so_max : is_ct size = true \/ is_ct max_size = true }.

Lemma MEM_CMD_issues op data addr size max_size sync shift :
  in_word 40 addr -> 0 <= shift -> 1 <= (cval size ≫ shift) <= 32 ->
  (is_ct size = true \/ is_ct max_size = true) ->
  exists c, issues_one (MEM_CMD op data addr size max_size sync shift) c (fun ws => ws) /\
    presents c T_mem op data addr (Some (cval size ≫ shift)) (Some sync).
Proof.
  intros Ha Hs Hc Hmax. unfold MEM_CMD.
  assert (Hz : (cval size =? 0) = false).
  { apply Z.eqb_neq. intros E. rewrite E, Z.shiftr_0_l in Hc. lia. }
  rewrite Hz. simpl. unfold try_ctassert, ctassert, ct_const_val.
  destruct (is_ct size); simpl; [destruct (_ <=? 8) | destruct Hmax as [|Hmax]; [done|rewrite Hmax]];
    eexists; (split; [apply issues_one_issue|]);
    (split; try done; first [by apply addr_split | by apply ind_len_count]).
Qed.

(** The whole references of a legal size, between 1 and 32. *)
Lemma size_ok_count limit shift size max_size :
  0 <= shift -> limit <= 32 * 2 ^ shift ->
  size_ok limit shift size max_size -> 1 <= (cval size ≫ shift) <= 32.
Proof.
  intros Hs Hl [[H1 H2] H3 _]. rewrite Z.shiftr_div_pow2 by lia.
  assert (0 < 2 ^ shift) by (apply Z.pow_pos_nonneg; lia).
  split; [|apply Z.div_le_upper_bound; lia].
  apply Z.div_le_lower_bound; [done|].
  assert (2 ^ shift <= cval size) by (apply Z.mod_divide in H3; [|lia]; apply Z.divide_pos_le; [lia|done]).
  lia.
Qed.

Lemma MEM_CMD_write op data addr size max_size sync shift :
  in_word 40 addr -> 0 <= shift -> 1 <= (cval size ≫ shift) <= 32 ->
  (is_ct size = true \/ is_ct max_size = true) ->
  exists c, issues_one (bind (MEM_CMD op data addr size max_size sync shift) (fun _ => Ret tt))
                       c (fun _ => tt) /\
    presents c T_mem op data addr (Some (cval size ≫ shift)) (Some sync).
Proof.
  intros Ha Hs Hc Hm.
  destruct (MEM_CMD_issues op data addr size max_size sync shift) as (c & H & Hp); try done.
  exists c. split; [|done]. by apply (issues_one_ret _ _ (fun ws => ws) (fun _ => tt)).
Qed.

(** Each bulk read function, for a size that is constant or not, issues one
    memory command for the operation, address and exactly the number of references
    asked for, whichever of the direct and the indirect encodings it picks, and
    returns the words of the reply. *)
Theorem bulk_reads_command f : In f bulk_reads ->
  forall addr size max_size sync,
  in_word 40 addr -> size_ok (bf_limit f) (bf_shift f) size max_size ->
  exists c, issues_one (bf_async f addr size max_size sync) c (fun ws => ws) /\
    presents c T_mem (bf_op f) [] addr (Some (cval size ≫ bf_shift f)) (Some sync).
Proof.
  intros Hf addr size max_size sync Ha Hsz.
  assert (Hc : 1 <= (cval size ≫ bf_shift f) <= 32).
  { eapply size_ok_count; [..|done];
      table_cases Hf ltac:(simpl; lia). }
  destruct Hsz as [Hpos Hwh Hmax].
  table_cases Hf ltac:(simpl in *; drop_asserts Hwh; apply MEM_CMD_issues; done || lia).
Qed.

Lemma bulk_reads_command_witness :
  exists c, issues_one (__mem_read32 0x123456789C (rt 64) (ct 128) sig_done) c (fun ws => ws) /\
    presents c T_mem "read32" [] 0x123456789C (Some 16) (Some sig_done).
Proof.
  apply (bulk_reads_command (BulkFn __mem_read32 mem_read32 "read32" 2 128)).
  - simpl. tauto.
  - by vm_compute.
  - split; [by vm_compute|reflexivity|by right].
Defined.

(** Each bulk write function issues one memory command with the given data
    for the operation, address and exactly the number of references asked for. *)
Theorem bulk_writes_command f : In f bulk_writes ->
  forall data addr size max_size sync,
  in_word 40 addr -> size_ok (bf_limit f) (bf_shift f) size max_size ->
  exists c, issues_one (bf_async f data addr size max_size sync) c (fun _ => tt) /\
    presents c T_mem (bf_op f) data addr (Some (cval size ≫ bf_shift f)) (Some sync).
Proof.
  intros Hf data addr size max_size sync Ha Hsz.
  assert (Hc : 1 <= (cval size ≫ bf_shift f) <= 32).
  { eapply size_ok_count; [..|done]; table_cases Hf ltac:(simpl; lia). }
  destruct Hsz as [Hpos Hwh Hmax].
  table_cases Hf ltac:(simpl in *; drop_asserts Hwh; eapply MEM_CMD_write; done || lia).
Qed.

Lemma bulk_writes_command_witness :
  exists c, issues_one (__mem_write64 [1; 2; 3; 4] 0xFF00000010 (rt 16) (ct 64) ctx_swap) c (fun _ => tt) /\
    presents c T_mem "write" [1; 2; 3; 4] 0xFF00000010 (Some 2) (Some ctx_swap).
Proof.
  apply (bulk_writes_command (BulkFn __mem_write64 mem_write64 "write" 3 128)).
  - simpl. tauto.
  - by vm_compute.
  - split; [cbn; lia|reflexivity|by right].
Defined.

Lemma MEM_CMD_zero op data addr size max_size sync shift :
  is_ct size = true -> cval size = 0 ->
  MEM_CMD op data addr size max_size sync shift = Stop CtAssert.
Proof. intros Hc Hz. unfold MEM_CMD. by rewrite Hc, Hz. Qed.

(** A constant size that is out of range or not a multiple of the unit does
    not build: the bulk read stops at a compile-time assertion. *)
Theorem bulk_reads_reject f : In f bulk_reads ->
  forall addr size max_size sync,
  is_ct size = true -> 0 <= cval size ->
  ~ size_ok (bf_limit f) (bf_shift f) size max_size ->
  bf_async f addr size max_size sync = Stop CtAssert.
Proof.
  intros Hf addr size max_size sync Hc Hpos Hno.
  assert (E : cval size = 0 \/ bf_limit f < cval size \/
              (cval size) mod (2 ^ bf_shift f) <> 0).
  { destruct (decide (cval size = 0)), (decide (bf_limit f < cval size)),
      (decide ((cval size) mod (2 ^ bf_shift f) = 0)); auto.
    exfalso. apply Hno. split; [lia|done|auto]. }
  table_cases Hf ltac:(simpl in *; unfold try_ctassert, ctassert, is_aligned;
    match goal with |- ?p = _ => let g := head p in unfold g end;
    unfold try_ctassert, ctassert, is_aligned; rewrite Hc;
    destruct E as [E|[E|E]];
    [rewrite (MEM_CMD_zero _ _ _ _ _ _ _ Hc E), E; reflexivity
    |apply Z.leb_gt in E; rewrite E; simpl; try (by destruct (_ =? _)); done
    |change (2 ^ 3) with 8 in E; change (2 ^ 2) with 4 in E; change (2 ^ 0) with 1 in E;
     first [apply Z.eqb_neq in E; rewrite E; done | rewrite Z.mod_1_r in E; done]]).
Qed.

Lemma bulk_reads_reject_witness :
  __mem_read32 0 (ct 132) (ct 132) sig_done = Stop CtAssert.
Proof.
  apply (bulk_reads_reject (BulkFn __mem_read32 mem_read32 "read32" 2 128)).
  - simpl. tauto.
  - reflexivity.
  - by vm_compute.
  - intros [[_ H] _ _]. cbn in H. lia.
Defined.

End MemBulk.
