(* ===== verification/MemAtomic.v ===== *)
(** lib/nfp/_c/mem_atomic.c: atomic operations of the memory engines.

    One definition per macro ([MEM_ATOMIC_CMD], ...) and one per function.  A
    [_test_] operation sends its transfer registers and receives them back. *)
From Stdlib Require Import ZArith Lia List String.
From stdpp Require Import base list numbers option strings.
From S2P Require Import Prelude Me.
#[local] Open Scope Z_scope.

Module MemAtomic.

(** [_MEM_ATOMIC_32_CMD] and [_MEM_ATOMIC_64_CMD] *)
Inductive cmdlen_t := MEM_ATOMIC_32_CMD | MEM_ATOMIC_64_CMD.
Definition cmdlen (c : cmdlen_t) : Z :=
  match c with MEM_ATOMIC_32_CMD => 0 | MEM_ATOMIC_64_CMD => 1 end.

Definition SZ_64K : Z := 65536.

Definition MEM_ATOMIC_CMD (cmdname : string) (data : list Z) (addr : Z)
    (size max_size : carg) (sync : sync_t) (shift : Z) (len : cmdlen_t) : prog (list Z) :=
  let count := cval size ≫ shift in
  let max_count := cval max_size ≫ shift in
  _ ← ctassert (is_ct max_size);
  _ ← try_ctassert (is_ct size) (negb (cval size =? 0));
  _ ← try_ctassert (is_ct size) (count <=? 8);
  let mem r ind :=
    issue (Cmd T_mem cmdname data (addr_hi addr) true (addr_lo addr)
               (Some r) (Some sync) ind) in
  if is_ct size then mem count None
  else mem max_count (Some (ind_len (sub32 count 1 .| (cmdlen len ≪ 2)))).

(** Only [sig_done]: the command answers on a pair of signals. *)
Definition MEM_ATOMIC_CMD_TEST (cmdname : string) (data : list Z) (addr : Z)
    (size max_size : carg) (sync : sync_t) (shift : Z) (len : cmdlen_t) : prog (list Z) :=
  let count := cval size ≫ shift in
  let max_count := cval max_size ≫ shift in
  _ ← ctassert (is_ct max_size);
  _ ← try_ctassert (is_ct size) (negb (cval size =? 0));
  _ ← ctassert (bool_decide (sync = sig_done));
  _ ← try_ctassert (is_ct size) (count <=? 8);
  let mem r ind :=
    issue (Cmd T_mem cmdname data (addr_hi addr) true (addr_lo addr)
               (Some r) (Some sig_done) ind) in
  if is_ct size then mem count None
  else mem max_count (Some (ind_len (sub32 count 1 .| (cmdlen len ≪ 2)))).

Definition MEM_ATOMIC_CMD_NO_DATA (cmdname : string) (addr : Z) : prog unit :=
  _ ← issue (Cmd T_mem cmdname [] (addr_hi addr) true (addr_lo addr) None None None);
  Ret tt.

Definition MEM_ATOMIC_CMD_IMM (cmdname : string) (val addr : Z) (len : cmdlen_t) : prog unit :=
  _ ← issue (Cmd T_mem cmdname [] (addr_hi addr) true (addr_lo addr) (Some 1) None
                 (Some (ind_data 2 val ((1 ≪ 3) .| (cmdlen len ≪ 2)))));
  Ret tt.

Definition MEM_ATOMIC_CMD_BMASK (cmdname : string) (data : list Z) (addr bmask : Z)
    (size max_size : carg) (sync : sync_t) : prog (list Z) :=
  let count := cval size ≫ 2 in
  let max_count := cval max_size ≫ 2 in
  _ ← try_ctassert (is_ct size) (negb (cval size =? 0));
  _ ← ctassert (is_ct max_size);
  _ ← try_ctassert (is_ct size) (count <=? 8);
  issue (Cmd T_mem cmdname data (addr_hi addr) true (addr_lo addr)
             (Some max_count) (Some sync)
             (Some (ind_data 6 (bmask .& 0xff) ((1 ≪ 3) .| sub32 count 1)))).

Definition MEM_ATOMIC_CMD_BMASK_TEST (cmdname : string) (data : list Z) (addr bmask : Z)
    (size max_size : carg) (sync : sync_t) : prog (list Z) :=
  let count := cval size ≫ 2 in
  let max_count := cval max_size ≫ 2 in
  _ ← try_ctassert (is_ct size) (negb (cval size =? 0));
  _ ← ctassert (is_ct max_size);
  _ ← ctassert (bool_decide (sync = sig_done));
  _ ← try_ctassert (is_ct size) (count <=? 8);
  issue (Cmd T_mem cmdname data (addr_hi addr) true (addr_lo addr)
             (Some max_count) (Some sig_done)
             (Some (ind_data 6 (bmask .& 0xff) ((1 ≪ 3) .| sub32 count 1)))).

(** [__wait_for_all] on the command's signals *)
Definition wait_for_all : prog unit := Vis (EArb A_wait) (fun _ => Ret tt).

Definition __mem_read_atomic (addr : Z) (size max_size : carg) (sync : sync_t) : prog (list Z) :=
  _ ← try_ctassert (is_ct size) (is_aligned (cval size) 4);
  _ ← try_ctassert (is_ct size) (cval size <=? 32);
  MEM_ATOMIC_CMD "atomic_read" [] addr size max_size sync 2 MEM_ATOMIC_32_CMD.

Definition mem_read_atomic (addr : Z) (size : carg) : prog (list Z) :=
  __mem_read_atomic addr size size ctx_swap.

Definition __mem_write_atomic (data : list Z) (addr : Z) (size max_size : carg) (sync : sync_t) : prog unit :=
  _ ← try_ctassert (is_ct size) (is_aligned (cval size) 4);
  _ ← try_ctassert (is_ct size) (cval size <=? 32);
  _ ← MEM_ATOMIC_CMD "write_atomic" data addr size max_size sync 2 MEM_ATOMIC_32_CMD;
  Ret tt.

Definition mem_write_atomic (data : list Z) (addr : Z) (size : carg) : prog unit :=
  __mem_write_atomic data addr size size ctx_swap.

Definition mem_incr32 (addr : Z) : prog unit := MEM_ATOMIC_CMD_NO_DATA "incr" addr.

Definition mem_decr32 (addr : Z) : prog unit := MEM_ATOMIC_CMD_NO_DATA "decr" addr.

Definition mem_incr64 (addr : Z) : prog unit := MEM_ATOMIC_CMD_NO_DATA "incr64" addr.

Definition mem_decr64 (addr : Z) : prog unit := MEM_ATOMIC_CMD_NO_DATA "decr64" addr.

Definition mem_add32_imm (val : carg) (addr : Z) : prog unit :=
  _ ← try_ctassert (is_ct val) (cval val <=? SZ_64K);
  MEM_ATOMIC_CMD_IMM "add_imm" (cval val) addr MEM_ATOMIC_32_CMD.

Definition mem_add64_imm (val : carg) (addr : Z) : prog unit :=
  _ ← try_ctassert (is_ct val) (cval val <=? SZ_64K);
  MEM_ATOMIC_CMD_IMM "add64_imm" (cval val) addr MEM_ATOMIC_64_CMD.

Definition mem_sub32_imm (val : carg) (addr : Z) : prog unit :=
  _ ← try_ctassert (is_ct val) (cval val <=? SZ_64K);
  MEM_ATOMIC_CMD_IMM "sub_imm" (cval val) addr MEM_ATOMIC_32_CMD.

Definition mem_sub64_imm (val : carg) (addr : Z) : prog unit :=
  _ ← try_ctassert (is_ct val) (cval val <=? SZ_64K);
  MEM_ATOMIC_CMD_IMM "sub64_imm" (cval val) addr MEM_ATOMIC_64_CMD.

Definition mem_subsat32_imm (val : carg) (addr : Z) : prog unit :=
  _ ← try_ctassert (is_ct val) (cval val <=? SZ_64K);
  MEM_ATOMIC_CMD_IMM "subsat_imm" (cval val) addr MEM_ATOMIC_32_CMD.

Definition mem_subsat64_imm (val : carg) (addr : Z) : prog unit :=
  _ ← try_ctassert (is_ct val) (cval val <=? SZ_64K);
  MEM_ATOMIC_CMD_IMM "subsat64_imm" (cval val) addr MEM_ATOMIC_64_CMD.

Definition mem_bitset_imm (val : carg) (addr : Z) : prog unit :=
  _ ← try_ctassert (is_ct val) (cval val <? SZ_64K);
  MEM_ATOMIC_CMD_IMM "set_imm" (cval val) addr MEM_ATOMIC_32_CMD.

Definition mem_bitclr_imm (val : carg) (addr : Z) : prog unit :=
  _ ← try_ctassert (is_ct val) (cval val <? SZ_64K);
  MEM_ATOMIC_CMD_IMM "clr_imm" (cval val) addr MEM_ATOMIC_32_CMD.

Definition mem_write32_atomic_imm (val : carg) (addr : Z) : prog unit :=
  _ ← try_ctassert (is_ct val) (cval val <? SZ_64K);
  MEM_ATOMIC_CMD_IMM "atomic_write_imm" (cval val) addr MEM_ATOMIC_32_CMD.

Definition mem_write64_atomic_imm (val : carg) (addr : Z) : prog unit :=
  _ ← try_ctassert (is_ct val) (cval val <? SZ_64K);
  MEM_ATOMIC_CMD_IMM "atomic_write_imm" (cval val) addr MEM_ATOMIC_64_CMD.

Definition __mem_add32 (data : list Z) (addr : Z) (size max_size : carg) (sync : sync_t) : prog unit :=
  _ ← try_ctassert (is_ct size) (cval size <=? 16);
  _ ← MEM_ATOMIC_CMD "add" data addr size max_size sync 2 MEM_ATOMIC_32_CMD;
  Ret tt.

Definition mem_add32 (data : list Z) (addr : Z) (size : carg) : prog unit :=
  __mem_add32 data addr size size ctx_swap.

Definition __mem_add64 (data : list Z) (addr : Z) (size max_size : carg) (sync : sync_t) : prog unit :=
  _ ← try_ctassert (is_ct size) (cval size <=? 32);
  _ ← MEM_ATOMIC_CMD "add64" data addr size max_size sync 3 MEM_ATOMIC_64_CMD;
  Ret tt.

Definition mem_add64 (data : list Z) (addr : Z) (size : carg) : prog unit :=
  __mem_add64 data addr size size ctx_swap.

Definition __mem_sub32 (data : list Z) (addr : Z) (size max_size : carg) (sync : sync_t) : prog unit :=
  _ ← try_ctassert (is_ct size) (cval size <=? 16);
  _ ← MEM_ATOMIC_CMD "sub" data addr size max_size sync 2 MEM_ATOMIC_32_CMD;
  Ret tt.

Definition mem_sub32 (data : list Z) (addr : Z) (size : carg) : prog unit :=
  __mem_sub32 data addr size size ctx_swap.

Definition __mem_sub64 (data : list Z) (addr : Z) (size max_size : carg) (sync : sync_t) : prog unit :=
  _ ← try_ctassert (is_ct size) (cval size <=? 32);
  _ ← MEM_ATOMIC_CMD "sub64" data addr size max_size sync 3 MEM_ATOMIC_32_CMD;
  Ret tt.

Definition mem_sub64 (data : list Z) (addr : Z) (size : carg) : prog unit :=
  __mem_sub64 data addr size size ctx_swap.

Definition __mem_bitset (data : list Z) (addr : Z) (size max_size : carg) (sync : sync_t) : prog unit :=
  _ ← try_ctassert (is_ct size) (cval size <=? 32);
  _ ← MEM_ATOMIC_CMD "set" data addr size max_size sync 2 MEM_ATOMIC_32_CMD;
  Ret tt.

Definition mem_bitset (data : list Z) (addr : Z) (size : carg) : prog unit :=
  __mem_bitset data addr size size ctx_swap.

Definition __mem_bitclr (data : list Z) (addr : Z) (size max_size : carg) (sync : sync_t) : prog unit :=
  _ ← try_ctassert (is_ct size) (cval size <=? 32);
  _ ← MEM_ATOMIC_CMD "clr" data addr size max_size sync 2 MEM_ATOMIC_32_CMD;
  Ret tt.

Definition mem_bitclr (data : list Z) (addr : Z) (size : carg) : prog unit :=
  __mem_bitclr data addr size size ctx_swap.

Definition __mem_cmp_write (data : list Z) (addr byte_mask : Z) (size max_size : carg)
    (sync : sync_t) : prog unit :=
  _ ← try_ctassert (is_ct size) (cval size <=? 32);
  _ ← MEM_ATOMIC_CMD_BMASK "mask_compare_write" data addr byte_mask size max_size sync;
  Ret tt.

Definition mem_cmp_write (data : list Z) (addr byte_mask : Z) (size : carg) : prog unit :=
  __mem_cmp_write data addr byte_mask size size ctx_swap.

Definition __mem_test_set (data : list Z) (addr : Z) (size max_size : carg) (sync : sync_t) : prog (list Z) :=
  _ ← try_ctassert (is_ct size) (cval size <=? 32);
  MEM_ATOMIC_CMD_TEST "test_set" data addr size max_size sync 2 MEM_ATOMIC_32_CMD.

Definition mem_test_set (data : list Z) (addr : Z) (size : carg) : prog (list Z) :=
  data' ← __mem_test_set data addr size size sig_done;
  _ ← wait_for_all;
  Ret data'.

Definition __mem_test_clr (data : list Z) (addr : Z) (size max_size : carg) (sync : sync_t) : prog (list Z) :=
  _ ← try_ctassert (is_ct size) (cval size <=? 32);
  MEM_ATOMIC_CMD_TEST "test_clr" data addr size max_size sync 2 MEM_ATOMIC_32_CMD.

Definition mem_test_clr (data : list Z) (addr : Z) (size : carg) : prog (list Z) :=
  data' ← __mem_test_clr data addr size size sig_done;
  _ ← wait_for_all;
  Ret data'.

Definition __mem_swap (data : list Z) (addr : Z) (size max_size : carg) (sync : sync_t) : prog (list Z) :=
  _ ← try_ctassert (is_ct size) (cval size <=? 32);
  MEM_ATOMIC_CMD_TEST "swap" data addr size max_size sync 2 MEM_ATOMIC_32_CMD.

Definition mem_swap (data : list Z) (addr : Z) (size : carg) : prog (list Z) :=
  data' ← __mem_swap data addr size size sig_done;
  _ ← wait_for_all;
  Ret data'.

Definition __mem_test_add (data : list Z) (addr : Z) (size max_size : carg) (sync : sync_t) : prog (list Z) :=
  _ ← try_ctassert (is_ct size) (cval size <=? 16);
  MEM_ATOMIC_CMD_TEST "test_add" data addr size max_size sync 2 MEM_ATOMIC_32_CMD.

Definition mem_test_add (data : list Z) (addr : Z) (size : carg) : prog (list Z) :=
  data' ← __mem_test_add data addr size size sig_done;
  _ ← wait_for_all;
  Ret data'.

Definition __mem_test_sub (data : list Z) (addr : Z) (size max_size : carg) (sync : sync_t) : prog (list Z) :=
  _ ← try_ctassert (is_ct size) (cval size <=? 16);
  MEM_ATOMIC_CMD_TEST "test_sub" data addr size max_size sync 2 MEM_ATOMIC_32_CMD.

Definition mem_test_sub (data : list Z) (addr : Z) (size : carg) : prog (list Z) :=
  data' ← __mem_test_sub data addr size size sig_done;
  _ ← wait_for_all;
  Ret data'.

Definition __mem_test_subsat (data : list Z) (addr : Z) (size max_size : carg) (sync : sync_t) : prog (list Z) :=
  _ ← try_ctassert (is_ct size) (cval size <=? 16);
  MEM_ATOMIC_CMD_TEST "test_subsat" data addr size max_size sync 2 MEM_ATOMIC_32_CMD.

Definition mem_test_subsat (data : list Z) (addr : Z) (size : carg) : prog (list Z) :=
  data' ← __mem_test_subsat data addr size size sig_done;
  _ ← wait_for_all;
  Ret data'.

Definition __mem_test_cmp_write (data : list Z) (addr byte_mask : Z) (size max_size : carg)
    (sync : sync_t) : prog (list Z) :=
  _ ← try_ctassert (is_ct size) (cval size <=? 32);
  MEM_ATOMIC_CMD_BMASK_TEST "test_mask_compare_write" data addr byte_mask size max_size sync.

Definition mem_test_cmp_write (data : list Z) (addr byte_mask : Z) (size : carg) : prog (list Z) :=
  data' ← __mem_test_cmp_write data addr byte_mask size size sig_done;
  _ ← wait_for_all;
  Ret data'.

(** enum meter_mode and enum meter_color, by their values *)
Definition METER_MODE_PEAK : Z := 0.
Definition METER_MODE_EXCESS : Z := 1.
Definition METER_COLOR_RED : Z := 2.

Definition __mem_meter (meter_data : Z) (addr mode color : carg) : prog Z :=
  _ ← try_ctassert (is_ct addr) (is_aligned (cval addr) 8);
  _ ← try_ctassert (is_ct color) (cval color <=? METER_COLOR_RED);
  _ ← try_ctassert (is_ct mode)
        ((cval mode =? METER_MODE_PEAK) || (cval mode =? METER_MODE_EXCESS));
  let lo := cval addr .& 0xFFFFFFF8 in
  let lo := lo .| (((cval color .& 0x3) ≪ 1) .| (cval mode .& 0x1)) in
  ws ← issue (Cmd T_mem "meter" [meter_data] (addr_hi (cval addr)) true lo None
                  (Some sig_done) None);
  Ret (nth 0 ws 0).

Definition mem_meter (meter_amt : Z) (addr mode color : carg) : prog Z :=
  meter_data ← __mem_meter meter_amt addr mode color;
  _ ← wait_for_all;
  Ret meter_data.

(** ** The table of the sized operations *)

Record atomic_fn := AtomicFn {
  af_fn : list Z -> Z -> carg -> carg -> sync_t -> prog unit;
  af_op : string; af_shift : Z; af_limit : Z; af_len : cmdlen_t }.

Definition atomic_writes : list atomic_fn :=
  [ AtomicFn __mem_write_atomic "write_atomic" 2 32 MEM_ATOMIC_32_CMD;
    AtomicFn __mem_add32 "add" 2 16 MEM_ATOMIC_32_CMD;
    AtomicFn __mem_add64 "add64" 3 32 MEM_ATOMIC_64_CMD;
    AtomicFn __mem_sub32 "sub" 2 16 MEM_ATOMIC_32_CMD;
    AtomicFn __mem_sub64 "sub64" 3 32 MEM_ATOMIC_32_CMD;
    AtomicFn __mem_bitset "set" 2 32 MEM_ATOMIC_32_CMD;
    AtomicFn __mem_bitclr "clr" 2 32 MEM_ATOMIC_32_CMD ].

Record atomic_test_fn := AtomicTestFn {
  tf_fn : list Z -> Z -> carg -> carg -> sync_t -> prog (list Z);
  tf_op : string; tf_limit : Z }.

Definition atomic_tests : list atomic_test_fn :=
  [ AtomicTestFn __mem_test_set "test_set" 32; AtomicTestFn __mem_test_clr "test_clr" 32;
    AtomicTestFn __mem_swap "swap" 32; AtomicTestFn __mem_test_add "test_add" 16;
    AtomicTestFn __mem_test_sub "test_sub" 16;
    AtomicTestFn __mem_test_subsat "test_subsat" 16 ].

Record atomic_imm_fn := AtomicImmFn {
  if_fn : carg -> Z -> prog unit; if_op : string; if_len : cmdlen_t }.

Definition atomic_imms : list atomic_imm_fn :=
  [ AtomicImmFn mem_add32_imm "add_imm" MEM_ATOMIC_32_CMD;
    AtomicImmFn mem_add64_imm "add64_imm" MEM_ATOMIC_64_CMD;
    AtomicImmFn mem_sub32_imm "sub_imm" MEM_ATOMIC_32_CMD;
    AtomicImmFn mem_sub64_imm "sub64_imm" MEM_ATOMIC_64_CMD;
    AtomicImmFn mem_subsat32_imm "subsat_imm" MEM_ATOMIC_32_CMD;
    AtomicImmFn mem_subsat64_imm "subsat64_imm" MEM_ATOMIC_64_CMD;
    AtomicImmFn mem_bitset_imm "set_imm" MEM_ATOMIC_32_CMD;
    AtomicImmFn mem_bitclr_imm "clr_imm" MEM_ATOMIC_32_CMD;
    AtomicImmFn mem_write32_atomic_imm "atomic_write_imm" MEM_ATOMIC_32_CMD;
    AtomicImmFn mem_write64_atomic_imm "atomic_write_imm" MEM_ATOMIC_64_CMD ].

(** ** The commands issued *)

(** The indirect length of a sized operation: one less than the count, with bit 2
    set for a 64-bit arithmetic operation. *)
Definition atomic_length (count : Z) (len : cmdlen_t) : Z :=
  (count - 1) .| (cmdlen len ≪ 2).

(** The prev-ALU word of a command is the one the operation needs: none when the
    size is in the instruction, an overriding length otherwise. *)
Definition atomic_prev (c : cmd) (size : carg) (count : Z) (len : cmdlen_t) : Prop :=
  if is_ct size then c_prev c = None /\ c_ref c = Some count
  else exists raw, c_prev c = Some raw /\ prev_ov_len raw = 1 /\
       prev_length raw = atomic_length count len.

Lemma cmdlen_word len : in_word 3 (cmdlen len ≪ 2).
Proof. by destruct len. Qed.

Lemma atomic_length_word count len : 1 <= count <= 8 ->
  wrap 5 (sub32 count 1 .| (cmdlen len ≪ 2)) = atomic_length count len.
Proof.
  intros Hc. unfold sub32, atomic_length. rewrite (wrap_id 32) by (unfold in_word; lia).
  apply wrap_id. apply (in_word_mono 3); [lia|].
  apply in_word_lor; [lia|unfold in_word; lia|apply cmdlen_word].
Qed.

Lemma MEM_ATOMIC_CMD_issues op data addr size max_size sync shift len :
  in_word 40 addr -> 0 <= shift -> 1 <= (cval size ≫ shift) <= 8 -> is_ct max_size = true ->
  exists c, issues_one (MEM_ATOMIC_CMD op data addr size max_size sync shift len) c (fun ws => ws) /\
    c_tgt c = T_mem /\ c_op c = op /\ c_data c = data /\ cmd_addr c = addr /\
    c_sync c = Some sync /\ atomic_prev c size (cval size ≫ shift) len.
Proof.
  intros Ha Hs Hc Hm. unfold MEM_ATOMIC_CMD.
  assert (Hz : cval size <> 0) by (intros E; rewrite E, Z.shiftr_0_l in Hc; lia).
  unfold mbind, prog_bind. rewrite ctassert_true by done.
  rewrite !try_ctassert_true by (first [apply Z.leb_le; lia | apply negb_true_iff, Z.eqb_neq; done]).
  unfold atomic_prev. destruct (is_ct size).
  all: eexists; (split; [apply issues_one_issue|]); split_ands; try done; try by apply addr_split.
  eexists; split; [done|]. unfold ind_len.
  rewrite prev_alu_ov_len, prev_alu_length. cbn [pa_ov_len pa_length].
  by rewrite atomic_length_word.
Qed.

Lemma MEM_ATOMIC_CMD_TEST_issues op data addr size max_size shift len :
  in_word 40 addr -> 0 <= shift -> 1 <= (cval size ≫ shift) <= 8 -> is_ct max_size = true ->
  MEM_ATOMIC_CMD_TEST op data addr size max_size sig_done shift len =
  MEM_ATOMIC_CMD op data addr size max_size sig_done shift len.
Proof.
  intros Ha Hs Hc Hm. unfold MEM_ATOMIC_CMD, MEM_ATOMIC_CMD_TEST.
  by rewrite Hm.
Qed.

Lemma count_bounds size shift limit : 0 <= shift -> limit <= 8 * 2 ^ shift ->
  2 ^ shift <= size <= limit -> 1 <= (size ≫ shift) <= 8.
Proof.
  intros Hs Hl Hsz. rewrite Z.shiftr_div_pow2 by lia.
  assert (0 < 2 ^ shift) by (apply Z.pow_pos_nonneg; lia).
  split; [apply Z.div_le_lower_bound; lia|apply Z.div_le_upper_bound; lia].
Qed.

(** Each sized atomic operation issues one command with its data at its
    address; for a size that is not constant the length override carries the count
    less one and the operation width in its bits. *)
Theorem atomic_writes_command f : In f atomic_writes ->
  forall data addr size max_size sync,
  in_word 40 addr -> 2 ^ af_shift f <= cval size <= af_limit f ->
  cval size mod 4 = 0 -> is_ct max_size = true ->
  exists c, issues_one (af_fn f data addr size max_size sync) c (fun _ => tt) /\
    c_tgt c = T_mem /\ c_op c = af_op f /\ c_data c = data /\ cmd_addr c = addr /\
    c_sync c = Some sync /\ atomic_prev c size (cval size ≫ af_shift f) (af_len f).
Proof.
  intros Hf data addr size max_size sync Ha Hsz H4 Hm.
  assert (Hc : 1 <= (cval size ≫ af_shift f) <= 8).
  { eapply count_bounds; [..|done]; table_cases Hf ltac:(simpl; lia). }
  table_cases Hf ltac:(simpl in *; drop_asserts H4;
    edestruct MEM_ATOMIC_CMD_issues as (c & H & Hp); [exact Ha| |exact Hc|exact Hm|];
    [lia|exists c; split; [by apply (issues_one_ret _ _ (fun ws => ws) (fun _ => tt))|exact Hp]]).
Qed.

Lemma atomic_writes_command_witness :
  exists c, issues_one (__mem_add32 [1; 2] 0x80 (ct 8) (ct 8) sig_done) c (fun _ => tt) /\
    c_tgt c = T_mem /\ c_op c = "add"%string /\ c_data c = [1; 2] /\ cmd_addr c = 0x80 /\
    c_sync c = Some sig_done /\ atomic_prev c (ct 8) (cval (ct 8) ≫ 2) MEM_ATOMIC_32_CMD.
Proof.
  apply (atomic_writes_command (AtomicFn __mem_add32 "add" 2 16 MEM_ATOMIC_32_CMD)).
  - right. left. reflexivity.
  - by vm_compute.
  - cbn. lia.
  - reflexivity.
  - reflexivity.
Defined.

Lemma MEM_ATOMIC_CMD_IMM_issues op val addr len : in_word 40 addr -> in_word 16 val ->
  exists c raw, issues_one (MEM_ATOMIC_CMD_IMM op val addr len) c (fun _ => tt) /\
    c_tgt c = T_mem /\ c_op c = op /\ cmd_addr c = addr /\ c_data c = [] /\
    c_prev c = Some raw /\ prev_ov_len raw = 1 /\ prev_length raw = 8 + 4 * cmdlen len /\
    prev_ove_data raw = 2 /\ prev_data16 raw = val.
Proof.
  intros Ha Hv. do 2 eexists.
  split; [apply (issues_one_ret _ _ (fun ws => ws) (fun _ => tt)), issues_one_issue|].
  split_ands; try reflexivity; [by apply addr_split| | | |];
    unfold ind_data; rewrite ?prev_alu_ov_len, ?prev_alu_length, ?prev_alu_ove_data, ?prev_alu_data16;
    [done|by destruct len|done|by apply wrap_id].
Qed.

(** Each immediate atomic operation issues one command without data whose
    indirect word overrides the data with the 16-bit immediate and sets the length
    to the immediate flag and the operation width. *)
Theorem atomic_imms_command f : In f atomic_imms ->
  forall val addr, in_word 40 addr -> in_word 16 (cval val) ->
  exists c raw, issues_one (if_fn f val addr) c (fun _ => tt) /\
    c_tgt c = T_mem /\ c_op c = if_op f /\ cmd_addr c = addr /\ c_data c = [] /\
    c_prev c = Some raw /\ prev_ov_len raw = 1 /\ prev_length raw = 8 + 4 * cmdlen (if_len f) /\
    prev_ove_data raw = 2 /\ prev_data16 raw = cval val.
Proof.
  intros Hf val addr Ha Hv. pose proof Hv as [_ Hlt]. simpl in Hlt.
  table_cases Hf ltac:(simpl; unfold_issuer; unfold SZ_64K; drop_asserts_at Ha;
    by apply MEM_ATOMIC_CMD_IMM_issues).
Qed.

Lemma atomic_imms_command_witness :
  exists c raw, issues_one (mem_add32_imm (ct 5) 0x40) c (fun _ => tt) /\
    c_tgt c = T_mem /\ c_op c = "add_imm"%string /\ cmd_addr c = 0x40 /\ c_data c = [] /\
    c_prev c = Some raw /\ prev_ov_len raw = 1 /\
    prev_length raw = 8 + 4 * cmdlen MEM_ATOMIC_32_CMD /\ prev_ove_data raw = 2 /\ prev_data16 raw = 5.
Proof.
  apply (atomic_imms_command (AtomicImmFn mem_add32_imm "add_imm" MEM_ATOMIC_32_CMD)).
  - left. reflexivity.
  - by vm_compute.
  - by vm_compute.
Defined.

(** The 64-bit arithmetic on data words needs bit 2 of its indirect length;
    [mem_sub64] is built with the 32-bit length code and never sets it. *)
Theorem mem_sub64_runtime_length data addr n max_size sync :
  in_word 40 addr -> 8 <= n <= 32 -> is_ct max_size = true ->
  exists c raw, issues_one (__mem_sub64 data addr (rt n) max_size sync) c (fun _ => tt) /\
    c_op c = "sub64"%string /\ c_prev c = Some raw /\ Z.testbit (prev_length raw) 2 = false.
Proof.
  intros Ha Hn Hm.
  assert (Hc : 1 <= (n ≫ 3) <= 4).
  { rewrite Z.shiftr_div_pow2 by lia. change (2 ^ 3) with 8. divlia. }
  unfold __mem_sub64. cbn [try_ctassert is_ct rt].
  edestruct (MEM_ATOMIC_CMD_issues "sub64" data addr (rt n) max_size sync 3 MEM_ATOMIC_32_CMD)
    as (c & H & _ & Hop & _ & _ & _ & raw & Hraw & _ & Hlen); [done|lia|simpl; lia|done|].
  exists c, raw. split; [by apply (issues_one_ret _ _ (fun ws => ws) (fun _ => tt))|].
  split_ands; [done..|]. rewrite Hlen. unfold atomic_length. cbn [cval rt cmdlen].
  rewrite Z.shiftl_0_l, Z.lor_0_r. apply (testbit_high 2); unfold in_word; lia.
Qed.

(** The range check of the add immediates lets 65536 through, whose low 16 bits
    are all that reach the command: the word is incremented by 0. *)
Theorem mem_add32_imm_64k addr :
  exists c raw, issues_one (mem_add32_imm (ct SZ_64K) addr) c (fun _ => tt) /\
    c_prev c = Some raw /\ prev_data16 raw = 0.
Proof.
  do 2 eexists. split; [apply (issues_one_ret _ _ (fun ws => ws) (fun _ => tt)), issues_one_issue|].
  split; [reflexivity|]. unfold ind_data. by rewrite prev_alu_data16.
Qed.

(** The byte-masked compare and write: the mask reaches the command's data
    override, the count its length. *)
Lemma MEM_ATOMIC_CMD_BMASK_issues op data addr bmask size max_size sync :
  in_word 40 addr -> 4 <= cval size <= 32 -> is_ct max_size = true ->
  exists c raw, issues_one (MEM_ATOMIC_CMD_BMASK op data addr bmask size max_size sync) c (fun ws => ws) /\
    c_op c = op /\ cmd_addr c = addr /\ c_data c = data /\ c_prev c = Some raw /\
    prev_ove_data raw = 6 /\ prev_data16 raw = wrap 8 bmask /\
    prev_length raw = 8 + ((cval size ≫ 2) - 1).
Proof.
  intros Ha Hsz Hm. unfold MEM_ATOMIC_CMD_BMASK.
  assert (Hc : 1 <= (cval size ≫ 2) <= 8) by (rewrite Z.shiftr_div_pow2 by lia; divlia).
  unfold mbind, prog_bind. rewrite ctassert_true by done.
  rewrite !try_ctassert_true by (first [apply Z.leb_le; lia | apply negb_true_iff, Z.eqb_neq; lia]).
  do 2 eexists. split; [apply issues_one_issue|].
  split_ands; try reflexivity; [by apply addr_split|..]; unfold ind_data;
    rewrite ?prev_alu_length, ?prev_alu_data16, ?prev_alu_ove_data;
    cbn [pa_length pa_data16 pa_ove_data].
  - done.
  - change 0xff with (Z.ones 8). rewrite wrap_land_ones by lia.
    apply wrap_id, (in_word_mono 8); [lia|by apply wrap_range].
  - unfold sub32. rewrite (wrap_id 32) by (unfold in_word; lia).
    change (1 ≪ 3) with (1 * 2 ^ 3). rewrite <- Z.shiftl_mul_pow2, lor_shift_add by (unfold in_word; lia).
    rewrite wrap_id by (unfold in_word; lia). lia.
Qed.

(** The meter command adds the colour and the mode to the low bits of the
    8-byte aligned bucket address, and returns the first word of the reply. *)
Theorem mem_meter_command meter_data addr mode color :
  in_word 40 (cval addr) -> cval addr mod 8 = 0 ->
  0 <= cval color <= METER_COLOR_RED -> cval mode = 0 \/ cval mode = 1 ->
  exists c, issues_one (__mem_meter meter_data addr mode color) c (fun ws => nth 0 ws 0) /\
    c_op c = "meter"%string /\ c_data c = [meter_data] /\
    cmd_addr c = cval addr + 2 * cval color + cval mode.
Proof.
  unfold METER_COLOR_RED. intros Ha H8 Hcol Hmode.
  unfold __mem_meter, mbind, prog_bind, METER_COLOR_RED, METER_MODE_PEAK, METER_MODE_EXCESS.
  rewrite !try_ctassert_true by
    (first [apply Z.leb_le; lia | apply Z.eqb_eq; exact H8 |
            apply orb_true_iff; destruct Hmode as [->| ->]; [by left|by right]]).
  eexists. split; [apply (issues_one_ret _ _ (fun ws => ws) (fun ws => nth 0 ws 0)), issues_one_issue|].
  split_ands; [done..|]. unfold cmd_addr; simpl.
  pose proof (addr_split _ Ha) as Hsplit.
  assert (E : cval addr .& 0xFFFFFFF8 = (cval addr ≫ 3 .& Z.ones 29) ≪ 3).
  { rewrite Z.shiftl_land, <- Z.ldiff_ones_r by lia. change (Z.ones 29 ≪ 3) with 0xFFFFFFF8.
    bitwise_as i. rewrite Z.ldiff_spec, testbit_ones by lia.
    change 0xFFFFFFF8 with (Z.ones 29 ≪ 3). rewrite testbit_shiftl by lia. bits_cases. }
  assert (E' : addr_lo (cval addr) = (cval addr ≫ 3 .& Z.ones 29) * 2 ^ 3).
  { rewrite <- Z.shiftl_mul_pow2, <- E by lia. unfold addr_lo.
    change 0xffffffff with (Z.ones 32). rewrite wrap_land_ones by lia.
    rewrite E, Z.shiftl_mul_pow2, Z.land_ones, Z.shiftr_div_pow2 by lia. unfold wrap. divlia. }
  assert (Hlow : (((cval color .& 3) ≪ 1) .| (cval mode .& 1)) = 2 * cval color + cval mode).
  { assert (Hc : cval color = 0 \/ cval color = 1 \/ cval color = 2) by lia.
    destruct Hmode as [-> | ->], Hc as [-> | [-> | ->]]; reflexivity. }
  rewrite E, Hlow, lor_shift_add by (unfold in_word; lia). lia.
Qed.

Lemma mem_meter_command_witness :
  exists c, issues_one (__mem_meter 7 (rt 0x1008) (ct 1) (ct 2)) c (fun ws => nth 0 ws 0) /\
    c_op c = "meter"%string /\ c_data c = [7] /\ cmd_addr c = 0x1008 + 2 * 2 + 1.
Proof.
  apply (mem_meter_command 7 (rt 0x1008) (ct 1) (ct 2)).
  - by vm_compute.
  - reflexivity.
  - unfold METER_COLOR_RED. cbn. lia.
  - right. reflexivity.
Defined.

End MemAtomic.
