(* ===== verification/MemRing.v ===== *)
(** lib/nfp/_c/mem_ring.c: rings, journals and work queues of the memory units. *)
From Stdlib Require Import ZArith Lia List String.
From stdpp Require Import base list numbers option strings.
From S2P Require Import Prelude Me MemBulk.
#[local] Open Scope Z_scope.

Module MemRing.

(** struct nfp_memring_t2, a queue descriptor of four words. *)
Record nfp_memring_t2 := Memring {
  ring_size : Z; reserved1 : Z; head_ptr : Z; eop : Z; zero : Z;
  tail_ptr : Z; ring_type : Z;
  q_loc : Z; reserved2 : Z; q_page : Z; q_count : Z;
  reserved3 : Z; reserved4 : Z }.

(** The words of the descriptor: the bit-fields from the most significant bit
    down, each keeping its low bits. *)
Definition memring_words (d : nfp_memring_t2) : list Z :=
  [ (wrap 4 (ring_size d) ≪ 28) .| (wrap 2 (reserved1 d) ≪ 26)
      .| (wrap 24 (head_ptr d) ≪ 2) .| (wrap 1 (eop d) ≪ 1) .| wrap 1 (zero d);
    (wrap 30 (tail_ptr d) ≪ 2) .| wrap 2 (ring_type d);
    (wrap 2 (q_loc d) ≪ 30) .| (wrap 4 (reserved2 d) ≪ 26)
      .| (wrap 2 (q_page d) ≪ 24) .| wrap 24 (q_count d);
    (wrap 28 (reserved3 d) ≪ 4) .| wrap 4 (reserved4 d) ].

Definition mem_ring_get_addr (base : Z) : Z := addr_hi base.

Definition SZ_512 : Z := 512.
Definition SZ_16M : Z := 16777216.

(** [__is_log2] and [__log2] *)
Definition is_log2 (x : Z) : bool := (0 <? x) && ((x .& (x - 1)) =? 0).
Definition log2 (x : Z) : Z := Z.log2 x.

Definition memring_desc (base entries : Z) : nfp_memring_t2 :=
  Memring (log2 entries - 9) 0 ((u32 base ≫ 2) .& 0xffffff) 0 0
          ((u32 base ≫ 2) .& 0x3fffffff) 2
          0 0 ((base ≫ 32) .& 0x3) 0
          0 0.

(** The PREV_ALU word of the ring-number overrides:
    [ind.data16 = rnum; ind.ove_data = 1] *)
Definition ind_rnum (rnum : Z) : Z := prev_alu_raw (PrevAlu 0 0 1 0 0 0 0 0 rnum).

Definition mem_ring_setup (rnum : carg) (base : Z) (size : carg) : prog Z :=
  let entries := cval size / 4 in
  _ ← try_ctassert (is_ct rnum) (cval rnum <? 1024);
  _ ← ctassert (is_ct size);
  _ ← ctassert (is_log2 entries);
  _ ← ctassert ((SZ_512 <=? entries) && (entries <=? SZ_16M));
  let desc := memring_words (memring_desc base entries) in
  _ ← MemBulk.mem_write64 desc base (ct 16);
  _ ← MemBulk.mem_read64 base (ct 16);
  let hi := (base ≫ 8) .& 0xffffffff in
  _ ← issue (Cmd T_mem "rd_qdesc" [] hi true 0 None None (Some (ind_rnum (cval rnum))));
  Ret (hi .& 0xff000000).

Definition mem_journal_setup (rnum : carg) (base : Z) (size : carg) : prog Z :=
  mem_ring_setup rnum base size.
Definition mem_workq_setup (rnum : carg) (base : Z) (size : carg) : prog Z :=
  mem_ring_setup rnum base size.

(** The command of a ring operation, with its reply and error signal. *)
Definition ring_cmd (op : string) (data : list Z) (rnum raddr r : Z) (sync : sync_t)
    (ind : option Z) : prog reply :=
  trigger (ECmd (Cmd T_mem op data raddr true rnum (Some r) (Some sync) ind)).

Definition MEM_RING_CMD_SIGPAIR (cmdname : string) (data : list Z) (rnum : carg) (raddr : Z)
    (size max_sz : carg) (sync : sync_t) : prog reply :=
  let count := cval size ≫ 2 in
  _ ← try_ctassert (is_ct rnum) (cval rnum <? 1024);
  _ ← try_ctassert (is_ct size) (negb (cval size =? 0));
  _ ← try_ctassert (is_ct size) (is_aligned (cval size) 4);
  _ ← try_ctassert (is_ct size) (cval size <=? 16 * 4);
  _ ← ctassert (bool_decide (sync = sig_done));
  if is_ct size then
    if cval size <=? 8 * 4 then ring_cmd cmdname data (cval rnum) raddr count sig_done None
    else ring_cmd cmdname data (cval rnum) raddr count sig_done (Some (ind_len (sub32 count 1)))
  else
    max_count ← ct_const_val max_sz (cval max_sz ≫ 2);
    ring_cmd cmdname data (cval rnum) raddr max_count sig_done (Some (ind_len (sub32 count 1))).

Definition MEM_RING_CMD_SIG (cmdname : string) (data : list Z) (rnum : carg) (raddr : Z)
    (size max_sz : carg) (sync : sync_t) : prog reply :=
  let count := cval size ≫ 2 in
  _ ← try_ctassert (is_ct rnum) (cval rnum <? 1024);
  _ ← try_ctassert (is_ct size) (negb (cval size =? 0));
  _ ← try_ctassert (is_ct size) (is_aligned (cval size) 4);
  _ ← try_ctassert (is_ct size) (cval size <=? 16 * 4);
  _ ← ctassert (is_ct max_sz && (cval max_sz <=? 16 * 4));
  if is_ct size then
    if cval size <=? 8 * 4 then ring_cmd cmdname data (cval rnum) raddr count sync None
    else ring_cmd cmdname data (cval rnum) raddr count sync (Some (ind_len (sub32 count 1)))
  else
    max_count ← ct_const_val max_sz (cval max_sz ≫ 2);
    ring_cmd cmdname data (cval rnum) raddr max_count sync (Some (ind_len (sub32 count 1))).

Definition __mem_ring_get (rnum : carg) (raddr : Z) (size max_size : carg) (sync : sync_t) : prog reply :=
  MEM_RING_CMD_SIGPAIR "get" [] rnum raddr size max_size sync.

(** [wait_for_all_single(&sigpair.even)], then the odd signal means the command
    failed. *)
Definition wait_pair (r : reply) : prog (list Z * Z) :=
  _ ← Vis (EArb A_wait) (fun _ => Ret tt);
  Ret (r_words r, if r_odd r then -1 else 0).

Definition mem_ring_get (rnum : carg) (raddr : Z) (size : carg) : prog (list Z * Z) :=
  r ← __mem_ring_get rnum raddr size size sig_done;
  wait_pair r.

Definition __mem_ring_get_freely (rnum : carg) (raddr : Z) (size max_size : carg)
    (sync : sync_t) : prog reply :=
  MEM_RING_CMD_SIG "get_freely" [] rnum raddr size max_size sync.

Definition mem_ring_get_freely (rnum : carg) (raddr : Z) (size : carg) : prog (list Z) :=
  r ← __mem_ring_get_freely rnum raddr size size ctx_swap;
  Ret (r_words r).

Definition __mem_ring_pop (rnum : carg) (raddr : Z) (size max_size : carg) (sync : sync_t) : prog reply :=
  MEM_RING_CMD_SIGPAIR "pop" [] rnum raddr size max_size sync.

Definition mem_ring_pop (rnum : carg) (raddr : Z) (size : carg) : prog (list Z * Z) :=
  r ← __mem_ring_pop rnum raddr size size sig_done;
  wait_pair r.

Definition __mem_ring_put (rnum : carg) (raddr : Z) (data : list Z) (size max_size : carg)
    (sync : sync_t) : prog reply :=
  MEM_RING_CMD_SIGPAIR "put" data rnum raddr size max_size sync.

(** [(result & (1 << 31)) ? (result << 2) : -1] on the status word *)
Definition mem_ring_put (rnum : carg) (raddr : Z) (data : list Z) (size : carg) : prog Z :=
  r ← __mem_ring_put rnum raddr data size size sig_done;
  _ ← Vis (EArb A_wait) (fun _ => Ret tt);
  let result := word0 r in
  Ret (if negb ((result .& (1 ≪ 31)) =? 0) then s32 (shl32 result 2) else -1).

Definition __mem_ring_journal (rnum : carg) (raddr : Z) (data : list Z) (size max_size : carg)
    (sync : sync_t) : prog reply :=
  MEM_RING_CMD_SIG "journal" data rnum raddr size max_size sync.

Definition mem_ring_journal (rnum : carg) (raddr : Z) (data : list Z) (size : carg) : prog unit :=
  _ ← __mem_ring_journal rnum raddr data size size ctx_swap;
  Ret tt.

Definition mem_ring_journal_fast (rnum : carg) (raddr value : Z) : prog unit :=
  _ ← try_ctassert (is_ct rnum) (cval rnum <? 1024);
  _ ← issue (Cmd T_mem "fast_journal" [] raddr true value None None
                 (Some (ind_rnum (cval rnum))));
  Ret tt.

Definition __mem_workq_add_work (rnum : carg) (raddr : Z) (data : list Z) (size max_size : carg)
    (sync : sync_t) : prog reply :=
  MEM_RING_CMD_SIG "qadd_work" data rnum raddr size max_size sync.

Definition mem_workq_add_work (rnum : carg) (raddr : Z) (data : list Z) (size : carg) : prog unit :=
  _ ← __mem_workq_add_work rnum raddr data size size ctx_swap;
  Ret tt.

Definition mem_workq_add_work_imm (rnum : carg) (raddr data : Z) : prog unit :=
  _ ← try_ctassert (is_ct rnum) (cval rnum <? 1024);
  _ ← issue (Cmd T_mem "qadd_work_imm" [] raddr true data (Some 1) None
                 (Some (ind_rnum (cval rnum))));
  Ret tt.

Definition __mem_workq_add_thread (rnum : carg) (raddr : Z) (size max_size : carg)
    (sync : sync_t) : prog reply :=
  MEM_RING_CMD_SIG "qadd_thread" [] rnum raddr size max_size sync.

Definition mem_workq_add_thread (rnum : carg) (raddr : Z) (size : carg) : prog (list Z) :=
  r ← __mem_workq_add_thread rnum raddr size size ctx_swap;
  Ret (r_words r).

(** [desc.q_count << 2] of the descriptor the command reads *)
Definition mem_ring_current_size (rnum : carg) (raddr : Z) : prog Z :=
  _ ← try_ctassert (is_ct rnum) (cval rnum <? 1024);
  ws ← issue (Cmd T_mem "push_qdesc" [] raddr true (cval rnum) None (Some ctx_swap) None);
  Ret (shl32 (field 0 24 (nth 2 ws 0)) 2).

(** ** Properties *)

(** The descriptor of a ring of [2 ^ k] entries at a 38-bit base aligned to the
    entry size decodes to that size and to that base, empty. *)
Lemma memring_fields d :
  nth 0 (memring_words d) 0 ≫ 28 = wrap 4 (ring_size d) /\
  field 2 24 (nth 0 (memring_words d) 0) = wrap 24 (head_ptr d) /\
  field 2 30 (nth 1 (memring_words d) 0) = wrap 30 (tail_ptr d) /\
  field 24 2 (nth 2 (memring_words d) 0) = wrap 2 (q_page d) /\
  field 0 24 (nth 2 (memring_words d) 0) = wrap 24 (q_count d).
Proof.
  unfold memring_words, field. cbn [nth].
  split_ands; bitwise_as i; bits_cases; f_equal; lia.
Qed.

Lemma is_log2_pow2 k : 0 <= k -> is_log2 (2 ^ k) = true.
Proof.
  intros Hk. unfold is_log2. apply andb_true_iff. split.
  - apply Z.ltb_lt, Z.pow_pos_nonneg; lia.
  - apply Z.eqb_eq. rewrite Z.sub_1_r, <- Z.ones_equiv, Z.land_ones by lia.
    apply Z_mod_same_full.
Qed.

Lemma prev_rnum rnum : 0 <= rnum < 1024 ->
  prev_data16 (ind_rnum rnum) = rnum /\ prev_ove_data (ind_rnum rnum) = 1.
Proof.
  intros Hr. unfold ind_rnum. rewrite prev_alu_data16, prev_alu_ove_data.
  split; [apply wrap_id; unfold in_word; simpl; lia|done].
Qed.

Lemma addr_hi_raddr base : in_word 40 base -> addr_hi base ≪ 8 = (base ≫ 32) ≪ 32.
Proof.
  intros Hb. pose proof (addr_split _ Hb) as E. unfold addr_lo in E.
  change 0xffffffff with (Z.ones 32) in E. rewrite Z.land_ones in E by lia.
  rewrite (Z.shiftl_mul_pow2 (base ≫ 32)), Z.shiftr_div_pow2 by lia. divlia.
Qed.

(** Setting up a ring of 2^k entries writes the two-reference queue
    descriptor at its base, reads it back, and loads it as the queue of the ring
    number; the descriptor encodes the size, the low 26 and 32 bits of the base as
    head and tail and the top bits as the queue page, with a count of zero. *)
Theorem mem_ring_setup_spec rnum base k :
  0 <= cval rnum < 1024 -> in_word 40 base -> base mod 2048 = 0 -> 9 <= k <= 24 ->
  exists w r q desc,
    (forall St (h : St -> event -> reply * St) s,
      let o := exec h (mem_ring_setup rnum base (ct (4 * 2 ^ k))) s in
      o_trace o = [ECmd w; ECmd r; ECmd q] /\ o_res o = inl (mem_ring_get_addr base)) /\
    presents w T_mem "write" desc base (Some 2) (Some ctx_swap) /\
    presents r T_mem "read" [] base (Some 2) (Some ctx_swap) /\
    c_op q = "rd_qdesc"%string /\ cmd_addr q = base /\
    option_map prev_data16 (c_prev q) = Some (cval rnum) /\
    2 ^ (9 + (nth 0 desc 0 ≫ 28)) = 2 ^ k /\
    4 * field 2 24 (nth 0 desc 0) = base mod 2 ^ 26 /\
    4 * field 2 30 (nth 1 desc 0) = base mod 2 ^ 32 /\
    field 24 2 (nth 2 desc 0) = field 32 2 base /\
    field 0 24 (nth 2 desc 0) = 0.
Proof.
  intros Hr Hb Hal Hk. pose proof (addr_split _ Hb) as Hsplit.
  assert (E4 : 4 * 2 ^ k / 4 = 2 ^ k) by (rewrite Z.mul_comm; apply Z.div_mul; lia).
  assert (Hsz : (SZ_512 <=? 2 ^ k) && (2 ^ k <=? SZ_16M) = true).
  { apply andb_true_iff. split; apply Z.leb_le;
      [change SZ_512 with (2 ^ 9)|change SZ_16M with (2 ^ 24)]; apply Z.pow_le_mono_r; lia. }
  do 4 eexists. split.
  { intros St h s. unfold mem_ring_setup. cbn [cval is_ct ct].
    rewrite E4, (is_log2_pow2 k), Hsz by lia.
    unfold mbind, prog_bind. rewrite try_ctassert_true by (apply Z.ltb_lt; lia).
    split; [reflexivity|]. simpl. unfold mem_ring_get_addr, addr_hi.
    f_equal. change 0xffffffff with (Z.ones 32). change 0xff000000 with (Z.ones 8 ≪ 24).
    bitwise_as i. bits_cases. }
  destruct (memring_fields (memring_desc base (2 ^ k))) as (-> & -> & -> & -> & ->).
  split_ands; try reflexivity; try (split; try reflexivity; by apply addr_split).
  - unfold cmd_addr. cbn [c_shl8 c_hi c_lo]. change 0xffffffff with (Z.ones 32).
    rewrite wrap_land_ones, wrap_id, Z.shiftl_mul_pow2, Z.shiftr_div_pow2 by
      (rewrite ?Z.shiftr_div_pow2; unfold in_word in *; divlia). divlia.
  - cbn [c_prev option_map]. by rewrite (proj1 (prev_rnum _ Hr)).
  - cbn [ring_size memring_desc]. unfold log2. rewrite Z.log2_pow2 by lia.
    rewrite wrap_id by (unfold in_word; simpl; lia). f_equal; lia.
  - cbn [head_ptr memring_desc]. change 0xffffff with (Z.ones 24).
    rewrite wrap_land_ones, wrap_idem by lia. unfold wrap. rewrite Z.shiftr_div_pow2 by lia. divlia.
  - cbn [tail_ptr memring_desc]. change 0x3fffffff with (Z.ones 30).
    rewrite wrap_land_ones, wrap_idem by lia. unfold wrap. rewrite Z.shiftr_div_pow2 by lia. divlia.
  - cbn [q_page memring_desc]. change 0x3 with (Z.ones 2).
    rewrite wrap_land_ones, wrap_idem by lia. done.
Qed.

Lemma mem_ring_setup_spec_witness :
  exists w r q desc,
    (forall St (h : St -> event -> reply * St) s,
      let o := exec h (mem_ring_setup (ct 7) 0x1200000800 (ct (4 * 2 ^ 10))) s in
      o_trace o = [ECmd w; ECmd r; ECmd q] /\ o_res o = inl (mem_ring_get_addr 0x1200000800)) /\
    cmd_addr w = 0x1200000800 /\ cmd_addr r = 0x1200000800 /\ cmd_addr q = 0x1200000800 /\
    2 ^ (9 + (nth 0 desc 0 ≫ 28)) = 2 ^ 10.
Proof.
  destruct (mem_ring_setup_spec (ct 7) 0x1200000800 10)
    as (w & r & q & desc & Hex & Pw & Pr & _ & Hq & _ & Hs & _);
    [cbn; lia|by vm_compute|reflexivity|lia|].
  exists w, r, q, desc. exact (conj Hex (conj (pr_addr _ _ _ _ _ _ _ Pw)
    (conj (pr_addr _ _ _ _ _ _ _ Pr) (conj Hq Hs)))).
Defined.

End MemRing.
