(* ===== verification/MemCam.v ===== *)
(** lib/nfp/_c/mem_cam.c: lookups in the CAMs of the memory units. *)
From Stdlib Require Import ZArith Lia List String.
From stdpp Require Import base list numbers option strings.
From S2P Require Import Prelude Me.
#[local] Open Scope Z_scope.

Module MemCam.

Definition cam_cmd (op : string) (data : list Z) (addr : Z) (ind : option Z) : prog (list Z) :=
  issue (Cmd T_mem op data (addr_hi addr) true (addr_lo addr) None (Some sig_done) ind).

Definition __mem_cam_lookup (data : list Z) (addr : Z) (camsize cambits : carg)
    (sync : sync_t) : prog (list Z) :=
  let size := cval camsize in
  let bits := cval cambits in
  _ ← ctassert (is_ct camsize);
  _ ← ctassert (is_ct cambits);
  _ ← ctassert ((size =? 128) || (size =? 256) || (size =? 384) || (size =? 512));
  _ ← ctassert ((bits =? 8) || (bits =? 16) || (bits =? 24) || (bits =? 32));
  _ ← ctassert (bool_decide (sync = sig_done));
  if size =? 128 then
    if bits =? 8 then cam_cmd "cam128_lookup8" data addr None
    else if bits =? 16 then cam_cmd "cam128_lookup16" data addr None
    else if bits =? 24 then cam_cmd "cam128_lookup24" data addr None
    else cam_cmd "cam128_lookup32" data addr None
  else if size =? 256 then
    if bits =? 8 then cam_cmd "cam256_lookup8" data addr None
    else if bits =? 16 then cam_cmd "cam256_lookup16" data addr None
    else if bits =? 24 then cam_cmd "cam256_lookup24" data addr None
    else cam_cmd "cam256_lookup32" data addr None
  else
    let length :=
      if (size =? 384) && (bits =? 8) then 8
      else if (size =? 384) && (bits =? 16) then 9
      else if (size =? 384) && (bits =? 24) then 10
      else if size =? 384 then 11
      else if (size =? 512) && (bits =? 8) then 12
      else if (size =? 512) && (bits =? 16) then 13
      else if (size =? 512) && (bits =? 24) then 14
      else 15 in
    cam_cmd "cam_lookup" data addr (Some (ind_len length)).

Definition mem_cam_lookup (data : list Z) (addr : Z) (camsize cambits : carg) : prog (list Z) :=
  data' ← __mem_cam_lookup data addr camsize cambits sig_done;
  _ ← Vis (EArb A_wait) (fun _ => Ret tt);
  Ret data'.

Definition __mem_cam_lookup_add (data : list Z) (addr : Z) (camsize cambits : carg)
    (sync : sync_t) : prog (list Z) :=
  let size := cval camsize in
  let bits := cval cambits in
  _ ← ctassert (is_ct camsize);
  _ ← ctassert (is_ct cambits);
  _ ← ctassert ((size =? 128) || (size =? 256) || (size =? 384) || (size =? 512));
  _ ← ctassert ((bits =? 8) || (bits =? 16) || (bits =? 24) || (bits =? 32));
  _ ← ctassert (bool_decide (sync = sig_done));
  if size =? 128 then
    if bits =? 8 then cam_cmd "cam128_lookup8_add" data addr None
    else if bits =? 16 then cam_cmd "cam128_lookup16_add" data addr None
    else if bits =? 24 then cam_cmd "cam128_lookup24_add" data addr None
    else cam_cmd "cam128_lookup32_add" data addr None
  else if size =? 256 then
    if bits =? 8 then cam_cmd "cam256_lookup8_add" data addr None
    else if bits =? 16 then cam_cmd "cam256_lookup16_add" data addr None
    else if bits =? 24 then cam_cmd "cam256_lookup24_add" data addr None
    else cam_cmd "cam256_lookup32_add" data addr None
  else
    let length :=
      if (size =? 384) && (bits =? 8) then 8
      else if (size =? 384) && (bits =? 16) then 9
      else if (size =? 384) && (bits =? 24) then 10
      else if size =? 384 then 11
      else if (size =? 512) && (bits =? 8) then 12
      else if (size =? 512) && (bits =? 16) then 13
      else if (size =? 512) && (bits =? 24) then 14
      else 15 in
    cam_cmd "cam_lookup_add" data addr (Some (ind_len length)).

Definition mem_cam_lookup_add (data : list Z) (addr : Z) (camsize cambits : carg) : prog (list Z) :=
  data' ← __mem_cam_lookup_add data addr camsize cambits sig_done;
  _ ← Vis (EArb A_wait) (fun _ => Ret tt);
  Ret data'.

Definition __mem_cam128_lookup8 (data : list Z) (addr : Z) (sync : sync_t) : prog (list Z) :=
  __mem_cam_lookup data addr (ct 128) (ct 8) sync.
Definition mem_cam128_lookup8 (data : list Z) (addr : Z) : prog (list Z) :=
  mem_cam_lookup data addr (ct 128) (ct 8).

Definition __mem_cam128_lookup16 (data : list Z) (addr : Z) (sync : sync_t) : prog (list Z) :=
  __mem_cam_lookup data addr (ct 128) (ct 16) sync.
Definition mem_cam128_lookup16 (data : list Z) (addr : Z) : prog (list Z) :=
  mem_cam_lookup data addr (ct 128) (ct 16).

Definition __mem_cam128_lookup24 (data : list Z) (addr : Z) (sync : sync_t) : prog (list Z) :=
  __mem_cam_lookup data addr (ct 128) (ct 24) sync.
Definition mem_cam128_lookup24 (data : list Z) (addr : Z) : prog (list Z) :=
  mem_cam_lookup data addr (ct 128) (ct 24).

Definition __mem_cam128_lookup32 (data : list Z) (addr : Z) (sync : sync_t) : prog (list Z) :=
  __mem_cam_lookup data addr (ct 128) (ct 32) sync.
Definition mem_cam128_lookup32 (data : list Z) (addr : Z) : prog (list Z) :=
  mem_cam_lookup data addr (ct 128) (ct 32).

Definition __mem_cam256_lookup8 (data : list Z) (addr : Z) (sync : sync_t) : prog (list Z) :=
  __mem_cam_lookup data addr (ct 256) (ct 8) sync.
Definition mem_cam256_lookup8 (data : list Z) (addr : Z) : prog (list Z) :=
  mem_cam_lookup data addr (ct 256) (ct 8).

Definition __mem_cam256_lookup16 (data : list Z) (addr : Z) (sync : sync_t) : prog (list Z) :=
  __mem_cam_lookup data addr (ct 256) (ct 16) sync.
Definition mem_cam256_lookup16 (data : list Z) (addr : Z) : prog (list Z) :=
  mem_cam_lookup data addr (ct 256) (ct 16).

Definition __mem_cam256_lookup24 (data : list Z) (addr : Z) (sync : sync_t) : prog (list Z) :=
  __mem_cam_lookup data addr (ct 256) (ct 24) sync.
Definition mem_cam256_lookup24 (data : list Z) (addr : Z) : prog (list Z) :=
  mem_cam_lookup data addr (ct 256) (ct 24).

Definition __mem_cam256_lookup32 (data : list Z) (addr : Z) (sync : sync_t) : prog (list Z) :=
  __mem_cam_lookup data addr (ct 256) (ct 32) sync.
Definition mem_cam256_lookup32 (data : list Z) (addr : Z) : prog (list Z) :=
  mem_cam_lookup data addr (ct 256) (ct 32).

Definition __mem_cam384_lookup8 (data : list Z) (addr : Z) (sync : sync_t) : prog (list Z) :=
  __mem_cam_lookup data addr (ct 384) (ct 8) sync.
Definition mem_cam384_lookup8 (data : list Z) (addr : Z) : prog (list Z) :=
  mem_cam_lookup data addr (ct 384) (ct 8).

Definition __mem_cam384_lookup16 (data : list Z) (addr : Z) (sync : sync_t) : prog (list Z) :=
  __mem_cam_lookup data addr (ct 384) (ct 16) sync.
Definition mem_cam384_lookup16 (data : list Z) (addr : Z) : prog (list Z) :=
  mem_cam_lookup data addr (ct 384) (ct 16).

Definition __mem_cam384_lookup24 (data : list Z) (addr : Z) (sync : sync_t) : prog (list Z) :=
  __mem_cam_lookup data addr (ct 384) (ct 24) sync.
Definition mem_cam384_lookup24 (data : list Z) (addr : Z) : prog (list Z) :=
  mem_cam_lookup data addr (ct 384) (ct 24).

Definition __mem_cam384_lookup32 (data : list Z) (addr : Z) (sync : sync_t) : prog (list Z) :=
  __mem_cam_lookup data addr (ct 384) (ct 32) sync.
Definition mem_cam384_lookup32 (data : list Z) (addr : Z) : prog (list Z) :=
  mem_cam_lookup data addr (ct 384) (ct 32).

Definition __mem_cam512_lookup8 (data : list Z) (addr : Z) (sync : sync_t) : prog (list Z) :=
  __mem_cam_lookup data addr (ct 512) (ct 8) sync.
Definition mem_cam512_lookup8 (data : list Z) (addr : Z) : prog (list Z) :=
  mem_cam_lookup data addr (ct 512) (ct 8).

Definition __mem_cam512_lookup16 (data : list Z) (addr : Z) (sync : sync_t) : prog (list Z) :=
  __mem_cam_lookup data addr (ct 512) (ct 16) sync.
Definition mem_cam512_lookup16 (data : list Z) (addr : Z) : prog (list Z) :=
  mem_cam_lookup data addr (ct 512) (ct 16).

Definition __mem_cam512_lookup24 (data : list Z) (addr : Z) (sync : sync_t) : prog (list Z) :=
  __mem_cam_lookup data addr (ct 512) (ct 24) sync.
Definition mem_cam512_lookup24 (data : list Z) (addr : Z) : prog (list Z) :=
  mem_cam_lookup data addr (ct 512) (ct 24).

Definition __mem_cam512_lookup32 (data : list Z) (addr : Z) (sync : sync_t) : prog (list Z) :=
  __mem_cam_lookup data addr (ct 512) (ct 32) sync.
Definition mem_cam512_lookup32 (data : list Z) (addr : Z) : prog (list Z) :=
  mem_cam_lookup data addr (ct 512) (ct 32).

Definition __mem_cam128_lookup8_add (data : list Z) (addr : Z) (sync : sync_t) : prog (list Z) :=
  __mem_cam_lookup_add data addr (ct 128) (ct 8) sync.
Definition mem_cam128_lookup8_add (data : list Z) (addr : Z) : prog (list Z) :=
  mem_cam_lookup_add data addr (ct 128) (ct 8).

Definition __mem_cam128_lookup16_add (data : list Z) (addr : Z) (sync : sync_t) : prog (list Z) :=
  __mem_cam_lookup_add data addr (ct 128) (ct 16) sync.
Definition mem_cam128_lookup16_add (data : list Z) (addr : Z) : prog (list Z) :=
  mem_cam_lookup_add data addr (ct 128) (ct 16).

Definition __mem_cam128_lookup24_add (data : list Z) (addr : Z) (sync : sync_t) : prog (list Z) :=
  __mem_cam_lookup_add data addr (ct 128) (ct 24) sync.
Definition mem_cam128_lookup24_add (data : list Z) (addr : Z) : prog (list Z) :=
  mem_cam_lookup_add data addr (ct 128) (ct 24).

Definition __mem_cam128_lookup32_add (data : list Z) (addr : Z) (sync : sync_t) : prog (list Z) :=
  __mem_cam_lookup_add data addr (ct 128) (ct 32) sync.
Definition mem_cam128_lookup32_add (data : list Z) (addr : Z) : prog (list Z) :=
  mem_cam_lookup_add data addr (ct 128) (ct 32).

Definition __mem_cam256_lookup8_add (data : list Z) (addr : Z) (sync : sync_t) : prog (list Z) :=
  __mem_cam_lookup_add data addr (ct 256) (ct 8) sync.
Definition mem_cam256_lookup8_add (data : list Z) (addr : Z) : prog (list Z) :=
  mem_cam_lookup_add data addr (ct 256) (ct 8).

Definition __mem_cam256_lookup16_add (data : list Z) (addr : Z) (sync : sync_t) : prog (list Z) :=
  __mem_cam_lookup_add data addr (ct 256) (ct 16) sync.
Definition mem_cam256_lookup16_add (data : list Z) (addr : Z) : prog (list Z) :=
  mem_cam_lookup_add data addr (ct 256) (ct 16).

Definition __mem_cam256_lookup24_add (data : list Z) (addr : Z) (sync : sync_t) : prog (list Z) :=
  __mem_cam_lookup_add data addr (ct 256) (ct 24) sync.
Definition mem_cam256_lookup24_add (data : list Z) (addr : Z) : prog (list Z) :=
  mem_cam_lookup_add data addr (ct 256) (ct 24).

Definition __mem_cam256_lookup32_add (data : list Z) (addr : Z) (sync : sync_t) : prog (list Z) :=
  __mem_cam_lookup_add data addr (ct 256) (ct 32) sync.
Definition mem_cam256_lookup32_add (data : list Z) (addr : Z) : prog (list Z) :=
  mem_cam_lookup_add data addr (ct 256) (ct 32).

Definition __mem_cam384_lookup8_add (data : list Z) (addr : Z) (sync : sync_t) : prog (list Z) :=
  __mem_cam_lookup_add data addr (ct 384) (ct 8) sync.
Definition mem_cam384_lookup8_add (data : list Z) (addr : Z) : prog (list Z) :=
  mem_cam_lookup_add data addr (ct 384) (ct 8).

Definition __mem_cam384_lookup16_add (data : list Z) (addr : Z) (sync : sync_t) : prog (list Z) :=
  __mem_cam_lookup_add data addr (ct 384) (ct 16) sync.
Definition mem_cam384_lookup16_add (data : list Z) (addr : Z) : prog (list Z) :=
  mem_cam_lookup_add data addr (ct 384) (ct 16).

Definition __mem_cam384_lookup24_add (data : list Z) (addr : Z) (sync : sync_t) : prog (list Z) :=
  __mem_cam_lookup_add data addr (ct 384) (ct 24) sync.
Definition mem_cam384_lookup24_add (data : list Z) (addr : Z) : prog (list Z) :=
  mem_cam_lookup_add data addr (ct 384) (ct 24).

Definition __mem_cam384_lookup32_add (data : list Z) (addr : Z) (sync : sync_t) : prog (list Z) :=
  __mem_cam_lookup_add data addr (ct 384) (ct 32) sync.
Definition mem_cam384_lookup32_add (data : list Z) (addr : Z) : prog (list Z) :=
  mem_cam_lookup_add data addr (ct 384) (ct 32).

Definition __mem_cam512_lookup8_add (data : list Z) (addr : Z) (sync : sync_t) : prog (list Z) :=
  __mem_cam_lookup_add data addr (ct 512) (ct 8) sync.
Definition mem_cam512_lookup8_add (data : list Z) (addr : Z) : prog (list Z) :=
  mem_cam_lookup_add data addr (ct 512) (ct 8).

Definition __mem_cam512_lookup16_add (data : list Z) (addr : Z) (sync : sync_t) : prog (list Z) :=
  __mem_cam_lookup_add data addr (ct 512) (ct 16) sync.
Definition mem_cam512_lookup16_add (data : list Z) (addr : Z) : prog (list Z) :=
  mem_cam_lookup_add data addr (ct 512) (ct 16).

Definition __mem_cam512_lookup24_add (data : list Z) (addr : Z) (sync : sync_t) : prog (list Z) :=
  __mem_cam_lookup_add data addr (ct 512) (ct 24) sync.
Definition mem_cam512_lookup24_add (data : list Z) (addr : Z) : prog (list Z) :=
  mem_cam_lookup_add data addr (ct 512) (ct 24).

Definition __mem_cam512_lookup32_add (data : list Z) (addr : Z) (sync : sync_t) : prog (list Z) :=
  __mem_cam_lookup_add data addr (ct 512) (ct 32) sync.
Definition mem_cam512_lookup32_add (data : list Z) (addr : Z) : prog (list Z) :=
  mem_cam_lookup_add data addr (ct 512) (ct 32).

(** The result word of a lookup (struct mem_cam_24bit.result, and the same for
    32 bits): mask, data and match fields from the most significant bit down. *)
Definition result_mask (w : Z) : Z := field 16 16 w.
Definition result_data (w : Z) : Z := field 8 8 w.
Definition result_match (w : Z) : Z := field 0 8 w.

(** mem_cam.h *)
Definition mem_cam_lookup_hit (w : Z) : bool := negb (result_match w =? 0xff).
Definition mem_cam_lookup_add_added (w : Z) : bool := negb ((result_match w .& 0x80) =? 0).
Definition mem_cam_lookup_add_fail (w : Z) : bool := result_match w =? 0xff.

(** The wrappers of the fixed shapes. *)

Definition cam_wrappers : list (Z * Z * (list Z -> Z -> sync_t -> prog (list Z))) :=
  [ (128, 8, __mem_cam128_lookup8);
    (128, 16, __mem_cam128_lookup16);
    (128, 24, __mem_cam128_lookup24);
    (128, 32, __mem_cam128_lookup32);
    (256, 8, __mem_cam256_lookup8);
    (256, 16, __mem_cam256_lookup16);
    (256, 24, __mem_cam256_lookup24);
    (256, 32, __mem_cam256_lookup32);
    (384, 8, __mem_cam384_lookup8);
    (384, 16, __mem_cam384_lookup16);
    (384, 24, __mem_cam384_lookup24);
    (384, 32, __mem_cam384_lookup32);
    (512, 8, __mem_cam512_lookup8);
    (512, 16, __mem_cam512_lookup16);
    (512, 24, __mem_cam512_lookup24);
    (512, 32, __mem_cam512_lookup32) ].

Definition cam_add_wrappers : list (Z * Z * (list Z -> Z -> sync_t -> prog (list Z))) :=
  [ (128, 8, __mem_cam128_lookup8_add);
    (128, 16, __mem_cam128_lookup16_add);
    (128, 24, __mem_cam128_lookup24_add);
    (128, 32, __mem_cam128_lookup32_add);
    (256, 8, __mem_cam256_lookup8_add);
    (256, 16, __mem_cam256_lookup16_add);
    (256, 24, __mem_cam256_lookup24_add);
    (256, 32, __mem_cam256_lookup32_add);
    (384, 8, __mem_cam384_lookup8_add);
    (384, 16, __mem_cam384_lookup16_add);
    (384, 24, __mem_cam384_lookup24_add);
    (384, 32, __mem_cam384_lookup32_add);
    (512, 8, __mem_cam512_lookup8_add);
    (512, 16, __mem_cam512_lookup16_add);
    (512, 24, __mem_cam512_lookup24_add);
    (512, 32, __mem_cam512_lookup32_add) ].

(** ** The shape a command selects *)

(** The operation of a command without indirect reference, or the length code of
    one with it, read back as the CAM's size and key width. *)
Definition cam_shape (suffix : string) (c : cmd) : option (Z * Z) :=
  match c_prev c with
  | None =>
      let direct (p : string * (Z * Z)) := bool_decide (c_op c = (p.1 ++ suffix)%string) in
      snd <$> List.find direct
        [ ("cam128_lookup8", (128, 8)); ("cam128_lookup16", (128, 16));
          ("cam128_lookup24", (128, 24)); ("cam128_lookup32", (128, 32));
          ("cam256_lookup8", (256, 8)); ("cam256_lookup16", (256, 16));
          ("cam256_lookup24", (256, 24)); ("cam256_lookup32", (256, 32)) ]%string
  | Some raw =>
      let l := prev_length raw in
      if bool_decide (c_op c = ("cam_lookup" ++ suffix)%string) && (prev_ov_len raw =? 1)
         && (8 <=? l) && (l <=? 15)
      then Some (if l <? 12 then 384 else 512, 8 * (l mod 4 + 1)) else None
  end.

Definition cam_issues (suffix : string) (p : prog (list Z)) (data : list Z) (addr size bits : Z) : Prop :=
  exists c, issues_one p c (fun ws => ws) /\ c_data c = data /\ cmd_addr c = addr /\
            cam_shape suffix c = Some (size, bits).

Ltac cam_solve := intros; eexists; split; [apply issues_one_issue|];
  split_ands; [reflexivity|by apply addr_split|reflexivity].

(** Each of the 32 CAM lookup functions, adding or not, for a table of 128 to
    512 bits and entries of 8 to 32 bits, issues the one command of its table and
    entry width on its address. *)
Theorem cam_lookups_command (add : bool) size bits f :
  In (size, bits, f) (if add then cam_add_wrappers else cam_wrappers) ->
  forall data addr, in_word 40 addr ->
  cam_issues (if add then "_add" else "") (f data addr sig_done) data addr size bits.
Proof.
  intros H. destruct add; repeat (destruct H as [[= <- <- <-]|H]; [cam_solve|]); destruct H.
Qed.

Lemma cam_lookups_command_witness :
  cam_issues "_add" (__mem_cam384_lookup24_add [0xABCDEF] 0x1000000040 sig_done) [0xABCDEF] 0x1000000040 384 24.
Proof. apply (cam_lookups_command true); [cbn; tauto|done]. Defined.

(** Any other shape does not build. *)
Lemma cam_lookup_reject data addr size bits sync :
  ~ (In size [128; 256; 384; 512] /\ In bits [8; 16; 24; 32]) ->
  __mem_cam_lookup data addr (ct size) (ct bits) sync = Stop CtAssert.
Proof.
  intros H. unfold __mem_cam_lookup. cbn [cval is_ct ct ctassert].
  destruct ((size =? 128) || (size =? 256) || (size =? 384) || (size =? 512)) eqn:E1; [|done].
  destruct ((bits =? 8) || (bits =? 16) || (bits =? 24) || (bits =? 32)) eqn:E2; [|done].
  exfalso. apply H. rewrite !orb_true_iff, !Z.eqb_eq in E1, E2. simpl. lia.
Qed.

End MemCam.
