(* ===== verification/Cls.v ===== *)
(** lib/nfp/_c/cls.c: the cluster local scratch, its atomic operations, rings,
    work queues and lock queues. *)
From Stdlib Require Import ZArith Lia List String.
From stdpp Require Import base list numbers option strings.
From S2P Require Import Prelude Me.
#[local] Open Scope Z_scope.

Module Cls.

(** [cls[op, *data, addr, off, ref]] *)
Definition cls_cmd (op : string) (data : list Z) (addr off : Z) (r : option Z)
    (sync : option sync_t) (ind : option Z) : cmd :=
  Cmd T_cls op data addr false off r sync ind.

Definition CLS_CMD (cmdname : string) (data : list Z) (addr : Z)
    (size max_size : carg) (sync : sync_t) (cmin cmax : Z) : prog (list Z) :=
  let count := cval size ≫ 2 in
  let max_count := cval max_size ≫ 2 in
  _ ← ctassert (is_ct max_size);
  let cls r ind := issue (cls_cmd cmdname data addr 0 (Some r) (Some sync) ind) in
  if is_ct size then
    _ ← ctassert (negb (cval size =? 0));
    _ ← ctassert (is_aligned (cval size) 4);
    if cval size <=? cmax * 4 then cls count None
    else
      _ ← ctassert (cval size <=? 128);
      cls count (Some (ind_len (sub32 count 1)))
  else cls max_count (Some (ind_len (sub32 count 1))).

(** [ctassert] on an expression of an argument: it must be a constant. *)
Definition ctassert_arg (x : carg) (b : bool) : prog unit := ctassert (is_ct x && b).

Definition __cls_read_be (addr : Z) (size max_size : carg) (sync : sync_t) : prog (list Z) :=
  CLS_CMD "read_be" [] addr size max_size sync 1 8.
Definition cls_read_be (addr : Z) (size : carg) : prog (list Z) :=
  __cls_read_be addr size size ctx_swap.

Definition __cls_write_be (data : list Z) (addr : Z) (size max_size : carg) (sync : sync_t) : prog unit :=
  _ ← CLS_CMD "write_be" data addr size max_size sync 1 8; Ret tt.
Definition cls_write_be (data : list Z) (addr : Z) (size : carg) : prog unit :=
  __cls_write_be data addr size size ctx_swap.

Definition __cls_read_le (addr : Z) (size max_size : carg) (sync : sync_t) : prog (list Z) :=
  CLS_CMD "read_le" [] addr size max_size sync 1 8.
Definition cls_read_le (addr : Z) (size : carg) : prog (list Z) :=
  __cls_read_le addr size size ctx_swap.

Definition __cls_write_le (data : list Z) (addr : Z) (size max_size : carg) (sync : sync_t) : prog unit :=
  _ ← CLS_CMD "write_le" data addr size max_size sync 1 8; Ret tt.
Definition cls_write_le (data : list Z) (addr : Z) (size : carg) : prog unit :=
  __cls_write_le data addr size size ctx_swap.

(** The endian-neutral names of a big-endian build. *)
Definition __cls_read (addr : Z) (size max_size : carg) (sync : sync_t) : prog (list Z) :=
  __cls_read_be addr size max_size sync.
Definition cls_read (addr : Z) (size : carg) : prog (list Z) := cls_read_be addr size.
Definition __cls_write (data : list Z) (addr : Z) (size max_size : carg) (sync : sync_t) : prog unit :=
  __cls_write_be data addr size max_size sync.
Definition cls_write (data : list Z) (addr : Z) (size : carg) : prog unit := cls_write_be data addr size.

Definition __cls_hash_mask_clr (key : list Z) (mask : Z) (size max_size : carg) (idx : Z)
    (sync : sync_t) : prog unit :=
  _ ← ctassert_arg size (is_aligned (cval size) 2);
  _ ← ctassert_arg max_size (is_aligned (cval max_size) 2);
  let temp_mask := shl32 idx 16 .| u32 mask in
  _ ← CLS_CMD "hash_mask_clear" key temp_mask size max_size sync 2 8; Ret tt.
Definition cls_hash_mask_clr (key : list Z) (mask : Z) (size : carg) (idx : Z) : prog unit :=
  __cls_hash_mask_clr key mask size size idx ctx_swap.

Definition __cls_hash_mask (key : list Z) (mask : Z) (size max_size : carg) (idx : Z)
    (sync : sync_t) : prog unit :=
  _ ← ctassert_arg size (is_aligned (cval size) 2);
  _ ← ctassert_arg max_size (is_aligned (cval max_size) 2);
  let temp_mask := shl32 idx 16 .| u32 mask in
  _ ← CLS_CMD "hash_mask" key temp_mask size max_size sync 2 8; Ret tt.
Definition cls_hash_mask (key : list Z) (mask : Z) (size : carg) (idx : Z) : prog unit :=
  __cls_hash_mask key mask size size idx ctx_swap.

Definition __cls_clr (data : list Z) (addr : Z) (size max_size : carg) (sync : sync_t) : prog unit :=
  _ ← try_ctassert (is_ct size) (cval size <=? 64);
  _ ← CLS_CMD "clr" data addr size max_size sync 1 8; Ret tt.
Definition cls_clr (data : list Z) (addr : Z) (size : carg) : prog unit :=
  __cls_clr data addr size size ctx_swap.

Definition __cls_set (data : list Z) (addr : Z) (size max_size : carg) (sync : sync_t) : prog unit :=
  _ ← try_ctassert (is_ct size) (cval size <=? 64);
  _ ← CLS_CMD "set" data addr size max_size sync 1 8; Ret tt.
Definition cls_set (data : list Z) (addr : Z) (size : carg) : prog unit :=
  __cls_set data addr size size ctx_swap.

Definition __cls_swap (data : list Z) (addr : Z) (size max_size : carg) (sync : sync_t) : prog (list Z) :=
  _ ← try_ctassert (is_ct size) (cval size <=? 64);
  CLS_CMD "swap" data addr size max_size sync 1 8.
Definition cls_swap (data : list Z) (addr : Z) (size : carg) : prog (list Z) :=
  __cls_swap data addr size size ctx_swap.

Definition __cls_test_clr (data : list Z) (addr : Z) (size max_size : carg) (sync : sync_t) : prog (list Z) :=
  _ ← try_ctassert (is_ct size) (cval size <=? 64);
  CLS_CMD "test_clr" data addr size max_size sync 1 8.
Definition cls_test_clr (data : list Z) (addr : Z) (size : carg) : prog (list Z) :=
  __cls_test_clr data addr size size ctx_swap.

Definition __cls_test_set (data : list Z) (addr : Z) (size max_size : carg) (sync : sync_t) : prog (list Z) :=
  _ ← try_ctassert (is_ct size) (cval size <=? 64);
  CLS_CMD "test_set" data addr size size sync 1 8.
Definition cls_test_set (data : list Z) (addr : Z) (size : carg) : prog (list Z) :=
  __cls_test_set data addr size size ctx_swap.

Definition __cls_test_add (data : list Z) (addr : Z) (size max_size : carg) (sync : sync_t) : prog (list Z) :=
  _ ← try_ctassert (is_ct size) (cval size <=? 64);
  CLS_CMD "test_add" data addr size size sync 1 8.
Definition cls_test_add (data : list Z) (addr : Z) (size : carg) : prog (list Z) :=
  __cls_test_add data addr size size ctx_swap.

Definition __cls_test_sub (data : list Z) (addr : Z) (size max_size : carg) (sync : sync_t) : prog (list Z) :=
  _ ← try_ctassert (is_ct size) (cval size <=? 64);
  CLS_CMD "test_sub" data addr size size sync 1 8.
Definition cls_test_sub (data : list Z) (addr : Z) (size : carg) : prog (list Z) :=
  __cls_test_sub data addr size size ctx_swap.

Definition cls_incr (addr : Z) : prog unit :=
  _ ← issue (cls_cmd "incr" [] addr 0 None None None); Ret tt.

Definition cls_incr64 (addr : Z) : prog unit :=
  _ ← issue (cls_cmd "incr64" [] addr 0 None None None); Ret tt.

Definition cls_decr (addr : Z) : prog unit :=
  _ ← issue (cls_cmd "decr" [] addr 0 None None None); Ret tt.

Definition cls_decr64 (addr : Z) : prog unit :=
  _ ← issue (cls_cmd "decr64" [] addr 0 None None None); Ret tt.

(** NFP_CLS_AUTOPUSH_VF_TRANSLATION and its fields (nfp6000/nfp_cls.h) *)
Definition VF_TRANSLATION : Z := 0x30620.
Definition VF_PROT_VFS : Z := 1 ≪ 1.
Definition VF_ENABLE : Z := 1 ≪ 0.
Definition VF_BASE (x : Z) : Z := (x .& 0x3ff) ≪ 16.
Definition VF_OFFSET_SIZE (x : Z) : Z := (x .& 3) ≪ 10.
Definition VF_OFS (x : Z) : Z := (x .& 3) ≪ 8.
Definition VF_ALERT (x : Z) : Z := (x .& 3) ≪ 6.
Definition VF_ALIGN (x : Z) : Z := (x .& 3) ≪ 4.

Definition vf_translate_word (base_addr cls_bytes page_size alert_trig alignment padding : Z) : Z :=
  let vftcfg_temp := if negb (padding =? 0) then VF_PROT_VFS else 0 in
  vftcfg_temp .| (VF_BASE base_addr .| VF_OFFSET_SIZE cls_bytes .| VF_OFS page_size
                  .| VF_ALERT alert_trig .| VF_ALIGN alignment .| VF_ENABLE).

Definition cls_vf_translate_setup (base_addr cls_bytes page_size alert_trig alignment padding : Z) : prog unit :=
  cls_write [vf_translate_word base_addr cls_bytes page_size alert_trig alignment padding]
            VF_TRANSLATION (ct 4).

Definition cls_vf_translate_disable : prog unit := cls_write [0] VF_TRANSLATION (ct 4).

(** nfp6000/nfp_cls.h: the ring registers *)
Definition RING_BASE (x : Z) : Z := 0x10000 + x * 0x8.
Definition RING_PTRS (x : Z) : Z := 0x10080 + x * 0x8.

(** struct nfp_cls_rings_ring_base: work, report, size and base bit-fields. *)
Definition ring_base_word (work report size base : Z) : Z :=
  (wrap 1 work ≪ 28) .| (wrap 4 report ≪ 24) .| (wrap 3 size ≪ 16) .| wrap 9 base.

(** [cls_ring_setup] and [cls_workq_setup], which differ in the work bit. *)
Definition ring_setup_asserts (ring_num size : carg) : prog unit :=
  _ ← ctassert (is_ct ring_num);
  _ ← ctassert (cval ring_num <? 16);
  _ ← ctassert (is_ct size);
  _ ← ctassert ((128 <=? cval size) && (cval size <=? 4096));
  ctassert ((cval size .& (cval size - 1)) =? 0).

Definition cls_ring_setup (ring_num : carg) (base_addr : Z) (size : carg) : prog unit :=
  _ ← ring_setup_asserts ring_num size;
  let ring_base := ring_base_word 0 0 (Z.log2 (cval size ≫ 7)) (base_addr ≫ 7) in
  _ ← cls_write [ring_base] (RING_BASE (cval ring_num)) (ct 4);
  cls_write [0] (RING_PTRS (cval ring_num)) (ct 4).

Definition cls_workq_setup (ring_num : carg) (base_addr : Z) (size : carg) : prog unit :=
  _ ← ring_setup_asserts ring_num size;
  let ring_base := ring_base_word 1 0 (Z.log2 (cval size ≫ 7)) (base_addr ≫ 7) in
  _ ← cls_write [ring_base] (RING_BASE (cval ring_num)) (ct 4);
  cls_write [0] (RING_PTRS (cval ring_num)) (ct 4).

(** Ring operations address the ring number times four. *)
Definition ring_op_asserts (rnum size : carg) (limit : Z) (sync : sync_t) : prog unit :=
  _ ← ctassert (is_ct rnum);
  _ ← ctassert (is_ct size);
  _ ← ctassert (cval rnum <? 16);
  _ ← ctassert ((4 <=? cval size) && (cval size <=? limit));
  ctassert (bool_decide (sync = sig_done)).

Definition wait_for_all : prog unit := Vis (EArb A_wait) (fun _ => Ret tt).

Definition __cls_ring_put (rnum : carg) (data : list Z) (size : carg) (sync : sync_t) : prog unit :=
  _ ← ring_op_asserts rnum size 32 sync;
  _ ← issue (cls_cmd "ring_put" data 0 (cval rnum ≪ 2) (Some (cval size ≫ 2)) (Some sig_done) None);
  Ret tt.
Definition cls_ring_put (rnum : carg) (data : list Z) (size : carg) : prog unit :=
  _ ← __cls_ring_put rnum data size sig_done; wait_for_all.

Definition __cls_ring_get (rnum size : carg) (sync : sync_t) : prog (list Z) :=
  _ ← ring_op_asserts rnum size 32 sync;
  issue (cls_cmd "ring_get" [] 0 (cval rnum ≪ 2) (Some (cval size ≫ 2)) (Some sig_done) None).
Definition cls_ring_get (rnum size : carg) : prog (list Z) :=
  ws ← __cls_ring_get rnum size sig_done; _ ← wait_for_all; Ret ws.

Definition __cls_ring_get_freely (rnum size : carg) (sync : sync_t) : prog (list Z) :=
  _ ← ring_op_asserts rnum size 32 sync;
  issue (cls_cmd "ring_get_freely" [] 0 (cval rnum ≪ 2) (Some (cval size ≫ 2)) (Some sig_done) None).
Definition cls_ring_get_freely (rnum size : carg) : prog (list Z) :=
  ws ← __cls_ring_get_freely rnum size sig_done; _ ← wait_for_all; Ret ws.

Definition __cls_workq_add_thread (rnum size : carg) (sync : sync_t) : prog (list Z) :=
  _ ← ring_op_asserts rnum size 64 sync;
  let ref_cnt := cval size ≫ 2 in
  let cls := cls_cmd "ring_workq_add_thread" [] 0 (cval rnum ≪ 2) (Some ref_cnt) (Some sig_done) in
  if ref_cnt <=? 8 then issue (cls None)
  else issue (cls (Some (ind_len (sub32 ref_cnt 1)))).
Definition cls_workq_add_thread (rnum size : carg) : prog (list Z) :=
  ws ← __cls_workq_add_thread rnum size sig_done; _ ← wait_for_all; Ret ws.

Definition __cls_workq_add_work (rnum : carg) (data : list Z) (size : carg) (sync : sync_t) : prog unit :=
  _ ← ring_op_asserts rnum size 64 sync;
  let ref_cnt := cval size ≫ 2 in
  let cls := cls_cmd "ring_workq_add_work" data 0 (cval rnum ≪ 2) (Some ref_cnt) (Some sig_done) in
  _ ← (if ref_cnt <=? 8 then issue (cls None)
       else issue (cls (Some (ind_len (sub32 ref_cnt 1)))));
  Ret tt.
Definition cls_workq_add_work (rnum : carg) (data : list Z) (size : carg) : prog unit :=
  _ ← __cls_workq_add_work rnum data size sig_done; wait_for_all.

(** One attempt at the lock queue: the odd signal says the queue was full. *)
Definition queue_lock (addr : Z) : prog bool :=
  r ← trigger (ECmd (cls_cmd "queue_lock" [] addr 0 None (Some sig_done) None));
  _ ← wait_for_all;
  Ret (r_odd r).

Definition cls_lockq_lock (addr : carg) : prog Z :=
  _ ← try_ctassert (is_ct addr) (is_aligned (cval addr) 8);
  odd ← queue_lock (cval addr);
  Ret (if (odd : bool) then -1 else 0).

(** [while (1)]: retry after a sleep until the attempt succeeds. [sig] is the
    number of the alarm's signal. *)
Fixpoint lock_retry_loop (fuel : nat) (addr retry_timeout sig : Z) : prog unit :=
  match fuel with
  | O => Stop Fuel
  | S fuel' =>
      odd ← queue_lock addr;
      if (odd : bool) then
        _ ← MeC.sleep retry_timeout sig;
        lock_retry_loop fuel' addr retry_timeout sig
      else Ret tt
  end.

Definition cls_lockq_lock_retry (fuel : nat) (addr retry_timeout : carg) (sig : Z) : prog unit :=
  _ ← try_ctassert (is_ct addr) (is_aligned (cval addr) 8);
  _ ← ctassert (is_ct retry_timeout);
  _ ← ctassert (cval retry_timeout <? 2 ^ 20);
  lock_retry_loop fuel (cval addr) (cval retry_timeout) sig.

Definition cls_lockq_unlock (addr : carg) : prog unit :=
  _ ← try_ctassert (is_ct addr) (is_aligned (cval addr) 8);
  _ ← issue (cls_cmd "queue_unlock" [] (cval addr) 0 None None None);
  Ret tt.

(** ** Properties *)

Record cls_fn := ClsFn {
  cf_fn : list Z -> Z -> carg -> carg -> sync_t -> prog (list Z); cf_op : string; cf_limit : Z }.

(** The sized operations; a read ignores the data, a write's reply is dropped. *)
Definition cls_ops : list cls_fn :=
  [ ClsFn (fun _ => __cls_read_be) "read_be" 128;
    ClsFn (fun _ => __cls_read_le) "read_le" 128;
    ClsFn __cls_swap "swap" 64;
    ClsFn __cls_test_clr "test_clr" 64;
    ClsFn __cls_test_set "test_set" 64;
    ClsFn __cls_test_add "test_add" 64;
    ClsFn __cls_test_sub "test_sub" 64 ].

Lemma CLS_CMD_issues op data addr size max_size sync cmin :
  is_ct max_size = true -> cval size mod 4 = 0 -> 4 <= cval size <= 128 ->
  exists c, issues_one (CLS_CMD op data addr size max_size sync cmin 8) c (fun ws => ws) /\
    presents c T_cls op data addr (Some (cval size / 4)) (Some sync).
Proof.
  intros Hm H4 Hsz. unfold CLS_CMD, mbind, prog_bind.
  assert (Ec : (cval size ≫ 2) = cval size / 4) by (by rewrite Z.shiftr_div_pow2 by lia).
  assert (Hc : 1 <= cval size / 4 <= 32) by divlia.
  rewrite ctassert_true, Ec by done. unfold cls_cmd.
  destruct (is_ct size).
  - rewrite !ctassert_true by (first [apply negb_true_iff, Z.eqb_neq; lia | by apply Z.eqb_eq]).
    destruct (Z.leb_spec (cval size) (8 * 4)); [|rewrite ctassert_true by (apply Z.leb_le; lia)];
      eexists; (split; [apply issues_one_issue|]); (split; try done; try by apply ind_len_count);
      unfold cmd_addr; simpl; lia.
  - eexists. split; [apply issues_one_issue|]. split; try done; [|by apply ind_len_count].
    unfold cmd_addr; simpl; lia.
Qed.

(** Each sized cluster-local-scratch operation issues one command with its
    operation, data and address for exactly the words asked for. *)
Theorem cls_ops_command f : In f cls_ops ->
  forall data addr size max_size sync,
  cval size mod 4 = 0 -> 4 <= cval size <= cf_limit f -> is_ct max_size = true -> is_ct size = true ->
  exists c, issues_one (cf_fn f data addr size max_size sync) c (fun ws => ws) /\
    presents c T_cls (cf_op f) (if bool_decide (cf_op f ∈ ["read_be"; "read_le"]%string) then [] else data)
             addr (Some (cval size / 4)) (Some sync).
Proof.
  intros Hf data addr size max_size sync H4 Hsz Hm Hc.
  repeat (destruct Hf as [<-|Hf];
    [simpl in *; unfold_issuer; unfold mbind, prog_bind;
     rewrite ?try_ctassert_true by (apply Z.leb_le; lia);
     apply CLS_CMD_issues; done || lia|]).
  destruct Hf.
Qed.

Lemma cls_ops_command_witness :
  exists c, issues_one (__cls_read_be 0x100 (ct 48) (ct 48) sig_done) c (fun ws => ws) /\
    presents c T_cls "read_be" [] 0x100 (Some 12) (Some sig_done).
Proof.
  assert (Hin : exists f, In f cls_ops /\ cf_op f = "read_be"%string /\ 48 <= cf_limit f /\
    forall d a n m s, cf_fn f d a n m s = __cls_read_be a n m s).
  { eexists. split; [left; reflexivity|]. cbn. repeat split; try lia. }
  destruct Hin as (f & Hin & Eo & El & Ef).
  destruct (cls_ops_command f Hin [] 0x100 (ct 48) (ct 48) sig_done) as (c & Hi & Hp);
    [reflexivity|cbn; lia|reflexivity|reflexivity|].
  exists c. rewrite Ef in Hi. split; [exact Hi|]. rewrite Eo in Hp. exact Hp.
Defined.

(** A run-time size reaches [cls_test_clr]; [cls_test_set], [cls_test_add] and
    [cls_test_sub] hand the macro the size instead of the maximum, and do not
    build with one. *)
Theorem cls_test_runtime_size data addr n max_size sync :
  is_ct max_size = true -> n mod 4 = 0 -> 4 <= n <= 64 ->
  (exists c, issues_one (__cls_test_clr data addr (rt n) max_size sync) c (fun ws => ws) /\
     presents c T_cls "test_clr" data addr (Some (n / 4)) (Some sync)) /\
  __cls_test_set data addr (rt n) max_size sync = Stop CtAssert /\
  __cls_test_add data addr (rt n) max_size sync = Stop CtAssert /\
  __cls_test_sub data addr (rt n) max_size sync = Stop CtAssert.
Proof.
  intros Hm H4 Hn. split; [|done].
  unfold __cls_test_clr. cbn [try_ctassert is_ct rt].
  apply (CLS_CMD_issues "test_clr" data addr (rt n)); done || (simpl; lia).
Qed.

(** The register a ring of [32 * 2 ^ k] words is set up with. *)
Lemma ring_base_fields work size base :
  field 28 1 (ring_base_word work 0 size base) = wrap 1 work /\
  field 16 3 (ring_base_word work 0 size base) = wrap 3 size /\
  field 0 9 (ring_base_word work 0 size base) = wrap 9 base /\
  field 24 4 (ring_base_word work 0 size base) = 0.
Proof.
  unfold ring_base_word, field.
  split_ands; bitwise_as i; bits_cases; f_equal; lia.
Qed.

Lemma ring_setup_asserts_ok ring_num k {A} (p : prog A) :
  is_ct ring_num = true -> cval ring_num < 16 -> 0 <= k <= 5 ->
  bind (ring_setup_asserts ring_num (ct (128 * 2 ^ k))) (fun _ => p) = p.
Proof.
  intros Hc Hr Hk. unfold ring_setup_asserts, mbind, prog_bind.
  rewrite Hc. apply Z.ltb_lt in Hr. rewrite Hr.
  assert (Hin : In k (map Z.of_nat (seq 0 6))).
  { apply in_map_iff. exists (Z.to_nat k). split; [lia|]. apply in_seq. lia. }
  cbv in Hin. repeat (destruct Hin as [<-|Hin]; [reflexivity|]). done.
Qed.

(** Setting up a scratch ring or work queue writes the base register, whose
    fields encode the base address in 128-byte units, the size as a power of two
    of 32 words and the work bit, and then clears the pointers. *)
Theorem cls_ring_setup_spec ring_num base_addr k work :
  is_ct ring_num = true -> 0 <= cval ring_num < 16 -> 0 <= k <= 5 ->
  0 <= base_addr < 2 ^ 16 -> base_addr mod 128 = 0 ->
  exists b p w,
    (forall St (h : St -> event -> reply * St) s,
      let o := exec h ((if (work : bool) then cls_workq_setup else cls_ring_setup)
                         ring_num base_addr (ct (128 * 2 ^ k))) s in
      o_trace o = [ECmd b; ECmd p] /\ o_res o = inl tt) /\
    presents b T_cls "write_be" [w] (RING_BASE (cval ring_num)) (Some 1) (Some ctx_swap) /\
    presents p T_cls "write_be" [0] (RING_PTRS (cval ring_num)) (Some 1) (Some ctx_swap) /\
    128 * field 0 9 w = base_addr /\ 32 * 2 ^ field 16 3 w = (128 * 2 ^ k) / 4 /\
    field 28 1 w = (if work then 1 else 0) /\ field 24 4 w = 0.
Proof.
  intros Hc Hr Hk Hb Hal.
  exists (cls_cmd "write_be" [ring_base_word (if work then 1 else 0) 0 (Z.log2 ((128 * 2 ^ k) ≫ 7))
            (base_addr ≫ 7)] (RING_BASE (cval ring_num)) 0 (Some 1) (Some ctx_swap) None).
  exists (cls_cmd "write_be" [0] (RING_PTRS (cval ring_num)) 0 (Some 1) (Some ctx_swap) None).
  eexists. split.
  { intros St h s. destruct work; unfold cls_workq_setup, cls_ring_setup, mbind, prog_bind;
      rewrite ring_setup_asserts_ok by (done || lia); split; reflexivity. }
  assert (El : Z.log2 ((128 * 2 ^ k) ≫ 7) = k).
  { rewrite Z.shiftr_div_pow2, Z.mul_comm, Z.div_mul by lia. apply Z.log2_pow2. lia. }
  rewrite El.
  destruct (ring_base_fields (if work then 1 else 0) k (base_addr ≫ 7)) as (-> & -> & -> & ->).
  split_ands; try (split; try reflexivity; unfold cmd_addr; simpl; lia).
  - rewrite Z.shiftr_div_pow2 by lia. unfold wrap. divlia.
  - rewrite wrap_id by (unfold in_word; simpl; lia).
    replace (128 * 2 ^ k) with (32 * 2 ^ k * 4) by lia. by rewrite Z.div_mul by lia.
  - by destruct work.
Qed.

Lemma cls_ring_setup_spec_witness :
  exists b p w,
    (forall St (h : St -> event -> reply * St) s,
      let o := exec h (cls_workq_setup (ct 3) 0x800 (ct (128 * 2 ^ 2))) s in
      o_trace o = [ECmd b; ECmd p] /\ o_res o = inl tt) /\
    128 * field 0 9 w = 0x800 /\ field 28 1 w = 1.
Proof.
  destruct (cls_ring_setup_spec (ct 3) 0x800 2 true) as (b & p & w & He & _ & _ & Hb & _ & Hw & _);
    [reflexivity|cbn; lia|lia|lia|reflexivity|].
  exists b, p, w. exact (conj He (conj Hb Hw)).
Defined.

(** ** The retried lock *)
Section Retry.
Context {St : Type} (h : St -> event -> reply * St) (addr timeout sig : Z).

(** The attempt made in state [s] and the state it leaves, after its wait. *)
Definition attempt (s : St) : bool * St :=
  let o := exec h (queue_lock addr) s in
  (match o_res o with inl odd => odd | inr _ => true end, o_st o).

(** The hardware grants the lock on the [n]-th retry. *)
Fixpoint granted_after (n : nat) (s : St) : Prop :=
  let '(odd, s') := attempt s in
  match n with
  | O => odd = false
  | S n' => odd = true /\ granted_after n' (o_st (exec h (MeC.sleep timeout sig) s'))
  end.

Definition is_lock_cmd (e : event) : bool :=
  match e with ECmd c => bool_decide (c_op c = "queue_lock"%string) | _ => false end.

Lemma lock_retry_step fuel s :
  let o := exec h (lock_retry_loop (S fuel) addr timeout sig) s in
  let '(odd, s') := attempt s in
  if odd then
    let o' := exec h (lock_retry_loop fuel addr timeout sig) (o_st (exec h (MeC.sleep timeout sig) s')) in
    o_res o = o_res o' /\
    length (List.filter is_lock_cmd (o_trace o)) = S (length (List.filter is_lock_cmd (o_trace o')))
  else o_res o = inl tt /\ length (List.filter is_lock_cmd (o_trace o)) = 1%nat.
Proof.
  unfold attempt. cbn. destruct (r_odd _); split; reflexivity.
Qed.

Lemma lock_retry_loop_terminates n fuel s :
  granted_after n s -> (n < fuel)%nat ->
  let o := exec h (lock_retry_loop fuel addr timeout sig) s in
  o_res o = inl tt /\ length (List.filter is_lock_cmd (o_trace o)) = S n.
Proof.
  revert fuel s. induction n as [|n IH]; intros [|fuel] s Hg Hf; try lia;
    pose proof (lock_retry_step fuel s) as Hs; cbn [granted_after] in Hg;
    destruct (attempt s) as [odd s'] eqn:Ea; cbv zeta in Hs |- *.
  - subst odd. done.
  - destruct Hg as [-> Hg]. destruct Hs as [Hs1 Hs2]. rewrite Hs1, Hs2.
    destruct (IH fuel _ Hg) as [-> ->]; [lia|done].
Qed.
End Retry.

(** If the hardware grants the lock on the n-th retry, the retried lock
    returns after exactly n + 1 lock commands. *)
Theorem lock_retry_terminates {St} (h : St -> event -> reply * St) addr timeout sig n fuel s :
  cval addr mod 8 = 0 -> is_ct timeout = true -> cval timeout < 2 ^ 20 ->
  granted_after h (cval addr) (cval timeout) sig n s -> (n < fuel)%nat ->
  let o := exec h (cls_lockq_lock_retry fuel addr timeout sig) s in
  o_res o = inl tt /\ length (List.filter is_lock_cmd (o_trace o)) = S n.
Proof.
  intros Ha Hc Ht Hg Hf. unfold cls_lockq_lock_retry, mbind, prog_bind.
  rewrite try_ctassert_true, !ctassert_true by (done || by apply Z.eqb_eq || by apply Z.ltb_lt).
  by apply lock_retry_loop_terminates.
Qed.

(** A hardware that grants the lock when its counter is at zero, each attempt
    counting down. *)
Definition countdown (s : nat) (e : event) : reply * nat :=
  if is_lock_cmd e then (Reply [] (negb (s =? 0)%nat), pred s) else (Reply [0] false, s).

Lemma lock_retry_terminates_witness :
  granted_after countdown 16 100 3 2 2%nat /\
  let o := exec countdown (cls_lockq_lock_retry 3 (ct 16) (ct 100) 3) 2%nat in
  o_res o = inl tt /\ length (List.filter is_lock_cmd (o_trace o)) = 3%nat.
Proof.
  assert (Hg : granted_after countdown 16 100 3 2 2%nat) by by vm_compute.
  split; [exact Hg|].
  exact (lock_retry_terminates countdown (ct 16) (ct 100) 3 2 3 2%nat eq_refl eq_refl eq_refl Hg
    ltac:(apply Nat.leb_le; reflexivity)).
Defined.

End Cls.
