(* ===== verification/Xpb.v ===== *)
(** lib/nfp/_c/xpb.c: register access over the cluster target's XPB bus. *)
From Stdlib Require Import ZArith Lia List String.
From stdpp Require Import base list numbers option strings.
From S2P Require Import Prelude Me.
#[local] Open Scope Z_scope.

Module Xpb.

Definition XPB_ADDR_MASK : Z := 0x7FFFFFFC.

(** [(addr & ~XPB_ADDR_MASK) == 0] *)
Definition xpb_addr_ok (addr : Z) : bool := (addr .& not32 XPB_ADDR_MASK) =? 0.

Definition XPB_CMD (cmdname : string) (data : list Z) (addr size max_size : carg)
    (sync : sync_t) : prog (list Z) :=
  let cnt := cval size ≫ 2 in
  let max_cnt := cval max_size ≫ 2 in
  _ ← try_ctassert (is_ct addr) (xpb_addr_ok (cval addr));
  _ ← try_ctassert (is_ct size) (is_aligned (cval size) 4);
  _ ← try_ctassert (is_ct size) ((4 <=? cval size) && (cval size <=? 64));
  _ ← ctassert (is_ct max_size && is_aligned (cval max_size) 4);
  _ ← ctassert ((4 <=? cval max_size) && (cval max_size <=? 64));
  let ct r ind := issue (Cmd T_ct cmdname data (cval addr) false 0 (Some r) (Some sync) ind) in
  if is_ct size then
    if cnt <=? 8 then ct cnt None
    else ct cnt (Some (ind_len (sub32 cnt 1)))
  else ct max_cnt (Some (ind_len (sub32 cnt 1))).

Definition __xpb_read (addr size max_size : carg) (sync : sync_t) : prog (list Z) :=
  XPB_CMD "xpb_read" [] addr size max_size sync.

Definition xpb_read (addr : carg) : prog Z :=
  xfer ← __xpb_read addr (ct 4) (ct 4) ctx_swap;
  Ret (nth 0 xfer 0).

Definition __xpb_write (data : list Z) (addr size max_size : carg) (sync : sync_t) : prog unit :=
  _ ← XPB_CMD "xpb_write" data addr size max_size sync;
  Ret tt.

Definition xpb_write (addr : carg) (val : Z) : prog unit :=
  __xpb_write [val] addr (ct 4) (ct 4) ctx_swap.

(** The address check, bit by bit: bit 31 and the two low bits are clear. *)
Lemma xpb_addr_ok_spec addr : in_word 32 addr ->
  xpb_addr_ok addr = true <-> (addr < 2 ^ 31 /\ addr mod 4 = 0).
Proof.
  unfold xpb_addr_ok, in_word. intros Ha. rewrite Z.eqb_eq.
  change (not32 XPB_ADDR_MASK) with (2 ^ 31 + 3).
  assert (E : addr .& (2 ^ 31 + 3) = (addr ≫ 31) * 2 ^ 31 + addr mod 4).
  { replace (2 ^ 31 + 3) with ((1 ≪ 31) .| Z.ones 2) by done.
    rewrite Z.land_lor_distr_r, Z.land_ones, <- lor_shift_add by (unfold in_word; divlia).
    f_equal. bitwise_as i. destruct (Z.leb_spec 31 i); simpl; [|by rewrite andb_false_r].
    rewrite testbit_shiftr by lia. replace (i - 31 + 31) with i by lia.
    destruct (decide (i = 31)) as [->|]; [by rewrite andb_true_r|].
    rewrite (testbit_high 32 addr i) by (unfold in_word; lia). done. }
  rewrite E, Z.shiftr_div_pow2 by lia. split; intros; divlia.
Qed.

(** A transfer of 1 to 16 registers issues one command at the register address. *)
Lemma XPB_CMD_issues op data addr size max_size sync :
  xpb_addr_ok (cval addr) = true -> 4 <= cval size <= 64 -> cval size mod 4 = 0 ->
  is_ct max_size = true -> 4 <= cval max_size <= 64 -> cval max_size mod 4 = 0 ->
  exists c, issues_one (XPB_CMD op data addr size max_size sync) c (fun ws => ws) /\
    presents c T_ct op data (cval addr) (Some (cval size / 4)) (Some sync).
Proof.
  intros Ha Hs H4 Hm Hms Hm4. unfold XPB_CMD, is_aligned, mbind, prog_bind.
  rewrite Ha, Hm, H4, Hm4, !try_ctassert_true, !ctassert_true
    by (done || (apply andb_true_iff; split; apply Z.leb_le; lia)).
  assert (E : (cval size ≫ 2) = cval size / 4) by (by rewrite Z.shiftr_div_pow2 by lia).
  rewrite E. assert (Hc : 1 <= cval size / 4 <= 32) by divlia.
  destruct (is_ct size); [destruct (_ <=? 8)|]; eexists; (split; [apply issues_one_issue|]);
    (split; try done; first [apply Z.add_0_r | by apply ind_len_count]).
Qed.

Lemma xpb_read_rejects addr St (h : St -> event -> reply * St) s :
  is_ct addr = true -> xpb_addr_ok (cval addr) = false ->
  exec h (xpb_read addr) s = Outcome [] (inr CtAssert) s.
Proof. intros Hc Ho. unfold xpb_read, __xpb_read, XPB_CMD. by rewrite Hc, Ho. Qed.

Lemma xpb_write_issues data addr size max_size sync :
  xpb_addr_ok (cval addr) = true -> 4 <= cval size <= 64 -> cval size mod 4 = 0 ->
  is_ct max_size = true -> 4 <= cval max_size <= 64 -> cval max_size mod 4 = 0 ->
  exists c, issues_one (__xpb_write data addr size max_size sync) c (fun _ => tt) /\
    presents c T_ct "xpb_write" data (cval addr) (Some (cval size / 4)) (Some sync).
Proof.
  intros. destruct (XPB_CMD_issues "xpb_write" data addr size max_size sync) as (c & H' & Hp);
    try done. exists c. split; [|done].
  by apply (issues_one_ret _ _ (fun ws => ws) (fun _ => tt)).
Qed.

(** The XPB reads and writes, sized or of one register, issue one command at
    the register address for exactly the words asked for. *)
Theorem xpb_access addr val data size max_size sync :
  xpb_addr_ok (cval addr) = true -> 4 <= cval size <= 64 -> cval size mod 4 = 0 ->
  is_ct max_size = true -> 4 <= cval max_size <= 64 -> cval max_size mod 4 = 0 ->
  (exists c, issues_one (__xpb_read addr size max_size sync) c (fun ws => ws) /\
    presents c T_ct "xpb_read" [] (cval addr) (Some (cval size / 4)) (Some sync)) /\
  (exists c, issues_one (__xpb_write data addr size max_size sync) c (fun _ => tt) /\
    presents c T_ct "xpb_write" data (cval addr) (Some (cval size / 4)) (Some sync)) /\
  (exists c, issues_one (xpb_read addr) c (fun ws => nth 0 ws 0) /\
    presents c T_ct "xpb_read" [] (cval addr) (Some 1) (Some ctx_swap)) /\
  (exists c, issues_one (xpb_write addr val) c (fun _ => tt) /\
    presents c T_ct "xpb_write" [val] (cval addr) (Some 1) (Some ctx_swap)).
Proof.
  intros Ha Hs H4 Hm Hms Hm4. split_ands.
  - by apply XPB_CMD_issues.
  - by apply xpb_write_issues.
  - destruct (XPB_CMD_issues "xpb_read" [] addr (ct 4) (ct 4) ctx_swap) as (c & H & Hp);
      try done. exists c. split; [|done].
    by apply (issues_one_ret _ _ (fun ws => ws) (fun ws => nth 0 ws 0)).
  - by apply xpb_write_issues.
Qed.

Lemma xpb_access_witness :
  exists c, issues_one (__xpb_read (rt 0x08140004) (ct 64) (ct 64) sig_done) c (fun ws => ws) /\
    presents c T_ct "xpb_read" [] 0x08140004 (Some 16) (Some sig_done).
Proof.
  apply (xpb_access (rt 0x08140004) 0 [] (ct 64) (ct 64) sig_done); try reflexivity; cbn; lia.
Defined.

End Xpb.
