(* ===== verification/MemBus.v ===== *)
(** The interface between the programs that read memory and the memory: a class
    stating what a hardware answers to a 64-bit read command, the law the bulk
    read obeys against any hardware of the class, and a concrete memory. *)
From Stdlib Require Import ZArith Lia List String.
From stdpp Require Import base list numbers option strings.
From S2P Require Import Prelude Me MemBulk.
#[local] Open Scope Z_scope.

(** The [n] bytes at [a] of a byte-addressed memory. *)
Definition mem_bytes (m : Z -> Z) (a : Z) (n : nat) : list Z :=
  map (fun i => m (a + Z.of_nat i)) (seq 0 n).

(** The hardware [h] holds a byte memory: a [read] command of [n] 64-bit
    references returns the [8 * n] bytes at its address as big-endian words, and
    changes no byte. *)
Class MemReads {St : Type} (h : St -> event -> reply * St) (mem : St -> Z -> Z) : Prop := {
  mem_byte : forall s a, in_word 8 (mem s a);
  mem_read : forall s c n, c_tgt c = T_mem -> c_op c = "read"%string -> cmd_count c = Some n ->
    r_words (fst (h s (ECmd c))) = be_words (mem_bytes (mem s) (cmd_addr c) (Z.to_nat (8 * n)));
  mem_read_pure : forall s c a, c_tgt c = T_mem -> c_op c = "read"%string ->
    mem (snd (h s (ECmd c))) a = mem s a }.

Lemma mem_bytes_ext m m' a n : (forall x, m' x = m x) -> mem_bytes m' a n = mem_bytes m a n.
Proof. intros H. unfold mem_bytes. by apply map_ext. Qed.

Lemma mem_bytes_app m a i j :
  mem_bytes m a (i + j) = mem_bytes m a i ++ mem_bytes m (a + Z.of_nat i) j.
Proof.
  unfold mem_bytes. rewrite seq_app, map_app. f_equal. rewrite Nat.add_0_l.
  replace (seq i j) with (map (Nat.add i) (seq 0 j)).
  - rewrite map_map. apply map_ext. intros x. f_equal. lia.
  - clear. revert i. induction j as [|j IH]; intros i; [done|]. cbn [seq map].
    rewrite Nat.add_0_r. f_equal. rewrite <- seq_shift, map_map.
    rewrite <- (IH (S i)). apply map_ext. intros. lia.
Qed.

Lemma length_mem_bytes m a n : length (mem_bytes m a n) = n.
Proof. unfold mem_bytes. by rewrite length_map, length_seq. Qed.

Lemma mem_bytes_take m a i n : (i <= n)%nat -> take i (mem_bytes m a n) = mem_bytes m a i.
Proof.
  intros H. replace n with (i + (n - i))%nat by lia. rewrite mem_bytes_app.
  rewrite take_app_length'; [done|by rewrite length_mem_bytes].
Qed.

Lemma mem_bytes_byte m a n : (forall x, in_word 8 (m x)) -> Forall (in_word 8) (mem_bytes m a n).
Proof. intros H. apply List.Forall_forall. intros x Hx. apply in_map_iff in Hx as (i & <- & _). apply H. Qed.

(** Bytes and words of a length that is a multiple of four. *)
Lemma bytes_of_be_words bs : Forall (in_word 8) bs -> (length bs mod 4 = 0)%nat ->
  bytes_of_words (be_words bs) = bs.
Proof.
  remember (length bs) as n eqn:En. revert bs En.
  induction n as [n IH] using lt_wf_ind. intros bs -> Hb Hm.
  destruct bs as [|b0 [|b1 [|b2 [|b3 bs]]]]; try done.
  rewrite !Forall_cons in Hb. destruct Hb as (H0 & H1 & H2 & H3 & Hb).
  cbn [be_words]. change (bytes_of_words (be_word b0 b1 b2 b3 :: be_words bs))
    with (be_bytes (be_word b0 b1 b2 b3) ++ bytes_of_words (be_words bs)).
  rewrite (IH (length bs) ltac:(cbn; lia) bs eq_refl Hb).
  - unfold be_bytes, be_word, in_word in *. rewrite !field_eq by lia. cbn [app].
    f_equal; [divlia|]. f_equal; [divlia|]. f_equal; [divlia|]. f_equal; divlia.
  - cbn [length] in Hm.
    replace (S (S (S (S (length bs))))) with (length bs + 1 * 4)%nat in Hm by lia.
    by rewrite Nat.Div0.mod_add in Hm.
Qed.

Section Read.
Context {St : Type} (h : St -> event -> reply * St) (mem : St -> Z -> Z) `{!MemReads h mem}.

(** [__mem_read64] against the interface. *)
Lemma mem_read64_wp addr size max_size sync s :
  in_word 40 addr -> 0 < size <= 128 -> size mod 8 = 0 -> is_ct max_size = true ->
  wp h (MemBulk.__mem_read64 addr (rt size) max_size sync)
    (fun ws s' => ws = be_words (mem_bytes (mem s) addr (Z.to_nat size)) /\
                  forall a, mem s' a = mem s a) s.
Proof.
  intros Ha Hs H8 Hm. apply wp_exec.
  destruct (MemBulk.MEM_CMD_issues "read" [] addr (rt size) max_size sync 3) as (c & Hc & Hp);
    [done|lia| |by right|].
  { cbn [cval rt]. rewrite Z.shiftr_div_pow2 by lia. change (2 ^ 3) with 8. divlia. }
  change (MemBulk.__mem_read64 addr (rt size) max_size sync)
    with (MemBulk.MEM_CMD "read" [] addr (rt size) max_size sync 3).
  rewrite Hc. eexists. split; [done|]. cbn [o_st]. destruct Hp as [Ht Ho _ Hadr Hcnt _]. split.
  - rewrite (mem_read _ _ _ Ht Ho Hcnt), Hadr. cbn [cval rt].
    rewrite Z.shiftr_div_pow2 by lia. change (2 ^ 3) with 8.
    replace (8 * (size / 8)) with size by divlia. done.
  - intros a. by apply mem_read_pure.
Qed.
End Read.

(** A memory that answers every [read] from a fixed byte function and nothing to
    the other events. *)
Definition flat_mem (m : Z -> Z) (_ : unit) (e : event) : reply * unit :=
  (match e with
   | ECmd c =>
       match cmd_count c with
       | Some n => Reply (be_words (mem_bytes m (cmd_addr c) (Z.to_nat (8 * n)))) false
       | None => Reply [] false
       end
   | _ => Reply [] false
   end, tt).

#[export] Instance flat_mem_reads m : (forall a, in_word 8 (m a)) ->
  MemReads (flat_mem m) (fun _ => m).
Proof.
  intros Hm. split; [done| |done].
  intros s c n _ _ Hn. unfold flat_mem. by rewrite Hn.
Qed.
