(* ===== verification/Conc.v ===== *)
(** Contexts that run concurrently: pools of programs over one hardware, their
    interleavings event by event, and the invariant rule for them.

    Every command is one step.  A microengine only swaps contexts at an
    arbitration, but contexts of several microengines share the hardware, so any
    interleaving of events is possible. *)
From Stdlib Require Import ZArith Lia List.
From stdpp Require Import base list numbers option relations.
From S2P Require Import Prelude Me.
#[local] Open Scope Z_scope.

Record pool (St : Type) := Pool { p_hw : St; p_threads : list (prog unit) }.
Arguments Pool {St} _ _.
Arguments p_hw {St} _.
Arguments p_threads {St} _.

Section Pool.
Context {St : Type} (h : St -> event -> reply * St).

(** One context issues its next event. *)
Inductive pool_step : pool St -> pool St -> Prop :=
  | pool_event i e k s ts : ts !! i = Some (Vis e k) ->
      pool_step (Pool s ts) (Pool (snd (h s e)) (<[i := k (fst (h s e))]> ts)).

Definition pool_reach : pool St -> pool St -> Prop := rtc pool_step.

(** The step of context [i], when it has one. *)
Definition run1 (p : pool St) (i : nat) : pool St :=
  match p_threads p !! i with
  | Some (Vis e k) => Pool (snd (h (p_hw p) e)) (<[i := k (fst (h (p_hw p) e))]> (p_threads p))
  | _ => p
  end.
Definition run (sched : list nat) (p : pool St) : pool St := fold_left run1 sched p.

Lemma run_reach sched p : pool_reach p (run sched p).
Proof.
  revert p. induction sched as [|i sched IH]; intros p; [by apply rtc_refl|].
  cbn. etrans; [|apply IH]. unfold run1.
  destruct p as [s ts]. cbn. destruct (ts !! i) as [[| |e k]|] eqn:E; try by apply rtc_refl.
  apply rtc_once. by constructor.
Qed.

(** The rule: [R] relates a context to the role it plays, and [I] the hardware to
    the roles; an event of a context changes its role. *)
Lemma pool_invariant {G} (R : G -> prog unit -> Prop) (I : St -> list G -> Prop) :
  (forall s l1 g l2 e k, I s (l1 ++ g :: l2) -> R g (Vis e k) ->
     exists g', R g' (k (fst (h s e))) /\ I (snd (h s e)) (l1 ++ g' :: l2)) ->
  forall p p', pool_reach p p' ->
  (exists gs, I (p_hw p) gs /\ Forall2 R gs (p_threads p)) ->
  exists gs, I (p_hw p') gs /\ Forall2 R gs (p_threads p').
Proof.
  intros Hstep p p' Hr. induction Hr as [|p q r Hs _ IH]; [done|].
  intros (gs & HI & HR). apply IH. clear IH. destruct Hs as [i e k s ts Hi]. cbn in *.
  destruct (Forall2_lookup_r _ _ _ _ _ HR Hi) as (g & Hg & Hgk).
  pose proof (lookup_lt_Some _ _ _ Hg) as Hlt.
  rewrite <- (take_drop_middle gs i g Hg) in HI.
  destruct (Hstep s _ g _ e k HI Hgk) as (g' & Hg' & HI').
  exists (<[i := g']> gs). split; [by rewrite insert_take_drop|]. by apply Forall2_insert.
Qed.
End Pool.
