(* ===== verification/Synch.v ===== *)
(** lib/std/_c/synch.c: counters in memory and credit semaphores in cluster local
    scratch, used by several contexts at once. *)
From Stdlib Require Import ZArith Lia List String.
From stdpp Require Import base list numbers option strings relations sorting.
From S2P Require Import Prelude Me MemAtomic Cls Conc.
#[local] Open Scope Z_scope.

Module Synch.

Definition synch_cnt_dram_reset (s cnt : Z) : prog unit :=
  MemAtomic.mem_write_atomic [cnt] s (ct 4).

Definition synch_cnt_dram_ack (s : Z) : prog unit := MemAtomic.mem_decr32 s.

Definition synch_cnt_dram_poll (s : Z) : prog Z :=
  rdval ← MemAtomic.mem_read_atomic s (ct 4);
  Ret (s32 (nth 0 rdval 0)).

(** [while (synch_cnt_dram_poll(s)) {}] *)
Fixpoint synch_cnt_dram_wait (fuel : nat) (s : Z) : prog unit :=
  match fuel with
  | O => Stop Fuel
  | S fuel' =>
      r ← synch_cnt_dram_poll s;
      if negb (r =? 0) then synch_cnt_dram_wait fuel' s else Ret tt
  end.

(** [my_credit - xrw.last_complete >= max_credits]: the difference of two
    [int32_t], compared as a [uint32_t]. *)
Definition must_wait (my_credit last_complete max_credits : Z) : bool :=
  max_credits <=? u32 (my_credit - last_complete).

(** [for (;;)]; [sig] is the number of the alarm's signal. *)
Fixpoint sem_wait_loop (fuel : nat) (s max_credits poll_interval sig my_credit last_complete : Z)
    : prog unit :=
  if must_wait my_credit last_complete max_credits then
    match fuel with
    | O => Stop Fuel
    | S fuel' =>
        _ ← MeC.sleep poll_interval sig;
        xrw ← Cls.cls_read (s + 4) (ct 4);
        sem_wait_loop fuel' s max_credits poll_interval sig my_credit (s32 (nth 0 xrw 0))
    end
  else Ret tt.

(** struct sem: next_credit, then last_complete. *)
Definition sem_cls_wait (fuel : nat) (s max_credits poll_interval sig : Z) : prog unit :=
  xrw ← Cls.cls_test_add [1; 0] s (ct 8);
  sem_wait_loop fuel s max_credits poll_interval sig (s32 (nth 0 xrw 0)) (s32 (nth 1 xrw 0)).

Definition sem_cls_post (s : Z) : prog unit := Cls.cls_incr (s + 4).

(** ** What the semaphore is used for *)

(** The events by what they do to the semaphore at [s]. *)
Inductive sem_op := Claim | Poll | Post | Quiet | Foreign.

Definition sem_kind (s : Z) (e : event) : sem_op :=
  match e with
  | ECmd c =>
      if negb (bool_decide (c_tgt c = T_cls)) then Quiet
      else if bool_decide (c_op c = "test_add"%string) && (cmd_addr c =? s)
           && bool_decide (c_data c = [1; 0]) then Claim
      else if bool_decide (c_op c = "read_be"%string) && (cmd_addr c =? s + 4)
           && bool_decide (cmd_count c = Some 1) then Poll
      else if bool_decide (c_op c = "incr"%string) && (cmd_addr c =? s + 4) then Post
      else Foreign
  | _ => Quiet
  end.

(** The scratch behind the semaphore: [sem] counts the credits claimed and the
    credits returned, of which its two words hold the low bits. *)
Class SemHw {St : Type} (h : St -> event -> reply * St) (s : Z) (sem : St -> Z * Z) : Prop := {
  sem_claim : forall st e, sem_kind s e = Claim ->
    r_words (fst (h st e)) = [u32 (fst (sem st)); u32 (snd (sem st))] /\
    sem (snd (h st e)) = (fst (sem st) + 1, snd (sem st));
  sem_poll : forall st e, sem_kind s e = Poll ->
    r_words (fst (h st e)) = [u32 (snd (sem st))] /\ sem (snd (h st e)) = sem st;
  sem_post : forall st e, sem_kind s e = Post ->
    sem (snd (h st e)) = (fst (sem st), snd (sem st) + 1);
  sem_quiet : forall st e, sem_kind s e = Quiet -> sem (snd (h st e)) = sem st }.

(** A context takes a credit, runs a section, and gives the credit back. *)
Definition sem_section (fuel : nat) (s max_credits poll_interval sig : Z) (section : prog unit)
    : prog unit :=
  _ ← sem_cls_wait fuel s max_credits poll_interval sig;
  _ ← section;
  sem_cls_post s.

(** Any number of sections one after the other. *)
Fixpoint sem_user (fuel : nat) (s max_credits poll_interval sig : Z) (sections : list (prog unit))
    : prog unit :=
  match sections with
  | [] => Ret tt
  | c :: cs =>
      _ ← sem_section fuel s max_credits poll_interval sig c;
      sem_user fuel s max_credits poll_interval sig cs
  end.

(** The credit a context has claimed and the count it last read. *)
Inductive role := Idle | Claimed (credit last : Z).

Section Semaphore.
Context (s max_credits : Z).

(** The test of the code on the low words of the counts. *)
Definition admitted (g : role) : bool :=
  match g with
  | Idle => false
  | Claimed c l => negb (must_wait (s32 (u32 c)) (s32 (u32 l)) max_credits)
  end.

(** What the semaphore guards. *)
Context (guarded : event -> bool).
Hypothesis guarded_cmd : forall e, guarded e = true -> exists c, e = ECmd c /\ c_tgt c <> T_cls.

(** A context plays its role: it claims when it is idle, posts and issues guarded
    events only when it has been admitted; [Q] is for when it ends. *)
Fixpoint plays {A} (p : prog A) (Q : A -> role -> Prop) (g : role) : Prop :=
  match p with
  | Ret a => Q a g
  | Stop _ => True
  | Vis e k =>
      match sem_kind s e with
      | Claim => g = Idle /\
          forall c l r, r_words r = [u32 c; u32 l] -> plays (k r) Q (Claimed c l)
      | Poll => exists c l, g = Claimed c l /\ admitted g = false /\
          forall l' r, r_words r = [u32 l'] -> plays (k r) Q (Claimed c l')
      | Post => admitted g = true /\ forall r, plays (k r) Q Idle
      | Quiet => (guarded e = true -> admitted g = true) /\ forall r, plays (k r) Q g
      | Foreign => False
      end
  end.

Lemma plays_bind {A B} (p : prog A) (f : A -> prog B) Q Q' g :
  plays p Q g -> (forall a g', Q a g' -> plays (f a) Q' g') -> plays (bind p f) Q' g.
Proof.
  intros Hp Hf. revert g Hp. induction p as [a|x|e k IH]; cbn; intros g; [by apply Hf|done|].
  destruct (sem_kind s e); [| | | |done].
  - intros [-> Hk]. split; [done|]. intros c l r Hr. apply IH. by apply Hk.
  - intros (c & l & -> & Ha & Hk). exists c, l. split_ands; [done..|].
    intros l' r Hr. apply IH. by apply Hk.
  - intros [Ha Hk]. split; [done|]. intros r. apply IH, Hk.
  - intros [Ha Hk]. split; [done|]. intros r. apply IH, Hk.
Qed.

Lemma plays_quiet {A} (p : prog A) g :
  only_events (fun e => sem_kind s e = Quiet /\ (guarded e = true -> admitted g = true)) p ->
  plays p (fun _ g' => g' = g) g.
Proof.
  induction p as [a|x|e k IH]; cbn; [done..|]. intros [[-> Hg] Hk]. split; [done|]. auto.
Qed.

Lemma not_guarded e : (forall c, e <> ECmd c) -> guarded e = true -> False.
Proof. intros He Hg. destruct (guarded_cmd e Hg) as (c & -> & _). by apply (He c). Qed.

Lemma plays_sleep poll sig g : plays (MeC.sleep poll sig) (fun _ g' => g' = g) g.
Proof.
  apply plays_quiet. cbn. repeat split; intros; exfalso; (eapply not_guarded; [|eassumption]); done.
Qed.

Lemma kind_claim r sync : sem_kind s (ECmd (Cls.cls_cmd "test_add" [1; 0] s 0 r sync None)) = Claim.
Proof. unfold sem_kind, cmd_addr. cbn. by rewrite Z.add_0_r, Z.eqb_refl. Qed.

Lemma kind_poll sync :
  sem_kind s (ECmd (Cls.cls_cmd "read_be" [] (s + 4) 0 (Some 1) sync None)) = Poll.
Proof. unfold sem_kind, cmd_addr. cbn. by rewrite Z.add_0_r, Z.eqb_refl. Qed.

Lemma kind_post : sem_kind s (ECmd (Cls.cls_cmd "incr" [] (s + 4) 0 None None None)) = Post.
Proof. unfold sem_kind, cmd_addr. cbn. by rewrite Z.add_0_r, Z.eqb_refl. Qed.

(** The scratch operations of the semaphore, as the event they issue. *)
Lemma plays_claim {A} (f : list Z -> prog A) Q :
  (forall c l, plays (f [u32 c; u32 l]) Q (Claimed c l)) ->
  plays (bind (Cls.cls_test_add [1; 0] s (ct 8)) f) Q Idle.
Proof.
  intros Hf. change (Cls.cls_test_add [1; 0] s (ct 8)) with
    (issue (Cls.cls_cmd "test_add" [1; 0] s 0 (Some 2) (Some ctx_swap) None)).
  cbn -[sem_kind Cls.cls_cmd]. rewrite kind_claim. split; [done|]. intros c l r ->. apply Hf.
Qed.

Lemma plays_poll {A} (f : list Z -> prog A) Q c l : admitted (Claimed c l) = false ->
  (forall l', plays (f [u32 l']) Q (Claimed c l')) ->
  plays (bind (Cls.cls_read (s + 4) (ct 4)) f) Q (Claimed c l).
Proof.
  intros Ha Hf.
  change (Cls.cls_read (s + 4) (ct 4)) with
    (issue (Cls.cls_cmd "read_be" [] (s + 4) 0 (Some 1) (Some ctx_swap) None)).
  cbn -[sem_kind Cls.cls_cmd]. rewrite kind_poll.
  exists c, l. split_ands; [done..|]. intros l' r ->. apply Hf.
Qed.

Lemma plays_loop fuel poll sig c l :
  plays (sem_wait_loop fuel s max_credits poll sig (s32 (u32 c)) (s32 (u32 l)))
    (fun _ g => admitted g = true) (Claimed c l).
Proof.
  revert l. induction fuel as [|fuel IH]; intros l; cbn [sem_wait_loop].
  - destruct (must_wait _ _ _) eqn:E; cbn; [done|by rewrite E].
  - destruct (must_wait _ _ _) eqn:E; [|cbn; by rewrite E].
    apply (plays_bind _ _ (fun _ g => g = Claimed c l)); [apply plays_sleep|].
    intros _ g ->. apply plays_poll; [cbn; by rewrite E|]. intros l'. apply IH.
Qed.

Lemma plays_wait fuel poll sig :
  plays (sem_cls_wait fuel s max_credits poll sig) (fun _ g => admitted g = true) Idle.
Proof.
  apply plays_claim. intros c l. apply plays_loop.
Qed.

Lemma plays_post g : admitted g = true -> plays (sem_cls_post s) (fun _ g' => g' = Idle) g.
Proof.
  intros Ha. cbn -[sem_kind Cls.cls_cmd]. by rewrite kind_post.
Qed.

Definition section_ok (p : prog unit) : Prop := only_events (fun e => sem_kind s e = Quiet) p.

Lemma plays_user fuel poll sig cs : Forall section_ok cs ->
  plays (sem_user fuel s max_credits poll sig cs) (fun _ g => g = Idle) Idle.
Proof.
  induction 1 as [|c cs Hc _ IH]; cbn [sem_user]; [done|].
  apply (plays_bind _ _ (fun _ g => g = Idle)); [|by intros _ g ->].
  apply (plays_bind _ _ (fun _ g => admitted g = true)); [apply plays_wait|].
  intros _ g Ha. apply (plays_bind _ _ (fun _ g' => g' = g)); [|intros _ g' ->; by apply plays_post].
  apply plays_quiet. eapply only_events_mono; [|exact Hc]. intros e He. by split.
Qed.
(** ** The invariant *)

Definition credit (g : role) : list Z := match g with Idle => [] | Claimed c _ => [c] end.
Definition credits (gs : list role) : list Z := concat (map credit gs).
Definition holders (gs : list role) : list Z :=
  concat (map (fun g => if admitted g then credit g else []) gs).

(** [done_] are the credits returned.  No credit is handed out twice, and each of
    those returned was among the [max_credits] oldest outstanding ones when it
    was used; the last clause needs counts that have not wrapped. *)
Record sem_inv (np : Z * Z) (gs : list role) (done_ : list Z) : Prop := SemInv {
  si_nodup : NoDup (done_ ++ credits gs);
  si_claimed : forall c, c ∈ done_ ++ credits gs -> 0 <= c < fst np;
  si_total : Z.of_nat (length (done_ ++ credits gs)) = fst np;
  si_returned : Z.of_nat (length done_) = snd np;
  si_last : forall c l, Claimed c l ∈ gs -> 0 <= l <= snd np;
  si_order : fst np < 2 ^ 31 -> forall c, c ∈ done_ -> c < snd np + max_credits }.

Lemma credits_middle l1 g l2 : credits (l1 ++ g :: l2) = credits l1 ++ credit g ++ credits l2.
Proof. unfold credits. by rewrite map_app, concat_app. Qed.

Lemma s32_u32_small x : 0 <= x < 2 ^ 31 -> s32 (u32 x) = x.
Proof.
  intros Hx. rewrite wrap_id by (unfold in_word; lia). unfold s32.
  destruct (Z.ltb_spec x (2 ^ 31)); lia.
Qed.

Lemma admitted_spec c l : 0 <= max_credits <= 2 ^ 31 -> 0 <= c < 2 ^ 31 -> 0 <= l < 2 ^ 31 ->
  admitted (Claimed c l) = true <-> l <= c < l + max_credits.
Proof.
  intros Hm Hc Hl. unfold admitted, must_wait. rewrite !s32_u32_small by done.
  rewrite negb_true_iff, Z.leb_gt. unfold wrap.
  destruct (Z_le_gt_dec l c).
  - rewrite Z.mod_small by lia. lia.
  - rewrite <- (Z.mod_add _ 1), Z.mod_small by lia. lia.
Qed.

(** Members of a middle change. *)
Lemma claimed_middle c l l1 g g' l2 : Claimed c l ∈ l1 ++ g' :: l2 ->
  Claimed c l ∈ l1 ++ g :: l2 \/ g' = Claimed c l.
Proof. rewrite !elem_of_app, !elem_of_cons. naive_solver. Qed.

Context (max_ok : 0 <= max_credits <= 2 ^ 31).

Lemma inv_claim n p l1 l2 d : sem_inv (n, p) (l1 ++ Idle :: l2) d ->
  sem_inv (n + 1, p) (l1 ++ Claimed n p :: l2) d.
Proof.
  intros [Hnd Hc Ht Hr Hl Ho]. cbn [fst snd] in *. rewrite credits_middle in Hnd, Hc, Ht.
  cbn [credit app] in Hnd, Hc, Ht.
  assert (Hp : d ++ credits l1 ++ [n] ++ credits l2 ≡ₚ n :: d ++ credits l1 ++ credits l2)
    by solve_Permutation.
  split; cbn [fst snd]; try rewrite credits_middle; cbn [credit].
  - rewrite Hp. apply NoDup_cons_2; [|done]. intros Hin. apply Hc in Hin. lia.
  - intros c. rewrite Hp. intros [->|Hin]%elem_of_cons; [|apply Hc in Hin]; lia.
  - rewrite Hp. cbn [length]. lia.
  - done.
  - intros c l [Hin|[= <- <-]]%(claimed_middle _ _ _ Idle); [by apply (Hl c)|lia].
  - intros Hlt. apply Ho. lia.
Qed.

Lemma inv_poll n p l1 c l l2 d : sem_inv (n, p) (l1 ++ Claimed c l :: l2) d ->
  sem_inv (n, p) (l1 ++ Claimed c p :: l2) d.
Proof.
  intros [Hnd Hc Ht Hr Hl Ho]. cbn [fst snd] in *. rewrite credits_middle in Hnd, Hc, Ht.
  split; cbn [fst snd]; try rewrite credits_middle; try done.
  intros c' l' [Hin|[= <- <-]]%(claimed_middle _ _ _ (Claimed c l)); [by apply (Hl c')|lia].
Qed.

Lemma inv_post n p l1 c l l2 d : admitted (Claimed c l) = true ->
  sem_inv (n, p) (l1 ++ Claimed c l :: l2) d ->
  sem_inv (n, p + 1) (l1 ++ Idle :: l2) (c :: d).
Proof.
  intros Ha [Hnd Hc Ht Hr Hl Ho]. cbn [fst snd] in *. rewrite credits_middle in Hnd, Hc, Ht.
  assert (Hp : (c :: d) ++ credits l1 ++ [] ++ credits l2 ≡ₚ d ++ credits l1 ++ [c] ++ credits l2)
    by solve_Permutation.
  assert (Hcl : 0 <= l <= p) by (apply (Hl c); set_solver).
  split; cbn [fst snd]; try rewrite credits_middle.
  - by rewrite Hp.
  - intros c'. rewrite Hp. apply Hc.
  - by rewrite Hp.
  - cbn [length]. lia.
  - intros c' l' [Hin|?]%(claimed_middle _ _ _ (Claimed c l)); [|done].
    apply Hl in Hin. lia.
  - intros Hlt c' [->|Hin]%elem_of_cons; [|apply Ho in Hin; lia].
    assert (Hcn : 0 <= c < n) by (apply Hc; set_solver).
    rewrite length_app in Ht.
    apply admitted_spec in Ha; lia.
Qed.

(** The rule of the pool, for a context that plays a role. *)
Context {St : Type} (h : St -> event -> reply * St) (sem : St -> Z * Z) `{!SemHw h s sem}.

Definition in_role (g : role) (p : prog unit) : Prop := plays p (fun _ g' => g' = Idle) g.

Lemma sem_step st l1 g l2 e k : (exists d, sem_inv (sem st) (l1 ++ g :: l2) d) -> in_role g (Vis e k) ->
  exists g', in_role g' (k (fst (h st e))) /\
    exists d, sem_inv (sem (snd (h st e))) (l1 ++ g' :: l2) d.
Proof.
  intros [d Hi] Hr. unfold in_role in *. cbn [plays] in Hr. destruct (sem st) as [n p] eqn:En.
  destruct (sem_kind s e) eqn:Ek.
  - destruct Hr as [-> Hk]. destruct (sem_claim st e Ek) as [Hw Hs]. rewrite En in Hw, Hs.
    eexists. split; [by apply Hk|]. exists d. rewrite Hs. by apply inv_claim.
  - destruct Hr as (c & l & -> & Ha & Hk). destruct (sem_poll st e Ek) as [Hw Hs].
    rewrite En in Hw, Hs. eexists. split; [by apply (Hk p)|]. exists d. rewrite Hs.
    by apply (inv_poll n p l1 c l).
  - destruct Hr as [Ha Hk]. destruct g as [|c l]; [done|]. eexists. split; [apply Hk|].
    exists (c :: d). rewrite (sem_post st e Ek), En. by apply (inv_post n p l1 c l).
  - destruct Hr as [_ Hk]. eexists. split; [apply Hk|]. exists d. rewrite (sem_quiet st e Ek), En. done.
  - done.
Qed.

(** The context's next event is a guarded one. *)
Definition next_guarded (p : prog unit) : bool :=
  match p with Vis e _ => guarded e | _ => false end.

Lemma guarded_admitted g p : in_role g p -> next_guarded p = true -> admitted g = true.
Proof.
  unfold in_role. destruct p as [a|x|e k]; cbn [plays next_guarded]; [done..|]. intros Hp Hg.
  destruct (guarded_cmd e Hg) as (c & -> & Ht). revert Hp.
  replace (sem_kind s (ECmd c)) with Quiet
    by (unfold sem_kind; by rewrite bool_decide_false by done). tauto.
Qed.

Lemma guarded_holders gs ts : Forall2 in_role gs ts ->
  (length (List.filter next_guarded ts) <= length (holders gs))%nat.
Proof.
  induction 1 as [|g p gs ts Hp _ IH]; [done|]. cbn [List.filter]. unfold holders in *.
  cbn [map concat]. rewrite length_app. destruct (next_guarded p) eqn:Eg; [|lia].
  rewrite (guarded_admitted g p Hp Eg). destruct g; [by apply guarded_admitted in Hp|]. cbn. lia.
Qed.

Lemma holders_sublist gs : holders gs `sublist_of` credits gs.
Proof.
  unfold holders, credits. induction gs as [|g gs IH]; cbn; [done|].
  apply sublist_app; [|done]. destruct (admitted g); [done|]. apply sublist_nil_l.
Qed.

Lemma elem_of_holders gs c : c ∈ holders gs -> exists l, Claimed c l ∈ gs /\ admitted (Claimed c l) = true.
Proof.
  unfold holders. induction gs as [|g gs IH]; cbn; [by intros ?%elem_of_nil|].
  intros [Hc|Hc]%elem_of_app.
  - destruct g as [|c' l]; [by apply elem_of_nil in Hc|].
    destruct (admitted (Claimed c' l)) eqn:Ea; [|by apply elem_of_nil in Hc].
    apply list_elem_of_singleton in Hc as ->. exists l. split; [by left|done].
  - destruct (IH Hc) as (l & ? & ?). exists l. split; [by right|done].
Qed.

(** Returned credits and held ones are distinct numbers below [last_complete +
    max_credits]. *)
Lemma holders_bound np gs d : sem_inv np gs d -> fst np < 2 ^ 31 ->
  Z.of_nat (length (holders gs)) <= max_credits.
Proof.
  intros [Hnd Hc Ht Hr Hl Ho] Hn. rewrite length_app in Ht.
  assert (Hle : Z.of_nat (length (d ++ holders gs)) <= snd np + max_credits);
    [|rewrite length_app in Hle; lia].
  apply NoDup_below_length; [lia| |].
  - eapply sublist_NoDup; [exact Hnd|]. apply sublist_app; [done|apply holders_sublist].
  - intros c [Hin|Hin]%elem_of_app.
    + split; [apply Hc; set_solver|by apply Ho].
    + destruct (elem_of_holders gs c Hin) as (l & Hg & Ha).
      assert (Hcc : c ∈ d ++ credits gs).
      { apply elem_of_app. right. eapply elem_of_sublist; [exact Hin|apply holders_sublist]. }
      apply Hc in Hcc. apply Hl in Hg. apply admitted_spec in Ha; lia.
Qed.

Lemma credits_idle n : credits (replicate n Idle) = [].
Proof. by induction n. Qed.

(** Contexts [users], each with its sections, from an unused semaphore. *)
Definition sem_pool (fuel : nat) (poll sig : Z) (st : St) (users : list (list (prog unit))) : pool St :=
  Pool st (map (sem_user fuel s max_credits poll sig) users).

Lemma sem_pool_inv fuel poll sig st users p : sem st = (0, 0) -> Forall (Forall section_ok) users ->
  pool_reach h (sem_pool fuel poll sig st users) p ->
  exists gs d, sem_inv (sem (p_hw p)) gs d /\ Forall2 in_role gs (p_threads p).
Proof.
  intros Hst Hu Hr.
  destruct (pool_invariant h in_role (fun st gs => exists d, sem_inv (sem st) gs d)
              sem_step _ _ Hr) as (gs & [d Hi] & HR); [|eauto].
  exists (replicate (length users) Idle). cbn. rewrite Hst. split.
  - exists []. pose proof (credits_idle (length users)) as E.
    split; cbn [app fst snd]; rewrite ?E; try done.
    + by apply NoDup_nil.
    + by intros ? ?%elem_of_nil.
    + intros c l [? _]%elem_of_replicate. done.
    + by intros _ ? ?%elem_of_nil.
  - clear Hr. induction Hu as [|u us Hu _ IH]; cbn; constructor; [|done]. by apply plays_user.
Qed.
End Semaphore.

(** C28: From an unused semaphore, however the events of any number of contexts
    that take and give back credits interleave, at most max_credits of them are
    inside their sections at once, as long as fewer than 2^31 credits have been
    claimed. *)
Theorem sem_exclusion {St : Type} (h : St -> event -> reply * St) (sem : St -> Z * Z)
    (s max_credits : Z) `{!SemHw h s sem} (guarded : event -> bool) fuel poll sig st users p :
  0 <= max_credits <= 2 ^ 31 ->
  (forall e, guarded e = true -> exists c, e = ECmd c /\ c_tgt c <> T_cls) ->
  sem st = (0, 0) -> Forall (Forall (section_ok s)) users ->
  pool_reach h (sem_pool s max_credits fuel poll sig st users) p ->
  fst (sem (p_hw p)) < 2 ^ 31 ->
  Z.of_nat (length (List.filter (next_guarded guarded) (p_threads p))) <= max_credits.
Proof.
  intros Hm Hg Hst Hu Hr Hlt.
  destruct (sem_pool_inv s max_credits guarded Hg Hm h sem fuel poll sig st users p Hst Hu Hr)
    as (gs & d & Hi & HR).
  etrans; [|by eapply holders_bound].
  apply inj_le. by eapply guarded_holders.
Qed.

(** ** Overtaking *)

(** Once more credits have been returned than a waiting context's own number, the
    unsigned comparison holds for good. *)
Lemma must_wait_overtaken c l max_credits : 0 <= max_credits <= 2 ^ 31 -> 0 <= c < l -> l < 2 ^ 31 ->
  must_wait (s32 (u32 c)) (s32 (u32 l)) max_credits = true.
Proof.
  intros Hm Hc Hl. unfold must_wait. rewrite !s32_u32_small by lia. apply Z.leb_le.
  unfold wrap. rewrite <- (Z.mod_add _ 1), Z.mod_small by lia. lia.
Qed.

(** A context that still waits when more credits have been returned than its own
    number waits on as long as the counts it polls stay ahead of its own and below
    [2 ^ 31]: the signed difference is negative and compares as a huge unsigned
    number. *)
Theorem sem_overtaken_starves {St : Type} (h : St -> event -> reply * St) s fuel
    max_credits poll sig c l st :
  0 <= max_credits <= 2 ^ 31 -> 0 <= c < l -> l < 2 ^ 31 ->
  (forall st e, sem_kind s e = Poll ->
     exists l', r_words (fst (h st e)) = [u32 l'] /\ c < l' < 2 ^ 31) ->
  o_res (exec h (sem_wait_loop fuel s max_credits poll sig (s32 (u32 c)) (s32 (u32 l))) st) = inr Fuel.
Proof.
  intros Hm Hcl Hl Hp. revert l Hcl Hl st.
  induction fuel as [|fuel IH]; intros l Hcl Hl st; cbn [sem_wait_loop];
    rewrite must_wait_overtaken by done; [done|].
  change (Cls.cls_read (s + 4) (ct 4)) with
    (issue (Cls.cls_cmd "read_be" [] (s + 4) 0 (Some 1) (Some ctx_swap) None)).
  cbn -[Cls.cls_cmd sem_wait_loop].
  edestruct Hp as (l' & -> & Hl'); [apply kind_poll|]. cbn [nth]. apply IH; lia.
Qed.

(** ** A scratch that counts *)

Definition count_hw (s : Z) (np : Z * Z) (e : event) : reply * (Z * Z) :=
  match sem_kind s e with
  | Claim => (Reply [u32 np.1; u32 np.2] false, (np.1 + 1, np.2))
  | Poll => (Reply [u32 np.2] false, np)
  | Post => (Reply [] false, (np.1, np.2 + 1))
  | _ => (Reply [0] false, np)
  end.

#[export] Instance count_hw_sem s : SemHw (count_hw s) s (fun np => np).
Proof. split; intros st e Ek; unfold count_hw; rewrite Ek; repeat split. Qed.

(** A section that increments a word of memory. *)
Definition bump : prog unit := MemAtomic.mem_incr32 0x100.
Definition is_mem (e : event) : bool :=
  match e with ECmd c => bool_decide (c_tgt c = T_mem) | _ => false end.

Definition two_credits (users : nat) : pool (Z * Z) :=
  sem_pool 0x40 2 3 0 5 (0, 0) (replicate users [bump]).

(** Four users of two credits: the fourth is admitted together with the third,
    returns its credit first, and the third then waits while the counts stay ahead of its own. *)
Definition overtaking : list nat :=
  [0; 1; 2; 3]%nat              (* the four claims *)
  ++ [0; 0; 1; 1]%nat           (* the first two run their sections *)
  ++ [3; 3; 3; 3; 3; 3; 3]%nat  (* the fourth polls, runs its section, posts *)
  ++ [2; 2; 2; 2; 2]%nat.       (* the third polls *)

Lemma overtaking_reached fuel :
  let p := run (count_hw 0x40) overtaking (sem_pool 0x40 2 (S (S fuel)) 0 5 (0, 0) (replicate 4 [bump])) in
  p_hw p = (4, 3) /\
  p_threads p !! 2%nat = Some (
    _ ← (_ ← sem_wait_loop (S fuel) 0x40 2 0 5 (s32 (u32 2)) (s32 (u32 3)); _ ← bump; sem_cls_post 0x40);
    Ret tt).
Proof. split; reflexivity. Qed.

(** The scratch of that state, while no one posts. *)
Definition overtaken_hw (_ : unit) (e : event) : reply * unit := (fst (count_hw 0x40 (4, 3) e), tt).

Lemma sem_overtaken_starves_witness :
  o_res (exec overtaken_hw (sem_wait_loop 7 0x40 2 0 5 (s32 (u32 2)) (s32 (u32 3))) tt) = inr Fuel.
Proof.
  apply (sem_overtaken_starves overtaken_hw 0x40 7 2 0 5 2 3 tt); [lia..|].
  intros st e He. exists 3. split; [|lia]. unfold overtaken_hw, count_hw. by rewrite He.
Defined.

Lemma sem_exclusion_witness :
  let p := run (count_hw 0x40) [0; 1; 2; 3]%nat (two_credits 4) in
  length (List.filter (next_guarded is_mem) (p_threads p)) = 2%nat /\
  Z.of_nat (length (List.filter (next_guarded is_mem) (p_threads p))) <= 2.
Proof.
  split; [reflexivity|].
  apply (sem_exclusion (count_hw 0x40) (fun np => np) 0x40 2 is_mem 3 0 5 (0, 0)
           (replicate 4 [bump])).
  - lia.
  - intros e He. destruct e as [c| | | | |]; try discriminate. exists c. split; [done|].
    cbn in He. apply bool_decide_eq_true in He. by rewrite He.
  - done.
  - repeat constructor.
  - apply run_reach.
  - reflexivity.
Defined.

End Synch.
