(* ===== verification/Pkt.v ===== *)
(** lib/pkt/libpkt.c: packet buffers in CTM and MU memory, the scripts and commands
    that send them, and the credits for allocating them.

    Bit-field structures are laid out from their most significant bit, as the pictures
    of pkt.h show; a packet pointer is the 40-bit address it holds. *)
From Stdlib Require Import ZArith Lia List String.
From stdpp Require Import base list numbers option strings relations.
From S2P Require Import Prelude Me MemBulk Cls Conc.
#[local] Open Scope Z_scope.

Module Pkt.

(** ** Addresses *)

(** The address word both pointers share: direct CTM packet addressing. *)
Definition pkt_addr_lo (pnum off : Z) : Z := u32 (0x80000000 .| shl32 pnum 16 .| off).

Definition pkt_ctm_ptr40 (isl pnum off : Z) : Z := ((0x80 .| isl) ≪ 32) .| pkt_addr_lo pnum off.
Definition pkt_ctm_ptr32 (pnum off : Z) : Z := pkt_addr_lo pnum off.

(** [*(unsigned int * )((char * )src_buf + off)] in registers or local memory, whose
    words a misaligned offset does not reach. *)
Definition pkt_csum_read (src_buf : list Z) (off : carg) : prog Z :=
  _ ← ctassert (is_ct off);
  match src_buf !! Z.to_nat (cval off / 4) with
  | Some w => if (cval off mod 4 =? 0) && (0 <=? cval off) then Ret w else Stop Undef
  | None => Stop Undef
  end.

(** The high address word of a CTM buffer on another island. *)
Definition isl_addr_hi (isl : Z) : Z := shl32 (0x80 .| isl) 24.

Definition MAX_PKT_NUM_mask : Z := 0x1ff.
Definition MAX_PKT_NUM_of (x : Z) : Z := x .& MAX_PKT_NUM_mask.

Definition __pkt_status_read (isl : Z) (pnum : carg) (sync : sync_t) : prog Z :=
  _ ← c_assert (is_ct pnum) (cval pnum <=? MAX_PKT_NUM_mask);
  let addr := MAX_PKT_NUM_of (cval pnum) in
  ws ← issue (if isl =? 0
              then Cmd T_mem "packet_read_packet_status" [] addr false 0 (Some 1) (Some sync) None
              else Cmd T_mem "packet_read_packet_status" [] (isl_addr_hi isl) true addr
                     (Some 1) (Some sync) None);
  Ret (nth 0 ws 0).

Definition pkt_status_read (isl : Z) (pnum : carg) : prog Z := __pkt_status_read isl pnum ctx_swap.

(** ** Where the bytes of a packet are *)

Inductive PKT_CTM_SIZE := PKT_CTM_SIZE_256 | PKT_CTM_SIZE_512 | PKT_CTM_SIZE_1024 | PKT_CTM_SIZE_2048.
Definition ctm_size_code (s : PKT_CTM_SIZE) : Z :=
  match s with
  | PKT_CTM_SIZE_256 => 0 | PKT_CTM_SIZE_512 => 1 | PKT_CTM_SIZE_1024 => 2 | PKT_CTM_SIZE_2048 => 3
  end.

(** [tbytes = 256 << ctm_buf_size; tbytes -= pkt_offset] *)
Definition ctm_room (pkt_offset : Z) (ctm_buf_size : PKT_CTM_SIZE) : Z :=
  sub32 (256 ≪ ctm_size_code ctm_buf_size) pkt_offset.

Definition pkt_ctm_data_size (pkt_len pkt_offset : Z) (ctm_buf_size : PKT_CTM_SIZE) : Z :=
  let tbytes := ctm_room pkt_offset ctm_buf_size in
  if tbytes <? pkt_len then tbytes else pkt_len.

Definition pkt_emem_data_size (pkt_len pkt_offset : Z) (ctm_buf_size : PKT_CTM_SIZE) : Z :=
  let tbytes := ctm_room pkt_offset ctm_buf_size in
  if tbytes <? pkt_len then sub32 pkt_len tbytes else 0.

(** ** What precedes the packet *)

Definition MAC_EGR_CMD_L3_CSUM_EN : Z := 1 ≪ 31.
Definition MAC_EGR_CMD_L4_CSUM_EN : Z := 1 ≪ 30.

Definition __pkt_mac_egress_cmd_write (pbuf off l3_csum_ins l4_csum_ins : Z) (sync : sync_t) : prog unit :=
  _ ← rt_assert (20 <=? off);
  let xcmd := (if negb (l3_csum_ins =? 0) then MAC_EGR_CMD_L3_CSUM_EN else 0)
              .| (if negb (l4_csum_ins =? 0) then MAC_EGR_CMD_L4_CSUM_EN else 0) in
  MemBulk.__mem_write32 [xcmd] (pbuf + off - 4) (ct 4) (ct 4) sync.

Definition pkt_mac_egress_cmd_write (pbuf off l3_csum_ins l4_csum_ins : Z) : prog unit :=
  __pkt_mac_egress_cmd_write pbuf off l3_csum_ins l4_csum_ins ctx_swap.

Record pkt_ms_info := MsInfo { off_enc : Z; len_adj : Z }.

Inductive nbi_pkt_ms_instruct :=
  | NBI_PKT_MS_INSTRUCT_DELETE | NBI_PKT_MS_INSTRUCT_INSERT | NBI_PKT_MS_INSTRUCT_REPLACE
  | NBI_PKT_MS_INSTRUCT_INCREMENT | NBI_PKT_MS_INSTRUCT_DECREMENT
  | NBI_PKT_MS_INSTRUCT_MASK_REPLACE | NBI_PKT_MS_INSTRUCT_SHORT_PAD | NBI_PKT_MS_INSTRUCT_NOOP.
Definition instruct_code (i : nbi_pkt_ms_instruct) : Z :=
  match i with
  | NBI_PKT_MS_INSTRUCT_DELETE => 0 | NBI_PKT_MS_INSTRUCT_INSERT => 1
  | NBI_PKT_MS_INSTRUCT_REPLACE => 2 | NBI_PKT_MS_INSTRUCT_INCREMENT => 3
  | NBI_PKT_MS_INSTRUCT_DECREMENT => 4 | NBI_PKT_MS_INSTRUCT_MASK_REPLACE => 5
  | NBI_PKT_MS_INSTRUCT_SHORT_PAD => 6 | NBI_PKT_MS_INSTRUCT_NOOP => 7
  end.

Definition NBI_PM_TYPE_DIRECT : Z := 1.
Definition NBI_PM_TYPE (x : Z) : Z := shl32 x 31.
Definition NBI_PM_OPCODE (instruct : nbi_pkt_ms_instruct) (bytes rd_loc : Z) : Z :=
  shl32 (if 0 <? bytes
         then ((instruct_code instruct .& 0x7) ≪ 5) .| (((bytes - 1) .& 0xf) ≪ 1) .| (rd_loc .& 1)
         else ((instruct_code instruct .& 0x7) ≪ 5) .| (rd_loc .& 1)) 16.

Section Revision.
(** [__REVISION_MIN] is not below B0. *)
Context (b0 : bool).
Definition MS_MAX_OFF : Z := if b0 then 128 else 64.

Definition ms_off_ok (off : Z) : bool := (16 <=? off) && (off <=? MS_MAX_OFF + 16).
Definition noop_script (off : Z) : bool := (off <=? MS_MAX_OFF) && (off .& 7 =? 0).
(** The [unsigned char ms_off] of a deleting script. *)
Definition ms_off (off : Z) : Z :=
  if off <? MS_MAX_OFF then u8 (Z.ldiff off 7 - 8) else MS_MAX_OFF - 8.

Definition pkt_gen_msi_info (off : carg) : prog pkt_ms_info :=
  _ ← ctassert (is_ct off);
  _ ← rt_assert (ms_off_ok (cval off));
  let off := cval off in
  Ret (MsInfo (u16 (if noop_script off then (off ≫ 3) - 2 else (ms_off off ≫ 3) - 1)) off).

Definition __pkt_msd_write (pbuf off : Z) (size : carg) (sync : sync_t) : prog pkt_ms_info :=
  _ ← rt_assert (ms_off_ok off);
  if noop_script off then
    let xms := [NBI_PM_TYPE NBI_PM_TYPE_DIRECT .| NBI_PM_OPCODE NBI_PKT_MS_INSTRUCT_NOOP 0 0; 0] in
    _ ← MemBulk.__mem_write64 xms (pbuf + off - 8) size size sync;
    Ret (MsInfo (u16 ((off ≫ 3) - 2)) off)
  else
    let xms := [NBI_PM_TYPE NBI_PM_TYPE_DIRECT
                .| NBI_PM_OPCODE NBI_PKT_MS_INSTRUCT_DELETE (off - ms_off off - 8) 0; 0] in
    _ ← MemBulk.__mem_write64 xms (pbuf + ms_off off) size size sync;
    Ret (MsInfo (u16 ((ms_off off ≫ 3) - 1)) off).

Definition pkt_msd_write (pbuf off : Z) : prog pkt_ms_info := __pkt_msd_write pbuf off (ct 8) ctx_swap.
End Revision.

(** ** Receiving *)

Definition __pkt_nbi_recv_with_hdrs (msize : carg) (off : Z) (sync : sync_t) : prog (list Z) :=
  let addr := off ≫ 2 in
  let count := cval msize ≫ 2 in
  _ ← ctassert (is_ct msize);
  _ ← ctassert (off mod 4 =? 0);
  _ ← ctassert (cval msize mod 4 =? 0);
  _ ← ctassert (24 <=? cval msize);
  _ ← ctassert (cval msize <=? 128);
  let mem ind := issue (Cmd T_mem "packet_add_thread" [] addr false 0 (Some count) (Some sync) ind) in
  if cval msize <=? 64 then mem None else mem (Some (ind_len (count - 1))).

Definition pkt_nbi_recv_with_hdrs (msize : carg) (off : Z) : prog (list Z) :=
  __pkt_nbi_recv_with_hdrs msize off ctx_swap.
Definition __pkt_nbi_recv (msize : carg) (sync : sync_t) : prog (list Z) :=
  __pkt_nbi_recv_with_hdrs msize 0 sync.
Definition pkt_nbi_recv (msize : carg) : prog (list Z) := pkt_nbi_recv_with_hdrs msize 0.

(** ** Sending and dropping *)

Definition PKT_READY_ADDR_LO_FIELDS (pnum len : Z) : Z := u32 (shl32 pnum 16 .| len).
Definition PKT_READY_ADDR_HI_FIELDS (nbi iid meid : Z) : Z :=
  u32 (shl32 nbi 30 .| shl32 iid 24 .| shl32 ((meid .& 1) .| 2) 20).

(** struct pkt_iref_csr0: [seq] has 14 bits, [seqr] the low 8. *)
Definition csr0_word (seqr seq : Z) : Z := (wrap 14 seq ≪ 16) .| wrap 8 seqr.

(** struct pkt_iref_palu over [PKT_IREF_PALU_MAGIC] *)
Definition PKT_IREF_PALU_MAGIC : Z := 0xcb.
Definition palu_word (nbi txq off_enc : Z) : Z :=
  (wrap 2 nbi ≪ 28) .| (wrap 10 txq ≪ 16) .| (wrap 5 off_enc ≪ 8) .| PKT_IREF_PALU_MAGIC.

Definition packet_ready (op : string) (isl pnum : Z) (msi : pkt_ms_info) (len nbi txq csr0 : Z)
    (ctm_buf_size : PKT_CTM_SIZE) : prog unit :=
  me ← MeC.__ME;
  let addr_hi := PKT_READY_ADDR_HI_FIELDS nbi isl me in
  let addr_lo := PKT_READY_ADDR_LO_FIELDS pnum (add32 len (len_adj msi)) in
  _ ← local_csr_write local_csr_cmd_indirect_ref_0 csr0;
  let palu := palu_word (ctm_size_code ctm_buf_size) txq (off_enc msi) in
  _ ← issue (Cmd T_nbi op [] addr_hi true addr_lo None None (Some palu));
  Ret tt.

Definition pkt_nbi_send (isl pnum : Z) (msi : pkt_ms_info) (len nbi txq seqr seq : Z)
    (ctm_buf_size : PKT_CTM_SIZE) : prog unit :=
  packet_ready "packet_ready_unicast" isl pnum msi len nbi txq (csr0_word seqr seq) ctm_buf_size.

Definition pkt_nbi_send_dont_free (isl pnum : Z) (msi : pkt_ms_info) (len nbi txq seqr seq : Z)
    (ctm_buf_size : PKT_CTM_SIZE) : prog unit :=
  packet_ready "packet_ready_multicast_dont_free" isl pnum msi len nbi txq (csr0_word seqr seq) ctm_buf_size.

(** [csr0.__raw = seqr; csr0.seq = seq]: the sequencer is not cut to its field. *)
Definition csr0_word_raw (seqr seq : Z) : Z := (wrap 14 seq ≪ 16) .| Z.ldiff (u32 seqr) (Z.ones 14 ≪ 16).

Definition pkt_nbi_drop_seq (isl pnum : Z) (msi : pkt_ms_info) (len nbi txq seqr seq : Z)
    (ctm_buf_size : PKT_CTM_SIZE) : prog unit :=
  packet_ready "packet_ready_drop" isl pnum msi len nbi txq (csr0_word_raw seqr seq) ctm_buf_size.

(** ** Allocating and freeing *)

Definition pkt_ctm_free (isl pnum : Z) : prog unit :=
  let addr_hi := if negb (isl =? 0) then isl_addr_hi isl else 0 in
  _ ← issue (Cmd T_mem "packet_free" [] addr_hi true pnum None None None);
  Ret tt.

(** struct ctm_pkt_credits at [credits] in scratch: the packets, then the buffers. *)
Definition credits_cmd (op : string) (pkts bufs credits : Z) : cmd :=
  Cls.cls_cmd op [pkts; bufs] credits 0 (Some 2) (Some ctx_swap) None.

Definition pkt_ctm_init_credits (credits pkt_credits buf_credits : Z) : prog unit :=
  _ ← Cls.cls_write [pkt_credits] credits (ct 4);
  Cls.cls_write [buf_credits] (credits + 4) (ct 4).

(** The credits the packet engine gives back are added to the pool. *)
Definition add_returned (credits pkt_credit buf_credit : Z) : prog unit :=
  if (0 <? pkt_credit) || (0 <? buf_credit)
  then _ ← issue (credits_cmd "add" pkt_credit buf_credit credits); Ret tt
  else Ret tt.

(** struct pe_pkt_alloc_res and struct pe_credit_get_res *)
Definition res_pnum (raw : Z) : Z := field 20 10 raw.
Definition res_pkt_credit (raw : Z) : Z := field 9 11 raw.
Definition res_buf_credit (raw : Z) : Z := field 0 9 raw.

Definition credit_get_cmd : cmd := Cmd T_mem "packet_credit_get" [] 0 true 0 (Some 1) (Some ctx_swap) None.

Definition pkt_ctm_poll_pe_credit (credits : Z) : prog unit :=
  pe_res ← issue credit_get_cmd;
  let raw := u32 (nth 0 pe_res 0) in
  add_returned credits (res_pkt_credit raw) (res_buf_credit raw).

Definition PKT_CTM_CRED_ALLOC_FAIL_SLEEP : Z := 1000.

(** [credits_update] holds what the pool had before the subtraction. *)
Fixpoint get_credits_loop (fuel : nat) (credits pkt_credits buf_credits : Z) (replenish_credits : bool)
    (sig : Z) (credits_update : list Z) : prog unit :=
  let pkts := nth 0 credits_update 0 in
  let bufs := nth 1 credits_update 0 in
  if (pkts <? pkt_credits) || (bufs <? buf_credits) then
    match fuel with
    | O => Stop Fuel
    | S fuel' =>
        _ ← MeC.sleep PKT_CTM_CRED_ALLOC_FAIL_SLEEP sig;
        let back_pkts := if pkt_credits <=? pkts then pkt_credits else pkts in
        let back_bufs := if buf_credits <=? bufs then buf_credits else bufs in
        _ ← issue (credits_cmd "add" back_pkts back_bufs credits);
        _ ← (if replenish_credits then pkt_ctm_poll_pe_credit credits else Ret tt);
        credits_update ← issue (credits_cmd "test_subsat" pkt_credits buf_credits credits);
        get_credits_loop fuel' credits pkt_credits buf_credits replenish_credits sig credits_update
    end
  else Ret tt.

Definition pkt_ctm_get_credits (fuel : nat) (credits pkt_credits buf_credits : Z)
    (replenish_credits : bool) (sig : Z) : prog unit :=
  credits_update ← issue (credits_cmd "test_subsat" pkt_credits buf_credits credits);
  get_credits_loop fuel credits pkt_credits buf_credits replenish_credits sig credits_update.

(** [ind = size << 8 | 1 << 7] *)
Definition alloc_cmd (addr_hi : Z) (size : PKT_CTM_SIZE) : cmd :=
  Cmd T_mem "packet_alloc_poll" [] addr_hi true 0 (Some 1) (Some ctx_swap)
    (Some ((ctm_size_code size ≪ 8) .| (1 ≪ 7))).

Definition pkt_ctm_alloc (fuel : nat) (credits isl : Z) (size : PKT_CTM_SIZE)
    (alloc_internal replenish_credits : bool) (sig : Z) : prog Z :=
  _ ← (if alloc_internal then pkt_ctm_get_credits fuel credits 1 1 replenish_credits sig else Ret tt);
  let addr_hi := if negb (isl =? 0) then isl_addr_hi isl else 0 in
  pe_res ← issue (alloc_cmd addr_hi size);
  let raw := u32 (nth 0 pe_res 0) in
  if raw =? 0xffffffff then Ret 0xffffffff
  else
    _ ← add_returned credits (res_pkt_credit raw) (res_buf_credit raw);
    Ret (res_pnum raw).

(** ** Modification scripts *)

(** What the packet modifier reads in the first word of a direct script: the
    instruction, and the bytes it deletes behind the script. *)
Definition script_instr (w : Z) : Z := field 21 3 w.
Definition script_deleted (w : Z) : Z :=
  if script_instr w =? instruct_code NBI_PKT_MS_INSTRUCT_DELETE then field 17 4 w + 1 else 0.

(** The script of an offset: where it is and its first word. *)
Definition script_at (b0 : bool) (off : Z) : Z := if noop_script b0 off then off - 8 else ms_off b0 off.
Definition script_word (b0 : bool) (off : Z) : Z :=
  NBI_PM_TYPE NBI_PM_TYPE_DIRECT
  .| (if noop_script b0 off then NBI_PM_OPCODE NBI_PKT_MS_INSTRUCT_NOOP 0 0
      else NBI_PM_OPCODE NBI_PKT_MS_INSTRUCT_DELETE (off - ms_off b0 off - 8) 0).
Definition script_info (b0 : bool) (off : Z) : pkt_ms_info := MsInfo (script_at b0 off / 8 - 1) off.

(** The first word of a direct script that deletes [d] bytes: bit 31 says direct; the
    instruction is 7 (no operation) or 0 (delete), and a deletion holds [d - 1]. *)
Definition direct_script (d : Z) : Z := 2 ^ 31 + (if d =? 0 then 7 * 2 ^ 21 else (d - 1) * 2 ^ 17).

(** A script in the 8-aligned words before the packet, whose deletion reaches it. *)
Definition script_ok (b0 : bool) (off : Z) : bool :=
  let sat := script_at b0 off in
  let w := script_word b0 off in
  (sat mod 8 =? 0) && (8 <=? sat) && (sat + 8 <=? off)
  && (sat + 8 + script_deleted w =? off) && (sat / 8 - 1 <? 32)
  && (w =? direct_script (off - sat - 8))
  && (u16 (if noop_script b0 off then (off ≫ 3) - 2 else (ms_off b0 off ≫ 3) - 1) =? sat / 8 - 1).

Lemma script_ok_all b0 off : 16 <= off <= MS_MAX_OFF b0 + 16 -> script_ok b0 off = true.
Proof.
  intros Ho.
  assert (H : List.forallb (script_ok b0) (seqZ 16 (MS_MAX_OFF b0 + 1)) = true)
    by (destruct b0; vm_compute; reflexivity).
  rewrite List.forallb_forall in H. apply H, list_elem_of_In, elem_of_seqZ. lia.
Qed.

Lemma ms_off_ok_range b0 off : 16 <= off <= MS_MAX_OFF b0 + 16 -> ms_off_ok b0 off = true.
Proof. intros. unfold ms_off_ok. apply andb_true_iff. split; apply Z.leb_le; lia. Qed.

Lemma msd_write_is b0 pbuf off : 16 <= off <= MS_MAX_OFF b0 + 16 ->
  pkt_msd_write b0 pbuf off =
  (_ ← MemBulk.__mem_write64 [script_word b0 off; 0] (pbuf + script_at b0 off) (ct 8) (ct 8) ctx_swap;
   Ret (script_info b0 off)) /\
  pkt_gen_msi_info b0 (ct off) = Ret (script_info b0 off).
Proof.
  intros Ho. pose proof (script_ok_all b0 off Ho) as Hs. unfold script_ok in Hs.
  apply andb_true_iff in Hs as [_ Hinfo%Z.eqb_eq].
  unfold pkt_msd_write, __pkt_msd_write, pkt_gen_msi_info, script_info.
  rewrite <- Hinfo. unfold script_word, script_at.
  cbn [ctassert is_ct ct mbind prog_bind bind cval].
  rewrite (ms_off_ok_range b0 off Ho). cbn [rt_assert bind].
  destruct (noop_script b0 off); split; try reflexivity.
  by replace (pbuf + (off - 8)) with (pbuf + off - 8) by lia.
Qed.

(** C31: For every packet offset a script can serve, pkt_msd_write issues one
    8-byte write of a direct script into the 8-aligned slot before the packet: the
    word is exactly the direct no-operation, or the direct deletion of the bytes
    between the script and the packet; the script and the bytes it deletes end
    where the packet starts, the encoded offset fits its field and names that
    slot, and pkt_gen_msi_info computes the same. *)
Theorem msd_write_script b0 pbuf off : 0 <= pbuf -> pbuf + off <= 2 ^ 40 ->
  16 <= off <= MS_MAX_OFF b0 + 16 ->
  exists c w sat info,
    issues_one (pkt_msd_write b0 pbuf off) c (fun _ => info) /\
    presents c T_mem "write" [w; 0] (pbuf + sat) (Some 1) (Some ctx_swap) /\
    w = direct_script (off - sat - 8) /\
    sat mod 8 = 0 /\ 8 <= sat /\ sat + 8 + script_deleted w = off /\ sat + 8 <= off /\
    off_enc info = sat / 8 - 1 /\ off_enc info < 32 /\ len_adj info = off /\
    pkt_gen_msi_info b0 (ct off) = Ret info.
Proof.
  intros Hp Hpo Ho. destruct (msd_write_is b0 pbuf off Ho) as [Hw Hg].
  pose proof (script_ok_all b0 off Ho) as Hs. unfold script_ok in Hs.
  rewrite !andb_true_iff, !Z.eqb_eq, !Z.leb_le, Z.ltb_lt in Hs.
  destruct Hs as ((((((H8 & Hge) & Hle) & Hdel) & H32) & Hword) & _).
  destruct (MemBulk.MEM_CMD_write "write" [script_word b0 off; 0] (pbuf + script_at b0 off)
              (ct 8) (ct 8) ctx_swap 3) as (c & Hc & Hpr); [unfold in_word; lia|done|by cbn|by left|].
  exists c, (script_word b0 off), (script_at b0 off), (script_info b0 off).
  split; [|by repeat (split; [done|])].
  rewrite Hw. by apply (issues_one_ret _ _ (fun _ => tt) (fun _ => script_info b0 off)).
Qed.

Lemma msd_write_script_witness :
  exists c w sat info,
    issues_one (pkt_msd_write true 0x123400 142) c (fun _ => info) /\
    presents c T_mem "write" [w; 0] (0x123400 + sat) (Some 1) (Some ctx_swap) /\
    w = direct_script (142 - sat - 8) /\
    sat mod 8 = 0 /\ 8 <= sat /\ sat + 8 + script_deleted w = 142 /\ sat + 8 <= 142 /\
    off_enc info = sat / 8 - 1 /\ off_enc info < 32 /\ len_adj info = 142 /\
    pkt_gen_msi_info true (ct 142) = Ret info.
Proof. apply (msd_write_script true 0x123400 142); cbn; lia. Defined.

(** An offset a script cannot reach stops the microengine before any command. *)
Lemma msd_write_halts b0 pbuf off : ~ 16 <= off <= MS_MAX_OFF b0 + 16 ->
  pkt_msd_write b0 pbuf off = Stop Halted.
Proof.
  intros Ho. unfold pkt_msd_write, __pkt_msd_write, ms_off_ok.
  destruct (Z.leb_spec 16 off), (Z.leb_spec off (MS_MAX_OFF b0 + 16)); try done. lia.
Qed.

(** ** Where the bytes are *)

Lemma ctm_bytes size : 256 ≪ ctm_size_code size = 256 * 2 ^ ctm_size_code size /\
  0 <= 256 * 2 ^ ctm_size_code size <= 2048.
Proof. by destruct size. Qed.

Lemma ctm_room_eq pkt_offset size : 0 <= pkt_offset <= 256 * 2 ^ ctm_size_code size ->
  ctm_room pkt_offset size = 256 * 2 ^ ctm_size_code size - pkt_offset.
Proof.
  intros Ho. destruct (ctm_bytes size) as [Hsz Hmax]. unfold ctm_room, sub32. rewrite Hsz.
  apply wrap_id. unfold in_word. lia.
Qed.

(** C38: For an offset inside the CTM buffer, the bytes of a packet split exactly
    into those in CTM and those in external memory: CTM holds no more than the
    room behind the offset, and memory holds bytes only when CTM is full. *)
Theorem data_split pkt_len pkt_offset size : in_word 32 pkt_len ->
  0 <= pkt_offset <= 256 * 2 ^ ctm_size_code size ->
  let room := 256 * 2 ^ ctm_size_code size - pkt_offset in
  let c := pkt_ctm_data_size pkt_len pkt_offset size in
  let m := pkt_emem_data_size pkt_len pkt_offset size in
  c + m = pkt_len /\ 0 <= c <= room /\ 0 <= m /\ (0 < m <-> room < pkt_len) /\ (0 < m -> c = room).
Proof.
  intros Hl Ho room c m. subst c m. unfold pkt_ctm_data_size, pkt_emem_data_size.
  rewrite (ctm_room_eq pkt_offset size Ho). fold room. unfold in_word in Hl.
  destruct (Z.ltb_spec room pkt_len); [|lia].
  unfold sub32. rewrite wrap_id by (unfold in_word; subst room; lia). lia.
Qed.

Lemma data_split_witness :
  let c := pkt_ctm_data_size 1500 88 PKT_CTM_SIZE_1024 in
  let m := pkt_emem_data_size 1500 88 PKT_CTM_SIZE_1024 in
  c + m = 1500 /\ 0 <= c <= 936 /\ 0 <= m /\ (0 < m <-> 936 < 1500) /\ (0 < m -> c = 936).
Proof. apply (data_split 1500 88 PKT_CTM_SIZE_1024); by vm_compute. Defined.

(** An offset beyond the buffer leaves a huge room: everything counts as fitting. *)
Lemma data_split_beyond pkt_len pkt_offset size : 0 <= pkt_len < 2 ^ 31 ->
  256 * 2 ^ ctm_size_code size < pkt_offset < 2 ^ 31 ->
  pkt_ctm_data_size pkt_len pkt_offset size = pkt_len /\ pkt_emem_data_size pkt_len pkt_offset size = 0.
Proof.
  intros Hl Ho. unfold pkt_ctm_data_size, pkt_emem_data_size, ctm_room.
  destruct (ctm_bytes size) as [Hsz Hmax]. rewrite Hsz. unfold sub32, wrap.
  rewrite <- (Z.mod_add _ 1), (Z.mod_small (_ - _ + _)) by lia.
  destruct (Z.ltb_spec (256 * 2 ^ ctm_size_code size - pkt_offset + 1 * 2 ^ 32) pkt_len); [lia|done].
Qed.

(** ** The words of a send *)

Lemma palu_fields nbi txq off_enc :
  let w := palu_word nbi txq off_enc in
  field 28 2 w = wrap 2 nbi /\ field 16 10 w = wrap 10 txq /\ field 8 5 w = wrap 5 off_enc /\
  field 0 8 w = PKT_IREF_PALU_MAGIC.
Proof.
  cbn zeta. unfold palu_word, field. change PKT_IREF_PALU_MAGIC with (wrap 8 0xcb).
  repeat split; bitwise_as i; bits_cases; f_equal; lia.
Qed.

Lemma csr0_fields seqr seq :
  field 16 14 (csr0_word seqr seq) = wrap 14 seq /\ field 0 8 (csr0_word seqr seq) = wrap 8 seqr.
Proof. unfold csr0_word, field. split; bitwise_as i; bits_cases; f_equal; lia. Qed.

(** A sequencer of 8 bits is dropped with the same word it is sent with; a wider
    one reaches other fields of the word. *)
Lemma csr0_raw_eq seqr seq : in_word 8 seqr -> csr0_word_raw seqr seq = csr0_word seqr seq.
Proof.
  intros Hs. unfold csr0_word_raw, csr0_word. f_equal. rewrite (wrap_id 8) by done.
  bitwise_as i. rewrite Z.ldiff_spec, testbit_wrap by lia.
  destruct (Z.ltb_spec i 8).
  - rewrite (proj2 (Z.ltb_lt i 32)) by lia. bits_cases.
  - rewrite (testbit_high 8 seqr i) by (done || lia). bits_cases.
Qed.

Lemma csr0_raw_wide : csr0_word_raw 0x100 3 <> csr0_word 0x100 3.
Proof. by vm_compute. Qed.

(** ** Packet addresses *)

(** The fields of the direct packet address: the packet number in bits 16 up and
    the offset below. *)
Lemma pkt_addr_fields pnum off : in_word 9 pnum -> in_word 14 off ->
  let a := pkt_addr_lo pnum off in
  field 0 14 a = off /\ field 16 9 a = pnum /\ field 31 1 a = 1 /\ in_word 32 a.
Proof.
  intros Hp Ho a. assert (Ha : a = 0x80000000 + pnum * 2 ^ 16 + off).
  { subst a. unfold pkt_addr_lo, shl32.
    rewrite (wrap_id 32 (pnum ≪ 16)) by (rewrite Z.shiftl_mul_pow2 by lia; unfold in_word in *; lia).
    replace (0x80000000 .| (pnum ≪ 16)) with (((1 ≪ 15) .| pnum) ≪ 16) by apply Z.shiftl_lor.
    rewrite (lor_shift_add 1 pnum 15) by (lia || (apply (in_word_mono 9); [lia|done])).
    rewrite lor_shift_add by (lia || (apply (in_word_mono 14); [lia|done])).
    unfold in_word in *. rewrite wrap_id; [|unfold in_word]; lia. }
  rewrite Ha. rewrite !field_eq by lia. unfold in_word in *. repeat split; divlia.
Qed.
End Pkt.
