(* ===== verification/PktCredits.v ===== *)
(** The credits of lib/pkt/libpkt.c under interleaving: the pool in cluster scratch,
    the packet engine, and what each context owns. *)
From Stdlib Require Import ZArith Lia List String.
From stdpp Require Import base list numbers option strings relations.
From S2P Require Import Prelude Me Cls Conc Pkt.
Import Pkt.
#[local] Open Scope Z_scope.

Module PktCredits.

(** ** The credits of an island *)

(** Packet credits and buffer credits. *)
Definition credits2 : Type := Z * Z.
Definition add2 (x y : credits2) : credits2 := (x.1 + y.1, x.2 + y.2).
Definition sub2 (x y : credits2) : credits2 := (x.1 - y.1, x.2 - y.2).
Definition min2 (x y : credits2) : credits2 := (Z.min x.1 y.1, Z.min x.2 y.2).
Definition le2 (x y : credits2) : Prop := x.1 <= y.1 /\ x.2 <= y.2.
Definition sum2 : list credits2 -> credits2 := foldr add2 (0, 0).

(** Componentwise arithmetic. *)
Ltac lia2 := unfold le2, add2, sub2, min2 in *; cbn [fst snd] in *; lia.

Inductive credit_op :=
  | Take (want : credits2) | Give (back : credits2) | PeGet | PeAlloc | CQuiet | CForeign.

(** The events by what they do to the credits at [s]. *)
Definition credit_kind (s : Z) (e : event) : credit_op :=
  match e with
  | ECmd c =>
      match c_tgt c with
      | T_cls =>
          if (cmd_addr c =? s) && bool_decide (cmd_count c = Some 2) then
            match c_data c with
            | [a; b] => if bool_decide (c_op c = "test_subsat"%string) then Take (a, b)
                        else if bool_decide (c_op c = "add"%string) then Give (a, b) else CForeign
            | _ => CForeign
            end
          else CForeign
      | T_mem =>
          if bool_decide (c_op c = "packet_credit_get"%string) then PeGet
          else if bool_decide (c_op c = "packet_alloc_poll"%string) then PeAlloc else CQuiet
      | _ => CQuiet
      end
  | _ => CQuiet
  end.

Definition res_credits (raw : Z) : credits2 := (res_pkt_credit raw, res_buf_credit raw).
Definition alloc_failed (raw : Z) : bool := raw =? 0xffffffff.

(** The scratch and the packet engine behind the credits.  [pool] is the structure
    in scratch.  [pe] is what the engine accounts for: the packets in use and the
    credits it has not returned yet.  [allocs] counts the allocations it granted.
    An allocation that is granted spends one credit of each kind, of which the reply
    may return some at once; one that fails spends none. *)
Class CreditHw {St : Type} (h : St -> event -> reply * St) (s : Z) (pool pe : St -> credits2)
    (allocs : St -> Z) : Prop := {
  hw_take : forall st e want, credit_kind s e = Take want ->
    r_words (fst (h st e)) = [(pool st).1; (pool st).2] /\
    pool (snd (h st e)) = sub2 (pool st) (min2 (pool st) want) /\ pe (snd (h st e)) = pe st /\
    allocs (snd (h st e)) = allocs st;
  hw_give : forall st e back, credit_kind s e = Give back ->
    pool (snd (h st e)) = (u32 ((pool st).1 + back.1), u32 ((pool st).2 + back.2)) /\
    pe (snd (h st e)) = pe st /\ allocs (snd (h st e)) = allocs st;
  hw_get : forall st e, credit_kind s e = PeGet -> le2 (0, 0) (pe st) ->
    exists raw, r_words (fst (h st e)) = [raw] /\ in_word 32 raw /\
      pool (snd (h st e)) = pool st /\ le2 (res_credits raw) (pe st) /\
      pe (snd (h st e)) = sub2 (pe st) (res_credits raw) /\ allocs (snd (h st e)) = allocs st;
  hw_alloc : forall st e, credit_kind s e = PeAlloc -> le2 (0, 0) (pe st) ->
    exists raw, r_words (fst (h st e)) = [raw] /\ in_word 32 raw /\
      pool (snd (h st e)) = pool st /\
      (if alloc_failed raw then pe (snd (h st e)) = pe st /\ allocs (snd (h st e)) = allocs st
       else le2 (res_credits raw) (add2 (pe st) (1, 1)) /\
            pe (snd (h st e)) = sub2 (add2 (pe st) (1, 1)) (res_credits raw) /\
            allocs (snd (h st e)) = allocs st + 1);
  hw_cquiet : forall st e, credit_kind s e = CQuiet ->
    pool (snd (h st e)) = pool st /\ pe (snd (h st e)) = pe st /\
    allocs (snd (h st e)) = allocs st }.

Lemma res_credits_nonneg raw : le2 (0, 0) (res_credits raw).
Proof.
  split; cbn [fst snd res_credits]; [apply (field_range 9 11 raw)|apply (field_range 0 9 raw)]; lia.
Qed.

(** ** A context and the credits it owns *)

Section Credits.
Context (s : Z).

(** [own] is what the context has taken from the pool or the engine and neither
    returned nor spent, [n] the allocations it was granted; it gives and spends only
    what it owns. *)
Fixpoint owns {A} (p : prog A) (Q : A -> credits2 -> Z -> Prop) (own : credits2) (n : Z) : Prop :=
  match p with
  | Ret a => Q a own n
  | Stop _ => True
  | Vis e k =>
      match credit_kind s e with
      | Take want => le2 (0, 0) want /\
          forall had r, le2 (0, 0) had -> r_words r = [had.1; had.2] -> owns (k r) Q (add2 own (min2 had want)) n
      | Give back => le2 (0, 0) back /\ le2 back own /\ forall r, owns (k r) Q (sub2 own back) n
      | PeGet => forall raw r, r_words r = [raw] -> in_word 32 raw ->
          owns (k r) Q (add2 own (res_credits raw)) n
      | PeAlloc => le2 (1, 1) own /\ forall raw r, r_words r = [raw] -> in_word 32 raw ->
          if alloc_failed raw then owns (k r) Q own n
          else owns (k r) Q (add2 (sub2 own (1, 1)) (res_credits raw)) (n + 1)
      | CQuiet => forall r, owns (k r) Q own n
      | CForeign => False
      end
  end.

Lemma owns_bind {A B} (p : prog A) (f : A -> prog B) Q Q' own n :
  owns p Q own n -> (forall a own' n', Q a own' n' -> owns (f a) Q' own' n') -> owns (bind p f) Q' own n.
Proof.
  intros Hp Hf. revert own n Hp. induction p as [a|x|e k IH]; cbn; intros own n; [by apply Hf|done|].
  destruct (credit_kind s e); try solve [intuition eauto].
  intros [H1 H2]. split; [done|]. intros raw r Hr Hw. specialize (H2 raw r Hr Hw).
  destruct (alloc_failed raw); auto.
Qed.

Lemma owns_quiet {A} (p : prog A) own n :
  only_events (fun e => credit_kind s e = CQuiet) p -> owns p (fun _ own' n' => own' = own /\ n' = n) own n.
Proof. induction p as [a|x|e k IH]; cbn; [done..|]. intros [-> Hk]. auto. Qed.

Lemma kind_take a b : credit_kind s (ECmd (credits_cmd "test_subsat" a b s)) = Take (a, b).
Proof. unfold credit_kind, credits_cmd, cmd_addr. cbn. by rewrite Z.add_0_r, Z.eqb_refl. Qed.

Lemma kind_give a b : credit_kind s (ECmd (credits_cmd "add" a b s)) = Give (a, b).
Proof. unfold credit_kind, credits_cmd, cmd_addr. cbn. by rewrite Z.add_0_r, Z.eqb_refl. Qed.

Lemma owns_take {A} (f : list Z -> prog A) Q a b own n : 0 <= a -> 0 <= b ->
  (forall p b', 0 <= p -> 0 <= b' -> owns (f [p; b']) Q (add2 own (min2 (p, b') (a, b))) n) ->
  owns (bind (issue (credits_cmd "test_subsat" a b s)) f) Q own n.
Proof.
  intros Ha Hb Hf. cbn -[credits_cmd credit_kind]. rewrite kind_take.
  split; [lia2|]. intros [p b'] r Hr ->. apply Hf; lia2.
Qed.

Lemma owns_give {A} (f : list Z -> prog A) Q a b own n : 0 <= a <= own.1 -> 0 <= b <= own.2 ->
  (forall ws, owns (f ws) Q (sub2 own (a, b)) n) ->
  owns (bind (issue (credits_cmd "add" a b s)) f) Q own n.
Proof.
  intros Ha Hb Hf. cbn -[credits_cmd credit_kind]. rewrite kind_give.
  split_ands; [lia2|lia2|]. intros r. apply Hf.
Qed.

Lemma add2_0_r x : add2 x (0, 0) = x.
Proof. destruct x. unfold add2. cbn. by rewrite !Z.add_0_r. Qed.
Lemma sub2_add2 x y : sub2 (add2 x y) y = x.
Proof. destruct x, y. unfold add2, sub2. cbn. f_equal; lia. Qed.

(** What the engine returned goes back to the pool. *)
Lemma owns_add_returned own n c : le2 (0, 0) own -> le2 (0, 0) c ->
  owns (add_returned s c.1 c.2) (fun _ own' n' => own' = own /\ n' = n) (add2 own c) n.
Proof.
  intros Ho Hc. unfold add_returned. destruct ((0 <? c.1) || (0 <? c.2)) eqn:E.
  - apply owns_give; [lia2..|]. intros _. cbn. destruct c. split; [apply sub2_add2|done].
  - apply orb_false_iff in E as [E1%Z.ltb_ge E2%Z.ltb_ge]. destruct own, c. unfold add2. cbn in *.
    split; [f_equal; lia2|done].
Qed.

Lemma owns_poll own n : le2 (0, 0) own ->
  owns (pkt_ctm_poll_pe_credit s) (fun _ own' n' => own' = own /\ n' = n) own n.
Proof.
  intros Ho. unfold pkt_ctm_poll_pe_credit. cbn -[credits_cmd add_returned wrap].
  intros raw r -> Hraw. cbn [nth]. rewrite wrap_id by done.
  apply (owns_add_returned own n (res_credits raw)); [done|]. apply res_credits_nonneg.
Qed.

Lemma owns_get_loop fuel a b repl sig own n p b' :
  0 <= a -> 0 <= b -> le2 (0, 0) own -> 0 <= p -> 0 <= b' ->
  owns (get_credits_loop fuel s a b repl sig [p; b']) (fun _ own' n' => own' = add2 own (a, b) /\ n' = n)
    (add2 own (min2 (p, b') (a, b))) n.
Proof.
  intros Ha Hb Ho. revert p b'.
  induction fuel as [|fuel IH]; intros p b' Hp Hb'; cbn [get_credits_loop nth];
    (destruct ((p <? a) || (b' <? b)) eqn:E; [|apply orb_false_iff in E as [E1%Z.ltb_ge E2%Z.ltb_ge];
       cbn; split; [destruct own; unfold min2, add2; cbn; f_equal; lia|done]]); [done|].
    apply (owns_bind _ _ (fun _ own' n' => own' = add2 own (min2 (p, b') (a, b)) /\ n' = n)).
    { apply owns_quiet. repeat split. }
    intros _ own' n' [-> ->]. apply owns_give; [destruct (Z.leb_spec a p); lia2|destruct (Z.leb_spec b b'); lia2|].
    intros _.
    replace (sub2 _ _) with own by
      (destruct own; unfold sub2, add2, min2; cbn;
       destruct (Z.leb_spec a p), (Z.leb_spec b b'); f_equal; lia).
    apply (owns_bind _ _ (fun _ own' n' => own' = own /\ n' = n)).
    { destruct repl; [by apply owns_poll|done]. }
    intros _ own' n' [-> ->]. apply owns_take; [done..|]. auto.
Qed.

Lemma owns_get fuel a b repl sig own n : 0 <= a -> 0 <= b -> le2 (0, 0) own ->
  owns (pkt_ctm_get_credits fuel s a b repl sig) (fun _ own' n' => own' = add2 own (a, b) /\ n' = n) own n.
Proof. intros Ha Hb Ho. apply owns_take; [done..|]. intros p b' Hp Hb'. by apply owns_get_loop. Qed.

(** What an allocation leaves its caller: the credits are spent when it succeeds,
    and kept when it fails. *)
Lemma owns_alloc fuel isl size internal repl sig own n : le2 (0, 0) own ->
  (internal = false -> le2 (1, 1) own) ->
  let start := if internal then add2 own (1, 1) else own in
  owns (pkt_ctm_alloc fuel s isl size internal repl sig)
    (fun pnum own' n' => if alloc_failed pnum then own' = start /\ n' = n
                         else own' = sub2 start (1, 1) /\ n' = n + 1) own n.
Proof.
  intros Ho Hi start. unfold pkt_ctm_alloc.
  apply (owns_bind _ _ (fun _ own' n' => own' = start /\ n' = n)).
  { subst start. destruct internal; [by apply owns_get|done]. }
  intros _ own' n' [-> ->]. cbn -[add_returned wrap credit_kind].
  unfold credit_kind at 1. cbn -[add_returned wrap].
  assert (Hs : le2 (1, 1) start) by (subst start; destruct internal; [lia2|auto]).
  split; [done|]. intros raw r -> Hraw. cbn [nth]. rewrite wrap_id by done.
  unfold alloc_failed. destruct (raw =? 0xffffffff) eqn:E; [done|].
  apply (owns_bind _ _ (fun _ own' n' => own' = sub2 start (1, 1) /\ n' = n + 1)).
  - apply (owns_add_returned _ _ (res_credits raw)); [lia2|]. apply res_credits_nonneg.
  - intros _ own' n' [-> ->]. cbn. pose proof (field_range 20 10 raw). unfold res_pnum.
    destruct (Z.eqb_spec (field 20 10 raw) 0xffffffff); [|done]. unfold in_word in *. lia.
Qed.

(** What a context does with credits. *)
Inductive credit_use :=
  | UReserve (pkts bufs : Z) (replenish : bool)
  | UReplenish
  | UAlloc (isl : Z) (size : PKT_CTM_SIZE) (internal replenish : bool)
  | UFree (isl pnum : Z).

Definition use_prog (fuel : nat) (sig : Z) (u : credit_use) : prog unit :=
  match u with
  | UReserve a b replenish => pkt_ctm_get_credits fuel s a b replenish sig
  | UReplenish => pkt_ctm_poll_pe_credit s
  | UAlloc isl size internal replenish =>
      _ ← pkt_ctm_alloc fuel s isl size internal replenish sig; Ret tt
  | UFree isl pnum => pkt_ctm_free isl pnum
  end.

Fixpoint credit_user (fuel : nat) (sig : Z) (us : list credit_use) : prog unit :=
  match us with
  | [] => Ret tt
  | u :: us => _ ← use_prog fuel sig u; credit_user fuel sig us
  end.

(** The credits a use takes from the pool for good, and those the engine is given
    when its allocation succeeds. *)
Definition use_reserved (u : credit_use) : credits2 :=
  match u with UReserve a b _ => (a, b) | UAlloc _ _ true _ => (1, 1) | _ => (0, 0) end.
Definition use_spends (u : credit_use) : credits2 :=
  match u with UAlloc _ _ _ _ => (1, 1) | _ => (0, 0) end.
Definition reserved (us : list credit_use) : credits2 := sum2 (map use_reserved us).
Definition spends (us : list credit_use) : credits2 := sum2 (map use_spends us).

(** The uses are as the interface asks: one credit of each kind is reserved for
    every allocation that does not reserve its own; [own] is owned before. *)
Fixpoint uses_ok (own : credits2) (us : list credit_use) : bool :=
  match us with
  | [] => true
  | u :: us =>
      match u with
      | UReserve a b _ => (0 <=? a) && (0 <=? b)
      | UAlloc _ _ false _ => (1 <=? own.1) && (1 <=? own.2)
      | _ => true
      end && uses_ok (sub2 (add2 own (use_reserved u)) (use_spends u)) us
  end.

(** From [start] a context has come to [own]: it owns what it reserved, less a credit
    of each kind for every allocation it was granted meanwhile. *)
Definition settled (start : credits2 * Z) (us : list credit_use) (own : credits2 * Z) : Prop :=
  let d := own.2 - start.2 in
  own.1 = sub2 (add2 start.1 (reserved us)) (d, d) /\ 0 <= d /\ le2 (d, d) (spends us).

Lemma owns_mono {A} (p : prog A) (Q Q' : A -> credits2 -> Z -> Prop) own n :
  owns p Q own n -> (forall a own' n', Q a own' n' -> Q' a own' n') -> owns p Q' own n.
Proof.
  intros Hp HQ. revert own n Hp. induction p as [a|x|e k IH]; cbn; intros own n; [by apply HQ|done|].
  destruct (credit_kind s e); try solve [intuition eauto].
  intros [H1 H2]. split; [done|]. intros raw r Hr Hw. specialize (H2 raw r Hr Hw).
  destruct (alloc_failed raw); auto.
Qed.

(** Equations between pairs of credits. *)
Ltac eq2 := unfold settled, reserved, spends, le2, add2, sub2, min2 in *; cbn in *;
  repeat match goal with x : credits2 |- _ => destruct x end; cbn in *; split_ands; try f_equal; lia.

Lemma reserved_app us us' : reserved (us ++ us') = add2 (reserved us) (reserved us').
Proof.
  unfold reserved. rewrite map_app. induction us as [|u us IH]; cbn; [by destruct (sum2 _)|].
  fold sum2. rewrite IH. destruct (use_reserved u), (sum2 _), (sum2 _). unfold add2. cbn. f_equal; lia.
Qed.

Lemma spends_app us us' : spends (us ++ us') = add2 (spends us) (spends us').
Proof.
  unfold spends. rewrite map_app. induction us as [|u us IH]; cbn; [by destruct (sum2 _)|].
  fold sum2. rewrite IH. destruct (use_spends u), (sum2 _), (sum2 _). unfold add2. cbn. f_equal; lia.
Qed.

(** The account adds up over the uses. *)
Lemma settled_app x y z us us' : settled x us y -> settled y us' z -> settled x (us ++ us') z.
Proof.
  unfold settled. rewrite reserved_app, spends_app.
  destruct x as [x n1], y as [y n2], z as [z n3]. cbn [fst snd].
  intros (-> & ? & ?) (-> & ? & ?). generalize dependent (reserved us).
  generalize dependent (reserved us'). intros. split; [|lia2].
  unfold add2, sub2. cbn. f_equal; lia.
Qed.

(** One use, from what is owned at least. *)
Lemma owns_use fuel sig u us lo own n : le2 (0, 0) lo -> le2 lo own -> uses_ok lo (u :: us) = true ->
  owns (use_prog fuel sig u) (fun _ own' n' => settled (own, n) [u] (own', n')) own n /\
  le2 (0, 0) (sub2 (add2 lo (use_reserved u)) (use_spends u)).
Proof.
  intros Hlo Ho Hu. assert (Ho0 : le2 (0, 0) own) by lia2.
  apply andb_true_iff in Hu as [Hu _].
  destruct u as [a b r| |isl size [] r|isl pnum]; cbn [use_prog use_reserved use_spends].
  - apply andb_true_iff in Hu as [Ha%Z.leb_le Hb%Z.leb_le]. split; [|lia2].
    eapply owns_mono; [by apply owns_get|]. intros _ own' n' [-> ->]. eq2.
  - split; [|lia2]. eapply owns_mono; [by apply owns_poll|]. intros _ own' n' [-> ->]. eq2.
  - split; [|lia2]. eapply owns_bind; [by apply owns_alloc|]. intros pnum own' n'. cbn beta iota.
    destruct (alloc_failed pnum); intros [-> ->]; eq2.
  - apply andb_true_iff in Hu as [Ha%Z.leb_le Hb%Z.leb_le]. split; [|lia2].
    eapply owns_bind; [apply owns_alloc; [done|]; intros _; lia2|]. intros pnum own' n'. cbn beta iota.
    destruct (alloc_failed pnum); intros [-> ->]; eq2.
  - split; [|lia2]. eapply owns_mono; [apply owns_quiet; by repeat split|].
    intros _ own' n' [-> ->]. eq2.
Qed.

Lemma owns_user fuel sig us lo own n : le2 (0, 0) lo -> le2 lo own -> uses_ok lo us = true ->
  owns (credit_user fuel sig us) (fun _ own' n' => settled (own, n) us (own', n')) own n.
Proof.
  revert lo own n. induction us as [|u us IH]; intros lo own n Hlo Ho Hu; cbn [credit_user]; [cbn; eq2|].
  destruct (owns_use fuel sig u us lo own n Hlo Ho Hu) as [Hp Hlo'].
  apply (owns_bind _ _ _ _ _ _ Hp). intros _ own' n' Hs.
  apply andb_true_iff in Hu as [_ Hu].
  eapply owns_mono; [apply (IH _ own' n' Hlo'); [|done]|].
  - unfold settled, spends, reserved in *. cbn in *. destruct Hs as (-> & ? & ?). lia2.
  - intros a own'' n'' Ht. by apply (settled_app _ (own', n') _ [u]).
Qed.

(** ** The ledger *)

Context {St : Type} (h : St -> event -> reply * St) (pool pe : St -> credits2) (allocs : St -> Z).
Context `{!CreditHw h s pool pe allocs} (total : credits2) (granted : Z).
Context (total_word : total.1 < 2 ^ 32 /\ total.2 < 2 ^ 32).

(** A context's uses, the credits it owns and the allocations it was granted;
    [granted] allocations were granted before. *)
Record account := Account { a_uses : list credit_use; a_own : credits2; a_n : Z }.

Definition sumz : list Z -> Z := foldr Z.add 0.

Definition ledger (us : list (list credit_use)) (st : St) (gs : list account) : Prop :=
  map a_uses gs = us /\ Forall (fun g => le2 (0, 0) (a_own g)) gs /\
  le2 (0, 0) (pool st) /\ le2 (0, 0) (pe st) /\
  add2 (add2 (pool st) (pe st)) (sum2 (map a_own gs)) = total /\
  allocs st = granted + sumz (map a_n gs).

Definition in_credit (g : account) (p : prog unit) : Prop :=
  owns p (fun _ own' n' => settled ((0, 0), 0) (a_uses g) (own', n')) (a_own g) (a_n g).

Lemma sum2_middle l1 x l2 : sum2 (l1 ++ x :: l2) = add2 x (sum2 (l1 ++ l2)).
Proof.
  induction l1 as [|y l1 IH]; cbn; [done|]. fold (sum2 (l1 ++ x :: l2)) (sum2 (l1 ++ l2)).
  rewrite IH. destruct x, y, (sum2 (l1 ++ l2)). unfold add2. cbn. f_equal; lia.
Qed.

Lemma sumz_middle l1 x l2 : sumz (l1 ++ x :: l2) = x + sumz (l1 ++ l2).
Proof. induction l1 as [|y l1 IH]; cbn; [done|]. fold (sumz (l1 ++ x :: l2)) (sumz (l1 ++ l2)). lia. Qed.

(** One entry of the ledger changes together with the pool and the engine. *)
Lemma ledger_change us st st' l1 us1 own n l2 own' n' :
  ledger us st (l1 ++ Account us1 own n :: l2) ->
  le2 (0, 0) own' -> le2 (0, 0) (pool st') -> le2 (0, 0) (pe st') ->
  add2 (add2 (pool st') (pe st')) own' = add2 (add2 (pool st) (pe st)) own ->
  allocs st' - n' = allocs st - n ->
  ledger us st' (l1 ++ Account us1 own' n' :: l2).
Proof.
  intros (Hf & Hg & _ & _ & Ht & Hn) Ho Hp He Heq Hn'. refine (conj _ (conj _ (conj Hp (conj He (conj _ _))))).
  - rewrite <- Hf, !map_app. done.
  - apply Forall_app in Hg as [Hg1 [_ Hg2]%Forall_cons]. apply Forall_app. split; [done|]. by constructor.
  - rewrite <- Ht. rewrite !map_app. cbn [map a_own]. rewrite !sum2_middle.
    destruct (sum2 _), (pool st), (pe st), (pool st'), (pe st'), own, own'.
    unfold add2 in *. cbn in *. injection Heq as ? ?. f_equal; lia.
  - rewrite map_app in *. cbn [map a_n] in *. rewrite sumz_middle in *. lia.
Qed.

(** No entry exceeds the total. *)
Lemma sum2_nonneg gs : Forall (fun g => le2 (0, 0) (a_own g)) gs -> le2 (0, 0) (sum2 (map a_own gs)).
Proof. induction 1; cbn in *; [lia2|]. fold sum2 in *. lia2. Qed.

Lemma ledger_bound us st l1 us1 own n l2 : ledger us st (l1 ++ Account us1 own n :: l2) ->
  le2 (add2 (pool st) own) total.
Proof.
  intros (_ & Hg & Hp & He & Ht & _). rewrite <- Ht, map_app. cbn [map a_own]. rewrite sum2_middle, <- map_app.
  apply Forall_app in Hg as [Hg1 [_ Hg2]%Forall_cons].
  pose proof (sum2_nonneg (l1 ++ l2) ltac:(by apply Forall_app)). lia2.
Qed.

(** The entry that changes keeps the sum of the pool, the engine and itself. *)
Ltac ledger_entry := eapply ledger_change; [done|..];
  repeat match goal with H : pool _ = _ |- _ => rewrite H; clear H end;
  repeat match goal with H : pe _ = _ |- _ => rewrite H; clear H end;
  [lia2|lia2|lia2|unfold add2, sub2, min2; cbn; f_equal; lia|lia].

Lemma credit_step us st l1 g l2 e k : ledger us st (l1 ++ g :: l2) -> in_credit g (Vis e k) ->
  exists g', in_credit g' (k (fst (h st e))) /\ ledger us (snd (h st e)) (l1 ++ g' :: l2).
Proof.
  intros Hl Hr. destruct g as [us1 own n]. unfold in_credit in *. cbn [owns a_uses a_own a_n] in *.
  pose proof Hl as (_ & Hg & Hp & He & _). pose proof (ledger_bound _ _ _ _ _ _ _ Hl) as Hb.
  apply Forall_app in Hg as [_ [Hown _]%Forall_cons]. cbn [a_own] in Hown.
  destruct (credit_kind s e) as [want|back| | | |] eqn:Ek.
  - destruct Hr as [Hw Hk]. destruct (hw_take st e want Ek) as (Hws & Hpo & Hpe & Ha).
    eexists (Account us1 _ _). split; [by apply (Hk (pool st))|]. ledger_entry.
  - destruct Hr as (Hb0 & Hbo & Hk). destruct (hw_give st e back Ek) as (Hpo & Hpe & Ha).
    assert (Hu : pool (snd (h st e)) = add2 (pool st) back).
    { rewrite Hpo. unfold add2. f_equal; apply wrap_id; unfold in_word; lia2. }
    clear Hpo. eexists (Account us1 _ _). split; [by apply Hk|]. ledger_entry.
  - destruct (hw_get st e Ek He) as (raw & Hws & Hraw & Hpo & Hc & Hpe & Ha).
    pose proof (res_credits_nonneg raw).
    eexists (Account us1 _ _). split; [by apply (Hr raw)|]. ledger_entry.
  - destruct Hr as [Ho1 Hk]. destruct (hw_alloc st e Ek He) as (raw & Hws & Hraw & Hpo & Hpe).
    pose proof (res_credits_nonneg raw). specialize (Hk raw _ Hws Hraw).
    destruct (alloc_failed raw).
    + destruct Hpe as [Hpe Ha]. eexists (Account us1 _ _). split; [exact Hk|]. ledger_entry.
    + destruct Hpe as (Hc & Hpe & Ha). eexists (Account us1 _ _). split; [exact Hk|]. ledger_entry.
  - destruct (hw_cquiet st e Ek) as (Hpo & Hpe & Ha). eexists (Account us1 _ _).
    split; [apply Hr|]. ledger_entry.
  - done.
Qed.

Lemma sum2_zero {A} (l : list A) : sum2 (map (fun _ => (0, 0)) l) = (0, 0).
Proof. induction l as [|x l IH]; [done|]. cbn. fold sum2. by rewrite IH. Qed.

Lemma sumz_zero {A} (l : list A) : sumz (map (fun _ => 0) l) = 0.
Proof. by induction l. Qed.

(** The contexts with their uses, before any event. *)
Definition credit_pool (fuel : nat) (sig : Z) (st : St) (users : list (list credit_use)) : Conc.pool St :=
  Pool st (map (credit_user fuel sig) users).

Lemma credit_pool_ledger fuel sig st users p :
  le2 (0, 0) (pool st) -> le2 (0, 0) (pe st) -> add2 (pool st) (pe st) = total -> allocs st = granted ->
  Forall (fun us => uses_ok (0, 0) us = true) users ->
  pool_reach h (credit_pool fuel sig st users) p ->
  exists gs, ledger users (p_hw p) gs /\ Forall2 in_credit gs (p_threads p).
Proof.
  intros Hp He Ht Hn Hu Hr.
  refine (pool_invariant h in_credit (ledger users) (credit_step users) _ _ Hr _).
  exists (map (fun us => Account us (0, 0) 0) users). split; cbn.
  - refine (conj _ (conj _ (conj Hp (conj He (conj _ _))))).
    + rewrite map_map. apply map_id.
    + apply Forall_map. by apply Forall_true.
    + rewrite map_map. cbn [a_own]. rewrite <- Ht, sum2_zero. apply add2_0_r.
    + rewrite map_map. cbn [a_n]. rewrite sumz_zero. lia.
  - clear Hr. induction Hu as [|us users Hu _ IH]; constructor; [|exact IH].
    unfold in_credit. cbn [a_uses a_own a_n]. by apply (owns_user _ _ _ (0, 0)).
Qed.

Definition fresh : credits2 * Z := ((0, 0), 0).

(** What two contexts own is what they own together. *)
Lemma settled_join us own n us' own' n' :
  settled fresh us (own, n) -> settled fresh us' (own', n') ->
  settled fresh (us ++ us') (add2 own own', n + n').
Proof.
  unfold settled, fresh. rewrite reserved_app, spends_app. cbn [fst snd]. rewrite !Z.sub_0_r.
  intros (-> & ? & ?) (-> & ? & ?). split; [|lia2]. unfold add2, sub2. cbn. f_equal; lia.
Qed.

(** What finished contexts own altogether. *)
Lemma settled_all gs : Forall (fun g => settled fresh (a_uses g) (a_own g, a_n g)) gs ->
  settled fresh (concat (map a_uses gs)) (sum2 (map a_own gs), sumz (map a_n gs)).
Proof.
  induction 1 as [|[us own n] gs Hs _ IH]; [by repeat split|]. by apply settled_join.
Qed.

Lemma finished_settled gs ts : Forall2 in_credit gs ts -> Forall (eq (Ret tt)) ts ->
  Forall (fun g => settled fresh (a_uses g) (a_own g, a_n g)) gs.
Proof.
  induction 1 as [|g p gs ts Hg _ IH]; [by constructor|].
  intros [<- Hts]%Forall_cons. constructor; [exact Hg|auto].
Qed.
End Credits.

(** C30: However contexts that reserve, poll for and allocate with CTM credits
    interleave, the credits in the pool and those the packet engine accounts for
    stay non-negative and never exceed the initial total, so no counter overflows;
    when all contexts have finished, exactly the credits they reserved are
    missing, except for one of each kind for every allocation the engine granted
    them. *)
Theorem credits_conserved {St : Type} (h : St -> event -> reply * St) s (pool pe : St -> credits2)
    (allocs : St -> Z) `{!CreditHw h s pool pe allocs} total fuel sig st users p :
  le2 (0, 0) (pool st) -> le2 (0, 0) (pe st) -> add2 (pool st) (pe st) = total ->
  total.1 < 2 ^ 32 /\ total.2 < 2 ^ 32 ->
  Forall (fun us => uses_ok (0, 0) us = true) users ->
  pool_reach h (credit_pool s fuel sig st users) p ->
  let now := add2 (pool (p_hw p)) (pe (p_hw p)) in
  let granted := allocs (p_hw p) - allocs st in
  le2 (0, 0) (pool (p_hw p)) /\ le2 (0, 0) (pe (p_hw p)) /\ le2 now total /\
  (Forall (eq (Ret tt)) (p_threads p) ->
   now = add2 (sub2 total (reserved (concat users))) (granted, granted) /\
   0 <= granted /\ le2 (granted, granted) (spends (concat users))).
Proof.
  intros Hp He Ht Hw Hu Hr now granted.
  destruct (credit_pool_ledger s h pool pe allocs total (allocs st) Hw fuel sig st users p
              Hp He Ht eq_refl Hu Hr) as (gs & (Hf & Hg & Hp' & He' & Hsum & Hn) & HR).
  pose proof (sum2_nonneg gs Hg). subst now granted. rewrite <- Hsum.
  refine (conj Hp' (conj He' (conj _ _))); [lia2|]. intros Hfin.
  pose proof (settled_all gs (finished_settled _ gs _ HR Hfin)) as Hs. rewrite Hf in Hs.
  replace (allocs (p_hw p) - allocs st) with (sumz (map a_n gs)) by lia.
  unfold settled, fresh in Hs. cbn [fst snd] in Hs. rewrite Z.sub_0_r in Hs. destruct Hs as (-> & ? & ?).
  split; [|done]. destruct (pool (p_hw p)), (pe (p_hw p)), (reserved _).
  unfold add2, sub2. cbn. f_equal; lia.
Qed.

(** ** A packet engine that returns one credit of a kind at a time *)

Definition bit_of (x : Z) : Z := if 0 <? x then 1 else 0.
Definition one_each (pe : credits2) : credits2 := (bit_of pe.1, bit_of pe.2).
Definition credits_raw (c : credits2) : Z := (c.1 ≪ 9) .| c.2.

(** The pool, the engine's account and the allocations granted; it has room for
    [room] packets, and returns the buffer credit of a packet that needs no new
    buffer. *)
Definition engine_hw (s room : Z) (st : credits2 * credits2 * Z) (e : event) : reply * (credits2 * credits2 * Z) :=
  let '(pool, pe, n) := st in
  match credit_kind s e with
  | Take want => (Reply [pool.1; pool.2] false, (sub2 pool (min2 pool want), pe, n))
  | Give back => (Reply [] false, ((u32 (pool.1 + back.1), u32 (pool.2 + back.2)), pe, n))
  | PeGet => (Reply [credits_raw (one_each pe)] false, (pool, sub2 pe (one_each pe), n))
  | PeAlloc => if room <=? pe.1 then (Reply [0xffffffff] false, st)
               else (Reply [(5 ≪ 20) .| 1] false, (pool, sub2 (add2 pe (1, 1)) (0, 1), n + 1))
  | _ => (Reply [] false, st)
  end.

Lemma res_one_each pe : res_credits (credits_raw (one_each pe)) = one_each pe /\
  in_word 32 (credits_raw (one_each pe)).
Proof.
  destruct pe as [a b]. unfold one_each, bit_of. cbn [fst snd].
  destruct (0 <? a), (0 <? b); split; by vm_compute.
Qed.

#[export] Instance engine_hw_credits s room :
  CreditHw (engine_hw s room) s (fun st => st.1.1) (fun st => st.1.2) snd.
Proof.
  split; intros [[pool pe] n] e; unfold engine_hw; cbn [fst snd].
  - intros want ->. done.
  - intros back ->. done.
  - intros -> Hpe. exists (credits_raw (one_each pe)). destruct (res_one_each pe) as [-> Hw].
    refine (conj eq_refl (conj Hw (conj eq_refl (conj _ (conj eq_refl eq_refl))))).
    unfold one_each, bit_of. destruct (Z.ltb_spec 0 pe.1), (Z.ltb_spec 0 pe.2); lia2.
  - intros -> Hpe. destruct (room <=? pe.1); cbn [fst snd r_words].
    + exists 0xffffffff. by vm_compute.
    + exists ((5 ≪ 20) .| 1). change (res_credits _) with (0, 1). cbn [alloc_failed].
      repeat split; try done; lia2.
  - by intros ->.
Qed.

(** A context that reserves two packets and allocates them, one that allocates with
    credits of its own choice, and one that polls. *)
Definition three_users : list (list credit_use) :=
  [ [UReserve 2 2 true; UAlloc 0 PKT_CTM_SIZE_256 false true; UAlloc 0 PKT_CTM_SIZE_256 false true];
    [UAlloc 1 PKT_CTM_SIZE_512 true true; UFree 1 5];
    [UReplenish; UReserve 1 0 false] ].

Definition three_sched : list nat :=
  concat (replicate 24 [0; 1; 2; 2]%nat).

Lemma credits_conserved_witness :
  let p := run (engine_hw 0x80 2) three_sched (credit_pool 0x80 5 7 ((2, 3), (1, 0), 0) three_users) in
  Forall (eq (Ret tt)) (p_threads p) /\ p_hw p = ((0, 3), (2, 0), 3) /\
  add2 (p_hw p).1.1 (p_hw p).1.2 = add2 (sub2 (3, 3) (reserved (concat three_users))) (3, 3).
Proof.
  intros p. assert (Hf : Forall (eq (Ret tt)) (p_threads p)) by (vm_compute; repeat constructor).
  split; [exact Hf|]. split; [by vm_compute|].
  refine (eq_trans (proj1 (proj2 (proj2 (proj2
    (credits_conserved (engine_hw 0x80 2) 0x80 (fun st => st.1.1) (fun st => st.1.2) snd
       (3, 3) 5 7 ((2, 3), (1, 0), 0) three_users p _ _ _ _ _ _))) Hf)) _);
    [by vm_compute..| |apply run_reach|by vm_compute].
  repeat constructor.
Defined.

(** An allocation that fails keeps the credits it reserved itself: they are in
    neither the pool nor the engine. *)
Lemma failed_alloc_keeps :
  exec (engine_hw 0x80 0) (pkt_ctm_alloc 1 0x80 0 PKT_CTM_SIZE_256 true false 7) ((4, 4), (0, 0), 0) =
  Outcome [ECmd (credits_cmd "test_subsat" 1 1 0x80); ECmd (alloc_cmd 0 PKT_CTM_SIZE_256)]
    (inl 0xffffffff) ((3, 3), (0, 0), 0).
Proof. reflexivity. Qed.

End PktCredits.
