(* ===== verification/Csum.v ===== *)
(** lib/net/_c/csum.c: ones-complement checksums of IPv4 headers, TCP and UDP.

    The header structures are passed in registers, as lists of 32-bit words; the
    rest of the packet is read from memory through [MemBulk]. *)
From Stdlib Require Import ZArith Lia List String Znumtheory.
From stdpp Require Import base list numbers option strings.
From S2P Require Import Prelude Me MemBulk MemBus.
#[local] Open Scope Z_scope.

Module Csum.

(** ** The ALU's carry chain *)

(** [alu[r, a, +, b]] and [alu[r, a, +carry, b]]: the result and the carry out. *)
Definition alu_add (a b : Z) : Z * Z := (u32 (a + b), (a + b) / 2 ^ 32).
Definition alu_addc (a b carry : Z) : Z * Z :=
  (u32 (a + b + carry), (a + b + carry) / 2 ^ 32).

Definition ones_sum_add (sum1 sum2 : Z) : Z :=
  let '(ret, carry) := alu_add sum1 sum2 in
  let '(ret, _) := alu_addc ret 0 carry in
  ret.

Definition ones_sum_fold16 (sum : Z) : Z :=
  let ret := add32 (sum ≫ 16) (u16 sum) in
  let ret := add32 (ret ≫ 16) (u16 ret) in
  u16 ret.

(** [UINT32_REG(p)[i]] *)
Definition UINT32_REG (p : list Z) (i : nat) : Z := nth i p 0.

Definition NET_ETH_TYPE_IPV4 : Z := 0x0800.
Definition NET_ETH_TYPE_IPV6 : Z := 0x86dd.
Definition NET_IP_PROTO_TCP : Z := 0x06.
Definition NET_IP_PROTO_UDP : Z := 0x11.
Definition NET_IP4_LEN32 : Z := 5.

Definition ones_sum_pseudo (ip_type protocol : Z) (ip l4_hdr : list Z) (l4_len : Z) : Z :=
  let v6 := ip_type =? NET_ETH_TYPE_IPV6 in
  let sum := 0 in
  let sum := ones_sum_add sum (UINT32_REG ip 3) in
  let sum := ones_sum_add sum (UINT32_REG ip 4) in
  let sum := if v6 then
      let sum := ones_sum_add sum (UINT32_REG ip 2) in
      let sum := ones_sum_add sum (UINT32_REG ip 5) in
      let sum := ones_sum_add sum (UINT32_REG ip 6) in
      let sum := ones_sum_add sum (UINT32_REG ip 7) in
      let sum := ones_sum_add sum (UINT32_REG ip 8) in
      ones_sum_add sum (UINT32_REG ip 9)
    else sum in
  let sum := ones_sum_add sum (UINT32_REG l4_hdr 0) in
  let sum := ones_sum_add sum (UINT32_REG l4_hdr 1) in
  let sum := if v6 then ones_sum_add sum protocol else sum in
  let tmp := shl32 protocol 16 in
  let sum := if protocol =? NET_IP_PROTO_TCP then
      let sum := ones_sum_add sum (UINT32_REG l4_hdr 2) in
      let sum := ones_sum_add sum (UINT32_REG l4_hdr 3) in
      ones_sum_add sum (UINT32_REG l4_hdr 4)
    else sum in
  if v6 then ones_sum_add sum l4_len
  else ones_sum_add sum (tmp .| l4_len).

(** The unrolled chain entered with [n] words left; [i] is the word [*$index++]
    reads next.  Label sum16w adds without the carry, the others with it. *)
Fixpoint sum_chain (n i : nat) (buf : list Z) (sum carry : Z) : Z :=
  match n with
  | O => fst (alu_addc sum 0 carry)
  | S n' =>
      let '(sum, carry) := if (n =? 16)%nat then alu_add sum (nth i buf 0)
                           else alu_addc sum (nth i buf 0) carry in
      sum_chain n' (S i) buf sum carry
  end.

(** The jump's table has 17 targets; beyond it the target is unknown.  The
    [alu[--, --, B, 0]] in the jump's defer slot clears the carry. *)
Definition ones_sum_warr (buf : list Z) (len : Z) : option Z :=
  let nwords := len ≫ 2 in
  if 16 <? nwords then None
  else
    let sum := sum_chain (Z.to_nat nwords) 0 buf 0 0 in
    let rem := len .& 3 in
    if 0 <? rem then
      let val := nth (Z.to_nat nwords) buf 0 in
      let val := if rem =? 1 then val .& 0xFF000000
                 else if rem =? 2 then val .& 0xFFFF0000
                 else if rem =? 3 then val .& 0xFFFFFF00
                 else val in
      Some (ones_sum_add sum val)
    else Some sum.

(** A value the C code leaves undefined stops the program. *)
Definition defined {A} (o : option A) : prog A :=
  match o with Some a => Ret a | None => Stop Undef end.

(** 40-bit pointer arithmetic. *)
Definition ptr_add (p n : Z) : Z := wrap 40 (p + n).

(** [while (len > 0)]: at most [len] rounds, each at most 64 bytes. *)
Fixpoint ones_sum_mem_loop (fuel : nat) (pkt_ptr len sum : Z) : prog Z :=
  if len <=? 0 then Ret sum
  else
    match fuel with
    | O => Stop Fuel
    | S fuel' =>
        let curr_len := if 64 <? len then 64 else len in
        pkt_cache ← MemBulk.__mem_read64 pkt_ptr (rt ((curr_len + 7) .& 0x78)) (ct 64) ctx_swap;
        s ← defined (ones_sum_warr pkt_cache curr_len);
        ones_sum_mem_loop fuel' (ptr_add pkt_ptr curr_len) (len - curr_len)
                          (ones_sum_add sum s)
    end.

(** [len] is an [int32_t]. *)
Definition ones_sum_mem (mem len : Z) : prog Z :=
  ones_sum_mem_loop (Z.to_nat len) mem len 0.

(** [~x] returned as a [uint16_t] *)
Definition not16 (x : Z) : Z := u16 (not32 x).

Definition net_csum_mod (orig_csum orig_val new_val : Z) : Z :=
  let new_csum := add32 (add32 (not32 orig_csum .& 0xFFFF) (not32 orig_val .& 0xFFFF)) new_val in
  not16 (ones_sum_fold16 new_csum).

(** The header length field of struct ip4_hdr. *)
Definition ip4_hl (ip : list Z) : Z := field 24 4 (UINT32_REG ip 0).

Definition __net_csum_ipv4 (ip : list Z) (pkt_ptr : Z) (test_ip_opt : bool) : prog Z :=
  let sum := 0 in
  let sum := ones_sum_add sum (UINT32_REG ip 0) in
  let sum := ones_sum_add sum (UINT32_REG ip 1) in
  let sum := ones_sum_add sum (UINT32_REG ip 2) in
  let sum := ones_sum_add sum (UINT32_REG ip 3) in
  let sum := ones_sum_add sum (UINT32_REG ip 4) in
  let hl := ip4_hl ip in
  if test_ip_opt && (NET_IP4_LEN32 <? hl) then
    let opt_size := (hl - NET_IP4_LEN32) * 4 in
    ip_opts ← MemBulk.__mem_read64 (ptr_add pkt_ptr (- opt_size))
                (rt ((opt_size + 7) .& 0x78)) (ct 40) ctx_swap;
    s ← defined (ones_sum_warr ip_opts opt_size);
    Ret (not16 (ones_sum_fold16 (ones_sum_add sum s)))
  else Ret (not16 (ones_sum_fold16 sum)).

Definition net_csum_ipv4 (ip : list Z) (pkt_ptr : Z) : prog Z :=
  __net_csum_ipv4 ip pkt_ptr true.

(** The length field of struct udp_hdr, and the sizes of the headers. *)
Definition udp_len (l4_hdr : list Z) : Z := field 16 16 (UINT32_REG l4_hdr 1).
Definition sizeof_udp_hdr : Z := 8.
Definition sizeof_tcp_hdr : Z := 20.

Definition net_csum_l4_ip (ip_type protocol : Z) (ip l4_hdr : list Z)
    (pkt_ctm ctm_len pkt_mem mem_len : Z) : prog Z :=
  let udp := protocol =? NET_IP_PROTO_UDP in
  let l4_len := if udp then udp_len l4_hdr else add32 ctm_len mem_len in
  let hdr := if udp then sizeof_udp_hdr else sizeof_tcp_hdr in
  let '(pkt_ctm, ctm_len, pkt_mem, mem_len) :=
    if 0 <? ctm_len then (ptr_add pkt_ctm hdr, sub32 ctm_len hdr, pkt_mem, mem_len)
    else (pkt_ctm, ctm_len, ptr_add pkt_mem hdr, sub32 mem_len hdr) in
  let sum := ones_sum_pseudo ip_type protocol ip l4_hdr l4_len in
  if 0 <? add32 ctm_len mem_len then
    s1 ← ones_sum_mem pkt_ctm (s32 ctm_len);
    let sum := ones_sum_add sum s1 in
    s2 ← ones_sum_mem pkt_mem (s32 mem_len);
    Ret (not16 (ones_sum_fold16 (ones_sum_add sum s2)))
  else Ret (not16 (ones_sum_fold16 sum)).

Definition net_csum_ipv4_udp (ip udp : list Z) (pkt_ctm ctm_len pkt_mem mem_len : Z) : prog Z :=
  net_csum_l4_ip NET_ETH_TYPE_IPV4 NET_IP_PROTO_UDP ip udp pkt_ctm ctm_len pkt_mem mem_len.
Definition net_csum_ipv4_tcp (ip tcp : list Z) (pkt_ctm ctm_len pkt_mem mem_len : Z) : prog Z :=
  net_csum_l4_ip NET_ETH_TYPE_IPV4 NET_IP_PROTO_TCP ip tcp pkt_ctm ctm_len pkt_mem mem_len.
Definition net_csum_ipv6_udp (ip udp : list Z) (pkt_ctm ctm_len pkt_mem mem_len : Z) : prog Z :=
  net_csum_l4_ip NET_ETH_TYPE_IPV6 NET_IP_PROTO_UDP ip udp pkt_ctm ctm_len pkt_mem mem_len.
Definition net_csum_ipv6_tcp (ip tcp : list Z) (pkt_ctm ctm_len pkt_mem mem_len : Z) : prog Z :=
  net_csum_l4_ip NET_ETH_TYPE_IPV6 NET_IP_PROTO_TCP ip tcp pkt_ctm ctm_len pkt_mem mem_len.

(** ** Specification: ones-complement sums *)

(** The ones-complement normal form of a sum modulo [m]: zero only for zero. *)
Definition norm (m s : Z) : Z := if s =? 0 then 0 else (s - 1) mod m + 1.

Definition M16 : Z := 2 ^ 16 - 1.
Definition M32 : Z := 2 ^ 32 - 1.

(** The sum of the 16-bit big-endian words of a byte string, padded with a zero
    byte, and the Internet checksum of RFC 1071. *)
Fixpoint sum16 (bs : list Z) : Z :=
  match bs with
  | b0 :: b1 :: bs' => b0 * 2 ^ 8 + b1 + sum16 bs'
  | [b0] => b0 * 2 ^ 8
  | [] => 0
  end.

Definition rfc1071 (bs : list Z) : Z := 0xFFFF - norm M16 (sum16 bs).

Lemma norm_spec m s : 0 < m -> 0 <= s ->
  0 <= norm m s <= m /\ (norm m s = 0 <-> s = 0) /\ exists k, s = norm m s + k * m.
Proof.
  intros Hm Hs. unfold norm. destruct (Z.eqb_spec s 0) as [->|Hn].
  - split; [lia|]. split; [done|]. by exists 0.
  - pose proof (Z.mod_pos_bound (s - 1) m Hm). split; [lia|]. split; [lia|].
    exists ((s - 1) / m). pose proof (Z.div_mod (s - 1) m). lia.
Qed.

Lemma norm_unique m a b k : 0 < m -> 0 <= a -> 0 <= b ->
  a = b + k * m -> (a = 0 <-> b = 0) -> norm m a = norm m b.
Proof.
  intros Hm Ha Hb E Hz. unfold norm.
  destruct (Z.eqb_spec a 0), (Z.eqb_spec b 0); try tauto; try lia.
  f_equal. rewrite E. replace (b + k * m - 1) with (b - 1 + k * m) by lia.
  by apply Z.mod_add; lia.
Qed.

Lemma norm_id m s : 0 <= s <= m -> norm m s = s.
Proof.
  intros Hs. unfold norm. destruct (Z.eqb_spec s 0); [done|]. rewrite Z.mod_small; lia.
Qed.

Lemma norm_add_l m a b : 0 < m -> 0 <= a -> 0 <= b -> norm m (norm m a + b) = norm m (a + b).
Proof.
  intros Hm Ha Hb. destruct (norm_spec m a Hm Ha) as (? & ? & k & E).
  apply (norm_unique m _ _ (- k)); lia.
Qed.

Lemma norm_add_r m a b : 0 < m -> 0 <= a -> 0 <= b -> norm m (a + norm m b) = norm m (a + b).
Proof. intros. rewrite Z.add_comm, norm_add_l, Z.add_comm by done. done. Qed.

(** Folding a 32-bit ones-complement sum keeps its 16-bit value. *)
Lemma norm16_norm32 s : 0 <= s -> norm M16 (norm M32 s) = norm M16 s.
Proof.
  intros Hs. unfold M16, M32. destruct (norm_spec (2 ^ 32 - 1) s) as (? & ? & k & E); [lia..|].
  apply (norm_unique _ _ _ (- k * 65537)); lia.
Qed.

(** ** The arithmetic of the code *)

Lemma ones_sum_add_spec a b : in_word 32 a -> in_word 32 b ->
  ones_sum_add a b = norm M32 (a + b).
Proof.
  unfold in_word, ones_sum_add, alu_add, alu_addc, wrap, M32. intros Ha Hb. cbn [fst].
  destruct (Z_lt_le_dec (a + b) (2 ^ 32)).
  - rewrite (Z.mod_small (a + b)), (Z.div_small (a + b)), norm_id, Z.mod_small by lia. lia.
  - assert (E : (a + b) mod 2 ^ 32 = a + b - 2 ^ 32) by divlia.
    assert (D : (a + b) / 2 ^ 32 = 1) by divlia. rewrite E, D, Z.mod_small by lia.
    rewrite <- (norm_id (2 ^ 32 - 1)) at 1 by lia.
    apply (norm_unique _ _ _ (-1)); lia.
Qed.

Lemma norm32_word s : 0 <= s -> in_word 32 (norm M32 s).
Proof. intros Hs. destruct (norm_spec M32 s) as [? _]; unfold M32, in_word in *; lia. Qed.

Lemma ones_sum_add_word a b : in_word 32 a -> in_word 32 b -> in_word 32 (ones_sum_add a b).
Proof.
  intros Ha Hb. rewrite ones_sum_add_spec by done. apply norm32_word. unfold in_word in *; lia.
Qed.

Lemma ones_sum_fold16_spec s : in_word 32 s -> ones_sum_fold16 s = norm M16 s.
Proof.
  unfold in_word, ones_sum_fold16, add32, wrap, M16. intros Hs.
  rewrite !Z.shiftr_div_pow2 by lia.
  set (t := (s / 2 ^ 16 + s mod 2 ^ 16) mod 2 ^ 32).
  assert (Ht : t = s / 2 ^ 16 + s mod 2 ^ 16) by (unfold t; divlia).
  assert (Hb : 0 <= t <= 131070) by (rewrite Ht; divlia).
  assert (Hu : (t / 2 ^ 16 + t mod 2 ^ 16) mod 2 ^ 32 = t / 2 ^ 16 + t mod 2 ^ 16) by divlia.
  rewrite Hu. assert (Hv : 0 <= t / 2 ^ 16 + t mod 2 ^ 16 <= 65535) by divlia.
  rewrite Z.mod_small, <- (norm_id (2 ^ 16 - 1)) at 1 by lia.
  apply (norm_unique _ _ _ (- (t / 2 ^ 16 + s / 2 ^ 16))); try lia; [|divlia].
  pose proof (Z.div_mod t (2 ^ 16)). pose proof (Z.div_mod s (2 ^ 16)). lia.
Qed.

(** The carry chain: a carry is never lost, because a chain that carries leaves
    at most [2 ^ 32 - 2]. *)
Lemma sum_chain_spec n i buf sum carry :
  Forall (in_word 32) buf -> (n <= 16)%nat -> in_word 32 sum ->
  (carry = 0 \/ carry = 1 /\ sum <= 2 ^ 32 - 2) -> (n = 16%nat -> carry = 0) ->
  sum_chain n i buf sum carry =
  norm M32 (sum + carry + sumZ (slice 0 buf i n)).
Proof.
  intros Hbuf. revert i sum carry. induction n as [|n IH]; intros i sum carry Hn Hs Hc H16.
  - cbn. unfold in_word, M32, wrap in *. rewrite Z.mod_small by lia.
    rewrite norm_id by lia. lia.
  - assert (Hw : in_word 32 (nth i buf 0)).
    { destruct (nth_in_or_default i buf 0) as [Hin| ->]; [|done].
      rewrite Forall_forall in Hbuf. apply Hbuf. by apply list_elem_of_In. }
    assert (E : sum_chain (S n) i buf sum carry =
      sum_chain n (S i) buf (u32 (sum + nth i buf 0 + carry)) ((sum + nth i buf 0 + carry) / 2 ^ 32)).
    { change (sum_chain (S n) i buf sum carry) with
        (let '(sum, carry) := if (S n =? 16)%nat then alu_add sum (nth i buf 0)
                              else alu_addc sum (nth i buf 0) carry in
         sum_chain n (S i) buf sum carry).
      destruct (S n =? 16)%nat eqn:E16; [|done].
      apply Nat.eqb_eq in E16. rewrite H16 by done. unfold alu_add. by rewrite Z.add_0_r. }
    rewrite E. unfold in_word in *. set (t := sum + nth i buf 0 + carry).
    assert (Ht : 0 <= t <= 2 ^ 33 - 2) by lia.
    rewrite IH; [|lia|by apply wrap_range| |lia].
    + assert (Sl : slice 0 buf i (S n) = nth i buf 0 :: slice 0 buf (S i) n).
      { unfold slice. cbn [seq map]. rewrite Nat.add_0_r. f_equal.
        rewrite <- seq_shift, map_map. apply map_ext. intros x. f_equal. lia. }
      rewrite Sl.
      change (sumZ (nth i buf 0 :: slice 0 buf (S i) n))
        with (nth i buf 0 + sumZ (slice 0 buf (S i) n)).
      assert (Hp : 0 <= sumZ (slice 0 buf (S i) n)).
      { apply sumZ_nonneg, Forall_forall. intros x Hx. unfold slice in Hx.
        apply list_elem_of_In, in_map_iff in Hx as (y & <- & _).
        destruct (nth_in_or_default (S i + y) buf 0) as [Hin| ->]; [|done].
        rewrite Forall_forall in Hbuf. apply Hbuf. by apply list_elem_of_In. }
      replace (sum + carry + (nth i buf 0 + sumZ (slice 0 buf (S i) n)))
        with (t + sumZ (slice 0 buf (S i) n)) by (unfold t; lia).
      generalize dependent (sumZ (slice 0 buf (S i) n)). intros rest Hp.
      unfold wrap, M32. apply (norm_unique _ _ _ (- (t / 2 ^ 32))); try lia; divlia.
    + unfold wrap. destruct (Z_lt_le_dec t (2 ^ 32)); [left; divlia|right; divlia].
Qed.

(** ** Byte strings and their words *)

Lemma be_words_app xs ys : (length xs mod 4 = 0)%nat ->
  be_words (xs ++ ys) = be_words xs ++ be_words ys.
Proof.
  remember (length xs) as n eqn:En. revert xs En.
  induction n as [n IH] using lt_wf_ind. intros xs -> Hm.
  destruct xs as [|b0 [|b1 [|b2 [|b3 xs]]]]; try done.
  cbn [app be_words]. f_equal. apply (IH (length xs)); [cbn; lia|done|].
  cbn [length] in Hm.
  replace (S (S (S (S (length xs))))) with (length xs + 1 * 4)%nat in Hm by lia.
  by rewrite Nat.Div0.mod_add in Hm.
Qed.

Lemma length_bytes_of_words ws : length (bytes_of_words ws) = (4 * length ws)%nat.
Proof.
  induction ws as [|w ws IH]; [done|].
  change (bytes_of_words (w :: ws)) with (be_bytes w ++ bytes_of_words ws).
  rewrite length_app, IH. cbn. lia.
Qed.

Lemma be_bytes_byte w : Forall (in_word 8) (be_bytes w).
Proof. unfold be_bytes. repeat constructor; by apply field_range. Qed.

Lemma bytes_of_words_byte ws : Forall (in_word 8) (bytes_of_words ws).
Proof.
  induction ws as [|w ws IH]; [constructor|].
  change (bytes_of_words (w :: ws)) with (be_bytes w ++ bytes_of_words ws).
  apply Forall_app; split; [apply be_bytes_byte|done].
Qed.

Lemma be_words_word bs : Forall (in_word 8) bs -> Forall (in_word 32) (be_words bs).
Proof.
  remember (length bs) as n eqn:En. revert bs En.
  induction n as [n IH] using lt_wf_ind. intros bs -> Hb.
  destruct bs as [|b0 [|b1 [|b2 [|b3 bs]]]]; cbn [be_words];
    rewrite ?Forall_cons in Hb; [constructor|..];
    (constructor; [apply be_word_range; by first [apply Hb | unfold in_word; lia]|]); try constructor.
  apply (IH (length bs)); [cbn; lia|done|]. apply Hb.
Qed.

Lemma sum32_nonneg bs : Forall (in_word 8) bs -> 0 <= sumZ (be_words bs).
Proof.
  intros Hb. apply sumZ_nonneg. eapply Forall_impl; [by apply be_words_word|].
  intros x Hx. apply Hx.
Qed.

Lemma sum16_nonneg bs : Forall (in_word 8) bs -> 0 <= sum16 bs.
Proof.
  remember (length bs) as n eqn:En. revert bs En.
  induction n as [n IH] using lt_wf_ind. intros bs -> Hb.
  destruct bs as [|b0 [|b1 bs]]; cbn [sum16]; rewrite ?Forall_cons in Hb; unfold in_word in Hb; try lia.
  assert (0 <= sum16 bs); [|lia]. apply (IH (length bs)); [cbn; lia|done|]. apply Hb.
Qed.

(** The sum of the 32-bit words and that of the 16-bit words agree. *)
Lemma sum32_sum16 bs : Forall (in_word 8) bs ->
  exists k, 0 <= k /\ sumZ (be_words bs) = sum16 bs + k * M16 /\ (sum16 bs = 0 -> k = 0).
Proof.
  remember (length bs) as n eqn:En. revert bs En.
  induction n as [n IH] using lt_wf_ind. intros bs -> Hb. unfold M16, in_word in *.
  destruct bs as [|b0 [|b1 [|b2 [|b3 bs]]]]; rewrite ?Forall_cons in Hb; cbn [be_words sum16];
    unfold be_word, sumZ; cbn [fold_right].
  - by exists 0.
  - exists (b0 * 2 ^ 8). lia.
  - exists (b0 * 2 ^ 8 + b1). lia.
  - exists (b0 * 2 ^ 8 + b1). lia.
  - destruct (IH (length bs)) with (bs := bs) as (k & Hk0 & Hk & Hz); [cbn; lia|done|apply Hb|].
    assert (Hs : 0 <= sum16 bs) by (apply sum16_nonneg, Hb).
    exists (b0 * 2 ^ 8 + b1 + k). fold (sumZ (be_words bs)). lia.
Qed.

Lemma norm16_sum32 bs a : Forall (in_word 8) bs -> 0 <= a ->
  norm M16 (a + sumZ (be_words bs)) = norm M16 (a + sum16 bs).
Proof.
  intros Hb Ha. destruct (sum32_sum16 bs Hb) as (k & Hk0 & Hk & Hz).
  pose proof (sum16_nonneg bs Hb). unfold M16 in *.
  apply (norm_unique _ _ _ k); lia.
Qed.

Lemma sum16_app xs ys : Nat.even (length xs) = true -> sum16 (xs ++ ys) = sum16 xs + sum16 ys.
Proof.
  remember (length xs) as n eqn:En. revert xs En.
  induction n as [n IH] using lt_wf_ind. intros xs -> He.
  destruct xs as [|b0 [|b1 xs]]; try done. cbn [app sum16].
  rewrite (IH (length xs)); [lia|cbn; lia|done|done].
Qed.

Lemma bytes_of_words_app xs ys :
  bytes_of_words (xs ++ ys) = bytes_of_words xs ++ bytes_of_words ys.
Proof. unfold bytes_of_words. by rewrite map_app, concat_app. Qed.

(** The first bytes of a word are the word with its last bytes cleared. *)
Lemma be_words_prefix w r : in_word 32 w -> (1 <= r <= 3)%nat ->
  be_words (take r (be_bytes w)) =
  [ w .& (if (r =? 1)%nat then 0xFF000000 else if (r =? 2)%nat then 0xFFFF0000 else 0xFFFFFF00) ].
Proof.
  intros Hw Hr.
  change 0xFF000000 with (Z.ones (32 - 24) ≪ 24). change 0xFFFF0000 with (Z.ones (32 - 16) ≪ 16).
  change 0xFFFFFF00 with (Z.ones (32 - 8) ≪ 8).
  assert (E : r = 1%nat \/ r = 2%nat \/ r = 3%nat) by lia.
  destruct E as [-> | [-> | ->]]; unfold be_bytes; cbn [take be_words Nat.eqb];
    rewrite land_high by (done || lia); f_equal; unfold be_word, in_word in *;
    rewrite !field_eq by lia; divlia.
Qed.

Lemma be_words_take buf nw r : Forall (in_word 32) buf -> (r <= 3)%nat ->
  (4 * nw + r <= 4 * length buf)%nat ->
  be_words (take (4 * nw + r) (bytes_of_words buf)) =
  take nw buf ++ be_words (take r (be_bytes (nth nw buf 0))).
Proof.
  intros Hb Hr Hl. rewrite <- (take_drop nw buf) at 1. rewrite bytes_of_words_app.
  assert (El : length (bytes_of_words (take nw buf)) = (4 * nw)%nat)
    by (rewrite length_bytes_of_words, length_take; lia).
  rewrite <- El, take_app_add, be_words_app, be_words_bytes.
  2: { by apply Forall_take. }
  2: { rewrite El, Nat.mul_comm. apply Nat.Div0.mod_mul. }
  f_equal. destruct r as [|r]; [done|].
  destruct (drop nw buf) as [|w rest] eqn:Ed.
  { apply (f_equal length) in Ed. rewrite length_drop in Ed. cbn in Ed. lia. }
  assert (En : nth nw buf 0 = w).
  { rewrite nth_lookup. rewrite <- (Nat.add_0_r nw), <- lookup_drop, Ed. done. }
  rewrite En. change (bytes_of_words (w :: rest)) with (be_bytes w ++ bytes_of_words rest).
  rewrite take_app_le by (cbn; lia). done.
Qed.

(** [ones_sum_warr] sums the first [len] bytes of its buffer. *)
Lemma ones_sum_warr_spec buf len : Forall (in_word 32) buf -> 0 <= len <= 64 ->
  len <= 4 * Z.of_nat (length buf) ->
  ones_sum_warr buf len =
  Some (norm M32 (sumZ (be_words (take (Z.to_nat len) (bytes_of_words buf))))).
Proof.
  intros Hb Hlen Hl. unfold ones_sum_warr.
  change (len .& 3) with (len .& Z.ones 2). rewrite Z.land_ones, Z.shiftr_div_pow2 by lia.
  change (2 ^ 2) with 4. set (nw := Z.to_nat (len / 4)). set (r := Z.to_nat (len mod 4)).
  assert (E : Z.to_nat len = (4 * nw + r)%nat) by (unfold nw, r; divlia).
  assert (Hnw : (nw <= 16)%nat) by (unfold nw; divlia).
  assert (Hr : (r <= 3)%nat) by (unfold r; divlia).
  assert (Hle : (4 * nw + r <= 4 * length buf)%nat) by lia.
  destruct (Z.ltb_spec 16 (len / 4)) as [H|_]; [divlia|].
  rewrite sum_chain_spec by (done || lia || by left). rewrite !Z.add_0_l.
  rewrite slice_take by lia. rewrite E, be_words_take by done.
  assert (Hw : in_word 32 (nth nw buf 0)) by (apply nth_word; done).
  assert (Hp : 0 <= sumZ (take nw buf)).
  { apply sumZ_nonneg, Forall_take. eapply Forall_impl; [done|]. intros x Hx. apply Hx. }
  destruct (Z.ltb_spec 0 (len mod 4)) as [Hr0|Hr0].
  - rewrite be_words_prefix by (done || (unfold r; divlia)).
    rewrite sumZ_app. f_equal.
    assert (Hm : forall m, in_word 32 m -> ones_sum_add (norm M32 (sumZ (take nw buf))) (nth nw buf 0 .& m)
              = norm M32 (sumZ (take nw buf) + sumZ [nth nw buf 0 .& m])).
    { intros m Hmw. assert (in_word 32 (nth nw buf 0 .& m)) by (apply in_word_land_r; done).
      rewrite ones_sum_add_spec by (done || by apply norm32_word).
      unfold in_word, M32 in *. rewrite norm_add_l by lia. cbn [sumZ fold_right]. by rewrite Z.add_0_r. }
    assert (Er : len mod 4 = 1 \/ len mod 4 = 2 \/ len mod 4 = 3) by divlia.
    unfold r. destruct Er as [-> | [-> | ->]]; by apply Hm.
  - assert (Er : r = 0%nat) by (unfold r; divlia). rewrite Er. cbn [take be_words].
    by rewrite app_nil_r.
Qed.

(** ** Sums over memory *)

(** The read size, rounded up to 8 bytes. *)
Lemma round8 c : 0 < c <= 64 -> (c + 7) .& 0x78 = 8 * ((c + 7) / 8).
Proof.
  intros Hc. change 0x78 with (Z.ones (7 - 3) ≪ 3).
  rewrite land_high by (unfold in_word; lia). change (2 ^ 3) with 8. lia.
Qed.

Lemma ptr_add_small p n : 0 <= p + n < 2 ^ 40 -> ptr_add p n = p + n.
Proof. apply wrap_id. Qed.

Section Memory.
Context {St : Type} (h : St -> event -> reply * St) (mem : St -> Z -> Z) `{!MemReads h mem}.

Lemma mem_byte_list s a n : Forall (in_word 8) (mem_bytes (mem s) a n).
Proof. apply mem_bytes_byte, mem_byte. Qed.

(** One read and sum: [len] bytes at [ptr] through a read of [(len + 7) & 0x78]. *)
Lemma read_sum_wp ptr len max_size s (K : Z -> prog Z) (Q : Z -> St -> Prop) :
  in_word 40 ptr -> 0 < len <= 64 -> is_ct max_size = true ->
  (forall s', (forall a, mem s' a = mem s a) ->
     wp h (K (norm M32 (sumZ (be_words (mem_bytes (mem s) ptr (Z.to_nat len)))))) Q s') ->
  wp h (ws ← MemBulk.__mem_read64 ptr (rt ((len + 7) .& 0x78)) max_size ctx_swap;
        x ← defined (ones_sum_warr ws len); K x) Q s.
Proof.
  intros Hp Hl Hm HK. rewrite round8 by done.
  unfold mbind, prog_bind. apply wp_bind. eapply wp_mono; [|apply (mem_read64_wp h mem); try done].
  2, 3: divlia.
  intros ws s' [-> Hpure].
  assert (Hb := mem_byte_list s ptr (Z.to_nat (8 * ((len + 7) / 8)))).
  assert (Hn : (length (mem_bytes (mem s) ptr (Z.to_nat (8 * ((len + 7) / 8)))) mod 4 = 0)%nat).
  { rewrite length_mem_bytes. replace (Z.to_nat (8 * ((len + 7) / 8)))
      with (2 * Z.to_nat ((len + 7) / 8) * 4)%nat by divlia. apply Nat.Div0.mod_mul. }
  rewrite ones_sum_warr_spec; [|by apply be_words_word|lia|].
  - rewrite bytes_of_be_words, mem_bytes_take by (done || divlia). apply HK, Hpure.
  - assert (Hlen := length_bytes_of_words (be_words (mem_bytes (mem s) ptr (Z.to_nat (8 * ((len + 7) / 8)))))).
    rewrite bytes_of_be_words, length_mem_bytes in Hlen by done. divlia.
Qed.

Lemma ones_sum_mem_loop_wp fuel ptr len sum s :
  (Z.to_nat len <= fuel)%nat -> 0 <= ptr -> 0 <= len -> ptr + len < 2 ^ 40 -> in_word 32 sum ->
  wp h (ones_sum_mem_loop fuel ptr len sum)
    (fun r s' => r = norm M32 (sum + sumZ (be_words (mem_bytes (mem s) ptr (Z.to_nat len)))) /\
                 forall a, mem s' a = mem s a) s.
Proof.
  revert ptr len sum s. induction fuel as [|fuel IH]; intros ptr len sum s Hf Hp Hl Hend Hsum.
  { assert (len = 0) as -> by lia. cbn. split; [|done].
    rewrite Z.add_0_r, norm_id; unfold in_word, M32 in *; lia. }
  cbn [ones_sum_mem_loop]. destruct (Z.leb_spec len 0).
  { assert (len = 0) as -> by lia. cbn. split; [|done].
    rewrite Z.add_0_r, norm_id; unfold in_word, M32 in *; lia. }
  set (curr := if 64 <? len then 64 else len).
  assert (Hc : 0 < curr <= 64 /\ curr <= len /\ (curr = len \/ curr = 64)).
  { unfold curr. destruct (Z.ltb_spec 64 len); lia. }
  apply read_sum_wp; [unfold in_word; lia|lia|done|]. intros s' Hs'.
  rewrite ptr_add_small by lia.
  pose proof (sum32_nonneg _ (mem_byte_list s ptr (Z.to_nat curr))) as Hn1.
  pose proof (sum32_nonneg _ (mem_byte_list s (ptr + curr) (Z.to_nat (len - curr)))) as Hn2.
  assert (Hsp := ones_sum_add_spec sum _ Hsum (norm32_word _ Hn1)).
  eapply wp_mono; [|apply IH; try lia; rewrite ?Hsp; try apply norm32_word].
  2: { unfold in_word in *. destruct (norm_spec M32 _ ltac:(done) Hn1) as [? _]. lia. }
  intros r s'' [-> Hp'']. split; [|by intros a; rewrite Hp'', Hs'].
  rewrite Hsp, (mem_bytes_ext _ _ _ _ Hs').
  replace (Z.to_nat len) with (Z.to_nat curr + Z.to_nat (len - curr))%nat by lia.
  rewrite mem_bytes_app, Z2Nat.id by lia.
  destruct Hc as (Hc1 & Hc2 & [Hc3|Hc3]).
  - replace (Z.to_nat (len - curr)) with 0%nat by lia.
    replace (mem_bytes (mem s) (ptr + curr) 0) with (@nil Z) by done.
    rewrite app_nil_r. cbn [be_words sumZ fold_right]. unfold in_word, M32 in *.
    rewrite norm_add_l, Z.add_0_r, norm_add_r by
      (lia || (destruct (norm_spec (2 ^ 32 - 1) _ ltac:(lia) Hn1); lia)). done.
  - rewrite be_words_app, sumZ_app by (rewrite length_mem_bytes, Hc3; done).
    unfold in_word, M32 in *.
    destruct (norm_spec (2 ^ 32 - 1) _ ltac:(lia) Hn1) as [? _].
    rewrite norm_add_l, <- Z.add_assoc, (Z.add_comm (norm _ _)), Z.add_assoc,
      norm_add_r by lia. f_equal. lia.
Qed.

End Memory.

(** ** The final fold *)

Lemma ones_sum_add_norm A b : 0 <= A -> in_word 32 b ->
  ones_sum_add (norm M32 A) b = norm M32 (A + b).
Proof.
  intros HA Hb. rewrite ones_sum_add_spec by (done || by apply norm32_word).
  apply norm_add_l; unfold in_word, M32 in *; lia.
Qed.

Lemma ones_sum_add_norm2 A B : 0 <= A -> 0 <= B ->
  ones_sum_add (norm M32 A) (norm M32 B) = norm M32 (A + B).
Proof.
  intros HA HB. rewrite ones_sum_add_norm by (done || by apply norm32_word).
  apply norm_add_r; unfold M32; lia.
Qed.

(** The complement of the folded sum, as returned by every checksum function. *)
Lemma csum_fold A : 0 <= A -> not16 (ones_sum_fold16 (norm M32 A)) = 0xFFFF - norm M16 A.
Proof.
  intros HA. rewrite ones_sum_fold16_spec by by apply norm32_word.
  rewrite norm16_norm32 by done.
  destruct (norm_spec M16 A) as [Hr _]; [done..|]. unfold not16, not32, wrap, M16 in *. divlia.
Qed.

Lemma sum16_words ws a : Forall (in_word 32) ws -> 0 <= a ->
  norm M16 (a + sumZ ws) = norm M16 (a + sum16 (bytes_of_words ws)).
Proof.
  intros Hw Ha. rewrite <- norm16_sum32 by (done || apply bytes_of_words_byte).
  by rewrite be_words_bytes.
Qed.

Lemma even_bytes_of_words ws : Nat.even (length (bytes_of_words ws)) = true.
Proof. rewrite length_bytes_of_words. apply Nat.even_spec. exists (2 * length ws)%nat. lia. Qed.

Lemma sumZ_word ws : Forall (in_word 32) ws -> 0 <= sumZ ws.
Proof. intros H. apply sumZ_nonneg. eapply Forall_impl; [done|]. intros x Hx. apply Hx. Qed.

(** Words then the bytes of memory after them, as one byte string. *)
Lemma rfc1071_words ws bs : Forall (in_word 32) ws -> Forall (in_word 8) bs ->
  0xFFFF - norm M16 (sumZ ws + sumZ (be_words bs)) = rfc1071 (bytes_of_words ws ++ bs).
Proof.
  intros Hw Hb. unfold rfc1071. f_equal. pose proof (sum16_nonneg bs Hb).
  rewrite norm16_sum32, Z.add_comm, sum16_words, Z.add_comm, <- sum16_app by
    (done || apply even_bytes_of_words || by apply sumZ_word). done.
Qed.

Section Headers.
Context {St : Type} (h : St -> event -> reply * St) (mem : St -> Z -> Z) `{!MemReads h mem}.

(** The bytes of the options in front of [pkt_ptr]. *)
Definition ip4_options (m : Z -> Z) (ip : list Z) (pkt_ptr : Z) : list Z :=
  let opt_size := Z.max 0 (ip4_hl ip - NET_IP4_LEN32) * 4 in
  mem_bytes m (pkt_ptr - opt_size) (Z.to_nat opt_size).

(** The header is five words in registers. *)
Lemma ip4_header_sum ip : length ip = 5%nat -> Forall (in_word 32) ip ->
  ones_sum_add (ones_sum_add (ones_sum_add (ones_sum_add (ones_sum_add 0
    (UINT32_REG ip 0)) (UINT32_REG ip 1)) (UINT32_REG ip 2)) (UINT32_REG ip 3)) (UINT32_REG ip 4)
  = norm M32 (sumZ ip).
Proof.
  intros Hlen Hw. destruct ip as [|w0 [|w1 [|w2 [|w3 [|w4 [|]]]]]]; try done.
  rewrite !Forall_cons in Hw. destruct Hw as (H0 & H1 & H2 & H3 & H4 & _).
  unfold UINT32_REG. cbn [nth sumZ fold_right]. change 0 with (norm M32 0) at 1.
  unfold in_word in *. rewrite !ones_sum_add_norm by (unfold in_word; lia).
  f_equal. lia.
Qed.

Lemma net_csum_ipv4_wp ip pkt_ptr s :
  length ip = 5%nat -> Forall (in_word 32) ip -> 40 <= pkt_ptr < 2 ^ 40 ->
  wp h (net_csum_ipv4 ip pkt_ptr)
    (fun r s' => r = rfc1071 (bytes_of_words ip ++ ip4_options (mem s) ip pkt_ptr) /\
                 forall a, mem s' a = mem s a) s.
Proof.
  intros Hlen Hw Hp. unfold net_csum_ipv4, __net_csum_ipv4.
  rewrite ip4_header_sum by done. unfold ip4_options, NET_IP4_LEN32. rewrite andb_true_l.
  pose proof (sumZ_word ip Hw) as Hn.
  assert (Hhl : 0 <= ip4_hl ip < 16) by apply (field_range 24 4 (UINT32_REG ip 0)), Z.leb_le, eq_refl.
  destruct (Z.ltb_spec 5 (ip4_hl ip)).
  - rewrite Z.max_r by lia. rewrite ptr_add_small by lia.
    apply (read_sum_wp h mem); [unfold in_word; lia|lia|done|].
    intros s' Hs'. pose proof (mem_byte_list h mem s (pkt_ptr - (ip4_hl ip - 5) * 4)
      (Z.to_nat ((ip4_hl ip - 5) * 4))) as Hb.
    pose proof (sum32_nonneg _ Hb).
    replace (pkt_ptr + - ((ip4_hl ip - 5) * 4)) with (pkt_ptr - (ip4_hl ip - 5) * 4) by lia.
    cbn [wp]. rewrite ones_sum_add_norm2, csum_fold by lia. split; [by apply rfc1071_words|done].
  - rewrite Z.max_l by lia. cbn [wp]. rewrite csum_fold by lia. split; [|done].
    rewrite <- rfc1071_words by (done || by constructor).
    unfold mem_bytes. cbn [Z.mul Z.to_nat seq map be_words].
    change (sumZ []) with 0. by rewrite Z.add_0_r.
Qed.
End Headers.

(** ** Verification and incremental update *)

(** A checksum verifies exactly when the ones-complement sum is all ones. *)
Lemma rfc1071_zero bs : Forall (in_word 8) bs ->
  rfc1071 bs = 0 <-> sum16 bs <> 0 /\ (sum16 bs) mod M16 = 0.
Proof.
  intros Hb. pose proof (sum16_nonneg bs Hb). unfold rfc1071.
  destruct (norm_spec M16 (sum16 bs)) as (Hr & Hz & k & E); [done..|].
  unfold M16 in *. split.
  - intros E0. split; [lia|]. rewrite E. replace (norm (2 ^ 16 - 1) (sum16 bs)) with 65535 by lia.
    divlia.
  - intros [Hnz Hm]. assert (Hne : norm (2 ^ 16 - 1) (sum16 bs) <> 0) by tauto.
    rewrite E, Z.mod_add in Hm by lia. divlia.
Qed.

(** A computed checksum verifies. *)
Lemma csum_verifies hdr1 hdr2 : Nat.even (length hdr1) = true ->
  Forall (in_word 8) hdr1 -> Forall (in_word 8) hdr2 ->
  let c := rfc1071 (hdr1 ++ [0; 0] ++ hdr2) in
  rfc1071 (hdr1 ++ [field 8 8 c; field 0 8 c] ++ hdr2) = 0.
Proof.
  intros He H1 H2 c. pose proof (sum16_nonneg _ H1). pose proof (sum16_nonneg _ H2).
  assert (E : sum16 (hdr1 ++ [0; 0] ++ hdr2) = sum16 hdr1 + sum16 hdr2).
  { rewrite sum16_app by done. cbn [app sum16]. lia. }
  destruct (norm_spec M16 (sum16 (hdr1 ++ [0; 0] ++ hdr2))) as (Hr & Hz & k & Ek); [done|lia|].
  assert (Hc : in_word 16 c /\ c = 0xFFFF - norm M16 (sum16 (hdr1 ++ [0; 0] ++ hdr2))).
  { unfold c, rfc1071, in_word, M16 in *. lia. }
  destruct Hc as [Hcw Ec].
  apply rfc1071_zero.
  { apply Forall_app; split; [done|]. apply Forall_app; split; [|done].
    repeat constructor; by apply field_range. }
  rewrite sum16_app by done. cbn [app sum16].
  assert (Ew : field 8 8 c * 2 ^ 8 + field 0 8 c = c).
  { rewrite !field_eq by lia. unfold in_word in Hcw. divlia. }
  rewrite Ew. rewrite E in *. unfold M16 in *. split; [lia|]. divlia.
Qed.

(** The bytes of a header before and after the checksum is set in it. *)
Lemma checksum_word w c : w mod 2 ^ 16 = 0 -> in_word 16 c ->
  be_bytes (w + c) = [field 24 8 w; field 16 8 w; field 8 8 c; field 0 8 c].
Proof.
  unfold in_word, be_bytes. intros Hw Hc. rewrite !field_eq by lia.
  f_equal; [divlia|]. f_equal; [divlia|]. f_equal; [divlia|]. f_equal; divlia.
Qed.

Section Ipv4.
Context {St : Type} (h : St -> event -> reply * St) (mem : St -> Z -> Z) `{!MemReads h mem}.

(** C27: The IPv4 header checksum of a header with its checksum field zero,
    options included, is the RFC 1071 checksum of its bytes; and the same function
    on the header with that checksum stored returns 0, so a receiver accepts it.
    *)
Theorem net_csum_ipv4_rfc1071 w0 w1 w2 w3 w4 pkt_ptr s :
  let ip c := [w0; w1; w2 + c; w3; w4] in
  Forall (in_word 32) (ip 0) -> w2 mod 2 ^ 16 = 0 -> 40 <= pkt_ptr < 2 ^ 40 ->
  wp h (net_csum_ipv4 (ip 0) pkt_ptr)
    (fun c s' => c = rfc1071 (bytes_of_words (ip 0) ++ ip4_options (mem s) (ip 0) pkt_ptr) /\
       wp h (net_csum_ipv4 (ip c) pkt_ptr) (fun r _ => r = 0) s') s.
Proof.
  intros ip Hip H2 Hp. eapply wp_mono; [|by apply (net_csum_ipv4_wp h mem)].
  intros c s' [Ec Hs']. split; [done|].
  set (opts := ip4_options (mem s) (ip 0) pkt_ptr) in *.
  assert (Hb : Forall (in_word 8) opts) by apply (mem_byte_list h mem).
  pose proof (bytes_of_words_byte (ip 0)) as Hbw.
  destruct (norm_spec M16 (sum16 (bytes_of_words (ip 0) ++ opts))) as (Hr & _);
    [done|apply sum16_nonneg, Forall_app; done|].
  assert (Hc : in_word 16 c) by (rewrite Ec; unfold rfc1071, in_word, M16 in *; lia).
  unfold ip in Hip. rewrite Z.add_0_r, !Forall_cons in Hip. destruct Hip as (I0 & I1 & I2 & I3 & I4 & _).
  eapply wp_mono; [|apply (net_csum_ipv4_wp h mem (ip c)); [done| |done]].
  2: { unfold ip. rewrite !Forall_cons. split_ands; try done. unfold in_word in *. divlia. }
  intros r s'' [-> _].
  assert (Eo : ip4_options (mem s') (ip c) pkt_ptr = opts).
  { unfold ip4_options, ip4_hl, UINT32_REG. cbn [nth ip]. by apply mem_bytes_ext. }
  rewrite Eo. set (h1 := be_bytes w0 ++ be_bytes w1 ++ [field 24 8 w2; field 16 8 w2]).
  set (h2 := be_bytes w3 ++ be_bytes w4 ++ opts).
  assert (Eb : forall x, in_word 16 x ->
    bytes_of_words (ip x) ++ opts = h1 ++ [field 8 8 x; field 0 8 x] ++ h2).
  { intros x Hx. unfold ip, bytes_of_words. cbn [map concat]. rewrite checksum_word by done.
    unfold h1, h2. by rewrite <- !app_assoc. }
  assert (E0 : c = rfc1071 (h1 ++ [0; 0] ++ h2)) by (rewrite Ec, Eb by done; done).
  rewrite Eb, E0 by done. apply csum_verifies; [done|..]; unfold h1, h2;
    repeat apply Forall_app_2; try done; repeat constructor; by apply field_range.
Qed.

End Ipv4.

(** The header of a TCP segment with one option word. *)
Lemma net_csum_ipv4_rfc1071_witness :
  let m a := if a =? 997 then 7 else 1 in
  let ip c := [0x46000030; 0x44224000; 0x80060000 + c; 0x8c7c19ac; 0xae241e2b] in
  wp (flat_mem m) (net_csum_ipv4 (ip 0) 1000)
    (fun c s' => c = rfc1071 (bytes_of_words (ip 0) ++ [1; 7; 1; 1]) /\
       wp (flat_mem m) (net_csum_ipv4 (ip c) 1000) (fun r _ => r = 0) s') tt.
Proof.
  intros m ip.
  assert (Hm : forall a, in_word 8 (m a)) by (intros a; unfold m; by destruct (a =? 997)).
  refine (@net_csum_ipv4_rfc1071 unit (flat_mem m) (fun _ => m) (flat_mem_reads m Hm)
    0x46000030 0x44224000 0x80060000 0x8c7c19ac 0xae241e2b 1000 tt _ _ _).
  - by repeat constructor.
  - reflexivity.
  - done.
Defined.

(** C36: The incremental update of a checksum for one changed 16-bit field agrees
    with recomputing the checksum from scratch, as in RFC 1624, for any sum of the
    other fields; a sum that becomes zero gives 0 in place of 0xFFFF. *)
Theorem net_csum_mod_rfc1624 S m m' :
  0 <= S -> in_word 16 m -> in_word 16 m' ->
  let orig_csum := 0xFFFF - norm M16 (S + m) in
  net_csum_mod orig_csum m m' =
  if S + m' =? 0 then 0 else 0xFFFF - norm M16 (S + m').
Proof.
  intros HS Hm Hm' c. unfold net_csum_mod.
  destruct (norm_spec M16 (S + m)) as (Hr & Hz & k & E); [done|unfold in_word in *; lia|].
  unfold M16, in_word in *.
  assert (Hnot : forall x, 0 <= x < 2 ^ 16 -> not32 x .& 0xFFFF = 65535 - x).
  { intros x Hx. change 0xFFFF with (Z.ones 16) at 1. rewrite Z.land_ones by lia. unfold not32. clear - Hx. divlia. }
  rewrite !Hnot by (unfold c; lia).
  unfold c, add32, wrap. rewrite (Z.mod_small (65535 - _ + (65535 - m))), Z.mod_small by lia.
  set (T := _ + _ + m').
  assert (ET : T = norm (2 ^ 16 - 1) (S + m) + 65535 - m + m') by (unfold T; lia).
  assert (HT : 0 < T) by lia.
  rewrite <- (norm_id M32 T) by (unfold M32; lia). rewrite csum_fold by lia. unfold M16.
  destruct (Z.eqb_spec (S + m') 0) as [Hz'|Hz'].
  - assert (T = 65535) as -> by (unfold T; lia). done.
  - f_equal. apply (norm_unique _ _ _ (1 - k)); lia.
Qed.

Lemma net_csum_mod_rfc1624_witness :
  0 <= 0x1ddf2 /\ net_csum_mod (0xFFFF - norm M16 (0x1ddf2 + 0x4000)) 0x4000 0x3f00 =
  0xFFFF - norm M16 (0x1ddf2 + 0x3f00).
Proof.
  split; [done|].
  exact (net_csum_mod_rfc1624 0x1ddf2 0x4000 0x3f00 ltac:(done) ltac:(done) ltac:(done)).
Defined.

(** ** TCP and UDP *)

Definition l4_hdr_words (protocol : Z) : nat := if protocol =? NET_IP_PROTO_TCP then 5 else 2.

(** The words the checksum covers before the payload: the pseudo header of RFC
    793 and 768 (RFC 8200 for IPv6), then the basic L4 header. *)
Definition l4_words (ip_type protocol : Z) (ip l4_hdr : list Z) (l4_len : Z) : list Z :=
  (if ip_type =? NET_ETH_TYPE_IPV6 then slice 0 ip 2 8 ++ [l4_len; protocol]
   else slice 0 ip 3 2 ++ [protocol * 2 ^ 16 + l4_len])
  ++ slice 0 l4_hdr 0 (l4_hdr_words protocol).

(** The payload: what follows the basic L4 header in the two buffers. *)
Definition l4_payload (m : Z -> Z) (hdr pkt_ctm ctm_len pkt_mem mem_len : Z) : list Z * list Z :=
  if 0 <? ctm_len then
    (mem_bytes m (pkt_ctm + hdr) (Z.to_nat (ctm_len - hdr)), mem_bytes m pkt_mem (Z.to_nat mem_len))
  else ([], mem_bytes m (pkt_mem + hdr) (Z.to_nat (mem_len - hdr))).

Lemma slice_word ws a n : Forall (in_word 32) ws -> Forall (in_word 32) (slice 0 ws a n).
Proof.
  intros H. apply List.Forall_forall. intros x Hx.
  apply in_map_iff in Hx as (i & <- & _). by apply nth_word.
Qed.

Lemma l4_words_word ip_type protocol ip l4_hdr l4_len :
  Forall (in_word 32) ip -> Forall (in_word 32) l4_hdr ->
  protocol = NET_IP_PROTO_TCP \/ protocol = NET_IP_PROTO_UDP ->
  in_word (if ip_type =? NET_ETH_TYPE_IPV6 then 32 else 16) l4_len ->
  Forall (in_word 32) (l4_words ip_type protocol ip l4_hdr l4_len).
Proof.
  intros Hi Hl Hp Hn. unfold l4_words, in_word in *.
  apply Forall_app; split; [|by apply slice_word].
  destruct (_ =? _); (apply Forall_app; split; [by apply slice_word|]);
    repeat constructor; destruct Hp as [-> | ->]; unfold NET_IP_PROTO_TCP, NET_IP_PROTO_UDP; lia.
Qed.

Lemma fold_ones_sum_add ws A : 0 <= A -> Forall (in_word 32) ws ->
  fold_left ones_sum_add ws (norm M32 A) = norm M32 (A + sumZ ws).
Proof.
  intros HA H. revert A HA. induction H as [|w ws Hw _ IH]; intros A HA; cbn [fold_left].
  - by rewrite Z.add_0_r.
  - change (sumZ (w :: ws)) with (w + sumZ ws).
    rewrite ones_sum_add_norm, IH by (done || (unfold in_word in *; lia)).
    by rewrite Z.add_assoc.
Qed.

Lemma shl_or_16 protocol l4_len : protocol = NET_IP_PROTO_TCP \/ protocol = NET_IP_PROTO_UDP ->
  in_word 16 l4_len -> shl32 protocol 16 .| l4_len = protocol * 2 ^ 16 + l4_len.
Proof.
  intros Hp Hl. unfold shl32. rewrite wrap_id, lor_shift_add; [done|lia|done|].
  by destruct Hp as [-> | ->].
Qed.

(** The words in the order the code adds them. *)
Definition pseudo_order (ip_type protocol : Z) (ip l4_hdr : list Z) (l4_len : Z) : list Z :=
  let v6 := ip_type =? NET_ETH_TYPE_IPV6 in
  map (UINT32_REG ip) ([3; 4] ++ (if v6 then [2; 5; 6; 7; 8; 9] else []))%nat
  ++ map (UINT32_REG l4_hdr) [0; 1]%nat
  ++ (if v6 then [protocol] else [])
  ++ map (UINT32_REG l4_hdr) (if protocol =? NET_IP_PROTO_TCP then [2; 3; 4]%nat else [])
  ++ [if v6 then l4_len else shl32 protocol 16 .| l4_len].

Lemma ones_sum_pseudo_fold ip_type protocol ip l4_hdr l4_len :
  protocol = NET_IP_PROTO_TCP \/ protocol = NET_IP_PROTO_UDP ->
  ones_sum_pseudo ip_type protocol ip l4_hdr l4_len =
  fold_left ones_sum_add (pseudo_order ip_type protocol ip l4_hdr l4_len) 0.
Proof.
  intros Hp. unfold ones_sum_pseudo, pseudo_order.
  destruct (ip_type =? NET_ETH_TYPE_IPV6), Hp as [-> | ->];
    cbn -[ones_sum_add shl32 UINT32_REG]; reflexivity.
Qed.

Lemma ones_sum_pseudo_spec ip_type protocol ip l4_hdr l4_len :
  Forall (in_word 32) ip -> Forall (in_word 32) l4_hdr ->
  protocol = NET_IP_PROTO_TCP \/ protocol = NET_IP_PROTO_UDP ->
  in_word (if ip_type =? NET_ETH_TYPE_IPV6 then 32 else 16) l4_len ->
  ones_sum_pseudo ip_type protocol ip l4_hdr l4_len =
  norm M32 (sumZ (l4_words ip_type protocol ip l4_hdr l4_len)).
Proof.
  intros Hi Hl Hp Hn.
  assert (Hw : forall i, in_word 32 (UINT32_REG ip i)) by (intros i; by apply nth_word).
  assert (Hv : forall i, in_word 32 (UINT32_REG l4_hdr i)) by (intros i; by apply nth_word).
  assert (Hpw : in_word 32 protocol) by (by destruct Hp as [-> | ->]).
  rewrite (ones_sum_pseudo_fold _ _ _ _ _ Hp). change 0 with (norm M32 0).
  rewrite fold_ones_sum_add; [|done|].
  - f_equal. unfold l4_words, l4_hdr_words, pseudo_order.
    destruct (ip_type =? NET_ETH_TYPE_IPV6), Hp as [-> | ->]; cbn -[shl32 Z.pow];
      unfold UINT32_REG; try lia;
      rewrite shl_or_16 by (first [done | left; reflexivity | right; reflexivity]); cbn; lia.
  - unfold pseudo_order. destruct (ip_type =? NET_ETH_TYPE_IPV6), Hp as [-> | ->]; cbn -[shl32 Z.pow];
      rewrite !Forall_cons, Forall_nil; split_ands; try done; try apply Hw; try apply Hv;
      rewrite shl_or_16 by (first [done | left; reflexivity | right; reflexivity]);
      unfold in_word, NET_IP_PROTO_TCP, NET_IP_PROTO_UDP in *; lia.
Qed.

(** What the callers of the L4 checksum must provide. *)
Record l4_args (ip_type protocol : Z) (ip l4_hdr : list Z)
    (pkt_ctm ctm_len pkt_mem mem_len : Z) : Prop := L4Args {
  la_proto : protocol = NET_IP_PROTO_TCP \/ protocol = NET_IP_PROTO_UDP;
  la_ip : Forall (in_word 32) ip;
  la_l4 : Forall (in_word 32) l4_hdr;
  la_ctm : 0 <= ctm_len /\ 0 <= pkt_ctm /\ pkt_ctm + ctm_len + 20 < 2 ^ 40;
  la_mem : 0 <= mem_len /\ 0 <= pkt_mem /\ pkt_mem + mem_len + 20 < 2 ^ 40;
  la_total : ctm_len + mem_len < (if ip_type =? NET_ETH_TYPE_IPV6 then 2 ^ 31 else 2 ^ 16);
  la_hdr : 4 * Z.of_nat (l4_hdr_words protocol) <= (if 0 <? ctm_len then ctm_len else mem_len) }.

(** The segment length the pseudo header carries. *)
Definition l4_length (protocol : Z) (l4_hdr : list Z) (ctm_len mem_len : Z) : Z :=
  if protocol =? NET_IP_PROTO_UDP then udp_len l4_hdr else ctm_len + mem_len.

Section L4.
Context {St : Type} (h : St -> event -> reply * St) (mem : St -> Z -> Z) `{!MemReads h mem}.

Lemma ones_sum_mem_wp ptr len s :
  0 <= ptr -> 0 <= len -> ptr + len < 2 ^ 40 ->
  wp h (ones_sum_mem ptr len)
    (fun r s' => r = norm M32 (sumZ (be_words (mem_bytes (mem s) ptr (Z.to_nat len)))) /\
                 forall a, mem s' a = mem s a) s.
Proof. intros. by apply (ones_sum_mem_loop_wp h mem (Z.to_nat len) ptr len 0). Qed.

(** Both buffers summed after the headers. *)
Lemma l4_sum_wp A p1 n1 p2 n2 s :
  0 <= A -> 0 <= p1 -> 0 <= n1 -> p1 + n1 < 2 ^ 40 -> 0 <= p2 -> 0 <= n2 -> p2 + n2 < 2 ^ 40 ->
  wp h (s1 ← ones_sum_mem p1 n1;
        s2 ← ones_sum_mem p2 n2;
        Ret (not16 (ones_sum_fold16 (ones_sum_add (ones_sum_add (norm M32 A) s1) s2))))
    (fun r _ => r = 0xFFFF - norm M16 (A + sumZ (be_words (mem_bytes (mem s) p1 (Z.to_nat n1)))
                                         + sumZ (be_words (mem_bytes (mem s) p2 (Z.to_nat n2))))) s.
Proof.
  intros HA Hp1 Hn1 He1 Hp2 Hn2 He2. unfold mbind, prog_bind.
  pose proof (sum32_nonneg _ (mem_byte_list h mem s p1 (Z.to_nat n1))).
  pose proof (sum32_nonneg _ (mem_byte_list h mem s p2 (Z.to_nat n2))).
  apply wp_bind. eapply wp_mono; [|by apply ones_sum_mem_wp]. intros s1 s' [-> Hs'].
  apply wp_bind. eapply wp_mono; [|by apply ones_sum_mem_wp]. intros s2 s'' [-> _].
  cbn [wp]. rewrite (mem_bytes_ext _ _ _ _ Hs'), !ones_sum_add_norm2, csum_fold by lia. done.
Qed.

Lemma s32_small x : 0 <= x < 2 ^ 31 -> s32 x = x.
Proof. intros Hx. unfold s32. destruct (Z.ltb_spec x (2 ^ 31)); lia. Qed.

(** The header words [ws], then the two payload buffers, the first of them even. *)
Lemma l4_payload_rfc ws b1 b2 : Forall (in_word 32) ws -> Forall (in_word 8) b1 ->
  Forall (in_word 8) b2 -> Nat.even (length b1) = true ->
  0xFFFF - norm M16 (sumZ ws + sumZ (be_words b1) + sumZ (be_words b2)) =
  rfc1071 (bytes_of_words ws ++ b1 ++ b2).
Proof.
  intros Hws Hb1 Hb2 He. pose proof (sumZ_word _ Hws).
  pose proof (sum16_nonneg _ Hb1). pose proof (sum16_nonneg _ Hb2). pose proof (sum32_nonneg _ Hb1).
  unfold rfc1071. rewrite !sum16_app by (done || apply even_bytes_of_words).
  rewrite norm16_sum32 by (done || lia).
  replace (sumZ ws + sumZ (be_words b1) + sum16 b2) with (sumZ ws + sum16 b2 + sumZ (be_words b1)) by lia.
  rewrite norm16_sum32 by (done || lia).
  replace (sumZ ws + sum16 b2 + sum16 b1) with (sum16 b1 + sum16 b2 + sumZ ws) by lia.
  rewrite (sum16_words _ _ Hws) by lia. f_equal. f_equal. lia.
Qed.

Lemma l4_tail_wp ws p1 n1 p2 n2 s : Forall (in_word 32) ws ->
  0 <= p1 -> 0 <= n1 -> p1 + n1 < 2 ^ 40 -> 0 <= p2 -> 0 <= n2 -> p2 + n2 < 2 ^ 40 ->
  n1 + n2 < 2 ^ 31 -> Z.even n1 = true ->
  wp h (if 0 <? add32 n1 n2 then
          s1 ← ones_sum_mem p1 (s32 n1); s2 ← ones_sum_mem p2 (s32 n2);
          Ret (not16 (ones_sum_fold16 (ones_sum_add (ones_sum_add (norm M32 (sumZ ws)) s1) s2)))
        else Ret (not16 (ones_sum_fold16 (norm M32 (sumZ ws)))))
    (fun r _ => r = rfc1071 (bytes_of_words ws ++
       mem_bytes (mem s) p1 (Z.to_nat n1) ++ mem_bytes (mem s) p2 (Z.to_nat n2))) s.
Proof.
  intros Hws Hp1 Hn1 He1 Hp2 Hn2 He2 Hlt Hev1. pose proof (sumZ_word _ Hws) as HA.
  rewrite <- l4_payload_rfc; try done; try apply (mem_byte_list h mem).
  2: { rewrite length_mem_bytes. apply Z.even_spec in Hev1 as [k ->].
       apply Nat.even_spec. exists (Z.to_nat k). lia. }
  unfold add32. rewrite wrap_id, !s32_small by (unfold in_word; lia).
  destruct (Z.ltb_spec 0 (n1 + n2)).
  - by apply l4_sum_wp.
  - assert (n1 = 0 /\ n2 = 0) as [-> ->] by lia. cbn [wp]. rewrite csum_fold by done.
    change (mem_bytes (mem s) p1 (Z.to_nat 0)) with (@nil Z).
    change (mem_bytes (mem s) p2 (Z.to_nat 0)) with (@nil Z). cbn [be_words].
    change (sumZ []) with 0. by rewrite !Z.add_0_r.
Qed.

(** C1: The TCP or UDP checksum the code computes over IPv4 or IPv6, with the
    segment in one or two buffers of any length the first of which is even, is the
    RFC 1071 checksum of the pseudo header, the basic L4 header and the payload
    bytes read from memory; in particular the run always finishes (the unrolled
    carry chain loses no carry, and the 64-byte loop ends). *)
Theorem net_csum_l4_ip_rfc ip_type protocol ip l4_hdr pkt_ctm ctm_len pkt_mem mem_len s :
  l4_args ip_type protocol ip l4_hdr pkt_ctm ctm_len pkt_mem mem_len ->
  Z.even ctm_len = true ->
  let hdr := 4 * Z.of_nat (l4_hdr_words protocol) in
  let '(ctm, rest) := l4_payload (mem s) hdr pkt_ctm ctm_len pkt_mem mem_len in
  wp h (net_csum_l4_ip ip_type protocol ip l4_hdr pkt_ctm ctm_len pkt_mem mem_len)
    (fun r _ => r = rfc1071 (bytes_of_words (l4_words ip_type protocol ip l4_hdr
                               (l4_length protocol l4_hdr ctm_len mem_len)) ++ ctm ++ rest)) s.
Proof.
  intros [Hp Hi Hl Hc Hm Ht Hh] Hev hdr. unfold l4_payload, net_csum_l4_ip.
  assert (Htot : ctm_len + mem_len < 2 ^ 31) by (destruct (ip_type =? _); lia).
  assert (Ehdr : (if protocol =? NET_IP_PROTO_UDP then sizeof_udp_hdr else sizeof_tcp_hdr) = hdr)
    by (by unfold hdr; destruct Hp as [-> | ->]).
  assert (Hhdr : hdr = 8 \/ hdr = 20) by (unfold hdr; destruct Hp as [-> | ->]; [by right|by left]).
  assert (Elen : (if protocol =? NET_IP_PROTO_UDP then udp_len l4_hdr else add32 ctm_len mem_len)
                 = l4_length protocol l4_hdr ctm_len mem_len).
  { unfold l4_length, add32. by rewrite (wrap_id 32 (ctm_len + mem_len)) by (unfold in_word; lia). }
  rewrite Elen, Ehdr. set (n := l4_length protocol l4_hdr ctm_len mem_len).
  assert (Hn : in_word (if ip_type =? NET_ETH_TYPE_IPV6 then 32 else 16) n).
  { unfold n, l4_length. destruct (protocol =? NET_IP_PROTO_UDP).
    - apply (in_word_mono 16); [by destruct (_ =? _)|by apply field_range].
    - unfold in_word. destruct (ip_type =? _); lia. }
  pose proof (l4_words_word ip_type protocol ip l4_hdr n Hi Hl Hp Hn) as Hws.
  rewrite ones_sum_pseudo_spec by done.
  destruct (Z.ltb_spec 0 ctm_len) as [H0|H0].
  - rewrite ptr_add_small by lia. unfold sub32. rewrite wrap_id by (unfold in_word; lia).
    apply l4_tail_wp; try done; try lia. rewrite Z.even_sub, Hev. by destruct Hhdr as [-> | ->].
  - assert (ctm_len = 0) as -> by lia.
    rewrite ptr_add_small by lia. unfold sub32. rewrite wrap_id by (unfold in_word; lia).
    apply (l4_tail_wp _ pkt_ctm 0 (pkt_mem + hdr) (mem_len - hdr)); done || lia.
Qed.

End L4.

(** A UDP datagram of ten bytes, two of them payload in the second buffer. *)
Lemma net_csum_l4_ip_rfc_witness :
  let m a := if a =? 200 then 0xab else if a =? 201 then 0xcd else 0 in
  let ip := [0x4500001e; 0; 0x00110000; 0x0a000001; 0x0a000002] in
  let udp := [0x04d2162e; 0x000a0000] in
  wp (flat_mem m) (net_csum_l4_ip NET_ETH_TYPE_IPV4 NET_IP_PROTO_UDP ip udp 100 8 200 2)
    (fun r _ => r = rfc1071 (bytes_of_words [0x0a000001; 0x0a000002; 0x0011000a;
                               0x04d2162e; 0x000a0000] ++ [0xab; 0xcd])) tt.
Proof.
  intros m ip udp.
  assert (Hm : forall a, in_word 8 (m a)).
  { intros a. unfold m. destruct (a =? 200); [done|]. by destruct (a =? 201). }
  refine (@net_csum_l4_ip_rfc unit (flat_mem m) (fun _ => m) (flat_mem_reads m Hm)
    NET_ETH_TYPE_IPV4 NET_IP_PROTO_UDP ip udp 100 8 200 2 tt _ _).
  - split.
    + by right.
    + by repeat constructor.
    + by repeat constructor.
    + split; [|split]; (apply Z.leb_le || apply Z.ltb_lt); reflexivity.
    + split; [|split]; (apply Z.leb_le || apply Z.ltb_lt); reflexivity.
    + reflexivity.
    + apply Z.leb_le. reflexivity.
  - reflexivity.
Defined.

(** The checksum sums the two buffers separately, so an odd number of bytes in the
    first shifts the second by a byte: a segment split after an odd byte gets a
    checksum that is not that of the segment. *)
Theorem net_csum_l4_ip_odd :
  let m a := if a =? 108 then 1 else if a =? 200 then 2 else 0 in
  let ip := [0x4500001e; 0; 0x00110000; 0x0a000001; 0x0a000002] in
  let udp := [0x04d2162e; 0x000a0000] in
  exists r, o_res (exec (flat_mem m) (net_csum_ipv4_udp ip udp 100 9 200 1) tt) = inl r /\
    r <> rfc1071 (bytes_of_words (l4_words NET_ETH_TYPE_IPV4 NET_IP_PROTO_UDP ip udp 10) ++ [1; 2]).
Proof. eexists. split; [vm_compute; reflexivity|]. by vm_compute. Qed.

End Csum.
