(* ===== verification/Hash.v ===== *)
(** lib/std/_c/hash.c: CRC, CLS and Toeplitz hashes. *)
From Stdlib Require Import ZArith Lia List String.
From stdpp Require Import base list numbers option strings.
From S2P Require Import Prelude Me RegUtils Cls.
#[local] Open Scope Z_scope.

Module Hash.

(** ** CRC *)

(** The indices EXEC_MACRO runs on, in order; the table is that of reg_utils.c. *)
Definition HASH_SWITCH_CASE (n : Z) : list nat :=
  match n with
  | 4 => [0]%nat
  | 8 => [0; 1]%nat
  | 12 => [0; 1; 2]%nat
  | 16 => [0; 1; 2; 3]%nat
  | 20 => [0; 1; 2; 3; 4]%nat
  | 24 => [0; 1; 2; 3; 4; 5]%nat
  | 28 => [0; 1; 2; 3; 4; 5; 6]%nat
  | 32 => [0; 1; 2; 3; 4; 5; 6; 7]%nat
  | 36 => [0; 1; 2; 3; 4; 5; 6; 7; 8]%nat
  | 40 => [0; 1; 2; 3; 4; 5; 6; 7; 8; 9]%nat
  | 44 => [0; 1; 2; 3; 4; 5; 6; 7; 8; 9; 10]%nat
  | 48 => [0; 1; 2; 3; 4; 5; 6; 7; 8; 9; 10; 11]%nat
  | 52 => [0; 1; 2; 3; 4; 5; 6; 7; 8; 9; 10; 11; 12]%nat
  | 56 => [0; 1; 2; 3; 4; 5; 6; 7; 8; 9; 10; 11; 12; 13]%nat
  | 60 => [0; 1; 2; 3; 4; 5; 6; 7; 8; 9; 10; 11; 12; 13; 14]%nat
  | 64 => [0; 1; 2; 3; 4; 5; 6; 7; 8; 9; 10; 11; 12; 13; 14; 15]%nat
  | _ => []
  end.

(** Run [f] on each index, dropping its results. *)
Fixpoint exec_macro (f : nat -> prog Z) (xs : list nat) : prog unit :=
  match xs with
  | [] => Ret tt
  | x :: xs' => _ ← f x; exec_macro f xs'
  end.

(** [s] is a region of registers or local memory; its two placements run the same
    instructions. *)
Definition hash_me_crc32 (s : list Z) (n : carg) (init : Z) : prog Z :=
  _ ← ctassert (is_ct n);
  _ ← ctassert (cval n <=? 64);
  _ ← ctassert (cval n mod 4 =? 0);
  _ ← MeC.crc_write init;
  _ ← exec_macro (fun x => MeC.crc_32_be (nth x s 0) crc_bytes_0_3) (HASH_SWITCH_CASE (cval n));
  MeC.crc_read.

Definition hash_me_crc32c (s : list Z) (n : carg) (init : Z) : prog Z :=
  _ ← ctassert (is_ct n);
  _ ← ctassert (cval n <=? 64);
  _ ← ctassert (cval n mod 4 =? 0);
  _ ← MeC.crc_write init;
  _ ← exec_macro (fun x => MeC.crc_iscsi_be (nth x s 0) crc_bytes_0_3) (HASH_SWITCH_CASE (cval n));
  MeC.crc_read.

(** ** CLS hash *)

Definition CLS_HASH_MASK_HALF : Z := 64.

(** nfp6000/nfp_cls.h *)
Definition NFP_CLS_HASH_MULT : Z := 0x40000.
Definition HASH_MULT_VAL : Z := (1 ≪ 0) .| (1 ≪ 1) .| (1 ≪ 2) .| (1 ≪ 3).
Definition NFP_CLS_HASH_IDX64 (x : Z) : Z := 0x40800 + x * 0x8.

(** Eight 64-bit words of ones. *)
Definition hashmask : list Z := replicate 16 0xffffffff.

Definition cls_hash_init (mask : Z) (size : carg) : prog unit :=
  _ ← try_ctassert (is_ct size) (cval size <=? 128);
  _ ← (if cval size <=? CLS_HASH_MASK_HALF then Cls.cls_write hashmask mask size
       else
         _ ← Cls.cls_write hashmask mask (ct CLS_HASH_MASK_HALF);
         Cls.cls_write hashmask (mask + CLS_HASH_MASK_HALF)
                       (CArg (cval size - CLS_HASH_MASK_HALF) (is_ct size)));
  Cls.cls_write [HASH_MULT_VAL] NFP_CLS_HASH_MULT (ct 4).

Definition cls_hash (key : list Z) (mask : Z) (size : carg) (idx : Z) : prog (list Z) :=
  _ ← Cls.cls_hash_mask_clr key mask size idx;
  Cls.cls_read (NFP_CLS_HASH_IDX64 idx) (ct 8).

(** ** Toeplitz *)

(** The registers of the block: the input bits left, the result, the key window. *)
Record tstate := TState { bit_val : Z; result : Z; sk0 : Z; sk1 : Z }.

(** [bpl] skips the XOR when bit 31 of the last ALU result, [bit_val], is clear. *)
Definition xor_if_negative (t : tstate) : tstate :=
  if Z.testbit (bit_val t) 31
  then TState (bit_val t) (result t .^ sk0 t) (sk0 t) (sk1 t) else t.

(** [dbl_shf[*sk0, *sk0, *sk1, >> 31]; alu_shf[*sk1, --, B, *sk1, << 1]] *)
Definition shift_key (t : tstate) : tstate :=
  TState (bit_val t) (result t) (u32 (((sk0 t ≪ 32) .| sk1 t) ≫ 31)) (shl32 (sk1 t) 1).

(** [alu_shf[bit_val, --, B, bit_val, << 1]] *)
Definition shift_input (t : tstate) : tstate :=
  TState (shl32 (bit_val t) 1) (result t) (sk0 t) (sk1 t).

(** Two bits a round, until [iter] goes negative. *)
Fixpoint do_repeat_loop (fuel : nat) (iter : Z) (t : tstate) : option tstate :=
  match fuel with
  | O => None
  | S fuel' =>
      let t := shift_key (xor_if_negative (shift_input t)) in
      let t := xor_if_negative (shift_input t) in
      let iter := iter - 1 in
      let t := shift_key t in
      if 0 <=? iter then do_repeat_loop fuel' iter t else Some t
  end.

(** Returns the result and the two key words the pointers now hold. *)
Definition hash_toeplitz_block (input prev_result k0 k1 : Z) : option (Z * Z * Z) :=
  let t := TState input prev_result k0 k1 in
  let t := shift_key (xor_if_negative t) in
  t ← do_repeat_loop 15 14 t;
  let t := shift_key (xor_if_negative (shift_input t)) in
  Some (result t, sk0 t, sk1 t).

(** [dst[1] = src[2]; ...; dst[n] = src[n + 1]] on the same array, for [n] in
    1..8, and nothing for the other values. *)
Definition hash_toeplitz_copy (s : list Z) (n : Z) : list Z :=
  if (1 <=? n) && (n <=? 8)
  then fold_left (fun s i => <[i := nth (S i) s 0]> s) (seq 1 (Z.to_nat n)) s
  else s.

(** One block on the first two words of the key copy. *)
Definition toeplitz_step (input res : Z) (sk : list Z) : option (Z * list Z) :=
  '(r, k0, k1) ← hash_toeplitz_block input res (nth 0 sk 0) (nth 1 sk 0);
  Some (r, <[0%nat := k0]> (<[1%nat := k1]> sk)).

Definition HASH_TOEPLITZ_SECRET_KEY_SZ : Z := 40.

(** The blocks of [hash_toeplitz] and the key advances between them, over the step
    of one block; [t] is the input region, [sk] the copy of the key. *)
Definition toeplitz_blocks_with (step : Z -> Z -> list Z -> option (Z * list Z))
    (t : list Z) (n : Z) (sk : list Z) : option Z :=
  let num_words := n ≫ 2 in
  let w i := nth i t 0 in
  '(r, sk) ← step (w 0%nat) 0 sk;
  let sk := hash_toeplitz_copy sk (num_words - 1) in
  '(r, sk) ← step (w 1%nat) r sk;
  if n =? 8 then Some r else
  let sk := hash_toeplitz_copy sk (num_words - 2) in
  '(r, sk) ← step (w 2%nat) r sk;
  if n =? 12 then Some r else
  let sk := hash_toeplitz_copy sk (num_words - 3) in
  '(r, sk) ← step (w 3%nat) r sk;
  let sk := hash_toeplitz_copy sk (num_words - 4) in
  '(r, sk) ← step (w 4%nat) r sk;
  let sk := hash_toeplitz_copy sk (num_words - 5) in
  '(r, sk) ← step (w 5%nat) r sk;
  let sk := hash_toeplitz_copy sk (num_words - 6) in
  '(r, sk) ← step (w 6%nat) r sk;
  let sk := hash_toeplitz_copy sk (num_words - 7) in
  '(r, sk) ← step (w 7%nat) r sk;
  if n =? 32 then Some r else
  let sk := hash_toeplitz_copy sk (num_words - 8) in
  '(r, sk) ← step (w 8%nat) r sk;
  Some r.

Definition toeplitz_blocks : list Z -> Z -> list Z -> option Z :=
  toeplitz_blocks_with toeplitz_step.

Definition hash_toeplitz (current_ctx : Z) (s : list Z) (n : carg) (k : list Z) (nk : carg) : prog Z :=
  _ ← try_ctassert (is_ct n)
        ((cval n =? 8) || (cval n =? 12) || (cval n =? 32) || (cval n =? 36));
  _ ← ctassert (is_ct nk);
  _ ← ctassert (cval nk =? HASH_TOEPLITZ_SECRET_KEY_SZ);
  let sk := slice 0 k 0 10 in
  _ ← local_csr_write local_csr_csr_ctx_pointer current_ctx;
  match toeplitz_blocks s (cval n) sk with
  | Some r => Ret r
  | None => Stop Fuel
  end.

(** The verification vectors of the RSS specification. *)
Definition rss_key : list Z :=
  [0x6d5a56da; 0x255b0ec2; 0x4167253d; 0x43a38fb0; 0xd0ca2bcb;
   0xae7b30b4; 0x77cb2da3; 0x8030f20c; 0x6a42b73b; 0xbeac01fa].

Example rss_ipv4 :
  toeplitz_blocks [0x420995bb; 0xa18e6450] 8 rss_key = Some 0x323e8fc2.
Proof. vm_compute. reflexivity. Qed.

Example rss_ipv4_tcp :
  toeplitz_blocks [0x420995bb; 0xa18e6450; 0x0aea06e6] 12 rss_key = Some 0x51ccc178.
Proof. vm_compute. reflexivity. Qed.

(** ** The Toeplitz specification *)

(** The exclusive-or of [f 0 .. f (n - 1)]. *)
Fixpoint xorsum (f : nat -> bool) (n : nat) : bool :=
  match n with O => false | S n' => xorb (xorsum f n') (f n') end.

(** Bit [i] of a string of 32-bit words, from the most significant bit of the
    first word on. *)
Definition bit_at (ws : list Z) (i : nat) : bool :=
  Z.testbit (nth (i / 32) ws 0) (31 - Z.of_nat (i mod 32)).

(** Bit [b] of the hash: the product over GF(2) of the input with the diagonal of
    the key that starts at [b]. *)
Definition toeplitz_bit (t k : list Z) (nbits b : nat) : bool :=
  xorsum (fun i => bit_at t i && bit_at k (i + b)) nbits.

Lemma xorsum_add f n m : xorsum f (n + m) = xorb (xorsum f n) (xorsum (fun i => f (n + i)%nat) m).
Proof.
  induction m as [|m IH]; [by rewrite Nat.add_0_r; destruct (xorsum f n)|].
  rewrite Nat.add_succ_r. cbn. by rewrite IH, xorb_assoc.
Qed.

Lemma xorsum_ext f g n : (forall i, (i < n)%nat -> f i = g i) -> xorsum f n = xorsum g n.
Proof.
  induction n as [|n IH]; [done|]. intros H. cbn.
  rewrite IH by (intros i Hi; apply H; lia). by rewrite H by lia.
Qed.

(** ** One block *)

(** One bit: the XOR, the key shift, then the input shift. *)
Definition step (t : tstate) : tstate := shift_input (shift_key (xor_if_negative t)).

(** One bit in the loop's order: the input shift comes first. *)
Definition loop_bit (t : tstate) : tstate := shift_key (xor_if_negative (shift_input t)).

Lemma do_repeat_loop_iter n t :
  do_repeat_loop (S n) (Z.of_nat n) t = Some (Nat.iter (2 * S n) loop_bit t).
Proof.
  revert t. induction n as [|n IH]; intros t; [done|].
  change (do_repeat_loop (S (S n)) (Z.of_nat (S n)) t) with
    (if 0 <=? Z.of_nat (S n) - 1
     then do_repeat_loop (S n) (Z.of_nat (S n) - 1) (loop_bit (loop_bit t))
     else Some (loop_bit (loop_bit t))).
  replace (Z.of_nat (S n) - 1) with (Z.of_nat n) by lia.
  destruct (Z.leb_spec 0 (Z.of_nat n)); [|lia]. rewrite IH. f_equal.
  replace (2 * S (S n))%nat with (S (S (2 * S n))) by lia.
  by rewrite !Nat.iter_succ_r.
Qed.

Lemma shift_input_iter n t :
  shift_input (Nat.iter n loop_bit (shift_key (xor_if_negative t))) = Nat.iter (S n) step t.
Proof.
  induction n as [|n IH]; [done|].
  change (Nat.iter (S (S n)) step t) with (step (Nat.iter (S n) step t)). by rewrite <- IH.
Qed.

Lemma block_iter input res k0 k1 :
  hash_toeplitz_block input res k0 k1 =
  let t := Nat.iter 32 step (TState input res k0 k1) in Some (result t, sk0 t, sk1 t).
Proof.
  assert (E : forall t, do_repeat_loop 15 14 t = Some (Nat.iter 30 loop_bit t)).
  { intros t. rewrite (do_repeat_loop_iter 14). f_equal. }
  unfold hash_toeplitz_block. rewrite E, <- (shift_input_iter 31), (Nat.iter_succ 30).
  generalize (Nat.iter 30 loop_bit (shift_key (xor_if_negative (TState input res k0 k1)))).
  intros t. cbn [mbind option_bind]. fold (loop_bit t).
  generalize (loop_bit t). by intros [].
Qed.

(** Bit [m] of the 64-bit window of the two key words. *)
Definition window_bit (k0 k1 : Z) (m : nat) : bool :=
  Z.testbit ((k0 ≪ 32) .| k1) (63 - Z.of_nat m).

(** The state after [j] bits. *)
Record block_inv (input res k0 k1 : Z) (j : nat) (t : tstate) : Prop := BlockInv {
  bi_input : bit_val t = u32 (input ≪ Z.of_nat j);
  bi_sk0 : sk0 t = u32 (((k0 ≪ 32) .| k1) ≫ (32 - Z.of_nat j));
  bi_sk1 : sk1 t = u32 (k1 ≪ Z.of_nat j);
  bi_word : in_word 32 (result t);
  bi_result : forall b, (b < 32)%nat ->
    Z.testbit (result t) (31 - Z.of_nat b) =
    xorb (Z.testbit res (31 - Z.of_nat b))
         (xorsum (fun i => Z.testbit input (31 - Z.of_nat i) && window_bit k0 k1 (i + b)) j) }.

Lemma block_inv_step input res k0 k1 j t : in_word 32 k0 -> in_word 32 k1 -> (j < 32)%nat ->
  block_inv input res k0 k1 j t -> block_inv input res k0 k1 (S j) (step t).
Proof.
  intros Hk0 Hk1 Hj [Hi H0 H1 Hw Hr].
  assert (Hmsb : Z.testbit (bit_val t) 31 = Z.testbit input (31 - Z.of_nat j)).
  { rewrite Hi, testbit_wrap, testbit_shiftl by lia. bits_cases. }
  assert (Hsk0 : forall b, (b < 32)%nat -> Z.testbit (sk0 t) (31 - Z.of_nat b) = window_bit k0 k1 (j + b)).
  { intros b Hb. rewrite H0, testbit_wrap, testbit_shiftr by lia. unfold window_bit.
    bits_cases; same_bit. }
  assert (Hres : result (step t) = if Z.testbit (bit_val t) 31 then result t .^ sk0 t else result t).
  { unfold step, xor_if_negative. by destruct (Z.testbit (bit_val t) 31). }
  assert (Hb : bit_val (step t) = shl32 (bit_val t) 1 /\
    sk0 (step t) = u32 (((sk0 t ≪ 32) .| sk1 t) ≫ 31) /\ sk1 (step t) = shl32 (sk1 t) 1).
  { unfold step, xor_if_negative. by destruct (Z.testbit (bit_val t) 31). }
  destruct Hb as (Eb & E0 & E1). split.
  - rewrite Eb, Hi. unfold shl32. bitwise_as i. bits_cases; same_bit.
  - rewrite E0, H0, H1. bitwise_as i. bits_cases; first [same_bit | rewrite ?orb_false_l; same_bit].
  - rewrite E1, H1. unfold shl32. bitwise_as i. bits_cases; same_bit.
  - rewrite Hres. destruct (Z.testbit (bit_val t) 31); [|done].
    apply in_word_lxor; [lia|done|]. rewrite H0. by apply wrap_range.
  - intros b Hlt. rewrite Hres, Hmsb. cbn [xorsum].
    destruct (Z.testbit input (31 - Z.of_nat j)); cbn [andb].
    + by rewrite Z.lxor_spec, Hr, Hsk0, xorb_assoc by done.
    + by rewrite Hr, xorb_false_r by done.
Qed.

Lemma block_inv_iter input res k0 k1 j :
  in_word 32 input -> in_word 32 res -> in_word 32 k0 -> in_word 32 k1 -> (j <= 32)%nat ->
  block_inv input res k0 k1 j (Nat.iter j step (TState input res k0 k1)).
Proof.
  intros Hi Hr H0 H1. induction j as [|j IH]; intros Hj.
  - split; cbn [Nat.iter bit_val sk0 sk1 result xorsum].
    + by rewrite Z.shiftl_0_r, wrap_id.
    + bitwise_as i. bits_cases.
      * rewrite (testbit_high 32 k1) by (done || lia). rewrite orb_false_r. f_equal. lia.
      * by apply (testbit_high 32 k0).
    + by rewrite Z.shiftl_0_r, wrap_id.
    + done.
    + intros b Hb. by rewrite xorb_false_r.
  - change (Nat.iter (S j) step (TState input res k0 k1))
      with (step (Nat.iter j step (TState input res k0 k1))).
    apply block_inv_step; [done|done|lia|]. apply IH. lia.
Qed.

(** A block absorbs one word and leaves the key advanced by one word. *)
Lemma hash_toeplitz_block_spec input res k0 k1 :
  in_word 32 input -> in_word 32 res -> in_word 32 k0 -> in_word 32 k1 ->
  exists r, hash_toeplitz_block input res k0 k1 = Some (r, k1, 0) /\ in_word 32 r /\
    forall b, (b < 32)%nat -> Z.testbit r (31 - Z.of_nat b) =
      xorb (Z.testbit res (31 - Z.of_nat b))
           (xorsum (fun i => Z.testbit input (31 - Z.of_nat i) && window_bit k0 k1 (i + b)) 32).
Proof.
  intros Hi Hr H0 H1. rewrite block_iter.
  destruct (block_inv_iter input res k0 k1 32) as [_ E0 E1 Hw Hb]; try done.
  cbv zeta. rewrite E0, E1. eexists. split; [|split; [exact Hw|exact Hb]].
  f_equal. f_equal; [f_equal|].
  - change (32 - Z.of_nat 32) with 0. rewrite Z.shiftr_0_r. bitwise_as i. bits_cases.
    by rewrite (testbit_high 32 k1) by (done || lia).
  - change (Z.of_nat 32) with 32. bitwise_as i. bits_cases.
Qed.

(** ** The whole hash *)

(** After [q] words the result is the Toeplitz product of the first [32 q] bits. *)
Definition absorbed (t k : list Z) (q : nat) (r : Z) : Prop :=
  in_word 32 r /\
  forall b, (b < 32)%nat -> Z.testbit r (31 - Z.of_nat b) = toeplitz_bit t k (32 * q) b.

Lemma bit_at_word ws q i : (i < 32)%nat ->
  bit_at ws (32 * q + i) = Z.testbit (nth q ws 0) (31 - Z.of_nat i).
Proof.
  intros Hi. unfold bit_at. rewrite Nat.mul_comm.
  rewrite Nat.div_add_l, (Nat.div_small i), Nat.add_0_r by lia.
  rewrite Nat.add_comm, Nat.Div0.mod_add, Nat.mod_small by lia. done.
Qed.

Lemma bit_at_window ks q m : Forall (in_word 32) ks -> (m < 64)%nat ->
  bit_at ks (32 * q + m) = window_bit (nth q ks 0) (nth (S q) ks 0) m.
Proof.
  intros Hk Hm. pose proof (nth_word 32 ks (S q) ltac:(lia) Hk) as H1.
  unfold window_bit. rewrite Z.lor_spec, testbit_shiftl by lia.
  destruct (decide (m < 32)%nat).
  - rewrite bit_at_word by done. destruct (Z.leb_spec 32 (63 - Z.of_nat m)); [|lia].
    rewrite (testbit_high 32 (nth (S q) ks 0)) by (done || lia).
    rewrite orb_false_r. cbn [andb]. f_equal. lia.
  - replace (32 * q + m)%nat with (32 * S q + (m - 32))%nat by lia.
    rewrite bit_at_word by lia. destruct (Z.leb_spec 32 (63 - Z.of_nat m)); [lia|].
    cbn [andb orb]. f_equal. lia.
Qed.

Lemma absorb_word t k q r : Forall (in_word 32) t -> Forall (in_word 32) k ->
  absorbed t k q r ->
  exists r', hash_toeplitz_block (nth q t 0) r (nth q k 0) (nth (S q) k 0)
             = Some (r', nth (S q) k 0, 0) /\ absorbed t k (S q) r'.
Proof.
  intros Ht Hk [Hw Hr].
  destruct (hash_toeplitz_block_spec (nth q t 0) r (nth q k 0) (nth (S q) k 0))
    as (r' & E & Hw' & Hb); try done; try (by apply nth_word).
  exists r'. split; [done|]. split; [done|]. intros b Hlt. rewrite Hb, Hr by done.
  unfold toeplitz_bit. replace (32 * S q)%nat with (32 * q + 32)%nat by lia.
  rewrite xorsum_add. f_equal. apply xorsum_ext. intros i Hi.
  rewrite bit_at_word by done. f_equal.
  rewrite <- Nat.add_assoc. symmetry. apply bit_at_window; [done|lia].
Qed.

(** One step on a key copy that starts with the words [q] and [q + 1]. *)
Definition step_absorbs (t k : list Z) (step : Z -> Z -> list Z -> option (Z * list Z)) : Prop :=
  forall q r rest, absorbed t k q r ->
  exists r', step (nth q t 0) r (nth q k 0 :: nth (S q) k 0 :: rest) =
             Some (r', nth (S q) k 0 :: 0 :: rest) /\ absorbed t k (S q) r'.

Lemma toeplitz_step_absorbs t k : Forall (in_word 32) t -> Forall (in_word 32) k ->
  step_absorbs t k toeplitz_step.
Proof.
  intros Ht Hk q r rest Ha. destruct (absorb_word t k q r) as (r' & E & Ha'); try done.
  exists r'. split; [|done]. unfold toeplitz_step. cbn [nth].
  cbn [nth] in E. rewrite E. reflexivity.
Qed.

(** Absorb the [n] words from [q] on, computing the key copies in between. *)
Ltac absorb q n :=
  lazymatch n with
  | O => idtac
  | S ?n' =>
    match goal with
    | Hs : step_absorbs ?t ?k ?step, Ha : absorbed ?t ?k q ?r
      |- context [?step _ _ (?a :: ?b :: ?rest)] =>
        let r' := fresh "r" in let E := fresh "E" in let Ha' := fresh "Ha" in
        destruct (Hs q r rest Ha) as (r' & E & Ha');
        cbn [nth] in E; rewrite E; clear E Ha; cbn [mbind option_bind];
        try match goal with |- context [hash_toeplitz_copy ?l ?n] =>
          let v := eval vm_compute in (hash_toeplitz_copy l n) in
          replace (hash_toeplitz_copy l n) with v by (vm_compute; reflexivity)
        end;
        let q' := eval cbv in (S q) in absorb q' n'
    end
  end.

Lemma blocks_absorb step t k n : step_absorbs t k step -> length k = 10%nat ->
  In n [8; 12; 32; 36] ->
  exists r, toeplitz_blocks_with step t n k = Some r /\ absorbed t k (Z.to_nat (n / 4)) r.
Proof.
  intros Hs Hlen Hn.
  assert (Ha : absorbed t k 0 0) by (split; [done|]; intros b Hb; by rewrite Z.testbit_0_l).
  destruct k as [|k0 [|k1 [|k2 [|k3 [|k4 [|k5 [|k6 [|k7 [|k8 [|k9 [|]]]]]]]]]]]; try done.
  unfold toeplitz_blocks_with.
  destruct Hn as [<-|[<-|[<-|[<-|[]]]]]; cbn [Z.eqb Pos.eqb].
  - absorb 0%nat 2%nat. by eexists.
  - absorb 0%nat 3%nat. by eexists.
  - absorb 0%nat 8%nat. by eexists.
  - absorb 0%nat 9%nat. by eexists.
Qed.

(** C32: For each of the four input sizes it accepts, hash_toeplitz returns the
    Toeplitz hash: bit b of the result is the product over GF(2) of the input bits
    with the diagonal of the 320-bit key that starts at bit b; the inner loop ends
    on its own. *)
Theorem hash_toeplitz_spec {St} (h : St -> event -> reply * St) ctx t n k s :
  In (cval n) [8; 12; 32; 36] -> 4 * Z.of_nat (length t) = cval n ->
  Forall (in_word 32) t -> Forall (in_word 32) k -> length k = 10%nat ->
  exists r, o_res (exec h (hash_toeplitz ctx t n k (ct 40)) s) = inl r /\ in_word 32 r /\
    forall b, (b < 32)%nat ->
      Z.testbit r (31 - Z.of_nat b) = toeplitz_bit t k (32 * length t) b.
Proof.
  intros Hn Hlt Ht Hk Hlen.
  destruct (blocks_absorb toeplitz_step t k (cval n) (toeplitz_step_absorbs t k Ht Hk) Hlen Hn)
    as (r & Hr & Hw & Hb).
  exists r. split; [|split; [done|]].
  - unfold hash_toeplitz, mbind, prog_bind.
    rewrite try_ctassert_true, !ctassert_true
      by (try done; repeat (destruct Hn as [<-|Hn]; [done|]); destruct Hn).
    rewrite slice_take, firstn_all2 by lia. unfold local_csr_write, toeplitz_blocks.
    cbn [bind exec o_res]. by rewrite Hr.
  - intros b Hlb. rewrite Hb by done. do 2 f_equal. rewrite <- Hlt. divlia.
Qed.

(** The 4-tuple of an IPv4 segment, on a hardware that answers nothing. *)
Lemma hash_toeplitz_spec_witness :
  let t := [0x420995bb; 0xa18e6450; 0x0aea06e6] in
  exists r, o_res (exec (fun (_ : unit) (_ : event) => (Reply [] false, tt))
                     (hash_toeplitz 0 t (ct 12) rss_key (ct 40)) tt) = inl r /\ in_word 32 r /\
    forall b, (b < 32)%nat -> Z.testbit r (31 - Z.of_nat b) = toeplitz_bit t rss_key 96 b.
Proof.
  apply (hash_toeplitz_spec (fun (_ : unit) (_ : event) => (Reply [] false, tt)) 0
    [0x420995bb; 0xa18e6450; 0x0aea06e6] (ct 12) rss_key tt).
  - right. left. reflexivity.
  - reflexivity.
  - repeat constructor; by vm_compute.
  - repeat constructor; by vm_compute.
  - reflexivity.
Defined.

(** ** The CRC unit *)

(** A hardware with a CRC remainder register: it is written and read as a CSR,
    and each CRC instruction updates it by [crc_step]. *)
Class CrcUnit {St : Type} (h : St -> event -> reply * St) (rem : St -> Z)
    (crc_step : crc_poly -> crc_bytes_t -> Z -> Z -> Z) : Prop := {
  crc_unit_write : forall s v, rem (snd (h s (ECsrWr local_csr_crc_remainder v))) = v;
  crc_unit_step : forall s p b d, rem (snd (h s (ECrc p b d))) = crc_step p b (rem s) d;
  crc_unit_read : forall s, word0 (fst (h s (ECsrRd local_csr_crc_remainder))) = rem s }.

Lemma HASH_SWITCH_CASE_seq n : 0 <= n <= 64 -> n mod 4 = 0 ->
  HASH_SWITCH_CASE n = seq 0 (Z.to_nat (n / 4)).
Proof. apply RegUtils.SWITCH_CASE_seq. Qed.

Section Crc.
Context {St : Type} (h : St -> event -> reply * St) (rem : St -> Z)
  (crc_step : crc_poly -> crc_bytes_t -> Z -> Z -> Z) `{!CrcUnit h rem crc_step}.

Lemma exec_macro_crc p (f : Z -> prog Z) ws xs s (Q : unit -> St -> Prop) :
  (forall d, f d = Vis (ECrc p crc_bytes_0_3 d) (fun r => Ret (word0 r))) ->
  (forall s', rem s' = fold_left (crc_step p crc_bytes_0_3) (map (fun x => nth x ws 0) xs) (rem s) ->
     Q tt s') ->
  wp h (exec_macro (fun x => f (nth x ws 0)) xs) Q s.
Proof.
  intros Hf. revert s. induction xs as [|x xs IH]; intros s HQ; cbn [exec_macro].
  - by apply HQ.
  - unfold mbind, prog_bind. rewrite Hf. cbn [bind wp]. apply IH.
    intros s' Hs'. apply HQ. cbn [map fold_left]. by rewrite Hs', crc_unit_step.
Qed.

(** The CRC of the first [n / 4] words, from [init]. *)
Lemma hash_me_crc_wp ws n init s :
  is_ct n = true -> 0 <= cval n <= 64 -> cval n mod 4 = 0 -> cval n <= 4 * Z.of_nat (length ws) ->
  let words := take (Z.to_nat (cval n / 4)) ws in
  wp h (hash_me_crc32 ws n init)
     (fun r _ => r = fold_left (crc_step crc_32 crc_bytes_0_3) words init) s /\
  wp h (hash_me_crc32c ws n init)
     (fun r _ => r = fold_left (crc_step crc_iscsi crc_bytes_0_3) words init) s.
Proof.
  intros Hc Hn H4 Hlen words.
  assert (E : map (fun x => nth x ws 0) (seq 0 (Z.to_nat (cval n / 4))) = words)
    by (apply (slice_take 0); divlia).
  unfold hash_me_crc32, hash_me_crc32c, mbind, prog_bind.
  rewrite !ctassert_true by (done || (apply Z.leb_le; lia) || (by apply Z.eqb_eq)).
  rewrite HASH_SWITCH_CASE_seq by done.
  split; cbn [bind wp MeC.crc_write local_csr_write]; apply wp_bind;
    [apply (exec_macro_crc crc_32 (fun d => MeC.crc_32_be d crc_bytes_0_3))
    |apply (exec_macro_crc crc_iscsi (fun d => MeC.crc_iscsi_be d crc_bytes_0_3))];
    try done; intros s' Hs'; cbn; by rewrite crc_unit_read, Hs', crc_unit_write, E.
Qed.

(** On any CRC unit, the CRC hashes fold the unit over the words of the input
    in order from the given seed; so a hash continued from the result of another
    is the hash of the concatenation. *)
Theorem hash_me_crc_spec ws ws' n m init s :
  is_ct n = true -> 0 <= cval n <= 64 -> cval n mod 4 = 0 -> cval n = 4 * Z.of_nat (length ws) ->
  is_ct m = true -> 0 <= cval m <= 64 -> cval m mod 4 = 0 -> cval m = 4 * Z.of_nat (length ws') ->
  wp h (hash_me_crc32 ws n init)
     (fun r _ => r = fold_left (crc_step crc_32 crc_bytes_0_3) ws init) s /\
  wp h (hash_me_crc32c ws n init)
     (fun r _ => r = fold_left (crc_step crc_iscsi crc_bytes_0_3) ws init) s /\
  wp h (r ← hash_me_crc32 ws n init; hash_me_crc32 ws' m r)
     (fun r _ => r = fold_left (crc_step crc_32 crc_bytes_0_3) (ws ++ ws') init) s.
Proof.
  intros Hc Hn H4 Hlen Hc' Hn' H4' Hlen'.
  assert (Et : forall (l : list Z) k, cval k = 4 * Z.of_nat (length l) -> take (Z.to_nat (cval k / 4)) l = l)
    by (intros l k Hk; apply take_ge; divlia).
  pose proof (hash_me_crc_wp ws n init s Hc Hn H4 ltac:(lia)) as [H1 H2].
  rewrite Et in H1, H2 by done. split_ands; [done..|].
  apply wp_bind. eapply wp_mono; [|exact H1]. intros r s' ->.
  pose proof (hash_me_crc_wp ws' m (fold_left (crc_step crc_32 crc_bytes_0_3) ws init) s'
    Hc' Hn' H4' ltac:(lia)) as [H3 _].
  rewrite Et in H3 by done. by rewrite fold_left_app.
Qed.
End Crc.

(** A concrete CRC unit: the remainder as state, most significant bit first. *)
Definition crc_bit (poly rem : Z) : Z :=
  if Z.testbit rem 31 then shl32 rem 1 .^ poly else shl32 rem 1.
Definition crc_word (poly rem d : Z) : Z := Nat.iter 32 (crc_bit poly) (rem .^ d).
Definition crc_poly_word (p : crc_poly) : Z :=
  match p with crc_32 => 0x04C11DB7 | crc_iscsi => 0x1EDC6F41 end.
Definition crc_hw (s : Z) (e : event) : reply * Z :=
  match e with
  | ECsrWr local_csr_crc_remainder v => (Reply [] false, v)
  | ECrc p _ d => (Reply [crc_word (crc_poly_word p) s d] false, crc_word (crc_poly_word p) s d)
  | ECsrRd local_csr_crc_remainder => (Reply [s] false, s)
  | _ => (Reply [] false, s)
  end.

#[export] Instance crc_hw_unit : CrcUnit crc_hw (fun s => s) (fun p _ => crc_word (crc_poly_word p)).
Proof. by split. Qed.

Lemma hash_me_crc_spec_witness :
  wp crc_hw (r ← hash_me_crc32 [0x31323334; 0x35363738] (ct 8) 7; hash_me_crc32 [0x39303132] (ct 4) r)
     (fun r _ => r = crc_word 0x04C11DB7 (crc_word 0x04C11DB7 (crc_word 0x04C11DB7 7 0x31323334)
                       0x35363738) 0x39303132) 0.
Proof.
  exact (proj2 (proj2 (@hash_me_crc_spec Z crc_hw (fun s => s)
    (fun p _ => crc_word (crc_poly_word p)) crc_hw_unit
    [0x31323334; 0x35363738] [0x39303132] (ct 8) (ct 4) 7 0 eq_refl
    ltac:(split; apply Z.leb_le; reflexivity) eq_refl eq_refl eq_refl
    ltac:(split; apply Z.leb_le; reflexivity) eq_refl eq_refl))).
Defined.

(** ** Initialising the CLS mask *)

Lemma cls_write_issues data addr size :
  is_ct size = true -> cval size mod 4 = 0 -> 4 <= cval size <= 128 ->
  exists c, issues_one (Cls.cls_write data addr size) c (fun _ => tt) /\
    presents c T_cls "write_be" data addr (Some (cval size / 4)) (Some ctx_swap).
Proof.
  intros Hc H4 Hs.
  destruct (Cls.CLS_CMD_issues "write_be" data addr size size ctx_swap 1) as (c & H & Hp); try done.
  exists c. split; [|done]. by apply (issues_one_ret _ _ (fun ws => ws) (fun _ => tt)).
Qed.

(** Initialising the hash mask writes ones to every byte of the mask and to
    no other byte, in one or two commands, and then the multiplier register. *)
Theorem cls_hash_init_covers mask size :
  is_ct size = true -> cval size mod 4 = 0 -> 4 <= cval size <= 128 ->
  exists cs, 
    (forall St (h : St -> event -> reply * St) s,
      o_trace (exec h (cls_hash_init mask size) s) = map ECmd cs /\
      o_res (exec h (cls_hash_init mask size) s) = inl tt) /\
    exists masks mult, cs = masks ++ [mult] /\
      presents mult T_cls "write_be" [HASH_MULT_VAL] NFP_CLS_HASH_MULT (Some 1) (Some ctx_swap) /\
      Forall (fun c => c_data c = hashmask) masks /\
      (forall a, mask <= a < mask + cval size <->
         exists c n, In c masks /\ cmd_count c = Some n /\ cmd_addr c <= a < cmd_addr c + 4 * n).
Proof.
  intros Hc H4 Hs. unfold cls_hash_init, mbind, prog_bind, CLS_HASH_MASK_HALF.
  rewrite try_ctassert_true by (apply Z.leb_le; lia).
  destruct (cls_write_issues [HASH_MULT_VAL] NFP_CLS_HASH_MULT (ct 4)) as (mult & Hmu & Pmu);
    [done|done|cbn; lia|].
  destruct (Z.leb_spec (cval size) 64).
  - destruct (cls_write_issues hashmask mask size) as (c & Hi & Pc); [done..|].
    exists [c; mult]. split.
    { intros St h s. rewrite (exec_issues _ _ _ _ _ _ Hi). cbv zeta. by rewrite Hmu. }
    exists [c], mult. split_ands; [done|exact Pmu|repeat constructor; apply Pc|].
    intros a. destruct Pc as [_ _ _ Ea Ec _]. split.
    + intros Ha. exists c, (cval size / 4). rewrite Ea. split_ands; [by left|done|lia|divlia].
    + intros (c' & n & [<-|[]] & Hn & Hr). rewrite Ec in Hn. injection Hn as <-.
      rewrite Ea in Hr. divlia.
  - destruct (cls_write_issues hashmask mask (ct 64)) as (c & Hi & Pc); [done|done|cbn; lia|].
    destruct (cls_write_issues hashmask (mask + 64) (CArg (cval size - 64) (is_ct size)))
      as (c2 & Hi2 & Pc2); [done|cbn; divlia|cbn; divlia|].
    exists [c; c2; mult]. split.
    { intros St h s. rewrite exec_bind, (exec_issues _ _ _ _ _ _ Hi). cbv zeta.
      rewrite !Hi2. cbn [o_res o_trace o_st]. rewrite ?Hi2.
      rewrite Hmu. cbn [o_res o_trace o_st]. rewrite ?Hi2. done. }
    exists [c; c2], mult.
    split_ands; [done|exact Pmu|repeat constructor; [apply Pc|apply Pc2]|].
    intros a. destruct Pc as [_ _ _ Ea Ec _], Pc2 as [_ _ _ Ea2 Ec2 _]. cbn [cval] in *. split.
    + intros Ha. destruct (Z_lt_le_dec a (mask + 64)).
      * exists c, 16. rewrite Ea. split_ands; [by left|done|lia|lia].
      * exists c2, ((cval size - 64) / 4). rewrite Ea2.
        split_ands; [by right; left|done|lia|divlia].
    + intros (c' & n & [<-|[<-|[]]] & Hn & Hr); [rewrite Ec in Hn|rewrite Ec2 in Hn];
        injection Hn as <-; [rewrite Ea in Hr|rewrite Ea2 in Hr]; cbn in *; divlia.
Qed.

Lemma cls_hash_init_covers_witness :
  exists cs, forall St (h : St -> event -> reply * St) s,
    o_trace (exec h (cls_hash_init 0x1000 (ct 100)) s) = map ECmd cs /\
    o_res (exec h (cls_hash_init 0x1000 (ct 100)) s) = inl tt.
Proof.
  destruct (cls_hash_init_covers 0x1000 (ct 100)) as (cs & He & _);
    [reflexivity|reflexivity|cbn; lia|]. exists cs. exact He.
Defined.

End Hash.
