(* ===== verification/HdrExt.v ===== *)
(** lib/net/_c/hdr_ext.c: extraction of packet headers from a buffer in local
    memory, and the classification of the header that follows. *)
From Stdlib Require Import ZArith Lia List String.
From stdpp Require Import base list numbers option strings.
From S2P Require Import Prelude Me.
#[local] Open Scope Z_scope.

Module HdrExt.

(** ** Packed structures *)

(** A packed big-endian structure is the list of its field widths in bits, first
    field first; a value of it is the list of its fields. *)
Definition layout := list Z.
Definition bits (l : layout) : Z := sumZ l.
Definition sizeof (l : layout) : Z := bits l / 8.

Fixpoint decode (l : layout) (x : Z) : list Z :=
  match l with
  | [] => []
  | w :: l' => field (bits l') w x :: decode l' x
  end.

(** The integer of a byte string, first byte most significant. *)
Definition be_int (bs : list Z) : Z := fold_left (fun a b => a * 2 ^ 8 + b) bs 0.

(** net/eth.h, ip.h, arp.h, tcp.h, udp.h, gre.h, vxlan.h, mpls.h, sctp.h, icmp.h,
    esp.h, ah.h *)
Definition eth_hdr : layout := [48; 48; 16].
Definition vlan_hdr : layout := [16; 16].
Definition arp_hdr : layout := [16; 16; 8; 8; 16; 48; 32; 48; 32].
Definition ip4_hdr : layout := [4; 4; 8; 16; 16; 16; 8; 8; 16; 32; 32].
Definition ip6_hdr : layout := [4; 8; 20; 16; 8; 8; 128; 128].
Definition tcp_hdr : layout := [16; 16; 32; 32; 4; 4; 8; 16; 16; 16].
Definition udp_hdr : layout := [16; 16; 16; 16].
Definition gre_hdr : layout := [4; 9; 3; 16].
Definition nvgre_ext_hdr : layout := [24; 8].
Definition vxlan_hdr : layout := [4; 1; 3; 24; 24; 8].
Definition mpls_hdr : layout := [20; 3; 1; 8].
Definition sctp_hdr : layout := [16; 16; 32; 32].
Definition icmp_hdr : layout := [8; 8; 16; 16; 16].
Definition esp_hdr : layout := [32; 32].
Definition ah_hdr : layout := [8; 8; 16; 32; 32].

(** The fields the code looks at. *)
Definition eth_type (h : list Z) : Z := nth 2 h 0.
Definition vlan_type (h : list Z) : Z := nth 1 h 0.
Definition ip4_ver (h : list Z) : Z := nth 0 h 0.
Definition ip4_hl (h : list Z) : Z := nth 1 h 0.
Definition ip4_frag (h : list Z) : Z := nth 5 h 0.
Definition ip4_ttl (h : list Z) : Z := nth 6 h 0.
Definition ip4_proto (h : list Z) : Z := nth 7 h 0.
Definition ip6_ver (h : list Z) : Z := nth 0 h 0.
Definition ip6_nh (h : list Z) : Z := nth 4 h 0.
Definition ip6_hl (h : list Z) : Z := nth 5 h 0.
Definition tcp_off (h : list Z) : Z := nth 4 h 0.
Definition udp_dport (h : list Z) : Z := nth 1 h 0.
Definition gre_flags (h : list Z) : Z := nth 0 h 0.
Definition gre_proto (h : list Z) : Z := nth 3 h 0.

(** [*dst = *(__lmem struct t * )(((__lmem char * )src_buf) + off)]; reading
    outside the buffer has no defined result. *)
Definition extract (l : layout) (src_buf : list Z) (off : Z) : option (list Z) :=
  if (0 <=? off) && (off + sizeof l <=? Z.of_nat (length src_buf))
  then Some (decode l (be_int (take (Z.to_nat (sizeof l)) (drop (Z.to_nat off) src_buf))))
  else None.

(** ** Result values *)

(** HE_RES, HE_RES_LEN_of, HE_RES_PROTO_of *)
Definition HE_RES (np l : Z) : Z := shl32 (np .& 0xffff) 16 .| (l .& 0xffff).
Definition HE_RES_LEN_of (x : Z) : Z := x .& 0xffff.
Definition HE_RES_PROTO_of (x : Z) : Z := x ≫ 16.

(** enum he_proto *)
Definition HE_NONE := 0x0.
Definition HE_ETHER := 1.
Definition HE_8021Q := 2.
Definition HE_ARP := 3.
Definition HE_IP4 := 4.
Definition HE_IP6 := 5.
Definition HE_TCP := 6.
Definition HE_UDP := 7.
Definition HE_GRE := 8.
Definition HE_VXLAN := 9.
Definition HE_ESP := 10.
Definition HE_MPLS := 11.
Definition HE_ICMP := 12.
Definition HE_SCTP := 13.
Definition HE_AH := 14.
Definition HE_IP6_HBH := 0x101.
Definition HE_IP6_RT := 0x102.
Definition HE_IP6_FRAG := 0x103.
Definition HE_IP6_NONE := 0x104.
Definition HE_IP6_DST := 0x105.
Definition HE_IP6_MOB := 0x106.
Definition HE_IP6_HOST_ID := 0x107.
Definition HE_IP6_SHIM6 := 0x108.
Definition HE_ERROR_IP4_BAD_VER := 0xe001.
Definition HE_ERROR_IP4_BAD_HL := 0xe002.
Definition HE_ERROR_IP4_BAD_TTL := 0xe003.
Definition HE_ERROR_IP6_BAD_VER := 0xe010.
Definition HE_ERROR_IP6_BAD_HOP_LIMIT := 0xe011.
Definition HE_UNKNOWN := 0xffff.

Definition HE_RESULT_IS_PROTO (res : Z) : bool := (res .& 0x80000000) =? 0.
Definition HE_RESULT_IS_ERROR (res : Z) : bool := (res ≫ 28) =? 0xe.
Definition HE_RESULT_IS_UNKNOWN (res : Z) : bool := (res ≫ 28) =? 0xf.
Definition HE_RESULT_IS_UNK_OR_ERR (res : Z) : bool := (res ≫ 29) =? 0x7.

(** ** The switches *)

(** The protocols that the OMIT_NET_* options can leave out of a build. *)
Inductive feature :=
  | NET_ETH_TYPE_IPV4 | NET_ETH_TYPE_TPID | NET_ETH_TYPE_IPV6 | NET_ETH_TYPE_ARP
  | NET_ETH_TYPE_MPLS | NET_ETH_TYPE_TEB
  | NET_IP_PROTO_ICMP | NET_IP_PROTO_TCP | NET_IP_PROTO_UDP | NET_IP_PROTO_GRE
  | NET_IP_PROTO_ESP | NET_IP_PROTO_AH | NET_IP_PROTO_ICMPV6 | NET_IP_PROTO_SCTP
  | NET_IP_PROTO_HOPOPT | NET_IP_PROTO_ROUTING | NET_IP_PROTO_FRAG | NET_IP_PROTO_NONE
  | NET_IP_PROTO_DSTOPTS | NET_IP_PROTO_MOBILITY | NET_IP_PROTO_HOST_ID
  | NET_IP_PROTO_SHIM6.

(** The CASE_ macros: the value each case matches and the protocol it selects. *)
Definition case_value (f : feature) : Z :=
  match f with
  | NET_ETH_TYPE_IPV4 => 0x0800 | NET_ETH_TYPE_TPID => 0x8100
  | NET_ETH_TYPE_IPV6 => 0x86dd | NET_ETH_TYPE_ARP => 0x0806
  | NET_ETH_TYPE_MPLS => 0x8847 | NET_ETH_TYPE_TEB => 0x6558
  | NET_IP_PROTO_ICMP => 0x01 | NET_IP_PROTO_TCP => 0x06 | NET_IP_PROTO_UDP => 0x11
  | NET_IP_PROTO_GRE => 0x2f | NET_IP_PROTO_ESP => 0x32 | NET_IP_PROTO_AH => 0x33
  | NET_IP_PROTO_ICMPV6 => 0x3a | NET_IP_PROTO_SCTP => 0x84
  | NET_IP_PROTO_HOPOPT => 0x00 | NET_IP_PROTO_ROUTING => 0x2b
  | NET_IP_PROTO_FRAG => 0x2c | NET_IP_PROTO_NONE => 0x3b
  | NET_IP_PROTO_DSTOPTS => 0x3c | NET_IP_PROTO_MOBILITY => 0x87
  | NET_IP_PROTO_HOST_ID => 0x8b | NET_IP_PROTO_SHIM6 => 0x8c
  end.

Definition case_proto (f : feature) : Z :=
  match f with
  | NET_ETH_TYPE_IPV4 => HE_IP4 | NET_ETH_TYPE_TPID => HE_8021Q
  | NET_ETH_TYPE_IPV6 => HE_IP6 | NET_ETH_TYPE_ARP => HE_ARP
  | NET_ETH_TYPE_MPLS => HE_MPLS | NET_ETH_TYPE_TEB => HE_ETHER
  | NET_IP_PROTO_ICMP => HE_ICMP | NET_IP_PROTO_TCP => HE_TCP
  | NET_IP_PROTO_UDP => HE_UDP | NET_IP_PROTO_GRE => HE_GRE
  | NET_IP_PROTO_ESP => HE_ESP | NET_IP_PROTO_AH => HE_AH
  | NET_IP_PROTO_ICMPV6 => HE_ICMP | NET_IP_PROTO_SCTP => HE_SCTP
  | NET_IP_PROTO_HOPOPT => HE_IP6_HBH | NET_IP_PROTO_ROUTING => HE_IP6_RT
  | NET_IP_PROTO_FRAG => HE_IP6_FRAG | NET_IP_PROTO_NONE => HE_NONE
  | NET_IP_PROTO_DSTOPTS => HE_IP6_DST | NET_IP_PROTO_MOBILITY => HE_IP6_MOB
  | NET_IP_PROTO_HOST_ID => HE_IP6_HOST_ID | NET_IP_PROTO_SHIM6 => HE_IP6_SHIM6
  end.

(** A build: the OMIT_ options that are off, and the two optional checks. *)
Record build := Build {
  has : feature -> bool; ADD_NET_IP4_CHECK : bool; ADD_NET_IP6_CHECK : bool }.

(** [switch (v) { CASE_f ... default: next_proto = HE_UNKNOWN; }] *)
Fixpoint switch (cfg : build) (cases : list feature) (v : Z) : Z :=
  match cases with
  | [] => HE_UNKNOWN
  | f :: cases' =>
      if has cfg f && (v =? case_value f) then case_proto f else switch cfg cases' v
  end.

Definition eth_cases : list feature :=
  [NET_ETH_TYPE_IPV4; NET_ETH_TYPE_TPID; NET_ETH_TYPE_IPV6; NET_ETH_TYPE_ARP; NET_ETH_TYPE_MPLS].
Definition vlan_cases : list feature :=
  [NET_ETH_TYPE_IPV4; NET_ETH_TYPE_IPV6; NET_ETH_TYPE_MPLS].
Definition ip4_cases : list feature :=
  [NET_IP_PROTO_ICMP; NET_IP_PROTO_TCP; NET_IP_PROTO_UDP; NET_IP_PROTO_GRE;
   NET_IP_PROTO_ESP; NET_IP_PROTO_AH; NET_IP_PROTO_SCTP].
Definition IP6_PROTO_SWITCH : list feature :=
  [NET_IP_PROTO_TCP; NET_IP_PROTO_UDP; NET_IP_PROTO_GRE; NET_IP_PROTO_ICMPV6;
   NET_IP_PROTO_SCTP; NET_IP_PROTO_HOPOPT; NET_IP_PROTO_ROUTING; NET_IP_PROTO_FRAG;
   NET_IP_PROTO_ESP; NET_IP_PROTO_AH; NET_IP_PROTO_NONE; NET_IP_PROTO_DSTOPTS;
   NET_IP_PROTO_MOBILITY; NET_IP_PROTO_HOST_ID; NET_IP_PROTO_SHIM6].
Definition gre_cases : list feature :=
  [NET_ETH_TYPE_TEB; NET_ETH_TYPE_IPV4; NET_ETH_TYPE_IPV6; NET_ETH_TYPE_MPLS].

(** ** Does a header fit *)

(** [off + sizeof(...)] is unsigned, and so is the comparison. *)
Definition fit (size : Z) (sz : carg) (off : Z) : prog Z :=
  _ ← ctassert (is_ct sz);
  _ ← ctassert (size <=? u32 (cval sz));
  Ret (if u32 (off + size) <=? u32 (cval sz) then 1 else 0).

(** he_eth_fit does not ask for a compile-time constant. *)
Definition he_eth_fit (sz : carg) (off : Z) : prog Z :=
  _ ← ctassert (sizeof eth_hdr <=? u32 (cval sz));
  Ret (if u32 (off + sizeof eth_hdr) <=? u32 (cval sz) then 1 else 0).
Definition he_vlan_fit (sz : carg) (off : Z) : prog Z := fit (sizeof vlan_hdr) sz off.
Definition he_arp_fit (sz : carg) (off : Z) : prog Z := fit (sizeof arp_hdr) sz off.
Definition he_ip4_fit (sz : carg) (off : Z) : prog Z := fit (sizeof ip4_hdr) sz off.
Definition he_ip6_fit (sz : carg) (off : Z) : prog Z := fit (sizeof ip6_hdr) sz off.
Definition he_tcp_fit (sz : carg) (off : Z) : prog Z := fit (sizeof tcp_hdr) sz off.
Definition he_udp_fit (sz : carg) (off : Z) : prog Z := fit (sizeof udp_hdr) sz off.
Definition he_gre_fit (sz : carg) (off : Z) : prog Z := fit (sizeof gre_hdr + 12) sz off.
Definition he_vxlan_fit (sz : carg) (off : Z) : prog Z := fit (sizeof vxlan_hdr) sz off.
Definition he_mpls_fit (sz : carg) (off : Z) : prog Z := fit (sizeof mpls_hdr) sz off.
Definition he_sctp_fit (sz : carg) (off : Z) : prog Z := fit (sizeof sctp_hdr) sz off.
Definition he_icmp_fit (sz : carg) (off : Z) : prog Z := fit (sizeof icmp_hdr) sz off.
Definition he_esp_fit (sz : carg) (off : Z) : prog Z := fit (sizeof esp_hdr) sz off.
Definition he_ah_fit (sz : carg) (off : Z) : prog Z := fit (sizeof ah_hdr) sz off.

(** ** Extraction: the header copied to [dst] and the result.  [dst] in local
    memory and in registers take the same code. *)

Definition he_eth (cfg : build) (src_buf : list Z) (off : Z) : option (list Z * Z) :=
  dst ← extract eth_hdr src_buf off;
  let next_proto := switch cfg eth_cases (eth_type dst) in
  Some (dst, HE_RES next_proto (sizeof eth_hdr)).

Definition he_vlan (cfg : build) (src_buf : list Z) (off : Z) : option (list Z * Z) :=
  dst ← extract vlan_hdr src_buf off;
  let next_proto := switch cfg vlan_cases (vlan_type dst) in
  Some (dst, HE_RES next_proto (sizeof vlan_hdr)).

Definition he_arp (src_buf : list Z) (off : Z) : option (list Z * Z) :=
  dst ← extract arp_hdr src_buf off;
  Some (dst, HE_RES HE_NONE (sizeof arp_hdr)).

Definition HE_IP4_CHECK (cfg : build) (dst : list Z) (next_proto : Z) : Z :=
  if ADD_NET_IP4_CHECK cfg then
    let next_proto := if negb (ip4_ver dst =? 4) then HE_ERROR_IP4_BAD_VER else next_proto in
    let next_proto := if ip4_hl dst <? 5 then HE_ERROR_IP4_BAD_HL else next_proto in
    if ip4_ttl dst <=? 1 then HE_ERROR_IP4_BAD_TTL else next_proto
  else next_proto.

Definition NET_IP_FLAGS_MF : Z := 0x2000.
Definition NET_IP_FRAG_OFF_MASK : Z := 0x1fff.

Definition he_ip4 (cfg : build) (src_buf : list Z) (off : Z) : option (list Z * Z) :=
  dst ← extract ip4_hdr src_buf off;
  let next_proto := switch cfg ip4_cases (ip4_proto dst) in
  let next_proto := HE_IP4_CHECK cfg dst next_proto in
  let next_proto := if negb ((ip4_frag dst .& NET_IP_FLAGS_MF) =? 0) then HE_UNKNOWN
                    else next_proto in
  Some (dst, HE_RES next_proto (4 * ip4_hl dst)).

Definition HE_IP6_CHECK (cfg : build) (dst : list Z) (next_proto : Z) : Z :=
  if ADD_NET_IP6_CHECK cfg then
    let next_proto := if negb (ip6_ver dst =? 6) then HE_ERROR_IP6_BAD_VER else next_proto in
    if ip6_hl dst <=? 1 then HE_ERROR_IP6_BAD_HOP_LIMIT else next_proto
  else next_proto.

Definition he_ip6 (cfg : build) (src_buf : list Z) (off : Z) : option (list Z * Z) :=
  dst ← extract ip6_hdr src_buf off;
  let next_proto := switch cfg IP6_PROTO_SWITCH (ip6_nh dst) in
  let next_proto := HE_IP6_CHECK cfg dst next_proto in
  Some (dst, HE_RES next_proto (sizeof ip6_hdr)).

Definition he_tcp (src_buf : list Z) (off : Z) : option (list Z * Z) :=
  dst ← extract tcp_hdr src_buf off;
  Some (dst, HE_RES HE_NONE (4 * tcp_off dst)).

Definition he_udp (src_buf : list Z) (off vxln_prt : Z) : option (list Z * Z) :=
  dst ← extract udp_hdr src_buf off;
  let next_proto := if negb (vxln_prt =? 0) && (udp_dport dst =? vxln_prt)
                    then HE_VXLAN else HE_NONE in
  Some (dst, HE_RES next_proto (sizeof udp_hdr)).

Definition NET_GRE_FLAGS_SEQ_PRESENT : Z := 0x1.
Definition NET_GRE_FLAGS_KEY_PRESENT : Z := 0x2.
Definition NET_GRE_FLAGS_CSUM_PRESENT : Z := 0x8.

Definition he_gre (cfg : build) (src_buf : list Z) (off : Z) : option (list Z * Z) :=
  dst ← extract gre_hdr src_buf off;
  let flags := gre_flags dst in
  let next_proto := switch cfg gre_cases (gre_proto dst) in
  let len := 4 in
  let len := if negb ((flags .& NET_GRE_FLAGS_CSUM_PRESENT) =? 0) then len + 4 else len in
  let len := if negb ((flags .& NET_GRE_FLAGS_KEY_PRESENT) =? 0) then len + 4 else len in
  let len := if negb ((flags .& NET_GRE_FLAGS_SEQ_PRESENT) =? 0) then len + 4 else len in
  Some (dst, HE_RES next_proto len).

Definition he_gre_nvgre (src_buf : list Z) (off : Z) : option (list Z) :=
  extract nvgre_ext_hdr src_buf (off + sizeof gre_hdr).

Definition he_vxlan (src_buf : list Z) (off : Z) : option (list Z * Z) :=
  dst ← extract vxlan_hdr src_buf off;
  Some (dst, HE_RES HE_ETHER (sizeof vxlan_hdr)).

Definition he_mpls (src_buf : list Z) (off : Z) : option (list Z * Z) :=
  dst ← extract mpls_hdr src_buf off;
  Some (dst, HE_RES HE_NONE (sizeof mpls_hdr)).

Definition he_sctp (src_buf : list Z) (off : Z) : option (list Z * Z) :=
  dst ← extract sctp_hdr src_buf off;
  Some (dst, HE_RES HE_NONE (sizeof sctp_hdr)).

Definition he_icmp (src_buf : list Z) (off : Z) : option (list Z * Z) :=
  dst ← extract icmp_hdr src_buf off;
  Some (dst, HE_RES HE_UNKNOWN (sizeof icmp_hdr)).

Definition he_esp (src_buf : list Z) (off : Z) : option (list Z * Z) :=
  dst ← extract esp_hdr src_buf off;
  Some (dst, HE_RES HE_UNKNOWN (sizeof esp_hdr)).

Definition he_ah (src_buf : list Z) (off : Z) : option (list Z * Z) :=
  dst ← extract ah_hdr src_buf off;
  Some (dst, HE_RES HE_UNKNOWN (sizeof ah_hdr)).

(** ** Encoding, the specification of the structures *)

Fixpoint encode (l : layout) (vs : list Z) : Z :=
  match l, vs with
  | w :: l', v :: vs' => v * 2 ^ bits l' + encode l' vs'
  | _, _ => 0
  end.

Fixpoint to_bytes (n : nat) (x : Z) : list Z :=
  match n with
  | O => []
  | S n' => field (8 * Z.of_nat n') 8 x :: to_bytes n' x
  end.

(** The bytes of a structure with the given fields. *)
Definition header_bytes (l : layout) (vs : list Z) : list Z :=
  to_bytes (Z.to_nat (sizeof l)) (encode l vs).

(** Each field fits its width. *)
Definition fields_ok (l : layout) (vs : list Z) : Prop := Forall2 in_word l vs.

(** A layout of non-negative widths that fills whole bytes. *)
Definition layout_ok (l : layout) : Prop := Forall (fun w => 0 <= w) l /\ bits l mod 8 = 0.

Lemma bits_nonneg l : Forall (fun w => 0 <= w) l -> 0 <= bits l.
Proof. intros. by apply sumZ_nonneg. Qed.

Lemma encode_range l vs : Forall (fun w => 0 <= w) l -> fields_ok l vs ->
  0 <= encode l vs < 2 ^ bits l.
Proof.
  intros Hl H. induction H as [|w v l vs Hv H IH]; [done|].
  apply Forall_cons in Hl as [Hw Hl]. specialize (IH Hl).
  pose proof (bits_nonneg l Hl). cbn [encode].
  change (bits (w :: l)) with (w + bits l). rewrite Z.pow_add_r by lia.
  unfold in_word in Hv. nia.
Qed.

Lemma decode_encode l vs hi : Forall (fun w => 0 <= w) l -> fields_ok l vs ->
  decode l (hi * 2 ^ bits l + encode l vs) = vs.
Proof.
  intros Hl H. revert hi. induction H as [|w v l vs Hv H IH]; intros hi; [done|].
  apply Forall_cons in Hl as [Hw Hl]. cbn [decode encode].
  pose proof (bits_nonneg l Hl). pose proof (encode_range l vs Hl H).
  change (bits (w :: l)) with (w + bits l). rewrite Z.pow_add_r by lia.
  assert (0 < 2 ^ bits l) by (apply Z.pow_pos_nonneg; lia).
  assert (0 < 2 ^ w) by (apply Z.pow_pos_nonneg; lia).
  replace (hi * (2 ^ w * 2 ^ bits l) + (v * 2 ^ bits l + encode l vs))
    with ((hi * 2 ^ w + v) * 2 ^ bits l + encode l vs) by lia.
  f_equal; [|by apply IH].
  rewrite field_eq, Z.div_add_l, (Z.div_small (encode l vs)), Z.add_0_r by lia.
  unfold in_word in Hv. rewrite Z.add_comm, Z.mod_add, Z.mod_small by lia. done.
Qed.

Lemma be_int_to_bytes n x a : fold_left (fun a b => a * 2 ^ 8 + b) (to_bytes n x) a =
  a * 2 ^ (8 * Z.of_nat n) + x mod 2 ^ (8 * Z.of_nat n).
Proof.
  revert a. induction n as [|n IH]; intros a.
  - cbn [to_bytes fold_left]. change (8 * Z.of_nat 0) with 0. rewrite Z.mod_1_r. lia.
  - cbn [to_bytes fold_left]. rewrite IH, field_eq by lia.
    replace (8 * Z.of_nat (S n)) with (8 * Z.of_nat n + 8) by lia.
    rewrite Z.pow_add_r by lia.
    assert (0 < 2 ^ (8 * Z.of_nat n)) by (apply Z.pow_pos_nonneg; lia).
    rewrite Z.rem_mul_r by lia. lia.
Qed.

Lemma length_to_bytes n x : length (to_bytes n x) = n.
Proof. by induction n as [|n IH]; cbn; [|rewrite IH]. Qed.

Lemma sizeof_nonneg l : layout_ok l -> 0 <= sizeof l /\ 8 * sizeof l = bits l.
Proof.
  intros [Hl H8]. pose proof (bits_nonneg l Hl). unfold sizeof. divlia.
Qed.

(** A structure written somewhere in a buffer is read back there. *)
Lemma extract_header l vs pre post : layout_ok l -> fields_ok l vs ->
  extract l (pre ++ header_bytes l vs ++ post) (Z.of_nat (length pre)) = Some vs.
Proof.
  intros Hl Hv. destruct (sizeof_nonneg l Hl) as [Hs H8]. destruct Hl as [Hl _].
  unfold extract, header_bytes.
  assert (Hin : (0 <=? Z.of_nat (length pre)) &&
    (Z.of_nat (length pre) + sizeof l <=? Z.of_nat (length (pre ++ to_bytes (Z.to_nat (sizeof l)) (encode l vs) ++ post))) = true).
  { rewrite !length_app, length_to_bytes. apply andb_true_iff. split; apply Z.leb_le; lia. }
  rewrite Hin, Nat2Z.id, drop_app_length, take_app_length' by by rewrite length_to_bytes.
  f_equal. unfold be_int. rewrite be_int_to_bytes, Z2Nat.id, H8 by lia.
  rewrite Z.mod_small by by apply encode_range. by apply (decode_encode l vs 0).
Qed.

Lemma extract_inside l src off : extract l src off <> None <->
  0 <= off /\ off + sizeof l <= Z.of_nat (length src).
Proof.
  unfold extract. destruct (Z.leb_spec 0 off), (Z.leb_spec (off + sizeof l) (Z.of_nat (length src)));
    cbn; split; intros; try done; lia.
Qed.

(** Every structure of the program fills the bytes the code says. *)
Lemma layouts_ok :
  Forall layout_ok [eth_hdr; vlan_hdr; arp_hdr; ip4_hdr; ip6_hdr; tcp_hdr; udp_hdr; gre_hdr;
    nvgre_ext_hdr; vxlan_hdr; mpls_hdr; sctp_hdr; icmp_hdr; esp_hdr; ah_hdr].
Proof. repeat constructor; lia. Qed.

(** ** Properties *)

(** The two halves of a result are read back. *)
Lemma HE_RES_roundtrip np l : in_word 16 np -> in_word 16 l ->
  HE_RES_PROTO_of (HE_RES np l) = np /\ HE_RES_LEN_of (HE_RES np l) = l /\
  in_word 32 (HE_RES np l).
Proof.
  intros Hn Hl. unfold HE_RES, HE_RES_PROTO_of, HE_RES_LEN_of.
  change 0xffff with (Z.ones 16). rewrite !Z.land_ones, !(Z.mod_small _ (2 ^ 16)) by (done || lia).
  unfold shl32. rewrite wrap_id by (rewrite Z.shiftl_mul_pow2 by lia; unfold in_word in *; lia).
  rewrite lor_shift_add, Z.shiftr_div_pow2 by (done || lia).
  unfold in_word in *. split_ands; try lia; divlia.
Qed.

(** A result packs a protocol and a length that are both read back, and the
    class tests agree with the protocol ranges: below 0x8000 a protocol, 0xeXXX an
    error, 0xfXXX unknown. *)
Theorem HE_RESULT_class np l : in_word 16 np -> in_word 16 l ->
  (HE_RES_PROTO_of (HE_RES np l) = np /\ HE_RES_LEN_of (HE_RES np l) = l) /\
  (HE_RESULT_IS_PROTO (HE_RES np l) = true <-> np < 0x8000) /\
  (HE_RESULT_IS_ERROR (HE_RES np l) = true <-> 0xe000 <= np < 0xf000) /\
  (HE_RESULT_IS_UNKNOWN (HE_RES np l) = true <-> 0xf000 <= np) /\
  HE_RESULT_IS_UNK_OR_ERR (HE_RES np l) =
    HE_RESULT_IS_ERROR (HE_RES np l) || HE_RESULT_IS_UNKNOWN (HE_RES np l).
Proof.
  intros Hn Hl. destruct (HE_RES_roundtrip np l Hn Hl) as (Hp & Hln & Hw).
  split; [done|]. clear Hln.
  unfold HE_RES_PROTO_of in Hp. rewrite Z.shiftr_div_pow2 in Hp by lia.
  set (r := HE_RES np l) in *. unfold HE_RESULT_IS_PROTO, HE_RESULT_IS_ERROR, HE_RESULT_IS_UNKNOWN.
  unfold HE_RESULT_IS_UNK_OR_ERR. rewrite !Z.shiftr_div_pow2 by lia.
  rewrite !Z.eqb_eq. unfold in_word in *.
  assert (E : r .& 0x80000000 = r / 2 ^ 31 * 2 ^ 31).
  { change 0x80000000 with (Z.ones (32 - 31) ≪ 31). apply land_high; unfold in_word; lia. }
  rewrite E. split_ands; [divlia..|].
  destruct (Z.eqb_spec (r / 2 ^ 28) 0xe), (Z.eqb_spec (r / 2 ^ 28) 0xf),
    (Z.eqb_spec (r / 2 ^ 29) 0x7); cbn; try done; exfalso; divlia.
Qed.

Lemma HE_RESULT_class_witness :
  in_word 16 HE_UNKNOWN /\ (HE_RESULT_IS_UNKNOWN (HE_RES HE_UNKNOWN 20) = true <-> 0xf000 <= HE_UNKNOWN).
Proof.
  split; [done|].
  destruct (HE_RESULT_class HE_UNKNOWN 20 ltac:(done) ltac:(done)) as (_ & _ & _ & H & _). exact H.
Defined.

(** The fit functions with the structure each one is about and the bytes it asks
    for: GRE asks for its three optional words too. *)
Definition fit_fns : list ((carg -> Z -> prog Z) * layout * Z) :=
  [ (he_eth_fit, eth_hdr, 14); (he_vlan_fit, vlan_hdr, 4); (he_arp_fit, arp_hdr, 28);
    (he_ip4_fit, ip4_hdr, 20); (he_ip6_fit, ip6_hdr, 40); (he_tcp_fit, tcp_hdr, 20);
    (he_udp_fit, udp_hdr, 8); (he_gre_fit, gre_hdr, 16); (he_vxlan_fit, vxlan_hdr, 8);
    (he_mpls_fit, mpls_hdr, 4); (he_sctp_fit, sctp_hdr, 12); (he_icmp_fit, icmp_hdr, 8);
    (he_esp_fit, esp_hdr, 8); (he_ah_fit, ah_hdr, 12) ].

Lemma fit_spec size sz off : is_ct sz = true -> 0 <= size <= cval sz -> cval sz < 2 ^ 31 ->
  0 <= off < 2 ^ 31 ->
  fit size sz off = Ret (if off + size <=? cval sz then 1 else 0).
Proof.
  intros Hc Hs Hz Ho. unfold fit, mbind, prog_bind.
  rewrite !(wrap_id 32) by (unfold in_word; lia).
  rewrite !ctassert_true by (done || apply Z.leb_le; lia). done.
Qed.

(** C37: Each fit function returns 1 exactly when the bytes it asks for lie inside
    the buffer, does not build for a buffer too small for any header, and when it
    returns 1 the header can be extracted inside the buffer; but for GRE, it also
    returns 1 whenever the header can be extracted. *)
Theorem he_fit_sound f l n : In (f, l, n) fit_fns ->
  forall src off, Z.of_nat (length src) < 2 ^ 31 -> 0 <= off < 2 ^ 31 ->
  let len := Z.of_nat (length src) in
  f (ct len) off = (if n <=? len then Ret (if off + n <=? len then 1 else 0) else Stop CtAssert) /\
  (f (ct len) off = Ret 1 -> extract l src off <> None) /\
  (n = sizeof l -> extract l src off <> None -> f (ct len) off = Ret 1).
Proof.
  intros Hf src off Hlen Ho len.
  assert (H : sizeof l <= n /\ 0 <= n /\ forall o, f (ct len) o = fit n (ct len) o).
  { repeat (destruct Hf as [[= <- <- <-]|Hf];
      [split; [|split; [|intros; reflexivity]]; cbv; done|]). destruct Hf. }
  destruct H as (Hn & Hn0 & Ef). rewrite !Ef.
  assert (E : fit n (ct len) off =
    if n <=? len then Ret (if off + n <=? len then 1 else 0) else Stop CtAssert).
  { destruct (Z.leb_spec n len) as [Hle|Hgt]; [apply fit_spec; done || (cbn; lia)|].
    unfold fit, mbind, prog_bind. rewrite (ctassert_true (is_ct (ct len))) by done.
    rewrite (wrap_id 32 (cval (ct len))) by (unfold in_word; cbn; lia).
    apply Z.leb_gt in Hgt. cbn [cval ct]. by rewrite Hgt. }
  rewrite E. split; [done|]. rewrite extract_inside. split.
  - destruct (Z.leb_spec n len); [|done]. destruct (Z.leb_spec (off + n) len); [lia|done].
  - intros -> [_ H]. destruct (Z.leb_spec (sizeof l) len), (Z.leb_spec (off + sizeof l) len); done || lia.
Qed.

Lemma he_fit_sound_witness :
  he_eth_fit (ct 64) 50 = Ret 1 /\ extract eth_hdr (repeat 0 64) 50 <> None.
Proof.
  split; [reflexivity|].
  destruct (he_fit_sound he_eth_fit eth_hdr 14 (or_introl eq_refl) (repeat 0 64) 50
    ltac:(done) ltac:(done)) as (_ & H & _).
  exact (H eq_refl).
Defined.

(** A switch selects a case only on its value, in a build that has it. *)
Lemma switch_spec cfg cases v :
  switch cfg cases v = HE_UNKNOWN \/
  exists f, In f cases /\ has cfg f = true /\ v = case_value f /\ switch cfg cases v = case_proto f.
Proof.
  induction cases as [|f cases IH]; cbn [switch]; [by left|].
  destruct (has cfg f) eqn:Hf; cbn [andb].
  - destruct (Z.eqb_spec v (case_value f)) as [->|].
    + right. exists f. split_ands; try done. by left.
    + destruct IH as [IH|(g & Hg & ? & ? & ?)]; [by left|]. right. exists g.
      split_ands; try done. by right.
  - destruct IH as [IH|(g & Hg & ? & ? & ?)]; [by left|]. right. exists g.
    split_ands; try done. by right.
Qed.

(** The case of a value that is its only one among the cases. *)
Lemma switch_case cfg cases f :
  In f cases -> has cfg f = true ->
  (forall g, In g cases -> case_value g = case_value f -> g = f) ->
  switch cfg cases (case_value f) = case_proto f.
Proof.
  intros Hin Hf Huniq. induction cases as [|g cases IH]; [done|]. cbn [switch].
  destruct (has cfg g) eqn:Hg; cbn [andb].
  - destruct (Z.eqb_spec (case_value f) (case_value g)) as [E|E].
    + by rewrite (Huniq g) by (by left || done).
    + destruct Hin as [->|Hin]; [done|]. apply IH; [done|].
      intros g' Hg'. apply Huniq. by right.
  - destruct Hin as [->|Hin]; [congruence|]. apply IH; [done|].
    intros g' Hg'. apply Huniq. by right.
Qed.

Lemma case_proto_word f : in_word 16 (case_proto f).
Proof. by destruct f. Qed.

Lemma switch_word cfg cases v : in_word 16 (switch cfg cases v).
Proof.
  destruct (switch_spec cfg cases v) as [->|(f & _ & _ & _ & ->)]; [done|apply case_proto_word].
Qed.

(** In every protocol switch each case is reached by its own value, giving
    its protocol when the build has it and HE_UNKNOWN when it was left out, and
    every other value gives HE_UNKNOWN. *)
Theorem switch_selects cfg cases f :
  In cases [eth_cases; vlan_cases; ip4_cases; IP6_PROTO_SWITCH; gre_cases] -> In f cases ->
  switch cfg cases (case_value f) = (if has cfg f then case_proto f else HE_UNKNOWN) /\
  forall v, (forall g, In g cases -> v <> case_value g) -> switch cfg cases v = HE_UNKNOWN.
Proof.
  intros Hc Hf. split.
  - destruct (has cfg f) eqn:Hh.
    + apply switch_case; [done..|]. intros g Hg. revert Hf Hg.
      repeat (destruct Hc as [<-|Hc]; [cbn; intuition (subst; done)|]). destruct Hc.
    + destruct (switch_spec cfg cases (case_value f)) as [E|(g & Hg & Hh' & E & _)]; [done|].
      assert (g = f); [|congruence]. clear Hh Hh'. revert Hf Hg E.
      repeat (destruct Hc as [<-|Hc]; [cbn; intuition (subst; done)|]). destruct Hc.
  - intros v Hv. destruct (switch_spec cfg cases v) as [E|(g & Hg & _ & E & _)]; [done|].
    by apply Hv in Hg.
Qed.

Lemma switch_selects_witness :
  switch (Build (fun _ => true) true true) eth_cases 0x86dd = HE_IP6.
Proof.
  destruct (switch_selects (Build (fun _ => true) true true) eth_cases NET_ETH_TYPE_IPV6
    (or_introl eq_refl) (or_intror (or_intror (or_introl eq_refl)))) as [H _].
  exact H.
Defined.

(** ** Walking the headers of a packet *)

Lemma extract_packed l vs pre post off : layout_ok l -> fields_ok l vs ->
  off = Z.of_nat (length pre) ->
  extract l (pre ++ header_bytes l vs ++ post) off = Some vs.
Proof. intros ? ? ->. by apply extract_header. Qed.

Lemma length_header_bytes l vs : layout_ok l ->
  Z.of_nat (length (header_bytes l vs)) = sizeof l.
Proof.
  intros Hl. destruct (sizeof_nonneg l Hl). unfold header_bytes.
  rewrite length_to_bytes. lia.
Qed.

Lemma layout_ok_in l : In l [eth_hdr; vlan_hdr; arp_hdr; ip4_hdr; ip6_hdr; tcp_hdr; udp_hdr;
  gre_hdr; nvgre_ext_hdr; vxlan_hdr; mpls_hdr; sctp_hdr; icmp_hdr; esp_hdr; ah_hdr] ->
  layout_ok l.
Proof. pose proof layouts_ok as H. rewrite List.Forall_forall in H. apply H. Qed.

Ltac layout := apply layout_ok_in; cbn; tauto.

(** The fields of a decoded structure fit their widths. *)
Lemma decode_fields l x : Forall (fun w => 0 <= w) l -> fields_ok l (decode l x).
Proof.
  unfold fields_ok. induction 1 as [|w l Hw Hl IH]; cbn [decode]; constructor; [|done].
  by apply field_range.
Qed.

Lemma field_word l vs i w : fields_ok l vs -> nth_error l i = Some w -> in_word w (nth i vs 0).
Proof.
  intros H. revert i. induction H as [|w' v l vs Hv H IH]; intros [|i]; cbn; try done.
  - by intros [= <-].
  - apply IH.
Qed.

(** No feature of the IPv4 protocol switch shares its value with another. *)
Lemma ip4_case cfg f : In f ip4_cases -> has cfg f = true ->
  switch cfg ip4_cases (case_value f) = case_proto f.
Proof.
  intros Hf Hh. apply switch_case; [done..|]. intros g Hg. revert Hf Hg.
  cbn; intuition (subst; done).
Qed.

(** What an option-carrying IPv4 header of a packet that is not rejected is:
    the checks of the build hold and it carries protocol [f]. *)
Record ip4_good (cfg : build) (f : feature) (ip : list Z) : Prop := {
  ig_fields : fields_ok ip4_hdr ip;
  ig_proto : In f ip4_cases /\ has cfg f = true /\ ip4_proto ip = case_value f;
  ig_mf : ip4_frag ip .& NET_IP_FLAGS_MF = 0;
  ig_hl : 5 <= ip4_hl ip;
  ig_check : ADD_NET_IP4_CHECK cfg = true -> ip4_ver ip = 4 /\ 1 < ip4_ttl ip }.

Lemma he_ip4_good cfg f ip pre post off : ip4_good cfg f ip ->
  off = Z.of_nat (length pre) ->
  he_ip4 cfg (pre ++ header_bytes ip4_hdr ip ++ post) off =
    Some (ip, HE_RES (case_proto f) (4 * ip4_hl ip)).
Proof.
  intros [Hip (Hf & Hh & Hp) Hmf Hhl Hck] ->. unfold he_ip4.
  rewrite extract_header by (layout || done). cbn [mbind option_bind].
  rewrite Hp, ip4_case, Hmf by done. cbn [Z.eqb negb].
  unfold HE_IP4_CHECK. destruct (ADD_NET_IP4_CHECK cfg) eqn:E; [|done].
  destruct (Hck eq_refl) as [Hv Ht].
  rewrite Hv, (proj2 (Z.ltb_ge _ _)), (proj2 (Z.leb_gt _ _)) by lia. done.
Qed.

Lemma ip4_hl_word ip : fields_ok ip4_hdr ip -> 0 <= ip4_hl ip < 16.
Proof. intros H. by apply (field_word ip4_hdr ip 1 4). Qed.

(** The protocols hdr_ext.h names behind an IPv4 header. *)
Definition ip4_protocols : list feature :=
  [NET_IP_PROTO_TCP; NET_IP_PROTO_UDP; NET_IP_PROTO_GRE; NET_IP_PROTO_ESP].

(** C33: Walking an Ethernet frame that carries a whole IPv4 packet of TCP, UDP,
    GRE or ESP, with a header the build accepts and any options: he_eth and he_ip4
    return exactly the fields that were encoded, name IPv4 and then the protocol
    of the header, and the two lengths they return add up to the first byte of the
    payload. *)
Theorem he_eth_ip4_walk cfg f eth ip pre options payload :
  fields_ok eth_hdr eth -> eth_type eth = 0x0800 -> has cfg NET_ETH_TYPE_IPV4 = true ->
  In f ip4_protocols -> ip4_good cfg f ip -> ip4_frag ip .& NET_IP_FRAG_OFF_MASK = 0 ->
  Z.of_nat (length options) = 4 * ip4_hl ip - 20 ->
  let pkt := pre ++ header_bytes eth_hdr eth ++ header_bytes ip4_hdr ip ++ options ++ payload in
  let off := Z.of_nat (length pre) in
  exists r0 r1,
    he_eth cfg pkt off = Some (eth, r0) /\ HE_RES_PROTO_of r0 = HE_IP4 /\
    he_ip4 cfg pkt (off + HE_RES_LEN_of r0) = Some (ip, r1) /\
    HE_RES_PROTO_of r1 = case_proto f /\
    drop (Z.to_nat (off + HE_RES_LEN_of r0 + HE_RES_LEN_of r1)) pkt = payload.
Proof.
  intros He Ht Hh _ Hip _ Hopt pkt off.
  pose proof (ip4_hl_word ip (ig_fields _ _ _ Hip)) as Hhl.
  exists (HE_RES HE_IP4 (sizeof eth_hdr)), (HE_RES (case_proto f) (4 * ip4_hl ip)).
  assert (R : in_word 16 (4 * ip4_hl ip)) by (unfold in_word; lia).
  destruct (HE_RES_roundtrip HE_IP4 (sizeof eth_hdr)) as (P0 & L0 & _); [done..|].
  destruct (HE_RES_roundtrip (case_proto f) _ (case_proto_word f) R) as (P1 & L1 & _).
  rewrite P0, L0, P1, L1. change (sizeof eth_hdr) with 14. split_ands; try done.
  - unfold he_eth, pkt. rewrite extract_packed by (layout || done). cbn [mbind option_bind].
    rewrite Ht. change 0x0800 with (case_value NET_ETH_TYPE_IPV4) at 1.
    rewrite switch_case; [done|by left|done|].
    intros g Hg. cbn in Hg. intuition (subst; done).
  - unfold pkt. rewrite (app_assoc pre). apply he_ip4_good; [done|].
    rewrite length_app, Nat2Z.inj_add, length_header_bytes by layout. done.
  - unfold pkt. rewrite !(app_assoc pre), !app_assoc. apply drop_app_length'.
    rewrite !length_app. apply Nat2Z.inj. pose proof (ig_hl _ _ _ Hip).
    rewrite !Nat2Z.inj_add, !length_header_bytes by layout.
    change (sizeof eth_hdr) with 14. change (sizeof ip4_hdr) with 20.
    rewrite Z2Nat.id by lia. unfold off. lia.
Qed.

(** An Ethernet frame with a TCP segment behind an IPv4 header with one option word. *)
Lemma he_eth_ip4_walk_witness :
  let ip := [4; 6; 0; 32; 0; 0; 64; 6; 0; 0x0a000001; 0x0a000002] in
  let pkt := [0] ++ header_bytes eth_hdr [0x001122334455; 0x66778899aabb; 0x0800] ++
             header_bytes ip4_hdr ip ++ [1; 1; 1; 1] ++ [9; 9] in
  exists r0 r1,
    he_eth (Build (fun _ => true) true true) pkt 1 = Some ([0x001122334455; 0x66778899aabb; 0x0800], r0) /\
    HE_RES_PROTO_of r0 = HE_IP4 /\
    he_ip4 (Build (fun _ => true) true true) pkt (1 + HE_RES_LEN_of r0) = Some (ip, r1) /\
    HE_RES_PROTO_of r1 = HE_TCP /\
    drop (Z.to_nat (1 + HE_RES_LEN_of r0 + HE_RES_LEN_of r1)) pkt = [9; 9].
Proof.
  intros ip pkt.
  refine (he_eth_ip4_walk (Build (fun _ => true) true true) NET_IP_PROTO_TCP
    [0x001122334455; 0x66778899aabb; 0x0800] ip [0] [1; 1; 1; 1] [9; 9] _ eq_refl eq_refl (or_introl eq_refl) _ eq_refl eq_refl).
  - by repeat constructor.
  - split.
    + by repeat constructor.
    + split; [by right; left|done].
    + reflexivity.
    + apply Z.leb_le. reflexivity.
    + done.
Defined.

(** Extracting a TCP header with options or a UDP header returns the encoded
    fields and the length up to the payload; UDP names VXLAN exactly when the
    non-zero VXLAN port is its destination port. *)
Theorem he_l4_walk tcp udp pre options payload vxln_prt :
  fields_ok tcp_hdr tcp -> fields_ok udp_hdr udp ->
  Z.of_nat (length options) = 4 * tcp_off tcp - 20 -> 5 <= tcp_off tcp ->
  let off := Z.of_nat (length pre) in
  let tpkt := pre ++ header_bytes tcp_hdr tcp ++ options ++ payload in
  let upkt := pre ++ header_bytes udp_hdr udp ++ payload in
  (exists r, he_tcp tpkt off = Some (tcp, r) /\ HE_RES_PROTO_of r = HE_NONE /\
    drop (Z.to_nat (off + HE_RES_LEN_of r)) tpkt = payload) /\
  (exists r, he_udp upkt off vxln_prt = Some (udp, r) /\
    (HE_RES_PROTO_of r = HE_VXLAN <-> vxln_prt <> 0 /\ udp_dport udp = vxln_prt) /\
    drop (Z.to_nat (off + HE_RES_LEN_of r)) upkt = payload).
Proof.
  intros Ht Hu Hopt Hoff off tpkt upkt.
  assert (Ho : 0 <= tcp_off tcp < 16) by by apply (field_word tcp_hdr tcp 4 4).
  split.
  - exists (HE_RES HE_NONE (4 * tcp_off tcp)).
    destruct (HE_RES_roundtrip HE_NONE (4 * tcp_off tcp)) as (P & L & _);
      [done|unfold in_word; lia|]. rewrite P, L. split_ands; [|done|].
    + unfold he_tcp, tpkt. by rewrite extract_packed by (layout || done).
    + unfold tpkt. rewrite !app_assoc. apply drop_app_length'. rewrite !length_app.
      apply Nat2Z.inj. rewrite !Nat2Z.inj_add, !length_header_bytes by layout.
      change (sizeof tcp_hdr) with 20. rewrite Z2Nat.id by lia. unfold off. lia.
  - set (np := if negb (vxln_prt =? 0) && (udp_dport udp =? vxln_prt) then HE_VXLAN else HE_NONE).
    exists (HE_RES np (sizeof udp_hdr)).
    destruct (HE_RES_roundtrip np (sizeof udp_hdr)) as (P & L & _);
      [unfold np; by case_bool|done|]. rewrite P, L. split_ands.
    + unfold he_udp, upkt. by rewrite extract_packed by (layout || done).
    + unfold np. destruct (Z.eqb_spec vxln_prt 0), (Z.eqb_spec (udp_dport udp) vxln_prt);
        cbn; intuition (done || lia).
    + unfold upkt. rewrite !app_assoc. apply drop_app_length'. rewrite !length_app.
      apply Nat2Z.inj. rewrite !Nat2Z.inj_add, !length_header_bytes by layout.
      change (sizeof udp_hdr) with 8. rewrite Z2Nat.id by lia. unfold off. lia.
Qed.

Lemma he_l4_walk_witness :
  let udp := [1000; 4789; 10; 0] in
  exists r, he_udp ([0] ++ header_bytes udp_hdr udp ++ [9; 9]) 1 4789 = Some (udp, r) /\
    (HE_RES_PROTO_of r = HE_VXLAN <-> 4789 <> 0 /\ 4789 = 4789) /\
    drop (Z.to_nat (1 + HE_RES_LEN_of r)) ([0] ++ header_bytes udp_hdr udp ++ [9; 9]) = [9; 9].
Proof.
  intros udp.
  refine (proj2 (he_l4_walk [80; 81; 1; 2; 6; 0; 16; 512; 0; 0] udp [0] [1; 1; 1; 1] [9; 9] 4789
    _ _ eq_refl _)).
  - by repeat constructor.
  - by repeat constructor.
  - apply Z.leb_le. reflexivity.
Defined.

(** he_ip4 on any header: a set MF bit gives HE_UNKNOWN whatever the checks
    found; otherwise, in a build with the checks, a bad TTL, header length and
    version are reported in that order of precedence, and without them the
    protocol of the header is. *)
Theorem he_ip4_rejects cfg ip pre post : fields_ok ip4_hdr ip ->
  exists np, in_word 16 np /\
  he_ip4 cfg (pre ++ header_bytes ip4_hdr ip ++ post) (Z.of_nat (length pre)) =
    Some (ip, HE_RES np (4 * ip4_hl ip)) /\
  (ip4_frag ip .& NET_IP_FLAGS_MF <> 0 -> np = HE_UNKNOWN) /\
  (ip4_frag ip .& NET_IP_FLAGS_MF = 0 ->
    (ADD_NET_IP4_CHECK cfg = false -> np = switch cfg ip4_cases (ip4_proto ip)) /\
    (ADD_NET_IP4_CHECK cfg = true ->
      np = if ip4_ttl ip <=? 1 then HE_ERROR_IP4_BAD_TTL
           else if ip4_hl ip <? 5 then HE_ERROR_IP4_BAD_HL
           else if ip4_ver ip =? 4 then switch cfg ip4_cases (ip4_proto ip)
           else HE_ERROR_IP4_BAD_VER)).
Proof.
  intros Hip. unfold he_ip4. rewrite extract_header by (layout || done).
  cbn [mbind option_bind].
  eexists. split; [|split; [reflexivity|]].
  - destruct (negb _); [done|]. unfold HE_IP4_CHECK. pose proof (switch_word cfg ip4_cases (ip4_proto ip)).
    repeat case_bool; done.
  - split; [intros H; by apply Z.eqb_neq in H as ->|]. intros ->. cbn [Z.eqb negb].
    unfold HE_IP4_CHECK. split; intros ->; [done|].
    by repeat match goal with |- context [if ?b then _ else _] => destruct b eqn:? end; bool_to_Z.
Qed.

(** A first fragment: more fragments follow. *)
Lemma he_ip4_rejects_witness :
  let ip := [4; 5; 0; 40; 0; 0x2000; 64; 6; 0; 0x0a000001; 0x0a000002] in
  exists np, he_ip4 (Build (fun _ => true) true true) ([] ++ header_bytes ip4_hdr ip ++ [7]) 0 =
    Some (ip, HE_RES np 20) /\ np = HE_UNKNOWN.
Proof.
  intros ip.
  destruct (he_ip4_rejects (Build (fun _ => true) true true) ip [] [7]) as (np & _ & E & Hmf & _).
  - by repeat constructor.
  - exists np. split; [exact E|]. apply Hmf. by vm_compute.
Defined.

(** The payload of a last fragment, which has no further header, is classified as
    the first one's. *)
Lemma he_ip4_last_fragment cfg f ip pre post : ip4_good cfg f ip ->
  ip4_frag ip .& NET_IP_FRAG_OFF_MASK <> 0 ->
  he_ip4 cfg (pre ++ header_bytes ip4_hdr ip ++ post) (Z.of_nat (length pre)) =
    Some (ip, HE_RES (case_proto f) (4 * ip4_hl ip)).
Proof. intros Hip _. by apply he_ip4_good. Qed.

(** he_gre returns the base header and four bytes for each of the checksum,
    key and sequence flags, at most the sixteen bytes he_gre_fit asks for, and the
    protocol its switch selects. *)
Theorem he_gre_length cfg gre pre post : fields_ok gre_hdr gre ->
  exists np len,
  he_gre cfg (pre ++ header_bytes gre_hdr gre ++ post) (Z.of_nat (length pre)) =
    Some (gre, HE_RES np len) /\
  np = switch cfg gre_cases (gre_proto gre) /\
  len = sizeof gre_hdr + 4 * (Z.b2z (Z.testbit (gre_flags gre) 3) +
    Z.b2z (Z.testbit (gre_flags gre) 1) + Z.b2z (Z.testbit (gre_flags gre) 0)) /\
  4 <= len <= sizeof gre_hdr + 12.
Proof.
  intros Hg. unfold he_gre. rewrite extract_header by (layout || done). cbn [mbind option_bind].
  eexists _, _. split; [reflexivity|]. split; [done|].
  assert (Hf : 0 <= gre_flags gre < 16) by by apply (field_word gre_hdr gre 0 4).
  assert (gre_flags gre = 0 \/ gre_flags gre = 1 \/ gre_flags gre = 2 \/ gre_flags gre = 3 \/
    gre_flags gre = 4 \/ gre_flags gre = 5 \/ gre_flags gre = 6 \/ gre_flags gre = 7 \/
    gre_flags gre = 8 \/ gre_flags gre = 9 \/ gre_flags gre = 10 \/ gre_flags gre = 11 \/
    gre_flags gre = 12 \/ gre_flags gre = 13 \/ gre_flags gre = 14 \/ gre_flags gre = 15)
    as Hc by lia.
  repeat (destruct Hc as [->|Hc]; [vm_compute; done|]). by rewrite Hc; vm_compute.
Qed.

Lemma he_gre_length_witness :
  exists np len,
  he_gre (Build (fun _ => true) true true) ([] ++ header_bytes gre_hdr [0xa; 0; 0; 0x6558] ++ [7; 7]) 0 =
    Some ([0xa; 0; 0; 0x6558], HE_RES np len) /\ np = HE_ETHER /\ len = 12.
Proof.
  destruct (he_gre_length (Build (fun _ => true) true true) [0xa; 0; 0; 0x6558] [] [7; 7])
    as (np & len & E & Hnp & Hlen & _).
  - by repeat constructor.
  - exists np, len. exact (conj E (conj Hnp Hlen)).
Defined.

(** IPv6 no-next-header is reported as HE_NONE, and nothing as HE_IP6_NONE. *)
Lemma he_ip6_no_next_header cfg src off dst r :
  ADD_NET_IP6_CHECK cfg = false -> he_ip6 cfg src off = Some (dst, r) ->
  HE_RES_LEN_of r = sizeof ip6_hdr /\ HE_RES_PROTO_of r <> HE_IP6_NONE /\
  (ip6_nh dst = 0x3b -> has cfg NET_IP_PROTO_NONE = true -> HE_RES_PROTO_of r = HE_NONE).
Proof.
  intros Hck. unfold he_ip6. destruct (extract ip6_hdr src off) as [d|]; [|done].
  cbn [mbind option_bind]. unfold HE_IP6_CHECK. rewrite Hck. intros E.
  assert (dst = d) as -> by congruence.
  assert (r = HE_RES (switch cfg IP6_PROTO_SWITCH (ip6_nh d)) (sizeof ip6_hdr)) as -> by congruence.
  destruct (HE_RES_roundtrip (switch cfg IP6_PROTO_SWITCH (ip6_nh d)) (sizeof ip6_hdr)
    (switch_word _ _ _)) as (P & L & _); [done|]. rewrite P, L. split_ands; [done|..].
  - destruct (switch_spec cfg IP6_PROTO_SWITCH (ip6_nh d)) as [->|(f & _ & _ & _ & ->)]; [done|].
    by destruct f.
  - intros -> Hh. change 0x3b with (case_value NET_IP_PROTO_NONE).
    rewrite switch_case; [done|cbn; tauto|done|].
    intros g Hg. cbn in Hg. intuition (subst; done).
Qed.

End HdrExt.
