(* ===== verification/TmConfig.v ===== *)
(** lib/nfp/_c/tm_config.c: configuration of the NBI traffic manager's queues,
    schedulers and shapers. *)
From Stdlib Require Import ZArith Lia List String Sorted.
From stdpp Require Import base list numbers option strings.
From S2P Require Import Prelude Me MemBulk Xpb.
#[local] Open Scope string_scope.
#[local] Open Scope list_scope.
#[local] Open Scope Z_scope.

Module TmConfig.

Definition MAX_NBI_NUMBER : Z := 1.
Definition MAX_TM_QUEUE_NUM : Z := 1023.
Definition MAX_TM_L1_L2_SCHED_NUM : Z := 143.
Definition MAX_TM_SCHED_NUM : Z := 144.
Definition NUM_L1_SCHEDS : Z := 16.
Definition NUM_L2_SCHEDS : Z := 128.
Definition HEAD_TAIL_SRAM_MAX : Z := 16384.
Definition QUEUE_SIZE_MIN : Z := 3.
Definition TM_L0_SCHED_NUM : Z := 144.
Definition CMD_BURST_SZ : Z := 16.
Definition CMD_BURST_BYTES : Z := CMD_BURST_SZ ≪ 2.
Definition L0_SCHEDULER_INPUTS : Z := 128.
Definition L1L2_SCHEDULER_INPUTS : Z := 8.
Definition L1L2_DWRR_BURST_SZ : Z := L1L2_SCHEDULER_INPUTS.
Definition L1L2_DWRR_BURST_BYTES : Z := L1L2_DWRR_BURST_SZ ≪ 2.
Definition TM_INIT_MAX_Q_CLUSTERS : nat := 24.
Definition TM_INIT_MAX_SHAPER_CLUSTERS : nat := 24.
Definition TM_INIT_MAX_SCHEDULER_CLUSTERS : nat := 24.

(** ** Register addresses *)

(** nfp6000/nfp_nbi_tm.h *)
Definition NFP_NBI_TM_XPB_OFF (isl : Z) : Z := shl32 isl 24 .| 0x8140000.
Definition NFP_NBI_TM_TRAFFIC_MANAGER_REG : Z := 0x0000.
Definition NFP_NBI_TM_QUEUE_REG : Z := 0x10000.
Definition NFP_NBI_TM_SCHEDULER_REG : Z := 0x20000.
Definition NFP_NBI_TM_SCHEDULER_L1_WEIGHT : Z := 0x30000.
Definition NFP_NBI_TM_SCHEDULER_L1_DEFICIT : Z := 0x40000.
Definition NFP_NBI_TM_SCHEDULER_L2_WEIGHT : Z := 0x60000.
Definition NFP_NBI_TM_SCHEDULER_L2_DEFICIT : Z := 0x70000.
Definition NFP_NBI_TM_SHAPER_REG : Z := 0x90000.
Definition NFP_NBI_TM_QUEUE_STATUS (x : Z) : Z := 0x0000 + x * 0x4.
Definition NFP_NBI_TM_QUEUE_CONFIG (x : Z) : Z := 0x1000 + x * 0x4.
Definition NFP_NBI_TM_QUEUE_DROP_COUNT (x : Z) : Z := 0x2000 + x * 0x4.
Definition NFP_NBI_TM_QUEUE_DROP_COUNT_CLEAR (x : Z) : Z := 0x3000 + x * 0x4.
Definition NFP_NBI_TM_SCHEDULER_CONFIG (x : Z) : Z := 0x0000 + x * 0x4.
Definition NFP_NBI_TM_SCHEDULER_WEIGHT (x : Z) : Z := 0x0800 + x * 0x4.
Definition NFP_NBI_TM_SCHEDULER_DEFICIT (x : Z) : Z := 0x1000 + x * 0x4.
Definition NFP_NBI_TM_L1_L2_SCHEDULER_WEIGHT (x : Z) : Z := 0x0000 + x * 0x4.
Definition NFP_NBI_TM_L1_L2_SCHEDULER_DEFICIT (x : Z) : Z := 0x0000 + x * 0x4.
Definition NFP_NBI_TM_SHAPER_RATE (x : Z) : Z := 0x0000 + x * 0x4.
Definition NFP_NBI_TM_SHAPER_THRESHOLD (x : Z) : Z := 0x0800 + x * 0x4.
Definition NFP_NBI_TM_SHAPER_MAX_OVERSHOOT (x : Z) : Z := 0x1000 + x * 0x4.
Definition NFP_NBI_TM_SHAPER_RATE_ADJUST (x : Z) : Z := 0x1800 + x * 0x4.
Definition NFP_NBI_TM_SHAPER_STATUS (x : Z) : Z := 0x2000 + x * 0x4.

Definition NBI_TM_HEAD_TAIL_SRAM (isl : Z) : Z := shl32 isl 24 .| 0x268000.

(** The addresses are [uint32_t] variables of the callers. *)
Definition tm_addr (nbi reg off : Z) : Z := u32 (NFP_NBI_TM_XPB_OFF nbi + reg + off).
Definition TM_QUEUE_CONFIG_ADDR (nbi qnum : Z) : Z :=
  tm_addr nbi NFP_NBI_TM_QUEUE_REG (NFP_NBI_TM_QUEUE_CONFIG qnum).
Definition TM_CONFIG_REG_ADDR (nbi : Z) : Z := tm_addr nbi NFP_NBI_TM_TRAFFIC_MANAGER_REG 0.
Definition TM_SCHED_CONFIG_ADDR (nbi sched : Z) : Z :=
  tm_addr nbi NFP_NBI_TM_SCHEDULER_REG (NFP_NBI_TM_SCHEDULER_CONFIG sched).
Definition TM_SCHED_L0_WEIGHT_ADDR (nbi port : Z) : Z :=
  tm_addr nbi NFP_NBI_TM_SCHEDULER_REG (NFP_NBI_TM_SCHEDULER_WEIGHT port).
Definition TM_SCHED_L0_DEFICIT_ADDR (nbi port : Z) : Z :=
  tm_addr nbi NFP_NBI_TM_SCHEDULER_REG (NFP_NBI_TM_SCHEDULER_DEFICIT port).
Definition TM_SCHED_L1_WEIGHT_ADDR (nbi sched port : Z) : Z :=
  tm_addr nbi NFP_NBI_TM_SCHEDULER_L1_WEIGHT
    (NFP_NBI_TM_L1_L2_SCHEDULER_WEIGHT (sched * L1L2_SCHEDULER_INPUTS + port)).
Definition TM_SCHED_L2_WEIGHT_ADDR (nbi sched port : Z) : Z :=
  tm_addr nbi NFP_NBI_TM_SCHEDULER_L2_WEIGHT
    (NFP_NBI_TM_L1_L2_SCHEDULER_WEIGHT (sched * L1L2_SCHEDULER_INPUTS + port)).
Definition TM_SCHED_L1_DEFICIT_ADDR (nbi sched port : Z) : Z :=
  tm_addr nbi NFP_NBI_TM_SCHEDULER_L1_DEFICIT
    (NFP_NBI_TM_L1_L2_SCHEDULER_DEFICIT (sched * L1L2_SCHEDULER_INPUTS + port)).
Definition TM_SCHED_L2_DEFICIT_ADDR (nbi sched port : Z) : Z :=
  tm_addr nbi NFP_NBI_TM_SCHEDULER_L2_DEFICIT
    (NFP_NBI_TM_L1_L2_SCHEDULER_DEFICIT (sched * L1L2_SCHEDULER_INPUTS + port)).
Definition TM_SHAPER_RATE_ADDR (nbi shaper : Z) : Z :=
  tm_addr nbi NFP_NBI_TM_SHAPER_REG (NFP_NBI_TM_SHAPER_RATE shaper).
Definition TM_SHAPER_THRESHOLD_ADDR (nbi shaper : Z) : Z :=
  tm_addr nbi NFP_NBI_TM_SHAPER_REG (NFP_NBI_TM_SHAPER_THRESHOLD shaper).
Definition TM_SHAPER_MAX_OVERSHOOT_ADDR (nbi shaper : Z) : Z :=
  tm_addr nbi NFP_NBI_TM_SHAPER_REG (NFP_NBI_TM_SHAPER_MAX_OVERSHOOT shaper).
Definition TM_SHAPER_RATE_ADJUST_ADDR (nbi shaper : Z) : Z :=
  tm_addr nbi NFP_NBI_TM_SHAPER_REG (NFP_NBI_TM_SHAPER_RATE_ADJUST shaper).

(** ** Reads and writes of the registers of a level *)

(** [__is_ct_const] of an expression of two arguments. *)
Definition cadd (a b : carg) : carg := CArg (u32 (cval a + cval b)) (is_ct a && is_ct b).
Definition cshl2 (a : carg) : carg := CArg (shl32 (cval a) 2) (is_ct a).

(** The assertions on the NBI and on a range of registers that starts at [first]. *)
Definition nbi_assert (nbi : carg) : prog unit :=
  try_ctassert (is_ct nbi) (cval nbi <? MAX_NBI_NUMBER).
Definition range_asserts (first num : carg) (limit burst : Z) : prog unit :=
  _ ← try_ctassert (is_ct first) (cval first <? limit);
  _ ← try_ctassert (is_ct num) ((1 <=? cval num) && (cval num <=? burst));
  try_ctassert (is_ct (cadd first num)) (cval (cadd first num) <=? limit).

(** The L0 scheduler and shaper. *)

Definition __tm_config_l0_dwrr_weight_read (nbi sched_port num_sch_ports : carg)
    (sync : sync_t) : prog (list Z) :=
  let addr := CArg (TM_SCHED_L0_WEIGHT_ADDR (cval nbi) (cval sched_port))
                   (is_ct nbi && is_ct sched_port) in
  _ ← nbi_assert nbi;
  _ ← range_asserts sched_port num_sch_ports L0_SCHEDULER_INPUTS CMD_BURST_SZ;
  Xpb.__xpb_read addr (cshl2 num_sch_ports) (ct CMD_BURST_BYTES) sync.

Definition tm_config_l0_dwrr_weight_read (nbi sched_port num_sch_ports : carg) : prog (list Z) :=
  __tm_config_l0_dwrr_weight_read nbi sched_port num_sch_ports ctx_swap.

Definition __tm_config_l0_dwrr_weight_write (weight deficit : list Z)
    (nbi sched_port num_sch_ports : carg) (sync : sync_t) : prog unit :=
  let deficit_addr := CArg (TM_SCHED_L0_DEFICIT_ADDR (cval nbi) (cval sched_port))
                           (is_ct nbi && is_ct sched_port) in
  let weight_addr := CArg (TM_SCHED_L0_WEIGHT_ADDR (cval nbi) (cval sched_port))
                          (is_ct nbi && is_ct sched_port) in
  _ ← nbi_assert nbi;
  _ ← range_asserts sched_port num_sch_ports L0_SCHEDULER_INPUTS CMD_BURST_SZ;
  _ ← Xpb.__xpb_write weight weight_addr (cshl2 num_sch_ports) (ct CMD_BURST_BYTES) sync;
  Xpb.__xpb_write deficit deficit_addr (cshl2 num_sch_ports) (ct CMD_BURST_BYTES) sync.

Definition tm_config_l0_dwrr_weight_write (weight : list Z) (nbi sched_port num_sch_ports : carg) : prog unit :=
  let deficit := replicate (Z.to_nat CMD_BURST_SZ) 0 in
  __tm_config_l0_dwrr_weight_write weight deficit nbi sched_port num_sch_ports ctx_swap.

Definition __tm_config_l0_sched_read (nbi : carg) (sync : sync_t) : prog (list Z) :=
  let addr := CArg (TM_SCHED_CONFIG_ADDR (cval nbi) TM_L0_SCHED_NUM) (is_ct nbi) in
  _ ← nbi_assert nbi;
  Xpb.__xpb_read addr (ct 4) (ct 4) sync.

Definition tm_config_l0_sched_read (nbi : carg) : prog (list Z) :=
  __tm_config_l0_sched_read nbi ctx_swap.

Definition __tm_config_l0_sched_write (config : list Z) (nbi : carg) (sync : sync_t) : prog unit :=
  let addr := CArg (TM_SCHED_CONFIG_ADDR (cval nbi) TM_L0_SCHED_NUM) (is_ct nbi) in
  _ ← nbi_assert nbi;
  Xpb.__xpb_write config addr (ct 4) (ct 4) sync.

Definition tm_config_l0_sched_write (config : list Z) (nbi : carg) : prog unit :=
  __tm_config_l0_sched_write config nbi ctx_swap.

(** The rate, threshold, overshoot and adjust registers. *)
Definition __tm_config_l0_shaper_read (nbi : carg) (sync : sync_t)
    : prog (list Z * list Z * list Z * list Z) :=
  let known := is_ct nbi in
  let addr_adj := CArg (TM_SHAPER_RATE_ADJUST_ADDR (cval nbi) TM_L0_SCHED_NUM) known in
  let addr_over := CArg (TM_SHAPER_MAX_OVERSHOOT_ADDR (cval nbi) TM_L0_SCHED_NUM) known in
  let addr_rate := CArg (TM_SHAPER_RATE_ADDR (cval nbi) TM_L0_SCHED_NUM) known in
  let addr_thresh := CArg (TM_SHAPER_THRESHOLD_ADDR (cval nbi) TM_L0_SCHED_NUM) known in
  _ ← nbi_assert nbi;
  adjust ← Xpb.__xpb_read addr_adj (ct 4) (ct 4) sync;
  overshoot ← Xpb.__xpb_read addr_over (ct 4) (ct 4) sync;
  rate ← Xpb.__xpb_read addr_rate (ct 4) (ct 4) sync;
  threshold ← Xpb.__xpb_read addr_thresh (ct 4) (ct 4) sync;
  Ret (rate, threshold, overshoot, adjust).

Definition tm_config_l0_shaper_read (nbi : carg) : prog (list Z * list Z * list Z * list Z) :=
  __tm_config_l0_shaper_read nbi ctx_swap.

Definition __tm_config_l0_shaper_write (rate threshold overshoot adjust : list Z)
    (nbi : carg) (sync : sync_t) : prog unit :=
  let known := is_ct nbi in
  let addr_adj := CArg (TM_SHAPER_RATE_ADJUST_ADDR (cval nbi) TM_L0_SCHED_NUM) known in
  let addr_over := CArg (TM_SHAPER_MAX_OVERSHOOT_ADDR (cval nbi) TM_L0_SCHED_NUM) known in
  let addr_rate := CArg (TM_SHAPER_RATE_ADDR (cval nbi) TM_L0_SCHED_NUM) known in
  let addr_thresh := CArg (TM_SHAPER_THRESHOLD_ADDR (cval nbi) TM_L0_SCHED_NUM) known in
  _ ← nbi_assert nbi;
  _ ← Xpb.__xpb_write adjust addr_adj (ct 4) (ct 4) sync;
  _ ← Xpb.__xpb_write overshoot addr_over (ct 4) (ct 4) sync;
  _ ← Xpb.__xpb_write rate addr_rate (ct 4) (ct 4) sync;
  Xpb.__xpb_write threshold addr_thresh (ct 4) (ct 4) sync.

Definition tm_config_l0_shaper_write (rate threshold overshoot adjust : list Z) (nbi : carg) : prog unit :=
  __tm_config_l0_shaper_write rate threshold overshoot adjust nbi ctx_swap.

(** The sixteen L1 schedulers and shapers. *)

Definition __tm_config_l1_dwrr_weight_read (nbi sched sched_port num_sch_ports : carg)
    (sync : sync_t) : prog (list Z) :=
  let addr := CArg (TM_SCHED_L1_WEIGHT_ADDR (cval nbi) (cval sched) (cval sched_port))
                   (is_ct nbi && is_ct sched && is_ct sched_port) in
  _ ← nbi_assert nbi;
  _ ← try_ctassert (is_ct sched) (cval sched <? NUM_L1_SCHEDS);
  _ ← range_asserts sched_port num_sch_ports L1L2_SCHEDULER_INPUTS L1L2_DWRR_BURST_SZ;
  Xpb.__xpb_read addr (cshl2 num_sch_ports) (ct L1L2_DWRR_BURST_BYTES) sync.

Definition tm_config_l1_dwrr_weight_read (nbi sched sched_port num_sch_ports : carg) : prog (list Z) :=
  __tm_config_l1_dwrr_weight_read nbi sched sched_port num_sch_ports ctx_swap.

Definition __tm_config_l1_dwrr_weight_write (weight deficit : list Z)
    (nbi sched sched_port num_sch_ports : carg) (sync : sync_t) : prog unit :=
  let deficit_addr := CArg (TM_SCHED_L1_DEFICIT_ADDR (cval nbi) (cval sched) (cval sched_port))
                           (is_ct nbi && is_ct sched && is_ct sched_port) in
  let weight_addr := CArg (TM_SCHED_L1_WEIGHT_ADDR (cval nbi) (cval sched) (cval sched_port))
                          (is_ct nbi && is_ct sched && is_ct sched_port) in
  _ ← nbi_assert nbi;
  _ ← try_ctassert (is_ct sched) (cval sched <? NUM_L1_SCHEDS);
  _ ← range_asserts sched_port num_sch_ports L1L2_SCHEDULER_INPUTS L1L2_DWRR_BURST_SZ;
  _ ← Xpb.__xpb_write weight weight_addr (cshl2 num_sch_ports) (ct L1L2_DWRR_BURST_BYTES) sync;
  Xpb.__xpb_write deficit deficit_addr (cshl2 num_sch_ports) (ct L1L2_DWRR_BURST_BYTES) sync.

Definition tm_config_l1_dwrr_weight_write (weight : list Z) (nbi sched sched_port num_sch_ports : carg) : prog unit :=
  let deficit := replicate (Z.to_nat L1L2_DWRR_BURST_SZ) 0 in
  __tm_config_l1_dwrr_weight_write weight deficit nbi sched sched_port num_sch_ports ctx_swap.

Definition __tm_config_l1_sched_read (nbi sched_num num_scheds : carg) (sync : sync_t) : prog (list Z) :=
  let l1_sched := u32 (cval sched_num + NUM_L2_SCHEDS) in
  let addr := CArg (TM_SCHED_CONFIG_ADDR (cval nbi) l1_sched) (is_ct nbi && is_ct sched_num) in
  _ ← nbi_assert nbi;
  _ ← range_asserts sched_num num_scheds NUM_L1_SCHEDS CMD_BURST_SZ;
  Xpb.__xpb_read addr (cshl2 num_scheds) (ct CMD_BURST_BYTES) sync.

Definition tm_config_l1_sched_read (nbi sched_num num_scheds : carg) : prog (list Z) :=
  __tm_config_l1_sched_read nbi sched_num num_scheds ctx_swap.

Definition __tm_config_l1_sched_write (config : list Z) (nbi sched_num num_scheds : carg)
    (sync : sync_t) : prog unit :=
  let l1_sched := u32 (cval sched_num + NUM_L2_SCHEDS) in
  let addr := CArg (TM_SCHED_CONFIG_ADDR (cval nbi) l1_sched) (is_ct nbi && is_ct sched_num) in
  _ ← nbi_assert nbi;
  _ ← range_asserts sched_num num_scheds NUM_L1_SCHEDS CMD_BURST_SZ;
  Xpb.__xpb_write config addr (cshl2 num_scheds) (ct CMD_BURST_BYTES) sync.

Definition tm_config_l1_sched_write (config : list Z) (nbi sched_num num_scheds : carg) : prog unit :=
  __tm_config_l1_sched_write config nbi sched_num num_scheds ctx_swap.

(** The rate, threshold, overshoot and adjust registers. *)
Definition __tm_config_l1_shaper_read (nbi sched_num num_scheds : carg) (sync : sync_t)
    : prog (list Z * list Z * list Z * list Z) :=
  let l1_sched := u32 (cval sched_num + NUM_L2_SCHEDS) in
  let known := is_ct nbi && is_ct sched_num in
  let addr_adj := CArg (TM_SHAPER_RATE_ADJUST_ADDR (cval nbi) l1_sched) known in
  let addr_over := CArg (TM_SHAPER_MAX_OVERSHOOT_ADDR (cval nbi) l1_sched) known in
  let addr_rate := CArg (TM_SHAPER_RATE_ADDR (cval nbi) l1_sched) known in
  let addr_thresh := CArg (TM_SHAPER_THRESHOLD_ADDR (cval nbi) l1_sched) known in
  _ ← nbi_assert nbi;
  _ ← range_asserts sched_num num_scheds NUM_L1_SCHEDS CMD_BURST_SZ;
  adjust ← Xpb.__xpb_read addr_adj (cshl2 num_scheds) (ct CMD_BURST_BYTES) sync;
  overshoot ← Xpb.__xpb_read addr_over (cshl2 num_scheds) (ct CMD_BURST_BYTES) sync;
  rate ← Xpb.__xpb_read addr_rate (cshl2 num_scheds) (ct CMD_BURST_BYTES) sync;
  threshold ← Xpb.__xpb_read addr_thresh (cshl2 num_scheds) (ct CMD_BURST_BYTES) sync;
  Ret (rate, threshold, overshoot, adjust).

Definition tm_config_l1_shaper_read (nbi sched_num num_scheds : carg) : prog (list Z * list Z * list Z * list Z) :=
  __tm_config_l1_shaper_read nbi sched_num num_scheds ctx_swap.

Definition __tm_config_l1_shaper_write (rate threshold overshoot adjust : list Z)
    (nbi sched_num num_scheds : carg) (sync : sync_t) : prog unit :=
  let l1_sched := u32 (cval sched_num + NUM_L2_SCHEDS) in
  let known := is_ct nbi && is_ct sched_num in
  let addr_adj := CArg (TM_SHAPER_RATE_ADJUST_ADDR (cval nbi) l1_sched) known in
  let addr_over := CArg (TM_SHAPER_MAX_OVERSHOOT_ADDR (cval nbi) l1_sched) known in
  let addr_rate := CArg (TM_SHAPER_RATE_ADDR (cval nbi) l1_sched) known in
  let addr_thresh := CArg (TM_SHAPER_THRESHOLD_ADDR (cval nbi) l1_sched) known in
  _ ← nbi_assert nbi;
  _ ← range_asserts sched_num num_scheds NUM_L1_SCHEDS CMD_BURST_SZ;
  _ ← Xpb.__xpb_write adjust addr_adj (cshl2 num_scheds) (ct CMD_BURST_BYTES) sync;
  _ ← Xpb.__xpb_write overshoot addr_over (cshl2 num_scheds) (ct CMD_BURST_BYTES) sync;
  _ ← Xpb.__xpb_write rate addr_rate (cshl2 num_scheds) (ct CMD_BURST_BYTES) sync;
  Xpb.__xpb_write threshold addr_thresh (cshl2 num_scheds) (ct CMD_BURST_BYTES) sync.

Definition tm_config_l1_shaper_write (rate threshold overshoot adjust : list Z) (nbi sched_num num_scheds : carg) : prog unit :=
  __tm_config_l1_shaper_write rate threshold overshoot adjust nbi sched_num num_scheds ctx_swap.

(** The L2 schedulers and shapers. *)

Definition __tm_config_l2_dwrr_weight_read (nbi sched sched_port num_sch_ports : carg)
    (sync : sync_t) : prog (list Z) :=
  let addr := CArg (TM_SCHED_L2_WEIGHT_ADDR (cval nbi) (cval sched) (cval sched_port))
                   (is_ct nbi && is_ct sched && is_ct sched_port) in
  _ ← nbi_assert nbi;
  _ ← try_ctassert (is_ct sched) (cval sched <? NUM_L2_SCHEDS);
  _ ← range_asserts sched_port num_sch_ports L1L2_SCHEDULER_INPUTS L1L2_DWRR_BURST_SZ;
  Xpb.__xpb_read addr (cshl2 num_sch_ports) (ct L1L2_DWRR_BURST_BYTES) sync.

Definition tm_config_l2_dwrr_weight_read (nbi sched sched_port num_sch_ports : carg) : prog (list Z) :=
  __tm_config_l2_dwrr_weight_read nbi sched sched_port num_sch_ports ctx_swap.

Definition __tm_config_l2_dwrr_weight_write (weight deficit : list Z)
    (nbi sched sched_port num_sch_ports : carg) (sync : sync_t) : prog unit :=
  let deficit_addr := CArg (TM_SCHED_L2_DEFICIT_ADDR (cval nbi) (cval sched) (cval sched_port))
                           (is_ct nbi && is_ct sched && is_ct sched_port) in
  let weight_addr := CArg (TM_SCHED_L2_WEIGHT_ADDR (cval nbi) (cval sched) (cval sched_port))
                          (is_ct nbi && is_ct sched && is_ct sched_port) in
  _ ← nbi_assert nbi;
  _ ← try_ctassert (is_ct sched) (cval sched <? NUM_L2_SCHEDS);
  _ ← range_asserts sched_port num_sch_ports L1L2_SCHEDULER_INPUTS L1L2_DWRR_BURST_SZ;
  _ ← Xpb.__xpb_write weight weight_addr (cshl2 num_sch_ports) (ct L1L2_DWRR_BURST_BYTES) sync;
  Xpb.__xpb_write deficit deficit_addr (cshl2 num_sch_ports) (ct L1L2_DWRR_BURST_BYTES) sync.

Definition tm_config_l2_dwrr_weight_write (weight : list Z) (nbi sched sched_port num_sch_ports : carg) : prog unit :=
  let deficit := replicate (Z.to_nat L1L2_DWRR_BURST_SZ) 0 in
  __tm_config_l2_dwrr_weight_write weight deficit nbi sched sched_port num_sch_ports ctx_swap.

Definition __tm_config_l2_sched_read (nbi sched_num num_scheds : carg) (sync : sync_t) : prog (list Z) :=
  let addr := CArg (TM_SCHED_CONFIG_ADDR (cval nbi) (cval sched_num)) (is_ct nbi && is_ct sched_num) in
  _ ← nbi_assert nbi;
  _ ← range_asserts sched_num num_scheds NUM_L2_SCHEDS CMD_BURST_SZ;
  Xpb.__xpb_read addr (cshl2 num_scheds) (ct CMD_BURST_BYTES) sync.

Definition tm_config_l2_sched_read (nbi sched_num num_scheds : carg) : prog (list Z) :=
  __tm_config_l2_sched_read nbi sched_num num_scheds ctx_swap.

Definition __tm_config_l2_sched_write (config : list Z) (nbi sched_num num_scheds : carg)
    (sync : sync_t) : prog unit :=
  let addr := CArg (TM_SCHED_CONFIG_ADDR (cval nbi) (cval sched_num)) (is_ct nbi && is_ct sched_num) in
  _ ← nbi_assert nbi;
  _ ← range_asserts sched_num num_scheds NUM_L2_SCHEDS CMD_BURST_SZ;
  Xpb.__xpb_write config addr (cshl2 num_scheds) (ct CMD_BURST_BYTES) sync.

Definition tm_config_l2_sched_write (config : list Z) (nbi sched_num num_scheds : carg) : prog unit :=
  __tm_config_l2_sched_write config nbi sched_num num_scheds ctx_swap.

(** The rate, threshold, overshoot and adjust registers. *)
Definition __tm_config_l2_shaper_read (nbi sched_num num_scheds : carg) (sync : sync_t)
    : prog (list Z * list Z * list Z * list Z) :=
  let known := is_ct nbi && is_ct sched_num in
  let addr_adj := CArg (TM_SHAPER_RATE_ADJUST_ADDR (cval nbi) (cval sched_num)) known in
  let addr_over := CArg (TM_SHAPER_MAX_OVERSHOOT_ADDR (cval nbi) (cval sched_num)) known in
  let addr_rate := CArg (TM_SHAPER_RATE_ADDR (cval nbi) (cval sched_num)) known in
  let addr_thresh := CArg (TM_SHAPER_THRESHOLD_ADDR (cval nbi) (cval sched_num)) known in
  _ ← nbi_assert nbi;
  _ ← range_asserts sched_num num_scheds NUM_L2_SCHEDS CMD_BURST_SZ;
  adjust ← Xpb.__xpb_read addr_adj (cshl2 num_scheds) (ct CMD_BURST_BYTES) sync;
  overshoot ← Xpb.__xpb_read addr_over (cshl2 num_scheds) (ct CMD_BURST_BYTES) sync;
  rate ← Xpb.__xpb_read addr_rate (cshl2 num_scheds) (ct CMD_BURST_BYTES) sync;
  threshold ← Xpb.__xpb_read addr_thresh (cshl2 num_scheds) (ct CMD_BURST_BYTES) sync;
  Ret (rate, threshold, overshoot, adjust).

Definition tm_config_l2_shaper_read (nbi sched_num num_scheds : carg) : prog (list Z * list Z * list Z * list Z) :=
  __tm_config_l2_shaper_read nbi sched_num num_scheds ctx_swap.

Definition __tm_config_l2_shaper_write (rate threshold overshoot adjust : list Z)
    (nbi sched_num num_scheds : carg) (sync : sync_t) : prog unit :=
  let known := is_ct nbi && is_ct sched_num in
  let addr_adj := CArg (TM_SHAPER_RATE_ADJUST_ADDR (cval nbi) (cval sched_num)) known in
  let addr_over := CArg (TM_SHAPER_MAX_OVERSHOOT_ADDR (cval nbi) (cval sched_num)) known in
  let addr_rate := CArg (TM_SHAPER_RATE_ADDR (cval nbi) (cval sched_num)) known in
  let addr_thresh := CArg (TM_SHAPER_THRESHOLD_ADDR (cval nbi) (cval sched_num)) known in
  _ ← nbi_assert nbi;
  _ ← range_asserts sched_num num_scheds NUM_L2_SCHEDS CMD_BURST_SZ;
  _ ← Xpb.__xpb_write adjust addr_adj (cshl2 num_scheds) (ct CMD_BURST_BYTES) sync;
  _ ← Xpb.__xpb_write overshoot addr_over (cshl2 num_scheds) (ct CMD_BURST_BYTES) sync;
  _ ← Xpb.__xpb_write rate addr_rate (cshl2 num_scheds) (ct CMD_BURST_BYTES) sync;
  Xpb.__xpb_write threshold addr_thresh (cshl2 num_scheds) (ct CMD_BURST_BYTES) sync.

Definition tm_config_l2_shaper_write (rate threshold overshoot adjust : list Z) (nbi sched_num num_scheds : carg) : prog unit :=
  __tm_config_l2_shaper_write rate threshold overshoot adjust nbi sched_num num_scheds ctx_swap.

(** ** Configuration from the initialisation structures *)

(** [ctx_arb[...]] *)
Definition ctx_arb : prog unit := Vis (EArb A_wait) (fun _ => Ret tt).

(** The bit-fields of the configuration words. *)
Definition queuesize (config : Z) : Z := field 6 4 config.
Definition dwrrenable (config : Z) : bool := Z.testbit config 0.

Definition nbi_tm_q_config__ (nbi qnum queue_config head_tail_sram : Z) : prog Z :=
  if MAX_TM_QUEUE_NUM <? qnum then Ret (-1) else
  let addr_queue_config := TM_QUEUE_CONFIG_ADDR nbi qnum in
  let head_tail_sram_xfer := [shl32 head_tail_sram 14 .| head_tail_sram; 0] in
  let ht_sram_hi := NBI_TM_HEAD_TAIL_SRAM nbi ≫ 8 in
  let ht_sram_lo := mul32 qnum 8 in
  _ ← issue (Cmd T_ct "xpb_write" [queue_config] addr_queue_config false 0
               (Some 1) (Some sig_done) None);
  _ ← issue (Cmd T_nbi "write" head_tail_sram_xfer ht_sram_hi true ht_sram_lo
               (Some 1) (Some sig_done) None);
  _ ← ctx_arb;
  Ret 0.

(** One burst of weights from [i]: the words read before, then the next read. *)
Fixpoint l0_weight_loop (n : nat) (nbi : carg) (l0_sched i : Z) (weight_xr : list Z) : prog unit :=
  match n with
  | O => Ret tt
  | S n' =>
      let weight_xw := map (fun j => nth j weight_xr 0) (seq 0 (Z.to_nat CMD_BURST_SZ)) in
      _ ← __tm_config_l0_dwrr_weight_write weight_xw (replicate (Z.to_nat CMD_BURST_SZ) 0)
            nbi (rt i) (ct CMD_BURST_SZ) sig_done;
      if i + CMD_BURST_SZ <? L0_SCHEDULER_INPUTS then
        weight_xr ← MemBulk.__mem_read32 (l0_sched + 8 + 4 * (i + CMD_BURST_SZ))
                      (ct CMD_BURST_BYTES) (ct CMD_BURST_BYTES) sig_done;
        _ ← ctx_arb;
        l0_weight_loop n' nbi l0_sched (i + CMD_BURST_SZ) weight_xr
      else
        _ ← ctx_arb;
        l0_weight_loop n' nbi l0_sched (i + CMD_BURST_SZ) weight_xr
  end.

(** struct nfp_nbi_tm_l0_scheduler: in_use, scheduler_config, weight[128] *)
Definition nbi_tm_l0_scheduler_config__ (nbi : carg) (l0_sched : Z) : prog Z :=
  config_xr ← MemBulk.mem_read32 (l0_sched + 4) (ct 4);
  _ ← (if dwrrenable (nth 0 config_xr 0) then
         weight_xr ← MemBulk.mem_read32 (l0_sched + 8) (ct CMD_BURST_BYTES);
         l0_weight_loop (Z.to_nat (L0_SCHEDULER_INPUTS / CMD_BURST_SZ)) nbi l0_sched 0 weight_xr
       else Ret tt);
  _ ← tm_config_l0_sched_write [nth 0 config_xr 0] nbi;
  Ret 0.

(** [sched_config_xw] starts as the word [uninit] its register held before. *)
Definition nbi_tm_l1l2_scheduler_config__ (uninit : Z) (nbi : carg) (sched scheduler_config : Z)
    (weight : list Z) : prog Z :=
  if MAX_TM_L1_L2_SCHED_NUM <? sched then Ret (-1) else
  if dwrrenable scheduler_config then
    let sched_deficit_xw := [0; 0; 0; 0; 0; 0; 0; 0] in
    let sched_config_xw := [scheduler_config] in
    let sched_weight_xw := map (fun j => nth j weight 0) (seq 0 8) in
    _ ← (if sched <? NUM_L2_SCHEDS then
           _ ← __tm_config_l2_sched_write sched_config_xw nbi (rt sched) (ct 1) sig_done;
           __tm_config_l2_dwrr_weight_write sched_weight_xw sched_deficit_xw nbi (rt sched)
             (ct 0) (ct L1L2_SCHEDULER_INPUTS) sig_done
         else
           _ ← __tm_config_l1_sched_write sched_config_xw nbi (rt (sched - NUM_L2_SCHEDS)) (ct 1) sig_done;
           __tm_config_l1_dwrr_weight_write sched_weight_xw sched_deficit_xw nbi
             (rt (sched - NUM_L2_SCHEDS)) (ct 0) (ct L1L2_SCHEDULER_INPUTS) sig_done);
    _ ← ctx_arb;
    Ret 0
  else
    _ ← (if sched <? 128 then tm_config_l2_sched_write [uninit] nbi (rt sched) (ct 1)
         else tm_config_l1_sched_write [uninit] nbi (rt (sched - NUM_L2_SCHEDS)) (ct 1));
    Ret 0.

(** struct nfp_nbi_tm_shaper: the four register words. *)
Definition nbi_tm_shaper_config__ (nbi : carg) (shaper : Z) (tm_shaper : list Z) : prog Z :=
  if MAX_TM_SCHED_NUM <? shaper then Ret (-1) else
  let shaper_rate_xw := [nth 0 tm_shaper 0] in
  let shaper_threshold_xw := [nth 1 tm_shaper 0] in
  let max_overshoot_xw := [nth 2 tm_shaper 0] in
  let rate_adjust_xw := [nth 3 tm_shaper 0] in
  _ ← (if shaper <? NUM_L2_SCHEDS then
         __tm_config_l2_shaper_write shaper_rate_xw shaper_threshold_xw max_overshoot_xw
           rate_adjust_xw nbi (rt shaper) (ct 1) sig_done
       else if shaper <? MAX_TM_L1_L2_SCHED_NUM then
         __tm_config_l1_shaper_write shaper_rate_xw shaper_threshold_xw max_overshoot_xw
           rate_adjust_xw nbi (rt (shaper - NUM_L2_SCHEDS)) (ct 1) sig_done
       else
         __tm_config_l0_shaper_write shaper_rate_xw shaper_threshold_xw max_overshoot_xw
           rate_adjust_xw nbi sig_done);
  _ ← ctx_arb;
  Ret 0.

(** The bound on the iterations of the loops [for (x = start; x <= end; x++)]: the
    body fails above 1023. *)
Definition RANGE_FUEL : nat := 1025.

(** A cluster in memory: in_use, start, end, last, then its registers. *)
Definition cl_in_use (c : list Z) : bool := negb (nth 0 c 0 =? 0).
Definition cl_start (c : list Z) : Z := nth 1 c 0.
Definition cl_end (c : list Z) : Z := nth 2 c 0.
Definition cl_last (c : list Z) : bool := negb (nth 3 c 0 =? 0).
Definition cl_words (c : list Z) : list Z := drop 4 c.

(** [for (x = start; x <= end; x++) { ret = body(x); if (ret) goto out; }] *)
Fixpoint range_loop (fuel : nat) (x last : Z) (body : Z -> prog Z) : prog Z :=
  match fuel with
  | O => Stop Fuel
  | S fuel' =>
      if x <=? last then
        ret ← body x;
        if negb (ret =? 0) then Ret ret else range_loop fuel' (add32 x 1) last body
      else Ret 0
  end.

(** [for (i = 0; i < n; i++)] over the clusters at [base], [size] bytes each. *)
Fixpoint cluster_loop (n : nat) (base size : Z) (body : Z -> list Z -> prog Z) : prog Z :=
  match n with
  | O => Ret 0
  | S n' =>
      cluster ← MemBulk.mem_read32 base (ct size);
      ret ← (if cl_in_use cluster then body base cluster else Ret 0);
      if negb (ret =? 0) then Ret ret
      else if cl_last cluster then Ret 0
      else cluster_loop n' (base + size) size body
  end.

(** [uninit a sched] is what the transfer register holds when the scheduler [sched] of
    the cluster at [a] is configured: anything, at every call. *)
Definition nfp_nbi_tm_config_schedulers (uninit : Z -> Z -> Z) (nbi : carg)
    (tm_scheduler_cluster : Z) : prog Z :=
  if MAX_NBI_NUMBER <? cval nbi then Ret (-1) else
  cluster_loop TM_INIT_MAX_SCHEDULER_CLUSTERS tm_scheduler_cluster 52 (fun a scheduler_cluster =>
    range_loop RANGE_FUEL (cl_start scheduler_cluster) (cl_end scheduler_cluster) (fun sched =>
      nbi_tm_l1l2_scheduler_config__ (uninit a sched) nbi sched
        (nth 0 (cl_words scheduler_cluster) 0) (drop 1 (cl_words scheduler_cluster)))).

Definition nfp_nbi_tm_config_l0_scheduler (nbi : carg) (tm_l0_scheduler : Z) : prog Z :=
  if MAX_NBI_NUMBER <? cval nbi then Ret (-1) else
  in_use_xr ← MemBulk.mem_read32 tm_l0_scheduler (ct 4);
  if nth 0 in_use_xr 0 =? 0 then Ret 0
  else nbi_tm_l0_scheduler_config__ nbi tm_l0_scheduler.

Definition nbi_tm_config_shapers (nbi : carg) (tm_shaper_cluster : Z) : prog Z :=
  if MAX_NBI_NUMBER <? cval nbi then Ret (-1) else
  cluster_loop TM_INIT_MAX_SCHEDULER_CLUSTERS tm_shaper_cluster 32 (fun _ shaper_cluster =>
    range_loop RANGE_FUEL (cl_start shaper_cluster) (cl_end shaper_cluster) (fun shaper =>
      nbi_tm_shaper_config__ nbi shaper (cl_words shaper_cluster))).

(** The SRAM rounded up to a multiple of the queue size. *)
Definition align_sram (head_tail_sram queue_size : Z) : Z :=
  let shf_val := head_tail_sram ≫ queue_size in
  let shf_val := if negb ((head_tail_sram .& (shl32 1 queue_size - 1)) =? 0)
                 then add32 shf_val 1 else shf_val in
  shl32 shf_val queue_size.

(** The queues of a cluster; the result and the next free SRAM entry. *)
Fixpoint queue_loop (fuel : nat) (nbi queue_config queue_size qnum last head_tail_sram : Z)
    : prog (Z * Z) :=
  match fuel with
  | O => Stop Fuel
  | S fuel' =>
      if qnum <=? last then
        let head_tail_sram := align_sram head_tail_sram queue_size in
        if head_tail_sram + shl32 1 queue_size <=? HEAD_TAIL_SRAM_MAX then
          ret ← nbi_tm_q_config__ nbi qnum queue_config head_tail_sram;
          if negb (ret =? 0) then Ret (ret, head_tail_sram)
          else queue_loop fuel' nbi queue_config queue_size (add32 qnum 1) last
                 (add32 head_tail_sram (shl32 1 queue_size))
        else Ret (-1, head_tail_sram)
      else Ret (0, head_tail_sram)
  end.

Fixpoint queue_clusters (n : nat) (nbi base head_tail_sram : Z) : prog Z :=
  match n with
  | O => Ret 0
  | S n' =>
      queue_cluster ← MemBulk.mem_read32 base (ct 20);
      r ← (if cl_in_use queue_cluster then
             let queue_config := nth 0 (cl_words queue_cluster) 0 in
             let queue_size := queuesize queue_config in
             if queue_size <? QUEUE_SIZE_MIN then Ret (-1, head_tail_sram)
             else queue_loop RANGE_FUEL nbi queue_config queue_size
                    (cl_start queue_cluster) (cl_end queue_cluster) head_tail_sram
           else Ret (0, head_tail_sram));
      if negb (fst r =? 0) then Ret (fst r)
      else if cl_last queue_cluster then Ret 0
      else queue_clusters n' nbi (base + 20) (snd r)
  end.

Definition nfp_nbi_tm_config_queues (nbi tm_queue_cluster : Z) : prog Z :=
  if MAX_NBI_NUMBER <? nbi then Ret (-1) else
  queue_clusters TM_INIT_MAX_Q_CLUSTERS nbi tm_queue_cluster 0.

Definition nfp_nbi_tm_config (nbi : carg) (traffic_manager_config : Z) : prog Z :=
  if MAX_NBI_NUMBER <? cval nbi then Ret (-1) else
  let addr := CArg (TM_CONFIG_REG_ADDR (cval nbi)) (is_ct nbi) in
  _ ← Xpb.xpb_write addr traffic_manager_config;
  Ret 0.

(** ** Specification *)

(** The configuration register of a traffic manager, and the registers of its
    queues, schedulers and shapers. *)
Inductive tm_reg :=
  | R_config
  | R_queue_status (q : Z) | R_queue (q : Z) | R_drop_count (q : Z) | R_drop_count_clear (q : Z)
  | R_sched (s : Z)
  | R_l0_weight (p : Z) | R_l0_deficit (p : Z)
  | R_l1_weight (s p : Z) | R_l1_deficit (s p : Z)
  | R_l2_weight (s p : Z) | R_l2_deficit (s p : Z)
  | R_rate (s : Z) | R_threshold (s : Z) | R_overshoot (s : Z) | R_adjust (s : Z) | R_status (s : Z).

Definition reg_addr (nbi : Z) (r : tm_reg) : Z :=
  match r with
  | R_config => TM_CONFIG_REG_ADDR nbi
  | R_queue_status q => tm_addr nbi NFP_NBI_TM_QUEUE_REG (NFP_NBI_TM_QUEUE_STATUS q)
  | R_queue q => TM_QUEUE_CONFIG_ADDR nbi q
  | R_drop_count q => tm_addr nbi NFP_NBI_TM_QUEUE_REG (NFP_NBI_TM_QUEUE_DROP_COUNT q)
  | R_drop_count_clear q => tm_addr nbi NFP_NBI_TM_QUEUE_REG (NFP_NBI_TM_QUEUE_DROP_COUNT_CLEAR q)
  | R_sched s => TM_SCHED_CONFIG_ADDR nbi s
  | R_l0_weight p => TM_SCHED_L0_WEIGHT_ADDR nbi p
  | R_l0_deficit p => TM_SCHED_L0_DEFICIT_ADDR nbi p
  | R_l1_weight s p => TM_SCHED_L1_WEIGHT_ADDR nbi s p
  | R_l1_deficit s p => TM_SCHED_L1_DEFICIT_ADDR nbi s p
  | R_l2_weight s p => TM_SCHED_L2_WEIGHT_ADDR nbi s p
  | R_l2_deficit s p => TM_SCHED_L2_DEFICIT_ADDR nbi s p
  | R_rate s => TM_SHAPER_RATE_ADDR nbi s
  | R_threshold s => TM_SHAPER_THRESHOLD_ADDR nbi s
  | R_overshoot s => TM_SHAPER_MAX_OVERSHOOT_ADDR nbi s
  | R_adjust s => TM_SHAPER_RATE_ADJUST_ADDR nbi s
  | R_status s => tm_addr nbi NFP_NBI_TM_SHAPER_REG (NFP_NBI_TM_SHAPER_STATUS s)
  end.

(** The indices a register has. *)
Definition reg_ok (r : tm_reg) : Prop :=
  match r with
  | R_config => True
  | R_queue_status q | R_queue q | R_drop_count q | R_drop_count_clear q => 0 <= q < 1024
  | R_sched s => 0 <= s <= 144
  | R_l0_weight p | R_l0_deficit p => 0 <= p < 128
  | R_l1_weight s p | R_l1_deficit s p => 0 <= s < 16 /\ 0 <= p < 8
  | R_l2_weight s p | R_l2_deficit s p => 0 <= s < 128 /\ 0 <= p < 8
  | R_rate s | R_threshold s | R_overshoot s | R_adjust s | R_status s => 0 <= s <= 144
  end.

Lemma tm_addr_eq nbi reg off : 0 <= nbi <= 1 -> 0 <= reg + off < 2 ^ 24 ->
  tm_addr nbi reg off = 0x8140000 + nbi * 2 ^ 24 + (reg + off).
Proof.
  intros Hn Hr. unfold tm_addr.
  assert (E : NFP_NBI_TM_XPB_OFF nbi = 0x8140000 + nbi * 2 ^ 24).
  { assert (nbi = 0 \/ nbi = 1) as [-> | ->] by lia; reflexivity. }
  rewrite E, wrap_id; [lia|unfold in_word; lia].
Qed.

Ltac tm_unfold :=
  unfold reg_addr, TM_CONFIG_REG_ADDR, TM_QUEUE_CONFIG_ADDR, TM_SCHED_CONFIG_ADDR,
    TM_SCHED_L0_WEIGHT_ADDR, TM_SCHED_L0_DEFICIT_ADDR, TM_SCHED_L1_WEIGHT_ADDR,
    TM_SCHED_L1_DEFICIT_ADDR, TM_SCHED_L2_WEIGHT_ADDR, TM_SCHED_L2_DEFICIT_ADDR,
    TM_SHAPER_RATE_ADDR, TM_SHAPER_THRESHOLD_ADDR, TM_SHAPER_MAX_OVERSHOOT_ADDR,
    TM_SHAPER_RATE_ADJUST_ADDR, NFP_NBI_TM_TRAFFIC_MANAGER_REG, NFP_NBI_TM_QUEUE_REG,
    NFP_NBI_TM_SCHEDULER_REG, NFP_NBI_TM_SCHEDULER_L1_WEIGHT, NFP_NBI_TM_SCHEDULER_L1_DEFICIT,
    NFP_NBI_TM_SCHEDULER_L2_WEIGHT, NFP_NBI_TM_SCHEDULER_L2_DEFICIT, NFP_NBI_TM_SHAPER_REG,
    NFP_NBI_TM_QUEUE_CONFIG, NFP_NBI_TM_SCHEDULER_CONFIG, NFP_NBI_TM_SCHEDULER_WEIGHT,
    NFP_NBI_TM_SCHEDULER_DEFICIT, NFP_NBI_TM_L1_L2_SCHEDULER_WEIGHT,
    NFP_NBI_TM_L1_L2_SCHEDULER_DEFICIT, NFP_NBI_TM_SHAPER_RATE, NFP_NBI_TM_SHAPER_THRESHOLD,
    NFP_NBI_TM_SHAPER_MAX_OVERSHOOT, NFP_NBI_TM_SHAPER_RATE_ADJUST, NFP_NBI_TM_SHAPER_STATUS,
    NFP_NBI_TM_QUEUE_STATUS, NFP_NBI_TM_QUEUE_DROP_COUNT, NFP_NBI_TM_QUEUE_DROP_COUNT_CLEAR,
    L1L2_SCHEDULER_INPUTS in *.

(** The offset of a register in its traffic manager. *)
Definition reg_off (r : tm_reg) : Z := reg_addr 0 r - 0x8140000.

Lemma reg_addr_off nbi r : 0 <= nbi <= 1 -> reg_ok r ->
  reg_addr nbi r = 0x8140000 + nbi * 2 ^ 24 + reg_off r /\
  0 <= reg_off r < 2 ^ 20 /\ reg_off r mod 4 = 0.
Proof.
  intros Hn Hr. unfold reg_off. destruct r; cbn [reg_ok] in Hr; tm_unfold;
    rewrite !tm_addr_eq by lia; split_ands; try lia; divlia.
Qed.

Lemma reg_addr_ok nbi r : 0 <= nbi <= 1 -> reg_ok r -> Xpb.xpb_addr_ok (reg_addr nbi r) = true.
Proof.
  intros Hn Hr. destruct (reg_addr_off nbi r Hn Hr) as (E & Ho & H4).
  apply Xpb.xpb_addr_ok_spec; [unfold in_word; lia|]. split; [lia|]. rewrite E. divlia.
Qed.

(** C35: The register map of the two traffic managers: the configuration register
    and every register of every queue (status, configuration, drop count and its
    clear), scheduler (configuration, weights and deficits of its inputs) and
    shaper (rate, threshold, overshoot, rate adjustment and status) has an address
    the XPB command accepts, and no two of them share an address. *)
Theorem reg_addr_inj nbi nbi' r r' :
  0 <= nbi <= 1 -> 0 <= nbi' <= 1 -> reg_ok r -> reg_ok r' ->
  Xpb.xpb_addr_ok (reg_addr nbi r) = true /\
  (reg_addr nbi r = reg_addr nbi' r' -> nbi = nbi' /\ r = r').
Proof.
  intros Hn Hn' Hr Hr'. split; [by apply reg_addr_ok|]. intros E.
  destruct (reg_addr_off nbi r Hn Hr) as (E1 & Ho & _).
  destruct (reg_addr_off nbi' r' Hn' Hr') as (E2 & Ho' & _).
  assert (nbi = nbi') as <- by lia. split; [done|].
  assert (Eo : reg_off r = reg_off r') by lia. clear E E1 E2 Ho Ho'.
  unfold reg_off in Eo.
  destruct r, r'; cbn [reg_ok] in Hr, Hr'; tm_unfold; rewrite !tm_addr_eq in Eo by lia;
    try (exfalso; lia); f_equal; lia.
Qed.

Lemma reg_addr_inj_witness :
  Xpb.xpb_addr_ok (reg_addr 0 (R_queue 7)) = true /\
  (reg_addr 0 (R_queue 7) = reg_addr 1 (R_queue 7) -> 0 = 1 /\ R_queue 7 = R_queue 7).
Proof.
  assert (Hq : reg_ok (R_queue 7)) by (cbn; lia).
  exact (reg_addr_inj 0 1 (R_queue 7) (R_queue 7) ltac:(lia) ltac:(lia) Hq Hq).
Defined.

(** The register writes of a run: address, count and data. *)
Definition reg_write (e : event) : option (Z * option Z * list Z) :=
  match e with
  | ECmd c => if bool_decide (c_op c = "xpb_write") then Some (cmd_addr c, cmd_count c, c_data c)
              else None
  | _ => None
  end.
Definition reg_writes (tr : list event) : list (Z * option Z * list Z) := omap reg_write tr.

(** On the hardware [h], [p] returns [a] after the register writes [ws] in order. *)
Definition writes_on {St} (h : St -> event -> reply * St) {A} (p : prog A) (a : A)
    (ws : list (Z * option Z * list Z)) : Prop :=
  forall s, o_res (exec h p s) = inl a /\ reg_writes (o_trace (exec h p s)) = ws.

(** The same on every hardware. *)
Definition writes {A} (p : prog A) (a : A) (ws : list (Z * option Z * list Z)) : Prop :=
  forall St (h : St -> event -> reply * St), writes_on h p a ws.

Lemma writes_ret {A} (a : A) : writes (Ret a) a [].
Proof. done. Qed.

Lemma writes_on_bind {St} (h : St -> event -> reply * St) {A B} (p : prog A) (f : A -> prog B)
    a b ws ws' :
  writes_on h p a ws -> writes_on h (f a) b ws' -> writes_on h (bind p f) b (ws ++ ws').
Proof.
  intros Hp Hf s. rewrite exec_bind. cbv zeta. destruct (Hp s) as [-> Ht].
  destruct (Hf (o_st (exec h p s))) as [Hr Ht']. cbn. split; [done|].
  unfold reg_writes in *. by rewrite omap_app, Ht, Ht'.
Qed.

Lemma writes_bind {A B} (p : prog A) (f : A -> prog B) a b ws ws' :
  writes p a ws -> writes (f a) b ws' -> writes (bind p f) b (ws ++ ws').
Proof. intros Hp Hf St h. by apply (writes_on_bind h _ _ a). Qed.

Lemma writes_arb : writes ctx_arb tt [].
Proof. done. Qed.

(** The arguments for which the compile-time assertions of a level hold. *)
Definition nbi_ok (nbi : carg) : Prop :=
  0 <= cval nbi <= 1 /\ (is_ct nbi = true -> cval nbi = 0).

Lemma nbi_assert_ok {A} nbi (p : prog A) : nbi_ok nbi -> bind (nbi_assert nbi) (fun _ => p) = p.
Proof.
  intros [_ Hc]. unfold nbi_assert. destruct (is_ct nbi); [|done]. by rewrite Hc.
Qed.

Lemma range_asserts_ok {A} first num limit burst (p : prog A) :
  0 <= cval first -> 1 <= cval num <= burst -> cval first + cval num <= limit -> limit < 2 ^ 31 ->
  bind (range_asserts first num limit burst) (fun _ => p) = p.
Proof.
  intros Hf Hn Hs Hl. unfold range_asserts, mbind, prog_bind, cadd. cbn [cval is_ct].
  rewrite wrap_id by (unfold in_word; lia).
  rewrite (proj2 (Z.ltb_lt _ _)), !(proj2 (Z.leb_le _ _)) by lia.
  by destruct (is_ct first), (is_ct num).
Qed.

(** One write of [n] registers from [r] on. *)
Lemma xpb_write_writes data r nbi known n max_n sync : 0 <= nbi <= 1 -> reg_ok r ->
  1 <= cval n <= 16 -> is_ct max_n = true -> 4 <= cval max_n <= 64 -> cval max_n mod 4 = 0 ->
  writes (Xpb.__xpb_write data (CArg (reg_addr nbi r) known) (cshl2 n) max_n sync) tt
         [(reg_addr nbi r, Some (cval n), data)].
Proof.
  intros Hn Hr Hc Hm Hm64 Hm4 St h s.
  assert (E : cval (cshl2 n) = 4 * cval n).
  { unfold cshl2, shl32. cbn [cval]. rewrite Z.shiftl_mul_pow2, wrap_id by (unfold in_word; lia). lia. }
  destruct (Xpb.xpb_write_issues data (CArg (reg_addr nbi r) known) (cshl2 n) max_n sync)
    as (c & H & [_ Ho Hd Ha Hcnt _]); try done; rewrite ?E; [by apply reg_addr_ok|lia|divlia|].
  rewrite H. split; [done|]. cbn. rewrite bool_decide_true by done.
  rewrite Hd, Ha, Hcnt, E. repeat f_equal. divlia.
Qed.


(** Each level's writes, as the registers they set. *)
Ltac level_write :=
  unfold mbind, prog_bind; cbv zeta;
  rewrite ?nbi_assert_ok, ?range_asserts_ok, ?try_ctassert_true
    by (done || (cbn; unfold L1L2_SCHEDULER_INPUTS, L1L2_DWRR_BURST_SZ, CMD_BURST_SZ,
          L0_SCHEDULER_INPUTS, NUM_L1_SCHEDS, NUM_L2_SCHEDS in *; first [lia | apply Z.ltb_lt; lia])).

(** Write one register range after the other. *)
Ltac writes_one r := refine (xpb_write_writes _ r _ _ _ _ _ _ _ _ _ _ _);
  cbn [reg_ok cval is_ct ct rt]; unfold NUM_L1_SCHEDS, NUM_L2_SCHEDS, L1L2_SCHEDULER_INPUTS,
    L0_SCHEDULER_INPUTS, CMD_BURST_SZ, TM_L0_SCHED_NUM in *; try done; lia.

Lemma sched_write2 config nbi s sync : nbi_ok nbi -> 0 <= s < 128 ->
  writes (__tm_config_l2_sched_write config nbi (rt s) (ct 1) sync) tt
    [(reg_addr (cval nbi) (R_sched s), Some 1, config)].
Proof.
  intros Hn Hs. unfold __tm_config_l2_sched_write. level_write.
  destruct Hn. writes_one (R_sched s).
Qed.

Lemma sched_write1 config nbi s sync : nbi_ok nbi -> 0 <= s < 16 ->
  writes (__tm_config_l1_sched_write config nbi (rt s) (ct 1) sync) tt
    [(reg_addr (cval nbi) (R_sched (s + 128)), Some 1, config)].
Proof.
  intros Hn Hs. unfold __tm_config_l1_sched_write. level_write.
  cbn [cval rt]. rewrite wrap_id by (unfold in_word, NUM_L2_SCHEDS; lia).
  destruct Hn. writes_one (R_sched (s + 128)).
Qed.

Lemma sched_write0 config nbi sync : nbi_ok nbi ->
  writes (__tm_config_l0_sched_write config nbi sync) tt
    [(reg_addr (cval nbi) (R_sched 144), Some 1, config)].
Proof.
  intros Hn. unfold __tm_config_l0_sched_write. level_write. destruct Hn.
  exact (xpb_write_writes config (R_sched 144) (cval nbi) _ (ct 1) (ct 4) sync
           ltac:(done) ltac:(done) ltac:(done) eq_refl ltac:(done) eq_refl).
Qed.

Lemma dwrr_write2 w d nbi s sync : nbi_ok nbi -> 0 <= s < 128 ->
  writes (__tm_config_l2_dwrr_weight_write w d nbi (rt s) (ct 0) (ct L1L2_SCHEDULER_INPUTS) sync) tt
    [(reg_addr (cval nbi) (R_l2_weight s 0), Some 8, w);
     (reg_addr (cval nbi) (R_l2_deficit s 0), Some 8, d)].
Proof.
  intros Hn Hs. unfold __tm_config_l2_dwrr_weight_write. level_write. destruct Hn.
  apply (writes_bind _ _ tt _ [_]); [writes_one (R_l2_weight s 0)|writes_one (R_l2_deficit s 0)].
Qed.

Lemma dwrr_write1 w d nbi s sync : nbi_ok nbi -> 0 <= s < 16 ->
  writes (__tm_config_l1_dwrr_weight_write w d nbi (rt s) (ct 0) (ct L1L2_SCHEDULER_INPUTS) sync) tt
    [(reg_addr (cval nbi) (R_l1_weight s 0), Some 8, w);
     (reg_addr (cval nbi) (R_l1_deficit s 0), Some 8, d)].
Proof.
  intros Hn Hs. unfold __tm_config_l1_dwrr_weight_write. level_write. destruct Hn.
  apply (writes_bind _ _ tt _ [_]); [writes_one (R_l1_weight s 0)|writes_one (R_l1_deficit s 0)].
Qed.

Lemma dwrr_write0 w d nbi i sync : nbi_ok nbi -> 0 <= i -> i + 16 <= 128 ->
  writes (__tm_config_l0_dwrr_weight_write w d nbi (rt i) (ct CMD_BURST_SZ) sync) tt
    [(reg_addr (cval nbi) (R_l0_weight i), Some 16, w);
     (reg_addr (cval nbi) (R_l0_deficit i), Some 16, d)].
Proof.
  intros Hn Hi Hl. unfold __tm_config_l0_dwrr_weight_write. level_write. destruct Hn.
  apply (writes_bind _ _ tt _ [_]); [writes_one (R_l0_weight i)|writes_one (R_l0_deficit i)].
Qed.

(** The registers of shaper [i] in the order the code writes them. *)
Definition shaper_writes (nbi i : Z) (rate threshold overshoot adjust : list Z) :=
  [(reg_addr nbi (R_adjust i), Some 1, adjust); (reg_addr nbi (R_overshoot i), Some 1, overshoot);
   (reg_addr nbi (R_rate i), Some 1, rate); (reg_addr nbi (R_threshold i), Some 1, threshold)].

Lemma shaper_write_seq (p1 p2 p3 p4 : prog unit) w1 w2 w3 w4 :
  writes p1 tt [w1] -> writes p2 tt [w2] -> writes p3 tt [w3] -> writes p4 tt [w4] ->
  writes (bind p1 (fun _ => bind p2 (fun _ => bind p3 (fun _ => p4)))) tt [w1; w2; w3; w4].
Proof.
  intros. apply (writes_bind _ _ tt _ [_]); [done|]. apply (writes_bind _ _ tt _ [_]); [done|].
  by apply (writes_bind _ _ tt _ [_]).
Qed.

Lemma shaper_write2 r t o a nbi s sync : nbi_ok nbi -> 0 <= s < 128 ->
  writes (__tm_config_l2_shaper_write r t o a nbi (rt s) (ct 1) sync) tt
    (shaper_writes (cval nbi) s r t o a).
Proof.
  intros Hn Hs. unfold __tm_config_l2_shaper_write. level_write. destruct Hn.
  apply shaper_write_seq;
    [writes_one (R_adjust s)|writes_one (R_overshoot s)|writes_one (R_rate s)|writes_one (R_threshold s)].
Qed.

Lemma shaper_write1 r t o a nbi s sync : nbi_ok nbi -> 0 <= s < 16 ->
  writes (__tm_config_l1_shaper_write r t o a nbi (rt s) (ct 1) sync) tt
    (shaper_writes (cval nbi) (s + 128) r t o a).
Proof.
  intros Hn Hs. unfold __tm_config_l1_shaper_write. level_write. destruct Hn.
  cbn [cval rt]. rewrite !wrap_id by (unfold in_word, NUM_L2_SCHEDS; lia).
  apply shaper_write_seq; [writes_one (R_adjust (s + 128))|writes_one (R_overshoot (s + 128))
    |writes_one (R_rate (s + 128))|writes_one (R_threshold (s + 128))].
Qed.

Lemma shaper_write0 r t o a nbi sync : nbi_ok nbi ->
  writes (__tm_config_l0_shaper_write r t o a nbi sync) tt (shaper_writes (cval nbi) 144 r t o a).
Proof.
  intros Hn. unfold __tm_config_l0_shaper_write. level_write. destruct Hn.
  apply shaper_write_seq;
    [refine (xpb_write_writes _ (R_adjust 144) _ _ (ct 1) _ _ _ _ _ _ _ _)
    |refine (xpb_write_writes _ (R_overshoot 144) _ _ (ct 1) _ _ _ _ _ _ _ _)
    |refine (xpb_write_writes _ (R_rate 144) _ _ (ct 1) _ _ _ _ _ _ _ _)
    |refine (xpb_write_writes _ (R_threshold 144) _ _ (ct 1) _ _ _ _ _ _ _ _)]; done.
Qed.

(** ** Schedulers and shapers *)

(** The registers a scheduler's configuration sets, in order. *)
Definition weight_regs (sched : Z) : tm_reg * tm_reg :=
  if sched <? 128 then (R_l2_weight sched 0, R_l2_deficit sched 0)
  else (R_l1_weight (sched - 128) 0, R_l1_deficit (sched - 128) 0).

Definition dwrr_plan (nbi config : Z) (weight : list Z) (sched : Z) : list (Z * option Z * list Z) :=
  [(reg_addr nbi (R_sched sched), Some 1, [config]);
   (reg_addr nbi (fst (weight_regs sched)), Some 8, map (fun j => nth j weight 0) (seq 0 8));
   (reg_addr nbi (snd (weight_regs sched)), Some 8, replicate 8 0)].

(** Without DWRR it is the configuration register alone, and not the word asked for. *)
Definition sched_plan (uninit nbi config : Z) (weight : list Z) (sched : Z)
    : list (Z * option Z * list Z) :=
  if dwrrenable config then dwrr_plan nbi config weight sched
  else [(reg_addr nbi (R_sched sched), Some 1, [uninit])].

Lemma sched_config_writes uninit nbi sched config weight : nbi_ok nbi -> 0 <= sched <= 143 ->
  writes (nbi_tm_l1l2_scheduler_config__ uninit nbi sched config weight) 0
    (sched_plan uninit (cval nbi) config weight sched).
Proof.
  intros Hn Hs. unfold nbi_tm_l1l2_scheduler_config__, sched_plan, dwrr_plan, weight_regs,
    tm_config_l2_sched_write, tm_config_l1_sched_write, MAX_TM_L1_L2_SCHED_NUM, NUM_L2_SCHEDS,
    mbind, prog_bind.
  destruct (Z.ltb_spec 143 sched); [lia|]. destruct (dwrrenable config).
  - apply (writes_bind _ _ tt _ [_; _; _] []); [|done].
    destruct (Z.ltb_spec sched 128); apply (writes_bind _ _ tt _ [_]).
    + apply sched_write2; [done|lia].
    + apply dwrr_write2; [done|lia].
    + replace sched with (sched - 128 + 128) at 2 by lia. apply sched_write1; [done|lia].
    + apply dwrr_write1; [done|lia].
  - apply (writes_bind _ _ tt _ [_] []); [|done]. destruct (Z.ltb_spec sched 128).
    + apply sched_write2; [done|lia].
    + replace sched with (sched - 128 + 128) at 2 by lia. apply sched_write1; [done|lia].
Qed.

(** The shaper whose registers are set. *)
Definition shaper_set (shaper : Z) : Z := if shaper =? 143 then 144 else shaper.

Definition shaper_plan (nbi : Z) (words : list Z) (shaper : Z) : list (Z * option Z * list Z) :=
  shaper_writes nbi (shaper_set shaper) [nth 0 words 0] [nth 1 words 0] [nth 2 words 0] [nth 3 words 0].

Lemma shaper_config_writes nbi shaper words : nbi_ok nbi -> 0 <= shaper <= 144 ->
  writes (nbi_tm_shaper_config__ nbi shaper words) 0 (shaper_plan (cval nbi) words shaper).
Proof.
  intros Hn Hs. unfold nbi_tm_shaper_config__, shaper_plan, shaper_set, MAX_TM_SCHED_NUM,
    MAX_TM_L1_L2_SCHED_NUM, NUM_L2_SCHEDS, mbind, prog_bind.
  destruct (Z.ltb_spec 144 shaper); [lia|].
  rewrite <- (app_nil_r (shaper_writes _ _ _ _ _ _)). apply (writes_bind _ _ tt); [|done].
  destruct (Z.ltb_spec shaper 128), (Z.eqb_spec shaper 143); try lia.
  - apply shaper_write2; [done|lia].
  - destruct (Z.ltb_spec shaper 143); [lia|]. by apply shaper_write0.
  - destruct (Z.ltb_spec shaper 143).
    + replace shaper with (shaper - 128 + 128) at 2 by lia. apply shaper_write1; [done|lia].
    + replace shaper with 144 by lia. by apply shaper_write0.
Qed.

(** A loop over [x .. last] whose body succeeds up to [bound] and fails above. *)
Definition range_plan {W} (plan : Z -> list W) (bound x last : Z) : Z * list W :=
  (if (x <=? last) && (bound <? last) then -1 else 0,
   concat (map plan (seqZ x (Z.min last bound - x + 1)))).

Lemma range_loop_writes fuel x last bound body plan :
  0 <= x -> bound < 1024 -> 1 <= Z.of_nat fuel -> bound + 1 < Z.of_nat fuel + x ->
  (forall y, 0 <= y <= bound -> writes (body y) 0 (plan y)) ->
  (forall y, bound < y -> writes (body y) (-1) []) ->
  let r := range_plan plan bound x last in
  writes (range_loop fuel x last body) (fst r) (snd r).
Proof.
  intros Hx Hb Hf Hfx Hok Hko. cbv zeta. revert x Hx Hf Hfx.
  induction fuel as [|fuel IH]; intros x Hx Hf Hfx; [lia|].
  cbn [range_loop]. unfold range_plan. cbn [fst snd].
  destruct (Z.leb_spec x last); cbn [andb]; [|rewrite seqZ_nil by lia; apply writes_ret].
  unfold mbind, prog_bind. destruct (Z.ltb_spec bound x).
  - rewrite seqZ_nil by lia. destruct (Z.ltb_spec bound last); [|lia].
    apply (writes_bind _ _ (-1) _ [] []); [by apply Hko|done].
  - rewrite seqZ_cons by lia. cbn [map concat].
    apply (writes_bind _ _ 0); [apply Hok; lia|]. cbn [negb Z.eqb].
    unfold add32. rewrite wrap_id by (unfold in_word; lia).
    specialize (IH (x + 1) ltac:(lia) ltac:(lia) ltac:(lia)). unfold range_plan in IH.
    cbn [fst snd] in IH. replace (Z.succ x) with (x + 1) by lia.
    replace (Z.pred (Z.min last bound - x + 1)) with (Z.min last bound - (x + 1) + 1) by lia.
    destruct (Z.ltb_spec bound last).
    + destruct (Z.leb_spec (x + 1) last); [done|lia].
    + by rewrite andb_false_r in IH.
Qed.

(** The configuration memory, as the hardware shows it to [read32] commands. *)
Class ConfigMem {St : Type} (h : St -> event -> reply * St) (cfg : Z -> Z -> list Z) : Prop := {
  config_mem : forall s c n, c_tgt c = T_mem -> c_op c = "read32" -> cmd_count c = Some n ->
    r_words (fst (h s (ECmd c))) = cfg (cmd_addr c) n }.

(** What the loop over the clusters at [base] does on that memory. *)
Fixpoint run_clusters {W} (cfg : Z -> Z -> list Z) (plan : Z -> list Z -> Z * list W) (n : nat)
    (base size : Z) : Z * list W :=
  match n with
  | O => (0, [])
  | S n' =>
      let c := cfg base (size / 4) in
      let r := if cl_in_use c then plan base c else (0, []) in
      if negb (fst r =? 0) then r
      else if cl_last c then (0, snd r)
      else let r' := run_clusters cfg plan n' (base + size) size in (fst r', snd r ++ snd r')
  end.

(** Plans that agree on the clusters in use make the same run. *)
Lemma run_clusters_ext {W} cfg (plan plan' : Z -> list Z -> Z * list W) n base size :
  (forall k, (k < n)%nat -> let a := base + size * Z.of_nat k in
     cl_in_use (cfg a (size / 4)) = true -> plan a (cfg a (size / 4)) = plan' a (cfg a (size / 4))) ->
  run_clusters cfg plan n base size = run_clusters cfg plan' n base size.
Proof.
  revert base. induction n as [|n IH]; intros base H; [done|]. cbn [run_clusters]. cbv zeta.
  assert (E : (if cl_in_use (cfg base (size / 4)) then plan base (cfg base (size / 4)) else (0, [])) =
    (if cl_in_use (cfg base (size / 4)) then plan' base (cfg base (size / 4)) else (0, []))).
  { specialize (H 0%nat ltac:(lia)). cbv zeta in H. rewrite Z.mul_0_r, Z.add_0_r in H.
    destruct (cl_in_use _); [by apply H|done]. }
  rewrite E, IH; [done|]. intros k Hk. specialize (H (S k) ltac:(lia)). cbv zeta in *.
  replace (base + size + size * Z.of_nat k) with (base + size * Z.of_nat (S k)) by lia. exact H.
Qed.

(** A read of the configuration issues one command. *)
Lemma mem_read32_issues base size sync : in_word 40 base -> 4 <= size <= 128 -> size mod 4 = 0 ->
  exists c, issues_one (MemBulk.__mem_read32 base (ct size) (ct size) sync) c (fun ws => ws) /\
    presents c T_mem "read32" [] base (Some (size / 4)) (Some sync).
Proof.
  intros Hb Hs H4. unfold MemBulk.__mem_read32, is_aligned, mbind, prog_bind.
  cbn [cval ct]. rewrite H4, !try_ctassert_true by (done || apply Z.leb_le; lia).
  destruct (MemBulk.MEM_CMD_issues "read32" [] base (ct size) (ct size) sync 2)
    as (c & Hc & Hp); [done|lia| |by left|].
  { cbn [cval ct]. rewrite Z.shiftr_div_pow2 by lia. change (2 ^ 2) with 4. divlia. }
  cbn [cval ct] in Hp. rewrite Z.shiftr_div_pow2 in Hp by lia. by exists c.
Qed.

Section Clusters.
Context {St : Type} (h : St -> event -> reply * St) (cfg : Z -> Z -> list Z) `{!ConfigMem h cfg}.

Lemma mem_read32_cfg base size sync : in_word 40 base -> 4 <= size <= 128 -> size mod 4 = 0 ->
  writes_on h (MemBulk.__mem_read32 base (ct size) (ct size) sync) (cfg base (size / 4)) [].
Proof.
  intros Hb Hs H4 s. destruct (mem_read32_issues base size sync) as (c & Hc & [Ht Ho _ Ha Hn _]);
    [done..|].
  rewrite Hc. cbn. rewrite Ho, bool_decide_false by done. split; [|done].
  by rewrite (config_mem _ _ _ Ht Ho Hn), Ha.
Qed.

Lemma cluster_loop_run n base size body plan :
  0 <= base -> base + size * Z.of_nat n <= 2 ^ 40 -> 4 <= size <= 128 -> size mod 4 = 0 ->
  (forall a, let c := cfg a (size / 4) in writes (body a c) (fst (plan a c)) (snd (plan a c))) ->
  let r := run_clusters cfg plan n base size in
  writes_on h (cluster_loop n base size body) (fst r) (snd r).
Proof.
  intros Hb Hbn Hs H4 Hbody. cbv zeta. revert base Hb Hbn.
  induction n as [|n IH]; intros base Hb Hbn; [done|].
  cbn [cluster_loop run_clusters]. unfold mbind, prog_bind. cbv zeta.
  apply (writes_on_bind h _ _ (cfg base (size / 4)) _ []);
    [apply mem_read32_cfg; [unfold in_word; lia|done..]|].
  specialize (Hbody base). cbv zeta in Hbody. set (c := cfg base (size / 4)) in *.
  assert (Hp : exists r, (if cl_in_use c then plan base c else (0, [])) = r /\
    writes (if cl_in_use c then body base c else Ret 0) (fst r) (snd r)).
  { destruct (cl_in_use c); eexists; (split; [reflexivity|]); [done|apply writes_ret]. }
  destruct Hp as ([r ws] & -> & Hp). cbn [fst snd] in *.
  destruct (negb (r =? 0)) eqn:Er.
  - cbn [fst snd]. rewrite <- (app_nil_r ws).
    apply (writes_on_bind h _ _ r); [apply Hp|]. by rewrite Er.
  - destruct (cl_last c) eqn:El; cbn [fst snd].
    + rewrite <- (app_nil_r ws). apply (writes_on_bind h _ _ r); [apply Hp|]. by rewrite Er.
    + apply (writes_on_bind h _ _ r); [apply Hp|]. rewrite Er. apply IH; lia.
Qed.

(** Configuring the L1 and L2 schedulers, with or without DWRR. *)
Lemma config_schedulers_plan uninit nbi base : nbi_ok nbi ->
  (forall a n i, 0 <= nth i (cfg a n) 0) -> 0 <= base -> base + 52 * 24 <= 2 ^ 40 ->
  let r := run_clusters cfg (fun a c =>
    range_plan (fun sched => sched_plan (uninit a sched) (cval nbi) (nth 0 (cl_words c) 0)
                               (drop 1 (cl_words c)) sched)
               143 (cl_start c) (cl_end c)) 24 base 52 in
  writes_on h (nfp_nbi_tm_config_schedulers uninit nbi base) (fst r) (snd r).
Proof.
  intros Hn Hw Hb Hbn. unfold nfp_nbi_tm_config_schedulers, MAX_NBI_NUMBER.
  destruct (Z.ltb_spec 1 (cval nbi)); [destruct Hn; lia|].
  apply cluster_loop_run; try done.
  intros a. specialize (Hw a 13 1%nat). change (52 / 4) with 13.
  apply range_loop_writes; unfold cl_start; try (change (Z.of_nat RANGE_FUEL) with 1025; lia).
  - intros y Hy. by apply sched_config_writes.
  - intros y Hy. unfold nbi_tm_l1l2_scheduler_config__, MAX_TM_L1_L2_SCHED_NUM.
    destruct (Z.ltb_spec 143 y); [done|lia].
Qed.

(** C34: Configuring the L1 and L2 schedulers from clusters in memory that all ask
    for DWRR performs exactly the register writes of the plan: for each scheduler
    of each used cluster, in order, the configuration word asked for, its eight
    weights and eight zero deficits; it stops with -1 after scheduler 143, and
    always finishes. *)
Theorem config_schedulers_writes uninit nbi base : nbi_ok nbi ->
  (forall a n i, 0 <= nth i (cfg a n) 0) -> 0 <= base -> base + 52 * 24 <= 2 ^ 40 ->
  (forall k, (k < 24)%nat -> let c := cfg (base + 52 * Z.of_nat k) 13 in
     cl_in_use c = true -> dwrrenable (nth 0 (cl_words c) 0) = true) ->
  let r := run_clusters cfg (fun _ c =>
    range_plan (dwrr_plan (cval nbi) (nth 0 (cl_words c) 0) (drop 1 (cl_words c)))
               143 (cl_start c) (cl_end c)) 24 base 52 in
  writes_on h (nfp_nbi_tm_config_schedulers uninit nbi base) (fst r) (snd r).
Proof.
  intros Hn Hw Hb Hbn Hd. cbv zeta.
  pose proof (config_schedulers_plan uninit nbi base Hn Hw Hb Hbn) as H. cbv zeta in H.
  erewrite run_clusters_ext in H; [exact H|].
  intros k Hk. change (52 / 4) with 13. cbv zeta. intros Hu. unfold sched_plan. by rewrite (Hd k Hk Hu).
Qed.

(** Configuring the shapers performs exactly the planned register writes:
    rate adjust, overshoot, rate and threshold of each shaper of each used cluster
    in order, L0 for 143 and 144, and -1 for a shaper above 144. *)
Theorem config_shapers_writes nbi base : nbi_ok nbi ->
  (forall a n i, 0 <= nth i (cfg a n) 0) -> 0 <= base -> base + 32 * 24 <= 2 ^ 40 ->
  let r := run_clusters cfg (fun _ c =>
    range_plan (shaper_plan (cval nbi) (cl_words c)) 144 (cl_start c) (cl_end c)) 24 base 32 in
  writes_on h (nbi_tm_config_shapers nbi base) (fst r) (snd r).
Proof.
  intros Hn Hw Hb Hbn. unfold nbi_tm_config_shapers, MAX_NBI_NUMBER.
  destruct (Z.ltb_spec 1 (cval nbi)); [destruct Hn; lia|].
  apply cluster_loop_run; try done.
  intros a. specialize (Hw a 8 1%nat). change (32 / 4) with 8.
  apply range_loop_writes; unfold cl_start; try (change (Z.of_nat RANGE_FUEL) with 1025; lia).
  - intros y Hy. by apply shaper_config_writes.
  - intros y Hy. unfold nbi_tm_shaper_config__, MAX_TM_SCHED_NUM.
    destruct (Z.ltb_spec 144 y); [done|lia].
Qed.

(** The L0 weights, a burst of sixteen with their zero deficits at a time. *)
Definition l0_burst (nbi base i : Z) : list (Z * option Z * list Z) :=
  [(reg_addr nbi (R_l0_weight i), Some 16,
    map (fun j => nth j (cfg (base + 8 + 4 * i) 16) 0) (seq 0 16));
   (reg_addr nbi (R_l0_deficit i), Some 16, replicate 16 0)].

Lemma l0_weight_loop_writes n nbi base i : nbi_ok nbi -> 0 <= base -> base + 520 <= 2 ^ 40 ->
  0 <= i -> i + 16 * Z.of_nat n = 128 ->
  writes_on h (l0_weight_loop n nbi base i (cfg (base + 8 + 4 * i) 16)) tt
    (concat (map (fun k => l0_burst (cval nbi) base (i + 16 * Z.of_nat k)) (seq 0 n))).
Proof.
  intros Hn Hb Hbn. revert i. induction n as [|n IH]; intros i Hi Hin; [done|].
  cbn [l0_weight_loop seq map concat]. unfold mbind, prog_bind.
  replace (i + 16 * Z.of_nat 0) with i by lia.
  apply (writes_on_bind h _ _ tt); [apply dwrr_write0; [done|lia..]|].
  assert (Es : map (fun k => l0_burst (cval nbi) base (i + 16 * Z.of_nat k)) (seq 1 n) =
    map (fun k => l0_burst (cval nbi) base (i + 16 + 16 * Z.of_nat k)) (seq 0 n)).
  { rewrite <- seq_shift, map_map. apply map_ext. intros k. f_equal. lia. }
  rewrite Es. unfold CMD_BURST_SZ, L0_SCHEDULER_INPUTS.
  destruct (Z.ltb_spec (i + 16) 128).
  - apply (writes_on_bind h _ _ (cfg (base + 8 + 4 * (i + 16)) 16) _ []);
      [apply (mem_read32_cfg _ 64); [unfold in_word; lia|done..]|].
    apply (writes_on_bind h _ _ tt _ []); [apply writes_arb|]. apply IH; lia.
  - apply (writes_on_bind h _ _ tt _ []); [apply writes_arb|].
    destruct n; [done|lia].
Qed.

(** Configuring the L0 scheduler writes nothing when it is not in use;
    otherwise, under DWRR, all 128 weights and their zero deficits in eight bursts
    of sixteen, each weight at its own register, and then the configuration
    register. *)
Theorem config_l0_writes nbi base : nbi_ok nbi -> 0 <= base -> base + 520 <= 2 ^ 40 ->
  writes_on h (nfp_nbi_tm_config_l0_scheduler nbi base) 0
    (let config := nth 0 (cfg (base + 4) 1) 0 in
     if nth 0 (cfg base 1) 0 =? 0 then []
     else (if dwrrenable config
           then concat (map (fun k => l0_burst (cval nbi) base (16 * Z.of_nat k)) (seq 0 8))
           else []) ++ [(reg_addr (cval nbi) (R_sched 144), Some 1, [config])]).
Proof.
  intros Hn Hb Hbn. unfold nfp_nbi_tm_config_l0_scheduler, nbi_tm_l0_scheduler_config__,
    MAX_NBI_NUMBER, MemBulk.mem_read32, tm_config_l0_sched_write, mbind, prog_bind. cbv zeta.
  destruct (Z.ltb_spec 1 (cval nbi)); [destruct Hn; lia|].
  apply (writes_on_bind h _ _ (cfg base 1) _ []);
    [apply (mem_read32_cfg _ 4); [unfold in_word; lia|done..]|].
  destruct (nth 0 (cfg base 1) 0 =? 0); [done|].
  apply (writes_on_bind h _ _ (cfg (base + 4) 1) _ []);
    [apply (mem_read32_cfg _ 4); [unfold in_word; lia|done..]|].
  set (config := nth 0 (cfg (base + 4) 1) 0).
  apply (writes_on_bind h _ _ tt).
  - destruct (dwrrenable config); [|done].
    apply (writes_on_bind h _ _ (cfg (base + 8 + 4 * 0) 16) _ []).
    + replace (base + 8 + 4 * 0) with (base + 8) by lia.
      apply (mem_read32_cfg _ 64); [unfold in_word; lia|done..].
    + by apply (l0_weight_loop_writes 8).
  - apply (writes_on_bind h _ _ tt _ [_] []); [by apply sched_write0|done].
Qed.
End Clusters.

(** A memory that shows the configuration [cfg]. *)
Definition config_hw (cfg : Z -> Z -> list Z) (_ : unit) (e : event) : reply * unit :=
  (match e with
   | ECmd c => match cmd_count c with
               | Some n => Reply (cfg (cmd_addr c) n) false
               | None => Reply [] false
               end
   | _ => Reply [] false
   end, tt).

#[export] Instance config_hw_mem cfg : ConfigMem (config_hw cfg) cfg.
Proof. split. intros s c n _ _ Hn. unfold config_hw. by rewrite Hn. Qed.

(** One cluster, its words at [base], nothing elsewhere. *)
Definition one_cluster (base : Z) (ws : list Z) (a n : Z) : list Z :=
  if a =? base then ws else [].

Lemma one_cluster_nonneg base ws : Forall (fun x => 0 <= x) ws ->
  forall a n i, 0 <= nth i (one_cluster base ws a n) 0.
Proof.
  intros Hw a n i. unfold one_cluster.
  destruct (a =? base); [|by destruct i].
  destruct (nth_in_or_default i ws 0) as [Hin| ->]; [|done].
  rewrite List.Forall_forall in Hw. by apply Hw.
Qed.

Lemma nbi_ok_0 : nbi_ok (ct 0).
Proof. split; [cbn; lia|done]. Qed.

(** Schedulers 127 and 128, the last of L2 and the first of L1, with DWRR. *)
Lemma config_schedulers_writes_witness :
  let c := [1; 127; 128; 1; 1; 10; 20; 30; 40; 50; 60; 70; 80] in
  writes_on (config_hw (one_cluster 0x1000 c))
    (nfp_nbi_tm_config_schedulers (fun a sched => a + sched) (ct 0) 0x1000) 0
    (dwrr_plan 0 1 [10; 20; 30; 40; 50; 60; 70; 80] 127 ++
     dwrr_plan 0 1 [10; 20; 30; 40; 50; 60; 70; 80] 128).
Proof.
  intros c.
  refine (@config_schedulers_writes unit (config_hw (one_cluster 0x1000 c)) (one_cluster 0x1000 c)
    (config_hw_mem _) (fun a sched => a + sched) (ct 0) 0x1000 nbi_ok_0
    (one_cluster_nonneg 0x1000 c ltac:(repeat constructor; apply Z.leb_le; reflexivity))
    ltac:(apply Z.leb_le; reflexivity) ltac:(apply Z.leb_le; reflexivity) _).
  intros k _. unfold one_cluster. by destruct (_ =? _).
Defined.

(** Shapers 142 to 145: the last one does not exist, and the run fails after 144. *)
Lemma config_shapers_writes_witness :
  let c := [1; 142; 145; 1; 11; 12; 13; 14] in
  writes_on (config_hw (one_cluster 0x1000 c)) (nbi_tm_config_shapers (ct 0) 0x1000) (-1)
    (shaper_plan 0 [11; 12; 13; 14] 142 ++ shaper_plan 0 [11; 12; 13; 14] 143 ++
     shaper_plan 0 [11; 12; 13; 14] 144).
Proof.
  intros c.
  exact (@config_shapers_writes unit (config_hw (one_cluster 0x1000 c)) (one_cluster 0x1000 c)
    (config_hw_mem _) (ct 0) 0x1000 nbi_ok_0
    (one_cluster_nonneg 0x1000 c ltac:(repeat constructor; apply Z.leb_le; reflexivity))
    ltac:(apply Z.leb_le; reflexivity) ltac:(apply Z.leb_le; reflexivity)).
Defined.

Lemma config_l0_writes_witness :
  let cfg a n := if n =? 1 then [if a =? 0x1000 then 1 else 0x10] else [] in
  writes_on (config_hw cfg) (nfp_nbi_tm_config_l0_scheduler (ct 0) 0x1000) 0
    [(reg_addr 0 (R_sched 144), Some 1, [0x10])].
Proof.
  intros cfg.
  exact (@config_l0_writes unit (config_hw cfg) cfg (config_hw_mem _) (ct 0) 0x1000 nbi_ok_0
    ltac:(apply Z.leb_le; reflexivity) ltac:(apply Z.leb_le; reflexivity)).
Defined.

(** ** Queues and the head-tail SRAM *)

(** An allocation: the queue, its first SRAM entry and its configuration word. *)
Abbreviation alloc := (Z * Z * Z)%type (only parsing).
Definition a_queue (x : alloc) : Z := fst (fst x).
Definition a_start (x : alloc) : Z := snd (fst x).
Definition a_config (x : alloc) : Z := snd x.
Definition a_size (x : alloc) : Z := 2 ^ queuesize (a_config x).

(** The writes to the head-tail SRAM: address and words. *)
Definition ht_write (e : event) : option (Z * list Z) :=
  match e with
  | ECmd c => if bool_decide (c_tgt c = T_nbi) then Some (cmd_addr c, c_data c) else None
  | _ => None
  end.

(** The trace writes exactly the allocations [al]: the configuration register of
    each queue and its SRAM word, head and tail pointers at the first entry. *)
Definition describes (nbi : Z) (al : list alloc) (tr : list event) : Prop :=
  reg_writes tr =
    map (fun x => (reg_addr nbi (R_queue (a_queue x)), Some 1, [a_config x])) al /\
  omap ht_write tr =
    map (fun x => (NBI_TM_HEAD_TAIL_SRAM nbi + 8 * a_queue x,
                   [a_start x * 2 ^ 14 + a_start x; 0])) al.

(** The allocations go up from [lo] to [hi], aligned and inside the SRAM. *)
Fixpoint sram_from (lo : Z) (al : list alloc) (hi : Z) : Prop :=
  match al with
  | [] => lo <= hi
  | x :: al' =>
      0 <= a_queue x <= 1023 /\ 3 <= queuesize (a_config x) /\
      lo <= a_start x /\ a_start x mod a_size x = 0 /\ a_start x + a_size x <= HEAD_TAIL_SRAM_MAX /\
      sram_from (a_start x + a_size x) al' hi
  end.

Lemma describes_nil nbi : describes nbi [] [].
Proof. done. Qed.

Lemma describes_app nbi al al' tr tr' :
  describes nbi al tr -> describes nbi al' tr' -> describes nbi (al ++ al') (tr ++ tr').
Proof.
  intros [H1 H2] [H1' H2']. unfold describes, reg_writes in *.
  by rewrite !omap_app, !map_app, H1, H1', H2, H2'.
Qed.

Lemma sram_from_app lo al mid al' hi :
  sram_from lo al mid -> sram_from mid al' hi -> sram_from lo (al ++ al') hi.
Proof.
  revert lo. induction al as [|x al IH]; intros lo; cbn.
  - intros H. destruct al'; cbn; [lia|]. intuition lia.
  - intros (? & ? & ? & ? & ? & ?) H'. do 5 (split; [done|]). by apply IH.
Qed.

Lemma a_size_pos x : 0 < a_size x.
Proof.
  apply Z.pow_pos_nonneg; [lia|]. unfold queuesize. pose proof (field_range 6 4 (a_config x) ltac:(lia)) as H.
  unfold in_word in H. lia.
Qed.

Lemma sram_from_nth lo al hi i x : sram_from lo al hi -> al !! i = Some x ->
  0 <= a_queue x <= 1023 /\ 3 <= queuesize (a_config x) /\ lo <= a_start x /\
  a_start x mod a_size x = 0 /\ a_start x + a_size x <= HEAD_TAIL_SRAM_MAX.
Proof.
  revert lo i. induction al as [|y al IH]; intros lo [|i]; cbn; try done.
  - intros (? & ? & ? & ? & ? & ?) [= <-]. done.
  - intros (? & ? & ? & ? & ? & H) Hi. destruct (IH _ _ H Hi) as (? & ? & ? & ? & ?).
    pose proof (a_size_pos y). split_ands; done || lia.
Qed.

Lemma sram_from_order lo al hi i j x y : sram_from lo al hi -> (i < j)%nat ->
  al !! i = Some x -> al !! j = Some y -> a_start x + a_size x <= a_start y.
Proof.
  revert lo i j. induction al as [|z al IH]; intros lo [|i] [|j]; cbn; try done; try lia.
  - intros (_ & _ & _ & _ & _ & H) _ [= <-] Hj. by destruct (sram_from_nth _ _ _ _ _ H Hj) as (_ & _ & ? & _).
  - intros (_ & _ & _ & _ & _ & H) Hij. apply (IH _ _ _ H). lia.
Qed.

(** Rounding up to a multiple of a power of two. *)
Lemma align_sram_spec x k : 0 <= x <= HEAD_TAIL_SRAM_MAX -> 0 <= k < 16 ->
  x <= align_sram x k < x + 2 ^ k /\ align_sram x k mod 2 ^ k = 0.
Proof.
  unfold HEAD_TAIL_SRAM_MAX. intros Hx Hk. unfold align_sram, shl32, add32.
  assert (H1 : 1 <= 2 ^ k < 2 ^ 16) by (split; [|apply Z.pow_lt_mono_r; lia]; pose proof (Z.pow_pos_nonneg 2 k); lia).
  rewrite (Z.shiftl_mul_pow2 1 k), Z.mul_1_l by lia. rewrite (wrap_id 32 (2 ^ k)) by (unfold in_word; lia).
  replace (2 ^ k - 1) with (Z.ones k) by (rewrite Z.ones_equiv; lia).
  rewrite Z.land_ones, Z.shiftr_div_pow2 by lia.
  pose proof (Z.div_mod x (2 ^ k) ltac:(lia)) as E. pose proof (Z.mod_pos_bound x (2 ^ k) ltac:(lia)).
  assert (0 <= x / 2 ^ k) by (apply Z.div_pos; lia).
  set (q := x / 2 ^ k) in *. assert (q <= x) by nia.
  assert (Hm : forall y, 0 <= y -> y * 2 ^ k < 2 ^ 32 -> wrap 32 (y ≪ k) = y * 2 ^ k).
  { intros y Hy Hb. rewrite Z.shiftl_mul_pow2 by lia. apply wrap_id. unfold in_word. lia. }
  destruct (Z.eqb_spec (x mod 2 ^ k) 0) as [E0|E0]; cbn [negb].
  - rewrite Hm by lia. split; [lia|]. by rewrite Z.mod_mul by lia.
  - rewrite (wrap_id 32 (q + 1)) by (unfold in_word; lia).
    rewrite Hm by lia. split; [lia|]. by rewrite Z.mod_mul by lia.
Qed.

Lemma ht_addr nbi q : 0 <= nbi <= 1 -> 0 <= q <= 1023 ->
  ((NBI_TM_HEAD_TAIL_SRAM nbi ≫ 8) ≪ 8) + mul32 q 8 = NBI_TM_HEAD_TAIL_SRAM nbi + 8 * q.
Proof.
  intros Hn Hq. unfold mul32. rewrite wrap_id by (unfold in_word; lia).
  assert (E : (NBI_TM_HEAD_TAIL_SRAM nbi ≫ 8) ≪ 8 = NBI_TM_HEAD_TAIL_SRAM nbi)
    by (assert (nbi = 0 \/ nbi = 1) as [-> | ->] by lia; reflexivity).
  rewrite E. lia.
Qed.

(** The allocation the clusters call for, as a specification: each queue takes the
    first free run of its size at a multiple of its size. *)
Definition next_fit (lo k : Z) : Z := (lo + 2 ^ k - 1) / 2 ^ k * 2 ^ k.

Fixpoint pack (lo k : Z) (qs : list Z) : option Z :=
  match qs with
  | [] => Some lo
  | q :: qs' =>
      let a := next_fit lo k in
      if (q <=? 1023) && (a + 2 ^ k <=? HEAD_TAIL_SRAM_MAX) then pack (a + 2 ^ k) k qs' else None
  end.

(** Requests: a configuration word with the queues it is for. *)
Fixpoint pack_all (lo : Z) (reqs : list (Z * list Z)) : option Z :=
  match reqs with
  | [] => Some lo
  | (config, qs) :: reqs' =>
      if 3 <=? queuesize config
      then match pack lo (queuesize config) qs with
           | Some hi => pack_all hi reqs'
           | None => None
           end
      else None
  end.

Lemma align_sram_next_fit x k : 0 <= x <= HEAD_TAIL_SRAM_MAX -> 0 <= k < 16 ->
  align_sram x k = next_fit x k.
Proof.
  intros Hx Hk. destruct (align_sram_spec x k Hx Hk) as [Ha Hm]. unfold next_fit.
  assert (Hp : 0 < 2 ^ k) by (apply Z.pow_pos_nonneg; lia).
  apply Z.div_exact in Hm; [|lia]. set (q := align_sram x k / 2 ^ k) in *. clearbody q.
  assert (E : (x + 2 ^ k - 1) / 2 ^ k = q).
  { symmetry. apply (Z.div_unique_pos _ _ _ (x + 2 ^ k - 1 - 2 ^ k * q)); nia. }
  rewrite E. lia.
Qed.

Section Queues.
Context {St : Type} (h : St -> event -> reply * St).

(** One queue: its two writes. *)
Lemma q_config_twp nbi q config a Q s : 0 <= nbi <= 1 -> 0 <= q <= 1023 -> 0 <= a < 2 ^ 14 ->
  (forall tr s', describes nbi [(q, a, config)] tr -> Q 0 tr s') ->
  twp h (nbi_tm_q_config__ nbi q config a) Q s.
Proof.
  intros Hn Hq Ha HQ. unfold nbi_tm_q_config__, MAX_TM_QUEUE_NUM.
  destruct (Z.ltb_spec 1023 q); [lia|].
  cbn [twp mbind prog_bind bind issue ctx_arb fst snd]. apply HQ.
  unfold describes, a_queue, a_start, a_config. cbn [map fst snd].
  split; cbn -[Z.pow Z.mul]; rewrite ?bool_decide_true, ?bool_decide_false by done.
  - unfold cmd_addr. cbn. by rewrite Z.add_0_r.
  - unfold cmd_addr. cbn [c_shl8 c_hi c_lo]. rewrite ht_addr by done. repeat f_equal.
    unfold shl32. rewrite wrap_id by (rewrite Z.shiftl_mul_pow2 by lia; unfold in_word; lia).
    by apply lor_shift_add.
Qed.

Lemma q_config_fails nbi q config a Q s : 1023 < q -> Q (-1) [] s ->
  twp h (nbi_tm_q_config__ nbi q config a) Q s.
Proof.
  intros Hq HQ. unfold nbi_tm_q_config__, MAX_TM_QUEUE_NUM.
  by destruct (Z.ltb_spec 1023 q); [|lia].
Qed.

(** The queues of a range, from the next free SRAM entry [head]. *)
Lemma queue_loop_twp fuel nbi config q last head s : 0 <= nbi <= 1 -> 0 <= q ->
  1 <= Z.of_nat fuel -> 1025 <= Z.of_nat fuel + q -> 3 <= queuesize config ->
  0 <= head <= HEAD_TAIL_SRAM_MAX ->
  twp h (queue_loop fuel nbi config (queuesize config) q last head) (fun r tr _ =>
    exists al, describes nbi al tr /\ sram_from head al (snd r) /\
      match pack head (queuesize config) (seqZ q (last - q + 1)) with
      | None => fst r = -1
      | Some hi => r = (0, hi) /\ hi <= HEAD_TAIL_SRAM_MAX /\ map a_queue al = seqZ q (last - q + 1) /\
                   Forall (fun x => a_config x = config) al
      end) s.
Proof.
  intros Hn Hq Hf Hfq Hk. set (k := queuesize config) in *.
  assert (Hk16 : 0 <= k < 16).
  { pose proof (field_range 6 4 config ltac:(lia)) as H. unfold in_word in H. unfold k, queuesize. lia. }
  assert (H1 : 1 <= 2 ^ k < 2 ^ 16) by (split; [|apply Z.pow_lt_mono_r; lia]; pose proof (Z.pow_pos_nonneg 2 k); lia).
  assert (Es : shl32 1 k = 2 ^ k).
  { unfold shl32. rewrite Z.shiftl_mul_pow2, Z.mul_1_l by lia. apply wrap_id. unfold in_word. lia. }
  revert q head Hq Hfq s. induction fuel as [|fuel IH]; intros q head Hq Hfq s Hh; [lia|].
  cbn [queue_loop]. destruct (Z.leb_spec q last).
  2:{ exists []. split; [done|]. split; [cbn; lia|]. rewrite seqZ_nil by lia.
      cbn [fst snd map pack]. split_ands; done || lia. }
  destruct (align_sram_spec head k Hh Hk16) as [Ha Hm].
  rewrite (seqZ_cons q) by lia. cbn [pack].
  rewrite <- (align_sram_next_fit head k Hh Hk16). set (a := align_sram head k) in *.
  rewrite Es. destruct (Z.leb_spec (a + 2 ^ k) HEAD_TAIL_SRAM_MAX) as [Hfit|Hfit].
  2:{ exists []. rewrite andb_false_r. split; [done|]. cbn. split; [lia|done]. }
  unfold HEAD_TAIL_SRAM_MAX in *. apply twp_bind. destruct (Z.leb_spec q 1023); cbn [andb].
  - apply q_config_twp; [lia..|]. intros tr s' Hd. cbn [Z.eqb negb].
    unfold add32. rewrite !wrap_id by (unfold in_word; lia).
    eapply twp_mono; [|apply (IH ltac:(lia) (q + 1) (a + 2 ^ k) ltac:(lia) ltac:(lia))].
    + intros [r hd] tr' _ (al & Hd' & Hs & Hr). exists ((q, a, config) :: al). split.
      * by apply (describes_app nbi [_]).
      * cbn [fst snd sram_from a_queue a_start a_config map] in *. unfold a_size.
        change (queuesize (a_config (q, a, config))) with k. cbn [a_start fst snd].
        split; [unfold HEAD_TAIL_SRAM_MAX; split_ands; done || lia|].
        replace (Z.succ q) with (q + 1) by lia.
        replace (Z.pred (last - q + 1)) with (last - (q + 1) + 1) by lia.
        destruct (pack _ _ _) as [hi|]; [|done].
        destruct Hr as (Hr & Hl & Hq' & Hc). split_ands; [done..|by rewrite Hq'|by constructor].
    + lia.
  - apply q_config_fails; [lia|]. cbn [negb Z.eqb twp]. exists []. split; [done|].
    cbn. split; [lia|done].
Qed.

(** The queues the clusters ask for. *)
Fixpoint wanted (cfg : Z -> Z -> list Z) (n : nat) (base : Z) : list (Z * list Z) :=
  match n with
  | O => []
  | S n' =>
      let c := cfg base 5 in
      (if cl_in_use c then [(nth 0 (cl_words c) 0, seqZ (cl_start c) (cl_end c - cl_start c + 1))]
       else []) ++
      (if cl_last c then [] else wanted cfg n' (base + 20))
  end.

(** Queue and configuration of each allocation, and of each request. *)
Definition asked (al : list alloc) : list (Z * Z) := map (fun x => (a_queue x, a_config x)) al.
Definition requests (reqs : list (Z * list Z)) : list (Z * Z) :=
  concat (map (fun r => map (fun q => (q, fst r)) (snd r)) reqs).

Lemma asked_same al config qs : map a_queue al = qs -> Forall (fun x => a_config x = config) al ->
  asked al = map (fun q => (q, config)) qs.
Proof.
  intros <- H. unfold asked. rewrite map_map.
  induction H as [|x al Hx _ IH]; cbn; [done|]. by rewrite Hx, IH.
Qed.

Hypothesis h_words : forall s e, Forall (in_word 32) (r_words (fst (h s e))).

(** The request of one cluster. *)
Definition cluster_reqs (c : list Z) : list (Z * list Z) :=
  if cl_in_use c then [(nth 0 (cl_words c) 0, seqZ (cl_start c) (cl_end c - cl_start c + 1))] else [].

Lemma pack_all_app lo rs rs' : pack_all lo (rs ++ rs') =
  match pack_all lo rs with Some hi => pack_all hi rs' | None => None end.
Proof.
  revert lo. induction rs as [|[config qs] rs IH]; intros lo; cbn; [done|].
  destruct (3 <=? queuesize config); [|done]. by destruct (pack lo _ qs).
Qed.

Lemma sram_from_le lo al hi : sram_from lo al hi -> lo <= hi.
Proof.
  revert lo. induction al as [|x al IH]; cbn; intros lo H; [done|].
  destruct H as (_ & _ & ? & _ & ? & H). apply IH in H. pose proof (a_size_pos x). lia.
Qed.

Lemma cluster_queues_twp nbi cl head s : 0 <= nbi <= 1 -> 0 <= head <= HEAD_TAIL_SRAM_MAX ->
  Forall (in_word 32) cl ->
  twp h (if cl_in_use cl then
      if queuesize (nth 0 (cl_words cl) 0) <? QUEUE_SIZE_MIN then Ret (-1, head)
      else queue_loop RANGE_FUEL nbi (nth 0 (cl_words cl) 0) (queuesize (nth 0 (cl_words cl) 0))
             (cl_start cl) (cl_end cl) head
      else Ret (0, head)) (fun r tr _ =>
    exists al, describes nbi al tr /\ sram_from head al (snd r) /\
      match pack_all head (cluster_reqs cl) with
      | None => fst r = -1
      | Some hi => r = (0, hi) /\ hi <= HEAD_TAIL_SRAM_MAX /\ asked al = requests (cluster_reqs cl)
      end) s.
Proof.
  intros Hn Hh Hws. assert (Hst : 0 <= cl_start cl) by (apply (nth_word 32 cl 1 ltac:(lia) Hws)).
  unfold cluster_reqs, QUEUE_SIZE_MIN. destruct (cl_in_use cl); cbn [pack_all].
  - set (config := nth 0 (cl_words cl) 0).
    destruct (Z.ltb_spec (queuesize config) 3), (Z.leb_spec 3 (queuesize config)); try lia.
    + exists []. split; [done|]. split; [cbn; lia|done].
    + eapply twp_mono; [|apply queue_loop_twp; try done; change (Z.of_nat RANGE_FUEL) with 1025; lia].
      intros [ret hd] tr _ (al & Hd & Hs & Hr). exists al. split; [done|]. split; [done|].
      destruct (pack _ _ _) as [hi|]; [|done]. destruct Hr as (Hr & Hl & Hq & Hc).
      split_ands; [done..|]. unfold requests. cbn [map concat fst snd]. rewrite app_nil_r.
      by apply asked_same.
  - exists []. split; [done|]. split; [cbn; lia|]. split_ands; done || lia.
Qed.

Lemma queue_clusters_twp n nbi base head s : 0 <= nbi <= 1 ->
  0 <= base -> base + 20 * Z.of_nat n <= 2 ^ 40 -> 0 <= head <= HEAD_TAIL_SRAM_MAX ->
  twp h (queue_clusters n nbi base head) (fun r tr _ =>
    exists al hi, describes nbi al tr /\ sram_from head al hi /\
      (r = 0 \/ r = -1) /\
      forall cfg, ConfigMem h cfg ->
        if decide (pack_all head (wanted cfg n base) = None) then r = -1
        else r = 0 /\ asked al = requests (wanted cfg n base)) s.
Proof.
  intros Hn. revert base head s. induction n as [|n IH]; intros base head s Hb Hbn Hh.
  { exists [], head. split; [done|]. split; [cbn; lia|]. split; [by left|]. by intros. }
  cbn [queue_clusters]. unfold MemBulk.mem_read32.
  destruct (mem_read32_issues base 20 ctx_swap) as (c & Hc & [Ht Ho _ Ha Hcnt _]);
    [unfold in_word; lia|done..|].
  apply (twp_issues _ c (fun ws => ws)); [done|].
  pose proof (h_words s (ECmd c)) as Hws.
  assert (Hcfg : forall cfg, ConfigMem h cfg -> cfg base 5 = r_words (fst (h s (ECmd c)))).
  { intros cfg Hm. by rewrite (config_mem _ _ _ Ht Ho Hcnt), Ha. }
  assert (Hdc : forall al tr, describes nbi al tr -> describes nbi al (ECmd c :: tr)).
  { intros al tr Hd. apply (describes_app nbi [] al [ECmd c]); [|done]. unfold describes, reg_writes. cbn.
    by rewrite Ho, Ht. }
  revert Hws Hcfg. generalize (r_words (fst (h s (ECmd c)))) (snd (h s (ECmd c))).
  intros cl s' Hws Hcfg. apply twp_bind.
  eapply twp_mono; [|by apply cluster_queues_twp].
  intros [ret hd] tr s'' (al & Hd & Hs & Hr). cbn [fst snd] in *.
  assert (Hw : forall cfg, ConfigMem h cfg -> wanted cfg (S n) base =
    cluster_reqs cl ++ (if cl_last cl then [] else wanted cfg n (base + 20))).
  { intros cfg Hm. cbn [wanted]. by rewrite (Hcfg cfg Hm). }
  destruct (pack_all head (cluster_reqs cl)) as [hi|] eqn:Ep.
  2:{ subst ret. exists al, hd. rewrite app_nil_r. split; [by apply Hdc|]. split; [done|].
      split; [by right|]. intros cfg Hm. by rewrite Hw, pack_all_app, Ep. }
  destruct Hr as ([= -> ->] & Hhd & Hq). cbn [Z.eqb negb].
  destruct (cl_last cl) eqn:El.
  - exists al, hi. rewrite app_nil_r. split; [by apply Hdc|]. split; [done|]. split; [by left|].
    intros cfg Hm. rewrite Hw, app_nil_r, Ep by done. by rewrite decide_False.
  - assert (Hhd0 : 0 <= hi) by (pose proof (sram_from_le _ _ _ Hs); lia).
    eapply twp_mono; [|apply (IH (base + 20) hi); lia].
    intros r tr' _ (al' & hi' & Hd' & Hs' & Hr' & Hall). exists (al ++ al'), hi'.
    split; [apply Hdc; by apply describes_app|]. split; [by apply (sram_from_app head al hi)|].
    split; [done|]. intros cfg Hm. specialize (Hall cfg Hm).
    rewrite Hw, pack_all_app, Ep by done. destruct (decide _); [done|].
    destruct Hall as [-> Hall]. split; [done|].
    unfold asked, requests in *. by rewrite map_app, Hq, Hall, map_app, concat_app.
Qed.

(** C26: Whatever the configuration memory holds, configuring the queues returns 0
    or -1, and every queue it has configured has its own run of at least eight
    head-tail SRAM entries, aligned to its size, inside the 16384 entries and
    after the runs before it, its configuration register and its SRAM word written
    in step. It returns 0 exactly when the requests of the clusters can be packed
    one after the other, and then exactly the queues asked for are configured. *)
Theorem config_queues_safe nbi base s : 0 <= nbi <= 1 -> 0 <= base -> base + 20 * 24 <= 2 ^ 40 ->
  let o := exec h (nfp_nbi_tm_config_queues nbi base) s in
  exists ret al, o_res o = inl ret /\ (ret = 0 \/ ret = -1) /\ describes nbi al (o_trace o) /\
    (forall i x, al !! i = Some x ->
       0 <= a_queue x <= 1023 /\ 8 <= a_size x /\ 0 <= a_start x /\
       a_start x mod a_size x = 0 /\ a_start x + a_size x <= HEAD_TAIL_SRAM_MAX) /\
    (forall i j x y, (i < j)%nat -> al !! i = Some x -> al !! j = Some y ->
       a_start x + a_size x <= a_start y) /\
    (forall cfg, ConfigMem h cfg ->
       (ret = 0 <-> pack_all 0 (wanted cfg 24 base) <> None) /\
       (ret = 0 -> asked al = requests (wanted cfg 24 base))).
Proof.
  intros Hn Hb Hbn. cbv zeta. unfold nfp_nbi_tm_config_queues, MAX_NBI_NUMBER.
  destruct (Z.ltb_spec 1 nbi); [lia|].
  pose proof (queue_clusters_twp TM_INIT_MAX_Q_CLUSTERS nbi base 0 s Hn Hb ltac:(unfold TM_INIT_MAX_Q_CLUSTERS; lia)
    ltac:(unfold HEAD_TAIL_SRAM_MAX; lia)) as H0.
  apply twp_exec in H0 as (r & Hr & al & hi & Hd & Hs & Hr0 & Hc).
  exists r, al. split; [done|]. split; [tauto|]. split; [done|]. split_ands.
  - intros i x Hi. destruct (sram_from_nth _ _ _ _ _ Hs Hi) as (? & Hq & ? & ? & ?).
    split_ands; try done; try lia. unfold a_size. change 8 with (2 ^ 3). apply Z.pow_le_mono_r; lia.
  - intros i j x y Hij. by apply (sram_from_order 0 al hi).
  - intros cfg Hm. specialize (Hc cfg Hm). destruct (decide _) as [E|E].
    + subst r. split; [split; [done|by intros []]|done].
    + destruct Hc as [-> Hc]. split; [done|]. by intros _.
Qed.
End Queues.

(** Queues 2 and 3 of eight entries each, then queue 1022. *)
Lemma config_queues_safe_witness :
  let cfg a n := if a =? 0x1000 then [1; 2; 3; 0; 0xc0] else [1; 1022; 1022; 1; 0xc0] in
  let o := exec (config_hw cfg) (nfp_nbi_tm_config_queues 1 0x1000) tt in
  exists ret al, o_res o = inl ret /\ describes 1 al (o_trace o) /\
    ret = 0 /\ asked al = [(2, 0xc0); (3, 0xc0); (1022, 0xc0)].
Proof.
  intros cfg o.
  assert (Hw : forall s e, Forall (in_word 32) (r_words (fst (config_hw cfg s e)))).
  { intros s [c|r|r v|p b d|n|a]; try by constructor. unfold config_hw.
    destruct (cmd_count c); cbn; [|by constructor].
    unfold cfg. destruct (cmd_addr c =? 0x1000); by repeat constructor. }
  destruct (@config_queues_safe unit (config_hw cfg) Hw 1 0x1000 tt
    ltac:(split; apply Z.leb_le; reflexivity) ltac:(apply Z.leb_le; reflexivity)
    ltac:(apply Z.leb_le; reflexivity)) as (ret & al & Hr & _ & Hd & _ & _ & Hq).
  exists ret, al. split; [exact Hr|]. split; [exact Hd|].
  destruct (Hq cfg (config_hw_mem cfg)) as [E Ha].
  assert (E0 : ret = 0) by (apply E; by vm_compute).
  split; [exact E0|]. exact (Ha E0).
Defined.

(** ** Behaviours that differ from what the comments say *)

(** Without DWRR the scheduler's configuration register gets the word its transfer
    register held before, and not the configured one. *)
Lemma sched_config_uninitialised uninit nbi sched config weight :
  nbi_ok nbi -> 0 <= sched <= 143 -> dwrrenable config = false ->
  writes (nbi_tm_l1l2_scheduler_config__ uninit nbi sched config weight) 0
    [(reg_addr (cval nbi) (R_sched sched), Some 1, [uninit])].
Proof.
  intros Hn Hs Hd. pose proof (sched_config_writes uninit nbi sched config weight Hn Hs) as H.
  unfold sched_plan in H. by rewrite Hd in H.
Qed.

(** The last L1 shaper, 143, is taken for the L0 shaper. *)
Lemma shaper_143_sets_l0 nbi words : nbi_ok nbi ->
  writes (nbi_tm_shaper_config__ nbi 143 words) 0 (shaper_plan (cval nbi) words 144).
Proof. intros Hn. by apply (shaper_config_writes nbi 143 words). Qed.

(** The second NBI passes the run-time check but not the compile-time one. *)
Lemma nbi_1_constant_rejected config :
  tm_config_l0_sched_write config (ct 1) = Stop CtAssert /\ (MAX_NBI_NUMBER <? 1) = false.
Proof. done. Qed.

End TmConfig.
