(* ===== verification/CamHash.v ===== *)
(** lib/lu/_c/cam_hash.c and cam_cls_hash.c: the CAM-assisted hash table, in the
    memory units and in cluster local scratch. *)
From Stdlib Require Import ZArith Lia List String.
From stdpp Require Import base list numbers option strings.
From S2P Require Import Prelude Me RegUtils MemBulk MemCam Cls Hash.
#[local] Open Scope string_scope.
#[local] Open Scope list_scope.
#[local] Open Scope Z_scope.

Module CamHash.

(** lu/cam_hash.h *)
Definition CAMHT_MAX_KEY_SZ : Z := 32.
Definition CAMHT_MAX_KEY_SZ32 : Z := CAMHT_MAX_KEY_SZ / 4.
Definition CAMHT_BUCKET_ENTRIES : Z := 8.
Definition CAMHT_BUCKET_MASK (entries : Z) : Z := u32 (Z.quot entries CAMHT_BUCKET_ENTRIES - 1).
Definition CAMHT_BUCKET_IDX (h entries : Z) : Z := h .& CAMHT_BUCKET_MASK entries.
Definition CAMHT_BUCKET_HASH (hash : Z) : Z := (hash .& 0x00ffffff) .| 0x1.

Record camht_hash_t := CamhtHash { primary : Z; secondary : Z }.

(** A result of the register functions in a program. *)
Definition lift {A} (r : A + failure) : prog A :=
  match r with inl a => Ret a | inr f => Stop f end.

Definition camht_hash (key : list Z) (key_sz : carg) : prog camht_hash_t :=
  _ ← ctassert (is_ct key_sz);
  _ ← ctassert (cval key_sz <=? CAMHT_MAX_KEY_SZ);
  _ ← ctassert (cval key_sz mod 4 =? 0);
  p ← Hash.hash_me_crc32 key key_sz 0;
  q ← Hash.hash_me_crc32c key key_sz 0;
  Ret (CamhtHash p q).

(** The address of the bucket of a hash: [uint32_t *] arithmetic. *)
Definition bucket_addr (hash_tbl b_idx : Z) : Z := hash_tbl + 4 * mul32 b_idx CAMHT_BUCKET_ENTRIES.

Definition entries_asserts (entries : carg) : prog unit :=
  _ ← ctassert (is_ct entries);
  ctassert (Z.rem (cval entries) CAMHT_BUCKET_ENTRIES =? 0).

Definition camht_lookup_idx (hash_tbl : Z) (entries : carg) (hash : camht_hash_t) : prog Z :=
  _ ← entries_asserts entries;
  let b_idx := CAMHT_BUCKET_IDX (primary hash) (cval entries) in
  cam ← MemCam.mem_cam256_lookup24 [CAMHT_BUCKET_HASH (secondary hash)] (bucket_addr hash_tbl b_idx);
  let cam := nth 0 cam 0 in
  if negb (MemCam.mem_cam_lookup_hit cam) then Ret (-1)
  else Ret (s32 (add32 (mul32 b_idx CAMHT_BUCKET_ENTRIES) (MemCam.result_match cam))).

(** The result and what [*added] is set to. *)
Definition camht_lookup_idx_add (hash_tbl : Z) (entries : carg) (hash : camht_hash_t)
    (added : Z) : prog (Z * Z) :=
  _ ← entries_asserts entries;
  let b_idx := CAMHT_BUCKET_IDX (primary hash) (cval entries) in
  cam ← MemCam.mem_cam256_lookup24_add [CAMHT_BUCKET_HASH (secondary hash)] (bucket_addr hash_tbl b_idx);
  let cam := nth 0 cam 0 in
  if MemCam.mem_cam_lookup_add_fail cam then Ret (-1, added)
  else
    let ret := s32 (add32 (mul32 b_idx CAMHT_BUCKET_ENTRIES) (MemCam.result_match cam .& 0x7F)) in
    Ret (ret, if MemCam.mem_cam_lookup_add_added cam then 1 else 0).

Definition key_asserts (key_sz entry_sz : carg) : prog unit :=
  _ ← ctassert (is_ct key_sz);
  _ ← ctassert (cval key_sz <=? CAMHT_MAX_KEY_SZ);
  _ ← ctassert (cval key_sz mod 4 =? 0);
  _ ← ctassert (is_ct entry_sz);
  _ ← ctassert (cval entry_sz <=? 64);
  ctassert (cval entry_sz mod 4 =? 0).

(** [reg_eq(ht_key, key, key_sz)]: the two arrays side by side in the registers. *)
Definition key_eq (ht_key key : list Z) (key_sz : carg) : prog Z :=
  lift (RegUtils.reg_eq (RegUtils.InReg 0) (RegUtils.InReg (length ht_key)) key_sz
          (RegUtils.Regs [] (ht_key ++ key))).

Definition camht_lookup (hash_tbl key_tbl : Z) (entries entry_sz : carg) (key : list Z)
    (key_sz : carg) : prog Z :=
  _ ← entries_asserts entries;
  _ ← key_asserts key_sz entry_sz;
  hash ← camht_hash key key_sz;
  idx ← camht_lookup_idx hash_tbl entries hash;
  if idx <? 0 then Ret (-1)
  else
    let kt := key_tbl + mul32 idx (cval entry_sz) in
    ht_key ← MemBulk.mem_read32 kt key_sz;
    eq ← key_eq ht_key key key_sz;
    Ret (if negb (eq =? 0) then idx else -1).

(** [reg_cp(entry, key, entry_sz)] into the eight words of [entry]; copying more
    than either array holds has no defined result. *)
Definition copy_entry (key : list Z) (entry_sz : carg) : prog (list Z) :=
  let k := Z.to_nat (cval entry_sz / 4) in
  if (CAMHT_MAX_KEY_SZ32 <? cval entry_sz / 4) || (Z.of_nat (length key) <? cval entry_sz / 4)
  then Stop Undef
  else
    m ← lift (RegUtils.reg_cp (RegUtils.InReg 0) (RegUtils.InReg 8) entry_sz
                (RegUtils.Regs [] (replicate 8 0 ++ key)));
    Ret (RegUtils.region m (RegUtils.InReg 0) k).

Definition camht_lookup_add (hash_tbl key_tbl : Z) (entries : carg) (key : list Z)
    (key_sz entry_sz : carg) (added : Z) : prog (Z * Z) :=
  _ ← ctassert (is_ct key_sz);
  _ ← ctassert (is_ct entry_sz);
  _ ← ctassert (cval entry_sz mod 4 =? 0);
  hash ← camht_hash key key_sz;
  r ← camht_lookup_idx_add hash_tbl entries hash added;
  let '(ret, added) := r in
  if ret <? 0 then Ret (ret, added)
  else if negb (added =? 0) then
    let kt := key_tbl + mul32 ret (cval entry_sz) in
    entry ← copy_entry key entry_sz;
    _ ← MemBulk.mem_write32 entry kt entry_sz;
    Ret (ret, added)
  else Ret (ret, added).

(** ** The copy in cluster local scratch

    The CAM lookups of this version are commented out: every bucket answers with
    its entry 1. *)

Definition camht_cls_lookup_idx (hash_tbl : Z) (entries : carg) (hash : camht_hash_t) : prog Z :=
  _ ← entries_asserts entries;
  let b_idx := CAMHT_BUCKET_IDX (primary hash) (cval entries) in
  Ret (s32 (add32 (mul32 b_idx CAMHT_BUCKET_ENTRIES) 1)).

Definition camht_cls_lookup_idx_add (hash_tbl : Z) (entries : carg) (hash : camht_hash_t)
    (added : Z) : prog (Z * Z) :=
  _ ← entries_asserts entries;
  let b_idx := CAMHT_BUCKET_IDX (primary hash) (cval entries) in
  Ret (s32 (add32 (mul32 b_idx CAMHT_BUCKET_ENTRIES) (1 .& 0x7F)), 1).

Definition camht_cls_lookup (hash_tbl key_tbl : Z) (entries entry_sz : carg) (key : list Z)
    (key_sz : carg) : prog Z :=
  _ ← entries_asserts entries;
  _ ← key_asserts key_sz entry_sz;
  hash ← camht_hash key key_sz;
  idx ← camht_cls_lookup_idx hash_tbl entries hash;
  if idx <? 0 then Ret (-1)
  else
    let kt := key_tbl + mul32 idx (cval entry_sz) in
    ht_key ← Cls.cls_read kt key_sz;
    eq ← key_eq ht_key key key_sz;
    Ret (if negb (eq =? 0) then idx else -1).

Definition camht_cls_lookup_add (hash_tbl key_tbl : Z) (entries : carg) (key : list Z)
    (key_sz entry_sz : carg) (added : Z) : prog (Z * Z) :=
  _ ← ctassert (is_ct key_sz);
  _ ← ctassert (is_ct entry_sz);
  _ ← ctassert (cval entry_sz mod 4 =? 0);
  hash ← camht_hash key key_sz;
  r ← camht_cls_lookup_idx_add hash_tbl entries hash added;
  let '(ret, added) := r in
  if ret <? 0 then Ret (ret, added)
  else if negb (added =? 0) then
    let kt := key_tbl + mul32 ret (cval entry_sz) in
    entry ← copy_entry key entry_sz;
    _ ← Cls.cls_write entry kt entry_sz;
    Ret (ret, added)
  else Ret (ret, added).


(** ** Specification *)

(** The first position of a value. *)
Fixpoint index_of (v : Z) (l : list Z) : option nat :=
  match l with
  | [] => None
  | x :: l' => if x =? v then Some O else S <$> index_of v l'
  end.

Lemma index_of_spec v l :
  match index_of v l with
  | Some i => (i < length l)%nat /\ nth i l 0 = v
  | None => forall i, (i < length l)%nat -> nth i l 0 <> v
  end.
Proof.
  induction l as [|x l IH]; cbn; [intros i; lia|].
  destruct (Z.eqb_spec x v) as [->|Hne]; [cbn; split; [lia|done]|].
  destruct (index_of v l) as [i|]; cbn.
  - destruct IH. split; [lia|done].
  - intros [|i] Hi; [done|]. apply IH. lia.
Qed.

(** The eight 24-bit entries of the bucket at [a], in a memory of 32-bit words. *)
Definition bucket (kw : Z -> Z) (a : Z) : list Z :=
  map (fun i => field 0 24 (kw (a + 4 * Z.of_nat i))) (seq 0 8).

(** The events that leave the memory as it is. *)
Definition quiet (e : event) : Prop :=
  match e with
  | ECmd c => c_op c = "read32" \/ c_op c = "cam256_lookup24"
  | _ => True
  end.

(** The documented behaviour of the CRC unit and of the memory unit that holds the
    two tables: a CAM lookup answers with the entry that matches or 0xff; a lookup
    that adds fills an empty entry, whose number it reports with bit 7 set, and
    fails with 0xff when there is none. *)
Class CamHw {St : Type} (h : St -> event -> reply * St) (rem : St -> Z)
    (crc_step : crc_poly -> crc_bytes_t -> Z -> Z -> Z) (kw : St -> Z -> Z) : Prop := {
  cam_crc :: Hash.CrcUnit h rem crc_step;
  cam_quiet : forall s e, quiet e -> forall a, kw (snd (h s e)) a = kw s a;
  cam_read : forall s c n, c_tgt c = T_mem -> c_op c = "read32" -> cmd_count c = Some n ->
    r_words (fst (h s (ECmd c))) =
      map (fun i => kw s (cmd_addr c + 4 * Z.of_nat i)) (seq 0 (Z.to_nat n));
  cam_write : forall s c n a, c_tgt c = T_mem -> c_op c = "write32" -> cmd_count c = Some n ->
    a mod 4 = 0 -> cmd_addr c mod 4 = 0 ->
    kw (snd (h s (ECmd c))) a =
      if (cmd_addr c <=? a) && (a <? cmd_addr c + 4 * n)
      then nth (Z.to_nat ((a - cmd_addr c) / 4)) (c_data c) 0 else kw s a;
  cam_lookup : forall s c v, c_tgt c = T_mem -> c_op c = "cam256_lookup24" -> c_data c = [v] ->
    MemCam.result_match (nth 0 (r_words (fst (h s (ECmd c)))) 0) =
      match index_of v (bucket (kw s) (cmd_addr c)) with
      | Some i => Z.of_nat i
      | None => 0xff
      end;
  cam_lookup_add : forall s c v, c_tgt c = T_mem -> c_op c = "cam256_lookup24_add" -> c_data c = [v] ->
    let m := MemCam.result_match (nth 0 (r_words (fst (h s (ECmd c)))) 0) in
    let b := bucket (kw s) (cmd_addr c) in
    let kw' := kw (snd (h s (ECmd c))) in
    match index_of v b, index_of 0 b with
    | Some i, _ => m = Z.of_nat i /\ forall a, kw' a = kw s a
    | None, Some j => m = 0x80 + Z.of_nat j /\
        forall a, kw' a = if a =? cmd_addr c + 4 * Z.of_nat j then v else kw s a
    | None, None => m = 0xff /\ forall a, kw' a = kw s a
    end }.

Lemma length_bucket kw a : length (bucket kw a) = 8%nat.
Proof. done. Qed.

Lemma nth_bucket kw a i : (i < 8)%nat -> nth i (bucket kw a) 0 = field 0 24 (kw (a + 4 * Z.of_nat i)).
Proof. intros Hi. do 8 (destruct i as [|i]; [done|]). lia. Qed.

Lemma bucket_ext kw kw' a : (forall i, (i < 8)%nat -> kw' (a + 4 * Z.of_nat i) = kw (a + 4 * Z.of_nat i)) ->
  bucket kw' a = bucket kw a.
Proof. intros H. apply map_ext_in. intros i Hi. apply in_seq in Hi. by rewrite H by lia. Qed.

(** A bucket hash is an odd 24-bit word, so no empty entry. *)
Lemma bucket_hash_odd x : 0 < CAMHT_BUCKET_HASH x < 2 ^ 24.
Proof.
  assert (Hw : in_word 24 (CAMHT_BUCKET_HASH x)).
  { unfold CAMHT_BUCKET_HASH. apply in_word_lor; [lia| |done].
    by apply in_word_land_r. }
  assert (Ho : Z.testbit (CAMHT_BUCKET_HASH x) 0 = true).
  { unfold CAMHT_BUCKET_HASH. rewrite Z.lor_spec. apply orb_true_r. }
  unfold in_word in Hw. destruct (decide (CAMHT_BUCKET_HASH x = 0)) as [E|]; [|lia].
  rewrite E in Ho. done.
Qed.

(** The bucket index stays inside the table for any number of entries. *)
Lemma bucket_idx_range x entries : 8 <= entries < 2 ^ 31 -> 0 <= x ->
  0 <= CAMHT_BUCKET_IDX x entries < entries / 8.
Proof.
  intros He Hx. unfold CAMHT_BUCKET_IDX, CAMHT_BUCKET_MASK, CAMHT_BUCKET_ENTRIES.
  rewrite Z.quot_div_nonneg by lia. rewrite wrap_id by (unfold in_word; divlia).
  assert (Hm : 0 <= entries / 8 - 1) by divlia. set (m := entries / 8 - 1) in *.
  assert (entries / 8 = m + 1) as -> by (unfold m; lia).
  split; [apply Z.land_nonneg; lia|].
  assert (x .& m <= m); [|lia].
  rewrite <- (Z2N.id x), <- (Z2N.id m), <- N2Z.inj_land by lia. apply N2Z.inj_le, N.land_le_r.
Qed.

(** ** The operations on a hardware *)

(** The events of the two CAM operations. *)
Definition cam_event (op : string) (data : list Z) (addr : Z) : cmd :=
  Cmd T_mem op data (addr_hi addr) true (addr_lo addr) None (Some sig_done) None.

Lemma cam_lookup24_run data addr : MemCam.mem_cam256_lookup24 data addr =
  Vis (ECmd (cam_event "cam256_lookup24" data addr)) (fun r =>
    Vis (EArb A_wait) (fun _ => Ret (r_words r))).
Proof. reflexivity. Qed.

Lemma cam_lookup24_add_run data addr : MemCam.mem_cam256_lookup24_add data addr =
  Vis (ECmd (cam_event "cam256_lookup24_add" data addr)) (fun r =>
    Vis (EArb A_wait) (fun _ => Ret (r_words r))).
Proof. reflexivity. Qed.

(** [ret] as the table index it is. *)
Lemma table_index entries b i : entries < 2 ^ 24 -> 0 <= b < entries / 8 -> 0 <= i < 8 ->
  s32 (add32 (mul32 b CAMHT_BUCKET_ENTRIES) i) = 8 * b + i.
Proof.
  intros He Hb Hi. unfold s32, add32, mul32, CAMHT_BUCKET_ENTRIES.
  rewrite (wrap_id 32 (b * 8)), wrap_id by (unfold in_word; divlia).
  destruct (Z.ltb_spec (b * 8 + i) (2 ^ 31)); [lia|divlia].
Qed.

Section Table.
Context {St : Type} (h : St -> event -> reply * St) (rem : St -> Z)
  (crc_step : crc_poly -> crc_bytes_t -> Z -> Z -> Z) (kw : St -> Z -> Z)
  `{!CamHw h rem crc_step kw}.

(** The table: its addresses and sizes. *)
Context (hash_tbl key_tbl entries entry_sz key_sz : Z).
Hypothesis entries_ok : 8 <= entries < 2 ^ 24 /\ entries mod 8 = 0.
Hypothesis key_ok : 0 < key_sz <= 32 /\ key_sz mod 4 = 0.
Hypothesis entry_ok : key_sz <= entry_sz <= 32 /\ entry_sz mod 4 = 0.
Hypothesis aligned : hash_tbl mod 4 = 0 /\ key_tbl mod 4 = 0.
Hypothesis in_memory : 0 <= hash_tbl /\ hash_tbl + 4 * entries <= 2 ^ 40 /\
  0 <= key_tbl /\ key_tbl + entries * entry_sz <= 2 ^ 40.
Hypothesis disjoint : hash_tbl + 4 * entries <= key_tbl \/ key_tbl + entries * entry_sz <= hash_tbl.

(** The two hashes of a key of [key_sz] bytes. *)
Definition hash1 (key : list Z) : Z := fold_left (crc_step crc_32 crc_bytes_0_3) key 0.
Definition hash2 (key : list Z) : Z := fold_left (crc_step crc_iscsi crc_bytes_0_3) key 0.
Hypothesis hash1_word : forall key, 0 <= hash1 key.

Definition key_words : nat := Z.to_nat (key_sz / 4).
Definition bidx (key : list Z) : Z := CAMHT_BUCKET_IDX (hash1 key) entries.
Definition btag (key : list Z) : Z := CAMHT_BUCKET_HASH (hash2 key).

(** Entry [idx]: its 24-bit tag in the hash table and its key in the key table. *)
Definition tag (m : Z -> Z) (idx : Z) : Z := field 0 24 (m (hash_tbl + 4 * idx)).
Definition skey (m : Z -> Z) (idx : Z) : list Z :=
  map (fun i => m (key_tbl + idx * entry_sz + 4 * Z.of_nat i)) (seq 0 key_words).
Definition occupied (m : Z -> Z) (idx : Z) : Prop := 0 <= idx < entries /\ tag m idx <> 0.

(** [key] is in the table at [idx]. *)
Definition present (m : Z -> Z) (key : list Z) (idx : Z) : Prop :=
  occupied m idx /\ skey m idx = key.

(** Each key sits in its bucket under its tag, and a bucket has no tag twice. *)
Record table_ok (m : Z -> Z) : Prop := TableOk {
  tk_home : forall idx, occupied m idx -> idx / 8 = bidx (skey m idx) /\ tag m idx = btag (skey m idx);
  tk_uniq : forall i j, occupied m i -> occupied m j -> i / 8 = j / 8 -> tag m i = tag m j -> i = j }.

Lemma bidx_range key : 0 <= bidx key < entries / 8.
Proof. apply bucket_idx_range; [lia|apply hash1_word]. Qed.

Lemma bucket_addr_eq b : 0 <= b < entries / 8 -> bucket_addr hash_tbl b = hash_tbl + 32 * b.
Proof.
  intros Hb. unfold bucket_addr, mul32, CAMHT_BUCKET_ENTRIES. rewrite wrap_id; [lia|].
  unfold in_word. divlia.
Qed.

Lemma nth_bucket_tag m b i : (i < 8)%nat -> 0 <= b < entries / 8 ->
  nth i (bucket m (bucket_addr hash_tbl b)) 0 = tag m (8 * b + Z.of_nat i).
Proof. intros Hi Hb. rewrite nth_bucket, bucket_addr_eq by done. unfold tag. do 2 f_equal. lia. Qed.

(** What a lookup of [v] in bucket [b] finds. *)
Lemma find_bucket m b v : 0 <= b < entries / 8 ->
  match index_of v (bucket m (bucket_addr hash_tbl b)) with
  | Some i => (i < 8)%nat /\ tag m (8 * b + Z.of_nat i) = v
  | None => forall idx, 0 <= idx < entries -> idx / 8 = b -> tag m idx <> v
  end.
Proof.
  intros Hb. pose proof (index_of_spec v (bucket m (bucket_addr hash_tbl b))) as H.
  rewrite length_bucket in H. destruct (index_of v _) as [i|].
  - destruct H as [Hi <-]. split; [done|]. symmetry. by apply nth_bucket_tag.
  - intros idx Hidx <-. specialize (H (Z.to_nat (idx mod 8)) ltac:(divlia)).
    rewrite nth_bucket_tag in H by divlia. replace (8 * (idx / 8) + Z.of_nat (Z.to_nat (idx mod 8)))
      with idx in H by divlia. done.
Qed.

(** Both hashes of a key, in a state with the same memory. *)
Lemma camht_hash_quiet key n : only_events quiet (camht_hash key n).
Proof.
  assert (Hm : forall f xs, (forall x, only_events quiet (f x)) -> only_events quiet (Hash.exec_macro f xs)).
  { intros f xs Hf. induction xs as [|x xs IH]; [done|]. cbn [Hash.exec_macro].
    by apply only_events_bind. }
  assert (Ha : forall b, only_events quiet (ctassert b)) by (by intros []).
  unfold camht_hash, Hash.hash_me_crc32, Hash.hash_me_crc32c.
  repeat (apply only_events_bind; [|intros _ || intros ?]); try apply Ha; try done;
    apply Hm; intros x; done.
Qed.

Lemma camht_hash_wp key s : 4 * Z.of_nat (length key) >= key_sz ->
  wp h (camht_hash key (ct key_sz)) (fun r s' =>
    r = CamhtHash (hash1 (take key_words key)) (hash2 (take key_words key)) /\
    forall a, kw s' a = kw s a) s.
Proof.
  intros Hk. apply (wp_frame h quiet (fun s' => forall a, kw s' a = kw s a)).
  - intros s0 e He H a. by rewrite cam_quiet.
  - apply camht_hash_quiet.
  - done.
  - unfold camht_hash, mbind, prog_bind, CAMHT_MAX_KEY_SZ. cbn [cval is_ct ct].
    rewrite !ctassert_true by (done || (apply Z.leb_le; lia) || (apply Z.eqb_eq; lia)).
    apply wp_bind. eapply wp_mono; [|apply (Hash.hash_me_crc_wp h rem crc_step); [done|cbn; lia..]].
    intros p s1 ->. apply wp_bind.
    eapply wp_mono; [|apply (Hash.hash_me_crc_wp h rem crc_step); [done|cbn; lia..]].
    intros q s2 ->. done.
Qed.

Lemma camht_lookup_idx_wp hash s : 0 <= primary hash ->
  let b := CAMHT_BUCKET_IDX (primary hash) entries in
  let v := CAMHT_BUCKET_HASH (secondary hash) in
  wp h (camht_lookup_idx hash_tbl (ct entries) hash) (fun r s' =>
    (forall a, kw s' a = kw s a) /\
    ((0 <= r < entries /\ r / 8 = b /\ tag (kw s) r = v) \/
     (r = -1 /\ forall idx, 0 <= idx < entries -> idx / 8 = b -> tag (kw s) idx <> v))) s.
Proof.
  intros Hp b v. assert (Hb : 0 <= b < entries / 8) by (apply bucket_idx_range; lia).
  unfold camht_lookup_idx, entries_asserts, mbind, prog_bind, CAMHT_BUCKET_ENTRIES.
  cbn [cval is_ct ct]. rewrite Z.rem_mod_nonneg, (proj2 (Z.eqb_eq _ _) (proj2 entries_ok)) by lia.
  cbn [bind ctassert]. fold b v.
  rewrite cam_lookup24_run. cbn [bind wp]. cbv zeta.
  set (c := cam_event _ _ _).
  assert (Ha : cmd_addr c = bucket_addr hash_tbl b).
  { apply addr_split. rewrite bucket_addr_eq by done. unfold in_word. divlia. }
  pose proof (cam_lookup s c v eq_refl eq_refl eq_refl) as Hm. rewrite Ha in Hm.
  pose proof (cam_quiet s (ECmd c) (or_intror eq_refl)) as Hq.
  pose proof (find_bucket (kw s) b v Hb) as Hf.
  set (w := nth 0 (r_words (fst (h s (ECmd c)))) 0) in *.
  set (s1 := snd (h s (ECmd c))) in *.
  assert (Hq' : forall a, kw (snd (h s1 (EArb A_wait))) a = kw s a).
  { intros a. rewrite cam_quiet by done. apply Hq. }
  unfold MemCam.mem_cam_lookup_hit. rewrite Hm.
  destruct (index_of v (bucket (kw s) (bucket_addr hash_tbl b))) as [i|].
  - destruct Hf as [Hi Ht]. destruct (Z.eqb_spec (Z.of_nat i) 0xff); [lia|]. cbn [negb wp].
    split; [done|]. left. rewrite (table_index entries) by lia. split_ands; [divlia..|done].
  - cbn [negb Z.eqb wp]. split; [done|]. by right.
Qed.

(** The key comparison: the first [key_sz] bytes of the two arrays. *)
Lemma key_eq_spec ws key : length ws = key_words -> (key_words <= length key)%nat ->
  exists e, key_eq ws key (ct key_sz) = Ret e /\
    (e <> 0 <-> ws = take key_words key).
Proof.
  intros Hw Hk. unfold key_eq.
  destruct (RegUtils.reg_eq_compares (RegUtils.InReg 0) (RegUtils.InReg (length ws)) (ct key_sz)
    (RegUtils.Regs [] (ws ++ key))) as (r & E & H01 & Hr); try done; try (cbn; lia).
  { cbn. rewrite length_app. cbn. fold key_words. lia. }
  { cbn. rewrite length_app. fold key_words. lia. }
  rewrite E. exists r. split; [done|]. cbn [cval ct] in Hr. fold key_words in Hr.
  assert (E1 : RegUtils.region (RegUtils.Regs [] (ws ++ key)) (RegUtils.InReg 0) key_words = ws).
  { transitivity (slice 0 ws 0 key_words); [|rewrite slice_take, take_ge by lia; done].
    unfold RegUtils.region, RegUtils.get, slice. cbn.
    apply map_ext_in. intros i Hi. apply in_seq in Hi. apply app_nth1. lia. }
  assert (E2 : RegUtils.region (RegUtils.Regs [] (ws ++ key)) (RegUtils.InReg (length ws)) key_words
    = take key_words key).
  { rewrite <- (slice_take 0 key key_words) by lia. unfold RegUtils.region, RegUtils.get, slice. cbn.
    apply map_ext_in. intros i Hi. rewrite app_nth2 by lia. f_equal. lia. }
  rewrite E1, E2 in Hr. destruct H01 as [-> | ->]; intuition lia.
Qed.

Lemma key_eq_wp ws key s (Q : Z -> St -> Prop) :
  length ws = key_words -> (key_words <= length key)%nat ->
  (forall e, (e <> 0 <-> ws = take key_words key) -> Q e s) ->
  wp h (key_eq ws key (ct key_sz)) Q s.
Proof. intros Hw Hk HQ. destruct (key_eq_spec ws key Hw Hk) as (e & -> & He). by apply HQ. Qed.

(** Reading a stored key. *)
Lemma mem_read32_wp a n s : in_word 40 a -> 4 <= n <= 64 -> n mod 4 = 0 ->
  wp h (MemBulk.mem_read32 a (ct n)) (fun ws s' =>
    ws = map (fun i => kw s (a + 4 * Z.of_nat i)) (seq 0 (Z.to_nat (n / 4))) /\
    forall x, kw s' x = kw s x) s.
Proof.
  intros Ha Hn H4. apply wp_exec. unfold MemBulk.mem_read32, MemBulk.__mem_read32, is_aligned,
    mbind, prog_bind. cbn [cval is_ct ct].
  rewrite H4, !try_ctassert_true by (done || apply Z.leb_le; lia).
  destruct (MemBulk.MEM_CMD_issues "read32" [] a (ct n) (ct n) ctx_swap 2) as (c & Hc & Hp);
    [done|lia| |by left|].
  { cbn [cval ct]. rewrite Z.shiftr_div_pow2 by lia. change (2 ^ 2) with 4. divlia. }
  destruct Hp as [Ht Ho _ Had Hcnt _]. cbn [cval ct] in Hcnt.
  rewrite Z.shiftr_div_pow2 in Hcnt by lia. change (2 ^ 2) with 4 in Hcnt.
  rewrite Hc. eexists. split; [done|]. cbn [o_st]. split.
  - by rewrite (cam_read _ _ _ Ht Ho Hcnt), Had.
  - intros x. apply cam_quiet. by left.
Qed.

Lemma mul32_entry r : 0 <= r < entries -> mul32 r entry_sz = r * entry_sz.
Proof. intros Hr. unfold mul32. apply wrap_id. unfold in_word. nia. Qed.

Lemma entry_addr r : 0 <= r < entries -> 0 <= key_tbl + r * entry_sz /\
  key_tbl + r * entry_sz + entry_sz <= 2 ^ 40 /\ (key_tbl + r * entry_sz) mod 4 = 0.
Proof.
  intros Hr. split_ands; [nia|nia|]. destruct aligned as [_ Ha], entry_ok as [_ He].
  rewrite <- Z.add_mod_idemp_r by lia.
  rewrite Z.mul_comm, <- (Z.mul_mod_idemp_l entry_sz) by lia. rewrite He, Z.mul_0_l, Z.mod_0_l by lia.
  by rewrite Z.add_0_r.
Qed.

Lemma entries_assert_ok {A} (p : prog A) : bind (entries_asserts (ct entries)) (fun _ => p) = p.
Proof.
  unfold entries_asserts, mbind, prog_bind, CAMHT_BUCKET_ENTRIES. cbn [cval is_ct ct].
  by rewrite Z.rem_mod_nonneg, (proj2 (Z.eqb_eq _ _) (proj2 entries_ok)) by lia.
Qed.

(** C2: On a well-formed CAM hash table, with any hash functions computed by the
    CRC unit, a lookup changes nothing, and answers an index exactly when the key
    is stored under that index; otherwise it answers -1. *)
Theorem camht_lookup_correct key s : table_ok (kw s) -> (key_words <= length key)%nat ->
  wp h (camht_lookup hash_tbl key_tbl (ct entries) (ct entry_sz) key (ct key_sz)) (fun r s' =>
    (forall a, kw s' a = kw s a) /\ (r = -1 \/ 0 <= r < entries) /\
    forall idx, 0 <= idx -> (r = idx <-> present (kw s) (take key_words key) idx)) s.
Proof.
  intros Hok Hk. assert (Hlen : 4 * Z.of_nat (length key) >= key_sz) by (unfold key_words in Hk; divlia).
  unfold camht_lookup, mbind, prog_bind. rewrite entries_assert_ok.
  assert (Ek : forall p : prog Z, bind (key_asserts (ct key_sz) (ct entry_sz)) (fun _ => p) = p).
  { intros p. unfold key_asserts, mbind, prog_bind, CAMHT_MAX_KEY_SZ. cbn [cval is_ct ct].
    by rewrite (proj2 (Z.leb_le key_sz 32)), (proj2 (Z.leb_le entry_sz 64)),
      (proj2 (Z.eqb_eq _ _) (proj2 key_ok)), (proj2 (Z.eqb_eq _ _) (proj2 entry_ok)) by lia. }
  rewrite Ek. clear Ek. apply wp_bind. eapply wp_mono; [|by apply camht_hash_wp].
  intros hash s1 [-> H1]. set (k := take key_words key). apply wp_bind.
  eapply wp_mono; [|apply camht_lookup_idx_wp; apply hash1_word].
  intros r s2 [H2 Hr]. cbn [primary secondary] in Hr. fold (bidx k) (btag k) in Hr.
  assert (Htag : forall i, tag (kw s1) i = tag (kw s) i) by (intros; unfold tag; by rewrite H1).
  assert (H02 : forall a, kw s2 a = kw s a) by (intros; by rewrite H2, H1).
  assert (Hhome : forall idx, present (kw s) k idx -> idx / 8 = bidx k /\ tag (kw s) idx = btag k).
  { intros idx [Ho <-]. by apply tk_home. }
  destruct Hr as [(Hr & Hb & Ht)|[-> Hno]].
  - rewrite Htag in Ht. destruct (Z.ltb_spec r 0); [lia|]. rewrite mul32_entry by done.
    destruct (entry_addr r Hr) as (Ha1 & Ha2 & Ha4).
    apply wp_bind. eapply wp_mono; [|apply mem_read32_wp; [unfold in_word; lia|divlia|lia]].
    intros ws s3 [Hws H3]. apply wp_bind.
    assert (Hskey : ws = skey (kw s) r).
    { rewrite Hws. apply map_ext. intros i. apply H02. }
    apply key_eq_wp; [by rewrite Hskey; unfold skey; rewrite length_map, length_seq|done|].
    intros e He. fold k in He. rewrite Hskey in He. split; [by intros a; rewrite H3|].
    assert (Hocc : occupied (kw s) r).
    { split; [done|]. rewrite Ht. pose proof (bucket_hash_odd (hash2 k)). unfold btag. lia. }
    assert (Hpr : forall idx, present (kw s) k idx -> idx = r).
    { intros idx Hp. destruct (Hhome idx Hp) as [E1 E2]. apply (tk_uniq _ Hok); [apply Hp|done|lia|].
      by rewrite E2. }
    destruct (Z.eqb_spec e 0) as [->|Hne]; cbn [negb].
    + split; [by left|]. intros idx Hidx. split; [lia|]. intros Hp.
      pose proof (Hpr idx Hp) as ->. destruct Hp as [_ Hp]. apply He in Hp. lia.
    + apply He in Hne. split; [by right|]. intros idx Hidx. split; [intros <-; done|].
      intros Hp. symmetry. by apply Hpr.
  - cbn. split; [done|]. split; [by left|]. intros idx Hidx. split; [lia|]. intros Hp.
    destruct (Hhome idx Hp) as [E1 E2]. destruct Hp as [[Hp _] _].
    destruct (Hno idx Hp E1). by rewrite Htag.
Qed.

(** ** Adding *)

(** The three ways a lookup that adds ends, for tag [v] in bucket [b]. *)
Definition full_bucket (m : Z -> Z) (b v : Z) : Prop :=
  forall idx, 0 <= idx < entries -> idx / 8 = b -> tag m idx <> 0 /\ tag m idx <> v.

Lemma match_bits i : (i < 8)%nat ->
  Z.of_nat i <> 0xff /\ Z.of_nat i .& 0x7F = Z.of_nat i /\ Z.of_nat i .& 0x80 = 0 /\
  0x80 + Z.of_nat i <> 0xff /\ (0x80 + Z.of_nat i) .& 0x7F = Z.of_nat i /\
  (0x80 + Z.of_nat i) .& 0x80 = 0x80.
Proof. intros Hi. do 8 (destruct i as [|i]; [by vm_compute|]). lia. Qed.

Lemma camht_lookup_idx_add_wp hash added0 s : 0 <= primary hash ->
  let b := CAMHT_BUCKET_IDX (primary hash) entries in
  let v := CAMHT_BUCKET_HASH (secondary hash) in
  wp h (camht_lookup_idx_add hash_tbl (ct entries) hash added0) (fun r s' =>
    (r = (-1, added0) /\ full_bucket (kw s) b v /\ forall a, kw s' a = kw s a) \/
    (exists idx, r = (idx, 0) /\ 0 <= idx < entries /\ idx / 8 = b /\ tag (kw s) idx = v /\
       forall a, kw s' a = kw s a) \/
    (exists idx, r = (idx, 1) /\ 0 <= idx < entries /\ idx / 8 = b /\ tag (kw s) idx = 0 /\
       (forall i, 0 <= i < entries -> i / 8 = b -> tag (kw s) i <> v) /\
       forall a, kw s' a = if a =? hash_tbl + 4 * idx then v else kw s a)) s.
Proof.
  intros Hp b v. assert (Hb : 0 <= b < entries / 8) by (apply bucket_idx_range; lia).
  unfold camht_lookup_idx_add, mbind, prog_bind. rewrite entries_assert_ok. cbn [cval ct]. fold b v.
  rewrite cam_lookup24_add_run. cbn [bind wp]. cbv zeta.
  set (c := cam_event _ _ _).
  assert (Ha : cmd_addr c = bucket_addr hash_tbl b).
  { apply addr_split. rewrite bucket_addr_eq by done. unfold in_word. divlia. }
  pose proof (cam_lookup_add s c v eq_refl eq_refl eq_refl) as Hm. cbv zeta in Hm. rewrite Ha in Hm.
  pose proof (find_bucket (kw s) b v Hb) as Hf. pose proof (find_bucket (kw s) b 0 Hb) as H0.
  set (w := nth 0 (r_words (fst (h s (ECmd c)))) 0) in *.
  set (s1 := snd (h s (ECmd c))) in *.
  assert (Hq : forall a, kw (snd (h s1 (EArb A_wait))) a = kw s1 a) by (intros; by apply cam_quiet).
  unfold MemCam.mem_cam_lookup_add_fail, MemCam.mem_cam_lookup_add_added.
  destruct (index_of v (bucket (kw s) (bucket_addr hash_tbl b))) as [i|].
  - destruct Hf as [Hi Ht], Hm as [-> Hk], (match_bits i Hi) as (M1 & M2 & M3 & _).
    rewrite (proj2 (Z.eqb_neq _ _) M1), M2, M3, (table_index entries) by lia. cbn [wp negb Z.eqb].
    right. left. exists (8 * b + Z.of_nat i). split; [done|]. split; [divlia|].
    split; [divlia|]. split; [done|]. intros a. by rewrite Hq.
  - destruct (index_of 0 (bucket (kw s) (bucket_addr hash_tbl b))) as [j|].
    + destruct H0 as [Hj Ht], Hm as [-> Hk], (match_bits j Hj) as (_ & _ & _ & M1 & M2 & M3).
      rewrite (proj2 (Z.eqb_neq _ _) M1), M2, M3, (table_index entries) by lia. cbn [wp negb Z.eqb].
      right. right. exists (8 * b + Z.of_nat j). split; [done|]. split; [divlia|].
      split; [divlia|]. split; [done|]. split; [done|]. intros a. rewrite Hq, Hk, bucket_addr_eq by done.
      by replace (hash_tbl + 32 * b + 4 * Z.of_nat j) with (hash_tbl + 4 * (8 * b + Z.of_nat j)) by lia.
    + destruct Hm as [-> Hk]. cbn [wp Z.eqb Pos.eqb]. left. split; [done|].
      split; [|intros a; by rewrite Hq]. intros idx Hidx Hb'. split; [by apply H0|by apply Hf].
Qed.

Definition entry_words : nat := Z.to_nat (entry_sz / 4).

Lemma copy_entry_spec key : (entry_words <= length key)%nat ->
  copy_entry key (ct entry_sz) = Ret (take entry_words key).
Proof.
  intros Hk. unfold copy_entry, CAMHT_MAX_KEY_SZ32, CAMHT_MAX_KEY_SZ. cbn [cval ct].
  change (32 / 4) with 8. fold entry_words.
  assert (Hew : Z.of_nat entry_words = entry_sz / 4) by (unfold entry_words; divlia).
  destruct (Z.ltb_spec 8 (entry_sz / 4)); [divlia|].
  destruct (Z.ltb_spec (Z.of_nat (length key)) (entry_sz / 4)); [lia|]. cbn [orb].
  set (m := RegUtils.Regs [] (replicate 8 0 ++ key)).
  destruct (RegUtils.reg_cp_copies (RegUtils.InReg 0) (RegUtils.InReg 8) (ct entry_sz) m)
    as (m' & E & Hr & _); try done; cbn [cval ct]; fold entry_words; try lia.
  1,2: cbn [RegUtils.fits RegUtils.gpr m]; rewrite length_app, length_replicate; lia.
  { intros x y Hxy. cbn. lia. }
  rewrite E. cbn [lift mbind prog_bind bind]. f_equal.
  cbn [cval ct] in Hr. fold entry_words in Hr. rewrite Hr.
  rewrite <- (slice_take 0 key entry_words) by lia. unfold RegUtils.region, RegUtils.get, slice. cbn [RegUtils.gpr m].
  apply map_ext_in. intros i Hi. rewrite app_nth2 by (rewrite length_replicate; lia).
  f_equal. rewrite length_replicate. lia.
Qed.

Lemma mem_write32_wp data a n s : in_word 40 a -> a mod 4 = 0 -> 4 <= n <= 64 -> n mod 4 = 0 ->
  wp h (MemBulk.mem_write32 data a (ct n)) (fun _ s' => forall x, x mod 4 = 0 ->
    kw s' x = if (a <=? x) && (x <? a + n) then nth (Z.to_nat ((x - a) / 4)) data 0 else kw s x) s.
Proof.
  intros Ha Ha4 Hn H4. apply wp_exec. unfold MemBulk.mem_write32, MemBulk.__mem_write32, is_aligned,
    mbind, prog_bind. cbn [cval is_ct ct].
  rewrite H4, !try_ctassert_true by (done || apply Z.leb_le; lia).
  destruct (MemBulk.MEM_CMD_write "write32" data a (ct n) (ct n) ctx_swap 2) as (c & Hc & Hp);
    [done|lia| |by left|].
  { cbn [cval ct]. rewrite Z.shiftr_div_pow2 by lia. change (2 ^ 2) with 4. divlia. }
  destruct Hp as [Ht Ho Hd Had Hcnt _]. cbn [cval ct] in Hcnt.
  rewrite Z.shiftr_div_pow2 in Hcnt by lia. change (2 ^ 2) with 4 in Hcnt.
  rewrite Hc. eexists. split; [done|]. cbn [o_st]. intros x Hx.
  rewrite (cam_write _ _ _ _ Ht Ho Hcnt), Had, Hd by (done || by rewrite Had).
  by replace (4 * (n / 4)) with n by divlia.
Qed.

(** The memory after a new key was added at [r]. *)
Record added_at (m m' : Z -> Z) (r v : Z) (key : list Z) : Prop := AddedAt {
  aa_tag : forall i, 0 <= i < entries -> tag m' i = if i =? r then v else tag m i;
  aa_key : forall i, 0 <= i < entries ->
    skey m' i = if i =? r then take key_words key else skey m i }.

Lemma skey_ext m m' i : 0 <= i < entries ->
  (forall x, key_tbl + i * entry_sz <= x < key_tbl + i * entry_sz + key_sz -> x mod 4 = 0 -> m' x = m x) ->
  skey m' i = skey m i.
Proof.
  intros Hi H. apply map_ext_in. intros j Hj. apply in_seq in Hj. unfold key_words in Hj.
  destruct (entry_addr i Hi) as (_ & _ & H4). apply H; [divlia|].
  rewrite (Z.mul_comm 4), Z.mod_add by lia. done.
Qed.

Lemma entry_bounds i r : i <> r -> 0 <= i < entries -> 0 <= r < entries ->
  0 <= i * entry_sz /\ i * entry_sz + entry_sz <= entries * entry_sz /\
  (i * entry_sz + entry_sz <= r * entry_sz \/ r * entry_sz + entry_sz <= i * entry_sz).
Proof.
  intros Hne Hi Hr. pose proof (Z.mul_nonneg_nonneg i entry_sz).
  pose proof (Z.mul_le_mono_nonneg_r (i + 1) entries entry_sz).
  pose proof (Z.mul_le_mono_nonneg_r (i + 1) r entry_sz).
  pose proof (Z.mul_le_mono_nonneg_r (r + 1) i entry_sz). lia.
Qed.

(** The two writes of an addition, to the tag and to the key. *)
Lemma added_at_writes m m1 m2 r v key : 0 <= r < entries -> 0 < v < 2 ^ 24 ->
  (entry_words <= length key)%nat ->
  (forall a, m1 a = if a =? hash_tbl + 4 * r then v else m a) ->
  (forall x, x mod 4 = 0 -> m2 x =
     if (key_tbl + r * entry_sz <=? x) && (x <? key_tbl + r * entry_sz + entry_sz)
     then nth (Z.to_nat ((x - (key_tbl + r * entry_sz)) / 4)) (take entry_words key) 0 else m1 x) ->
  added_at m m2 r v key.
Proof.
  intros Hr Hv Hk H1 H2. destruct aligned as [Ah _].
  assert (Hout : forall i, 0 <= i < entries -> m2 (hash_tbl + 4 * i) = m1 (hash_tbl + 4 * i)).
  { intros i Hi. rewrite H2 by (rewrite (Z.mul_comm 4), Z.mod_add by lia; done).
    destruct (Z.leb_spec (key_tbl + r * entry_sz) (hash_tbl + 4 * i)),
      (Z.ltb_spec (hash_tbl + 4 * i) (key_tbl + r * entry_sz + entry_sz)); cbn; try done.
    pose proof (Z.mul_nonneg_nonneg r entry_sz).
    pose proof (Z.mul_le_mono_nonneg_r (r + 1) entries entry_sz). lia. }
  split.
  - intros i Hi. unfold tag. rewrite Hout, H1 by done.
    destruct (Z.eqb_spec i r) as [->|Hne].
    + rewrite Z.eqb_refl. unfold field. rewrite Z.shiftr_0_r. apply wrap_id. unfold in_word. lia.
    + by rewrite (proj2 (Z.eqb_neq _ _)) by lia.
  - intros i Hi. destruct (Z.eqb_spec i r) as [->|Hne].
    + rewrite <- (slice_take 0 key key_words) by (unfold entry_words, key_words in *; divlia).
      apply map_ext_in. intros j Hj. apply in_seq in Hj. unfold key_words in Hj.
      destruct (entry_addr r Hr) as (_ & _ & H4).
      rewrite H2 by (rewrite (Z.mul_comm 4), Z.mod_add by lia; done).
      rewrite (proj2 (Z.leb_le _ _)), (proj2 (Z.ltb_lt _ _)) by divlia. cbn [andb].
      rewrite nth_firstn, (proj2 (Nat.ltb_lt _ _)) by (unfold entry_words; divlia). f_equal. divlia.
    + apply skey_ext; [done|]. intros x Hx Hx4. rewrite H2 by done.
      destruct (entry_bounds i r ltac:(lia) Hi Hr) as (B1 & B2 & B3).
      assert (Hd : x < key_tbl + r * entry_sz \/ key_tbl + r * entry_sz + entry_sz <= x) by lia.
      assert (Hh : x <> hash_tbl + 4 * r) by lia.
      rewrite H1, (proj2 (Z.eqb_neq _ _) Hh).
      destruct (Z.leb_spec (key_tbl + r * entry_sz) x),
        (Z.ltb_spec x (key_tbl + r * entry_sz + entry_sz)); cbn; done || lia.
Qed.

(** An addition to a well-formed table: it stays well formed, and gains one key. *)
Lemma added_at_ok m m' r key : table_ok m -> 0 <= r < entries ->
  let k := take key_words key in
  r / 8 = bidx k -> tag m r = 0 ->
  (forall i, 0 <= i < entries -> i / 8 = bidx k -> tag m i <> btag k) ->
  added_at m m' r (btag k) key ->
  table_ok m' /\ present m' k r /\
  forall k' i, i <> r -> (present m' k' i <-> present m k' i).
Proof.
  intros Hok Hr k Hb H0 Hno [Ht Hs].
  assert (Hv : btag k <> 0) by (pose proof (bucket_hash_odd (hash2 k)); unfold btag; lia).
  assert (Hocc : forall i, occupied m' i <-> i = r \/ occupied m i).
  { intros i. unfold occupied. split.
    - intros [Hi Hn]. rewrite Ht in Hn by done. destruct (Z.eqb_spec i r); [by left|by right].
    - intros [->|[Hi Hn]]; (split; [done|]); rewrite Ht by done; [by rewrite Z.eqb_refl|].
      by destruct (i =? r). }
  split; [split|split].
  - intros i Hi. pose proof (proj1 Hi) as Hir. apply Hocc in Hi. rewrite Ht, Hs by done.
    destruct (Z.eqb_spec i r) as [->|Hne]; [done|]. apply tk_home; [done|]. by destruct Hi.
  - intros i j Hi Hj Hij. pose proof (proj1 Hi) as Hir. pose proof (proj1 Hj) as Hjr.
    apply Hocc in Hi, Hj. rewrite !Ht by done.
    destruct (Z.eqb_spec i r) as [->|Hni], (Z.eqb_spec j r) as [->|Hnj]; [done|..].
    + intros E. destruct (Hno j Hjr); [lia|done].
    + intros E. destruct (Hno i Hir); [lia|done].
    + destruct Hi as [|Hi], Hj as [|Hj]; try done. by apply (tk_uniq _ Hok).
  - split; [by apply Hocc; left|]. rewrite Hs by done. by rewrite Z.eqb_refl.
  - intros k' i Hne. unfold present. split.
    + intros [Ho <-]. pose proof (proj1 Ho). apply Hocc in Ho. destruct Ho as [|Ho]; [done|].
      split; [done|]. rewrite Hs by done. by rewrite (proj2 (Z.eqb_neq _ _) Hne).
    + intros [Ho <-]. split; [by apply Hocc; right|]. rewrite Hs by apply Ho.
      by rewrite (proj2 (Z.eqb_neq _ _) Hne).
Qed.

(** C3: lookup_add keeps the table well formed and has three outcomes: -1 with
    nothing changed when the bucket is full of other tags; an occupied index of
    the same bucket and tag with nothing changed; or a fresh index at which the
    key is now stored, every other key staying where it was. *)
Theorem camht_lookup_add_correct key added0 s : table_ok (kw s) -> (entry_words <= length key)%nat ->
  let k := take key_words key in
  wp h (camht_lookup_add hash_tbl key_tbl (ct entries) key (ct key_sz) (ct entry_sz) added0)
    (fun r s' => table_ok (kw s') /\
      ((r = (-1, added0) /\ full_bucket (kw s) (bidx k) (btag k) /\ forall a, kw s' a = kw s a) \/
       (exists idx, r = (idx, 0) /\ occupied (kw s) idx /\ idx / 8 = bidx k /\
          tag (kw s) idx = btag k /\ forall a, kw s' a = kw s a) \/
       (exists idx, r = (idx, 1) /\ ~ occupied (kw s) idx /\ (forall i, ~ present (kw s) k i) /\
          present (kw s') k idx /\
          forall k' i, i <> idx -> (present (kw s') k' i <-> present (kw s) k' i)))) s.
Proof.
  intros Hok Hlen k.
  assert (Hkl : 4 * Z.of_nat (length key) >= key_sz) by (unfold entry_words in Hlen; divlia).
  unfold camht_lookup_add, mbind, prog_bind. cbn [is_ct cval ct].
  rewrite (proj2 (Z.eqb_eq _ _) (proj2 entry_ok)). cbn [ctassert bind].
  apply wp_bind. eapply wp_mono; [|by apply camht_hash_wp]. intros hash s1 [-> H1]. fold k.
  apply wp_bind. eapply wp_mono; [|apply camht_lookup_idx_add_wp; apply hash1_word].
  cbn [primary secondary]. fold (bidx k) (btag k).
  assert (Htag : forall i, tag (kw s1) i = tag (kw s) i) by (intros; unfold tag; by rewrite H1).
  assert (Hv : 0 < btag k < 2 ^ 24) by apply bucket_hash_odd.
  assert (Hsame : forall m', (forall a, m' a = kw s a) -> table_ok m').
  { intros m' Hm. assert (Ht : forall i, tag m' i = tag (kw s) i) by (intros; unfold tag; by rewrite Hm).
    assert (Hs : forall i, skey m' i = skey (kw s) i) by (intros; apply map_ext; intros; apply Hm).
    split; unfold occupied; [intros i; rewrite Ht, Hs; by apply tk_home|].
    intros i j. rewrite !Ht. by apply (tk_uniq _ Hok). }
  intros r s2 [(-> & Hfull & H2)|[(idx & -> & Hi & Hb & Ht & H2)|(idx & -> & Hi & Hb & Ht & Hno & H2)]].
  - cbn. split; [apply Hsame; intros; by rewrite H2, H1|]. left. split; [done|].
    split; [|intros; by rewrite H2, H1]. intros i Hir. rewrite <- Htag. by apply Hfull.
  - cbv iota beta. destruct (Z.ltb_spec idx 0); [lia|]. cbn [negb Z.eqb wp].
    split; [apply Hsame; intros; by rewrite H2, H1|]. right. left. exists idx. rewrite Htag in Ht.
    split; [done|]. split; [split; [done|rewrite Ht; lia]|].
    split; [done|]. split; [done|]. intros a. by rewrite H2, H1.
  - cbv iota beta. destruct (Z.ltb_spec idx 0); [lia|]. cbn [negb Z.eqb].
    rewrite mul32_entry, copy_entry_spec by done. cbn [bind]. apply wp_bind.
    destruct (entry_addr idx Hi) as (A1 & A2 & A4).
    eapply wp_mono; [|apply mem_write32_wp; [unfold in_word; lia|done|divlia|lia]].
    intros [] s3 H3. cbn [wp]. rewrite Htag in Ht.
    assert (Hno' : forall i, 0 <= i < entries -> i / 8 = bidx k -> tag (kw s) i <> btag k)
      by (intros i Hir Hbi; rewrite <- Htag; by apply Hno).
    destruct (added_at_ok (kw s) (kw s3) idx key Hok Hi Hb Ht Hno') as (Hok' & Hp & Hframe).
    { apply (added_at_writes _ (kw s2)); try done. intros a. by rewrite H2, H1. }
    split; [done|]. right. right. exists idx. split_ands; try done.
    + intros [_ Hn]. done.
    + intros i [Ho Hs]. destruct (tk_home _ Hok i Ho) as [E1 E2]. rewrite Hs in E1, E2.
      by apply (Hno' i (proj1 Ho) E1).
Qed.

(** The empty table is well formed. *)
Lemma table_ok_empty m : (forall i, 0 <= i < entries -> tag m i = 0) -> table_ok m.
Proof. intros H. split; [intros i [Hi Ho]|intros i j [Hi Ho]]; by rewrite H in Ho. Qed.

(** An entry larger than the key: the copy reads past the key. *)
Lemma copy_entry_past_key key : (length key < entry_words)%nat ->
  copy_entry key (ct entry_sz) = Stop Undef.
Proof.
  intros Hk. unfold copy_entry. cbn [cval ct]. unfold entry_words in Hk.
  destruct (Z.ltb_spec (Z.of_nat (length key)) (entry_sz / 4)); [by rewrite orb_true_r|divlia].
Qed.

End Table.

(** ** The copy in cluster local scratch *)

(** It looks at no hash table: a bucket always answers with its entry 1, so keys
    of one bucket share one entry. *)
Lemma camht_cls_idx_fixed hash_tbl entries hash added : 
  8 <= entries < 2 ^ 24 -> entries mod 8 = 0 -> 0 <= primary hash ->
  let idx := 8 * CAMHT_BUCKET_IDX (primary hash) entries + 1 in
  camht_cls_lookup_idx hash_tbl (ct entries) hash = Ret idx /\
  camht_cls_lookup_idx_add hash_tbl (ct entries) hash added = Ret (idx, 1).
Proof.
  intros He H8 Hp idx. unfold camht_cls_lookup_idx, camht_cls_lookup_idx_add, entries_asserts,
    mbind, prog_bind, CAMHT_BUCKET_ENTRIES. cbn [cval is_ct ct].
  rewrite Z.rem_mod_nonneg, (proj2 (Z.eqb_eq _ _) H8) by lia. cbn [bind ctassert].
  change (1 .& 0x7F) with 1.
  pose proof (table_index entries (CAMHT_BUCKET_IDX (primary hash) entries) 1
    ltac:(lia) (bucket_idx_range (primary hash) entries ltac:(lia) Hp) ltac:(lia)) as E.
  unfold CAMHT_BUCKET_ENTRIES in E. by rewrite E.
Qed.

(** ** A concrete hardware *)

Definition cam_match (c : cmd) (kw : Z -> Z) : Z :=
  match index_of (nth 0 (c_data c) 0) (bucket kw (cmd_addr c)) with
  | Some i => Z.of_nat i
  | None => 0xff
  end.

Definition cam_hw_count (c : cmd) : Z := match cmd_count c with Some n => n | None => 0 end.

Definition cam_hw (s : Z * (Z -> Z)) (e : event) : reply * (Z * (Z -> Z)) :=
  let kw := snd s in
  match e with
  | ECmd c =>
      if bool_decide (c_op c = "read32") then
        (Reply (map (fun i => kw (cmd_addr c + 4 * Z.of_nat i)) (seq 0 (Z.to_nat (cam_hw_count c)))) false, s)
      else if bool_decide (c_op c = "write32") then
        (Reply [] false,
         (fst s, fun a => if (cmd_addr c <=? a) && (a <? cmd_addr c + 4 * cam_hw_count c)
                          then nth (Z.to_nat ((a - cmd_addr c) / 4)) (c_data c) 0 else kw a))
      else if bool_decide (c_op c = "cam256_lookup24") then (Reply [cam_match c kw] false, s)
      else if bool_decide (c_op c = "cam256_lookup24_add") then
        match index_of (nth 0 (c_data c) 0) (bucket kw (cmd_addr c)), index_of 0 (bucket kw (cmd_addr c)) with
        | Some i, _ => (Reply [Z.of_nat i] false, s)
        | None, Some j =>
            (Reply [0x80 + Z.of_nat j] false,
             (fst s, fun a => if a =? cmd_addr c + 4 * Z.of_nat j then nth 0 (c_data c) 0 else kw a))
        | None, None => (Reply [0xff] false, s)
        end
      else (Reply [] false, s)
  | _ => let r := Hash.crc_hw (fst s) e in (fst r, (snd r, kw))
  end.

Definition crc_hw_step (p : crc_poly) (_ : crc_bytes_t) : Z -> Z -> Z := Hash.crc_word (Hash.crc_poly_word p).

Lemma index_of_bucket v kw a i : index_of v (bucket kw a) = Some i -> (i < 8)%nat.
Proof. intros E. pose proof (index_of_spec v (bucket kw a)) as H. rewrite E in H. apply H. Qed.

Lemma match_small m : 0 <= m < 256 -> MemCam.result_match m = m.
Proof. intros Hm. unfold MemCam.result_match, field. rewrite Z.shiftr_0_r. by apply wrap_id. Qed.

#[export] Instance cam_hw_ok : CamHw cam_hw fst crc_hw_step snd.
Proof.
  split.
  - split; intros; cbn [cam_hw Hash.crc_hw fst snd]; unfold crc_hw_step; reflexivity.
  - intros s [c|r|r v|p b d|n|x] He a; try reflexivity. cbn [cam_hw quiet] in *.
    destruct He as [-> | ->]; [by rewrite bool_decide_true|].
    by rewrite bool_decide_false, bool_decide_false, bool_decide_true.
  - intros s c n _ Ho Hn. cbn [cam_hw]. unfold cam_hw_count. by rewrite Ho, bool_decide_true, Hn.
  - intros s c n a _ Ho Hn _ _. cbn [cam_hw]. unfold cam_hw_count.
    by rewrite Ho, bool_decide_false, bool_decide_true, Hn.
  - intros s c v _ Ho Hd. cbn [cam_hw]. rewrite Ho, !bool_decide_false, bool_decide_true by done.
    cbn [fst r_words nth]. unfold cam_match. rewrite Hd. cbn [nth].
    destruct (index_of v _) as [i|] eqn:E; [|done].
    apply match_small. apply index_of_bucket in E. lia.
  - intros s c v _ Ho Hd. cbn [cam_hw]. rewrite Ho, !bool_decide_false, bool_decide_true by done.
    rewrite Hd. cbn [nth].
    destruct (index_of v _) as [i|] eqn:E; [|destruct (index_of 0 _) as [j|] eqn:E0];
      cbn [fst snd r_words nth];
      try apply index_of_bucket in E; try apply index_of_bucket in E0;
      (split; [apply match_small; lia || done|done]).
Qed.

Lemma crc_word_nonneg poly r d : 0 <= poly -> 0 <= Hash.crc_word poly r d.
Proof.
  intros Hp. unfold Hash.crc_word. rewrite Nat.iter_succ. generalize (Nat.iter 31 (Hash.crc_bit poly) (r .^ d)).
  intros x. unfold Hash.crc_bit, shl32. pose proof (wrap_range 32 (x ≪ 1) ltac:(lia)) as [H _].
  destruct (Z.testbit x 31); [|exact H]. apply Z.lxor_nonneg. by split.
Qed.

Lemma crc_hw_step_nonneg p b r d : 0 <= crc_hw_step p b r d.
Proof. refine (crc_word_nonneg (Hash.crc_poly_word p) r d _). by destruct p. Qed.

Lemma fold_left_nonneg (f : Z -> Z -> Z) l a :
  (forall b x, 0 <= f b x) -> 0 <= a -> 0 <= fold_left f l a.
Proof. intros Hf. revert a. induction l as [|x l IH]; intros a Ha; [done|]. by apply IH. Qed.

Lemma cam_hw_hash1 key : 0 <= hash1 crc_hw_step key.
Proof.
  exact (fold_left_nonneg (crc_hw_step crc_32 crc_bytes_0_3) key 0 (crc_hw_step_nonneg _ _) (Z.le_refl 0)).
Qed.

(** Adding a key to the empty table and looking it up. *)
Definition empty_hw : Z * (Z -> Z) := (0, fun _ => 0).

Example add_then_lookup :
  let key := [0x0A000001; 0x1F90] in
  o_res (exec cam_hw (r ← camht_lookup_add 0x1000 0x2000 (ct 64) key (ct 8) (ct 8) 7;
                      i ← camht_lookup 0x1000 0x2000 (ct 64) (ct 8) key (ct 8);
                      j ← camht_lookup 0x1000 0x2000 (ct 64) (ct 8) [0x0A000002; 0x1F90] (ct 8);
                      Ret (snd r, bool_decide (fst r = i), j)) empty_hw) = inl (1, true, -1).
Proof. vm_compute. reflexivity. Qed.

(** Two keys with the same hashes: the second one is reported as found, although
    the entry holds the first. *)
Definition colliding_hw (s : Z * (Z -> Z)) (e : event) : reply * (Z * (Z -> Z)) :=
  match e with
  | ECrc _ _ _ => (Reply [0] false, s)
  | _ => cam_hw s e
  end.

Example add_collision :
  o_res (exec colliding_hw
    (r ← camht_lookup_add 0x1000 0x2000 (ct 64) [1] (ct 4) (ct 4) 0;
     q ← camht_lookup_add 0x1000 0x2000 (ct 64) [2] (ct 4) (ct 4) 0;
     i ← camht_lookup 0x1000 0x2000 (ct 64) (ct 4) [2] (ct 4);
     Ret (r, q, i)) empty_hw) = inl ((0, 1), (0, 0), -1).
Proof. vm_compute. reflexivity. Qed.

(** The witnesses of the two theorems. *)
Lemma empty_table_ok :
  table_ok crc_hw_step 0x1000 0x2000 64 8 8 (snd empty_hw).
Proof. apply table_ok_empty. reflexivity. Qed.

Ltac table_side :=
  first [exact cam_hw_hash1 | exact empty_table_ok | lia | split; [lia|reflexivity]
        | split; reflexivity | apply Nat.leb_le; reflexivity].

Lemma camht_lookup_correct_witness :
  wp cam_hw (camht_lookup 0x1000 0x2000 (ct 64) (ct 8) [1; 2] (ct 8)) (fun r _ => r = -1 \/ 0 <= r < 64) empty_hw.
Proof.
  eapply wp_mono; [|apply (camht_lookup_correct cam_hw fst crc_hw_step snd 0x1000 0x2000 64 8 8)];
    [intros a s' (_ & H & _); exact H|table_side..].
Defined.

Lemma camht_lookup_add_correct_witness :
  wp cam_hw (camht_lookup_add 0x1000 0x2000 (ct 64) [1; 2] (ct 8) (ct 8) 0)
     (fun r s' => table_ok crc_hw_step 0x1000 0x2000 64 8 8 (snd s')) empty_hw.
Proof.
  eapply wp_mono; [|apply (camht_lookup_add_correct cam_hw fst crc_hw_step snd 0x1000 0x2000 64 8 8)];
    [intros a s' (H & _); exact H|table_side..].
Defined.

End CamHash.
