(* ===== verification/CppAt.v ===== *)
(** * CPP identifiers, microengine identifiers and CPP address translation

    Models include/nfp-common/nfp_resid.h (the packing of CPP identifiers and of
    microengine identifiers) and include/nfp-common/nfp_cppat.h (how the island an
    access goes to is written into the address and read back), both under
    src/runtime_lib/netronome_runtime.  An [int] is a signed [Z], a [uint64_t] a word
    of 64 bits.  The functions of nfp_cppat.h that write through a pointer return the
    new value: they write it only when they succeed. *)
From Stdlib Require Import ZArith Lia List.
From stdpp Require Import base list numbers option.
From S2P Require Import Prelude.
#[local] Open Scope Z_scope.

Module CppAt.

(** ** Identifiers (nfp_resid.h) *)

Definition NFP6000_CPPTGT_NBI := 1.
Definition NFP6000_CPPTGT_VQDR := 2.
Definition NFP6000_CPPTGT_ILA := 6.
Definition NFP6000_CPPTGT_MU := 7.
Definition NFP6000_CPPTGT_PCIE := 9.
Definition NFP6000_CPPTGT_ARM := 10.
Definition NFP6000_CPPTGT_CRYPTO := 12.
Definition NFP6000_CPPTGT_CTXPB := 14.
Definition NFP6000_CPPTGT_CLS := 15.

Definition NFP_CPP_TARGET_ID_MASK := 0x1f.

Definition NFP_CPP_ID (target action token : Z) : Z :=
  ((target .& 0x7f) ≪ 24) .| ((token .& 0xff) ≪ 16) .| ((action .& 0xff) ≪ 8).

Definition NFP_CPP_ISLAND_ID (target action token island : Z) : Z :=
  ((target .& 0x7f) ≪ 24) .| ((token .& 0xff) ≪ 16) .| ((action .& 0xff) ≪ 8)
  .| ((island .& 0xff) ≪ 0).

Definition NFP_CPP_ID_TARGET_of (id : Z) : Z := u8 ((id ≫ 24) .& NFP_CPP_TARGET_ID_MASK).
Definition NFP_CPP_ID_TOKEN_of (id : Z) : Z := u8 ((id ≫ 16) .& 0xff).
Definition NFP_CPP_ID_ACTION_of (id : Z) : Z := u8 ((id ≫ 8) .& 0xff).
Definition NFP_CPP_ID_ISLAND_of (id : Z) : Z := u8 (id .& 0xff).

Definition NFP6000_MEID (a b : Z) : Z :=
  if ((a .& 0x3f) =? a) && ((b >=? 0) && (b <? 12)) then (a ≪ 4) .| (b + 4) else -1.

Definition NFP6000_MEID_IS_VALID (meid : Z) : bool :=
  ((meid ≫ 4) <? 64) && ((meid ≫ 4) >=? 0) && ((meid .& 0xF) >=? 4).

Definition NFP6000_MEID_ISLAND_of (meid : Z) : Z := (meid ≫ 4) .& 0x3F.
Definition NFP6000_MEID_MENUM_of (meid : Z) : Z := (meid .& 0xF) - 4.
Definition NFP6000_MEID_MEGRP_of (meid : Z) : Z := NFP6000_MEID_MENUM_of meid ≫ 1.

(** ** Address translation (nfp_cppat.h) *)

Inductive errno := EINVAL | ENODEV.

(** What a call does: it returns 0 and a value; it sets [errno] and returns -1
    ([NFP_ERRNO]); it returns the negated number; or it shifts by a negative amount. *)
Inductive outcome (A : Type) :=
  | Ok (a : A)
  | Errno (e : errno)
  | NegErrno (e : errno)
  | UndefShift.
Arguments Ok {A} a.
Arguments Errno {A} e.
Arguments NegErrno {A} e.
Arguments UndefShift {A}.

(** The complement of a 64-bit word. *)
Definition not64 (x : Z) : Z := 2 ^ 64 - 1 - x.

Definition nic_mask64 (msb lsb : Z) (at0 : bool) : Z :=
  let w := msb - lsb + 1 in
  if w =? 64 then not64 0
  else if lsb + w >? 64 then 0
  else
    let v := u64 (1 ≪ w) - 1 in
    if at0 then v else u64 (v ≪ lsb).

Definition NIC_NFP6000_MU_LOCALITY_DIRECT := 2.

(** [*addr &= ~m; *addr |= (((uint64_t)dest_island) << lsb) & m] for the six bits [m] at
    [lsb]. *)
Definition put_island (addr dest_island lsb : Z) : Z :=
  let m := nic_mask64 (lsb + 5) lsb false in
  (addr .& not64 m) .| (u64 (u64 dest_island ≪ lsb) .& m).

(** [(int)(addr >> lsb) & 0x3F] *)
Definition get_island (addr lsb : Z) : Z := s32 (u32 (addr ≫ lsb)) .& 0x3F.

(** The assignments that select the island [i] with the low bits [v]. *)
Definition put_option (addr idx_lsb iid_lsb i v : Z) : Z :=
  ((addr .& not64 (nic_mask64 idx_lsb iid_lsb false)) .| u64 (i ≪ idx_lsb)) .| u64 (v ≪ iid_lsb).

(** The two nested loops over [i] and [v]: the first option that fits. *)
Fixpoint try_options (opts : list (Z * Z)) (addr dest_island isld1 isld0 idx_lsb iid_lsb : Z)
    : outcome Z :=
  match opts with
  | [] => Errno ENODEV
  | (i, v) :: opts' =>
      if negb (dest_island =? ((if i =? 0 then isld0 else isld1) .| v)) then
        try_options opts' addr dest_island isld1 isld0 idx_lsb iid_lsb
      else Ok (put_option addr idx_lsb iid_lsb i v)
  end.

Definition options2 : list (Z * Z) := [(0,0); (0,1); (1,0); (1,1)].
Definition options4 : list (Z * Z) :=
  [(0,0); (0,1); (0,2); (0,3); (1,0); (1,1); (1,2); (1,3)].

(** [addr & _nic_mask64(idx_lsb, idx_lsb, 0)] *)
Definition index_set (addr idx_lsb : Z) : bool :=
  negb ((addr .& nic_mask64 idx_lsb idx_lsb false) =? 0).

Definition nfp6000_decode_basic (addr cpp_tgt mode : Z) (addr40 : bool) (isld1 isld0 : Z)
    : outcome Z :=
  if cpp_tgt =? NFP6000_CPPTGT_MU then Errno EINVAL
  else if cpp_tgt =? NFP6000_CPPTGT_CTXPB then Errno EINVAL
  else if mode =? 0 then
    let iid_lsb := if addr40 then 34 else 26 in
    Ok (get_island addr iid_lsb)
  else if mode =? 1 then
    let idx_lsb := if addr40 then 39 else 31 in
    if index_set addr idx_lsb then Ok isld1 else Ok isld0
  else if mode =? 2 then
    let isld0 := Z.land isld0 (Z.lnot 1) in
    let isld1 := Z.land isld1 (Z.lnot 1) in
    let idx_lsb := if addr40 then 39 else 31 in
    let iid_lsb := idx_lsb - 1 in
    if index_set addr idx_lsb then Ok (isld1 .| ((addr ≫ iid_lsb) .& 1))
    else Ok (isld0 .| ((addr ≫ iid_lsb) .& 1))
  else if mode =? 3 then
    let isld0 := Z.land isld0 (Z.lnot 3) in
    let isld1 := Z.land isld1 (Z.lnot 3) in
    let idx_lsb := if addr40 then 39 else 31 in
    let iid_lsb := idx_lsb - 2 in
    if index_set addr idx_lsb then Ok (isld1 .| ((addr ≫ iid_lsb) .& 3))
    else Ok (isld0 .| ((addr ≫ iid_lsb) .& 3))
  else Errno EINVAL.

(** The branch of [_nfp6000_encode_basic] for VQDR and 32-bit addresses: the address is
    not modified, only checked. *)
Definition check_vqdr (addr dest_island cpp_tgt mode : Z) (addr40 : bool) (isld1 isld0 : Z)
    : outcome Z :=
  match nfp6000_decode_basic addr cpp_tgt mode addr40 isld1 isld0 with
  | Ok v =>
      if negb (dest_island =? -1) && negb (dest_island =? v) then Errno EINVAL else Ok addr
  | e => e
  end.

Definition nfp6000_encode_basic (addr dest_island cpp_tgt mode : Z) (addr40 : bool)
    (isld1 isld0 : Z) : outcome Z :=
  if cpp_tgt =? NFP6000_CPPTGT_MU then Errno EINVAL
  else if cpp_tgt =? NFP6000_CPPTGT_CTXPB then Errno EINVAL
  else if mode =? 0 then
    if (cpp_tgt =? NFP6000_CPPTGT_VQDR) && negb addr40 then
      check_vqdr addr dest_island cpp_tgt mode addr40 isld1 isld0
    else
      let iid_lsb := if addr40 then 34 else 26 in
      Ok (put_island addr dest_island iid_lsb)
  else if mode =? 1 then
    if (cpp_tgt =? NFP6000_CPPTGT_VQDR) && negb addr40 then
      check_vqdr addr dest_island cpp_tgt mode addr40 isld1 isld0
    else
      let idx_lsb := if addr40 then 39 else 31 in
      if dest_island =? isld0 then Ok (addr .& not64 (nic_mask64 idx_lsb idx_lsb false))
      else if dest_island =? isld1 then Ok (addr .| u64 (1 ≪ idx_lsb))
      else Errno ENODEV
  else if mode =? 2 then
    if (cpp_tgt =? NFP6000_CPPTGT_VQDR) && negb addr40 then
      check_vqdr addr dest_island cpp_tgt mode addr40 isld1 isld0
    else
      let idx_lsb := if addr40 then 39 else 31 in
      let iid_lsb := idx_lsb - 1 in
      try_options options2 addr dest_island (Z.land isld1 (Z.lnot 1)) (Z.land isld0 (Z.lnot 1))
        idx_lsb iid_lsb
  else if mode =? 3 then
    if (cpp_tgt =? NFP6000_CPPTGT_VQDR) && negb addr40 then
      check_vqdr addr dest_island cpp_tgt mode addr40 isld1 isld0
    else
      let idx_lsb := if addr40 then 39 else 31 in
      let iid_lsb := idx_lsb - 2 in
      try_options options4 addr dest_island (Z.land isld1 (Z.lnot 3)) (Z.land isld0 (Z.lnot 3))
        idx_lsb iid_lsb
  else Errno EINVAL.

(** The helper sets [errno] and returns -1 for an unknown mode. *)
Definition nfp6000_cppat_mu_locality_lsb (mode : Z) (addr40 : bool) : Z :=
  if (mode =? 0) || (mode =? 1) || (mode =? 2) || (mode =? 3) then
    (if addr40 then 38 else 30)
  else -1.

(** [((addr >> locality_lsb) & 3) == _NIC_NFP6000_MU_LOCALITY_DIRECT] *)
Definition is_direct (addr locality_lsb : Z) : bool :=
  ((addr ≫ locality_lsb) .& 3) =? NIC_NFP6000_MU_LOCALITY_DIRECT.

Definition nfp6000_encode_mu (addr dest_island mode : Z) (addr40 : bool) (isld1 isld0 : Z)
    : outcome Z :=
  let locality_lsb := nfp6000_cppat_mu_locality_lsb mode addr40 in
  if locality_lsb <? 0 then Errno EINVAL
  else
    let da := is_direct addr locality_lsb in
    let lsb := if addr40 then 32 else 24 in
    let idx_lsb := if addr40 then 37 else 29 in
    if mode =? 0 then Ok (put_island addr dest_island lsb)
    else if mode =? 1 then
      if da then Ok (put_island addr dest_island lsb)
      else if dest_island =? isld0 then Ok (addr .& not64 (nic_mask64 idx_lsb idx_lsb false))
      else if dest_island =? isld1 then Ok (addr .| u64 (1 ≪ idx_lsb))
      else Errno ENODEV
    else if mode =? 2 then
      if da then Ok (put_island addr dest_island lsb)
      else
        let iid_lsb := idx_lsb - 1 in
        try_options options2 addr dest_island (Z.land isld1 (Z.lnot 1))
          (Z.land isld0 (Z.lnot 1)) idx_lsb iid_lsb
    else if mode =? 3 then
      let direct := (dest_island >? 0) && ((dest_island <? 24) || (dest_island >? 26)) in
      let addr :=
        if direct then addr .| u64 (NIC_NFP6000_MU_LOCALITY_DIRECT ≪ locality_lsb) else addr in
      if direct || da then Ok (put_island addr dest_island lsb)
      else
        let iid_lsb := idx_lsb - 2 in
        try_options options4 addr dest_island (Z.land isld1 (Z.lnot 3))
          (Z.land isld0 (Z.lnot 3)) idx_lsb iid_lsb
    else Errno EINVAL.

Definition nfp6000_decode_mu (addr mode : Z) (addr40 : bool) (isld1 isld0 : Z) : outcome Z :=
  let locality_lsb := nfp6000_cppat_mu_locality_lsb mode addr40 in
  if locality_lsb <? 0 then UndefShift
  else
    let da := is_direct addr locality_lsb in
    let lsb := if addr40 then 32 else 24 in
    let idx_lsb := if addr40 then 37 else 29 in
    if mode =? 0 then Ok (get_island addr lsb)
    else if mode =? 1 then
      if da then Ok (get_island addr lsb)
      else if index_set addr idx_lsb then Ok isld1 else Ok isld0
    else if mode =? 2 then
      if da then Ok (get_island addr lsb)
      else
        let isld0 := Z.land isld0 (Z.lnot 1) in
        let isld1 := Z.land isld1 (Z.lnot 1) in
        let iid_lsb := idx_lsb - 1 in
        if index_set addr idx_lsb then Ok (isld1 .| ((addr ≫ iid_lsb) .& 1))
        else Ok (isld0 .| ((addr ≫ iid_lsb) .& 1))
    else if mode =? 3 then
      if da then Ok (get_island addr lsb)
      else
        let isld0 := Z.land isld0 (Z.lnot 3) in
        let isld1 := Z.land isld1 (Z.lnot 3) in
        let iid_lsb := idx_lsb - 2 in
        if index_set addr idx_lsb then Ok (isld1 .| ((addr ≫ iid_lsb) .& 3))
        else Ok (isld0 .| ((addr ≫ iid_lsb) .& 3))
    else Errno EINVAL.

(** The targets whose case is shared by the three switches. *)
Definition basic_target (cpp_tgt : Z) : bool :=
  (cpp_tgt =? NFP6000_CPPTGT_NBI) || (cpp_tgt =? NFP6000_CPPTGT_VQDR)
  || (cpp_tgt =? NFP6000_CPPTGT_ILA) || (cpp_tgt =? NFP6000_CPPTGT_PCIE)
  || (cpp_tgt =? NFP6000_CPPTGT_ARM) || (cpp_tgt =? NFP6000_CPPTGT_CRYPTO)
  || (cpp_tgt =? NFP6000_CPPTGT_CLS).

Definition nfp6000_cppat_addr_encode (addr dest_island cpp_tgt mode : Z) (addr40 : bool)
    (isld1 isld0 : Z) : outcome Z :=
  if basic_target cpp_tgt then
    nfp6000_encode_basic addr dest_island cpp_tgt mode addr40 isld1 isld0
  else if cpp_tgt =? NFP6000_CPPTGT_MU then
    nfp6000_encode_mu addr dest_island mode addr40 isld1 isld0
  else if cpp_tgt =? NFP6000_CPPTGT_CTXPB then
    if negb (mode =? 1) || addr40 then Errno EINVAL
    else
      Ok ((addr .& not64 (nic_mask64 29 24 false))
          .| (u64 (u64 dest_island ≪ 24) .& nic_mask64 29 24 false))
  else Errno EINVAL.

Definition nfp6000_cppat_addr_decode (addr cpp_tgt mode : Z) (addr40 : bool)
    (isld1 isld0 : Z) : outcome Z :=
  if basic_target cpp_tgt then
    nfp6000_decode_basic addr cpp_tgt mode addr40 isld1 isld0
  else if cpp_tgt =? NFP6000_CPPTGT_MU then
    nfp6000_decode_mu addr mode addr40 isld1 isld0
  else if cpp_tgt =? NFP6000_CPPTGT_CTXPB then
    if negb (mode =? 1) || addr40 then NegErrno EINVAL
    else Ok (get_island addr 24)
  else NegErrno EINVAL.

(** [*addr &= ~(UINT64_C(0x3F) << lsb)] *)
Definition clear_island (addr lsb : Z) : Z := addr .& not64 (u64 (0x3F ≪ lsb)).

(** The cases of the switch over targets; a case without a [return] falls through. *)
Definition iid_clear_ctxpb (addr mode : Z) (addr40 : bool) : outcome Z :=
  if negb (mode =? 1) || addr40 then Ok addr else Ok (clear_island addr 24).

Definition iid_clear_mu (addr mode : Z) (addr40 : bool) : outcome Z :=
  let locality_lsb := nfp6000_cppat_mu_locality_lsb mode addr40 in
  if locality_lsb <? 0 then UndefShift
  else
    let da := is_direct addr locality_lsb in
    let lsb := if addr40 then 32 else 24 in
    if mode =? 0 then Ok (clear_island addr lsb)
    else if mode =? 1 then
      if da then Ok (clear_island addr lsb)
      else
        let iid_lsb := if addr40 then 37 else 29 in
        Ok (addr .& not64 (nic_mask64 iid_lsb iid_lsb false))
    else if mode =? 2 then
      if da then Ok (clear_island addr lsb)
      else
        let iid_lsb := if addr40 then 36 else 28 in
        Ok (addr .& not64 (nic_mask64 (iid_lsb + 1) iid_lsb false))
    else if mode =? 3 then
      if da then Ok (clear_island addr lsb)
      else
        let iid_lsb := if addr40 then 35 else 27 in
        Ok (addr .& not64 (nic_mask64 (iid_lsb + 2) iid_lsb false))
    else iid_clear_ctxpb addr mode addr40.

Definition nfp6000_cppat_addr_iid_clear (addr cpp_tgt mode : Z) (addr40 : bool) : outcome Z :=
  if basic_target cpp_tgt then
    if mode =? 0 then
      let iid_lsb := if addr40 then 34 else 26 in
      Ok (clear_island addr iid_lsb)
    else if mode =? 1 then
      let iid_lsb := if addr40 then 39 else 31 in
      Ok (addr .& not64 (nic_mask64 iid_lsb iid_lsb false))
    else if mode =? 2 then
      let iid_lsb := if addr40 then 38 else 30 in
      Ok (addr .& not64 (nic_mask64 (iid_lsb + 1) iid_lsb false))
    else if mode =? 3 then
      let iid_lsb := if addr40 then 37 else 29 in
      Ok (addr .& not64 (nic_mask64 (iid_lsb + 2) iid_lsb false))
    else iid_clear_mu addr mode addr40
  else if cpp_tgt =? NFP6000_CPPTGT_MU then iid_clear_mu addr mode addr40
  else if cpp_tgt =? NFP6000_CPPTGT_CTXPB then iid_clear_ctxpb addr mode addr40
  else Errno EINVAL.

Definition nfp_cppat_mu_locality_lsb (mode : Z) (addr40 : bool) : outcome Z :=
  if (0 <=? mode) && (mode <=? 3) then Ok (if addr40 then 38 else 30) else NegErrno EINVAL.

(** ** Identifiers: what is packed is read back *)

(** Case analysis on the index comparisons of a goal about bits, rewriting the bits that
    become readable; the indexes that remain are compared with [lia]. *)
Ltac bit_cases :=
  repeat match goal with
  | |- context [?a <? ?b] => destruct (Z.ltb_spec a b); try (exfalso; lia); cbn [andb orb negb]
  | |- context [?a <=? ?b] => destruct (Z.leb_spec a b); try (exfalso; lia); cbn [andb orb negb]
  | |- context [?a =? ?b] => destruct (Z.eqb_spec a b); try (exfalso; lia); cbn [andb orb negb]
  | _ => progress autorewrite with bits
  end; rewrite ?orb_false_r, ?andb_false_r, ?andb_true_r; try done; try (f_equal; lia).

Lemma land_field x n : 0 <= n -> x .& Z.ones n = wrap n x.
Proof. apply wrap_land_ones. Qed.

Lemma shiftr_lor_low hi lo n : 0 <= n -> in_word n lo -> ((hi ≪ n) .| lo) ≫ n = hi.
Proof.
  intros Hn Hlo. bitwise_as i. replace (i + n - n) with i by lia.
  rewrite (testbit_high n lo) by (done || lia). destruct (Z.leb_spec n (i + n)); [|lia].
  by rewrite orb_false_r.
Qed.

Lemma wrap_lor_low hi lo n : 0 <= n -> in_word n lo -> wrap n ((hi ≪ n) .| lo) = lo.
Proof.
  intros Hn Hlo. bitwise_as i. destruct (Z.ltb_spec i n); cbn.
  - destruct (Z.leb_spec n i); [lia|done].
  - by rewrite (testbit_high n lo) by (done || lia).
Qed.

(** The fields of a CPP identifier. *)
Theorem cpp_id_fields target action token island :
  NFP_CPP_ID_TARGET_of (NFP_CPP_ISLAND_ID target action token island) = wrap 5 target
  /\ NFP_CPP_ID_TOKEN_of (NFP_CPP_ISLAND_ID target action token island) = wrap 8 token
  /\ NFP_CPP_ID_ACTION_of (NFP_CPP_ISLAND_ID target action token island) = wrap 8 action
  /\ NFP_CPP_ID_ISLAND_of (NFP_CPP_ISLAND_ID target action token island) = wrap 8 island.
Proof.
  unfold NFP_CPP_ID_TARGET_of, NFP_CPP_ID_TOKEN_of, NFP_CPP_ID_ACTION_of, NFP_CPP_ID_ISLAND_of,
    NFP_CPP_ISLAND_ID, NFP_CPP_TARGET_ID_MASK.
  change 0x1f with (Z.ones 5). change 0xff with (Z.ones 8). change 0x7f with (Z.ones 7).
  rewrite !land_field by lia.
  split_ands; bitwise_as i; bit_cases.
Qed.

Lemma cpp_id_island target action token :
  NFP_CPP_ID target action token = NFP_CPP_ISLAND_ID target action token 0.
Proof. unfold NFP_CPP_ISLAND_ID. by rewrite Z.land_0_l, Z.shiftl_0_l, Z.lor_0_r. Qed.

(** Reading the parts of a microengine identifier. *)
Lemma land_0x3f x : x .& 0x3F = wrap 6 x.
Proof. apply (wrap_land_ones 6). lia. Qed.

Lemma land_0xf x : x .& 0xF = wrap 4 x.
Proof. apply (wrap_land_ones 4). lia. Qed.

Lemma meid_made a b : 0 <= a < 64 -> 0 <= b < 12 -> NFP6000_MEID a b = a * 16 + (b + 4).
Proof.
  intros Ha Hb. unfold NFP6000_MEID. rewrite land_0x3f, (wrap_id 6 a) by done.
  rewrite Z.eqb_refl. replace (b >=? 0) with true by (symmetry; apply Z.geb_le; lia).
  replace (b <? 12) with true by (symmetry; apply Z.ltb_lt; lia). cbn [andb].
  rewrite lor_shift_add by (unfold in_word; lia). lia.
Qed.

Theorem meid_roundtrip a b meid : 0 <= a < 64 -> 0 <= b < 12 -> NFP6000_MEID a b = meid ->
  NFP6000_MEID_IS_VALID meid = true /\ NFP6000_MEID_ISLAND_of meid = a
  /\ NFP6000_MEID_MENUM_of meid = b /\ NFP6000_MEID_MEGRP_of meid = b / 2.
Proof.
  intros Ha Hb <-. rewrite meid_made by done.
  unfold NFP6000_MEID_MEGRP_of, NFP6000_MEID_IS_VALID, NFP6000_MEID_ISLAND_of,
    NFP6000_MEID_MENUM_of.
  rewrite land_0x3f, land_0xf, !Z.shiftr_div_pow2 by lia. unfold wrap.
  change (2 ^ 4) with 16. change (2 ^ 6) with 64. change (2 ^ 1) with 2.
  replace ((a * 16 + (b + 4)) / 16) with a by divlia.
  replace ((a * 16 + (b + 4)) mod 16) with (b + 4) by divlia.
  split_ands; [|divlia..|f_equal; lia].
  rewrite !andb_true_iff, Z.ltb_lt, !Z.geb_le. lia.
Qed.

(** The sanity check accepts exactly the identifiers that can be made. *)
Theorem meid_valid_iff meid :
  NFP6000_MEID_IS_VALID meid = true
  <-> exists a b, 0 <= a < 64 /\ 0 <= b < 12 /\ NFP6000_MEID a b = meid.
Proof.
  split.
  - intros H. exists (NFP6000_MEID_ISLAND_of meid), (NFP6000_MEID_MENUM_of meid).
    unfold NFP6000_MEID_IS_VALID, NFP6000_MEID_ISLAND_of, NFP6000_MEID_MENUM_of in *.
    rewrite land_0xf in *. rewrite land_0x3f. rewrite Z.shiftr_div_pow2 in * by lia.
    rewrite !andb_true_iff, Z.ltb_lt, !Z.geb_le in H. unfold wrap in *.
    change (2 ^ 4) with 16 in *. change (2 ^ 6) with 64 in *.
    pose proof (Z.mod_pos_bound meid 16 ltac:(lia)).
    rewrite (Z.mod_small (meid / 16)) by lia. split_ands; try lia.
    rewrite meid_made by lia. pose proof (Z.div_mod meid 16 ltac:(lia)). lia.
  - intros (a & b & Ha & Hb & Hm). by apply (meid_roundtrip a b meid).
Qed.

(** Outside the ranges no identifier is made. *)
Lemma meid_rejects a b : ~ (0 <= a < 64 /\ 0 <= b < 12) -> NFP6000_MEID a b = -1.
Proof.
  intros H. unfold NFP6000_MEID. rewrite land_0x3f. pose proof (wrap_range 6 a ltac:(lia)) as Hr.
  unfold in_word in Hr. change (2 ^ 6) with 64 in Hr. rewrite Z.geb_leb.
  case_bool; [|done]. bool_to_Z. lia.
Qed.

(** ** Bits of addresses *)

Lemma testbit_not64 x i : in_word 64 x -> 0 <= i ->
  Z.testbit (not64 x) i = (i <? 64) && negb (Z.testbit x i).
Proof.
  intros Hx Hi. replace (not64 x) with (wrap 64 (Z.lnot x)).
  - rewrite testbit_wrap by lia. by rewrite Z.lnot_spec by lia.
  - unfold not64, wrap, Z.lnot, in_word in *. rewrite <- (Z.mod_small (2 ^ 64 - 1 - x) (2 ^ 64)) by lia.
    replace (2 ^ 64 - 1 - x) with (Z.pred (- x) + 1 * 2 ^ 64) by lia. by rewrite Z_mod_plus_full.
Qed.

Lemma nic_mask64_eq msb lsb : 0 <= lsb <= msb -> msb < 64 -> msb - lsb + 1 < 64 ->
  nic_mask64 msb lsb false = Z.ones (msb - lsb + 1) ≪ lsb.
Proof.
  intros H1 H2 H3. unfold nic_mask64. destruct (Z.eqb_spec (msb - lsb + 1) 64); [lia|].
  rewrite Z.gtb_ltb. destruct (Z.ltb_spec 64 (lsb + (msb - lsb + 1))); [lia|].
  set (w := msb - lsb + 1) in *. rewrite (wrap_id 64 (1 ≪ w)).
  - replace ((1 ≪ w) - 1) with (Z.ones w) by (rewrite Z.ones_equiv, Z.shiftl_mul_pow2 by lia; lia).
    bitwise_as i. bit_cases.
  - rewrite Z.shiftl_mul_pow2 by lia. unfold in_word.
    pose proof (Z.pow_lt_mono_r 2 w 64). pose proof (Z.pow_pos_nonneg 2 w). lia.
Qed.

Lemma testbit_mask msb lsb i : 0 <= lsb <= msb -> msb < 64 -> msb - lsb + 1 < 64 -> 0 <= i ->
  Z.testbit (nic_mask64 msb lsb false) i = (lsb <=? i) && (i <=? msb).
Proof. intros. rewrite nic_mask64_eq by lia. autorewrite with bits. bit_cases. Qed.

Lemma mask_word msb lsb : 0 <= lsb <= msb -> msb < 64 -> msb - lsb + 1 < 64 ->
  in_word 64 (nic_mask64 msb lsb false).
Proof.
  intros. rewrite nic_mask64_eq by lia.
  replace (Z.ones (msb - lsb + 1) ≪ lsb) with (wrap 64 (Z.ones (msb - lsb + 1) ≪ lsb));
    [by apply wrap_range|]. bitwise_as i. bit_cases.
Qed.

Lemma testbit_clear a msb lsb i :
  0 <= lsb <= msb -> msb < 64 -> msb - lsb + 1 < 64 -> 0 <= i -> in_word 64 a ->
  Z.testbit (a .& not64 (nic_mask64 msb lsb false)) i
  = Z.testbit a i && negb ((lsb <=? i) && (i <=? msb)).
Proof.
  intros H1 H2 H3 Hi Ha. rewrite Z.land_spec, testbit_not64, testbit_mask by (done || by apply mask_word).
  destruct (Z.ltb_spec i 64); cbn [andb]; [done|].
  by rewrite (testbit_high 64 a) by (done || lia).
Qed.

Lemma clear_word a m : in_word 64 a -> in_word 64 (a .& m).
Proof. intros. rewrite Z.land_comm. by apply in_word_land_r. Qed.

(** [get_island] is a field of six bits. *)
Lemma get_island_field a lsb : get_island a lsb = field lsb 6 a.
Proof.
  unfold get_island. rewrite land_0x3f. unfold field.
  assert (Hs : forall x, wrap 6 (s32 (u32 x)) = wrap 6 x); [|apply Hs].
  intros x. unfold s32, wrap. destruct (_ <? _); [divlia|].
  change (2 ^ 32) with (67108864 * 2 ^ 6).
  replace (x mod (67108864 * 2 ^ 6) - 67108864 * 2 ^ 6)
    with (x mod (67108864 * 2 ^ 6) + (-67108864) * 2 ^ 6) by lia.
  rewrite Z_mod_plus_full. divlia.
Qed.

Lemma testbit_put_island a d lsb i : in_word 64 a -> 0 <= lsb -> lsb + 6 <= 64 -> 0 <= i ->
  Z.testbit (put_island a d lsb) i
  = if (lsb <=? i) && (i <=? lsb + 5) then Z.testbit d (i - lsb) else Z.testbit a i.
Proof.
  intros Ha H1 H2 Hi. unfold put_island.
  rewrite Z.lor_spec, testbit_clear, Z.land_spec, testbit_mask by (done || lia).
  autorewrite with bits. destruct (Z.leb_spec lsb i), (Z.leb_spec i (lsb + 5)); cbn [andb negb];
    rewrite ?andb_false_r, ?andb_true_r, ?orb_false_r, ?orb_false_l; try done.
  autorewrite with bits. bit_cases.
Qed.

Lemma put_island_word a d lsb : in_word 64 a -> in_word 64 (put_island a d lsb).
Proof.
  intros Ha. unfold put_island. apply in_word_lor; [lia|by apply clear_word|].
  apply clear_word, wrap_range. lia.
Qed.

Lemma get_put_island a d lsb : in_word 64 a -> 0 <= lsb -> lsb + 6 <= 64 -> 0 <= d < 64 ->
  get_island (put_island a d lsb) lsb = d.
Proof.
  intros Ha H1 H2 Hd. rewrite get_island_field. unfold field. bitwise_as i.
  rewrite testbit_put_island by lia || done.
  destruct (Z.ltb_spec i 6); cbn [andb].
  - bit_cases.
  - by rewrite (testbit_high 6 d) by (done || lia).
Qed.

(** The index bit. *)
Lemma index_set_testbit a idx : 0 <= idx < 64 -> index_set a idx = Z.testbit a idx.
Proof.
  intros Hi. unfold index_set.
  replace (a .& nic_mask64 idx idx false) with (if Z.testbit a idx then 2 ^ idx else 0).
  - destruct (Z.testbit a idx); [|done]. destruct (Z.eqb_spec (2 ^ idx) 0); [|done].
    pose proof (Z.pow_pos_nonneg 2 idx). lia.
  - bitwise_as i. rewrite testbit_mask by lia. destruct (Z.eqb_spec i idx) as [->|].
    + rewrite !Z.leb_refl. destruct (Z.testbit a idx); [|by autorewrite with bits].
      by rewrite Z.pow2_bits_true by lia.
    + replace ((idx <=? i) && (i <=? idx)) with false by bit_cases. rewrite andb_false_r.
      destruct (Z.testbit a idx); [|by autorewrite with bits]. by rewrite Z.pow2_bits_false by lia.
Qed.

(** The two bits of the locality. *)
Lemma is_direct_testbit a l : 0 <= l ->
  is_direct a l = negb (Z.testbit a l) && Z.testbit a (l + 1).
Proof.
  intros Hl. unfold is_direct, NIC_NFP6000_MU_LOCALITY_DIRECT.
  change 3 with (Z.ones 2). rewrite land_field by lia. unfold wrap.
  rewrite <- (Z.add_0_l l) at 2. rewrite <- Z.shiftr_spec by lia.
  rewrite (Z.add_comm l 1), <- Z.shiftr_spec by lia.
  generalize (a ≫ l). intros x. rewrite (Z.bit0_odd x).
  rewrite (Z.testbit_odd x 1), Z.shiftr_div_pow2 by lia. change (2 ^ 1) with 2.
  rewrite !Zodd_mod.
  destruct (Z.eqb_spec (x mod 2 ^ 2) 2) as [E|E];
    repeat match goal with |- context [?p =? ?q] => destruct (Z.eqb_spec p q) end; try done;
    exfalso; change (2 ^ 2) with 4 in E; divlia.
Qed.

(** ** Where the island is in an address *)

(** The bits that select the island, or an option of the two islands given. *)
Inductive selector :=
  | SelIsland (lsb : Z)
  | SelIndex (idx_lsb low : Z).

(** The island an address goes to, by its selector. *)
Definition sel_read (s : selector) (addr isld1 isld0 : Z) : Z :=
  match s with
  | SelIsland lsb => field lsb 6 addr
  | SelIndex idx n =>
      (if Z.testbit addr idx then Z.land isld1 (Z.lnot (Z.ones n))
       else Z.land isld0 (Z.lnot (Z.ones n)))
      .| field (idx - n) n addr
  end.

Definition sel_lo (s : selector) : Z :=
  match s with SelIsland lsb => lsb | SelIndex idx n => idx - n end.
Definition sel_hi (s : selector) : Z :=
  match s with SelIsland lsb => lsb + 5 | SelIndex idx n => idx end.

(** The selector of a target, a mode and an address width; [direct] is the locality of
    the address. *)
Definition sel_of (cpp_tgt mode : Z) (addr40 direct : bool) : option selector :=
  if basic_target cpp_tgt then
    if mode =? 0 then Some (SelIsland (if addr40 then 34 else 26))
    else if (1 <=? mode) && (mode <=? 3) then
      Some (SelIndex (if addr40 then 39 else 31) (mode - 1))
    else None
  else if cpp_tgt =? NFP6000_CPPTGT_MU then
    if (mode =? 0) || ((1 <=? mode) && (mode <=? 3) && direct) then
      Some (SelIsland (if addr40 then 32 else 24))
    else if (1 <=? mode) && (mode <=? 3) then
      Some (SelIndex (if addr40 then 37 else 29) (mode - 1))
    else None
  else if cpp_tgt =? NFP6000_CPPTGT_CTXPB then
    if (mode =? 1) && negb addr40 then Some (SelIsland 24) else None
  else None.

Definition locality (addr40 : bool) : Z := if addr40 then 38 else 30.

Lemma land_lnot_0 x : Z.land x (Z.lnot (Z.ones 0)) .| field 0 0 x = x.
Proof. bitwise_as i. rewrite Z.lnot_spec by lia. autorewrite with bits. bit_cases. Qed.

(** Case analysis on the tests of a definition that are about the target or mode. *)
Ltac case_eqbs :=
  repeat match goal with
  | H : context [?a =? ?b] |- _ => destruct (Z.eqb_spec a b); subst; cbn [andb orb negb] in *; try lia
  | |- context [?a =? ?b] => destruct (Z.eqb_spec a b); subst; cbn [andb orb negb]; try lia
  end.

Lemma basic_not_other t : basic_target t = true ->
  (t =? NFP6000_CPPTGT_MU) = false /\ (t =? NFP6000_CPPTGT_CTXPB) = false.
Proof.
  unfold basic_target, NFP6000_CPPTGT_NBI, NFP6000_CPPTGT_VQDR, NFP6000_CPPTGT_ILA,
    NFP6000_CPPTGT_PCIE, NFP6000_CPPTGT_ARM, NFP6000_CPPTGT_CRYPTO, NFP6000_CPPTGT_CLS,
    NFP6000_CPPTGT_MU, NFP6000_CPPTGT_CTXPB.
  intros H. rewrite !orb_true_iff, !Z.eqb_eq in H. rewrite !Z.eqb_neq. lia.
Qed.

Lemma field_1 a p : (a ≫ p) .& 1 = field p 1 a.
Proof. apply (wrap_land_ones 1). lia. Qed.

Lemma field_3 a p : (a ≫ p) .& 3 = field p 2 a.
Proof. apply (wrap_land_ones 2). lia. Qed.

Lemma sel_read_index0 idx a i1 i0 :
  sel_read (SelIndex idx 0) a i1 i0 = if Z.testbit a idx then i1 else i0.
Proof.
  cbn. replace (field (idx - 0) 0 a) with 0 by (symmetry; apply Z.mod_1_r).
  rewrite !Z.lor_0_r. change (Z.lnot (Z.ones 0)) with (-1). by rewrite !Z.land_m1_r.
Qed.

(** Decoding reads the selector. *)
Lemma decode_basic_sel a t m a40 i1 i0 s : basic_target t = true ->
  sel_of t m a40 false = Some s ->
  nfp6000_decode_basic a t m a40 i1 i0 = Ok (sel_read s a i1 i0).
Proof.
  intros Ht Hs. destruct (basic_not_other t Ht) as [H7 H14].
  unfold sel_of in Hs. rewrite Ht in Hs. unfold nfp6000_decode_basic. rewrite H7, H14.
  rewrite !index_set_testbit by (destruct a40; lia). rewrite field_1, field_3, get_island_field.
  destruct (Z.eqb_spec m 0) as [->|]; [by simplify_eq|].
  destruct (Z.leb_spec 1 m), (Z.leb_spec m 3); simplify_eq Hs; intros <-.
  assert (m = 1 \/ m = 2 \/ m = 3) as [->|[->| ->]] by lia; cbn [Z.eqb].
  - change (1 - 1) with 0. rewrite sel_read_index0. by destruct a40, (Z.testbit _ _).
  - cbn. by destruct a40, (Z.testbit _ _).
  - cbn. by destruct a40, (Z.testbit _ _).
Qed.

Definition wf_sel (s : selector) : Prop :=
  0 <= sel_lo s /\ sel_hi s < 40 /\ match s with SelIsland _ => True | SelIndex _ n => 0 <= n <= 2 end.

Lemma sel_of_wf t m a40 direct s : sel_of t m a40 direct = Some s -> wf_sel s.
Proof.
  unfold sel_of, wf_sel. intros H.
  repeat match type of H with context [if ?b then _ else _] => destruct b eqn:? end;
    simplify_eq H; intros <-; cbn; bool_to_Z; lia.
Qed.

Lemma decode_mu_sel a m a40 i1 i0 s :
  sel_of NFP6000_CPPTGT_MU m a40 (is_direct a (locality a40)) = Some s ->
  nfp6000_decode_mu a m a40 i1 i0 = Ok (sel_read s a i1 i0).
Proof.
  unfold sel_of, nfp6000_decode_mu, nfp6000_cppat_mu_locality_lsb.
  change (basic_target NFP6000_CPPTGT_MU) with false. rewrite Z.eqb_refl. intros H.
  assert (Hm : m = 0 \/ m = 1 \/ m = 2 \/ m = 3).
  { destruct (Z.eqb_spec m 0); [lia|]. destruct (Z.leb_spec 1 m), (Z.leb_spec m 3);
      cbn in H; try done; lia. }
  rewrite !index_set_testbit by (destruct a40; lia). rewrite field_1, field_3, get_island_field.
  assert (Hl : (if (m =? 0) || (m =? 1) || (m =? 2) || (m =? 3)
                then if a40 then 38 else 30 else -1) = locality a40).
  { destruct Hm as [-> |[-> |[-> | ->]]]; done. }
  rewrite Hl. destruct (Z.ltb_spec (locality a40) 0) as [Hn|_]; [destruct a40; done|].
  destruct (is_direct a (locality a40));
    destruct Hm as [-> |[-> |[-> | ->]]]; cbn in H; simplify_eq H; intros <-; cbn [Z.eqb]; try done.
  - change (1 - 1) with 0. rewrite sel_read_index0. by destruct a40, (Z.testbit _ _).
  - cbn. by destruct a40, (Z.testbit _ _).
  - cbn. by destruct a40, (Z.testbit _ _).
Qed.

(** What decoding gives, for any target and mode. *)
Theorem decode_spec a t m a40 i1 i0 s :
  sel_of t m a40 (is_direct a (locality a40)) = Some s ->
  nfp6000_cppat_addr_decode a t m a40 i1 i0 = Ok (sel_read s a i1 i0).
Proof.
  intros Hs. unfold nfp6000_cppat_addr_decode. destruct (basic_target t) eqn:Ht.
  - apply decode_basic_sel; [done|]. unfold sel_of in *. by rewrite Ht in *.
  - destruct (Z.eqb_spec t NFP6000_CPPTGT_MU) as [->|Hmu]; [by apply decode_mu_sel|].
    unfold sel_of in Hs. rewrite Ht in Hs. apply Z.eqb_neq in Hmu. rewrite Hmu in Hs.
    destruct (t =? NFP6000_CPPTGT_CTXPB); [|done].
    destruct (m =? 1); [|done]. destruct a40; [done|]. cbn in *. simplify_eq.
    by rewrite get_island_field.
Qed.

(** Without a selector decoding reports an error, or shifts by a negative amount when
    the mode is unknown and the target is the memory unit. *)
Theorem decode_errors a t m a40 i1 i0 :
  sel_of t m a40 (is_direct a (locality a40)) = None ->
  nfp6000_cppat_addr_decode a t m a40 i1 i0
  = if basic_target t then Errno EINVAL
    else if t =? NFP6000_CPPTGT_MU then UndefShift else NegErrno EINVAL.
Proof.
  unfold sel_of, nfp6000_cppat_addr_decode. intros Hs. destruct (basic_target t) eqn:Ht.
  - unfold nfp6000_decode_basic. destruct (basic_not_other t Ht) as [-> ->].
    destruct (m =? 0); [done|]. destruct (Z.leb_spec 1 m), (Z.leb_spec m 3); try done; case_eqbs; done.
  - destruct (t =? NFP6000_CPPTGT_MU).
    + unfold nfp6000_decode_mu, nfp6000_cppat_mu_locality_lsb.
      destruct (m =? 0); [done|]. destruct (is_direct _ _), (Z.leb_spec 1 m), (Z.leb_spec m 3);
        try done; case_eqbs; done.
    + destruct (t =? NFP6000_CPPTGT_CTXPB); [|done]. by destruct (m =? 1), a40.
Qed.

(** Writing a selector, the way the encoders do. *)
Definition sel_write (s : selector) (addr dest_island isld1 isld0 : Z) : outcome Z :=
  match s with
  | SelIsland lsb => Ok (put_island addr dest_island lsb)
  | SelIndex idx n =>
      if n =? 0 then
        if dest_island =? isld0 then Ok (addr .& not64 (nic_mask64 idx idx false))
        else if dest_island =? isld1 then Ok (addr .| u64 (1 ≪ idx))
        else Errno ENODEV
      else try_options (if n =? 1 then options2 else options4) addr dest_island
             (Z.land isld1 (Z.lnot (Z.ones n))) (Z.land isld0 (Z.lnot (Z.ones n))) idx (idx - n)
  end.

Lemma testbit_put_option a idx iid i v j :
  in_word 64 a -> 0 <= iid <= idx -> idx < 63 -> 0 <= j -> (i = 0 \/ i = 1) ->
  in_word (idx - iid) v ->
  Z.testbit (put_option a idx iid i v) j
  = if j =? idx then i =? 1
    else if (iid <=? j) && (j <=? idx) then Z.testbit v (j - iid) else Z.testbit a j.
Proof.
  intros Ha H1 H2 Hj Hi Hv. unfold put_option.
  rewrite !Z.lor_spec, testbit_clear by (done || lia). autorewrite with bits.
  assert (Hib : forall k, 0 <= k -> Z.testbit i k = (i =? 1) && (k =? 0)).
  { intros k Hk. destruct Hi as [-> | ->]; [by rewrite Z.testbit_0_l|].
    destruct (Z.eqb_spec k 0) as [->|]; [done|]. by rewrite (testbit_high 1 1) by (done || lia). }
  destruct (Z.eqb_spec j idx) as [->|Hne].
  - rewrite Hib by lia. replace (idx - idx =? 0) with true by (symmetry; apply Z.eqb_eq; lia).
    rewrite (testbit_high (idx - iid) v (idx - iid)) by (done || lia). bit_cases.
  - destruct (Z.leb_spec idx j).
    + rewrite Hib by lia. rewrite (testbit_high (idx - iid) v (j - iid)) by (done || lia). bit_cases.
    + bit_cases.
Qed.

Lemma put_option_word a idx iid i v : in_word 64 a -> in_word 64 (put_option a idx iid i v).
Proof.
  intros Ha. unfold put_option. repeat apply in_word_lor; try lia; try (apply wrap_range; lia).
  by apply clear_word.
Qed.

Lemma try_options_ok opts a d i1 i0 idx iid a' :
  try_options opts a d i1 i0 idx iid = Ok a' ->
  exists i v, In (i, v) opts /\ d = (if i =? 0 then i0 else i1) .| v
              /\ a' = put_option a idx iid i v.
Proof.
  induction opts as [|[i v] opts IH]; cbn; [done|].
  destruct (Z.eqb_spec d ((if i =? 0 then i0 else i1) .| v)) as [->|]; cbn [negb].
  - intros [= <-]. exists i, v. auto.
  - intros H. destruct (IH H) as (i' & v' & Hin & Hd & Ha). exists i', v'. auto.
Qed.

Lemma try_options_complete opts a d i1 i0 idx iid i v :
  In (i, v) opts -> d = (if i =? 0 then i0 else i1) .| v ->
  exists a', try_options opts a d i1 i0 idx iid = Ok a'.
Proof.
  induction opts as [|[i' v'] opts IH]; cbn; [done|].
  intros Hin Hd. destruct (Z.eqb_spec d ((if i' =? 0 then i0 else i1) .| v')); cbn [negb]; [eauto|].
  destruct Hin as [[= -> ->]|Hin]; [done|]. auto.
Qed.

Lemma in_options n i v : n = 1 \/ n = 2 -> In (i, v) (if n =? 1 then options2 else options4) ->
  (i = 0 \/ i = 1) /\ in_word n v.
Proof.
  unfold in_word. intros [-> | ->]; cbn; intros H;
    repeat destruct H as [[= <- <-]|H]; try done; lia.
Qed.

Lemma options_in n i v : n = 1 \/ n = 2 -> (i = 0 \/ i = 1) -> in_word n v ->
  In (i, v) (if n =? 1 then options2 else options4).
Proof.
  unfold in_word. intros [-> | ->] Hi Hv; cbn in *.
  - assert (v = 0 \/ v = 1) by lia. intuition (subst; auto).
  - assert (v = 0 \/ v = 1 \/ v = 2 \/ v = 3) by lia. intuition (subst; auto 10).
Qed.

(** A written selector reads back, and only its bits changed. *)
Lemma sel_write_index0 idx a d i1 i0 a' : in_word 64 a -> 0 <= idx < 40 ->
  sel_write (SelIndex idx 0) a d i1 i0 = Ok a' ->
  in_word 64 a' /\ sel_read (SelIndex idx 0) a' i1 i0 = d
  /\ forall j, 0 <= j -> j <> idx -> Z.testbit a' j = Z.testbit a j.
Proof.
  intros Ha Hidx. cbn [sel_write Z.eqb]. rewrite sel_read_index0.
  destruct (Z.eqb_spec d i0) as [->|]; [|destruct (Z.eqb_spec d i1) as [->|]; [|done]];
    intros [= <-]; split_ands.
  - by apply clear_word.
  - rewrite testbit_clear by (done || lia). rewrite Z.leb_refl. cbn. by rewrite andb_false_r.
  - intros j Hj Hne. rewrite testbit_clear by (done || lia). bit_cases.
  - apply in_word_lor; [lia|done|]. apply wrap_range. lia.
  - replace (Z.testbit _ idx) with true; [done|]. symmetry. rewrite Z.lor_spec.
    autorewrite with bits. rewrite Z.sub_diag. bit_cases. by rewrite orb_true_r.
  - intros j Hj Hne. rewrite Z.lor_spec. autorewrite with bits. bit_cases.
    by rewrite (testbit_high 1 1), orb_false_r by (done || lia).
Qed.

Lemma sel_write_sound s a d i1 i0 a' : in_word 64 a -> 0 <= d < 64 -> wf_sel s ->
  sel_write s a d i1 i0 = Ok a' ->
  in_word 64 a' /\ sel_read s a' i1 i0 = d
  /\ forall j, 0 <= j -> ~ (sel_lo s <= j <= sel_hi s) -> Z.testbit a' j = Z.testbit a j.
Proof.
  intros Ha Hd (Hlo & Hhi & Hn). destruct s as [lsb|idx n]; cbn in Hlo, Hhi.
  - intros [= <-]. split_ands.
    + by apply put_island_word.
    + cbn. rewrite <- get_island_field. apply get_put_island; done || lia.
    + intros j Hj Hout. cbn in Hout. rewrite testbit_put_island by (done || lia). bit_cases.
  - destruct (decide (n = 0)) as [->|Hn0].
    + intros H. destruct (sel_write_index0 idx a d i1 i0 a') as (H1 & H2 & H3); [done|lia|done|].
      split_ands; [done..|]. intros j Hj Hout. apply H3; [done|]. cbn in Hout. lia.
    + unfold sel_write. destruct (Z.eqb_spec n 0); [done|]. intros H.
      destruct (try_options_ok _ _ _ _ _ _ _ _ H) as (i & v & Hin & -> & ->).
      destruct (in_options n i v) as [Hi Hv]; [lia|done|].
      assert (Hv' : in_word (idx - (idx - n)) v) by (by replace (idx - (idx - n)) with n by lia).
      split_ands.
      * by apply put_option_word.
      * cbn. rewrite testbit_put_option, Z.eqb_refl by (done || lia).
        replace (if i =? 0 then i0 .& Z.lnot (Z.ones n) else i1 .& Z.lnot (Z.ones n))
          with (if i =? 1 then i1 .& Z.lnot (Z.ones n) else i0 .& Z.lnot (Z.ones n))
          by (by destruct Hi as [-> | ->]).
        f_equal. unfold field. bitwise_as j.
        rewrite testbit_put_option by (done || lia).
        destruct (Z.ltb_spec j n); cbn [andb].
        -- bit_cases.
        -- by rewrite (testbit_high n v) by (done || lia).
      * intros j Hj Hout. cbn in Hout. rewrite testbit_put_option by (done || lia). bit_cases.
Qed.

(** Whatever island some address reads, the encoder can select. *)
Lemma sel_write_complete s a b d i1 i0 : wf_sel s -> sel_read s b i1 i0 = d ->
  exists a', sel_write s a d i1 i0 = Ok a'.
Proof.
  intros (Hlo & Hhi & Hn) Hd. destruct s as [lsb|idx n]; cbn in Hlo, Hhi; [by eexists|].
  destruct (decide (n = 0)) as [->|Hn0].
  - rewrite sel_read_index0 in Hd. cbn [sel_write Z.eqb]. subst d.
    destruct (Z.testbit b idx); rewrite ?Z.eqb_refl; [|by eexists].
    destruct (i1 =? i0); by eexists.
  - unfold sel_write. destruct (Z.eqb_spec n 0); [done|].
    apply (try_options_complete _ _ _ _ _ _ _ (if Z.testbit b idx then 1 else 0)
             (field (idx - n) n b)).
    + apply options_in; [lia|destruct (Z.testbit b idx); auto|]. apply field_range. lia.
    + rewrite <- Hd. cbn. by destruct (Z.testbit b idx).
Qed.

(** ** Encoding *)

(** The 32-bit addresses of VQDR are checked and not changed. *)
Definition vqdr_checked (cpp_tgt : Z) (addr40 : bool) : bool :=
  (cpp_tgt =? NFP6000_CPPTGT_VQDR) && negb addr40.

(** In mode 3 the encoder of the memory unit sets the direct locality for the islands
    that are not memory units. *)
Definition forced_direct (cpp_tgt mode dest_island : Z) : bool :=
  (cpp_tgt =? NFP6000_CPPTGT_MU) && (mode =? 3)
  && ((dest_island >? 0) && ((dest_island <? 24) || (dest_island >? 26))).

Definition with_direct (a : Z) (addr40 : bool) : Z := a .| u64 (2 ≪ locality addr40).

Lemma encode_basic_sel a d t m a40 direct i1 i0 s : basic_target t = true ->
  sel_of t m a40 direct = Some s ->
  nfp6000_encode_basic a d t m a40 i1 i0
  = if vqdr_checked t a40 then
      (if negb (d =? -1) && negb (d =? sel_read s a i1 i0) then Errno EINVAL else Ok a)
    else sel_write s a d i1 i0.
Proof.
  intros Ht Hs. unfold nfp6000_encode_basic, check_vqdr.
  rewrite (decode_basic_sel a t m a40 i1 i0 s Ht) by (unfold sel_of in *; by rewrite Ht in *).
  destruct (basic_not_other t Ht) as [-> ->]. unfold vqdr_checked.
  unfold sel_of in Hs. rewrite Ht in Hs.
  destruct (Z.eqb_spec m 0) as [->|]; [by simplify_eq|].
  destruct (Z.leb_spec 1 m), (Z.leb_spec m 3); simplify_eq Hs; intros <-.
  assert (m = 1 \/ m = 2 \/ m = 3) as [->|[->| ->]] by lia; cbn [Z.eqb];
    (destruct ((t =? NFP6000_CPPTGT_VQDR) && negb a40); [done|]); by destruct a40.
Qed.

Lemma encode_mu_sel a d m a40 i1 i0 s :
  let forced := forced_direct NFP6000_CPPTGT_MU m d in
  sel_of NFP6000_CPPTGT_MU m a40 (forced || is_direct a (locality a40)) = Some s ->
  nfp6000_encode_mu a d m a40 i1 i0
  = sel_write s (if forced then with_direct a a40 else a) d i1 i0.
Proof.
  cbn zeta. unfold forced_direct. rewrite Z.eqb_refl. cbn [andb]. unfold sel_of.
  change (basic_target NFP6000_CPPTGT_MU) with false. rewrite Z.eqb_refl. intros H.
  assert (Hm : m = 0 \/ m = 1 \/ m = 2 \/ m = 3).
  { destruct (Z.eqb_spec m 0); [lia|]. destruct (Z.leb_spec 1 m), (Z.leb_spec m 3);
      cbn in H; try done; lia. }
  unfold nfp6000_encode_mu, nfp6000_cppat_mu_locality_lsb.
  assert (Hl : (if (m =? 0) || (m =? 1) || (m =? 2) || (m =? 3)
                then if a40 then 38 else 30 else -1) = locality a40).
  { destruct Hm as [-> |[-> |[-> | ->]]]; done. }
  rewrite Hl. destruct (Z.ltb_spec (locality a40) 0) as [Hn|_]; [destruct a40; done|].
  fold (locality a40).
  destruct Hm as [-> |[-> |[-> | ->]]]; cbn [Z.eqb andb orb Z.leb Z.compare] in *.
  - by simplify_eq.
  - destruct (is_direct _ _); cbn in H; simplify_eq H; intros <-; [done|]. by destruct a40.
  - destruct (is_direct _ _); cbn in H; simplify_eq H; intros <-; [done|]. by destruct a40.
  - destruct ((d >? 0) && _); cbn in H |- *; [simplify_eq H; by intros <-|].
    destruct (is_direct _ _); cbn in H; simplify_eq H; intros <-; [done|]. by destruct a40.
Qed.

(** What encoding does, for any target and mode: it checks the 32-bit addresses of VQDR,
    and writes the selector of the others. *)
Lemma encode_sel a d t m a40 i1 i0 s :
  sel_of t m a40 (forced_direct t m d || is_direct a (locality a40)) = Some s ->
  nfp6000_cppat_addr_encode a d t m a40 i1 i0
  = if vqdr_checked t a40 then
      (if negb (d =? -1) && negb (d =? sel_read s a i1 i0) then Errno EINVAL else Ok a)
    else sel_write s (if forced_direct t m d then with_direct a a40 else a) d i1 i0.
Proof.
  intros Hs. unfold nfp6000_cppat_addr_encode. destruct (basic_target t) eqn:Ht.
  - rewrite (encode_basic_sel a d t m a40 _ i1 i0 s Ht Hs).
    unfold forced_direct. by destruct (basic_not_other t Ht) as [-> _].
  - assert (Hv : vqdr_checked t a40 = false).
    { unfold vqdr_checked. destruct (Z.eqb_spec t NFP6000_CPPTGT_VQDR) as [->|]; [|done].
      by unfold basic_target in Ht. }
    rewrite Hv. destruct (Z.eqb_spec t NFP6000_CPPTGT_MU) as [->|Hmu].
    + by apply encode_mu_sel.
    + unfold forced_direct. apply Z.eqb_neq in Hmu. rewrite Hmu. cbn [andb].
      unfold sel_of in Hs. rewrite Ht, Hmu in Hs. destruct (t =? NFP6000_CPPTGT_CTXPB); [|done].
      destruct (m =? 1); [|done]. destruct a40; [done|]. cbn in *. by simplify_eq.
Qed.

Lemma encode_errors a d t m a40 i1 i0 direct :
  sel_of t m a40 direct = None -> nfp6000_cppat_addr_encode a d t m a40 i1 i0 = Errno EINVAL.
Proof.
  unfold sel_of, nfp6000_cppat_addr_encode. intros Hs. destruct (basic_target t) eqn:Ht.
  - unfold nfp6000_encode_basic. destruct (basic_not_other t Ht) as [-> ->].
    destruct (m =? 0); [done|]. destruct (Z.leb_spec 1 m), (Z.leb_spec m 3); try done; case_eqbs; done.
  - destruct (t =? NFP6000_CPPTGT_MU).
    + unfold nfp6000_encode_mu, nfp6000_cppat_mu_locality_lsb.
      destruct (m =? 0); [done|]. destruct direct, (Z.leb_spec 1 m), (Z.leb_spec m 3);
        try done; case_eqbs; done.
    + destruct (t =? NFP6000_CPPTGT_CTXPB); [|done]. by destruct (m =? 1), a40.
Qed.

Lemma with_direct_word a a40 : in_word 64 a -> in_word 64 (with_direct a a40).
Proof. intros. apply in_word_lor; [lia|done|]. apply wrap_range. lia. Qed.

Lemma testbit_with_direct a a40 j : 0 <= j ->
  Z.testbit (with_direct a a40) j = Z.testbit a j || (j =? locality a40 + 1).
Proof.
  intros Hj. unfold with_direct. rewrite Z.lor_spec. f_equal.
  replace (u64 (2 ≪ locality a40)) with (2 ^ (locality a40 + 1)) by (by destruct a40).
  destruct (Z.eqb_spec j (locality a40 + 1)) as [->|].
  - apply Z.pow2_bits_true. destruct a40; cbn; lia.
  - apply Z.pow2_bits_false. lia.
Qed.

(** The locality is not among the bits that select. *)
Lemma sel_below_locality t m a40 direct s :
  basic_target t = false -> sel_of t m a40 direct = Some s -> sel_hi s < locality a40.
Proof.
  unfold sel_of. intros ->. intros H. destruct a40;
    repeat match type of H with context [if ?b then _ else _] => destruct b eqn:? end;
    simplify_eq H; intros <-; cbn; bool_to_Z; done || lia.
Qed.

Lemma is_direct_same a b a40 :
  (forall j, 0 <= j -> locality a40 <= j -> Z.testbit b j = Z.testbit a j) ->
  is_direct b (locality a40) = is_direct a (locality a40).
Proof.
  assert (0 <= locality a40) by (destruct a40; cbn; lia).
  intros Hs. by rewrite !is_direct_testbit, !Hs by lia.
Qed.

Lemma sel_of_basic t m a40 d1 d2 : basic_target t = true -> sel_of t m a40 d1 = sel_of t m a40 d2.
Proof. unfold sel_of. by intros ->. Qed.

(** The bits encoding may change: those that select in the result, and the locality in
    mode 3. *)
Definition changeable (t m : Z) (a40 : bool) (d a' j : Z) : Prop :=
  match sel_of t m a40 (is_direct a' (locality a40)) with
  | Some s => sel_lo s <= j <= sel_hi s
  | None => False
  end \/ (forced_direct t m d = true /\ j = locality a40 + 1).

(** C25: Encoding an island into a CPP address and decoding it: whenever the
    encoder accepts, for any target, mode, address width and pair of islands,
    decoding the new address gives the island back, and no bit has changed but
    those that select the island (and the direct locality in mode 3). The one
    condition is that an address that mode 3 makes direct has the low locality bit
    clear. *)
Theorem cppat_roundtrip a d t m a40 i1 i0 a' : in_word 64 a -> 0 <= d < 64 ->
  (forced_direct t m d = true -> Z.testbit a (locality a40) = false) ->
  nfp6000_cppat_addr_encode a d t m a40 i1 i0 = Ok a' ->
  nfp6000_cppat_addr_decode a' t m a40 i1 i0 = Ok d
  /\ in_word 64 a'
  /\ forall j, 0 <= j -> ~ changeable t m a40 d a' j -> Z.testbit a' j = Z.testbit a j.
Proof.
  intros Ha Hd Hloc He.
  destruct (sel_of t m a40 (forced_direct t m d || is_direct a (locality a40))) as [s|] eqn:Hs;
    [|by rewrite (encode_errors _ _ _ _ _ _ _ _ Hs) in He].
  pose proof (sel_of_wf _ _ _ _ _ Hs) as Hwf. rewrite (encode_sel _ _ _ _ _ _ _ s Hs) in He.
  destruct (vqdr_checked t a40) eqn:Hv.
  - assert (Ht : basic_target t = true).
    { unfold vqdr_checked in Hv. apply andb_true_iff in Hv as [->%Z.eqb_eq _]. done. }
    destruct (Z.eqb_spec d (-1)); [lia|]. cbn in He.
    destruct (Z.eqb_spec d (sel_read s a i1 i0)) as [->|]; [|done]. cbn in He. simplify_eq He.
    intros <-. split_ands; [|done..]. apply decode_spec.
    rewrite <- Hs. by apply sel_of_basic.
  - set (a1 := if forced_direct t m d then with_direct a a40 else a) in *.
    assert (Ha1 : in_word 64 a1) by (unfold a1; case_bool; [by apply with_direct_word|done]).
    destruct (sel_write_sound _ _ _ _ _ _ Ha1 Hd Hwf He) as (Hw & Hr & Hsame).
    assert (Hs' : sel_of t m a40 (is_direct a' (locality a40)) = Some s).
    { destruct (basic_target t) eqn:Ht; [by rewrite <- Hs; apply sel_of_basic|].
      pose proof (sel_below_locality _ _ _ _ _ Ht Hs) as Hb.
      rewrite (is_direct_same a1 a') by (intros j Hj Hjl; apply Hsame; lia).
      rewrite <- Hs. f_equal. unfold a1. destruct (forced_direct t m d) eqn:Hf; [|done]. cbn.
      assert (0 <= locality a40) by (destruct a40; cbn; lia).
      rewrite is_direct_testbit, !testbit_with_direct, Hloc by (done || lia).
      rewrite Z.eqb_refl, orb_true_r. destruct (Z.eqb_spec (locality a40) (locality a40 + 1)); [lia|done]. }
    split_ands; [by rewrite (decode_spec _ _ _ _ _ _ s Hs'), Hr|done|].
    intros j Hj Hout. unfold changeable in Hout. rewrite Hs' in Hout.
    rewrite Hsame by tauto. unfold a1. destruct (forced_direct t m d); [|done].
    rewrite testbit_with_direct by done. destruct (Z.eqb_spec j (locality a40 + 1)) as [->|];
      [|by rewrite orb_false_r]. exfalso. tauto.
Qed.

Lemma cppat_roundtrip_witness :
  nfp6000_cppat_addr_encode 0x0000001234 36 NFP6000_CPPTGT_MU 3 true 28 24 = Ok 0xA400001234
  /\ nfp6000_cppat_addr_decode 0xA400001234 NFP6000_CPPTGT_MU 3 true 28 24 = Ok 36.
Proof.
  split; [by vm_compute|].
  apply (cppat_roundtrip 0x0000001234 36 NFP6000_CPPTGT_MU 3 true 28 24 0xA400001234);
    [by vm_compute|lia|by vm_compute|by vm_compute].
Defined.

(** The encoder reaches every island an address with the same locality can go to. *)
Theorem cppat_complete a b d t m a40 i1 i0 :
  vqdr_checked t a40 = false -> forced_direct t m d = false ->
  is_direct b (locality a40) = is_direct a (locality a40) ->
  nfp6000_cppat_addr_decode b t m a40 i1 i0 = Ok d ->
  exists a', nfp6000_cppat_addr_encode a d t m a40 i1 i0 = Ok a'.
Proof.
  intros Hv Hf Hl Hd.
  destruct (sel_of t m a40 (is_direct b (locality a40))) as [s|] eqn:Hs.
  - rewrite (decode_spec _ _ _ _ _ _ s Hs) in Hd. simplify_eq Hd. intros Hd'.
    rewrite (encode_sel a d t m a40 i1 i0 s) by (by rewrite Hf, <- Hl).
    rewrite Hv, Hf. eapply sel_write_complete; [by eapply sel_of_wf|done].
  - rewrite (decode_errors _ _ _ _ _ _ Hs) in Hd.
    by destruct (basic_target t); [|destruct (t =? NFP6000_CPPTGT_MU)].
Qed.

(** ** Clearing the island *)

Definition clear_bits (s : selector) (a : Z) : Z :=
  a .& not64 (nic_mask64 (sel_hi s) (sel_lo s) false).

Lemma clear_island_bits a lsb : 0 <= lsb < 40 -> clear_island a lsb = clear_bits (SelIsland lsb) a.
Proof.
  intros H. unfold clear_island, clear_bits. cbn. rewrite nic_mask64_eq by lia. do 2 f_equal.
  replace (lsb + 5 - lsb + 1) with 6 by lia. change 0x3F with (Z.ones 6).
  bitwise_as i. bit_cases.
Qed.

(** [iid_clear] clears the bits that select the island and no others. *)
Theorem iid_clear_spec a t m a40 s :
  sel_of t m a40 (is_direct a (locality a40)) = Some s ->
  nfp6000_cppat_addr_iid_clear a t m a40 = Ok (clear_bits s a).
Proof.
  intros Hs. unfold nfp6000_cppat_addr_iid_clear, sel_of in *. destruct (basic_target t).
  - destruct (m =? 0).
    { simplify_eq Hs; intros <-. rewrite clear_island_bits by (destruct a40; lia). done. }
    destruct (Z.leb_spec 1 m), (Z.leb_spec m 3); simplify_eq Hs; intros <-.
    assert (m = 1 \/ m = 2 \/ m = 3) as [->|[->| ->]] by lia; by destruct a40.
  - destruct (t =? NFP6000_CPPTGT_MU).
    + unfold iid_clear_mu, nfp6000_cppat_mu_locality_lsb.
      destruct (Z.eqb_spec m 0) as [->|].
      { cbn in *. simplify_eq. by destruct a40; rewrite clear_island_bits by lia. }
      destruct (Z.leb_spec 1 m), (Z.leb_spec m 3); try done.
      assert (Hl : (if a40 then 38 else 30) <? 0 = false) by (by destruct a40).
      assert (m = 1 \/ m = 2 \/ m = 3) as [->|[->| ->]] by lia;
        cbn [orb andb Z.eqb Pos.eqb] in *; cbn in Hs; rewrite Hl; fold (locality a40);
        (destruct (is_direct _ _); simplify_eq Hs; intros <-;
         [rewrite clear_island_bits by (destruct a40; lia); done | by destruct a40]).
    + destruct (t =? NFP6000_CPPTGT_CTXPB); [|done]. unfold iid_clear_ctxpb.
      destruct (m =? 1); [|done]. destruct a40; [done|]. cbn in *. simplify_eq.
      by rewrite clear_island_bits by lia.
Qed.

Lemma clear_bits_word s a : in_word 64 a -> in_word 64 (clear_bits s a).
Proof. apply clear_word. Qed.

Lemma testbit_clear_bits s a j : in_word 64 a -> wf_sel s -> 0 <= j ->
  Z.testbit (clear_bits s a) j = Z.testbit a j && negb ((sel_lo s <=? j) && (j <=? sel_hi s)).
Proof.
  intros Ha (Hlo & Hhi & Hn) Hj. unfold clear_bits.
  destruct s; cbn in *; apply testbit_clear; done || lia.
Qed.

(** What is written does not depend on what the bits held before. *)
Lemma put_island_same a b d lsb : in_word 64 a -> in_word 64 b -> 0 <= lsb -> lsb + 6 <= 64 ->
  (forall j, 0 <= j -> ~ (lsb <= j <= lsb + 5) -> Z.testbit a j = Z.testbit b j) ->
  put_island a d lsb = put_island b d lsb.
Proof.
  intros Ha Hb H1 H2 Hs. bitwise_as i. rewrite !testbit_put_island by (done || lia).
  destruct (Z.leb_spec lsb i), (Z.leb_spec i (lsb + 5)); cbn; try done; apply Hs; lia.
Qed.

Lemma put_option_same a b idx iid i v : in_word 64 a -> in_word 64 b -> 0 <= iid <= idx ->
  idx < 63 -> (forall j, 0 <= j -> ~ (iid <= j <= idx) -> Z.testbit a j = Z.testbit b j) ->
  put_option a idx iid i v = put_option b idx iid i v.
Proof.
  intros Ha Hb H1 H2 Hs. unfold put_option. do 2 f_equal. bitwise_as j.
  rewrite <- !Z.land_spec, !testbit_clear by (done || lia).
  destruct (Z.leb_spec iid j), (Z.leb_spec j idx); cbn; rewrite ?andb_false_r, ?andb_true_r; try done;
    apply Hs; lia.
Qed.

Lemma try_options_same opts a b d i1 i0 idx iid : in_word 64 a -> in_word 64 b ->
  0 <= iid <= idx -> idx < 63 ->
  (forall j, 0 <= j -> ~ (iid <= j <= idx) -> Z.testbit a j = Z.testbit b j) ->
  try_options opts a d i1 i0 idx iid = try_options opts b d i1 i0 idx iid.
Proof.
  intros Ha Hb H1 H2 Hs. induction opts as [|[i v] opts IH]; cbn; [done|].
  rewrite IH. case_bool; [done|]. f_equal. by apply put_option_same.
Qed.

Lemma sel_write_same s a b d i1 i0 : in_word 64 a -> in_word 64 b -> wf_sel s ->
  (forall j, 0 <= j -> ~ (sel_lo s <= j <= sel_hi s) -> Z.testbit a j = Z.testbit b j) ->
  sel_write s a d i1 i0 = sel_write s b d i1 i0.
Proof.
  intros Ha Hb (Hlo & Hhi & Hn) Hs. destruct s as [lsb|idx n]; cbn in Hlo, Hhi, Hs; unfold sel_write.
  - f_equal. apply put_island_same; done || lia.
  - destruct (Z.eqb_spec n 0) as [->|].
    + rewrite Z.sub_0_r in Hs.
      assert (Hc : a .& not64 (nic_mask64 idx idx false) = b .& not64 (nic_mask64 idx idx false)).
      { bitwise_as j. rewrite <- !Z.land_spec, !testbit_clear by (done || lia).
        destruct (Z.leb_spec idx j), (Z.leb_spec j idx); cbn; rewrite ?andb_false_r, ?andb_true_r;
          try done; apply Hs; lia. }
      assert (Hor : a .| u64 (1 ≪ idx) = b .| u64 (1 ≪ idx)).
      { bitwise_as j. destruct (decide (j = idx)) as [->|Hne]; [|rewrite (Hs j) by lia; done].
        rewrite Z.sub_diag. bit_cases. by rewrite !orb_true_r. }
      by rewrite Hc, Hor.
    + apply try_options_same; done || lia.
Qed.

Lemma sel_of_none t m a40 d1 d2 : sel_of t m a40 d1 = None -> sel_of t m a40 d2 = None.
Proof.
  unfold sel_of. destruct (basic_target t), (t =? NFP6000_CPPTGT_MU), (t =? NFP6000_CPPTGT_CTXPB),
    (m =? 0), (1 <=? m), (m <=? 3), d1, d2; by cbn.
Qed.

(** The selector of the address does not select outside the one that is written. *)
Lemma sel_of_forced t m a40 d direct s : sel_of t m a40 direct = Some s ->
  exists s', sel_of t m a40 (forced_direct t m d || direct) = Some s' /\ wf_sel s'
             /\ sel_lo s' <= sel_lo s /\ sel_hi s <= sel_hi s'.
Proof.
  intros Hs. pose proof (sel_of_wf _ _ _ _ _ Hs). destruct (forced_direct t m d) eqn:Hf;
    [|by exists s]. unfold forced_direct in Hf. bool_to_Z. subst.
  destruct a40, direct; cbn in Hs; simplify_eq Hs; intros <-; cbn;
    eexists; (split; [done|]); unfold wf_sel; cbn; lia.
Qed.

(** Encoding over a cleared island gives the address that encoding alone gives. *)
Theorem clear_encode a d t m a40 i1 i0 a0 : in_word 64 a -> vqdr_checked t a40 = false ->
  nfp6000_cppat_addr_iid_clear a t m a40 = Ok a0 ->
  nfp6000_cppat_addr_encode a0 d t m a40 i1 i0 = nfp6000_cppat_addr_encode a d t m a40 i1 i0.
Proof.
  intros Ha Hv Hc.
  destruct (sel_of t m a40 (is_direct a (locality a40))) as [s|] eqn:Hs.
  2: { by rewrite !(encode_errors _ _ _ _ _ _ _ _ Hs). }
  rewrite (iid_clear_spec _ _ _ _ s Hs) in Hc. simplify_eq Hc. intros <-.
  pose proof (sel_of_wf _ _ _ _ _ Hs) as Hwf.
  pose proof (fun j => testbit_clear_bits s a j Ha Hwf) as Hbits.
  assert (Hd : forced_direct t m d || is_direct (clear_bits s a) (locality a40)
               = forced_direct t m d || is_direct a (locality a40) \/ basic_target t = true).
  { destruct (basic_target t) eqn:Ht; [by right|left]. f_equal. apply is_direct_same.
    pose proof (sel_below_locality _ _ _ _ _ Ht Hs). intros j Hj Hl. rewrite Hbits by done. bit_cases. }
  destruct (sel_of_forced t m a40 d _ s Hs) as (s' & Hs' & Hwf' & Hlo & Hhi).
  rewrite (encode_sel a d t m a40 i1 i0 s' Hs').
  rewrite (encode_sel (clear_bits s a) d t m a40 i1 i0 s').
  2: { destruct Hd as [->|Ht]; [done|]. rewrite <- Hs'. by apply sel_of_basic. }
  rewrite Hv. pose proof (clear_bits_word s a Ha).
  assert (Hout : forall j, 0 <= j -> ~ (sel_lo s' <= j <= sel_hi s') ->
                 Z.testbit (clear_bits s a) j = Z.testbit a j).
  { intros j Hj Hout. rewrite Hbits by done. bit_cases. }
  destruct (forced_direct t m d); apply sel_write_same; try done; try by apply with_direct_word.
  intros j Hj Hno. by rewrite !testbit_with_direct, Hout by done.
Qed.

Lemma clear_encode_witness :
  nfp6000_cppat_addr_iid_clear 0xA400001234 NFP6000_CPPTGT_MU 2 true = Ok 0x8000001234
  /\ nfp6000_cppat_addr_encode 0x8000001234 25 NFP6000_CPPTGT_MU 2 true 28 24
     = nfp6000_cppat_addr_encode 0xA400001234 25 NFP6000_CPPTGT_MU 2 true 28 24.
Proof.
  split; [by vm_compute|].
  apply (clear_encode 0xA400001234 25 NFP6000_CPPTGT_MU 2 true 28 24); by vm_compute.
Defined.

(** ** Behaviour at the edges *)

(** An identifier keeps seven bits of a target and gives back five. *)
Lemma cpp_target_truncated : NFP_CPP_ID_TARGET_of (NFP_CPP_ID 0x27 32 0) = 7.
Proof. done. Qed.

(** In mode 3 the direct locality is or-ed into the locality the address has: with
    locality 1 the result is 3, which is not direct, and the address goes elsewhere. *)
Lemma mode3_locality_kept :
  nfp6000_cppat_addr_encode 0x4000000000 36 NFP6000_CPPTGT_MU 3 true 28 24 = Ok 0xE400000000
  /\ nfp6000_cppat_addr_decode 0xE400000000 NFP6000_CPPTGT_MU 3 true 28 24 = Ok 28.
Proof. by vm_compute. Qed.

(** An unknown mode is an error to the encoder; the decoder and [iid_clear] shift by the
    -1 that reports it. *)
Lemma mu_unknown_mode :
  nfp6000_cppat_addr_encode 0 1 NFP6000_CPPTGT_MU 4 true 28 24 = Errno EINVAL
  /\ nfp6000_cppat_addr_decode 0 NFP6000_CPPTGT_MU 4 true 28 24 = UndefShift
  /\ nfp6000_cppat_addr_iid_clear 0 NFP6000_CPPTGT_MU 4 true = UndefShift
  /\ nfp6000_cppat_addr_iid_clear 0 NFP6000_CPPTGT_NBI 4 true = UndefShift.
Proof. by vm_compute. Qed.

(** Encoding refuses CTXPB outside mode 1; clearing reports success and clears nothing. *)
Lemma ctxpb_clear_ignores_mode :
  nfp6000_cppat_addr_encode 0x3F000000 1 NFP6000_CPPTGT_CTXPB 0 false 28 24 = Errno EINVAL
  /\ nfp6000_cppat_addr_iid_clear 0x3F000000 NFP6000_CPPTGT_CTXPB 0 false = Ok 0x3F000000.
Proof. by vm_compute. Qed.

(** The same refusal is -1 with [errno] from the encoder and [-EINVAL] from the decoder. *)
Lemma ctxpb_error_values :
  nfp6000_cppat_addr_encode 0 1 NFP6000_CPPTGT_CTXPB 0 false 28 24 = Errno EINVAL
  /\ nfp6000_cppat_addr_decode 0 NFP6000_CPPTGT_CTXPB 0 false 28 24 = NegErrno EINVAL.
Proof. by vm_compute. Qed.

(** The two functions for the locality agree on the modes that exist. *)
Lemma locality_lsb_agrees m a40 : 0 <= m <= 3 ->
  nfp_cppat_mu_locality_lsb m a40 = Ok (nfp6000_cppat_mu_locality_lsb m a40).
Proof.
  intros Hm. assert (m = 0 \/ m = 1 \/ m = 2 \/ m = 3) as [->|[->|[->| ->]]] by lia; done.
Qed.

End CppAt.
