(* ===== verification/Runtime.v ===== *)
(** runtime-llvm/runtime.c: the buffers, tables and queues that generated host
    code runs on. *)
From Stdlib Require Import ZArith Lia List.
From stdpp Require Import base list numbers option.
From S2P Require Import Prelude.
#[local] Open Scope Z_scope.

Module Runtime.

(** ** Buffers *)

(** [buf_t]: the allocation, its size and the position. *)
Record buf_t := Buf { data : list Z; size : Z; offset : Z }.

(** The indeterminate bytes of an allocation. *)
Definition fresh_bytes (fresh : nat -> Z) (n : Z) : list Z := map fresh (seq 0 (Z.to_nat n)).

(** [malloc(1024)] *)
Definition __rt_buf_init (fresh : nat -> Z) : buf_t := Buf (fresh_bytes fresh 1024) 1024 0.

(** The bytes the debug output prints: [buf->data[buf->offset .. offset + 3]]. *)
Definition prints_next_4 (buf : buf_t) : bool :=
  (0 <=? offset buf) && (offset buf + 4 <=? Z.of_nat (length (data buf))).

(** A pointer into [buf->data] with the bytes from there on. *)
Definition __rt_buf_extract (buf : buf_t) (n : Z) : option (list Z * buf_t) :=
  if negb (prints_next_4 buf) then None
  else
    let p := drop (Z.to_nat (offset buf)) (data buf) in
    Some (p, Buf (data buf) (size buf) (offset buf + n)).

(** [memcpy] of [src] to [dst] bytes at [off]; [None] outside the allocation. *)
Definition memcpy_at (dst src : list Z) (off : Z) : option (list Z) :=
  if (0 <=? off) && (off + Z.of_nat (length src) <=? Z.of_nat (length dst))
  then Some (take (Z.to_nat off) dst ++ src ++ drop (Z.to_nat off + length src) dst)
  else None.

(** [buf->size * 2] overflows an [int] from [2^30] on; [realloc] keeps the bytes,
    the new ones, [fresh], are indeterminate. *)
Definition grow (buf : buf_t) (fresh : nat -> Z) : option buf_t :=
  if size buf * 2 <? 2 ^ 31
  then Some (Buf (data buf ++ fresh_bytes fresh (size buf)) (size buf * 2) (offset buf))
  else None.

Definition __rt_buf_emit (buf : buf_t) (src : list Z) (fresh : nat -> Z) : option buf_t :=
  let n := Z.of_nat (length src) in
  buf ← (if size buf <? offset buf + n then grow buf fresh else Some buf);
  d ← memcpy_at (data buf) src (offset buf);
  let buf := Buf d (size buf) (offset buf) in
  if negb (prints_next_4 buf) then None
  else Some (Buf d (size buf) (offset buf + n)).

Definition __rt_buf_concat (buf other : buf_t) (fresh : nat -> Z) : option buf_t :=
  let n := size other - offset other in
  buf ← (if size buf <? offset buf + n then grow buf fresh else Some buf);
  let src := take (Z.to_nat n) (drop (Z.to_nat (offset other)) (data other)) in
  d ← memcpy_at (data buf) src (offset buf);
  Some (Buf d (size buf) (offset buf + offset other)).

(** ** Tables *)

(** [table_t]: one value, and no key. *)
Record table_t := Table { vsize : Z; el : list Z }.

Definition __rt_table_init (n : Z) : table_t := Table n (replicate (Z.to_nat n) 0).
Definition __rt_table_alloc (n : Z) : table_t := __rt_table_init n.

(** The debug output prints the first two [int]s of the value. *)
Definition prints_two_ints (t : table_t) : bool := 8 <=? Z.of_nat (length (el t)).

Definition __rt_table_lookup (t : table_t) (key : Z) : option (list Z) :=
  if prints_two_ints t then Some (el t) else None.

Definition __rt_table_update (t : table_t) (key : Z) (value : list Z) : option table_t :=
  if Z.of_nat (length value) <? vsize t then None
  else
    let t := Table (vsize t) (take (Z.to_nat (vsize t)) value) in
    if prints_two_ints t then Some t else None.

(** ** Queues *)

Section Queues.
(** [g_async_queue_push] on the queues indexed by tag. *)
Context {Q : Type} (g_async_queue_push : Q -> list Z -> Q).

Definition __rt_generate (queues : Z -> Q) (tag n : Z) (src : list Z) : option (Z -> Q) :=
  if (0 <=? n) && (n <=? Z.of_nat (length src)) then
    let msg := take (Z.to_nat n) src in
    Some (fun t => if t =? tag then g_async_queue_push (queues t) msg else queues t)
  else None.
End Queues.

(** ** Properties *)

(** The position is inside the allocation, which has the recorded size. *)
Record buf_ok (buf : buf_t) : Prop := BufOk {
  bo_size : Z.of_nat (length (data buf)) = size buf;
  bo_offset : 0 <= offset buf <= size buf }.

(** The bytes written so far. *)
Definition written (buf : buf_t) : list Z := take (Z.to_nat (offset buf)) (data buf).

Lemma length_fresh fresh n : length (fresh_bytes fresh n) = Z.to_nat n.
Proof. unfold fresh_bytes. by rewrite length_map, length_seq. Qed.

Lemma init_ok fresh : buf_ok (__rt_buf_init fresh) /\ written (__rt_buf_init fresh) = [].
Proof.
  split; [split; cbn [__rt_buf_init data size offset]|done]; [|lia].
  rewrite length_fresh. lia.
Qed.

Lemma memcpy_at_spec dst src off d : memcpy_at dst src off = Some d ->
  length d = length dst /\
  take (Z.to_nat (off + Z.of_nat (length src))) d = take (Z.to_nat off) dst ++ src.
Proof.
  unfold memcpy_at. destruct (Z.leb_spec 0 off); [|done]. cbn [andb].
  destruct (Z.leb_spec (off + Z.of_nat (length src)) (Z.of_nat (length dst))); [|done].
  intros [= <-]. split.
  - rewrite !length_app, length_take, length_drop. lia.
  - rewrite app_assoc. apply take_app_length'. rewrite length_app, length_take. lia.
Qed.

(** Emitting at least four bytes and at most what doubling makes room for. *)
Lemma emit_spec buf src fresh : buf_ok buf -> (4 <= length src)%nat ->
  offset buf + Z.of_nat (length src) <= 2 * size buf -> size buf < 2 ^ 30 ->
  exists buf', __rt_buf_emit buf src fresh = Some buf' /\ buf_ok buf' /\
    written buf' = written buf ++ src /\
    size buf' = (if size buf <? offset buf + Z.of_nat (length src) then 2 * size buf else size buf).
Proof.
  intros [Hs Ho] Hn Hfit Hmax. unfold __rt_buf_emit.
  assert (Hg : exists b, (if size buf <? offset buf + Z.of_nat (length src) then grow buf fresh else Some buf)
      = Some b /\ Z.of_nat (length (data b)) = size b /\ offset b = offset buf /\
      written b = written buf /\ offset b + Z.of_nat (length src) <= size b /\
      size b = (if size buf <? offset buf + Z.of_nat (length src) then 2 * size buf else size buf)).
  { destruct (Z.ltb_spec (size buf) (offset buf + Z.of_nat (length src))).
    - unfold grow. destruct (Z.ltb_spec (size buf * 2) (2 ^ 31)); [|lia].
      eexists. split; [done|]. cbn [data size offset]. split_ands; try lia.
      + rewrite length_app, length_fresh. lia.
      + unfold written. cbn [data size offset]. rewrite take_app_le by lia. done.
    - exists buf. split_ands; done || lia. }
  destruct Hg as (b & -> & Hb & Hob & Hw & Hfit' & Hsz). cbn [mbind option_bind].
  unfold memcpy_at at 1. destruct (Z.leb_spec 0 (offset b)); [|lia]. cbn [andb].
  destruct (Z.leb_spec (offset b + Z.of_nat (length src)) (Z.of_nat (length (data b)))) as [Hle|]; [|lia].
  set (d := take _ (data b) ++ _).
  assert (Hd : memcpy_at (data b) src (offset b) = Some d).
  { unfold memcpy_at. by rewrite (proj2 (Z.leb_le 0 (offset b))), (proj2 (Z.leb_le _ _) Hle) by lia. }
  apply memcpy_at_spec in Hd as [Hlen Htake].
  cbn [mbind option_bind]. unfold prints_next_4. cbn [data size offset].
  destruct (Z.leb_spec 0 (offset b)); [|lia]. destruct (Z.leb_spec (offset b + 4) (Z.of_nat (length d))); [|lia].
  cbn [andb negb]. eexists. split; [done|]. split; [split; cbn [data size offset]; lia|].
  split; [|done]. unfold written in *. cbn [data size offset]. by rewrite Htake, Hw.
Qed.

(** Emitting a list of messages, and extracting them from a copy that starts at
    the first byte, as the receiving handler does. *)
Fixpoint emit_all (buf : buf_t) (ms : list (list Z)) (fresh : nat -> Z) : option buf_t :=
  match ms with
  | [] => Some buf
  | m :: ms' => buf' ← __rt_buf_emit buf m fresh; emit_all buf' ms' fresh
  end.

Fixpoint extract_all (buf : buf_t) (ns : list Z) : option (list (list Z)) :=
  match ns with
  | [] => Some []
  | n :: ns' =>
      r ← __rt_buf_extract buf n;
      rest ← extract_all (snd r) ns';
      Some (take (Z.to_nat n) (fst r) :: rest)
  end.

Definition rewind (buf : buf_t) : buf_t := Buf (data buf) (size buf) 0.

(** A message that generated code emits: a header of 4 to 1024 bytes. *)
Definition message_ok (m : list Z) : Prop := (4 <= length m <= 1024)%nat.

(** The buffer grew only when it had to. *)
Definition size_ok (buf : buf_t) : Prop := size buf = 1024 \/ 1024 < size buf < 2 * offset buf.

Lemma emit_all_spec ms buf fresh : buf_ok buf -> size_ok buf -> Forall message_ok ms ->
  offset buf + Z.of_nat (length (concat ms)) < 2 ^ 29 ->
  exists buf', emit_all buf ms fresh = Some buf' /\ buf_ok buf' /\
    written buf' = written buf ++ concat ms.
Proof.
  intros Hok Hsz Hms. revert buf Hok Hsz.
  induction Hms as [|m ms Hm Hms IH]; intros buf Hok Hsz Ho.
  { exists buf. cbn. by rewrite app_nil_r. }
  cbn [emit_all concat] in *. rewrite length_app in Ho. unfold message_ok in Hm.
  destruct Hok as [Hlen Hoff]. unfold size_ok in Hsz.
  destruct (emit_spec buf m fresh) as (b & -> & Hok' & Hw & Hb); try done; try lia.
  assert (Hob : offset b = offset buf + Z.of_nat (length m)).
  { pose proof (f_equal length Hw) as E. rewrite length_app in E. unfold written in E.
    rewrite !length_take in E. destruct Hok' as [? ?]. lia. }
  cbn [mbind option_bind].
  destruct (IH b Hok') as (b' & E & Hok'' & Hw').
  { unfold size_ok. destruct (Z.ltb_spec (size buf) (offset buf + Z.of_nat (length m))); lia. }
  { lia. }
  exists b'. split; [done|]. split; [done|]. by rewrite Hw', Hw, app_assoc.
Qed.

Lemma extract_all_spec ms d s off rest : 0 <= off ->
  drop (Z.to_nat off) d = concat ms ++ rest -> Forall message_ok ms ->
  extract_all (Buf d s off) (map (fun m => Z.of_nat (length m)) ms) = Some ms.
Proof.
  intros Hoff Hd Hms. revert off Hoff Hd. induction Hms as [|m ms Hm Hms IH]; intros off Hoff Hd; [done|].
  unfold message_ok in Hm. cbn [map extract_all concat] in *. unfold __rt_buf_extract, prints_next_4. cbn [data size offset].
  pose proof (f_equal length Hd) as E. rewrite length_drop, !length_app in E.
  destruct (Z.leb_spec 0 off); [|lia].
  destruct (Z.leb_spec (off + 4) (Z.of_nat (length d))); [|lia]. cbn [andb negb mbind option_bind fst snd].
  rewrite IH; [|lia|].
  - cbn [mbind option_bind]. rewrite Nat2Z.id, Hd, <- app_assoc, take_app_length. done.
  - replace (Z.to_nat (off + Z.of_nat (length m))) with (Z.to_nat off + length m)%nat by lia.
    rewrite <- drop_drop, Hd, <- app_assoc. apply drop_app_length.
Qed.

(** C40: Messages of 4 to 1024 bytes each, less than 2^29 bytes in all, that are
    emitted one after the other into a fresh host buffer, which grows by doubling,
    are extracted again in order after rewinding it. *)
Theorem emit_extract_roundtrip ms fresh :
  Forall message_ok ms -> Z.of_nat (length (concat ms)) < 2 ^ 29 ->
  exists buf, emit_all (__rt_buf_init fresh) ms fresh = Some buf /\ buf_ok buf /\
    written buf = concat ms /\
    extract_all (rewind buf) (map (fun m => Z.of_nat (length m)) ms) = Some ms.
Proof.
  intros Hms Hc. destruct (init_ok fresh) as [Hok Hw].
  destruct (emit_all_spec ms (__rt_buf_init fresh) fresh Hok) as (b & E & Hb & Hwb);
    [by left|done|cbn [__rt_buf_init offset]; lia|].
  rewrite Hw, app_nil_l in Hwb. exists b. split_ands; try done.
  apply (extract_all_spec ms (data b) (size b) 0 (drop (Z.to_nat (offset b)) (data b))); [lia| |done].
  cbn. rewrite drop_0. unfold written in Hwb. by rewrite <- Hwb, take_drop.
Qed.

Lemma emit_extract_roundtrip_witness :
  exists buf, emit_all (__rt_buf_init (fun _ => 0)) [[1; 2; 3; 4]; replicate 1024 7] (fun _ => 0) = Some buf /\
    written buf = [1; 2; 3; 4] ++ replicate 1024 7.
Proof.
  destruct (emit_extract_roundtrip [[1; 2; 3; 4]; replicate 1024 7] (fun _ => 0)) as (b & E & _ & H & _).
  - repeat constructor; apply Nat.leb_le; reflexivity.
  - reflexivity.
  - exists b. split; [exact E|exact H].
Defined.

(** The fixed doubling: a message longer than twice the buffer is written past the
    end of the allocation. *)
Lemma emit_overflow buf src fresh : buf_ok buf -> size buf < 2 ^ 30 ->
  2 * size buf < offset buf + Z.of_nat (length src) -> __rt_buf_emit buf src fresh = None.
Proof.
  intros [Hs Ho] Hmax Hn. unfold __rt_buf_emit, grow.
  destruct (Z.ltb_spec (size buf) (offset buf + Z.of_nat (length src))); [|lia].
  destruct (Z.ltb_spec (size buf * 2) (2 ^ 31)); [|lia]. cbn [mbind option_bind data size offset].
  unfold memcpy_at. rewrite length_app, length_fresh.
  destruct (Z.leb_spec 0 (offset buf)); [|done]. cbn [andb].
  destruct (Z.leb_spec (offset buf + Z.of_nat (length src)) (Z.of_nat (length (data buf) + Z.to_nat (size buf)))); [lia|done].
Qed.

(** The position after a concatenation advances by the other buffer's position and
    not by the bytes copied. *)
Lemma concat_position buf other fresh buf' :
  __rt_buf_concat buf other fresh = Some buf' -> offset buf' = offset buf + offset other.
Proof.
  unfold __rt_buf_concat, grow.
  destruct (size buf <? _); [destruct (_ <? 2 ^ 31); [|done]|]; cbn [mbind option_bind data size offset];
    destruct (memcpy_at _ _ _); cbn [mbind option_bind]; [|done| |done]; by intros [= <-].
Qed.

(** So the message after a concatenation overwrites what was copied. *)
Example concat_then_emit :
  let a := Buf [1; 2; 3; 4; 0; 0; 0; 0; 0; 0; 0; 0; 0; 0; 0; 0] 16 4 in
  let b := Buf [5; 6; 7; 8] 4 0 in
  (buf ← __rt_buf_concat a b (fun _ => 0); r ← __rt_buf_emit buf [9; 9; 9; 9] (fun _ => 0); Some (written r)) =
  Some [1; 2; 3; 4; 9; 9; 9; 9].
Proof. reflexivity. Qed.

(** A table has one entry, whatever the key. *)
Lemma table_one_entry t k k' value t' :
  __rt_table_update t k value = Some t' ->
  __rt_table_lookup t' k' = Some (take (Z.to_nat (vsize t)) value) /\ vsize t' = vsize t.
Proof.
  unfold __rt_table_update, __rt_table_lookup.
  destruct (Z.of_nat (length value) <? vsize t); [done|].
  destruct (prints_two_ints (Table (vsize t) (take (Z.to_nat (vsize t)) value))) eqn:E; [|done].
  intros [= <-]. by rewrite E.
Qed.

End Runtime.
