(* ===== verification/Lexer.v ===== *)
(** include/ep2/lang/Lexer.h: the lexer of the ep2 language, its one-token queue
    for peeking, and the numbers it reads. *)
From Stdlib Require Import ZArith Lia List String Ascii.
From stdpp Require Import base list numbers option strings.
From S2P Require Import Prelude.
#[local] Open Scope string_scope.
#[local] Open Scope Z_scope.
#[local] Arguments String.append !_ _ : simpl nomatch.

(** How a run of the front end can stop short: [assert], an operation C++ leaves
    undefined, and the loop bound of the model. *)
Inductive stop := AssertFails | Undefined | OutOfFuel.
#[export] Instance stop_eq_dec : EqDecision stop.
Proof. solve_decision. Defined.

Inductive result (A : Type) := Ok (a : A) | Err (x : stop).
Arguments Ok {A} _.
Arguments Err {A} _.

Definition rbind {A B} (r : result A) (f : A -> result B) : result B :=
  match r with Ok a => f a | Err x => Err x end.
Notation "'let?' x ':=' a 'in' b" := (rbind a (fun x => b))
  (at level 10, x pattern, a at level 100, b at level 200).

Module Lexer.

(** ** Tokens (enum Token): an int, a character standing for itself *)

Definition tok_semicolon := 59.
Definition tok_parenthese_open := 40.
Definition tok_parenthese_close := 41.
Definition tok_bracket_open := 123.
Definition tok_bracket_close := 125.
Definition tok_angle_bracket_open := 60.
Definition tok_angle_bracket_close := 62.
Definition tok_sbracket_open := 91.
Definition tok_sbracket_close := 93.
Definition tok_colon := 58.
Definition tok_dot := 46.
Definition tok_eq := 61.
Definition tok_eof := -1.
Definition tok_return := -2.
Definition tok_var := -3.
Definition tok_def := -4.
Definition tok_struct := -5.
Definition tok_event := -6.
Definition tok_handler := -7.
Definition tok_controller := -8.
Definition tok_generate := -9.
Definition tok_extern := -10.
Definition tok_global := -11.
Definition tok_scope := -12.
Definition tok_if := -13.
Definition tok_else := -14.
Definition tok_cmp_eq := -40.
Definition tok_cmp_le := -41.
Definition tok_cmp_ge := -42.
Definition tok_identifier := -56.
Definition tok_number := -57.

(** [Token(',')], [Token('star')], ... *)
Definition tok_comma := 44.
Definition tok_star := 42.
Definition tok_plus := 43.
Definition tok_minus := 45.
Definition tok_slash := 47.
Definition EOF := -1.

(** ** Characters *)

(** A [char], signed on the hosts the compiler runs on, widened to [int], and the
    narrowing back. *)
Definition char_int (c : ascii) : Z :=
  let n := Z.of_N (N_of_ascii c) in if n <? 128 then n else n - 256.
Definition int_char (x : Z) : ascii := ascii_of_N (Z.to_N (x mod 256)).

(** <ctype.h> in the C locale: defined on EOF and on [unsigned char] values. *)
Definition ctype (p : Z -> bool) (x : Z) : result bool :=
  if (-1 <=? x) && (x <=? 255) then Ok (p x) else Err Undefined.
Definition is_space (x : Z) : bool := (x =? 32) || ((9 <=? x) && (x <=? 13)).
Definition is_digit (x : Z) : bool := (48 <=? x) && (x <=? 57).
Definition is_alpha (x : Z) : bool :=
  ((65 <=? x) && (x <=? 90)) || ((97 <=? x) && (x <=? 122)).
Definition is_alnum (x : Z) : bool := is_alpha x || is_digit x.

(** ** Numbers *)

(** A finite [double], [dm * 2 ^ de]. *)
Record double := Double { dm : Z; de : Z }.

(** The nearest [double] to [n / d], ties to even: 53 bits of mantissa, and
    exponents down to -1074. *)
Definition scale (n d e : Z) : Z * Z :=
  if 0 <=? e then (n, d * 2 ^ e) else (n * 2 ^ (- e), d).
Definition round_even (nd : Z * Z) : Z :=
  let q := fst nd / snd nd in
  let r := fst nd mod snd nd in
  if 2 * r <? snd nd then q
  else if snd nd <? 2 * r then q + 1
  else if Z.even q then q else q + 1.
Definition round_ratio (n d : Z) : double :=
  let e := Z.log2 n - Z.log2 d - 52 in
  let e := if fst (scale n d e) / snd (scale n d e) <? 2 ^ 52 then e - 1 else e in
  let e := Z.max e (-1074) in
  Double (round_even (scale n d e)) e.

Definition digit_val (c : ascii) : Z := char_int c - 48.

(** The digits at the front of a string: their value after [acc], how many, and
    what follows. *)
Fixpoint digits (acc : Z) (s : string) : Z * nat * string :=
  match s with
  | String c s' =>
      if is_digit (char_int c) then
        let '(v, n, r) := digits (10 * acc + digit_val c) s' in (v, S n, r)
      else (acc, O, s)
  | EmptyString => (acc, O, "")
  end.

(** [strtod] on the strings the lexer gives it: digits, then digits after a point. *)
Definition strtod (s : string) : double :=
  let '(v, _, r) := digits 0 s in
  match r with
  | String c r' =>
      if char_int c =? tok_dot then
        let '(v', n, _) := digits v r' in round_ratio v' (10 ^ Z.of_nat n)
      else round_ratio v 1
  | EmptyString => round_ratio v 1
  end.

(** The conversion of a non-negative [double] to an integer type below [2 ^ w]
    drops the fraction, and is undefined when the value does not fit. *)
Definition truncate (x : double) : Z :=
  if 0 <=? de x then dm x * 2 ^ de x else dm x / 2 ^ (- de x).
Definition double_to (w : Z) (x : double) : result Z :=
  if truncate x <? 2 ^ w then Ok (truncate x) else Err Undefined.

(** ** The state of the lexer (class Lexer, class LexerBuffer) *)

(** struct Location, without the name of the file *)
Record Location := Loc { line : Z; col : Z }.

Record Lexer := MkLexer {
  tokens : list (Z * string);
  curTok : Z;
  lastLocation : Location;
  identifierStr : string;
  numVal : double;
  lastChar : Z;
  curLineNum : Z;
  curCol : Z;
  curLineBuffer : string;
  current : string }.      (* the text from [current] to the terminating NUL *)

(** [LexerBuffer(begin, end, filename)] on the text between the pointers. *)
Definition LexerBuffer (text : string) : Lexer :=
  MkLexer [] tok_eof (Loc 0 0) "" (Double 0 0) 32 0 0 (String (int_char 10) "") text.

(** The line up to and including its newline; a NUL ends the text for good. *)
Fixpoint readNextLine (cur : string) : string * string :=
  match cur with
  | EmptyString => ("", "")
  | String c s =>
      if char_int c =? 0 then ("", cur)
      else if char_int c =? 10 then (String c "", s)
      else let '(l, r) := readNextLine s in (String c l, r)
  end.

(** [lastChar = Token(getNextChar())] *)
Definition getNextChar (l : Lexer) : Lexer :=
  match curLineBuffer l with
  | EmptyString =>
      MkLexer (tokens l) (curTok l) (lastLocation l) (identifierStr l) (numVal l) EOF
        (curLineNum l) (curCol l) "" (current l)
  | String c buf =>
      let '(buf', cur') :=
        match buf with
        | EmptyString => readNextLine (current l)
        | _ => (buf, current l)
        end in
      let nl := char_int c =? 10 in
      MkLexer (tokens l) (curTok l) (lastLocation l) (identifierStr l) (numVal l) (char_int c)
        (if nl then curLineNum l + 1 else curLineNum l)
        (if nl then 0 else curCol l + 1) buf' cur'
  end.

(** Assignments to single fields. *)
Definition set_tokens (q : list (Z * string)) (l : Lexer) : Lexer :=
  MkLexer q (curTok l) (lastLocation l) (identifierStr l) (numVal l) (lastChar l)
    (curLineNum l) (curCol l) (curLineBuffer l) (current l).
Definition set_curTok (t : Z) (l : Lexer) : Lexer :=
  MkLexer (tokens l) t (lastLocation l) (identifierStr l) (numVal l) (lastChar l)
    (curLineNum l) (curCol l) (curLineBuffer l) (current l).
Definition set_identifierStr (s : string) (l : Lexer) : Lexer :=
  MkLexer (tokens l) (curTok l) (lastLocation l) s (numVal l) (lastChar l)
    (curLineNum l) (curCol l) (curLineBuffer l) (current l).
Definition set_numVal (v : double) (l : Lexer) : Lexer :=
  MkLexer (tokens l) (curTok l) (lastLocation l) (identifierStr l) v (lastChar l)
    (curLineNum l) (curCol l) (curLineBuffer l) (current l).
Definition save_location (l : Lexer) : Lexer :=
  MkLexer (tokens l) (curTok l) (Loc (curLineNum l) (curCol l)) (identifierStr l) (numVal l)
    (lastChar l) (curLineNum l) (curCol l) (curLineBuffer l) (current l).

(** ** Reading one token *)

(** [while (isspace(lastChar)) lastChar = Token(getNextChar());] *)
Fixpoint skip_space (fuel : nat) (l : Lexer) : result Lexer :=
  match fuel with
  | O => Err OutOfFuel
  | S fuel' =>
      let? sp := ctype is_space (lastChar l) in
      if sp then skip_space fuel' (getNextChar l) else Ok l
  end.

(** [while (isalnum((lastChar = Token(getNextChar()))) || lastChar == '_')
      identifierStr += (char)lastChar;] *)
Fixpoint read_identifier (fuel : nat) (l : Lexer) : result Lexer :=
  match fuel with
  | O => Err OutOfFuel
  | S fuel' =>
      let l := getNextChar l in
      let? an := ctype is_alnum (lastChar l) in
      if an || (lastChar l =? 95) then
        read_identifier fuel'
          (set_identifierStr (identifierStr l +:+ String (int_char (lastChar l)) "") l)
      else Ok l
  end.

(** [do { numStr += lastChar; lastChar = ...; } while (isdigit(lastChar) || lastChar == '.');] *)
Fixpoint read_number (fuel : nat) (numStr : string) (l : Lexer) : result (string * Lexer) :=
  match fuel with
  | O => Err OutOfFuel
  | S fuel' =>
      let numStr := numStr +:+ String (int_char (lastChar l)) "" in
      let l := getNextChar l in
      let? d := ctype is_digit (lastChar l) in
      if d || (lastChar l =? tok_dot) then read_number fuel' numStr l else Ok (numStr, l)
  end.

(** [do { ... } while (lastChar != EOF && lastChar != newline && lastChar != return)] *)
Fixpoint skip_comment (fuel : nat) (l : Lexer) : result Lexer :=
  match fuel with
  | O => Err OutOfFuel
  | S fuel' =>
      let l := getNextChar l in
      if negb (lastChar l =? EOF) && negb (lastChar l =? 10) && negb (lastChar l =? 13)
      then skip_comment fuel' l else Ok l
  end.

Definition keyword (s : string) : Z :=
  if bool_decide (s = "return") then tok_return
  else if bool_decide (s = "def") then tok_def
  else if bool_decide (s = "struct") then tok_struct
  else if bool_decide (s = "var") then tok_var
  else if bool_decide (s = "event") then tok_event
  else if bool_decide (s = "handler") then tok_handler
  else if bool_decide (s = "controller") then tok_controller
  else if bool_decide (s = "generate") then tok_generate
  else if bool_decide (s = "extern") then tok_extern
  else if bool_decide (s = "global") then tok_global
  else if bool_decide (s = "scope") then tok_scope
  else if bool_decide (s = "if") then tok_if
  else if bool_decide (s = "else") then tok_else
  else tok_identifier.

(** The operators that may be followed by [=], and their tokens when they are. *)
Definition cmp_token (c : Z) : Z :=
  if c =? 61 then tok_cmp_eq else if c =? 60 then tok_cmp_le else tok_cmp_ge.

(** A comment is followed by a new call, [getTok(false)]; the queue is empty here. *)
Fixpoint getTokInput (fuel : nat) (l : Lexer) : result (Z * Lexer) :=
  match fuel with
  | O => Err OutOfFuel
  | S fuel' =>
      let? l := skip_space fuel l in
      let l := save_location l in
      let? al := ctype is_alpha (lastChar l) in
      if al then
        let? l := read_identifier fuel (set_identifierStr (String (int_char (lastChar l)) "") l) in
        Ok (keyword (identifierStr l), l)
      else
      let? dg := ctype is_digit (lastChar l) in
      if dg then
        let? (numStr, l) := read_number fuel "" l in
        Ok (tok_number, set_numVal (strtod numStr) l)
      else
      if lastChar l =? 35 then
        let? l := skip_comment fuel l in
        if negb (lastChar l =? EOF) then getTokInput fuel' l else Ok (tok_eof, l)
      else if lastChar l =? EOF then Ok (tok_eof, l)
      else if (lastChar l =? 61) || (lastChar l =? 60) || (lastChar l =? 62) then
        let c := lastChar l in
        let l := getNextChar l in
        if negb (lastChar l =? 61) then Ok (c, l) else Ok (cmp_token c, getNextChar l)
      else Ok (lastChar l, getNextChar l)
  end.

(** What is left to read; every loop reads a character per round. *)
Definition left_over (l : Lexer) : nat :=
  if lastChar l =? EOF then 0
  else S (String.length (curLineBuffer l) + String.length (current l)).

(** [Token getTok(bool peek)] *)
Definition getTok (peek : bool) (l : Lexer) : result (Z * Lexer) :=
  match tokens l with
  | [] =>
      let str := identifierStr l in
      let? (tok, l) := getTokInput (S (left_over l)) l in
      Ok (tok, if peek then set_tokens (tokens l ++ [(tok, str)]) l else l)
  | (tok, _) :: q => Ok (tok, if peek then l else set_tokens q l)
  end.

Definition getCurToken (l : Lexer) : Z := curTok l.
Definition getNextToken (l : Lexer) : result (Z * Lexer) :=
  let? (tok, l) := getTok false l in
  Ok (tok, set_curTok tok l).
Definition peekNextToken (l : Lexer) : result (Z * Lexer) := getTok true l.

Definition consume (tok : Z) (l : Lexer) : result Lexer :=
  if tok =? curTok l then let? (_, l) := getNextToken l in Ok l else Err AssertFails.

Definition getIdentiferStr (l : Lexer) : string :=
  match tokens l with
  | [] => identifierStr l
  | (_, s) :: _ => s
  end.

Definition getId (l : Lexer) : result string :=
  if curTok l =? tok_identifier then Ok (getIdentiferStr l) else Err AssertFails.
Definition getValue (l : Lexer) : result double :=
  if curTok l =? tok_number then Ok (numVal l) else Err AssertFails.
Definition getLastLocation (l : Lexer) : Location := lastLocation l.

(** What the parser takes from a token. *)
Inductive lexeme := LToken (t : Z) | LId (s : string) | LNum (v : double).
Definition current_lexeme (l : Lexer) : lexeme :=
  if curTok l =? tok_identifier then LId (getIdentiferStr l)
  else if curTok l =? tok_number then LNum (numVal l)
  else LToken (curTok l).

(** [while (lexer.getNextToken() != tok_eof)]: everything the lexer delivers. *)
Fixpoint all_tokens (fuel : nat) (l : Lexer) : result (list lexeme) :=
  match fuel with
  | O => Err OutOfFuel
  | S fuel' =>
      let? (t, l) := getNextToken l in
      if t =? tok_eof then Ok []
      else let? ts := all_tokens fuel' l in Ok (current_lexeme l :: ts)
  end.

(** ** The tokens of a text, as a function of the text alone *)

Inductive tok :=
  | TWord (w : string)     (* a keyword or an identifier *)
  | TNum (n : string)
  | TSym (c : Z).          (* a character, or a comparison operator *)
#[export] Instance tok_eq_dec : EqDecision tok.
Proof. solve_decision. Defined.

Definition code (t : tok) : Z :=
  match t with TWord w => keyword w | TNum _ => tok_number | TSym c => c end.

(** Printable ASCII and the control characters except NUL. *)
Definition plain_char (c : ascii) : bool := (0 <? char_int c).
Fixpoint string_all (p : ascii -> bool) (s : string) : bool :=
  match s with EmptyString => true | String c s' => p c && string_all p s' end.
Definition plain : string -> bool := string_all plain_char.

(** The longest prefix of characters in [p], and the rest. *)
Fixpoint span (p : Z -> bool) (s : string) : string * string :=
  match s with
  | String c s' =>
      if p (char_int c) then let '(a, b) := span p s' in (String c a, b) else ("", s)
  | EmptyString => ("", "")
  end.
Definition word_char (x : Z) : bool := is_alnum x || (x =? 95).
Definition num_char (x : Z) : bool := is_digit x || (x =? tok_dot).

(** White space and comments, which run from [#] to the end of the line. *)
Fixpoint skip (comment : bool) (s : string) : string :=
  match s with
  | EmptyString => ""
  | String c s' =>
      if comment then skip (negb ((char_int c =? 10) || (char_int c =? 13))) s'
      else if is_space (char_int c) then skip false s'
      else if char_int c =? 35 then skip true s'
      else s
  end.

(** The token at the front of a text that starts with one. *)
Definition munch (c : ascii) (s : string) : tok * string :=
  let x := char_int c in
  if is_alpha x then let '(w, r) := span word_char s in (TWord (String c w), r)
  else if is_digit x then let '(n, r) := span num_char s in (TNum (String c n), r)
  else if (x =? 61) || (x =? 60) || (x =? 62) then
    match s with
    | String d r => if char_int d =? 61 then (TSym (cmp_token x), r) else (TSym x, s)
    | EmptyString => (TSym x, s)
    end
  else (TSym x, s).

Definition next_token (s : string) : option (tok * string) :=
  match skip false s with
  | EmptyString => None
  | String c s' => Some (munch c s')
  end.

(** ** The lexer computes it *)

(** The characters still to come, the current one first. *)
Definition holds (l : Lexer) (s : string) : Prop :=
  plain s = true /\
  match s with
  | EmptyString => lastChar l = EOF
  | String c s' => lastChar l = char_int c /\ s' = curLineBuffer l +:+ current l /\
      (curLineBuffer l = "" -> current l = "")
  end.

(** Reading characters changes none of these. *)
Definition frame (l l' : Lexer) : Prop :=
  identifierStr l' = identifierStr l /\ numVal l' = numVal l /\
  tokens l' = tokens l /\ curTok l' = curTok l.

Lemma frame_refl l : frame l l.
Proof. done. Qed.
Lemma frame_trans l1 l2 l3 : frame l1 l2 -> frame l2 l3 -> frame l1 l3.
Proof. unfold frame. intuition congruence. Qed.
#[local] Hint Resolve frame_refl frame_trans : core.

Lemma int_char_int c : int_char (char_int c) = c.
Proof. destruct c as [[] [] [] [] [] [] [] []]; reflexivity. Qed.

Lemma char_int_range c : -128 <= char_int c < 128.
Proof. destruct c as [[] [] [] [] [] [] [] []]; vm_compute; split; congruence. Qed.

Lemma char_int_inj c d : char_int c = char_int d -> c = d.
Proof. intros E. by rewrite <- (int_char_int c), E, int_char_int. Qed.

Lemma append_assoc s1 s2 s3 : (s1 +:+ s2) +:+ s3 = s1 +:+ (s2 +:+ s3).
Proof. induction s1 as [|c s1 IH]; cbn; [done|]. by rewrite IH. Qed.

Lemma append_nil_r s : s +:+ "" = s.
Proof. induction s as [|c s IH]; cbn; [done|]. by rewrite IH. Qed.

Lemma length_append s1 s2 : String.length (s1 +:+ s2) = (String.length s1 + String.length s2)%nat.
Proof. induction s1 as [|c s1 IH]; cbn; [done|]. by rewrite IH. Qed.

Lemma string_all_app p s1 s2 : string_all p (s1 +:+ s2) = string_all p s1 && string_all p s2.
Proof. induction s1 as [|c s1 IH]; cbn; [done|]. by rewrite IH, andb_assoc. Qed.

Lemma plain_cons c s : plain (String c s) = true <-> 0 < char_int c /\ plain s = true.
Proof.
  unfold plain at 1. cbn. rewrite andb_true_iff. unfold plain_char. by rewrite Z.ltb_lt.
Qed.

Lemma readNextLine_app s : plain s = true ->
  fst (readNextLine s) +:+ snd (readNextLine s) = s /\
  (fst (readNextLine s) = "" -> s = "").
Proof.
  induction s as [|c s IH]; cbn; [done|]. intros [Hc Hs]%plain_cons.
  destruct (Z.eqb_spec (char_int c) 0); [lia|].
  destruct (Z.eqb_spec (char_int c) 10); [by cbn|].
  destruct (IH Hs) as [Ha _]. destruct (readNextLine s) as [a b]. cbn in *. by rewrite Ha.
Qed.

Lemma getNextChar_holds l c s : holds l (String c s) ->
  holds (getNextChar l) s /\ frame l (getNextChar l).
Proof.
  intros ([Hc Hs]%plain_cons & _ & -> & Hb). unfold getNextChar.
  destruct (curLineBuffer l) as [|d buf] eqn:Eb; cbn.
  - rewrite (Hb eq_refl). by split.
  - destruct buf as [|e buf]; cbn in Hs |- *.
    + apply plain_cons in Hs as [Hd Hs]. destruct (readNextLine_app _ Hs) as [Ha Hn].
      destruct (readNextLine (current l)) as [b r]. cbn in *. split; [|done].
      split; [by apply plain_cons|]. cbn. split; [done|]. split; [done|]. intros ->.
      by rewrite (Hn eq_refl) in Ha.
    + split; [|done]. split; [done|]. cbn. by split_ands.
Qed.

Lemma left_over_holds l s : holds l s -> left_over l = String.length s.
Proof.
  unfold left_over. destruct s as [|c s]; intros [Hp Hl].
  - by rewrite Hl.
  - destruct Hl as (Hl & -> & _). apply plain_cons in Hp as [Hc _]. rewrite Hl.
    destruct (Z.eqb_spec (char_int c) EOF); [unfold EOF in *; lia|]. cbn. by rewrite length_append.
Qed.

Lemma holds_char l s : holds l s -> 0 < lastChar l < 128 \/ lastChar l = -1.
Proof.
  intros [Hp Hl]. destruct s as [|c s]; [by right|]. left. destruct Hl as (-> & _).
  apply plain_cons in Hp as [Hc _]. pose proof (char_int_range c). lia.
Qed.

Lemma ctype_ok p l s : holds l s -> ctype p (lastChar l) = Ok (p (lastChar l)).
Proof.
  intros Hl%holds_char. unfold ctype.
  destruct (Z.leb_spec (-1) (lastChar l)), (Z.leb_spec (lastChar l) 255); try lia. done.
Qed.

Lemma ctype_plain p x : -1 <= x < 128 -> ctype p x = Ok (p x).
Proof.
  intros Hx. unfold ctype. destruct (Z.leb_spec (-1) x), (Z.leb_spec x 255); try lia. done.
Qed.

Lemma holds_frame l l' s : lastChar l' = lastChar l -> curLineBuffer l' = curLineBuffer l ->
  current l' = current l -> holds l s -> holds l' s.
Proof. unfold holds. intros -> -> ->. done. Qed.

Lemma skip_space_spec fuel l s : holds l s -> (String.length s < fuel)%nat ->
  exists l', skip_space fuel l = Ok l' /\ holds l' (snd (span is_space s)) /\ frame l l'.
Proof.
  revert l s. induction fuel as [|fuel IH]; intros l s Hl Hf; [lia|].
  cbn [skip_space]. rewrite (ctype_ok _ _ _ Hl). cbn [rbind].
  destruct s as [|c s]; cbn [span].
  - pose proof Hl as [_ ->]. cbn. by exists l.
  - destruct (getNextChar_holds _ _ _ Hl) as [Hn Hfr]. destruct Hl as (Hp & Hc & Hl). rewrite Hc.
    destruct (is_space (char_int c)); [|by exists l].
    destruct (IH _ _ Hn) as (l' & E & Hs & Hfr'); [cbn in Hf; lia|].
    exists l'. destruct (span is_space s). split_ands; eauto.
Qed.

Lemma read_identifier_spec fuel l c s : holds l (String c s) -> (String.length s < fuel)%nat ->
  exists l', read_identifier fuel l = Ok l' /\ holds l' (snd (span word_char s)) /\
    identifierStr l' = identifierStr l +:+ fst (span word_char s) /\
    numVal l' = numVal l /\ tokens l' = tokens l /\ curTok l' = curTok l.
Proof.
  revert l c s. induction fuel as [|fuel IH]; intros l c s Hl Hf; [lia|].
  destruct (getNextChar_holds _ _ _ Hl) as [Hn (Hi & Hv & Ht & Hk)]. clear Hl.
  cbn [read_identifier]. rewrite (ctype_ok _ _ _ Hn). cbn [rbind].
  destruct s as [|d s]; cbn [span].
  - pose proof Hn as [_ ->]. exists (getNextChar l). rewrite append_nil_r. by split_ands.
  - pose proof Hn as (_ & -> & _). fold (word_char (char_int d)).
    destruct (word_char (char_int d)) eqn:Ew.
    + edestruct (IH (set_identifierStr (identifierStr (getNextChar l) +:+
        String (int_char (char_int d)) "") (getNextChar l)) d s) as (l' & E & Hs & Hi' & Hv' & Ht' & Hk');
        [by eapply holds_frame|cbn in Hf; lia|].
      exists l'. destruct (span word_char s) as [a b]. cbn in *. split_ands; try congruence.
      rewrite Hi', Hi, int_char_int, append_assoc. done.
    + exists (getNextChar l). cbn. rewrite append_nil_r. by split_ands.
Qed.

Lemma read_number_spec fuel str l c s : holds l (String c s) -> (String.length s < fuel)%nat ->
  exists l', read_number fuel str l = Ok (str +:+ String c (fst (span num_char s)), l') /\
    holds l' (snd (span num_char s)) /\ frame l l'.
Proof.
  revert str l c s. induction fuel as [|fuel IH]; intros str l c s Hl Hf; [lia|].
  destruct (getNextChar_holds _ _ _ Hl) as [Hn Hfr]. destruct Hl as (_ & Hc & _).
  cbn [read_number]. rewrite (ctype_ok _ _ _ Hn), Hc, int_char_int. cbn [rbind].
  destruct s as [|d s]; cbn [span].
  - pose proof Hn as [_ ->]. exists (getNextChar l). by split_ands.
  - pose proof Hn as (_ & -> & _). fold (num_char (char_int d)).
    destruct (num_char (char_int d)) eqn:Ew; [|by exists (getNextChar l)].
    destruct (IH (str +:+ String c "") (getNextChar l) d s Hn) as (l' & E & Hs & Hf'); [cbn in Hf; lia|].
    exists l'. destruct (span num_char s) as [a b]. cbn in *. rewrite E, append_assoc. cbn.
    split_ands; eauto.
Qed.

(** The rest of a line from inside a comment. *)
Fixpoint drop_line (s : string) : string :=
  match s with
  | EmptyString => ""
  | String c s' => if (char_int c =? 10) || (char_int c =? 13) then s else drop_line s'
  end.

Lemma skip_comment_spec fuel l c s : holds l (String c s) -> (String.length s < fuel)%nat ->
  exists l', skip_comment fuel l = Ok l' /\ holds l' (drop_line s) /\ frame l l'.
Proof.
  revert l c s. induction fuel as [|fuel IH]; intros l c s Hl Hf; [lia|].
  destruct (getNextChar_holds _ _ _ Hl) as [Hn Hfr]. clear Hl. cbn [skip_comment].
  pose proof (holds_char _ _ Hn) as Hr.
  destruct s as [|d s]; cbn [drop_line].
  - pose proof Hn as [_ ->]. by exists (getNextChar l).
  - pose proof Hn as (Hp & -> & _). apply plain_cons in Hp as [Hd _].
    destruct (Z.eqb_spec (char_int d) EOF); [unfold EOF in *; lia|]. cbn [negb andb].
    destruct ((char_int d =? 10) || (char_int d =? 13)) eqn:E10.
    + exists (getNextChar l). split_ands; try done.
      rewrite <- negb_orb, E10. done.
    + rewrite <- negb_orb, E10. cbn [negb].
      destruct (IH _ _ _ Hn) as (l' & E & Hs & Hf'); [cbn in Hf; lia|]. eauto 6.
Qed.

Lemma skip_false s : skip false s =
  match snd (span is_space s) with
  | EmptyString => ""
  | String c s' => if char_int c =? 35 then skip true s' else String c s'
  end.
Proof.
  induction s as [|c s IH]; cbn; [done|]. destruct (is_space (char_int c)); [|done].
  rewrite IH. by destruct (span is_space s).
Qed.

Lemma skip_true s : skip true s = skip false (drop_line s).
Proof.
  induction s as [|c s IH]; cbn; [done|].
  destruct ((char_int c =? 10) || (char_int c =? 13)) eqn:E; cbn.
  - replace (is_space (char_int c)) with true; [done|]. symmetry. unfold is_space.
    apply orb_true_iff in E as [->%Z.eqb_eq| ->%Z.eqb_eq]; done.
  - apply IH.
Qed.

Lemma length_span p s : (String.length (snd (span p s)) <= String.length s)%nat.
Proof.
  induction s as [|c s IH]; cbn; [done|]. destruct (p (char_int c)); [|done].
  destruct (span p s). cbn in *. lia.
Qed.

Lemma length_drop_line s : (String.length (drop_line s) <= String.length s)%nat.
Proof. induction s as [|c s IH]; cbn; [done|]. destruct (_ || _); cbn; lia. Qed.

(** What reading the token [t] leaves in the fields. *)
Definition payload (t : option tok) (l l' : Lexer) : Prop :=
  identifierStr l' = match t with Some (TWord w) => w | _ => identifierStr l end /\
  numVal l' = match t with Some (TNum n) => strtod n | _ => numVal l end /\
  tokens l' = tokens l /\ curTok l' = curTok l.

Lemma payload_frame t l1 l2 l3 : frame l1 l2 -> payload t l2 l3 -> payload t l1 l3.
Proof.
  unfold frame, payload. intros (E1 & E2 & E3 & E4). rewrite E1, E2, E3, E4. done.
Qed.

#[local] Arguments save_location : simpl never.

Lemma munch_spec fuel l c s : holds l (String c s) -> (String.length s < fuel)%nat ->
  is_space (char_int c) = false -> char_int c <> 35 ->
  exists l', getTokInput (S fuel) l = Ok (code (fst (munch c s)), l') /\
    holds l' (snd (munch c s)) /\ payload (Some (fst (munch c s))) l l'.
Proof.
  intros Hl Hf Hsp Hh. pose proof Hl as (Hp & Hc & _). apply plain_cons in Hp as [Hc0 _].
  assert (Hs : holds (save_location l) (String c s)) by by eapply holds_frame.
  destruct (getNextChar_holds _ _ _ Hs) as [Hn Hfr].
  assert (Hcs : lastChar (save_location l) = char_int c) by done.
  pose proof (char_int_range c) as Hcr. cbn [getTokInput skip_space].
  rewrite Hc, ctype_plain by lia. cbn [rbind]. rewrite Hsp. cbn [rbind].
  rewrite Hcs, ctype_plain by lia. cbn [rbind]. unfold munch.
  destruct (is_alpha (char_int c)).
  { edestruct (read_identifier_spec (S fuel) (set_identifierStr (String (int_char (char_int c)) "")
      (save_location l)) c s) as (l' & -> & Hl' & Hi' & Hv' & Ht' & Hk');
      [by eapply holds_frame|lia|].
    exists l'. destruct (span word_char s) as [a b]. cbn in *. rewrite int_char_int in Hi'. cbn in Hi'.
    rewrite Hi'. by split_ands. }
  rewrite ctype_plain by lia. cbn [rbind]. destruct (is_digit (char_int c)).
  { destruct (read_number_spec (S fuel) "" _ _ _ Hs) as (l' & -> & Hl' & Hi' & Hv' & Ht' & Hk'); [lia|].
    destruct (span num_char s) as [a b]. cbn in *. eexists.
    split; [reflexivity|]. split; [by eapply holds_frame|]. by split_ands. }
  destruct (Z.eqb_spec (char_int c) 35); [done|].
  destruct (Z.eqb_spec (char_int c) EOF); [unfold EOF in *; lia|].
  destruct (((char_int c =? 61) || (char_int c =? 60)) || (char_int c =? 62)).
  2: { eexists. split; [reflexivity|]. split; [done|]. exact Hfr. }
  pose proof (getNextChar_holds (getNextChar (save_location l))) as Hn2.
  destruct s as [|d s].
  - pose proof Hn as [_ ->]. eexists. cbn. split; [reflexivity|]. split; [done|exact Hfr].
  - pose proof Hn as (_ & -> & _). destruct (char_int d =? 61); cbn [negb fst snd].
    + destruct (Hn2 _ _ Hn) as [Hn' Hf']. eexists. split; [reflexivity|]. split; [done|].
      exact (frame_trans _ _ _ Hfr Hf').
    + eexists. split; [reflexivity|]. split; [done|]. exact Hfr.
Qed.

Lemma span_stops p s :
  match snd (span p s) with EmptyString => True | String c _ => p (char_int c) = false end.
Proof.
  induction s as [|c s IH]; cbn; [done|]. destruct (p (char_int c)) eqn:E; [|done].
  by destruct (span p s).
Qed.

Lemma getTokInput_skip fuel l l1 : skip_space (S fuel) l = Ok l1 -> is_space (lastChar l1) = false ->
  getTokInput (S fuel) l = getTokInput (S fuel) l1.
Proof.
  intros E Hs. assert (E1 : skip_space (S fuel) l1 = Ok l1).
  { cbn [skip_space]. revert E. generalize (S fuel). intros n.
    revert l. induction n as [|n IH]; intros l; cbn [skip_space]; [done|].
    unfold ctype. destruct ((-1 <=? lastChar l) && (lastChar l <=? 255)) eqn:Ec; [|done]. cbn [rbind].
    destruct (is_space (lastChar l)) eqn:Ew; [apply IH|].
    intros [= ->]. rewrite Ec. cbn. by rewrite Ew. }
  cbn [getTokInput]. by rewrite E, E1.
Qed.

(** A comment: the lexer starts again at the end of its line. *)
Lemma skip_comment_step fuel l c s : holds l (String c s) -> char_int c = 35 ->
  (String.length s < S fuel)%nat ->
  exists l', holds l' (drop_line s) /\ frame l l' /\
    getTokInput (S fuel) l =
      match drop_line s with EmptyString => Ok (tok_eof, l') | _ => getTokInput fuel l' end.
Proof.
  intros Hl E35 Hf. pose proof Hl as (_ & Hc & _).
  assert (Hs : holds (save_location l) (String c s)) by by eapply holds_frame.
  assert (Hcs : lastChar (save_location l) = 35) by exact (eq_trans Hc E35).
  destruct (skip_comment_spec (S fuel) _ _ _ Hs Hf) as (l' & E & Hl' & Hf').
  exists l'. split; [done|]. split; [exact Hf'|].
  cbn [getTokInput skip_space]. rewrite (ctype_ok _ _ _ Hl), Hc, E35. cbn [rbind].
  change (is_space 35) with false. cbn [rbind].
  rewrite !(ctype_ok _ _ _ Hs), Hcs. cbn -[skip_comment]. rewrite E. cbn [rbind].
  pose proof (holds_char _ _ Hl') as Hr. destruct (drop_line s) as [|d r].
  - by destruct Hl' as [_ ->].
  - destruct Hl' as ([Hd _]%plain_cons & -> & _).
    by destruct (Z.eqb_spec (char_int d) EOF); [unfold EOF in *; lia|].
Qed.

Lemma getTokInput_spec fuel l s : holds l s -> (String.length s < fuel)%nat ->
  exists l',
    getTokInput fuel l = Ok (match next_token s with Some (t, _) => code t | None => tok_eof end, l') /\
    holds l' (match next_token s with Some (_, r) => r | None => "" end) /\
    payload (fst <$> next_token s) l l'.
Proof.
  revert l s. induction fuel as [|fuel IH]; intros l s Hl Hf; [lia|].
  destruct (skip_space_spec (S fuel) l s Hl Hf) as (l1 & E1 & Hl1 & Hf1).
  unfold next_token. rewrite skip_false. pose proof (length_span is_space s) as Hlen.
  pose proof (span_stops is_space s) as Hst.
  destruct (snd (span is_space s)) as [|c s1].
  - pose proof Hl1 as [_ Hc]. exists (save_location l1).
    split; [|split; [by eapply holds_frame|exact Hf1]].
    cbn [getTokInput]. rewrite E1. cbn [rbind].
    assert (Hs : holds (save_location l1) "") by by eapply holds_frame.
    assert (Hcs : lastChar (save_location l1) = EOF) by done.
    by rewrite !(ctype_ok _ _ _ Hs), Hcs.
  - cbn in Hlen. rewrite (getTokInput_skip _ _ _ E1) by (destruct Hl1 as (_ & -> & _); exact Hst).
    destruct (Z.eqb_spec (char_int c) 35) as [E35|E35].
    + destruct (skip_comment_step fuel l1 c s1 Hl1 E35) as (l2 & Hl2 & Hf2 & E2); [lia|].
      rewrite skip_true. pose proof (length_drop_line s1) as Hd.
      destruct (drop_line s1) as [|d s2] eqn:Ed.
      * rewrite E2. exists l2. split; [done|]. split; [done|]. exact (frame_trans _ _ _ Hf1 Hf2).
      * rewrite E2. destruct (IH l2 _ Hl2) as (l' & E & Hs & Hp); [cbn in *; lia|].
        exists l'. split; [exact E|]. split; [exact Hs|]. exact (payload_frame _ _ _ _ (frame_trans _ _ _ Hf1 Hf2) Hp).
    + destruct (munch_spec fuel l1 c s1 Hl1) as (l' & E & Hs & Hp); [lia|done|done|].
      exists l'. rewrite E. destruct (munch c s1) as [t r]. cbn in *.
      split; [done|]. split; [done|]. exact (payload_frame _ _ _ _ Hf1 Hp).
Qed.

(** ** The whole token stream *)

Fixpoint tokenize (fuel : nat) (s : string) : list tok :=
  match fuel with
  | O => []
  | S fuel' => match next_token s with Some (t, r) => t :: tokenize fuel' r | None => [] end
  end.
Definition text_tokens (s : string) : list tok := tokenize (S (String.length s)) s.

Lemma length_skip s : forall comment, (String.length (skip comment s) <= String.length s)%nat.
Proof.
  induction s as [|c s IH]; intros comment; cbn [skip]; [done|].
  destruct comment; [etrans; [apply IH|cbn; lia]|].
  destruct (is_space _); [etrans; [apply IH|cbn; lia]|].
  destruct (_ =? 35); [etrans; [apply IH|cbn; lia]|done].
Qed.

Lemma next_token_length s t r : next_token s = Some (t, r) ->
  (String.length r < String.length s)%nat.
Proof.
  unfold next_token. pose proof (length_skip s false) as H.
  destruct (skip false s) as [|c s']; [done|]. intros [= E]. cbn in H.
  assert (String.length (snd (munch c s')) <= String.length s')%nat; [|rewrite E in *; cbn in *; lia].
  unfold munch. pose proof (length_span word_char s'). pose proof (length_span num_char s').
  destruct (is_alpha _); [by destruct (span word_char s')|].
  destruct (is_digit _); [by destruct (span num_char s')|].
  destruct (_ || _); [|done]. destruct s' as [|d s']; cbn; [done|]. destruct (_ =? 61); cbn; lia.
Qed.

Lemma tokenize_fuel f g s : (String.length s < f)%nat -> (String.length s < g)%nat ->
  tokenize f s = tokenize g s.
Proof.
  revert g s. induction f as [|f IH]; intros [|g] s Hf Hg; try lia. cbn.
  destruct (next_token s) as [[t r]|] eqn:E; [|done].
  apply next_token_length in E. f_equal. apply IH; lia.
Qed.

Lemma text_tokens_eq s : text_tokens s =
  match next_token s with Some (t, r) => t :: text_tokens r | None => [] end.
Proof.
  unfold text_tokens. change (tokenize (S (String.length s)) s) with
    (match next_token s with Some (t, r) => t :: tokenize (String.length s) r | None => [] end).
  destruct (next_token s) as [[t r]|] eqn:E; [|done].
  apply next_token_length in E. f_equal. apply tokenize_fuel; lia.
Qed.

Definition hd_code (ts : list tok) : Z := match ts with t :: _ => code t | [] => tok_eof end.

(** The fields of the last token read hold [t]. *)
Definition read_as (t : option tok) (l : Lexer) : Prop :=
  match t with
  | Some (TWord w) => identifierStr l = w
  | Some (TNum n) => numVal l = strtod n
  | _ => True
  end.

(** The current token and those to come are [ts]: nothing is queued, or the token
    after the current one is, with the current name beside it. *)
Definition sees (l : Lexer) (ts : list tok) : Prop :=
  curTok l = hd_code ts /\
  exists s, holds l s /\
  match tokens l with
  | [] => read_as (head ts) l /\ text_tokens s = tail ts
  | (t, str) :: q => q = [] /\ t = hd_code (tail ts) /\
      match ts with TWord w :: _ => str = w | TNum _ :: _ => False | _ => True end /\
      read_as (head (tail ts)) l /\ text_tokens s = tail (tail ts)
  end.

Lemma sees_cur l ts : sees l ts -> getCurToken l = hd_code ts.
Proof. by intros []. Qed.

Lemma sees_id l w ts : sees l (TWord w :: ts) -> getIdentiferStr l = w.
Proof.
  intros (_ & s & _ & H). unfold getIdentiferStr.
  destruct (tokens l) as [|[t str] q]; [by destruct H|by destruct H as (_ & _ & ? & _)].
Qed.

Lemma sees_num l n ts : sees l (TNum n :: ts) -> numVal l = strtod n.
Proof.
  intros (_ & s & _ & H). destruct (tokens l) as [|[t str] q]; [by destruct H|].
  by destruct H as (_ & _ & ? & _).
Qed.

(** Reading the next token of the text. *)
Lemma read_text l s : holds l s ->
  exists l' s', getTokInput (S (left_over l)) l = Ok (hd_code (text_tokens s), l') /\ holds l' s' /\
    text_tokens s' = tail (text_tokens s) /\ payload (head (text_tokens s)) l l'.
Proof.
  intros Hl. rewrite (left_over_holds _ _ Hl).
  destruct (getTokInput_spec (S (String.length s)) l s Hl) as (l' & E & Hs & Hp); [lia|].
  exists l'. rewrite (text_tokens_eq s). destruct (next_token s) as [[t r]|]; by eexists.
Qed.

Lemma payload_read_as t l l' : payload t l l' -> read_as t l'.
Proof. intros (Hi & Hv & _). by destruct t as [[]|]. Qed.

Lemma sees_next l ts : sees l ts ->
  exists l', getNextToken l = Ok (hd_code (tail ts), l') /\ sees l' (tail ts).
Proof.
  intros (_ & s & Hl & Hq). unfold getNextToken, getTok.
  destruct (tokens l) as [|[t str] q] eqn:Eq.
  - destruct Hq as [_ Hts]. destruct (read_text l s Hl) as (l' & s' & E & Hl' & Hs' & Hp).
    rewrite Hts in *. rewrite E. cbn [rbind]. eexists. split; [reflexivity|].
    pose proof (payload_read_as _ _ _ Hp) as Hr. destruct Hp as (_ & _ & Ht & _).
    split; [done|]. exists s'. split; [by eapply holds_frame|].
    cbn. rewrite Ht, Eq. by split.
  - destruct Hq as (-> & -> & _ & Hr & Hts). cbn [rbind]. eexists. split; [reflexivity|].
    split; [done|]. exists s. split; [by eapply holds_frame|]. by split.
Qed.

(** Peeking changes nothing the parser can see. *)
Lemma sees_peek l ts : sees l ts -> match ts with TNum _ :: _ => False | _ => True end ->
  exists l', peekNextToken l = Ok (hd_code (tail ts), l') /\ sees l' ts.
Proof.
  intros (Hc & s & Hl & Hq) Hn. unfold peekNextToken, getTok.
  destruct (tokens l) as [|[t str] q] eqn:Eq.
  - destruct Hq as [Hr Hts]. destruct (read_text l s Hl) as (l' & s' & E & Hl' & Hs' & Hp).
    rewrite Hts in *. rewrite E. cbn [rbind]. eexists. split; [reflexivity|].
    pose proof (payload_read_as _ _ _ Hp) as Hr'. destruct Hp as (_ & _ & Ht & Hk).
    split; [by cbn; rewrite Hk|]. exists s'. split; [by eapply holds_frame|].
    cbn. rewrite Ht, Eq. cbn. split_ands; try done. by destruct ts as [|[] ts].
  - destruct Hq as (-> & -> & Hq). eexists. split; [reflexivity|].
    split; [done|]. exists s. split; [done|]. by rewrite Eq.
Qed.

Lemma plain_append s1 s2 : plain (s1 +:+ s2) = plain s1 && plain s2.
Proof. apply string_all_app. Qed.

(** Before the first token, with some token standing for the initial state. *)
Lemma sees_before text : plain text = true -> exists t, sees (LexerBuffer text) (t :: text_tokens text).
Proof.
  intros Hp. set (s0 := String (int_char 32) (String (int_char 10) text)).
  assert (Hl : holds (LexerBuffer text) s0).
  { split; [exact Hp|]. cbn. by split_ands. }
  assert (E : text_tokens s0 = text_tokens text).
  { rewrite !text_tokens_eq. done. }
  exists (TSym tok_eof). split; [done|]. exists s0. by split.
Qed.

(** ** What a token can be *)

Definition cmp_code (c : Z) : bool := (c =? tok_cmp_eq) || (c =? tok_cmp_le) || (c =? tok_cmp_ge).
Definition sym_char (c : Z) : bool :=
  (0 <? c) && (c <? 128) && negb (is_alpha c || is_digit c || is_space c || (c =? 35)).

Fixpoint all_chars (p : Z -> bool) (s : string) : bool :=
  match s with EmptyString => true | String c s' => p (char_int c) && all_chars p s' end.

Definition wf_tok (t : tok) : bool :=
  match t with
  | TWord (String c w) => is_alpha (char_int c) && all_chars word_char w
  | TNum (String c n) => is_digit (char_int c) && all_chars num_char n
  | TSym c => cmp_code c || sym_char c
  | _ => false
  end.

Lemma span_all p s : all_chars p (fst (span p s)) = true.
Proof.
  induction s as [|c s IH]; cbn; [done|]. destruct (p (char_int c)) eqn:E; [|done].
  destruct (span p s). cbn in *. by rewrite E.
Qed.

Lemma skip_stops s : forall comment,
  match skip comment s with
  | EmptyString => True
  | String c _ => is_space (char_int c) = false /\ char_int c <> 35
  end.
Proof.
  induction s as [|c s IH]; intros comment; cbn [skip]; [done|]. destruct comment; [apply IH|].
  destruct (is_space _) eqn:E; [apply IH|]. destruct (Z.eqb_spec (char_int c) 35); [apply IH|done].
Qed.

Lemma plain_suffix s1 s2 : plain (s1 +:+ s2) = true -> plain s2 = true.
Proof. rewrite plain_append. by intros [_ ?]%andb_true_iff. Qed.

Lemma plain_skip s : forall comment, plain s = true -> plain (skip comment s) = true.
Proof.
  induction s as [|c s IH]; intros comment Hs; cbn [skip]; [done|].
  pose proof Hs as [_ Hs']%plain_cons. destruct comment; [auto|].
  destruct (is_space _); [auto|]. destruct (_ =? 35); auto.
Qed.

Lemma span_append p s : fst (span p s) +:+ snd (span p s) = s.
Proof.
  induction s as [|c s IH]; cbn; [done|]. destruct (p (char_int c)); [|done].
  destruct (span p s). cbn in *. by rewrite IH.
Qed.

Lemma munch_wf c s : plain (String c s) = true -> is_space (char_int c) = false -> char_int c <> 35 ->
  wf_tok (fst (munch c s)) = true /\ plain (snd (munch c s)) = true.
Proof.
  intros [Hc Hs]%plain_cons Hsp H35. pose proof (char_int_range c).
  assert (Hp : forall p, plain (snd (span p s)) = true).
  { intros p. eapply plain_suffix. rewrite span_append. exact Hs. }
  unfold munch. pose proof (span_all word_char s) as Hw. pose proof (span_all num_char s) as Hn.
  pose proof (Hp word_char) as Hpw. pose proof (Hp num_char) as Hpn.
  destruct (is_alpha (char_int c)) eqn:Ea.
  { destruct (span word_char s). cbn in *. by rewrite Ea. }
  destruct (is_digit (char_int c)) eqn:Ed.
  { destruct (span num_char s). cbn in *. by rewrite Ed. }
  assert (Hsym : wf_tok (TSym (char_int c)) = true).
  { cbn. unfold sym_char. rewrite Ea, Ed, Hsp.
    destruct (Z.ltb_spec 0 (char_int c)), (Z.ltb_spec (char_int c) 128), (Z.eqb_spec (char_int c) 35);
      lia. }
  destruct (_ || _); [|done]. destruct s as [|d s]; [done|].
  destruct (_ =? 61); [|done]. apply plain_cons in Hs as [_ Hs]. split; [|done].
  unfold cmp_token. cbn [fst wf_tok]. by destruct (char_int c =? 61), (char_int c =? 60).
Qed.

Lemma next_token_wf s t r : plain s = true -> next_token s = Some (t, r) ->
  wf_tok t = true /\ plain r = true.
Proof.
  unfold next_token. intros Hs%(fun H => plain_skip s false H). pose proof (skip_stops s false) as Hst.
  destruct (skip false s) as [|c s']; [done|]. destruct Hst as [H1 H2]. intros [= E].
  pose proof (munch_wf c s' Hs H1 H2) as H. by rewrite E in H.
Qed.

Lemma text_tokens_wf s : plain s = true -> Forall (fun t => wf_tok t = true) (text_tokens s).
Proof.
  unfold text_tokens. generalize (S (String.length s)). intros n. revert s.
  induction n as [|n IH]; intros s Hs; cbn; [constructor|].
  destruct (next_token s) as [[t r]|] eqn:E; [|constructor].
  destruct (next_token_wf s t r Hs E). constructor; auto.
Qed.

Definition keyword_tokens : list Z :=
  [tok_return; tok_def; tok_struct; tok_var; tok_event; tok_handler; tok_controller;
   tok_generate; tok_extern; tok_global; tok_scope; tok_if; tok_else; tok_identifier].

Lemma keyword_not w c : existsb (Z.eqb c) keyword_tokens = false -> keyword w <> c.
Proof.
  intros Hc <-. revert Hc. unfold keyword.
  repeat match goal with |- context [bool_decide ?P] => destruct (bool_decide P); [done|] end. done.
Qed.

Lemma code_not_eof t : wf_tok t = true -> code t <> tok_eof.
Proof.
  destruct t as [w|n|c]; cbn; intros H.
  - by apply keyword_not.
  - done.
  - intros ->. done.
Qed.

(** ** The lexer delivers the tokens of the text *)

Definition lexeme_of (t : tok) : lexeme :=
  match t with
  | TWord w => if keyword w =? tok_identifier then LId w else LToken (keyword w)
  | TNum n => LNum (strtod n)
  | TSym c => LToken c
  end.

Lemma sees_lexeme l t ts : sees l (t :: ts) -> wf_tok t = true -> current_lexeme l = lexeme_of t.
Proof.
  intros Hl Hw. pose proof (sees_cur _ _ Hl) as Hc. unfold current_lexeme, getCurToken in *. rewrite Hc.
  destruct t as [w|n|c]; cbn [hd_code code].
  - cbn. destruct (keyword w =? tok_identifier); [by rewrite (sees_id _ _ _ Hl)|].
    destruct (Z.eqb_spec (keyword w) tok_number) as [E|]; [|done]. exfalso. revert E.
    by apply keyword_not.
  - cbn. by rewrite (sees_num _ _ _ Hl).
  - assert (c <> tok_identifier /\ c <> tok_number) as [H1 H2] by by split; intros ->.
    by rewrite (proj2 (Z.eqb_neq _ _) H1), (proj2 (Z.eqb_neq _ _) H2).
Qed.

Lemma all_tokens_spec fuel l t ts : sees l (t :: ts) -> Forall (fun t => wf_tok t = true) ts ->
  (length ts < fuel)%nat -> all_tokens fuel l = Ok (map lexeme_of ts).
Proof.
  revert l t ts. induction fuel as [|fuel IH]; intros l t ts Hl Hw Hf; [lia|]. cbn [all_tokens].
  destruct (sees_next l _ Hl) as (l' & -> & Hl'). cbn [rbind tail] in *.
  destruct ts as [|t' ts]; cbn [hd_code]; [done|]. apply Forall_cons in Hw as [Hw Hws].
  rewrite (proj2 (Z.eqb_neq _ _) (code_not_eof _ Hw)).
  rewrite (IH _ _ _ Hl' Hws) by (cbn in Hf; lia). cbn. by rewrite (sees_lexeme _ _ _ Hl' Hw).
Qed.

Lemma length_text_tokens s : (length (text_tokens s) <= String.length s)%nat.
Proof.
  induction s as [s IH] using (induction_ltof1 _ String.length). rewrite text_tokens_eq.
  destruct (next_token s) as [[t r]|] eqn:E; cbn [length]; [|lia]. apply next_token_length in E.
  specialize (IH r E). lia.
Qed.

(** C5: On any text of ASCII characters without a null byte, the
    character-at-a-time lexer with its line buffer delivers exactly the tokens of
    the specification, which cuts the longest token off the text after skipping
    blanks and comments, and then the end of the file. *)
Theorem lexer_refines text : plain text = true ->
  all_tokens (S (String.length text)) (LexerBuffer text) = Ok (map lexeme_of (text_tokens text)).
Proof.
  intros Hp. destruct (sees_before text Hp) as [t Hl].
  apply (all_tokens_spec _ _ t); [done|by apply text_tokens_wf|].
  pose proof (length_text_tokens text). lia.
Qed.

Lemma lexer_refines_witness :
  all_tokens 12 (LexerBuffer "a.b<=1 #c;d") = Ok [LId "a"; LToken 46; LId "b"; LToken tok_cmp_le; LNum (strtod "1")].
Proof. apply (lexer_refines "a.b<=1 #c;d"). reflexivity. Defined.

(** ** Decimal literals *)

Fixpoint dec_go (fuel : nat) (v : Z) (acc : string) : string :=
  match fuel with
  | O => acc
  | S fuel' =>
      let acc := String (int_char (48 + v mod 10)) acc in
      if v <? 10 then acc else dec_go fuel' (v / 10) acc
  end.
Definition dec (v : Z) : string := dec_go (S (Z.to_nat (Z.log2 v))) v "".

Lemma char_int_char x : -128 <= x < 128 -> char_int (int_char x) = x.
Proof.
  intros Hx. unfold char_int, int_char. rewrite N_ascii_embedding.
  - rewrite Z2N.id by (apply Z.mod_pos_bound; lia).
    destruct (Z_lt_dec x 0).
    + rewrite <- (Z.mod_add _ 1), Z.mod_small by lia. destruct (Z.ltb_spec (x + 1 * 256) 128); lia.
    + rewrite Z.mod_small by lia. destruct (Z.ltb_spec x 128); lia.
  - pose proof (Z.mod_pos_bound x 256). lia.
Qed.

Lemma digit_char v : let c := int_char (48 + v mod 10) in
  is_digit (char_int c) = true /\ digit_val c = v mod 10.
Proof.
  pose proof (Z.mod_pos_bound v 10 ltac:(lia)) as H. cbn zeta. unfold digit_val, is_digit.
  rewrite !char_int_char by lia. split; [|lia]. apply andb_true_iff. rewrite !Z.leb_le. lia.
Qed.

(** Reading back what [dec_go] writes, from value 0. *)
Lemma digits_dec_go fuel v acc : 0 <= v < 10 ^ Z.of_nat fuel ->
  fst (fst (digits 0 (dec_go fuel v acc))) = fst (fst (digits v acc)) /\
  snd (digits 0 (dec_go fuel v acc)) = snd (digits v acc).
Proof.
  revert v acc. induction fuel as [|fuel IH]; intros v acc Hv; cbn [dec_go].
  { change (10 ^ Z.of_nat 0) with 1 in Hv. by replace v with 0 by lia. }
  rewrite Nat2Z.inj_succ, Z.pow_succ_r in Hv by lia.
  destruct (digit_char v) as [Hd Hx].
  destruct (Z.ltb_spec v 10).
  - cbn [digits]. rewrite Hd, Hx. rewrite Z.mod_small by lia.
    replace (10 * 0 + v) with v by lia. by destruct (digits v acc) as [[x n] r].
  - destruct (IH (v / 10) (String (int_char (48 + v mod 10)) acc)) as [E1 E2]; [divlia|].
    rewrite E1, E2. cbn [digits]. rewrite Hd, Hx, <- Z_div_mod_eq_full.
    by destruct (digits v acc) as [[x n] r].
Qed.

Lemma digits_dec v : 0 <= v ->
  fst (fst (digits 0 (dec v))) = v /\ snd (digits 0 (dec v)) = "".
Proof.
  intros Hv. unfold dec. apply (digits_dec_go _ v ""). split; [done|].
  destruct (Z.eq_dec v 0) as [->|]; [vm_compute; done|].
  destruct (Z.log2_spec v) as [_ Hl]; [lia|]. pose proof (Z.log2_nonneg v).
  rewrite Nat2Z.inj_succ, Z2Nat.id by lia. etrans; [exact Hl|].
  destruct (Z.eq_dec (Z.log2 v) 0) as [->|]; [done|]. apply Z.pow_lt_mono_l; lia.
Qed.

(** Integers of up to 53 bits are read exactly. *)
Lemma round_exact n : 0 <= n < 2 ^ 53 -> truncate (round_ratio n 1) = n.
Proof.
  intros Hn. destruct (Z.eq_dec n 0) as [->|Hn0]; [reflexivity|].
  destruct (Z.log2_spec n) as [Hl1 Hl2]; [lia|]. pose proof (Z.log2_nonneg n).
  assert (Hlog : Z.log2 n < 53) by (apply Z.log2_lt_pow2; lia).
  unfold round_ratio. change (Z.log2 1) with 0. set (e := Z.log2 n - 0 - 52).
  assert (Hs : scale n 1 e = (n * 2 ^ (- e), 1)).
  { unfold scale. destruct (Z.leb_spec 0 e); [|done]. replace e with 0 by lia. cbn. f_equal; lia. }
  rewrite Hs. cbn [fst snd]. rewrite Z.div_1_r.
  assert (2 ^ 52 <= n * 2 ^ (- e)).
  { replace 52 with (Z.log2 n + - e) by lia. rewrite Z.pow_add_r by lia.
    apply Z.mul_le_mono_nonneg_r; lia. }
  destruct (Z.ltb_spec (n * 2 ^ (- e)) (2 ^ 52)); [lia|].
  rewrite Z.max_l by lia. rewrite Hs. unfold round_even. cbn [fst snd].
  rewrite Z.div_1_r, Z.mod_1_r. change (2 * 0 <? 1) with true. cbn iota. unfold truncate. cbn [dm de].
  destruct (Z.leb_spec 0 e).
  - replace e with 0 by lia. cbn. lia.
  - apply Z.div_mul. lia.
Qed.

Lemma strtod_dec v : 0 <= v < 2 ^ 53 -> truncate (strtod (dec v)) = v.
Proof.
  intros Hv. destruct (digits_dec v) as [E1 E2]; [lia|]. unfold strtod.
  destruct (digits 0 (dec v)) as [[x n] r]. cbn in E1, E2. subst. by apply round_exact.
Qed.

(** A literal is read through [double]: 2^53 + 1 becomes 2^53. *)
Lemma literal_rounded : truncate (strtod (dec 9007199254740993)) = 9007199254740992.
Proof. reflexivity. Qed.

(** ** Writing tokens so that the lexer reads them back *)

Definition render_tok (t : tok) : string :=
  match t with
  | TWord w => w
  | TNum n => n
  | TSym c =>
      if c =? tok_cmp_eq then "=="
      else if c =? tok_cmp_le then "<="
      else if c =? tok_cmp_ge then ">="
      else String (int_char c) ""
  end.

Fixpoint render (ts : list tok) : string :=
  match ts with [] => "" | t :: ts' => render_tok t +:+ String (int_char 32) (render ts') end.

Lemma span_app p s c r : all_chars p s = true -> p (char_int c) = false ->
  span p (s +:+ String c r) = (s, String c r).
Proof.
  intros Hs Hc. induction s as [|d s IH]; cbn in *; [by rewrite Hc|].
  apply andb_true_iff in Hs as [-> Hs]. by rewrite IH.
Qed.

Lemma is_alpha_range x : is_alpha x = true -> 65 <= x <= 122.
Proof. unfold is_alpha. lia. Qed.
Lemma is_digit_range x : is_digit x = true -> 48 <= x <= 57.
Proof. unfold is_digit. lia. Qed.

Lemma munch_render t r : wf_tok t = true ->
  exists c s, render_tok t +:+ String (int_char 32) r = String c s /\
    is_space (char_int c) = false /\ (char_int c =? 35) = false /\
    munch c s = (t, String (int_char 32) r).
Proof.
  destruct t as [w|n|x]; cbn [wf_tok render_tok].
  - destruct w as [|c w]; [done|]. intros [Hc Hw]%andb_true_iff. exists c, (w +:+ String (int_char 32) r).
    pose proof (is_alpha_range _ Hc). split; [done|]. unfold munch, is_space. rewrite Hc.
    rewrite span_app by done. split_ands; [lia|lia|done].
  - destruct n as [|c n]; [done|]. intros [Hc Hn]%andb_true_iff. exists c, (n +:+ String (int_char 32) r).
    pose proof (is_digit_range _ Hc). split; [done|]. unfold munch, is_space.
    replace (is_alpha (char_int c)) with false by (unfold is_alpha; lia).
    rewrite Hc, span_app by done. split_ands; [lia|lia|done].
  - intros Hx. destruct (cmp_code x) eqn:Ecmp.
    + unfold cmp_code in Ecmp. rewrite !orb_true_iff, !Z.eqb_eq in Ecmp.
      destruct Ecmp as [[-> | ->] | ->]; by eexists _, _.
    + cbn [orb] in Hx. unfold sym_char in Hx. unfold cmp_code in Ecmp.
      apply orb_false_iff in Ecmp as [[E1 E2]%orb_false_iff E3]. rewrite E1, E2, E3.
      exists (int_char x), (String (int_char 32) r). rewrite !andb_true_iff, negb_true_iff in Hx.
      destruct Hx as [[Hx1 Hx2] Hx3]. rewrite !orb_false_iff in Hx3.
      destruct Hx3 as [[[Ha Hd] Hsp] H35].
      assert (Ex : char_int (int_char x) = x) by (apply char_int_char; lia).
      unfold munch. rewrite Ex, Ha, Hd, Hsp, H35. split_ands; try done.
      destruct (_ || _); done.
Qed.

Lemma text_tokens_render ts : Forall (fun t => wf_tok t = true) ts -> text_tokens (render ts) = ts.
Proof.
  intros Hts. enough (forall s, s = render ts \/ s = String (int_char 32) (render ts) -> text_tokens s = ts)
    by auto.
  induction Hts as [|t ts Ht _ IH]; intros s Hs.
  { by destruct Hs as [-> | ->]. }
  destruct (munch_render t (render ts) Ht) as (c & r & Er & Hsp & H35 & Em).
  rewrite text_tokens_eq. unfold next_token.
  assert (Es : skip false s = String c r).
  { cbn [render] in Hs. rewrite Er in Hs.
    destruct Hs as [-> | ->]; cbn [skip]; [|change (is_space (char_int (int_char 32))) with true; cbn [skip]];
      by rewrite Hsp, H35. }
  rewrite Es, Em. f_equal. apply IH. by right.
Qed.

Lemma plain_render ts : Forall (fun t => wf_tok t = true) ts -> plain (render ts) = true.
Proof.
  assert (Hall : forall p s, (forall x, p x = true -> 0 < x) -> all_chars p s = true -> plain s = true).
  { intros p s Hp. induction s as [|c s IH]; cbn; [done|]. intros [Hc Hs]%andb_true_iff.
    apply plain_cons. auto. }
  induction 1 as [|t ts Ht _ IH]; [done|]. cbn [render]. rewrite plain_append. apply andb_true_iff.
  split; [|exact IH]. destruct t as [[|c w]|[|c n]|x]; cbn [wf_tok render_tok] in *; try done.
  - apply andb_true_iff in Ht as [Hc%is_alpha_range Hw]. apply plain_cons. split; [lia|].
    apply (Hall word_char); [|done]. intros x. unfold word_char, is_alnum, is_alpha, is_digit. lia.
  - apply andb_true_iff in Ht as [Hc%is_digit_range Hw]. apply plain_cons. split; [lia|].
    apply (Hall num_char); [|done]. intros x. unfold num_char, is_digit, tok_dot. lia.
  - repeat case_bool; try done. apply plain_cons. split; [|done].
    unfold cmp_code, sym_char in Ht. rewrite char_int_char; lia.
Qed.
End Lexer.
