(* ===== verification/Ast.v ===== *)
(** include/ep2/lang/AST.h: the syntax trees of the ep2 language. *)
From Stdlib Require Import ZArith Lia List String.
From stdpp Require Import base list numbers option strings gmap.
From S2P Require Import Prelude Lexer.
#[local] Open Scope Z_scope.
#[local] Set Warnings "-register-all".
#[local] Arguments String.append !_ _ : simpl nomatch.

Module Ast.
Import Lexer.

(** A [unique_ptr] the parser may leave null is an [option]. *)
Inductive VarType := MkVarType (name : string) (params : list VarTemplateParam)
with VarTemplateParam :=
  | VarTemplateParam_Integer (value : Z)
  | VarTemplateParam_Type (type : option VarType).

Definition type_name (t : VarType) : string := let 'MkVarType n _ := t in n.
Definition params (t : VarType) : list VarTemplateParam := let 'MkVarType _ ps := t in ps.

Inductive VarTemplateParamKind := Kind_Integer | Kind_Type.
#[export] Instance VarTemplateParamKind_eq_dec : EqDecision VarTemplateParamKind.
Proof. solve_decision. Defined.
Definition getKind (p : VarTemplateParam) : VarTemplateParamKind :=
  match p with VarTemplateParam_Integer _ => Kind_Integer | VarTemplateParam_Type _ => Kind_Type end.

(** [checkParam]: the sizes first, then the kinds one by one. *)
Fixpoint check_kinds (kinds : list VarTemplateParamKind) (ps : list VarTemplateParam) : bool :=
  match kinds, ps with
  | k :: ks, p :: ps' => bool_decide (getKind p = k) && check_kinds ks ps'
  | _, _ => true
  end.
Definition checkParam (kinds : list VarTemplateParamKind) (t : VarType) : bool :=
  if negb (length kinds =? length (params t))%nat then false else check_kinds kinds (params t).

Record VariableExprAST := MkVariable { v_loc : Location; v_name : string }.

Record PathExprAST := MkPath { p_loc : Location; path : list VariableExprAST }.
Definition getPathLength (p : PathExprAST) : nat := length (path p).
Definition append (next : VariableExprAST) (p : PathExprAST) : PathExprAST :=
  MkPath (p_loc p) (path p ++ [next]).

(** [print]: the names with a dot after each but the last. *)
Fixpoint print_names (vs : list VariableExprAST) : string :=
  match vs with
  | [] => ""
  | [v] => v_name v
  | v :: vs' => v_name v +:+ "." +:+ print_names vs'
  end.
Definition print_path (p : PathExprAST) : string := print_names (path p).

Record VarDeclExprAST (E : Type) := MkVarDecl {
  d_loc : Location; d_name : string; d_type : VarType; initVal : option E }.
Arguments MkVarDecl {E} _ _ _ _.
Arguments d_loc {E} _.
Arguments d_name {E} _.
Arguments d_type {E} _.
Arguments initVal {E} _.

(** Operators are the [char] of their token. *)
Inductive ExprAST :=
  | NumberExprAST (loc : Location) (val : Z)
  | LiteralExprAST (loc : Location) (values : list ExprAST) (dims : list Z)
  | StructLiteralExprAST (loc : Location) (values : list (option ExprAST))
  | AtomLiteralExprAST (loc : Location) (atom : string)
  | PortLiteralExprAST (loc : Location) (event atom : string) (instance : Z)
  | PathExpr (p : PathExprAST)
  | VarDeclExpr (d : VarDeclExprAST ExprAST)
  | InitExprAST (loc : Location) (type : VarType) (initVals : list ExprAST)
  | ReturnExprAST (loc : Location) (expr : option (option ExprAST))
  | BinaryExprAST (loc : Location) (op : Z) (lhs rhs : ExprAST)
  | CallExprAST (loc : Location) (callee : PathExprAST) (args : list ExprAST)
      (ins outs : list string)
  | IfElseExprAST (loc : Location) (cond : ExprAST)
      (thenExprs elseExprs : option (list ExprAST)).

Definition ExprASTList := list ExprAST.

(** [isCommand] of a call *)
Definition isCommand (ins outs : list string) : bool :=
  match ins, outs with [], [] => false | _, _ => true end.

Inductive FunctionType := Function_Controller | Function_Handler.

Record PrototypeAST := MkPrototype {
  pr_loc : Location; pr_name : string; pr_args : list (VarDeclExprAST ExprAST);
  pr_atom : option string; pr_type : FunctionType }.

Definition getFunctionTypeName (p : PrototypeAST) : string :=
  match pr_type p with Function_Controller => "controller" | Function_Handler => "handler" end.

Definition getMangledName (p : PrototypeAST) : string :=
  let mangled := "__" +:+ getFunctionTypeName p +:+ "_" +:+ pr_name p in
  match pr_atom p with Some a => mangled +:+ "_" +:+ a | None => mangled end.

Inductive Attribute := AttrString (s : string) | AttrBool (b : bool) | AttrList (l : list string).
Abbreviation AttributesType := (gmap string Attribute).

Inductive RecordBody :=
  | FunctionAST (proto : PrototypeAST) (body : ExprASTList)
  | StructAST (isEvent : bool) (loc : Location) (name : string)
      (variables : list (VarDeclExprAST ExprAST))
  | ScopeAST (loc : Location) (name : string) (handlers : list string) (partitionKey : string)
  | GlobalAST (loc : Location) (name : string) (variable : VarDeclExprAST ExprAST).

Record RecordAST := MkRecord { attributes : AttributesType; r_body : RecordBody }.
Definition ModuleAST := list RecordAST.

End Ast.
