(* ===== verification/Parser.v ===== *)
(** include/ep2/lang/Parser.h: the recursive-descent parser of the ep2 language. *)
From Stdlib Require Import ZArith Lia List String.
From stdpp Require Import base list numbers option strings gmap.
From S2P Require Import Prelude Lexer Ast.
#[local] Open Scope Z_scope.
#[local] Arguments String.append !_ _ : simpl nomatch.

Module Parser.
Import Lexer Ast.

(** ** The parser's state: the lexer it refers to, and what went to [llvm::errs] *)

Inductive diagnostic :=
  | ParseError (loc : Location) (expected context : string) (tok : Z)
  | UnknownToken (tok : Z)
  | CheckFailed (loc : Location) (expected tok : Z).

Definition state : Type := Lexer * list diagnostic.
Definition M (A : Type) : Type := state -> result (A * state).

Definition mret {A} (a : A) : M A := fun s => Ok (a, s).
Definition mbind' {A B} (m : M A) (f : A -> M B) : M B :=
  fun s => let? (a, s') := m s in f a s'.
Definition fail {A} (x : stop) : M A := fun _ => Err x.
Notation "'let!' x ':=' a 'in' b" := (mbind' a (fun x => b))
  (at level 10, x pattern, a at level 100, b at level 200).

(** The calls on [lexer]. *)
Definition curToken : M Z := fun s => Ok (getCurToken (fst s), s).
Definition lastLoc : M Location := fun s => Ok (getLastLocation (fst s), s).
Definition nextToken : M Z :=
  fun s => let? (t, l) := getNextToken (fst s) in Ok (t, (l, snd s)).
Definition peekToken : M Z :=
  fun s => let? (t, l) := peekNextToken (fst s) in Ok (t, (l, snd s)).
Definition eat (t : Z) : M unit := fun s => let? l := consume t (fst s) in Ok (tt, (l, snd s)).
Definition id : M string := fun s => let? x := getId (fst s) in Ok (x, s).
Definition value : M double := fun s => let? x := getValue (fst s) in Ok (x, s).
Definition report (d : diagnostic) : M unit := fun s => Ok (tt, (fst s, d :: snd s)).
Definition convert (w : Z) (x : double) : M Z := fun s => let? v := double_to w x in Ok (v, s).

(** [parseError<R>(expected, context)] reports and returns null. *)
Definition parseError {A} (expected context : string) : M (option A) :=
  let! t := curToken in
  let! loc := lastLoc in
  let! _ := report (ParseError loc expected context t) in
  mret None.

(** [lexer.checkConsume(token)] *)
Definition checkConsume (t : Z) : M unit :=
  let! c := curToken in
  let! loc := lastLoc in
  let! _ := (if c =? t then mret tt else report (CheckFailed loc t c)) in
  eat t.

(** A C++ loop: [inl] goes round again. *)
Fixpoint loop {S R} (fuel : nat) (body : S -> M (S + R)) (s : S) : M R :=
  match fuel with
  | O => fail OutOfFuel
  | S fuel' =>
      let! x := body s in
      match x with inl s' => loop fuel' body s' | inr r => mret r end
  end.

(** ** Precedence *)

Definition getTokPrecedence : M Z :=
  let! t := curToken in
  mret (if t =? 61 then 10
        else if (t =? tok_minus) || (t =? tok_plus) then 20
        else if (t =? tok_star) || (t =? tok_slash) then 40
        else if (t =? tok_cmp_eq) || (t =? tok_cmp_le) || (t =? tok_cmp_ge) || (t =? 60) || (t =? 62)
        then 15
        else -1).

(** ** Expressions *)

Definition parseNumberExpr : M (option ExprAST) :=
  let! loc := lastLoc in
  let! v := value in
  let! n := convert 64 v in
  let! _ := eat tok_number in
  mret (Some (NumberExprAST loc n)).

(** An atom, with its location. *)
Definition parseAtom : M (option (Location * string)) :=
  let! loc := lastLoc in
  let! t := curToken in
  if negb (t =? tok_colon) then parseError ":" "in atom literal" else
  let! _ := eat tok_colon in
  let! t := curToken in
  if negb (t =? tok_identifier) then parseError "identifier" "in atom literal" else
  let! a := id in
  let! _ := eat tok_identifier in
  mret (Some (loc, a)).

Definition atom_expr (a : Location * string) : ExprAST := AtomLiteralExprAST (fst a) (snd a).

(** Nested literals may come back null and are kept. *)
Fixpoint parseStructLiteralExpr (fuel : nat) : M (option ExprAST) :=
  match fuel with
  | O => fail OutOfFuel
  | S fuel' =>
      let! loc := lastLoc in
      let! _ := eat tok_bracket_open in
      let! values := loop fuel (fun values =>
        let! t := curToken in
        let! v :=
          (if t =? tok_number then
             let! v := parseNumberExpr in
             mret (match v with Some _ => Some (values ++ [v]) | None => None end)
           else if negb (t =? tok_bracket_open) then
             parseError "{, [, or number" "in struct literal expression"
           else
             let! v := parseStructLiteralExpr fuel' in
             mret (Some (values ++ [v]))) in
        match v with
        | None => mret (inr None)
        | Some values =>
            let! t := curToken in
            if t =? tok_bracket_close then mret (inr (Some values)) else
            if negb (t =? tok_comma) then
              let! x := parseError "} or ," "in struct literal expression" in mret (inr x)
            else
              let! _ := nextToken in
              mret (inl values)
        end) [] in
      match values with
      | None => mret None
      | Some values =>
          let! _ := nextToken in
          mret (Some (StructLiteralExprAST loc values))
      end
  end.

(** portLiteral: the location is the one after the literal. *)
Definition parsePortLiteralExpr : M (option ExprAST) :=
  let! _ := eat tok_sbracket_open in
  let! t := curToken in
  if negb (t =? tok_identifier) then parseError "identifier" "of event name" else
  let! event := id in
  let! _ := eat tok_identifier in
  let! t := curToken in
  let! atom :=
    (if t =? tok_colon then
       let! t := nextToken in
       if negb (t =? tok_identifier) then parseError "identifier" "of atom name" else
       let! atom := id in
       let! _ := eat tok_identifier in
       mret (Some atom)
     else mret (Some "")) in
  match atom with
  | None => mret None
  | Some atom =>
      let! _ := checkConsume tok_comma in
      let! t := curToken in
      let! instance :=
        (if t =? tok_number then
           let! v := value in
           let! n := convert 31 v in
           if n <? 0 then parseError "instance should be positive" "" else
           let! _ := eat tok_number in
           mret (Some n)
         else if t =? tok_star then
           let! _ := eat tok_star in
           mret (Some (-1))
         else parseError "number" "of instance") in
      match instance with
      | None => mret None
      | Some instance =>
          let! _ := checkConsume tok_sbracket_close in
          let! loc := lastLoc in
          mret (Some (PortLiteralExprAST loc event atom instance))
      end
  end.

(** One port group of a call: names and stars after [\[] or a comma; any other token
    there is passed over in silence. *)
Definition port_group (fuel : nat) : M (list string) :=
  let! ps := loop fuel (fun ps =>
    let! next := nextToken in
    let! ps :=
      (if next =? tok_identifier then
         let! x := id in
         let! _ := eat tok_identifier in
         mret (ps ++ [x])
       else if next =? tok_star then
         let! _ := eat tok_star in
         mret (ps ++ ["*"])
       else mret ps) in
    let! t := curToken in
    mret (if t =? tok_comma then inl ps else inr ps)) [] in
  let! _ := eat tok_sbracket_close in
  mret ps.

Section Expressions.
(** [parseExpression], for the functions it calls. *)
Context (parseExpression : M (option ExprAST)).

Definition parseParenExpr : M (option ExprAST) :=
  let! _ := nextToken in
  let! v := parseExpression in
  match v with
  | None => mret None
  | Some _ =>
      let! t := curToken in
      if negb (t =? tok_parenthese_close) then
        parseError ")" "to close expression with parentheses"
      else
        let! _ := eat tok_parenthese_close in
        mret v
  end.

(** The arguments of a call, the closing parenthesis still to be read. *)
Definition call_args (fuel : nat) : M (option (list ExprAST)) :=
  let! t := curToken in
  if t =? tok_parenthese_close then mret (Some []) else
  loop fuel (fun args =>
    let! arg := parseExpression in
    match arg with
    | None => mret (inr None)
    | Some arg =>
        let args := args ++ [arg] in
        let! t := curToken in
        if t =? tok_parenthese_close then mret (inr (Some args)) else
        if negb (t =? tok_comma) then
          let! x := parseError ", or )" "in argument list" in mret (inr x)
        else
          let! _ := nextToken in
          mret (inl args)
    end) [].

Definition parseCallExpr (fuel : nat) (path : PathExprAST) (loc : Location) : M (option ExprAST) :=
  let! _ := eat tok_parenthese_open in
  let! args := call_args fuel in
  match args with
  | None => mret None
  | Some args =>
      let! _ := eat tok_parenthese_close in
      let! t := curToken in
      if t =? tok_sbracket_open then
        let! ins := port_group fuel in
        let! t := curToken in
        if negb (t =? tok_sbracket_open) then parseError "[" "in output port list" else
        let! outs := port_group fuel in
        mret (Some (CallExprAST loc path args ins outs))
      else mret (Some (CallExprAST loc path args [] []))
  end.

(** [while (lexer.getCurToken() == '.') ...] *)
Definition dotted (fuel : nat) (p : PathExprAST) : M (option PathExprAST) :=
  loop fuel (fun p =>
    let! t := curToken in
    if t =? tok_dot then
      let! _ := eat tok_dot in
      let! t := curToken in
      if negb (t =? tok_identifier) then
        let! x := parseError "identifier" "parse struct access" in mret (inr x)
      else
        let! loc := lastLoc in
        let! name := id in
        let p := append (MkVariable loc name) p in
        let! _ := eat tok_identifier in
        mret (inl p)
    else mret (inr (Some p))) p.

(** The values of an initialisation, up to and with the closing bracket. *)
Definition init_values (fuel : nat) (values : list ExprAST) : M (option (list ExprAST)) :=
  loop fuel (fun values =>
    let! expr := parseExpression in
    match expr with
    | None => let! x := parseError "expr" "Parsing Initiliazaiton" in mret (inr x)
    | Some expr =>
        let values := values ++ [expr] in
        let! t := curToken in
        if t =? tok_bracket_close then
          let! _ := eat tok_bracket_close in
          mret (inr (Some values))
        else if negb (t =? tok_comma) then
          let! x := parseError "comma" "parsing init list" in mret (inr x)
        else
          let! _ := eat tok_comma in
          mret (inl values)
    end) values.

(** An atom after the path is kept only by an initialisation. *)
Definition parseIdentifierExpr (fuel : nat) : M (option ExprAST) :=
  let! name := id in
  let! vloc := lastLoc in
  let! _ := nextToken in
  let! ploc := lastLoc in
  let! p := dotted fuel (MkPath ploc [MkVariable vloc name]) in
  match p with
  | None => mret None
  | Some p =>
      let! t := curToken in
      let! atom := (if t =? tok_colon then parseAtom else mret None) in
      let! t := curToken in
      let! loc := lastLoc in
      if t =? tok_parenthese_open then parseCallExpr fuel p loc else
      if t =? tok_bracket_open then
        let! _ := eat tok_bracket_open in
        if negb (getPathLength p =? 1)%nat then parseError "name error" "parse init" else
        let! values :=
          init_values fuel (match atom with Some a => [atom_expr a] | None => [] end) in
        match values with
        | None => mret None
        | Some values =>
            let! loc := lastLoc in
            mret (Some (InitExprAST loc (MkVarType name []) values))
        end
      else mret (Some (PathExpr p))
  end.

Definition parsePrimary (fuel : nat) : M (option ExprAST) :=
  let! t := curToken in
  if t =? tok_identifier then parseIdentifierExpr fuel
  else if t =? tok_colon then
    let! a := parseAtom in mret (atom_expr <$> a)
  else if t =? tok_number then parseNumberExpr
  else if t =? tok_parenthese_open then parseParenExpr
  else if t =? tok_sbracket_open then parsePortLiteralExpr
  else if t =? tok_bracket_open then parseStructLiteralExpr fuel
  else if t =? tok_semicolon then mret None
  else if t =? tok_bracket_close then mret None
  else let! _ := report (UnknownToken t) in mret None.

Fixpoint parseBinOpRHS (fuel : nat) (exprPrec : Z) (lhs : ExprAST) : M (option ExprAST) :=
  match fuel with
  | O => fail OutOfFuel
  | S fuel' =>
      let! tokPrec := getTokPrecedence in
      if tokPrec <? exprPrec then mret (Some lhs) else
      let! binOp := curToken in
      let! _ := eat binOp in
      let! loc := lastLoc in
      let! rhs := parsePrimary fuel' in
      match rhs with
      | None => parseError "expression" "to complete binary operator"
      | Some rhs =>
          let! nextPrec := getTokPrecedence in
          let! rhs :=
            (if tokPrec <? nextPrec then parseBinOpRHS fuel' (tokPrec + 1) rhs
             else mret (Some rhs)) in
          match rhs with
          | None => mret None
          | Some rhs => parseBinOpRHS fuel' exprPrec (BinaryExprAST loc binOp lhs rhs)
          end
      end
  end.
End Expressions.

Fixpoint parseExpression (fuel : nat) : M (option ExprAST) :=
  match fuel with
  | O => fail OutOfFuel
  | S fuel' =>
      let! lhs := parsePrimary (parseExpression fuel') fuel in
      match lhs with
      | None => mret None
      | Some lhs => parseBinOpRHS (parseExpression fuel') fuel 0 lhs
      end
  end.

(** ** Declarations *)

Fixpoint parseType (fuel : nat) : M (option VarType) :=
  match fuel with
  | O => fail OutOfFuel
  | S fuel' =>
      let! t := curToken in
      if negb (t =? tok_identifier) then parseError "type name" "in variable declaration" else
      let! typeName := id in
      let! _ := nextToken in
      let! t := curToken in
      if t =? tok_angle_bracket_open then
        let! ps := loop fuel (fun ps =>
          let! _ := nextToken in
          let! t := curToken in
          let! ps :=
            (if t =? tok_number then
               let! v := value in
               let! n := convert 63 v in
               let! _ := eat tok_number in
               mret (Some (ps ++ [VarTemplateParam_Integer n]))
             else if t =? tok_identifier then
               let! ty := parseType fuel' in
               mret (Some (ps ++ [VarTemplateParam_Type ty]))
             else parseError "template parameter" "in variable declaration") in
          match ps with
          | None => mret (inr None)
          | Some ps =>
              let! t := curToken in
              mret (if t =? tok_comma then inl ps else inr (Some ps))
          end) [] in
        match ps with
        | None => mret None
        | Some ps =>
            let! _ := eat tok_angle_bracket_close in
            mret (Some (MkVarType typeName ps))
        end
      else mret (Some (MkVarType typeName []))
  end.

(** A null type is only dereferenced at the end. *)
Definition parseTypedDeclaration (fuel : nat) (type : option VarType) (requiresInitializer : bool)
    (loc : Location) : M (option (VarDeclExprAST ExprAST)) :=
  let! t := curToken in
  if negb (t =? tok_identifier) then parseError "name" "in variable declaration" else
  let! name := id in
  let! _ := nextToken in
  let! t := curToken in
  if requiresInitializer && negb (t =? tok_eq) then
    parseError "initializer" "in variable declaration"
  else
    let! expr :=
      (if t =? tok_eq then let! _ := eat tok_eq in parseExpression fuel else mret None) in
    match type with
    | None => fail Undefined
    | Some type => mret (Some (MkVarDecl loc name type expr))
    end.

Definition parseDeclaration (fuel : nat) (requiresInitializer : bool)
    : M (option (VarDeclExprAST ExprAST)) :=
  let! loc := lastLoc in
  let! type := parseType fuel in
  parseTypedDeclaration fuel type requiresInitializer loc.

(** The test of the code is on the [std::optional], which always has a value. *)
Definition parseReturn (fuel : nat) (token : Z) : M (option ExprAST) :=
  let! loc := lastLoc in
  let! _ := eat token in
  let! t := curToken in
  let! expr :=
    (if negb (t =? tok_semicolon) then let! e := parseExpression fuel in mret (Some e)
     else mret None) in
  mret (Some (ReturnExprAST loc expr)).

(** ** Blocks *)

Definition swallow_semicolons (fuel : nat) : M unit :=
  loop fuel (fun _ =>
    let! t := curToken in
    if t =? tok_semicolon then let! _ := eat tok_semicolon in mret (inl tt)
    else mret (inr tt)) tt.

(** [lexer.peekNextToken() == tok_identifier || lexer.peekNextToken() == '<'] *)
Definition peeks_declaration : M bool :=
  let! p := peekToken in
  if p =? tok_identifier then mret true else
  let! p := peekToken in
  mret (p =? tok_angle_bracket_open).

Section Statements.
(** [parseBlock], for the branches of a conditional. *)
Context (fuel : nat) (parseBlock : M (option ExprASTList)).

(** The then-branch may be null. *)
Definition parseIf : M (option ExprAST) :=
  let! _ := eat tok_if in
  let! _ := checkConsume tok_parenthese_open in
  let! cond := parseExpression fuel in
  match cond with
  | None => mret None
  | Some cond =>
      let! _ := checkConsume tok_parenthese_close in
      let! thenBlock := parseBlock in
      let! t := curToken in
      if t =? tok_else then
        let! _ := eat tok_else in
        let! elseBlock := parseBlock in
        match elseBlock with
        | None => mret None
        | Some _ =>
            let! loc := lastLoc in
            mret (Some (IfElseExprAST loc cond thenBlock elseBlock))
        end
      else
        let! loc := lastLoc in
        mret (Some (IfElseExprAST loc cond thenBlock None))
  end.

(** One statement, and whether it is a block. *)
Definition parseStatement : M (option ExprAST * bool) :=
  let! t := curToken in
  if t =? tok_var then
    let! d := parseDeclaration fuel true in mret (VarDeclExpr <$> d, false)
  else if (t =? tok_return) || (t =? tok_generate) then
    let! r := parseReturn fuel t in mret (r, false)
  else
    let! decl := (if t =? tok_identifier then peeks_declaration else mret false) in
    if decl : bool then
      let! d := parseDeclaration fuel false in mret (VarDeclExpr <$> d, false)
    else if t =? tok_if then
      let! e := parseIf in mret (e, true)
    else
      let! e := parseExpression fuel in mret (e, false).
End Statements.

Fixpoint parseBlock (fuel : nat) : M (option ExprASTList) :=
  match fuel with
  | O => fail OutOfFuel
  | S fuel' =>
      let! t := curToken in
      if negb (t =? tok_bracket_open) then parseError "{" "to begin block" else
      let! _ := eat tok_bracket_open in
      let! _ := swallow_semicolons fuel in
      let! exprList := loop fuel (fun exprList =>
        let! t := curToken in
        if negb (t =? tok_bracket_close) && negb (t =? tok_eof) then
          let! (expr, isBlock) := parseStatement fuel (parseBlock fuel') in
          match expr with
          | None => mret (inr None)
          | Some expr =>
              let! t := curToken in
              if negb isBlock && negb (t =? tok_semicolon) then
                let! x := parseError ";" "after expression" in mret (inr x)
              else
                let! _ := swallow_semicolons fuel in
                mret (inl (exprList ++ [expr]))
          end
        else mret (inr (Some exprList))) [] in
      match exprList with
      | None => mret None
      | Some exprList =>
          let! t := curToken in
          if negb (t =? tok_bracket_close) then parseError "}" "to close block" else
          let! _ := eat tok_bracket_close in
          mret (Some exprList)
      end
  end.

(** ** Top-level records *)

(** The parameters of a prototype, from its opening parenthesis up to the closing one. *)
Definition prototype_args (fuel : nat) : M (option (list (VarDeclExprAST ExprAST))) :=
  loop fuel (fun args =>
    let! _ := nextToken in
    let! type := parseType fuel in
    match type with
    | None => let! x := parseError "type" "in function parameter list" in mret (inr x)
    | Some type =>
        let! t := curToken in
        if negb (t =? tok_identifier) then
          let! x := parseError "identifier" "in function parameter list" in mret (inr x)
        else
          let! name := id in
          let! _ := checkConsume tok_identifier in
          let! loc := lastLoc in
          let args := args ++ [MkVarDecl loc name type None] in
          let! t := curToken in
          mret (if t =? tok_comma then inl args else inr (Some args))
    end) [].

Definition parsePrototype (fuel : nat) (token : Z) : M (option PrototypeAST) :=
  let! loc := lastLoc in
  let! t := curToken in
  if negb (t =? token) then parseError "def|event|controller" "in prototype" else
  let type := if token =? tok_controller then Function_Controller else Function_Handler in
  let! _ := eat token in
  let! t := curToken in
  if negb (t =? tok_identifier) then parseError "function name" "in prototype" else
  let! fnName := id in
  let! _ := eat tok_identifier in
  let! t := curToken in
  let! atom :=
    (if (token =? tok_handler) && (t =? tok_colon) then
       let! atomLit := parseAtom in
       match atomLit with
       | None => fail Undefined        (* atomLit->getAtom() *)
       | Some a => mret (Some (snd a))
       end
     else mret None) in
  let! t := curToken in
  if negb (t =? tok_parenthese_open) then parseError "(" "in prototype" else
  let! next := peekToken in
  let! args :=
    (if negb (next =? tok_parenthese_close) then prototype_args fuel
     else let! _ := eat tok_parenthese_open in mret (Some [])) in
  match args with
  | None => mret None
  | Some args =>
      let! t := curToken in
      if negb (t =? tok_parenthese_close) then parseError ")" "to end function prototype" else
      let! _ := eat tok_parenthese_close in
      mret (Some (MkPrototype loc fnName args atom type))
  end.

Definition parseDefinition (fuel : nat) (token : Z) : M (option RecordBody) :=
  let! proto := parsePrototype fuel token in
  match proto with
  | None => mret None
  | Some proto =>
      let! block := parseBlock fuel in
      mret (FunctionAST proto <$> block)
  end.

(** The declarations of a struct, up to its closing bracket. *)
Definition struct_decls (fuel : nat) : M (option (list (VarDeclExprAST ExprAST))) :=
  loop fuel (fun decls =>
    let! t := curToken in
    if t =? tok_bracket_close then mret (inr (Some decls)) else
    let! decl := parseDeclaration fuel false in
    match decl with
    | None => mret (inr None)
    | Some decl =>
        let! t := curToken in
        if negb (t =? tok_semicolon) then
          let! x := parseError ";" "after variable in struct definition" in mret (inr x)
        else
          let! _ := eat tok_semicolon in
          mret (inl (decls ++ [decl]))
    end) [].

Definition parseStruct (fuel : nat) (token_type : Z) : M (option RecordBody) :=
  let! loc := lastLoc in
  let! _ := eat token_type in
  let! t := curToken in
  if negb (t =? tok_identifier) then parseError "name" "in struct definition" else
  let! name := id in
  let! _ := eat tok_identifier in
  let! t := curToken in
  if negb (t =? tok_bracket_open) then parseError "{" "in struct definition" else
  let! _ := eat tok_bracket_open in
  let! decls := struct_decls fuel in
  match decls with
  | None => mret None
  | Some decls =>
      let! _ := eat tok_bracket_close in
      mret (Some (StructAST (token_type =? tok_event) loc name decls))
  end.

(** [separateBy<T>(open, close, sep, f)], where [f] changes the variables [s] it
    captures: null on success, and null, too, from [parseError]. *)
Definition separateBy {T S} (fuel : nat) (opening closing sep : Z)
    (f : S -> Z -> M (option T * S)) (s : S) : M (option T * S) :=
  let! t := curToken in
  if negb (t =? opening) then let! x := parseError "[" "to close attribute list" in mret (x, s) else
  let! (ret, s) := loop fuel (fun s =>
    let! tok := nextToken in
    let! (ret, s) := f s tok in
    match ret with
    | Some r => mret (inr (Some r, s))
    | None =>
        let! t := curToken in
        mret (if t =? sep then inl s else inr (None, s))
    end) s in
  match ret with
  | Some r => mret (Some r, s)
  | None =>
      let! t := curToken in
      if negb (t =? closing) then
        let! x := parseError "]" "to close attribute list" in mret (x, s)
      else
        let! _ := eat closing in
        mret (None, s)
  end.

(** One name of an attribute tuple. *)
Definition attribute_item (l : list string) (tok : Z) : M (option ModuleAST * list string) :=
  if negb (tok =? tok_identifier) then
    let! x := parseError "identifier" "in attribute tuple" in mret (x, l)
  else
    let! name := id in
    let! _ := eat tok_identifier in
    mret (None, l ++ [name]).

(** One attribute: a key, alone (true), or with a name or a tuple of names. *)
Definition attribute (fuel : nat) (attributes : AttributesType) (tok : Z)
    : M (option ModuleAST * AttributesType) :=
  let! t := curToken in
  if negb (t =? tok_identifier) then
    let! x := parseError "identifier" "in attribute key" in mret (x, attributes)
  else
  let! attrKey := id in
  let! _ := eat tok_identifier in
  let! t := curToken in
  let! (ret, attrValue) :=
    (if t =? tok_eq then
       let! _ := eat tok_eq in
       let! t := curToken in
       if t =? tok_identifier then
         let! x := id in
         let! _ := eat tok_identifier in
         mret (None, AttrString x)
       else if t =? tok_parenthese_open then
         let! (ret, l) :=
           separateBy fuel tok_parenthese_open tok_parenthese_close tok_comma attribute_item [] in
         mret (ret, AttrList l)
       else mret (None, AttrString "")
     else mret (None, AttrBool true)) in
  match ret with
  | Some r => mret (Some r, attributes)
  | None => mret (None, <[attrKey := attrValue]> attributes)
  end.

(** The handlers of a scope, [name] or [name:atom]. *)
Definition scope_handlers (fuel : nat) : M (option (list string)) :=
  let! t := curToken in
  if negb (t =? tok_angle_bracket_open) then mret (Some []) else
  let! handlers := loop fuel (fun handlers =>
    let! t := nextToken in
    if negb (t =? tok_identifier) then
      let! x := parseError "handler name identifier" "in scope handler list" in mret (inr x)
    else
    let! handler := id in
    let! _ := eat tok_identifier in
    let! t := curToken in
    let! handler :=
      (if t =? tok_colon then
         let! _ := eat tok_colon in
         let! t := curToken in
         if negb (t =? tok_identifier) then
           parseError "handler name atom" "in scope handler list"
         else
           let! atom := id in
           let! _ := eat tok_identifier in
           mret (Some (handler +:+ ":" +:+ atom))
       else mret (Some handler)) in
    match handler with
    | None => mret (inr None)
    | Some handler =>
        let! t := curToken in
        mret (if t =? tok_comma then inl (handlers ++ [handler]) else inr (Some (handlers ++ [handler])))
    end) [] in
  match handlers with
  | None => mret None
  | Some handlers =>
      let! t := curToken in
      if negb (t =? tok_angle_bracket_close) then parseError ">" "to close scope handler list" else
      let! _ := eat tok_angle_bracket_close in
      mret (Some handlers)
  end.

Definition scope_partition_key : M (option string) :=
  let! t := curToken in
  if negb (t =? tok_sbracket_open) then mret (Some "") else
  let! _ := eat tok_sbracket_open in
  let! t := curToken in
  if negb (t =? tok_identifier) then parseError "identifier" "in scope partition key" else
  let! key := id in
  let! _ := eat tok_identifier in
  let! t := curToken in
  if negb (t =? tok_sbracket_close) then parseError "]" "to close scope partition key" else
  let! _ := eat tok_sbracket_close in
  mret (Some key).

(** scope := scope name < handler:atom , handler:atom .. > ; *)
Definition parseScope (fuel : nat) : M (option RecordBody) :=
  let! _ := eat tok_scope in
  let! t := curToken in
  if negb (t =? tok_identifier) then parseError "name identifier" "in scope declaration" else
  let! name := id in
  let! _ := eat tok_identifier in
  let! handlers := scope_handlers fuel in
  match handlers with
  | None => mret None
  | Some handlers =>
      let! partitionKey := scope_partition_key in
      match partitionKey with
      | None => mret None
      | Some partitionKey =>
          let! loc := lastLoc in
          let! _ := eat tok_semicolon in
          mret (Some (ScopeAST loc name handlers partitionKey))
      end
  end.

Definition parseGlobal (fuel : nat) : M RecordBody :=
  let! _ := eat tok_global in
  let! decl := parseDeclaration fuel false in
  match decl with
  | None => fail Undefined        (* decl->loc() *)
  | Some decl =>
      let! _ := eat tok_semicolon in
      mret (GlobalAST (d_loc decl) (d_name decl) decl)
  end.

(** What one round of the loop of [parseModule] does: go on without a record, end
    the parse, leave the loop, or add a record. *)
Inductive round := Continue (attributes : AttributesType) | ReturnNull | Leave | Record (r : RecordBody).

Definition record_or_leave (r : option RecordBody) : round :=
  match r with Some r => Record r | None => Leave end.

Definition module_round (fuel : nat) (attributes : AttributesType) : M round :=
  let! tok := curToken in
  if tok =? tok_eof then mret Leave
  else if (tok =? tok_def) || (tok =? tok_handler) || (tok =? tok_controller) then
    let! r := parseDefinition fuel tok in mret (record_or_leave r)
  else if (tok =? tok_struct) || (tok =? tok_event) then
    let! r := parseStruct fuel tok in mret (record_or_leave r)
  else if tok =? tok_extern then
    let! _ := eat tok_extern in
    mret (Continue (<["extern" := AttrBool true]> attributes))
  else if tok =? tok_sbracket_open then
    let! (ptr, attributes) :=
      separateBy fuel tok_sbracket_open tok_sbracket_close tok_comma (attribute fuel) attributes in
    mret (match ptr with Some _ => ReturnNull | None => Continue attributes end)
  else if tok =? tok_scope then
    let! r := parseScope fuel in
    mret (match r with Some r => Record r | None => ReturnNull end)
  else if tok =? tok_global then
    let! r := parseGlobal fuel in mret (Record r)
  else
    let! _ := parseError (A := ModuleAST) "Top level definitions (struct, function, global Ops)"
      "when parsing top level module records" in
    mret ReturnNull.

Definition parseModule (fuel : nat) : M (option ModuleAST) :=
  let! _ := nextToken in
  let! records := loop fuel (fun '(attributes, records) =>
    let! r := module_round fuel attributes in
    mret (match r with
          | Continue attributes => inl (attributes, records)
          | ReturnNull => inr None
          | Leave => inr (Some records)
          | Record r => inl (∅, records ++ [MkRecord attributes r])
          end)) (∅, []) in
  match records with
  | None => mret None
  | Some records =>
      let! t := curToken in
      if negb (t =? tok_eof) then parseError "nothing" "at end of module"
      else mret (Some records)
  end.

(** [Parser(LexerBuffer(text)).parseModule()], with the errors printed, last first. *)
Definition parse (text : string) : result (option ModuleAST * list diagnostic) :=
  let? (m, (_, errs)) := parseModule (2 + String.length text) (LexerBuffer text, []) in
  Ok (m, errs).
End Parser.
