(* ===== verification/ParserLogic.v ===== *)
(** Reasoning about the parser: total correctness over the tokens it still has to
    read, and the proof that it never runs for ever. *)
From Stdlib Require Import ZArith Lia List String.
From stdpp Require Import base list numbers option strings gmap.
From S2P Require Import Prelude Lexer Ast Parser.
#[local] Open Scope Z_scope.

Module ParserLogic.
Import Lexer Ast Parser.

(** From any lexer that delivers [ts], and with [log] printed, [m] ends in [Q] with
    its value, the tokens left and the errors printed, or stops short in [E]. *)
Definition pwp {A} (m : M A) (Q : A -> list tok -> list diagnostic -> Prop) (E : stop -> Prop)
    (ts : list tok) (log : list diagnostic) : Prop :=
  forall l, sees l ts ->
  match m (l, log) with
  | Ok (a, (l', log')) => exists ts', sees l' ts' /\ Q a ts' log'
  | Err x => E x
  end.

Section Rules.
Context (E : stop -> Prop).
Implicit Types (ts : list tok) (log : list diagnostic).

Lemma pwp_ret {A} (a : A) (Q : A -> list tok -> list diagnostic -> Prop) ts log :
  Q a ts log -> pwp (mret a) Q E ts log.
Proof. intros HQ l Hl. by exists ts. Qed.

Lemma pwp_bind {A B} (m : M A) (f : A -> M B) Q ts log :
  pwp m (fun a ts' log' => pwp (f a) Q E ts' log') E ts log ->
  pwp (mbind' m f) Q E ts log.
Proof.
  intros Hm l Hl. specialize (Hm l Hl). unfold mbind'.
  destruct (m (l, log)) as [[a [l' log']]|x]; cbn; [|done].
  destruct Hm as (ts' & Hl' & Hf). by apply Hf.
Qed.

Lemma pwp_mono {A} (m : M A) (Q Q' : A -> list tok -> list diagnostic -> Prop) ts log :
  (forall a ts' log', Q a ts' log' -> Q' a ts' log') ->
  pwp m Q E ts log -> pwp m Q' E ts log.
Proof.
  intros HQ Hm l Hl. specialize (Hm l Hl). destruct (m (l, log)) as [[a [l' log']]|x]; [|done].
  destruct Hm as (ts' & ? & ?). eauto.
Qed.

Lemma pwp_fail {A} x (Q : A -> list tok -> list diagnostic -> Prop) ts log : E x -> pwp (fail x) Q E ts log.
Proof. by intros ? l Hl. Qed.

Lemma pwp_cur Q ts log : Q (hd_code ts) ts log -> pwp curToken Q E ts log.
Proof. intros HQ l Hl. exists ts. cbn. by rewrite (sees_cur _ _ Hl). Qed.

Lemma pwp_loc Q ts log : (forall loc, Q loc ts log) -> pwp lastLoc Q E ts log.
Proof. intros HQ l Hl. by exists ts. Qed.

Lemma pwp_next Q ts log : Q (hd_code (tail ts)) (tail ts) log -> pwp nextToken Q E ts log.
Proof.
  intros HQ l Hl. unfold nextToken. cbn. destruct (sees_next l ts Hl) as (l' & -> & Hl'). by exists (tail ts).
Qed.

Lemma pwp_peek Q ts log : match ts with TNum _ :: _ => False | _ => True end ->
  Q (hd_code (tail ts)) ts log -> pwp peekToken Q E ts log.
Proof.
  intros Hn HQ l Hl. unfold peekToken. cbn.
  destruct (sees_peek l ts Hl Hn) as (l' & -> & Hl'). by exists ts.
Qed.

Lemma pwp_eat t Q ts log : (t = hd_code ts -> Q tt (tail ts) log) ->
  (t <> hd_code ts -> E AssertFails) -> pwp (eat t) Q E ts log.
Proof.
  intros HQ HE l Hl. unfold eat, consume. cbn. pose proof (sees_cur _ _ Hl) as Hc.
  unfold getCurToken in Hc. rewrite Hc. destruct (Z.eqb_spec t (hd_code ts)) as [Ht|]; cbn; [|auto].
  destruct (sees_next l ts Hl) as (l' & -> & Hl'). cbn. exists (tail ts). auto.
Qed.

Lemma pwp_id Q ts log :
  (forall w, match ts with TWord w' :: _ => w = w' | _ => True end -> Q w ts log) ->
  (hd_code ts <> tok_identifier -> E AssertFails) -> pwp id Q E ts log.
Proof.
  intros HQ HE l Hl. unfold id, getId. cbn. pose proof (sees_cur _ _ Hl) as Hc.
  unfold getCurToken in Hc. rewrite Hc. destruct (Z.eqb_spec (hd_code ts) tok_identifier); cbn; [|auto].
  exists ts. split; [done|]. apply HQ. destruct ts as [|[w| |] ts]; try done. by rewrite (sees_id _ _ _ Hl).
Qed.

Lemma pwp_value Q ts log :
  (forall v, match ts with TNum n :: _ => v = strtod n | _ => True end -> Q v ts log) ->
  (hd_code ts <> tok_number -> E AssertFails) -> pwp value Q E ts log.
Proof.
  intros HQ HE l Hl. unfold value, getValue. cbn. pose proof (sees_cur _ _ Hl) as Hc.
  unfold getCurToken in Hc. rewrite Hc. destruct (Z.eqb_spec (hd_code ts) tok_number); cbn; [|auto].
  exists ts. split; [done|]. apply HQ. destruct ts as [|[|n|] ts]; try done. by rewrite (sees_num _ _ _ Hl).
Qed.

Lemma pwp_report d Q ts log : Q tt ts (d :: log) -> pwp (report d) Q E ts log.
Proof. intros HQ l Hl. by exists ts. Qed.

Lemma pwp_convert w v Q ts log : (truncate v < 2 ^ w -> Q (truncate v) ts log) ->
  (2 ^ w <= truncate v -> E Undefined) -> pwp (convert w v) Q E ts log.
Proof.
  intros HQ HE l Hl. unfold convert, double_to. cbn.
  destruct (Z.ltb_spec (truncate v) (2 ^ w)); cbn; [|auto]. exists ts. auto.
Qed.

Lemma pwp_error {A} expected context (Q : option A -> list tok -> list diagnostic -> Prop) ts log :
  (forall d, Q None ts (d :: log)) -> pwp (parseError expected context) Q E ts log.
Proof.
  intros HQ. apply pwp_bind, pwp_cur, pwp_bind, pwp_loc. intros loc.
  apply pwp_bind, pwp_report, pwp_ret, HQ.
Qed.

Lemma pwp_check t Q ts log : (t = hd_code ts -> Q tt (tail ts) log) ->
  (t <> hd_code ts -> E AssertFails) -> pwp (checkConsume t) Q E ts log.
Proof.
  intros HQ HE. apply pwp_bind, pwp_cur, pwp_bind, pwp_loc. intros loc. apply pwp_bind.
  destruct (Z.eqb_spec (hd_code ts) t) as [Ht|Ht].
  - apply pwp_ret, pwp_eat; [done|congruence].
  - apply pwp_report, pwp_eat; [congruence|done].
Qed.
End Rules.

(** A loop whose rounds go down some measure, with an invariant. *)
Lemma pwp_loop {S R} (I : nat -> S -> list tok -> list diagnostic -> Prop) (body : S -> M (S + R)) Q E :
  (forall n s ts log, I n s ts log ->
     pwp (body s) (fun x ts' log' =>
       match x with
       | inl s' => exists n', (n' < n)%nat /\ I n' s' ts' log'
       | inr r => Q r ts' log'
       end) E ts log) ->
  forall fuel n s ts log, (n < fuel)%nat -> I n s ts log -> pwp (loop fuel body s) Q E ts log.
Proof.
  intros Hbody fuel. induction fuel as [|fuel IH]; intros n s ts log Hf HI; [lia|].
  cbn [loop]. apply pwp_bind. eapply pwp_mono; [|by apply Hbody].
  intros [s'|r] ts' log'; cbn.
  - intros (n' & Hn & HI'). apply (IH n'); [lia|done].
  - apply pwp_ret.
Qed.

(** The precedence of a token. *)
Definition prec (t : Z) : Z :=
  if t =? 61 then 10
  else if (t =? tok_minus) || (t =? tok_plus) then 20
  else if (t =? tok_star) || (t =? tok_slash) then 40
  else if (t =? tok_cmp_eq) || (t =? tok_cmp_le) || (t =? tok_cmp_ge) || (t =? 60) || (t =? 62)
  then 15
  else -1.

Lemma pwp_prec Q E ts log : Q (prec (hd_code ts)) ts log -> pwp getTokPrecedence Q E ts log.
Proof. intros HQ. by apply pwp_bind, pwp_cur, pwp_ret. Qed.

(** One rule for each call. *)
Ltac pstep :=
  lazymatch goal with
  | |- pwp (mbind' _ _) _ _ _ _ => apply pwp_bind
  | |- pwp (mret _) _ _ _ _ => apply pwp_ret
  | |- pwp (fail _) _ _ _ _ => apply pwp_fail
  | |- pwp curToken _ _ _ _ => apply pwp_cur
  | |- pwp lastLoc _ _ _ _ => apply pwp_loc; intros ?
  | |- pwp nextToken _ _ _ _ => apply pwp_next
  | |- pwp (report _) _ _ _ _ => apply pwp_report
  | |- pwp getTokPrecedence _ _ _ _ => apply pwp_prec
  | |- pwp (parseError _ _) _ _ _ _ => apply pwp_error; intros ?
  end; cbv beta.

(** ** Termination *)

(** [m] does not run out of fuel and leaves no more tokens than it found, fewer
    when it gives an [a] with [P a]. *)
Definition ends {A} (P : A -> bool) (m : M A) (ts : list tok) : Prop :=
  forall log, pwp m (fun a ts' _ => (length ts' + (if P a then 1 else 0) <= length ts)%nat)
    (fun x => x <> OutOfFuel) ts log.

Definition never {A} (_ : A) : bool := false.
Definition on_some {A} (o : option A) : bool := match o with Some _ => true | None => false end.

Lemma length_tail (ts : list tok) : (length (tail ts) <= length ts)%nat.
Proof. destruct ts; cbn; lia. Qed.

Lemma length_tail_lt (ts : list tok) c : c = hd_code ts -> c <> tok_eof ->
  (length (tail ts) < length ts)%nat.
Proof. destruct ts; cbn; [done|lia]. Qed.

(** Facts about the lengths in the goal, then arithmetic. *)
Ltac length_facts :=
  repeat match goal with
  | H : (hd_code _ =? _) = true |- _ => apply Z.eqb_eq in H; symmetry in H
  | H : (hd_code _ =? _) = false |- _ => clear H
  | H : negb _ = false |- _ => apply negb_false_iff in H
  | H : negb _ = true |- _ => apply negb_true_iff in H
  | H : ?c = hd_code ?ts |- _ =>
      let H' := fresh "Hlt" in
      assert (H' : (length (tail ts) < length ts)%nat)
        by (apply (length_tail_lt ts c H); first [discriminate | assumption]);
      clear H
  end;
  repeat match goal with
  | |- context [length (tail ?ts)] =>
      lazymatch goal with
      | _ : (length (tail ts) <= length ts)%nat |- _ => fail
      | _ => pose proof (length_tail ts)
      end
  | _ : context [length (tail ?ts)] |- _ =>
      lazymatch goal with
      | _ : (length (tail ts) <= length ts)%nat |- _ => fail
      | _ => pose proof (length_tail ts)
      end
  end.
Ltac tlia := cbn [never on_some fst snd andb] in *; length_facts; lia.

(** A step of a termination proof. *)
Ltac tstep :=
  first
  [ pstep
  | lazymatch goal with
    | |- pwp (eat _) _ _ _ _ => apply pwp_eat; [intros ?|discriminate]
    | |- pwp (checkConsume _) _ _ _ _ => apply pwp_check; [intros ?|discriminate]
    | |- pwp id _ _ _ _ => apply pwp_id; [intros ? _|discriminate]
    | |- pwp value _ _ _ _ => apply pwp_value; [intros ? _|discriminate]
    | |- pwp (convert _ _) _ _ _ _ => apply pwp_convert; [intros _|discriminate]
    | |- pwp (if ?b then _ else _) _ _ _ _ => destruct b eqn:?
    | |- pwp (match ?x with Some _ => _ | None => _ end) _ _ _ _ => destruct x
    | |- pwp (let '(_, _) := ?x in _) _ _ _ _ => destruct x
    | |- _ <> OutOfFuel => discriminate
    end ]; cbv beta.

(** Steps up to the next branch. *)
Ltac tlin := repeat lazymatch goal with
  | |- pwp (if _ then _ else _) _ _ _ _ => fail
  | |- pwp (match _ with Some _ => _ | None => _ end) _ _ _ _ => fail
  | |- _ => tstep
  end.

(** What a test says of the current token. *)
Ltac codes :=
  first [ assumption | apply Z.eqb_eq; assumption | apply Z.eqb_eq, negb_false_iff; assumption ].

(** Use the termination of a callee. *)
Ltac tcall H := eapply pwp_mono; [|eapply H; first [tlia | codes | idtac]]; cbv beta; intros ? ? ? ?.

(** A loop that reads a token in every round. *)
Lemma ends_loop {S R} (I : S -> list tok -> Prop) (P : R -> bool) n (body : S -> M (S + R)) :
  (forall s ts log, (length ts <= n)%nat -> I s ts ->
     pwp (body s) (fun x ts' _ =>
       match x with
       | inl s' => (length ts' < length ts)%nat /\ I s' ts'
       | inr r => (length ts' + (if P r then 1 else 0) <= n)%nat
       end) (fun x => x <> OutOfFuel) ts log) ->
  forall fuel s ts log Q, (length ts < fuel)%nat -> (length ts <= n)%nat -> I s ts ->
  (forall r ts' log', (length ts' + (if P r then 1 else 0) <= n)%nat -> Q r ts' log') ->
  pwp (loop fuel body s) Q (fun x => x <> OutOfFuel) ts log.
Proof.
  intros Hb fuel s ts log Q Hf Hn HI HQ.
  apply (pwp_loop (fun k s ts' _ => k = length ts' /\ (length ts' <= n)%nat /\ I s ts')) with (length ts);
    [|done|done].
  intros k s' ts' log' (-> & Hn' & HI'). eapply pwp_mono; [|by apply Hb].
  intros [s''|r] ts'' log'' H.
  - destruct H as [H1 H2]. exists (length ts''). split_ands; [lia|done|lia|done].
  - by apply HQ.
Qed.

(** The loops whose only invariant is that the tokens go down. *)
Ltac tloop n := eapply (ends_loop (fun _ _ => True) never n); [|tlia|tlia|done|];
  [intros ? ? ? ? _|intros ? ? ? ?].

Lemma parseAtom_ends ts : ends never parseAtom ts.
Proof. intros log. unfold parseAtom. repeat tstep; tlia. Qed.

Lemma parseNumberExpr_ends ts : ends never parseNumberExpr ts.
Proof. intros log. unfold parseNumberExpr. repeat tstep; tlia. Qed.

(** The callees whose termination is known so far, or assumed. *)
Ltac known0 :=
  match goal with
  | H : forall _, _ -> ends _ ?m _ |- pwp ?m _ _ _ _ => tcall H
  end.
Ltac known := known0.
Ltac tgo := repeat first [tstep | known]; try tlia.

Ltac known1 := lazymatch goal with
  | |- pwp parseAtom _ _ _ _ => tcall parseAtom_ends
  | |- pwp parseNumberExpr _ _ _ _ => tcall parseNumberExpr_ends
  | _ => known0
  end.
Ltac known ::= known1.

Lemma parseStructLiteral_ends fuel ts : (length ts < fuel)%nat ->
  ends never (parseStructLiteralExpr fuel) ts.
Proof.
  revert ts. induction fuel as [|fuel IH]; intros ts Hf log; [lia|]. cbn [parseStructLiteralExpr].
  do 5 tstep. tloop (length (tail ts)); tgo.
Qed.

Lemma parsePortLiteral_ends ts : ends never parsePortLiteralExpr ts.
Proof. intros log. unfold parsePortLiteralExpr. tgo. Qed.

Lemma port_group_ends fuel ts : (length ts < fuel)%nat -> hd_code ts = tok_sbracket_open ->
  ends never (port_group fuel) ts.
Proof.
  intros Hf H0 log. unfold port_group. tstep.
  eapply (ends_loop (fun _ ts => hd_code ts = tok_sbracket_open \/ hd_code ts = tok_comma) never (length ts));
    [|tlia|tlia|auto|].
  - intros s ts' log' Hle Hor. assert (length (tail ts') < length ts')%nat.
    { destruct ts'; [by destruct Hor|cbn; lia]. }
    repeat first [tstep | known]; try tlia;
      destruct (Z.eqb_spec (hd_code (tail ts')) tok_comma) as [E|E]; cbn; try tlia.
    all: destruct (_ =? tok_comma) eqn:Ec; [split; [tlia|right; by apply Z.eqb_eq]|tlia].
  - intros. tgo.
Qed.

Section Expressions.
(** Expressions terminate on fewer than [n] tokens. *)
Context (n : nat) (PE : M (option ExprAST)).
Hypothesis PE_ends : forall ts, (length ts < n)%nat -> ends never PE ts.

Lemma parseParen_ends ts : (length ts <= n)%nat -> hd_code ts = tok_parenthese_open ->
  ends never (parseParenExpr PE) ts.
Proof. intros Hn Hc%eq_sym log. unfold parseParenExpr. tgo. Qed.

Lemma call_args_ends fuel ts : (length ts < fuel)%nat -> (length ts < n)%nat ->
  ends never (call_args PE fuel) ts.
Proof.
  intros Hf Hn log. unfold call_args. tstep. tstep. tstep; [tgo|].
  tloop (length ts); tgo.
Qed.

Ltac known2 := lazymatch goal with
  | |- pwp (call_args _ _) _ _ _ _ => tcall call_args_ends
  | |- pwp (port_group _) _ _ _ _ => tcall port_group_ends
  | _ => known1
  end.
Ltac known ::= known2.

Lemma parseCall_ends fuel ts path loc : (length ts < fuel)%nat -> (length ts <= n)%nat ->
  ends never (parseCallExpr PE fuel path loc) ts.
Proof. intros Hf Hn log. unfold parseCallExpr. tgo. Qed.

Lemma dotted_ends fuel ts p : (length ts < fuel)%nat -> ends never (dotted fuel p) ts.
Proof. intros Hf log. unfold dotted. tloop (length ts); tgo. Qed.

Lemma init_values_ends fuel ts vs : (length ts < fuel)%nat -> (length ts < n)%nat ->
  ends never (init_values PE fuel vs) ts.
Proof. intros Hf Hn log. unfold init_values. tloop (length ts); tgo. Qed.

Ltac known3 := lazymatch goal with
  | |- pwp (dotted _ _) _ _ _ _ => tcall dotted_ends
  | |- pwp (init_values _ _ _) _ _ _ _ => tcall init_values_ends
  | |- pwp (parseCallExpr _ _ _ _) _ _ _ _ => tcall parseCall_ends
  | _ => known2
  end.
Ltac known ::= known3.

Lemma parseIdentifier_ends fuel ts : (length ts < fuel)%nat -> (length ts <= n)%nat ->
  hd_code ts = tok_identifier -> ends never (parseIdentifierExpr PE fuel) ts.
Proof. intros Hf Hn Hc%eq_sym log. unfold parseIdentifierExpr. tgo. Qed.

Lemma parsePrimary_ends fuel ts : (length ts < fuel)%nat -> (length ts <= n)%nat ->
  ends never (parsePrimary PE fuel) ts.
Proof.
  intros Hf Hn log. unfold parsePrimary. do 2 tstep.
  tstep; [tcall parseIdentifier_ends; tlia|]. tstep; [tgo|]. tstep; [tgo|].
  tstep; [tcall parseParen_ends; tlia|]. tstep; [tcall parsePortLiteral_ends; tlia|].
  tstep; [tcall parseStructLiteral_ends; tlia|]. tgo.
Qed.

Lemma prec_eof ts : 0 <= prec (hd_code ts) -> (length (tail ts) < length ts)%nat.
Proof. destruct ts; cbn; [done|lia]. Qed.

Lemma parseBinOp_ends fuel p lhs ts : (length ts < fuel)%nat -> (length ts <= n)%nat -> 0 <= p ->
  ends never (parseBinOpRHS PE fuel p lhs) ts.
Proof.
  revert p lhs ts. induction fuel as [|fuel IH]; intros p lhs ts Hf Hn Hp log; [lia|].
  cbn [parseBinOpRHS]. do 3 tstep; [tgo|]. apply Z.ltb_ge in Heqb.
  pose proof (prec_eof ts ltac:(lia)) as Hlt. assert (0 <= prec (hd_code ts) + 1) by lia. clear Heqb.
  do 4 tstep. clear H0. do 3 tstep. tcall parsePrimary_ends. tstep; [|tgo]. do 4 tstep.
  - tcall IH. tstep; [|tgo]. tcall IH. tgo.
  - tstep. tcall IH. tgo.
Qed.
End Expressions.

Lemma parseExpression_ends fuel ts : (length ts < fuel)%nat -> ends never (parseExpression fuel) ts.
Proof.
  revert ts. induction fuel as [|fuel IH]; intros ts Hf log; [lia|]. cbn [parseExpression].
  tstep. tcall (parsePrimary_ends fuel _ IH). tstep; [|tgo].
  tcall (parseBinOp_ends fuel _ IH). tgo.
Qed.

(** *** Declarations and statements *)

Lemma parseType_ends fuel ts : (length ts < fuel)%nat -> ends never (parseType fuel) ts.
Proof.
  revert ts. induction fuel as [|fuel IH]; intros ts Hf log; [lia|]. cbn [parseType].
  do 3 tstep; [tgo|]. apply negb_false_iff, Z.eqb_eq, eq_sym in Heqb. do 6 tstep.
  tstep; [|tgo]. apply Z.eqb_eq, eq_sym in Heqb0. tstep.
  eapply (ends_loop (fun _ ts => hd_code ts <> tok_eof) never (length (tail ts)));
    [|tlia|tlia|by rewrite <- Heqb0|intros; tgo].
  intros s ts' log' Hle Hne. assert (length (tail ts') < length ts')%nat by (destruct ts'; [done|cbn; lia]).
  repeat first [tstep | known]; try tlia.
  all: destruct (_ =? tok_comma) eqn:Ec; [split; [tlia|]|tlia];
    apply Z.eqb_eq in Ec; by rewrite Ec.
Qed.

Ltac known4 := lazymatch goal with
  | |- pwp (parseExpression _) _ _ _ _ => tcall parseExpression_ends
  | |- pwp (parseType _) _ _ _ _ => tcall parseType_ends
  | _ => known1
  end.
Ltac known ::= known4.

Lemma parseTypedDeclaration_ends fuel ty r loc ts : (length ts < fuel)%nat ->
  ends never (parseTypedDeclaration fuel ty r loc) ts.
Proof. intros Hf log. unfold parseTypedDeclaration. tgo. Qed.

Lemma parseDeclaration_ends fuel r ts : (length ts < fuel)%nat ->
  ends never (parseDeclaration fuel r) ts.
Proof. intros Hf log. unfold parseDeclaration. tgo. tcall parseTypedDeclaration_ends. tlia. Qed.

Lemma parseReturn_ends fuel t ts : (length ts < fuel)%nat -> ends never (parseReturn fuel t) ts.
Proof.
  intros Hf log. unfold parseReturn. do 3 tstep.
  apply pwp_eat; [intros _|discriminate]. tgo.
Qed.

(** At least one semicolon goes when there is one. *)
Lemma swallow_ends fuel ts : (length ts < fuel)%nat ->
  forall log, pwp (swallow_semicolons fuel) (fun _ ts' _ => (length ts' <= length ts)%nat /\
    (hd_code ts = tok_semicolon -> (length ts' < length ts)%nat)) (fun x => x <> OutOfFuel) ts log.
Proof.
  intros Hf log. unfold swallow_semicolons.
  apply (pwp_loop (fun k _ ts' _ => k = length ts' /\ (length ts' <= length ts)%nat /\
    (length ts' = length ts -> ts' = ts))) with (length ts); [|done|done].
  intros k [] ts' log' (-> & Hle & Heq). do 3 tstep.
  - do 3 tstep. eexists. split; [|split; [reflexivity|]]; [tlia|]. split; [tlia|]. intros. exfalso. tlia.
  - tstep. split; [done|]. intros Hc. destruct (Nat.eq_dec (length ts') (length ts)) as [E|]; [|lia].
    rewrite (Heq E), Hc in Heqb. done.
Qed.

Lemma peeks_ends ts : hd_code ts = tok_identifier ->
  forall log, pwp peeks_declaration (fun _ ts' _ => ts' = ts) (fun x => x <> OutOfFuel) ts log.
Proof.
  intros Hc log. assert (Hn : match ts with TNum _ :: _ => False | _ => True end) by by destruct ts as [|[]].
  unfold peeks_declaration. tstep. apply pwp_peek; [done|]. tstep; [by tstep|]. tstep.
  apply pwp_peek; [done|]. by tstep.
Qed.

Section Statements.
Context (fuel : nat) (PB : M (option ExprASTList)).
Hypothesis PB_ends : forall ts, (length ts < fuel)%nat -> ends never PB ts.

Lemma parseIf_ends ts : (length ts < S fuel)%nat -> hd_code ts = tok_if ->
  ends on_some (parseIf (S fuel) PB) ts.
Proof. intros Hf Hc%eq_sym log. unfold parseIf. tgo. Qed.

Ltac known5 := lazymatch goal with
  | |- pwp (parseDeclaration _ _) _ _ _ _ => tcall parseDeclaration_ends
  | |- pwp (parseReturn _ _) _ _ _ _ => tcall parseReturn_ends
  | |- pwp (parseIf _ _) _ _ _ _ => tcall parseIf_ends
  | _ => known4
  end.

(** A conditional takes at least its keyword. *)
Lemma parseStatement_ends ts : (length ts < S fuel)%nat ->
  ends (fun r => snd r && on_some (fst r)) (parseStatement (S fuel) PB) ts.
Proof.
  intros Hf log. unfold parseStatement. tstep. tstep.
  tstep; [tstep; known5; tstep; destruct a; tlia|].
  tstep; [tstep; known5; tstep; destruct a; tlia|]. tstep.
  eapply (pwp_mono _ _ (fun _ ts' _ => ts' = ts)).
  2: { tstep; [|by tstep]. apply peeks_ends. by apply Z.eqb_eq. }
  intros b ? log' ->. cbv beta. tstep; [tstep; known5; tstep; destruct a; tlia|].
  tstep; [tstep; known5; tstep; destruct a; tlia|].
  tstep; known5; tstep; destruct a; tlia.
Qed.
End Statements.

Lemma parseBlock_ends fuel ts : (length ts < fuel)%nat -> ends never (parseBlock fuel) ts.
Proof.
  revert ts. induction fuel as [|fuel IH]; intros ts Hf log; [lia|]. cbn [parseBlock].
  do 3 tstep; [tgo|]. do 3 tstep. eapply pwp_mono; [|apply swallow_ends; tlia].
  intros [] ts1 log1 [H1 _]. cbv beta. tstep. tloop (length (tail ts)); [|tgo].
  do 3 tstep; [|tgo]. tstep. eapply pwp_mono; [|apply (parseStatement_ends fuel _ IH); tlia].
  intros [[e|] b] ts2 log2 H2; cbv beta iota; [|tgo]. cbn in H2. do 3 tstep.
  - tstep. tstep. tstep. tlia.
  - tstep. eapply pwp_mono; [|apply swallow_ends; tlia]. intros [] ts3 log3 [H3 H4]. cbv beta. tstep.
    apply andb_false_iff in Heqb1 as [Hb%negb_false_iff|Hb%negb_false_iff%Z.eqb_eq].
    + subst b. cbn in H2. tlia.
    + specialize (H4 Hb). destruct b; cbn in H2; tlia.
Qed.

(** *** Records and modules *)

Ltac known6 := lazymatch goal with
  | |- pwp (parseDeclaration _ _) _ _ _ _ => tcall parseDeclaration_ends
  | |- pwp (parseBlock _) _ _ _ _ => tcall parseBlock_ends
  | _ => known4
  end.
Ltac known ::= known6.

(** The parameters: the current token is the opening parenthesis or a comma. *)
Lemma prototype_args_ends fuel ts : (length ts < fuel)%nat -> hd_code ts = tok_parenthese_open ->
  ends never (prototype_args fuel) ts.
Proof.
  intros Hf Hc log. unfold prototype_args.
  eapply (ends_loop (fun _ ts => hd_code ts <> tok_eof) never (length ts)); [|tlia|tlia|by rewrite Hc|].
  2: { intros r ts' log' H. exact H. }
  intros s ts' log' Hle Hne. assert (length (tail ts') < length ts')%nat by (destruct ts'; [done|cbn; lia]).
  repeat first [tstep | known]; try tlia.
  all: destruct (_ =? tok_comma) eqn:Ec; [split; [tlia|]|tlia];
    apply Z.eqb_eq in Ec; by rewrite Ec.
Qed.

Ltac eat_keyword Hk :=
  apply pwp_eat; [intros _; pose proof (length_tail_lt _ _ Hk ltac:(discriminate || assumption))|discriminate].

Lemma parsePrototype_ends fuel token ts : (length ts < fuel)%nat -> token <> tok_eof ->
  ends on_some (parsePrototype fuel token) ts.
Proof.
  intros Hf Hne log. unfold parsePrototype. tlin; tstep; [tgo|].
  apply negb_false_iff, Z.eqb_eq, eq_sym in Heqb. tstep. eat_keyword Heqb.
  tlin; tstep; [tgo|]. tlin.
  eapply (pwp_mono _ _ (fun _ ts' _ => (length ts' <= length (tail ts))%nat)).
  2: { tgo. }
  intros atom ts1 log1 H1. cbv beta. tlin; tstep; [tgo|].
  apply negb_false_iff, Z.eqb_eq in Heqb1. tstep. apply pwp_peek; [by destruct ts1 as [|[]]|].
  do 2 tstep; [|tgo]. tcall prototype_args_ends. tgo.
Qed.

Lemma parseDefinition_ends fuel token ts : (length ts < fuel)%nat -> token <> tok_eof ->
  ends on_some (parseDefinition fuel token) ts.
Proof.
  intros Hf Hne log. unfold parseDefinition. tstep. tcall parsePrototype_ends.
  tstep; [|tgo]. tstep. tcall parseBlock_ends. tstep. destruct a; cbn in *; lia.
Qed.

Lemma struct_decls_ends fuel ts : (length ts < fuel)%nat -> ends never (struct_decls fuel) ts.
Proof. intros Hf log. unfold struct_decls. tloop (length ts); tgo. Qed.

Lemma parseStruct_ends fuel token ts : (length ts < fuel)%nat -> token <> tok_eof ->
  ends on_some (parseStruct fuel token) ts.
Proof.
  intros Hf Hne log. unfold parseStruct. do 3 tstep. apply pwp_eat; [intros Hk|discriminate].
  pose proof (length_tail_lt _ _ Hk Hne). clear Hk. tlin; tstep; [tgo|]. tlin; tstep; [tgo|].
  tlin. tcall struct_decls_ends. tgo.
Qed.

(** The elements of a list, when each of them terminates. *)
Lemma separateBy_ends {T S} fuel opening closing sep (f : S -> Z -> M (option T * S)) s ts :
  (length ts < fuel)%nat -> opening <> tok_eof -> sep <> tok_eof ->
  (forall s t ts, (length ts < fuel)%nat -> t = hd_code ts -> ends never (f s t) ts) ->
  forall log, pwp (separateBy fuel opening closing sep f s)
    (fun _ ts' _ => (length ts' <= length ts)%nat /\
       (hd_code ts = opening -> (length ts' < length ts)%nat)) (fun x => x <> OutOfFuel) ts log.
Proof.
  intros Hf Ho Hs Hfe log. unfold separateBy. do 3 tstep.
  { apply negb_true_iff, Z.eqb_neq in Heqb. tgo. }
  apply negb_false_iff, Z.eqb_eq in Heqb. tstep.
  assert (Hlt : (length (tail ts) < length ts)%nat) by (apply (length_tail_lt ts opening); congruence).
  eapply (ends_loop (fun _ ts' => hd_code ts' <> tok_eof /\ (length ts' <= length ts)%nat)
            (fun _ => true) (length ts)); [|lia|done|split; [congruence|lia]|].
  - intros s' ts' log' Hle [Hne _].
    assert (length (tail ts') < length ts')%nat by (destruct ts'; [done|cbn; lia]).
    do 3 tstep. eapply pwp_mono; [|apply Hfe; [lia|done]]. intros [ret s1] ts1 log1 H1. cbv beta.
    tstep; [tgo|]. do 3 tstep. cbn in H1. destruct (Z.eqb_spec (hd_code ts1) sep) as [E|E].
    + split; [lia|]. split; [congruence|lia].
    + lia.
  - intros [ret s1] ts1 log1 H1. cbv beta iota. tstep; [tstep; split; intros; lia|].
    do 3 tstep; [do 3 tstep; split; intros; lia|]. tstep. apply pwp_eat; [intros _|discriminate].
    tstep. pose proof (length_tail ts1). split; intros; lia.
Qed.

Lemma attribute_item_ends l t ts : t = hd_code ts -> ends never (attribute_item l t) ts.
Proof. intros -> log. unfold attribute_item. tgo. Qed.

Lemma attribute_ends fuel attrs t ts : (length ts < fuel)%nat -> ends never (attribute fuel attrs t) ts.
Proof.
  intros Hf log. unfold attribute. tlin; tstep; [tgo|]. tlin.
  eapply (pwp_mono _ _ (fun _ ts' _ => (length ts' <= length (tail ts))%nat)).
  { intros [ret v] ts' log' H'. cbv beta iota. tgo. }
  repeat tstep; try tlia.
  eapply pwp_mono; [|apply separateBy_ends; [tlia|done|done|]].
  - intros [ret l] ts' log' [H' _]. cbv beta iota. tstep. tlia.
  - intros s t' ts' _ Ht. by apply attribute_item_ends.
Qed.

Lemma scope_handlers_ends fuel ts : (length ts < fuel)%nat -> ends never (scope_handlers fuel) ts.
Proof.
  intros Hf log. unfold scope_handlers. do 3 tstep; [tgo|].
  apply negb_false_iff, Z.eqb_eq in Heqb. tstep.
  eapply (ends_loop (fun _ ts => hd_code ts <> tok_eof) never (length ts)); [|tlia|tlia|by rewrite Heqb|].
  2: { intros. tgo. }
  intros s ts' log' Hle Hne. assert (length (tail ts') < length ts')%nat by (destruct ts'; [done|cbn; lia]).
  repeat first [tstep | known]; try tlia.
  all: destruct (_ =? tok_comma) eqn:Ec; [split; [tlia|]|tlia];
    apply Z.eqb_eq in Ec; by rewrite Ec.
Qed.

Lemma scope_partition_key_ends ts : ends never scope_partition_key ts.
Proof. intros log. unfold scope_partition_key. tgo. Qed.

Lemma parseScope_ends fuel ts : (length ts < fuel)%nat -> ends on_some (parseScope fuel) ts.
Proof.
  intros Hf log. unfold parseScope. tlin; tstep; [tgo|]. tlin.
  tcall scope_handlers_ends. tstep; [|tgo]. tstep. tcall scope_partition_key_ends. tgo.
Qed.

Lemma parseGlobal_ends fuel ts : (length ts < fuel)%nat -> ends (fun _ => true) (parseGlobal fuel) ts.
Proof. intros Hf log. unfold parseGlobal. tgo. Qed.

(** Every round that is followed by another reads a token. *)
Definition goes_on (r : round) : bool :=
  match r with Continue _ | Record _ => true | _ => false end.

Lemma module_round_ends fuel attrs ts : (length ts < fuel)%nat -> ends goes_on (module_round fuel attrs) ts.
Proof.
  intros Hf log. unfold module_round. do 3 tstep; [tstep; cbn; lia|]. apply Z.eqb_neq in Heqb.
  tstep. { tstep. tcall parseDefinition_ends. tstep. destruct a; cbn in *; lia. }
  tstep. { tstep. tcall parseStruct_ends. tstep. destruct a; cbn in *; lia. }
  tstep. { tgo. cbn. tlia. }
  tstep.
  { tstep. apply Z.eqb_eq in Heqb3. eapply pwp_mono; [|apply separateBy_ends; [lia|done|done|]].
    - intros [ptr attrs'] ts' log' [H1 H2]. cbv beta iota. tstep. specialize (H2 Heqb3).
      destruct ptr; cbn; lia.
    - intros. by apply attribute_ends. }
  tstep. { tstep. tcall parseScope_ends. tstep. destruct a; cbn in *; lia. }
  tstep. { tstep. tcall parseGlobal_ends. tstep. cbn in *; lia. }
  tgo. cbn. tlia.
Qed.

Lemma parseModule_ends fuel ts : (length ts < fuel)%nat -> ends never (parseModule fuel) ts.
Proof.
  intros Hf log. unfold parseModule. do 3 tstep.
  eapply (ends_loop (fun _ _ => True) never (length ts)); [|tlia|tlia|done|].
  - intros [attrs records] ts' log' Hle _. tstep. tcall module_round_ends. tstep.
    destruct a; cbn in *; lia.
  - intros. tgo.
Qed.

(** C6: The parser terminates on every text of ASCII characters, well formed or
    not: the recursion and the loops of every parse function end within a fuel of
    the length of the text plus two. *)
Theorem parse_terminates text : plain text = true -> parse text <> Err OutOfFuel.
Proof.
  intros Hp. destruct (sees_before text Hp) as [t Hl]. unfold parse.
  pose proof (parseModule_ends (2 + String.length text) (t :: text_tokens text)) as H.
  pose proof (length_text_tokens text) as Hlen. specialize (H ltac:(cbn [length]; lia) []).
  specialize (H _ Hl). destruct (parseModule _ _) as [[m [l errs]]|x]; cbn; [done|congruence].
Qed.

Lemma parse_terminates_witness :
  let text := "handler f() { while ( ((("%string in plain text = true /\ parse text <> Err OutOfFuel.
Proof. split; [reflexivity|]. apply parse_terminates. reflexivity. Defined.
End ParserLogic.
