(* ===== verification/AstPrint.v ===== *)
(** A printer for the syntax trees, as token lists: the concrete syntax the parser
    is proved against (ParserRoundTrip), and trees up to locations. *)
From Stdlib Require Import ZArith Lia List String.
From stdpp Require Import base list numbers option strings gmap.
From S2P Require Import Prelude Lexer Ast Parser ParserLogic.
#[local] Open Scope Z_scope.
#[local] Arguments String.append !_ _ : simpl nomatch.

Module AstPrint.
Import Lexer Ast Parser ParserLogic.

(** ** Trees up to locations *)

Definition no_loc := Loc 0 0.
Definition erase_var (v : VariableExprAST) : VariableExprAST := MkVariable no_loc (v_name v).
Definition erase_path (p : PathExprAST) : PathExprAST := MkPath no_loc (map erase_var (path p)).
Definition erase_decl (f : ExprAST -> ExprAST) (d : VarDeclExprAST ExprAST) : VarDeclExprAST ExprAST :=
  MkVarDecl no_loc (d_name d) (d_type d) (option_map f (initVal d)).

Fixpoint erase (e : ExprAST) : ExprAST :=
  match e with
  | NumberExprAST _ v => NumberExprAST no_loc v
  | LiteralExprAST _ vs ds => LiteralExprAST no_loc (map erase vs) ds
  | StructLiteralExprAST _ vs => StructLiteralExprAST no_loc (map (option_map erase) vs)
  | AtomLiteralExprAST _ a => AtomLiteralExprAST no_loc a
  | PortLiteralExprAST _ ev a i => PortLiteralExprAST no_loc ev a i
  | PathExpr p => PathExpr (erase_path p)
  | VarDeclExpr d => VarDeclExpr (MkVarDecl no_loc (d_name d) (d_type d) (option_map erase (initVal d)))
  | InitExprAST _ t vs => InitExprAST no_loc t (map erase vs)
  | ReturnExprAST _ e => ReturnExprAST no_loc (option_map (option_map erase) e)
  | BinaryExprAST _ op l r => BinaryExprAST no_loc op (erase l) (erase r)
  | CallExprAST _ c args ins outs => CallExprAST no_loc (erase_path c) (map erase args) ins outs
  | IfElseExprAST _ c t e =>
      IfElseExprAST no_loc (erase c) (option_map (map erase) t) (option_map (map erase) e)
  end.

Definition erase_proto (p : PrototypeAST) : PrototypeAST :=
  MkPrototype no_loc (pr_name p) (map (erase_decl erase) (pr_args p)) (pr_atom p) (pr_type p).
Definition erase_body (r : RecordBody) : RecordBody :=
  match r with
  | FunctionAST p b => FunctionAST (erase_proto p) (map erase b)
  | StructAST ev _ n vs => StructAST ev no_loc n (map (erase_decl erase) vs)
  | ScopeAST _ n hs k => ScopeAST no_loc n hs k
  | GlobalAST _ n v => GlobalAST no_loc n (erase_decl erase v)
  end.
Definition erase_record (r : RecordAST) : RecordAST := MkRecord (attributes r) (erase_body (r_body r)).

(** ** Tokens *)

Definition sym (c : Z) : tok := TSym c.

(** Lists with a comma after each element but the last. *)
Fixpoint commas (l : list (list tok)) : list tok :=
  match l with
  | [] => []
  | [t] => t
  | t :: l' => t ++ sym tok_comma :: commas l'
  end.

Definition is_op (c : Z) : bool := 0 <=? prec c.
Definition level (e : ExprAST) : Z := match e with BinaryExprAST _ op _ _ => prec op | _ => 100 end.

(** In parentheses where the context binds tighter. *)
Definition paren (p lev : Z) (ts : list tok) : list tok :=
  if lev <? p then sym tok_parenthese_open :: ts ++ [sym tok_parenthese_close] else ts.

Definition print_number (v : Z) : list tok := [TNum (dec v)].

Fixpoint print_dotted (vs : list VariableExprAST) : list tok :=
  match vs with
  | [] => []
  | [v] => [TWord (v_name v)]
  | v :: vs' => TWord (v_name v) :: sym tok_dot :: print_dotted vs'
  end.

Definition print_port (s : string) : list tok :=
  [if bool_decide (s = "*") then sym tok_star else TWord s].
Definition print_group (ps : list string) : list tok :=
  sym tok_sbracket_open :: commas (map print_port ps) ++ [sym tok_sbracket_close].

Fixpoint pexpr (e : ExprAST) : list tok :=
  match e with
  | NumberExprAST _ v => print_number v
  | AtomLiteralExprAST _ a => [sym tok_colon; TWord a]
  | StructLiteralExprAST _ vs =>
      sym tok_bracket_open ::
      commas (map (fun v => match v with Some e => pexpr e | None => [] end) vs) ++
      [sym tok_bracket_close]
  | PortLiteralExprAST _ ev a i =>
      sym tok_sbracket_open :: TWord ev ::
      (if bool_decide (a = "") then [] else [sym tok_colon; TWord a]) ++
      sym tok_comma :: (if i =? -1 then [sym tok_star] else print_number i) ++
      [sym tok_sbracket_close]
  | PathExpr p => print_dotted (path p)
  | InitExprAST _ t vs =>
      TWord (type_name t) :: sym tok_bracket_open :: commas (map pexpr vs) ++ [sym tok_bracket_close]
  | BinaryExprAST _ op l r =>
      paren (prec op) (level l) (pexpr l) ++ sym op :: paren (prec op + 1) (level r) (pexpr r)
  | CallExprAST _ c args ins outs =>
      print_dotted (path c) ++
      sym tok_parenthese_open :: commas (map pexpr args) ++ sym tok_parenthese_close ::
      (if isCommand ins outs then print_group ins ++ print_group outs else [])
  | LiteralExprAST _ _ _ | VarDeclExpr _ | ReturnExprAST _ _ | IfElseExprAST _ _ _ _ => []
  end.

(** ** The trees the syntax can write *)

Definition good_id (s : string) : bool := (keyword s =? tok_identifier) && wf_tok (TWord s).
Definition exact_number (v : Z) : bool := (0 <=? v) && (v <? 2 ^ 53).

Definition good_path (p : PathExprAST) : bool :=
  negb (length (path p) =? 0)%nat && forallb (fun v => good_id (v_name v)) (path p).

(** Nested literals of numbers. *)
Fixpoint good_literal (e : ExprAST) : bool :=
  match e with
  | NumberExprAST _ v => exact_number v
  | StructLiteralExprAST _ vs =>
      negb (length vs =? 0)%nat &&
      forallb (fun v => match v with Some e => good_literal e | None => false end) vs
  | _ => false
  end.

Definition good_port (s : string) : bool := bool_decide (s = "*") || good_id s.

Fixpoint good_expr (e : ExprAST) : bool :=
  match e with
  | NumberExprAST _ v => exact_number v
  | AtomLiteralExprAST _ a => good_id a
  | StructLiteralExprAST _ vs => good_literal e
  | PortLiteralExprAST _ ev a i =>
      good_id ev && (bool_decide (a = "") || good_id a) && (-1 <=? i) && (i <? 2 ^ 31)
  | PathExpr p => good_path p
  | InitExprAST _ (MkVarType n ps) vs =>
      good_id n && (length ps =? 0)%nat && negb (length vs =? 0)%nat && forallb good_expr vs
  | BinaryExprAST _ op l r => is_op op && good_expr l && good_expr r
  | CallExprAST _ c args ins outs =>
      good_path c && forallb good_expr args && forallb good_port ins && forallb good_port outs
  | LiteralExprAST _ _ _ | VarDeclExpr _ | ReturnExprAST _ _ | IfElseExprAST _ _ _ _ => false
  end.

(** ** Declarations and statements *)

Fixpoint ptype (t : VarType) : list tok :=
  let 'MkVarType n ps := t in
  TWord n ::
  match ps with
  | [] => []
  | _ => sym tok_angle_bracket_open :: commas (map pparam ps) ++ [sym tok_angle_bracket_close]
  end
with pparam (p : VarTemplateParam) : list tok :=
  match p with
  | VarTemplateParam_Integer v => print_number v
  | VarTemplateParam_Type (Some t) => ptype t
  | VarTemplateParam_Type None => []
  end.

Fixpoint good_type (t : VarType) : bool :=
  let 'MkVarType n ps := t in good_id n && forallb good_param ps
with good_param (p : VarTemplateParam) : bool :=
  match p with
  | VarTemplateParam_Integer v => exact_number v
  | VarTemplateParam_Type (Some t) => good_type t
  | VarTemplateParam_Type None => false
  end.

Definition pdecl (d : VarDeclExprAST ExprAST) : list tok :=
  ptype (d_type d) ++ TWord (d_name d) ::
  match initVal d with Some e => sym tok_eq :: pexpr e | None => [] end.
Definition good_decl (d : VarDeclExprAST ExprAST) : bool :=
  good_type (d_type d) && good_id (d_name d) &&
  match initVal d with Some e => good_expr e | None => true end.

(** An expression statement that begins like a declaration. *)
Definition clash (ts : list tok) : bool :=
  match ts with
  | TWord _ :: t :: _ => (code t =? tok_identifier) || (code t =? tok_angle_bracket_open)
  | _ => false
  end.

Definition is_block (e : ExprAST) : bool := match e with IfElseExprAST _ _ _ _ => true | _ => false end.

(** Statements end in a semicolon, conditionals in their block. *)
Fixpoint pstmt (e : ExprAST) : list tok :=
  let block := fun b : list ExprAST =>
    sym tok_bracket_open ::
    concat (map (fun s => pstmt s ++ if is_block s then [] else [sym tok_semicolon]) b) ++
    [sym tok_bracket_close] in
  match e with
  | VarDeclExpr d => pdecl d
  | ReturnExprAST _ x => TWord "return" :: match x with Some (Some x) => pexpr x | _ => [] end
  | IfElseExprAST _ c t el =>
      TWord "if" :: sym tok_parenthese_open :: pexpr c ++ sym tok_parenthese_close ::
      match t with Some b => block b | None => [] end ++
      match el with Some b => TWord "else" :: block b | None => [] end
  | _ => paren (if clash (pexpr e) then 1000 else 0) (level e) (pexpr e)
  end.

Definition pstmt_end (s : ExprAST) : list tok :=
  pstmt s ++ if is_block s then [] else [sym tok_semicolon].
Definition pblock (b : ExprASTList) : list tok :=
  sym tok_bracket_open :: concat (map pstmt_end b) ++ [sym tok_bracket_close].

Fixpoint good_stmt (e : ExprAST) : bool :=
  match e with
  | VarDeclExpr d => good_decl d
  | ReturnExprAST _ x =>
      match x with None => true | Some (Some x) => good_expr x | Some None => false end
  | IfElseExprAST _ c t el =>
      good_expr c &&
      match t with Some b => forallb good_stmt b | None => false end &&
      match el with Some b => forallb good_stmt b | None => true end
  | _ => good_expr e
  end.

(** ** Records and modules *)

Definition parg (d : VarDeclExprAST ExprAST) : list tok := ptype (d_type d) ++ [TWord (d_name d)].
Definition good_arg (d : VarDeclExprAST ExprAST) : bool :=
  good_type (d_type d) && good_id (d_name d) &&
  match initVal d with Some _ => false | None => true end.

Definition pproto (p : PrototypeAST) : list tok :=
  TWord (getFunctionTypeName p) :: TWord (pr_name p) ::
  match pr_atom p with Some a => [sym tok_colon; TWord a] | None => [] end ++
  sym tok_parenthese_open :: commas (map parg (pr_args p)) ++ [sym tok_parenthese_close].
Definition good_proto (p : PrototypeAST) : bool :=
  good_id (pr_name p) && forallb good_arg (pr_args p) &&
  match pr_atom p, pr_type p with
  | Some a, Function_Handler => good_id a
  | Some _, Function_Controller => false
  | None, _ => true
  end.

(** The handler names of a scope, with their atoms behind a colon. *)
Fixpoint split_colon (s : string) : string * option string :=
  match s with
  | EmptyString => ("", None)
  | String c s' =>
      if char_int c =? tok_colon then ("", Some s')
      else let '(a, b) := split_colon s' in (String c a, b)
  end.
Definition phandler (s : string) : list tok :=
  let '(h, a) := split_colon s in
  TWord h :: match a with Some a => [sym tok_colon; TWord a] | None => [] end.
Definition good_handler (s : string) : bool :=
  let '(h, a) := split_colon s in
  good_id h && match a with Some a => good_id a | None => true end.

Definition pbody (r : RecordBody) : list tok :=
  match r with
  | FunctionAST p b => pproto p ++ pblock b
  | StructAST ev _ n vs =>
      TWord (if ev then "event" else "struct") :: TWord n :: sym tok_bracket_open ::
      concat (map (fun d => pdecl d ++ [sym tok_semicolon]) vs) ++ [sym tok_bracket_close]
  | ScopeAST _ n hs k =>
      TWord "scope" :: TWord n ::
      (if (length hs =? 0)%nat then []
       else sym tok_angle_bracket_open :: commas (map phandler hs) ++ [sym tok_angle_bracket_close]) ++
      (if bool_decide (k = "") then [] else [sym tok_sbracket_open; TWord k; sym tok_sbracket_close]) ++
      [sym tok_semicolon]
  | GlobalAST _ _ v => TWord "global" :: pdecl v ++ [sym tok_semicolon]
  end.
Definition good_body (r : RecordBody) : bool :=
  match r with
  | FunctionAST p b => good_proto p && forallb good_stmt b
  | StructAST _ _ n vs => good_id n && forallb good_decl vs
  | ScopeAST _ n hs k => good_id n && forallb good_handler hs && (bool_decide (k = "") || good_id k)
  | GlobalAST _ n v => good_decl v && bool_decide (n = d_name v)
  end.

Definition pattr (a : string * Attribute) : list tok :=
  TWord (fst a) ::
  match snd a with
  | AttrBool _ => []
  | AttrString s => [sym tok_eq; TWord s]
  | AttrList l =>
      sym tok_eq :: sym tok_parenthese_open ::
      commas (map (fun s => [TWord s]) l) ++ [sym tok_parenthese_close]
  end.
Definition good_attr (a : string * Attribute) : bool :=
  good_id (fst a) &&
  match snd a with
  | AttrBool b => b
  | AttrString s => good_id s
  | AttrList l => negb (length l =? 0)%nat && forallb good_id l
  end.

(** The attributes in brackets before the record, [extern] as a keyword. *)
Definition pattrs (m : AttributesType) : list tok :=
  (if bool_decide (m !! "extern" = None) then [] else [TWord "extern"]) ++
  match map_to_list (delete "extern" m) with
  | [] => []
  | l => sym tok_sbracket_open :: commas (map pattr l) ++ [sym tok_sbracket_close]
  end.
Definition good_attrs (m : AttributesType) : bool :=
  match m !! "extern" with Some (AttrBool true) | None => true | _ => false end &&
  forallb good_attr (map_to_list (delete "extern" m)).

Definition precord (r : RecordAST) : list tok := pattrs (attributes r) ++ pbody (r_body r).
Definition good_record (r : RecordAST) : bool := good_attrs (attributes r) && good_body (r_body r).

Definition pmodule (m : ModuleAST) : list tok := concat (map precord m).
Definition good_module (m : ModuleAST) : bool := forallb good_record m.

(** The text of a module. *)
Definition print_module (m : ModuleAST) : string := render (pmodule m).
End AstPrint.
