(* ===== verification/ParserRoundTrip.v ===== *)
(** The parser reads back what AstPrint writes, without an error. *)
From Stdlib Require Import ZArith Lia List String.
From stdpp Require Import base list numbers option strings gmap.
From S2P Require Import Prelude Lexer Ast Parser ParserLogic AstPrint.
#[local] Open Scope Z_scope.
#[local] Arguments String.append !_ _ : simpl nomatch.

Module ParserRoundTrip.
Import Lexer Ast Parser ParserLogic AstPrint.

Abbreviation no_stop := (fun _ : stop => False).

(** On [ts], [m] gives a value in [P], leaves [rest] and prints nothing. *)
Definition gives {V} (m : M V) (P : V -> Prop) (ts rest : list tok) : Prop :=
  forall log, pwp m (fun r ts' log' => P r /\ ts' = rest /\ log' = log) no_stop ts log.

Definition some {V} (P : V -> Prop) (r : option V) : Prop := exists v, r = Some v /\ P v.
Definition same (e e' : ExprAST) : Prop := erase e' = erase e.

Lemma gives_use {V} (m : M V) P ts rest log (Q : V -> list tok -> list diagnostic -> Prop) :
  gives m P ts rest -> (forall r, P r -> Q r rest log) -> pwp m Q no_stop ts log.
Proof. intros Hm HQ. eapply pwp_mono; [|apply Hm]. intros r ts' log' (HP & -> & ->). auto. Qed.

(** ** Running on known tokens *)

Lemma good_id_spec s : good_id s = true -> keyword s = tok_identifier /\ wf_tok (TWord s) = true.
Proof. unfold good_id. intros [Hk%Z.eqb_eq Hw]%andb_true_iff. done. Qed.

(** The keywords the printer writes. *)
Lemma keyword_return : keyword "return" = tok_return.
Proof. by vm_compute. Qed.
Lemma keyword_struct : keyword "struct" = tok_struct.
Proof. by vm_compute. Qed.
Lemma keyword_event : keyword "event" = tok_event.
Proof. by vm_compute. Qed.
Lemma keyword_handler : keyword "handler" = tok_handler.
Proof. by vm_compute. Qed.
Lemma keyword_controller : keyword "controller" = tok_controller.
Proof. by vm_compute. Qed.
Lemma keyword_extern : keyword "extern" = tok_extern.
Proof. by vm_compute. Qed.
Lemma keyword_global : keyword "global" = tok_global.
Proof. by vm_compute. Qed.
Lemma keyword_scope : keyword "scope" = tok_scope.
Proof. by vm_compute. Qed.
Lemma keyword_if : keyword "if" = tok_if.
Proof. by vm_compute. Qed.
Lemma keyword_else : keyword "else" = tok_else.
Proof. by vm_compute. Qed.
Create Rewrite HintDb keywords.
#[export] Hint Rewrite keyword_return keyword_struct keyword_event keyword_handler keyword_controller keyword_extern keyword_global keyword_scope keyword_if keyword_else : keywords.

(** Decide the comparisons of known token codes. *)
Ltac codes :=
  cbn [hd_code code tail sym]; autorewrite with keywords;
  repeat match goal with
  | H : keyword ?w = tok_identifier |- context [keyword ?w] => rewrite H
  end;
  repeat match goal with
  | |- context [?a =? ?b] =>
      let c := eval hnf in a in
      lazymatch c with Z0 => idtac | Z.pos _ => idtac | Z.neg _ => idtac end;
      let r := eval vm_compute in (a =? b) in
      lazymatch r with
      | true => change (a =? b) with true
      | false => change (a =? b) with false
      end
  end;
  cbn [negb andb orb]; cbv beta iota.

Ltac rstep :=
  first
  [ pstep
  | lazymatch goal with
    | |- pwp (eat _) _ _ _ _ =>
        apply pwp_eat; [intros _|cbn [hd_code code sym]; autorewrite with keywords; first [by intros []|congruence]]
    | |- pwp (checkConsume _) _ _ _ _ =>
        apply pwp_check; [intros _|cbn [hd_code code sym]; autorewrite with keywords; first [by intros []|congruence]]
    | |- pwp id _ _ _ _ => apply pwp_id; [intros ? ->|cbn [hd_code code sym]; congruence]
    | |- pwp value _ _ _ _ => apply pwp_value; [intros ? ->|cbn [hd_code code sym]; by intros []]
    end ]; codes.

Definition ok_after (rest : list tok) : bool :=
  negb (existsb (Z.eqb (hd_code rest))
    [tok_dot; tok_colon; tok_parenthese_open; tok_bracket_open; tok_sbracket_open]).

Lemma ok_after_spec rest : ok_after rest = true ->
  (hd_code rest =? tok_dot) = false /\ (hd_code rest =? tok_colon) = false /\
  (hd_code rest =? tok_parenthese_open) = false /\ (hd_code rest =? tok_bracket_open) = false /\
  (hd_code rest =? tok_sbracket_open) = false.
Proof.
  unfold ok_after. cbn [existsb]. rewrite negb_true_iff, !orb_false_iff. tauto.
Qed.

(** ** Lists *)

(** A loop over elements with commas between them, which a round passes. *)
Lemma loop_commas {A V R} (body : list V -> M (list V + R)) (pr : A -> list tok) (sim : A -> V -> Prop)
    (fin : list V -> R) closing rest n xs :
  (forall s x k, x ∈ xs -> (length (pr x ++ sym tok_comma :: k) <= n)%nat ->
     gives (body s) (fun r => exists v, r = inl (s ++ [v]) /\ sim x v) (pr x ++ sym tok_comma :: k) k) ->
  (forall s x, x ∈ xs -> (length (pr x ++ closing) <= n)%nat ->
     gives (body s) (fun r => exists v, r = inr (fin (s ++ [v])) /\ sim x v) (pr x ++ closing) rest) ->
  forall fuel done_, xs <> [] -> (length xs <= fuel)%nat ->
  (length (commas (map pr xs) ++ closing) <= n)%nat ->
  gives (loop fuel body done_) (fun r => exists vs, r = fin (done_ ++ vs) /\ Forall2 sim xs vs)
    (commas (map pr xs) ++ closing) rest.
Proof.
  induction xs as [|x xs IH]; intros Hstep Hlast fuel done_ Hne Hf Hn log; [done|].
  destruct fuel as [|fuel]; [cbn in Hf; lia|]. cbn [loop]. apply pwp_bind.
  destruct xs as [|y xs].
  - cbn [map commas] in *. eapply gives_use; [apply Hlast; [set_solver|done]|].
    intros r (v & -> & Hv). apply pwp_ret. split_ands; try done. exists [v]. split; [done|]. by repeat constructor.
  - change (commas (map pr (x :: y :: xs))) with (pr x ++ sym tok_comma :: commas (map pr (y :: xs))) in *.
    rewrite <- app_assoc in *. cbn [app] in *.
    eapply gives_use; [apply Hstep; [set_solver|done]|]. intros r (v & -> & Hv). cbv beta iota.
    eapply gives_use; [apply IH|].
    + intros s z k Hz. apply Hstep. set_solver.
    + intros s z Hz. apply Hlast. set_solver.
    + done.
    + cbn in Hf |- *. lia.
    + rewrite !length_app in *. cbn [length] in Hn. rewrite length_app in Hn. lia.
    + intros r (vs & -> & Hvs). split_ands; try done. exists (v :: vs).
      rewrite <- app_assoc. split; [done|]. by constructor.
Qed.

(** A loop whose rounds begin with the token before the element. *)
Lemma loop_lead {A V R} (body : list V -> M (list V + R)) (pr : A -> list tok) (sim : A -> V -> Prop)
    (fin : list V -> R) closing n xs : (hd_code closing =? tok_comma) = false ->
  (forall s x t0 k, x ∈ xs -> (length (pr x ++ k) <= n)%nat ->
     (hd_code k = tok_comma \/ k = closing) ->
     gives (body s) (fun r => exists v, sim x v /\
         r = if hd_code k =? tok_comma then inl (s ++ [v]) else inr (fin (s ++ [v])))
       (t0 :: pr x ++ k) k) ->
  forall fuel done_ t0, xs <> [] -> (length xs <= fuel)%nat ->
  (length (commas (map pr xs) ++ closing) <= n)%nat ->
  gives (loop fuel body done_) (fun r => exists vs, r = fin (done_ ++ vs) /\ Forall2 sim xs vs)
    (t0 :: commas (map pr xs) ++ closing) closing.
Proof.
  intros Hc. induction xs as [|x xs IH]; intros Hstep fuel done_ t0 Hne Hf Hn log; [done|].
  destruct fuel as [|fuel]; [cbn in Hf; lia|]. cbn [loop]. apply pwp_bind.
  destruct xs as [|y xs].
  - cbn [map commas] in *. eapply gives_use; [apply Hstep; [set_solver|done|by right]|].
    rewrite Hc. intros r (v & Hv & ->). apply pwp_ret. split_ands; try done.
    exists [v]. split; [done|]. by repeat constructor.
  - change (commas (map pr (x :: y :: xs))) with (pr x ++ sym tok_comma :: commas (map pr (y :: xs))) in *.
    rewrite <- app_assoc in *. cbn [app] in *.
    eapply gives_use; [apply Hstep; [set_solver|done|by left]|]. codes. intros r (v & Hv & ->). cbv beta iota.
    eapply gives_use; [apply IH|].
    + intros s z t1 k Hz. apply Hstep. set_solver.
    + done.
    + cbn in Hf |- *. lia.
    + rewrite !length_app in *. cbn [length] in Hn. rewrite length_app in Hn. lia.
    + intros r (vs & -> & Hvs). split_ands; try done. exists (v :: vs).
      rewrite <- app_assoc. split; [done|]. by constructor.
Qed.

(** ** Literals *)

Lemma number_exact v : exact_number v = true -> truncate (strtod (dec v)) = v.
Proof. unfold exact_number. intros [H1%Z.leb_le H2%Z.ltb_lt]%andb_true_iff. by apply strtod_dec. Qed.

(** Reading an exact number of at least that width. *)
Lemma gives_number {A} (f : Z -> M A) w v Q rest log : exact_number v = true -> 53 <= w \/ v < 2 ^ w ->
  pwp (f v) Q no_stop (TNum (dec v) :: rest) log ->
  pwp (let! x := value in let! n := convert w x in f n) Q no_stop (TNum (dec v) :: rest) log.
Proof.
  intros Hv Hw Hf. repeat rstep. apply pwp_convert; rewrite (number_exact v Hv); [done|].
  unfold exact_number in Hv. apply andb_true_iff in Hv as [H1%Z.leb_le H2%Z.ltb_lt].
  destruct Hw as [Hw|]; [|lia]. intros H3. assert (2 ^ 53 <= 2 ^ w) by (apply Z.pow_le_mono_r; lia). lia.
Qed.

Lemma parseNumber_gives loc v rest : exact_number v = true ->
  gives parseNumberExpr (some (same (NumberExprAST loc v))) (TNum (dec v) :: rest) rest.
Proof.
  intros Hv log. unfold parseNumberExpr. rstep. rstep. apply gives_number; [done|by left; lia|].
  repeat rstep. split_ands; try done. by eexists.
Qed.

Lemma parseAtom_gives a rest : good_id a = true ->
  gives parseAtom (some (fun r => snd r = a)) (sym tok_colon :: TWord a :: rest) rest.
Proof.
  intros [Ha _]%good_id_spec log. unfold parseAtom. repeat rstep. split_ands; try done. by eexists.
Qed.

Lemma same_number loc v e' : same (NumberExprAST loc v) e' -> exists loc', e' = NumberExprAST loc' v.
Proof. destruct e'; try done. unfold same. cbn. intros [= ->]. by eexists. Qed.

(** The values of a literal are there. *)
Definition same_opt (o o' : option ExprAST) : Prop := option_map erase o' = option_map erase o.

Lemma Forall2_map_eq {A B} (f : A -> B) l l' : Forall2 (fun x y => f y = f x) l l' -> map f l' = map f l.
Proof. induction 1 as [|x y l l' H _ IH]; cbn; [done|]. by rewrite H, IH. Qed.

Lemma length_commas {A} (f : A -> list tok) l : (forall x, x ∈ l -> f x <> []) ->
  (length l <= length (commas (map f l)))%nat.
Proof.
  induction l as [|x [|y l] IH]; intros Hne; [done| |].
  - cbn. pose proof (Hne x ltac:(set_solver)). destruct (f x); [done|cbn; lia].
  - change (commas (map f (x :: y :: l))) with (f x ++ sym tok_comma :: commas (map f (y :: l))).
    rewrite length_app. cbn [length]. specialize (IH ltac:(intros; apply Hne; set_solver)).
    cbn [length] in IH |- *. lia.
Qed.

Lemma forallb_elem {A} (f : A -> bool) l x : forallb f l = true -> x ∈ l -> f x = true.
Proof. rewrite forallb_forall, list_elem_of_In. auto. Qed.

Lemma good_literal_expr e : good_literal e = true -> good_expr e = true.
Proof. by destruct e. Qed.

Lemma pexpr_nonempty e : good_expr e = true -> pexpr e <> [].
Proof.
  destruct e as [| | | | |[loc [|v [|]]]| | | | | |]; cbn; try done; try by intros ? [=]%app_eq_nil || idtac.
  - intros _ [_ ?]%app_eq_nil. done.
  - intros _ [_ ?]%app_eq_nil. done.
Qed.

(** The names after the first one, each behind a dot. *)
Definition dots (vs : list VariableExprAST) : list tok :=
  concat (map (fun v => [sym tok_dot; TWord (v_name v)]) vs).

Lemma print_dotted_cons v vs : print_dotted (v :: vs) = TWord (v_name v) :: dots vs.
Proof.
  revert v. induction vs as [|w vs IH]; intros v; [done|].
  change (print_dotted (v :: w :: vs)) with (TWord (v_name v) :: sym tok_dot :: print_dotted (w :: vs)).
  by rewrite IH.
Qed.

(** The tokens an expression can begin with. *)
Definition starts (c : Z) : bool :=
  existsb (Z.eqb c) [tok_identifier; tok_number; tok_colon; tok_parenthese_open; tok_sbracket_open;
                     tok_bracket_open].

Lemma pexpr_starts e rest : good_expr e = true -> starts (hd_code (pexpr e ++ rest)) = true.
Proof.
  assert (Hpath : forall p r, good_path p = true -> starts (hd_code (print_dotted (path p) ++ r)) = true).
  { intros [l [|v vs]] r; [done|]. unfold good_path. cbn. intros [[Hv _]%good_id_spec _]%andb_true_iff.
    destruct vs; cbn; by rewrite Hv. }
  revert rest. induction e as [| | | | |p| |l [nm ps] vs| |l op e1 IH1 e2 IH2|l c args ins outs|];
    intros rest; cbn [good_expr pexpr]; try done.
  - apply Hpath.
  - intros H. do 3 apply andb_true_iff in H as [H _]. apply good_id_spec in H as [H _]. cbn. by rewrite H.
  - intros [[_ H1]%andb_true_iff _]%andb_true_iff. unfold paren.
    destruct (_ <? _); cbn [app]; [done|]. rewrite <- app_assoc. by apply IH1.
  - intros H. do 3 apply andb_true_iff in H as [H _]. rewrite <- app_assoc. by apply Hpath.
Qed.

(** A token that is not a word is not an identifier. *)
Lemma pexpr_sym e c ts : good_expr e = true -> pexpr e = TSym c :: ts -> c <> tok_identifier.
Proof.
  assert (Hpath : forall p r c ts, good_path p = true -> print_dotted (path p) ++ r = TSym c :: ts -> False).
  { intros [l [|v vs]] r c' ts'; [done|]. cbn [path]. by rewrite print_dotted_cons. }
  revert c ts. induction e as [| | | | |p| |l [nm ps] vs| |l op e1 IH1 e2 IH2|l cc args ins outs|];
    intros c ts; cbn [good_expr pexpr]; try done; try by intros _ [= <- _].
  - intros Hp E. destruct (Hpath p [] c ts Hp). by rewrite app_nil_r.
  - intros [[_ H1]%andb_true_iff _]%andb_true_iff. unfold paren. destruct (_ <? _); cbn [app].
    + by intros [= <- _].
    + pose proof (pexpr_nonempty e1 H1). destruct (pexpr e1) as [|t ts1] eqn:E1; [done|].
      cbn [app]. intros [= -> _]. by apply (IH1 c ts1).
  - intros H E. do 3 apply andb_true_iff in H as [H _]. destruct (Hpath cc _ c ts H E).
Qed.

Lemma starts_not c d : starts c = true -> starts d = false -> (c =? d) = false.
Proof. intros Hc Hd. apply Z.eqb_neq. congruence. Qed.

(** One value of a struct literal, before a comma or the closing bracket. *)
Definition print_opt (v : option ExprAST) : list tok :=
  match v with Some e => pexpr e | None => [] end.

Definition good_value (v : option ExprAST) : bool :=
  match v with Some e => good_literal e | None => false end.

Lemma struct_value_gives (rec : M (option ExprAST)) s v k : good_value v = true ->
  (forall e, v = Some e -> match e with NumberExprAST _ _ => False | _ => True end ->
     gives rec (some (same e)) (pexpr e ++ k) k) ->
  gives (let t := hd_code (print_opt v ++ k) in
      if t =? tok_number then
        let! v := parseNumberExpr in
        mret (match v with Some _ => Some (s ++ [v]) | None => None end)
      else if negb (t =? tok_bracket_open) then
        parseError "{, [, or number" "in struct literal expression"
      else let! v := rec in mret (Some (s ++ [v])))
    (fun r => exists v', r = Some (s ++ [v']) /\ same_opt v v') (print_opt v ++ k) k.
Proof.
  intros Hv Hrec log. destruct v as [e|]; [|done]. specialize (Hrec e eq_refl).
  destruct e as [vl x| |l0 ws| | | | | | | | |]; try done; cbn [print_opt pexpr print_number app] in *; codes.
  - rstep. eapply gives_use; [by apply (parseNumber_gives vl)|].
    intros r (e' & -> & He'). rstep. split_ands; try done. eexists. split; [done|]. unfold same_opt. cbn. by f_equal.
  - rstep. eapply gives_use; [by apply Hrec|].
    intros r (e' & -> & He'). rstep. split_ands; try done. eexists. split; [done|]. unfold same_opt. cbn. by f_equal.
Qed.

Lemma literal_gives fuel e rest : good_literal e = true -> (length (pexpr e ++ rest) < fuel)%nat ->
  match e with NumberExprAST _ _ => False | _ => True end ->
  gives (parseStructLiteralExpr fuel) (some (same e)) (pexpr e ++ rest) rest.
Proof.
  revert e rest. induction fuel as [|fuel IH]; intros e rest Hg Hf Hnn; [lia|].
  destruct e as [| |loc vs| | | | | | | | |]; try done. clear Hnn. cbn [good_literal] in Hg.
  apply andb_true_iff in Hg as [Hne%negb_true_iff%Nat.eqb_neq Hg].
  cbn [pexpr] in *. fold print_opt in Hf |- *. cbn [app] in *. rewrite <- app_assoc in *. cbn [app length] in *.
  assert (Hv : forall v, v ∈ vs -> good_value v = true) by (intros; by eapply forallb_elem).
  assert (Hrec : forall v k, v ∈ vs -> (length (print_opt v ++ k) < fuel)%nat ->
    forall e, v = Some e -> match e with NumberExprAST _ _ => False | _ => True end ->
     gives (parseStructLiteralExpr fuel) (some (same e)) (pexpr e ++ k) k).
  { intros v k Hin Hk e -> He. by apply IH; [apply (Hv _ Hin)| |]. }
  intros log. cbn [parseStructLiteralExpr]. repeat rstep.
  eapply gives_use; [apply (loop_commas _ print_opt same_opt Some (sym tok_bracket_close :: rest)
    (sym tok_bracket_close :: rest) (pred fuel) vs)|].
  - intros s v k Hin Hk log1. repeat rstep.
    eapply gives_use; [apply struct_value_gives; [by apply Hv|intros e He Hn; eapply Hrec; [exact Hin|lia|exact He|exact Hn]]|].
    intros r (v' & -> & Hv'). repeat rstep. split_ands; try done. by eexists.
  - intros s v Hin Hk log1. repeat rstep.
    eapply gives_use; [apply struct_value_gives; [by apply Hv|intros e He Hn; eapply Hrec; [exact Hin|lia|exact He|exact Hn]]|].
    intros r (v' & -> & Hv'). repeat rstep. split_ands; try done. by eexists.
  - by destruct vs.
  - etrans; [apply (length_commas print_opt)|rewrite length_app in Hf; cbn in Hf; lia].
    intros [e|] Hin; [by apply pexpr_nonempty, good_literal_expr, (Hv _ Hin)|by specialize (Hv _ Hin)].
  - lia.
  - intros r (vs' & -> & Hvs). repeat rstep. split_ands; try done. eexists. split; [done|].
    unfold same. cbn. f_equal. by apply (Forall2_map_eq (option_map erase)).
Qed.

(** ** Ports and paths *)

Lemma port_gives loc ev a i rest : good_expr (PortLiteralExprAST loc ev a i) = true ->
  gives parsePortLiteralExpr (some (same (PortLiteralExprAST loc ev a i)))
    (pexpr (PortLiteralExprAST loc ev a i) ++ rest) rest.
Proof.
  cbn [good_expr]. rewrite !andb_true_iff, orb_true_iff, bool_decide_eq_true, Z.leb_le, Z.ltb_lt.
  intros [[[[Hev _]%good_id_spec Ha] Hi1] Hi2] log. unfold parsePortLiteralExpr. cbn [pexpr app]. repeat rstep.
  set (inst := if i =? -1 then [sym tok_star] else print_number i).
  apply (pwp_mono _ _ (fun r ts' log' => r = Some a /\ ts' = sym tok_comma :: inst ++ sym tok_sbracket_close :: rest /\ log' = log)).
  2: { destruct (bool_decide_reflect (a = "")) as [->|Hne]; cbn [app].
       - codes. rstep. by rewrite <- app_assoc.
       - destruct Ha as [|[Ha _]%good_id_spec]; [done|]. codes. repeat rstep. by rewrite <- app_assoc. }
  intros r ts' log' (-> & -> & ->). cbv beta iota. repeat rstep.
  apply (pwp_mono _ _ (fun r ts' log' => r = Some i /\ ts' = sym tok_sbracket_close :: rest /\ log' = log)).
  2: { subst inst. destruct (Z.eqb_spec i (-1)) as [->|Hne]; cbn [print_number app]; codes.
       - by repeat rstep.
       - apply gives_number; [|by right|].
         + unfold exact_number. destruct (Z.leb_spec 0 i), (Z.ltb_spec i (2 ^ 53)); lia.
         + destruct (Z.ltb_spec i 0); [lia|]. by repeat rstep. }
  intros r ts' log' (-> & -> & ->). cbv beta iota. repeat rstep. split_ands; try done. by eexists.
Qed.

Definition same_path (p p' : PathExprAST) : Prop := erase_path p' = erase_path p.

Lemma dotted_gives fuel p vs rest : forallb (fun v => good_id (v_name v)) vs = true ->
  (hd_code rest =? tok_dot) = false -> (length (dots vs ++ rest) < fuel)%nat ->
  gives (dotted fuel p)
    (some (same_path (MkPath (p_loc p) (path p ++ vs)))) (dots vs ++ rest) rest.
Proof.
  revert p fuel. induction vs as [|v vs IH]; intros p fuel Hg Hr Hf log; unfold dotted;
    (destruct fuel as [|fuel]; [lia|]); cbn [loop].
  - cbn [dots concat map app]. repeat rstep. rewrite Hr. repeat rstep. split_ands; try done.
    eexists. split; [done|]. unfold same_path. cbn. rewrite app_nil_r. done.
  - cbn [forallb] in Hg. apply andb_true_iff in Hg as [[Hv _]%good_id_spec Hg].
    unfold dots in *. cbn [concat map app] in *. repeat rstep. fold (dotted fuel (append (MkVariable loc (v_name v)) p)).
    eapply gives_use; [apply IH; [done|done|cbn [length] in Hf; unfold dots; lia]|].
    intros r (p' & -> & Hp'). split_ands; try done. eexists. split; [done|]. unfold same_path in *. rewrite Hp'.
    unfold erase_path. cbn. rewrite !map_app. cbn. by rewrite <- app_assoc.
Qed.

Lemma Forall2_eq_list {A} (l l' : list A) : Forall2 (fun x y => y = x) l l' -> l' = l.
Proof. induction 1; congruence. Qed.

Lemma port_group_gives fuel ps rest : forallb good_port ps = true ->
  (length (print_group ps ++ rest) < fuel)%nat ->
  gives (port_group fuel) (fun r => r = ps) (print_group ps ++ rest) rest.
Proof.
  intros Hg Hf log. unfold port_group, print_group in *. cbn [app] in *. rewrite <- app_assoc in *. cbn [app] in *.
  destruct ps as [|q ps'].
  { destruct fuel as [|fuel]; [lia|]. cbn [map commas app loop]. by repeat rstep. }
  set (ps := q :: ps') in *. rstep.
  eapply gives_use; [apply (loop_lead _ print_port (fun x v => v = x) (fun l => l)
    (sym tok_sbracket_close :: rest) (length (commas (map print_port ps) ++ sym tok_sbracket_close :: rest)) ps);
    [done| |done| |done]|].
  - intros s x t0 k Hin _ _ log1. pose proof (forallb_elem _ _ _ Hg Hin) as Hx. unfold good_port, print_port in *.
    rstep. rstep. cbn [app tail hd_code]. destruct (bool_decide_reflect (x = "*")) as [->|Hne].
    + repeat rstep. split_ands; try done. by eexists.
    + destruct (good_id_spec x Hx) as [Hk _]. repeat rstep. split_ands; try done. by eexists.
  - etrans; [apply (length_commas print_port)|cbn [length] in Hf; rewrite length_app in Hf; cbn [length] in Hf; lia].
    intros x _. unfold print_port. done.
  - intros r (vs & -> & Hvs%Forall2_eq_list). repeat rstep. split_ands; try done.
Qed.

Section Expressions.
(** What [parseExpression] does on fewer than [n] tokens. *)
Context (n : nat) (PE : M (option ExprAST)).
Hypothesis PE_gives : forall e rest, good_expr e = true -> (length (pexpr e ++ rest) < n)%nat ->
  ok_after rest = true -> prec (hd_code rest) < 0 ->
  gives PE (some (same e)) (pexpr e ++ rest) rest.

(** The tokens that may follow an expression in a list. *)
Lemma PE_before c e rest : good_expr e = true -> (length (pexpr e ++ sym c :: rest) < n)%nat ->
  c ∈ [tok_comma; tok_parenthese_close; tok_bracket_close] ->
  gives PE (some (same e)) (pexpr e ++ sym c :: rest) (sym c :: rest).
Proof.
  intros Hg Hn Hc. apply PE_gives; [done|done| |];
    rewrite !elem_of_cons in Hc; destruct Hc as [->|[->|[->|?%elem_of_nil]]]; done.
Qed.

Lemma good_list_nonempty es : forallb good_expr es = true -> forall e, e ∈ es -> pexpr e <> [].
Proof. intros Hg e He. apply pexpr_nonempty. by eapply forallb_elem. Qed.

Lemma same_list es es' : Forall2 same es es' -> map erase es' = map erase es.
Proof. apply Forall2_map_eq. Qed.

Lemma call_args_gives fuel args rest : forallb good_expr args = true ->
  (length (commas (map pexpr args) ++ sym tok_parenthese_close :: rest) < n)%nat ->
  (length (commas (map pexpr args) ++ sym tok_parenthese_close :: rest) < fuel)%nat ->
  gives (call_args PE fuel) (some (Forall2 same args))
    (commas (map pexpr args) ++ sym tok_parenthese_close :: rest) (sym tok_parenthese_close :: rest).
Proof.
  intros Hg Hn Hf log. unfold call_args. destruct args as [|a args'].
  { cbn [map commas app]. repeat rstep. split_ands; try done. eexists. by split. }
  set (args := a :: args') in *. rstep. rstep.
  replace (hd_code _ =? tok_parenthese_close) with false.
  2: { symmetry. subst args. apply starts_not; [|done]. cbn [map].
       pose proof (proj1 (andb_true_iff _ _) Hg) as [Ha _]. destruct args'; cbn [map commas];
         rewrite <- ?app_assoc; by apply pexpr_starts. }
  eapply gives_use; [apply (loop_commas _ pexpr same Some (sym tok_parenthese_close :: rest)
    (sym tok_parenthese_close :: rest) (pred n) args)|].
  - intros s x k Hin Hk log1. rstep.
    eapply gives_use; [apply PE_before; [by eapply forallb_elem|lia|set_solver]|].
    intros r (v & -> & Hv). repeat rstep. split_ands; try done. by eexists.
  - intros s x Hin Hk log1. rstep.
    eapply gives_use; [apply PE_before; [by eapply forallb_elem|lia|set_solver]|].
    intros r (v & -> & Hv). repeat rstep. split_ands; try done. by eexists.
  - done.
  - pose proof (length_commas pexpr args (good_list_nonempty _ Hg)). rewrite length_app in Hf. lia.
  - lia.
  - intros r (vs & -> & Hvs). split_ands; try done. by eexists.
Qed.

Lemma init_values_gives fuel vs rest : forallb good_expr vs = true -> vs <> [] ->
  (length (commas (map pexpr vs) ++ sym tok_bracket_close :: rest) < n)%nat ->
  (length (commas (map pexpr vs) ++ sym tok_bracket_close :: rest) < fuel)%nat ->
  gives (init_values PE fuel []) (some (Forall2 same vs))
    (commas (map pexpr vs) ++ sym tok_bracket_close :: rest) rest.
Proof.
  intros Hg Hne Hn Hf log. unfold init_values.
  eapply gives_use; [apply (loop_commas _ pexpr same Some (sym tok_bracket_close :: rest)
    rest (pred n) vs)|].
  - intros s x k Hin Hk log1. rstep.
    eapply gives_use; [apply PE_before; [by eapply forallb_elem|lia|set_solver]|].
    intros r (v & -> & Hv). repeat rstep. split_ands; try done. by eexists.
  - intros s x Hin Hk log1. rstep.
    eapply gives_use; [apply PE_before; [by eapply forallb_elem|lia|set_solver]|].
    intros r (v & -> & Hv). repeat rstep. split_ands; try done. by eexists.
  - done.
  - pose proof (length_commas pexpr vs (good_list_nonempty _ Hg)). rewrite length_app in Hf. lia.
  - lia.
  - intros r (ws & -> & Hws). split_ands; try done. by eexists.
Qed.

(** An expression in parentheses. *)
Lemma paren_gives fuel e rest : good_expr e = true ->
  (length (sym tok_parenthese_open :: pexpr e ++ sym tok_parenthese_close :: rest) <= n)%nat ->
  gives (parsePrimary PE fuel) (some (same e))
    (sym tok_parenthese_open :: pexpr e ++ sym tok_parenthese_close :: rest) rest.
Proof.
  intros Hg Hn log. unfold parsePrimary. repeat rstep. unfold parseParenExpr. repeat rstep.
  eapply gives_use; [apply PE_before; [done|cbn [length] in Hn; lia|set_solver]|].
  intros r (e' & -> & He'). repeat rstep. split_ands; try done. by eexists.
Qed.

(** A path, and what follows it. *)
Lemma identifier_path {Q} fuel p ts log : good_path p = true ->
  (hd_code ts =? tok_dot) = false -> (length (print_dotted (path p) ++ ts) <= n)%nat ->
  (length (print_dotted (path p) ++ ts) < fuel)%nat ->
  (forall p' name, same_path p p' -> (length (path p) = 1%nat -> map v_name (path p) = [name]) ->
     pwp (let! t := curToken in
          let! atom := (if t =? tok_colon then parseAtom else mret None) in
          let! t := curToken in
          let! loc := lastLoc in
          if t =? tok_parenthese_open then parseCallExpr PE fuel p' loc else
          if t =? tok_bracket_open then
            let! _ := eat tok_bracket_open in
            if negb (getPathLength p' =? 1)%nat then parseError "name error" "parse init" else
            let! values :=
              init_values PE fuel (match atom with Some a => [atom_expr a] | None => [] end) in
            match values with
            | None => mret None
            | Some values =>
                let! loc := lastLoc in
                mret (Some (InitExprAST loc (MkVarType name []) values))
            end
          else mret (Some (PathExpr p'))) Q no_stop ts log) ->
  pwp (parsePrimary PE fuel) Q no_stop (print_dotted (path p) ++ ts) log.
Proof.
  intros Hg Hd Hn Hf HQ. destruct p as [ploc [|v vs]]; [done|]. cbn [path] in *.
  unfold good_path in Hg. cbn in Hg. apply andb_true_iff in Hg as [Hv Hg].
  destruct (good_id_spec _ Hv) as [Hk _]. rewrite print_dotted_cons in *. cbn [app] in *.
  unfold parsePrimary. repeat rstep. unfold parseIdentifierExpr. repeat rstep.
  eapply gives_use; [apply (dotted_gives fuel _ vs); [done|done|cbn [length] in Hf; lia]|].
  intros r (p' & -> & Hp'). cbv beta iota. apply HQ.
  - unfold same_path in *. rewrite Hp'. done.
  - cbn. by destruct vs.
Qed.

Lemma is_op_spec op : is_op op = true -> 10 <= prec op <= 40 /\
  op ∈ [61; tok_minus; tok_plus; tok_star; tok_slash; tok_cmp_eq; tok_cmp_le; tok_cmp_ge; 60; 62].
Proof.
  unfold is_op, prec. rewrite !elem_of_cons. intros H.
  repeat match goal with
  | |- context [?a =? ?b] => destruct (Z.eqb_spec a b); cbn [orb] in *; [split; [lia|tauto]|]
  end. done.
Qed.

Lemma level_nonneg e : good_expr e = true -> 10 <= level e.
Proof.
  destruct e; cbn; try lia. intros [[[? _]%is_op_spec _]%andb_true_iff _]%andb_true_iff. lia.
Qed.

(** Expressions that are not binary operations are primaries. *)
Lemma primary_gives fuel e rest : good_expr e = true -> level e = 100 -> ok_after rest = true ->
  (length (pexpr e ++ rest) <= n)%nat -> (length (pexpr e ++ rest) < fuel)%nat ->
  gives (parsePrimary PE fuel) (some (same e)) (pexpr e ++ rest) rest.
Proof.
  intros Hg Hlev Hr Hn Hf log. destruct (ok_after_spec rest Hr) as (Hr1 & Hr2 & Hr3 & Hr4 & Hr5).
  destruct e as [loc v| |loc vs|loc a|loc ev a i|p| |loc [nm ps] vs| |loc op l r|loc c args ins outs|];
    try done.
  - cbn [pexpr print_number app]. unfold parsePrimary. repeat rstep.
    eapply gives_use; [by apply (parseNumber_gives loc)|]. done.
  - change (pexpr (StructLiteralExprAST loc vs)) with
      (sym tok_bracket_open :: commas (map print_opt vs) ++ [sym tok_bracket_close]).
    unfold parsePrimary. repeat rstep.
    eapply gives_use; [by apply (literal_gives fuel (StructLiteralExprAST loc vs))|]. done.
  - cbn [pexpr app good_expr] in *. unfold parsePrimary. repeat rstep.
    eapply gives_use; [by apply (parseAtom_gives a)|].
    intros r (x & -> & Hx). repeat rstep. split_ands; try done. eexists. split; [done|].
    unfold same. cbn. by rewrite Hx.
  - pose proof (port_gives loc ev a i rest Hg) as Hp. cbn [pexpr app] in *. unfold parsePrimary. repeat rstep.
    eapply gives_use; [exact Hp|]. done.
  - cbn [pexpr good_expr] in *. apply identifier_path; try done. intros p' name Hp' _. rstep. rstep.
    rewrite Hr2. repeat rstep. rewrite Hr3, Hr4. rstep. split_ands; try done. eexists. split; [done|].
    unfold same. cbn. by f_equal.
  - cbn [good_expr] in Hg. rewrite !andb_true_iff in Hg. destruct Hg as [[[Hnm Hps] Hne] Hg].
    destruct ps; [|done]. cbn [pexpr type_name] in *.
    change (TWord nm :: sym tok_bracket_open :: commas (map pexpr vs) ++ [sym tok_bracket_close])
      with (print_dotted [MkVariable no_loc nm] ++ sym tok_bracket_open :: commas (map pexpr vs) ++ [sym tok_bracket_close]) in *.
    rewrite <- app_assoc in *. cbn [app] in *. rewrite <- app_assoc in *. cbn [app] in *.
    apply (identifier_path fuel (MkPath no_loc [MkVariable no_loc nm])); try done.
    { unfold good_path. cbn. by rewrite Hnm. }
    intros p' name Hp' Hname. specialize (Hname eq_refl). cbn in Hname. injection Hname as <-.
    repeat rstep. assert (Hlen : getPathLength p' = 1%nat).
    { unfold same_path, erase_path in Hp'. cbn in Hp'. injection Hp' as Hp'.
      apply (f_equal length) in Hp'. by rewrite length_map in Hp'. }
    rewrite Hlen. cbn [Nat.eqb negb]. rstep.
    cbn [print_dotted app length v_name path] in Hn, Hf.
    eapply gives_use; [apply init_values_gives; [done|by destruct vs|lia|lia]|].
    intros r (ws & -> & Hws). repeat rstep. split_ands; try done. eexists. split; [done|].
    unfold same. cbn. f_equal. by apply same_list.
  - cbn in Hg, Hlev. do 2 apply andb_true_iff in Hg as [Hg _]. apply is_op_spec in Hg as [? _]. lia.
  - cbn [good_expr] in Hg. rewrite !andb_true_iff in Hg. destruct Hg as [[[Hc Ha] Hi] Ho].
    cbn [pexpr] in *. rewrite <- app_assoc in *. cbn [app] in *. rewrite <- app_assoc in *. cbn [app] in *.
    apply identifier_path; try done. intros p' name Hp' _. repeat rstep.
    rewrite length_app in Hn, Hf. cbn [length] in Hn, Hf.
    unfold parseCallExpr. repeat rstep.
    eapply gives_use; [apply call_args_gives; [done|lia|lia]|].
    intros r (as' & -> & Has). repeat rstep.
    assert (Hsame : forall loc', same (CallExprAST loc c args ins outs) (CallExprAST loc' p' as' ins outs)).
    { intros loc'. unfold same. cbn. rewrite Hp', (same_list _ _ Has). done. }
    destruct (isCommand ins outs) eqn:Ecmd.
    + rewrite <- app_assoc in *. change (hd_code (print_group ins ++ print_group outs ++ rest))
        with tok_sbracket_open. codes. rewrite length_app in Hn, Hf. cbn [length] in Hn, Hf. rstep.
      eapply gives_use; [apply port_group_gives; [done|lia]|]. intros ins' ->. repeat rstep.
      rewrite length_app in Hn, Hf.
      eapply gives_use; [apply port_group_gives; [done|lia]|]. intros outs' ->. repeat rstep.
      split_ands; try done. by eexists.
    + cbn [app]. rewrite Hr5. rstep. split_ands; try done. eexists. split; [done|].
      destruct ins, outs; done.
Qed.

(** ** Operators *)

(** Reading the precedence again after a primary that nothing binds tighter than is
    the same as reading on at the next level. *)
Lemma rhs_uniform fuel tp a (K : option ExprAST -> M (option ExprAST)) s :
  (let! nextPrec := getTokPrecedence in
   let! rhs := (if tp <? nextPrec then parseBinOpRHS PE (S fuel) (tp + 1) a else mret (Some a)) in K rhs) s =
  (let! rhs := parseBinOpRHS PE (S fuel) (tp + 1) a in K rhs) s.
Proof.
  assert (E : forall l log, getTokPrecedence (l, log) = Ok (prec (curTok l), (l, log))) by done.
  destruct s as [l log]. cbn [parseBinOpRHS]. unfold mbind'. cbv beta. rewrite !E. cbn [rbind].
  destruct (Z.ltb_spec tp (prec (curTok l))); [done|]. cbn [rbind mret].
  destruct (Z.ltb_spec (prec (curTok l)) (tp + 1)); [done|lia].
Qed.

Lemma pwp_ext {A} (m m' : M A) Q E ts log : (forall s, m s = m' s) -> pwp m' Q E ts log -> pwp m Q E ts log.
Proof. intros Heq Hm l Hl. rewrite Heq. by apply Hm. Qed.

Lemma op_ok_after op rest : is_op op = true -> ok_after (sym op :: rest) = true.
Proof.
  intros [_ Hop]%is_op_spec. rewrite !elem_of_cons in Hop.
  repeat destruct Hop as [->|Hop]; try done. by apply elem_of_nil in Hop.
Qed.

(** Nothing binds tighter after the expression than its own operator. *)
Definition loose (lev : Z) (rest : list tok) : Prop := ok_after rest = true /\ prec (hd_code rest) <= lev.

(** A round of the loop on an operator that is taken. *)
Lemma parseBinOpRHS_step fuel q e op ts : is_op op = true -> q <= prec op ->
  forall Q log,
  pwp (let! _ := eat op in
       let! loc := lastLoc in
       let! rhs := parsePrimary PE fuel in
       match rhs with
       | None => parseError "expression" "to complete binary operator"
       | Some rhs =>
           let! nextPrec := getTokPrecedence in
           let! rhs :=
             (if prec op <? nextPrec then parseBinOpRHS PE fuel (prec op + 1) rhs else mret (Some rhs)) in
           match rhs with
           | None => mret None
           | Some rhs => parseBinOpRHS PE fuel q (BinaryExprAST loc op e rhs)
           end
       end) Q no_stop (sym op :: ts) log ->
  pwp (parseBinOpRHS PE (S fuel) q e) Q no_stop (sym op :: ts) log.
Proof.
  intros Hop Hq Q log HQ. cbn [parseBinOpRHS]. do 2 pstep. cbn [hd_code code sym].
  destruct (Z.ltb_spec (prec op) q); [lia|]. do 2 pstep. exact HQ.
Qed.

Lemma done_gives fuel q e rest log : prec (hd_code rest) < q ->
  pwp (parseBinOpRHS PE (S fuel) q e)
    (fun r ts' log' => r = Some e /\ ts' = rest /\ log' = log) no_stop rest log.
Proof.
  intros Hp. cbn [parseBinOpRHS]. do 2 pstep. destruct (Z.ltb_spec (prec (hd_code rest)) q); [|lia].
  by apply pwp_ret.
Qed.

Lemma binop_gives e : forall p q fuel rest Q log, good_expr e = true -> 0 <= q <= p -> p <= 50 \/ p = 1000 ->
  (p <= level e -> loose (level e) rest) -> ok_after rest = true ->
  (length (paren p (level e) (pexpr e) ++ rest) <= n)%nat ->
  (length (paren p (level e) (pexpr e) ++ rest) < fuel)%nat ->
  (forall e' fuel', same e e' -> (length rest < fuel')%nat -> pwp (parseBinOpRHS PE fuel' q e') Q no_stop rest log) ->
  pwp (parsePrimary PE fuel) (fun lhs ts' log' => exists a, lhs = Some a /\
    (length ts' <= length (paren p (level e) (pexpr e) ++ rest))%nat /\
    forall fuel', (length ts' < fuel')%nat -> pwp (parseBinOpRHS PE fuel' q a) Q no_stop ts' log')
    no_stop (paren p (level e) (pexpr e) ++ rest) log.
Proof.
  induction e as [| | | | |pp| | | |loc op l IHl r IHr| |];
    intros p q fuel rest Q log Hg Hq Hp Hl Hr Hn Hf HQ; unfold paren in Hn, Hf |- *;
    (match goal with |- context [level ?e <? p] => destruct (Z.ltb_spec (level e) p) as [Hlt|Hge] end;
     [ cbn [app] in *; rewrite <- app_assoc in *; cbn [app] in *;
       eapply gives_use; [apply paren_gives; [done|done]|]; intros rr (e' & -> & He');
       exists e'; split; [done|]; split; [cbn [length]; rewrite length_app; cbn [length]; lia|];
       intros; by apply HQ | ]);
    try (eapply gives_use; [apply primary_gives; done|]; intros rr (e' & -> & He');
         exists e'; split; [done|]; split; [rewrite length_app; lia|]; intros; by apply HQ).
  (* a binary operation that needs no parentheses *)
  cbn [good_expr level] in *. apply andb_true_iff in Hg as [[Hop Hgl]%andb_true_iff Hgr].
  destruct (Hl Hge) as [_ Hloose]. destruct (is_op_spec op Hop) as [Hprec _].
  cbn [pexpr] in *. rewrite <- app_assoc in *. cbn [app] in *.
  set (ts := sym op :: paren (prec op + 1) (level r) (pexpr r) ++ rest) in *.
  eapply pwp_mono; [|apply (IHl (prec op) q fuel ts Q)]; try done; [lia|lia| |by apply op_ok_after|].
  { intros Hlv. split; [by apply op_ok_after|exact Hlv]. }
  intros l' fuel' Hl' Hf'. subst ts. cbn [length] in Hf'. destruct fuel' as [|[|fuel']]; [lia|lia|].
  rewrite length_app in Hn. cbn [length] in Hn.
  apply parseBinOpRHS_step; [done|lia|]. repeat rstep.
  eapply pwp_mono; [|apply (IHr (prec op + 1) (prec op + 1) (S fuel') rest
    (fun x ts' log' => some (same r) x /\ ts' = rest /\ log' = log)); try done; try lia].
  - intros rhs ts' log' (a & -> & Hlen & Ha). cbv beta iota.
    eapply pwp_ext; [intros s; apply rhs_uniform|]. apply pwp_bind.
    eapply pwp_mono; [|apply Ha; lia].
    intros x ts1 log1 ((r' & -> & Hr') & -> & ->). apply HQ; [|rewrite length_app in Hf'; lia].
    unfold same in *. cbn. by rewrite Hl', Hr'.
  - intros Hlv. split; [done|]. lia.
  - intros r' f Hr' Hf1. destruct f as [|f]; [lia|]. eapply pwp_mono; [|apply done_gives; lia].
    intros x ts1 log1 (-> & -> & ->). split_ands; try done. by eexists.
Qed.
End Expressions.

Lemma paren_open p e : level e < p -> paren p (level e) (pexpr e) =
  sym tok_parenthese_open :: pexpr e ++ [sym tok_parenthese_close].
Proof. intros H. unfold paren. by destruct (Z.ltb_spec (level e) p); [|lia]. Qed.

(** An expression at the head of a statement or in a list, in parentheses ([p] is
    1000) or not. *)
Lemma parseExpression_paren fuel p e rest : good_expr e = true -> p = 0 \/ p = 1000 ->
  (length (paren p (level e) (pexpr e) ++ rest) < fuel)%nat ->
  ok_after rest = true -> prec (hd_code rest) < 0 ->
  gives (parseExpression fuel) (some (same e)) (paren p (level e) (pexpr e) ++ rest) rest.
Proof.
  revert p e rest. induction fuel as [|fuel IH]; intros p e rest Hg Hp Hf Hr Hprec log; [lia|].
  assert (IH' : forall e rest, good_expr e = true -> (length (pexpr e ++ rest) < fuel)%nat ->
    ok_after rest = true -> prec (hd_code rest) < 0 ->
    gives (parseExpression fuel) (some (same e)) (pexpr e ++ rest) rest).
  { intros e' rest' Hg' Hf' Hr' Hp'. pose proof (level_nonneg e' Hg').
    assert (E : paren 0 (level e') (pexpr e') = pexpr e').
    { unfold paren. by destruct (Z.ltb_spec (level e') 0); [lia|]. }
    specialize (IH 0 e' rest'). rewrite E in IH. apply IH; auto. }
  cbn [parseExpression]. pstep.
  eapply pwp_mono; [|apply (binop_gives fuel (parseExpression fuel) IH' e p 0 (S fuel) rest
    (fun x ts' log' => some (same e) x /\ ts' = rest /\ log' = log)); try done; try lia].
  - intros lhs ts' log' (a & -> & Hlen & Ha). apply Ha. lia.
  - intros _. split; [done|]. pose proof (level_nonneg e Hg). lia.
  - intros e' f He' Hf1. destruct f as [|f]; [lia|].
    eapply pwp_mono; [|apply done_gives; lia]. intros x ts1 log1 (-> & -> & ->). split_ands; try done. by eexists.
Qed.

Lemma parseExpression_gives fuel e rest : good_expr e = true -> (length (pexpr e ++ rest) < fuel)%nat ->
  ok_after rest = true -> prec (hd_code rest) < 0 ->
  gives (parseExpression fuel) (some (same e)) (pexpr e ++ rest) rest.
Proof.
  intros Hg Hf Hr Hp. pose proof (level_nonneg e Hg).
  assert (E : paren 0 (level e) (pexpr e) = pexpr e).
  { unfold paren. by destruct (Z.ltb_spec (level e) 0); [lia|]. }
  pose proof (parseExpression_paren fuel 0 e rest Hg (or_introl eq_refl)) as H1. rewrite E in H1. by apply H1.
Qed.
End ParserRoundTrip.
