(* ===== verification/StmtRoundTrip.v ===== *)
(** Types, declarations, statements and blocks: the parser reads back what AstPrint
    writes, from the text. *)
From Stdlib Require Import ZArith Lia List String.
From stdpp Require Import base list numbers option strings gmap.
From S2P Require Import Prelude Lexer Ast Parser ParserLogic AstPrint ParserRoundTrip.
#[local] Open Scope Z_scope.
#[local] Arguments String.append !_ _ : simpl nomatch.

Module StmtRoundTrip.
Import Lexer Ast Parser ParserLogic AstPrint ParserRoundTrip.

(** ** Types *)

Definition ptype_args (ps : list VarTemplateParam) : list tok :=
  match ps with
  | [] => []
  | _ => sym tok_angle_bracket_open :: commas (map pparam ps) ++ [sym tok_angle_bracket_close]
  end.

Lemma ptype_args_cons ps : ps <> [] -> ptype_args ps =
  sym tok_angle_bracket_open :: commas (map pparam ps) ++ [sym tok_angle_bracket_close].
Proof. by destruct ps. Qed.

Lemma ptype_eq n ps : ptype (MkVarType n ps) = TWord n :: ptype_args ps.
Proof. done. Qed.

Lemma ptype_word t rest : good_type t = true ->
  exists w ts, ptype t ++ rest = TWord w :: ts /\ keyword w = tok_identifier.
Proof.
  destruct t as [n ps]. cbn [good_type]. intros [[Hk _]%good_id_spec _]%andb_true_iff.
  rewrite ptype_eq. cbn [app]. eauto.
Qed.

Lemma pparam_nonempty p : good_param p = true -> pparam p <> [].
Proof. destruct p as [v|[[n ps]|]]; cbn; try done; destruct ps; done. Qed.

Lemma ptype_gives fuel t rest : good_type t = true -> (length (ptype t ++ rest) < fuel)%nat ->
  (hd_code rest =? tok_angle_bracket_open) = false ->
  gives (parseType fuel) (fun r => r = Some t) (ptype t ++ rest) rest.
Proof.
  revert t rest. induction fuel as [|fuel IH]; intros [n ps] rest Hg Hf Hr log; [lia|].
  cbn [good_type] in Hg. apply andb_true_iff in Hg as [[Hk _]%good_id_spec Hg].
  rewrite ptype_eq in *. cbn [app length] in *. cbn [parseType]. repeat rstep.
  assert (Hcase : ps = [] \/ ps <> []) by (destruct ps; [by left|by right]).
  destruct Hcase as [->|Hne]; [cbn [ptype_args app]; rewrite Hr; by rstep|].
  rewrite (ptype_args_cons _ Hne) in *. cbn [app length] in *. rewrite <- app_assoc in *. cbn [app] in *. codes. repeat rstep.
  eapply gives_use; [apply (loop_lead _ pparam (fun x v => v = x) Some (sym tok_angle_bracket_close :: rest)
    (length (commas (map pparam ps) ++ sym tok_angle_bracket_close :: rest)) ps); [done| |exact Hne| |done]|].
  - intros s x t0 k Hin Hlen Hk' log1. pose proof (forallb_elem _ _ _ Hg Hin) as Hx.
    assert (Hk2 : (hd_code k =? tok_angle_bracket_open) = false).
    { destruct Hk' as [->| ->]; done. }
    destruct x as [v|[t|]]; cbn [good_param pparam] in *; [| |done].
    + cbn [print_number app] in *. do 5 rstep. apply gives_number; [done|by left|]. repeat rstep.
      destruct (hd_code k =? tok_comma); split_ands; try done; by eexists.
    + destruct (ptype_word t k Hx) as (w & ts & Ets & Hw).
      repeat rstep. cbn [tail]. rewrite Ets. codes. rstep. rewrite <- Ets.
      eapply gives_use; [apply IH; [done|lia|done]|]. intros r ->. repeat rstep.
      destruct (hd_code k =? tok_comma); split_ands; try done; by eexists.
  - etrans; [apply (length_commas pparam)|rewrite length_app in Hf; lia].
    intros x Hin. apply pparam_nonempty. by eapply forallb_elem.
  - intros r (vs & -> & Hvs%Forall2_eq_list). repeat rstep. subst vs. done.
Qed.

(** ** Declarations *)

Definition same_decl (d d' : VarDeclExprAST ExprAST) : Prop := erase_decl erase d' = erase_decl erase d.

Lemma decl_gives fuel d rest : good_decl d = true -> (length (pdecl d ++ rest) < fuel)%nat ->
  ok_after rest = true -> prec (hd_code rest) < 0 ->
  gives (parseDeclaration fuel false) (some (same_decl d)) (pdecl d ++ rest) rest.
Proof.
  unfold good_decl, pdecl. destruct d as [loc nm ty init]. cbn [d_type d_name initVal].
  rewrite !andb_true_iff. intros [[Hty [Hk Hw]%good_id_spec] Hi] Hf Hr Hp log.
  rewrite <- app_assoc in *. cbn [app] in *. unfold parseDeclaration. repeat rstep.
  eapply gives_use; [apply ptype_gives; [done|done|]|].
  { cbn [hd_code code]. by rewrite Hk. }
  intros r ->. unfold parseTypedDeclaration. repeat rstep. rewrite length_app in Hf. cbn [length] in Hf.
  destruct init as [e|]; cbn [app] in *.
  - codes. repeat rstep.
    eapply gives_use; [apply parseExpression_gives; [done|cbn [length] in Hf; lia|done|done]|].
    intros r (e' & -> & He'). rstep. split_ands; try done. eexists. split; [done|].
    unfold same_decl, erase_decl. cbn. by rewrite He'.
  - assert (Heq : (hd_code rest =? tok_eq) = false).
    { apply Z.eqb_neq. intros E. rewrite E in Hp. by vm_compute in Hp. }
    rewrite Heq. repeat rstep. split_ands; try done. by eexists.
Qed.

(** ** Statements *)

Lemma peeks_gives w ts b : (hd_code ts =? tok_identifier) || (hd_code ts =? tok_angle_bracket_open) = b ->
  gives peeks_declaration (fun r => r = b) (TWord w :: ts) (TWord w :: ts).
Proof.
  intros <- log. unfold peeks_declaration. rstep. apply pwp_peek; [done|]. cbn [tail].
  destruct (hd_code ts =? tok_identifier); cbn [orb]; [by rstep|]. rstep.
  apply pwp_peek; [done|]. by rstep.
Qed.

Lemma semicolon_after rest : ok_after (sym tok_semicolon :: rest) = true /\
  prec (hd_code (sym tok_semicolon :: rest)) < 0.
Proof. done. Qed.

(** An expression statement is not taken for a declaration. *)
Lemma expr_stmt_clash e k : good_expr e = true ->
  let ts := paren (if clash (pexpr e) then 1000 else 0) (level e) (pexpr e) ++ sym tok_semicolon :: k in
  match ts with
  | TWord w :: ts' => keyword w = tok_identifier /\
      (hd_code ts' =? tok_identifier) || (hd_code ts' =? tok_angle_bracket_open) = false
  | _ => starts (hd_code ts) = true /\ hd_code ts <> tok_identifier
  end.
Proof.
  intros Hg. pose proof (level_nonneg e Hg) as Hl0.
  assert (Hl : level e <= 100) by (destruct e; cbn; try lia; unfold prec; repeat case_bool; lia).
  destruct (clash (pexpr e)) eqn:Ec.
  - unfold paren. destruct (Z.ltb_spec (level e) 1000); [done|lia].
  - unfold paren. destruct (Z.ltb_spec (level e) 0); [lia|].
    pose proof (pexpr_starts e (sym tok_semicolon :: k) Hg) as Hs. pose proof (pexpr_nonempty e Hg) as Hne.
    destruct (pexpr e) as [|[w|m|c] [|t ts]] eqn:E; try done; cbn [app] in *; cbn [hd_code code] in *.
    + split; [|done]. unfold starts in Hs. cbn [existsb] in Hs.
      rewrite !orb_true_iff, !Z.eqb_eq in Hs. destruct Hs as [?|Hs]; [done|].
      exfalso. repeat destruct Hs as [Hs|Hs]; try done; revert Hs; by apply keyword_not.
    + split; [|exact Ec]. unfold starts in Hs. cbn [existsb] in Hs.
      rewrite !orb_true_iff, !Z.eqb_eq in Hs. destruct Hs as [?|Hs]; [done|].
      exfalso. repeat destruct Hs as [Hs|Hs]; try done; revert Hs; by apply keyword_not.
    + split; [done|]. by apply (pexpr_sym e c []).
    + split; [done|]. by apply (pexpr_sym e c (t :: ts)).
Qed.

Section Statements.
(** Blocks of fewer tokens are read back. *)
Context (fuel : nat) (PB : M (option ExprASTList)).
Hypothesis PB_gives : forall b rest, forallb good_stmt b = true -> (length (pblock b ++ rest) < fuel)%nat ->
  gives PB (some (Forall2 same b)) (pblock b ++ rest) rest.

Lemma pstmt_if loc c b el : pstmt (IfElseExprAST loc c (Some b) el) =
  TWord "if" :: sym tok_parenthese_open :: pexpr c ++ sym tok_parenthese_close ::
  pblock b ++ match el with Some b => TWord "else" :: pblock b | None => [] end.
Proof. done. Qed.

Lemma if_gives loc c b el rest : good_stmt (IfElseExprAST loc c (Some b) el) = true ->
  (length (pstmt (IfElseExprAST loc c (Some b) el) ++ rest) < S fuel)%nat ->
  (hd_code rest =? tok_else) = false ->
  gives (parseIf (S fuel) PB) (some (same (IfElseExprAST loc c (Some b) el)))
    (pstmt (IfElseExprAST loc c (Some b) el) ++ rest) rest.
Proof.
  cbn [good_stmt]. rewrite !andb_true_iff. intros [[Hc Hb] Hel] Hf Hr log.
  rewrite pstmt_if in *. cbn [app length] in *. rewrite <- app_assoc in *. cbn [app] in *.
  rewrite <- app_assoc in *. unfold parseIf. repeat rstep.
  eapply gives_use; [apply parseExpression_gives; [done|lia|done|done]|]. intros r (c' & -> & Hc').
  repeat rstep. rewrite length_app in Hf. cbn [length] in Hf.
  eapply gives_use; [apply PB_gives; [done|lia]|]. intros r (b' & -> & Hb').
  destruct el as [el|]; cbn [app] in *; rstep; rstep.
  - codes. repeat rstep. rewrite length_app in Hf. cbn [length] in Hf.
    eapply gives_use; [apply PB_gives; [done|lia]|]. intros r (el' & -> & Hel').
    repeat rstep. split_ands; try done. eexists. split; [done|]. unfold same. cbn.
    by rewrite Hc', (same_list _ _ Hb'), (same_list _ _ Hel').
  - rewrite Hr. repeat rstep. split_ands; try done. eexists. split; [done|]. unfold same. cbn.
    by rewrite Hc', (same_list _ _ Hb').
Qed.
(** What may follow a statement. *)
Definition stmt_end (s : ExprAST) (rest : list tok) : Prop :=
  if is_block s then (hd_code rest =? tok_else) = false else exists k, rest = sym tok_semicolon :: k.

Definition stmt_result (s : ExprAST) (r : option ExprAST * bool) : Prop :=
  exists s', r = (Some s', is_block s) /\ same s s'.

Lemma expr_stmt_gives e k : good_expr e = true ->
  (length (paren (if clash (pexpr e) then 1000 else 0) (level e) (pexpr e) ++ sym tok_semicolon :: k) < S fuel)%nat ->
  gives (parseStatement (S fuel) PB) (fun r => exists e', r = (Some e', false) /\ same e e')
    (paren (if clash (pexpr e) then 1000 else 0) (level e) (pexpr e) ++ sym tok_semicolon :: k)
    (sym tok_semicolon :: k).
Proof.
  intros Hg Hf log. pose proof (expr_stmt_clash e k Hg) as Hc. cbv zeta in Hc.
  assert (He := fun log => parseExpression_paren (S fuel) (if clash (pexpr e) then 1000 else 0) e
    (sym tok_semicolon :: k) Hg ltac:(destruct (clash _); auto) Hf eq_refl eq_refl log).
  set (ts := paren _ _ _ ++ _) in *. clearbody ts.
  assert (Hrun : forall log, pwp (let! e := parseExpression (S fuel) in mret (e, false))
    (fun r ts' log' => (exists e', r = (Some e', false) /\ same e e') /\ ts' = sym tok_semicolon :: k /\ log' = log)
    no_stop ts log).
  { intros log1. rstep. eapply gives_use; [exact He|]. intros r (e' & -> & He'). rstep. by eauto. }
  unfold parseStatement. destruct ts as [|[w|m|c] ts].
  - by destruct Hc as [? _].
  - destruct Hc as [Hk Hn]. repeat rstep. eapply gives_use; [by apply (peeks_gives w ts)|].
    intros r ->. cbv beta iota. codes. apply Hrun.
  - do 4 rstep. apply Hrun.
  - destruct Hc as [Hs Hn]. cbn [hd_code code] in Hs, Hn. rstep. rstep.
    rewrite !(starts_not c _ Hs) by done. cbn [orb]. rewrite (proj2 (Z.eqb_neq c tok_identifier)) by done.
    rstep. rstep. rewrite (starts_not c _ Hs) by done. apply Hrun.
Qed.

Lemma pstmt_expr e : good_expr e = true ->
  pstmt e = paren (if clash (pexpr e) then 1000 else 0) (level e) (pexpr e) /\ is_block e = false.
Proof. by destruct e. Qed.

Lemma decl_stmt_gives d k : good_decl d = true -> (length (pdecl d ++ sym tok_semicolon :: k) < S fuel)%nat ->
  gives (parseStatement (S fuel) PB) (stmt_result (VarDeclExpr d)) (pdecl d ++ sym tok_semicolon :: k)
    (sym tok_semicolon :: k).
Proof.
  intros Hg Hf log. assert (Hd := fun log => decl_gives (S fuel) d _ Hg Hf eq_refl eq_refl log).
  unfold good_decl in Hg. rewrite !andb_true_iff in Hg. destruct Hg as [[Hty [Hk _]%good_id_spec] _].
  assert (Ets : exists w ts, pdecl d ++ sym tok_semicolon :: k = TWord w :: ts /\ keyword w = tok_identifier /\
     (hd_code ts =? tok_identifier) || (hd_code ts =? tok_angle_bracket_open) = true).
  { unfold pdecl. destruct (d_type d) as [n ps]. cbn [good_type] in Hty.
    apply andb_true_iff in Hty as [[Hn _]%good_id_spec _]. rewrite ptype_eq, <- !app_assoc. cbn [app].
    do 2 eexists. split; [done|]. split; [done|]. destruct ps; cbn [ptype_args app hd_code code]; [by rewrite Hk|done]. }
  destruct Ets as (w & ts & Ets & Hw & Hp). rewrite Ets in *. unfold parseStatement. repeat rstep.
  eapply gives_use; [by apply (peeks_gives w ts)|]. intros r ->. cbv beta iota. rstep.
  eapply gives_use; [exact Hd|]. intros r (d' & -> & Hd'). rstep. split_ands; try done.
  eexists. split; [done|]. unfold same. cbn. f_equal. exact Hd'.
Qed.

Lemma return_gives loc x k : good_stmt (ReturnExprAST loc x) = true ->
  (length (pstmt (ReturnExprAST loc x) ++ sym tok_semicolon :: k) < S fuel)%nat ->
  gives (parseStatement (S fuel) PB) (stmt_result (ReturnExprAST loc x))
    (pstmt (ReturnExprAST loc x) ++ sym tok_semicolon :: k) (sym tok_semicolon :: k).
Proof.
  intros Hg Hf log. cbn [pstmt good_stmt app] in *. unfold parseStatement, parseReturn. repeat rstep.
  destruct x as [[e|]|]; [|done|].
  - pose proof (pexpr_starts e (sym tok_semicolon :: k) Hg) as Hs.
    rewrite (starts_not _ tok_semicolon Hs) by done. cbn [negb]. rstep.
    eapply gives_use; [apply parseExpression_gives; [done|cbn [length] in Hf; lia|done|done]|].
    intros r (e' & -> & He'). repeat rstep. split_ands; try done. eexists. split; [done|].
    unfold same. cbn. by rewrite He'.
  - codes. repeat rstep. split_ands; try done. by exists (ReturnExprAST loc0 None).
Qed.

Lemma stmt_gives s rest : good_stmt s = true -> (length (pstmt s ++ rest) < S fuel)%nat -> stmt_end s rest ->
  gives (parseStatement (S fuel) PB) (stmt_result s) (pstmt s ++ rest) rest.
Proof.
  intros Hg Hf Hr. assert (Hexpr : good_expr s = true -> gives (parseStatement (S fuel) PB) (stmt_result s) (pstmt s ++ rest) rest).
  { intros He. destruct (pstmt_expr s He) as [E Eb]. unfold stmt_end, stmt_result in *. rewrite Eb in *. rewrite E in *.
    destruct Hr as [k ->]. by apply expr_stmt_gives. }
  destruct s as [| | | | | |d| |loc x| | |loc c [b|] el]; try (by apply Hexpr); cbn [stmt_end is_block] in Hr.
  - destruct Hr as [k ->]. by apply decl_stmt_gives.
  - destruct Hr as [k ->]. by apply return_gives.
  - intros log. pose proof (if_gives loc c b el rest Hg Hf Hr) as Hi. rewrite pstmt_if in *. cbn [app] in *.
    unfold parseStatement. repeat rstep. eapply gives_use; [exact Hi|]. intros r (e' & -> & He'). rstep.
    split_ands; try done. by eexists.
  - cbn [good_stmt] in Hg. by rewrite andb_false_r in Hg.
Qed.

(** ** Blocks *)

Lemma pstmt_head s rest : good_stmt s = true ->
  existsb (Z.eqb (hd_code (pstmt s ++ rest))) [tok_semicolon; tok_else; tok_bracket_close; tok_eof] = false.
Proof.
  intros Hg. assert (Hexpr : good_expr s = true ->
    existsb (Z.eqb (hd_code (pstmt s ++ rest))) [tok_semicolon; tok_else; tok_bracket_close; tok_eof] = false).
  { intros He. destruct (pstmt_expr s He) as [-> _]. unfold paren. destruct (_ <? _); [done|].
    pose proof (pexpr_starts s rest He) as Hs. cbn [existsb]. by rewrite !(starts_not _ _ Hs). }
  destruct s as [| | | | | |d| |loc x| | |loc c b el]; try (by apply Hexpr).
  - cbn [good_stmt] in Hg. unfold good_decl in Hg. rewrite !andb_true_iff in Hg. destruct Hg as [[Hty _] _].
    cbn [pstmt]. unfold pdecl. rewrite <- app_assoc.
    match goal with |- context [ptype _ ++ ?r] => destruct (ptype_word (d_type d) r Hty) as (w & ts & -> & Hw) end.
    cbn [hd_code code]. by rewrite Hw.
  - cbn [pstmt app hd_code code]. by rewrite keyword_return.
  - cbn [pstmt app hd_code code]. by rewrite keyword_if.
Qed.

Lemma stmts_head b rest : forallb good_stmt b = true ->
  (hd_code (concat (map pstmt_end b) ++ sym tok_bracket_close :: rest) =? tok_semicolon) = false /\
  (hd_code (concat (map pstmt_end b) ++ sym tok_bracket_close :: rest) =? tok_else) = false.
Proof.
  destruct b as [|s b]; [done|]. cbn [forallb map concat]. intros [Hs _]%andb_true_iff.
  unfold pstmt_end. rewrite <- !app_assoc.
  match goal with |- context [pstmt s ++ ?r] => pose proof (pstmt_head s r Hs) as H end.
  cbn [existsb] in H. rewrite !orb_false_iff in H. tauto.
Qed.

Lemma swallow_none n ts : (hd_code ts =? tok_semicolon) = false ->
  gives (swallow_semicolons (S n)) (fun _ => True) ts ts.
Proof. intros H log. unfold swallow_semicolons. cbn [loop]. rstep. rstep. rstep. rewrite H. by repeat rstep. Qed.

Lemma swallow_one n ts : (hd_code ts =? tok_semicolon) = false ->
  gives (swallow_semicolons (S (S n))) (fun _ => True) (sym tok_semicolon :: ts) ts.
Proof.
  intros H log. unfold swallow_semicolons. cbn [loop]. repeat rstep. rewrite H. by repeat rstep.
Qed.

(** One round of the loop over the statements of a block. *)
Definition block_round (exprList : ExprASTList) : M (ExprASTList + option ExprASTList) :=
  let! t := curToken in
  if negb (t =? tok_bracket_close) && negb (t =? tok_eof) then
    let! (expr, isBlock) := parseStatement (S fuel) PB in
    match expr with
    | None => mret (inr None)
    | Some expr =>
        let! t := curToken in
        if negb isBlock && negb (t =? tok_semicolon) then
          let! x := parseError ";" "after expression" in mret (inr x)
        else
          let! _ := swallow_semicolons (S fuel) in
          mret (inl (exprList ++ [expr]))
    end
  else mret (inr (Some exprList)).

Lemma block_round_gives s done_ k : good_stmt s = true -> (length (pstmt_end s ++ k) < S fuel)%nat ->
  (0 < fuel)%nat -> (hd_code k =? tok_semicolon) = false -> (hd_code k =? tok_else) = false ->
  gives (block_round done_) (fun r => exists s', r = inl (done_ ++ [s']) /\ same s s') (pstmt_end s ++ k) k.
Proof.
  intros Hg Hf Hpos Hk1 Hk2 log. unfold pstmt_end in *. rewrite <- app_assoc in *. unfold block_round.
  match goal with |- context [pstmt s ++ ?r] => set (rest := r) in *; pose proof (pstmt_head s rest Hg) as Hh end.
  cbn [existsb] in Hh. rewrite !orb_false_iff in Hh. destruct Hh as (_ & _ & Hh1 & Hh2 & _).
  rstep. rstep. rewrite Hh1, Hh2. cbn [negb andb]. rstep.
  eapply gives_use; [apply stmt_gives; [done|done|]|].
  { unfold stmt_end. subst rest. destruct (is_block s); [done|by eexists]. }
  intros r (s' & -> & Hs'). cbv beta iota. rstep. rstep. subst rest. destruct fuel as [|f]; [lia|].
  destruct (is_block s); cbn [app]; codes; rstep.
  - eapply gives_use; [by apply swallow_none|]. intros _ _. rstep. by eauto.
  - eapply gives_use; [by apply swallow_one|]. intros _ _. rstep. by eauto.
Qed.

Lemma stmts_gives b rest : forall n done_, forallb good_stmt b = true -> (length b < n)%nat ->
  (length (concat (map pstmt_end b) ++ sym tok_bracket_close :: rest) < S fuel)%nat ->
  gives (loop n block_round done_) (fun r => exists b', r = Some (done_ ++ b') /\ Forall2 same b b')
    (concat (map pstmt_end b) ++ sym tok_bracket_close :: rest) (sym tok_bracket_close :: rest).
Proof.
  induction b as [|s b IH]; intros n done_ Hg Hn Hf log; (destruct n as [|n]; [lia|]); cbn [loop].
  - cbn [map concat app]. unfold block_round at 1. repeat rstep. split_ands; try done. exists []. by rewrite app_nil_r.
  - cbn [forallb] in Hg. apply andb_true_iff in Hg as [Hs Hg]. cbn [map concat] in *. rewrite <- app_assoc in *.
    destruct (stmts_head b rest Hg) as [Hh1 Hh2]. rewrite length_app in Hf. rstep.
    eapply gives_use; [apply (block_round_gives s); [done|by rewrite length_app| |done|done]|].
    { rewrite length_app in Hf. cbn [length] in Hf. assert (length (pstmt_end s) <> 0)%nat; [|lia].
      unfold pstmt_end. rewrite length_app. pose proof (pstmt_head s [] Hs). destruct (pstmt s); [done|cbn; lia]. }
    intros r (s' & -> & Hs'). cbv beta iota. cbn [length] in Hn.
    eapply gives_use; [apply IH; [done|lia|lia]|]. intros r (b' & -> & Hb'). split_ands; try done.
    exists (s' :: b'). rewrite <- app_assoc. split; [done|]. by constructor.
Qed.

Lemma length_stmts b : forallb good_stmt b = true -> (length b <= length (concat (map pstmt_end b)))%nat.
Proof.
  induction b as [|s b IH]; [done|]. cbn [forallb map concat length]. intros [Hs Hb%IH]%andb_true_iff.
  rewrite length_app. unfold pstmt_end at 1. rewrite length_app. pose proof (pstmt_head s [] Hs).
  destruct (pstmt s); [done|cbn [length]; lia].
Qed.
End Statements.

Lemma block_gives fuel b rest : forallb good_stmt b = true -> (length (pblock b ++ rest) < fuel)%nat ->
  gives (parseBlock fuel) (some (Forall2 same b)) (pblock b ++ rest) rest.
Proof.
  revert b rest. induction fuel as [|fuel IH]; intros b rest Hg Hf log; [lia|]. unfold pblock in *.
  cbn [app length] in *. rewrite <- app_assoc in *. cbn [app] in *. cbn [parseBlock]. repeat rstep.
  destruct (stmts_head b rest Hg) as [Hh _].
  eapply gives_use; [by apply swallow_none|]. intros _ _. rstep.
  eapply gives_use; [apply (stmts_gives fuel (parseBlock fuel) IH b rest (S fuel) []); [done| |lia]|].
  { pose proof (length_stmts b Hg). rewrite length_app in Hf. lia. }
  intros r (b' & -> & Hb'). repeat rstep. split_ands; try done. by eexists.
Qed.
End StmtRoundTrip.
