(* ===== verification/ModuleRoundTrip.v ===== *)
(** Records and modules: the parser reads back what AstPrint writes, from the text. *)
From Stdlib Require Import ZArith Lia List String.
From stdpp Require Import base list numbers option strings gmap.
From S2P Require Import Prelude Lexer Ast Parser ParserLogic AstPrint ParserRoundTrip StmtRoundTrip.
#[local] Open Scope Z_scope.
#[local] Arguments String.append !_ _ : simpl nomatch.

Module ModuleRoundTrip.
Import Lexer Ast Parser ParserLogic AstPrint ParserRoundTrip StmtRoundTrip.

(** ** Prototypes *)

Definition same_body (r r' : RecordBody) : Prop := erase_body r' = erase_body r.

Lemma same_decls ds ds' : Forall2 same_decl ds ds' -> map (erase_decl erase) ds' = map (erase_decl erase) ds.
Proof. apply Forall2_map_eq. Qed.

Lemma arg_gives fuel d t0 k (s : list (VarDeclExprAST ExprAST)) : good_arg d = true ->
  (length (parg d ++ k) < fuel)%nat ->
  gives (let! _ := nextToken in
    let! type := parseType fuel in
    match type with
    | None => let! x := parseError "type" "in function parameter list" in mret (inr x)
    | Some type =>
        let! t := curToken in
        if negb (t =? tok_identifier) then
          let! x := parseError "identifier" "in function parameter list" in mret (inr x)
        else
          let! name := id in
          let! _ := checkConsume tok_identifier in
          let! loc := lastLoc in
          let args := s ++ [MkVarDecl loc name type None] in
          let! t := curToken in
          mret (if t =? tok_comma then inl args else inr (Some args))
    end)
    (fun r => exists v, same_decl d v /\
      r = if hd_code k =? tok_comma then inl (s ++ [v]) else inr (Some (s ++ [v])))
    (t0 :: parg d ++ k) k.
Proof.
  unfold good_arg, parg. destruct d as [loc nm ty init]. cbn [d_type d_name initVal].
  rewrite !andb_true_iff. intros [[Hty [Hk _]%good_id_spec] Hi] Hf log. destruct init; [done|].
  rewrite <- app_assoc in *. cbn [app] in *. repeat rstep. cbn [tail].
  eapply gives_use; [apply ptype_gives; [done|done|]|].
  { cbn [hd_code code]. by rewrite Hk. }
  intros r ->. repeat rstep. cbn [tail]. split_ands; try done. eexists. split; [|done]. done.
Qed.

Lemma parg_nonempty d : parg d <> [].
Proof. unfold parg. by intros [_ ?]%app_eq_nil. Qed.

Definition proto_token (p : PrototypeAST) : Z :=
  match pr_type p with Function_Handler => tok_handler | Function_Controller => tok_controller end.

Lemma args_gives fuel ds rest : ds <> [] -> forallb good_arg ds = true ->
  (length (commas (map parg ds) ++ sym tok_parenthese_close :: rest) < fuel)%nat ->
  gives (prototype_args fuel) (some (Forall2 same_decl ds))
    (sym tok_parenthese_open :: commas (map parg ds) ++ sym tok_parenthese_close :: rest)
    (sym tok_parenthese_close :: rest).
Proof.
  intros Hne Hg Hf log. unfold prototype_args.
  eapply gives_use; [apply (loop_lead _ parg same_decl Some (sym tok_parenthese_close :: rest)
    (length (commas (map parg ds) ++ sym tok_parenthese_close :: rest)) ds); [done| |exact Hne| |done]|].
  - intros s x t0 k Hin Hlen _. apply arg_gives; [by eapply forallb_elem|lia].
  - etrans; [apply (length_commas parg)|rewrite length_app in Hf; lia]. intros. apply parg_nonempty.
  - intros r (vs & -> & Hvs). split_ands; try done. by eexists.
Qed.

Lemma pproto_eq p : pproto p = TWord (getFunctionTypeName p) :: TWord (pr_name p) ::
  match pr_atom p with Some a => [sym tok_colon; TWord a] | None => [] end ++
  sym tok_parenthese_open :: commas (map parg (pr_args p)) ++ [sym tok_parenthese_close].
Proof. done. Qed.

(** The parameters in their parentheses. *)
Lemma parens_gives fuel ds rest {R} (f : option (list (VarDeclExprAST ExprAST)) -> M R) Q log :
  forallb good_arg ds = true ->
  (length (commas (map parg ds) ++ sym tok_parenthese_close :: rest) < fuel)%nat ->
  (forall ds', Forall2 same_decl ds ds' -> pwp (f (Some ds')) Q no_stop (sym tok_parenthese_close :: rest) log) ->
  pwp peekToken (fun next => pwp (
       let! args :=
         (if negb (next =? tok_parenthese_close) then prototype_args fuel
          else let! _ := eat tok_parenthese_open in mret (Some [])) in f args) Q no_stop) no_stop
    (sym tok_parenthese_open :: commas (map parg ds) ++ sym tok_parenthese_close :: rest) log.
Proof.
  intros Hg Hf HQ. apply pwp_peek; [done|]. cbn [tail].
  destruct ds as [|d ds].
  - cbn [map commas app]. codes. do 4 rstep. apply HQ. constructor.
  - assert (Hh : (hd_code (commas (map parg (d :: ds)) ++ sym tok_parenthese_close :: rest) =? tok_parenthese_close) = false).
    { cbn [forallb] in Hg. unfold good_arg in Hg. rewrite !andb_true_iff in Hg. destruct Hg as [[[Hty _] _] _].
      assert (E : exists r, commas (map parg (d :: ds)) ++ sym tok_parenthese_close :: rest = ptype (d_type d) ++ r).
      { cbn [map commas]. destruct ds; cbn [map]; unfold parg; rewrite <- ?app_assoc; by eexists. }
      destruct E as [r ->]. destruct (ptype_word _ r Hty) as (w & ts & -> & Hw). cbn [hd_code code]. by rewrite Hw. }
    rewrite Hh. cbn [negb]. rstep. eapply gives_use; [by apply args_gives|]. intros r (ds' & -> & Hds). by apply HQ.
Qed.

Lemma proto_gives fuel p rest : good_proto p = true -> (length (pproto p ++ rest) < fuel)%nat ->
  gives (parsePrototype fuel (proto_token p))
    (some (fun p' => erase_proto p' = erase_proto p)) (pproto p ++ rest) rest.
Proof.
  destruct p as [loc nm args atom ty]. unfold good_proto, proto_token. cbn [pr_name pr_args pr_atom pr_type].
  rewrite !andb_true_iff, pproto_eq. cbn [pr_name pr_args pr_atom getFunctionTypeName pr_type].
  intros [[[Hk _]%good_id_spec Hargs] Hatom] Hf log.
  assert (Hend : forall loc' ds', Forall2 same_decl args ds' ->
    erase_proto (MkPrototype loc' nm ds' atom ty) = erase_proto (MkPrototype loc nm args atom ty)).
  { intros loc' ds' H%same_decls. unfold erase_proto. cbn. by rewrite H. }
  rewrite !length_app in Hf. unfold parsePrototype. destruct ty, atom as [a|]; try done; cbn [app length] in *; rewrite ?length_app in Hf; cbn [length] in Hf.
  - repeat rstep. rewrite <- app_assoc. cbn [app]. codes.
    apply parens_gives; [done|rewrite length_app; cbn [length]; lia|].
    intros ds' Hds. cbv beta iota. repeat rstep. cbn [tail]. split_ands; try done. eexists. split; [done|]. by apply Hend.
  - repeat rstep. eapply gives_use; [by apply (parseAtom_gives a)|]. intros r ([la a'] & -> & Ha). cbn in Ha. subst a'.
    repeat rstep. rewrite <- app_assoc. cbn [app]. codes.
    apply parens_gives; [done|rewrite length_app; cbn [length]; lia|].
    intros ds' Hds. cbv beta iota. repeat rstep. cbn [tail]. split_ands; try done. eexists. split; [done|]. by apply Hend.
  - repeat rstep. rewrite <- app_assoc. cbn [app]. codes.
    apply parens_gives; [done|rewrite length_app; cbn [length]; lia|].
    intros ds' Hds. cbv beta iota. repeat rstep. cbn [tail]. split_ands; try done. eexists. split; [done|]. by apply Hend.
Qed.

(** ** Functions, structs and events *)

Lemma definition_gives fuel p b rest : good_body (FunctionAST p b) = true ->
  (length (pbody (FunctionAST p b) ++ rest) < fuel)%nat ->
  gives (parseDefinition fuel (proto_token p)) (some (same_body (FunctionAST p b)))
    (pbody (FunctionAST p b) ++ rest) rest.
Proof.
  cbn [good_body pbody]. intros [Hp Hb]%andb_true_iff Hf log. rewrite <- app_assoc in *. unfold parseDefinition.
  rstep. eapply gives_use; [by apply proto_gives|]. intros r (p' & -> & Hp'). cbv beta iota. rstep.
  rewrite length_app in Hf. eapply gives_use; [apply block_gives; [done|lia]|]. intros r (b' & -> & Hb').
  rstep. split_ands; try done. eexists. split; [done|]. unfold same_body. cbn.
  by rewrite Hp', (same_list _ _ Hb').
Qed.

Definition pfield (d : VarDeclExprAST ExprAST) : list tok := pdecl d ++ [sym tok_semicolon].

Lemma pdecl_head d r : good_decl d = true ->
  exists w ts, pdecl d ++ r = TWord w :: ts /\ keyword w = tok_identifier.
Proof.
  unfold good_decl, pdecl. rewrite !andb_true_iff. intros [[Hty _] _]. rewrite <- app_assoc.
  by apply ptype_word.
Qed.

Lemma fields_gives fuel ds rest : forallb good_decl ds = true ->
  (length (concat (map pfield ds) ++ sym tok_bracket_close :: rest) < fuel)%nat ->
  gives (struct_decls fuel) (some (Forall2 same_decl ds))
    (concat (map pfield ds) ++ sym tok_bracket_close :: rest) (sym tok_bracket_close :: rest).
Proof.
  intros Hg Hf. unfold struct_decls. set (body := fun decls => _).
  enough (forall n done_, (length (concat (map pfield ds) ++ sym tok_bracket_close :: rest) <= n)%nat ->
    gives (loop n body done_) (fun r => exists ds', r = Some (done_ ++ ds') /\ Forall2 same_decl ds ds')
      (concat (map pfield ds) ++ sym tok_bracket_close :: rest) (sym tok_bracket_close :: rest)) as H.
  { intros log. eapply gives_use; [apply H; lia|]. intros r (ds' & -> & Hds'). split_ands; try done. by eexists. }
  clear - Hg Hf. induction ds as [|d ds IH]; intros n done_ Hn log;
    (destruct n as [|n]; [rewrite length_app in Hn; cbn [length] in Hn; lia|]); cbn [loop]; subst body; cbv beta.
  - cbn [map concat app]. repeat rstep. split_ands; try done. exists []. by rewrite app_nil_r.
  - cbn [forallb map concat] in *. apply andb_true_iff in Hg as [Hd Hg].
    assert (Ef : pfield d = pdecl d ++ [sym tok_semicolon]) by done. rewrite Ef in *.
    rewrite <- !app_assoc in *. cbn [app] in *. rstep. rstep. rstep.
    match goal with |- context [pdecl d ++ ?r] => destruct (pdecl_head d r Hd) as (w & ts & E & Hw) end.
    rewrite E. codes. rewrite <- E. rstep. rewrite length_app in Hf, Hn. cbn [length] in Hf, Hn.
    eapply gives_use; [apply decl_gives; [done|rewrite length_app; cbn [length]; lia|done|done]|].
    intros r (d' & -> & Hd'). repeat rstep. cbn [tail].
    eapply gives_use; [apply IH; [done|lia|lia]|]. intros r (ds' & -> & Hds'). split_ands; try done.
    exists (d' :: ds'). rewrite <- app_assoc. split; [done|]. by constructor.
Qed.

Definition struct_token (ev : bool) : Z := if ev then tok_event else tok_struct.

Lemma struct_gives fuel ev loc n ds rest : good_body (StructAST ev loc n ds) = true ->
  (length (pbody (StructAST ev loc n ds) ++ rest) < fuel)%nat ->
  gives (parseStruct fuel (struct_token ev)) (some (same_body (StructAST ev loc n ds)))
    (pbody (StructAST ev loc n ds) ++ rest) rest.
Proof.
  cbn [good_body pbody]. intros [[Hn _]%good_id_spec Hds]%andb_true_iff Hf log.
  cbn [app length] in *. rewrite <- app_assoc in *. cbn [app] in *.
  assert (Hw : keyword (if ev then "event" else "struct") = struct_token ev).
  { by destruct ev; cbn [struct_token]; autorewrite with keywords. }
  unfold parseStruct.
  repeat rstep. cbn [tail]. eapply gives_use; [apply fields_gives; [done|]|].
  { change (concat (map pfield ds)) with (concat (map (fun d => pdecl d ++ [sym tok_semicolon]) ds)). lia. }
  intros r (ds' & -> & Hds'). repeat rstep. cbn [tail]. split_ands; try done. eexists. split; [done|].
  unfold same_body. cbn. rewrite (same_decls _ _ Hds'). by destruct ev.
Qed.

(** ** Globals *)

Lemma global_gives fuel loc n d rest : good_body (GlobalAST loc n d) = true ->
  (length (pbody (GlobalAST loc n d) ++ rest) < fuel)%nat ->
  gives (parseGlobal fuel) (same_body (GlobalAST loc n d)) (pbody (GlobalAST loc n d) ++ rest) rest.
Proof.
  cbn [good_body pbody]. intros [Hd Hn%bool_decide_eq_true]%andb_true_iff Hf log.
  cbn [app length] in *. rewrite <- app_assoc in *. cbn [app] in *. unfold parseGlobal. repeat rstep. cbn [tail].
  eapply gives_use; [apply decl_gives; [done|lia|done|done]|]. intros r (d' & -> & Hd'). repeat rstep. cbn [tail].
  split_ands; try done. unfold same_body. cbn. unfold same_decl in Hd'. rewrite Hd'. f_equal. subst n.
  by destruct d, d'; injection Hd'.
Qed.

(** ** Scopes *)

Lemma split_colon_join s : s =
  match split_colon s with (h, Some a) => h +:+ ":" +:+ a | (h, None) => h end.
Proof.
  induction s as [|c s IH]; [done|]. cbn [split_colon]. destruct (Z.eqb_spec (char_int c) tok_colon) as [E|].
  - assert (c = int_char 58) as ->; [|done]. revert E. by destruct c as [[] [] [] [] [] [] [] []].
  - destruct (split_colon s) as [h [a|]].
    + change (String c s = String c (h +:+ ":" +:+ a)). by rewrite <- IH.
    + by rewrite IH.
Qed.

Definition phandlers (hs : list string) : list tok :=
  match hs with
  | [] => []
  | _ => sym tok_angle_bracket_open :: commas (map phandler hs) ++ [sym tok_angle_bracket_close]
  end.
Definition pkey (k : string) : list tok :=
  if bool_decide (k = "") then [] else [sym tok_sbracket_open; TWord k; sym tok_sbracket_close].

Lemma pscope_eq loc n hs k : pbody (ScopeAST loc n hs k) =
  TWord "scope" :: TWord n :: phandlers hs ++ pkey k ++ [sym tok_semicolon].
Proof. by destruct hs. Qed.

Lemma phandler_nonempty s : phandler s <> [].
Proof. unfold phandler. by destruct (split_colon s). Qed.

Lemma handlers_gives fuel hs rest : forallb good_handler hs = true ->
  (length (phandlers hs ++ rest) < fuel)%nat -> (hd_code rest =? tok_angle_bracket_open) = false ->
  gives (scope_handlers fuel) (fun r => r = Some hs) (phandlers hs ++ rest) rest.
Proof.
  intros Hg Hf Hr log. unfold scope_handlers. rstep. rstep.
  assert (Hcase : hs = [] \/ hs <> []) by (destruct hs; [by left|by right]).
  destruct Hcase as [->|Hne].
  { cbn [phandlers app]. rewrite Hr. cbn [negb]. by rstep. }
  assert (E : phandlers hs = sym tok_angle_bracket_open :: commas (map phandler hs) ++ [sym tok_angle_bracket_close])
    by by destruct hs.
  rewrite E in *. cbn [app length] in *. rewrite <- app_assoc in *. cbn [app] in *. codes. rstep.
  eapply gives_use; [apply (loop_lead _ phandler (fun x v => v = x) Some (sym tok_angle_bracket_close :: rest)
    (length (commas (map phandler hs) ++ sym tok_angle_bracket_close :: rest)) hs); [done| |exact Hne| |done]|].
  - intros s x t0 k Hin Hlen Hk log1. pose proof (forallb_elem _ _ _ Hg Hin) as Hx. cbv beta in Hx.
    unfold good_handler, phandler in *. pose proof (split_colon_join x) as Ex.
    destruct (split_colon x) as [h [a|]]; apply andb_true_iff in Hx as [[Hh _]%good_id_spec Hx].
    + apply good_id_spec in Hx as [Ha _]. cbn [app] in *. repeat rstep. cbn [tail]. repeat rstep. cbn [tail].
      split_ands; try done. exists x. split; [done|]. rewrite <- Ex. by destruct (hd_code k =? tok_comma).
    + cbn [app] in *. do 8 rstep. cbn [tail].
      assert (Hk2 : (hd_code k =? tok_colon) = false) by by destruct Hk as [->| ->].
      rewrite Hk2. repeat rstep. split_ands; try done. exists x. split; [done|]. rewrite <- Ex.
      by destruct (hd_code k =? tok_comma).
  - etrans; [apply (length_commas phandler)|rewrite length_app in Hf; lia]. intros. apply phandler_nonempty.
  - intros r (vs & -> & Hvs%Forall2_eq_list). subst vs. repeat rstep. done.
Qed.

Lemma key_gives k rest : bool_decide (k = "") || good_id k = true ->
  gives scope_partition_key (fun r => r = Some k) (pkey k ++ sym tok_semicolon :: rest) (sym tok_semicolon :: rest).
Proof.
  unfold pkey. intros Hk log. unfold scope_partition_key. rstep. rstep. destruct (bool_decide_reflect (k = "")) as [->|].
  - cbn [app]. codes. by rstep.
  - cbn [orb] in Hk. apply good_id_spec in Hk as [Hk _]. cbn [app]. codes. repeat rstep. by cbn [tail].
Qed.

Lemma scope_gives fuel loc n hs k rest : good_body (ScopeAST loc n hs k) = true ->
  (length (pbody (ScopeAST loc n hs k) ++ rest) < fuel)%nat ->
  gives (parseScope fuel) (some (same_body (ScopeAST loc n hs k))) (pbody (ScopeAST loc n hs k) ++ rest) rest.
Proof.
  cbn [good_body]. rewrite !andb_true_iff, pscope_eq. intros [[[Hn _]%good_id_spec Hhs] Hk] Hf log.
  cbn [app length] in *. rewrite <- !app_assoc in *. cbn [app] in *. unfold parseScope. repeat rstep. cbn [tail].
  eapply gives_use; [apply handlers_gives; [done|lia|unfold pkey; by destruct (bool_decide _)]|].
  intros r ->. cbv beta iota. rstep. eapply gives_use; [by apply key_gives|]. intros r ->. repeat rstep. cbn [tail].
  split_ands; try done. by eexists.
Qed.

(** ** Attributes *)

(** A list in brackets of elements that [f] reads into the variables it changes. *)
Lemma separateBy_gives {A T S} (f : S -> Z -> M (option T * S)) (pr : A -> list tok) (upd : S -> A -> S)
    opening closing fuel xs s rest :
  closing <> tok_identifier -> closing <> tok_number -> (closing =? tok_comma) = false ->
  (forall s x k, x ∈ xs -> (length (pr x ++ k) < fuel)%nat -> hd_code k = tok_comma \/ hd_code k = closing ->
     gives (f s (hd_code (pr x ++ k))) (fun r => r = (None, upd s x)) (pr x ++ k) k) ->
  xs <> [] -> (forall x, x ∈ xs -> pr x <> []) ->
  (length (commas (map pr xs) ++ sym closing :: rest) < fuel)%nat ->
  gives (separateBy fuel opening closing tok_comma f s) (fun r => r = (None, foldl upd s xs))
    (sym opening :: commas (map pr xs) ++ sym closing :: rest) rest.
Proof.
  intros Hc1 Hc2 Hc Hstep Hne Hpr Hf log. unfold separateBy. rstep. rstep. rewrite Z.eqb_refl. cbn [negb]. rstep.
  set (body := fun s : S => _).
  enough (forall n s t0, (length xs <= n)%nat ->
    gives (loop n body s) (fun r => r = (None, foldl upd s xs))
      (t0 :: commas (map pr xs) ++ sym closing :: rest) (sym closing :: rest)) as H.
  { eapply gives_use; [apply H|].
    - rewrite length_app in Hf. pose proof (length_commas pr xs Hpr). lia.
    - intros r ->. rstep. rstep. rewrite Z.eqb_refl. cbn [negb]. rstep.
      apply pwp_eat; [intros _|done]. by rstep. }
  clear log s. induction xs as [|x xs IH]; [done|]; intros n s t0 Hn log.
  destruct n as [|n]; [cbn in Hn; lia|]. cbn [loop]. rstep. subst body. cbv beta. rstep. rstep. cbn [tail].
  destruct xs as [|y xs].
  - cbn [map commas] in *. rstep. eapply gives_use; [apply Hstep; [set_solver|done|by right]|].
    intros r ->. cbv beta iota. rstep. rstep. rewrite Hc. by repeat rstep.
  - change (commas (map pr (x :: y :: xs))) with (pr x ++ sym tok_comma :: commas (map pr (y :: xs))) in *.
    rewrite <- app_assoc in *. cbn [app] in *. rstep.
    eapply gives_use; [apply Hstep; [set_solver|done|by left]|].
    intros r ->. cbv beta iota. repeat rstep. rewrite length_app in Hf. cbn [length] in Hf.
    apply IH; [intros; apply Hstep; set_solver|done|set_solver|lia|cbn in Hn |- *; lia].
Qed.

Definition word_tok (s : string) : list tok := [TWord s].

Lemma items_gives fuel l rest : negb (length l =? 0)%nat = true -> forallb good_id l = true ->
  (length (commas (map word_tok l) ++ sym tok_parenthese_close :: rest) < fuel)%nat ->
  gives (separateBy fuel tok_parenthese_open tok_parenthese_close tok_comma attribute_item [])
    (fun r => r = (None, l))
    (sym tok_parenthese_open :: commas (map word_tok l) ++ sym tok_parenthese_close :: rest) rest.
Proof.
  intros Hne Hg Hf log.
  eapply gives_use; [apply (separateBy_gives attribute_item word_tok (fun l x => l ++ [x])); try done|].
  - intros s x k Hin _ _ log1. pose proof (forallb_elem _ _ _ Hg Hin) as [Hx _]%good_id_spec.
    unfold attribute_item. cbn [word_tok app]. codes. repeat rstep. done.
  - by destruct l.
  - intros r ->. split_ands; try done. f_equal.
    enough (forall a, foldl (fun l x => l ++ [x]) a l = a ++ l) as H by exact (H []).
    clear. induction l as [|x l IH]; intros a; cbn [foldl]; [by rewrite app_nil_r|]. by rewrite IH, <- app_assoc.
Qed.

Definition set_attr (m : gmap string Attribute) (a : string * Attribute) : gmap string Attribute := <[fst a := snd a]> m.

Lemma attribute_gives fuel m a t k : good_attr a = true -> (length (pattr a ++ k) < fuel)%nat ->
  hd_code k = tok_comma \/ hd_code k = tok_sbracket_close ->
  gives (attribute fuel m t) (fun r => r = (None, set_attr m a)) (pattr a ++ k) k.
Proof.
  destruct a as [x v]. unfold good_attr, pattr, set_attr. cbn [fst snd].
  intros [[Hx _]%good_id_spec Hv]%andb_true_iff Hf Hk log. unfold attribute.
  destruct v as [s|b|l]; cbn [app length] in *.
  - apply good_id_spec in Hv as [Hv _]. repeat rstep. cbn [tail]. done.
  - destruct b; [|done]. do 8 rstep. cbn [tail].
    assert (Hk2 : (hd_code k =? tok_eq) = false) by by destruct Hk as [->| ->].
    rewrite Hk2. repeat rstep. done.
  - apply andb_true_iff in Hv as [Hne Hg]. rewrite <- app_assoc in *. cbn [app] in *. repeat rstep. cbn [tail].
    eapply gives_use; [apply items_gives; [done|done|unfold word_tok; lia]|].
    intros r ->. repeat rstep. done.
Qed.

Lemma pattr_nonempty a : pattr a <> [].
Proof. by unfold pattr. Qed.

Lemma foldl_set_attr i l base : NoDup l.*1 -> foldl set_attr base l !! i =
  match (list_to_map l : gmap string Attribute) !! i with Some v => Some v | None => base !! i end.
Proof.
  revert base. induction l as [|[k v] l IH]; intros base Hnd; [done|]. cbn [foldl]. inversion_clear Hnd as [|? ? Hk Hnd'].
  rewrite IH by done. rewrite list_to_map_cons. unfold set_attr. cbn [fst snd] in *. destruct (decide (i = k)) as [->|Hne].
  - rewrite !lookup_insert_eq, not_elem_of_list_to_map_1 by done. done.
  - by rewrite !lookup_insert_ne by done.
Qed.

(** Every attribute set after [extern] is the map. *)
Lemma attrs_fold m : good_attrs m = true ->
  foldl set_attr (if bool_decide (m !! "extern" = None) then ∅ else {["extern" := AttrBool true]})
    (map_to_list (delete "extern" m)) = m.
Proof.
  unfold good_attrs. intros [Hx _]%andb_true_iff. apply map_eq. intros i.
  rewrite foldl_set_attr by apply NoDup_fst_map_to_list. rewrite list_to_map_to_list.
  destruct (decide (i = "extern")) as [->|Hi].
  - rewrite lookup_delete_eq. destruct (m !! "extern") as [[|[]|]|] eqn:E; try done.
  - rewrite lookup_delete_ne by done. destruct (m !! i) eqn:E; [done|].
    destruct (bool_decide _); [by rewrite lookup_empty|]. by rewrite lookup_singleton_ne.
Qed.

(** ** Modules *)

Definition same_record (r r' : RecordAST) : Prop := erase_record r' = erase_record r.

(** One round of the loop of [parseModule]. *)
Definition module_body (fuel : nat) : AttributesType * ModuleAST ->
    M (AttributesType * ModuleAST + option ModuleAST) :=
  fun '(attributes, records) =>
    let! r := module_round fuel attributes in
    mret (match r with
          | Continue attributes => inl (attributes, records)
          | ReturnNull => inr None
          | Leave => inr (Some records)
          | Record r => inl (∅, records ++ [MkRecord attributes r])
          end).

Lemma body_round_gives fuel m b rest : good_body b = true -> (length (pbody b ++ rest) < fuel)%nat ->
  gives (module_round fuel m) (fun r => exists b', r = Record b' /\ same_body b b') (pbody b ++ rest) rest.
Proof.
  intros Hg Hf log. destruct b as [p b|ev loc n ds|loc n hs k|loc n d].
  - pose proof (definition_gives fuel p b rest Hg Hf) as H.
    assert (E : exists ts, pbody (FunctionAST p b) ++ rest = TWord (getFunctionTypeName p) :: ts) by by eexists.
    destruct E as [ts E]. rewrite E in *. unfold module_round, proto_token, getFunctionTypeName in *.
    destruct (pr_type p); repeat rstep; (eapply gives_use; [exact H|]); intros r (b' & -> & Hb'); rstep;
      split_ands; try done; by eexists.
  - pose proof (struct_gives fuel ev loc n ds rest Hg Hf) as H. cbn [pbody app] in *.
    unfold module_round, struct_token in *.
    destruct ev; repeat rstep; (eapply gives_use; [exact H|]); intros r (b' & -> & Hb'); rstep;
      split_ands; try done; by eexists.
  - pose proof (scope_gives fuel loc n hs k rest Hg Hf) as H. cbn [pbody app] in *. unfold module_round.
    repeat rstep. eapply gives_use; [exact H|]. intros r (b' & -> & Hb'). rstep.
    split_ands; try done. by eexists.
  - pose proof (global_gives fuel loc n d rest Hg Hf) as H. cbn [pbody app] in *. unfold module_round.
    repeat rstep. eapply gives_use; [exact H|]. intros b' Hb'. rstep. split_ands; try done. by eexists.
Qed.

Definition plist (l : list (string * Attribute)) : list tok :=
  match l with
  | [] => []
  | _ => sym tok_sbracket_open :: commas (map pattr l) ++ [sym tok_sbracket_close]
  end.

Lemma list_run fuel l base rs k n Q log : forallb good_attr l = true ->
  (length (plist l ++ k) < fuel)%nat -> (length (plist l) <= n)%nat ->
  (forall n', (n <= n' + length (plist l))%nat ->
     pwp (loop n' (module_body fuel) (foldl set_attr base l, rs)) Q no_stop k log) ->
  pwp (loop n (module_body fuel) (base, rs)) Q no_stop (plist l ++ k) log.
Proof.
  intros Hg Hf Hn HQ. assert (Hcase : l = [] \/ l <> []) by (destruct l; [by left|by right]).
  destruct Hcase as [->|Hne]; [apply HQ; lia|].
  assert (E : plist l = sym tok_sbracket_open :: commas (map pattr l) ++ [sym tok_sbracket_close]) by by destruct l.
  rewrite E in *. cbn [app length] in *. rewrite <- app_assoc in *. cbn [app] in *.
  destruct n as [|n]; [lia|]. cbn [loop]. rstep. unfold module_body at 1. rstep. unfold module_round. repeat rstep.
  eapply gives_use; [apply (separateBy_gives (attribute fuel) pattr set_attr); try done|].
  - intros s x k' Hin Hlen Hk. apply attribute_gives; [by eapply forallb_elem|done|done].
  - lia.
  - intros r ->. cbv beta iota. repeat rstep. apply HQ. lia.
Qed.

Lemma attrs_run fuel m rs k n Q log : good_attrs m = true ->
  (length (pattrs m ++ k) < fuel)%nat -> (length (pattrs m) <= n)%nat ->
  (forall n', (n <= n' + length (pattrs m))%nat -> pwp (loop n' (module_body fuel) (m, rs)) Q no_stop k log) ->
  pwp (loop n (module_body fuel) (∅, rs)) Q no_stop (pattrs m ++ k) log.
Proof.
  intros Hg Hf Hn HQ. pose proof (attrs_fold m Hg) as Hm. unfold good_attrs in Hg. apply andb_true_iff in Hg as [_ Hg].
  assert (E : pattrs m = (if bool_decide (m !! "extern" = None) then [] else [TWord "extern"]) ++
    plist (map_to_list (delete "extern" m))) by (unfold pattrs, plist; by destruct (map_to_list _)).
  rewrite E in *. rewrite <- app_assoc in *.
  destruct (bool_decide (m !! "extern" = None)); cbn [app length] in *.
  - apply list_run; [done|done|done|]. intros n' Hn'. rewrite Hm. by apply HQ.
  - destruct n as [|n]; [lia|]. cbn [loop]. rstep. unfold module_body at 1. rstep. unfold module_round. repeat rstep.
    cbn [tail]. apply list_run; [done|lia|lia|]. intros n' Hn'. rewrite insert_empty, Hm. apply HQ. lia.
Qed.

Lemma pbody_nonempty b : pbody b <> [].
Proof. by destruct b. Qed.

Lemma records_gives fuel m : forall rs n, good_module m = true -> (length (pmodule m) < fuel)%nat ->
  (length (pmodule m) < n)%nat ->
  gives (loop n (module_body fuel) (∅, rs)) (fun r => exists m', r = Some (rs ++ m') /\ Forall2 same_record m m')
    (pmodule m) [].
Proof.
  induction m as [|[attrs b] m IH]; intros rs n Hg Hf Hn log.
  - destruct n as [|n]; [cbn in Hn; lia|]. cbn [pmodule map concat loop]. rstep. unfold module_body at 1. rstep.
    unfold module_round. repeat rstep. split_ands; try done. exists []. by rewrite app_nil_r.
  - change (pmodule (MkRecord attrs b :: m)) with ((pattrs attrs ++ pbody b) ++ pmodule m) in *.
    cbn [good_module forallb good_record attributes r_body] in Hg. apply andb_true_iff in Hg as [Hg Hm].
    unfold good_record in Hg. cbn [attributes r_body] in Hg. apply andb_true_iff in Hg as [Ha Hb].
    rewrite <- !app_assoc in *. apply attrs_run; [done|done|rewrite length_app in Hn; lia|]. intros n' Hn'.
    rewrite !length_app in Hf, Hn. pose proof (pbody_nonempty b). destruct (pbody b) eqn:Eb; [done|].
    cbn [length] in Hf, Hn. destruct n' as [|n']; [lia|]. rewrite <- Eb. cbn [loop]. rstep. unfold module_body at 1. rstep.
    eapply gives_use; [apply body_round_gives; [done|rewrite length_app, Eb; cbn [length]; lia]|].
    intros r (b' & -> & Hb'). rstep. eapply gives_use; [apply IH; [done|lia|lia]|].
    intros r (m' & -> & Hm'). split_ands; try done. eexists. rewrite <- app_assoc. split; [done|].
    constructor; [|done]. unfold same_record, erase_record. cbn. by rewrite Hb'.
Qed.

(** ** The text of a module *)

Definition wf (ts : list tok) : Prop := Forall (fun t => wf_tok t = true) ts.

Lemma wf_dec v : wf_tok (TNum (dec v)) = true.
Proof.
  unfold dec. enough (forall fuel v acc, all_chars num_char acc = true -> wf_tok (TNum (dec_go (S fuel) v acc)) = true)
    as H by by apply H.
  clear v. induction fuel as [|fuel IH]; intros v acc Hacc;
    destruct (digit_char v) as [Hd _]; cbn [dec_go]; destruct (v <? 10);
    try (by cbn [wf_tok]; rewrite Hd).
  apply (IH (v / 10)). cbn [all_chars]. unfold num_char at 1. by rewrite Hd.
Qed.

Lemma wf_number v : wf (print_number v).
Proof. repeat constructor. apply wf_dec. Qed.

Lemma wf_word s : good_id s = true -> wf_tok (TWord s) = true.
Proof. by intros [_ ?]%good_id_spec. Qed.

Lemma wf_op op : is_op op = true -> wf_tok (TSym op) = true.
Proof.
  intros [_ H]%is_op_spec. rewrite !elem_of_cons in H.
  repeat destruct H as [->|H]; try done. by apply elem_of_nil in H.
Qed.

Lemma wf_commas l : Forall wf l -> wf (commas l).
Proof.
  induction 1 as [|t l Ht Hl IH]; [constructor|]. destruct l; [done|].
  change (commas (t :: l :: l0)) with (t ++ sym tok_comma :: commas (l :: l0)).
  apply Forall_app. split; [done|]. by constructor.
Qed.

Lemma wf_commas_map {A} (f : A -> list tok) (p : A -> bool) xs : (forall x, p x = true -> wf (f x)) ->
  forallb p xs = true -> wf (commas (map f xs)).
Proof.
  intros Hf Hp. apply wf_commas. apply Forall_forall. intros t Ht. apply list_elem_of_In, in_map_iff in Ht as (x & <- & Hx).
  apply Hf. by apply (forallb_elem _ xs x Hp), list_elem_of_In.
Qed.

Lemma wf_concat_map {A} (f : A -> list tok) (p : A -> bool) xs : (forall x, p x = true -> wf (f x)) ->
  forallb p xs = true -> wf (concat (map f xs)).
Proof.
  intros Hf. induction xs as [|x xs IH]; cbn; [constructor|]. intros [Hx Hxs]%andb_true_iff.
  apply Forall_app. split; [by apply Hf|by apply IH].
Qed.

(** Symbols, words and lists of tokens. *)
Ltac wf_step :=
  lazymatch goal with
  | |- wf [] => constructor
  | |- wf (_ :: _) => constructor
  | |- wf (_ ++ _) => apply Forall_app; split
  | |- wf (if ?b then _ else _) => destruct b eqn:?
  | |- wf (print_number _) => apply wf_number
  | |- Forall (fun t => wf_tok t = true) ?ts => change (wf ts)
  | |- wf_tok (TWord ?s) = true => first [by apply wf_word|done]
  | |- wf_tok (TNum _) = true => apply wf_dec
  | |- wf_tok _ = true => done
  end.

Lemma wf_paren p lev ts : wf ts -> wf (paren p lev ts).
Proof. intros H. unfold paren. repeat wf_step; done. Qed.

Lemma wf_dotted p : good_path p = true -> wf (print_dotted (path p)).
Proof.
  destruct p as [l [|v vs]]; [done|]. unfold good_path. cbn [path length negb Nat.eqb andb]. rewrite print_dotted_cons.
  cbn [forallb]. intros [Hv Hvs]%andb_true_iff. constructor; [by apply wf_word|].
  apply (wf_concat_map _ (fun v => good_id (v_name v))); [|done]. intros x Hx. repeat wf_step.
Qed.

Lemma wf_group ps : forallb good_port ps = true -> wf (print_group ps).
Proof.
  intros H. unfold print_group. repeat wf_step. apply (wf_commas_map _ good_port); [|done].
  intros x. unfold good_port, print_port. destruct (bool_decide_reflect (x = "*")); cbn [orb]; intros; repeat wf_step.
Qed.

Lemma wf_literal e : good_literal e = true -> wf (pexpr e).
Proof.
  revert e. fix IH 1. intros [loc v| |loc vs| | | | | | | | |]; try done.
  - intros _. apply wf_number.
  - cbn [good_literal pexpr]. intros [_ Hvs]%andb_true_iff. repeat wf_step.
    apply wf_commas. induction vs as [|[e|] vs IHvs]; cbn [map forallb] in *; [constructor| |done].
    apply andb_true_iff in Hvs as [He Hvs]. constructor; [by apply IH|by apply IHvs].
Qed.

Lemma wf_pexpr e : good_expr e = true -> wf (pexpr e).
Proof.
  revert e. fix IH 1. intros [loc v| |loc vs|loc a|loc ev a i|p| |loc [nm ps] vs| |loc op l r|loc c args ins outs|]; try done.
  - intros _. apply wf_number.
  - intros H. by apply wf_literal.
  - cbn [good_expr pexpr]. intros H. repeat wf_step.
  - cbn [good_expr pexpr]. rewrite !andb_true_iff. intros [[[Hev Ha] _] _].
    destruct (bool_decide (a = "")); cbn [orb] in Ha; repeat wf_step.
  - cbn [good_expr pexpr]. apply wf_dotted.
  - cbn [good_expr pexpr type_name]. rewrite !andb_true_iff. intros [[[Hn _] _] Hvs].
    repeat wf_step. apply wf_commas. induction vs as [|e vs IHvs]; cbn [map forallb] in *; [constructor|].
    apply andb_true_iff in Hvs as [He Hvs]. constructor; [by apply IH|by apply IHvs].
  - cbn [good_expr pexpr]. intros [[Hop Hl]%andb_true_iff Hr]%andb_true_iff. repeat wf_step; [by apply wf_paren, IH|by apply wf_op|by apply wf_paren, IH].
  - cbn [good_expr pexpr]. rewrite !andb_true_iff. intros [[[Hc Ha] Hi] Ho].
    repeat wf_step; try (by apply wf_group); [by apply wf_dotted|].
    apply wf_commas. clear Hc Hi Ho. induction args as [|e vs IHvs]; cbn [map forallb] in *; [constructor|].
    apply andb_true_iff in Ha as [He Hvs]. constructor; [by apply IH|by apply IHvs].
Qed.

Lemma wf_type t : good_type t = true -> wf (ptype t).
Proof.
  revert t. fix IH 1. intros [n ps]. cbn [good_type]. intros [Hn Hps]%andb_true_iff. rewrite ptype_eq.
  constructor; [by apply wf_word|]. assert (H : wf (commas (map pparam ps))).
  { apply wf_commas. clear Hn. induction ps as [|[v|[t|]] ps IHps]; cbn [map forallb good_param] in *;
      [constructor| | |done]; apply andb_true_iff in Hps as [Ht Hps]; (constructor; [|by apply IHps]).
    - apply wf_number.
    - by apply (IH t). }
  destruct ps; [constructor|]. cbn [ptype_args]. repeat wf_step. done.
Qed.

Lemma wf_decl d : good_decl d = true -> wf (pdecl d).
Proof.
  unfold good_decl, pdecl. rewrite !andb_true_iff. intros [[Ht Hn] Hi].
  repeat wf_step; [by apply wf_type|]. destruct (initVal d); repeat wf_step. by apply wf_pexpr.
Qed.

Lemma wf_block b : wf (concat (map pstmt_end b)) -> wf (pblock b).
Proof. intros H. unfold pblock. repeat wf_step. done. Qed.

Lemma wf_stmt s : good_stmt s = true -> wf (pstmt s).
Proof.
  revert s. fix IH 1. intros s Hg. assert (Hexpr : good_expr s = true -> wf (pstmt s)).
  { intros He. destruct (pstmt_expr s He) as [-> _]. by apply wf_paren, wf_pexpr. }
  assert (Hblock : forall b, forallb good_stmt b = true -> (forall s, s ∈ b -> good_stmt s = true -> wf (pstmt s)) ->
    wf (pblock b)).
  { intros b Hb Hs. apply wf_block. induction b as [|x b IHb]; [constructor|].
    cbn [forallb map concat] in *. apply andb_true_iff in Hb as [Hx Hb]. apply Forall_app. split.
    - unfold pstmt_end. apply Forall_app. split; [apply Hs; [set_solver|done]|].
      destruct (is_block x); repeat wf_step.
    - apply IHb; [done|]. intros. apply Hs; [set_solver|done]. }
  assert (Hlist : forall b : list ExprAST, (fix all (b : list ExprAST) : Prop :=
      match b with [] => True | s :: b' => (good_stmt s = true -> wf (pstmt s)) /\ all b' end) b ->
    forall s, s ∈ b -> good_stmt s = true -> wf (pstmt s)).
  { induction b as [|x b IHb]; intros Hall y Hin; [by apply elem_of_nil in Hin|]. destruct Hall as [Hx Hall].
    apply elem_of_cons in Hin as [->|Hin]; [done|by apply IHb]. }
  destruct s as [| | | | | |d| |loc x| | |loc c t el]; try (by apply Hexpr); clear Hexpr; cbn [good_stmt pstmt] in *.
  - by apply wf_decl.
  - destruct x as [[x|]|]; repeat wf_step. by apply wf_pexpr.
  - rewrite !andb_true_iff in Hg. destruct Hg as [[Hc Ht] Hel]. destruct t as [b|]; [|done].
    change (wf (pstmt (IfElseExprAST loc c (Some b) el))). rewrite pstmt_if. repeat wf_step.
    + by apply wf_pexpr.
    + apply Hblock; [done|]. apply Hlist. clear Ht. induction b as [|y b IHb]; [exact I|]. split; [apply IH|exact IHb].
    + destruct el as [b'|]; repeat wf_step. apply Hblock; [done|]. apply Hlist. clear Hel.
      induction b' as [|y b' IHb]; [exact I|]. split; [apply IH|exact IHb].
Qed.

Lemma wf_pblock b : forallb good_stmt b = true -> wf (pblock b).
Proof.
  intros H. apply wf_block. apply (wf_concat_map _ good_stmt); [|done]. intros s Hs. unfold pstmt_end.
  apply Forall_app. split; [by apply wf_stmt|]. destruct (is_block s); repeat wf_step.
Qed.

Lemma wf_handler s : good_handler s = true -> wf (phandler s).
Proof.
  unfold good_handler, phandler. destruct (split_colon s) as [h [a|]]; intros [Hh Ha]%andb_true_iff; repeat wf_step.
Qed.

Lemma wf_body b : good_body b = true -> wf (pbody b).
Proof.
  destruct b as [p b|ev loc n ds|loc n hs k|loc n d].
  - cbn [good_body pbody]. intros [Hp Hb]%andb_true_iff. apply Forall_app. split; [|by apply wf_pblock].
    rewrite pproto_eq. unfold good_proto in Hp. rewrite !andb_true_iff in Hp. destruct Hp as [[Hn Has] Ha].
    assert (Hargs : wf (commas (map parg (pr_args p)))).
    { apply (wf_commas_map _ good_arg); [|done]. intros d. unfold good_arg, parg. rewrite !andb_true_iff.
      intros [[Ht Hd] _]. repeat wf_step. by apply wf_type. }
    unfold getFunctionTypeName. destruct (pr_atom p), (pr_type p); repeat wf_step; done.
  - cbn [good_body pbody]. intros [Hn Hds]%andb_true_iff.
    constructor; [by destruct ev|]. repeat wf_step.
    apply (wf_concat_map _ good_decl); [|done]. intros d Hd. repeat wf_step. by apply wf_decl.
  - rewrite pscope_eq. cbn [good_body]. rewrite !andb_true_iff. intros [[Hn Hhs] Hk].
    assert (Hc : wf (commas (map phandler hs))) by (apply (wf_commas_map _ good_handler); [apply wf_handler|done]).
    assert (Hp : wf (phandlers hs)) by (destruct hs; [constructor|]; cbn [phandlers]; repeat wf_step; done).
    unfold pkey. destruct (bool_decide (k = "")); cbn [orb] in Hk; repeat wf_step; done.
  - cbn [good_body pbody]. intros [Hd _]%andb_true_iff. repeat wf_step. by apply wf_decl.
Qed.

Lemma wf_attr a : good_attr a = true -> wf (pattr a).
Proof.
  unfold good_attr, pattr. intros [Hk Hv]%andb_true_iff. destruct (snd a) as [s|b|l]; repeat wf_step.
  apply andb_true_iff in Hv as [_ Hv]. apply (wf_commas_map _ good_id); [|done]. intros x Hx. repeat wf_step.
Qed.

Lemma wf_attrs m : good_attrs m = true -> wf (pattrs m).
Proof.
  unfold good_attrs. intros [_ Hg]%andb_true_iff.
  assert (H : wf (commas (map pattr (map_to_list (delete "extern" m))))) by (apply (wf_commas_map _ good_attr); [apply wf_attr|done]).
  unfold pattrs. apply Forall_app. split; [destruct (bool_decide _); repeat wf_step|].
  destruct (map_to_list _); repeat wf_step. done.
Qed.

Lemma wf_module m : good_module m = true -> wf (pmodule m).
Proof.
  apply wf_concat_map. intros r. unfold good_record, precord. intros [Ha Hb]%andb_true_iff.
  apply Forall_app. split; [by apply wf_attrs|by apply wf_body].
Qed.

(** C4: The parser is a left inverse of the printer: for every module of
    well-formed records (functions with declarations, conditionals, returns and
    expressions of any nesting and precedence, structs, events, scopes, globals,
    attributes), lexing and parsing its text succeeds without a diagnostic and
    gives the module back, up to source locations. *)
Theorem parse_print m : good_module m = true ->
  exists m', parse (print_module m) = Ok (Some m', []) /\ map erase_record m' = map erase_record m.
Proof.
  intros Hg. pose proof (wf_module m Hg) as Hw. unfold print_module, parse.
  pose proof (plain_render (pmodule m) Hw) as Hp. destruct (sees_before _ Hp) as [t Hl].
  pose proof (length_text_tokens (render (pmodule m))) as Hlen. rewrite (text_tokens_render _ Hw) in *.
  set (text := render (pmodule m)) in *. set (fuel := (2 + String.length text)%nat).
  assert (H : gives (parseModule fuel) (some (Forall2 same_record m)) (t :: pmodule m) []).
  { intros log. unfold parseModule. rstep. rstep. cbn [tail].
    rstep. eapply gives_use; [apply (records_gives fuel m [] fuel Hg); lia|].
    intros r (m' & -> & Hm'). cbv beta iota. repeat rstep. split_ands; try done. by eexists. }
  specialize (H [] _ Hl). unfold fuel in H. destruct (parseModule _ _) as [[r [l errs]]|x]; [|done].
  destruct H as (ts' & _ & (m' & -> & Hm') & _ & ->). exists m'. split; [done|].
  clear -Hm'. induction Hm' as [|x y m m' Hxy _ IH]; [done|]. cbn [map]. by rewrite Hxy, IH.
Qed.

Definition example_module : ModuleAST :=
  let v := fun n => PathExpr (MkPath no_loc [MkVariable no_loc n]) in
  let int := MkVarType "int" [VarTemplateParam_Integer 32] in
  [MkRecord ∅ (StructAST true no_loc "packet" [MkVarDecl no_loc "len" int None]);
   MkRecord (<["core" := AttrList ["a"; "b"]]> {["extern" := AttrBool true]})
     (FunctionAST (MkPrototype no_loc "main" [MkVarDecl no_loc "p" (MkVarType "packet" []) None] (Some "rx") Function_Handler)
       [VarDeclExpr (MkVarDecl no_loc "x" int
          (Some (BinaryExprAST no_loc tok_star (BinaryExprAST no_loc tok_plus (v "a") (NumberExprAST no_loc 7)) (v "b"))));
        IfElseExprAST no_loc (BinaryExprAST no_loc tok_cmp_le (v "x") (NumberExprAST no_loc 3))
          (Some [ReturnExprAST no_loc (Some (Some (v "x")))]) (Some [ReturnExprAST no_loc None])]);
   MkRecord ∅ (ScopeAST no_loc "s" ["main:rx"; "g"] "flow")].

Example example_text : print_module example_module =
  "event packet { int < 32 > len ; } extern [ core = ( a , b ) ] handler main : rx ( packet p ) { int < 32 > x = ( a + 7 ) * b ; if ( x <= 3 ) { return x ; } else { return ; } } scope s < main : rx , g > [ flow ] ; ".
Proof. vm_compute. reflexivity. Qed.

Lemma parse_print_witness : good_module example_module = true /\
  exists m', parse (print_module example_module) = Ok (Some m', []) /\
    map erase_record m' = map erase_record example_module.
Proof. split; [vm_compute; reflexivity|]. apply (parse_print example_module). vm_compute. reflexivity. Defined.
End ModuleRoundTrip.
