(* ===== verification/ParserCases.v ===== *)
(** What the parser does with texts outside the syntax of AstPrint. *)
From Stdlib Require Import ZArith Lia List String.
From stdpp Require Import base list numbers option strings gmap.
From S2P Require Import Prelude Lexer Ast Parser ParserLogic AstPrint.
#[local] Open Scope Z_scope.

Module ParserCases.
Import Lexer Ast Parser ParserLogic AstPrint.

(** The trees without locations, and how many errors were printed. *)
Definition outcome (text : string) : result (option (list RecordAST) * nat) :=
  let? (m, errs) := parse text in Ok (map erase_record <$> m, length errs).
Definition bodies (text : string) : result (option (list RecordBody) * nat) :=
  let? (m, n) := outcome text in Ok (map r_body <$> m, n).

(** ** A rejected text is reported *)

(** [m] unprints nothing, and prints something when its value is in [P]. *)
Definition warns {A} (P : A -> Prop) (m : M A) : Prop :=
  forall s, match m s with
            | Ok (a, s') => (length (snd s) <= length (snd s'))%nat /\ (P a -> snd s' <> [])
            | Err _ => True
            end.
Definition silent {A} (_ : A) : Prop := False.
Definition null {A} (o : option A) : Prop := o = None.

Lemma warns_ret {A} (P : A -> Prop) a : ~ P a -> warns P (mret a).
Proof. intros H s. by split. Qed.

Lemma warns_bind {A B} (Q : A -> Prop) (P : B -> Prop) (m : M A) (f : A -> M B) :
  warns Q m -> (forall a, Q a \/ warns P (f a)) -> (forall a, warns silent (f a)) -> warns P (mbind' m f).
Proof.
  intros Hm Hf Hg s. unfold mbind'. specialize (Hm s). destruct (m s) as [[a s1]|]; cbn; [|done].
  destruct Hm as [Hm1 Hm2]. specialize (Hg a s1). destruct (Hf a) as [Ha|Hfa].
  - specialize (Hm2 Ha). destruct (f a s1) as [[b s2]|]; [|done]. destruct Hg as [Hg _]. split; [lia|].
    intros _. destruct (snd s1), (snd s2); done || (cbn in Hg; lia).
  - specialize (Hfa s1). destruct (f a s1) as [[b s2]|]; [|done]. destruct Hfa. split; [lia|done].
Qed.

Lemma warns_seq {A B} (P : B -> Prop) (m : M A) (f : A -> M B) :
  warns silent m -> (forall a, warns P (f a)) -> warns P (mbind' m f).
Proof.
  intros Hm Hf s. unfold mbind'. specialize (Hm s). destruct (m s) as [[a s1]|]; cbn; [|done].
  specialize (Hf a s1). destruct (f a s1) as [[b s2]|]; [|done]. destruct Hm, Hf. split; [lia|done].
Qed.

Lemma warns_error {A} (P : option A -> Prop) e c : warns P (parseError e c).
Proof. intros s. cbn. split; [lia|done]. Qed.

Lemma warns_loop {S R} (P : R -> Prop) (body : S -> M (S + R)) :
  (forall s, warns (fun x => match x with inl _ => False | inr r => P r end) (body s)) ->
  forall fuel s, warns P (loop fuel body s).
Proof.
  intros Hb fuel. induction fuel as [|fuel IH]; intros s st; [done|]. cbn [loop]. unfold mbind'.
  specialize (Hb s st). destruct (body s st) as [[[s'|r] s1]|]; cbn; [| |done].
  - specialize (IH s' s1). destruct (loop fuel body s' s1) as [[r s2]|]; [|done]. destruct Hb, IH. split; [lia|done].
  - done.
Qed.

Lemma warns_call {A} (m : M A) : (forall s, match m s with Ok (_, s') => snd s' = snd s | Err _ => True end) ->
  warns silent m.
Proof. intros Hm s. specialize (Hm s). destruct (m s) as [[a s']|]; [|done]. rewrite Hm. by split. Qed.

(** The calls on the lexer print nothing. *)
Lemma quiet_calls t : warns silent curToken /\ warns silent lastLoc /\ warns silent nextToken /\
  warns silent (eat t) /\ warns silent id.
Proof.
  split_ands; apply warns_call; intros [l log]; try done.
  - unfold nextToken. cbn. by destruct (getNextToken l) as [[]|].
  - unfold eat. cbn. by destruct (consume t l).
  - unfold id. cbn. by destruct (getId l).
Qed.

Lemma weaken {A} (P Q : A -> Prop) (m : M A) : (forall a, Q a -> P a) -> warns P m -> warns Q m.
Proof. intros H Hm s. specialize (Hm s). destruct (m s) as [[a s']|]; [|done]. destruct Hm. split; auto. Qed.

Ltac wgo := repeat first
  [ progress cbv beta
  | lazymatch goal with
    | |- warns _ (mret _) => apply warns_ret; first [exact (fun H => H)|by intros [=]|destruct (_ =? _); first [exact (fun H => H)|by intros [=]]|idtac]
    | |- warns _ (parseError _ _) => apply warns_error
    | |- warns _ (if ?b then _ else _) => destruct b
    | |- warns _ (match ?x with Some _ => _ | None => _ end) => destruct x
    | |- warns _ (mbind' (parseError _ _) _) => apply (warns_bind (fun _ => True)); [apply warns_error|by left|intros ?]
    | |- warns _ (mbind' curToken _) => apply warns_seq; [apply (quiet_calls 0)|intros ?]
    | |- warns _ (mbind' lastLoc _) => apply warns_seq; [apply (quiet_calls 0)|intros ?]
    | |- warns _ (mbind' nextToken _) => apply warns_seq; [apply (quiet_calls 0)|intros ?]
    | |- warns _ (mbind' id _) => apply warns_seq; [apply (quiet_calls 0)|intros ?]
    | |- warns _ (mbind' (eat _) _) => apply warns_seq; [apply quiet_calls|intros ?]
    end ].

Lemma key_warns : warns null scope_partition_key.
Proof. unfold scope_partition_key. wgo. Qed.

Lemma handlers_warns fuel : warns null (scope_handlers fuel).
Proof.
  unfold scope_handlers. wgo.
  apply (warns_bind null); [|intros [x|]; [right; wgo|by left]|intros [x|]; wgo].
  apply warns_loop. intros hs. wgo.
  apply (warns_bind null); [wgo| |]; (intros [x|]; [|try by left]); try right; wgo.
Qed.

Lemma scope_warns fuel : warns null (parseScope fuel).
Proof.
  unfold parseScope. wgo. apply (warns_bind null); [apply handlers_warns| |]; (intros [x|]; [|try by left]); try right; wgo;
    (apply (warns_bind null); [apply key_warns| |]; (intros [y|]; [|try by left]); try right; wgo).
Qed.

(** The final value is in [P] only with something printed. *)
Definition tells {A} (P : A -> Prop) (m : M A) : Prop :=
  forall s, match m s with Ok (a, s') => P a -> snd s' <> [] | Err _ => True end.

Lemma tells_seq {A B} (P : B -> Prop) (m : M A) (f : A -> M B) :
  (forall a, tells P (f a)) -> tells P (mbind' m f).
Proof. intros Hf s. unfold mbind'. destruct (m s) as [[a s1]|]; [|done]. apply Hf. Qed.

Lemma tells_map {A B} (Q : A -> Prop) (P : B -> Prop) (m : M A) (f : A -> B) :
  tells Q m -> (forall a, P (f a) -> Q a) -> tells P (let! a := m in mret (f a)).
Proof. intros Hm Hf s. unfold mbind'. specialize (Hm s). destruct (m s) as [[a s1]|]; [|done]. cbn. auto. Qed.

Lemma tells_warns {A} (P : A -> Prop) (m : M A) : warns P m -> tells P m.
Proof. intros Hm s. specialize (Hm s). destruct (m s) as [[a s1]|]; [|done]. by destruct Hm. Qed.

Lemma tells_ret {A} (P : A -> Prop) a : ~ P a -> tells P (mret a).
Proof. intros H s Ha. by destruct H. Qed.

Lemma tells_loop {S R} (P : R -> Prop) (body : S -> M (S + R)) :
  (forall s, tells (fun x => match x with inl _ => False | inr r => P r end) (body s)) ->
  forall fuel s, tells P (loop fuel body s).
Proof.
  intros Hb fuel. induction fuel as [|fuel IH]; intros s st; [done|]. cbn [loop]. unfold mbind'.
  specialize (Hb s st). destruct (body s st) as [[[s'|r] s1]|]; cbn; [apply IH|done|done].
Qed.

Lemma tells_bind {A B} (Q : A -> Prop) (P : B -> Prop) (m : M A) (f : A -> M B) :
  tells Q m -> (forall a, (Q a /\ exists b, f a = mret b) \/ tells P (f a)) -> tells P (mbind' m f).
Proof.
  intros Hm Hf s. unfold mbind'. specialize (Hm s). destruct (m s) as [[a s1]|]; [|done]. cbn.
  destruct (Hf a) as [(Ha & b & ->)|H]; [cbn; auto|apply H].
Qed.

Lemma tells_error {A} (P : option A -> Prop) e c : tells P (parseError e c).
Proof. by apply tells_warns, warns_error. Qed.

Definition stops {T S} (r : option T * S) : Prop := fst r <> None.

Lemma separateBy_tells {T S} fuel opening closing sep (f : S -> Z -> M (option T * S)) s :
  (forall s t, tells stops (f s t)) -> tells stops (separateBy fuel opening closing sep f s).
Proof.
  intros Hf. unfold separateBy. apply tells_seq. intros t. destruct (negb _).
  { apply (tells_map (fun _ => True)); [apply tells_error|done]. }
  apply (tells_bind stops).
  - apply tells_loop. intros s1. apply tells_seq. intros t1. apply (tells_bind stops); [apply Hf|].
    intros [[r|] s2]; [left; split; [done|by eexists]|right].
    apply tells_seq. intros t2. apply tells_ret. destruct (_ =? _); [exact (fun H => H)|by intros []].
  - intros [[r|] s2]; [left; split; [done|by eexists]|right].
    apply tells_seq. intros t2. destruct (negb _).
    { apply (tells_map (fun _ => True)); [apply tells_error|done]. }
    apply tells_seq. intros _. apply tells_ret. by intros [].
Qed.

Lemma item_tells l t : tells stops (attribute_item l t).
Proof.
  unfold attribute_item. destruct (negb _); [apply (tells_map (fun _ => True)); [apply tells_error|done]|].
  do 2 (apply tells_seq; intros ?). apply tells_ret. by intros [].
Qed.

Lemma attribute_tells fuel attrs t : tells stops (attribute fuel attrs t).
Proof.
  unfold attribute. apply tells_seq. intros t1. destruct (negb _).
  { apply (tells_map (fun _ => True)); [apply tells_error|done]. }
  do 3 (apply tells_seq; intros ?). apply (tells_bind stops).
  - repeat match goal with
    | |- tells _ (if ?b then _ else _) => destruct b
    | |- tells _ (mret _) => apply tells_ret; by intros []
    | |- tells _ (mbind' (separateBy _ _ _ _ _ _) _) => fail 1
    | |- tells _ (mbind' _ _) => apply tells_seq; intros ?
    end.
    apply (tells_bind stops); [apply separateBy_tells; intros; apply item_tells|].
    intros [[r|] l]; [left; split; [done|by eexists]|right]. apply tells_ret. by intros [].
  - intros [[r|] v]; [left; split; [done|by eexists]|right]. apply tells_ret. by intros [].
Qed.

Lemma round_tells fuel attrs : tells (fun r => r = ReturnNull) (module_round fuel attrs).
Proof.
  unfold module_round. apply tells_seq. intros t.
  repeat lazymatch goal with |- tells _ (if ?b then _ else _) => destruct b end.
  - by apply tells_ret.
  - apply tells_seq. intros r. apply tells_ret. by destruct r.
  - apply tells_seq. intros r. apply tells_ret. by destruct r.
  - apply tells_seq. intros _. by apply tells_ret.
  - apply (tells_bind stops); [apply separateBy_tells; intros; apply attribute_tells|].
    intros [[r|] a]; [left; split; [done|by eexists]|right]. by apply tells_ret.
  - apply (tells_map null); [apply tells_warns, scope_warns|]. by intros [].
  - apply tells_seq. intros r. by apply tells_ret.
  - apply (tells_map (fun _ => True)); [apply tells_error|done].
Qed.

(** C7: A text is never rejected in silence: whenever parseModule gives null, at
    least one diagnostic has been printed. *)
Theorem parse_null_reported text errs : parse text = Ok (None, errs) -> errs <> [].
Proof.
  intros E. enough (H : tells null (parseModule (2 + String.length text))).
  { specialize (H (LexerBuffer text, [])). unfold parse in E.
    destruct (parseModule _ _) as [[m [l e]]|]; [|done]. cbn in E. injection E as -> ->. by apply H. }
  unfold parseModule. apply tells_seq. intros t. apply (tells_bind null).
  - apply tells_loop. intros [attrs rs].
    apply (tells_map (fun r => r = ReturnNull)); [apply round_tells|]. by intros [].
  - intros [rs|]; [right|left; split; [done|by eexists]].
    apply tells_seq. intros t1. destruct (negb _); [apply tells_error|by apply tells_ret].
Qed.

Lemma parse_null_reported_witness : exists errs,
  parse "handler f() { ( ; ) }" = Ok (None, errs) /\ errs <> [].
Proof. eexists. split; [vm_compute; reflexivity|]. eapply (parse_null_reported "handler f() { ( ; ) }"). vm_compute. reflexivity. Defined.

(** A record cut off at the end of the file is left out of a module that is given. *)
Lemma cut_off : bodies "handler f() { } handler g() { " =
  Ok (Some [FunctionAST (MkPrototype no_loc "f" [] None Function_Handler) []], 1%nat).
Proof. vm_compute. reflexivity. Qed.

(** A malformed attribute list is reported and the module given. *)
Lemma bad_attribute : bodies "[,] handler f() { }" =
  Ok (Some [FunctionAST (MkPrototype no_loc "f" [] None Function_Handler) []], 2%nat).
Proof. vm_compute. reflexivity. Qed.

Definition f_of (b : ExprASTList) : RecordBody := FunctionAST (MkPrototype no_loc "f" [] None Function_Handler) b.
Definition var_x : ExprAST := PathExpr (MkPath no_loc [MkVariable no_loc "x"]).

(** [return] of an expression that does not parse is a return of a null expression. *)
Lemma return_null : bodies "handler f() { return 1 + ; }" =
  Ok (Some [f_of [ReturnExprAST no_loc (Some None)]], 1%nat).
Proof. vm_compute. reflexivity. Qed.

(** An initializer that is missing is taken for none, in silence. *)
Lemma empty_initializer : bodies "handler f() { int x = ; }" =
  Ok (Some [f_of [VarDeclExpr (MkVarDecl no_loc "x" (MkVarType "int" []) None)]], 0%nat).
Proof. vm_compute. reflexivity. Qed.

(** A conditional without a block has a null one. *)
Lemma null_block : bodies "handler f() { if (x) 5; }" =
  Ok (Some [f_of [IfElseExprAST no_loc var_x None None; NumberExprAST no_loc 5]], 1%nat).
Proof. vm_compute. reflexivity. Qed.

(** The atom after a path is dropped. *)
Lemma atom_dropped : bodies "handler f() { x:b; }" = Ok (Some [f_of [var_x]], 0%nat).
Proof. vm_compute. reflexivity. Qed.

(** Declarations with [var] are never read: the keyword is still the current token. *)
Lemma var_rejected : bodies "handler f() { var int x = 3; }" = Ok (None, 3%nat).
Proof. vm_compute. reflexivity. Qed.

(** Null pointers are dereferenced. *)
Lemma global_null : bodies "global 5;" = Err Undefined.
Proof. vm_compute. reflexivity. Qed.
Lemma atom_null : bodies "handler f:(" = Err Undefined.
Proof. vm_compute. reflexivity. Qed.
End ParserCases.
