(* ===== verification/Flow.v ===== *)
(** Networks, cuts and maximum flows: the interface of the flow solver that
    src/lib/ep2/PipelineHandlerPass.cpp calls (boost's push-relabel), and the
    theory of minimum cuts that its postcondition gives. *)
From Stdlib Require Import ZArith Lia List.
From stdpp Require Import base list numbers option gmap sets.
From S2P Require Import Prelude.
#[local] Open Scope Z_scope.

Module Flow.

Lemma length_filter_le {A} (P Q : A -> Prop) `{!forall x, Decision (P x), !forall x, Decision (Q x)} l :
  (forall y, P y -> Q y) -> (length (filter P l) <= length (filter Q l))%nat.
Proof.
  intros HPQ. induction l as [|y l IH]; [done|]. rewrite !filter_cons.
  destruct (decide (P y)), (decide (Q y)); cbn; [lia|exfalso; auto|lia|lia].
Qed.

Lemma length_filter_lt {A} (P Q : A -> Prop) `{!forall x, Decision (P x), !forall x, Decision (Q x)} l x :
  (forall y, P y -> Q y) -> x ∈ l -> Q x -> ~ P x -> (length (filter P l) < length (filter Q l))%nat.
Proof.
  intros HPQ Hx HQ HP.
  pose proof (length_filter_le P Q) as Hle.
  induction l as [|y l IH]; [by apply elem_of_nil in Hx|]. rewrite !filter_cons.
  apply elem_of_cons in Hx as [<-|Hx].
  - rewrite (decide_False (P := P x)), (decide_True (P := Q x)) by done. cbn. specialize (Hle l HPQ). lia.
  - specialize (IH Hx). destruct (decide (P y)), (decide (Q y)); cbn; [lia|exfalso; auto|lia|lia].
Qed.

(** ** Sums *)

Definition zsum {A} (f : A -> Z) (l : list A) : Z := foldr (fun a acc => f a + acc) 0 l.

Lemma zsum_cons {A} (f : A -> Z) a l : zsum f (a :: l) = f a + zsum f l.
Proof. done. Qed.

Lemma zsum_app {A} (f : A -> Z) l l' : zsum f (l ++ l') = zsum f l + zsum f l'.
Proof. induction l as [|a l IH]; cbn; [done|]. unfold zsum in *. lia. Qed.

Lemma zsum_ext {A} (f g : A -> Z) l : (forall a, a ∈ l -> f a = g a) -> zsum f l = zsum g l.
Proof.
  induction l as [|a l IH]; intros H; cbn; [done|]. rewrite H by set_solver. f_equal.
  apply IH. set_solver.
Qed.

Lemma zsum_le {A} (f g : A -> Z) l : (forall a, a ∈ l -> f a <= g a) -> zsum f l <= zsum g l.
Proof.
  induction l as [|a l IH]; intros H; cbn; [done|].
  specialize (IH ltac:(set_solver)). specialize (H a ltac:(set_solver)). unfold zsum in *. lia.
Qed.

Lemma zsum_add {A} (f g : A -> Z) l : zsum (fun a => f a + g a) l = zsum f l + zsum g l.
Proof. induction l as [|a l IH]; cbn; [done|]. unfold zsum in *. lia. Qed.

Lemma zsum_sub {A} (f g : A -> Z) l : zsum (fun a => f a - g a) l = zsum f l - zsum g l.
Proof. induction l as [|a l IH]; cbn; [done|]. unfold zsum in *. lia. Qed.

Lemma zsum_mul {A} (c : Z) (f : A -> Z) l : zsum (fun a => c * f a) l = c * zsum f l.
Proof. induction l as [|a l IH]; cbn; [lia|]. unfold zsum in *. lia. Qed.

Lemma zsum_0 {A} (l : list A) : zsum (fun _ => 0) l = 0.
Proof. induction l as [|a l IH]; cbn; [done|]. unfold zsum in *. lia. Qed.

Lemma zsum_swap {A B} (f : A -> B -> Z) l l' :
  zsum (fun a => zsum (f a) l') l = zsum (fun b => zsum (fun a => f a b) l) l'.
Proof.
  induction l as [|a l IH]; [symmetry; apply (zsum_0 l')|].
  rewrite zsum_cons, IH, <- zsum_add. by apply zsum_ext.
Qed.

(** One summand, when the others vanish. *)
Lemma zsum_one {A} (f : A -> Z) l a : NoDup l -> a ∈ l -> (forall b, b ∈ l -> b <> a -> f b = 0) ->
  zsum f l = f a.
Proof.
  intros Hnd Ha Hz. induction Hnd as [|b l Hb Hnd IH]; [set_solver|]. rewrite zsum_cons.
  apply elem_of_cons in Ha as [->|Ha].
  - rewrite (zsum_ext f (fun _ => 0)); [rewrite zsum_0; lia|].
    intros c Hc. apply Hz; [set_solver|]. intros ->. done.
  - assert (Hba : b <> a) by (intros ->; done).
    rewrite (Hz b) by (set_solver || done). rewrite <- IH; [done|done|].
    intros c Hc Hne. apply Hz; [set_solver|done].
Qed.

Definition ind (P : Prop) `{!Decision P} : Z := if decide P then 1 else 0.

(** ** Networks *)

Section Network.
Context {V : Type} `{!EqDecision V} `{!Countable V}.

(** An edge with its capacity. *)
Record edge := Edge { e_src : V; e_dst : V; e_cap : Z }.

(** A flow gives each edge, by its position, a number of units. *)

Section Flows.
Context (net : list edge) (s t : V).

Definition ids : list nat := seq 0 (length net).
Definition cap (i : nat) : Z := from_option e_cap 0 (net !! i).
Definition src_is (v : V) (i : nat) : Z := from_option (fun e => ind (e_src e = v)) 0 (net !! i).
Definition dst_is (v : V) (i : nat) : Z := from_option (fun e => ind (e_dst e = v)) 0 (net !! i).

(** What leaves a vertex less what enters it. *)
Definition net_out (f : nat -> Z) (v : V) : Z := zsum (fun i => f i * (src_is v i - dst_is v i)) ids.

Record feasible (f : nat -> Z) : Prop := Feasible {
  fe_cap : forall i, i ∈ ids -> 0 <= f i <= cap i;
  fe_conserve : forall v, v <> s -> v <> t -> net_out f v = 0 }.

Definition value (f : nat -> Z) : Z := net_out f s.

Record max_flow_of (f : nat -> Z) : Prop := MaxFlowOf {
  mf_feasible : feasible f;
  mf_max : forall g, feasible g -> value g <= value f }.

(** The capacity of the edges that leave a set of vertices. *)
Definition crosses (S : gset V) (e : edge) : bool := bool_decide (e_src e ∈ S /\ e_dst e ∉ S).
Definition cut_capacity (S : gset V) : Z :=
  zsum (fun i => from_option (fun e => if crosses S e then e_cap e else 0) 0 (net !! i)) ids.

(** ** A flow across a cut *)

Lemma lookup_ids i : i ∈ ids -> is_Some (net !! i).
Proof. unfold ids. rewrite elem_of_seq. intros [_ H]. apply lookup_lt_is_Some. lia. Qed.

Lemma ids_lookup i e : net !! i = Some e -> i ∈ ids.
Proof. intros H%lookup_lt_Some. unfold ids. rewrite elem_of_seq. lia. Qed.

Lemma zsum_ind (L : list V) u : NoDup L -> zsum (fun v => ind (u = v)) L = ind (u ∈ L).
Proof.
  intros Hnd. unfold ind at 2. destruct (decide (u ∈ L)) as [Hu|Hu].
  - rewrite (zsum_one _ L u Hnd Hu); [unfold ind; by rewrite decide_True|].
    intros v _ Hv. unfold ind. by rewrite decide_False.
  - rewrite (zsum_ext _ (fun _ => 0)); [apply zsum_0|].
    intros v Hv. unfold ind. rewrite decide_False; [done|]. by intros ->.
Qed.

(** What leaves a set is what its members send out. *)
Lemma net_out_set f (S : gset V) :
  zsum (net_out f) (elements S) =
  zsum (fun i => f i * from_option (fun e => ind (e_src e ∈ S) - ind (e_dst e ∈ S)) 0 (net !! i)) ids.
Proof.
  unfold net_out. rewrite (zsum_swap (fun v i => f i * (src_is v i - dst_is v i))).
  apply zsum_ext. intros i Hi. rewrite zsum_mul. f_equal.
  unfold src_is, dst_is. destruct (lookup_ids i Hi) as [e ->]. cbn.
  rewrite zsum_sub, !zsum_ind by apply NoDup_elements.
  f_equal; unfold ind; repeat case_decide; set_solver.
Qed.

Lemma net_out_cut f (S : gset V) : feasible f -> s ∈ S -> t ∉ S ->
  value f = zsum (fun i => f i * from_option (fun e => ind (e_src e ∈ S) - ind (e_dst e ∈ S)) 0 (net !! i)) ids.
Proof.
  intros Hf Hs Ht. unfold value. rewrite <- net_out_set. symmetry. apply (zsum_one (net_out f)).
  - apply NoDup_elements.
  - by apply elem_of_elements.
  - intros v Hv Hne. apply elem_of_elements in Hv. apply (fe_conserve f Hf); [done|]. by intros ->.
Qed.

(** No flow exceeds a cut. *)
Lemma weak_duality f S : feasible f -> s ∈ S -> t ∉ S -> value f <= cut_capacity S.
Proof.
  intros Hf Hs Ht. rewrite (net_out_cut f S Hf Hs Ht). apply zsum_le. intros i Hi.
  destruct (lookup_ids i Hi) as [e He]. pose proof (fe_cap f Hf i Hi) as Hc.
  unfold cap in Hc. rewrite He in *. cbn in *. unfold ind, crosses.
  destruct (decide (e_src e ∈ S)), (decide (e_dst e ∈ S));
    first [rewrite bool_decide_true by done | rewrite bool_decide_false by tauto]; lia.
Qed.

(** A saturated cut carries the whole flow. *)
Lemma saturated_cut f S : feasible f -> s ∈ S -> t ∉ S ->
  (forall i e, net !! i = Some e -> e_src e ∈ S -> e_dst e ∉ S -> f i = e_cap e) ->
  (forall i e, net !! i = Some e -> e_src e ∉ S -> e_dst e ∈ S -> f i = 0) ->
  value f = cut_capacity S.
Proof.
  intros Hf Hs Ht Hout Hin. rewrite (net_out_cut f S Hf Hs Ht). apply zsum_ext. intros i Hi.
  destruct (lookup_ids i Hi) as [e He]. rewrite He. cbn. unfold ind, crosses.
  destruct (decide (e_src e ∈ S)) as [Hsrc|Hsrc], (decide (e_dst e ∈ S)) as [Hdst|Hdst];
    first [rewrite bool_decide_true by done | rewrite bool_decide_false by tauto]; try lia.
  - rewrite (Hout i e) by done. lia.
  - rewrite (Hin i e) by done. lia.
Qed.

(** ** Augmenting *)

(** A residual arc: an edge forwards or backwards. *)
Definition tail (a : nat * bool) : option V :=
  e ← net !! a.1; Some (if a.2 then e_src e else e_dst e).
Definition head (a : nat * bool) : option V :=
  e ← net !! a.1; Some (if a.2 then e_dst e else e_src e).
Definition residual (f : nat -> Z) (a : nat * bool) : Z :=
  from_option (fun e => if a.2 then e_cap e - f a.1 else f a.1) 0 (net !! a.1).

Fixpoint walk (u : V) (w : list (nat * bool)) (v : V) : Prop :=
  match w with
  | [] => u = v
  | a :: w' => tail a = Some u /\ exists x, head a = Some x /\ walk x w' v
  end.

Lemma walk_app u w w' v : walk u (w ++ w') v <-> exists x, walk u w x /\ walk x w' v.
Proof.
  revert u. induction w as [|a w IH]; intros u; cbn.
  - split; [eauto|]. by intros (x & -> & ?).
  - split.
    + intros (Ht & x & Hh & (y & ? & ?)%IH). exists y. eauto.
    + intros (y & (Ht & x & Hh & Hw) & Hy). split; [done|]. exists x. split; [done|]. apply IH. eauto.
Qed.

(** A walk without repeated vertices, using no other arcs. *)
Lemma walk_simple u w v : walk u w v ->
  exists w', walk u w' v /\ NoDup (map tail w') /\ (forall a, a ∈ w' -> a ∈ w).
Proof.
  revert u. induction w as [|a w IH]; intros u; cbn.
  - intros ->. exists []. split_and!; [done|by apply NoDup_nil|done].
  - intros (Ht & x & Hh & Hw). destruct (IH x Hw) as (w' & Hw' & Hnd & Hsub).
    destruct (decide (Some u ∈ map tail w')) as [Hin|Hin].
    + apply list_elem_of_fmap in Hin as (b & Hb & Hbw). apply list_elem_of_split in Hbw as (w1 & w2 & ->).
      exists (b :: w2). apply walk_app in Hw' as (y & _ & Hy). cbn in Hy. destruct Hy as (Hb' & Hy).
      split_and!.
      * cbn. split; [done|]. done.
      * rewrite map_app in Hnd. by apply NoDup_app in Hnd as (_ & _ & ?).
      * intros c Hc. right. apply Hsub. set_solver.
    + exists (a :: w'). split_and!.
      * cbn. eauto.
      * cbn. apply NoDup_cons_2; [by rewrite Ht|done].
      * intros c [->|Hc]%elem_of_cons; [by left|right; auto].
Qed.

(** One more unit along the arcs of a walk. *)
Definition delta (w : list (nat * bool)) (i : nat) : Z :=
  zsum (fun a : nat * bool => if decide (a.1 = i) then (if a.2 then 1 else -1) else 0) w.
Definition augment (f : nat -> Z) (w : list (nat * bool)) (i : nat) : Z := f i + delta w i.

Lemma delta_nodup (w : list (nat * bool)) (i : nat) : NoDup w -> delta w i = ind ((i, true) ∈ w) - ind ((i, false) ∈ w).
Proof.
  unfold delta, ind. induction 1 as [|[j b] w Ha _ IH]; [done|]. rewrite zsum_cons, IH. cbn [fst snd].
  destruct (decide (j = i)) as [->|Hji].
  - destruct b; repeat case_decide; (lia || set_solver).
  - repeat case_decide; (lia || set_solver).
Qed.

Lemma net_out_delta w v : Forall (fun a : nat * bool => a.1 ∈ ids) w ->
  net_out (delta w) v =
  zsum (fun a : nat * bool => (if a.2 then 1 else -1) * (src_is v a.1 - dst_is v a.1)) w.
Proof.
  intros Hw. unfold net_out, delta. induction Hw as [|a w Ha _ IH].
  - cbn. rewrite (zsum_ext _ (fun _ => 0)); [apply zsum_0|]. intros i _. lia.
  - rewrite zsum_cons, <- IH.
    assert (Hone : zsum (fun i => (if decide (a.1 = i) then (if a.2 then 1 else -1) else 0)
        * (src_is v i - dst_is v i)) ids = (if a.2 then 1 else -1) * (src_is v a.1 - dst_is v a.1)).
    { rewrite (zsum_one _ ids a.1); [by rewrite decide_True|apply NoDup_seq|done|].
      intros i _ Hi. rewrite decide_False by done. lia. }
    rewrite <- Hone, <- zsum_add. apply zsum_ext. intros i _. rewrite zsum_cons. lia.
Qed.

(** Along a walk the inner vertices cancel. *)
Lemma walk_delta u w v x : walk u w v ->
  Forall (fun a => a.1 ∈ ids) w /\ net_out (delta w) x = ind (u = x) - ind (v = x).
Proof.
  revert u. induction w as [|a w IH]; intros u; cbn [walk].
  - intros ->. split; [constructor|]. rewrite net_out_delta by constructor. cbn. lia.
  - intros (Ht & y & Hh & Hw). destruct (IH y Hw) as [Hids Hd].
    unfold tail, head in *. destruct (net !! a.1) as [e|] eqn:He; [|done].
    assert (Ha : a.1 ∈ ids) by by eapply ids_lookup.
    split; [by constructor|]. rewrite net_out_delta by by constructor.
    rewrite zsum_cons, <- net_out_delta by done. rewrite Hd. unfold src_is, dst_is. rewrite He. cbn in *.
    injection Ht as <-. injection Hh as <-. destruct a.2; lia.
Qed.

Lemma net_out_augment f w v : net_out (augment f w) v = net_out f v + net_out (delta w) v.
Proof. unfold net_out, augment. rewrite <- zsum_add. apply zsum_ext. intros i _. lia. Qed.

Lemma augment_feasible f w : feasible f -> walk s w t -> NoDup w ->
  Forall (fun a => 0 < residual f a) w -> feasible (augment f w).
Proof.
  intros Hf Hw Hnd Hr. split.
  - intros i Hi. pose proof (fe_cap f Hf i Hi) as Hc. unfold augment.
    rewrite delta_nodup by done. unfold ind, cap in *.
    destruct (lookup_ids i Hi) as [e He]. rewrite He in *. cbn in *.
    assert (Hp : forall b : bool, (i, b) ∈ w -> 0 < if b then e_cap e - f i else f i).
    { intros b Hb. rewrite Forall_forall in Hr. apply Hr in Hb. unfold residual in Hb. cbn in Hb.
      by rewrite He in Hb. }
    pose proof (Hp true). pose proof (Hp false).
    destruct (decide ((i, true) ∈ w)), (decide ((i, false) ∈ w)); naive_solver lia.
  - intros v Hs Ht. rewrite net_out_augment, (fe_conserve f Hf v Hs Ht).
    destruct (walk_delta s w t v Hw) as [_ ->]. unfold ind. by rewrite !decide_False.
Qed.

(** A maximum flow leaves no residual walk from the source to the sink. *)
Lemma max_flow_no_walk f w : s <> t -> max_flow_of f -> walk s w t ->
  ~ Forall (fun a => 0 < residual f a) w.
Proof.
  intros Hst [Hf Hmax] Hw Hr. destruct (walk_simple s w t Hw) as (w' & Hw' & Hnd & Hsub).
  assert (Hle : value (augment f w') <= value f).
  - apply Hmax, augment_feasible; [done|done|by eapply NoDup_fmap_1|].
    rewrite Forall_forall in *. auto.
  - unfold value in Hle. rewrite net_out_augment in Hle.
    destruct (walk_delta s w' t s Hw') as [_ Hd]. rewrite Hd in Hle. unfold ind in Hle.
    rewrite decide_True, decide_False in Hle by done. lia.
Qed.
End Flows.

(** ** Reachability *)

Definition reach_step (E : list (V * V)) (S : gset V) : gset V :=
  S ∪ list_to_set (omap (fun e => if decide (e.1 ∈ S) then Some e.2 else None) E).

Fixpoint closure (n : nat) (E : list (V * V)) (S : gset V) : gset V :=
  match n with
  | O => S
  | Datatypes.S n' =>
      let S' := reach_step E S in
      if decide (S' ⊆ S) then S else closure n' E S'
  end.

(** The vertices a depth-first visit discovers. *)
Definition reach (E : list (V * V)) (u : V) : gset V := closure (length E) E {[u]}.

Definition step (E : list (V * V)) (u v : V) : Prop := (u, v) ∈ E.
Definition closed (E : list (V * V)) (S : gset V) : Prop := forall u v, (u, v) ∈ E -> u ∈ S -> v ∈ S.

Lemma elem_of_reach_step E S v : v ∈ reach_step E S <-> v ∈ S \/ exists u, u ∈ S /\ (u, v) ∈ E.
Proof.
  unfold reach_step. rewrite elem_of_union, elem_of_list_to_set, list_elem_of_omap. split.
  - intros [?|([a b] & Hin & Hd)]; [by left|]. cbn in Hd. case_decide; [|done]. injection Hd as ->. eauto.
  - intros [?|(u & Hu & Hin)]; [by left|]. right. exists (u, v). cbn. by rewrite decide_True.
Qed.

Lemma closed_iff E S : closed E S <-> reach_step E S ⊆ S.
Proof.
  split.
  - intros Hc v [?|(u & ? & ?)]%elem_of_reach_step; [done|]. by eapply Hc.
  - intros Hs u v Hin Hu. apply Hs, elem_of_reach_step. eauto.
Qed.

(** The edges that lead out of a set. *)
Definition fresh (E : list (V * V)) (S : gset V) : nat := length (filter (fun e => e.2 ∉ S) E).

Lemma fresh_step E S : ~ reach_step E S ⊆ S -> (fresh E (reach_step E S) < fresh E S)%nat.
Proof.
  intros Hns. assert (exists u v, (u, v) ∈ E /\ u ∈ S /\ v ∉ S) as (u & v & Hin & Hu & Hv).
  { destruct (decide (Exists (fun e => e.1 ∈ S /\ e.2 ∉ S) E)) as [Hex|Hno].
    - apply Exists_exists in Hex as ([u v] & ? & ? & ?). eauto.
    - exfalso. apply Hns, closed_iff. intros u v Hin Hu. destruct (decide (v ∈ S)); [done|].
      exfalso. apply Hno, Exists_exists. exists (u, v). done. }
  assert (Hsub : S ⊆ reach_step E S) by (intros x Hx; apply elem_of_reach_step; by left).
  assert (Hv' : v ∈ reach_step E S) by (apply elem_of_reach_step; eauto).
  apply (length_filter_lt _ _ _ (u, v)); [set_solver|done|done|]. intros Hn. by apply Hn.
Qed.

Lemma closure_closed n E S : (fresh E S <= n)%nat -> closed E (closure n E S).
Proof.
  revert S. induction n as [|n IH]; intros S Hn; cbn [closure].
  - apply closed_iff. destruct (decide (reach_step E S ⊆ S)); [done|].
    exfalso. pose proof (fresh_step E S ltac:(done)). lia.
  - case_decide as Hs; [by apply closed_iff|]. apply IH. pose proof (fresh_step E S Hs). lia.
Qed.

Lemma closure_reached n E S u v : (forall x, x ∈ S -> rtc (step E) u x) -> v ∈ closure n E S ->
  rtc (step E) u v.
Proof.
  revert S. induction n as [|n IH]; intros S HS; cbn [closure]; [by auto|].
  case_decide; [by auto|]. apply IH. intros x [?|(y & Hy & Hin)]%elem_of_reach_step; [by auto|].
  eapply rtc_r; [by apply HS|done].
Qed.

Lemma closure_incl n E S : S ⊆ closure n E S.
Proof.
  revert S. induction n as [|n IH]; intros S; cbn [closure]; [done|]. case_decide; [done|].
  etrans; [|apply IH]. intros x Hx. apply elem_of_reach_step. by left.
Qed.

Theorem reach_spec E u v : v ∈ reach E u <-> rtc (step E) u v.
Proof.
  unfold reach. split.
  - apply closure_reached. intros x ->%elem_of_singleton. done.
  - intros Hr. assert (Hc : closed E (closure (length E) E {[u]})).
    { apply closure_closed. unfold fresh. apply length_filter. }
    assert (Hu : u ∈ closure (length E) E {[u]}) by (apply closure_incl; set_solver).
    revert Hc Hu. generalize (closure (length E) E {[u]}) as S. intros S Hc Hu.
    induction Hr as [|x y z Hxy _ IH]; [done|]. apply IH. by eapply Hc.
Qed.

Lemma reach_closed E u : closed E (reach E u).
Proof. intros x y Hin Hx. rewrite reach_spec in *. by eapply rtc_r. Qed.

Lemma reach_within E u (D : gset V) : u ∈ D -> (forall x y, (x, y) ∈ E -> y ∈ D) -> reach E u ⊆ D.
Proof.
  intros Hu HE v Hv. apply reach_spec, rtc_inv_r in Hv as [->|(x & _ & Hx)]; [done|]. by eapply HE.
Qed.

Lemma reach_refl E u : u ∈ reach E u.
Proof. by apply reach_spec. Qed.

(** ** What a solver leaves behind *)

(** An arc of the graph handed to the solver: every edge comes with a reverse edge
    of capacity zero. *)
Record arc := Arc { a_src : V; a_dst : V; a_cap : Z; a_res : Z }.

Definition arcs (net : list edge) (res : list (Z * Z)) : list arc :=
  concat (zip_with (fun e r => [Arc (e_src e) (e_dst e) (e_cap e) r.1; Arc (e_dst e) (e_src e) 0 r.2]) net res).

Definition arc_ends (a : arc) : V * V := (a_src a, a_dst a).

(** The flow value, and the residual capacities of each edge and of its reverse; the
    number stands for whatever the order of the vertices and edges depends on. *)
Definition solver : Type := nat -> list edge -> V -> V -> Z * list (Z * Z).

Definition flow_of (net : list edge) (res : list (Z * Z)) (i : nat) : Z :=
  cap net i - from_option fst 0 (res !! i).

(** The postcondition of a maximum-flow solver. *)
Record solved (net : list edge) (s t : V) (F : Z) (res : list (Z * Z)) : Prop := Solved {
  sv_length : length res = length net;
  sv_max : max_flow_of net s t (flow_of net res);
  sv_reverse : forall i r, res !! i = Some r -> r.2 = flow_of net res i;
  sv_value : F = value net s (flow_of net res) }.

Class FlowSolver (mf : solver) : Prop := {
  solver_solves : forall seed net s t, s <> t -> Forall (fun e => 0 <= e_cap e) net ->
    solved net s t (fst (mf seed net s t)) (snd (mf seed net s t)) }.

Lemma elem_of_arcs net res a : a ∈ arcs net res <->
  exists i e r, net !! i = Some e /\ res !! i = Some r /\
    (a = Arc (e_src e) (e_dst e) (e_cap e) r.1 \/ a = Arc (e_dst e) (e_src e) 0 r.2).
Proof.
  unfold arcs. rewrite list_elem_of_In, in_concat. setoid_rewrite <- list_elem_of_In. split.
  - intros (l & Hl & Ha). apply list_elem_of_lookup in Hl as [i Hi].
    apply lookup_zip_with_Some in Hi as (e & r & -> & He & Hr). exists i, e, r. set_solver.
  - intros (i & e & r & He & Hr & Ha). eexists. split; [|].
    + apply (list_elem_of_lookup_2 _ i). apply lookup_zip_with_Some. eauto.
    + set_solver.
Qed.

Section Solved.
Context (net : list edge) (s t : V) (F : Z) (res : list (Z * Z)).
Context (Hst : s <> t) (Hsv : solved net s t F res).

(** The side of the source in the residual graph. *)
Definition source_side : gset V :=
  reach (map arc_ends (filter (fun a => a_res a <> 0) (arcs net res))) s.

Lemma res_lookup i e : net !! i = Some e -> exists r, res !! i = Some r.
Proof.
  intros He%lookup_lt_Some. apply lookup_lt_is_Some. by rewrite (sv_length _ _ _ _ _ Hsv).
Qed.

(** The residual of an edge and of its reverse. *)
Lemma residual_forward i e r : net !! i = Some e -> res !! i = Some r ->
  r.1 = e_cap e - flow_of net res i /\ r.2 = flow_of net res i /\ 0 <= flow_of net res i <= e_cap e.
Proof.
  intros He Hr. pose proof (fe_cap _ _ _ _ (mf_feasible _ _ _ _ (sv_max _ _ _ _ _ Hsv)) i
    (ids_lookup net i e He)) as Hc.
  rewrite (sv_reverse _ _ _ _ _ Hsv i r Hr). unfold cap in Hc. rewrite He in Hc. cbn in Hc.
  split; [|done]. unfold flow_of, cap. rewrite He, Hr. cbn. lia.
Qed.

Lemma residual_walk u v :
  rtc (step (map arc_ends (filter (fun a => a_res a <> 0) (arcs net res)))) u v ->
  exists w, walk net u w v /\ Forall (fun a => 0 < residual net (flow_of net res) a) w.
Proof.
  induction 1 as [x|x y z Hxy _ (w & Hw & Hpos)]; [by exists []|].
  unfold step in Hxy. apply list_elem_of_fmap in Hxy as (a & Ha & Hin).
  apply list_elem_of_filter in Hin as [Hres Hin].
  apply elem_of_arcs in Hin as (i & e & r & He & Hr & Hcase).
  destruct (residual_forward i e r He Hr) as (H1 & H2 & H3).
  destruct Hcase as [-> | ->]; injection Ha as -> ->; cbn [a_res] in Hres.
  - exists ((i, true) :: w). cbn. unfold tail, head. cbn. rewrite He. cbn. split; [eauto|].
    constructor; [|done]. unfold residual. cbn. rewrite He. cbn. lia.
  - exists ((i, false) :: w). cbn. unfold tail, head. cbn. rewrite He. cbn. split; [eauto|].
    constructor; [|done]. unfold residual. cbn. rewrite He. cbn. lia.
Qed.

Lemma source_in : s ∈ source_side.
Proof. apply reach_refl. Qed.

Lemma sink_out : t ∉ source_side.
Proof.
  intros Ht. apply reach_spec in Ht. destruct (residual_walk s t Ht) as (w & Hw & Hpos).
  by apply (max_flow_no_walk net s t _ w Hst (sv_max _ _ _ _ _ Hsv) Hw).
Qed.

Lemma side_arc a : a ∈ arcs net res -> a_src a ∈ source_side -> a_dst a ∉ source_side -> a_res a = 0.
Proof.
  intros Ha Hs Hd. destruct (decide (a_res a = 0)) as [|Hne]; [done|]. exfalso. apply Hd.
  apply (reach_closed _ s (a_src a)); [|done]. apply list_elem_of_fmap. exists a.
  split; [done|]. by apply list_elem_of_filter.
Qed.

(** The flow fills the cut. *)
Theorem source_side_cut : F = cut_capacity net source_side.
Proof.
  rewrite (sv_value _ _ _ _ _ Hsv).
  apply (saturated_cut net s t); [apply mf_feasible, (sv_max _ _ _ _ _ Hsv)|apply source_in|apply sink_out| |];
    intros i e He Hs Hd; destruct (res_lookup i e He) as [r Hr];
    destruct (residual_forward i e r He Hr) as (H1 & H2 & H3).
  - assert (Hz : r.1 = 0); [|lia].
    apply (side_arc (Arc (e_src e) (e_dst e) (e_cap e) r.1)); [|exact Hs|exact Hd].
    apply elem_of_arcs. exists i, e, r. auto.
  - assert (Hz : r.2 = 0); [|lia].
    apply (side_arc (Arc (e_dst e) (e_src e) 0 r.2)); [|exact Hd|exact Hs].
    apply elem_of_arcs. exists i, e, r. auto.
Qed.

Theorem source_side_min S : s ∈ S -> t ∉ S -> cut_capacity net source_side <= cut_capacity net S.
Proof.
  intros Hs Ht. rewrite <- source_side_cut, (sv_value _ _ _ _ _ Hsv).
  apply (weak_duality net s t); [apply mf_feasible, (sv_max _ _ _ _ _ Hsv)|done..].
Qed.

Context (Hcap : Forall (fun e => 0 <= e_cap e) net).

(** No crossing edge is larger than the flow. *)
Lemma crossing_le e : e ∈ net -> e_src e ∈ source_side -> e_dst e ∉ source_side -> e_cap e <= F.
Proof.
  intros He Hs Hd. rewrite source_side_cut. apply list_elem_of_lookup in He as [i Hi].
  unfold cut_capacity. pose proof (ids_lookup net i e Hi) as Hin.
  apply list_elem_of_split in Hin as (l1 & l2 & Hl). rewrite Hl, zsum_app, zsum_cons, Hi. cbn.
  unfold crosses at 2. rewrite bool_decide_true by done.
  assert (Hpos : forall l, 0 <= zsum (fun j => from_option (fun e => if crosses source_side e then e_cap e else 0) 0 (net !! j)) l).
  { intros l. etrans; [|apply (zsum_le (fun _ => 0))]; [by rewrite zsum_0|].
    intros j _. destruct (net !! j) as [e'|] eqn:Ej; cbn; [|lia].
    rewrite Forall_lookup in Hcap. pose proof (Hcap j e' Ej). destruct (crosses _ e'); lia. }
  pose proof (Hpos l1). pose proof (Hpos l2). lia.
Qed.
End Solved.
End Network.
End Flow.
