(* ===== verification/FlowSolver.v ===== *)
(** A maximum-flow solver, to run the flow-based passes on concrete graphs: it
    augments along shortest residual paths, checks the cut it found, and falls back
    on an exhaustive search, so that it meets the postcondition on every network. *)
From Stdlib Require Import ZArith Lia List.
From stdpp Require Import base list numbers option gmap sets.
From S2P Require Import Prelude Flow.
Import Flow.
#[local] Open Scope Z_scope.

Module FlowSolver.
Section Solver.
Context {V : Type} `{!EqDecision V} `{!Countable V}.
Implicit Types (net : list (@edge V)) (s t : V).

Definition at_ (l : list Z) (i : nat) : Z := nth i l 0.
Definition endpoints net : list V := map e_src net ++ map e_dst net.

Definition feasible_b net s t (l : list Z) : bool :=
  forallb (fun i => (0 <=? at_ l i) && (at_ l i <=? cap net i)) (ids net) &&
  forallb (fun v => bool_decide (v = s) || bool_decide (v = t) || (net_out net (at_ l) v =? 0)) (endpoints net).

Lemma net_out_nowhere net f v : v ∉ endpoints net -> net_out net f v = 0.
Proof.
  intros Hv. unfold net_out. rewrite (zsum_ext _ (fun _ => 0)); [apply zsum_0|]. intros i Hi.
  destruct (lookup_ids net i Hi) as [e He]. unfold src_is, dst_is, ind. rewrite He. cbn.
  apply list_elem_of_lookup_2 in He. unfold endpoints in Hv.
  rewrite !decide_False; [lia|intros ?; apply Hv; set_solver..].
Qed.

Lemma feasible_b_spec net s t l : feasible_b net s t l = true <-> feasible net s t (at_ l).
Proof.
  unfold feasible_b. rewrite andb_true_iff, !forallb_forall. setoid_rewrite <- list_elem_of_In. split.
  - intros [Hc Hv]. split.
    + intros i Hi. specialize (Hc i Hi). apply andb_true_iff in Hc as [?%Z.leb_le ?%Z.leb_le]. lia.
    + intros v Hs Ht. destruct (decide (v ∈ endpoints net)) as [Hin|]; [|by apply net_out_nowhere].
      specialize (Hv v Hin). rewrite !bool_decide_false in Hv by done. by apply Z.eqb_eq.
  - intros [Hc Hv]. split.
    + intros i Hi. specialize (Hc i Hi). apply andb_true_iff. split; apply Z.leb_le; lia.
    + intros v _. destruct (decide (v = s)); [by rewrite bool_decide_true|].
      destruct (decide (v = t)); [by rewrite (bool_decide_true (v = t)), orb_true_r|].
      rewrite Hv by done. by rewrite orb_true_r.
Qed.

(** ** Exhaustive search *)

Fixpoint all_flows net : list (list Z) :=
  match net with
  | [] => [[]]
  | e :: net => c ← seqZ 0 (e_cap e + 1); l ← all_flows net; [c :: l]
  end.

Lemma elem_of_all_flows net l : l ∈ all_flows net <-> Forall2 (fun c e => 0 <= c <= e_cap e) l net.
Proof.
  revert l. induction net as [|e net IH]; intros l; cbn [all_flows].
  - rewrite list_elem_of_singleton. split; [by intros ->|]. intros H. by inversion H.
  - rewrite list_elem_of_bind. setoid_rewrite list_elem_of_bind. split.
    + intros (c & (l' & Hl & Hl') & Hc). apply list_elem_of_singleton in Hl as ->.
      apply elem_of_seqZ in Hc. constructor; [lia|by apply IH].
    + intros H. inversion H as [|c e' l' net' Hc Hl]; subst. exists c. split.
      * exists l'. split; [by left|by apply IH].
      * apply elem_of_seqZ. lia.
Qed.

Definition better net s (l l' : list Z) : list Z :=
  if value net s (at_ l) <? value net s (at_ l') then l' else l.
Definition brute net s t : list Z :=
  foldr (better net s) (map (fun _ => 0) net) (filter (fun l => feasible_b net s t l = true) (all_flows net)).

Lemma brute_max net s t l : l ∈ filter (fun l => feasible_b net s t l = true) (all_flows net) ->
  value net s (at_ l) <= value net s (at_ (brute net s t)).
Proof.
  unfold brute. induction (filter _ _) as [|a ls IH]; [by intros ?%elem_of_nil|].
  cbn [foldr]. unfold better at 1. intros [->|Hl]%elem_of_cons;
    destruct (Z.ltb_spec (value net s (at_ a)) (value net s (at_ (foldr (better net s) (map (fun _ => 0) net) ls))));
    try lia; specialize (IH Hl); lia.
Qed.

Lemma at_zeros {A} (l : list A) i : at_ (map (fun _ => 0) l) i = 0.
Proof. unfold at_. revert i. induction l as [|a l IH]; intros [|i]; cbn; auto. Qed.

Lemma brute_in net s t : Forall (fun e => 0 <= e_cap e) net ->
  feasible net s t (at_ (brute net s t)) /\ length (brute net s t) = length net.
Proof.
  intros Hcap. unfold brute.
  assert (Hz : feasible net s t (at_ (map (fun _ => 0) net))).
  { split.
    - intros i Hi. rewrite at_zeros. destruct (lookup_ids net i Hi) as [e He]. unfold cap. rewrite He. cbn.
      rewrite Forall_lookup in Hcap. pose proof (Hcap i e He). lia.
    - intros v _ _. unfold net_out. rewrite (zsum_ext _ (fun _ => 0)); [apply zsum_0|].
      intros i _. rewrite at_zeros. lia. }
  assert (Hall : Forall (fun l => feasible net s t (at_ l) /\ length l = length net)
            (filter (fun l => feasible_b net s t l = true) (all_flows net))).
  { apply Forall_forall. intros l [Hf Hl]%list_elem_of_filter. split; [by apply feasible_b_spec|].
    apply elem_of_all_flows in Hl. by eapply Forall2_length. }
  induction Hall as [|l ls [Hf Hl] _ IH]; cbn [foldr].
  - split; [done|]. by rewrite length_map.
  - unfold better at 1 3. destruct (_ <? _); [exact IH|done].
Qed.

Lemma feasible_ext net s t f g : (forall i, i ∈ ids net -> f i = g i) ->
  feasible net s t f -> feasible net s t g /\ value net s g = value net s f.
Proof.
  intros Hfg Hf. assert (Hn : forall v, net_out net g v = net_out net f v).
  { intros v. apply zsum_ext. intros i Hi. by rewrite Hfg. }
  split; [|apply Hn]. split.
  - intros i Hi. rewrite <- Hfg by done. by apply (fe_cap _ _ _ _ Hf).
  - intros v Hs Ht. rewrite Hn. by apply (fe_conserve _ _ _ _ Hf).
Qed.

(** A flow as the list of its values. *)
Lemma at_map f net i : i ∈ ids net -> at_ (map f (ids net)) i = f i.
Proof.
  unfold at_, ids. rewrite elem_of_seq. intros Hi.
  rewrite (nth_indep _ 0 (f 0%nat)) by (rewrite length_map, length_seq; lia).
  rewrite map_nth, seq_nth by lia. f_equal.
Qed.

Lemma map_in_all net s t f : feasible net s t f -> map f (ids net) ∈ all_flows net.
Proof.
  intros Hf. apply elem_of_all_flows, Forall2_same_length_lookup. split.
  - rewrite length_map. apply length_seq.
  - intros i c e Hc He. pose proof (ids_lookup net i e He) as Hi.
    pose proof (fe_cap _ _ _ _ Hf i Hi) as Hcap. unfold cap in Hcap. rewrite He in Hcap.
    rewrite list_lookup_fmap in Hc. unfold ids in *. rewrite elem_of_seq in Hi.
    rewrite lookup_seq_lt in Hc by lia. injection Hc as <-. done.
Qed.

Lemma brute_is_max net s t : Forall (fun e => 0 <= e_cap e) net -> max_flow_of net s t (at_ (brute net s t)).
Proof.
  intros Hcap. split; [by apply brute_in|]. intros g Hg.
  destruct (feasible_ext net s t g (at_ (map g (ids net)))) as [Hf Hv]; [by intros; rewrite at_map|done|].
  rewrite <- Hv. apply brute_max, list_elem_of_filter. split; [by apply feasible_b_spec|].
  by apply (map_in_all net s t).
Qed.

(** ** Augmenting paths *)

Definition out_arcs net (l : list Z) (u : V) : list ((nat * bool) * V) :=
  omap (fun a => if bool_decide (tail net a = Some u) && (0 <? residual net (at_ l) a)
                 then v ← head net a; Some (a, v) else None)
    (flat_map (fun i => [(i, true); (i, false)]) (ids net)).

(** Breadth first; [front] holds vertices and the arcs that lead to them, reversed. *)
Fixpoint find_path (fuel : nat) net (l : list Z) (t : V) (seen : gset V)
    (front : list (V * list (nat * bool))) : option (list (nat * bool)) :=
  match fuel, front with
  | S fuel, (u, path) :: front =>
      if decide (u = t) then Some path
      else let new := filter (fun av => av.2 ∉ seen) (out_arcs net l u) in
           find_path fuel net l t (list_to_set (map snd new) ∪ seen)
             (front ++ map (fun av => (av.2, av.1 :: path)) new)
  | _, _ => None
  end.

Definition push net (l : list Z) (path : list (nat * bool)) : list Z :=
  let b := foldr (fun a m => Z.min (residual net (at_ l) a) m) (10 ^ 30) path in
  imap (fun i x => x + b * delta path i) l.

Fixpoint augment_all (fuel : nat) net (s t : V) (l : list Z) : list Z :=
  match fuel with
  | O => l
  | S fuel => match find_path (2 * length net + 2) net l t {[s]} [(s, [])] with
              | Some path => augment_all fuel net s t (push net l path)
              | None => l
              end
  end.

(** ** The checked solver *)

Definition results net (l : list Z) : list (Z * Z) := imap (fun i e => (e_cap e - at_ l i, at_ l i)) net.

(** A flow that fills the cut around its source side. *)
Definition fills net s t (l : list Z) : bool :=
  let S := source_side net s (results net l) in
  bool_decide (s ∈ S) && bool_decide (t ∉ S) &&
  forallb (fun i => match net !! i with
                    | Some e => if bool_decide (e_src e ∈ S)
                                then bool_decide (e_dst e ∈ S) || (at_ l i =? e_cap e)
                                else bool_decide (e_dst e ∉ S) || (at_ l i =? 0)
                    | None => true
                    end) (ids net).

Definition best_flow net s t : list Z :=
  let l := augment_all 100 net s t (map (fun _ => 0) net) in
  if feasible_b net s t l && fills net s t l then l else brute net s t.

Definition max_flow : @solver V := fun _ net s t =>
  let l := best_flow net s t in (value net s (at_ l), results net l).

Lemma fills_max net s t l : feasible net s t (at_ l) -> fills net s t l = true ->
  max_flow_of net s t (at_ l).
Proof.
  intros Hf. unfold fills. generalize (source_side net s (results net l)) as S. intros S.
  rewrite !andb_true_iff, !bool_decide_eq_true, forallb_forall. intros [[Hs Ht] Hall].
  assert (Hcut : value net s (at_ l) = cut_capacity net S).
  { apply (saturated_cut net s t); [done..| |]; intros i e He Hsrc Hdst;
      pose proof (ids_lookup net i e He) as Hi; apply list_elem_of_In in Hi; specialize (Hall i Hi);
      rewrite He in Hall.
    - rewrite bool_decide_true, bool_decide_false in Hall by done. by apply Z.eqb_eq.
    - rewrite bool_decide_false, bool_decide_false in Hall by (done || tauto). by apply Z.eqb_eq. }
  split; [done|]. intros g Hg. rewrite Hcut. by apply (weak_duality net s t).
Qed.

Lemma best_flow_max net s t : Forall (fun e => 0 <= e_cap e) net ->
  max_flow_of net s t (at_ (best_flow net s t)).
Proof.
  intros Hcap. unfold best_flow. destruct (_ && _) eqn:E; [|by apply brute_is_max].
  apply andb_true_iff in E as [Hf Hs]. apply fills_max; [|done]. by apply feasible_b_spec.
Qed.

#[export] Instance max_flow_solver : FlowSolver max_flow.
Proof.
  split. intros seed net s t Hst Hcap. unfold max_flow. cbn [fst snd].
  pose proof (best_flow_max net s t Hcap) as Hm.
  set (l := best_flow net s t) in *. clearbody l.
  assert (Hfl : forall i, i ∈ ids net -> flow_of net (results net l) i = at_ l i).
  { intros i Hi. destruct (lookup_ids net i Hi) as [e He]. unfold flow_of, results, cap.
    rewrite list_lookup_imap, He. cbn. lia. }
  assert (Hfl' : forall i, i ∈ ids net -> at_ l i = flow_of net (results net l) i)
    by (intros; by rewrite Hfl).
  destruct (feasible_ext net s t _ _ Hfl' (mf_feasible _ _ _ _ Hm)) as [Hf Hv].
  split.
  - apply length_imap.
  - split; [done|]. intros g Hg. rewrite Hv. by apply (mf_max _ _ _ _ Hm).
  - intros i r Hr. unfold results in Hr. rewrite list_lookup_imap in Hr.
    destruct (net !! i) as [e|] eqn:He; [|done]. injection Hr as <-. cbn.
    rewrite Hfl; [done|]. by eapply ids_lookup.
  - by rewrite Hv.
Qed.
End Solver.
End FlowSolver.
