(* ===== verification/MinCut.v ===== *)
(** The balanced minimum cut of src/lib/ep2/PipelineHandlerPass.cpp
    (runBalancedMinCut): the loop that cuts a handler's graph in two, collapsing
    vertices into the source or the sink until the source side has the weight asked
    for.

    The flow solver and the topological sort are boost's: parameters, the first with
    the postcondition of [FlowSolver].  The random shuffles only reach the result
    through them, so a round number stands for the random state.  A depth-first visit
    is the set of vertices it discovers. *)
From Stdlib Require Import ZArith Lia List SpecFloat.
From stdpp Require Import base list numbers option gmap sets.
From S2P Require Import Prelude Flow.
Import Flow.
#[local] Open Scope Z_scope.

Module MinCut.

Definition INF_WT : Z := 10 ^ 18.
Definition INF_MIN : Z := 10 ^ 17.
Definition MIN_CUT_SUCCESS : Z := 0.
Definition MIN_CUT_FAILURE_INF_FLOW : Z := 1.
Definition MIN_CUT_FAILURE_SRC_INF_CAP_PATH : Z := 2.
Definition MIN_CUT_FAILURE_SINK_INF_CAP_PATH : Z := 3.
Definition MIN_CUT_FAILURE_NOT_PIPELINE : Z := 4.

(** ** Single and double precision *)

Definition f32_of_Z (x : Z) : spec_float := binary_normalize 24 128 x 0 false.
Definition f32_div : spec_float -> spec_float -> spec_float := SFdiv 24 128.
Definition f32_sub : spec_float -> spec_float -> spec_float := SFsub 24 128.
Definition f32_add : spec_float -> spec_float -> spec_float := SFadd 24 128.
Definition f64_mul : spec_float -> spec_float -> spec_float := SFmul 53 1024.
(** The conversion to double is exact. *)
Definition f64_of_f32 (x : spec_float) : spec_float :=
  match x with
  | S754_finite sg m e => binary_normalize 53 1024 (cond_Zopp sg (Zpos m)) e sg
  | _ => x
  end.

(** [frac_src_cut < sourceWeight * (1-tol)] and [frac_src_cut > sourceWeight * (1+tol)],
    for a float tolerance and a double weight. *)
Definition too_small (frac tol sourceWeight : spec_float) : bool :=
  SFltb (f64_of_f32 frac) (f64_mul sourceWeight (f64_of_f32 (f32_sub (f32_of_Z 1) tol))).
Definition too_large (frac tol sourceWeight : spec_float) : bool :=
  SFltb (f64_mul sourceWeight (f64_of_f32 (f32_add (f32_of_Z 1) tol))) (f64_of_f32 frac).

Section MinCut.
Context {V : Type} `{!EqDecision V} `{!Countable V}.

(** [std::unordered_map<vertex_t, std::unordered_map<vertex_t, long long>>] *)
#[local] Abbreviation adj_list := (gmap V (gmap V Z)).

Definition base_edges (g : adj_list) : list edge :=
  concat (map (fun row => map (fun e => Edge row.1 e.1 e.2) (map_to_list row.2)) (map_to_list g)).

Inductive cut_result :=
  | CutDone (sourceSet : gset V)
  | CutFail (rc : Z)
  | CutAbort    (* an assertion fails, or the graph has a cycle *)
  | CutFuel.

Context (push_relabel_max_flow : @solver V) (topological_sort : adj_list -> option (list V)).
Context (source sink : V) (tol sourceWeight : spec_float).
Context (falseEdges : list (@edge V)) (v_weights : gmap V Z) (pipelineConstraints : list (V * V)).

Definition vertex_weight (v : V) : Z := default 0 (v_weights !! v).

(** [wmap]: the visit of the residual graph leaves the weight of what it reaches. *)
Definition wmap (side : gset V) (v : V) : Z := if decide (v ∈ side) then vertex_weight v else 0.

Definition inf_arcs (net : list edge) (res : list (Z * Z)) : list (@arc V) :=
  filter (fun a => a_res a <> 0 /\ a_cap a = INF_WT) (arcs net res).
Definition inf_path_to_source (net : list edge) (res : list (Z * Z)) : gset V :=
  reach (map arc_ends (inf_arcs net res)) source.
Definition inf_path_to_sink (net : list edge) (res : list (Z * Z)) : gset V :=
  reach (map (fun a => (a_dst a, a_src a)) (inf_arcs net res)) sink.

Definition out_degree (g : adj_list) (v : V) : Z :=
  from_option (fun m => Z.of_nat (size m)) 0 (g !! v).

(** [topo_sort_pos] *)
Definition topo_sort_pos (order : list V) (v : V) : Z :=
  from_option (fun p => Z.of_nat (fst p)) 0 (list_find (fun u => u = v) order).

Section Choose.
Context (g : adj_list) (order : list V) (side inf_source inf_sink : gset V).

Definition cut_edge (e : edge) : bool := negb (wmap side (e_src e) =? 0) && (wmap side (e_dst e) =? 0).

Definition choose_source : Z * option V :=
  fold_left (fun best e =>
    let tgt := e_dst e in
    if cut_edge e && negb (bool_decide (tgt = sink)) && (out_degree g tgt =? 1)
       && negb (bool_decide (tgt ∈ inf_sink)) && (topo_sort_pos order tgt <? fst best)
    then (topo_sort_pos order tgt, Some tgt) else best)
    (base_edges g) (Z.of_nat (length order), None).

Definition choose_sink : Z * option V :=
  fold_left (fun best e =>
    let src := e_src e in
    if cut_edge e && negb (bool_decide (src = source)) && (out_degree g src =? 1)
       && negb (bool_decide (src ∈ inf_source)) && (fst best <? topo_sort_pos order src)
    then (topo_sort_pos order src, Some src) else best)
    (base_edges g) (-1, None).

(** Every edge with both ends on one side becomes infinite. *)
Definition raise_edges (same : Z -> bool) : adj_list :=
  map_imap (fun u m => Some (map_imap (fun v wt =>
    Some (if same (wmap side u) && same (wmap side v) && (wt <? INF_WT) then INF_WT else wt)) m)) g.

Definition set_edge (h : adj_list) (u v : V) : adj_list :=
  <[u := <[v := INF_WT]> (default ∅ (h !! u))]> h.
Definition collapse_source (chosen : V) : adj_list :=
  set_edge (raise_edges (fun w => negb (w =? 0))) source chosen.
Definition collapse_sink (chosen : V) : adj_list :=
  set_edge (raise_edges (fun w => w =? 0)) chosen sink.
End Choose.

Definition vertices (g : adj_list) : list V := elements (dom g).
Definition weights_positive (g : adj_list) : bool := forallb (fun e => 0 <? e_cap e) (base_edges g).
Definition sum_weights (f : V -> Z) (g : adj_list) : Z := fold_left (fun acc v => u64 (acc + f v)) (vertices g) 0.
Definition frac_src_cut (g : adj_list) (side : gset V) : spec_float :=
  f32_div (f32_of_Z (sum_weights (wmap side) g)) (f32_of_Z (sum_weights vertex_weight g)).

Fixpoint runBalancedMinCut (fuel : nat) (round : nat) (g : adj_list)
    (resultSourceWeight : option spec_float) : cut_result * option spec_float :=
  match fuel with
  | O => (CutFuel, resultSourceWeight)
  | S fuel' =>
    if negb (weights_positive g) then (CutAbort, resultSourceWeight)
    else match topological_sort g with
    | None => (CutAbort, resultSourceWeight)
    | Some order =>
      let net := base_edges g ++ falseEdges in
      let (flow, res) := push_relabel_max_flow round net source sink in
      if flow <? 0 then (CutAbort, resultSourceWeight)
      else
      let side := source_side net source res in
      if INF_MIN <=? flow then (CutFail MIN_CUT_FAILURE_INF_FLOW, resultSourceWeight)
      else if existsb (fun e => (wmap side e.1 =? 0) && (0 <? wmap side e.2)) pipelineConstraints
      then (CutFail MIN_CUT_FAILURE_NOT_PIPELINE, resultSourceWeight)
      else
      let frac := frac_src_cut g side in
      if too_small frac tol sourceWeight then
        match choose_source g order side (inf_path_to_sink net res) with
        | (_, None) => (CutFail MIN_CUT_FAILURE_SRC_INF_CAP_PATH, Some frac)
        | (_, Some chosen) => runBalancedMinCut fuel' (S round) (collapse_source g side chosen) (Some frac)
        end
      else if too_large frac tol sourceWeight then
        match choose_sink g order side (inf_path_to_source net res) with
        | (_, None) => (CutFail MIN_CUT_FAILURE_SINK_INF_CAP_PATH, Some frac)
        | (_, Some chosen) => runBalancedMinCut fuel' (S round) (collapse_sink g side chosen) (Some frac)
        end
      else (CutDone (filter (fun v => 0 < wmap side v) (dom g)), Some frac)
    end
  end.

(** ** The graph and its collapses *)

Definition get (g : adj_list) (u v : V) : option Z := m ← g !! u; m !! v.

Lemma elem_of_base_edges g e : e ∈ base_edges g <-> get g (e_src e) (e_dst e) = Some (e_cap e).
Proof.
  unfold base_edges, get. rewrite list_elem_of_In, in_concat. setoid_rewrite <- list_elem_of_In. split.
  - intros (l & Hl & He). apply list_elem_of_fmap in Hl as ([u m] & -> & Hm).
    apply list_elem_of_fmap in He as ([v c] & -> & Hc). cbn in *.
    apply elem_of_map_to_list in Hm. apply elem_of_map_to_list in Hc. by rewrite Hm.
  - intros H. destruct (g !! e_src e) as [m|] eqn:Em; [|done]. cbn in H.
    exists (map (fun d => Edge (e_src e) d.1 d.2) (map_to_list m)). split.
    + apply list_elem_of_fmap. exists (e_src e, m). split; [done|]. by apply elem_of_map_to_list.
    + apply list_elem_of_fmap. exists (e_dst e, e_cap e). split; [by destruct e|]. by apply elem_of_map_to_list.
Qed.

Lemma get_set_edge h u v a b :
  get (set_edge h u v) a b = if decide (a = u /\ b = v) then Some INF_WT else get h a b.
Proof.
  unfold get, set_edge. destruct (decide (a = u)) as [->|Hau].
  - rewrite lookup_insert_eq. cbn. destruct (decide (b = v)) as [->|Hbv].
    + rewrite lookup_insert_eq. by rewrite decide_True.
    + rewrite lookup_insert_ne by done. rewrite decide_False by tauto. by destruct (h !! u).
  - rewrite lookup_insert_ne by done. by rewrite decide_False by tauto.
Qed.

Lemma dom_set_edge h u v : u ∈ dom h -> dom (set_edge h u v) = dom h.
Proof. intros Hu. unfold set_edge. rewrite dom_insert_L. set_solver. Qed.

Lemma get_raise g side same u v : get (raise_edges g side same) u v =
  (fun wt => if same (wmap side u) && same (wmap side v) && (wt <? INF_WT) then INF_WT else wt) <$> get g u v.
Proof.
  unfold get, raise_edges. rewrite map_lookup_imap. destruct (g !! u) as [m|]; [|done]. cbn.
  rewrite map_lookup_imap. by destruct (m !! v).
Qed.

Lemma dom_raise g side same : dom (raise_edges g side same) = dom g.
Proof.
  apply set_eq. intros u. rewrite !elem_of_dom. unfold raise_edges. rewrite map_lookup_imap.
  destruct (g !! u); cbn; [|done]. split; eauto.
Qed.

(** [g'] has the edges of [g], some of them made infinite, and infinite edges more. *)
Record raised (g g' : adj_list) : Prop := Raised {
  ra_dom : dom g' = dom g;
  ra_keep : forall u v c, get g u v = Some c -> get g' u v = Some c \/ get g' u v = Some INF_WT;
  ra_new : forall u v c, get g' u v = Some c -> get g u v = Some c \/ c = INF_WT }.

Lemma raised_refl g : raised g g.
Proof. split; auto. Qed.

Lemma raised_trans g1 g2 g3 : raised g1 g2 -> raised g2 g3 -> raised g1 g3.
Proof.
  intros [D1 K1 N1] [D2 K2 N2]. split; [by rewrite D2| |].
  - intros u v c H. destruct (K1 u v c H) as [H'|H']; apply K2 in H'; tauto.
  - intros u v c H. destruct (N2 u v c H) as [H'|]; [by apply N1|by right].
Qed.

Lemma raised_collapse g side same u v : u ∈ dom g -> raised g (set_edge (raise_edges g side same) u v).
Proof.
  intros Hu. split.
  - by rewrite dom_set_edge, dom_raise by by rewrite dom_raise.
  - intros a b c H. rewrite get_set_edge, get_raise, H. case_decide; [by right|]. cbn.
    destruct (_ && _); auto.
  - intros a b c. rewrite get_set_edge, get_raise. case_decide; [intros [= <-]; by right|].
    destruct (get g a b) as [c'|]; [|done]. cbn. destruct (_ && _); intros [= <-]; auto.
Qed.

(** The graphs the caller builds. *)
Record graph_ok (g : adj_list) : Prop := GraphOk {
  go_closed : forall u v c, get g u v = Some c -> u ∈ dom g /\ v ∈ dom g;
  go_source : source ∈ dom g;
  go_sink : sink ∈ dom g;
  go_weights : forall v, v ∈ dom g -> 0 < vertex_weight v;
  go_false : Forall (fun e => 0 <= e_cap e /\ e_src e ∈ dom g /\ e_dst e ∈ dom g) falseEdges }.

Lemma graph_ok_collapse g side same u v : graph_ok g -> u ∈ dom g -> v ∈ dom g ->
  graph_ok (set_edge (raise_edges g side same) u v).
Proof.
  intros [Hc Hs Ht Hw Hf] Hu Hv. pose proof (ra_dom _ _ (raised_collapse g side same u v Hu)) as Hd.
  split; rewrite ?Hd; try done.
  intros a b c. rewrite get_set_edge, get_raise. case_decide as Hab; [by destruct Hab as [-> ->]|].
  destruct (get g a b) as [c'|] eqn:E; [|done]. intros _. by eapply Hc.
Qed.

(** ** One round *)

Section Round.
Context (g : adj_list) (Hok : graph_ok g) (Hpos : weights_positive g = true) (Hst : source <> sink).
Context (flow : Z) (res : list (Z * Z)).
Context (Hsv : solved (base_edges g ++ falseEdges) source sink flow res) (Hfin : flow < INF_MIN).

Definition side : gset V := source_side (base_edges g ++ falseEdges) source res.

Lemma net_caps : Forall (fun e => 0 <= e_cap e) (base_edges g ++ falseEdges).
Proof.
  apply Forall_app. split.
  - apply Forall_forall. intros e He. unfold weights_positive in Hpos. rewrite forallb_forall in Hpos.
    apply list_elem_of_In in He. specialize (Hpos e He). apply Z.ltb_lt in Hpos. lia.
  - eapply Forall_impl; [apply (go_false g Hok)|]. by intros e [? _].
Qed.

Lemma net_dom e : e ∈ base_edges g ++ falseEdges -> e_src e ∈ dom g /\ e_dst e ∈ dom g.
Proof.
  intros [He|He]%elem_of_app.
  - apply elem_of_base_edges in He. by eapply (go_closed g Hok).
  - pose proof (go_false g Hok) as Hf. rewrite Forall_forall in Hf. apply Hf in He. tauto.
Qed.

Lemma side_dom : side ⊆ dom g.
Proof.
  apply reach_within; [apply (go_source g Hok)|]. intros x y Hin.
  apply list_elem_of_fmap in Hin as (a & Ha & Hin).
  apply list_elem_of_filter in Hin as [_ Hin].
  apply elem_of_arcs in Hin as (i & e & r & He & _ & Hcase).
  apply list_elem_of_lookup_2, net_dom in He. destruct Hcase as [-> | ->]; injection Ha as -> ->; tauto.
Qed.

(** The side of the source is a minimum cut, and no infinite edge leaves it. *)
Lemma side_source : source ∈ side.
Proof. apply source_in. Qed.
Lemma side_sink : sink ∉ side.
Proof. by eapply sink_out. Qed.

Lemma side_finite e : e ∈ base_edges g ++ falseEdges -> e_src e ∈ side -> e_dst e ∉ side -> e_cap e < INF_MIN.
Proof.
  intros He Hs Hd. eapply Z.le_lt_trans; [|exact Hfin].
  eapply (crossing_le _ source sink); [done|done|exact net_caps|done..].
Qed.

Lemma inf_not_finite : ~ INF_WT < INF_MIN.
Proof. intros H. vm_compute in H. discriminate. Qed.
Lemma inf_le : INF_MIN <= INF_WT.
Proof. apply Z.leb_le. by vm_compute. Qed.

Lemma side_no_inf u v : get g u v = Some INF_WT -> u ∈ side -> v ∈ side.
Proof.
  intros Hg Hu. destruct (decide (v ∈ side)) as [|Hv]; [done|]. exfalso.
  apply inf_not_finite, (side_finite (Edge u v INF_WT)); [|done..].
  apply elem_of_app. left. by apply elem_of_base_edges.
Qed.

Lemma wmap_zero v : v ∈ dom g -> wmap side v = 0 <-> v ∉ side.
Proof.
  intros Hv. pose proof (go_weights g Hok v Hv). unfold wmap. case_decide; [|tauto]. split; [lia|done].
Qed.

Lemma filter_side : filter (fun v => 0 < wmap side v) (dom g) = side.
Proof.
  apply set_eq. intros v. rewrite elem_of_filter. split.
  - intros [Hw _]. unfold wmap in Hw. case_decide; [done|lia].
  - intros Hv. pose proof (side_dom v Hv) as Hd. split; [|done].
    unfold wmap. rewrite decide_True by done. by apply (go_weights g Hok).
Qed.
End Round.

(** ** The choice of a vertex *)

Lemma fold_choice {A B} (c : Z * option B -> A -> bool) (p : A -> Z) (f : A -> B) l z q v :
  fold_left (fun best e => if c best e then (p e, Some (f e)) else best) l (z, None) = (q, Some v) ->
  exists e best, e ∈ l /\ c best e = true /\ v = f e.
Proof.
  assert (H : forall best, (forall v, snd best = Some v -> exists e best', e ∈ l /\ c best' e = true /\ v = f e) ->
    forall v, snd (fold_left (fun best e => if c best e then (p e, Some (f e)) else best) l best) = Some v ->
    exists e best', e ∈ l /\ c best' e = true /\ v = f e).
  { assert (Hsub : forall l', (forall e, e ∈ l' -> e ∈ l) -> forall best,
      (forall v, snd best = Some v -> exists e best', e ∈ l /\ c best' e = true /\ v = f e) ->
      forall v, snd (fold_left (fun best e => if c best e then (p e, Some (f e)) else best) l' best) = Some v ->
      exists e best', e ∈ l /\ c best' e = true /\ v = f e); [|by eauto].
    induction l' as [|e l' IH]; intros Hl' best Hb; cbn; [done|]. apply IH; [set_solver|].
    destruct (c best e) eqn:E; [|done]. cbn. intros w [= <-]. exists e, best. set_solver. }
  intros Heq. apply (H (z, None)); [done|]. by rewrite Heq.
Qed.

Lemma choose_source_spec g order S inf q v : choose_source g order S inf = (q, Some v) ->
  wmap S v = 0 /\ v <> sink /\ exists u c, get g u v = Some c.
Proof.
  intros H. apply (fold_choice (fun best e => cut_edge S e && negb (bool_decide (e_dst e = sink)) &&
    (out_degree g (e_dst e) =? 1) && negb (bool_decide (e_dst e ∈ inf)) &&
    (topo_sort_pos order (e_dst e) <? fst best)) (fun e => topo_sort_pos order (e_dst e)) e_dst) in H
    as (e & best & He & Hc & ->).
  rewrite !andb_true_iff, !negb_true_iff, !bool_decide_eq_false in Hc. unfold cut_edge in Hc.
  rewrite andb_true_iff, Z.eqb_eq in Hc. apply elem_of_base_edges in He. naive_solver.
Qed.

Lemma choose_sink_spec g order S inf q u : choose_sink g order S inf = (q, Some u) ->
  wmap S u <> 0 /\ u <> source /\ exists v c, get g u v = Some c.
Proof.
  intros H. apply (fold_choice (fun best e => cut_edge S e && negb (bool_decide (e_src e = source)) &&
    (out_degree g (e_src e) =? 1) && negb (bool_decide (e_src e ∈ inf)) &&
    (fst best <? topo_sort_pos order (e_src e))) (fun e => topo_sort_pos order (e_src e)) e_src) in H
    as (e & best & He & Hc & ->).
  rewrite !andb_true_iff, !negb_true_iff, !bool_decide_eq_false in Hc. unfold cut_edge in Hc.
  rewrite andb_true_iff, negb_true_iff, Z.eqb_neq in Hc. apply elem_of_base_edges in He. naive_solver.
Qed.

(** ** The cut that is returned *)

(** No edge as heavy as infinity leaves the source side, and the stages it makes
    respect the order of the pipeline. *)
Record valid_cut (g : adj_list) (S : gset V) : Prop := ValidCut {
  vc_source : source ∈ S;
  vc_sink : sink ∉ S;
  vc_dom : S ⊆ dom g;
  vc_edges : forall u v c, get g u v = Some c -> INF_MIN <= c -> u ∈ S -> v ∈ S;
  vc_false : forall e, e ∈ falseEdges -> INF_MIN <= e_cap e -> e_src e ∈ S -> e_dst e ∈ S;
  vc_pipeline : forall a b, (a, b) ∈ pipelineConstraints -> b ∈ S -> a ∈ S }.

Definition balanced (frac : spec_float) : bool :=
  negb (too_small frac tol sourceWeight) && negb (too_large frac tol sourceWeight).

(** A minimum cut of [g]. *)
Definition min_cut (g : adj_list) (S : gset V) : Prop :=
  forall S', source ∈ S' -> sink ∉ S' ->
    cut_capacity (base_edges g ++ falseEdges) S <= cut_capacity (base_edges g ++ falseEdges) S'.

Lemma valid_cut_raised g g' S : raised g g' -> valid_cut g' S -> valid_cut g S.
Proof.
  intros [Hd Hk _] [Hs Ht Hsub He Hf Hp]. split; try done; [by rewrite <- Hd|].
  intros u v c Hg Hc Hu. destruct (Hk u v c Hg) as [H|H]; [by apply (He u v c)|].
  by apply (He u v INF_WT); [|apply inf_le|].
Qed.

Lemma frac_raised g g' S : raised g g' -> frac_src_cut g' S = frac_src_cut g S.
Proof. intros [Hd _ _]. unfold frac_src_cut, sum_weights, vertices. by rewrite Hd. Qed.

Context `{!FlowSolver push_relabel_max_flow} (Hst : source <> sink).

Lemma solved_round g round : graph_ok g -> weights_positive g = true ->
  forall flow res, push_relabel_max_flow round (base_edges g ++ falseEdges) source sink = (flow, res) ->
  solved (base_edges g ++ falseEdges) source sink flow res.
Proof.
  intros Hok Hpos flow res E.
  pose proof (solver_solves round _ source sink Hst (net_caps g Hok Hpos)) as H. by rewrite E in H.
Qed.

Definition cut_ok (g : adj_list) (S : gset V) (frac : spec_float) : Prop :=
  valid_cut g S /\ frac = frac_src_cut g S /\ balanced frac = true /\
  exists g', raised g g' /\ min_cut g' S.

Lemma cut_ok_raised g g' S frac : raised g g' -> cut_ok g' S frac -> cut_ok g S frac.
Proof.
  intros Hr (Hv & Hf & Hb & g'' & Hr' & Hm). split_and!; [by eapply valid_cut_raised| |done|].
  - by rewrite <- (frac_raised g g').
  - exists g''. split; [by eapply raised_trans|done].
Qed.

(** A round that stops. *)
Lemma round_done g flow res : graph_ok g -> weights_positive g = true ->
  solved (base_edges g ++ falseEdges) source sink flow res -> flow < INF_MIN ->
  existsb (fun e => (wmap (side g res) e.1 =? 0) && (0 <? wmap (side g res) e.2)) pipelineConstraints = false ->
  balanced (frac_src_cut g (side g res)) = true ->
  cut_ok g (side g res) (frac_src_cut g (side g res)).
Proof.
  intros Hok Hpos Hsv Hfin Hpipe Hb. pose proof (side_dom g Hok res) as Hd. split_and!; [|done|done|].
  - split; [apply side_source|by eapply side_sink|done| | |].
    + intros u v c Hg Hc Hu. destruct (decide (v ∈ side g res)) as [|Hv]; [done|]. exfalso.
      pose proof (side_finite g Hok Hpos Hst flow res Hsv Hfin (Edge u v c)
        ltac:(apply elem_of_app; left; by apply elem_of_base_edges) Hu Hv). cbn in *. lia.
    + intros e He Hc Hu. destruct (decide (e_dst e ∈ side g res)) as [|Hv]; [done|]. exfalso.
      pose proof (side_finite g Hok Hpos Hst flow res Hsv Hfin e ltac:(set_solver) Hu Hv). lia.
    + intros a b Hab Hbs. destruct (decide (a ∈ side g res)) as [|Ha]; [done|]. exfalso.
      apply not_true_iff_false in Hpipe. apply Hpipe, existsb_exists. exists (a, b).
      split; [by apply list_elem_of_In|]. cbn. unfold wmap. rewrite decide_False, decide_True by done.
      apply Z.ltb_lt. apply (go_weights g Hok). auto.
  - exists g. split; [apply raised_refl|]. intros S' Hs Ht. by eapply source_side_min.
Qed.

(** The choices are vertices, on the other side of what they are joined to. *)
Lemma chosen_source g flow res order inf q v : graph_ok g -> weights_positive g = true ->
  solved (base_edges g ++ falseEdges) source sink flow res -> flow < INF_MIN ->
  choose_source g order (side g res) inf = (q, Some v) ->
  v ∈ dom g /\ get g source v <> Some INF_WT.
Proof.
  intros Hok Hpos Hsv Hfin Hc. apply choose_source_spec in Hc as (Hw & _ & u & c & Hg).
  apply (go_closed g Hok) in Hg as [_ Hv]. split; [done|]. intros Hi.
  apply wmap_zero in Hw; [|done..]. apply Hw.
  eapply (side_no_inf g Hok Hpos Hst flow res Hsv Hfin source); [done|apply side_source].
Qed.

Lemma chosen_sink g flow res order inf q u : graph_ok g -> weights_positive g = true ->
  solved (base_edges g ++ falseEdges) source sink flow res -> flow < INF_MIN ->
  choose_sink g order (side g res) inf = (q, Some u) ->
  u ∈ dom g /\ get g u sink <> Some INF_WT.
Proof.
  intros Hok Hpos Hsv Hfin Hc. apply choose_sink_spec in Hc as (Hw & _ & v & c & Hg).
  apply (go_closed g Hok) in Hg as [Hu _]. split; [done|]. intros Hi.
  apply (side_sink g Hst flow res Hsv).
  eapply (side_no_inf g Hok Hpos Hst flow res Hsv Hfin u); [done|].
  unfold wmap in Hw. by case_decide.
Qed.

Lemma run_sound fuel round g r0 S r : graph_ok g ->
  runBalancedMinCut fuel round g r0 = (CutDone S, r) -> exists frac, r = Some frac /\ cut_ok g S frac.
Proof.
  revert round g r0. induction fuel as [|fuel IH]; intros round g r0 Hok; [done|].
  cbn [runBalancedMinCut]. destruct (weights_positive g) eqn:Hpos; [|done]. cbn [negb].
  destruct (topological_sort g) as [order|]; [|done].
  destruct (push_relabel_max_flow _ _ _ _) as [flow res] eqn:Esv.
  apply solved_round in Esv as Hsv; [|done..].
  destruct (flow <? 0); [done|]. destruct (Z.leb_spec INF_MIN flow) as [|Hfin]; [done|].
  fold (side g res). destruct (existsb _ _) eqn:Hpipe; [done|].
  destruct (too_small _ _ _) eqn:Esmall; [|destruct (too_large _ _ _) eqn:Elarge].
  - destruct (choose_source _ _ _ _) as [q [v|]] eqn:Ec; [|done]. intros Hrun.
    eapply chosen_source in Ec as [Hv _]; [|done..]. apply IH in Hrun as (frac & -> & Hcut).
    + exists frac. split; [done|]. eapply cut_ok_raised; [|exact Hcut]. apply raised_collapse, (go_source g Hok).
    + by apply graph_ok_collapse; [|apply (go_source g Hok)|].
  - destruct (choose_sink _ _ _ _) as [q [u|]] eqn:Ec; [|done]. intros Hrun.
    eapply chosen_sink in Ec as [Hu _]; [|done..]. apply IH in Hrun as (frac & -> & Hcut).
    + exists frac. split; [done|]. eapply cut_ok_raised; [|exact Hcut]. by apply raised_collapse.
    + by apply graph_ok_collapse; [| |apply (go_sink g Hok)].
  - rewrite (filter_side g Hok) by done. intros [= <- <-]. eexists. split; [done|].
    apply (round_done g flow res); try done. unfold balanced. by rewrite Esmall, Elarge.
Qed.

(** ** Termination *)

(** The vertices not yet joined to the source or to the sink. *)
Definition unjoined (g : adj_list) : nat :=
  (length (filter (fun v => get g source v <> Some INF_WT) (vertices g)) +
   length (filter (fun v => get g v sink <> Some INF_WT) (vertices g)))%nat.

Lemma raised_inf g g' u v : raised g g' -> get g' u v <> Some INF_WT -> get g u v <> Some INF_WT.
Proof. intros Hr Hn Hg. destruct (ra_keep _ _ Hr u v _ Hg); done. Qed.

Lemma unjoined_source g g' v : raised g g' -> v ∈ dom g -> get g source v <> Some INF_WT ->
  get g' source v = Some INF_WT -> (unjoined g' < unjoined g)%nat.
Proof.
  intros Hr Hv Hn Hy. unfold unjoined, vertices. rewrite (ra_dom _ _ Hr). apply Nat.add_lt_le_mono.
  - apply (length_filter_lt _ _ _ v); [|by apply elem_of_elements|done|by rewrite Hy; naive_solver].
    intros x. by apply raised_inf.
  - apply length_filter_le. intros x. by apply raised_inf.
Qed.

Lemma unjoined_sink g g' u : raised g g' -> u ∈ dom g -> get g u sink <> Some INF_WT ->
  get g' u sink = Some INF_WT -> (unjoined g' < unjoined g)%nat.
Proof.
  intros Hr Hv Hn Hy. unfold unjoined, vertices. rewrite (ra_dom _ _ Hr). apply Nat.add_le_lt_mono.
  - apply length_filter_le. intros x. by apply raised_inf.
  - apply (length_filter_lt _ _ _ u); [|by apply elem_of_elements|done|by rewrite Hy; naive_solver].
    intros x. by apply raised_inf.
Qed.

Lemma run_terminates fuel round g r0 : graph_ok g -> (unjoined g < fuel)%nat ->
  fst (runBalancedMinCut fuel round g r0) <> CutFuel.
Proof.
  revert round g r0. induction fuel as [|fuel IH]; intros round g r0 Hok Hfuel; [lia|].
  cbn [runBalancedMinCut]. destruct (weights_positive g) eqn:Hpos; [|done]. cbn [negb].
  destruct (topological_sort g) as [order|]; [|done].
  destruct (push_relabel_max_flow _ _ _ _) as [flow res] eqn:Esv.
  apply solved_round in Esv as Hsv; [|done..].
  destruct (flow <? 0); [done|]. destruct (Z.leb_spec INF_MIN flow) as [|Hfin]; [done|].
  fold (side g res). destruct (existsb _ _); [done|].
  destruct (too_small _ _ _); [|destruct (too_large _ _ _)].
  - destruct (choose_source _ _ _ _) as [q [v|]] eqn:Ec; [|done].
    eapply chosen_source in Ec as [Hv Hn]; [|done..]. apply IH.
    + by apply graph_ok_collapse; [|apply (go_source g Hok)|].
    + eapply Nat.lt_le_trans; [|apply Nat.lt_succ_r, Hfuel].
      apply (unjoined_source _ _ v); [apply raised_collapse, (go_source g Hok)|done|done|].
      unfold collapse_source. rewrite get_set_edge. by rewrite decide_True.
  - destruct (choose_sink _ _ _ _) as [q [u|]] eqn:Ec; [|done].
    eapply chosen_sink in Ec as [Hu Hn]; [|done..]. apply IH.
    + by apply graph_ok_collapse; [| |apply (go_sink g Hok)].
    + eapply Nat.lt_le_trans; [|apply Nat.lt_succ_r, Hfuel].
      apply (unjoined_sink _ _ u); [by apply raised_collapse|done|done|].
      unfold collapse_sink. rewrite get_set_edge. by rewrite decide_True.
  - done.
Qed.

Lemma unjoined_le g : (unjoined g <= 2 * size (dom g))%nat.
Proof.
  unfold unjoined, vertices. change (size (dom g)) with (length (elements (dom g))).
  pose proof (length_filter (fun v => get g source v <> Some INF_WT) (elements (dom g))).
  pose proof (length_filter (fun v => get g v sink <> Some INF_WT) (elements (dom g))). lia.
Qed.
End MinCut.
End MinCut.
