(* ===== verification/Ir.v ===== *)
(** The ep2 dialect as the passes of src/lib/ep2 read it: the types and operations of
    src/include/ep2/dialect/EP2Ops.td, and functions as the views of MLIR they use:
    blocks with arguments, operations with operands, results and successors. *)
From Stdlib Require Import ZArith Lia List String.
From stdpp Require Import base list numbers option gmap strings countable.
From S2P Require Import Prelude.
#[local] Open Scope Z_scope.

Module Ir.

(** ** Types *)

Inductive ty :=
  | AnyType
  | IntegerType (width : Z)
  | StructType (isEvent : bool) (elementTypes : list ty) (name : string)
  | BufferType
  | TableType (keyType valueType : ty) (tableSize : Z)
  | AtomType
  | ContextType
  | ContextRefType (valueType : ty)
  | PortType (inn out : bool)
  | OpaqueType (name : string)
  | NoneType
  | UnrankedTensorType  (* tensor<*xf64>, a builtin type of MLIR *)
  | NullType.  (* the null [mlir::Type] *)

(** ** Operations *)

Inductive op_kind :=
  | BitCastOp | ConstantOp | AddOp | SubOp | BitSetOp | BitGetOp | CmpOp | CallOp
  | ContextRefOp (name : string) | ExtractOp | ExtractValueOp | ExtractOffsetOp (offset : Z)
  | EmitOp | EmitValueOp | EmitOffsetOp (offset : Z)
  | LookupOp | UpdateOp | UpdateAtomicOp | LoadOp | StoreOp | NopOp | AssignOp | NextOp
  | SinkOp | GuardOp | GlobalOp (name : string) | GlobalImportOp (name : string) | InitOp | MulOp
  | TerminateOp | ReturnOp | StructAccessOp (index : Z) | StructUpdateOp (index : Z) | StructConstantOp
  | ConnectOp
  | BranchOp | CondBranchOp.
#[export] Instance op_kind_eq_dec : EqDecision op_kind.
Proof. solve_decision. Defined.

(** An argument of a block, or a result of an operation. *)
Inductive value := BlockArg (block index : nat) | OpResult (owner index : nat).
#[export] Instance value_eq_dec : EqDecision value.
Proof. solve_decision. Defined.
#[export] Instance value_countable : Countable value.
Proof.
  refine (inj_countable'
    (fun v => match v with BlockArg b i => inl (b, i) | OpResult o i => inr (o, i) end)
    (fun x => match x with inl (b, i) => BlockArg b i | inr (o, i) => OpResult o i end) _).
  by intros [].
Defined.

(** [o_id] stands for the operation's identity; [o_succs] are the blocks a terminator
    may branch to. *)
Record op := Op {
  o_id : nat; o_kind : op_kind; o_operands : list value; o_results : list ty; o_succs : list nat }.

Record block := Block { b_args : list ty; b_ops : list op }.

(** The attributes the passes set and read. *)
Inductive attr := StringAttr (s : string) | IntegerAttr (n : Z) | BoolAttr (b : bool) | ArrayAttr (l : list string).

Record func := Func { f_name : string; f_attrs : gmap string attr; f_blocks : list block }.

Definition func_ops (f : func) : list op := concat (map b_ops (f_blocks f)).
Definition isHandler (f : func) : bool :=
  match f_attrs f !! "type"%string with Some (StringAttr s) => String.eqb s "handler" | _ => false end.
Definition isExtern (f : func) : bool :=
  match f_attrs f !! "extern"%string with Some (BoolAttr b) => b | _ => false end.

Definition getDefiningOp (f : func) (v : value) : option op :=
  match v with
  | OpResult d _ => List.find (fun o => Nat.eqb (o_id o) d) (func_ops f)
  | BlockArg _ _ => None
  end.

Definition use_empty (f : func) (v : value) : bool :=
  forallb (fun o => bool_decide (v ∉ o_operands o)) (func_ops f).

(** The predecessors of a block, once for every edge. *)
Definition preds (f : func) (b : nat) : list nat :=
  flat_map (fun p => match p.2 with
                     | Block _ ops => flat_map (fun o => repeat p.1 (count_occ Nat.eq_dec (o_succs o) b)) ops
                     end) (combine (seq 0 (length (f_blocks f))) (f_blocks f)).
Definition succs (f : func) (b : nat) : list nat :=
  match f_blocks f !! b with Some (Block _ ops) => flat_map o_succs ops | None => [] end.

(** [getTerminator] *)
Definition terminator (f : func) (b : nat) : option op :=
  match f_blocks f !! b with Some (Block _ ops) => ops !! Nat.pred (length ops) | None => None end.

(** The terminators with successors. *)
Definition branches (o : op) : bool := match o_kind o with BranchOp | CondBranchOp => true | _ => false end.

(** ** Well-formed functions *)

Record wf_func (f : func) : Prop := WfFunc {
  wf_ids : NoDup (map o_id (func_ops f));
  wf_values : forall o v, o ∈ func_ops f -> v ∈ o_operands o ->
    match v with
    | OpResult d i => exists o', o' ∈ func_ops f /\ o_id o' = d /\ (i < length (o_results o'))%nat
    | BlockArg b i => exists bl, f_blocks f !! b = Some bl /\ (i < length (b_args bl))%nat
    end;
  wf_branches : forall o, o ∈ func_ops f -> branches o = true -> o_results o = [] }.

Lemma find_op f o : wf_func f -> o ∈ func_ops f ->
  List.find (fun o' => Nat.eqb (o_id o') (o_id o)) (func_ops f) = Some o.
Proof.
  intros [Hnd _ _] Ho. induction (func_ops f) as [|a l IH]; [by apply elem_of_nil in Ho|].
  cbn [map] in Hnd. apply list.NoDup_cons in Hnd as [Ha Hnd]. cbn.
  apply elem_of_cons in Ho as [->|Ho]; [by rewrite Nat.eqb_refl|].
  destruct (Nat.eqb_spec (o_id a) (o_id o)) as [E|]; [|by apply IH].
  exfalso. apply Ha. rewrite E. by apply list_elem_of_fmap_2.
Qed.

Lemma op_unique f o o' : wf_func f -> o ∈ func_ops f -> o' ∈ func_ops f -> o_id o = o_id o' -> o = o'.
Proof.
  intros Hf Ho Ho' E. apply (find_op f) in Ho; [|done]. apply (find_op f) in Ho'; [|done].
  rewrite E, Ho' in Ho. congruence.
Qed.

Lemma defining_op f d i o : wf_func f -> o ∈ func_ops f -> o_id o = d ->
  getDefiningOp f (OpResult d i) = Some o.
Proof. intros Hf Ho <-. by apply find_op. Qed.

Lemma use_empty_spec f v : use_empty f v = true <-> forall o, o ∈ func_ops f -> v ∉ o_operands o.
Proof.
  unfold use_empty. rewrite forallb_forall. split.
  - intros H o Ho. apply list_elem_of_In, H in Ho. by apply bool_decide_eq_true in Ho.
  - intros H o Ho. apply bool_decide_eq_true, H, list_elem_of_In, Ho.
Qed.

Definition value_ok (f : func) (v : value) : bool :=
  match v with
  | OpResult d i => existsb (fun o => Nat.eqb (o_id o) d && Nat.ltb i (length (o_results o))) (func_ops f)
  | BlockArg b i => from_option (fun bl => Nat.ltb i (length (b_args bl))) false (f_blocks f !! b)
  end.
Definition wf_func_b (f : func) : bool :=
  bool_decide (NoDup (map o_id (func_ops f))) &&
  forallb (fun o => forallb (value_ok f) (o_operands o) && (negb (branches o) || bool_decide (length (o_results o) = 0%nat)))
    (func_ops f).

Lemma wf_func_b_spec f : wf_func_b f = true -> wf_func f.
Proof.
  unfold wf_func_b. rewrite andb_true_iff, bool_decide_eq_true, forallb_forall. intros [Hnd Hall].
  split; [done| |].
  - intros o v Ho Hv. apply list_elem_of_In, Hall, andb_true_iff in Ho as [Hvs _].
    rewrite forallb_forall in Hvs. apply list_elem_of_In, Hvs in Hv. unfold value_ok in Hv. destruct v as [b i|d i].
    + destruct (f_blocks f !! b) as [bl|]; [|done]. exists bl. split; [done|]. by apply Nat.ltb_lt.
    + apply existsb_exists in Hv as (o' & Ho' & Hv). apply andb_true_iff in Hv as [E Hi]. exists o'.
      split; [by apply list_elem_of_In|]. split; [by apply Nat.eqb_eq|by apply Nat.ltb_lt].
  - intros o Ho Hb. apply list_elem_of_In, Hall, andb_true_iff in Ho as [_ Hr]. rewrite Hb in Hr.
    apply bool_decide_eq_true in Hr. by apply length_zero_iff_nil.
Qed.
End Ir.
