(* ===== verification/Pipeline.v ===== *)
(** Cutting a handler into two pipeline stages: pipelineHandler of
    src/lib/ep2/PipelineHandlerPass.cpp builds the graph of a function, has it cut by
    [MinCut] and reads the stages off the cut.

    A map statement on the adjacency lists is a [stmt]; the statements are listed in
    program order and then executed.  The assertions are collected in [assertions]: the
    process ends when one fails, wherever it stands. *)
From Stdlib Require Import ZArith Lia List String SpecFloat.
From stdpp Require Import base list numbers option gmap sets strings countable.
From S2P Require Import Prelude Flow MinCut Ir.
Import Flow MinCut Ir.
#[local] Open Scope Z_scope.

Module Pipeline.

Definition SMALL_WT : Z := 1.
Definition N_RAND_ITERS : nat := 100.
Definition errMsgs : list string :=
  [ ""%string; "Inf flow returned by max_flow solver."%string;
    "In collapsing src+n, src->n would create inf capacity path."%string;
    "In collapsing sink+n, n->sink would create inf capacity path."%string ].

(** [vertex_t]: small numbers, operations and values, by their addresses. *)
Inductive vertex := Num (n : nat) | OpVertex (o : nat) | ValueVertex (v : value).
#[export] Instance vertex_eq_dec : EqDecision vertex.
Proof. solve_decision. Defined.
#[export] Instance vertex_countable : Countable vertex.
Proof.
  refine (inj_countable'
    (fun x => match x with Num n => inl n | OpVertex o => inr (inl o) | ValueVertex v => inr (inr v) end)
    (fun x => match x with inl n => Num n | inr (inl o) => OpVertex o | inr (inr v) => ValueVertex v end) _).
  by intros [].
Defined.

Definition globalSource : vertex := Num 0.
Definition globalSink : vertex := Num 1.
Definition sourceMap (b : nat) : vertex := Num (2 + 2 * b).
Definition sinkMap (b : nat) : vertex := Num (3 + 2 * b).
Definition opToVertex (o : op) : vertex := OpVertex (o_id o).

(** struct PipelinePolicy; a cost is [None] where the policy asserts. *)
Record PipelinePolicy := Policy {
  sourceWeight : spec_float; tolerance : spec_float;
  typeTransmitCost : ty -> option Z; operationWeight : op -> Z; valueWeight : value -> Z }.

(** ** The graph of a function *)

(** [myAdjList[u][v] = w], and [myAdjList[u] = {}] where [u] is not a key. *)
Inductive stmt := SetEdge (u v : vertex) (w : Z) | Touch (u : vertex).

Record graph := Graph {
  g_stmts : list stmt; g_false : list (@edge vertex); g_constraints : list (vertex * vertex) }.
Definition gapp (g h : graph) : graph :=
  Graph (g_stmts g ++ g_stmts h) (g_false g ++ g_false h) (g_constraints g ++ g_constraints h).
Definition gconcat (gs : list graph) : graph := foldr gapp (Graph [] [] []) gs.

Section Build.
Context (policy : PipelinePolicy) (f : func).

Definition cost (t : ty) : Z := default 0 (typeTransmitCost policy t).
Definition block_args (b : nat) : list ty := from_option b_args [] (f_blocks f !! b).
Definition block_ops (b : nat) : list op := from_option b_ops [] (f_blocks f !! b).
Definition blocks : list nat := seq 0 (length (f_blocks f)).

Definition block_frame (b : nat) : graph :=
  Graph [Touch (sourceMap b); Touch (sinkMap b)]
    ((if bool_decide (preds f b = []) then [Edge (sourceMap b) globalSource INF_WT] else []) ++
     (if bool_decide (succs f b = []) then [Edge globalSink (sinkMap b) INF_WT] else [])) [].

Definition argument_edges : graph :=
  Graph (imap (fun i t => SetEdge globalSource (ValueVertex (BlockArg 0 i)) (cost t)) (block_args 0)) [] [].

Definition pred_edges (b p : nat) : graph :=
  match terminator f p with
  | Some term =>
      Graph (imap (fun i _ => SetEdge (opToVertex term) (ValueVertex (BlockArg b i)) INF_WT) (block_args b))
        [Edge (sourceMap b) (sinkMap p) INF_WT] []
  | None => Graph [] [] []
  end.

Definition accesses_table (o : op) : bool :=
  match o_kind o with LookupOp | UpdateOp => true | _ => false end.
Definition table_def (o : op) : option op := v ← hd_error (o_operands o); getDefiningOp f v.

Definition table_edges (o : op) : graph :=
  match accesses_table o, table_def o with
  | true, Some tableDef => Graph [] [Edge (opToVertex o) (opToVertex tableDef) INF_WT] []
  | _, _ => Graph [] [] []
  end.

Definition is_import (o : op) : bool := match o_kind o with GlobalImportOp _ => true | _ => false end.

Definition result_edges (b : nat) (o : op) : graph :=
  match o_results o with
  | [] =>
      Graph (match o_kind o with
             | ReturnOp => [SetEdge (opToVertex o) globalSink INF_WT]
             | _ => [Touch (opToVertex o)]
             end)
        [Edge (sinkMap b) (opToVertex o) INF_WT]
        (match o_kind o with ReturnOp => [(opToVertex o, globalSink)] | _ => [] end)
  | results =>
      Graph (concat (imap (fun i t =>
        let v := OpResult (o_id o) i in
        if use_empty f v then []
        else [SetEdge (opToVertex o) (ValueVertex v) (if is_import o then INF_WT else cost t)]) results)) [] []
  end.

Definition operand_edges (b : nat) (o : op) : graph :=
  match o_operands o with
  | [] => Graph [SetEdge globalSource (opToVertex o) SMALL_WT] [] []
  | operands => gconcat (map (fun v =>
      let p := getDefiningOp f v in
      let c := match o_kind o with
               | SinkOp => match p with Some d => opToVertex d | None => sourceMap b end
               | _ => ValueVertex v
               end in
      let d := match p with Some d => opToVertex d | None => sourceMap b end in
      Graph [SetEdge c (opToVertex o) INF_WT] [Edge (opToVertex o) d INF_WT] [(d, opToVertex o)]) operands)
  end.

Definition op_graph (b : nat) (o : op) : graph :=
  gapp (table_edges o) (gapp (result_edges b o) (operand_edges b o)).

Definition block_graph (b : nat) : graph :=
  gapp (gconcat (map (pred_edges b) (preds f b))) (gconcat (map (op_graph b) (block_ops b))).

Definition build_graph : graph :=
  gapp (Graph [Touch globalSource; Touch globalSink] [] [])
    (gapp (gconcat (map block_frame blocks))
      (gapp argument_edges (gconcat (map block_graph blocks)))).

Definition exec_stmt (g : gmap vertex (gmap vertex Z)) (s : stmt) : gmap vertex (gmap vertex Z) :=
  match s with
  | SetEdge u v w => <[u := <[v := w]> (default ∅ (g !! u))]> g
  | Touch u => match g !! u with Some _ => g | None => <[u := ∅]> g end
  end.
Definition myAdjList : gmap vertex (gmap vertex Z) := fold_left exec_stmt (g_stmts build_graph) ∅.
#[local] Arguments myAdjList : simpl never.

Definition assertions : bool :=
  (* terminators of predecessors are branches *)
  forallb (fun b => forallb (fun p => from_option branches false (terminator f p)) (preds f b)) blocks
  (* a table comes from an operation *)
  && forallb (fun o => negb (accesses_table o) || from_option (fun _ => true) false (table_def o)) (func_ops f)
  (* the policy has a cost for every transmitted type *)
  && forallb (fun t => from_option (fun _ => true) false (typeTransmitCost policy t)) (block_args 0)
  && forallb (fun o => forallb id (imap (fun i t => use_empty f (OpResult (o_id o) i)
        || from_option (fun _ => true) false (typeTransmitCost policy t)) (o_results o))) (func_ops f)
  (* every target of an edge is a vertex *)
  && forallb (fun e => bool_decide (e_dst e ∈ dom myAdjList)) (base_edges myAdjList).

Definition vertex_weight_of (x : vertex) : Z :=
  match x with
  | Num _ => 1
  | ValueVertex v => valueWeight policy v
  | OpVertex o => from_option (operationWeight policy) 0
                    (List.find (fun o' => Nat.eqb (o_id o') o) (func_ops f))
  end.
Definition vtxWeights : gmap vertex Z := map_imap (fun x _ => Some (vertex_weight_of x)) myAdjList.

(** ** The cut *)

(** PipelineResult, or why there is none. *)
Inductive pipeline_result :=
  | PNotHandler
  | PAbort
  | PUndef             (* a message beyond the end of errMsgs *)
  | PNoCut (err : string)
  | PCut (sinkOps : gset nat) (sinkValues : gset value)
  | PFuel.

Context (push_relabel_max_flow : @solver vertex)
  (topological_sort : gmap vertex (gmap vertex Z) -> option (list vertex)).

(** [tolerance] is a double, the parameter a float. *)
Definition f32_of_f64 (x : spec_float) : spec_float :=
  match x with
  | S754_finite sg m e => binary_normalize 24 128 (cond_Zopp sg (Zpos m)) e sg
  | _ => x
  end.

Definition cut_fuel : nat := S (2 * size (dom myAdjList)).

Definition one_cut (i : nat) (r : option spec_float) : cut_result * option spec_float :=
  runBalancedMinCut push_relabel_max_flow topological_sort globalSource globalSink
    (f32_of_f64 (tolerance policy)) (sourceWeight policy)
    (g_false build_graph) vtxWeights (g_constraints build_graph)
    cut_fuel (i * cut_fuel) myAdjList r.

(** [for (size_t i = 0; i<N_RAND_ITERS; ++i)], with [n] rounds left. *)
Fixpoint try_cuts (n i : nat) (last : cut_result * option spec_float) : cut_result * option spec_float :=
  match n with
  | O => last
  | S n' =>
      let r := one_cut i (snd last) in
      match fst r with
      | CutFail _ => try_cuts n' (S i) r
      | _ => r
      end
  end.

Definition sink_ops (sourceSet : gset vertex) : gset nat :=
  list_to_set (omap (fun o => if decide (opToVertex o ∈ sourceSet) then None else Some (o_id o)) (func_ops f)).

Definition op_results (o : op) : list value := imap (fun i _ => OpResult (o_id o) i) (o_results o).

Definition sink_values (sourceSet : gset vertex) : gset value :=
  list_to_set (flat_map (fun o =>
    if decide (opToVertex o ∈ sourceSet)
    then filter (fun v => ValueVertex v ∉ sourceSet) (op_results o)
    else op_results o) (func_ops f)).

Definition pipelineHandler (r : option spec_float) : pipeline_result * option spec_float :=
  if isExtern f || negb (isHandler f) then (PNotHandler, r)
  else if negb assertions then (PAbort, r)
  else
    let c := try_cuts N_RAND_ITERS 0 (CutFail MIN_CUT_SUCCESS, r) in
    (match fst c with
     | CutDone sourceSet => PCut (sink_ops sourceSet) (sink_values sourceSet)
     | CutFail rc => match errMsgs !! Z.to_nat rc with Some m => PNoCut m | None => PUndef end
     | CutAbort => PAbort
     | CutFuel => PFuel
     end, snd c).

(** ** Executing the statements *)

Lemma get_exec_stmt g st u v : MinCut.get (exec_stmt g st) u v =
  match st with
  | SetEdge u' v' w => if decide (u = u' /\ v = v') then Some w else MinCut.get g u v
  | Touch _ => MinCut.get g u v
  end.
Proof.
  unfold MinCut.get. destruct st as [u' v' w|u']; cbn.
  - destruct (decide (u = u')) as [->|Hu].
    + rewrite lookup_insert_eq. cbn. destruct (decide (v = v')) as [->|Hv].
      * rewrite lookup_insert_eq. by rewrite decide_True.
      * rewrite lookup_insert_ne by done. rewrite decide_False by tauto. by destruct (g !! u').
    + rewrite lookup_insert_ne by done. by rewrite decide_False by tauto.
  - destruct (g !! u') eqn:E; [done|]. destruct (decide (u = u')) as [->|Hu].
    + by rewrite lookup_insert_eq, E.
    + by rewrite lookup_insert_ne.
Qed.

Lemma get_exec_sound l g u v w : MinCut.get (fold_left exec_stmt l g) u v = Some w ->
  SetEdge u v w ∈ l \/ MinCut.get g u v = Some w.
Proof.
  revert g. induction l as [|st l IH]; intros g; cbn [fold_left]; [by right|].
  intros [H|H]%IH; [left; by right|]. rewrite get_exec_stmt in H.
  destruct st as [u' v' w'|u']; [|by right]. case_decide as E; [|by right].
  destruct E as [-> ->]. injection H as ->. left. by left.
Qed.

Lemma get_exec_complete l g u v w : (forall w', SetEdge u v w' ∈ l -> w' = w) ->
  SetEdge u v w ∈ l \/ MinCut.get g u v = Some w -> MinCut.get (fold_left exec_stmt l g) u v = Some w.
Proof.
  revert g. induction l as [|st l IH]; intros g Hw; cbn [fold_left].
  - by intros [?%elem_of_nil|].
  - intros H. apply IH; [intros w' ?; apply Hw; by right|]. rewrite get_exec_stmt.
    destruct st as [u' v' w'|u'].
    + case_decide as E.
      * destruct E as [-> ->]. right. f_equal. apply Hw. by left.
      * destruct H as [[H|H]%elem_of_cons|H]; [|by left|by right]. exfalso. apply E. by injection H as -> -> _.
    + destruct H as [[H|H]%elem_of_cons|H]; [done|by left|by right].
Qed.

Lemma dom_exec l g x : x ∈ dom (fold_left exec_stmt l g) <->
  x ∈ dom g \/ Touch x ∈ l \/ exists v w, SetEdge x v w ∈ l.
Proof.
  revert g. induction l as [|st l IH]; intros g; cbn [fold_left].
  - setoid_rewrite elem_of_nil. naive_solver.
  - rewrite IH. setoid_rewrite elem_of_cons. destruct st as [u v w|u]; cbn.
    + rewrite dom_insert_L, elem_of_union, elem_of_singleton. naive_solver.
    + destruct (g !! u) as [m|] eqn:E.
      * assert (u ∈ dom g) by by apply elem_of_dom_2 in E. naive_solver.
      * rewrite dom_insert_L, elem_of_union, elem_of_singleton. naive_solver.
Qed.

(** ** The statements of the graph *)

Lemma elem_of_gconcat {A} (part : graph -> list A) (gs : list graph) x :
  part (Graph [] [] []) = [] -> (forall g h, part (gapp g h) = part g ++ part h) ->
  x ∈ part (gconcat gs) <-> exists g, g ∈ gs /\ x ∈ part g.
Proof.
  intros Hnil Happ. induction gs as [|g gs IH]; cbn [gconcat foldr].
  - rewrite Hnil. setoid_rewrite elem_of_nil. naive_solver.
  - fold (gconcat gs). rewrite Happ, elem_of_app, IH. set_solver.
Qed.

Lemma stmts_gconcat gs x : x ∈ g_stmts (gconcat gs) <-> exists g, g ∈ gs /\ x ∈ g_stmts g.
Proof. by apply (elem_of_gconcat g_stmts). Qed.
Lemma false_gconcat gs x : x ∈ g_false (gconcat gs) <-> exists g, g ∈ gs /\ x ∈ g_false g.
Proof. by apply (elem_of_gconcat g_false). Qed.

Lemma stmts_build st : st ∈ g_stmts build_graph <->
  st = Touch globalSource \/ st = Touch globalSink \/
  (exists b, b ∈ blocks /\ (st = Touch (sourceMap b) \/ st = Touch (sinkMap b))) \/
  st ∈ g_stmts argument_edges \/
  exists b, b ∈ blocks /\ ((exists p, p ∈ preds f b /\ st ∈ g_stmts (pred_edges b p)) \/
                         (exists o, o ∈ block_ops b /\ st ∈ g_stmts (op_graph b o))).
Proof.
  unfold build_graph. cbn [gapp g_stmts]. rewrite !elem_of_app, !stmts_gconcat. cbn [g_stmts].
  setoid_rewrite list_elem_of_fmap. unfold block_graph.
  assert (Hb : forall b, st ∈ g_stmts (gapp (gconcat (map (pred_edges b) (preds f b)))
                    (gconcat (map (op_graph b) (block_ops b)))) <->
    (exists p, p ∈ preds f b /\ st ∈ g_stmts (pred_edges b p)) \/
    (exists o, o ∈ block_ops b /\ st ∈ g_stmts (op_graph b o))).
  { intros b. cbn [gapp g_stmts]. rewrite elem_of_app, !stmts_gconcat.
    setoid_rewrite list_elem_of_fmap. naive_solver. }
  assert (Hf : forall b, st ∈ g_stmts (block_frame b) <-> st = Touch (sourceMap b) \/ st = Touch (sinkMap b))
    by (intros b; cbn; set_solver).
  rewrite !elem_of_cons, elem_of_nil. naive_solver.
Qed.

Lemma false_build e : e ∈ g_false build_graph <->
  (exists b, b ∈ blocks /\ e ∈ g_false (block_frame b)) \/
  exists b, b ∈ blocks /\ ((exists p, p ∈ preds f b /\ e ∈ g_false (pred_edges b p)) \/
                         (exists o, o ∈ block_ops b /\ e ∈ g_false (op_graph b o))).
Proof.
  unfold build_graph. cbn [gapp g_false]. rewrite !elem_of_app, !false_gconcat. cbn [g_false].
  setoid_rewrite list_elem_of_fmap. unfold block_graph.
  assert (Hb : forall b, e ∈ g_false (gapp (gconcat (map (pred_edges b) (preds f b)))
                    (gconcat (map (op_graph b) (block_ops b)))) <->
    (exists p, p ∈ preds f b /\ e ∈ g_false (pred_edges b p)) \/
    (exists o, o ∈ block_ops b /\ e ∈ g_false (op_graph b o))).
  { intros b. cbn [gapp g_false]. rewrite elem_of_app, !false_gconcat.
    setoid_rewrite list_elem_of_fmap. naive_solver. }
  unfold argument_edges. cbn [g_false]. rewrite !elem_of_nil. naive_solver.
Qed.

Lemma block_ops_func b o : o ∈ block_ops b -> b ∈ blocks /\ o ∈ func_ops f.
Proof.
  unfold block_ops, blocks, func_ops. destruct (f_blocks f !! b) as [bl|] eqn:E; cbn; [|by intros ?%elem_of_nil].
  intros Ho. split.
  - apply lookup_lt_Some in E. rewrite elem_of_seq. lia.
  - rewrite list_elem_of_In, in_concat. exists (b_ops bl). rewrite <- !list_elem_of_In. split; [|done].
    apply list_elem_of_fmap_2. by eapply list_elem_of_lookup_2.
Qed.

Lemma func_ops_block o : o ∈ func_ops f -> exists b, b ∈ blocks /\ o ∈ block_ops b.
Proof.
  unfold func_ops. rewrite list_elem_of_In, in_concat. setoid_rewrite <- list_elem_of_In.
  intros (l & Hl & Ho). apply list_elem_of_fmap in Hl as (bl & -> & Hb).
  apply list_elem_of_lookup in Hb as [b Hb]. exists b. unfold blocks, block_ops. rewrite Hb. cbn. split; [|done].
  apply lookup_lt_Some in Hb. rewrite elem_of_seq. lia.
Qed.

Lemma terminator_op p term : terminator f p = Some term -> term ∈ block_ops p.
Proof.
  unfold terminator, block_ops. destruct (f_blocks f !! p) as [[args ops]|]; [|done]. cbn.
  apply list_elem_of_lookup_2.
Qed.

(** The operand edges of an operation. *)
Lemma stmts_operands b o st : st ∈ g_stmts (operand_edges b o) <->
  (o_operands o = [] /\ st = SetEdge globalSource (opToVertex o) SMALL_WT) \/
  exists v, v ∈ o_operands o /\
    st = SetEdge (match o_kind o with
                  | SinkOp => from_option opToVertex (sourceMap b) (getDefiningOp f v)
                  | _ => ValueVertex v end) (opToVertex o) INF_WT.
Proof.
  unfold operand_edges. destruct (o_operands o) as [|v0 vs] eqn:Eo.
  - cbn. rewrite list_elem_of_singleton. setoid_rewrite elem_of_nil. naive_solver.
  - rewrite stmts_gconcat. setoid_rewrite list_elem_of_fmap. rewrite <- Eo. split.
    + intros (g & (v & -> & Hv) & Hs). cbn in Hs. apply list_elem_of_singleton in Hs. right. exists v.
      split; [done|]. rewrite Hs. by destruct (o_kind o), (getDefiningOp f v).
    + intros [[E _]|(v & Hv & ->)]; [by rewrite E in Eo|]. eexists. split; [by exists v|]. cbn.
      apply list_elem_of_singleton. by destruct (o_kind o), (getDefiningOp f v).
Qed.

Definition def_vertex (b : nat) (v : value) : vertex :=
  from_option opToVertex (sourceMap b) (getDefiningOp f v).

Lemma false_operands b o e : e ∈ g_false (operand_edges b o) <->
  exists v, v ∈ o_operands o /\ e = Edge (opToVertex o) (def_vertex b v) INF_WT.
Proof.
  unfold operand_edges, def_vertex. destruct (o_operands o) as [|v0 vs] eqn:Eo.
  - cbn. setoid_rewrite elem_of_nil. naive_solver.
  - rewrite false_gconcat. setoid_rewrite list_elem_of_fmap. rewrite <- Eo. split.
    + intros (g & (v & -> & Hv) & Hs). cbn in Hs. apply list_elem_of_singleton in Hs. exists v.
      split; [done|]. rewrite Hs. by destruct (getDefiningOp f v).
    + intros (v & Hv & ->). eexists. split; [by exists v|]. cbn.
      apply list_elem_of_singleton. by destruct (getDefiningOp f v).
Qed.

Lemma stmts_results b o st : st ∈ g_stmts (result_edges b o) <->
  (o_results o = [] /\ o_kind o = ReturnOp /\ st = SetEdge (opToVertex o) globalSink INF_WT) \/
  (o_results o = [] /\ o_kind o <> ReturnOp /\ st = Touch (opToVertex o)) \/
  exists i t, o_results o !! i = Some t /\ use_empty f (OpResult (o_id o) i) = false /\
    st = SetEdge (opToVertex o) (ValueVertex (OpResult (o_id o) i)) (if is_import o then INF_WT else cost t).
Proof.
  unfold result_edges. destruct (o_results o) as [|t0 ts] eqn:Eo.
  - split.
    + intros H. cbn [g_stmts] in H. destruct (o_kind o) eqn:Ek; apply list_elem_of_singleton in H as ->; naive_solver.
    + intros [(_ & -> & ->)|[(_ & Hk & ->)|(i & t & Hi & _)]]; cbn [g_stmts]; [by left| |done].
      destruct (o_kind o); try (by left). done.
  - rewrite <- Eo. assert (Hne : o_results o <> []) by by rewrite Eo. clear Eo t0 ts.
    cbn [g_stmts]. rewrite list_elem_of_In, in_concat.
    setoid_rewrite <- list_elem_of_In. split.
    + intros (l & Hl & Hs). apply list_elem_of_lookup in Hl as [i Hi]. rewrite list_lookup_imap in Hi.
      destruct (o_results o !! i) as [t|] eqn:Et; [|done]. injection Hi as <-.
      destruct (use_empty f (OpResult (o_id o) i)) eqn:Eu; [by apply elem_of_nil in Hs|].
      apply list_elem_of_singleton in Hs. right. right. by exists i, t.
    + intros [[? _]|[[? _]|(i & t & Hi & Hu & ->)]]; [done..|]. eexists. split.
      * apply (list_elem_of_lookup_2 _ i). rewrite list_lookup_imap, Hi. reflexivity.
      * cbn. rewrite Hu. by left.
Qed.

Lemma stmts_preds b p st : st ∈ g_stmts (pred_edges b p) <->
  exists term i, terminator f p = Some term /\ (i < length (block_args b))%nat /\
    st = SetEdge (opToVertex term) (ValueVertex (BlockArg b i)) INF_WT.
Proof.
  unfold pred_edges. destruct (terminator f p) as [term|]; cbn [g_stmts].
  - rewrite list_elem_of_lookup. setoid_rewrite list_lookup_imap. split.
    + intros [i Hi]. destruct (block_args b !! i) as [t|] eqn:Et; [|done]. injection Hi as <-.
      exists term, i. apply lookup_lt_Some in Et. done.
    + intros (term' & i & [= <-] & [t Hi]%lookup_lt_is_Some & ->). exists i. by rewrite Hi.
  - rewrite elem_of_nil. naive_solver.
Qed.

(** The weights: infinite, from the global source, or the cost of a result. *)
Lemma stmt_weight u v w : SetEdge u v w ∈ g_stmts build_graph ->
  w = INF_WT \/ u = globalSource \/
  exists o i t, o ∈ func_ops f /\ u = opToVertex o /\ v = ValueVertex (OpResult (o_id o) i) /\
    o_results o !! i = Some t /\ w = if is_import o then INF_WT else cost t.
Proof.
  rewrite stmts_build. intros [H|[H|[(b & _ & [H|H])|[H|(b & _ & [(p & _ & H)|(o & Ho & H)])]]]]; try done.
  - apply list_elem_of_lookup in H as [i Hi]. cbn in Hi. rewrite list_lookup_imap in Hi.
    destruct (block_args 0 !! i); [|done]. injection Hi as <- _ _. auto.
  - apply stmts_preds in H as (term & i & _ & _ & [= _ _ ->]). auto.
  - apply block_ops_func in Ho as [_ Ho]. unfold op_graph in H. cbn [gapp g_stmts] in H.
    rewrite !elem_of_app in H. destruct H as [H|[H|H]].
    + exfalso. unfold table_edges in H. destruct (accesses_table o), (table_def o); by apply elem_of_nil in H.
    + apply stmts_results in H as [(_ & _ & [= _ _ ->])|[(_ & _ & ?)|(i & t & Hi & _ & [= -> -> ->])]];
        [by left|done|]. right. right. by exists o, i, t.
    + apply stmts_operands in H as [(_ & [= -> _ _])|(v' & _ & [= _ _ ->])]; auto.
Qed.

(** What the statements set, the map holds. *)
Lemma adj_sound u v w : MinCut.get myAdjList u v = Some w -> SetEdge u v w ∈ g_stmts build_graph.
Proof.
  intros [H|H]%get_exec_sound; [done|]. unfold MinCut.get in H. by rewrite lookup_empty in H.
Qed.

Lemma adj_inf u v : u <> globalSource -> (forall o i, u = opToVertex o -> v <> ValueVertex (OpResult (o_id o) i)) ->
  SetEdge u v INF_WT ∈ g_stmts build_graph -> MinCut.get myAdjList u v = Some INF_WT.
Proof.
  intros Hu Hv H. apply get_exec_complete; [|by left]. intros w Hw.
  apply stmt_weight in Hw as [?|[?|(o & i & t & _ & -> & -> & _)]]; [done..|]. by destruct (Hv o i).
Qed.

Lemma adj_dom u v w : SetEdge u v w ∈ g_stmts build_graph -> u ∈ dom myAdjList.
Proof. intros H. apply dom_exec. eauto. Qed.

Lemma adj_touch u : Touch u ∈ g_stmts build_graph -> u ∈ dom myAdjList.
Proof. intros H. apply dom_exec. eauto. Qed.

Lemma op_stmt b o st : b ∈ blocks -> o ∈ block_ops b -> st ∈ g_stmts (op_graph b o) -> st ∈ g_stmts build_graph.
Proof. intros Hb Ho H. apply stmts_build. do 4 right. exists b. split; [done|]. right. by exists o. Qed.

Lemma op_false b o e : b ∈ blocks -> o ∈ block_ops b -> e ∈ g_false (op_graph b o) -> e ∈ g_false build_graph.
Proof. intros Hb Ho H. apply false_build. right. exists b. split; [done|]. right. by exists o. Qed.

(** The infinite edges the argument uses. *)
Lemma value_to_user o v : o ∈ func_ops f -> v ∈ o_operands o -> o_kind o <> SinkOp ->
  MinCut.get myAdjList (ValueVertex v) (opToVertex o) = Some INF_WT.
Proof.
  intros Ho Hv Hk. apply func_ops_block in Ho as (b & Hb & Ho). apply adj_inf; [done|done|].
  eapply op_stmt; [done..|]. unfold op_graph. cbn [gapp g_stmts]. rewrite !elem_of_app. right. right.
  apply stmts_operands. right. exists v. split; [done|]. by destruct (o_kind o).
Qed.

Lemma user_to_def o d i o' : wf_func f -> o ∈ func_ops f -> o' ∈ func_ops f -> o_id o' = d ->
  OpResult d i ∈ o_operands o -> Edge (opToVertex o) (opToVertex o') INF_WT ∈ g_false build_graph.
Proof.
  intros Hf Ho Ho' Hd Hv. apply func_ops_block in Ho as (b & Hb & Ho).
  eapply op_false; [done..|]. unfold op_graph. cbn [gapp g_false]. rewrite !elem_of_app. right. right.
  apply false_operands. exists (OpResult d i). split; [done|]. unfold def_vertex.
  by rewrite (defining_op f d i o').
Qed.

Lemma import_to_value o i : wf_func f -> o ∈ func_ops f -> is_import o = true -> (i < length (o_results o))%nat ->
  use_empty f (OpResult (o_id o) i) = false ->
  MinCut.get myAdjList (opToVertex o) (ValueVertex (OpResult (o_id o) i)) = Some INF_WT.
Proof.
  intros Hf Ho Him [t Hi]%lookup_lt_is_Some Hu. apply get_exec_complete.
  - intros w Hw. apply stmt_weight in Hw as [?|[?|(o' & j & t' & Ho' & Eo & [= Ej ->] & _ & ->)]]; [done..|].
    assert (o' = o) as ->; [|by rewrite Him]. by apply (op_unique f).
  - left. apply func_ops_block in Ho as (b & Hb & Ho). eapply op_stmt; [done..|].
    unfold op_graph. cbn [gapp g_stmts]. rewrite !elem_of_app. right. left.
    apply stmts_results. right. right. exists i, t. by rewrite Him.
Qed.

Lemma return_to_sink o : o ∈ func_ops f -> o_kind o = ReturnOp -> o_results o = [] ->
  MinCut.get myAdjList (opToVertex o) globalSink = Some INF_WT.
Proof.
  intros Ho Hk Hr. apply func_ops_block in Ho as (b & Hb & Ho). apply adj_inf; [done|done|].
  eapply op_stmt; [done..|]. unfold op_graph. cbn [gapp g_stmts]. rewrite !elem_of_app. right. left.
  apply stmts_results. by left.
Qed.

(** ** The edges between blocks *)

Lemma preds_block b p : p ∈ preds f b -> p ∈ blocks.
Proof.
  unfold preds, blocks. rewrite list_elem_of_In, in_flat_map. intros ([q [args ops]] & Hq & Hp).
  apply in_combine_l in Hq. rewrite <- list_elem_of_In in Hq. cbn in *.
  apply in_flat_map in Hp as (o & _ & Hp). apply repeat_spec in Hp as ->. done.
Qed.

Lemma pred_false b p term : b ∈ blocks -> p ∈ preds f b -> terminator f p = Some term ->
  Edge (sourceMap b) (sinkMap p) INF_WT ∈ g_false build_graph.
Proof.
  intros Hb Hp Ht. apply false_build. right. exists b. split; [done|]. left. exists p. split; [done|].
  unfold pred_edges. rewrite Ht. by left.
Qed.

Lemma sink_false b o : b ∈ blocks -> o ∈ block_ops b -> o_results o = [] ->
  Edge (sinkMap b) (opToVertex o) INF_WT ∈ g_false build_graph.
Proof.
  intros Hb Ho Hr. eapply op_false; [done..|]. unfold op_graph. cbn [gapp g_false].
  rewrite !elem_of_app. right. left. unfold result_edges. rewrite Hr. by left.
Qed.

Lemma argument_false b o b' i : b ∈ blocks -> o ∈ block_ops b -> BlockArg b' i ∈ o_operands o ->
  Edge (opToVertex o) (sourceMap b) INF_WT ∈ g_false build_graph.
Proof.
  intros Hb Ho Hv. eapply op_false; [done..|]. unfold op_graph. cbn [gapp g_false].
  rewrite !elem_of_app. right. right. apply false_operands. by exists (BlockArg b' i).
Qed.

Lemma terminator_to_argument b p term i : b ∈ blocks -> p ∈ preds f b -> terminator f p = Some term ->
  (i < length (block_args b))%nat ->
  MinCut.get myAdjList (opToVertex term) (ValueVertex (BlockArg b i)) = Some INF_WT.
Proof.
  intros Hb Hp Ht Hi. apply adj_inf; [done|done|]. apply stmts_build. do 4 right. exists b.
  split; [done|]. left. exists p. split; [done|]. apply stmts_preds. by exists term, i.
Qed.

(** ** The graph is one the cut accepts *)

Context (Hf : wf_func f) (Ha : assertions = true).
Context (Hvw : forall v, 0 < valueWeight policy v) (How : forall o, 0 < operationWeight policy o).

Lemma closed_target u v w : MinCut.get myAdjList u v = Some w -> v ∈ dom myAdjList.
Proof.
  intros H. unfold assertions in Ha. rewrite !andb_true_iff in Ha. destruct Ha as [_ Hc].
  rewrite forallb_forall in Hc. specialize (Hc (Edge u v w)).
  apply bool_decide_eq_true in Hc; [done|]. rewrite <- list_elem_of_In. by apply elem_of_base_edges.
Qed.

Lemma some_target u v w : SetEdge u v w ∈ g_stmts build_graph -> v ∈ dom myAdjList.
Proof.
  intros H. assert (exists w', MinCut.get myAdjList u v = Some w') as [w' Hw'].
  { unfold myAdjList. revert H. generalize (g_stmts build_graph) as l. intros l. generalize (∅ : gmap vertex (gmap vertex Z)) as g0.
    induction l as [|st l IH] using rev_ind; intros g0; [by intros ?%elem_of_nil|].
    rewrite fold_left_app. cbn [fold_left]. setoid_rewrite get_exec_stmt.
    intros [H|H]%elem_of_app.
    - destruct (IH g0 H) as [w' Hw']. destruct st; [case_decide|]; eauto.
    - apply list_elem_of_singleton in H as <-. rewrite decide_True by done. eauto. }
  by eapply closed_target.
Qed.

Lemma no_results_dom b o : b ∈ blocks -> o ∈ block_ops b -> o_results o = [] -> opToVertex o ∈ dom myAdjList.
Proof.
  intros Hb Ho Hr. destruct (decide (o_kind o = ReturnOp)) as [Hk|Hk].
  - eapply adj_dom, (op_stmt b o); [done..|]. unfold op_graph. cbn [gapp g_stmts]. rewrite !elem_of_app.
    right. left. apply stmts_results. by left.
  - apply adj_touch, (op_stmt b o); [done..|]. unfold op_graph. cbn [gapp g_stmts]. rewrite !elem_of_app.
    right. left. apply stmts_results. right. by left.
Qed.

Lemma operand_dom b o v : b ∈ blocks -> o ∈ block_ops b -> v ∈ o_operands o -> opToVertex o ∈ dom myAdjList.
Proof.
  intros Hb Ho Hv. eapply some_target, (op_stmt b o); [done..|]. unfold op_graph. cbn [gapp g_stmts].
  rewrite !elem_of_app. right. right. apply stmts_operands. right. by exists v.
Qed.

Lemma defining_op_in v d : getDefiningOp f v = Some d -> d ∈ func_ops f.
Proof. destruct v; cbn; [done|]. intros [H _]%find_some. by apply list_elem_of_In. Qed.

Lemma defining_dom o v d : o ∈ func_ops f -> v ∈ o_operands o -> getDefiningOp f v = Some d ->
  opToVertex d ∈ dom myAdjList.
Proof.
  intros Ho Hv Hd. pose proof (wf_values f Hf o v Ho Hv) as Hw. destruct v as [b i|x i]; [done|].
  destruct Hw as (o' & Ho' & Hx & Hi). rewrite (defining_op f x i o') in Hd by done. injection Hd as <-.
  apply lookup_lt_is_Some in Hi as [t Hi]. apply func_ops_block in Ho' as Hb. destruct Hb as (b & Hb & Hob).
  eapply adj_dom, (op_stmt b o'); [done..|]. unfold op_graph. cbn [gapp g_stmts]. rewrite !elem_of_app.
  right. left. apply stmts_results. right. right. exists i, t. split; [done|]. split; [|done].
  apply not_true_iff_false. intros Hu. rewrite use_empty_spec in Hu. apply (Hu o Ho). by rewrite Hx.
Qed.

Lemma frame_dom b : b ∈ blocks -> sourceMap b ∈ dom myAdjList /\ sinkMap b ∈ dom myAdjList.
Proof.
  intros Hb. split; apply adj_touch, stmts_build; do 2 right; left; exists b; auto.
Qed.

Lemma def_vertex_dom b o v : b ∈ blocks -> o ∈ block_ops b -> v ∈ o_operands o -> def_vertex b v ∈ dom myAdjList.
Proof.
  intros Hb Ho Hv. unfold def_vertex. destruct (getDefiningOp f v) as [d|] eqn:Ed; cbn [from_option]; [|by apply frame_dom].
  apply (defining_dom o v); [|done..]. by apply block_ops_func in Ho as [_ Ho].
Qed.

Lemma false_ok e : e ∈ g_false build_graph ->
  0 <= e_cap e /\ e_src e ∈ dom myAdjList /\ e_dst e ∈ dom myAdjList.
Proof.
  rewrite false_build. intros [(b & Hb & He)|(b & Hb & [(p & Hp & He)|(o & Ho & He)])].
  - pose proof (frame_dom b Hb). assert (globalSource ∈ dom myAdjList) by (apply adj_touch, stmts_build; auto).
    assert (globalSink ∈ dom myAdjList) by (apply adj_touch, stmts_build; auto).
    unfold block_frame in He. cbn [g_false] in He. rewrite elem_of_app in He.
    destruct He as [He|He]; case_bool_decide; try (by apply elem_of_nil in He);
      apply list_elem_of_singleton in He as ->; cbn [e_cap e_src e_dst]; (split; [done|tauto]).
  - unfold pred_edges in He. destruct (terminator f p); [|by apply elem_of_nil in He].
    apply list_elem_of_singleton in He as ->. cbn. split; [done|].
    split; [by apply frame_dom|]. eapply frame_dom, preds_block; done.
  - unfold op_graph in He. cbn [gapp g_false] in He. rewrite !elem_of_app in He. destruct He as [He|[He|He]].
    + unfold table_edges in He. destruct (accesses_table o); [|by apply elem_of_nil in He].
      unfold table_def in He. destruct (o_operands o) as [|v vs] eqn:Eo; cbn in He; [by apply elem_of_nil in He|].
      destruct (getDefiningOp f v) as [d|] eqn:Ed; [|by apply elem_of_nil in He].
      assert (Hv : v ∈ o_operands o) by (rewrite Eo; by left).
      apply list_elem_of_singleton in He as ->. cbn. split; [done|]. split; [by eapply operand_dom|].
      apply (defining_dom o v); [by apply block_ops_func in Ho as [_ Ho]|done..].
    + unfold result_edges in He. destruct (o_results o) eqn:Er; [|by apply elem_of_nil in He].
      apply list_elem_of_singleton in He as ->. cbn. split; [done|]. split; [by apply frame_dom|].
      by apply (no_results_dom b).
    + apply false_operands in He as (v & Hv & ->). cbn. split; [done|].
      split; [by eapply operand_dom|by eapply def_vertex_dom].
Qed.

Lemma op_vertex_in x : OpVertex x ∈ dom myAdjList -> exists o, o ∈ func_ops f /\ o_id o = x.
Proof.
  intros H. apply dom_exec in H as [H|H]; [by rewrite dom_empty in H|].
  assert (exists st, st ∈ g_stmts build_graph /\
    match st with Touch u => u = OpVertex x | SetEdge u _ _ => u = OpVertex x end) as (st & Hst & Hx).
  { destruct H as [H|(v & w & H)]; [by exists (Touch (OpVertex x))|by exists (SetEdge (OpVertex x) v w)]. }
  clear H. apply stmts_build in Hst as [->|[->|[(b & _ & [->| ->])|[H|(b & _ & [(p & _ & H)|(o & Ho & H)])]]]]; try done.
  - apply list_elem_of_lookup in H as [i Hi]. cbn in Hi. rewrite list_lookup_imap in Hi.
    destruct (block_args 0 !! i); [|done]. by injection Hi as <-.
  - apply stmts_preds in H as (term & i & Ht & _ & ->). exists term. injection Hx as <-. split; [|done].
    by eapply block_ops_func, terminator_op.
  - apply block_ops_func in Ho as [_ Ho]. unfold op_graph in H. cbn [gapp g_stmts] in H.
    rewrite !elem_of_app in H. destruct H as [H|[H|H]].
    + unfold table_edges in H. by destruct (accesses_table o), (table_def o); apply elem_of_nil in H.
    + exists o. apply stmts_results in H as [(_ & _ & ->)|[(_ & _ & ->)|(i & t & _ & _ & ->)]]; by injection Hx.
    + apply stmts_operands in H as [(_ & ->)|(v & _ & ->)]; [done|].
      destruct (o_kind o); try done. destruct (getDefiningOp f v) as [d|] eqn:Ed; [|done].
      exists d. injection Hx as <-. split; [|done]. by eapply defining_op_in.
Qed.

Lemma graph_is_ok : graph_ok globalSource globalSink (g_false build_graph) vtxWeights myAdjList.
Proof.
  split.
  - intros u v c H. split; [by eapply adj_dom, adj_sound|by eapply closed_target].
  - apply adj_touch, stmts_build. auto.
  - apply adj_touch, stmts_build. auto.
  - intros v Hv. unfold vertex_weight, vtxWeights. rewrite map_lookup_imap.
    pose proof Hv as [m Hm]%elem_of_dom. rewrite Hm. cbn. destruct v as [n|x|v]; cbn; [done| |done].
    apply op_vertex_in in Hv as (o & Ho & <-). rewrite find_op by done. apply How.
  - apply Forall_forall. intros e He. apply false_ok. by first [done | apply list_elem_of_In].
Qed.

Context `{!FlowSolver push_relabel_max_flow}.

(** A cut that is returned is one the loop found. *)
Lemma try_cuts_done n i last S r : try_cuts n i last = (CutDone S, r) ->
  fst last = CutDone S \/ exists j r0, one_cut j r0 = (CutDone S, r).
Proof.
  revert i last. induction n as [|n IH]; intros i last; cbn [try_cuts]; [intros ->; by left|].
  destruct (one_cut i (snd last)) as [c r1] eqn:E. cbn [fst].
  destruct c as [S'|rc| |]; try (intros [= <- <-]; right; eauto; done).
  intros [H|H]%IH; [done|by right].
Qed.

Lemma pipelineHandler_cut r r' ops vals : pipelineHandler r = (PCut ops vals, r') ->
  exists S frac, ops = sink_ops S /\ vals = sink_values S /\ r' = Some frac /\
    cut_ok globalSource globalSink (f32_of_f64 (tolerance policy)) (sourceWeight policy)
      (g_false build_graph) vtxWeights (g_constraints build_graph) myAdjList S frac.
Proof.
  unfold pipelineHandler. destruct (_ || _); [done|]. rewrite Ha. cbn [negb].
  destruct (try_cuts _ _ _) as [c rr] eqn:E. cbn [fst snd].
  destruct c as [S|rc| |]; [|by destruct (errMsgs !! _)|done..].
  intros [= <- <- <-]. apply try_cuts_done in E as [?|(j & r0 & E)]; [done|].
  exists S. unfold one_cut in E. eapply run_sound in E as (frac & -> & Hc); [by exists frac|..];
    first [apply _|done|apply graph_is_ok].
Qed.

Lemma elem_of_sink_ops S o : o ∈ func_ops f -> o_id o ∈ sink_ops S <-> opToVertex o ∉ S.
Proof.
  intros Ho. unfold sink_ops. rewrite elem_of_list_to_set, list_elem_of_omap. split.
  - intros (o' & Ho' & E). case_decide as Hd; [done|]. injection E as E.
    by rewrite <- (op_unique f o' o).
  - intros Hn. exists o. by rewrite decide_False.
Qed.

(** The stages of a cut. *)
Record stages (ops : gset nat) (vals : gset value) : Prop := Stages {
  st_forward : forall o o' i, o ∈ func_ops f -> o' ∈ func_ops f ->
    OpResult (o_id o') i ∈ o_operands o -> o_id o' ∈ ops -> o_id o ∈ ops;
  st_values : forall o o' i, o ∈ func_ops f -> o' ∈ func_ops f -> o_kind o <> SinkOp ->
    OpResult (o_id o') i ∈ o_operands o -> o_id o ∈ ops -> OpResult (o_id o') i ∈ vals;
  st_tables : forall o imp i, o ∈ func_ops f -> imp ∈ func_ops f -> is_import imp = true -> o_kind o <> SinkOp ->
    OpResult (o_id imp) i ∈ o_operands o -> o_id o ∈ ops <-> o_id imp ∈ ops;
  st_returns : forall o, o ∈ func_ops f -> o_kind o = ReturnOp -> o_results o = [] -> o_id o ∈ ops;
  st_branches : forall b p term o i, b ∈ blocks -> p ∈ preds f b -> terminator f p = Some term ->
    o ∈ block_ops b -> o_kind o <> SinkOp -> BlockArg b i ∈ o_operands o ->
    o_id o ∈ ops <-> o_id term ∈ ops }.

Lemma branch_terminator b p term : b ∈ blocks -> p ∈ preds f b -> terminator f p = Some term ->
  term ∈ func_ops f /\ p ∈ blocks /\ term ∈ block_ops p /\ o_results term = [].
Proof.
  intros Hb Hp Ht. apply terminator_op in Ht as Hop. apply block_ops_func in Hop as Hpf.
  destruct Hpf as [Hpb Hin]. split_and!; [done..|]. apply (wf_branches f Hf); [done|].
  unfold assertions in Ha. rewrite !andb_true_iff in Ha. destruct Ha as [[[[Hbr _] _] _] _].
  rewrite forallb_forall in Hbr. specialize (Hbr b). rewrite <- list_elem_of_In in Hbr.
  specialize (Hbr Hb). rewrite forallb_forall in Hbr. specialize (Hbr p).
  rewrite <- list_elem_of_In in Hbr. specialize (Hbr Hp). by rewrite Ht in Hbr.
Qed.

Lemma valid_cut_stages S :
  valid_cut globalSource globalSink (g_false build_graph) (g_constraints build_graph) myAdjList S ->
  stages (sink_ops S) (sink_values S).
Proof.
  intros Hv.
  assert (Hinf : INF_MIN <= INF_WT) by (unfold INF_MIN, INF_WT; lia).
  assert (Hdef : forall o o' i, o ∈ func_ops f -> o' ∈ func_ops f -> OpResult (o_id o') i ∈ o_operands o ->
            opToVertex o ∈ S -> opToVertex o' ∈ S).
  { intros o o' i Ho Ho' Hi Hs.
    apply (vc_false _ _ _ _ _ _ Hv (Edge (opToVertex o) (opToVertex o') INF_WT)); [|done..].
    by apply (user_to_def o (o_id o') i). }
  assert (Huse : forall o v, o ∈ func_ops f -> v ∈ o_operands o -> o_kind o <> SinkOp ->
            ValueVertex v ∈ S -> opToVertex o ∈ S).
  { intros o v Ho Hvo Hk. by apply (vc_edges _ _ _ _ _ _ Hv _ _ INF_WT); [apply value_to_user|]. }
  assert (Hindex : forall o o' i, o ∈ func_ops f -> o' ∈ func_ops f -> OpResult (o_id o') i ∈ o_operands o ->
            (i < length (o_results o'))%nat).
  { intros o o' i Ho Ho' Hi. destruct (wf_values f Hf o _ Ho Hi) as (o'' & Ho'' & E & Hlt).
    by rewrite <- (op_unique f o'' o'). }
  split.
  - intros o o' i Ho Ho' Hi. rewrite !elem_of_sink_ops by done. intros Hn Hs. apply Hn. by apply (Hdef o o' i).
  - intros o o' i Ho Ho' Hk Hi. rewrite elem_of_sink_ops by done. intros Hn.
    unfold sink_values. rewrite elem_of_list_to_set, list_elem_of_In, in_flat_map. exists o'.
    rewrite <- !list_elem_of_In. split; [done|].
    assert (Hin : OpResult (o_id o') i ∈ op_results o').
    { pose proof (Hindex o o' i Ho Ho' Hi) as [t Ht]%lookup_lt_is_Some.
      apply (list_elem_of_lookup_2 _ i). unfold op_results. by rewrite list_lookup_imap, Ht. }
    case_decide; [|done]. apply list_elem_of_filter. split; [|done]. intros Hs. apply Hn. by eapply Huse.
  - intros o imp i Ho Hi Him Hk Hop. rewrite !elem_of_sink_ops by done.
    assert (Himp : opToVertex imp ∈ S -> opToVertex o ∈ S).
    { intros Hs. eapply (Huse o); [done..|].
      apply (vc_edges _ _ _ _ _ _ Hv (opToVertex imp) _ INF_WT); [|done..].
      apply import_to_value; [done..|by apply (Hindex o imp)|].
      apply not_true_iff_false. intros Hu. rewrite use_empty_spec in Hu. by apply (Hu o). }
    pose proof (Hdef o imp i Ho Hi Hop). tauto.
  - intros o Ho Hk Hr. rewrite elem_of_sink_ops by done. intros Hs.
    apply (vc_sink _ _ _ _ _ _ Hv). apply (vc_edges _ _ _ _ _ _ Hv (opToVertex o) _ INF_WT); [|done..].
    by apply return_to_sink.
  - intros b p term o i Hb Hp Ht Ho Hk Hi. apply block_ops_func in Ho as Hof. destruct Hof as [_ Hof].
    destruct (branch_terminator b p term Hb Hp Ht) as (Htf & Hpb & Htb & Htr).
    rewrite !elem_of_sink_ops by done.
    assert (H1 : opToVertex o ∈ S -> opToVertex term ∈ S).
    { intros Hs. apply (vc_false _ _ _ _ _ _ Hv (Edge (sinkMap p) (opToVertex term) INF_WT));
        [by apply sink_false|done|]. cbn.
      apply (vc_false _ _ _ _ _ _ Hv (Edge (sourceMap b) (sinkMap p) INF_WT));
        [by eapply pred_false|done|]. cbn.
      apply (vc_false _ _ _ _ _ _ Hv (Edge (opToVertex o) (sourceMap b) INF_WT)); [|done..].
      by apply (argument_false b o b i). }
    assert (H2 : opToVertex term ∈ S -> opToVertex o ∈ S).
    { intros Hs. eapply (Huse o); [done..|].
      apply (vc_edges _ _ _ _ _ _ Hv (opToVertex term) _ INF_WT); [|done..].
      apply (terminator_to_argument b p); [done..|].
      destruct (wf_values f Hf o _ Hof Hi) as (bl & Hbl & Hlt). unfold block_args. by rewrite Hbl. }
    tauto.
Qed.
End Build.
End Pipeline.
