(* ===== verification/Split.v ===== *)
(** Splitting a handler in two: functionSplitter of
    src/lib/ep2/Passes/Conversion/SplitFunction.cpp, and what it means: the two handlers
    one after the other do what the original does.

    A clone keeps the identities of its operations, so "sink" marks are a set of
    identities; [None] is an assertion of MLIR that fails (an operation erased while its
    results are used).  The order in which a DenseSet lists the transferred values is a
    parameter. *)
From Stdlib Require Import ZArith Lia List String.
From stdpp Require Import base list numbers option gmap sets strings countable.
From S2P Require Import Prelude Flow MinCut Ir Pipeline.
Import Ir.
#[local] Open Scope Z_scope.

Module Split.

(** ** Editing a function *)

Definition map_blocks (h : block -> block) (f : func) : func :=
  Func (f_name f) (f_attrs f) (map h (f_blocks f)).
Definition map_ops (h : op -> op) : func -> func :=
  map_blocks (fun b => Block (b_args b) (map h (b_ops b))).
Definition filter_ops (keep : op -> bool) : func -> func :=
  map_blocks (fun b => Block (b_args b) (List.filter keep (b_ops b))).
Definition map_operands (h : value -> value) (o : op) : op :=
  Op (o_id o) (o_kind o) (map h (o_operands o)) (o_results o) (o_succs o).
Definition map_succs (h : nat -> nat) (o : op) : op :=
  Op (o_id o) (o_kind o) (o_operands o) (o_results o) (map h (o_succs o)).

Definition setName (n : string) (f : func) : func := Func n (f_attrs f) (f_blocks f).
Definition setAttr (k : string) (a : attr) (f : func) : func :=
  Func (f_name f) (<[k := a]> (f_attrs f)) (f_blocks f).

Definition replaceAllUsesWith (f : func) (v w : value) : func :=
  map_ops (map_operands (fun x => if decide (x = v) then w else x)) f.

Definition uses_result (d : nat) (v : value) : bool :=
  match v with OpResult o _ => Nat.eqb o d | BlockArg _ _ => false end.
(** [op->erase()] *)
Definition erase_op (f : func) (d : nat) : option func :=
  if existsb (fun o => existsb (uses_result d) (o_operands o)) (func_ops f) then None
  else Some (filter_ops (fun o => negb (Nat.eqb (o_id o) d)) f).

(** eraseOpsIf: from the last one to the first *)
Definition eraseOpsIf (pred : op -> bool) (f : func) : option func :=
  fold_right (fun d acc => f' ← acc; erase_op f' d) (Some f) (map o_id (List.filter pred (func_ops f))).

(** [entryBlock.addArguments(argTypes, locs)] *)
Definition addArguments (tys : list ty) (f : func) : func :=
  match f_blocks f with
  | [] => f
  | Block args ops :: bs => Func (f_name f) (f_attrs f) (Block (args ++ tys) ops :: bs)
  end.

(** [entryBlock.eraseArguments(0, n)] *)
Definition uses_old_arg (n : nat) (v : value) : bool :=
  match v with BlockArg 0 i => Nat.ltb i n | _ => false end.
Definition shift_arg (n : nat) (v : value) : value :=
  match v with BlockArg 0 i => BlockArg 0 (i - n) | _ => v end.
Definition eraseArguments (n : nat) (f : func) : option func :=
  if existsb (fun o => existsb (uses_old_arg n) (o_operands o)) (func_ops f) then None
  else match f_blocks f with
       | [] => None
       | Block args ops :: bs =>
           Some (map_ops (map_operands (shift_arg n))
                   (Func (f_name f) (f_attrs f) (Block (drop n args) ops :: bs)))
       end.

Definition fresh (f : func) : nat := S (list_max (map o_id (func_ops f))).

Definition is_terminator (o : op) : bool :=
  match o_kind o with TerminateOp | BranchOp | CondBranchOp => true | _ => false end.

(** Appending to the last block. *)
Fixpoint on_last {A} (h : A -> A) (l : list A) : list A :=
  match l with [] => [] | [x] => [h x] | x :: l' => x :: on_last h l' end.

Definition tryAddTerminator (f : func) : func :=
  match list.last (f_blocks f) with
  | Some b =>
      if from_option is_terminator false (list.last (b_ops b)) then f
      else Func (f_name f) (f_attrs f)
             (on_last (fun b => Block (b_args b) (b_ops b ++ [Op (fresh f) TerminateOp [] [] []])) (f_blocks f))
  | None => f
  end.

(** ** Empty blocks *)

(** Moving block [i]'s operations to the end of the block before. *)
Definition merge_block (i : nat) (f : func) : func :=
  match f_blocks f !! i, f_blocks f !! pred i with
  | Some b, Some p =>
      Func (f_name f) (f_attrs f)
        (<[i := Block (b_args b) []]> (<[pred i := Block (b_args p) (b_ops p ++ b_ops b)]> (f_blocks f)))
  | _, _ => f
  end.

(** [block->erase()]: the blocks after it move down by one. *)
Definition erase_block (i : nat) (f : func) : option func :=
  if existsb (fun o => existsb (fun v => match v with BlockArg b _ => Nat.eqb b i | _ => false end) (o_operands o)
                       || existsb (Nat.eqb i) (o_succs o)) (func_ops f) then None
  else
    let down := fun b => if Nat.ltb i b then pred b else b in
    Some (map_ops (fun o => map_succs down (map_operands (fun v =>
            match v with BlockArg b k => BlockArg (down b) k | _ => v end) o))
         (Func (f_name f) (f_attrs f) (delete i (f_blocks f)))).

Definition collapse_block (i : nat) (f : func) : option func :=
  let f := if bool_decide (preds f i = []) then merge_block i f else f in
  match f_blocks f !! i with
  | Some (Block _ []) => erase_block i f
  | _ => Some f
  end.

(** [for (int i = blocks.size() - 1; i > 0; i--)] *)
Definition removeEmptyBlocks (f : func) : option func :=
  fold_right (fun i acc => f' ← acc; collapse_block i f') (Some f) (seq 1 (pred (length (f_blocks f)))).

(** ** functionSplitter *)

Definition inSink (sink : gset nat) (o : op) : bool := bool_decide (o_id o ∈ sink).
Definition value_inSink (sink : gset nat) (v : value) : bool :=
  match v with BlockArg _ _ => false | OpResult o _ => bool_decide (o ∈ sink) end.

Definition getValuesToTransfer (sink : gset nat) (f : func) : gset value :=
  list_to_set (flat_map (fun o => if inSink sink o
                 then List.filter (fun v => negb (value_inSink sink v)) (o_operands o) else [])
               (func_ops f)).

Definition value_type (f : func) (v : value) : ty :=
  match v with
  | BlockArg b i => default AnyType (bl ← f_blocks f !! b; b_args bl !! i)
  | OpResult d i => default AnyType (o ← List.find (fun o => Nat.eqb (o_id o) d) (func_ops f); o_results o !! i)
  end.

(** An event with the values, and its return, before the last block's terminator. *)
Definition createGenerate (f : func) (name : string) (values : list value) : option func :=
  b ← list.last (f_blocks f);
  t ← list.last (b_ops b);
  if negb (is_terminator t) then None else
  let initOp := Op (fresh f) InitOp values [StructType true (map (value_type f) values) name] [] in
  let returnOp := Op (S (fresh f)) ReturnOp [OpResult (fresh f) 0] [] [] in
  Some (Func (f_name f) (f_attrs f)
    (on_last (fun b => Block (b_args b) (removelast (b_ops b) ++ [initOp; returnOp; t])) (f_blocks f))).

Section Splitter.
Context (to_vector : gset value -> list value).

(** The index is an [int], and wraps around as one. *)
Definition to_int (n : Z) : Z := s32 (wrap 32 n).

Definition generationIndex (f : func) : Z :=
  match f_attrs f !! "generationIndex"%string with Some (IntegerAttr n) => to_int n | _ => 1 end.

Definition entry_args (f : func) : list ty := from_option b_args [] (hd_error (f_blocks f)).

(** The function with the body of [copyFunc]. *)
Definition make_sink (sink : gset nat) (name : string) (gen : Z) (values : list value) (copyFunc : func) : option func :=
  let argTypes := map (value_type copyFunc) values in
  let sinkFunc := Func name {[ "type"%string := StringAttr "handler" ]} (f_blocks copyFunc) in
  let numOldArgs := length (entry_args sinkFunc) in
  let sinkFunc := addArguments argTypes sinkFunc in
  let sinkFunc := fold_left (fun f (p : nat * value) => replaceAllUsesWith f p.2 (BlockArg 0 (numOldArgs + p.1)))
                    (imap pair values) sinkFunc in
  sinkFunc ← eraseOpsIf (fun o => negb (inSink sink o)) sinkFunc;
  sinkFunc ← eraseArguments numOldArgs sinkFunc;
  Some (setAttr "generationIndex" (IntegerAttr (to_int (gen * 2 + 1))) (tryAddTerminator sinkFunc)).

Definition make_source (sink : gset nat) (name : string) (gen : Z) (copyFunc : func) : option func :=
  sourceFunc ← eraseOpsIf (inSink sink) (setName name copyFunc);
  Some (setAttr "generationIndex" (IntegerAttr (to_int (gen * 2))) (tryAddTerminator sourceFunc)).

(** The source and the sink, and the function itself, whose empty blocks go too. *)
Definition functionSplitter (f : func) (sinkOps : gset nat) : option (func * func * func) :=
  let sink := sinkOps ∩ list_to_set (map o_id (func_ops f)) in
  let sinkFuncName := (f_name f ++ "_sink")%string in
  let sourceFuncName := (f_name f ++ "_source")%string in
  let valuesVector := to_vector (getValuesToTransfer sink f) in
  copyFunc ← createGenerate f sinkFuncName valuesVector;
  sinkFunc ← make_sink sink sinkFuncName (generationIndex f) valuesVector copyFunc;
  sourceFunc ← make_source sink sourceFuncName (generationIndex f) copyFunc;
  f' ← removeEmptyBlocks f;
  sinkFunc ← removeEmptyBlocks sinkFunc;
  sourceFunc ← removeEmptyBlocks sourceFunc;
  Some (sourceFunc, sinkFunc, f').
End Splitter.
End Split.
