(* ===== verification/SplitSem.v ===== *)
(** What a straight-line handler means, and why its operations may be reordered into two
    stages.

    The operations of the dialect act on values and on a world; what they compute is a
    parameter [sem].  Events, returns and imported tables have the meaning the splitter
    relies on.  [exec_stages] is the reordering, [exec_stage_sim] the second stage on
    its own. *)
From Stdlib Require Import ZArith Lia List String.
From stdpp Require Import base list numbers option gmap sets strings countable.
From S2P Require Import Prelude Flow MinCut Ir Pipeline Split.
Import Ir Split.
#[local] Open Scope nat_scope.

Module SplitSem.

Section Sem.
Context {D St : Type}.

Inductive rval := Data (d : D) | TableRef (name : string) | Event (name : string) (args : list rval).

Context (sem : op_kind -> list ty -> list rval -> St -> option (list rval * St)).

(** The results of an operation, the events it sends and the world it leaves. *)
Definition effect (o : op) (args : list rval) (w : St) : option (list rval * list rval * St) :=
  match o_kind o, o_results o with
  | InitOp, [StructType true _ name] => Some ([Event name args], [], w)
  | ReturnOp, _ => Some ([], args, w)
  | GlobalImportOp name, _ => Some ([TableRef name], [], w)
  | k, tys => '(rs, w') ← sem k tys args w; Some (rs, [], w')
  end.

Lemma effect_sent o args w rs out w' : o_kind o <> ReturnOp -> effect o args w = Some (rs, out, w') -> out = [].
Proof.
  assert (Hsem : forall k tys, ('(rs, w') ← sem k tys args w; Some (rs, [], w')) = Some (rs, out, w') -> out = []).
  { intros k tys. destruct (sem k tys args w) as [[rs1 w1]|]; cbn; [|done]. congruence. }
  intros Hk He. unfold effect in He.
  destruct (o_kind o); try done; try (by eapply Hsem); [congruence|].
  destruct (o_results o) as [|[] [|? ?]]; try (by eapply Hsem).
  - destruct isEvent; [congruence|by eapply Hsem].
  - destruct isEvent; by eapply Hsem.
Qed.

Record state := State { env : gmap value rval; world : St; sent : list rval }.

Fixpoint bind_from (d i : nat) (rs : list rval) (e : gmap value rval) : gmap value rval :=
  match rs with [] => e | r :: rs' => <[OpResult d i := r]> (bind_from d (S i) rs' e) end.

Definition read (e : gmap value rval) (vs : list value) : option (list rval) := mapM (fun v => e !! v) vs.

Definition step (o : op) (s : state) : option state :=
  args ← read (env s) (o_operands o);
  '(rs, out, w) ← effect o args (world s);
  if decide (length rs = length (o_results o))
  then Some (State (bind_from (o_id o) 0 rs (env s)) w (sent s ++ out)) else None.

Fixpoint exec (l : list op) (s : state) : option state :=
  match l with [] => Some s | o :: l' => s' ← step o s; exec l' s' end.

(** Execution ends at the first [TerminateOp]. *)
Fixpoint before_terminate (l : list op) : list op :=
  match l with
  | [] => []
  | o :: l' => match o_kind o with TerminateOp => [] | _ => o :: before_terminate l' end
  end.

Definition args_env (args : list rval) : gmap value rval :=
  list_to_map (imap (fun i a => (BlockArg 0 i, a)) args).

(** A handler of one block, on the values of its event: the events it sends and the
    world after it. *)
Definition run_func (f : func) (args : list rval) (w : St) : option (list rval * St) :=
  match f_blocks f with
  | [Block tys ops] =>
      if decide (length args = length tys)
      then s ← exec (before_terminate ops) (State (args_env args) w []); Some (sent s, world s)
      else None
  | _ => None
  end.

(** The first stage sends one event, which starts the second. *)
Definition run_stages (source sink : func) (args : list rval) (w : St) : option (list rval * St) :=
  '(out, w1) ← run_func source args w;
  match out with
  | [Event name vs] => if decide (name = f_name sink) then run_func sink vs w1 else None
  | _ => None
  end.

(** ** Environments *)

Lemma lookup_bind d i rs e v : bind_from d i rs e !! v =
  match v with
  | OpResult d' k => if decide (d' = d /\ i <= k) then (match rs !! (k - i) with Some r => Some r | None => e !! v end)
                     else e !! v
  | _ => e !! v
  end.
Proof.
  revert i. induction rs as [|r rs IH]; intros i; cbn [bind_from].
  - destruct v; [done|]. by case_decide.
  - destruct (decide (v = OpResult d i)) as [->|Hv].
    + rewrite lookup_insert_eq. rewrite decide_True by (split; [done|lia]). by rewrite Nat.sub_diag.
    + rewrite lookup_insert_ne by done. rewrite IH. destruct v as [b k|d' k]; [done|].
      destruct (decide (d' = d /\ i <= k)) as [[-> Hk]|Hn].
      * assert (i <> k) by naive_solver. rewrite decide_True by (split; [done|lia]).
        replace (k - i) with (S (k - S i)) by lia. done.
      * rewrite decide_False; [done|]. intros [-> ?]. apply Hn. split; [done|lia].
Qed.

Lemma lookup_bind_ne d i rs e v : (forall k, v <> OpResult d k) -> bind_from d i rs e !! v = e !! v.
Proof. intros Hv. rewrite lookup_bind. destruct v; [done|]. rewrite decide_False; [done|]. naive_solver. Qed.

Lemma bind_comm d1 d2 rs1 rs2 e : d1 <> d2 ->
  bind_from d1 0 rs1 (bind_from d2 0 rs2 e) = bind_from d2 0 rs2 (bind_from d1 0 rs1 e).
Proof.
  intros Hd. apply map_eq. intros v. rewrite !lookup_bind. destruct v as [b k|d k]; [done|].
  destruct (decide (d = d1 /\ 0 <= k)) as [[E1 ?]|], (decide (d = d2 /\ 0 <= k)) as [[E2 ?]|];
    [by rewrite E1 in E2|done..].
Qed.

Lemma read_ext (e e' : gmap value rval) vs : (forall v, v ∈ vs -> e !! v = e' !! v) -> read e vs = read e' vs.
Proof. intros H. apply Forall_mapM_ext, list.Forall_forall. done. Qed.

Lemma read_bind d rs e vs : (forall k, OpResult d k ∉ vs) -> read (bind_from d 0 rs e) vs = read e vs.
Proof. intros H. apply read_ext. intros v Hv. apply lookup_bind_ne. intros k ->. by apply (H k). Qed.

Lemma read_some e vs rs : read e vs = Some rs -> forall v, v ∈ vs -> is_Some (e !! v).
Proof.
  intros H v Hv. assert (H' : is_Some (read e vs)) by by rewrite H.
  apply mapM_is_Some_1 in H'. rewrite list.Forall_forall in H'. by apply H'.
Qed.

Lemma exec_app l1 l2 s : exec (l1 ++ l2) s = s' ← exec l1 s; exec l2 s'.
Proof. revert s. induction l1 as [|o l1 IH]; intros s; cbn; [done|]. destruct (step o s); cbn; [apply IH|done]. Qed.

Lemma step_env o s s' v : step o s = Some s' -> (forall k, v <> OpResult (o_id o) k) -> env s' !! v = env s !! v.
Proof.
  unfold step. destruct (read _ _); cbn; [|done]. destruct (effect _ _ _) as [[[rs out] w]|]; cbn; [|done].
  case_decide; [|done]. intros [= <-] Hv. cbn. by apply lookup_bind_ne.
Qed.

Lemma exec_frame l s s' v : exec l s = Some s' -> (forall o k, o ∈ l -> v <> OpResult (o_id o) k) ->
  env s' !! v = env s !! v.
Proof.
  revert s. induction l as [|o l IH]; intros s; cbn; [by intros [= <-]|].
  destruct (step o s) as [s1|] eqn:E; cbn; [|done]. intros H Hv.
  rewrite (IH s1) by (done || (intros o' k Ho; apply Hv; by right)).
  eapply step_env; [done|]. intros k. apply Hv. by left.
Qed.

(** What is read from outside has a value. *)
Lemma exec_reads l s s' o v : exec l s = Some s' -> o ∈ l -> v ∈ o_operands o ->
  (forall o' k, o' ∈ l -> v <> OpResult (o_id o') k) -> is_Some (env s !! v).
Proof.
  revert s. induction l as [|a l IH]; intros s; cbn; [by intros _ ?%elem_of_nil|].
  destruct (step a s) as [s1|] eqn:E; cbn; [|done]. intros H [->|Ho]%elem_of_cons Hv Hn.
  - unfold step in E. destruct (read _ _) as [args|] eqn:Er; [|done]. by eapply read_some.
  - rewrite <- (step_env a s s1 v); [|done|intros k; apply Hn; by left].
    apply IH; [done..|]. intros o' k ?. apply Hn. by right.
Qed.

(** ** Reordering *)

Section Reorder.
Context (Inv : gmap value rval -> Prop) (all : list op).
Hypothesis Inv_step : forall o s s', o ∈ all -> step o s = Some s' -> Inv (env s) -> Inv (env s').

(** [o1] then [o2] may be [o2] then [o1]. *)
Record swappable (o1 o2 : op) : Prop := Swappable {
  sw_ids : o_id o1 <> o_id o2;
  sw_12 : forall k, OpResult (o_id o1) k ∉ o_operands o2;
  sw_21 : forall k, OpResult (o_id o2) k ∉ o_operands o1;
  sw_effect : forall e a1 a2 w r1 out1 w1 r2 out2 w2, Inv e ->
    read e (o_operands o1) = Some a1 -> read e (o_operands o2) = Some a2 ->
    effect o1 a1 w = Some (r1, out1, w1) -> effect o2 a2 w1 = Some (r2, out2, w2) ->
    exists w1', effect o2 a2 w = Some (r2, out2, w1') /\ effect o1 a1 w1' = Some (r1, out1, w2) /\ out2 = [] }.

Lemma swap_ops o1 o2 s s' : swappable o1 o2 -> Inv (env s) ->
  exec [o1; o2] s = Some s' -> exec [o2; o1] s = Some s'.
Proof.
  intros [Hid H12 H21 Heff] Hinv. cbn [exec]. unfold step.
  destruct (read (env s) (o_operands o1)) as [a1|] eqn:R1; cbn; [|done].
  destruct (effect o1 a1 (world s)) as [[[r1 out1] w1]|] eqn:E1; cbn; [|done].
  case_decide as L1; cbn; [|done]. rewrite read_bind by done.
  destruct (read (env s) (o_operands o2)) as [a2|] eqn:R2; cbn; [|done].
  destruct (effect o2 a2 w1) as [[[r2 out2] w2]|] eqn:E2; cbn; [|done].
  case_decide as L2; cbn; [|done]. intros [= <-].
  destruct (Heff (env s) a1 a2 (world s) r1 out1 w1 r2 out2 w2) as (w1' & -> & E1' & ->); [done..|].
  cbn. rewrite decide_True by done. cbn. rewrite read_bind, R1 by done. cbn. rewrite E1'. cbn.
  rewrite decide_True by done. by rewrite (bind_comm (o_id o1)), !app_nil_r by done.
Qed.

Lemma move_right o xs ys s s' : Forall (swappable o) xs -> (forall x, x ∈ xs -> x ∈ all) -> Inv (env s) ->
  exec (o :: xs ++ ys) s = Some s' -> exec (xs ++ o :: ys) s = Some s'.
Proof.
  revert s. induction xs as [|x xs IH]; intros s Hf Hall Hinv; [done|]. apply list.Forall_cons in Hf as [Hx Hf].
  change (o :: (x :: xs) ++ ys) with ([o; x] ++ (xs ++ ys)). rewrite exec_app.
  destruct (exec [o; x] s) as [s2|] eqn:E; cbn [mbind option_bind]; [|done]. intros Hr.
  apply swap_ops in E; [|done..]. cbn in E |- *.
  destruct (step x s) as [s1|] eqn:Ex; cbn in E |- *; [|done]. apply IH; [done|set_solver| |].
  - eapply Inv_step; [|done..]. apply Hall. by left.
  - cbn. destruct (step o s1); cbn in E |- *; [|done]. by injection E as ->.
Qed.

Context (second : op -> bool).

(** Every stage in the order of the program, the first before the second. *)
Lemma exec_stages l s s' :
  ForallOrdPairs (fun o1 o2 => second o1 = true -> second o2 = false -> swappable o1 o2) l ->
  (forall o, o ∈ l -> o ∈ all) -> Inv (env s) -> exec l s = Some s' ->
  exec (List.filter (fun o => negb (second o)) l ++ List.filter second l) s = Some s'.
Proof.
  intros Hl. revert s. induction Hl as [|o l Ho Hl IH]; intros s Hall Hinv; [done|].
  cbn [exec List.filter]. destruct (step o s) as [s1|] eqn:E; cbn [mbind option_bind]; [|done].
  intros Hr. apply IH in Hr; [|set_solver|by eapply Inv_step; [apply Hall; left|..]].
  destruct (second o) eqn:Hs; cbn [negb].
  - apply move_right; [| |done|by cbn; rewrite E].
    + apply list.Forall_forall. intros x Hx. apply list_elem_of_In, filter_In in Hx as [Hx Hn].
      rewrite List.Forall_forall in Ho. apply Ho; [done..|]. by apply negb_true_iff.
    + intros x Hx. apply list_elem_of_In, filter_In in Hx as [Hx _]. apply Hall. right. by apply list_elem_of_In.
  - cbn. by rewrite E.
Qed.
End Reorder.

(** ** The second stage with its own environment *)

Section Stage.
Context (sigma : value -> value) (local : nat -> Prop).

(** [e2] has the results of the stage's operations and, renamed, what they read. *)
Definition related (reads : list value) (e1 e2 : gmap value rval) : Prop :=
  (forall d i, local d -> e2 !! OpResult d i = e1 !! OpResult d i) /\
  (forall v, v ∈ reads -> e2 !! sigma v = e1 !! v).

Hypothesis sigma_local : forall d i, local d -> sigma (OpResult d i) = OpResult d i.

Lemma exec_stage_sim reads l s1 s1' e2 :
  (forall o v, o ∈ l -> v ∈ o_operands o -> v ∈ reads \/ exists d i, v = OpResult d i /\ local d) ->
  (forall v, v ∈ reads -> exists j, sigma v = BlockArg 0 j) ->
  (forall v d i, v ∈ reads -> v = OpResult d i -> ~ local d) ->
  (forall o, o ∈ l -> local (o_id o)) ->
  exec l s1 = Some s1' -> related reads (env s1) e2 ->
  exists e2', exec (map (map_operands sigma) l) (State e2 (world s1) (sent s1)) =
    Some (State e2' (world s1') (sent s1')).
Proof.
  intros Hops Harg Hout Hloc. revert s1 e2 Hops Hloc.
  induction l as [|o l IH]; intros s1 e2 Hops Hloc; cbn [exec map]; [intros [= <-]; eauto|].
  destruct (step o s1) as [s|] eqn:E; cbn [mbind option_bind]; [|done]. intros Hr [Hl Hv].
  unfold step in E |- *. cbn [env world sent map_operands o_operands o_id o_results] in *.
  assert (Hread : read e2 (map sigma (o_operands o)) = read (env s1) (o_operands o)).
  { assert (Hvs : forall v, v ∈ o_operands o -> e2 !! sigma v = env s1 !! v).
    { intros v Hin. destruct (Hops o v) as [?|(d & i & -> & Hd)]; [by left|done|by apply Hv|].
      by rewrite sigma_local, Hl. }
    clear -Hvs. induction (o_operands o) as [|v vs IH]; cbn; [done|].
    rewrite Hvs by by left. destruct (env s1 !! v); cbn; [|done].
    change (mapM (λ v, e2 !! v) (map sigma vs)) with (read e2 (map sigma vs)). rewrite IH; [done|].
    intros u Hu. apply Hvs. by right. }
  rewrite Hread. destruct (read (env s1) (o_operands o)) as [args|]; cbn in E |- *; [|done].
  change (effect (map_operands sigma o) args (world s1)) with (effect o args (world s1)).
  destruct (effect o args (world s1)) as [[[rs out] w]|]; cbn in E |- *; [|done].
  case_decide; [|done]. injection E as <-. cbn [mbind option_bind].
  apply (IH (State (bind_from (o_id o) 0 rs (env s1)) w (sent s1 ++ out))); [intros ???; apply Hops; by right|intros ??; apply Hloc; by right|done|].
  assert (Ho : local (o_id o)) by (apply Hloc; by left). split; cbn.
  - intros d i Hd. rewrite !lookup_bind. case_decide; [|by apply Hl]. destruct (rs !! _); [done|by apply Hl].
  - intros v Hin. rewrite (lookup_bind_ne _ _ _ _ v), (lookup_bind_ne _ _ _ _ (sigma v)); [by apply Hv| |].
    + intros k. destruct (Harg v Hin) as [j ->]. done.
    + intros k ->. by apply (Hout _ (o_id o) k Hin).
Qed.
End Stage.
End Sem.
End SplitSem.
