(* ===== verification/SplitCorrect.v ===== *)
(** functionSplitter on a straight-line handler: the two handlers it makes, and that
    they do together what the handler does. *)
From Stdlib Require Import ZArith Lia List String.
From stdpp Require Import base list numbers option gmap sets strings countable.
From S2P Require Import Prelude Flow MinCut Ir Pipeline Split SplitSem.
Import Ir Split SplitSem.
#[local] Open Scope nat_scope.

Module SplitCorrect.

Definition one_block (n : string) (at_ : gmap string attr) (args : list ty) (l : list op) : func :=
  Func n at_ [Block args l].

Lemma func_ops_one n at_ args l : func_ops (one_block n at_ args l) = l.
Proof. apply app_nil_r. Qed.

Lemma filter_id {A} (p : A -> bool) l : (forall x, x ∈ l -> p x = true) -> List.filter p l = l.
Proof.
  induction l as [|x l IH]; intros H; cbn; [done|]. rewrite H by by left. f_equal. apply IH. set_solver.
Qed.

Lemma filter_map_comm {A B} (p : B -> bool) (g : A -> B) l :
  List.filter p (map g l) = map g (List.filter (fun x => p (g x)) l).
Proof. induction l as [|x l IH]; cbn; [done|]. destruct (p (g x)); cbn; by rewrite IH. Qed.

(** ** Operands defined before their uses *)

Fixpoint ssa (seen : list nat) (l : list op) : Prop :=
  match l with
  | [] => True
  | o :: l' => (forall d i, OpResult d i ∈ o_operands o -> d ∈ seen) /\ ssa (o_id o :: seen) l'
  end.

Fixpoint ssa_b (seen : list nat) (l : list op) : bool :=
  match l with
  | [] => true
  | o :: l' => forallb (fun v => match v with OpResult d _ => bool_decide (d ∈ seen) | _ => true end) (o_operands o)
               && ssa_b (o_id o :: seen) l'
  end.

Lemma ssa_b_spec seen l : ssa_b seen l = true -> ssa seen l.
Proof.
  revert seen. induction l as [|o l IH]; intros seen; cbn; [done|]. rewrite andb_true_iff, forallb_forall.
  intros [Ho Hl]. split; [|by apply IH]. intros d i Hd. apply list_elem_of_In, Ho in Hd. by apply bool_decide_eq_true in Hd.
Qed.

Lemma ssa_before seen l1 a l2 o d i : ssa seen (l1 ++ a :: l2) -> o ∈ l1 ++ [a] ->
  OpResult d i ∈ o_operands o -> d ∈ seen \/ d ∈ map o_id l1.
Proof.
  revert seen. induction l1 as [|b l1 IH]; intros seen; cbn [app ssa map].
  - intros [Ha _] ->%list_elem_of_singleton Hd. left. by eapply Ha.
  - intros [Hb Hs] [->|Ho]%elem_of_cons Hd; [left; by eapply Hb|].
    destruct (IH _ Hs Ho Hd) as [[->|?]%elem_of_cons|?]; [right; by left|by left|right; by right].
Qed.

Lemma ssa_app seen l1 l2 : ssa seen (l1 ++ l2) <-> ssa seen l1 /\ ssa (rev (map o_id l1) ++ seen) l2.
Proof.
  revert seen. induction l1 as [|o l1 IH]; intros seen; cbn [app ssa map rev]; [tauto|].
  rewrite IH, <- app_assoc. cbn. tauto.
Qed.

(** ** Erasing operations *)

Lemma erase_op_one n at_ args l d : (forall o i, o ∈ l -> OpResult d i ∉ o_operands o) ->
  erase_op (one_block n at_ args l) d = Some (one_block n at_ args (List.filter (fun o => negb (Nat.eqb (o_id o) d)) l)).
Proof.
  intros H. unfold erase_op. rewrite func_ops_one. destruct (existsb _ l) eqn:E; [|done]. exfalso.
  apply existsb_exists in E as (o & Ho & E). apply existsb_exists in E as (v & Hv & E).
  destruct v as [|d' i]; [done|]. apply Nat.eqb_eq in E as ->. apply (H o i); by apply list_elem_of_In.
Qed.

Lemma eraseOpsIf_one (pred : op -> bool) n at_ args l : NoDup (map o_id l) ->
  (forall l1 a l2 o i, l = l1 ++ a :: l2 -> pred a = true ->
     o ∈ l1 ++ a :: List.filter (fun o => negb (pred o)) l2 -> OpResult (o_id a) i ∉ o_operands o) ->
  eraseOpsIf pred (one_block n at_ args l) = Some (one_block n at_ args (List.filter (fun o => negb (pred o)) l)).
Proof.
  intros Hnd Huse. unfold eraseOpsIf. rewrite func_ops_one.
  assert (H : forall l2 l1, l = l1 ++ l2 ->
    fold_right (fun d acc => f' ← acc; erase_op f' d) (Some (one_block n at_ args l)) (map o_id (List.filter pred l2)) =
    Some (one_block n at_ args (l1 ++ List.filter (fun o => negb (pred o)) l2))); [|by apply (H l [])].
  induction l2 as [|a l2 IH]; intros l1 Hl; cbn [List.filter]; [by rewrite app_nil_r, Hl, app_nil_r|].
  assert (Hl' : l = (l1 ++ [a]) ++ l2) by by rewrite <- app_assoc. apply IH in Hl' as IH'.
  rewrite <- app_assoc in IH'. cbn [app] in IH'.
  destruct (pred a) eqn:Ea; cbn [negb map fold_right]; [|done]. rewrite IH'. cbn [mbind option_bind].
  rewrite erase_op_one by (intros o i Ho; by eapply Huse). do 2 f_equal.
  rewrite List.filter_app. cbn [List.filter]. rewrite Nat.eqb_refl. cbn [negb].
  rewrite Hl, map_app in Hnd. cbn [map] in Hnd.
  assert (Ha : forall x, x ∈ l1 ++ l2 -> negb (Nat.eqb (o_id x) (o_id a)) = true).
  { intros x Hx. apply negb_true_iff, Nat.eqb_neq. intros E. apply NoDup_ListNoDup, NoDup_remove_2 in Hnd. apply Hnd.
    rewrite <- map_app, <- E. by apply list_elem_of_In, list_elem_of_fmap_2. }
  rewrite (filter_id _ l1), (filter_id (fun o => negb (Nat.eqb (o_id o) (o_id a))) (List.filter _ l2)); [done| |];
    intros x Hx; apply Ha, elem_of_app; [right|by left].
  apply list_elem_of_In, filter_In in Hx as [Hx _]. by apply list_elem_of_In.
Qed.

(** ** Replacing the transferred values *)

Definition subst (n : nat) (ps : list (nat * value)) (v : value) : value :=
  fold_left (fun x p => if decide (x = p.2) then BlockArg 0 (n + p.1) else x) ps v.

Lemma replace_one n ps nm at_ args l :
  fold_left (fun f p => replaceAllUsesWith f p.2 (BlockArg 0 (n + p.1))) ps (one_block nm at_ args l) =
  one_block nm at_ args (map (map_operands (subst n ps)) l).
Proof.
  assert (Hc : forall g h o, map_operands g (map_operands h o) = map_operands (fun v => g (h v)) o).
  { intros g h o. unfold map_operands. cbn. by rewrite map_map. }
  revert l. induction ps as [|p ps IH]; intros l; cbn [fold_left].
  - unfold subst. cbn. unfold one_block. do 3 f_equal. rewrite <- (map_id l) at 1. apply map_ext.
    intros o. unfold map_operands. rewrite map_id. by destruct o.
  - change (replaceAllUsesWith (one_block nm at_ args l) p.2 (BlockArg 0 (n + p.1))) with
      (one_block nm at_ args (map (map_operands (fun x => if decide (x = p.2) then BlockArg 0 (n + p.1) else x)) l)).
    rewrite IH, map_map. unfold one_block. do 3 f_equal. apply map_ext. intros o. by rewrite Hc.
Qed.

Lemma subst_out n ps v : (forall p, p ∈ ps -> p.2 <> v) -> subst n ps v = v.
Proof.
  induction ps as [|p ps IH]; intros H; cbn; [done|]. rewrite decide_False by (intros E; by apply (H p); [left|]).
  apply IH. set_solver.
Qed.

Lemma subst_in n ps p : NoDup (map snd ps) -> p ∈ ps ->
  (forall q r, q ∈ ps -> r ∈ ps -> r.2 <> BlockArg 0 (n + q.1)) -> subst n ps p.2 = BlockArg 0 (n + p.1).
Proof.
  induction ps as [|q ps IH]; intros Hnd Hp Hnew; [by apply elem_of_nil in Hp|]. cbn.
  cbn [map] in Hnd. apply list.NoDup_cons in Hnd as [Hq Hnd]. apply elem_of_cons in Hp as [->|Hp].
  - rewrite decide_True by done. apply subst_out. intros r Hr. apply Hnew; [by left|by right].
  - rewrite decide_False.
    + apply IH; [done..|]. intros ????. apply Hnew; by right.
    + intros E. apply Hq. rewrite <- E. by apply list_elem_of_fmap_2.
Qed.

Lemma elem_of_imap_pair (values : list value) i v : (i, v) ∈ imap pair values <-> values !! i = Some v.
Proof.
  rewrite list_elem_of_lookup. setoid_rewrite list_lookup_imap. split.
  - intros (j & H). destruct (values !! j) eqn:E; cbn in H; [|done]. by injection H as -> ->.
  - intros H. exists i. by rewrite H.
Qed.

Lemma snd_imap_pair (values : list value) : map snd (imap pair values) = values.
Proof.
  change (snd <$> imap pair values = values). rewrite fmap_imap.
  apply list_eq. intros i. rewrite list_lookup_imap. by destruct (values !! i).
Qed.

(** ** The last block's terminator *)

Definition terminates (o : op) : Prop := o_kind o = TerminateOp.

Lemma tryAddTerminator_one n at_ args l : exists tl, Forall terminates tl /\
  tryAddTerminator (one_block n at_ args l) = one_block n at_ args (l ++ tl).
Proof.
  unfold tryAddTerminator. cbn. destruct (from_option _ _ _).
  - exists []. by rewrite app_nil_r.
  - exists [Op (fresh (one_block n at_ args l)) TerminateOp [] [] []]. split; [by repeat constructor|done].
Qed.

Lemma before_terminate_app l tl : Forall (fun o => ~ terminates o) l -> Forall terminates tl ->
  before_terminate (l ++ tl) = l.
Proof.
  induction 1 as [|o l Ho Hl IH]; intros Htl; cbn.
  - destruct Htl as [|o tl Ho]; [done|]. cbn. unfold terminates in Ho. by rewrite Ho.
  - rewrite IH by done. unfold terminates in Ho. by destruct (o_kind o).
Qed.

Lemma fresh_above f o : o ∈ func_ops f -> o_id o < fresh f.
Proof.
  intros Ho. unfold fresh. apply Nat.lt_succ_r.
  pose proof (proj1 (list_max_le (map o_id (func_ops f)) _) (le_n _)) as H.
  rewrite List.Forall_forall in H. apply H, list_elem_of_In. by apply list_elem_of_fmap_2.
Qed.

(** ** The two handlers *)

Record straight (f : func) (tys : list ty) (body : list op) (t : op) : Prop := Straight {
  sl_blocks : f_blocks f = [Block tys (body ++ [t])];
  sl_term : terminates t;
  sl_operands : o_operands t = [];
  sl_body : Forall (fun o => ~ terminates o) body;
  sl_ssa : ssa [] body }.

Lemma straight_ops f tys body t : straight f tys body t -> func_ops f = body ++ [t].
Proof. intros [H _ _ _ _]. unfold func_ops. rewrite H. cbn. by rewrite app_nil_r. Qed.

Section Shape.
Context (to_vector : gset value -> list value) (Hvec : forall s, to_vector s ≡ₚ elements s).
Context (f : func) (tys : list ty) (body : list op) (t : op) (sinkOps : gset nat).
Context (Hf : wf_func f) (Hs : straight f tys body t).
Context (Hfw : forall o o' i, o ∈ func_ops f -> o' ∈ func_ops f ->
  OpResult (o_id o') i ∈ o_operands o -> o_id o' ∈ sinkOps -> o_id o ∈ sinkOps).

Definition sink : gset nat := sinkOps ∩ list_to_set (map o_id (func_ops f)).
Definition values : list value := to_vector (getValuesToTransfer sink f).
Definition initOp (name : string) : op :=
  Op (fresh f) InitOp values [StructType true (map (value_type f) values) name] [].
Definition returnOp : op := Op (S (fresh f)) ReturnOp [OpResult (fresh f) 0] [] [].

Lemma sink_op o : o ∈ func_ops f -> o_id o ∈ sink <-> o_id o ∈ sinkOps.
Proof.
  intros Ho. unfold sink. rewrite elem_of_intersection, elem_of_list_to_set.
  split; [tauto|]. split; [done|]. by apply list_elem_of_fmap_2.
Qed.

Lemma sink_op_of d : d ∈ sink -> exists o, o ∈ func_ops f /\ o_id o = d.
Proof.
  unfold sink. rewrite elem_of_intersection, elem_of_list_to_set. intros [_ H].
  apply list_elem_of_fmap in H as (o & -> & Ho). eauto.
Qed.

Lemma inSink_new d o : (forall o', o' ∈ func_ops f -> o_id o' < d) -> o_id o = d -> inSink sink o = false.
Proof.
  intros Hd <-. unfold inSink. apply bool_decide_eq_false. intros Hin.
  apply sink_op_of in Hin as (o' & Ho' & E). apply Hd in Ho'. lia.
Qed.

Lemma inSink_init name : inSink sink (initOp name) = false.
Proof. apply (inSink_new (fresh f)); [apply fresh_above|done]. Qed.
Lemma inSink_return : inSink sink returnOp = false.
Proof. apply (inSink_new (S (fresh f))); [intros o Ho; apply fresh_above in Ho; lia|done]. Qed.

(** The values of the new event: what the second stage reads and does not compute. *)
Lemma elem_of_values v : v ∈ values <-> exists o, o ∈ body /\ o_id o ∈ sink /\ v ∈ o_operands o /\ value_inSink sink v = false.
Proof.
  unfold values. rewrite Hvec, elem_of_elements. unfold getValuesToTransfer.
  rewrite elem_of_list_to_set, list_elem_of_In, in_flat_map. setoid_rewrite <- list_elem_of_In.
  rewrite (straight_ops f tys body t Hs). split.
  - intros (o & Ho & Hv). unfold inSink in Hv. case_bool_decide as Hin; [|by apply elem_of_nil in Hv].
    apply list_elem_of_In, filter_In in Hv as [Hv Hn]. rewrite <- list_elem_of_In in Hv. apply negb_true_iff in Hn.
    apply elem_of_app in Ho as [Ho| ->%list_elem_of_singleton]; [by exists o|].
    rewrite (sl_operands _ _ _ _ Hs) in Hv. by apply elem_of_nil in Hv.
  - intros (o & Ho & Hin & Hv & Hn). exists o. split; [apply elem_of_app; by left|].
    unfold inSink. rewrite bool_decide_eq_true_2 by done. apply list_elem_of_In, filter_In.
    split; [by apply list_elem_of_In|]. by rewrite Hn.
Qed.

Lemma values_nodup : NoDup values.
Proof. unfold values. rewrite Hvec. apply NoDup_elements. Qed.

Lemma body_ops o : o ∈ body -> o ∈ func_ops f.
Proof. intros H. rewrite (straight_ops f tys body t Hs). apply elem_of_app. by left. Qed.

Lemma ops_nodup : NoDup (map o_id (body ++ [t])).
Proof. rewrite <- (straight_ops f tys body t Hs). apply (wf_ids f Hf). Qed.

(** A result read in the body is one of an operation of the body. *)
Lemma body_reads o d i : o ∈ body -> OpResult d i ∈ o_operands o -> exists o', o' ∈ body /\ o_id o' = d.
Proof.
  intros Ho Hd. apply list_elem_of_split in Ho as (l1 & l2 & E). pose proof (sl_ssa _ _ _ _ Hs) as Hssa.
  rewrite E in Hssa.
  apply (ssa_before [] l1 o l2 o d i) in Hssa as [H|H]; [by apply elem_of_nil in H| |set_solver|exact Hd].
  apply list_elem_of_fmap in H as (o' & -> & Ho'). exists o'. split; [set_solver|done].
Qed.

Lemma body_args o b i : o ∈ body -> BlockArg b i ∈ o_operands o -> b = 0 /\ i < length tys.
Proof.
  intros Ho Hv. destruct (wf_values f Hf o _ (body_ops o Ho) Hv) as (bl & Hbl & Hi).
  rewrite (sl_blocks _ _ _ _ Hs) in Hbl. destruct b as [|b]; cbn in Hbl; [|done].
  injection Hbl as <-. by split.
Qed.

(** The copy with the event in it. *)
Definition copied (name : string) : list op := body ++ [initOp name; returnOp; t].

Lemma createGenerate_straight name :
  createGenerate f name values = Some (one_block (f_name f) (f_attrs f) tys (copied name)).
Proof.
  unfold createGenerate. rewrite (sl_blocks _ _ _ _ Hs). cbn [list.last mbind option_bind b_ops].
  rewrite last_snoc. cbn [mbind option_bind]. unfold is_terminator. rewrite (sl_term _ _ _ _ Hs). cbn [negb].
  unfold one_block, copied. cbn [on_last b_ops b_args]. by rewrite removelast_last.
Qed.

Lemma copied_nodup name : NoDup (map o_id (copied name)).
Proof.
  assert (Hp : map o_id (copied name) ≡ₚ [fresh f; S (fresh f)] ++ map o_id (body ++ [t])).
  { unfold copied. rewrite !map_app. cbn [map app o_id initOp returnOp].
    rewrite (Permutation_app_comm (map o_id body)). cbn [app].
    do 2 apply perm_skip. by rewrite (Permutation_app_comm (map o_id body)). }
  rewrite Hp. assert (Hn : forall d, d ∈ map o_id (body ++ [t]) -> d < fresh f).
  { intros d Hd. rewrite <- (straight_ops f tys body t Hs) in Hd. apply list_elem_of_fmap in Hd as (o & -> & Ho).
    by apply fresh_above. }
  cbn [app]. rewrite !list.NoDup_cons, elem_of_cons. split_and!; [|intros Hd|exact ops_nodup].
  - intros [E|Hd]; [lia|]. apply Hn in Hd. lia.
  - apply Hn in Hd. lia.
Qed.

Lemma copied_ssa name : ssa [] (copied name).
Proof.
  unfold copied. apply ssa_app. split; [apply (sl_ssa _ _ _ _ Hs)|]. cbn [ssa initOp returnOp o_operands o_id].
  split_and!; [| |by rewrite (sl_operands _ _ _ _ Hs); intros ?? ?%elem_of_nil|done].
  - intros d i Hd. apply elem_of_values in Hd as (o & Ho & _ & Hv & _).
    destruct (body_reads o d i Ho Hv) as (o' & Ho' & <-). rewrite app_nil_r.
    apply list_elem_of_In, in_rev. rewrite rev_involutive. by apply list_elem_of_In, list_elem_of_fmap_2.
  - intros d i [= -> ->]%list_elem_of_singleton. by left.
Qed.

(** An operation and those before it do not read its results. *)
Lemma copied_unused name l1 a l2 o i : copied name = l1 ++ a :: l2 -> o ∈ l1 ++ [a] -> OpResult (o_id a) i ∉ o_operands o.
Proof.
  intros E Ho Hd. pose proof (copied_ssa name) as Hssa. rewrite E in Hssa.
  apply (ssa_before [] l1 a l2 o (o_id a) i) in Hssa as [H|H]; [by apply elem_of_nil in H| |exact Ho|exact Hd].
  pose proof (copied_nodup name) as Hnd. rewrite E, map_app in Hnd. cbn [map] in Hnd.
  apply NoDup_ListNoDup, NoDup_remove_2 in Hnd. apply Hnd, in_app_iff. left. by apply list_elem_of_In.
Qed.

Lemma copied_in name o : o ∈ copied name -> o ∈ body \/ o = initOp name \/ o = returnOp \/ o = t.
Proof. unfold copied. set_solver. Qed.

Definition first_ops : list op := List.filter (fun o => negb (inSink sink o)) body.
Definition second_ops : list op := List.filter (inSink sink) body.

Lemma elem_of_second o : o ∈ second_ops <-> o ∈ body /\ o_id o ∈ sink.
Proof.
  unfold second_ops. rewrite !list_elem_of_In, filter_In. unfold inSink. by rewrite bool_decide_eq_true.
Qed.
Lemma elem_of_first o : o ∈ first_ops <-> o ∈ body /\ o_id o ∉ sink.
Proof.
  unfold first_ops. rewrite !list_elem_of_In, filter_In, negb_true_iff. unfold inSink.
  by rewrite bool_decide_eq_false.
Qed.

Lemma make_source_straight name sname gen : exists at_ tl, Forall terminates tl /\
  make_source sink sname gen (one_block (f_name f) (f_attrs f) tys (copied name)) =
  Some (one_block sname at_ tys ((first_ops ++ [initOp name; returnOp]) ++ tl)).
Proof.
  unfold make_source. change (setName sname (one_block (f_name f) (f_attrs f) tys (copied name)))
    with (one_block sname (f_attrs f) tys (copied name)).
  rewrite eraseOpsIf_one; [|apply copied_nodup|].
  - cbn [mbind option_bind].
    destruct (tryAddTerminator_one sname (f_attrs f) tys (List.filter (fun o => negb (inSink sink o)) (copied name)))
      as (tl & Htl & ->).
    exists (<["generationIndex"%string := IntegerAttr (to_int (gen * 2))]> (f_attrs f)).
    exists (List.filter (fun o => negb (inSink sink o)) [t] ++ tl). split.
    + apply Forall_app. split; [|done]. cbn. destruct (negb _); constructor; [apply (sl_term _ _ _ _ Hs)|done].
    + unfold copied. rewrite List.filter_app. fold first_ops. change ([initOp name; returnOp; t]) with ([initOp name; returnOp] ++ [t]).
      rewrite List.filter_app. cbn [List.filter]. rewrite inSink_init, inSink_return. cbn [negb].
      unfold one_block, setAttr. cbn. by rewrite <- !app_assoc.
  - intros l1 a l2 o i E Ha Ho Hd. unfold inSink in Ha. apply bool_decide_eq_true in Ha.
    assert (Hcase : o ∈ l1 ++ [a] \/ (o ∈ copied name /\ inSink sink o = false)).
    { apply elem_of_app in Ho as [Ho|[->|Ho]%elem_of_cons]; [left; set_solver..|]. right.
      apply list_elem_of_In, filter_In in Ho as [Ho Hn]. split; [|by apply negb_true_iff].
      rewrite E. apply list_elem_of_In in Ho. set_solver. }
    destruct Hcase as [Hl|[Hin Hn]]; [by eapply copied_unused|].
    unfold inSink in Hn. apply bool_decide_eq_false in Hn.
    apply copied_in in Hin as [Hb|[->|[->| ->]]].
    + destruct (body_reads o (o_id a) i Hb Hd) as (o' & Ho' & Ei). apply body_ops in Hb. apply body_ops in Ho'.
      apply Hn. rewrite sink_op by done. rewrite <- Ei in Ha, Hd. rewrite sink_op in Ha by done. by eapply Hfw.
    + apply elem_of_values in Hd as (_ & _ & _ & _ & Hd). cbn in Hd. by apply bool_decide_eq_false in Hd.
    + apply list_elem_of_singleton in Hd. injection Hd as Hd _. apply sink_op_of in Ha as (o' & Ho' & Hid).
      apply fresh_above in Ho'. lia.
    + rewrite (sl_operands _ _ _ _ Hs) in Hd. by apply elem_of_nil in Hd.
Qed.

(** What becomes of an operand in the second stage. *)
Definition renamed (v : value) : value := subst (length tys) (imap pair values) v.
Definition moved (v : value) : value := shift_arg (length tys) (renamed v).

Lemma values_old v : v ∈ values -> forall j, v <> BlockArg 0 (length tys + j).
Proof.
  intros Hv j ->. apply elem_of_values in Hv as (o & Ho & _ & Hv & _).
  destruct (body_args o 0 _ Ho Hv). lia.
Qed.

Lemma renamed_in i v : values !! i = Some v -> renamed v = BlockArg 0 (length tys + i).
Proof.
  intros Hi. apply (subst_in (length tys) (imap pair values) (i, v)).
  - rewrite snd_imap_pair. apply values_nodup.
  - by apply elem_of_imap_pair.
  - intros q [j r] _ Hr. apply elem_of_imap_pair, list_elem_of_lookup_2 in Hr. by apply values_old.
Qed.

Lemma renamed_out v : v ∉ values -> renamed v = v.
Proof.
  intros Hv. apply subst_out. intros [j r] Hr. apply elem_of_imap_pair, list_elem_of_lookup_2 in Hr.
  cbn. intros ->. done.
Qed.

Lemma renamed_result v d i : renamed v = OpResult d i -> v = OpResult d i /\ v ∉ values.
Proof.
  destruct (decide (v ∈ values)) as [Hv|Hv].
  - pose proof Hv as [j Hj]%list_elem_of_lookup. by rewrite (renamed_in j) by done.
  - by rewrite renamed_out.
Qed.

Lemma second_renamed o v : o ∈ second_ops -> v ∈ o_operands o ->
  (exists i, values !! i = Some v) \/ exists d i, v = OpResult d i /\ d ∈ sink /\ renamed v = v.
Proof.
  intros [Ho Hin]%elem_of_second Hv. destruct (value_inSink sink v) eqn:E.
  - right. destruct v as [b i|d i]; [done|]. exists d, i. cbn in E. apply bool_decide_eq_true in E.
    split_and!; [done..|]. apply renamed_out. intros Hin'. apply elem_of_values in Hin' as (_ & _ & _ & _ & Hn).
    cbn in Hn. by apply bool_decide_eq_false in Hn.
  - left. apply list_elem_of_lookup, elem_of_values. by exists o.
Qed.

Lemma inSink_map g o : inSink sink (map_operands g o) = inSink sink o.
Proof. done. Qed.

Lemma make_sink_straight name sname gen : exists at_ tl, Forall terminates tl /\
  make_sink sink sname gen values (one_block (f_name f) (f_attrs f) tys (copied name)) =
  Some (one_block sname at_ (map (value_type (one_block (f_name f) (f_attrs f) tys (copied name))) values)
    (map (map_operands moved) second_ops ++ tl)).
Proof.
  unfold make_sink. set (argTypes := map (value_type _) values). cbn [f_blocks one_block entry_args hd_error from_option].
  cbn [option_map b_args]. unfold addArguments, entry_args. cbn [f_blocks hd_error from_option b_args f_name f_attrs].
  fold (one_block sname {[ "type"%string := StringAttr "handler" ]} (tys ++ argTypes) (copied name)).
  rewrite replace_one. fold renamed.
  set (l' := map (map_operands (subst (length tys) (imap pair values))) (copied name)).
  assert (Hids : map o_id l' = map o_id (copied name)) by (unfold l'; by rewrite map_map).
  rewrite eraseOpsIf_one; [|rewrite Hids; apply copied_nodup|].
  - cbn [mbind option_bind].
    assert (Hfl : List.filter (fun o => negb (negb (inSink sink o))) l' =
      map (map_operands renamed) (second_ops ++ List.filter (inSink sink) [t])).
    { unfold l'. rewrite filter_map_comm. f_equal. unfold copied. rewrite List.filter_app. cbn [List.filter].
      rewrite !inSink_map, inSink_init, inSink_return. cbn [negb]. f_equal; [|by destruct (inSink sink t)].
      apply List.filter_ext. intros o. by rewrite inSink_map, negb_involutive. }
    rewrite Hfl. unfold eraseArguments. rewrite func_ops_one.
    destruct (existsb _ _) eqn:Ee.
    + exfalso. apply existsb_exists in Ee as (o' & Ho' & Ee). apply in_map_iff in Ho' as (o & <- & Ho).
      apply existsb_exists in Ee as (v' & Hv' & Ee). cbn in Hv'. apply in_map_iff in Hv' as (v & <- & Hv).
      apply list_elem_of_In in Hv, Ho. apply elem_of_app in Ho as [Ho|Ho].
      * destruct (second_renamed o v Ho Hv) as [[i Hi]|(d & i & -> & _ & E)].
        -- rewrite (renamed_in i) in Ee by done. cbn in Ee. apply Nat.ltb_lt in Ee. lia.
        -- rewrite E in Ee. done.
      * apply list_elem_of_In, filter_In in Ho as [[<-|[]] _].
        rewrite (sl_operands _ _ _ _ Hs) in Hv. by apply elem_of_nil in Hv.
    + cbn [f_blocks one_block mbind option_bind f_name f_attrs].
      set (l2 := second_ops ++ List.filter (inSink sink) [t]).
      change (map_ops (map_operands (shift_arg (length tys)))
        (Func sname {[ "type"%string := StringAttr "handler" ]} [Block (drop (length tys) (tys ++ argTypes)) (map (map_operands renamed) l2)]))
        with (one_block sname {[ "type"%string := StringAttr "handler" ]} (drop (length tys) (tys ++ argTypes))
                (map (map_operands (shift_arg (length tys))) (map (map_operands renamed) l2))).
      rewrite drop_app_length, map_map.
      assert (Hm : map (fun o => map_operands (shift_arg (length tys)) (map_operands renamed o)) l2 =
        map (map_operands moved) second_ops ++ map (map_operands moved) (List.filter (inSink sink) [t])).
      { rewrite <- map_app. apply map_ext. intros o. unfold map_operands, moved. cbn. by rewrite map_map. }
      rewrite Hm. destruct (tryAddTerminator_one sname {[ "type"%string := StringAttr "handler" ]} argTypes
        (map (map_operands moved) second_ops ++ map (map_operands moved) (List.filter (inSink sink) [t]))) as (tl & Htl & ->).
      exists (<["generationIndex"%string := IntegerAttr (to_int (gen * 2 + 1))]> {[ "type"%string := StringAttr "handler" ]}).
      exists (map (map_operands moved) (List.filter (inSink sink) [t]) ++ tl). split.
      * apply Forall_app. split; [|done]. cbn. destruct (inSink sink t); constructor; [apply (sl_term _ _ _ _ Hs)|done].
      * unfold one_block, setAttr. cbn. by rewrite <- app_assoc.
  - intros l1 a l2 o i E Ha Ho Hd.
    apply map_eq_app in E as (k1 & k2 & E & <- & E2). apply map_eq_cons in E2 as (a0 & k3 & -> & <- & <-).
    rewrite inSink_map in Ha. apply negb_true_iff in Ha. unfold inSink in Ha. apply bool_decide_eq_false in Ha.
    cbn [map_operands o_id] in Hd.
    assert (exists o0, o = map_operands (subst (length tys) (imap pair values)) o0 /\ o0 ∈ copied name /\
      (o0 ∈ k1 ++ [a0] \/ inSink sink o0 = true)) as (o0 & -> & Hc & Hcase).
    { apply elem_of_app in Ho as [Ho|[->|Ho]%elem_of_cons].
      - apply list_elem_of_fmap in Ho as (o0 & -> & Ho). exists o0. rewrite E. split_and!; [done|set_solver|left; set_solver].
      - exists a0. rewrite E. split_and!; [done|set_solver|left; set_solver].
      - rewrite filter_map_comm in Ho. apply list_elem_of_fmap in Ho as (o0 & -> & Ho).
        apply list_elem_of_In, filter_In in Ho as [Ho Hn]. apply list_elem_of_In in Ho. exists o0.
        rewrite E. split_and!; [done|set_solver|right]. by rewrite inSink_map, negb_involutive in Hn. }
    cbn [map_operands o_operands] in Hd. apply list_elem_of_fmap in Hd as (v & Ev & Hv).
    symmetry in Ev. apply renamed_result in Ev as [-> Hnv].
    destruct Hcase as [Hl|Hin]; [by eapply copied_unused|].
    unfold inSink in Hin. apply bool_decide_eq_true in Hin.
    apply copied_in in Hc as [Hb|[->|[->| ->]]].
    + apply Hnv, elem_of_values. exists o0. split_and!; [done..|]. cbn. by apply bool_decide_eq_false.
    + pose proof (inSink_init name) as H. unfold inSink in H. by apply bool_decide_eq_false in H.
    + pose proof inSink_return as H. unfold inSink in H. by apply bool_decide_eq_false in H.
    + rewrite (sl_operands _ _ _ _ Hs) in Hv. by apply elem_of_nil in Hv.
Qed.

Lemma removeEmptyBlocks_one n at_ args l : removeEmptyBlocks (one_block n at_ args l) = Some (one_block n at_ args l).
Proof. done. Qed.

Definition sinkName : string := (f_name f ++ "_sink")%string.
Definition sourceName : string := (f_name f ++ "_source")%string.

(** The splitter succeeds, and these are the stages. *)
Lemma functionSplitter_straight : exists at1 tl1 at2 tys2 tl2,
  Forall terminates tl1 /\ Forall terminates tl2 /\ length tys2 = length values /\
  functionSplitter to_vector f sinkOps =
    Some (one_block sourceName at1 tys ((first_ops ++ [initOp sinkName; returnOp]) ++ tl1),
          one_block sinkName at2 tys2 (map (map_operands moved) second_ops ++ tl2), f).
Proof.
  unfold functionSplitter. fold sink. fold values. fold sinkName sourceName.
  rewrite createGenerate_straight. cbn [mbind option_bind].
  destruct (make_sink_straight sinkName sinkName (generationIndex f)) as (at2 & tl2 & H2 & ->).
  destruct (make_source_straight sinkName sourceName (generationIndex f)) as (at1 & tl1 & H1 & ->).
  cbn [mbind option_bind]. assert (Hr : removeEmptyBlocks f = Some f).
  { unfold removeEmptyBlocks. by rewrite (sl_blocks _ _ _ _ Hs). }
  rewrite Hr. cbn [mbind option_bind]. rewrite !removeEmptyBlocks_one. cbn [mbind option_bind].
  eexists at1, tl1, at2, _, tl2. split_and!; [done|done| |reflexivity]. by rewrite length_map.
Qed.

(** ** What they do *)

Context {D St : Type} (sem : op_kind -> list ty -> list (@rval D) -> St -> option (list (@rval D) * St)).
Context (Inv : gmap value (@rval D) -> Prop).
Hypothesis Inv_step : forall o s s', o ∈ body -> step sem o s = Some s' -> Inv (env s) -> Inv (env s').
Hypothesis returns_second : forall o, o ∈ body -> o_kind o = ReturnOp -> o_id o ∈ sinkOps.
(** An operation of the second stage gives way to one of the first. *)
Hypothesis stages_commute : forall o1 o2 e a1 a2 w r1 out1 w1 r2 out2 w2,
  o1 ∈ body -> o2 ∈ body -> o_id o1 ∈ sinkOps -> o_id o2 ∉ sinkOps -> Inv e ->
  read e (o_operands o1) = Some a1 -> read e (o_operands o2) = Some a2 ->
  effect sem o1 a1 w = Some (r1, out1, w1) -> effect sem o2 a2 w1 = Some (r2, out2, w2) ->
  exists w1', effect sem o2 a2 w = Some (r2, out2, w1') /\ effect sem o1 a1 w1' = Some (r1, out1, w2).

Lemma first_silent o args w rs out w' : o ∈ first_ops -> effect sem o args w = Some (rs, out, w') -> out = [].
Proof.
  intros [Ho Hn]%elem_of_first He. assert (Hk : o_kind o <> ReturnOp).
  { intros Hk. apply Hn. apply sink_op; [by apply body_ops|]. by apply returns_second. }
  by eapply effect_sent.
Qed.

Lemma first_sent l s s' : (forall o, o ∈ l -> o ∈ first_ops) -> exec sem l s = Some s' -> sent s' = sent s.
Proof.
  revert s. induction l as [|o l IH]; intros s Hl; cbn [exec]; [by intros [= <-]|].
  destruct (step sem o s) as [s1|] eqn:E; cbn [mbind option_bind]; [|done]. intros H.
  rewrite (IH s1) by (done || set_solver). unfold step in E.
  destruct (read _ _) as [a|]; cbn in E; [|done].
  destruct (effect sem o a _) as [[[rs out] w]|] eqn:Ee; cbn in E; [|done].
  apply first_silent in Ee as ->; [|apply Hl; by left]. case_decide; [|done].
  injection E as <-. cbn. by rewrite app_nil_r.
Qed.

Lemma ordered_pairs {A} (R : A -> A -> Prop) l :
  (forall l1 x l2 y l3, l = l1 ++ x :: l2 ++ y :: l3 -> R x y) -> ForallOrdPairs R l.
Proof.
  induction l as [|x l IH]; intros H; constructor.
  - apply List.Forall_forall. intros y Hy. apply in_split in Hy as (l2 & l3 & ->). by apply (H [] x l2 y l3).
  - apply IH. intros l1 a l2 b l3 ->. by apply (H (x :: l1) a l2 b l3).
Qed.

Lemma body_swappable : ForallOrdPairs (fun o1 o2 => inSink sink o1 = true -> inSink sink o2 = false ->
  swappable sem Inv o1 o2) body.
Proof.
  apply ordered_pairs. intros l1 o1 l2 o2 l3 E H1 H2. unfold inSink in H1, H2.
  apply bool_decide_eq_true in H1. apply bool_decide_eq_false in H2.
  assert (Ho1 : o1 ∈ body) by (rewrite E; set_solver). assert (Ho2 : o2 ∈ body) by (rewrite E; set_solver).
  apply body_ops in Ho1 as Hf1. apply body_ops in Ho2 as Hf2.
  rewrite sink_op in H1 by done. rewrite sink_op in H2 by done. split.
  - intros Hid. by rewrite <- Hid in H2.
  - intros k Hk. apply H2. by eapply (Hfw o2 o1).
  - intros k Hk. pose proof (sl_ssa _ _ _ _ Hs) as Hssa. pose proof ops_nodup as Hnd.
    rewrite E in Hssa, Hnd. rewrite app_comm_cons, app_assoc in Hssa, Hnd.
    apply (ssa_before [] _ o2 l3 o1 (o_id o2) k) in Hssa as [H|H]; [by apply elem_of_nil in H| |set_solver|done].
    rewrite <- app_assoc, map_app in Hnd. cbn [map app] in Hnd.
    apply NoDup_ListNoDup, NoDup_remove_2 in Hnd. apply Hnd, in_app_iff. left. by apply list_elem_of_In.
  - intros e a1 a2 w r1 out1 w1 r2 out2 w2 Hi R1 R2 E1 E2.
    destruct (stages_commute o1 o2 e a1 a2 w r1 out1 w1 r2 out2 w2) as (w1' & E2' & E1'); [done..|].
    exists w1'. split_and!; [done..|]. eapply (first_silent o2); [|exact E2]. apply elem_of_first.
    split; [done|]. by rewrite sink_op.
Qed.

Lemma lookup_args_env (args : list (@rval D)) v : args_env args !! v =
  match v with BlockArg 0 i => args !! i | _ => None end.
Proof.
  unfold args_env. apply option_eq. intros a. rewrite <- elem_of_list_to_map.
  - rewrite list_elem_of_lookup. setoid_rewrite list_lookup_imap. split.
    + intros (i & Hi). destruct (args !! i) as [x|] eqn:Ex; cbn in Hi; [|done]. by injection Hi as <- ->.
    + destruct v as [[|b] i|]; [|done..]. intros Ha. exists i. by rewrite Ha.
  - rewrite fmap_imap. apply NoDup_alt. intros i j x. rewrite !list_lookup_imap.
    destruct (args !! i), (args !! j); cbn; try done. intros [= <-] [=]. done.
Qed.

Lemma no_terminate l : (forall o, o ∈ l -> o ∈ body) -> Forall (fun o => ~ terminates o) l.
Proof.
  intros H. apply list.Forall_forall. intros o Ho. pose proof (sl_body _ _ _ _ Hs) as Hb.
  rewrite list.Forall_forall in Hb. by apply Hb, H.
Qed.

Lemma second_sim vs s1 s' : read (env s1) values = Some vs -> (forall d i, d ∈ sink -> env s1 !! OpResult d i = None) ->
  exec sem second_ops s1 = Some s' ->
  exists e2, exec sem (map (map_operands moved) second_ops) (State (args_env vs) (world s1) (sent s1)) =
    Some (State e2 (world s') (sent s')).
Proof.
  intros Hvs Hnone Hx.
  assert (Hmoved : forall i v, values !! i = Some v -> moved v = BlockArg 0 i).
  { intros i v Hi. unfold moved. rewrite (renamed_in i) by done. cbn. f_equal. lia. }
  apply (exec_stage_sim sem moved (fun d => d ∈ sink)) with (reads := values); [..|exact Hx|].
  - intros d i Hd. unfold moved. rewrite renamed_out; [done|]. intros Hin.
    apply elem_of_values in Hin as (_ & _ & _ & _ & Hn). cbn in Hn. by apply bool_decide_eq_false in Hn.
  - intros o v Ho Hv. destruct (second_renamed o v Ho Hv) as [[i Hi]|(d & i & -> & Hd & _)]; [left|right; eauto].
    by apply list_elem_of_lookup_2 in Hi.
  - intros v [i Hi]%list_elem_of_lookup. exists i. by apply Hmoved.
  - intros v d i Hv -> Hd. apply elem_of_values in Hv as (_ & _ & _ & _ & Hn). cbn in Hn.
    by apply bool_decide_eq_false in Hn.
  - intros o [_ Ho]%elem_of_second. done.
  - split.
    + intros d i Hd. by rewrite lookup_args_env, Hnone.
    + intros v [i Hi]%list_elem_of_lookup. rewrite (Hmoved i) by done. rewrite lookup_args_env.
      apply mapM_Some_1 in Hvs. pose proof (Forall2_lookup_l _ _ _ _ _ Hvs Hi) as (r & Hr & Hvr). by rewrite Hr.
Qed.

(** The source sends the values of the event. *)
Lemma source_run at1 tl1 args w s1 vs : Forall terminates tl1 -> length args = length tys ->
  exec sem first_ops (State (args_env args) w []) = Some s1 -> read (env s1) values = Some vs ->
  run_func sem (one_block sourceName at1 tys ((first_ops ++ [initOp sinkName; returnOp]) ++ tl1)) args w =
  Some ([Event sinkName vs], world s1).
Proof.
  intros Htl Hlen Hx Hvs. unfold run_func. cbn [f_blocks one_block]. rewrite decide_True by done.
  rewrite before_terminate_app; [|apply Forall_app; split; [apply no_terminate|by repeat constructor]|done].
  2: { intros o Ho. by apply elem_of_first in Ho as [? _]. }
  rewrite exec_app, Hx. cbn [mbind option_bind exec].
  assert (Hsent : sent s1 = []) by by apply (first_sent first_ops) in Hx.
  assert (Hi : step sem (initOp sinkName) s1 =
    Some (State (<[OpResult (fresh f) 0 := Event sinkName vs]> (env s1)) (world s1) (sent s1 ++ []))).
  { unfold step. change (o_operands (initOp sinkName)) with values. by rewrite Hvs. }
  rewrite Hi. cbn [mbind option_bind]. unfold step, read. cbn. rewrite lookup_insert_eq. cbn. by rewrite Hsent.
Qed.

Lemma split_run args w r : Inv (args_env args) -> run_func sem f args w = Some r ->
  exists src snk, functionSplitter to_vector f sinkOps = Some (src, snk, f) /\ run_stages sem src snk args w = Some r.
Proof.
  intros Hinv Hrun. destruct functionSplitter_straight as (at1 & tl1 & at2 & tys2 & tl2 & H1 & H2 & Hlen & E).
  eexists _, _. split; [exact E|]. unfold run_func in Hrun. rewrite (sl_blocks _ _ _ _ Hs) in Hrun.
  case_decide as Hargs; [|done].
  rewrite before_terminate_app in Hrun;
    [|apply (sl_body _ _ _ _ Hs)|constructor; [apply (sl_term _ _ _ _ Hs)|done]].
  destruct (exec sem body _) as [s'|] eqn:Hx; cbn in Hrun; [|done]. injection Hrun as <-.
  apply (exec_stages sem Inv body Inv_step (inSink sink) body) in Hx; [|apply body_swappable|done|done].
  fold first_ops second_ops in Hx. rewrite exec_app in Hx.
  destruct (exec sem first_ops _) as [s1|] eqn:Hx1; cbn in Hx; [|done].
  assert (Hout : forall v o k, value_inSink sink v = false -> o ∈ second_ops -> v <> OpResult (o_id o) k).
  { intros v o k Hv [_ Ho]%elem_of_second ->. cbn in Hv. by apply bool_decide_eq_false in Hv. }
  assert (Hvals : is_Some (read (env s1) values)).
  { apply mapM_is_Some_2, list.Forall_forall. intros v Hv. cbn.
    apply elem_of_values in Hv as (o & Ho & Hin & Hvo & Hn).
    apply (exec_reads sem second_ops s1 s' o); [done|by apply elem_of_second|done|]. intros o' k Ho'. by apply Hout. }
  destruct Hvals as [vs Hvs]. unfold run_stages.
  rewrite (source_run at1 tl1 args w s1 vs) by done. cbn [mbind option_bind f_name one_block].
  rewrite decide_True by done.
  destruct (second_sim vs s1 s') as [e2 He2]; [done| |done|].
  { intros d i Hd. rewrite (exec_frame sem first_ops _ _ (OpResult d i) Hx1).
    - cbn. by rewrite lookup_args_env.
    - intros o k [_ Ho]%elem_of_first [= ->]. done. }
  unfold run_func. cbn [f_blocks one_block].
  assert (Hl : length vs = length tys2) by (rewrite Hlen; apply mapM_Some_1, Forall2_length in Hvs; done).
  rewrite decide_True by done. rewrite before_terminate_app; [| |done].
  - assert (Hsent : sent s1 = []) by by apply (first_sent first_ops) in Hx1.
    rewrite Hsent in He2. by rewrite He2.
  - apply Forall_map, list.Forall_forall. intros o [Ho _]%elem_of_second. cbn.
    pose proof (sl_body _ _ _ _ Hs) as Hb. rewrite list.Forall_forall in Hb. intros Ht. by apply (Hb o).
Qed.
End Shape.
End SplitCorrect.
