(* ===== verification/KCut.v ===== *)
(** The searches over cuts of src/lib/ep2/PipelineHandlerPass.cpp: the Netronome policy,
    one step of a search (stepSearch), kcutPolicy, the table cuts and isTableClean.

    A SearchDirection (a DenseMap from functions to policies) is a list of pairs; the
    module is the list of its functions, a FuncOp its name.  A policy that a search
    shares and changes is returned changed. *)
From Stdlib Require Import ZArith Lia List String SpecFloat.
From stdpp Require Import base list numbers option gmap sets strings countable pretty.
From S2P Require Import Prelude Flow MinCut Ir Pipeline Split.
Import Flow MinCut Ir Pipeline Split.
#[local] Open Scope Z_scope.

Module KCut.

(** ** Double precision *)

Definition f64_of_Z (x : Z) : spec_float := binary_normalize 53 1024 x 0 false.
Definition f64_div : spec_float -> spec_float -> spec_float := SFdiv 53 1024.
Definition f64_sub : spec_float -> spec_float -> spec_float := SFsub 53 1024.
Definition f64_add : spec_float -> spec_float -> spec_float := SFadd 53 1024.
(** The double nearest to [n / d], as a literal. *)
Definition literal (n d : Z) : spec_float := f64_div (f64_of_Z n) (f64_of_Z d).

(** ** NetronomeKCutPolicy *)

(** Signed overflow of an [int] is undefined: no cost. *)
Definition int_ok (x : Z) : bool := (- 2 ^ 31 <=? x) && (x <? 2 ^ 31).

Fixpoint typeTransmitCostRec (t : ty) : option Z :=
  match t with
  | StructType _ elementTypes _ =>
      (fix sum l sz :=
         match l with
         | [] => Some sz
         | eTy :: l' => c ← typeTransmitCostRec eTy; if int_ok (sz + c) then sum l' (sz + c) else None
         end) elementTypes 0
  | BufferType => Some 128
  | TableType _ _ _ => Some 64
  | ContextType => Some 64
  | ContextRefType _ => Some 64
  | IntegerType width => Some width
  | AtomType => Some 32
  | _ => None
  end.
Definition k_typeTransmitCost (t : ty) : option Z :=
  c ← typeTransmitCostRec t; if int_ok (1 + c) then Some (1 + c) else None.

Definition k_operationWeight (o : op) : Z := match o_kind o with GlobalImportOp _ => 100 | _ => 1 end.
Definition k_valueWeight (_ : value) : Z := 1.

Record kpolicy := KPolicy { numCuts : Z; k_sourceWeight : spec_float; k_tolerance : spec_float; k_done : bool }.

Definition NetronomeKCutPolicy (k : Z) (tol : spec_float) : kpolicy :=
  KPolicy k (f64_of_f32 (f32_div (f32_of_Z 1) (f32_of_Z k))) tol false.
Definition set_done (p : kpolicy) (d : bool) : kpolicy := KPolicy (numCuts p) (k_sourceWeight p) (k_tolerance p) d.
Definition set_weight (p : kpolicy) (w : spec_float) : kpolicy := KPolicy (numCuts p) w (k_tolerance p) (k_done p).

Definition policy_of (p : kpolicy) : PipelinePolicy :=
  Policy (k_sourceWeight p) (k_tolerance p) k_typeTransmitCost k_operationWeight k_valueWeight.

(** [sourceWeight] is that of the cut. *)
Definition splitPolicy (p : kpolicy) (sourceWeight : spec_float) : kpolicy * kpolicy :=
  let newCuts := numCuts p - 1 in
  let localTol := f64_div (k_tolerance p) (f64_sub (f64_of_Z 1) (f64_div (f64_of_Z 1) (f64_of_Z (numCuts p)))) in
  let noCutSource := SFltb (f64_of_f32 sourceWeight)
    (f64_add (f64_of_f32 (f32_div (f32_of_Z 1) (f32_of_Z (numCuts p)))) localTol) in
  (set_done (NetronomeKCutPolicy newCuts localTol) ((newCuts =? 1) || noCutSource),
   set_done (NetronomeKCutPolicy newCuts localTol) ((newCuts =? 1) || negb noCutSource)).

Definition splitName (p : kpolicy) : string * string :=
  let base := (pretty (numCuts p) ++ "Cut_")%string in ((base ++ "source")%string, (base ++ "sink")%string).

(** ** One step of a search *)

Definition SearchDirection : Type := list (func * kpolicy).
(** [SFuel] is the fuel of the search, [SCutFuel] that of a cut. *)
Inductive search_error := SAbort | SUndef | SCutFuel | SFuel.

Section Search.
Context (push_relabel_max_flow : @solver vertex)
  (topological_sort : gmap vertex (gmap vertex Z) -> option (list vertex))
  (to_vector : gset value -> list value).

Definition rename (suffix : string) (f f' : func) : func := setName (f_name f ++ "_" ++ suffix)%string f'.

(** The choices of a step; [r] is the source weight of the shared PipelineResult. *)
Fixpoint step_choices (sd : SearchDirection) (r : option spec_float) : search_error + SearchDirection :=
  match sd with
  | [] => inr []
  | (f, policy) :: rest =>
      if k_done policy then
        match step_choices rest r with inl e => inl e | inr l => inr ((f, policy) :: l) end
      else
        match pipelineHandler (policy_of policy) f push_relabel_max_flow topological_sort r with
        | (PCut sinkOps _, r') =>
            match functionSplitter to_vector f sinkOps with
            | Some (sourceOp, sinkOp, _) =>
                let policies := splitPolicy policy (default S754_nan r') in
                let names := splitName policy in
                match step_choices rest r' with
                | inl e => inl e
                | inr l => inr ((rename names.1 f sourceOp, policies.1) :: (rename names.2 f sinkOp, policies.2) :: l)
                end
            | None => inl SAbort
            end
        | (PNotHandler, r') | (PNoCut _, r') =>
            match step_choices rest r' with inl e => inl e | inr l => inr ((f, set_done policy true) :: l) end
        | (PAbort, _) => inl SAbort
        | (PUndef, _) => inl SUndef
        | (PFuel, _) => inl SCutFuel
        end
  end.

Definition stepSearch (sd : SearchDirection) : search_error + list SearchDirection :=
  match step_choices sd None with
  | inl e => inl e
  | inr choices => inr (if forallb (fun fp => k_done fp.2) sd then [] else [choices])
  end.

(** [while (true) { cuts = stepSearch(sd); ... }] *)
Fixpoint search_loop (fuel : nat) (sd : SearchDirection) : search_error + SearchDirection :=
  match fuel with
  | O => inl SFuel
  | S fuel' =>
      match stepSearch sd with
      | inl e => inl e
      | inr [] => inr sd
      | inr (next :: _) => search_loop fuel' next
      end
  end.

(** ** kcutPolicy *)

Definition handlers (m : list func) : list func := List.filter (fun f => negb (isExtern f) && isHandler f) m.
Definition contains (sd : SearchDirection) (f : func) : bool := existsb (fun fp => String.eqb (f_name fp.1) (f_name f)) sd.

(** [for (float t = 0.1; t < 1.0 / k; t += 0.1)]: the first [n] values of [t]. *)
Definition next_t (t : spec_float) : spec_float := f32_of_f64 (f64_add (f64_of_f32 t) (literal 1 10)).
Fixpoint tolerances (n : nat) (k : Z) (t : spec_float) : list spec_float :=
  match n with
  | O => []
  | S n' => if SFltb (f64_of_f32 t) (f64_div (f64_of_Z 1) (f64_of_Z k))
            then t :: tolerances n' k (next_t t) else []
  end.

Definition kcut_start (m : list func) (k : Z) (t : spec_float) (targetFunc : option func) : SearchDirection :=
  map (fun f => (f, set_done (NetronomeKCutPolicy k (f64_of_f32 t))
                     (from_option (fun g => negb (String.eqb (f_name f) (f_name g))) false targetFunc))) (handlers m).

Fixpoint kcut_loop (m : list func) (k : Z) (targetFunc : option func) (ts : list spec_float) (sd : SearchDirection)
    : search_error + SearchDirection :=
  match ts with
  | [] => inr sd
  | t :: ts' =>
      match search_loop (S (Z.to_nat k)) (kcut_start m k t targetFunc) with
      | inl e => inl e
      | inr sd' =>
          if from_option (fun f => negb (contains sd' f)) true targetFunc then inr sd'
          else kcut_loop m k targetFunc ts' sd'
      end
  end.

(** The functions of the module after cleanupFuncs: those that are not handlers, and the
    handlers of the search. *)
Definition cleanupFuncs (m : list func) (sd : SearchDirection) : list func :=
  List.filter (fun f => isExtern f || negb (isHandler f)) m ++ map fst sd.

Definition kcutPolicy (m : list func) (k : Z) (targetFunc : option func) : search_error + list func :=
  match kcut_loop m k targetFunc (tolerances 16 k (f32_of_f64 (literal 1 10))) [] with
  | inl e => inl e
  | inr sd => inr (cleanupFuncs m sd)
  end.

(** ** Tables *)

(** [getKey()] of the operations that have one. *)
Definition table_key (o : op) : option value :=
  match o_kind o with LookupOp | UpdateOp => o_operands o !! 1%nat | _ => None end.

(** The first key, and whether every other one is the same. *)
Definition key_step (acc : option value * bool) (o : op) : option value * bool :=
  match table_key o, acc with
  | None, _ => acc
  | Some opKey, (None, keyUnique) => (Some opKey, keyUnique)
  | Some opKey, (Some key, keyUnique) => if decide (key = opKey) then acc else (Some key, false)
  end.
Definition isTableClean (f : func) : bool :=
  match fold_left key_step (func_ops f) (None, true) with
  | (Some _, keyUnique) => keyUnique
  | (None, _) => false
  end.

(** [{j / 10.0f, i / 10.0f}]: source weights and tolerances, floats. *)
Definition tenth (i : Z) : spec_float := f32_div (f32_of_Z i) (f32_of_Z 10).
Definition cutParams : list (spec_float * spec_float) :=
  concat (map (fun j => map (fun i => (tenth j, tenth i)) (seqZ 1 (j - 1))) [5; 4; 3; 2; 1; 0])
  ++ map (fun i => (tenth i, tenth i)) (seqZ 1 5).

(** The loop of tableCut and of tableCutPolicy: the pieces of the first cut one of which
    is clean. *)
Fixpoint table_search (targetFunc : func) (params : list (spec_float * spec_float))
    : search_error + option (list func) :=
  match params with
  | [] => inr None
  | (w, tol) :: params' =>
      match stepSearch [(targetFunc, set_weight (NetronomeKCutPolicy 2 (f64_of_f32 tol)) (f64_of_f32 w))] with
      | inl e => inl e
      | inr [sd] => if existsb (fun fp => isTableClean fp.1) sd then inr (Some (map fst sd))
                    else table_search targetFunc params'
      | inr _ => inl SAbort
      end
  end.

Definition tableCut (targetFunc : func) : search_error + (bool * list func) :=
  match table_search targetFunc cutParams with
  | inl e => inl e
  | inr (Some fs) => inr (true, fs)
  | inr None => inr (false, [])
  end.

(** The pieces are in the module from the cut on; the target goes when a cut is found. *)
Definition tableCutPolicy (m : list func) (targetFunc : func) : search_error + (bool * list func) :=
  match table_search targetFunc cutParams with
  | inl e => inl e
  | inr (Some fs) =>
      let others := List.filter (fun f => negb (String.eqb (f_name f) (f_name targetFunc))) in
      inr (true, others (m ++ fs))
  | inr None => inr (false, m)
  end.

(** ** The steps of a search *)

Definition cuts_left (sd : SearchDirection) (n : Z) : Prop :=
  forall fp, fp ∈ sd -> k_done fp.2 = false -> 2 <= numCuts fp.2 <= n.
(** The pieces a policy may still come to. *)
Definition pieces (p : kpolicy) : Z := if k_done p then 1 else numCuts p.
Definition all_pieces (sd : SearchDirection) : Z := sumZ (map (fun fp => pieces fp.2) sd).

Lemma all_pieces_cons f p sd : all_pieces ((f, p) :: sd) = pieces p + all_pieces sd.
Proof. done. Qed.

Lemma cuts_left_nil n : cuts_left [] n.
Proof. intros fp H. by apply elem_of_nil in H. Qed.
Lemma cuts_left_cons f p sd n : cuts_left ((f, p) :: sd) n <->
  (k_done p = false -> 2 <= numCuts p <= n) /\ cuts_left sd n.
Proof.
  unfold cuts_left. setoid_rewrite elem_of_cons. split.
  - intros H. split; [intros Hd; apply (H (f, p)); [by left|done]|]. intros fp Hin. apply H. by right.
  - intros [Hp Hsd] fp [->|Hin] Hd; [by apply Hp|by apply Hsd].
Qed.

(** One half of a split is done. *)
Lemma split_policy p w : k_done p = false -> 2 <= numCuts p ->
  pieces (splitPolicy p w).1 + pieces (splitPolicy p w).2 = pieces p /\
  (forall n, numCuts p <= n + 1 -> (k_done (splitPolicy p w).1 = false -> 2 <= numCuts (splitPolicy p w).1 <= n) /\
     (k_done (splitPolicy p w).2 = false -> 2 <= numCuts (splitPolicy p w).2 <= n)).
Proof.
  intros Hd Hk. unfold pieces, splitPolicy. rewrite Hd.
  set (b := SFltb _ _). clearbody b. cbn.
  destruct (Z.eqb_spec (numCuts p - 1) 1), b; cbn; split; try lia; intros n Hn; split; (lia || done).
Qed.

Lemma step_choices_spec n sd r l : cuts_left sd (n + 1) -> step_choices sd r = inr l ->
  cuts_left l n /\ all_pieces l <= all_pieces sd.
Proof.
  revert r l. induction sd as [|[f p] sd IH]; intros r l Hc; cbn [step_choices].
  { intros [= <-]. split; [apply cuts_left_nil|done]. }
  apply cuts_left_cons in Hc as [Hp Hc].
  assert (Hone : forall p', k_done p' = true -> forall r' l',
    (match step_choices sd r' with inl e => inl e | inr l => inr ((f, p') :: l) end) = inr l' ->
    1 <= pieces p -> cuts_left l' n /\ all_pieces l' <= all_pieces ((f, p) :: sd)).
  { intros p' Hd r' l'. destruct (step_choices sd r') as [e|l0] eqn:E; [done|]. intros [= <-] H1.
    apply IH in E as [E1 E2]; [|done]. split; [apply cuts_left_cons; rewrite Hd; done|].
    rewrite !all_pieces_cons. unfold pieces at 1. rewrite Hd. lia. }
  destruct (k_done p) eqn:Hd.
  { intros H. apply (Hone p) in H; [done|done|]. unfold pieces. by rewrite Hd. }
  specialize (Hp eq_refl). assert (H1 : 1 <= pieces p) by (unfold pieces; rewrite Hd; lia).
  destruct (pipelineHandler _ _ _ _ _) as [res r']. destruct res; try done; try (intros H; by eapply (Hone (set_done p true)) in H).
  destruct (functionSplitter _ _ _) as [[[src snk] f']|]; [|done].
  destruct (split_policy p (default S754_nan r')) as [Hsum Hn]; [done|lia|]. destruct (Hn n) as [Ha Hb]; [lia|].
  destruct (splitPolicy p (default S754_nan r')) as [p1 p2]. cbn [fst snd] in *.
  destruct (step_choices sd r') as [e|l0] eqn:E; [done|]. intros [= <-]. apply IH in E as [E1 E2]; [|done].
  split; [by rewrite !cuts_left_cons|]. rewrite !all_pieces_cons. lia.
Qed.

Lemma step_choices_fuel sd r : step_choices sd r <> inl SFuel.
Proof.
  revert r. induction sd as [|[f p] sd IH]; intros r; cbn [step_choices]; [done|].
  assert (Hone : forall r' p', (match step_choices sd r' with inl e => inl e | inr l => inr ((f, p') :: l) end) <> inl SFuel).
  { intros r' p'. specialize (IH r'). destruct (step_choices sd r'); congruence. }
  destruct (k_done p); [apply Hone|].
  destruct (pipelineHandler _ _ _ _ _) as [res r']. destruct res; try done; try apply Hone.
  destruct (functionSplitter _ _ _) as [[[src snk] f']|]; [|done].
  specialize (IH r'). destruct (step_choices sd r'); congruence.
Qed.

(** The search ends: a policy of [n] cuts is done after at most [n - 1] steps. *)
Lemma search_loop_spec fuel n sd : cuts_left sd n -> n < Z.of_nat fuel -> (0 < fuel)%nat ->
  search_loop fuel sd <> inl SFuel /\
  forall sd', search_loop fuel sd = inr sd' -> all_pieces sd' <= all_pieces sd /\ forall fp, fp ∈ sd' -> k_done fp.2 = true.
Proof.
  revert n sd. induction fuel as [|fuel IH]; intros n sd Hc Hn Hf; [lia|]. cbn [search_loop]. unfold stepSearch.
  destruct (step_choices sd None) as [e|l] eqn:E.
  { split; [|done]. intros [= ->]. by apply step_choices_fuel in E. }
  destruct (forallb (fun fp => k_done fp.2) sd) eqn:Hall.
  - split; [done|]. intros sd' [= <-]. split; [done|]. rewrite forallb_forall in Hall. intros fp Hin.
    apply Hall. by apply list_elem_of_In.
  - assert (Hn2 : 2 <= n).
    { apply not_true_iff_false in Hall. destruct (Z.leb_spec 2 n); [done|]. exfalso. apply Hall.
      apply forallb_forall. intros fp Hin. apply list_elem_of_In in Hin. destruct (k_done fp.2) eqn:Hd; [done|].
      specialize (Hc fp Hin Hd). lia. }
    replace n with (n - 1 + 1) in Hc by lia. apply (step_choices_spec (n - 1)) in E as [E1 E2]; [|done].
    destruct (IH (n - 1) l) as [H1 H2]; [done|lia|lia|]. split; [done|].
    intros sd' H. apply H2 in H as [H ?]. split; [lia|done].
Qed.

Lemma all_pieces_done sd : (forall fp, fp ∈ sd -> k_done fp.2 = true) -> all_pieces sd = Z.of_nat (length sd).
Proof.
  induction sd as [|[f p] sd IH]; intros H; [done|]. rewrite all_pieces_cons, IH by set_solver. unfold pieces.
  change (k_done p) with (k_done (f, p).2). rewrite (H (f, p)) by by left. cbn [length]. lia.
Qed.

Lemma kcut_start_spec m k t target : 2 <= k ->
  cuts_left (kcut_start m k t target) k /\ all_pieces (kcut_start m k t target) <= k * Z.of_nat (length (handlers m)).
Proof.
  intros Hk. unfold kcut_start. induction (handlers m) as [|f l [IH1 IH2]]; cbn [map].
  { split; [apply cuts_left_nil|cbn; lia]. }
  split; [apply cuts_left_cons; split; [cbn; lia|done]|].
  rewrite all_pieces_cons. unfold pieces. cbn [k_done set_done numCuts NetronomeKCutPolicy length].
  destruct (from_option _ _ _); lia.
Qed.

Lemma kcut_loop_spec m k target ts sd : 2 <= k ->
  kcut_loop m k target ts sd <> inl SFuel /\
  forall sd', kcut_loop m k target ts sd = inr sd' -> (length sd <= Z.to_nat (k * Z.of_nat (length (handlers m))))%nat ->
    Z.of_nat (length sd') <= k * Z.of_nat (length (handlers m)).
Proof.
  intros Hk. revert sd. induction ts as [|t ts IH]; intros sd; cbn [kcut_loop].
  { split; [done|]. intros sd' [= <-]. lia. }
  destruct (kcut_start_spec m k t target Hk) as [Hc Hp].
  destruct (search_loop_spec (S (Z.to_nat k)) k _ Hc) as [H1 H2]; [lia|lia|].
  destruct (search_loop _ _) as [e|sd1]; [split; [congruence|done]|].
  destruct (H2 sd1 eq_refl) as [H3 H4]. apply all_pieces_done in H4.
  destruct (from_option _ _ _).
  - split; [done|]. intros sd' [= <-] _. lia.
  - destruct (IH sd1) as [I1 I2]. split; [done|]. intros sd' E _. apply (I2 sd' E). lia.
Qed.
End Search.

(** ** Keys *)

Lemma key_step_spec l acc : acc.1 = None -> acc.2 = true ->
  match fold_left key_step l acc with
  | (None, b) => b = true /\ forall o, o ∈ l -> table_key o = None
  | (Some key, b) => (exists o, o ∈ l /\ table_key o = Some key) /\
      (b = true <-> forall o k, o ∈ l -> table_key o = Some k -> k = key)
  end.
Proof.
  destruct acc as [a b]. cbn. intros -> ->.
  induction l as [|o l IH] using rev_ind; cbn; [split; [done|]; by intros o ?%elem_of_nil|].
  rewrite fold_left_app. cbn [fold_left]. destruct (fold_left key_step l (None, true)) as [[key|] b] eqn:E; unfold key_step.
  - destruct IH as [(o0 & Ho0 & Hk0) IH]. destruct (table_key o) as [k|] eqn:Ek.
    + case_decide as Hd.
      * subst k. split; [exists o0; set_solver|]. rewrite IH. split; [|set_solver].
        intros H o' k' [Ho'| ->%list_elem_of_singleton]%elem_of_app Hk'; [by eapply H|congruence].
      * split; [exists o0; set_solver|]. split; [done|]. intros H. exfalso. apply Hd.
        symmetry. apply (H o k); [set_solver|done].
    + split; [exists o0; set_solver|]. rewrite IH. split; [|set_solver].
      intros H o' k' [Ho'| ->%list_elem_of_singleton]%elem_of_app Hk'; [by eapply H|congruence].
  - destruct IH as [-> IH]. destruct (table_key o) as [k|] eqn:Ek.
    + split; [exists o; set_solver|]. split; [|done]. intros _ o' k' [Ho'| ->%list_elem_of_singleton]%elem_of_app Hk'.
      * by rewrite IH in Hk'.
      * congruence.
    + split; [done|]. intros o' [Ho'| ->%list_elem_of_singleton]%elem_of_app; [by apply IH|done].
Qed.

(** A function is table clean when it reads or writes tables, all under one key. *)
Lemma isTableClean_spec f : isTableClean f = true <-> exists key,
  (exists o, o ∈ func_ops f /\ table_key o = Some key) /\
  forall o k, o ∈ func_ops f -> table_key o = Some k -> k = key.
Proof.
  unfold isTableClean. pose proof (key_step_spec (func_ops f) (None, true) eq_refl eq_refl) as H.
  destruct (fold_left _ _ _) as [[key|] b].
  - destruct H as [He Hb]. rewrite Hb. split; [eauto|]. intros (key' & (o' & Ho' & Hk') & Hall) o k Ho Hk.
    destruct He as (o0 & Ho0 & Hk0). rewrite (Hall o k Ho Hk). symmetry. by apply (Hall o0).
  - destruct H as [-> H]. split; [done|]. intros (key & (o & Ho & Hk) & _). by rewrite H in Hk.
Qed.
End KCut.
