(* ===== verification/Pipelining.v ===== *)
(** The pipelining of a handler from end to end: the cut of [Pipeline], the split of
    [Split] and the meaning of [SplitSem] for handlers whose operations act on values
    and on tables.  Concrete runs use the solver of [FlowSolver]. *)
From Stdlib Require Import ZArith Lia List String SpecFloat.
From stdpp Require Import base list numbers option gmap sets strings countable.
From S2P Require Import Prelude Flow FlowSolver MinCut Ir Pipeline Split SplitSem SplitCorrect KCut.
Import Flow MinCut Ir Pipeline Split SplitSem SplitCorrect KCut.
#[local] Open Scope Z_scope.

Module Pipelining.

(** ** Handlers on values and tables *)

Section Tables.
Context {D T : Type}.
Context (pure : op_kind -> list ty -> list (@rval D) -> option (list (@rval D))).
Context (table : op_kind -> list ty -> list (@rval D) -> T -> option (list (@rval D) * T)).

(** Lookups and updates act on the table they are given, everything else on values. *)
Definition table_sem (k : op_kind) (tys : list ty) (args : list (@rval D)) (w : gmap string T)
    : option (list (@rval D) * gmap string T) :=
  match k with
  | LookupOp | UpdateOp =>
      match args with
      | TableRef n :: rest => t ← w !! n; '(rs, t') ← table k tys rest t; Some (rs, <[n := t']> w)
      | _ => None
      end
  | _ => rs ← pure k tys args; Some (rs, w)
  end.

(** Tables are imported once, and used where they are imported. *)
Record tables_ok (body : list op) : Prop := TablesOk {
  tb_import : forall o, o ∈ body -> accesses_table o = true -> exists imp name rest,
    imp ∈ body /\ o_kind imp = GlobalImportOp name /\ o_operands o = OpResult (o_id imp) 0 :: rest;
  tb_once : forall i1 i2 name, i1 ∈ body -> i2 ∈ body ->
    o_kind i1 = GlobalImportOp name -> o_kind i2 = GlobalImportOp name -> i1 = i2;
  tb_returns : forall o, o ∈ body -> o_kind o = ReturnOp -> o_results o = [] }.

Context (f : func) (tys : list ty) (body : list op) (t : op).
Context (Hf : wf_func f) (Hs : straight f tys body t) (Hb : tables_ok body).

(** Imports hold their tables. *)
Definition imports_hold (e : gmap value (@rval D)) : Prop := forall imp name r,
  imp ∈ body -> o_kind imp = GlobalImportOp name -> e !! OpResult (o_id imp) 0 = Some r -> r = TableRef name.

Lemma imports_start args : imports_hold (args_env args).
Proof. intros imp name r _ _. by rewrite lookup_args_env. Qed.

Lemma imports_step o s s' : o ∈ body -> step table_sem o s = Some s' -> imports_hold (env s) -> imports_hold (env s').
Proof.
  intros Ho Hstep Hinv imp name r Hi Hk. unfold step in Hstep.
  destruct (read _ _) as [a|]; cbn in Hstep; [|done].
  destruct (effect _ _ _ _) as [[[rs out] w]|] eqn:E; cbn in Hstep; [|done].
  case_decide; [|done]. injection Hstep as <-. cbn. rewrite lookup_bind.
  case_decide as Hd; [|by apply Hinv]. destruct Hd as [Hid _].
  assert (imp = o) as <- by (eapply (op_unique f); [done|by eapply body_ops..|done]).
  unfold effect in E. rewrite Hk in E. injection E as <- _ _. cbn. congruence.
Qed.

(** What an operation does to the world goes through its table. *)
Lemma effect_table o a (w : gmap string T) rs out w' : effect table_sem o a w = Some (rs, out, w') ->
  (accesses_table o = false /\ w' = w /\ forall w0, effect table_sem o a w0 = Some (rs, out, w0)) \/
  (accesses_table o = true /\ exists n rest x x', a = TableRef n :: rest /\ w !! n = Some x /\ w' = <[n := x']> w /\
     forall w0, w0 !! n = Some x -> effect table_sem o a w0 = Some (rs, out, <[n := x']> w0)).
Proof.
  assert (Hpure : forall k tys, ('(rs, w') ← (rs ← pure k tys a; Some (rs, w)); Some (rs, [], w')) = Some (rs, out, w') ->
    w' = w /\ forall w0 : gmap string T, ('(rs, w') ← (rs ← pure k tys a; Some (rs, w0)); Some (rs, [], w')) = Some (rs, out, w0)).
  { intros k tys0. destruct (pure k tys0 a) as [rs0|]; cbn; [|done]. intros [= <- <- <-]. done. }
  unfold accesses_table, effect. destruct (o_kind o) eqn:Hk; cbn [table_sem];
    try (intros H; left; split; [done|]; first [by apply Hpure|by injection H as <- <- <-]).
  3: { destruct (o_results o) as [|r0 [|r1 rr]]; [..|destruct r0; try (intros H; left; split; [done|]; by apply Hpure)].
       - intros H; left; split; [done|]; by apply Hpure.
       - destruct r0; try (intros H; left; split; [done|]; by apply Hpure).
         destruct isEvent; [intros [= <- <- <-]; by left|intros H; left; split; [done|]; by apply Hpure].
       - destruct isEvent; intros H; left; (split; [done|]); by apply Hpure. }
  all: destruct a as [|[|n|] rest]; cbn; try done; destruct (w !! n) as [x|] eqn:Ex; cbn; [|done];
    destruct (table _ _ rest x) as [[rs0 x']|] eqn:Et; cbn; [|done]; intros [= <- <- <-]; right;
    split; [done|]; exists n, rest, x, x'; split_and!; [done..|]; intros w0 H0; by rewrite H0; cbn; rewrite Et.
Qed.

Lemma table_operand o e a n rest : o ∈ body -> accesses_table o = true -> imports_hold e ->
  read e (o_operands o) = Some a -> a = TableRef n :: rest ->
  exists imp, imp ∈ body /\ o_kind imp = GlobalImportOp n /\ OpResult (o_id imp) 0 ∈ o_operands o.
Proof.
  intros Ho Ha Hinv Hr ->. destruct (tb_import body Hb o Ho Ha) as (imp & name & vs & Hi & Hk & Hops).
  exists imp. split; [done|]. rewrite Hops in Hr |- *. split; [|by left].
  unfold read in Hr. cbn in Hr. destruct (e !! OpResult (o_id imp) 0) as [r|] eqn:E; cbn in Hr; [|done].
  apply (Hinv imp name) in E as ->; [|done..]. destruct (mapM _ vs); cbn in Hr; [|done].
  injection Hr as <- _. done.
Qed.

Context (ops : gset nat) (vals : gset value) (Hst : stages f ops vals).

Lemma tables_commute o1 o2 e a1 a2 w r1 out1 w1 r2 out2 w2 :
  o1 ∈ body -> o2 ∈ body -> o_id o1 ∈ ops -> o_id o2 ∉ ops -> imports_hold e ->
  read e (o_operands o1) = Some a1 -> read e (o_operands o2) = Some a2 ->
  effect table_sem o1 a1 w = Some (r1, out1, w1) -> effect table_sem o2 a2 w1 = Some (r2, out2, w2) ->
  exists w1', effect table_sem o2 a2 w = Some (r2, out2, w1') /\ effect table_sem o1 a1 w1' = Some (r1, out1, w2).
Proof.
  intros Ho1 Ho2 H1 H2 Hinv R1 R2 E1 E2.
  apply effect_table in E1 as [(_ & -> & Hp1)|(A1 & n1 & rest1 & x1 & y1 & Ha1 & X1 & -> & Hp1)]; [by exists w2|].
  apply effect_table in E2 as [(_ & -> & Hp2)|(A2 & n2 & rest2 & x2 & y2 & Ha2 & X2 & -> & Hp2)].
  { exists w. split; [done|by apply Hp1]. }
  destruct (table_operand o1 e a1 n1 rest1) as (i1 & Hi1 & K1 & O1); [done..|].
  destruct (table_operand o2 e a2 n2 rest2) as (i2 & Hi2 & K2 & O2); [done..|].
  assert (Hside : forall o i n, o ∈ body -> i ∈ body -> o_kind i = GlobalImportOp n -> accesses_table o = true ->
            OpResult (o_id i) 0 ∈ o_operands o -> o_id o ∈ ops <-> o_id i ∈ ops).
  { intros o i n Ho Hi Hk Ha Hin. apply (st_tables f ops vals Hst o i 0); [by eapply body_ops..| | |done].
    - unfold is_import. by rewrite Hk.
    - unfold accesses_table in Ha. by destruct (o_kind o). }
  assert (Hn : n1 <> n2).
  { intros <-. apply H2. rewrite (Hside o2 i2) by done.
    rewrite <- (tb_once body Hb i1 i2 n1), <- (Hside o1 i1 n1) by done. done. }
  rewrite lookup_insert_ne in X2 by done.
  exists (<[n2 := y2]> w). split; [by apply Hp2|]. rewrite (insert_insert_ne w n2 n1) by done.
  apply Hp1. by rewrite lookup_insert_ne.
Qed.

(** A pipelined handler does what the handler does. *)
Lemma stages_run to_vector : (forall s, to_vector s ≡ₚ elements s) -> exists src snk,
  functionSplitter to_vector f ops = Some (src, snk, f) /\
  forall args w r, run_func table_sem f args w = Some r -> run_stages table_sem src snk args w = Some r.
Proof.
  intros Hvec.
  assert (Hfw : forall o o' i, o ∈ func_ops f -> o' ∈ func_ops f ->
    OpResult (o_id o') i ∈ o_operands o -> o_id o' ∈ ops -> o_id o ∈ ops) by apply (st_forward f ops vals Hst).
  destruct (functionSplitter_straight to_vector Hvec f tys body t ops Hf Hs Hfw)
    as (at1 & tl1 & at2 & tys2 & tl2 & _ & _ & _ & E).
  eexists _, _. split; [exact E|]. intros args w r Hrun.
  destruct (split_run to_vector Hvec f tys body t ops Hf Hs Hfw table_sem imports_hold) with (args := args) (w := w) (r := r)
    as (src & snk & E' & H); [by intros; eapply imports_step| |apply tables_commute|apply imports_start|done|].
  - intros o Ho Hk. apply (st_returns f ops vals Hst); [by eapply body_ops|done|by apply (tb_returns body Hb)].
  - rewrite E in E'. injection E' as <- <-. exact H.
Qed.
End Tables.

(** ** A small handler *)

(** Boost's order: a vertex after all it has edges to. *)
Fixpoint sort_rounds (n : nat) (g : gmap vertex (gmap vertex Z)) (todo done_ : list vertex) : option (list vertex) :=
  match n, todo with
  | _, [] => Some done_
  | O, _ => None
  | S n', _ =>
      let ready := List.filter (fun u => forallb (fun e => bool_decide (e.1 ∈ done_)) (map_to_list (default ∅ (g !! u)))) todo in
      sort_rounds n' g (List.filter (fun u => negb (existsb (fun v => bool_decide (u = v)) ready)) todo) (done_ ++ ready)
  end.
Definition topological_sort (g : gmap vertex (gmap vertex Z)) : option (list vertex) :=
  sort_rounds (size (dom g)) g (elements (dom g)) [].

Definition vertex_flow : @solver vertex := FlowSolver.max_flow.
#[export] Instance vertex_flow_solver : FlowSolver vertex_flow := FlowSolver.max_flow_solver.

Definition i32 : ty := IntegerType 32.
Definition counter_body : list op :=
  [ Op 1 (GlobalImportOp "flows") [] [TableType i32 i32 1024] [];
    Op 2 LookupOp [OpResult 1 0; BlockArg 0 0] [i32] [];
    Op 3 AddOp [OpResult 2 0; BlockArg 0 1] [i32] [];
    Op 4 AddOp [OpResult 3 0; OpResult 3 0] [i32] [];
    Op 5 InitOp [OpResult 4 0] [StructType true [i32] "OUT"] [];
    Op 6 ReturnOp [OpResult 5 0] [] [] ].
Definition counter_end : op := Op 7 TerminateOp [] [] [].
Definition counter : func :=
  Func "count" {[ "type"%string := StringAttr "handler" ]} [Block [i32; i32] (counter_body ++ [counter_end])].
Definition counter_policy : PipelinePolicy :=
  policy_of (set_weight (NetronomeKCutPolicy 2 (literal 2 10)) (literal 9 10)).

Lemma counter_wf : wf_func counter.
Proof. by apply wf_func_b_spec. Qed.

Lemma counter_straight : straight counter [i32; i32] counter_body counter_end.
Proof.
  split; [done|done|done| |].
  - repeat constructor; by intros ?.
  - by apply ssa_b_spec.
Qed.

Ltac each_op H := unfold counter_body in H; repeat (apply elem_of_cons in H as [->|H]); try (by apply elem_of_nil in H).

Lemma counter_tables : tables_ok counter_body.
Proof.
  split.
  - intros o Ho Ha. each_op Ho; try done.
    exists (Op 1 (GlobalImportOp "flows") [] [TableType i32 i32 1024] []). eexists _, _. split; [by left|done].
  - intros i1 i2 name H1 H2 K1 K2. each_op H1; try done. each_op H2; done.
  - intros o Ho Hk. each_op Ho; done.
Qed.

Lemma policy_weights p : (forall v, 0 < valueWeight (policy_of p) v) /\ (forall o, 0 < operationWeight (policy_of p) o).
Proof. split; [done|]. intros o. cbn. unfold k_operationWeight. by destruct (o_kind o). Qed.

Lemma counter_cut : exists ops vals r, pipelineHandler counter_policy counter vertex_flow topological_sort None = (PCut ops vals, r) /\
  ops = {[4; 5; 6]}%nat.
Proof. eexists _, _, _. split; vm_compute; reflexivity. Qed.

(** ** The handler and its stages *)

Lemma cut_assertions policy f solver topo r ops vals r' :
  pipelineHandler policy f solver topo r = (PCut ops vals, r') -> assertions policy f = true.
Proof. unfold pipelineHandler. destruct (_ || _); [done|]. by destruct (assertions policy f). Qed.

Lemma pipeline_terminates_gen policy f solver topo r `{!FlowSolver solver} : wf_func f ->
  (forall v, 0 < valueWeight policy v) -> (forall o, 0 < operationWeight policy o) ->
  fst (pipelineHandler policy f solver topo r) <> PFuel.
Proof.
  intros Hf Hv Ho. unfold pipelineHandler. destruct (_ || _); [done|].
  destruct (assertions policy f) eqn:Ha; [|done]. cbn [negb].
  assert (H : forall n i last, fst last <> CutFuel -> fst (try_cuts policy f solver topo n i last) <> CutFuel).
  { induction n as [|n IH]; intros i last Hl; cbn [try_cuts]; [done|].
    assert (Hc : fst (one_cut policy f solver topo i (snd last)) <> CutFuel).
    { unfold one_cut. apply run_terminates; [done|done|by apply graph_is_ok|].
      unfold cut_fuel. apply Nat.lt_succ_r, unjoined_le. }
    destruct (fst (one_cut _ _ _ _ _ _)) eqn:E; try (by rewrite E). apply IH. by rewrite E. }
  specialize (H N_RAND_ITERS 0%nat (CutFail MIN_CUT_SUCCESS, r) ltac:(done)).
  destruct (fst (try_cuts _ _ _ _ _ _ _)) as [| | |]; cbn; [done| |done|done].
  by destruct (errMsgs !! _).
Qed.

(** C9: A cut makes stages of a pipeline: no operation of the source side reads a
    result of the sink side, every value the sink side reads and does not compute
    is transferred, operations on a table stay with its import, returns are in the
    sink, the users of a block argument stay with the branches that pass it, and
    the weight of the source side is within the tolerance of what was asked for.
    *)
Theorem pipeline_stages policy f solver topo r r' ops vals `{!FlowSolver solver} : wf_func f ->
  (forall v, 0 < valueWeight policy v) -> (forall o, 0 < operationWeight policy o) ->
  pipelineHandler policy f solver topo r = (PCut ops vals, r') ->
  stages f ops vals /\
  exists frac, r' = Some frac /\ balanced (f32_of_f64 (tolerance policy)) (sourceWeight policy) frac = true.
Proof.
  intros Hf Hv Ho H. pose proof (cut_assertions _ _ _ _ _ _ _ _ H) as Ha.
  apply pipelineHandler_cut in H as (S & frac & -> & -> & -> & Hc & _ & Hb & _); [|done..].
  split; [by eapply valid_cut_stages|]. by exists frac.
Qed.

Lemma pipeline_stages_witness : exists ops vals frac, stages counter ops vals /\ ops = {[4; 5; 6]}%nat /\
  balanced (f32_of_f64 (tolerance counter_policy)) (sourceWeight counter_policy) frac = true.
Proof.
  destruct counter_cut as (ops & vals & r & H & E). exists ops, vals.
  destruct (pipeline_stages counter_policy counter vertex_flow topological_sort None r ops vals)
    as [Hst (frac & _ & Hb)]; [exact counter_wf|apply policy_weights|apply policy_weights|exact H|].
  exists frac. auto.
Defined.

(** C11: Cutting a well-formed handler always returns: every round that does not
    return joins one more vertex to the source or to the sink by an infinite edge,
    so a round for each of twice the vertices is enough in each of the hundred
    attempts. *)
Theorem pipeline_terminates policy f solver topo r `{!FlowSolver solver} : wf_func f ->
  (forall v, 0 < valueWeight policy v) -> (forall o, 0 < operationWeight policy o) ->
  fst (pipelineHandler policy f solver topo r) <> PFuel.
Proof. intros. by apply pipeline_terminates_gen. Qed.

Lemma pipeline_terminates_witness :
  fst (pipelineHandler counter_policy counter vertex_flow topological_sort None) <> PFuel.
Proof.
  apply (pipeline_terminates counter_policy counter vertex_flow topological_sort None);
    [exact counter_wf|apply policy_weights|apply policy_weights].
Defined.

(** C10: When the balancing loop returns a set of vertices, with any maximum-flow
    solver, no infinite edge leaves the set, it keeps the pipeline constraints,
    its share of the weight is the one reported and within the tolerance, and it
    is a minimum cut of a graph that differs from the given one only by edges made
    infinite. *)
Theorem balanced_cut_sound {V} `{Countable V} solver topo (source sink : V) tol weight falseEdges v_weights constraints
    fuel round g r0 S r `{!FlowSolver solver} : source <> sink ->
  graph_ok source sink falseEdges v_weights g ->
  runBalancedMinCut solver topo source sink tol weight falseEdges v_weights constraints fuel round g r0 = (CutDone S, r) ->
  valid_cut source sink falseEdges constraints g S /\
  r = Some (frac_src_cut v_weights g S) /\
  balanced tol weight (frac_src_cut v_weights g S) = true /\
  exists g', raised g g' /\ min_cut source sink falseEdges g' S.
Proof. intros Hst Hok Hrun. apply run_sound in Hrun as (frac & -> & Hv & -> & Hb & Hm); done. Qed.

Definition diamond : gmap nat (gmap nat Z) :=
  {[ 0%nat := {[ 1%nat := 3; 2%nat := 5 ]}; 1%nat := {[ 3%nat := 4 ]}; 2%nat := {[ 3%nat := 1 ]}; 3%nat := ∅ ]}.
Definition diamond_weights : gmap nat Z := {[ 0%nat := 1; 1%nat := 1; 2%nat := 1; 3%nat := 1 ]}.
Definition nat_flow : @solver nat := FlowSolver.max_flow.
#[export] Instance nat_flow_solver : FlowSolver nat_flow := FlowSolver.max_flow_solver.
Definition diamond_run := runBalancedMinCut nat_flow (fun g => Some (elements (dom g))) 0%nat 3%nat
  (f32_of_f64 (literal 1 10)) (literal 3 4) [] diamond_weights [] 9 0 diamond None.

Lemma diamond_ok : graph_ok 0%nat 3%nat [] diamond_weights diamond.
Proof.
  assert (Hd : forall v, v ∈ dom diamond -> (v < 4)%nat).
  { intros v Hv. assert (E : dom diamond = {[0; 1; 2; 3]}%nat) by reflexivity. rewrite E in Hv. set_solver by lia. }
  split; [|by vm_compute|by vm_compute| |done].
  - intros u v c H.
    assert (Hall : Forall (fun e => e_src e ∈ dom diamond /\ e_dst e ∈ dom diamond) (base_edges diamond))
      by (vm_compute; repeat constructor; by vm_compute).
    rewrite list.Forall_forall in Hall. by apply (Hall (Edge u v c)), elem_of_base_edges.
  - intros v Hv%Hd. do 4 (destruct v as [|v]; [by vm_compute|]). lia.
Qed.

Lemma balanced_cut_sound_witness : exists S, fst diamond_run = CutDone S /\ 0%nat ∈ S /\ 3%nat ∉ S.
Proof.
  assert (Hrun : exists S r, diamond_run = (CutDone S, r)) by (eexists _, _; vm_compute; reflexivity).
  destruct Hrun as (S & r & Hrun). exists S. split; [by rewrite Hrun|].
  unfold diamond_run in Hrun.
  destruct (balanced_cut_sound nat_flow (fun g => Some (elements (dom g))) 0%nat 3%nat
    (f32_of_f64 (literal 1 10)) (literal 3 4) [] diamond_weights [] 9 0 diamond None S r) as [[Hs Ht _ _ _ _] _];
    [done|exact diamond_ok|exact Hrun|]. by split.
Defined.

(** C8: Cutting a straight-line handler and splitting it preserves its meaning:
    whenever the search for a cut succeeds on a well-formed handler whose
    operations act on values and on imported tables, functionSplitter succeeds,
    and running its source handler and then, on the event it sends, its sink
    handler sends the same events and leaves the same tables as the original
    handler, on all arguments and tables. *)
Theorem pipelined_handler {D T} pure table policy f tys body t solver topo to_vector r r' ops vals `{!FlowSolver solver} :
  (forall s, to_vector s ≡ₚ elements s) -> wf_func f -> straight f tys body t -> tables_ok body ->
  (forall v, 0 < valueWeight policy v) -> (forall o, 0 < operationWeight policy o) ->
  pipelineHandler policy f solver topo r = (PCut ops vals, r') ->
  exists src snk, functionSplitter to_vector f ops = Some (src, snk, f) /\
    forall args w res, run_func (@table_sem D T pure table) f args w = Some res ->
      run_stages (table_sem pure table) src snk args w = Some res.
Proof.
  intros Hvec Hf Hs Hb Hv Ho H. pose proof (cut_assertions _ _ _ _ _ _ _ _ H) as Ha.
  apply pipelineHandler_cut in H as (S & frac & -> & -> & -> & Hc & _); [|done..].
  eapply stages_run; [done..| |done]. by eapply valid_cut_stages.
Qed.

Definition z_pure (k : op_kind) (_ : list ty) (args : list (@rval Z)) : option (list (@rval Z)) :=
  match k, args with AddOp, [Data a; Data b] => Some [Data (wrap 32 (a + b))] | _, _ => None end.
Definition z_table (k : op_kind) (_ : list ty) (args : list (@rval Z)) (m : gmap Z Z) : option (list (@rval Z) * gmap Z Z) :=
  match k, args with
  | LookupOp, [Data a] => Some ([Data (default 0 (m !! a))], m)
  | UpdateOp, [Data a; Data b] => Some ([], <[a := b]> m)
  | _, _ => None
  end.

Lemma pipelined_handler_witness : exists ops src snk,
  functionSplitter elements counter ops = Some (src, snk, counter) /\ length (func_ops src) = 6%nat /\
  run_stages (table_sem z_pure z_table) src snk [Data 7; Data 5] {[ "flows"%string := {[ 7 := 10 ]} ]} =
    Some ([Event "OUT" [Data 30]], {[ "flows"%string := {[ 7 := 10 ]} ]}).
Proof.
  destruct counter_cut as (ops & vals & r & H & E). exists ops.
  destruct (pipelined_handler z_pure z_table counter_policy counter [i32; i32] counter_body counter_end vertex_flow
    topological_sort elements None r ops vals) as (src & snk & Hsplit & Hrun);
    [done|exact counter_wf|exact counter_straight|exact counter_tables|apply policy_weights|apply policy_weights|exact H|].
  exists src, snk. split; [exact Hsplit|]. split.
  - rewrite E in Hsplit. vm_compute in Hsplit. injection Hsplit as <- <-. done.
  - apply Hrun. vm_compute. reflexivity.
Defined.

(** C12: For two cuts or more the k-cut search ends by itself after at most k
    steps for each tolerance, and leaves at most k functions for each function of
    the module. *)
Theorem kcut_bounded solver topo to_vector m k targetFunc : 2 <= k ->
  kcutPolicy solver topo to_vector m k targetFunc <> inl SFuel /\
  forall m', kcutPolicy solver topo to_vector m k targetFunc = inr m' ->
    Z.of_nat (length m') <= k * Z.of_nat (length m).
Proof.
  intros Hk. unfold kcutPolicy.
  destruct (kcut_loop_spec solver topo to_vector m k targetFunc (tolerances 16 k (f32_of_f64 (literal 1 10))) [] Hk) as [H1 H2].
  destruct (kcut_loop _ _ _ _ _ _ _ _) as [e|sd]; [split; [congruence|done]|]. split; [done|].
  intros m' [= <-]. specialize (H2 sd eq_refl ltac:(cbn; lia)). unfold cleanupFuncs, handlers in *.
  rewrite length_app, length_map.
  pose proof (List.filter_length (fun f => negb (isExtern f) && isHandler f) m) as Hl.
  assert (Hx : List.filter (fun f => isExtern f || negb (isHandler f)) m =
    List.filter (fun x => negb (negb (isExtern x) && isHandler x)) m).
  { apply List.filter_ext. intros f. by destruct (isExtern f), (isHandler f). }
  rewrite Hx. rewrite Nat2Z.inj_add. apply (f_equal Z.of_nat) in Hl. rewrite Nat2Z.inj_add in Hl. cbn beta in Hl.
  set (others := Z.of_nat (length (List.filter (fun x => negb (negb (isExtern x) && isHandler x)) m))) in *.
  set (hs := Z.of_nat (length (List.filter (fun f => negb (isExtern f) && isHandler f) m))) in *.
  assert (0 <= others) by (unfold others; lia). clearbody others hs. rewrite <- Hl.
  assert (others <= k * others) by nia. lia.
Qed.

Definition counter_cuts := kcutPolicy vertex_flow topological_sort elements [counter] 2 None.
Lemma kcut_bounded_witness : counter_cuts <> inl SFuel /\
  forall m', counter_cuts = inr m' -> Z.of_nat (length m') <= 2.
Proof.
  unfold counter_cuts.
  destruct (kcut_bounded vertex_flow topological_sort elements [counter] 2 None) as [H1 H2]; [lia|].
  split; [exact H1|]. intros m' H. specialize (H2 m' H). cbn [length] in H2. lia.
Defined.

(** Ten cuts or more: no tolerance is tried, and every handler goes. *)
Lemma kcut_ten_erases solver topo to_vector m targetFunc :
  kcutPolicy solver topo to_vector m 10 targetFunc =
  inr (List.filter (fun f => isExtern f || negb (isHandler f)) m).
Proof.
  unfold kcutPolicy. assert (E : tolerances 16 10 (f32_of_f64 (literal 1 10)) = []) by by vm_compute.
  rewrite E. cbn. unfold cleanupFuncs. by rewrite app_nil_r.
Qed.

(** A clean handler that cannot be cut is erased. *)
Lemma table_policy_erases solver topo to_vector m f p :
  stepSearch solver topo to_vector [(f, set_weight (NetronomeKCutPolicy 2 (f64_of_f32 (tenth 1))) (f64_of_f32 (tenth 5)))] = inr [[(f, p)]] ->
  isTableClean f = true ->
  exists m', tableCutPolicy solver topo to_vector m f = inr (true, m') /\ forall g, g ∈ m' -> f_name g <> f_name f.
Proof.
  intros Hs Hc. unfold tableCutPolicy. assert (E : hd_error cutParams = Some (tenth 5, tenth 1)) by by vm_compute.
  destruct cutParams as [|wt params]; [done|]. injection E as ->. cbn [table_search]. rewrite Hs.
  cbn [existsb fst]. rewrite Hc. cbn [orb]. eexists. split; [done|]. intros g Hg. apply list_elem_of_In, filter_In in Hg as [_ Hg].
  by apply negb_true_iff, String.eqb_neq in Hg.
Qed.
End Pipelining.
