(* ===== verification/Mapping.v ===== *)
(** Mapping pipelines to compute units: the performance models of
    src/include/ep2/passes/Mapping.h, the greedy mapping of
    src/lib/ep2/Passes/Mapping/PerformanceModel.cpp, the mapper and the optimization loop
    (PipeliningPass.cpp), the order of the stages (PipelineCanonicalizePass.cpp) and
    simpleMapping (MappingUtils.cpp).

    [None] is a division by zero or an assertion.  An [int] compared with a [size_t] is
    converted to 64 unsigned bits. *)
From Stdlib Require Import ZArith Lia List String.
From stdpp Require Import base list numbers option gmap sets strings countable pretty.
From S2P Require Import Prelude Flow MinCut Ir Pipeline Split KCut Pipelining.
Import Ir Split KCut Pipelining.
#[local] Open Scope Z_scope.

Module Mapping.

(** ** Performance models *)

Record PerformanceModel := Model {
  getLatency : func -> Z;
  getCommunicationCost : list string -> list string -> Z;
  getLatencyTarget : Z;
  getComputeUnits : list string }.

Definition FPGAPerformanceModel : PerformanceModel := Model
  (fun f => fold_left (fun latency o => match o_kind o with LookupOp | UpdateOp => 3 | _ => latency end) (func_ops f) 1)
  (fun _ _ => 0) 1
  (map (fun i => "vcu" ++ pretty i)%string (seqZ 0 128)).

Definition netronome_cost (o : op) : Z :=
  match o_kind o with
  | LookupOp | UpdateOp => 100
  | AddOp | SubOp => 1
  | EmitOp | ExtractOp => 1
  | _ => 0
  end.
Definition NetronomePerformanceModel : PerformanceModel := Model
  (fun f => fold_left (fun latency o => latency + netronome_cost o) (func_ops f) 0)
  (fun _ _ => 0) 100
  (["cu0"; "cu1"; "cu2"; "cu3"; "cu4"; "cu5"; "cu6";
    "cu9"; "cu10"; "cu11"; "cu12"; "cu13"; "cu14"; "cu15";
    "cu16"; "cu17"; "cu18"; "cu19"; "cu20"; "cu21"; "cu22"; "cu23"]%string).

(** ** getMapping *)

Abbreviation UnitMap := (list (list string)).
Record MappingResult := Result { latency : Z; bottleneckIndex : nat; unitMap : UnitMap }.

Section Model.
Context (model : PerformanceModel).

Definition units_of (um : UnitMap) (idx : nat) : list string := default [] (um !! idx).

Definition getLatencyForUnit (idx : nat) (ops : list func) (um : UnitMap) : Z :=
  let commLatency :=
    if (idx <? length ops - 1)%nat then getCommunicationCost model (units_of um idx) (units_of um (S idx)) else 0 in
  from_option (getLatency model) 0 (ops !! idx) + commLatency.

(** The function is short of units, and may have one more. *)
Definition needs_unit (ops : list func) (um : UnitMap) (idx : nat) : bool :=
  let size := Z.of_nat (length (units_of um idx)) in
  (wrap 64 (wrap 64 (getLatencyTarget model) * size) <? wrap 64 (getLatencyForUnit idx ops um)) &&
  negb (negb (from_option isTableClean false (ops !! idx)) && (1 <=? size)).

(** [for (int idx = 0; idx < ops.size(); idx++)]: the first function that needs the unit. *)
Definition first_need (ops : list func) (um : UnitMap) : option nat :=
  List.find (needs_unit ops um) (seq 0 (length ops)).

Fixpoint assign (ops : list func) (units : list string) (um : UnitMap) : UnitMap :=
  match units with
  | [] => um
  | unit :: units' =>
      match first_need ops um with
      | Some idx => assign ops units' (<[idx := units_of um idx ++ [unit]]> um)
      | None => um
      end
  end.

(** The latency of a function on its units. *)
Definition share (ops : list func) (um : UnitMap) (idx : nat) : option Z :=
  let size := Z.of_nat (length (units_of um idx)) in
  if size =? 0 then None else Some (wrap 64 (getLatencyForUnit idx ops um) / size).

Definition to_int (x : Z) : Z := s32 (wrap 32 x).

Fixpoint bottleneck (ops : list func) (um : UnitMap) (idxs : list nat) (targetIndex : nat) (maxLatency : Z) : option (nat * Z) :=
  match idxs with
  | [] => Some (targetIndex, maxLatency)
  | idx :: idxs' =>
      totalLatency ← share ops um idx;
      if wrap 64 maxLatency <? totalLatency then bottleneck ops um idxs' idx (to_int totalLatency)
      else bottleneck ops um idxs' targetIndex maxLatency
  end.

Definition getMapping (ops : list func) : option MappingResult :=
  let um := assign ops (getComputeUnits model) (replicate (length ops) []) in
  '(targetIndex, maxLatency) ← bottleneck ops um (seq 0 (length ops)) 0%nat 0;
  Some (Result maxLatency targetIndex um).

(** ** PipelineMapper *)

Record PipelineMapper := Mapper { functions : list func; mappingResult : MappingResult }.
Definition new_mapper : PipelineMapper := Mapper [] (Result (getLatencyTarget model + 1000) 0 []).

Definition tryMap (m : PipelineMapper) (pipeline : list func) : option (bool * PipelineMapper) :=
  result ← getMapping pipeline;
  Some (if latency result <? latency (mappingResult m) then (true, Mapper pipeline result) else (false, m)).

(** The functions of the module after [finalize]: handlers that are not in the pipeline
    are removed, those that are have the attribute "instances". *)
Definition finalize (m : PipelineMapper) (funcs : list func) : list func :=
  List.filter (fun f => isExtern f || negb (isHandler f)) funcs ++
  imap (fun i f => setAttr "instances" (ArrayAttr (units_of (unitMap (mappingResult m)) i)) f) (functions m).

(** ** The optimization loop *)

Definition PIPELINE_EXTRA_SEARCH : nat := 1.

(** A PipelineCutExplorer. *)
Context (next : list func -> nat -> option (list (list func))).

Fixpoint optimizationLoop (fuel : nat) (pipelines : list (list func)) (m : PipelineMapper) (numNonOpts : nat)
    : option (option PipelineMapper) :=
  match fuel with
  | O => None
  | S fuel' =>
      match pipelines with
      | [] => Some (Some m)
      | pipeline :: rest =>
          match tryMap m pipeline with
          | None => Some None
          | Some (updated, m') =>
              let numNonOpts' := if updated then O else S numNonOpts in
              if (PIPELINE_EXTRA_SEARCH <=? numNonOpts')%nat then Some (Some m')
              else match next pipeline (bottleneckIndex (mappingResult m')) with
                   | None => Some None
                   | Some nexts => optimizationLoop fuel' (rest ++ nexts) m' numNonOpts'
                   end
          end
      end
  end.
End Model.

(** BottleneckExplorer, for a table cut whose pieces come in some order. *)
Definition bottleneck_next (tableCut : func -> option (bool * list func)) (pipeline : list func) (bottleneckIndex : nat)
    : option (list (list func)) :=
  f ← pipeline !! bottleneckIndex;
  '(success, newFuncs) ← tableCut f;
  Some (if success : bool then [take bottleneckIndex pipeline ++ newFuncs ++ drop (S bottleneckIndex) pipeline] else []).

(** ** The order of the stages *)

(** The keys of a [DenseMap<int, _>] that mark empty and erased buckets: asking for one, or
    adding it, fails an assertion. *)
Definition reserved (k : Z) : bool := (k =? 2 ^ 31 - 1) || (k =? - 2 ^ 31).

(** The body of the walk over the functions. *)
Definition add_stage (acc : option (gmap Z func)) (f : func) : option (gmap Z func) :=
  funcMap ← acc;
  if isHandler f && negb (isExtern f) then
    let index := generationIndex f in
    if reserved index then None
    else Some (match funcMap !! index with Some _ => funcMap | None => <[index := f]> funcMap end)
  else Some funcMap.

Definition getPipelineMap (funcs : list func) : option (gmap Z func) := fold_left add_stage funcs (Some ∅).

Fixpoint placeGeneration (fuel : nat) (funcMap : gmap Z func) (generation : Z) : option (list func) :=
  match fuel with
  | O => None
  | S fuel' =>
      if reserved generation then None
      else match funcMap !! generation with
           | Some f => Some [f]
           | None =>
               l ← placeGeneration fuel' funcMap (to_int (generation * 2));
               r ← placeGeneration fuel' funcMap (to_int (generation * 2 + 1));
               Some (l ++ r)
           end
  end.
Definition getPipeline (fuel : nat) (funcs : list func) : option (list func) :=
  funcMap ← getPipelineMap funcs; placeGeneration fuel funcMap 1.

(** ** simpleMapping *)

Definition cu_name (n : Z) : string := ("cu" ++ pretty n)%string.

(** [for (int i = 0; i < rep; i++) ... cuNumber++] *)
Definition take_units (rep cuNumber : Z) : list string := map cu_name (seqZ cuNumber (Z.max 0 rep)).

Fixpoint map_units (pipeline : list func) (replications : list Z) (cuNumber : Z) : list func :=
  match pipeline, replications with
  | f :: pipeline', rep :: replications' =>
      match f_attrs f !! "instances"%string with
      | Some _ => f :: map_units pipeline' replications' cuNumber
      | None => setAttr "instances" (ArrayAttr (take_units rep cuNumber)) f ::
                map_units pipeline' replications' (cuNumber + Z.max 0 rep)
      end
  | _, _ => []
  end.

Definition simpleMapping (pipeline : list func) (replications : option (list Z)) : option (list func) :=
  let replications := default (replicate (length pipeline) 1) replications in
  if decide (length replications = length pipeline) then Some (map_units pipeline replications 1) else None.

(** ** The greedy mapping *)

Section Greedy.
Context (model : PerformanceModel).

(** The numbers of the model are [int]s, and there are fewer units than 2^32. *)
Record model_ok : Prop := ModelOk {
  mo_target : 0 <= getLatencyTarget model < 2 ^ 31;
  mo_units : Z.of_nat (length (getComputeUnits model)) < 2 ^ 32;
  mo_nodup : NoDup (getComputeUnits model) }.
Definition latencies_ok (ops : list func) : Prop := forall idx um, (idx < length ops)%nat ->
  0 <= getLatencyForUnit model idx ops um < 2 ^ 31.

Context (Hmodel : model_ok) (ops : list func) (Hlat : latencies_ok ops).

Lemma wrap_small w x : 0 <= x < 2 ^ w -> wrap w x = x.
Proof. apply wrap_id. Qed.

Definition clean (idx : nat) : bool := from_option isTableClean false (ops !! idx).
Definition size_of (um : UnitMap) (idx : nat) : Z := Z.of_nat (length (units_of um idx)).

Lemma needs_unit_spec um idx : (idx < length ops)%nat -> size_of um idx < 2 ^ 32 ->
  needs_unit model ops um idx = true <->
  getLatencyTarget model * size_of um idx < getLatencyForUnit model idx ops um /\
  (clean idx = true \/ size_of um idx = 0).
Proof.
  intros Hi Hsize. pose proof (mo_target Hmodel) as Ht. pose proof (Hlat idx um Hi) as Hl.
  unfold needs_unit. fold (clean idx). fold (size_of um idx).
  assert (Hs0 : 0 <= size_of um idx) by (unfold size_of; lia).
  rewrite (wrap_small 64 (getLatencyTarget model)) by lia.
  rewrite (wrap_small 64 (getLatencyTarget model * size_of um idx)) by nia.
  rewrite (wrap_small 64 (getLatencyForUnit _ _ _ _)) by lia.
  rewrite andb_true_iff, negb_andb, negb_involutive, orb_true_iff, negb_true_iff, Z.ltb_lt, Z.leb_gt.
  split; intros [? [?|?]]; split; auto; right; lia.
Qed.

Lemma concat_push (um : UnitMap) idx l u : um !! idx = Some l ->
  concat (<[idx := l ++ [u]]> um) ≡ₚ concat um ++ [u].
Proof.
  revert idx. induction um as [|x um IH]; intros [|idx] H; cbn in *; [done|done| |].
  - injection H as ->. by rewrite <- !app_assoc, (Permutation_app_comm [u]).
  - rewrite IH by done. by rewrite app_assoc.
Qed.

Lemma units_push (um : UnitMap) idx u k : (idx < length um)%nat ->
  units_of (<[idx := units_of um idx ++ [u]]> um) k = if decide (k = idx) then units_of um idx ++ [u] else units_of um k.
Proof.
  intros Hi. unfold units_of. case_decide as Hk.
  - subst k. by rewrite list_lookup_insert_eq by done.
  - by rewrite list_lookup_insert_ne.
Qed.

Lemma first_need_some um idx : first_need model ops um = Some idx -> (idx < length ops)%nat /\ needs_unit model ops um idx = true.
Proof.
  intros H. apply find_some in H as [H1 H2]. apply in_seq in H1. split; [lia|done].
Qed.
Lemma first_need_none um idx : first_need model ops um = None -> (idx < length ops)%nat -> needs_unit model ops um idx = false.
Proof. intros H Hi. apply (find_none _ _ H). apply in_seq. lia. Qed.

(** What holds of the units in every round. *)
Record assigned (um : UnitMap) (used : list string) : Prop := Assigned {
  as_length : length um = length ops;
  as_units : concat um ≡ₚ used;
  as_single : forall idx, (idx < length ops)%nat -> clean idx = false -> size_of um idx <= 1;
  as_idle : forall idx, (forall um', getLatencyForUnit model idx ops um' = 0) -> units_of um idx = [] }.

Lemma size_used um used idx : assigned um used -> size_of um idx <= Z.of_nat (length used).
Proof.
  intros [_ Hp _ _]. rewrite <- Hp. unfold size_of, units_of. destruct (um !! idx) as [l|] eqn:E; cbn; [|lia].
  apply list_elem_of_split_length in E as (l1 & l2 & -> & _). rewrite concat_app. cbn. rewrite !length_app. lia.
Qed.

Lemma assign_spec units um used : assigned um used -> Z.of_nat (length used + length units) < 2 ^ 32 ->
  exists n, (n <= length units)%nat /\ assigned (assign model ops units um) (used ++ take n units) /\
    (n = length units \/ first_need model ops (assign model ops units um) = None).
Proof.
  revert um used. induction units as [|u units IH]; intros um used Ha Hlen; cbn [assign].
  { exists 0%nat. rewrite app_nil_r. auto. }
  destruct (first_need model ops um) as [idx|] eqn:E.
  - apply first_need_some in E as [Hi Hn].
    assert (Hum : (idx < length um)%nat) by by rewrite (as_length _ _ Ha).
    apply needs_unit_spec in Hn as [Hneed Hn]; [|done|pose proof (size_used um used idx Ha); lia].
    destruct (IH (<[idx := units_of um idx ++ [u]]> um) (used ++ [u])) as (n & Hle & Ha' & Hend).
    + split.
      * by rewrite length_insert, (as_length _ _ Ha).
      * apply lookup_lt_is_Some in Hum as [l Hl]. unfold units_of. rewrite Hl. cbn.
        rewrite concat_push by done. by rewrite (as_units _ _ Ha).
      * intros k Hk Hc. unfold size_of. rewrite units_push by done. case_decide as Hd; [|by apply (as_single _ _ Ha)].
        subst k. rewrite length_app. cbn. destruct Hn as [Hn|Hn]; [congruence|]. unfold size_of in Hn. lia.
      * intros k Hk. rewrite units_push by done. case_decide as Hd; [|by apply (as_idle _ _ Ha)].
        subst k. rewrite Hk in Hneed. pose proof (mo_target Hmodel). unfold size_of in Hneed. nia.
    + rewrite length_app. cbn in *. lia.
    + exists (S n). cbn [length take]. rewrite <- app_assoc in Ha'. split; [lia|]. split; [exact Ha'|].
      destruct Hend as [->|?]; auto.
  - exists 0%nat. rewrite app_nil_r. split; [lia|]. auto.
Qed.

Lemma share_spec um idx : (idx < length ops)%nat -> size_of um idx < 2 ^ 32 ->
  share model ops um idx = if size_of um idx =? 0 then None else Some (getLatencyForUnit model idx ops um / size_of um idx).
Proof.
  intros Hi Hs. unfold share. fold (size_of um idx). pose proof (Hlat idx um Hi).
  rewrite (wrap_small 64 (getLatencyForUnit _ _ _ _)) by lia. done.
Qed.

Definition share_of (um : UnitMap) (idx : nat) : Z := getLatencyForUnit model idx ops um / size_of um idx.

Lemma share_range um idx : (idx < length ops)%nat -> 0 < size_of um idx -> 0 <= share_of um idx < 2 ^ 31.
Proof.
  intros Hi Hs. pose proof (Hlat idx um Hi). unfold share_of. split; [apply Z.div_pos; lia|].
  apply Z.div_lt_upper_bound; nia.
Qed.

Lemma bottleneck_spec um idxs t0 m0 : (forall idx, idx ∈ idxs -> (idx < length ops)%nat /\ size_of um idx < 2 ^ 32) ->
  0 <= m0 < 2 ^ 31 ->
  match bottleneck model ops um idxs t0 m0 with
  | Some (t, m) => 0 <= m < 2 ^ 31 /\ m0 <= m /\ (forall idx, idx ∈ idxs -> 0 < size_of um idx /\ share_of um idx <= m) /\
      ((t = t0 /\ m = m0) \/ (t ∈ idxs /\ share_of um t = m))
  | None => exists idx, idx ∈ idxs /\ size_of um idx = 0
  end.
Proof.
  revert t0 m0. induction idxs as [|i idxs IH]; intros t0 m0 Hall Hm; cbn [bottleneck].
  { split_and!; [lia..| |by left]. intros idx H. by apply elem_of_nil in H. }
  destruct (Hall i) as [Hi Hs]; [by left|]. rewrite share_spec by done.
  assert (Hall' : forall idx, idx ∈ idxs -> (idx < length ops)%nat /\ size_of um idx < 2 ^ 32) by (intros; apply Hall; by right).
  assert (Hs0 : 0 <= size_of um i) by (unfold size_of; lia).
  destruct (Z.eqb_spec (size_of um i) 0) as [E|E]; cbn [mbind option_bind].
  { exists i. split; [by left|done]. }
  fold (share_of um i). pose proof (share_range um i Hi ltac:(lia)) as Hr.
  rewrite (wrap_small 64 m0) by lia.
  assert (Hint : to_int (share_of um i) = share_of um i).
  { unfold to_int. rewrite wrap_small by lia. unfold s32. destruct (Z.ltb_spec (share_of um i) (2 ^ 31)); lia. }
  destruct (Z.ltb_spec m0 (share_of um i)) as [Hlt|Hge].
  - rewrite Hint. specialize (IH i (share_of um i) Hall' Hr). destruct (bottleneck _ _ _ _ _ _) as [[t m]|].
    + destruct IH as (H1 & H2 & H3 & H4). split_and!; [lia..| |].
      * intros idx [->|Hin]%elem_of_cons; [split; lia|by apply H3].
      * right. destruct H4 as [[-> ->]|[H4 H5]]; [split; [by left|done]|split; [by right|done]].
    + destruct IH as (idx & Hin & H0). exists idx. split; [by right|done].
  - specialize (IH t0 m0 Hall' Hm). destruct (bottleneck _ _ _ _ _ _) as [[t m]|].
    + destruct IH as (H1 & H2 & H3 & H4). split_and!; [lia..| |].
      * intros idx [->|Hin]%elem_of_cons; [split; lia|by apply H3].
      * destruct H4 as [?|[H4 H5]]; [by left|right; split; [by right|done]].
    + destruct IH as (idx & Hin & H0). exists idx. split; [by right|done].
Qed.

(** The units [getMapping] hands out. *)
Definition mapping_of : UnitMap := assign model ops (getComputeUnits model) (replicate (length ops) []).

Lemma mapping_of_spec : exists n, (n <= length (getComputeUnits model))%nat /\
  assigned mapping_of (take n (getComputeUnits model)) /\
  (n = length (getComputeUnits model) \/ first_need model ops mapping_of = None).
Proof.
  destruct (assign_spec (getComputeUnits model) (replicate (length ops) []) []) as (n & H).
  - split; [apply length_replicate| | |].
    + induction (length ops); cbn; done.
    + intros idx _ _. unfold size_of, units_of.
      destruct (replicate (length ops) [] !! idx) as [l|] eqn:E; cbn; [|lia].
      apply lookup_replicate in E as [-> _]. cbn. lia.
    + intros idx _. unfold units_of. destruct (replicate (length ops) [] !! idx) as [l|] eqn:E; cbn; [|done].
      by apply lookup_replicate in E as [-> _].
  - cbn. apply (mo_units Hmodel).
  - exists n. exact H.
Qed.

Lemma mapping_size idx : size_of mapping_of idx < 2 ^ 32.
Proof.
  destruct mapping_of_spec as (n & Hn & Ha & _). pose proof (size_used _ _ idx Ha) as H.
  rewrite length_take in H. pose proof (mo_units Hmodel). lia.
Qed.

(** A good mapping: units are shared without overlap, functions that are not clean have
    one, no function can use another unit that is left, and the latency is the worst
    share. *)
Record good_mapping (r : MappingResult) : Prop := GoodMapping {
  gm_units : exists n, concat (unitMap r) ≡ₚ take n (getComputeUnits model) /\
    ((n < length (getComputeUnits model))%nat -> forall idx, (idx < length ops)%nat ->
       getLatencyForUnit model idx ops (unitMap r) <= getLatencyTarget model * size_of (unitMap r) idx \/
       (clean idx = false /\ size_of (unitMap r) idx = 1));
  gm_length : length (unitMap r) = length ops;
  gm_distinct : NoDup (concat (unitMap r));
  gm_some : forall idx, (idx < length ops)%nat -> 0 < size_of (unitMap r) idx;
  gm_single : forall idx, (idx < length ops)%nat -> clean idx = false -> size_of (unitMap r) idx = 1;
  gm_worst : forall idx, (idx < length ops)%nat -> share_of (unitMap r) idx <= latency r;
  gm_bottleneck : 0 < latency r -> (bottleneckIndex r < length ops)%nat /\ share_of (unitMap r) (bottleneckIndex r) = latency r;
  gm_latency : 0 <= latency r < 2 ^ 31 }.

Lemma getMapping_cases : match getMapping model ops with
  | Some r => good_mapping r
  | None => exists idx, (idx < length ops)%nat /\ units_of mapping_of idx = []
  end.
Proof.
  unfold getMapping. fold mapping_of. destruct mapping_of_spec as (n & Hn & Ha & Hend).
  pose proof (bottleneck_spec mapping_of (seq 0 (length ops)) 0%nat 0) as Hb.
  assert (Hseq : forall idx, idx ∈ seq 0 (length ops) <-> (idx < length ops)%nat) by (intros; rewrite elem_of_seq; lia).
  destruct (bottleneck _ _ _ _ _ _) as [[t m]|]; cbn [mbind option_bind].
  - destruct Hb as (H1 & _ & H3 & H4); [|lia|].
    { intros idx Hin. split; [by apply Hseq|apply mapping_size]. }
    split; cbn [unitMap latency bottleneckIndex].
    + exists n. split; [apply (as_units _ _ Ha)|]. intros Hlt idx Hi. destruct Hend as [->|Hend]; [lia|].
      pose proof (first_need_none _ idx Hend Hi) as Hf. apply not_true_iff_false in Hf.
      rewrite needs_unit_spec in Hf by (done || apply mapping_size).
      destruct (Z.le_gt_cases (getLatencyForUnit model idx ops mapping_of) (getLatencyTarget model * size_of mapping_of idx)) as [?|?]; [by left|right].
      destruct (clean idx) eqn:Ec; [tauto|]. split; [done|].
      pose proof (as_single _ _ Ha idx Hi Ec). assert (size_of mapping_of idx <> 0) by tauto. unfold size_of in *. lia.
    + apply (as_length _ _ Ha).
    + rewrite (as_units _ _ Ha). pose proof (mo_nodup Hmodel) as Hnd.
      rewrite <- (take_drop n (getComputeUnits model)) in Hnd. by apply NoDup_app in Hnd as [? _].
    + intros idx Hi. by apply H3, Hseq.
    + intros idx Hi Hc. pose proof (as_single _ _ Ha idx Hi Hc). destruct (H3 idx); [by apply Hseq|]. lia.
    + intros idx Hi. by apply H3, Hseq.
    + intros Hm. destruct H4 as [[_ ->]|[H4 H5]]; [lia|]. split; [by apply Hseq|done].
    + done.
  - destruct Hb as (idx & Hin & H0); [|lia|].
    { intros idx Hin. split; [by apply Hseq|apply mapping_size]. }
    exists idx. split; [by apply Hseq|]. unfold size_of in H0. destruct (units_of mapping_of idx); [done|]. cbn in H0. lia.
Qed.

(** Why a function is left without a unit. *)
Lemma unserved idx : (idx < length ops)%nat -> units_of mapping_of idx = [] ->
  getLatencyForUnit model idx ops mapping_of = 0 \/ concat mapping_of ≡ₚ getComputeUnits model.
Proof.
  intros Hi H0. destruct mapping_of_spec as (n & Hn & Ha & [->|Hend]).
  - right. rewrite (as_units _ _ Ha). by rewrite firstn_all.
  - left. pose proof (first_need_none _ idx Hend Hi) as Hf. apply not_true_iff_false in Hf.
    rewrite needs_unit_spec in Hf by (done || apply mapping_size). unfold size_of in Hf. rewrite H0 in Hf. cbn in Hf.
    pose proof (Hlat idx mapping_of Hi). lia.
Qed.

(** A function without latency gets no unit, and the division is by zero. *)
Lemma zero_latency_undefined idx : (idx < length ops)%nat ->
  (forall um, getLatencyForUnit model idx ops um = 0) -> getMapping model ops = None.
Proof.
  intros Hi Hz. unfold getMapping. fold mapping_of. destruct mapping_of_spec as (n & _ & Ha & _).
  pose proof (bottleneck_spec mapping_of (seq 0 (length ops)) 0%nat 0) as Hb.
  destruct (bottleneck _ _ _ _ _ _) as [[t m]|]; [|done]. exfalso.
  destruct Hb as (_ & _ & H3 & _); [|lia|].
  { intros k Hin. apply elem_of_seq in Hin. split; [lia|apply mapping_size]. }
  destruct (H3 idx) as [H _]; [apply elem_of_seq; lia|]. unfold size_of in H. by rewrite (as_idle _ _ Ha) in H.
Qed.
End Greedy.

(** ** The optimization loop *)

Section Loop.
Context (model : PerformanceModel) (Hmodel : model_ok model).
Context (next : list func -> nat -> option (list (list func))) (P : list func -> Prop).
Context (HP : forall p, P p -> latencies_ok model p)
  (Hnext : forall p b ps, P p -> next p b = Some ps -> Forall P ps).

(** What the mapper holds is a mapping of its functions, once it holds any. *)
Definition mapper_ok (m : PipelineMapper) : Prop :=
  0 <= latency (mappingResult m) <= getLatencyTarget model + 1000 /\
  (m = new_mapper model \/ (P (functions m) /\ getMapping model (functions m) = Some (mappingResult m))).

Lemma new_mapper_ok : mapper_ok (new_mapper model).
Proof. pose proof (mo_target model Hmodel). split; [cbn; lia|by left]. Qed.

Lemma tryMap_spec m p : mapper_ok m -> P p ->
  match tryMap model m p with
  | Some (true, m') => mapper_ok m' /\ latency (mappingResult m') < latency (mappingResult m)
  | Some (false, m') => m' = m
  | None => True
  end /\ (forall r u m', getMapping model p = Some r -> tryMap model m p = Some (u, m') ->
            latency (mappingResult m') <= latency r).
Proof.
  intros [Hm _] Hp. unfold tryMap. pose proof (getMapping_cases model Hmodel p (HP p Hp)) as Hc.
  destruct (getMapping model p) as [r|] eqn:E; cbn [mbind option_bind]; [|by split].
  destruct (Z.ltb_spec (latency r) (latency (mappingResult m))) as [Hlt|Hge].
  - split; [|intros r' u m' [= <-] [= <- <-]; cbn; lia]. split; [|done].
    pose proof (gm_latency _ _ _ Hc). split; [cbn; lia|by right].
  - split; [done|]. intros r' u m' [= <-] [= <- <-]. lia.
Qed.

Lemma loop_spec fuel ps m : mapper_ok m -> Forall P ps -> (Z.to_nat (latency (mappingResult m)) < fuel)%nat ->
  exists res, optimizationLoop model next fuel ps m 0 = Some res /\
    forall m', res = Some m' -> mapper_ok m' /\ latency (mappingResult m') <= latency (mappingResult m) /\
      (forall p r ps', ps = p :: ps' -> getMapping model p = Some r -> latency (mappingResult m') <= latency r).
Proof.
  revert ps m. induction fuel as [|fuel IH]; intros ps m Hm Hps Hf; [lia|]. cbn [optimizationLoop].
  destruct ps as [|p ps]; [eexists; split; [done|]; intros m' [= <-]; split_and!; [done|done|done]|].
  apply list.Forall_cons in Hps as [Hp Hps]. destruct (tryMap_spec m p Hm Hp) as [Ht Hr].
  destruct (tryMap model m p) as [[[|] m1]|]; cbn [Nat.leb PIPELINE_EXTRA_SEARCH].
  - destruct Ht as [Hm1 Hlt]. destruct (next p _) as [nexts|] eqn:En; [|by eexists].
    destruct (IH (ps ++ nexts) m1) as (res & E & Hres); [done| | |].
    + apply Forall_app. split; [done|]. by eapply Hnext.
    + destruct Hm1 as [? _]. lia.
    + exists res. split; [exact E|]. intros m' ->. destruct (Hres m' eq_refl) as (H1 & H2 & _).
      split_and!; [done|lia|]. intros p0 r ps' [= <- _] Hg. specialize (Hr r true m1 Hg eq_refl). lia.
  - subst m1. eexists. split; [done|]. intros m' [= <-]. split_and!; [done|done|].
    intros p0 r ps' [= <- _] Hg. by apply (Hr r false m Hg).
  - by eexists.
Qed.

(** A first mapping that is too slow is not taken, and the loop ends with no pipeline. *)
Lemma loop_gives_up fuel f r : getMapping model [f] = Some r -> getLatencyTarget model + 1000 <= latency r ->
  optimizationLoop model next (S fuel) [[f]] (new_mapper model) 0 = Some (Some (new_mapper model)) /\
  forall funcs, finalize (new_mapper model) funcs = List.filter (fun f => isExtern f || negb (isHandler f)) funcs.
Proof.
  intros Hg Hl. split; [|intros funcs; unfold finalize; cbn; by rewrite app_nil_r].
  cbn [optimizationLoop]. unfold tryMap. rewrite Hg. cbn [mbind option_bind].
  destruct (Z.ltb_spec (latency r) (latency (mappingResult (new_mapper model)))); [cbn in *; lia|done].
Qed.
End Loop.

Lemma netronome_ok : model_ok NetronomePerformanceModel.
Proof.
  split; [cbn; lia|cbn; lia|]. apply (bool_decide_eq_true_1 (NoDup _)). by vm_compute.
Qed.
Lemma fpga_ok : model_ok FPGAPerformanceModel.
Proof.
  split; [cbn; lia|vm_compute; done|]. apply (bool_decide_eq_true_1 (NoDup _)). by vm_compute.
Qed.

Lemma netronome_latency f : 0 <= getLatency NetronomePerformanceModel f <= 100 * Z.of_nat (length (func_ops f)).
Proof.
  cbn. assert (H : forall l a, 0 <= a -> a <= fold_left (fun latency o => latency + netronome_cost o) l a <= a + 100 * Z.of_nat (length l)).
  { induction l as [|o l IH]; intros a Ha; cbn [fold_left length]; [lia|].
    assert (0 <= netronome_cost o <= 100) by (unfold netronome_cost; destruct (o_kind o); lia).
    specialize (IH (a + netronome_cost o) ltac:(lia)). lia. }
  specialize (H (func_ops f) 0 ltac:(lia)). lia.
Qed.

(** No communication cost: a pipeline is in range when its functions have fewer than
    20 million operations. *)
Lemma netronome_latencies_ok p : Forall (fun f => Z.of_nat (length (func_ops f)) <= 20000000) p ->
  latencies_ok NetronomePerformanceModel p.
Proof.
  intros Hp idx um Hi. unfold getLatencyForUnit. apply lookup_lt_is_Some in Hi as [f Hf]. rewrite Hf. cbn [from_option].
  rewrite list.Forall_forall in Hp. specialize (Hp f (list_elem_of_lookup_2 _ _ _ Hf)).
  pose proof (netronome_latency f). set (lat := getLatency NetronomePerformanceModel f) in *. clearbody lat.
  destruct (_ <? _)%nat; cbn; lia.
Qed.

(** ** Split trees *)

(** How a handler was split: the source left, the sink right. *)
Inductive tree := Leaf (f : func) | Node (l r : tree).
Fixpoint leaves (t : tree) : list func := match t with Leaf f => [f] | Node l r => leaves l ++ leaves r end.
Fixpoint depth (t : tree) : nat := match t with Leaf _ => 0 | Node l r => S (Nat.max (depth l) (depth r)) end.

Definition stage_handler (f : func) : Prop := isHandler f = true /\ isExtern f = false.

(** Every function has the index of its place below [g]. *)
Fixpoint indexed (g : Z) (t : tree) : Prop :=
  match t with
  | Leaf f => generationIndex f = g /\ stage_handler f
  | Node l r => indexed (g * 2) l /\ indexed (g * 2 + 1) r
  end.

(** Every index in the tree is below 2^30. *)
Definition small (g : Z) (t : tree) : Prop := (g + 1) * 2 ^ Z.of_nat (depth t) <= 2 ^ 30.

Lemma small_here g t : 1 <= g -> small g t -> g < 2 ^ 30.
Proof. unfold small. intros Hg H. assert (1 <= 2 ^ Z.of_nat (depth t)) by (apply Z.lt_pred_le, Z.pow_pos_nonneg; lia). nia. Qed.

Lemma small_sides g l r : 1 <= g -> small g (Node l r) -> small (g * 2) l /\ small (g * 2 + 1) r.
Proof.
  unfold small. intros Hg. cbn [depth]. rewrite Nat2Z.inj_succ, Z.pow_succ_r by lia. intros H.
  assert (2 ^ Z.of_nat (depth l) <= 2 ^ Z.of_nat (Nat.max (depth l) (depth r))) by (apply Z.pow_le_mono_r; lia).
  assert (2 ^ Z.of_nat (depth r) <= 2 ^ Z.of_nat (Nat.max (depth l) (depth r))) by (apply Z.pow_le_mono_r; lia).
  assert (0 < 2 ^ Z.of_nat (depth l)) by lia. assert (0 < 2 ^ Z.of_nat (depth r)) by lia. split; nia.
Qed.

Lemma small_mono g t t' : 1 <= g -> (depth t <= depth t')%nat -> small g t' -> small g t.
Proof.
  unfold small. intros Hg Hd. assert (2 ^ Z.of_nat (depth t) <= 2 ^ Z.of_nat (depth t')) by (apply Z.pow_le_mono_r; lia). nia.
Qed.

Lemma to_int_id n : 0 <= n < 2 ^ 31 -> to_int n = n.
Proof. intros H. unfold to_int, s32. rewrite wrap_id by (unfold in_word; lia). destruct (Z.ltb_spec n (2 ^ 31)); lia. Qed.

Lemma not_reserved n : 0 <= n < 2 ^ 31 - 1 -> reserved n = false.
Proof. intros H. unfold reserved. apply orb_false_iff. split; apply Z.eqb_neq; lia. Qed.

Inductive below (g : Z) : Z -> Prop :=
  | below_here : below g g
  | below_left k : below (g * 2) k -> below g k
  | below_right k : below (g * 2 + 1) k -> below g k.

Lemma below_ge g k : below g k -> 1 <= g -> g <= k.
Proof. induction 1; lia. Qed.

Lemma below_power g k : below g k -> exists d r, 0 <= d /\ 0 <= r < 2 ^ d /\ k = g * 2 ^ d + r.
Proof.
  induction 1 as [g|g k _ (d & r & Hd & Hr & ->)|g k _ (d & r & Hd & Hr & ->)].
  - exists 0, 0. lia.
  - exists (d + 1), r. rewrite Z.pow_add_r by lia. lia.
  - exists (d + 1), (r + 2 ^ d). rewrite Z.pow_add_r by lia. lia.
Qed.

(** The two sides of a node are apart. *)
Lemma below_apart g k : 1 <= g -> below (g * 2) k -> below (g * 2 + 1) k -> False.
Proof.
  intros Hg (d & r & Hd & Hr & ->)%below_power (d' & r' & Hd' & Hr' & E)%below_power.
  destruct (Z.lt_trichotomy d d') as [H|[->|H]].
  - assert (2 ^ d' = 2 ^ d * 2 ^ (d' - d)) as Hp by (rewrite <- Z.pow_add_r by lia; f_equal; lia).
    assert (2 <= 2 ^ (d' - d)) by (change 2 with (2 ^ 1) at 1; apply Z.pow_le_mono_r; lia).
    assert (0 < 2 ^ d) by lia. rewrite Hp in E. nia.
  - nia.
  - assert (2 ^ d = 2 ^ d' * 2 ^ (d - d')) as Hp by (rewrite <- Z.pow_add_r by lia; f_equal; lia).
    assert (2 <= 2 ^ (d - d')) by (change 2 with (2 ^ 1) at 1; apply Z.pow_le_mono_r; lia).
    assert (0 < 2 ^ d') by lia. rewrite Hp in E, Hr. set (q := 2 ^ (d - d')) in *. clearbody q.
    set (x := 2 ^ d') in *. clearbody x. assert (0 <= r) by lia.
    assert (2 * g * q <= 2 * g + 1 \/ 2 * g + 2 <= 2 * g * q) as [H'|H'] by lia; nia.
Qed.

Fixpoint lookup_tree (t : tree) (g k : Z) : option func :=
  match t with
  | Leaf f => if k =? g then Some f else None
  | Node l r => match lookup_tree l (g * 2) k with Some f => Some f | None => lookup_tree r (g * 2 + 1) k end
  end.

Lemma lookup_tree_below t g k f : lookup_tree t g k = Some f -> below g k.
Proof.
  revert g. induction t as [f'|l IHl r IHr]; intros g; cbn.
  - destruct (Z.eqb_spec k g) as [->|]; [constructor|done].
  - destruct (lookup_tree l _ k) eqn:E; [intros [= ->]; apply below_left; by eapply IHl|].
    intros H. apply below_right. by apply IHr.
Qed.

Lemma lookup_tree_leaf t g k f : 1 <= g -> indexed g t ->
  lookup_tree t g k = Some f <-> f ∈ leaves t /\ generationIndex f = k.
Proof.
  revert g. induction t as [f'|l IHl r IHr]; intros g Hg; cbn.
  - intros [<- _]. rewrite list_elem_of_singleton. destruct (Z.eqb_spec k (generationIndex f')) as [->|]; naive_solver.
  - intros [Hl Hr]. rewrite elem_of_app. specialize (IHl (g * 2) ltac:(lia) Hl). specialize (IHr (g * 2 + 1) ltac:(lia) Hr).
    destruct (lookup_tree l (g * 2) k) as [f0|] eqn:E.
    + split.
      * intros H%IHl. tauto.
      * intros [[H|H] Hk]; [by apply IHl|]. exfalso. eapply below_apart; [exact Hg|by eapply lookup_tree_below|].
        eapply lookup_tree_below. by apply IHr.
    + rewrite IHr. split; [tauto|]. intros [[H|H] Hk]; [|done]. exfalso.
      assert (None = Some f) by by apply IHl. done.
Qed.

Lemma place_tree fuel t g m : 1 <= g -> small g t -> indexed g t -> (depth t < fuel)%nat ->
  (forall k, below g k -> m !! k = lookup_tree t g k) -> placeGeneration fuel m g = Some (leaves t).
Proof.
  revert t g. induction fuel as [|fuel IH]; intros t g Hg Hsm Hi Hd Hm; [lia|]. cbn [placeGeneration].
  pose proof (small_here g t Hg Hsm) as Hg30. rewrite not_reserved, !to_int_id by lia.
  rewrite (Hm g) by constructor. destruct t as [f|l r]; cbn in Hi, Hd |- *; [by rewrite Z.eqb_refl|].
  assert (Hnone : forall t' g' f, lookup_tree t' g' g = Some f -> g < g' -> False).
  { intros t' g' f H%lookup_tree_below Hlt. apply below_ge in H; lia. }
  destruct (lookup_tree l (g * 2) g) as [f|] eqn:E1; [exfalso; eapply Hnone; [exact E1|lia]|].
  destruct (lookup_tree r (g * 2 + 1) g) as [f|] eqn:E2; [exfalso; eapply Hnone; [exact E2|lia]|].
  destruct Hi as [Hl Hr]. destruct (small_sides g l r Hg Hsm) as [Hsl Hsr].
  rewrite (IH l (g * 2)); [|lia|done|done|lia|].
  - cbn [mbind option_bind]. rewrite (IH r (g * 2 + 1)); [done|lia|done|done|lia|].
    intros k Hk. rewrite Hm by by apply below_right. cbn.
    destruct (lookup_tree l (g * 2) k) eqn:E; [|done]. exfalso.
    eapply below_apart; [exact Hg|by eapply lookup_tree_below|done].
  - intros k Hk. rewrite Hm by by apply below_left. cbn. destruct (lookup_tree l (g * 2) k); [done|].
    destruct (lookup_tree r (g * 2 + 1) k) eqn:E; [|done]. exfalso.
    eapply below_apart; [exact Hg|done|by eapply lookup_tree_below].
Qed.

Definition staged (f : func) : bool := isHandler f && negb (isExtern f).

Lemma lookup_pipeline_map funcs : (forall f, f ∈ funcs -> staged f = true -> reserved (generationIndex f) = false) ->
  exists m : gmap Z func, getPipelineMap funcs = Some m /\
    forall k, m !! k = List.find (fun f => staged f && (generationIndex f =? k)) funcs.
Proof.
  unfold getPipelineMap. intros Hres.
  assert (H : forall m0 : gmap Z func, exists m : gmap Z func, fold_left add_stage funcs (Some m0) = Some m /\
    forall k, m !! k = match m0 !! k with Some f => Some f | None => List.find (fun f => staged f && (generationIndex f =? k)) funcs end).
  { induction funcs as [|f funcs IH]; intros m0; [exists m0; split; [done|]; intros k; cbn; by destruct (m0 !! k)|].
    cbn [fold_left]. assert (Hr : staged f = true -> reserved (generationIndex f) = false) by (apply Hres; by constructor).
    specialize (IH (fun g Hg => Hres g (list_elem_of_further g f funcs Hg))).
    unfold add_stage at 2. fold (staged f). cbn [List.find mbind option_bind]. destruct (staged f) eqn:Es; cbn [andb]; [|apply IH]. rewrite Hr by done.
    edestruct IH as (m & -> & Hm). exists m. split; [done|]. intros k. rewrite Hm. clear IH Hm.
    destruct (m0 !! generationIndex f) as [f0|] eqn:E.
    - destruct (Z.eqb_spec (generationIndex f) k) as [<-|]; [by rewrite E|done].
    - destruct (Z.eqb_spec (generationIndex f) k) as [<-|].
      + by rewrite lookup_insert_eq, E.
      + by rewrite lookup_insert_ne. }
  destruct (H ∅) as (m & Hm & Hk). exists m. split; [exact Hm|]. intros k. rewrite Hk. by rewrite lookup_empty.
Qed.

Lemma indexed_bound g t f : 1 <= g -> small g t -> indexed g t -> f ∈ leaves t -> 1 <= generationIndex f < 2 ^ 30.
Proof.
  revert g. induction t as [f'|l IHl r IHr]; intros g Hg Hs; cbn.
  - intros [<- _] ->%list_elem_of_singleton. split; [done|]. by apply small_here in Hs.
  - destruct (small_sides g l r Hg Hs) as [Hsl Hsr].
    intros [Hl Hr] [H|H]%elem_of_app; [by apply (IHl (g * 2)); [lia|..]|by apply (IHr (g * 2 + 1)); [lia|..]].
Qed.

Lemma indexed_staged g t f : indexed g t -> f ∈ leaves t -> stage_handler f.
Proof.
  revert g. induction t as [f'|l IHl r IHr]; intros g; cbn.
  - by intros [_ H] ->%list_elem_of_singleton.
  - intros [Hl Hr] [H|H]%elem_of_app; [by eapply IHl|by eapply IHr].
Qed.

(** The pipeline of a module whose handlers are the leaves of a split tree. *)
Lemma pipeline_of_tree t funcs others : small 1 t -> indexed 1 t -> funcs ≡ₚ leaves t ++ others ->
  (forall f, f ∈ others -> staged f = false) ->
  forall fuel, (depth t < fuel)%nat -> getPipeline fuel funcs = Some (leaves t).
Proof.
  intros Hsm Hi Hp Ho fuel Hf. destruct (lookup_pipeline_map funcs) as (m & Em & Hm).
  { intros f Hin Hst. rewrite Hp in Hin. apply elem_of_app in Hin as [Hin|Hin]; [|by rewrite Ho in Hst].
    pose proof (indexed_bound 1 t f ltac:(lia) Hsm Hi Hin). apply not_reserved. lia. }
  unfold getPipeline. rewrite Em. cbn [mbind option_bind]. apply place_tree; [lia|done|done|done|]. intros k _. rewrite Hm.
  destruct (List.find _ funcs) as [f|] eqn:E.
  - apply find_some in E as [Hin Hk]. rewrite <- list_elem_of_In in Hin. apply andb_true_iff in Hk as [Hs Hk].
    apply Z.eqb_eq in Hk. rewrite Hp in Hin. symmetry. apply lookup_tree_leaf; [lia|done|]. split; [|done].
    apply elem_of_app in Hin as [?|Hin]; [done|]. apply Ho in Hin. congruence.
  - destruct (lookup_tree t 1 k) as [f|] eqn:El; [|done]. exfalso.
    apply lookup_tree_leaf in El as [Hin Hk]; [|lia|done]. pose proof (indexed_staged _ _ _ Hi Hin) as [H1 H2].
    apply (find_none _ _) with (x := f) in E.
    + unfold staged in E. rewrite H1, H2 in E. cbn in E. apply Z.eqb_neq in E. lia.
    + apply list_elem_of_In. rewrite Hp. apply elem_of_app. by left.
Qed.

(** ** Splitting *)

Lemma erase_attrs f d f' : erase_op f d = Some f' -> f_attrs f' = f_attrs f.
Proof. unfold erase_op. destruct (existsb _ _); [done|]. by intros [= <-]. Qed.
Lemma eraseOpsIf_attrs p f f' : eraseOpsIf p f = Some f' -> f_attrs f' = f_attrs f.
Proof.
  unfold eraseOpsIf. generalize (map o_id (List.filter p (func_ops f))) as l. intros l. revert f'.
  induction l as [|d l IH]; intros f'; cbn; [by intros [= <-]|].
  destruct (fold_right _ _ l) as [f0|]; cbn; [|done]. intros H%erase_attrs. by rewrite H, IH.
Qed.
Lemma tryAddTerminator_attrs f : f_attrs (tryAddTerminator f) = f_attrs f.
Proof. unfold tryAddTerminator. destruct (list.last (f_blocks f)) as [b|]; [|done]. by destruct (from_option _ _ _). Qed.
Lemma collapse_attrs i f f' : collapse_block i f = Some f' -> f_attrs f' = f_attrs f.
Proof.
  assert (Hm : f_attrs (merge_block i f) = f_attrs f) by (unfold merge_block; by destruct (f_blocks f !! i), (f_blocks f !! pred i)).
  unfold collapse_block. set (f1 := if bool_decide _ then _ else f).
  assert (H1 : f_attrs f1 = f_attrs f) by (unfold f1; by case_bool_decide).
  destruct (f_blocks f1 !! i) as [[args [|o l]]|]; [|by intros [= <-]..].
  unfold erase_block. destruct (existsb _ _); [done|]. by intros [= <-].
Qed.
Lemma removeEmptyBlocks_attrs f f' : removeEmptyBlocks f = Some f' -> f_attrs f' = f_attrs f.
Proof.
  unfold removeEmptyBlocks. generalize (seq 1 (pred (length (f_blocks f)))) as l. intros l. revert f'.
  induction l as [|i l IH]; intros f'; cbn; [by intros [= <-]|].
  destruct (fold_right _ _ l) as [f0|]; cbn; [|done]. intros H%collapse_attrs. by rewrite H, IH.
Qed.
Lemma createGenerate_attrs f n vs f' : createGenerate f n vs = Some f' -> f_attrs f' = f_attrs f.
Proof.
  unfold createGenerate. destruct (list.last (f_blocks f)) as [b|]; cbn; [|done].
  destruct (list.last (b_ops b)) as [t|]; cbn; [|done]. destruct (negb _); [done|]. by intros [= <-].
Qed.

Lemma eraseArguments_attrs n f f' : eraseArguments n f = Some f' -> f_attrs f' = f_attrs f.
Proof.
  unfold eraseArguments. destruct (existsb _ _); [done|]. destruct (f_blocks f) as [|[a o] bs]; [done|]. by intros [= <-].
Qed.
Lemma addArguments_attrs tys f : f_attrs (addArguments tys f) = f_attrs f.
Proof. unfold addArguments. by destruct (f_blocks f) as [|[a o] bs]. Qed.
Lemma replace_attrs (to : nat * value -> value) l f :
  f_attrs (fold_left (fun f p => replaceAllUsesWith f p.2 (to p)) l f) = f_attrs f.
Proof. revert f. induction l as [|p l IH]; intros f; cbn; [done|]. by rewrite IH. Qed.

Lemma make_sink_attrs sink name gen values copy k : make_sink sink name gen values copy = Some k ->
  f_attrs k = <["generationIndex"%string := IntegerAttr (to_int (gen * 2 + 1))]> {[ "type"%string := StringAttr "handler" ]}.
Proof.
  unfold make_sink. cbv zeta. destruct (eraseOpsIf _ _) as [k1|] eqn:E1; cbn [mbind option_bind]; [|done].
  destruct (eraseArguments _ k1) as [k2|] eqn:E2; cbn [mbind option_bind]; [|done]. intros [= <-]. cbn [setAttr f_attrs].
  apply eraseOpsIf_attrs in E1. apply eraseArguments_attrs in E2. rewrite replace_attrs, addArguments_attrs in E1.
  by rewrite tryAddTerminator_attrs, E2, E1.
Qed.
Lemma make_source_attrs sink name gen copy s : make_source sink name gen copy = Some s ->
  f_attrs s = <["generationIndex"%string := IntegerAttr (to_int (gen * 2))]> (f_attrs copy).
Proof.
  unfold make_source. destruct (eraseOpsIf _ _) as [s1|] eqn:E1; cbn [mbind option_bind]; [|done]. intros [= <-].
  apply eraseOpsIf_attrs in E1. cbn [setAttr f_attrs]. by rewrite tryAddTerminator_attrs, E1.
Qed.

Lemma numbered_handler f g n : f_attrs f = <["generationIndex"%string := IntegerAttr n]> (f_attrs g) ->
  stage_handler g -> generationIndex f = to_int n /\ stage_handler f.
Proof.
  intros Hf. unfold generationIndex, stage_handler, isHandler, isExtern. rewrite Hf.
  by rewrite lookup_insert_eq, !lookup_insert_ne by done.
Qed.

(** The pieces of a handler are handlers, numbered twice its number and one more. *)
Lemma splitter_indices to_vector f ops src snk f' : stage_handler f ->
  functionSplitter to_vector f ops = Some (src, snk, f') ->
  (generationIndex src = to_int (to_int (generationIndex f * 2)) /\ stage_handler src) /\
  (generationIndex snk = to_int (to_int (generationIndex f * 2 + 1)) /\ stage_handler snk).
Proof.
  intros [Hh He]. unfold functionSplitter. cbv zeta.
  destruct (createGenerate f _ _) as [copy|] eqn:Ec; cbn [mbind option_bind]; [|done]. apply createGenerate_attrs in Ec.
  destruct (make_sink _ _ _ _ _) as [k|] eqn:Ek; cbn [mbind option_bind]; [|done].
  destruct (make_source _ _ _ _) as [s|] eqn:Es; cbn [mbind option_bind]; [|done].
  destruct (removeEmptyBlocks f) as [f0|]; cbn [mbind option_bind]; [|done].
  destruct (removeEmptyBlocks k) as [k'|] eqn:Rk; cbn [mbind option_bind]; [|done]. apply removeEmptyBlocks_attrs in Rk.
  destruct (removeEmptyBlocks s) as [s'|] eqn:Rs; cbn [mbind option_bind]; [|done]. apply removeEmptyBlocks_attrs in Rs.
  intros [= <- <- <-]. apply make_sink_attrs in Ek. apply make_source_attrs in Es. split.
  - apply (numbered_handler s' f); [by rewrite Rs, Es, Ec|done].
  - apply (numbered_handler k' (Func "" {[ "type"%string := StringAttr "handler" ]} [])); [by rewrite Rk, Ek|done].
Qed.

Section Splits.
Context (to_vector : gset value -> list value).

(** Splitting one function of the tree, and naming the pieces. *)
Inductive split_step : tree -> tree -> Prop :=
  | split_leaf f ops src snk f' n1 n2 : functionSplitter to_vector f ops = Some (src, snk, f') ->
      split_step (Leaf f) (Node (Leaf (setName n1 src)) (Leaf (setName n2 snk)))
  | split_left l l' r : split_step l l' -> split_step (Node l r) (Node l' r)
  | split_right l r r' : split_step r r' -> split_step (Node l r) (Node l r').

Lemma split_step_indexed t t' g : split_step t t' -> 1 <= g -> small g t' -> indexed g t -> indexed g t'.
Proof.
  intros H. revert g. induction H as [f ops src snk f' n1 n2 H|l l' r|l r r']; intros g Hg Hs.
  - destruct (small_sides _ _ _ Hg Hs) as [Hs1 Hs2].
    pose proof (small_here (g * 2) _ ltac:(lia) Hs1) as Hb1. pose proof (small_here (g * 2 + 1) _ ltac:(lia) Hs2) as Hb2. cbn.
    intros [<- Hst]. apply splitter_indices in H as [[H1 H2] [H3 H4]]; [|done].
    rewrite !(to_int_id (generationIndex f * 2)) in H1 by lia.
    rewrite !(to_int_id (generationIndex f * 2 + 1)) in H3 by lia. done.
  - destruct (small_sides _ _ _ Hg Hs) as [? _]. cbn. intros [? ?]. split; [|done]. apply IHsplit_step; [lia|done|done].
  - destruct (small_sides _ _ _ Hg Hs) as [_ ?]. cbn. intros [? ?]. split; [done|]. apply IHsplit_step; [lia|done|done].
Qed.

Lemma split_step_depth t t' : split_step t t' -> (depth t <= depth t')%nat.
Proof. induction 1; cbn; lia. Qed.
End Splits.

Lemma split_steps_indexed to_vector t t' g : rtc (split_step to_vector) t t' -> 1 <= g -> small g t' ->
  indexed g t -> indexed g t'.
Proof.
  intros H. revert t' H. refine (rtc_ind_r _ _ _ _); [done|]. intros t1 t2 _ H IH Hg Hs Hi.
  eapply split_step_indexed; [exact H|done|done|]. apply IH; [done| |done].
  eapply small_mono; [done| |exact Hs]. by eapply split_step_depth.
Qed.

(** ** Units by number *)

Lemma cu_name_inj n n' : cu_name n = cu_name n' -> n = n'.
Proof. unfold cu_name. intros H%(inj (String.append "cu")). by apply (inj pretty) in H. Qed.

Lemma take_units_app rep a b : 0 <= b -> take_units rep a ++ map cu_name (seqZ (a + Z.max 0 rep) b) =
  map cu_name (seqZ a (Z.max 0 rep + b)).
Proof. intros Hb. unfold take_units. by rewrite <- map_app, <- seqZ_app by lia. Qed.

Definition instances (f : func) : list string :=
  match f_attrs f !! "instances"%string with Some (ArrayAttr l) => l | _ => [] end.

Definition total (reps : list Z) : Z := fold_right (fun r s => Z.max 0 r + s) 0 reps.
Lemma total_nonneg reps : 0 <= total reps.
Proof. unfold total. induction reps as [|r reps IH]; cbn [fold_right]; lia. Qed.

Lemma map_units_spec p reps n : length reps = length p ->
  Forall (fun f => f_attrs f !! "instances"%string = None) p ->
  concat (map instances (map_units p reps n)) = map cu_name (seqZ n (total reps)) /\
  Forall2 (fun f r => Z.of_nat (length (instances f)) = Z.max 0 r) (map_units p reps n) reps.
Proof.
  revert reps n. induction p as [|f p IH]; intros [|r reps] n Hlen Hf; cbn in Hlen; [|lia..|]; [done|].
  apply list.Forall_cons in Hf as [Hf Hp]. destruct (IH reps (n + Z.max 0 r) ltac:(lia) Hp) as [H1 H2].
  cbn [map_units]. rewrite Hf. cbn [map concat]. rewrite H1. change (total (r :: reps)) with (Z.max 0 r + total reps).
  assert (Hi : instances (setAttr "instances" (ArrayAttr (take_units r n)) f) = take_units r n).
  { unfold instances, setAttr. cbn. by rewrite lookup_insert_eq. }
  rewrite Hi. split; [apply take_units_app, total_nonneg|]. constructor; [|done].
  rewrite Hi. unfold take_units. rewrite length_map, length_seqZ. lia.
Qed.

(** ** The properties *)

(** A function of [n] lookups. *)
Definition lookups (name : string) (n : nat) : func :=
  Func name {[ "type"%string := StringAttr "handler" ]}
    [Block [i32] (map (fun i => Op i LookupOp [] [AnyType] []) (seq 0 n))].

Lemma lookups_ok l : (forall f, f ∈ l -> exists name n, f = lookups name n /\ Z.of_nat n <= 20000000) ->
  latencies_ok NetronomePerformanceModel l.
Proof.
  intros H. apply netronome_latencies_ok, list.Forall_forall. intros f Hf. destruct (H f Hf) as (name & n & -> & Hn).
  unfold func_ops. cbn. by rewrite app_nil_r, length_map, length_seq.
Qed.

(** C13: getMapping hands the compute units out greedily: it gives distinct units
    of the model to the functions, at least one to each and only one to a function
    whose table accesses do not share one key, keeps none back that a function
    over the target could use, and returns the worst share of a latency and the
    function that has it; when it divides by zero, a function has no unit because
    its latency is zero or because the units ran out. *)
Theorem getMapping_correct model ops : model_ok model -> latencies_ok model ops ->
  match getMapping model ops with
  | Some r => good_mapping model ops r
  | None => exists idx, (idx < length ops)%nat /\ units_of (mapping_of model ops) idx = [] /\
      (getLatencyForUnit model idx ops (mapping_of model ops) = 0 \/
       concat (mapping_of model ops) ≡ₚ getComputeUnits model)
  end.
Proof.
  intros Hm Hl. pose proof (getMapping_cases model Hm ops Hl) as H. destruct (getMapping model ops) as [r|]; [done|].
  destruct H as (idx & Hi & H0). exists idx. split; [done|]. split; [done|].
  by apply unserved.
Qed.

Lemma getMapping_correct_witness : exists r,
  getMapping NetronomePerformanceModel [lookups "a" 3; lookups "b" 2] = Some r /\
  good_mapping NetronomePerformanceModel [lookups "a" 3; lookups "b" 2] r.
Proof.
  assert (Hl : latencies_ok NetronomePerformanceModel [lookups "a" 3; lookups "b" 2]).
  { apply lookups_ok. intros f [->|[->|[]%elem_of_nil]%elem_of_cons]%elem_of_cons; eexists _, _; (split; [reflexivity|lia]). }
  pose proof (getMapping_correct NetronomePerformanceModel _ netronome_ok Hl) as H.
  destruct (getMapping NetronomePerformanceModel [lookups "a" 3; lookups "b" 2]) as [r|] eqn:E; [exists r; exact (conj eq_refl H)|].
  vm_compute in E. discriminate.
Defined.

(** C15: The optimization loop ends: every round but the last lowers the latency
    of the mapper, which starts 1000 above the target, whatever the explorer
    proposes.  What it ends with maps its functions as getMapping does, no slower
    than the handler itself, or is the empty mapper it began with. *)
Theorem optimization_loop model next P f : model_ok model ->
  (forall p, P p -> latencies_ok model p) -> (forall p b ps, P p -> next p b = Some ps -> Forall P ps) -> P [f] ->
  exists res, optimizationLoop model next (S (Z.to_nat (getLatencyTarget model + 1000))) [[f]] (new_mapper model) 0 = Some res /\
    forall m, res = Some m ->
      (m = new_mapper model \/ getMapping model (functions m) = Some (mappingResult m)) /\
      (forall r, getMapping model [f] = Some r -> latency (mappingResult m) <= latency r).
Proof.
  intros Hm HP Hnext Hf.
  destruct (loop_spec model Hm next P HP Hnext (S (Z.to_nat (getLatencyTarget model + 1000))) [[f]] (new_mapper model)) as (res & E & H).
  - by apply new_mapper_ok.
  - by constructor.
  - cbn. lia.
  - exists res. split; [exact E|]. intros m ->. destruct (H m eq_refl) as ([_ Hok] & _ & Hr). split; [tauto|].
    intros r. by apply (Hr [f] r []).
Qed.

(** The pieces of a handler of [n] lookups that is cut in the middle. *)
Definition halve (f : func) : option (bool * list func) :=
  let n := length (func_ops f) in
  Some (Nat.leb 2 n, [lookups "source" (Nat.div2 n); lookups "sink" (n - Nat.div2 n)]).

Lemma optimization_loop_witness : exists res,
  optimizationLoop NetronomePerformanceModel (bottleneck_next halve) 1101 [[lookups "f" 4]]
    (new_mapper NetronomePerformanceModel) 0 = Some res /\
  forall m, res = Some m -> latency (mappingResult m) <= 400.
Proof.
  destruct (optimization_loop NetronomePerformanceModel (bottleneck_next halve)
    (Forall (fun f => exists name n, f = lookups name n /\ Z.of_nat n <= 20000000)) (lookups "f" 4)) as (res & E & H).
  - exact netronome_ok.
  - intros p Hp. apply lookups_ok. by apply list.Forall_forall.
  - intros p b ps Hp. unfold bottleneck_next. destruct (p !! b) as [f|] eqn:Ef; [|discriminate].
    pose proof (proj1 (list.Forall_forall _ _) Hp f (list_elem_of_lookup_2 _ _ _ Ef)) as (name & n & -> & Hn).
    assert (Hlen : length (func_ops (lookups name n)) = n) by (unfold func_ops; cbn; by rewrite app_nil_r, length_map, length_seq).
    cbn [mbind option_bind halve]. rewrite Hlen. pose proof (Nat.div2_decr n n ltac:(lia)).
    clear Ef Hlen. intros H1. injection H1 as <-. destruct n as [|[|n]]; [constructor..|]. cbn [Nat.leb]. constructor; [|constructor].
    apply Forall_app. split; [by apply Forall_take|]. set (d := Nat.div2 _) in *. clearbody d.
    constructor; [exists "source"%string, d; split; [reflexivity|lia]|].
    constructor; [exists "sink"%string, (S (S n) - d)%nat; split; [reflexivity|lia]|]. by apply Forall_drop.
  - constructor; [|constructor]. eexists _, _. split; [reflexivity|lia].
  - exists res. split; [exact E|]. intros m Hres. destruct (H m Hres) as [_ Hr].
    destruct (getMapping NetronomePerformanceModel [lookups "f" 4]) as [r|] eqn:Eg; [|vm_compute in Eg; discriminate].
    etransitivity; [by apply Hr|]. vm_compute in Eg. injection Eg as <-. done.
Defined.

(** C14: However a handler is split, in any order, with less than 30 splits inside
    one another (the generation index, which every split doubles, is an int), the
    indices put the pieces back in order: getPipeline finds the pieces of the
    handler from source to sink, in a module that lists its functions in any
    order. *)
Theorem stages_in_order to_vector f t funcs others fuel :
  stage_handler f -> generationIndex f = 1 -> rtc (split_step to_vector) (Leaf f) t ->
  funcs ≡ₚ leaves t ++ others -> (forall g, g ∈ others -> isHandler g = false \/ isExtern g = true) ->
  (depth t < 30)%nat -> (depth t < fuel)%nat -> getPipeline fuel funcs = Some (leaves t).
Proof.
  intros Hf Hg Ht Hp Ho Hd Hfuel.
  assert (Hs : small 1 t).
  { unfold small. assert (2 ^ Z.of_nat (depth t) <= 2 ^ 29) by (apply Z.pow_le_mono_r; lia). lia. }
  apply (pipeline_of_tree t funcs others); [done| |done| |done].
  - by apply (split_steps_indexed _ _ _ 1 Ht).
  - intros g Hin. unfold staged. by destruct (Ho g Hin) as [->| ->]; [|rewrite andb_false_r].
Qed.

Lemma stages_in_order_witness : exists src snk, functionSplitter elements counter {[4; 5; 6]}%nat = Some (src, snk, counter) /\
  getPipeline 2 [setName "b" snk; Func "init" ∅ []; setName "a" src] = Some [setName "a" src; setName "b" snk].
Proof.
  destruct (functionSplitter elements counter {[4; 5; 6]}%nat) as [[[src snk] f']|] eqn:E; [|vm_compute in E; discriminate].
  exists src, snk. split; [f_equal; vm_compute in E; by injection E as <- <- <-|].
  apply (stages_in_order elements counter (Node (Leaf (setName "a" src)) (Leaf (setName "b" snk))) _ [Func "init" ∅ []]).
  - split; reflexivity.
  - reflexivity.
  - eapply rtc_once, split_leaf. exact E.
  - apply (Permutation_app_comm [setName "b" snk; Func "init" ∅ []] [setName "a" src]).
  - intros g ->%list_elem_of_singleton. by left.
  - cbn. lia.
  - cbn. lia.
Defined.

(** Thirty splits deep the index does not fit any more: the source of a handler with index
    2^30 gets the key that marks erased buckets, and getPipeline fails. *)
Lemma deep_split_fails to_vector f ops src snk f' : stage_handler f -> generationIndex f = 2 ^ 30 ->
  functionSplitter to_vector f ops = Some (src, snk, f') -> generationIndex src = - 2 ^ 31 /\
  forall fuel, getPipeline fuel [src; snk] = None.
Proof.
  intros Hf Hg H. apply splitter_indices in H as [[H1 [H2 H3]] _]; [|done]. rewrite Hg in H1.
  change (to_int (to_int (2 ^ 30 * 2))) with (- 2 ^ 31) in H1. split; [done|]. intros fuel.
  unfold getPipeline, getPipelineMap, add_stage. cbn [fold_left mbind option_bind]. rewrite H2, H3, H1. done.
Qed.

(** simpleMapping gives each stage of a pipeline that has no compute units
    yet the number of replications asked for, one by default: the units are cu1,
    cu2 and so on, in the order of the pipeline and with no unit used twice;
    another number of replications than stages is an error. *)
Theorem simpleMapping_units p reps : Forall (fun f => f_attrs f !! "instances"%string = None) p ->
  match simpleMapping p reps with
  | None => exists l, reps = Some l /\ length l <> length p
  | Some p' => let r := default (replicate (length p) 1) reps in
      concat (map instances p') = map cu_name (seqZ 1 (total r)) /\ NoDup (concat (map instances p')) /\
      Forall2 (fun f n => Z.of_nat (length (instances f)) = Z.max 0 n) p' r
  end.
Proof.
  intros Hp. unfold simpleMapping. case_decide as Hl.
  - destruct (map_units_spec p _ 1 Hl Hp) as [H1 H2]. cbv zeta. split; [done|]. split; [|done].
    rewrite H1. apply (NoDup_fmap_2_strong cu_name); [intros ? ? _ _; apply cu_name_inj|apply NoDup_seqZ].
  - destruct reps as [l|]; [by exists l|]. cbn in Hl. by rewrite length_replicate in Hl.
Qed.

Lemma simpleMapping_units_witness : exists p', simpleMapping [lookups "a" 1; lookups "b" 2] (Some [2; 1]) = Some p' /\
  map instances p' = [["cu1"; "cu2"]; ["cu3"]]%string /\ NoDup (concat (map instances p')).
Proof.
  pose proof (simpleMapping_units [lookups "a" 1; lookups "b" 2] (Some [2; 1])) as H.
  destruct (simpleMapping [lookups "a" 1; lookups "b" 2] (Some [2; 1])) as [p'|] eqn:E; [|vm_compute in E; discriminate].
  exists p'. split; [reflexivity|]. split; [vm_compute in E; by injection E as <-|].
  apply H. by repeat constructor.
Defined.

(** ** What is lost *)

(** A handler of no cost has no compute unit, and getMapping divides by zero. *)
Lemma free_handler_undefined : getMapping NetronomePerformanceModel [lookups "f" 0] = None.
Proof. by vm_compute. Qed.

(** A handler whose tables cannot be cut into clean pieces and that costs 1100 cycles is
    not mapped at all: the pass erases it. *)
Definition slow_handler : func :=
  Func "slow" {[ "type"%string := StringAttr "handler" ]}
    [Block [i32; i32] (map (fun i => Op i LookupOp [OpResult 90 0; BlockArg 0 (i mod 2)] [AnyType] []) (seq 0 11))].
Lemma slow_handler_erased fuel next : exists r, getMapping NetronomePerformanceModel [slow_handler] = Some r /\ latency r = 1100 /\
  optimizationLoop NetronomePerformanceModel next (S fuel) [[slow_handler]] (new_mapper NetronomePerformanceModel) 0 =
    Some (Some (new_mapper NetronomePerformanceModel)) /\
  finalize (new_mapper NetronomePerformanceModel) [slow_handler] = [].
Proof.
  destruct (getMapping NetronomePerformanceModel [slow_handler]) as [r|] eqn:E; [|vm_compute in E; discriminate].
  exists r. assert (Hr : latency r = 1100) by (vm_compute in E; by injection E as <-). split; [done|]. split; [done|].
  destruct (loop_gives_up NetronomePerformanceModel next fuel slow_handler r E) as [H1 H2]; [rewrite Hr; done|].
  split; [exact H1|apply (H2 [slow_handler])].
Qed.
End Mapping.
