(* ===== verification/MlirGen.v ===== *)
(** src/ep2c/MLIRGen.cpp: from syntax trees to the ep2 dialect.  Values are the ids of
    their operations, regions are lists of operations, the builder's insertion point
    is the end of the block being built.

    A function that returns null (or failure) is [Fail]; reading through a null pointer
    and a failed assertion are [Crash].  Diagnostics and locations are not modelled.
    Calls in the arguments of one call run from left to right. *)
From Stdlib Require Import ZArith Lia List String.
From stdpp Require Import base list numbers option gmap strings countable.
From S2P Require Import Prelude Lexer Ast Ir.
Import Ast Ir.
#[local] Open Scope Z_scope.

Module MlirGen.

(** ** Types *)

Fixpoint ty_eqb (a b : ty) : bool :=
  match a, b with
  | AnyType, AnyType | BufferType, BufferType | AtomType, AtomType | ContextType, ContextType
  | NoneType, NoneType | UnrankedTensorType, UnrankedTensorType | NullType, NullType => true
  | IntegerType w, IntegerType w' => w =? w'
  | StructType ev ts n, StructType ev' ts' n' =>
      Bool.eqb ev ev' && String.eqb n n' &&
      (fix go l l' := match l, l' with
                      | [], [] => true
                      | t :: l, t' :: l' => ty_eqb t t' && go l l'
                      | _, _ => false
                      end) ts ts'
  | TableType k v s, TableType k' v' s' => ty_eqb k k' && ty_eqb v v' && (s =? s')
  | ContextRefType t, ContextRefType t' => ty_eqb t t'
  | PortType i o, PortType i' o' => Bool.eqb i i' && Bool.eqb o o'
  | OpaqueType n, OpaqueType n' => String.eqb n n'
  | _, _ => false
  end.

Definition is_null (t : ty) : bool := match t with NullType => true | _ => false end.
Definition is_integer (t : ty) : bool := match t with IntegerType _ => true | _ => false end.
Definition is_port (t : ty) : bool := match t with PortType _ _ => true | _ => false end.

(** ** Operations *)

Inductive const_attr := IntAttr (n : Z) | StrAttr (s : string) | PortAttr (event atom : string) (instance : Z).
Inductive struct_attr := NumberElement (n : Z) | StructElement (l : list struct_attr).

Inductive gkind :=
  | GConstant (a : const_attr) | GStructConstant (l : list struct_attr) | GBitCast
  | GAdd | GSub | GMul | GCmp (predicate : Z)
  | GContextRef (name : string) | GLoad | GStore | GNop
  | GStructAccess (index : nat) | GStructUpdate (index : nat)
  | GReturn | GConnect (method : string) (ins : nat) (parameters : list const_attr)
  | GExtract | GEmit | GLookup | GUpdate | GBitSet (offset : Z) | GBitGet (offset : Z)
  | GCall (callee : string) | GInit | GGlobal (name : string) | GGlobalImport (name : string)
  | GIf | GYield | GTerminate.

(** An operation with its operands, the types of its results and its regions. *)
Inductive gop := GOp (id : nat) (kind : gkind) (operands : list value) (results : list ty) (regions : list (list gop)).

Definition op_kind_of (o : gop) : gkind := let 'GOp _ k _ _ _ := o in k.

(** ** The state of the generator *)

(** An entry of the symbol table: the value, the type of the variable and the type of its
    declaration. *)
Record symbol := Symbol { s_value : value; s_type : ty; s_decl : VarType }.

(** [std::map<StringRef, Value>], in the order of the keys *)
Abbreviation UpdateTableT := (list (string * value)).

Record gen := Gen {
  nextId : nat;
  opTable : gmap nat (gkind * list value);  (* every operation, and its operands *)
  types : gmap value ty;
  symbolTable : list (gmap string symbol);
  updateTables : list UpdateTableT;
  structMap : gmap string (ty * list (VarDeclExprAST ExprAST));
  functionMap : gmap string (list ty);
  opBlock : list gop }.

Definition with_symbols (s : list (gmap string symbol)) (g : gen) : gen :=
  Gen (nextId g) (opTable g) (types g) s (updateTables g) (structMap g) (functionMap g) (opBlock g).
Definition with_updates (u : list UpdateTableT) (g : gen) : gen :=
  Gen (nextId g) (opTable g) (types g) (symbolTable g) u (structMap g) (functionMap g) (opBlock g).
Definition with_block (b : list gop) (g : gen) : gen :=
  Gen (nextId g) (opTable g) (types g) (symbolTable g) (updateTables g) (structMap g) (functionMap g) b.
Definition with_type (v : value) (t : ty) (g : gen) : gen :=
  Gen (nextId g) (opTable g) (<[v := t]> (types g)) (symbolTable g) (updateTables g) (structMap g) (functionMap g) (opBlock g).
Definition with_structs s (g : gen) : gen :=
  Gen (nextId g) (opTable g) (types g) (symbolTable g) (updateTables g) s (functionMap g) (opBlock g).
Definition with_functions f (g : gen) : gen :=
  Gen (nextId g) (opTable g) (types g) (symbolTable g) (updateTables g) (structMap g) f (opBlock g).

(** The constructor of [MLIRGenImpl]. *)
Definition i1 : ty := IntegerType 1.
Definition i64 : ty := IntegerType 64.
Definition start : gen :=
  Gen 0 ∅ ∅ [] [] ∅ {[ "Queue"%string := [i64]; "print"%string := [] ]} [].

Inductive outcome (A : Type) := Ok (a : A) (g : gen) | Fail (g : gen) | Crash.
Arguments Ok {A}.
Arguments Fail {A}.
Arguments Crash {A}.
Definition M (A : Type) := gen -> outcome A.
#[export] Instance gen_ret : MRet M := fun _ a g => Ok a g.
#[export] Instance gen_bind : MBind M := fun _ _ k m g =>
  match m g with Ok a g' => k a g' | Fail g' => Fail g' | Crash => Crash end.

Definition fail {A} : M A := fun g => Fail g.
Definition crash {A} : M A := fun _ => Crash.
Definition get {A} (f : gen -> A) : M A := fun g => Ok (f g) g.
Definition modify (f : gen -> gen) : M unit := fun g => Ok tt (f g).

(** The value of a call that may have returned null. *)
Definition nullable {A} (m : M A) : M (option A) := fun g =>
  match m g with Ok a g' => Ok (Some a) g' | Fail g' => Ok None g' | Crash => Crash end.

Fixpoint mapM_ {A B} (f : A -> M B) (l : list A) : M (list B) :=
  match l with
  | [] => mret []
  | a :: l' => b ← f a; bs ← mapM_ f l'; mret (b :: bs)
  end.

(** ** Values *)

Definition getType (v : value) : M ty := get (fun g => default NullType (types g !! v)).
(** The type of a value that is about to be inspected: [isa] on a null type asserts. *)
Definition inspect (v : value) : M ty := t ← getType v; if is_null t then crash else mret t.
Definition defining (g : gen) (v : value) : option (gkind * list value) :=
  match v with OpResult id _ => opTable g !! id | BlockArg _ _ => None end.
Definition getDefiningOp (v : value) : M (option (gkind * list value)) := get (fun g => defining g v).

(** [builder.create] *)
Definition create_op (kind : gkind) (operands : list value) (results : list ty) (regions : list (list gop)) : M nat := fun g =>
  let id := nextId g in
  Ok id (Gen (S id) (<[id := (kind, operands)]> (opTable g))
           (list_to_map (imap (fun i t => (OpResult id i, t)) results) ∪ types g)
           (symbolTable g) (updateTables g) (structMap g) (functionMap g)
           (opBlock g ++ [GOp id kind operands results regions])).
Definition create (kind : gkind) (operands : list value) (result : ty) : M value :=
  id ← create_op kind operands [result] []; mret (OpResult id 0).
Definition create_ (kind : gkind) (operands : list value) : M unit :=
  _ ← create_op kind operands [] []; mret tt.

(** ** The symbol table *)

Fixpoint find_symbol (name : string) (scopes : list (gmap string symbol)) : option symbol :=
  match scopes with
  | [] => None
  | s :: scopes' => match s !! name with Some e => Some e | None => find_symbol name scopes' end
  end.
Definition lookup_symbol (name : string) : M (option symbol) := get (fun g => find_symbol name (symbolTable g)).
Definition insert_symbol (name : string) (e : symbol) : M unit := fun g =>
  match symbolTable g with
  | [] => Crash
  | s :: scopes => Ok tt (with_symbols (<[name := e]> s :: scopes) g)
  end.
(** [SymbolTableScopeT varScope(symbolTable)] around [m] *)
Definition in_scope {A} (m : M A) : M A := fun g =>
  match m (with_symbols (∅ :: symbolTable g) g) with
  | Ok a g' => Ok a (with_symbols (tail (symbolTable g')) g')
  | Fail g' => Fail (with_symbols (tail (symbolTable g')) g')
  | Crash => Crash
  end.

Definition declare (name : string) (decl : VarType) (v : value) : M unit :=
  s ← lookup_symbol name;
  match s with
  | Some _ => fail
  | None => t ← getType v; insert_symbol name (Symbol v t decl)
  end.

(** [value.getDefiningOp()->getLoc()] reads through null for an argument. *)
Definition tryCast (v : value) (t : ty) : M value :=
  tv ← inspect v;
  match tv with
  | IntegerType w =>
      match t with
      | NullType => crash
      | IntegerType w' =>
          if w =? w' then mret v
          else d ← getDefiningOp v; match d with None => crash | Some _ => create GBitCast [v] t end
      | _ => mret v
      end
  | _ => mret v
  end.

Fixpoint insert_or_assign (k : string) (v : value) (l : UpdateTableT) : UpdateTableT :=
  match l with
  | [] => [(k, v)]
  | (k', v') :: l' =>
      match String.compare k k' with
      | Lt => (k, v) :: l
      | Eq => (k, v) :: l'
      | Gt => (k', v') :: insert_or_assign k v l'
      end
  end.
Definition table_find (k : string) (l : UpdateTableT) : option value :=
  from_option (fun p => Some (snd p)) None (List.find (fun p => String.eqb k (fst p)) l).

Definition note_update (name : string) (v : value) : M unit := modify (fun g =>
  match updateTables g with
  | [] => g
  | u :: us => with_updates (insert_or_assign name v u :: us) g
  end).

Definition update (name : string) (v : value) : M unit :=
  s ← lookup_symbol name;
  match s with
  | None => crash
  | Some e =>
      v' ← tryCast v (s_type e);
      _ ← insert_symbol name (Symbol v' (s_type e) (s_decl e));
      note_update name v'
  end.
(** Only paths are updated: their first variable. *)
Definition update_path (p : PathExprAST) (v : value) : M unit :=
  match path p with x :: _ => update (v_name x) v | [] => crash end.
Definition update_expr (target : ExprAST) (v : value) : M unit :=
  match target with PathExpr p => update_path p v | _ => mret tt end.

(** ** Types of variables *)

Definition kMaxWidth : Z := 2 ^ 24 - 1.
Definition getIntegerType (n : Z) : option ty :=
  let w := wrap 32 n in if w <=? kMaxWidth then Some (IntegerType w) else None.

(** [None] is a crash, [NullType] the null type. *)
Fixpoint getVarType (structs : gmap string (ty * list (VarDeclExprAST ExprAST))) (t : VarType) : option ty :=
  let 'MkVarType name ps := t in
  if String.eqb name "" then Some AnyType
  else if String.eqb name "long" then Some i64
  else if String.eqb name "int" then Some (IntegerType 32)
  else if String.eqb name "atom" then Some AtomType
  else if String.eqb name "context" then Some ContextType
  else if String.eqb name "buf" then Some BufferType
  else if String.eqb name "bits" then
    match ps with
    | [VarTemplateParam_Integer n] => getIntegerType n
    | _ => Some NullType
    end
  else if String.eqb name "table" then
    match ps with
    | [VarTemplateParam_Type k; VarTemplateParam_Type v; VarTemplateParam_Integer n] =>
        match k, v with
        | Some k, Some v =>
            kt ← getVarType structs k; vt ← getVarType structs v; Some (TableType kt vt n)
        | _, _ => None
        end
    | _ => Some NullType
    end
  else if String.eqb name "In" then Some (PortType true false)
  else if String.eqb name "Out" then Some (PortType false true)
  else if String.eqb name "InOut" then Some (PortType true true)
  else if String.eqb name "mutex" then Some (OpaqueType name)
  else Some (from_option fst NullType (structs !! name)).
Definition var_type (t : VarType) : M ty := fun g =>
  match getVarType (structMap g) t with Some t => Ok t g | None => Crash end.
(** [if (!type) return failure();] *)
Definition required_type (t : VarType) : M ty := t ← var_type t; if is_null t then fail else mret t.

(** ** Expressions *)

Definition toRValue (v : value) (ltype : option ty) : M value :=
  d ← getDefiningOp v;
  match d with
  | Some (GGlobal name, _) => t ← getType v; create (GGlobalImport name) [] (default t ltype)
  | _ =>
      t ← inspect v;
      match t with
      | ContextRefType t => create GLoad [v] (default t ltype)
      | _ => mret v
      end
  end.

Definition gen_variable (x : VariableExprAST) : M value :=
  s ← lookup_symbol (v_name x);
  match s with Some e => mret (s_value e) | None => fail end.

(** [getStructForName] and [getMemberIndex] *)
Definition getStructForName (g : gen) (name : string) : option (list (VarDeclExprAST ExprAST)) :=
  e ← find_symbol name (symbolTable g);
  let structName := type_name (s_decl e) in
  if String.eqb structName "" then None else snd <$> structMap g !! structName.
Fixpoint getMemberIndex (vars : list (VarDeclExprAST ExprAST)) (name : string) : option nat :=
  match vars with
  | [] => None
  | x :: vars' => if String.eqb (d_name x) name then Some O else S <$> getMemberIndex vars' name
  end.

(** [StructAccessOp::build] *)
Definition struct_access (v : value) (index : nat) : M value :=
  t ← getType v;
  match t with
  | StructType _ ts _ => match ts !! index with Some t => create (GStructAccess index) [v] t | None => crash end
  | _ => crash
  end.

(** The names after the first: a reference into a context, or a member of a struct. *)
Fixpoint getMembers (prev : VariableExprAST) (v : value) (p : list VariableExprAST) : M value :=
  match p with
  | [] => mret v
  | x :: p' =>
      t ← inspect v;
      match t with
      | ContextType =>
          v' ← create (GContextRef (v_name x)) [v] (ContextRefType AnyType);
          getMembers x v' p'
      | _ =>
          vars ← get (fun g => getStructForName g (v_name prev));
          match vars with
          | None => fail
          | Some vars =>
              match getMemberIndex vars (v_name x) with
              | None => fail
              | Some index => v' ← struct_access v index; getMembers x v' p'
              end
          end
      end
  end.
(** [None] is a null value: no names at all. *)
Definition getPath (p : list VariableExprAST) : M (option value) :=
  match p with
  | [] => mret None
  | x :: p' => v ← gen_variable x; v ← getMembers x v p'; mret (Some v)
  end.

Definition s64 (x : Z) : Z := let y := wrap 64 x in if y <? 2 ^ 63 then y else y - 2 ^ 64.

Definition is_const (d : option (gkind * list value)) : bool := match d with Some (GConstant _, _) => true | _ => false end.

(** One of the two sides is cast when it is a constant. *)
Definition cast_constant (lhs rhs : value) : M (value * value) :=
  dl ← getDefiningOp lhs; dr ← getDefiningOp rhs;
  if is_const dl then t ← getType rhs; lhs ← tryCast lhs t; mret (lhs, rhs)
  else if is_const dr then t ← getType lhs; rhs ← tryCast rhs t; mret (lhs, rhs)
  else mret (lhs, rhs).

(** [dyn_cast<ContextRefOp>(lhs.getDefiningOp())] asserts on an argument. *)
Definition gen_assign (target : ExprAST) (lhs rhs : value) : M value :=
  d ← getDefiningOp lhs;
  match d with
  | None => crash
  | Some (GContextRef _, _) => _ ← create_ GStore [lhs; rhs]; create GNop [] NoneType
  | Some (GStructAccess index, input :: _) =>
      t ← getType input; v ← create (GStructUpdate index) [input; rhs] t;
      _ ← update_expr target v; mret v
  | _ => _ ← update_expr target rhs; mret rhs
  end.

Definition is_cmp (op : Z) : bool :=
  (op =? Lexer.tok_cmp_eq) || (op =? Lexer.tok_cmp_ge) || (op =? Lexer.tok_cmp_le) || (op =? 60) || (op =? 62).

Definition gen_binary (op : Z) (target : ExprAST) (gen_lhs gen_rhs : M value) : M value :=
  lhs ← gen_lhs;
  lhs ← (if op =? Lexer.tok_eq then mret lhs else toRValue lhs None);
  rhs ← gen_rhs;
  tl ← getType lhs;
  rhs ← toRValue rhs (Some tl);
  '(lhs, rhs) ← cast_constant lhs rhs;
  tl ← getType lhs;
  if op =? Lexer.tok_plus then create GAdd [lhs; rhs] tl
  else if op =? Lexer.tok_minus then create GSub [lhs; rhs] tl
  else if op =? Lexer.tok_star then create GMul [lhs; rhs] UnrankedTensorType
  else if is_cmp op then create (GCmp (if op <? 0 then - op else op)) [lhs; rhs] i1
  else if op =? Lexer.tok_eq then
    gen_assign target lhs rhs
  else fail.

(** [getConstantAttr] of a struct literal; a member that is neither a number nor a struct
    fails the cast. *)
Fixpoint struct_literal (e : ExprAST) : option (struct_attr * ty) :=
  match e with
  | NumberExprAST _ n => Some (NumberElement (s64 n), AnyType)
  | StructLiteralExprAST _ vs =>
      l ← (fix go vs := match vs with
                        | [] => Some []
                        | Some e :: vs' => x ← struct_literal e; l ← go vs'; Some (x :: l)
                        | None :: _ => None
                        end) vs;
      Some (StructElement (map fst l), StructType false (map snd l) "")
  | _ => None
  end.

Definition connect_param (e : ExprAST) : list const_attr :=
  match e with
  | NumberExprAST _ n => [IntAttr (s64 n)]
  | PathExpr p => match path p with x :: _ => [StrAttr (v_name x)] | [] => [] end
  | _ => []
  end.

(** A port of a command: a null value as operand is a crash. *)
Definition port (name : string) : M value :=
  s ← lookup_symbol name; match s with Some e => mret (s_value e) | None => crash end.

(** The offset of get and set: an integer constant. *)
Definition constant_offset (v : value) : M Z :=
  d ← getDefiningOp v; match d with Some (GConstant (IntAttr n), _) => mret n | _ => fail end.

Definition gen_method (callee : string) (calleePath : PathExprAST) (caller : option value)
    (args : list ExprAST) (operands : list value) : M value :=
  if String.eqb callee "extract" then
    match caller, operands, args with
    | Some c, [target], [targetAst] =>
        t ← getType target; v ← create GExtract [c] t;
        _ ← update_expr targetAst v; mret v
    | _, _, _ => fail
    end
  else if String.eqb callee "emit" then
    match caller, operands with
    | Some c, [target] => v ← toRValue target None; _ ← create_ GEmit [c; v]; create GNop [] NoneType
    | _, _ => fail
    end
  else if String.eqb callee "lookup" then
    match caller with
    | None => fail
    | Some c =>
        t ← inspect c;
        match t, operands with
        | TableType _ vt _, [k] => c ← toRValue c None; k ← toRValue k None; create GLookup [c; k] vt
        | _, _ => fail
        end
    end
  else if String.eqb callee "update" then
    match caller, operands with
    | Some c, [k; v] =>
        c ← toRValue c None; k ← toRValue k None; v ← toRValue v None;
        _ ← create_ GUpdate [c; k; v]; create GNop [] NoneType
    | _, _ => fail
    end
  else if String.eqb callee "set" then
    match caller, operands with
    | Some c, [o; v] =>
        offset ← constant_offset o;
        t ← inspect v;
        if negb (is_integer t) then fail
        else
          v ← toRValue v (Some i1); tc ← getType c;
          r ← create (GBitSet offset) [c; v] tc;
          _ ← update_path calleePath r; mret r
    | _, _ => fail
    end
  else if String.eqb callee "get" then
    match caller, operands with
    | Some c, [o] => offset ← constant_offset o; create (GBitGet offset) [c] i1
    | _, _ => fail
    end
  else
    f ← get (fun g => functionMap g !! callee);
    match f with
    | None => fail
    | Some [] => crash
    | Some (t :: _) => create (GCall callee) operands t
    end.

Definition gen_call (calleePath : PathExprAST) (args : list ExprAST) (ins outs : list string)
    (gen_args : M (list value)) : M value :=
  caller ← nullable (getPath (removelast (path calleePath)));
  let caller := mjoin caller in
  match list.last (path calleePath) with
  | None => crash
  | Some x =>
      let callee := v_name x in
      if isCommand ins outs then
        vi ← mapM_ port ins; vo ← mapM_ port outs;
        _ ← create_ (GConnect callee (length ins) (concat (map connect_param args))) (vi ++ vo);
        create GNop [] NoneType
      else
        operands ← gen_args;
        gen_method callee calleePath caller args operands
  end.

(** An initial value that could not be generated is a null value, and reading its
    operation a crash. *)
Definition present {A} (m : M A) : M A := v ← nullable m; match v with Some a => mret a | None => crash end.

Fixpoint gen_expr (e : ExprAST) : M value :=
  match e with
  | BinaryExprAST _ op l r => gen_binary op l (gen_expr l) (gen_expr r)
  | AtomLiteralExprAST _ a => create (GConstant (StrAttr a)) [] AtomType
  | StructLiteralExprAST _ _ =>
      match struct_literal e with
      | Some (StructElement l, t) => create (GStructConstant l) [] t
      | _ => crash
      end
  | PortLiteralExprAST _ ev a i => create (GConstant (PortAttr ev a i)) [] (PortType false false)
  | CallExprAST _ callee args ins outs => gen_call callee args ins outs (mapM_ gen_expr args)
  | NumberExprAST _ n => create (GConstant (IntAttr (s64 n))) [] i64
  | PathExpr p => v ← getPath (path p); match v with Some v => mret v | None => fail end
  | InitExprAST _ t vs =>
      t ← required_type t;
      vs ← mapM_ (fun e => v ← present (gen_expr e); toRValue v None) vs;
      create GInit vs t
  | LiteralExprAST _ _ _ | VarDeclExpr _ | ReturnExprAST _ _ | IfElseExprAST _ _ _ _ => fail
  end.

(** ** Statements *)

Definition set_port (v : value) (t : ty) : M unit :=
  tv ← inspect v; if is_port tv && is_port t then modify (with_type v t) else mret tt.

Definition gen_decl (d : VarDeclExprAST ExprAST) : M value :=
  v ← match initVal d with
      | None => t ← required_type (d_type d); create GInit [] t
      | Some e => gen_expr e
      end;
  _ ← (if String.eqb (type_name (d_type d)) "" then mret tt
       else
         t ← required_type (d_type d);
         _ ← set_port v t;
         tv ← getType v;
         if ty_eqb t tv then mret tt else fail);
  _ ← declare (d_name d) (d_type d) v;
  mret v.

Definition gen_return (r : option (option ExprAST)) : M unit :=
  match r with
  | None => create_ GReturn []
  | Some None => crash
  | Some (Some e) => v ← gen_expr e; create_ GReturn [v]
  end.

(** The operations of [m], in a block of their own. *)
Definition in_region {A} (m : M A) : M (A * list gop) := fun g =>
  match m (with_block [] g) with
  | Ok a g' => Ok (a, opBlock g') (with_block (opBlock g) g')
  | Fail g' => Fail (with_block (opBlock g) g')
  | Crash => Crash
  end.

(** [m] with a table of its own for updates, which it returns. *)
Definition with_table (m : M unit) : M UpdateTableT :=
  _ ← modify (fun g => with_updates ([] :: updateTables g) g);
  _ ← m;
  u ← get (fun g => from_option id [] (hd_error (updateTables g)));
  _ ← modify (fun g => with_updates (tail (updateTables g)) g);
  mret u.

(** The keys of [from] that [to] lacks, with the value before the branches; null (a crash
    later on) for a variable of the branch. *)
Fixpoint merge (from to : UpdateTableT) : M UpdateTableT :=
  match from with
  | [] => mret to
  | (k, _) :: from' =>
      to' ← match table_find k to with
            | Some _ => mret to
            | None => s ← lookup_symbol k;
                      match s with Some e => mret (insert_or_assign k (s_value e) to) | None => crash end
            end;
      merge from' to'
  end.

Definition symbol_type (k : string) : M ty :=
  s ← lookup_symbol k; match s with Some e => mret (s_type e) | None => crash end.

(** [table.at(key)] *)
Definition table_at (u : UpdateTableT) (k : string) : M value :=
  match table_find k u with Some v => mret v | None => crash end.

(** The yield is the last operation of a region. *)
Definition yields (keys : list string) (u : UpdateTableT) (region : list gop) : M (list gop) :=
  vs ← mapM_ (table_at u) keys;
  '(_, y) ← in_region (create_ GYield vs);
  mret (region ++ y).

Fixpoint update_all (id i : nat) (keys : list string) : M unit :=
  match keys with
  | [] => mret tt
  | k :: keys' => _ ← update k (OpResult id i); update_all id (S i) keys'
  end.

Definition gen_ifelse (gen_cond : M value) (gen_then : M unit) (gen_else : option (M unit)) : M unit :=
  cond ← gen_cond;
  '(thenTable, thenOps) ← in_region (with_table gen_then);
  '(elseTable, elseOps) ← in_region (with_table (default (mret tt) gen_else));
  elseTable ← merge thenTable elseTable;
  thenTable ← merge elseTable thenTable;
  let keys := map fst thenTable in
  let hasElse := bool_decide (is_Some gen_else) || negb (Nat.eqb (length keys) 0) in
  ts ← mapM_ symbol_type keys;
  thenOps ← yields keys thenTable thenOps;
  elseOps ← (if hasElse then yields keys elseTable elseOps else mret []);
  id ← create_op GIf [cond] ts (if hasElse then [thenOps; elseOps] else [thenOps]);
  update_all id 0 keys.

Fixpoint gen_stmt (e : ExprAST) : M unit :=
  match e with
  | VarDeclExpr d => _ ← gen_decl d; mret tt
  | ReturnExprAST _ r => _ ← nullable (gen_return r); mret tt
  | IfElseExprAST _ c t f =>
      gen_ifelse (gen_expr c)
        (match t with Some l => in_scope (_ ← mapM_ gen_stmt l; mret tt) | None => crash end)
        (match f with Some l => Some (in_scope (_ ← mapM_ gen_stmt l; mret tt)) | None => None end)
  | _ => _ ← gen_expr e; mret tt
  end.
Definition gen_block (l : list ExprAST) : M unit := in_scope (_ ← mapM_ gen_stmt l; mret tt).

(** ** Functions and records *)

Inductive gattr := Plain (a : attr) | ScopeAttr (handlers : list string) (partitionKey : string).

Record gfunc := GFunc {
  gf_name : string; gf_args : list ty; gf_attrs : gmap string gattr; gf_private : bool; gf_body : list gop }.

Inductive gitem :=
  | FuncItem (f : gfunc)
  | GlobalItem (id : nat) (name : string) (t : ty) (attrs : gmap string gattr).

Definition proto_attrs (p : PrototypeAST) : gmap string gattr :=
  <["type"%string := Plain (StringAttr (getFunctionTypeName p))]>
  (from_option (fun a => <["atom"%string := Plain (StringAttr a)]>) id (pr_atom p)
    {[ "event"%string := Plain (StringAttr (pr_name p)) ]}).

Definition declare_args (args : list (VarDeclExprAST ExprAST)) (ts : list ty) : M unit :=
  _ ← mapM_ (fun '(i, (d, t)) =>
       _ ← modify (with_type (BlockArg 0 i) t);
       declare (d_name d) (d_type d) (BlockArg 0 i)) (imap pair (zip args ts));
  mret tt.

Definition is_terminated (ops : list gop) : bool :=
  match list.last ops with Some (GOp _ GTerminate _ _ _) => true | _ => false end.

Definition gen_function (p : PrototypeAST) (body : ExprASTList) : M gfunc := in_scope (
  ts ← mapM_ (fun d => required_type (d_type d)) (pr_args p);
  '(_, ops) ← in_region (
    _ ← declare_args (pr_args p) ts;
    _ ← gen_block body;
    ops ← get opBlock;
    if is_terminated ops then mret tt else create_ GTerminate []);
  mret (GFunc (getMangledName p) ts (proto_attrs p) (negb (String.eqb (pr_name p) "main")) ops)).

Definition gen_struct (isEvent : bool) (name : string) (vars : list (VarDeclExprAST ExprAST)) : M unit :=
  known ← get (fun g => structMap g !! name);
  match known with
  | Some _ => fail
  | None =>
      ts ← mapM_ (fun d => match initVal d with Some _ => fail | None => required_type (d_type d) end) vars;
      modify (fun g => with_structs (<[name := (StructType isEvent ts name, vars)]> (structMap g)) g)
  end.

(** The attributes of a record, in any order but for "sync", which comes after "scope". *)
Definition plain_attr (a : Attribute) : gattr :=
  Plain (match a with AttrString s => StringAttr s | AttrBool b => BoolAttr b | AttrList l => ArrayAttr l end).
Definition record_attrs (scopes : gmap string (list string * string)) (attrs : AttributesType)
    (own : gmap string gattr) : option (gmap string gattr) :=
  match attrs !! "sync"%string with
  | Some (AttrString s) =>
      '(handlers, key) ← scopes !! s;
      Some (<["scope"%string := ScopeAttr handlers key]> ((plain_attr <$> delete "sync"%string attrs) ∪ own))
  | _ => Some ((plain_attr <$> attrs) ∪ own)
  end.

Definition gen_record (scopes : gmap string (list string * string)) (r : RecordAST)
    : M (gmap string (list string * string) * list gitem) :=
  match r_body r with
  | FunctionAST p body =>
      f ← gen_function p body;
      _ ← modify (fun g => match functionMap g !! gf_name f with
                           | Some _ => g
                           | None => with_functions (<[gf_name f := []]> (functionMap g)) g
                           end);
      match record_attrs scopes (attributes r) (gf_attrs f) with
      | Some attrs => mret (scopes, [FuncItem (GFunc (gf_name f) (gf_args f) attrs (gf_private f) (gf_body f))])
      | None => fail
      end
  | StructAST isEvent _ name vars => _ ← gen_struct isEvent name vars; mret (scopes, [])
  | ScopeAST _ name handlers key => mret (<[name := (handlers, key)]> scopes, [])
  | GlobalAST _ _ d =>
      t ← var_type (d_type d);
      '(v, _) ← in_region (create (GGlobal (d_name d)) [] t);
      _ ← declare (d_name d) (d_type d) v;
      match record_attrs scopes (attributes r) ∅, v with
      | Some attrs, OpResult id _ => mret (scopes, [GlobalItem id (d_name d) t attrs])
      | _, _ => fail
      end
  end.

Fixpoint gen_records (scopes : gmap string (list string * string)) (rs : list RecordAST) : M (list gitem) :=
  match rs with
  | [] => mret []
  | r :: rs' =>
      '(scopes, items) ← gen_record scopes r;
      items' ← gen_records scopes rs';
      mret (items ++ items')
  end.

(** [mlirGen(context, moduleAST)] *)
Definition mlirGen (m : ModuleAST) : outcome (list gitem) := in_scope (gen_records ∅ m) start.

(** ** Induction on syntax trees *)

Definition children (e : ExprAST) : list ExprAST :=
  match e with
  | LiteralExprAST _ vs _ | InitExprAST _ _ vs => vs
  | StructLiteralExprAST _ vs => flat_map option_list vs
  | VarDeclExpr d => option_list (initVal d)
  | ReturnExprAST _ r => option_list (mjoin r)
  | BinaryExprAST _ _ l r => [l; r]
  | CallExprAST _ _ args _ _ => args
  | IfElseExprAST _ c t f => c :: default [] t ++ default [] f
  | _ => []
  end.

Section Induction.
Context (P : ExprAST -> Prop) (H : forall e, Forall P (children e) -> P e).

Fixpoint expr_ind (e : ExprAST) : P e :=
  let list_all := fix go l : Forall P l :=
    match l with [] => @List.Forall_nil _ P | x :: l' => @List.Forall_cons _ P x _ (expr_ind x) (go l') end in
  let opts_all := fix go (l : list (option ExprAST)) : Forall P (flat_map option_list l) :=
    match l return Forall P (flat_map option_list l) with
    | [] => @List.Forall_nil _ P
    | Some x :: l' => @List.Forall_cons _ P x _ (expr_ind x) (go l')
    | None :: l' => go l'
    end in
  H e (match e return Forall P (children e) with
       | LiteralExprAST _ vs _ | InitExprAST _ _ vs => list_all vs
       | StructLiteralExprAST _ vs => opts_all vs
       | VarDeclExpr (MkVarDecl _ _ _ (Some x)) => @List.Forall_cons _ P x _ (expr_ind x) (@List.Forall_nil _ P)
       | ReturnExprAST _ (Some (Some x)) => @List.Forall_cons _ P x _ (expr_ind x) (@List.Forall_nil _ P)
       | BinaryExprAST _ _ l r => @List.Forall_cons _ P l _ (expr_ind l) (@List.Forall_cons _ P r _ (expr_ind r) (@List.Forall_nil _ P))
       | CallExprAST _ _ args _ _ => list_all args
       | IfElseExprAST _ c t f => @List.Forall_cons _ P c _ (expr_ind c)
           (proj2 (List.Forall_app P _ _) (conj (match t return Forall P (default [] t) with Some l => list_all l | None => @List.Forall_nil _ P end)
                                                (match f return Forall P (default [] f) with Some l => list_all l | None => @List.Forall_nil _ P end)))
       | _ => @List.Forall_nil _ P
       end).
End Induction.
End MlirGen.
