(* ===== verification/MlirGenSsa.v ===== *)
(** The operations MLIRGen.cpp builds are in SSA form (MlirGen): every operand is a value
    that is visible where it is used, every operation has an id of its own, and the
    branches of a conditional yield one value for each of its results. *)
From Stdlib Require Import ZArith Lia List String.
From stdpp Require Import base list numbers option gmap sets strings countable.
From S2P Require Import Prelude Lexer Ast Parser Ir MlirGen.
Import Ast Ir MlirGen.
#[local] Open Scope Z_scope.

Module MlirGenSsa.

(** ** SSA form *)

Definition op_id_of (o : gop) : nat := let 'GOp id _ _ _ _ := o in id.
Definition op_values (o : gop) : gset value :=
  let 'GOp id _ _ rs _ := o in list_to_set (imap (fun i _ => OpResult id i) rs).
Definition block_values (ops : list gop) : gset value := ⋃ (map op_values ops).

(** A region of a conditional with [n] results ends by yielding [n] values. *)
Definition yields_n (n : nat) (ops : list gop) : bool :=
  match list.last ops with Some (GOp _ GYield vs _ _) => Nat.eqb (length vs) n | _ => false end.

Fixpoint op_ok (vis : gset value) (o : gop) : bool :=
  let 'GOp _ k vs rs regions := o in
  forallb (fun v => bool_decide (v ∈ vis)) vs &&
  forallb (fun ops => (fix go vis ops := match ops with
                                         | [] => true
                                         | o :: ops' => op_ok vis o && go (vis ∪ op_values o) ops'
                                         end) vis ops) regions &&
  (match k with GIf => negb (Nat.eqb (length regions) 0) | _ => true end) &&
  forallb (yields_n (length rs)) regions.
Definition ops_ok : gset value -> list gop -> bool :=
  fix go vis ops := match ops with
                    | [] => true
                    | o :: ops' => op_ok vis o && go (vis ∪ op_values o) ops'
                    end.

Fixpoint op_ids (o : gop) : list nat :=
  let 'GOp id _ _ _ regions := o in id :: concat (map (fun ops => concat (map op_ids ops)) regions).
Definition block_ids (ops : list gop) : list nat := concat (map op_ids ops).

Lemma op_ok_eq vis id k vs rs regions : op_ok vis (GOp id k vs rs regions) =
  forallb (fun v => bool_decide (v ∈ vis)) vs && forallb (ops_ok vis) regions &&
  (match k with GIf => negb (Nat.eqb (length regions) 0) | _ => true end) && forallb (yields_n (length rs)) regions.
Proof. reflexivity. Qed.

Lemma block_values_app a b : block_values (a ++ b) = block_values a ∪ block_values b.
Proof. unfold block_values. by rewrite map_app, union_list_app_L. Qed.

Lemma ops_ok_app vis a b : ops_ok vis (a ++ b) = ops_ok vis a && ops_ok (vis ∪ block_values a) b.
Proof.
  revert vis. induction a as [|o a IH]; intros vis; cbn.
  - by rewrite (right_id_L ∅ (∪)).
  - by rewrite IH, andb_assoc, (assoc_L (∪)).
Qed.

Lemma block_ids_app a b : block_ids (a ++ b) = block_ids a ++ block_ids b.
Proof. unfold block_ids. by rewrite map_app, concat_app. Qed.

(** ** The invariant of the generator *)

(** What is visible at the insertion point of a block in which [vis] is visible. *)
Definition cur (vis : gset value) (g : gen) : gset value := vis ∪ block_values (opBlock g).

Definition symbols_in (c : gset value) (scopes : list (gmap string symbol)) : Prop :=
  forall s name e, s ∈ scopes -> s !! name = Some e -> s_value e ∈ c.
Definition updates_in (c : gset value) (us : list UpdateTableT) : Prop :=
  forall u k v, u ∈ us -> (k, v) ∈ u -> v ∈ c.

Record inv (vis : gset value) (g : gen) : Prop := Inv {
  inv_ops : ops_ok vis (opBlock g) = true;
  inv_symbols : symbols_in (cur vis g) (symbolTable g);
  inv_updates : updates_in (cur vis g) (updateTables g);
  inv_fresh : forall id i, OpResult id i ∈ cur vis g -> (id < nextId g)%nat;
  inv_table : forall id k vs i, opTable g !! id = Some (k, vs) -> OpResult id i ∈ cur vis g -> list_to_set vs ⊆ cur vis g }.

(** What one step of the generator may change. *)
Record extends (g g' : gen) : Prop := Extends {
  ex_block : exists ops, opBlock g' = opBlock g ++ ops /\ NoDup (block_ids ops) /\
    forall id, id ∈ block_ids ops -> (nextId g <= id < nextId g')%nat;
  ex_next : (nextId g <= nextId g')%nat;
  ex_symbols : tail (symbolTable g') = tail (symbolTable g) /\ length (symbolTable g') = length (symbolTable g);
  ex_updates : tail (updateTables g') = tail (updateTables g) /\ length (updateTables g') = length (updateTables g);
  ex_table : forall id, (id < nextId g)%nat -> opTable g' !! id = opTable g !! id /\
    forall i t, types g !! OpResult id i = Some t -> is_port t = false -> types g' !! OpResult id i = Some t;
  ex_args : forall b i t, types g !! BlockArg b i = Some t -> is_port t = false -> types g' !! BlockArg b i = Some t }.

Lemma extends_refl g : extends g g.
Proof.
  split; [|lia|done..]. exists []. rewrite app_nil_r. split; [done|]. split; [constructor|]. intros id H. by apply elem_of_nil in H.
Qed.
Lemma extends_trans g1 g2 g3 : extends g1 g2 -> extends g2 g3 -> extends g1 g3.
Proof.
  intros [(o1 & E1 & N1 & I1) L1 [S1 S1'] [U1 U1'] T1 A1] [(o2 & E2 & N2 & I2) L2 [S2 S2'] [U2 U2'] T2 A2].
  split; [|lia|split; congruence|split; congruence| |auto].
  2:{ intros id Hid. destruct (T1 id Hid) as [K1 K1'], (T2 id ltac:(lia)) as [K2 K2']. split; [congruence|auto]. }
  exists (o1 ++ o2). rewrite E2, E1, <- app_assoc, block_ids_app. split; [done|]. split.
  - apply list.NoDup_app. split; [done|]. split; [|done]. intros id H1 H2. specialize (I1 id H1). specialize (I2 id H2). lia.
  - intros id [H|H]%elem_of_app; [specialize (I1 id H)|specialize (I2 id H)]; lia.
Qed.
Lemma extends_cur vis g g' : extends g g' -> cur vis g ⊆ cur vis g'.
Proof. intros [(ops & E & _) _ _ _ _ _]. unfold cur. rewrite E, block_values_app. set_solver. Qed.

(** [m] keeps the invariant; what it needs is visible before, what it returns after. *)
Definition sound {A} (need : gset value) (m : M A) (out : A -> gset value) : Prop :=
  forall vis g, inv vis g -> need ⊆ cur vis g ->
    match m g with
    | Ok a g' => inv vis g' /\ extends g g' /\ out a ⊆ cur vis g'
    | Fail g' => inv vis g' /\ extends g g'
    | Crash => True
    end.

Section Rules.
Context {A B : Type}.

Lemma sound_ret need (a : A) out : out a ⊆ need -> sound need (mret a) out.
Proof. intros H vis g Hi Hn. cbn. split; [done|]. split; [apply extends_refl|set_solver]. Qed.
Lemma sound_fail need (out : A -> gset value) : sound need fail out.
Proof. intros vis g Hi _. cbn. split; [done|apply extends_refl]. Qed.
Lemma sound_crash need (out : A -> gset value) : sound need crash out.
Proof. intros vis g _ _. done. Qed.

Lemma sound_bind need (m : M A) (k : A -> M B) out out' :
  sound need m out -> (forall a, sound (need ∪ out a) (k a) out') -> sound need (m ≫= k) out'.
Proof.
  intros Hm Hk vis g Hi Hn. unfold mbind, gen_bind. specialize (Hm vis g Hi Hn).
  destruct (m g) as [a g1|g1|]; [|done|done]. destruct Hm as (Hi1 & E1 & Ho).
  specialize (Hk a vis g1 Hi1). pose proof (extends_cur vis _ _ E1).
  specialize (Hk ltac:(set_solver)). destruct (k a g1) as [b g2|g2|]; [|destruct Hk as [Hi2 E2]|done].
  - destruct Hk as (Hi2 & E2 & Ho2). split; [done|]. split; [by eapply extends_trans|done].
  - split; [done|]. by eapply extends_trans.
Qed.

Lemma sound_weaken need need' (m : M A) out out' :
  sound need m out -> need ⊆ need' -> (forall a, out' a ⊆ out a) -> sound need' m out'.
Proof.
  intros Hm Hn Ho vis g Hi H. specialize (Hm vis g Hi ltac:(set_solver)).
  destruct (m g); [|done|done]. destruct Hm as (? & ? & ?). split; [done|]. split; [done|]. set_solver.
Qed.

Lemma sound_get need (f : gen -> A) out :
  (forall vis g, inv vis g -> need ⊆ cur vis g -> out (f g) ⊆ cur vis g) -> sound need (get f) out.
Proof. intros H vis g Hi Hn. cbn. split; [done|]. split; [apply extends_refl|by apply H]. Qed.

Lemma sound_nullable need (m : M A) out : sound need m out ->
  sound need (nullable m) (fun r => from_option out ∅ r).
Proof.
  intros Hm vis g Hi Hn. specialize (Hm vis g Hi Hn). unfold nullable. destruct (m g) as [a g'|g'|]; [done| |done].
  destruct Hm as [? ?]. split; [done|]. split; [done|]. set_solver.
Qed.
End Rules.

Lemma symbols_mono c c' ss : c ⊆ c' -> symbols_in c ss -> symbols_in c' ss.
Proof. intros Hc H s name e Hs He. apply Hc. by eapply H. Qed.
Lemma updates_mono c c' us : c ⊆ c' -> updates_in c us -> updates_in c' us.
Proof. intros Hc H u k v Hu Hv. apply Hc. by eapply H. Qed.

Lemma find_symbol_in c ss name e : symbols_in c ss -> find_symbol name ss = Some e -> s_value e ∈ c.
Proof.
  intros H. induction ss as [|s ss IH]; cbn; [done|]. destruct (s !! name) eqn:E.
  - intros [= ->]. eapply H; [by left|done].
  - intros Hf. apply IH; [|done]. intros s' n' e' Hs. apply H. by right.
Qed.

(** ** The primitives *)

Lemma op_values_in id k vs rs regions v : v ∈ op_values (GOp id k vs rs regions) <->
  exists i, (i < length rs)%nat /\ v = OpResult id i.
Proof.
  cbn. rewrite elem_of_list_to_set, elem_of_lookup_imap. split.
  - intros (i & t & -> & H). exists i. split; [by eapply lookup_lt_Some|done].
  - intros (i & Hi & ->). apply lookup_lt_is_Some in Hi as [t Ht]. eauto.
Qed.

(** An operation, with regions that were built since [g0]. *)
Lemma create_op_inv vis g0 g kind vs rs regions : inv vis g -> (nextId g0 <= nextId g)%nat ->
  opBlock g = opBlock g0 -> extends g0 g -> list_to_set vs ⊆ cur vis g ->
  forallb (ops_ok (cur vis g)) regions = true -> forallb (yields_n (length rs)) regions = true ->
  (kind = GIf -> regions <> []) -> NoDup (concat (map block_ids regions)) ->
  (forall id, id ∈ concat (map block_ids regions) -> (nextId g0 <= id < nextId g)%nat) ->
  match create_op kind vs rs regions g with
  | Ok id g' => id = nextId g /\ inv vis g' /\ extends g0 g' /\ forall i, (i < length rs)%nat -> OpResult id i ∈ cur vis g'
  | _ => False
  end.
Proof.
  intros [H1 H2 H3 H4 H5] Hle Hb He Hvs Hr Hy Hk Hnd Hids. cbn [create_op]. split; [done|].
  set (o := GOp (nextId g) kind vs rs regions). set (g' := Gen _ _ _ _ _ _ _ _).
  assert (Hc : cur vis g' = cur vis g ∪ op_values o).
  { unfold cur, g'. cbn [opBlock]. rewrite block_values_app. unfold block_values at 2. cbn [map union_list foldr].
    by rewrite (right_id_L ∅ (∪)), (assoc_L (∪)). }
  assert (Hsub : cur vis g ⊆ cur vis g') by (rewrite Hc; set_solver). split; [|split].
  - split.
    + unfold g'. cbn [opBlock]. rewrite ops_ok_app, H1. cbn [ops_ok andb]. fold (cur vis g). unfold o.
      rewrite op_ok_eq, Hr, Hy, !andb_true_r. apply andb_true_iff. split.
      * apply forallb_forall. intros v Hv. apply bool_decide_eq_true. apply Hvs, elem_of_list_to_set. by apply list_elem_of_In.
      * destruct kind; try done. destruct regions; [by specialize (Hk eq_refl)|done].
    + by eapply symbols_mono.
    + by eapply updates_mono.
    + intros id i. rewrite Hc. intros [H|H]%elem_of_union; [apply H4 in H; cbn; lia|].
      apply op_values_in in H as (j & _ & [= -> ->]). cbn. lia.
    + intros id k ops i Ht Hin. rewrite Hc in Hin. unfold g' in Ht. cbn [opTable] in Ht. destruct (decide (id = nextId g)) as [->|Hne].
      * rewrite lookup_insert_eq in Ht. injection Ht as <- <-. set_solver.
      * rewrite lookup_insert_ne in Ht by done. etransitivity; [|exact Hsub]. apply (H5 id k ops i Ht).
        apply elem_of_union in Hin as [?|Hin]; [done|].
        apply op_values_in in Hin as (j & _ & [= -> ->]). done.
  - destruct He as [_ _ Hs Hu Ht Ha]. split; [|cbn; lia|exact Hs|exact Hu| |].
    3:{ intros b i t Hl Hp. cbn. rewrite lookup_union_r; [by apply Ha|]. apply not_elem_of_list_to_map_1.
        intros Hin. apply list_elem_of_fmap in Hin as ([v t'] & E & Hin).
        apply elem_of_lookup_imap in Hin as (j & x & [= Ev _] & _). cbn in E. by rewrite Ev in E. }
    2:{ intros id Hid. destruct (Ht id Hid) as [Ht1 Ht2]. cbn. rewrite lookup_insert_ne by lia. split; [done|].
        intros i t Hl Hp. rewrite lookup_union_r; [by apply Ht2|]. apply not_elem_of_list_to_map_1.
        intros Hin. apply list_elem_of_fmap in Hin as ([v t'] & E & Hin).
        apply elem_of_lookup_imap in Hin as (j & x & [= Ev _] & _). cbn in E. rewrite Ev in E. injection E. lia. }
    exists [o]. unfold g'. cbn [opBlock]. rewrite Hb. split; [done|]. cbn. rewrite app_nil_r.
    change (map (fun ops => concat (map op_ids ops)) regions) with (map block_ids regions). split.
    + constructor; [|done]. intros Hin. apply Hids in Hin. lia.
    + intros id [->|Hin]%elem_of_cons; [lia|]. apply Hids in Hin. lia.
  - intros i Hi. rewrite Hc. apply elem_of_union. right. apply op_values_in. eauto.
Qed.

Lemma sound_create need kind vs t : kind <> GIf -> list_to_set vs ⊆ need ->
  sound need (create kind vs t) (fun v => {[v]}).
Proof.
  intros Hk Hvs vis g Hi Hn. unfold create, mbind, gen_bind.
  pose proof (create_op_inv vis g g kind vs [t] [] Hi ltac:(lia) eq_refl (extends_refl g) ltac:(set_solver) eq_refl eq_refl
    ltac:(done) ltac:(constructor)) as H.
  destruct (create_op _ _ _ _ g) as [id g'| |]; [|destruct H; by intros ? ?%elem_of_nil..].
  destruct H as (_ & H1 & H2 & H3); [by intros ? ?%elem_of_nil|]. cbn. split; [done|]. split; [done|].
  apply singleton_subseteq_l, H3. cbn. lia.
Qed.
Lemma sound_create_ need kind vs out : kind <> GIf -> list_to_set vs ⊆ need -> out tt ⊆ need ->
  sound need (create_ kind vs) out.
Proof.
  intros Hk Hvs Ho vis g Hi Hn. unfold create_, mbind, gen_bind.
  pose proof (create_op_inv vis g g kind vs [] [] Hi ltac:(lia) eq_refl (extends_refl g) ltac:(set_solver) eq_refl eq_refl
    ltac:(done) ltac:(constructor)) as H.
  destruct (create_op _ _ _ _ g) as [id g'| |]; [|destruct H; by intros ? ?%elem_of_nil..].
  destruct H as (_ & H1 & H2 & H3); [by intros ? ?%elem_of_nil|]. cbn. split; [done|]. split; [done|].
  pose proof (extends_cur vis _ _ H2). set_solver.
Qed.

Lemma sound_lookup need name : sound need (lookup_symbol name) (fun s => from_option (fun e => {[s_value e]}) ∅ s).
Proof.
  apply sound_get. intros vis g Hi _. destruct (find_symbol _ _) as [e|] eqn:E; cbn; [|set_solver].
  apply singleton_subseteq_l. by eapply find_symbol_in; [apply Hi|].
Qed.

Lemma sound_insert need name e out : s_value e ∈ need -> out tt ⊆ need -> sound need (insert_symbol name e) out.
Proof.
  intros He Ho vis g [H1 H2 H3 H4 H5] Hn. unfold insert_symbol. destruct (symbolTable g) as [|s ss] eqn:E; [done|].
  split; [|split].
  - split; try done. cbn. intros s' name' e' [->|Hs]%elem_of_cons Hl.
    + apply lookup_insert_Some in Hl as [[_ <-]|[_ Hl]]; [set_solver|]. eapply H2; [by left|done].
    + eapply H2; [by right|done].
  - split; cbn; [|lia|by rewrite E|done..]. exists []. rewrite app_nil_r. split; [done|]. split; [constructor|].
    intros id Hid. by apply elem_of_nil in Hid.
  - change (cur vis (with_symbols _ g)) with (cur vis g). set_solver.
Qed.

Lemma sound_getType need v out : (forall t, out t ⊆ need) -> sound need (getType v) out.
Proof. intros Ho. apply sound_get. set_solver. Qed.
Lemma sound_inspect need v out : (forall t, out t ⊆ need) -> sound need (inspect v) out.
Proof.
  intros Ho. eapply sound_bind; [by apply (sound_getType _ _ (fun _ => ∅)); set_solver|]. intros t. cbn.
  destruct (is_null t); [apply sound_crash|apply sound_ret; set_solver].
Qed.

Lemma sound_defining need v : v ∈ need ->
  sound need (getDefiningOp v) (fun d => from_option (fun p => list_to_set p.2) ∅ d).
Proof.
  intros Hv. apply sound_get. intros vis g Hi Hn. unfold defining. destruct v as [|id i]; cbn; [set_solver|].
  destruct (opTable g !! id) as [[k vs]|] eqn:E; cbn; [|set_solver]. eapply inv_table; [done..|]. by apply Hn.
Qed.

Lemma sound_scope {A} need (m : M A) out : sound need m out -> sound need (in_scope m) out.
Proof.
  intros Hm vis g Hi Hn. unfold in_scope. specialize (Hm vis (with_symbols (∅ :: symbolTable g) g)).
  assert (Hi' : inv vis (with_symbols (∅ :: symbolTable g) g)).
  { destruct Hi as [H1 H2 H3 H4 H5]. split; try done. intros s name e [->|Hs]%elem_of_cons He; [done|by eapply H2]. }
  specialize (Hm Hi' Hn).
  assert (Hpop : forall g', inv vis g' -> extends (with_symbols (∅ :: symbolTable g) g) g' ->
    inv vis (with_symbols (tail (symbolTable g')) g') /\ extends g (with_symbols (tail (symbolTable g')) g')).
  { intros g' [H1 H2 H3 H4 H5] [E1 E2 [E3 E3'] E4 E5 E6]. cbn in E3. split.
    - split; try done. cbn [symbolTable with_symbols]. rewrite E3. eapply symbols_mono; [|apply Hi].
      change (cur vis (with_symbols _ g')) with (cur vis g'). apply (extends_cur vis (with_symbols (∅ :: symbolTable g) g)).
      by split.
    - split; [exact E1|exact E2| |exact E4|exact E5|exact E6]. cbn [symbolTable with_symbols]. by rewrite E3. }
  destruct (m _) as [a g'|g'|]; [| |done].
  - destruct Hm as (H1 & H2 & H3). destruct (Hpop g' H1 H2). done.
  - destruct Hm as [H1 H2]. by apply Hpop.
Qed.

(** ** Values and types *)

Definition none {A} : A -> gset value := fun _ => ∅.
Definition one (v : value) : gset value := {[v]}.

Ltac vis := cbn; unfold one, none in *; set_solver.

Lemma sound_type need v : sound need (getType v) none.
Proof. apply sound_getType. vis. Qed.
Lemma sound_inspected need v : sound need (inspect v) none.
Proof. apply sound_inspect. vis. Qed.
Lemma sound_reader {A} need (f : gen -> A) : sound need (get f) none.
Proof. apply sound_get. vis. Qed.

Lemma sound_var_type need t : sound need (var_type t) none.
Proof.
  intros vis g Hi _. unfold var_type. destruct (getVarType _ _); [|done].
  split; [done|]. split; [apply extends_refl|set_solver].
Qed.
Lemma sound_required need t : sound need (required_type t) none.
Proof.
  eapply sound_bind; [apply sound_var_type|]. intros t'. destruct (is_null t'); [apply sound_fail|apply sound_ret; vis].
Qed.

(** A step that only changes what the invariant does not read. *)
Lemma sound_set_port need v t : sound need (set_port v t) none.
Proof.
  intros vis g [H1 H2 H3 H4 H5] _. unfold set_port, inspect, getType, mbind, gen_bind, get. cbn.
  destruct (is_null _); [done|]. cbn. destruct (is_port (default NullType (types g !! v)) && is_port t) eqn:Ep.
  - split; [by split|]. split; [|vis]. split; cbn; [|done..| |].
    + exists []. rewrite app_nil_r. split; [done|]. split; [constructor|]. intros id Hid. by apply elem_of_nil in Hid.
    + intros id Hid. split; [done|]. intros i t' Hl Hp. destruct (decide (v = OpResult id i)) as [->|Hne].
      * rewrite Hl in Ep. cbn in Ep. by rewrite Hp in Ep.
      * by rewrite lookup_insert_ne.
    + intros b i t' Hl Hp. destruct (decide (v = BlockArg b i)) as [->|Hne].
      * rewrite Hl in Ep. cbn in Ep. by rewrite Hp in Ep.
      * by rewrite lookup_insert_ne.
  - split; [by split|]. split; [apply extends_refl|vis].
Qed.
Lemma sound_declare need name decl v : v ∈ need -> sound need (declare name decl v) none.
Proof.
  intros Hv. eapply sound_bind; [apply sound_lookup|]. intros [e|]; [apply sound_fail|].
  eapply sound_bind; [apply sound_type|]. intros t. apply sound_insert; vis.
Qed.

Lemma sound_tryCast need v t : v ∈ need -> sound need (tryCast v t) one.
Proof.
  intros Hv. eapply sound_bind; [apply sound_inspected|]. intros tv.
  assert (Hr : sound (need ∪ none tv) (mret v) one) by (apply sound_ret; vis).
  destruct tv; try exact Hr. destruct t; try exact Hr; [|apply sound_crash]. destruct (_ =? _); [exact Hr|].
  eapply sound_bind; [apply sound_defining; vis|]. intros [d|]; [|apply sound_crash]. apply sound_create; [done|vis].
Qed.

Lemma insert_or_assign_in k v u k' v' : (k', v') ∈ insert_or_assign k v u -> v' = v \/ (k', v') ∈ u.
Proof.
  induction u as [|[k0 v0] u IH]; cbn.
  - intros H%list_elem_of_singleton. left. by injection H.
  - destruct (String.compare k k0); intros [[= -> ->]|H]%elem_of_cons; auto.
    + right. by right.
    + right. by left.
    + destruct (IH H); [by left|right; by right].
Qed.

Lemma sound_note need name v : v ∈ need -> sound need (note_update name v) none.
Proof.
  intros Hv vis g [H1 H2 H3 H4 H5] Hn. cbn. destruct (updateTables g) as [|u us] eqn:E.
  - split; [split; rewrite ?E; done|]. split; [apply extends_refl|vis].
  - split; [|split; [|set_solver]].
    + split; try done. cbn. intros u' k v' [->|Hu]%elem_of_cons Hin.
      * apply insert_or_assign_in in Hin as [->|Hin]; [by apply Hn|]. eapply (H3 u); [by left|done].
      * eapply (H3 u'); [by right|done].
    + split; cbn; [|lia|done|by rewrite E|done..]. exists []. rewrite app_nil_r. split; [done|]. split; [constructor|].
      intros id Hid. by apply elem_of_nil in Hid.
Qed.

Lemma sound_update need name v : v ∈ need -> sound need (update name v) none.
Proof.
  intros Hv. eapply sound_bind; [apply sound_lookup|]. intros [e|]; [|apply sound_crash].
  eapply sound_bind; [by apply sound_tryCast; vis|]. intros v'.
  eapply sound_bind; [apply (sound_insert _ _ _ none); vis|]. intros []. apply sound_note. vis.
Qed.
Lemma sound_update_path need p v : v ∈ need -> sound need (update_path p v) none.
Proof. intros Hv. unfold update_path. destruct (path p); [apply sound_crash|by apply sound_update]. Qed.
Lemma sound_update_expr need e v : v ∈ need -> sound need (update_expr e v) none.
Proof. intros Hv. unfold update_expr. destruct e; try (apply sound_ret; vis). by apply sound_update_path. Qed.

(** ** Expressions *)

Lemma sound_toRValue need v t : v ∈ need -> sound need (toRValue v t) one.
Proof.
  intros Hv. eapply sound_bind; [by apply sound_defining|]. intros d.
  assert (Hr : forall need', v ∈ need' -> sound need' (t' ← inspect v;
    match t' with ContextRefType t0 => create GLoad [v] (default t0 t) | _ => mret v end) one).
  { intros need' Hv'. eapply sound_bind; [apply sound_inspected|]. intros [];
      first [apply sound_create; [done|vis]|apply sound_ret; vis]. }
  destruct d as [[[] ops]|]; try (apply Hr; vis).
  eapply sound_bind; [apply sound_type|]. intros t'. apply sound_create; [done|vis].
Qed.

Lemma sound_variable need x : sound need (gen_variable x) one.
Proof. eapply sound_bind; [apply sound_lookup|]. intros [e|]; [apply sound_ret; vis|apply sound_fail]. Qed.

Lemma sound_struct_access need v i : v ∈ need -> sound need (struct_access v i) one.
Proof.
  intros Hv. eapply sound_bind; [apply sound_type|]. intros [| | ev ts n| | | | | | | | | |]; try apply sound_crash.
  destruct (ts !! i); [|apply sound_crash]. apply sound_create; [done|vis].
Qed.

Lemma sound_members p : forall need prev v, v ∈ need -> sound need (getMembers prev v p) one.
Proof.
  induction p as [|x p IH]; intros need prev v Hv; cbn [getMembers]; [apply sound_ret; vis|].
  eapply sound_bind; [apply sound_inspected|]. intros t.
  assert (Hm : sound (need ∪ none t) (vars ← get (fun g => getStructForName g (v_name prev));
    match vars with
    | None => fail
    | Some vars => match getMemberIndex vars (v_name x) with
                   | None => fail
                   | Some index => v' ← struct_access v index; getMembers x v' p
                   end
    end) one).
  { eapply sound_bind; [apply sound_reader|]. intros [vars|]; [|apply sound_fail].
    destruct (getMemberIndex _ _); [|apply sound_fail].
    eapply sound_bind; [by apply sound_struct_access; vis|]. intros v'. apply IH. vis. }
  destruct t; try exact Hm. eapply sound_bind; [apply sound_create; [done|vis]|]. intros v'. apply IH. vis.
Qed.

Lemma sound_path need p : sound need (getPath p) (from_option one ∅).
Proof.
  unfold getPath. destruct p as [|x p]; [apply sound_ret; vis|].
  eapply sound_bind; [apply sound_variable|]. intros v. eapply sound_bind; [apply sound_members; vis|].
  intros v'. apply sound_ret; vis.
Qed.

Lemma sound_cast_constant need l r : l ∈ need -> r ∈ need ->
  sound need (cast_constant l r) (fun p => {[p.1; p.2]}).
Proof.
  intros Hl Hr. unfold cast_constant. eapply sound_bind; [by apply sound_defining|]. intros dl.
  eapply sound_bind; [apply sound_defining; vis|]. intros dr.
  destruct (is_const dl); [|destruct (is_const dr)]; try (apply sound_ret; vis).
  all: (eapply sound_bind; [apply sound_type|]; intros t; eapply sound_bind; [apply sound_tryCast; vis|]; intros v; apply sound_ret; vis).
Qed.

Lemma sound_assign need e l r : l ∈ need -> r ∈ need -> sound need (gen_assign e l r) one.
Proof.
  intros Hl Hr. eapply sound_bind; [by apply sound_defining|]. intros [[k ops]|]; [|apply sound_crash].
  assert (Hd : sound (need ∪ from_option (fun p => list_to_set p.2) ∅ (Some (k, ops))) (_ ← update_expr e r; mret r) one).
  { eapply sound_bind; [apply sound_update_expr; vis|]. intros ?. apply sound_ret; vis. }
  destruct k; try exact Hd.
  - eapply sound_bind; [by apply (sound_create_ _ _ _ none); [done|vis|vis]|]. intros []. by apply sound_create; [done|vis].
  - destruct ops as [|input ops]; [exact Hd|]. eapply sound_bind; [apply sound_type|]. intros t.
    eapply sound_bind; [by apply sound_create; [done|vis]|]. intros v.
    eapply sound_bind; [apply sound_update_expr; vis|]. intros ?. apply sound_ret; vis.
Qed.

Lemma sound_binary need op e l r : sound need l one -> (forall need', need ⊆ need' -> sound need' r one) ->
  sound need (gen_binary op e l r) one.
Proof.
  intros Hl Hr. eapply sound_bind; [exact Hl|]. intros lhs.
  eapply (sound_bind _ _ _ one).
  { destruct (op =? Lexer.tok_eq); [apply sound_ret; vis|apply sound_toRValue; vis]. }
  intros lhs'. eapply sound_bind; [apply Hr; vis|]. intros rhs. eapply sound_bind; [apply sound_type|]. intros tl.
  eapply sound_bind; [apply sound_toRValue; vis|]. intros rhs'.
  eapply sound_bind; [apply sound_cast_constant; vis|]. intros [l' r']. eapply sound_bind; [apply sound_type|]. intros tl'.
  repeat match goal with |- sound _ (if ?b then _ else _) _ => destruct b end;
    first [apply sound_fail|apply sound_assign; vis|apply sound_create; [done|vis]].
Qed.

(** ** Lists *)

Definition all_of (vs : list value) : gset value := list_to_set vs.

Lemma sound_values {A} (f : A -> M value) l : forall need,
  (forall a need', a ∈ l -> need ⊆ need' -> sound need' (f a) one) -> sound need (mapM_ f l) all_of.
Proof.
  unfold all_of. induction l as [|a l IH]; intros need Hf; cbn [mapM_]; [apply sound_ret; vis|].
  eapply sound_bind; [apply Hf; [by left|done]|]. intros v.
  eapply sound_bind; [apply IH; intros a' need' Ha Hn; apply Hf; [by right|set_solver]|]. intros vs. apply sound_ret; vis.
Qed.
Lemma sound_list {A B} (f : A -> M B) l : forall need,
  (forall a need', a ∈ l -> need ⊆ need' -> sound need' (f a) none) -> sound need (mapM_ f l) none.
Proof.
  induction l as [|a l IH]; intros need Hf; cbn [mapM_]; [apply sound_ret; vis|].
  eapply sound_bind; [apply Hf; [by left|done]|]. intros v.
  eapply sound_bind; [apply IH; intros a' need' Ha Hn; apply Hf; [by right|set_solver]|]. intros vs. apply sound_ret; vis.
Qed.

Lemma sound_port need name : sound need (port name) one.
Proof. eapply sound_bind; [apply sound_lookup|]. intros [e|]; [apply sound_ret; vis|apply sound_crash]. Qed.
Lemma sound_offset need v : v ∈ need -> sound need (constant_offset v) none.
Proof.
  intros Hv. eapply sound_bind; [by apply sound_defining|]. intros d.
  repeat match goal with |- sound _ (match ?x with _ => _ end) _ => destruct x end; first [apply sound_fail|apply sound_ret; vis].
Qed.

(** ** Calls *)

Definition maybe : option value -> gset value := from_option one ∅.

Ltac sound_arms := repeat match goal with |- sound _ (match ?x with _ => _ end) _ => destruct x end; try apply sound_fail; try apply sound_crash.

Lemma sound_method need callee p caller args vs : maybe caller ⊆ need -> all_of vs ⊆ need ->
  sound need (gen_method callee p caller args vs) one.
Proof.
  unfold maybe, all_of. intros Hc Hv. unfold gen_method.
  destruct (String.eqb callee "extract").
  { sound_arms. cbn in *. eapply sound_bind; [apply sound_type|]. intros t. eapply sound_bind; [apply sound_create; [done|vis]|].
    intros x. eapply sound_bind; [apply sound_update_expr; vis|]. intros ?. apply sound_ret; vis. }
  destruct (String.eqb callee "emit").
  { sound_arms. cbn in *. eapply sound_bind; [apply sound_toRValue; vis|]. intros x.
    eapply sound_bind; [apply (sound_create_ _ _ _ none); [done|vis|vis]|]. intros ?. apply sound_create; [done|vis]. }
  destruct (String.eqb callee "lookup").
  { sound_arms. cbn in *. eapply sound_bind; [apply sound_inspected|]. intros t. sound_arms. cbn in *.
    eapply sound_bind; [apply sound_toRValue; vis|]. intros x. eapply sound_bind; [apply sound_toRValue; vis|]. intros y.
    apply sound_create; [done|vis]. }
  destruct (String.eqb callee "update").
  { sound_arms. cbn in *. eapply sound_bind; [apply sound_toRValue; vis|]. intros x.
    eapply sound_bind; [apply sound_toRValue; vis|]. intros y. eapply sound_bind; [apply sound_toRValue; vis|]. intros z.
    eapply sound_bind; [apply (sound_create_ _ _ _ none); [done|vis|vis]|]. intros ?. apply sound_create; [done|vis]. }
  destruct (String.eqb callee "set").
  { sound_arms. cbn in *. eapply sound_bind; [apply sound_offset; vis|]. intros o. eapply sound_bind; [apply sound_inspected|].
    intros t. destruct (negb _); [apply sound_fail|]. eapply sound_bind; [apply sound_toRValue; vis|]. intros x.
    eapply sound_bind; [apply sound_type|]. intros tc. eapply sound_bind; [apply sound_create; [done|vis]|]. intros r.
    eapply sound_bind; [apply sound_update_path; vis|]. intros ?. apply sound_ret; vis. }
  destruct (String.eqb callee "get").
  { sound_arms. cbn in *. eapply sound_bind; [apply sound_offset; vis|]. intros o. apply sound_create; [done|vis]. }
  eapply sound_bind; [apply sound_reader|]. intros f. sound_arms. apply sound_create; [done|vis].
Qed.

Lemma sound_call need p args ins outs (m : M (list value)) : (forall need', need ⊆ need' -> sound need' m all_of) ->
  sound need (gen_call p args ins outs m) one.
Proof.
  intros Hm. unfold gen_call. eapply sound_bind; [apply sound_nullable, sound_path|]. intros caller.
  assert (Hc : maybe (mjoin caller) ⊆ need ∪ from_option (from_option one ∅) ∅ caller) by (unfold maybe; destruct caller as [[|]|]; cbn; set_solver).
  cbv zeta. set (need' := need ∪ _) in *. assert (Hn : need ⊆ need') by set_solver. clearbody need'.
  destruct (list.last (path p)); [|apply sound_crash]. destruct (isCommand ins outs).
  - eapply sound_bind; [apply sound_values; intros; apply sound_port|]. intros vi.
    eapply sound_bind; [apply sound_values; intros; apply sound_port|]. intros vo.
    eapply sound_bind; [apply (sound_create_ _ _ _ none); [done| |vis]|].
    + unfold all_of. rewrite list_to_set_app_L. set_solver.
    + intros ?. apply sound_create; [done|vis].
  - eapply sound_bind; [by apply Hm|]. intros vs. apply sound_method; set_solver.
Qed.

Lemma sound_expr e : forall need, sound need (gen_expr e) one.
Proof.
  induction e as [e IH] using expr_ind. intros need. destruct e; cbn [gen_expr children] in *.
  - apply sound_create; [done|vis].
  - apply sound_fail.
  - destruct (struct_literal _) as [[[] t]|]; try apply sound_crash. apply sound_create; [done|vis].
  - apply sound_create; [done|vis].
  - apply sound_create; [done|vis].
  - eapply sound_bind; [apply sound_path|]. intros [v|]; [apply sound_ret; vis|apply sound_fail].
  - apply sound_fail.
  - eapply sound_bind; [apply sound_required|]. intros t.
    eapply sound_bind; [apply sound_values|intros vs; apply sound_create; [done|unfold all_of; set_solver]].
    intros e need' He Hn. rewrite list.Forall_forall in IH.
    eapply (sound_bind _ _ _ one); [|intros v; apply sound_toRValue; vis].
    unfold present. eapply sound_bind; [apply sound_nullable, (IH e He)|].
    intros [v|]; [apply sound_ret; vis|apply sound_crash].
  - apply sound_fail.
  - inversion_clear IH as [|? ? Hl Hr]. inversion_clear Hr as [|? ? Hr' _]. apply sound_binary; [apply Hl|intros; apply Hr'].
  - apply sound_call. intros need' _. apply sound_values. intros a need'' Ha _. rewrite list.Forall_forall in IH. by apply IH.
  - apply sound_fail.
Qed.

(** ** Statements *)

Lemma sound_decl need d : sound need (gen_decl d) one.
Proof.
  unfold gen_decl. eapply (sound_bind _ _ _ one).
  { destruct (initVal d); [apply sound_expr|]. eapply sound_bind; [apply sound_required|]. intros t. apply sound_create; [done|vis]. }
  intros v. eapply (sound_bind _ _ _ none).
  { destruct (String.eqb _ _); [apply sound_ret; vis|]. eapply sound_bind; [apply sound_required|]. intros t.
    eapply (sound_bind _ _ _ none).
    { apply sound_set_port. }
    intros ?. eapply sound_bind; [apply sound_type|]. intros tv. destruct (ty_eqb _ _); [apply sound_ret; vis|apply sound_fail]. }
  intros ?. eapply sound_bind; [apply sound_declare; vis|]. intros ?. apply sound_ret; vis.
Qed.

Lemma sound_return need r : sound need (gen_return r) none.
Proof.
  destruct r as [[e|]|]; cbn [gen_return].
  - eapply sound_bind; [apply sound_expr|]. intros v. apply sound_create_; [done|vis|vis].
  - apply sound_crash.
  - apply sound_create_; [done|vis|vis].
Qed.

(** ** Regions *)

(** A step that builds operations elsewhere. *)
Record frame (g g' : gen) : Prop := Frame {
  fr_block : opBlock g' = opBlock g;
  fr_symbols : symbolTable g' = symbolTable g;
  fr_updates : updateTables g' = updateTables g;
  fr_next : (nextId g <= nextId g')%nat;
  fr_table : forall id, (id < nextId g)%nat -> opTable g' !! id = opTable g !! id /\
    forall i t, types g !! OpResult id i = Some t -> is_port t = false -> types g' !! OpResult id i = Some t;
  fr_args : forall b i t, types g !! BlockArg b i = Some t -> is_port t = false -> types g' !! BlockArg b i = Some t }.

Lemma still_refl g : frame g g.
Proof. by split. Qed.
Lemma still_trans g1 g2 g3 : frame g1 g2 -> frame g2 g3 -> frame g1 g3.
Proof.
  intros [A1 A2 A3 A4 A5 A6] [B1 B2 B3 B4 B5 B6]. split; [congruence..|lia| |auto]. intros id Hid.
  destruct (A5 id Hid) as [K1 K1'], (B5 id ltac:(lia)) as [K2 K2']. split; [congruence|auto].
Qed.
Lemma frame_cur vis g g' : frame g g' -> cur vis g' = cur vis g.
Proof. intros [E _ _ _ _ _]. unfold cur. by rewrite E. Qed.
Lemma frame_inv vis g g' : inv vis g -> frame g g' -> inv vis g'.
Proof.
  intros [H1 H2 H3 H4 H5] Hf. pose proof (frame_cur vis _ _ Hf) as Hc. destruct Hf as [E1 E2 E3 E4 E5 _].
  split; rewrite ?Hc, ?E1, ?E2, ?E3; try done.
  - intros id i H. apply H4 in H. lia.
  - intros id k vs i Ht H. rewrite (proj1 (E5 id (H4 _ _ H))) in Ht. by eapply H5.
Qed.
Lemma frame_extends g g' : frame g g' -> extends g g'.
Proof.
  intros [E1 E2 E3 E4 E5 E6]. split; [|done|by rewrite E2|by rewrite E3|done..]. exists []. rewrite app_nil_r. split; [done|].
  split; [constructor|]. intros id Hid. by apply elem_of_nil in Hid.
Qed.

(** Steps after which a failure is not recovered from. *)
Definition runs {A} (need : gset value) (m : M A) (out : A -> gset value) : Prop :=
  forall vis g, inv vis g -> need ⊆ cur vis g ->
    match m g with Ok a g' => inv vis g' /\ extends g g' /\ out a ⊆ cur vis g' | _ => True end.

Lemma sound_runs {A} need (m : M A) out : sound need m out -> runs need m out.
Proof. intros H vis g Hi Hn. specialize (H vis g Hi Hn). by destruct (m g). Qed.
Lemma runs_bind {A B} need (m : M A) (k : A -> M B) out out' :
  runs need m out -> (forall a, runs (need ∪ out a) (k a) out') -> runs need (m ≫= k) out'.
Proof.
  intros Hm Hk vis g Hi Hn. unfold mbind, gen_bind. specialize (Hm vis g Hi Hn).
  destruct (m g) as [a g1|g1|]; [|done|done]. destruct Hm as (Hi1 & E1 & Ho).
  specialize (Hk a vis g1 Hi1). pose proof (extends_cur vis _ _ E1).
  specialize (Hk ltac:(set_solver)). destruct (k a g1) as [b g2|g2|]; [|done|done].
  destruct Hk as (Hi2 & E2 & Ho2). split; [done|]. split; [by eapply extends_trans|done].
Qed.
Lemma runs_list {A B} (f : A -> M B) l : forall need,
  (forall a need', a ∈ l -> runs need' (f a) none) -> runs need (mapM_ f l) none.
Proof.
  induction l as [|a l IH]; intros need Hf; cbn [mapM_]; [apply sound_runs, sound_ret; vis|].
  eapply runs_bind; [apply Hf; by left|]. intros v.
  eapply runs_bind; [apply IH; intros a' need' Ha; apply Hf; by right|]. intros vs. apply sound_runs, sound_ret; vis.
Qed.
Lemma runs_scope {A} need (m : M A) : runs need m none -> runs need (in_scope m) none.
Proof.
  intros Hm vis g Hi Hn. set (m' := fun g => match m g with Ok a g' => Ok a g' | _ => Crash end).
  assert (Hs : sound need m' none).
  { intros vis' g' Hi' Hn'. specialize (Hm vis' g' Hi' Hn'). unfold m'. by destruct (m g'). }
  apply sound_scope in Hs. specialize (Hs vis g Hi Hn). unfold in_scope, m' in *. by destruct (m _).
Qed.

(** A block leaves the variables around it alone. *)
Definition scoped (m : M unit) : Prop := forall vis g, inv vis g ->
  match m g with Ok _ g' => symbolTable g' = symbolTable g | _ => True end.
Lemma scoped_scope (m : M unit) : runs ∅ m none -> scoped (in_scope m).
Proof.
  intros Hm vis g Hi. unfold in_scope. specialize (Hm vis (with_symbols (∅ :: symbolTable g) g)).
  assert (Hi' : inv vis (with_symbols (∅ :: symbolTable g) g)).
  { destruct Hi as [H1 H2 H3 H4 H5]. split; try done. intros s name e [->|Hs]%elem_of_cons He; [done|by eapply H2]. }
  specialize (Hm Hi' ltac:(set_solver)). destruct (m _); [|done|done]. destruct Hm as (_ & [_ _ [E _] _ _ _] & _). exact E.
Qed.

(** What is known of the operations of a region built at [g], with the updates noted in it. *)
Record built (c : gset value) (g g' : gen) (u : UpdateTableT) (ops : list gop) : Prop := Built {
  bu_ok : ops_ok c ops = true;
  bu_nodup : NoDup (block_ids ops);
  bu_ids : forall id, id ∈ block_ids ops -> (nextId g <= id < nextId g')%nat;
  bu_table : forall k v, (k, v) ∈ u -> v ∈ c ∪ block_values ops }.

Lemma region_spec vis g (m : M unit) : inv vis g -> runs ∅ m none -> scoped m ->
  match in_region (with_table m) g with
  | Ok (u, ops) g' => frame g g' /\ built (cur vis g) g g' u ops
  | _ => True
  end.
Proof.
  intros Hi Hm Hs. set (g0 := with_updates ([] :: updateTables g) (with_block [] g)).
  assert (Hc : cur (cur vis g) g0 = cur vis g) by (unfold cur, g0; cbn; set_solver).
  assert (Hi0 : inv (cur vis g) g0).
  { destruct Hi as [H1 H2 H3 H4 H5]. split; rewrite ?Hc; try done.
    intros u k v [->|Hu]%elem_of_cons Hin; [by apply elem_of_nil in Hin|by eapply H3]. }
  unfold in_region, with_table, mbind, gen_bind, modify, get. cbn [mret gen_ret]. fold g0.
  change (with_updates ([] :: updateTables (with_block [] g)) (with_block [] g)) with g0.
  specialize (Hm _ g0 Hi0 ltac:(set_solver)). specialize (Hs _ g0 Hi0).
  destruct (m g0) as [[] g1|g1|]; [|done|done]. destruct Hm as ([J1 J2 J3 J4 J5] & [(ops & E1 & E2 & E3) E4 E5 [E6 E6'] E7 E8] & _).
  cbn in E1, E6, E6'. split.
  - split; cbn; [done|exact Hs| |exact E4|exact E7|exact E8]. by rewrite E6.
  - rewrite <- E1 in E2, E3. split; [exact J1|exact E2|exact E3|]. intros k v Hin. cbn in Hin.
    destruct (updateTables g1) as [|u us] eqn:Eu; [by apply elem_of_nil in Hin|]. eapply (J3 u); [by left|exact Hin].
Qed.

(** ** Conditionals *)

Lemma merge_spec vis g from : inv vis g -> forall to,
  match merge from to g with
  | Ok u g' => g' = g /\ forall k v, (k, v) ∈ u -> (k, v) ∈ to \/ v ∈ cur vis g
  | _ => True
  end.
Proof.
  intros Hi. induction from as [|[k v] from IH]; intros to; cbn [merge].
  - cbn. auto.
  - unfold mbind, gen_bind. destruct (table_find k to) as [v'|] eqn:Ef; [apply IH|].
    unfold lookup_symbol, get. destruct (find_symbol k (symbolTable g)) as [e|] eqn:E; [|done]. cbn [mret gen_ret].
    specialize (IH (insert_or_assign k (s_value e) to)). destruct (merge _ _ g) as [u g'|g'|]; [|done|done].
    destruct IH as [-> IH]. split; [done|]. intros k' v' Hin. destruct (IH k' v' Hin) as [H|H]; [|by right].
    apply insert_or_assign_in in H as [->|H]; [|by left]. right. by eapply find_symbol_in; [apply Hi|].
Qed.

(** Reading a list of things does not change the state. *)
Lemma reads_list {A B} (f : A -> M B) (P : B -> Prop) g l : (forall a, match f a g with Ok b g' => g' = g /\ P b | _ => True end) ->
  match mapM_ f l g with Ok bs g' => g' = g /\ length bs = length l /\ Forall P bs | _ => True end.
Proof.
  intros Hf. induction l as [|a l IH]; [by cbn|]. cbn [mapM_]. unfold mbind, gen_bind. specialize (Hf a).
  destruct (f a g) as [b g1|g1|]; [|done|done]. destruct Hf as [-> Hb]. destruct (mapM_ f l g) as [bs g2|g2|]; [|done|done].
  destruct IH as (-> & Hl & Hbs). cbn. split; [done|]. split; [by rewrite Hl|by constructor].
Qed.

Lemma table_find_in k u v : table_find k u = Some v -> exists k', (k', v) ∈ u.
Proof.
  unfold table_find. destruct (List.find _ u) as [[k' v']|] eqn:E; [|done]. intros [= ->].
  apply find_some in E as [E _]. exists k'. by apply list_elem_of_In.
Qed.

Lemma yields_spec vis g g1 g2 keys u u0 ops : inv vis g -> built (cur vis g) g1 g2 u0 ops ->
  (forall k v, (k, v) ∈ u -> v ∈ cur vis g ∪ block_values ops) ->
  match yields keys u ops g with
  | Ok ops' g' => frame g g' /\ nextId g' = S (nextId g) /\ block_ids ops' = block_ids ops ++ [nextId g] /\
      ops_ok (cur vis g) ops' = true /\ yields_n (length keys) ops' = true
  | _ => True
  end.
Proof.
  intros Hi [B1 B2 B3 _] Hu. unfold yields, mbind at 1, gen_bind at 1.
  pose proof (reads_list (table_at u) (fun v => v ∈ cur vis g ∪ block_values ops) g keys) as Hr.
  destruct (mapM_ (table_at u) keys g) as [vs g3|g3|]; [|done|done].
  destruct Hr as (-> & Hl & Hvs).
  { intros k. unfold table_at. destruct (table_find k u) as [v|] eqn:E; [|done]. cbn. split; [done|].
    apply table_find_in in E as [k' E]. by eapply Hu. }
  cbn. split; [split; cbn; [done..|lia| |]|split; [done|split; [|split]]].
  - intros id Hid. rewrite lookup_insert_ne by lia. split; [done|]. intros i t Ht _. by rewrite (left_id_L ∅ (∪)).
  - intros b i t Ht _. by rewrite (left_id_L ∅ (∪)).
  - by rewrite block_ids_app.
  - rewrite ops_ok_app, B1. cbn. rewrite !andb_true_r. apply forallb_forall. intros v Hv. apply bool_decide_eq_true.
    rewrite list.Forall_forall in Hvs. apply Hvs. by apply list_elem_of_In.
  - unfold yields_n. cbn [opBlock with_block app]. rewrite list.last_snoc. by apply Nat.eqb_eq.
Qed.

Lemma sound_update_all keys : forall need id i, (forall j, (j < length keys)%nat -> OpResult id (i + j) ∈ need) ->
  sound need (update_all id i keys) none.
Proof.
  induction keys as [|k keys IH]; intros need id i Hin; cbn [update_all]; [apply sound_ret; vis|].
  eapply sound_bind; [apply sound_update|].
  - specialize (Hin 0%nat). rewrite Nat.add_0_r in Hin. apply Hin. cbn. lia.
  - intros ?. apply IH. intros j Hj. apply elem_of_union. left. rewrite Nat.add_succ_comm. apply Hin. cbn. lia.
Qed.

(** The operation of a conditional, after its two regions. *)
Lemma if_spec vis g0 g cond ts keys regions : inv vis g -> frame g0 g -> cond ∈ cur vis g -> length ts = length keys ->
  regions <> [] -> forallb (ops_ok (cur vis g)) regions = true -> forallb (yields_n (length ts)) regions = true ->
  NoDup (concat (map block_ids regions)) ->
  (forall id, id ∈ concat (map block_ids regions) -> (nextId g0 <= id < nextId g)%nat) ->
  match (id ← create_op GIf [cond] ts regions; update_all id 0 keys) g with
  | Ok _ g' => inv vis g' /\ extends g0 g'
  | _ => True
  end.
Proof.
  intros Hi Hf Hc Hl Hr Hok Hy Hnd Hids. unfold mbind, gen_bind.
  pose proof (create_op_inv vis g0 g GIf [cond] ts regions Hi (fr_next _ _ Hf) (fr_block _ _ Hf) (frame_extends _ _ Hf)
    ltac:(set_solver) Hok Hy ltac:(done) Hnd Hids) as H.
  destruct (create_op GIf [cond] ts regions g) as [id g1|g1|]; [|done|done]. destruct H as (-> & Hi1 & He1 & Hv).
  pose proof (sound_update_all keys (cur vis g1) (nextId g) 0) as Hu. specialize (Hu ltac:(intros j Hj; apply Hv; cbn; lia) vis g1 Hi1 ltac:(set_solver)).
  destruct (update_all _ _ _ g1) as [[] g2|g2|]; [|done|done]. destruct Hu as (Hi2 & He2 & _). split; [done|]. by eapply extends_trans.
Qed.

(** The ids of two regions and of their yields. *)
Lemma ids_apart l1 l2 n1 n2 n3 : (n1 <= n2)%nat -> (n2 <= n3)%nat -> NoDup l1 -> NoDup l2 -> (forall id, id ∈ l1 -> (n1 <= id < n2)%nat) ->
  (forall id, id ∈ l2 -> (n2 <= id < n3)%nat) ->
  NoDup (l1 ++ [n3] ++ l2 ++ [S n3]) /\ forall id, id ∈ l1 ++ [n3] ++ l2 ++ [S n3] -> (n1 <= id < S (S n3))%nat.
Proof.
  intros L1 L2 D1 D2 R1 R2. split.
  - apply list.NoDup_app. split; [done|]. split.
    + intros id Hid%R1. cbn. rewrite elem_of_cons, elem_of_app, list_elem_of_singleton. intros [H|[H%R2|H]]; lia.
    + cbn. constructor.
      * rewrite elem_of_app, list_elem_of_singleton. intros [H%R2|H]; lia.
      * apply list.NoDup_app. split; [done|]. split; [|apply NoDup_singleton].
        intros id Hid%R2. rewrite list_elem_of_singleton. lia.
  - intros id. cbn. rewrite elem_of_app, elem_of_cons, elem_of_app, list_elem_of_singleton. intros [H%R1|[H|[H%R2|H]]]; try lia.
Qed.

Lemma runs_ifelse need gc mt me : sound need gc one -> (runs ∅ mt none /\ scoped mt) ->
  (forall m, me = Some m -> runs ∅ m none /\ scoped m) -> runs need (gen_ifelse gc mt me) none.
Proof.
  intros Hc [Ht Ht'] He vis g Hi Hn. unfold gen_ifelse. unfold mbind at 1, gen_bind at 1. specialize (Hc vis g Hi Hn).
  destruct (gc g) as [cond g1|g1|]; [|done|done]. destruct Hc as (Hi1 & He1 & Hcond). apply singleton_subseteq_l in Hcond.
  assert (He' : runs ∅ (default (mret tt) me) none /\ scoped (default (mret tt) me)).
  { destruct me as [m|]; [by apply He|]. split; [apply sound_runs, sound_ret; vis|by intros vis' g' _]. }
  destruct He' as [Hr Hr']. clear He. set (hasElse_ := bool_decide (is_Some me)). clearbody hasElse_.
  unfold mbind at 1, gen_bind at 1. pose proof (region_spec vis g1 mt Hi1 Ht Ht') as S1.
  destruct (in_region (with_table mt) g1) as [[u1 ops1] g2|g2|]; [|done|done]. destruct S1 as [F1 B1].
  pose proof (frame_inv vis _ _ Hi1 F1) as Hi2. pose proof (frame_cur vis _ _ F1) as C1.
  unfold mbind at 1, gen_bind at 1. pose proof (region_spec vis g2 (default (mret tt) me) Hi2 Hr Hr') as S2.
  destruct (in_region (with_table (default (mret tt) me)) g2) as [[u2 ops2] g3|g3|]; [|done|done]. destruct S2 as [F2 B2].
  pose proof (frame_inv vis _ _ Hi2 F2) as Hi3. pose proof (frame_cur vis _ _ F2) as C2.
  unfold mbind at 1, gen_bind at 1. pose proof (merge_spec vis g3 u1 Hi3 u2) as M1.
  destruct (merge u1 u2 g3) as [u2' g4|g4|]; [|done|done]. destruct M1 as [-> M1].
  unfold mbind at 1, gen_bind at 1. pose proof (merge_spec vis g3 u2' Hi3 u1) as M2.
  destruct (merge u2' u1 g3) as [u1' g4|g4|]; [|done|done]. destruct M2 as [-> M2].
  cbv zeta. set (keys := map fst u1'). set (hasElse := hasElse_ || _). clearbody hasElse.
  unfold mbind at 1, gen_bind at 1. pose proof (reads_list symbol_type (fun _ => True) g3 keys) as R.
  destruct (mapM_ symbol_type keys g3) as [ts g4|g4|]; [|done|done].
  destruct R as (-> & Hlen & _).
  { intros k. unfold symbol_type, mbind, gen_bind, lookup_symbol, get. by destruct (find_symbol _ _). }
  rewrite C1 in B2. rewrite <- C1, <- C2 in B1. rewrite <- C1, <- C2 in B2.
  unfold mbind at 1, gen_bind at 1. pose proof (yields_spec vis g3 _ _ keys u1' u1 ops1 Hi3 B1) as Y1.
  destruct (yields keys u1' ops1 g3) as [ops1' g4|g4|]; [|done|done].
  destruct Y1 as (F3 & N3 & I1 & O1 & Y1).
  { intros k v Hin. destruct (M2 k v Hin) as [H|H]; [by eapply B1|set_solver]. }
  pose proof (frame_inv vis _ _ Hi3 F3) as Hi4. pose proof (frame_cur vis _ _ F3) as C3.
  pose proof (still_trans _ _ _ F1 (still_trans _ _ _ F2 F3)) as F14.
  pose proof (fr_next _ _ F1). pose proof (fr_next _ _ F2). destruct hasElse.
  - unfold mbind at 1, gen_bind at 1. rewrite <- C3 in B2, O1.
    pose proof (yields_spec vis g4 _ _ keys u2' u2 ops2 Hi4 B2) as Y2.
    destruct (yields keys u2' ops2 g4) as [ops2' g5|g5|]; [|done|done].
    destruct Y2 as (F4 & N4 & I2 & O2 & Y2).
    { intros k v Hin. destruct (M1 k v Hin) as [H'|H']; [by eapply B2|rewrite C3; set_solver]. }
    pose proof (frame_cur vis _ _ F4) as C4. rewrite <- C4 in O1, O2. destruct B1 as [_ D1 R1 _]. destruct B2 as [_ D2 R2 _].
    assert (Hids : concat (map block_ids [ops1'; ops2']) = block_ids ops1 ++ [nextId g3] ++ block_ids ops2 ++ [nextId g4]).
    { cbn. by rewrite I1, I2, app_nil_r, <- !app_assoc. }
    destruct (ids_apart _ _ _ _ _ (fr_next _ _ F1) (fr_next _ _ F2) D1 D2 R1 R2) as [Hnd Hrange]. rewrite <- N3 in Hnd, Hrange.
    pose proof (if_spec vis g1 g5 cond ts keys [ops1'; ops2'] (frame_inv vis _ _ Hi4 F4) (still_trans _ _ _ F14 F4)) as Hif.
    rewrite Hlen in Hif. cbn [forallb] in Hif. rewrite O1, O2, Y1, Y2, Hids, N4 in Hif.
    specialize (Hif ltac:(by rewrite C4, C3, C2, C1) eq_refl ltac:(done) eq_refl eq_refl Hnd Hrange).
    destruct ((id ← create_op GIf [cond] ts [ops1'; ops2']; update_all id 0 keys) g5) as [[] g6|g6|]; [|done|done].
    destruct Hif as [J1 J2]. split; [done|]. split; [by eapply extends_trans|vis].
  - unfold mbind at 1, gen_bind at 1. cbn [mret gen_ret]. rewrite <- C3 in O1. destruct B1 as [_ D1 R1 _].
    assert (Hids : concat (map block_ids [ops1']) = block_ids ops1 ++ [nextId g3]) by (cbn; by rewrite I1, app_nil_r).
    pose proof (if_spec vis g1 g4 cond ts keys [ops1'] Hi4 F14) as Hif.
    rewrite Hlen in Hif. cbn [forallb] in Hif. rewrite O1, Y1, Hids, N3 in Hif.
    specialize (Hif ltac:(by rewrite C3, C2, C1) eq_refl ltac:(done) eq_refl eq_refl).
    destruct ((id ← create_op GIf [cond] ts [ops1']; update_all id 0 keys) g4) as [[] g6|g6|]; [|done|done].
    destruct Hif as [J1 J2].
    + apply list.NoDup_app. split; [done|]. split; [|apply NoDup_singleton]. intros id Hid%R1. rewrite list_elem_of_singleton. lia.
    + intros id [Hid%R1|Hid%list_elem_of_singleton]%elem_of_app; lia.
    + split; [done|]. split; [by eapply extends_trans|vis].
Qed.

Lemma runs_stmt e : forall need, runs need (gen_stmt e) none.
Proof.
  induction e as [e IH] using expr_ind. intros need.
  assert (Hd : runs need (_ ← gen_expr e; mret tt) none).
  { apply sound_runs. eapply sound_bind; [apply sound_expr|]. intros ?. apply sound_ret; vis. }
  assert (Hl : forall l, Forall (fun e => forall need, runs need (gen_stmt e) none) l ->
    runs ∅ (_ ← mapM_ gen_stmt l; mret tt) none).
  { intros l Hl. eapply runs_bind; [apply runs_list|].
    - intros a need' Ha. rewrite list.Forall_forall in Hl. by apply Hl.
    - intros ?. apply sound_runs, sound_ret; vis. }
  destruct e as [| | | | | |d| |loc r| | |loc c t f]; try exact Hd; cbn [gen_stmt children] in *.
  - apply sound_runs. eapply sound_bind; [apply sound_decl|]. intros ?. apply sound_ret; vis.
  - apply sound_runs. eapply sound_bind; [apply sound_nullable, sound_return|]. intros ?. apply sound_ret; vis.
  - inversion_clear IH as [|? ? _ IH']. apply Forall_app in IH' as [Ht Hf]. apply runs_ifelse; [apply sound_expr| |].
    + destruct t as [l|]; [|split; [apply sound_runs, sound_crash|by intros ? ? ?]].
      split; [apply runs_scope, Hl, Ht|apply scoped_scope, Hl, Ht].
    + intros m. destruct f as [l|]; [|done]. intros [= <-]. split; [apply runs_scope, Hl, Hf|apply scoped_scope, Hl, Hf].
Qed.

Lemma runs_block need l : runs need (gen_block l) none.
Proof.
  apply runs_scope. eapply runs_bind; [apply runs_list; intros; apply runs_stmt|]. intros ?. apply sound_runs, sound_ret; vis.
Qed.

(** ** Functions *)

Definition args_values (n : nat) : gset value := list_to_set (map (BlockArg 0) (seq 0 n)).

(** A function is in SSA form over the globals before it, and ends by terminating. *)
Record func_ok (globals : gset value) (f : gfunc) : Prop := FuncOk {
  fo_ssa : ops_ok (globals ∪ args_values (length (gf_args f))) (gf_body f) = true;
  fo_ids : NoDup (block_ids (gf_body f));
  fo_end : is_terminated (gf_body f) = true }.

(** The arguments of a function are given their types and names. *)
Record args_ready (g g' : gen) : Prop := ArgsReady {
  ar_block : opBlock g' = opBlock g;
  ar_next : nextId g' = nextId g;
  ar_symbols : tail (symbolTable g') = tail (symbolTable g);
  ar_updates : updateTables g' = updateTables g;
  ar_table : opTable g' = opTable g;
  ar_types : forall id i, types g' !! OpResult id i = types g !! OpResult id i }.

Lemma arg_spec vis g i name decl t : inv vis g -> BlockArg 0 i ∈ vis ->
  match (_ ← modify (with_type (BlockArg 0 i) t); declare name decl (BlockArg 0 i)) g with
  | Ok _ g' => inv vis g' /\ args_ready g g'
  | _ => True
  end.
Proof.
  intros Hi Hin. unfold mbind at 1, gen_bind at 1. cbn [modify]. set (g1 := with_type _ t g).
  assert (Hi1 : inv vis g1) by (destruct Hi; by split).
  pose proof (sound_declare {[BlockArg 0 i]} name decl (BlockArg 0 i) ltac:(set_solver) vis g1 Hi1
    ltac:(unfold cur; set_solver)) as Hs.
  unfold declare, lookup_symbol, getType, insert_symbol, mbind, gen_bind, get in *. destruct (find_symbol _ _); [done|].
  destruct (symbolTable g1) as [|s ss] eqn:E; [done|]. destruct Hs as (Hi2 & _ & _). split; [exact Hi2|].
  split; try done; cbn.
  - change (symbolTable g) with (symbolTable g1). by rewrite E.
  - intros id j. by rewrite lookup_insert_ne.
Qed.

Lemma declare_args_spec vis g args ts : inv vis g -> args_values (length ts) ⊆ vis ->
  match declare_args args ts g with Ok _ g' => inv vis g' /\ args_ready g g' | _ => True end.
Proof.
  intros Hi Hv. unfold declare_args. unfold mbind at 1, gen_bind at 1.
  assert (Hl : Forall (fun p : nat * (VarDeclExprAST ExprAST * ty) => BlockArg 0 p.1 ∈ vis) (imap pair (zip args ts))).
  { apply list.Forall_forall. intros [i [d t]] Hin. apply elem_of_lookup_imap in Hin as (i' & [d' t'] & [= -> -> ->] & Hl).
    apply Hv. unfold args_values. apply elem_of_list_to_set, list_elem_of_fmap. exists i'. split; [done|].
    apply elem_of_seq. apply lookup_lt_Some in Hl. rewrite length_zip in Hl. cbn. lia. }
  assert (Hr : args_ready g g) by by split.
  generalize dependent (imap pair (zip args ts)). intros l Hl.
  enough (H : forall g0, inv vis g0 -> args_ready g g0 ->
    match mapM_ (fun '(i, (d, t)) => _ ← modify (with_type (BlockArg 0 i) t); declare (d_name d) (d_type d) (BlockArg 0 i)) l g0 with
    | Ok _ g' => inv vis g' /\ args_ready g g' | _ => True end).
  { specialize (H g Hi Hr). by destruct (mapM_ _ l g). }
  clear Hi Hr Hv. induction l as [|[i [d t]] l IH]; intros g0 Hi Hr; [by cbn|]. inversion_clear Hl as [|? ? H1 H2].
  cbn [mapM_]. unfold mbind at 1, gen_bind at 1. pose proof (arg_spec vis g0 i (d_name d) (d_type d) t Hi H1) as Ha.
  destruct ((_ ← modify (with_type (BlockArg 0 i) t); declare (d_name d) (d_type d) (BlockArg 0 i)) g0) as [[] g1|g1|]; [|done|done]. destruct Ha as [Hi1 Hr1]. unfold mbind at 1, gen_bind at 1.
  specialize (IH H2 g1 Hi1). destruct Hr as [R1 R2 R3 R4 R5 R6], Hr1 as [S1 S2 S3 S4 S5 S6].
  specialize (IH ltac:(split; try congruence; intros; by rewrite S6)). by destruct (mapM_ _ l g1).
Qed.

(** Between the records of a module. *)
Record top (vis : gset value) (g : gen) : Prop := Top {
  top_inv : inv vis g; top_block : opBlock g = []; top_updates : updateTables g = [] }.

Lemma top_cur vis g : top vis g -> cur vis g = vis.
Proof. intros [_ E _]. unfold cur. rewrite E. cbn. set_solver. Qed.

Definition gen_body (p : PrototypeAST) (body : ExprASTList) (ts : list ty) : M unit :=
  _ ← declare_args (pr_args p) ts;
  _ ← gen_block body;
  ops ← get opBlock;
  if is_terminated ops then mret tt else create_ GTerminate [].

Lemma body_spec vis g p body ts : inv (vis ∪ args_values (length ts)) g -> opBlock g = [] ->
  match gen_body p body ts g with
  | Ok _ g' => inv (vis ∪ args_values (length ts)) g' /\ is_terminated (opBlock g') = true /\
      exists g1, declare_args (pr_args p) ts g = Ok tt g1 /\ args_ready g g1 /\ extends g1 g'
  | _ => True
  end.
Proof.
  intros Hi Hb. set (vis' := vis ∪ _) in *. unfold gen_body. unfold mbind at 1, gen_bind at 1.
  pose proof (declare_args_spec vis' g (pr_args p) ts Hi ltac:(set_solver)) as Hd.
  destruct (declare_args _ _ g) as [[] g1|g1|]; [|done|done]. destruct Hd as [Hi1 Hr].
  unfold mbind at 1, gen_bind at 1. pose proof (runs_block ∅ body vis' g1 Hi1 ltac:(set_solver)) as Hbl.
  destruct (gen_block body g1) as [[] g2|g2|]; [|done|done]. destruct Hbl as (Hi2 & He & _).
  unfold mbind at 1, gen_bind at 1. cbn [get]. destruct (is_terminated (opBlock g2)) eqn:Et; [cbn; eauto 10|].
  pose proof (sound_create_ ∅ GTerminate [] none ltac:(done) ltac:(set_solver) ltac:(vis) vis' g2 Hi2 ltac:(set_solver)) as Hs.
  destruct (create_ GTerminate [] g2) as [[] g3|g3|] eqn:Ec; [|done|done]. destruct Hs as (Hi3 & He3 & _).
  split; [done|]. split.
  - cbn in Ec. injection Ec as <-. cbn. unfold is_terminated. by rewrite list.last_snoc.
  - exists g1. split; [done|]. split; [done|]. by eapply extends_trans.
Qed.

(** What a function leaves behind for the next record. *)
Record after_record (g g' : gen) : Prop := AfterRecord {
  af_symbols : symbolTable g' = symbolTable g;
  af_next : (nextId g <= nextId g')%nat;
  af_table : forall id, (id < nextId g)%nat -> opTable g' !! id = opTable g !! id /\
    forall i t, types g !! OpResult id i = Some t -> is_port t = false -> types g' !! OpResult id i = Some t }.

(** The state in which the body of a function is built. *)
Definition body_start (g : gen) : gen := with_block [] (with_symbols (∅ :: symbolTable g) g).

Lemma body_start_inv vis g n : top vis g -> inv (vis ∪ args_values n) (body_start g).
Proof.
  intros Ht. pose proof (top_cur _ _ Ht) as Hcur. destruct Ht as [[H1 H2 H3 H4 H5] Hb Hu]. rewrite Hcur in *.
  assert (Hc : cur (vis ∪ args_values n) (body_start g) = vis ∪ args_values n) by (unfold cur; cbn; set_solver).
  assert (Ha : forall id i, OpResult id i ∈ vis ∪ args_values n -> OpResult id i ∈ vis).
  { intros id i [H|H]%elem_of_union; [done|]. apply elem_of_list_to_set, list_elem_of_fmap in H as (? & ? & _). done. }
  split; rewrite ?Hc; try done.
  - intros s name e [->|Hs]%elem_of_cons He; [done|]. apply elem_of_union. left. by eapply H2.
  - cbn. rewrite Hu. intros u k v Hin. by apply elem_of_nil in Hin.
  - intros id i Hin%Ha. by eapply H4.
  - intros id k vs i Hk Hin%Ha. transitivity vis; [by eapply H5|set_solver].
Qed.

Lemma required_list g (args : list (VarDeclExprAST ExprAST)) :
  match mapM_ (fun d => required_type (d_type d)) args g with
  | Ok ts g' => g' = g /\ Forall2 (fun d t => getVarType (structMap g) (d_type d) = Some t) args ts
  | _ => True
  end.
Proof.
  induction args as [|d args IH]; [by cbn|]. cbn [mapM_]. unfold required_type, var_type, mbind, gen_bind in *.
  destruct (getVarType _ _) as [t|] eqn:E; [|done]. destruct (is_null t); [done|]. cbn.
  destruct (mapM_ _ args g) as [ts g1|g1|]; [|done|done]. destruct IH as [-> IH]. split; [done|]. by constructor.
Qed.

Lemma function_spec vis g p body : top vis g ->
  match gen_function p body g with
  | Ok f g' => top vis g' /\ func_ok vis f /\ after_record g g' /\ exists ts g1, ts = gf_args f /\
      Forall2 (fun d t => getVarType (structMap g) (d_type d) = Some t) (pr_args p) ts /\
      gen_body p body ts (body_start g) = Ok tt g1 /\ gf_body f = opBlock g1
  | _ => True
  end.
Proof.
  intros Ht. unfold gen_function, in_scope. set (g0 := with_symbols (∅ :: symbolTable g) g). unfold mbind at 1, gen_bind at 1.
  pose proof (required_list g0 (pr_args p)) as Hr. change (structMap g0) with (structMap g) in Hr.
  destruct (mapM_ _ (pr_args p) g0) as [ts g1|g1|]; [|done|done]. destruct Hr as [-> Hts].
  unfold mbind at 1, gen_bind at 1, in_region. fold (gen_body p body ts). fold (body_start g).
  change (with_block [] g0) with (body_start g).
  pose proof (body_spec vis (body_start g) p body ts (body_start_inv _ _ _ Ht) eq_refl) as Hs.
  pose proof (top_cur _ _ Ht) as Hcur. destruct Ht as [[H1 H2 H3 H4 H5] Hb Hu]. rewrite Hcur in *.
  destruct (gen_body p body ts (body_start g)) as [[] g2|g2|] eqn:Eb; [|done|done].
  destruct Hs as ([J1 J2 J3 J4 J5] & Et & g1 & _ & [R1 R2 R3 R4 R5 R6] & [(ops & E1 & E2 & E3) E4 [E6 _] [_ E7] E8 _]).
  rewrite R1 in E1. rewrite R3 in E6. rewrite R4 in E7. rewrite R2 in E3, E4, E8. cbn in E1, E3, E4, E6, E7, E8. cbn.
  rewrite Hu in E7. apply length_zero_iff_nil in E7. split; [split; [split|exact Hb|exact E7]|split; [|split]].
  - cbn. by rewrite Hb.
  - cbn. rewrite E6. unfold cur. cbn. rewrite Hb. eapply symbols_mono; [|exact H2]. set_solver.
  - cbn. rewrite E7. intros u k v Hin. by apply elem_of_nil in Hin.
  - unfold cur. cbn. rewrite Hb. cbn. intros id i Hin. specialize (H4 id i ltac:(set_solver)). lia.
  - unfold cur. cbn. rewrite Hb. cbn. intros id k vs i Hk Hin. assert (Hin' : OpResult id i ∈ vis) by set_solver.
    rewrite (proj1 (E8 id (H4 _ _ Hin'))), R5 in Hk. cbn in Hk. specialize (H5 id k vs i Hk Hin'). set_solver.
  - rewrite E1 in *. split; cbn; [exact J1|exact E2|exact Et].
  - split; cbn; [exact E6|exact E4|]. intros id Hid. destruct (E8 id Hid) as [K1 K2]. rewrite R5 in K1. split; [exact K1|].
    intros i t Hl. apply K2. by rewrite R6.
  - exists ts, g2. done.
Qed.

(** ** Modules *)

Definition globals_of (items : list gitem) : gset value :=
  ⋃ (map (fun i => match i with GlobalItem id _ _ _ => {[OpResult id 0]} | FuncItem _ => ∅ end) items).

Lemma required_reads t g : match required_type t g with Ok _ g' => g' = g /\ True | _ => True end.
Proof. unfold required_type, var_type, mbind, gen_bind. destruct (getVarType _ _) as [t'|]; [|done]. by destruct (is_null t'). Qed.

Lemma top_structs vis g s : top vis g -> top vis (with_structs s g).
Proof. intros [[H1 H2 H3 H4 H5] Hb Hu]. by split; [split|..]. Qed.
Lemma top_functions vis g s : top vis g -> top vis (with_functions s g).
Proof. intros [[H1 H2 H3 H4 H5] Hb Hu]. by split; [split|..]. Qed.

Lemma struct_spec vis g ev name vars : top vis g ->
  match gen_struct ev name vars g with Ok _ g' => top vis g' | _ => True end.
Proof.
  intros Ht. unfold gen_struct. unfold mbind at 1, gen_bind at 1. cbn [get]. destruct (structMap g !! name); [done|].
  unfold mbind at 1, gen_bind at 1.
  match goal with |- context [mapM_ ?f vars g] => pose proof (reads_list f (fun _ => True) g vars) as Hr end.
  destruct (mapM_ _ vars g) as [ts g1|g1|]; [|done|done]. destruct Hr as (-> & _ & _).
  - intros d. destruct (initVal d); [done|apply required_reads].
  - cbn. by apply top_structs.
Qed.

Lemma global_spec vis g (d : VarDeclExprAST ExprAST) t : top vis g ->
  match ('(v, _) ← in_region (create (GGlobal (d_name d)) [] t); _ ← declare (d_name d) (d_type d) v; mret v) g with
  | Ok v g' => v = OpResult (nextId g) 0 /\ top (vis ∪ {[v]}) g'
  | _ => True
  end.
Proof.
  intros Ht. pose proof (top_cur _ _ Ht) as Hcur. destruct Ht as [[H1 H2 H3 H4 H5] Hb Hu]. rewrite Hcur in *.
  unfold in_region, create, declare, lookup_symbol, mbind, gen_bind. cbn.
  destruct (find_symbol _ _); [done|]. cbn. destruct (symbolTable g) as [|s ss] eqn:Es; [done|]. split; [done|].
  set (v := OpResult (nextId g) 0). split; [|exact Hb|exact Hu].
  assert (Hc : forall g', opBlock g' = [] -> cur (vis ∪ {[v]}) g' = vis ∪ {[v]}) by (intros g' E; unfold cur; rewrite E; cbn; set_solver).
  split; rewrite ?Hc by exact Hb; cbn.
  - by rewrite Hb.
  - intros s' name e [->|Hs]%elem_of_cons He.
    + apply lookup_insert_Some in He as [[_ <-]|[_ He]]; cbn; [set_solver|]. apply elem_of_union. left.
      eapply H2; [by left|done].
    + apply elem_of_union. left. eapply H2; [by right|done].
  - rewrite Hu. intros u k x Hin. by apply elem_of_nil in Hin.
  - intros id i [Hin|Hin]%elem_of_union; [apply H4 in Hin; lia|]. apply elem_of_singleton in Hin as [= -> _]. lia.
  - intros id k vs i. destruct (decide (id = nextId g)) as [->|Hne].
    + rewrite lookup_insert_eq. intros [= _ <-] _. set_solver.
    + rewrite lookup_insert_ne by done. intros Hk [Hin|Hin]%elem_of_union.
      * transitivity vis; [by eapply H5|set_solver].
      * apply elem_of_singleton in Hin as [= E _]. done.
Qed.

Lemma record_spec vis g scopes r : top vis g ->
  match gen_record scopes r g with
  | Ok (_, items) g' => top (vis ∪ globals_of items) g' /\
      (items = [] \/ (exists f, items = [FuncItem f] /\ func_ok vis f) \/ exists id n t a, items = [GlobalItem id n t a])
  | _ => True
  end.
Proof.
  intros Ht. assert (E0 : vis ∪ globals_of [] = vis) by (cbn; set_solver). unfold gen_record.
  destruct (r_body r) as [p body|ev loc name vars|loc name hs key|loc name d].
  - unfold mbind at 1, gen_bind at 1. pose proof (function_spec vis g p body Ht) as Hf.
    destruct (gen_function p body g) as [f g1|g1|]; [|done|done]. destruct Hf as (Ht1 & Hf & _).
    unfold mbind at 1, gen_bind at 1. cbn [modify].
    destruct (record_attrs _ _ _) as [attrs|]; [|done]. cbn. split.
    + rewrite (left_id_L ∅ (∪)), (right_id_L ∅ (∪)). destruct (functionMap g1 !! gf_name f); [done|by apply top_functions].
    + right. left. eexists. split; [done|]. by destruct Hf.
  - unfold mbind at 1, gen_bind at 1. pose proof (struct_spec vis g ev name vars Ht) as Hs.
    destruct (gen_struct ev name vars g) as [[] g1|g1|]; [|done|done]. cbn [mret gen_ret]. rewrite E0. split; [done|by left].
  - cbn [mret gen_ret]. rewrite E0. split; [done|by left].
  - unfold mbind at 1, gen_bind at 1. unfold var_type. destruct (getVarType _ _) as [t|]; [|done].
    pose proof (global_spec vis g d t Ht) as Hg. unfold mbind in Hg at 1. unfold gen_bind in Hg at 1.
    unfold mbind at 1, gen_bind at 1. destruct (in_region _ g) as [[v ops] g1|g1|]; [|done|done].
    unfold mbind in Hg at 1. unfold gen_bind in Hg at 1. unfold mbind at 1, gen_bind at 1.
    destruct (declare _ _ v g1) as [[] g2|g2|]; [|done|done]. cbn [mret gen_ret] in Hg. destruct Hg as [-> Ht2].
    destruct (record_attrs _ _ _) as [attrs|]; [|done]. cbn. split; [|right; right; eauto].
    by rewrite (right_id_L ∅ (∪)).
Qed.

Lemma records_spec rs : forall vis g scopes, top vis g ->
  match gen_records scopes rs g with
  | Ok items _ => forall pre f post, items = pre ++ FuncItem f :: post -> func_ok (vis ∪ globals_of pre) f
  | _ => True
  end.
Proof.
  induction rs as [|r rs IH]; intros vis g scopes Ht; cbn [gen_records].
  { cbn. intros pre f post H. by destruct pre. }
  unfold mbind at 1, gen_bind at 1. pose proof (record_spec vis g scopes r Ht) as Hr.
  destruct (gen_record scopes r g) as [[scopes' items] g1|g1|]; [|done|done]. destruct Hr as [Ht1 Hi].
  specialize (IH _ g1 scopes' Ht1). unfold mbind at 1, gen_bind at 1.
  destruct (gen_records scopes' rs g1) as [items' g2|g2|]; [|done|done]. cbn.
  intros pre f post E. destruct Hi as [->|[(f' & -> & Hf)|(id & n & t & a & ->)]]; cbn in E.
  - specialize (IH pre f post E). cbn in IH. by rewrite (right_id_L ∅ (∪)) in IH.
  - destruct pre as [|i pre]; injection E as E1 E2.
    + subst f'. cbn. by rewrite (right_id_L ∅ (∪)).
    + subst i. specialize (IH pre f post E2). cbn in *. by rewrite (left_id_L ∅ (∪)), (right_id_L ∅ (∪)) in *.
  - destruct pre as [|i pre]; injection E as E1 E2; [done|]. subst i. specialize (IH pre f post E2). cbn in *.
    by rewrite (right_id_L ∅ (∪)), <- (assoc_L (∪)) in IH.
Qed.

Lemma start_top : top ∅ (with_symbols (∅ :: symbolTable start) start).
Proof.
  split; [split|done|done]; cbn; try done.
  - intros s name e [->|Hs]%elem_of_cons He; [done|by apply elem_of_nil in Hs].
  - intros u k v Hin. by apply elem_of_nil in Hin.
Qed.

(** C17: Whatever module MLIRGen accepts, the functions it builds are in SSA form:
    every operand of an operation is an argument of the function, a global
    declared before it, or the result of an operation before it in its region or
    in a region around it; no two operations share an id; both regions of a
    conditional end by yielding as many values as it has results; and the body
    ends with a terminate. *)
Theorem mlirGen_ssa m items g pre f post : mlirGen m = Ok items g -> items = pre ++ FuncItem f :: post ->
  func_ok (globals_of pre) f.
Proof.
  intros H E. unfold mlirGen, in_scope in H.
  pose proof (records_spec m ∅ _ ∅ start_top) as Hr. destruct (gen_records _ _ _) as [items' g'|g'|]; [|done|done].
  injection H as -> _. specialize (Hr pre f post E). by rewrite (left_id_L ∅ (∪)) in Hr.
Qed.

Definition sample : ModuleAST :=
  match Parser.parse "handler f (context ctx, int x) { int y; if (x) { y = 2; } ctx.a = y; }" with Lexer.Ok (Some m, _) => m | _ => [] end.
Definition only_function (m : ModuleAST) : option gfunc := match mlirGen m with Ok [FuncItem f] _ => Some f | _ => None end.

Lemma only_function_ok m f : only_function m = Some f -> exists g, mlirGen m = Ok [FuncItem f] g.
Proof. unfold only_function. destruct (mlirGen m) as [[|[f'|] [|]] g| |]; try discriminate. intros [= ->]. eauto. Qed.

Lemma sample_function : is_Some (only_function sample).
Proof. apply (bool_decide_eq_true (is_Some (only_function sample))). vm_compute. reflexivity. Qed.

Lemma mlirGen_ssa_witness : exists f, only_function sample = Some f /\ func_ok (globals_of []) f.
Proof.
  destruct sample_function as [f Hf]. destruct (only_function_ok _ _ Hf) as [g Hg]. exists f. split; [exact Hf|].
  exact (mlirGen_ssa sample _ g [] f [] Hg eq_refl).
Defined.
End MlirGenSsa.
