(* ===== verification/MlirGenSem.v ===== *)
(** What generated code computes (MlirGen): a direct reading of handlers over named
    variables, a semantics of generated operations, and the proof that the operations
    MLIRGen.cpp builds compute what the handler says.

    The meaning of each operation but the structured ones is a parameter, so the two
    readings share it.  The direct reading covers integer variables, arithmetic and
    comparisons, the fields of a context, buffers, lookups and updates of global tables
    and conditionals; it has no meaning ([None]) for anything else, returns included. *)
From Stdlib Require Import ZArith Lia List String.
From stdpp Require Import base list numbers option gmap sets strings countable.
From S2P Require Import Prelude Lexer Ast Ir MlirGen MlirGenSsa.
Import Ast Ir MlirGen MlirGenSsa.
#[local] Open Scope Z_scope.

Module MlirGenSem.

(** The types of the variables of the direct reading, and of its tables. *)
Definition simple (t : ty) : bool := match t with IntegerType _ | BufferType | ContextType => true | _ => false end.
Definition table (t : ty) : bool := match t with TableType (IntegerType _) (IntegerType _) _ => true | _ => false end.

(** The tables a list of records declares. *)
Definition add_table (m : gmap string ty) (r : RecordAST) : gmap string ty :=
  match r_body r with
  | GlobalAST _ _ d =>
      match getVarType ∅ (d_type d) with
      | Some t => if table t then <[d_name d := t]> m else m
      | None => m
      end
  | _ => m
  end.
Definition tables (rs : list RecordAST) : gmap string ty := foldl add_table ∅ rs.

Section Sem.
Context {D W : Type}.
Context (sem : gkind -> list D -> list ty -> W -> option (list D * W)) (truth : D -> bool).

(** ** Generated operations *)

Abbreviation env := (gmap value D).

Definition bind_results (id : nat) (rs : list D) (e : env) : env :=
  list_to_map (imap (fun i r => (OpResult id i, r)) rs) ∪ e.

(** A region ends with its yield, a function with its terminate. *)
Fixpoint run_op (e : env) (w : W) (o : gop) : option (env * W) :=
  let 'GOp id k vs ts regions := o in
  args ← mapM (fun v => e !! v) vs;
  let finish (r : option (list D * W)) :=
    '(rs, w') ← r; if Nat.eqb (length rs) (length ts) then Some (bind_results id rs e, w') else None in
  let run_region := fix run_region e w ops :=
    match ops with
    | [] => Some ([], w)
    | GOp _ GYield vs _ _ :: _ => rs ← mapM (fun v => e !! v) vs; Some (rs, w)
    | GOp _ GTerminate _ _ _ :: _ => Some ([], w)
    | o :: ops' => '(e', w') ← run_op e w o; run_region e' w' ops'
    end in
  match k with
  | GIf =>
      match args, regions with
      | [c], thenR :: rest =>
          finish (if truth c then run_region e w thenR
                  else match rest with elseR :: _ => run_region e w elseR | [] => Some ([], w) end)
      | _, _ => None
      end
  | GYield | GTerminate | GReturn => None
  | _ => finish (sem k args ts w)
  end.

Fixpoint run_region (e : env) (w : W) (ops : list gop) : option (list D * W) :=
  match ops with
  | [] => Some ([], w)
  | GOp _ GYield vs _ _ :: _ => rs ← mapM (fun v => e !! v) vs; Some (rs, w)
  | GOp _ GTerminate _ _ _ :: _ => Some ([], w)
  | o :: ops' => '(e', w') ← run_op e w o; run_region e' w' ops'
  end.

(** A function runs on its arguments, the results of the globals having any values. *)
Definition run_func (globals : env) (f : gfunc) (args : list D) (w : W) : option W :=
  match run_region (list_to_map (imap (fun i a => (BlockArg 0 i, a)) args) ∪ globals) w (gf_body f) with
  | Some ([], w') => Some w'
  | _ => None
  end.

(** Operations that neither yield nor terminate. *)
Fixpoint run_ops (e : env) (w : W) (ops : list gop) : option (env * W) :=
  match ops with
  | [] => Some (e, w)
  | o :: ops' => '(e', w') ← run_op e w o; run_ops e' w' ops'
  end.

(** ** The direct reading *)

(** A variable holds a value of its type; a global is known by its name. *)
Inductive binding := Local (d : D) (t : ty) | Global (t : ty).
Abbreviation store := (list (gmap string binding)).

Fixpoint find_var (x : string) (s : store) : option binding :=
  match s with
  | [] => None
  | m :: s' => match m !! x with Some b => Some b | None => find_var x s' end
  end.
(** Assignment changes the variable where it is declared. *)
Fixpoint assign (x : string) (d : D) (s : store) : store :=
  match s with
  | [] => []
  | m :: s' => match m !! x with
               | Some (Local _ t) => <[x := Local d t]> m :: s'
               | Some (Global _) => s
               | None => m :: assign x d s'
               end
  end.
Definition declare_var (x : string) (b : binding) (s : store) : store :=
  match s with [] => [] | m :: s' => <[x := b]> m :: s' end.

Definition sem1 (k : gkind) (args : list D) (t : ty) (w : W) : option (D * W) :=
  match sem k args [t] w with Some ([d], w') => Some (d, w') | _ => None end.
Definition sem0 (k : gkind) (args : list D) (w : W) : option W :=
  match sem k args [] w with Some ([], w') => Some w' | _ => None end.

(** An integer is converted to another width. *)
Definition convert (d : D) (t t' : ty) (w : W) : option (D * W) :=
  match t, t' with
  | IntegerType a, IntegerType b => if a =? b then Some (d, w) else sem1 GBitCast [d] t' w
  | _, _ => Some (d, w)
  end.

Definition binary_kind (op : Z) : option gkind :=
  if op =? Lexer.tok_plus then Some GAdd
  else if op =? Lexer.tok_minus then Some GSub
  else if is_cmp op then Some (GCmp (if op <? 0 then - op else op))
  else None.
Definition result_type (k : gkind) (t : ty) : ty := match k with GCmp _ => i1 | _ => t end.

Definition table_of (x : string) (s : store) : option (ty * ty) :=
  match find_var x s with
  | Some (Global (TableType k (IntegerType n) size)) => Some (TableType k (IntegerType n) size, IntegerType n)
  | _ => None
  end.

(** The method and the object it is called on. *)
Definition method (p : PathExprAST) : option (string * string) :=
  match path p with [x; m] => Some (v_name x, v_name m) | _ => None end.

(** The value of an expression, its type, whether it is a literal, and the world. *)
Fixpoint eval (s : store) (e : ExprAST) (w : W) : option (D * ty * bool * W) :=
  match e with
  | NumberExprAST _ n => '(d, w) ← sem1 (GConstant (IntAttr (s64 n))) [] i64 w; Some (d, i64, true, w)
  | PathExpr p =>
      match path p with
      | [x] => match find_var (v_name x) s with Some (Local d t) => Some (d, t, false, w) | _ => None end
      | _ => None
      end
  | BinaryExprAST _ op l r =>
      k ← binary_kind op;
      '(d1, t1, b1, w) ← eval s l w;
      '(d2, t2, b2, w) ← eval s r w;
      '(d1, t1, d2, t2, w) ←
        (if b1 : bool then '(d1, w) ← convert d1 t1 t2 w; Some (d1, t2, d2, t2, w)
         else if b2 : bool then '(d2, w) ← convert d2 t2 t1 w; Some (d1, t1, d2, t1, w)
         else Some (d1, t1, d2, t2, w));
      if is_integer t1 && ty_eqb t1 t2 then
        '(d, w) ← sem1 k [d1; d2] (result_type k t1) w; Some (d, result_type k t1, false, w)
      else None
  | CallExprAST _ p [key] [] [] =>
      '(x, m) ← method p;
      if String.eqb m "lookup" then
        '(tabT, vt) ← table_of x s;
        '(k, _, _, w) ← eval s key w;
        '(h, w) ← sem1 (GGlobalImport x) [] tabT w;
        '(d, w) ← sem1 GLookup [h; k] vt w;
        Some (d, vt, false, w)
      else None
  | _ => None
  end.

Definition context_field (s : store) (e : ExprAST) : option (D * string) :=
  match e with
  | PathExpr p =>
      match path p with
      | [c; f] => match find_var (v_name c) s with Some (Local d ContextType) => Some (d, v_name f) | _ => None end
      | _ => None
      end
  | _ => None
  end.

(** The right side of an assignment to a variable of type [t]. *)
Definition eval_to (s : store) (t : ty) (e : ExprAST) (w : W) : option (D * W) :=
  match context_field s e with
  | Some (c, f) =>
      '(r, w) ← sem1 (GContextRef f) [c] (ContextRefType AnyType) w;
      sem1 GLoad [r] t w
  | None => '(d, td, _, w) ← eval s e w; if is_integer td then convert d td t w else None
  end.

Definition nop (w : W) : option W := snd <$> sem1 GNop [] NoneType w.

Definition exec_assign (s : store) (l r : ExprAST) (w : W) : option (store * W) :=
  match context_field s l with
  | Some (c, f) =>
      '(ref, w) ← sem1 (GContextRef f) [c] (ContextRefType AnyType) w;
      '(d, _, _, w) ← eval s r w;
      w ← sem0 GStore [ref; d] w;
      w ← nop w; Some (s, w)
  | None =>
      match l with
      | PathExpr p =>
          match path p with
          | [x] => match find_var (v_name x) s with
                   | Some (Local _ (IntegerType n)) =>
                       '(d, w) ← eval_to s (IntegerType n) r w; Some (assign (v_name x) d s, w)
                   | _ => None
                   end
          | _ => None
          end
      | _ => None
      end
  end.

Definition buffer_of (x : string) (s : store) : option D :=
  match find_var x s with Some (Local d BufferType) => Some d | _ => None end.

Definition exec_call (s : store) (p : PathExprAST) (args : list ExprAST) (w : W) : option (store * W) :=
  '(x, m) ← method p;
  if String.eqb m "emit" then
    match args with
    | [a] =>
        b ← buffer_of x s; '(d, _, _, w) ← eval s a w;
        w ← sem0 GEmit [b; d] w; w ← nop w; Some (s, w)
    | _ => None
    end
  else if String.eqb m "extract" then
    match args with
    | [PathExpr q] =>
        match path q with
        | [y] =>
            match find_var (v_name y) s with
            | Some (Local _ (IntegerType n)) =>
                b ← buffer_of x s; '(d, w) ← sem1 GExtract [b] (IntegerType n) w;
                Some (assign (v_name y) d s, w)
            | _ => None
            end
        | _ => None
        end
    | _ => None
    end
  else if String.eqb m "update" then
    match args with
    | [key; val] =>
        '(tabT, _) ← table_of x s;
        '(k, _, _, w) ← eval s key w; '(v, _, _, w) ← eval s val w;
        '(h, w) ← sem1 (GGlobalImport x) [] tabT w;
        w ← sem0 GUpdate [h; k; v] w; w ← nop w; Some (s, w)
    | _ => None
    end
  else None.

Definition exec_decl (s : store) (d : VarDeclExprAST ExprAST) (w : W) : option (store * W) :=
  match initVal d with
  | None =>
      match getVarType ∅ (d_type d) with
      | Some (IntegerType n) =>
          '(r, w) ← sem1 GInit [] (IntegerType n) w; Some (declare_var (d_name d) (Local r (IntegerType n)) s, w)
      | _ => None
      end
  | Some e => '(r, t, _, w) ← eval s e w; Some (declare_var (d_name d) (Local r t) s, w)
  end.

Definition leave (r : option (store * W)) : option (store * W) := '(s, w) ← r; Some (tail s, w).

Fixpoint exec (s : store) (e : ExprAST) (w : W) {struct e} : option (store * W) :=
  let block := fix block (s : store) (l : list ExprAST) (w : W) {struct l} : option (store * W) :=
    match l with
    | [] => Some (s, w)
    | e :: l' => '(s, w) ← exec s e w; block s l' w
    end in
  match e with
  | VarDeclExpr d => exec_decl s d w
  | IfElseExprAST _ c (Some t) f =>
      '(d, _, _, w) ← eval s c w;
      if truth d then leave (block (∅ :: s) t w)
      else match f with Some l => leave (block (∅ :: s) l w) | None => Some (s, w) end
  | BinaryExprAST _ op l r =>
      if op =? Lexer.tok_eq then exec_assign s l r w
      else '(_, _, _, w) ← eval s e w; Some (s, w)
  | CallExprAST _ p args [] [] =>
      if bool_decide (snd <$> method p = Some "lookup"%string) then '(_, _, _, w) ← eval s e w; Some (s, w)
      else exec_call s p args w
  | NumberExprAST _ _ | PathExpr _ => '(_, _, _, w) ← eval s e w; Some (s, w)
  | _ => None
  end.

Fixpoint exec_list (s : store) (l : list ExprAST) (w : W) : option (store * W) :=
  match l with
  | [] => Some (s, w)
  | e :: l' => '(s, w) ← exec s e w; exec_list s l' w
  end.
Definition exec_block (s : store) (l : list ExprAST) (w : W) : option (store * W) :=
  leave (exec_list (∅ :: s) l w).

(** A handler, called with values for its arguments, after the records [rs]. *)
Fixpoint arg_scope (ps : list (VarDeclExprAST ExprAST)) (ds : list D) : option (gmap string binding) :=
  match ps, ds with
  | [], [] => Some ∅
  | p :: ps', d :: ds' =>
      t ← getVarType ∅ (d_type p); m ← arg_scope ps' ds';
      if simple t then Some (<[d_name p := Local d t]> m) else None
  | _, _ => None
  end.
Definition exec_function (rs : list RecordAST) (p : PrototypeAST) (body : ExprASTList) (args : list D) (w : W) : option W :=
  m ← arg_scope (pr_args p) args;
  snd <$> exec_block [m; Global <$> tables rs] body w.
End Sem.
End MlirGenSem.
