(* ===== verification/MlirGenCorrect.v ===== *)
(** The operations MLIRGen.cpp builds for a handler compute what the handler says
    (MlirGen, MlirGenSem): single assignment form, with its merges after conditionals, is
    faithful to assignments of named variables. *)
From Stdlib Require Import ZArith Lia List String.
From stdpp Require Import base list numbers option gmap sets strings countable.
From S2P Require Import Prelude Lexer Ast Ir MlirGen MlirGenSsa MlirGenSem.
Import Ast Ir MlirGen MlirGenSsa MlirGenSem.
#[local] Open Scope Z_scope.

Module MlirGenCorrect.

Lemma bind_ok {A B} (m : M A) (k : A -> M B) g b g' : (m ≫= k) g = Ok b g' ->
  exists a g1, m g = Ok a g1 /\ k a g1 = Ok b g'.
Proof. unfold mbind, gen_bind. destruct (m g) as [a g1|g1|]; [eauto|done|done]. Qed.

Lemma ret_ok {A} (a : A) g b g' : (mret a : M A) g = Ok b g' -> b = a /\ g' = g.
Proof. by intros [= <- <-]. Qed.

(** Takes a step of an evaluation apart. *)
Tactic Notation "opt" constr(t) "as" simple_intropattern(p) "by" ident(E) "in" hyp(H) :=
  destruct t as p eqn:E; [cbn [mbind option_bind] in H|discriminate].

(** Takes a successful run apart. *)
Ltac run_inv H :=
  lazymatch type of H with
  | (_ ≫= _) _ = Ok _ _ =>
      let a := fresh "a" in let g := fresh "g" in let H1 := fresh "R" in let H2 := fresh "R" in
      apply bind_ok in H as (a & g & H1 & H2)
  end.

Section Correct.
Context {D W : Type}.
Context (sem : gkind -> list D -> list ty -> W -> option (list D * W)) (truth : D -> bool).
Abbreviation env := (gmap value D).
Abbreviation run_op := (run_op sem truth).
Abbreviation run_ops := (run_ops sem truth).
Abbreviation run_region := (run_region sem truth).
Abbreviation eval := (eval sem).

Lemma run_ops_app e w a b : run_ops e w (a ++ b) = '(e', w') ← run_ops e w a; run_ops e' w' b.
Proof.
  revert e w. induction a as [|o a IH]; intros e w; cbn; [done|]. destruct (run_op e w o) as [[e' w']|]; cbn; [apply IH|done].
Qed.

(** A region goes on after operations that do not end it. *)
Lemma run_region_app e w a b e' w' : run_ops e w a = Some (e', w') -> run_region e w (a ++ b) = run_region e' w' b.
Proof.
  revert e w. induction a as [|o a IH]; intros e w; cbn [run_ops app]; [by intros [= -> ->]|].
  destruct (run_op e w o) as [[e1 w1]|] eqn:E; [|done]. cbn [mbind option_bind]. intros H.
  destruct o as [id k vs ts rs]. destruct k; try (cbn [run_region]; rewrite E; cbn; by apply IH).
  all: cbn in E; destruct (mapM _ vs); done.
Qed.

(** ** States that correspond *)

Definition plain_def (d : option (gkind * list value)) : bool :=
  match d with Some (GGlobal _, _) | Some (GContextRef _, _) | Some (GStructAccess _, _) => false | _ => true end.

Record value_ok (g : gen) (e : env) (v : value) (d : D) (t : ty) : Prop := ValueOk {
  vo_env : e !! v = Some d;
  vo_simple : simple t = true;
  vo_type : types g !! v = Some t;
  vo_def : plain_def (defining g v) = true;
  vo_const : is_const (defining g v) = true -> t = i64 }.

Definition env_in (c : gset value) (e : env) : Prop := forall v d, e !! v = Some d -> v ∈ c.

Definition binding_ok (g : gen) (e : env) (c : gset value) (x : string) (sym : symbol) (b : binding) : Prop :=
  match b with
  | Local d t => value_ok g e (s_value sym) d t /\ s_type sym = t
  | Global t => (exists id i ops, s_value sym = OpResult id i /\ opTable g !! id = Some (GGlobal x, ops)) /\
      types g !! s_value sym = Some t /\ is_port t = false /\ s_value sym ∈ c /\ s_type sym = t /\ simple t = false
  end.
Definition rel (vis : gset value) (g : gen) (e : env) (s : list (gmap string binding)) : Prop := forall x b,
  find_var x s = Some b -> exists sym, find_symbol x (symbolTable g) = Some sym /\ binding_ok g e (cur vis g) x sym b.

(** From [g] to [g'] the operations that are built take the environment [e] to [e']. *)
Record steps (vis : gset value) (g : gen) (e : env) (w : W) (g' : gen) (e' : env) (w' : W) : Prop := Steps {
  st_inv : inv vis g';
  st_extends : extends g g';
  st_ops : exists ops, opBlock g' = opBlock g ++ ops /\ run_ops e w ops = Some (e', w');
  st_env : e ⊆ e';
  st_in : env_in (cur vis g') e' }.
Record quiet (g g' : gen) : Prop := Quiet { qu_symbols : symbolTable g' = symbolTable g; qu_updates : updateTables g' = updateTables g }.

Lemma quiet_refl g : quiet g g. Proof. done. Qed.
Lemma quiet_trans g1 g2 g3 : quiet g1 g2 -> quiet g2 g3 -> quiet g1 g3.
Proof. intros [A1 A2] [B1 B2]. split; congruence. Qed.

Lemma steps_refl vis g e w : inv vis g -> env_in (cur vis g) e -> steps vis g e w g e w.
Proof. intros Hi He. split; [done|apply extends_refl| |done|done]. exists []. by rewrite app_nil_r. Qed.
Lemma steps_trans vis g1 e1 w1 g2 e2 w2 g3 e3 w3 :
  steps vis g1 e1 w1 g2 e2 w2 -> steps vis g2 e2 w2 g3 e3 w3 -> steps vis g1 e1 w1 g3 e3 w3.
Proof.
  intros [A1 A2 (o1 & A3 & A4) A5 A6] [B1 B2 (o2 & B3 & B4) B5 B6]. split; [done|by eapply extends_trans| |by etransitivity|done].
  exists (o1 ++ o2). rewrite B3, A3, app_assoc, run_ops_app, A4. done.
Qed.

(** What is visible keeps its type and its operation. *)
Lemma kept_type vis g g' v t : inv vis g -> extends g g' -> v ∈ cur vis g -> types g !! v = Some t -> is_port t = false ->
  types g' !! v = Some t.
Proof.
  intros Hi He Hv Ht Hp. destruct v as [b i|id i]; [by eapply ex_args|].
  eapply (ex_table _ _ He id); [by eapply inv_fresh|done|done].
Qed.
Lemma kept_def vis g g' v : inv vis g -> extends g g' -> v ∈ cur vis g -> defining g' v = defining g v.
Proof.
  intros Hi He Hv. destruct v as [b i|id i]; [done|]. cbn. eapply (ex_table _ _ He id). by eapply inv_fresh.
Qed.
Lemma simple_port t : simple t = true -> is_port t = false.
Proof. by destruct t. Qed.

Lemma value_ok_steps vis g e w g' e' w' v d t : inv vis g -> env_in (cur vis g) e -> steps vis g e w g' e' w' ->
  value_ok g e v d t -> value_ok g' e' v d t.
Proof.
  intros Hi He Hs [V1 V2 V3 V4 V5]. pose proof (He _ _ V1) as Hv.
  pose proof (kept_def vis _ _ v Hi (st_extends _ _ _ _ _ _ _ Hs) Hv) as Hd. split; rewrite ?Hd; try done.
  - eapply lookup_weaken; [done|apply Hs].
  - eapply kept_type; [done|apply Hs|done|done|by apply simple_port].
Qed.

Lemma binding_ok_steps vis g e w g' e' w' x sym b : inv vis g -> env_in (cur vis g) e -> steps vis g e w g' e' w' ->
  binding_ok g e (cur vis g) x sym b -> binding_ok g' e' (cur vis g') x sym b.
Proof.
  intros Hi He Hs. destruct b as [d t|t]; cbn.
  - intros [Hv Ht]. split; [|done]. by eapply value_ok_steps.
  - intros ((id & i & ops & Ev & Hid) & Ht & Hp & Hc & Hst & Hgl). pose proof (st_extends _ _ _ _ _ _ _ Hs) as Hx. split_and!.
    + exists id, i, ops. split; [done|]. rewrite Ev in Hc. by rewrite (proj1 (ex_table _ _ Hx id (inv_fresh _ _ Hi _ _ Hc))).
    + by eapply kept_type.
    + done.
    + by eapply extends_cur.
    + done.
    + done.
Qed.

Lemma rel_steps vis g e w g' e' w' s : inv vis g -> env_in (cur vis g) e -> rel vis g e s ->
  steps vis g e w g' e' w' -> quiet g g' -> rel vis g' e' s.
Proof.
  intros Hi He Hr Hs [Hq _] x b Hx. destruct (Hr x b Hx) as (sym & Hsym & Hb). exists sym. split; [by rewrite Hq|].
  by eapply binding_ok_steps.
Qed.

(** ** Operations *)

Definition structured (k : gkind) : bool := match k with GIf | GYield | GTerminate | GReturn => true | _ => false end.

Lemma run_simple e w id k vs ts ds rs w' : structured k = false -> mapM (fun v => e !! v) vs = Some ds ->
  sem k ds ts w = Some (rs, w') -> length rs = length ts ->
  run_op e w (GOp id k vs ts []) = Some (bind_results id rs e, w').
Proof.
  intros Hk Hds Hs Hl. destruct k; try done; cbn; rewrite Hds; cbn; rewrite Hs; cbn; rewrite Hl, Nat.eqb_refl; done.
Qed.

Lemma bind_one id d (e : env) : bind_results id [d] e = <[OpResult id 0 := d]> e.
Proof. unfold bind_results. cbn. by rewrite <- insert_union_l, (left_id_L ∅ (∪)). Qed.

Lemma create_steps vis g e w k vs t ds d w' : inv vis g -> env_in (cur vis g) e -> structured k = false ->
  mapM (fun v => e !! v) vs = Some ds -> sem1 sem k ds t w = Some (d, w') ->
  exists v g' e', create k vs t g = Ok v g' /\ steps vis g e w g' e' w' /\ quiet g g' /\ e' !! v = Some d /\
    types g' !! v = Some t /\ defining g' v = Some (k, vs) /\ v ∈ cur vis g'.
Proof.
  intros Hi He Hk Hds Hs. unfold sem1 in Hs. destruct (sem k ds [t] w) as [[[|d' [|? ?]] w1]|] eqn:Es; try done. injection Hs as -> ->.
  assert (Hin : list_to_set vs ⊆ cur vis g).
  { intros v Hv. apply elem_of_list_to_set, list_elem_of_lookup in Hv as [i Hv]. apply mapM_Some in Hds.
    pose proof (Forall2_lookup_l _ _ _ _ _ Hds Hv) as (x & _ & Hx). by eapply He. }
  pose proof (sound_create (cur vis g) k vs t ltac:(by intros ->) Hin vis g Hi ltac:(done)) as Hc.
  destruct (create k vs t g) as [v g'|g'|] eqn:Ec; [|cbn in Ec; discriminate..]. destruct Hc as (Hi' & Hx & Hv).
  cbn in Ec. injection Ec as <- Eg. exists (OpResult (nextId g) 0), g', (<[OpResult (nextId g) 0 := d]> e).
  assert (Hnew : e !! OpResult (nextId g) 0 = None).
  { destruct (e !! OpResult (nextId g) 0) as [d0|] eqn:E; [|done]. apply He, (inv_fresh _ _ Hi) in E. lia. }
  subst g'. split; [done|]. split; [split; [done|done| | |]|split; [done|]].
  - exists [GOp (nextId g) k vs [t] []]. split; [done|]. cbn [run_ops]. rewrite (run_simple _ _ _ _ _ _ ds [d] w') by done.
    cbn [mbind option_bind]. by rewrite bind_one.
  - by apply insert_subseteq.
  - intros v d0 [[<- <-]|[_ H]]%lookup_insert_Some; [apply Hv; vis|]. eapply extends_cur; [exact Hx|by eapply He].
  - split; [by rewrite lookup_insert_eq|]. split; [cbn; by rewrite <- insert_union_l, lookup_insert_eq|]. split; [cbn; by rewrite lookup_insert_eq|].
    apply Hv. vis.
Qed.

Lemma create__steps vis g e w k vs ds w' : inv vis g -> env_in (cur vis g) e -> structured k = false ->
  mapM (fun v => e !! v) vs = Some ds -> sem0 sem k ds w = Some w' ->
  exists g' e', create_ k vs g = Ok tt g' /\ steps vis g e w g' e' w' /\ quiet g g'.
Proof.
  intros Hi He Hk Hds Hs. unfold sem0 in Hs. destruct (sem k ds [] w) as [[[|? ?] w1]|] eqn:Es; try done. injection Hs as ->.
  assert (Hin : list_to_set vs ⊆ cur vis g).
  { intros v Hv. apply elem_of_list_to_set, list_elem_of_lookup in Hv as [i Hv]. apply mapM_Some in Hds.
    pose proof (Forall2_lookup_l _ _ _ _ _ Hds Hv) as (x & _ & Hx). by eapply He. }
  pose proof (sound_create_ (cur vis g) k vs none ltac:(by intros ->) Hin ltac:(vis) vis g Hi ltac:(done)) as Hc.
  destruct (create_ k vs g) as [[] g'|g'|] eqn:Ec; [|cbn in Ec; discriminate..]. destruct Hc as (Hi' & Hx & _).
  cbn in Ec. injection Ec as Eg. exists g', e. subst g'. split; [done|]. split; [split; [done|done| |done|]|done].
  - exists [GOp (nextId g) k vs [] []]. split; [done|]. cbn [run_ops]. rewrite (run_simple _ _ _ _ _ _ ds [] w') by done.
    unfold bind_results. cbn. by rewrite (left_id_L ∅ (∪)).
  - intros v d0 H. eapply extends_cur; [exact Hx|by eapply He].
Qed.

(** ** Values *)

Lemma getType_ok g v t : types g !! v = Some t -> getType v g = Ok t g.
Proof. intros E. unfold getType, get. by rewrite E. Qed.
Lemma inspect_ok g v t : types g !! v = Some t -> is_null t = false -> inspect v g = Ok t g.
Proof. intros E Hn. unfold inspect, mbind, gen_bind. rewrite (getType_ok _ _ _ E). by rewrite Hn. Qed.
Lemma simple_null t : simple t = true -> is_null t = false.
Proof. by destruct t. Qed.

Lemma toRValue_ok g e v d t lt : value_ok g e v d t -> toRValue v lt g = Ok v g.
Proof.
  intros [V1 V2 V3 V4 V5]. unfold toRValue, getDefiningOp, get. unfold mbind at 1, gen_bind at 1.
  assert (Hr : (t' ← inspect v; match t' with ContextRefType t0 => create GLoad [v] (default t0 lt) | _ => mret v end) g = Ok v g).
  { unfold mbind, gen_bind. rewrite (inspect_ok _ _ _ V3 (simple_null _ V2)). by destruct t. }
  destruct (defining g v) as [[[] ?]|]; done.
Qed.

(** The type after a cast. *)
Definition cast_type (t t' : ty) : ty := match t, t' with IntegerType _, IntegerType _ => t' | _, _ => t end.

Lemma tryCast_same g e v d t : value_ok g e v d t -> tryCast v t g = Ok v g.
Proof.
  intros [V1 V2 V3 V4 V5]. unfold tryCast, mbind, gen_bind. rewrite (inspect_ok _ _ _ V3 (simple_null _ V2)).
  destruct t; try done. by rewrite Z.eqb_refl.
Qed.

Lemma tryCast_sim vis g e w v d t t' v' g' d' w' : inv vis g -> env_in (cur vis g) e -> value_ok g e v d t ->
  tryCast v t' g = Ok v' g' -> convert sem d t t' w = Some (d', w') ->
  exists e', steps vis g e w g' e' w' /\ quiet g g' /\ value_ok g' e' v' d' (cast_type t t').
Proof.
  intros Hi He Hv Hc Hd. pose proof Hv as [V1 V2 V3 V4 V5]. unfold tryCast in Hc.
  apply bind_ok in Hc as (tv & g1 & Hc1 & Hc). rewrite (inspect_ok _ _ _ V3 (simple_null _ V2)) in Hc1. injection Hc1 as <- <-.
  assert (Hsame : d' = d -> w' = w -> v' = v -> g' = g -> cast_type t t' = t ->
    exists e', steps vis g e w g' e' w' /\ quiet g g' /\ value_ok g' e' v' d' (cast_type t t')).
  { intros -> -> -> -> ->. exists e. split; [by apply steps_refl|]. done. }
  destruct t as [|a| | | | | | | | | | |]; try (apply ret_ok in Hc as [-> ->]; injection Hd as -> ->; by apply Hsame).
  destruct t' as [|b| | | | | | | | | | |]; try (apply ret_ok in Hc as [-> ->]; injection Hd as -> ->; by apply Hsame); [|done].
  cbn [convert] in Hd. destruct (Z.eqb_spec a b) as [->|Hne].
  { apply ret_ok in Hc as [-> ->]. injection Hd as -> ->. by apply Hsame. }
  apply bind_ok in Hc as (df & g1 & Hdf & Hc). injection Hdf as <- <-. destruct (defining g v) as [df|] eqn:Edf; [|done].
  destruct (create_steps vis g e w GBitCast [v] (IntegerType b) [d] d' w' Hi He eq_refl) as (v1 & g1 & e1 & E1 & S1 & Q1 & F1 & T1 & D1 & _).
  { cbn. by rewrite V1. }
  { exact Hd. }
  rewrite E1 in Hc. injection Hc as <- <-. exists e1. split; [done|]. split; [done|]. split; try done; by rewrite D1.
Qed.

(** The table of a call. *)
Lemma import_sim vis g e w sym x t h w' v g' : inv vis g -> env_in (cur vis g) e ->
  binding_ok g e (cur vis g) x sym (Global t) -> toRValue (s_value sym) None g = Ok v g' ->
  sem1 sem (GGlobalImport x) [] t w = Some (h, w') ->
  exists e', steps vis g e w g' e' w' /\ quiet g g' /\ e' !! v = Some h.
Proof.
  intros Hi He ((id & i & ops & Ev & Hid) & Ht & Hp & Hc & _) Hr Hs. unfold toRValue in Hr.
  apply bind_ok in Hr as (df & g1 & Hdf & Hr). injection Hdf as <- <-. unfold defining in Hr. rewrite Ev, Hid, <- Ev in Hr.
  apply bind_ok in Hr as (t1 & g1 & Ht1 & Hr). rewrite (getType_ok _ _ _ Ht) in Ht1. injection Ht1 as <- <-. cbn [default] in Hr.
  destruct (create_steps vis g e w (GGlobalImport x) [] t [] h w' Hi He eq_refl eq_refl Hs) as (v1 & g1 & e1 & E1 & S1 & Q1 & F1 & _).
  cbn in Hr, E1. rewrite E1 in Hr. injection Hr as <- <-. exists e1. done.
Qed.

(** What the evaluation of an expression gives. *)
Record evaluated (vis : gset value) (g : gen) (e : env) (w : W) (v : value) (g' : gen) (d : D) (t : ty) (lit : bool) (w' : W) : Prop := Evaluated {
  ev_env : exists e', steps vis g e w g' e' w' /\ value_ok g' e' v d t;
  ev_quiet : quiet g g';
  ev_literal : lit = true -> is_const (defining g' v) = true }.

Lemma eval_literal e s w d t lit w' : eval s e w = Some (d, t, lit, w') -> lit = true -> t = i64.
Proof.
  destruct e; cbn; try done.
  - destruct (sem1 _ _ _ _ _) as [[? ?]|]; cbn; [|done]. by intros [= _ <- _ _].
  - destruct (path p) as [|x [|? ?]]; try done. destruct (find_var _ _) as [[]|]; try done. by intros [= _ _ <- _].
  - intros H ->. destruct (binary_kind _) as [k|]; cbn in H; [|done].
    destruct (eval s e1 w) as [[[[d1 t1] b1] w1]|]; cbn in H; [|done]. destruct (eval s e2 w1) as [[[[d2 t2] b2] w2]|]; cbn in H; [|done].
    match type of H with (mbind _ ?m) = _ => destruct m as [[[[[? ?] ?] ?] ?]|]; cbn in H; [|done] end.
    destruct (_ && _); [|done]. destruct (sem1 _ _ _ _ _) as [[? ?]|]; cbn in H; done.
  - intros H ->. destruct args as [|key [|? ?]]; try done. destruct ins; [|done]. destruct outs; [|done].
    destruct (method callee) as [[x m]|]; cbn in H; [|done]. destruct (String.eqb _ _); [|done].
    destruct (table_of x s) as [[? ?]|]; cbn in H; [|done]. destruct (eval s key w) as [[[[? ?] ?] ?]|]; cbn in H; [|done].
    destruct (sem1 _ _ _ _ _) as [[? ?]|]; cbn in H; [|done]. destruct (sem1 _ _ _ _ _) as [[? ?]|]; cbn in H; done.
Qed.

Lemma same_integer t1 t2 : is_integer t1 && ty_eqb t1 t2 = true -> exists n, t1 = IntegerType n /\ t2 = IntegerType n.
Proof.
  intros [H1 H2]%andb_true_iff. destruct t1; try done. destruct t2; try done. cbn in H2. apply Z.eqb_eq in H2 as ->. eauto.
Qed.

(** The operands of an operator, once one of them is cast. *)
Definition coerce (d1 : D) (t1 : ty) (b1 : bool) (d2 : D) (t2 : ty) (b2 : bool) (w : W) : option (D * ty * D * ty * W) :=
  if b1 then '(d1, w) ← convert sem d1 t1 t2 w; Some (d1, t2, d2, t2, w)
  else if b2 then '(d2, w) ← convert sem d2 t2 t1 w; Some (d1, t1, d2, t1, w)
  else Some (d1, t1, d2, t2, w).

Lemma cast_constant_sim vis g e w l r d1 t1 b1 d2 t2 b2 l' r' g' d1' t1' d2' t2' w' :
  inv vis g -> env_in (cur vis g) e -> value_ok g e l d1 t1 -> value_ok g e r d2 t2 ->
  (b1 = true -> is_const (defining g l) = true) -> (b2 = true -> is_const (defining g r) = true) ->
  cast_constant l r g = Ok (l', r') g' -> coerce d1 t1 b1 d2 t2 b2 w = Some (d1', t1', d2', t2', w') ->
  is_integer t1' && ty_eqb t1' t2' = true ->
  exists e', steps vis g e w g' e' w' /\ quiet g g' /\ value_ok g' e' l' d1' t1' /\ value_ok g' e' r' d2' t2'.
Proof.
  intros Hi He Hl Hr B1 B2 Hc Hd Ht. unfold cast_constant in Hc.
  apply bind_ok in Hc as (dl & g1 & Hdl & Hc). injection Hdl as <- <-. apply bind_ok in Hc as (dr & g1 & Hdr & Hc). injection Hdr as <- <-.
  assert (Hsame : l' = l -> r' = r -> g' = g -> d1' = d1 -> t1' = t1 -> d2' = d2 -> t2' = t2 -> w' = w ->
    exists e', steps vis g e w g' e' w' /\ quiet g g' /\ value_ok g' e' l' d1' t1' /\ value_ok g' e' r' d2' t2').
  { intros -> -> -> -> -> -> -> ->. exists e. split; [by apply steps_refl|]. done. }
  unfold coerce in Hd. destruct (is_const (defining g l)) eqn:El.
  - apply bind_ok in Hc as (t & g1 & Hty & Hc). rewrite (getType_ok _ _ _ (vo_type _ _ _ _ _ Hr)) in Hty. injection Hty as <- <-.
    apply bind_ok in Hc as (l1 & g1 & Hcast & Hc). apply ret_ok in Hc as [[= -> ->] ->].
    pose proof (vo_const _ _ _ _ _ Hl El) as ->. destruct b1.
    + destruct (convert sem d1 i64 t2 w) as [[d w1]|] eqn:Ed; [|done]. injection Hd as -> <- -> <- ->.
      apply same_integer in Ht as (n & -> & _).
      destruct (tryCast_sim vis g e w l d1 i64 (IntegerType n) l1 g1 d1' w' Hi He Hl Hcast Ed) as (e' & S & Q & V).
      exists e'. split; [done|]. split; [done|]. split; [done|]. by eapply value_ok_steps.
    + assert (t2 = i64) as ->.
      { destruct b2; [by apply (vo_const _ _ _ _ _ Hr), B2|]. injection Hd as <- <- <- <- <-.
        apply same_integer in Ht as (n & [= <-] & ->). done. }
      rewrite (tryCast_same _ _ _ _ _ Hl) in Hcast. injection Hcast as <- <-. destruct b2; injection Hd as <- <- <- <- <-; by apply Hsame.
  - destruct b1; [by specialize (B1 eq_refl)|]. destruct (is_const (defining g r)) eqn:Er.
    + apply bind_ok in Hc as (t & g1 & Hty & Hc). rewrite (getType_ok _ _ _ (vo_type _ _ _ _ _ Hl)) in Hty. injection Hty as <- <-.
      apply bind_ok in Hc as (r1 & g1 & Hcast & Hc). apply ret_ok in Hc as [[= -> ->] ->].
      pose proof (vo_const _ _ _ _ _ Hr Er) as ->. destruct b2.
      * destruct (convert sem d2 i64 t1 w) as [[d w1]|] eqn:Ed; [|done]. injection Hd as <- <- -> <- ->.
        apply same_integer in Ht as (n & -> & _).
        destruct (tryCast_sim vis g e w r d2 i64 (IntegerType n) r1 g1 d2' w' Hi He Hr Hcast Ed) as (e' & S & Q & V).
        exists e'. split; [done|]. split; [done|]. split; [by eapply value_ok_steps|done].
      * injection Hd as <- <- <- <- <-. apply same_integer in Ht as (n & -> & [= <-]).
        change (IntegerType 64) with i64 in Hcast. rewrite (tryCast_same _ _ _ _ _ Hr) in Hcast. injection Hcast as <- <-. by apply Hsame.
    + destruct b2; [by specialize (B2 eq_refl)|]. apply ret_ok in Hc as [[= -> ->] ->]. injection Hd as <- <- <- <- <-. by apply Hsame.
Qed.

Lemma gen_call_ok p x m args sym (margs : M (list value)) g : method p = Some (x, m) ->
  find_symbol x (symbolTable g) = Some sym ->
  gen_call p args [] [] margs g = (operands ← margs; gen_method m p (Some (s_value sym)) args operands) g.
Proof.
  unfold method. intros Hm Hs. destruct (path p) as [|x0 [|m0 [|? ?]]] eqn:Ep; try done. injection Hm as <- <-.
  unfold gen_call. rewrite Ep. cbn [removelast list.last getPath getMembers].
  unfold mbind at 1, gen_bind at 1, nullable, gen_variable, lookup_symbol, mbind at 1, gen_bind at 1, mbind at 1, gen_bind at 1, get.
  rewrite Hs. cbn [isCommand mjoin option_join]. done.
Qed.

(** ** Expressions *)

Lemma get_variable vis g e s x d t : rel vis g e s -> find_var x s = Some (Local d t) ->
  exists sym, find_symbol x (symbolTable g) = Some sym /\ value_ok g e (s_value sym) d t /\ s_type sym = t.
Proof. intros Hr Hx. destruct (Hr _ _ Hx) as (sym & Hs & Hv & Ht). eauto. Qed.

Lemma gen_variable_ok g x sym : find_symbol (v_name x) (symbolTable g) = Some sym -> gen_variable x g = Ok (s_value sym) g.
Proof. intros E. unfold gen_variable, lookup_symbol, mbind, gen_bind, get. by rewrite E. Qed.

Lemma created_ok g e v d t k vs : e !! v = Some d -> types g !! v = Some t -> defining g v = Some (k, vs) -> simple t = true ->
  plain_def (Some (k, vs)) = true -> (is_const (Some (k, vs)) = true -> t = i64) -> value_ok g e v d t.
Proof. intros H1 H2 H3 H4 H5 H6. split; rewrite ?H3; done. Qed.

Lemma eval_binary_sim vis g e w s op l r v g' d t lit w' : inv vis g -> env_in (cur vis g) e -> rel vis g e s ->
  (forall vis g e w s v g' d t lit w', inv vis g -> env_in (cur vis g) e -> rel vis g e s -> gen_expr l g = Ok v g' ->
    eval s l w = Some (d, t, lit, w') -> evaluated vis g e w v g' d t lit w') ->
  (forall vis g e w s v g' d t lit w', inv vis g -> env_in (cur vis g) e -> rel vis g e s -> gen_expr r g = Ok v g' ->
    eval s r w = Some (d, t, lit, w') -> evaluated vis g e w v g' d t lit w') ->
  gen_binary op l (gen_expr l) (gen_expr r) g = Ok v g' -> forall loc, eval s (BinaryExprAST loc op l r) w = Some (d, t, lit, w') ->
  evaluated vis g e w v g' d t lit w'.
Proof.
  intros Hi He Hr IHl IHr Hg loc Hd. cbn [MlirGenSem.eval] in Hd. destruct (binary_kind op) as [k|] eqn:Ek; [|discriminate]. cbn [mbind option_bind] in Hd.
  opt (eval s l w) as [[[[d1 t1] b1] w1]|] by E1 in Hd. opt (eval s r w1) as [[[[d2 t2] b2] w2]|] by E2 in Hd.
  fold (coerce d1 t1 b1 d2 t2 b2 w2) in Hd. opt (coerce d1 t1 b1 d2 t2 b2 w2) as [[[[[d1' t1'] d2'] t2'] w3]|] by Ec in Hd.
  destruct (is_integer t1' && ty_eqb t1' t2') eqn:Et; [|discriminate]. opt (sem1 sem k [d1'; d2'] (result_type k t1') w3) as [[d0 w4]|] by Es in Hd.
  injection Hd as -> <- <- ->. unfold gen_binary in Hg.
  assert (Hop : (op =? Lexer.tok_eq) = false) by (destruct (Z.eqb_spec op Lexer.tok_eq) as [->|]; [discriminate|done]).
  apply bind_ok in Hg as (lhs & g1 & Hl & Hg). destruct (IHl _ _ _ _ _ _ _ _ _ _ _ Hi He Hr Hl E1) as [(e1 & S1 & V1) Q1 L1].
  rewrite Hop in Hg. apply bind_ok in Hg as (lhs' & g1' & Hl' & Hg). rewrite (toRValue_ok _ _ _ _ _ _ V1) in Hl'. injection Hl' as <- <-.
  pose proof (st_inv _ _ _ _ _ _ _ S1) as Hi1. pose proof (st_in _ _ _ _ _ _ _ S1) as He1.
  pose proof (rel_steps _ _ _ _ _ _ _ _ Hi He Hr S1 Q1) as Hr1.
  apply bind_ok in Hg as (rhs & g2 & Hrr & Hg). destruct (IHr _ _ _ _ _ _ _ _ _ _ _ Hi1 He1 Hr1 Hrr E2) as [(e2 & S2 & V2) Q2 L2].
  pose proof (st_inv _ _ _ _ _ _ _ S2) as Hi2. pose proof (st_in _ _ _ _ _ _ _ S2) as He2.
  pose proof (value_ok_steps _ _ _ _ _ _ _ _ _ _ Hi1 He1 S2 V1) as V1'.
  assert (L1' : b1 = true -> is_const (defining g2 lhs) = true).
  { intros ->. rewrite (kept_def vis g1 g2); [by apply L1|done|apply S2|]. eapply He1. apply V1. }
  apply bind_ok in Hg as (tl & g2' & Ht & Hg). rewrite (getType_ok _ _ _ (vo_type _ _ _ _ _ V1')) in Ht. injection Ht as <- <-.
  apply bind_ok in Hg as (rhs' & g2' & Hr' & Hg). rewrite (toRValue_ok _ _ _ _ _ _ V2) in Hr'. injection Hr' as <- <-.
  apply bind_ok in Hg as ([l3 r3] & g3 & Hcc & Hg).
  destruct (cast_constant_sim _ _ _ _ _ _ _ _ _ _ _ _ _ _ _ _ _ _ _ _ Hi2 He2 V1' V2 L1' L2 Hcc Ec Et) as (e3 & S3 & Q3 & V3 & V3').
  apply bind_ok in Hg as (tl & g3' & Ht & Hg). rewrite (getType_ok _ _ _ (vo_type _ _ _ _ _ V3)) in Ht. injection Ht as <- <-.
  assert (Hcreate : create k [l3; r3] (result_type k t1') g3 = Ok v g').
  { unfold binary_kind in Ek. destruct (op =? Lexer.tok_plus); [by injection Ek as <-|]. destruct (op =? Lexer.tok_minus); [by injection Ek as <-|].
    destruct (Z.eqb_spec op Lexer.tok_star) as [->|]; [discriminate|]. destruct (is_cmp op); [by injection Ek as <-|done]. }
  assert (Hk : structured k = false /\ plain_def (Some (k, [l3; r3])) = true /\ is_const (Some (k, [l3; r3])) = false /\ simple (result_type k t1') = true).
  { apply same_integer in Et as (n & -> & _). unfold binary_kind in Ek.
    repeat match type of Ek with (if ?b then _ else _) = _ => destruct b end; try discriminate; injection Ek as <-; done. }
  destruct Hk as (K1 & K2 & K3 & K4).
  destruct (create_steps vis g3 e3 w3 k [l3; r3] (result_type k t1') [d1'; d2'] d w' (st_inv _ _ _ _ _ _ _ S3) (st_in _ _ _ _ _ _ _ S3) K1)
    as (v4 & g4 & e4 & E4 & S4 & Q4 & F4 & T4 & D4 & _); [cbn; by rewrite (vo_env _ _ _ _ _ V3), (vo_env _ _ _ _ _ V3')|exact Es|].
  rewrite E4 in Hcreate. injection Hcreate as -> ->. split; [|eapply quiet_trans; [exact Q1|]; eapply quiet_trans; [exact Q2|]; by eapply quiet_trans|done].
  exists e4. split; [eapply steps_trans; [exact S1|]; eapply steps_trans; [exact S2|]; by eapply steps_trans|].
  eapply created_ok; [done|done|done|done|done|by rewrite K3].
Qed.

Lemma table_symbol vis g e s x tabT vt : rel vis g e s -> table_of x s = Some (tabT, vt) ->
  exists sym k size n, find_symbol x (symbolTable g) = Some sym /\ tabT = TableType k vt size /\ vt = IntegerType n /\
    binding_ok g e (cur vis g) x sym (Global tabT).
Proof.
  unfold table_of. intros Hr Hx. destruct (find_var x s) as [[|t]|] eqn:E; try done. destruct t; try done. destruct t2; try done.
  injection Hx as <- <-. destruct (Hr _ _ E) as (sym & Hs & Hb). eauto 10.
Qed.

Lemma eval_sim x : forall vis g e w s v g' d t lit w', inv vis g -> env_in (cur vis g) e -> rel vis g e s ->
  gen_expr x g = Ok v g' -> eval s x w = Some (d, t, lit, w') -> evaluated vis g e w v g' d t lit w'.
Proof.
  induction x as [x IH] using expr_ind. intros vis g e w s v g' d t lit w' Hi He Hr Hg Hd.
  destruct x as [loc n| | | | |p| | | |loc op l r|loc p args ins outs|]; try done; cbn [gen_expr children] in *.
  - cbn [MlirGenSem.eval] in Hd. opt (sem1 sem (GConstant (IntAttr (s64 n))) [] i64 w) as [[d0 w0]|] by Es in Hd. injection Hd as -> <- <- ->.
    destruct (create_steps vis g e w (GConstant (IntAttr (s64 n))) [] i64 [] d w' Hi He eq_refl eq_refl Es)
      as (v1 & g1 & e1 & E1 & S1 & Q1 & F1 & T1 & D1 & _).
    rewrite E1 in Hg. injection Hg as <- <-. split; [|done|by rewrite D1]. exists e1. split; [done|]. by eapply created_ok.
  - cbn [MlirGenSem.eval] in Hd. destruct (path p) as [|x [|? ?]] eqn:Ep; try done.
    destruct (find_var (v_name x) s) as [[d0 t0|]|] eqn:Ex; try done. injection Hd as -> -> <- ->.
    destruct (get_variable _ _ _ _ _ _ _ Hr Ex) as (sym & Hs & Hv & _). unfold getPath in Hg.
    unfold mbind, gen_bind in Hg. rewrite (gen_variable_ok _ _ _ Hs) in Hg. injection Hg as <- <-.
    split; [|done|done]. exists e. split; [by apply steps_refl|done].
  - inversion_clear IH as [|? ? Hl Hr']. inversion_clear Hr' as [|? ? Hr'' _]. eapply (eval_binary_sim _ _ _ _ _ _ _ _ _ _ _ _ _ _ Hi He Hr Hl Hr'' Hg loc Hd).
  - cbn [MlirGenSem.eval] in Hd. destruct args as [|key [|? ?]]; try done. destruct ins; [|discriminate]. destruct outs; [|discriminate].
    opt (method p) as [[x m]|] by Em in Hd. cbn [mbind option_bind] in Hd. destruct (String.eqb_spec m "lookup") as [->|]; [|discriminate].
    opt (table_of x s) as [[tabT vt]|] by Et in Hd. opt (eval s key w) as [[[[dk tk] bk] w1]|] by E1 in Hd.
    opt (sem1 sem (GGlobalImport x) [] tabT w1) as [[h w2]|] by E2 in Hd. opt (sem1 sem GLookup [h; dk] vt w2) as [[d3 w3]|] by E3 in Hd.
    injection Hd as -> <- <- ->. destruct (table_symbol _ _ _ _ _ _ _ Hr Et) as (sym & kt & size & n & Hs & Htab & Hvt & Hb).
    rewrite (gen_call_ok _ _ _ _ _ _ _ Em Hs) in Hg. apply bind_ok in Hg as (vs & g1 & Hk & Hg). cbn [mapM_] in Hk.
    apply bind_ok in Hk as (vk & g1' & Hk & Hk'). apply bind_ok in Hk' as (vs0 & g1'' & Hn & Hk'). apply ret_ok in Hn as [-> ->]. apply ret_ok in Hk' as [-> ->].
    inversion_clear IH as [|? ? IHk _]. destruct (IHk _ _ _ _ _ _ _ _ _ _ _ Hi He Hr Hk E1) as [(e1 & S1 & V1) Q1 L1].
    pose proof (st_inv _ _ _ _ _ _ _ S1) as Hi1. pose proof (st_in _ _ _ _ _ _ _ S1) as He1.
    pose proof (binding_ok_steps _ _ _ _ _ _ _ _ _ _ Hi He S1 Hb) as Hb1. cbn in Hg.
    apply bind_ok in Hg as (tc & g2 & Htc & Hg). destruct Hb1 as (Hb1 & Hty & Hrest).
    rewrite (inspect_ok _ _ _ Hty) in Htc by (by rewrite Htab). injection Htc as <- <-. subst tabT. cbn in Hg.
    apply bind_ok in Hg as (c & g2 & Hc & Hg). destruct (import_sim _ _ _ _ _ _ _ _ _ _ _ Hi1 He1 (conj Hb1 (conj Hty Hrest)) Hc E2) as (e2 & S2 & Q2 & F2).
    pose proof (value_ok_steps _ _ _ _ _ _ _ _ _ _ Hi1 He1 S2 V1) as V1'.
    apply bind_ok in Hg as (k' & g2' & Hk' & Hg). rewrite (toRValue_ok _ _ _ _ _ _ V1') in Hk'. injection Hk' as <- <-.
    destruct (create_steps vis g2 e2 w2 GLookup [c; vk] vt [h; dk] d w' (st_inv _ _ _ _ _ _ _ S2) (st_in _ _ _ _ _ _ _ S2) eq_refl)
      as (v4 & g4 & e4 & E4 & S4 & Q4 & F4 & T4 & D4 & _); [cbn; by rewrite F2, (vo_env _ _ _ _ _ V1')|exact E3|].
    rewrite E4 in Hg. injection Hg as <- <-. split; [|eapply quiet_trans; [exact Q1|]; by eapply quiet_trans|done].
    exists e4. split; [eapply steps_trans; [exact S1|]; by eapply steps_trans|]. subst vt. by eapply created_ok.
Qed.

(** ** Variables *)

Lemma find_assign x (d d0 : D) t y s : find_var x s = Some (Local d0 t) ->
  find_var y (assign x d s) = if decide (y = x) then Some (Local d t) else find_var y s.
Proof.
  induction s as [|m s IH]; cbn; [done|]. destruct (m !! x) as [b|] eqn:E.
  - intros [= ->]. cbn. case_decide as Hy; [subst y; by rewrite lookup_insert_eq|by rewrite lookup_insert_ne by done].
  - intros H. cbn. rewrite (IH H). case_decide as Hy; [subst y; by rewrite E|done].
Qed.

(** Scopes with the same variables. *)
Definition shape (b : option (@binding D)) : option (bool * ty) :=
  match b with Some (Local _ t) => Some (true, t) | Some (Global t) => Some (false, t) | None => None end.
Definition scope_like (m m' : gmap string (@binding D)) : Prop := forall x, shape (m !! x) = shape (m' !! x).
Abbreviation scopes_like := (Forall2 scope_like).

Lemma scopes_like_refl s : scopes_like s s.
Proof. induction s; by constructor. Qed.
Lemma scopes_like_trans s1 s2 s3 : scopes_like s1 s2 -> scopes_like s2 s3 -> scopes_like s1 s3.
Proof.
  intros H. revert s3. induction H as [|m1 m2 s1 s2 Hm H IH]; intros s3 H'; [done|]. inversion_clear H'. constructor; [|by apply IH].
  intros x. by rewrite Hm.
Qed.
Lemma scopes_like_find (s s' : list (gmap string (@binding D))) x : scopes_like s s' -> shape (find_var x s) = shape (find_var x s').
Proof.
  induction 1 as [|m m' s s' Hm _ IH]; cbn; [done|]. specialize (Hm x). destruct (m !! x) as [[]|], (m' !! x) as [[]|]; try done; by cbn in *.
Qed.
Lemma scopes_like_tail s s' : scopes_like s s' -> scopes_like (tail s) (tail s').
Proof. by destruct 1. Qed.
Lemma assign_like x d s : scopes_like s (assign x d s).
Proof.
  induction s as [|m s IH]; cbn; [constructor|]. destruct (m !! x) as [[d0 t|t]|] eqn:E.
  - constructor; [|apply scopes_like_refl]. intros y. destruct (decide (y = x)) as [->|].
    + by rewrite E, lookup_insert_eq.
    + by rewrite lookup_insert_ne.
  - apply scopes_like_refl.
  - constructor; [done|exact IH].
Qed.

(** The variables of the innermost scope hide no others. *)
Definition fresh_head (s : list (gmap string (@binding D))) : Prop :=
  match s with [] => False | m :: s' => forall x, is_Some (m !! x) -> find_var x s' = None end.

Lemma shape_none b : shape b = None -> b = None.
Proof. by destruct b as [[]|]. Qed.
Lemma fresh_head_like s s' : scopes_like s s' -> fresh_head s -> fresh_head s'.
Proof.
  destruct 1 as [|m m' s s' Hm Hs]; [done|]. cbn. intros H x Hx. apply shape_none. rewrite <- (scopes_like_find _ _ x Hs).
  rewrite H; [done|]. specialize (Hm x). destruct (m !! x) as [|]; [by eexists|]. destruct (m' !! x) as [[]|]; [done..|by destruct Hx].
Qed.

(** ** Symbols *)

(** The updates noted in a branch are the variables around it that have changed. *)
Definition track (g : gen) : Prop :=
  match updateTables g with
  | [] => True
  | u :: _ => forall y sym0, find_symbol y (tail (symbolTable g)) = Some sym0 -> exists sym, find_symbol y (symbolTable g) = Some sym /\
      s_type sym = s_type sym0 /\ s_decl sym = s_decl sym0 /\ s_value sym = default (s_value sym0) (table_find y u)
  end.

(** Every variable has a value. *)
Definition valued (g : gen) (e : env) : Prop := forall x sym, find_symbol x (symbolTable g) = Some sym -> is_Some (e !! s_value sym).

Lemma track_quiet g g' : quiet g g' -> track g -> track g'.
Proof. intros [E1 E2]. unfold track. by rewrite E1, E2. Qed.
Lemma valued_steps vis g e w g' e' w' : steps vis g e w g' e' w' -> quiet g g' -> valued g e -> valued g' e'.
Proof.
  intros Hs [E _] Hv x sym Hx. rewrite E in Hx. destruct (Hv x sym Hx) as [d H]. exists d.
  eapply lookup_weaken; [done|apply Hs].
Qed.

Lemma create_quiet k vs t g v g' : create k vs t g = Ok v g' -> quiet g g'.
Proof. cbn. by intros [= _ <-]. Qed.
Lemma tryCast_quiet v t g v' g' : tryCast v t g = Ok v' g' -> quiet g g'.
Proof.
  intros H. unfold tryCast in H. apply bind_ok in H as (tv & g1 & H1 & H). unfold inspect in H1.
  apply bind_ok in H1 as (t0 & g0 & H0 & H1). injection H0 as _ <-. destruct (is_null t0); [done|]. apply ret_ok in H1 as [-> ->].
  destruct t0; try (by apply ret_ok in H as [_ ->]). destruct t; try (by apply ret_ok in H as [_ ->]); [|done].
  destruct (_ =? _); [by apply ret_ok in H as [_ ->]|]. apply bind_ok in H as (d & g0 & H0 & H). injection H0 as _ <-.
  destruct d; [|done]. by apply create_quiet in H.
Qed.

Lemma table_find_insert k v u y : table_find y (insert_or_assign k v u) = if decide (y = k) then Some v else table_find y u.
Proof.
  unfold table_find. induction u as [|[k' v'] u IH]; cbn.
  - destruct (String.eqb_spec y k); case_decide; done.
  - destruct (String.compare k k') eqn:E; cbn.
    + apply String.compare_eq_iff in E as E'. subst k'. destruct (String.eqb_spec y k); case_decide; done.
    + destruct (String.eqb_spec y k); case_decide; done.
    + destruct (String.eqb_spec y k') as [->|].
      * case_decide as Hk; [|done]. subst k'. pose proof (String.compare_antisym k k) as Hk. rewrite E in Hk. discriminate.
      * exact IH.
Qed.

(** What an update does: the value is cast, the symbol replaced and the update noted. *)
Lemma update_spec x v g g' : update x v g = Ok tt g' -> exists sym v' g1, find_symbol x (symbolTable g) = Some sym /\
  tryCast v (s_type sym) g = Ok v' g1 /\ opBlock g' = opBlock g1 /\ opTable g' = opTable g1 /\ types g' = types g1 /\
  (forall y, find_symbol y (symbolTable g') = if decide (y = x) then Some (Symbol v' (s_type sym) (s_decl sym)) else find_symbol y (symbolTable g)) /\
  (track g -> track g').
Proof.
  intros H. unfold update in H. apply bind_ok in H as (s & g0 & H0 & H). injection H0 as <- <-.
  destruct (find_symbol x (symbolTable g)) as [sym|] eqn:Es; [|done]. apply bind_ok in H as (v' & g1 & H1 & H).
  apply bind_ok in H as ([] & g2 & H2 & H). exists sym, v', g1. split; [done|]. split; [done|].
  pose proof (tryCast_quiet _ _ _ _ _ H1) as [Q1 Q2]. unfold insert_symbol in H2. rewrite Q1 in H2.
  destruct (symbolTable g) as [|m ss] eqn:Et; [done|]. injection H2 as <-.
  assert (Hfind : forall y, find_symbol y (<[x := Symbol v' (s_type sym) (s_decl sym)]> m :: ss) =
    if decide (y = x) then Some (Symbol v' (s_type sym) (s_decl sym)) else find_symbol y (m :: ss)).
  { intros y. cbn. case_decide as Hy; [subst y; by rewrite lookup_insert_eq|by rewrite lookup_insert_ne by done]. }
  unfold note_update, modify in H. cbn [updateTables with_symbols] in H. rewrite Q2 in H.
  unfold track. rewrite Et. destruct (updateTables g) as [|u us] eqn:Eu; injection H as <-; cbn [opBlock opTable types symbolTable updateTables with_updates with_symbols].
  - rewrite Q2. split_and!; done.
  - split_and!; try done. intros Htr y sym0 H0. destruct (Htr y sym0 H0) as (sy & F1 & F2 & F3 & F4). rewrite Hfind, table_find_insert.
    case_decide as Hy; [|by exists sy]. subst y. rewrite Es in F1. injection F1 as <-. eexists. split; [done|]. by cbn.
Qed.

(** ** Assignments and declarations *)

Record ready (vis : gset value) (g : gen) (e : env) (s : list (gmap string binding)) : Prop := Ready {
  rd_inv : inv vis g;
  rd_in : env_in (cur vis g) e;
  rd_rel : rel vis g e s;
  rd_track : track g;
  rd_valued : valued g e;
  rd_fresh : fresh_head s }.

Lemma ready_quiet vis g e w g' e' w' s : ready vis g e s -> steps vis g e w g' e' w' -> quiet g g' -> ready vis g' e' s.
Proof.
  intros [R1 R2 R3 R4 R5 R6] Hs Hq. split; [apply Hs|apply Hs|by eapply rel_steps|by eapply track_quiet|by eapply valued_steps|done].
Qed.

Definition executed vis g e w s g' w' s' : Prop := exists e', steps vis g e w g' e' w' /\ ready vis g' e' s' /\
  scopes_like (tail s) (tail s').

Lemma executed_quiet vis g e w s g' e' w' : ready vis g e s -> steps vis g e w g' e' w' -> quiet g g' -> executed vis g e w s g' w' s.
Proof. intros Hr Hs Hq. exists e'. split; [done|]. split; [by eapply ready_quiet|apply scopes_like_refl]. Qed.

Lemma integer_cast t n : is_integer t = true -> cast_type t (IntegerType n) = IntegerType n.
Proof. by destruct t. Qed.

Lemma update_sim vis g e w s x v d0 n d t d' w' g' : ready vis g e s -> find_var x s = Some (Local d0 (IntegerType n)) ->
  value_ok g e v d t -> is_integer t = true -> convert sem d t (IntegerType n) w = Some (d', w') -> update x v g = Ok tt g' ->
  exists e', steps vis g e w g' e' w' /\ ready vis g' e' (assign x d' s).
Proof.
  intros [R1 R2 R3 R4 R5 R6] Hx Hv Hint Hc Hu.
  pose proof (sound_update (cur vis g) x v (R2 _ _ (vo_env _ _ _ _ _ Hv)) vis g R1 ltac:(done)) as Hs. rewrite Hu in Hs. destruct Hs as (Hi' & Hext & _).
  destruct (get_variable _ _ _ _ _ _ _ R3 Hx) as (sym & Hsym & Hsv & Hst).
  apply update_spec in Hu as (sym' & v' & g1 & Hsym' & Hcast & Eb & Eo & Et & Hfind & Htrack).
  rewrite Hsym in Hsym'. injection Hsym' as <-. rewrite Hst in Hcast.
  destruct (tryCast_sim vis g e w v d t _ v' g1 d' w' R1 R2 Hv Hcast Hc) as (e' & S & Q & V). rewrite integer_cast in V by done.
  assert (Hcur : cur vis g' = cur vis g1) by (unfold cur; by rewrite Eb).
  assert (Hok : forall v d t, value_ok g1 e' v d t -> value_ok g' e' v d t).
  { intros v0 d1 t1 [V1 V2 V3 V4 V5]. split; rewrite ?Et; try done; by destruct v0; cbn in *; rewrite ?Eo. }
  exists e'. split.
  - split; [done|done| |apply S|rewrite Hcur; apply S]. destruct (st_ops _ _ _ _ _ _ _ S) as (ops & E & Hr). exists ops. by rewrite Eb.
  - pose proof (rel_steps _ _ _ _ _ _ _ _ R1 R2 R3 S Q) as Hrel. split; [done|rewrite Hcur; apply S| |by apply Htrack| |].
    + intros y b Hy. rewrite (find_assign _ _ _ _ _ _ Hx) in Hy. rewrite Hfind. case_decide as Hyx.
      * injection Hy as <-. eexists. split; [done|]. cbn. split; [by apply Hok|done].
      * destruct (Hrel y b Hy) as (sy & Hsy & Hb). rewrite (qu_symbols _ _ Q) in Hsy. exists sy. split; [done|]. destruct b as [d1 t1|t1].
        -- destruct Hb as [Hb1 Hb2]. split; [by apply Hok|done].
        -- cbn in Hb |- *. by rewrite Hcur, Eo, Et.
    + intros y sy Hy. rewrite Hfind in Hy. case_decide as Hyx; [injection Hy as <-; cbn; eexists; apply V|].
      destruct (R5 y sy Hy) as [d1 H]. exists d1. eapply lookup_weaken; [done|apply S].
    + eapply fresh_head_like; [apply assign_like|done].
Qed.

Lemma declare_sim vis g e w s x decl v d t g' : ready vis g e s -> value_ok g e v d t -> declare x decl v g = Ok tt g' ->
  steps vis g e w g' e w /\ ready vis g' e (declare_var x (Local d t) s).
Proof.
  intros [R1 R2 R3 R4 R5 R6] Hv Hd.
  pose proof (sound_declare (cur vis g) x decl v (R2 _ _ (vo_env _ _ _ _ _ Hv)) vis g R1 ltac:(done)) as Hs. rewrite Hd in Hs. destruct Hs as (Hi' & Hext & _).
  unfold declare in Hd. apply bind_ok in Hd as (o & g0 & H0 & Hd). injection H0 as <- <-.
  destruct (find_symbol x (symbolTable g)) as [|] eqn:Es; [done|]. apply bind_ok in Hd as (t0 & g0 & H0 & Hd).
  rewrite (getType_ok _ _ _ (vo_type _ _ _ _ _ Hv)) in H0. injection H0 as <- <-. unfold insert_symbol in Hd.
  destruct (symbolTable g) as [|m ss] eqn:Et; [done|]. injection Hd as <-. set (g' := with_symbols _ g) in *.
  assert (Hfind : forall y, find_symbol y (symbolTable g') = if decide (y = x) then Some (Symbol v t decl) else find_symbol y (symbolTable g)).
  { intros y. rewrite Et. cbn. case_decide as Hy; [subst y; by rewrite lookup_insert_eq|by rewrite lookup_insert_ne by done]. }
  assert (Hnone : find_var x s = None).
  { destruct (find_var x s) as [b|] eqn:E; [|done]. destruct (R3 x b E) as (sy & Hsy & _). rewrite Et in Hsy. congruence. }
  destruct s as [|m' s]; [done|]. cbn in Hnone. destruct (m' !! x) eqn:Em; [done|]. split.
  - split; [done|done| |done|done]. exists []. by rewrite app_nil_r.
  - split; [done|done| | | |].
    + intros y b Hy. rewrite Hfind. cbn in Hy. case_decide as Hyx.
      * subst y. rewrite lookup_insert_eq in Hy. injection Hy as <-. eexists. split; [done|]. cbn. split; [|done]. by destruct Hv.
      * rewrite lookup_insert_ne in Hy by done. destruct (R3 y b Hy) as (sy & Hsy & Hb). exists sy. split; [congruence|].
        destruct b; [|exact Hb]. destruct Hb as [[B1 B2 B3 B4 B5] ?]. done.
    + unfold track in *. rewrite Et in R4. cbn [updateTables with_symbols g'] in *. destruct (updateTables g) as [|u us]; [done|].
      intros y sym0 H0. destruct (R4 y sym0 H0) as (sy & F1 & F2). exists sy. split; [|done]. rewrite Hfind.
      case_decide as Hyx; [|by rewrite Et]. subst y. congruence.
    + intros y sy Hy. rewrite Hfind in Hy. case_decide as Hyx; [injection Hy as <-; cbn; eexists; apply Hv|].
      apply (R5 y sy Hy).
    + cbn in R6 |- *. intros y [b Hy]. destruct (decide (y = x)) as [->|Hyx]; [done|].
      rewrite lookup_insert_ne in Hy by done. by apply R6.
Qed.

(** ** Statements *)

Lemma ready_eval vis g e w s x v g' d t lit w' : ready vis g e s -> gen_expr x g = Ok v g' ->
  eval s x w = Some (d, t, lit, w') -> exists e', steps vis g e w g' e' w' /\ quiet g g' /\ ready vis g' e' s /\ value_ok g' e' v d t.
Proof.
  intros Hr Hg He. pose proof Hr as [R1 R2 R3 _ _ _].
  destruct (eval_sim _ _ _ _ _ _ _ _ _ _ _ _ R1 R2 R3 Hg He) as [(e' & S & V) Q _]. exists e'. split; [done|]. split; [done|].
  split; [by eapply ready_quiet|done].
Qed.

Lemma declared_integer structs t n : getVarType ∅ t = Some (IntegerType n) -> getVarType structs t = Some (IntegerType n) /\ String.eqb (type_name t) "" = false.
Proof.
  destruct t as [name ps]. cbn [getVarType type_name]. repeat match goal with
    | |- context [if String.eqb name ?s then _ else _] => destruct (String.eqb_spec name s) as [->|]; [try done|] end; try done.
  all: try (intros H; split; [exact H|done]).
  destruct ps as [|[|[k|]] [|[|[v|]] [|[n'|] [|]]]]; try done.
  destruct (getVarType ∅ k); [|done]. cbn. by destruct (getVarType ∅ v).
Qed.

Lemma decl_sim vis g e w s d v g' s' w' : ready vis g e s -> gen_decl d g = Ok v g' ->
  exec_decl sem s d w = Some (s', w') -> executed vis g e w s g' w' s'.
Proof.
  intros Hr Hg Hd. unfold gen_decl in Hg. apply bind_ok in Hg as (v1 & g1 & Hv & Hg). apply bind_ok in Hg as ([] & g2 & Hty & Hg).
  apply bind_ok in Hg as ([] & g3 & Hdecl & Hg). apply ret_ok in Hg as [-> ->]. unfold exec_decl in Hd.
  assert (Hval : exists e1 d1 t1 w1, steps vis g e w g1 e1 w1 /\ ready vis g1 e1 s /\ value_ok g1 e1 v1 d1 t1 /\
    s' = declare_var (d_name d) (Local d1 t1) s /\ w' = w1).
  { destruct (initVal d) as [x|].
    - opt (eval s x w) as [[[[d1 t1] b1] w1]|] by E in Hd. injection Hd as <- <-.
      destruct (ready_eval _ _ _ _ _ _ _ _ _ _ _ _ Hr Hv E) as (e1 & S & Q & R & V). eauto 10.
    - destruct (getVarType ∅ (d_type d)) as [[|n| | | | | | | | | | |]|] eqn:Et; try done.
      opt (sem1 sem GInit [] (IntegerType n) w) as [[d1 w1]|] by E in Hd. injection Hd as <- <-.
      apply bind_ok in Hv as (t & g0 & Ht & Hv). unfold required_type in Ht. apply bind_ok in Ht as (t0 & g00 & Ht & Hn).
      unfold var_type in Ht. rewrite (proj1 (declared_integer _ _ _ Et)) in Ht. injection Ht as <- <-. apply ret_ok in Hn as [-> ->].
      destruct (create_steps vis g e w GInit [] (IntegerType n) [] d1 w1 (rd_inv _ _ _ _ Hr) (rd_in _ _ _ _ Hr) eq_refl eq_refl E)
        as (v2 & g2' & e2 & E2 & S2 & Q2 & F2 & T2 & D2 & _).
      rewrite E2 in Hv. injection Hv as <- <-. exists e2, d1, (IntegerType n), w1. split; [done|]. split; [by eapply ready_quiet|].
      split; [by eapply created_ok|done]. }
  clear Hv Hd. destruct Hval as (e1 & d1 & t1 & w1 & S & R & V & -> & ->).
  assert (Hg2 : g2 = g1).
  { destruct (String.eqb _ _); [by apply ret_ok in Hty as [_ ->]|].
    apply bind_ok in Hty as (t & g0 & Ht & Hty). unfold required_type in Ht. apply bind_ok in Ht as (t0 & g00 & Ht & Hn).
    unfold var_type in Ht. destruct (getVarType _ _); [|done]. injection Ht as <- <-. destruct (is_null _); [done|]. apply ret_ok in Hn as [-> ->].
    apply bind_ok in Hty as ([] & g0 & Hp & Hty). unfold set_port in Hp. apply bind_ok in Hp as (tv & g00 & Hi & Hp).
    rewrite (inspect_ok _ _ _ (vo_type _ _ _ _ _ V) (simple_null _ (vo_simple _ _ _ _ _ V))) in Hi. injection Hi as <- <-.
    rewrite (simple_port _ (vo_simple _ _ _ _ _ V)) in Hp. apply ret_ok in Hp as [_ ->].
    apply bind_ok in Hty as (tv & g00 & Hi & Hty). injection Hi as _ <-. destruct (ty_eqb _ _); [|done]. by apply ret_ok in Hty as [_ ->]. }
  subst g2. destruct (declare_sim _ _ _ w1 _ _ _ _ _ _ _ R V Hdecl) as [S' R']. exists e1. split; [by eapply steps_trans|]. split; [done|].
  destruct s as [|m s]; [constructor|]. cbn. apply scopes_like_refl.
Qed.

(** A reference to a field of a context. *)
Lemma field_sim vis g e w s x c f r w' v g' : ready vis g e s -> context_field s x = Some (c, f) -> gen_expr x g = Ok v g' ->
  sem1 sem (GContextRef f) [c] (ContextRefType AnyType) w = Some (r, w') ->
  exists e' vs, steps vis g e w g' e' w' /\ quiet g g' /\ e' !! v = Some r /\ types g' !! v = Some (ContextRefType AnyType) /\
    defining g' v = Some (GContextRef f, vs) /\ v ∈ cur vis g'.
Proof.
  intros Hr Hf Hg Hs. destruct x; try done. cbn in Hf, Hg. destruct (path p) as [|x [|y [|? ?]]] eqn:Ep; try done.
  destruct (find_var (v_name x) s) as [[d0 []|]|] eqn:Ex; try done. injection Hf as -> <-.
  destruct (get_variable _ _ _ _ _ _ _ (rd_rel _ _ _ _ Hr) Ex) as (sym & Hsym & Hv & _).
  apply bind_ok in Hg as (o & g0 & Hp & Hg). unfold getPath in Hp. apply bind_ok in Hp as (v0 & g1 & H0 & Hp).
  rewrite (gen_variable_ok _ _ _ Hsym) in H0. injection H0 as <- <-. apply bind_ok in Hp as (v1 & g1 & H1 & Hp).
  apply ret_ok in Hp as [-> ->]. apply ret_ok in Hg as [-> ->]. cbn [getMembers] in H1. apply bind_ok in H1 as (t & g2 & Ht & H1).
  rewrite (inspect_ok _ _ _ (vo_type _ _ _ _ _ Hv) eq_refl) in Ht. injection Ht as <- <-.
  apply bind_ok in H1 as (v2 & g2 & H1 & H2). apply ret_ok in H2 as [-> ->].
  destruct (create_steps vis g e w (GContextRef (v_name y)) [s_value sym] (ContextRefType AnyType) [c] r w' (rd_inv _ _ _ _ Hr) (rd_in _ _ _ _ Hr) eq_refl)
    as (v3 & g3 & e3 & E3 & S3 & Q3 & F3 & T3 & D3 & C3); [cbn; by rewrite (vo_env _ _ _ _ _ Hv)|done|].
  rewrite E3 in H1. injection H1 as <- <-. by exists e3, [s_value sym].
Qed.

(** The right side of an assignment, as a value that is not a reference. *)
Lemma right_sim vis g e w s n x d' w' v g1 v' g2 tl : ready vis g e s -> gen_expr x g = Ok v g1 -> toRValue v (Some tl) g1 = Ok v' g2 ->
  tl = IntegerType n -> eval_to sem s (IntegerType n) x w = Some (d', w') ->
  exists e2 w2 d t, steps vis g e w g2 e2 w2 /\ quiet g g2 /\ ready vis g2 e2 s /\ value_ok g2 e2 v' d t /\ is_integer t = true /\
    convert sem d t (IntegerType n) w2 = Some (d', w').
Proof.
  intros Hr Hg Ht -> He. unfold eval_to in He. destruct (context_field s x) as [[c f]|] eqn:Ef.
  - opt (sem1 sem (GContextRef f) [c] (ContextRefType AnyType) w) as [[r w1]|] by E1 in He.
    destruct (field_sim _ _ _ _ _ _ _ _ _ _ _ _ Hr Ef Hg E1) as (e1 & vs & S1 & Q1 & F1 & T1 & D1 & C1).
    unfold toRValue in Ht. apply bind_ok in Ht as (df & g0 & H0 & Ht). injection H0 as <- <-. rewrite D1 in Ht.
    apply bind_ok in Ht as (t & g0 & H0 & Ht). rewrite (inspect_ok _ _ _ T1 eq_refl) in H0. injection H0 as <- <-. cbn [default] in Ht.
    destruct (create_steps vis g1 e1 w1 GLoad [v] (IntegerType n) [r] d' w' (st_inv _ _ _ _ _ _ _ S1) (st_in _ _ _ _ _ _ _ S1) eq_refl)
      as (v3 & g3 & e3 & E3 & S3 & Q3 & F3 & T3 & D3 & _); [cbn; by rewrite F1|done|].
    cbn [from_option id] in Ht. rewrite E3 in Ht. injection Ht as <- <-. exists e3, w', d', (IntegerType n).
    pose proof (quiet_trans _ _ _ Q1 Q3) as Q. pose proof (steps_trans _ _ _ _ _ _ _ _ _ _ S1 S3) as S.
    split_and!; [done|done|by eapply ready_quiet|by eapply created_ok|done|]. cbn. by rewrite Z.eqb_refl.
  - opt (eval s x w) as [[[[d t] lit] w1]|] by E1 in He. destruct (is_integer t) eqn:Ei; [|done].
    destruct (ready_eval _ _ _ _ _ _ _ _ _ _ _ _ Hr Hg E1) as (e1 & S1 & Q1 & R1 & V1).
    rewrite (toRValue_ok _ _ _ _ _ _ V1) in Ht. injection Ht as <- <-. exists e1, w1, d, t. done.
Qed.

(** A conversion between integers has a result, and no effect. *)
Definition casts_pure : Prop := forall d n w, exists d', sem GBitCast [d] [IntegerType n] w = Some ([d'], w).
Context (Hcast : casts_pure).

Lemma convert_total d t n w : exists d', convert sem d t (IntegerType n) w = Some (d', w).
Proof.
  unfold convert. destruct t; try by eexists. destruct (_ =? _); [by eexists|]. destruct (Hcast d n w) as [d' H]. exists d'.
  unfold sem1. by rewrite H.
Qed.

Lemma nop_sim vis g e w s w' v g' : ready vis g e s -> create GNop [] NoneType g = Ok v g' -> nop sem w = Some w' ->
  exists e', steps vis g e w g' e' w' /\ quiet g g'.
Proof.
  intros Hr Hc Hn. unfold nop in Hn. destruct (sem1 sem GNop [] NoneType w) as [[d w1]|] eqn:E; [|discriminate]. injection Hn as ->.
  destruct (create_steps vis g e w GNop [] NoneType [] d w' (rd_inv _ _ _ _ Hr) (rd_in _ _ _ _ Hr) eq_refl eq_refl E) as (v1 & g1 & e1 & E1 & S1 & Q1 & _).
  rewrite E1 in Hc. injection Hc as <- <-. eauto.
Qed.

(** The operation an assignment is built with, when the target is a variable. *)
Lemma gen_assign_variable x loc l r g v g' e d t : value_ok g e l d t -> gen_assign (PathExpr (MkPath loc [x])) l r g = Ok v g' ->
  update (v_name x) r g = Ok tt g'.
Proof.
  intros [_ _ _ Hp _] H. unfold gen_assign in H. apply bind_ok in H as (df & g0 & H0 & H). injection H0 as <- <-.
  destruct (defining g l) as [[k ops]|]; [|done].
  assert (Hd : (_ ← update_expr (PathExpr (MkPath loc [x])) r; mret r) g = Ok v g' -> update (v_name x) r g = Ok tt g').
  { intros H1. apply bind_ok in H1 as ([] & g1 & H1 & H2). by apply ret_ok in H2 as [-> ->]. }
  destruct k; try (by apply Hd); done.
Qed.

Lemma assign_variable_sim vis g e w s x loc r n d0 d' w' v g' : ready vis g e s -> find_var (v_name x) s = Some (Local d0 (IntegerType n)) ->
  gen_binary Lexer.tok_eq (PathExpr (MkPath loc [x])) (gen_expr (PathExpr (MkPath loc [x]))) (gen_expr r) g = Ok v g' ->
  eval_to sem s (IntegerType n) r w = Some (d', w') ->
  exists e', steps vis g e w g' e' w' /\ ready vis g' e' (assign (v_name x) d' s).
Proof.
  intros Hr Hx Hg He. unfold gen_binary in Hg. apply bind_ok in Hg as (lhs & g1 & Hl & Hg).
  destruct (get_variable _ _ _ _ _ _ _ (rd_rel _ _ _ _ Hr) Hx) as (sym & Hsym & Hv & Hst).
  cbn [gen_expr getPath path] in Hl. unfold mbind, gen_bind in Hl. rewrite (gen_variable_ok _ _ _ Hsym) in Hl. injection Hl as <- <-.
  rewrite Z.eqb_refl in Hg. apply bind_ok in Hg as (l1 & g1 & Hl & Hg). apply ret_ok in Hl as [-> ->].
  apply bind_ok in Hg as (rv & g1 & Hrv & Hg). apply bind_ok in Hg as (tl & g1' & Htl & Hg). apply bind_ok in Hg as (rv' & g2 & Hrv' & Hg).
  assert (Htl' : tl = IntegerType n /\ g1' = g1).
  { pose proof (sound_expr r ∅ vis g (rd_inv _ _ _ _ Hr) ltac:(set_solver)) as Hs. rewrite Hrv in Hs. destruct Hs as (_ & Hx1 & _).
    rewrite (getType_ok _ _ (IntegerType n)) in Htl; [by injection Htl as <- <-|].
    eapply kept_type; [apply Hr|exact Hx1|eapply (rd_in _ _ _ _ Hr), Hv|apply Hv|done]. }
  destruct Htl' as [-> ->].
  destruct (right_sim _ _ _ _ _ _ _ _ _ _ _ _ _ _ Hr Hrv Hrv' eq_refl He) as (e2 & w2 & d & t & S2 & Q2 & R2 & V2 & I2 & C2).
  pose proof (value_ok_steps _ _ _ _ _ _ _ _ _ _ (rd_inv _ _ _ _ Hr) (rd_in _ _ _ _ Hr) S2 Hv) as Vl.
  apply bind_ok in Hg as ([l3 r3] & g3 & Hcc & Hg). apply bind_ok in Hg as (tl & g3' & Htl' & Hg). injection Htl' as _ <-.
  assert (Hga : gen_assign (PathExpr (MkPath loc [x])) l3 r3 g3 = Ok v g') by exact Hg. clear Hg.
  unfold cast_constant in Hcc. apply bind_ok in Hcc as (dl & g0 & H0 & Hcc). injection H0 as <- <-.
  apply bind_ok in Hcc as (dr & g0 & H0 & Hcc). injection H0 as <- <-.
  (* the two sides after the cast of a constant *)
  assert (Hsides : exists e3 w3 d3 t3 dl3 tl3, steps vis g2 e2 w2 g3 e3 w3 /\ quiet g2 g3 /\ value_ok g3 e3 r3 d3 t3 /\ is_integer t3 = true /\
    convert sem d3 t3 (IntegerType n) w3 = Some (d', w') /\ value_ok g3 e3 l3 dl3 tl3).
  { destruct (is_const (defining g2 (s_value sym))) eqn:El.
    - apply bind_ok in Hcc as (t' & g0 & H0 & Hcc). rewrite (getType_ok _ _ _ (vo_type _ _ _ _ _ V2)) in H0. injection H0 as <- <-.
      apply bind_ok in Hcc as (l4 & g4 & Hl & Hcc). apply ret_ok in Hcc as [[= -> ->] ->]. destruct t as [|b| | | | | | | | | | |]; try done.
      destruct (convert_total d0 (IntegerType n) b w2) as [dl Hdl].
      destruct (tryCast_sim _ _ _ _ _ _ _ _ _ _ _ _ (rd_inv _ _ _ _ R2) (rd_in _ _ _ _ R2) Vl Hl Hdl) as (e3 & S3 & Q3 & V3).
      exists e3, w2, d, (IntegerType b), dl, (IntegerType b). split_and!; try done.
      eapply value_ok_steps; [apply R2|apply R2|exact S3|exact V2].
    - destruct (is_const (defining g2 rv')) eqn:Er.
      + apply bind_ok in Hcc as (t' & g0 & H0 & Hcc). rewrite (getType_ok _ _ _ (vo_type _ _ _ _ _ Vl)) in H0. injection H0 as <- <-.
        apply bind_ok in Hcc as (r4 & g4 & Hr4 & Hcc). apply ret_ok in Hcc as [[= -> ->] ->].
        destruct (tryCast_sim _ _ _ _ _ _ _ _ _ _ _ _ (rd_inv _ _ _ _ R2) (rd_in _ _ _ _ R2) V2 Hr4 C2) as (e3 & S3 & Q3 & V3).
        rewrite integer_cast in V3 by done. exists e3, w', d', (IntegerType n), d0, (IntegerType n). split_and!; try done.
        * cbn. by rewrite Z.eqb_refl.
        * eapply value_ok_steps; [apply R2|apply R2|exact S3|exact Vl].
      + apply ret_ok in Hcc as [[= -> ->] ->]. exists e2, w2, d, t, d0, (IntegerType n). split_and!; try done. by apply steps_refl; apply R2. }
  destruct Hsides as (e3 & w3 & d3 & t3 & dl3 & tl3 & S3 & Q3 & V3 & I3 & C3 & Vl3).
  apply (gen_assign_variable _ _ _ _ _ _ _ _ _ _ Vl3) in Hga. pose proof (ready_quiet _ _ _ _ _ _ _ _ R2 S3 Q3) as R3.
  destruct (update_sim _ _ _ _ _ _ _ _ _ _ _ _ _ _ R3 Hx V3 I3 C3 Hga) as (e4 & S4 & R4). exists e4. split; [|done].
  eapply steps_trans; [exact S2|]. by eapply steps_trans.
Qed.

Lemma assign_field_sim vis g e w s l c f r s' w' v g' : ready vis g e s -> context_field s l = Some (c, f) ->
  gen_binary Lexer.tok_eq l (gen_expr l) (gen_expr r) g = Ok v g' -> exec_assign sem s l r w = Some (s', w') ->
  executed vis g e w s g' w' s'.
Proof.
  intros Hr Hf Hg He. unfold exec_assign in He. rewrite Hf in He.
  opt (sem1 sem (GContextRef f) [c] (ContextRefType AnyType) w) as [[ref w1]|] by E1 in He.
  opt (eval s r w1) as [[[[d t] lit] w2]|] by E2 in He. opt (sem0 sem GStore [ref; d] w2) as [w3|] by E3 in He.
  opt (nop sem w3) as [w4|] by E4 in He. injection He as <- <-.
  unfold gen_binary in Hg. apply bind_ok in Hg as (lhs & g1 & Hl & Hg).
  destruct (field_sim _ _ _ _ _ _ _ _ _ _ _ _ Hr Hf Hl E1) as (e1 & vs & S1 & Q1 & F1 & T1 & D1 & C1).
  pose proof (ready_quiet _ _ _ _ _ _ _ _ Hr S1 Q1) as R1.
  rewrite Z.eqb_refl in Hg. apply bind_ok in Hg as (l1 & g1' & Hl' & Hg). apply ret_ok in Hl' as [-> ->].
  apply bind_ok in Hg as (rv & g2 & Hrv & Hg). destruct (ready_eval _ _ _ _ _ _ _ _ _ _ _ _ R1 Hrv E2) as (e2 & S2 & Q2 & R2 & V2).
  pose proof (kept_type vis g1 g2 lhs _ (rd_inv _ _ _ _ R1) (st_extends _ _ _ _ _ _ _ S2) C1 T1 eq_refl) as T2.
  pose proof (kept_def vis g1 g2 lhs (rd_inv _ _ _ _ R1) (st_extends _ _ _ _ _ _ _ S2) C1) as D2. rewrite D1 in D2.
  apply bind_ok in Hg as (tl & g2' & Htl & Hg). rewrite (getType_ok _ _ _ T2) in Htl. injection Htl as <- <-.
  apply bind_ok in Hg as (rv' & g2' & Hrv' & Hg). rewrite (toRValue_ok _ _ _ _ _ _ V2) in Hrv'. injection Hrv' as <- <-.
  apply bind_ok in Hg as ([l3 r3] & g3 & Hcc & Hg).
  assert (Hsides : l3 = lhs /\ r3 = rv /\ g3 = g2).
  { unfold cast_constant in Hcc. apply bind_ok in Hcc as (dl & g0 & H0 & Hcc). injection H0 as <- <-.
    apply bind_ok in Hcc as (dr & g0 & H0 & Hcc). injection H0 as <- <-. rewrite D2 in Hcc. cbn [is_const] in Hcc.
    destruct (is_const (defining g2 rv)); [|by apply ret_ok in Hcc as [[= -> ->] ->]].
    apply bind_ok in Hcc as (t' & g0 & H0 & Hcc). rewrite (getType_ok _ _ _ T2) in H0. injection H0 as <- <-.
    apply bind_ok in Hcc as (r4 & g4 & Hr4 & Hcc). apply ret_ok in Hcc as [[= -> ->] ->]. unfold tryCast in Hr4.
    apply bind_ok in Hr4 as (tv & g0 & H0 & Hr4). rewrite (inspect_ok _ _ _ (vo_type _ _ _ _ _ V2) (simple_null _ (vo_simple _ _ _ _ _ V2))) in H0.
    injection H0 as <- <-. destruct t; by apply ret_ok in Hr4 as [-> ->]. }
  destruct Hsides as (-> & -> & ->). apply bind_ok in Hg as (tl & g2' & Htl & Hg). injection Htl as _ <-.
  assert (Hga : gen_assign l lhs rv g2 = Ok v g') by exact Hg. clear Hg. unfold gen_assign in Hga.
  apply bind_ok in Hga as (dl & g0 & H0 & Hga). injection H0 as <- <-. rewrite D2 in Hga.
  apply bind_ok in Hga as ([] & g3 & Hst & Hga).
  destruct (create__steps vis g2 e2 w2 GStore [lhs; rv] [ref; d] w3 (rd_inv _ _ _ _ R2) (rd_in _ _ _ _ R2) eq_refl) as (g4 & e4 & Es & S3 & Q3).
  { cbn. rewrite (lookup_weaken _ _ _ _ F1 (st_env _ _ _ _ _ _ _ S2)), (vo_env _ _ _ _ _ V2). done. }
  { exact E3. }
  rewrite Es in Hst. injection Hst as <-. pose proof (ready_quiet _ _ _ _ _ _ _ _ R2 S3 Q3) as R3.
  destruct (nop_sim _ _ _ _ _ _ _ _ R3 Hga E4) as (e5 & S4 & Q4).
  eapply executed_quiet; [exact Hr|eapply steps_trans; [exact S1|]; eapply steps_trans; [exact S2|]; by eapply steps_trans|].
  eapply quiet_trans; [exact Q1|]. eapply quiet_trans; [exact Q2|]. by eapply quiet_trans.
Qed.

Lemma assign_sim vis g e w s l r s' w' v g' : ready vis g e s ->
  gen_binary Lexer.tok_eq l (gen_expr l) (gen_expr r) g = Ok v g' -> exec_assign sem s l r w = Some (s', w') ->
  executed vis g e w s g' w' s'.
Proof.
  intros Hr Hg He. destruct (context_field s l) as [[c f]|] eqn:Ef; [by eapply assign_field_sim|].
  unfold exec_assign in He. rewrite Ef in He. destruct l as [| | | | |[loc p]| | | | | |]; try done. cbn [path] in He.
  destruct p as [|x [|? ?]]; try done. destruct (find_var (v_name x) s) as [[d0 [|n| | | | | | | | | | |]|]|] eqn:Ex; try done.
  opt (eval_to sem s (IntegerType n) r w) as [[d w1]|] by E1 in He. injection He as <- <-.
  destruct (assign_variable_sim _ _ _ _ _ _ _ _ _ _ _ _ _ _ Hr Ex Hg E1) as (e' & S & R). exists e'. split; [done|]. split; [done|].
  apply scopes_like_tail, assign_like.
Qed.

(** Two results in a row. *)
Lemma create_pair_sim vis g e w s k vs ds w1 w2 v g' : ready vis g e s -> structured k = false ->
  mapM (fun v => e !! v) vs = Some ds -> sem0 sem k ds w = Some w1 -> nop sem w1 = Some w2 ->
  (_ ← create_ k vs; create GNop [] NoneType) g = Ok v g' -> exists e', steps vis g e w g' e' w2 /\ quiet g g'.
Proof.
  intros Hr Hk Hds Hs Hn Hg. apply bind_ok in Hg as ([] & g1 & H1 & Hg).
  destruct (create__steps vis g e w k vs ds w1 (rd_inv _ _ _ _ Hr) (rd_in _ _ _ _ Hr) Hk Hds Hs) as (g2 & e2 & E2 & S2 & Q2).
  rewrite E2 in H1. injection H1 as <-. destruct (nop_sim _ _ _ _ _ _ _ _ (ready_quiet _ _ _ _ _ _ _ _ Hr S2 Q2) Hg Hn) as (e3 & S3 & Q3).
  exists e3. split; [by eapply steps_trans|by eapply quiet_trans].
Qed.

Lemma buffer_symbol vis g e s x b : ready vis g e s -> buffer_of x s = Some b ->
  exists sym, find_symbol x (symbolTable g) = Some sym /\ value_ok g e (s_value sym) b BufferType.
Proof.
  intros Hr Hb. unfold buffer_of in Hb. destruct (find_var x s) as [[d []|]|] eqn:Ex; try done. injection Hb as ->.
  destruct (get_variable _ _ _ _ _ _ _ (rd_rel _ _ _ _ Hr) Ex) as (sym & Hs & Hv & _). eauto.
Qed.

Lemma emit_sim vis g e w s p x a b d t lit w1 w2 w3 v g' : ready vis g e s -> method p = Some (x, "emit"%string) ->
  buffer_of x s = Some b -> eval s a w = Some (d, t, lit, w1) -> sem0 sem GEmit [b; d] w1 = Some w2 -> nop sem w2 = Some w3 ->
  gen_call p [a] [] [] (mapM_ gen_expr [a]) g = Ok v g' -> executed vis g e w s g' w3 s.
Proof.
  intros Hr Hm Hb He Hs Hn Hg. destruct (buffer_symbol _ _ _ _ _ _ Hr Hb) as (sym & Hsym & Hv).
  rewrite (gen_call_ok _ _ _ _ _ _ _ Hm Hsym) in Hg. apply bind_ok in Hg as (vs & g1 & H1 & Hg). cbn [mapM_] in H1.
  apply bind_ok in H1 as (va & g2 & H1 & H2). apply bind_ok in H2 as (vs0 & g3 & H0 & H2). apply ret_ok in H0 as [-> ->]. apply ret_ok in H2 as [-> ->].
  destruct (ready_eval _ _ _ _ _ _ _ _ _ _ _ _ Hr H1 He) as (e2 & S2 & Q2 & R2 & V2). cbn [gen_method String.eqb Ascii.eqb Bool.eqb] in Hg.
  apply bind_ok in Hg as (va' & g3 & H3 & Hg). rewrite (toRValue_ok _ _ _ _ _ _ V2) in H3. injection H3 as <- <-.
  destruct (create_pair_sim _ _ _ w1 _ GEmit [s_value sym; va] [b; d] w2 w3 v g' R2 eq_refl) as (e3 & S3 & Q3); [|exact Hs|exact Hn|exact Hg|].
  { cbn. rewrite (lookup_weaken _ _ _ _ (vo_env _ _ _ _ _ Hv) (st_env _ _ _ _ _ _ _ S2)), (vo_env _ _ _ _ _ V2). done. }
  eapply executed_quiet; [exact Hr|by eapply steps_trans|by eapply quiet_trans].
Qed.

Lemma extract_sim vis g e w s p x loc y b n d0 d w1 v g' : ready vis g e s -> method p = Some (x, "extract"%string) ->
  buffer_of x s = Some b -> find_var (v_name y) s = Some (Local d0 (IntegerType n)) -> sem1 sem GExtract [b] (IntegerType n) w = Some (d, w1) ->
  gen_call p [PathExpr (MkPath loc [y])] [] [] (mapM_ gen_expr [PathExpr (MkPath loc [y])]) g = Ok v g' ->
  executed vis g e w s g' w1 (assign (v_name y) d s).
Proof.
  intros Hr Hm Hb Hy Hs Hg. destruct (buffer_symbol _ _ _ _ _ _ Hr Hb) as (sym & Hsym & Hv).
  destruct (get_variable _ _ _ _ _ _ _ (rd_rel _ _ _ _ Hr) Hy) as (symy & Hsymy & Hvy & _).
  rewrite (gen_call_ok _ _ _ _ _ _ _ Hm Hsym) in Hg. apply bind_ok in Hg as (vs & g1 & H1 & Hg). cbn [mapM_] in H1.
  apply bind_ok in H1 as (va & g2 & H1 & H2). apply bind_ok in H2 as (vs0 & g3 & H0 & H2). apply ret_ok in H0 as [-> ->]. apply ret_ok in H2 as [-> ->].
  cbn [gen_expr getPath path] in H1. unfold mbind, gen_bind in H1. rewrite (gen_variable_ok _ _ _ Hsymy) in H1. injection H1 as <- <-.
  cbn [gen_method String.eqb Ascii.eqb Bool.eqb] in Hg. apply bind_ok in Hg as (t & g1 & Ht & Hg).
  rewrite (getType_ok _ _ _ (vo_type _ _ _ _ _ Hvy)) in Ht. injection Ht as <- <-. apply bind_ok in Hg as (ve & g1 & He & Hg).
  destruct (create_steps vis g e w GExtract [s_value sym] (IntegerType n) [b] d w1 (rd_inv _ _ _ _ Hr) (rd_in _ _ _ _ Hr) eq_refl)
    as (v3 & g3 & e3 & E3 & S3 & Q3 & F3 & T3 & D3 & _); [cbn; by rewrite (vo_env _ _ _ _ _ Hv)|exact Hs|].
  rewrite E3 in He. injection He as <- <-. apply bind_ok in Hg as ([] & g4 & Hu & Hg). apply ret_ok in Hg as [-> ->]. cbn in Hu.
  pose proof (ready_quiet _ _ _ _ _ _ _ _ Hr S3 Q3) as R3.
  destruct (update_sim _ _ _ w1 _ _ _ _ _ d _ d w1 _ R3 Hy (created_ok _ _ _ _ _ _ _ F3 T3 D3 eq_refl eq_refl ltac:(done)) eq_refl ltac:(cbn; by rewrite Z.eqb_refl) Hu)
    as (e4 & S4 & R4).
  exists e4. split; [by eapply steps_trans|]. split; [done|]. apply scopes_like_tail, assign_like.
Qed.

Lemma table_update_sim vis g e w s p x tabT vt k v dk tk bk dv tv bv h w1 w2 w3 w4 w5 r g' : ready vis g e s -> method p = Some (x, "update"%string) ->
  table_of x s = Some (tabT, vt) -> eval s k w = Some (dk, tk, bk, w1) -> eval s v w1 = Some (dv, tv, bv, w2) ->
  sem1 sem (GGlobalImport x) [] tabT w2 = Some (h, w3) -> sem0 sem GUpdate [h; dk; dv] w3 = Some w4 -> nop sem w4 = Some w5 ->
  gen_call p [k; v] [] [] (mapM_ gen_expr [k; v]) g = Ok r g' -> executed vis g e w s g' w5 s.
Proof.
  intros Hr Hm Ht Hk Hv Hh Hs Hn Hg. destruct (table_symbol _ _ _ _ _ _ _ (rd_rel _ _ _ _ Hr) Ht) as (sym & kt & size & n & Hsym & Htab & _ & Hb).
  rewrite (gen_call_ok _ _ _ _ _ _ _ Hm Hsym) in Hg. apply bind_ok in Hg as (vs & g1 & H1 & Hg). cbn [mapM_] in H1.
  apply bind_ok in H1 as (vk & g2 & H1 & H2). apply bind_ok in H2 as (vs0 & g3 & H0 & H2). apply ret_ok in H2 as [-> ->].
  apply bind_ok in H0 as (vv & g4 & H3 & H4). apply bind_ok in H4 as (vs1 & g5 & H0 & H4). apply ret_ok in H0 as [-> ->]. apply ret_ok in H4 as [-> ->].
  destruct (ready_eval _ _ _ _ _ _ _ _ _ _ _ _ Hr H1 Hk) as (e2 & S2 & Q2 & R2 & V2).
  destruct (ready_eval _ _ _ _ _ _ _ _ _ _ _ _ R2 H3 Hv) as (e3 & S3 & Q3 & R3 & V3).
  pose proof (value_ok_steps _ _ _ _ _ _ _ _ _ _ (rd_inv _ _ _ _ R2) (rd_in _ _ _ _ R2) S3 V2) as V2'.
  pose proof (steps_trans _ _ _ _ _ _ _ _ _ _ S2 S3) as S23.
  pose proof (binding_ok_steps _ _ _ _ _ _ _ _ _ _ (rd_inv _ _ _ _ Hr) (rd_in _ _ _ _ Hr) S23 Hb) as Hb'.
  cbn [gen_method String.eqb Ascii.eqb Bool.eqb] in Hg. apply bind_ok in Hg as (c & g5 & Hc & Hg).
  destruct (import_sim _ _ _ _ _ _ _ _ _ _ _ (rd_inv _ _ _ _ R3) (rd_in _ _ _ _ R3) Hb' Hc Hh) as (e4 & S4 & Q4 & F4).
  pose proof (ready_quiet _ _ _ _ _ _ _ _ R3 S4 Q4) as R4.
  pose proof (value_ok_steps _ _ _ _ _ _ _ _ _ _ (rd_inv _ _ _ _ R3) (rd_in _ _ _ _ R3) S4 V2') as V2''.
  pose proof (value_ok_steps _ _ _ _ _ _ _ _ _ _ (rd_inv _ _ _ _ R3) (rd_in _ _ _ _ R3) S4 V3) as V3'.
  apply bind_ok in Hg as (k' & g6 & H6 & Hg). rewrite (toRValue_ok _ _ _ _ _ _ V2'') in H6. injection H6 as <- <-.
  apply bind_ok in Hg as (v' & g6 & H6 & Hg). rewrite (toRValue_ok _ _ _ _ _ _ V3') in H6. injection H6 as <- <-.
  destruct (create_pair_sim _ _ _ w3 _ GUpdate [c; vk; vv] [h; dk; dv] w4 w5 r g' R4 eq_refl) as (e5 & S5 & Q5); [|exact Hs|exact Hn|exact Hg|].
  { cbn. by rewrite F4, (vo_env _ _ _ _ _ V2''), (vo_env _ _ _ _ _ V3'). }
  eapply executed_quiet; [exact Hr|eapply steps_trans; [exact S23|]; by eapply steps_trans|].
  eapply quiet_trans; [exact Q2|]. eapply quiet_trans; [exact Q3|]. by eapply quiet_trans.
Qed.

Lemma call_sim vis g e w s p args s' w' v g' : ready vis g e s -> exec_call sem s p args w = Some (s', w') ->
  gen_call p args [] [] (mapM_ gen_expr args) g = Ok v g' -> executed vis g e w s g' w' s'.
Proof.
  intros Hr He Hg. unfold exec_call in He. opt (method p) as [[x m]|] by Em in He.
  destruct (String.eqb_spec m "emit") as [->|_].
  { destruct args as [|a [|? ?]]; try done. opt (buffer_of x s) as [b|] by Eb in He. opt (eval s a w) as [[[[d t] lit] w1]|] by E1 in He.
    opt (sem0 sem GEmit [b; d] w1) as [w2|] by E2 in He. opt (nop sem w2) as [w3|] by E3 in He. injection He as <- <-. by eapply emit_sim. }
  destruct (String.eqb_spec m "extract") as [->|_].
  { destruct args as [|[| | | | |[loc q]| | | | | |] [|? ?]]; try done. cbn [path] in He. destruct q as [|y [|? ?]]; try done.
    destruct (find_var (v_name y) s) as [[d0 [|n| | | | | | | | | | |]|]|] eqn:Ey; try done. opt (buffer_of x s) as [b|] by Eb in He.
    opt (sem1 sem GExtract [b] (IntegerType n) w) as [[d w1]|] by E1 in He. injection He as <- <-. by eapply extract_sim. }
  destruct (String.eqb_spec m "update") as [->|_]; [|done].
  destruct args as [|k [|a [|? ?]]]; try done. opt (table_of x s) as [[tabT vt]|] by Et in He.
  opt (eval s k w) as [[[[dk tk] bk] w1]|] by E1 in He. opt (eval s a w1) as [[[[dv tv] bv] w2]|] by E2 in He.
  opt (sem1 sem (GGlobalImport x) [] tabT w2) as [[h w3]|] by E3 in He. opt (sem0 sem GUpdate [h; dk; dv] w3) as [w4|] by E4 in He.
  opt (nop sem w4) as [w5|] by E5 in He. injection He as <- <-. by eapply table_update_sim.
Qed.
End Correct.
End MlirGenCorrect.
