(* ===== verification/MlirGenControl.v ===== *)
(** Conditionals, blocks and functions of the ep2 generator (MlirGen, MlirGenSem): the
    values merged after a conditional are those of its branch, and a handler's operations
    have the effect of its statements (MlirGenCorrect has expressions and assignments). *)
From Stdlib Require Import ZArith Lia List String.
From stdpp Require Import base list numbers option gmap sets strings countable.
From S2P Require Import Prelude Lexer Ast Ir MlirGen MlirGenSsa MlirGenSem MlirGenCorrect.
Import Ast Ir MlirGen MlirGenSsa MlirGenSem MlirGenCorrect.
#[local] Open Scope Z_scope.

Module MlirGenControl.

(** No conditional has a table (or a struct, a port, ...) among its results. *)
Fixpoint op_merges (o : gop) : bool :=
  let 'GOp _ k _ ts regions := o in
  (match k with GIf => forallb simple ts | _ => true end) && forallb (forallb op_merges) regions.
Definition merges_simple : list gop -> bool := forallb op_merges.

Section Control.
Context {D W : Type}.
Context (sem : gkind -> list D -> list ty -> W -> option (list D * W)) (truth : D -> bool).
Context (Hcast : casts_pure sem).
Abbreviation env := (gmap value D).
Abbreviation run_op := (run_op sem truth).
Abbreviation run_ops := (run_ops sem truth).
Abbreviation run_region := (run_region sem truth).
Abbreviation exec := (exec sem truth).
Abbreviation exec_list := (exec_list sem truth).
Abbreviation exec_block := (exec_block sem truth).
Abbreviation executed := (executed sem truth).
Abbreviation steps := (steps sem truth).
Abbreviation scopes_like := (Forall2 scope_like).

Lemma merges_app a b : merges_simple (a ++ b) = merges_simple a && merges_simple b.
Proof. apply forallb_app. Qed.

Lemma merges_before g g' : extends g g' -> merges_simple (opBlock g') = true -> merges_simple (opBlock g) = true.
Proof. intros [(ops & -> & _) _ _ _ _ _]. rewrite merges_app. by intros [? _]%andb_true_iff. Qed.

(** ** Branches *)

(** A statement, and the operations built for it. *)
Definition stmt_ok (x : ExprAST) : Prop := forall vis g e w s g' s' w', ready vis g e s -> gen_stmt x g = Ok tt g' ->
  exec s x w = Some (s', w') -> merges_simple (opBlock g') = true -> executed vis g e w s g' w' s'.

Lemma list_ok l : Forall stmt_ok l -> forall vis g e w s us g' s' w', ready vis g e s -> mapM_ gen_stmt l g = Ok us g' ->
  exec_list s l w = Some (s', w') -> merges_simple (opBlock g') = true -> executed vis g e w s g' w' s'.
Proof.
  induction 1 as [|x l Hx _ IH]; intros vis g e w s us g' s' w' Hr Hg He Hm; cbn [mapM_] in Hg; cbn [MlirGenSem.exec_list] in He.
  - apply ret_ok in Hg as [_ ->]. injection He as <- <-. exists e. split; [apply steps_refl; apply Hr|]. split; [done|].
    apply scopes_like_refl.
  - apply bind_ok in Hg as ([] & g1 & H1 & Hg). apply bind_ok in Hg as (us' & g2 & H2 & Hg). apply ret_ok in Hg as [_ ->].
    opt (exec s x w) as [[s1 w1]|] by E1 in He.
    assert (Hi1 : inv vis g1 /\ extends g g1).
    { pose proof (runs_stmt x ∅ vis g (rd_inv _ _ _ _ Hr) ltac:(set_solver)) as Hs. rewrite H1 in Hs. destruct Hs as (? & ? & _). done. }
    assert (Hx2 : extends g1 g2).
    { pose proof (runs_list gen_stmt l ∅ (fun a n _ => runs_stmt a n) vis g1 (proj1 Hi1) ltac:(set_solver)) as Hs. rewrite H2 in Hs.
      by destruct Hs as (? & ? & _). }
    destruct (Hx _ _ _ _ _ _ _ _ Hr H1 E1 (merges_before _ _ Hx2 Hm)) as (e1 & S1 & R1 & L1).
    destruct (IH _ _ _ _ _ _ _ _ _ R1 H2 He Hm) as (e2 & S2 & R2 & L2).
    exists e2. split; [by eapply steps_trans|]. split; [done|]. by eapply scopes_like_trans.
Qed.

(** What a branch leaves: the values of the variables around it, where its updates are noted. *)
Record branch (g : gen) (e : env) (w : W) (s : list (gmap string binding)) (u : UpdateTableT) (ops : list gop)
    (e2 : env) (w' : W) (s' : list (gmap string binding)) : Prop := Branch {
  br_ops : run_ops e w ops = Some (e2, w');
  br_env : e ⊆ e2;
  br_like : scopes_like s s';
  br_vars : forall x d t sym, find_var x s' = Some (Local d t) -> find_symbol x (symbolTable g) = Some sym ->
    e2 !! default (s_value sym) (table_find x u) = Some d;
  br_valued : forall x sym, find_symbol x (symbolTable g) = Some sym -> is_Some (e2 !! default (s_value sym) (table_find x u)) }.

Lemma no_branch vis g e w s : ready vis g e s -> branch g e w s [] [] e w s.
Proof.
  intros [R1 R2 R3 R4 R5 R6]. split; cbn; [done|done|apply scopes_like_refl| |exact R5]. intros x d t sym Hx Hsym.
  destruct (R3 x _ Hx) as (sym' & Hsym' & Hv & _). rewrite Hsym in Hsym'. injection Hsym' as <-. apply Hv.
Qed.

(** The state at the start of a branch. *)
Definition branch_start (g : gen) : gen := with_symbols (∅ :: symbolTable g) (with_updates ([] :: updateTables g) (with_block [] g)).

Lemma branch_start_ready vis g (e : env) s : ready vis g e s -> ready (cur vis g) (branch_start g) e (∅ :: s).
Proof.
  intros [R1 R2 R3 R4 R5 R6].
  assert (Hc : cur (cur vis g) (branch_start g) = cur vis g) by (unfold cur, branch_start; cbn; set_solver).
  split; rewrite ?Hc; try done.
  - destruct R1 as [H1 H2 H3 H4 H5]. split; rewrite ?Hc; try done.
    + intros s0 x sy [->|Hs]%elem_of_cons Hl; [done|by eapply H2].
    + intros u k v [->|Hu]%elem_of_cons Hin; [by apply elem_of_nil in Hin|by eapply H3].
  - intros x b Hx. destruct (R3 x b Hx) as (sym & Hsym & Hb). exists sym. split; [done|]. rewrite Hc. destruct b; [|exact Hb].
    destruct Hb as [[B1 B2 B3 B4 B5] Ht]. done.
  - intros y sym0 Hy. by exists sym0.
  - cbn. intros x [b Hx]. by rewrite lookup_empty in Hx.
Qed.

Lemma region_branch vis g e w s l u ops g' s' w' : Forall stmt_ok l -> ready vis g e s ->
  in_region (with_table (in_scope (_ ← mapM_ gen_stmt l; mret tt))) g = Ok (u, ops) g' -> merges_simple ops = true ->
  exec_block s l w = Some (s', w') -> exists e2, branch g e w s u ops e2 w' s'.
Proof.
  intros Hl Hr Hg Hm He. unfold MlirGenSem.exec_block, leave in He. opt (exec_list (∅ :: s) l w) as [[s2 w2]|] by E in He. injection He as <- <-.
  unfold in_region, with_table, in_scope, mbind, gen_bind, modify, get in Hg. cbn [mret gen_ret] in Hg.
  change (with_symbols _ (with_updates _ (with_block [] g))) with (branch_start g) in Hg.
  destruct (mapM_ gen_stmt l (branch_start g)) as [us g2|g2|] eqn:Eg; [|done|done]. injection Hg as <- <- <-. cbn in Hm |- *.
  pose proof (runs_list gen_stmt l ∅ (fun a n _ => runs_stmt a n) _ _ (rd_inv _ _ _ _ (branch_start_ready _ _ _ _ Hr)) ltac:(set_solver)) as Hx.
  rewrite Eg in Hx. destruct Hx as (_ & Hx & _). pose proof (ex_symbols _ _ Hx) as [Hsy _]. pose proof (ex_updates _ _ Hx) as [_ Hup]. cbn in Hsy, Hup.
  destruct (list_ok l Hl _ _ _ _ _ _ _ _ _ (branch_start_ready _ _ _ _ Hr) Eg E Hm) as (e2 & [_ _ (ops & Eb & Hops) Henv _] & [Q1 Q2 Q3 Q4 Q5 Q6] & Hlike).
  cbn in Eb, Hlike. subst ops. exists e2. unfold track in Q4. destruct (updateTables g2) as [|u us']; [done|]. rewrite Hsy in Q4. cbn.
  split; [done|done|done| |].
  - intros x d t sym Hx' Hsym. destruct (Q4 x sym Hsym) as (sym2 & F1 & _ & _ & F2). rewrite <- F2.
    assert (Hx2 : find_var x s2 = Some (Local d t)).
    { destruct s2 as [|m s2]; [done|]. cbn in Hx', Q6 |- *. destruct (m !! x) eqn:Em; [|done]. rewrite Q6 in Hx'; [done|by eexists]. }
    destruct (Q3 x _ Hx2) as (sym3 & F3 & Hv & _). rewrite F1 in F3. injection F3 as <-. apply Hv.
  - intros x sym Hsym. destruct (Q4 x sym Hsym) as (sym2 & F1 & _ & _ & F2). rewrite <- F2. by eapply Q5.
Qed.

(** ** Merging *)

Lemma table_find_keys k (u : UpdateTableT) : k ∈ map fst u <-> is_Some (table_find k u).
Proof.
  unfold table_find. induction u as [|[k' v] u IH]; cbn.
  - rewrite elem_of_nil. split; [done|]. by intros [? ?].
  - rewrite elem_of_cons. destruct (String.eqb_spec k k') as [->|Hne]; cbn; [split; [by eexists|by left]|]. rewrite IH.
    split; [by intros [?|?]|by right].
Qed.

Lemma merge_find from : forall to g u g', merge from to g = Ok u g' -> g' = g /\
  (forall k, k ∈ map fst u <-> k ∈ map fst from \/ k ∈ map fst to) /\
  (forall k sym, find_symbol k (symbolTable g) = Some sym -> default (s_value sym) (table_find k u) = default (s_value sym) (table_find k to)).
Proof.
  induction from as [|[k0 v0] from IH]; intros to g u g' H; cbn [merge] in H.
  - apply ret_ok in H as [-> ->]. split; [done|]. split; [|done]. intros k. cbn. rewrite elem_of_nil. tauto.
  - apply bind_ok in H as (to' & g1 & H1 & H2).
    assert (Hto : g1 = g /\ (forall k, k ∈ map fst to' <-> k = k0 \/ k ∈ map fst to) /\
      (forall k sym, find_symbol k (symbolTable g) = Some sym -> default (s_value sym) (table_find k to') = default (s_value sym) (table_find k to))).
    { destruct (table_find k0 to) as [v|] eqn:Ef.
      - apply ret_ok in H1 as [-> ->]. split; [done|]. split; [|done]. intros k. split; [by right|]. intros [->|?]; [|done].
        apply table_find_keys. by eexists.
      - apply bind_ok in H1 as (o & g2 & Ho & H1). injection Ho as <- <-. destruct (find_symbol k0 (symbolTable g)) as [sy|] eqn:Es; [|done].
        apply ret_ok in H1 as [-> ->]. split; [done|]. split.
        + intros k. rewrite !table_find_keys, table_find_insert. case_decide as Hk; [subst; split; [by left|by eexists]|].
          split; [by right|by intros [?|?]].
        + intros k sym Hk. rewrite table_find_insert. case_decide as Heq; [|done]. subst k. rewrite Es in Hk. injection Hk as <-. by rewrite Ef. }
    destruct Hto as (-> & K1 & K2). destruct (IH _ _ _ _ H2) as (-> & K3 & K4). split; [done|]. split.
    + intros k. rewrite K3, K1. cbn. rewrite elem_of_cons. tauto.
    + intros k sym Hk. rewrite (K4 k sym Hk). by apply K2.
Qed.

(** ** The operation of a conditional *)

Lemma run_if_then e w id c d ts r rest rs w' : e !! c = Some d -> truth d = true -> run_region e w r = Some (rs, w') ->
  length rs = length ts -> run_op e w (GOp id GIf [c] ts (r :: rest)) = Some (bind_results id rs e, w').
Proof.
  intros Hc Hd Hr Hl. cbn. rewrite Hc. cbn. rewrite Hd. unfold MlirGenSem.run_region in Hr. rewrite Hr. cbn.
  by rewrite Hl, Nat.eqb_refl.
Qed.
Lemma run_if_else e w id c d ts r1 r2 rs w' : e !! c = Some d -> truth d = false -> run_region e w r2 = Some (rs, w') ->
  length rs = length ts -> run_op e w (GOp id GIf [c] ts [r1; r2]) = Some (bind_results id rs e, w').
Proof.
  intros Hc Hd Hr Hl. cbn. rewrite Hc. cbn. rewrite Hd. unfold MlirGenSem.run_region in Hr. rewrite Hr. cbn.
  by rewrite Hl, Nat.eqb_refl.
Qed.
Lemma run_if_none e w id c d r : e !! c = Some d -> truth d = false ->
  run_op e w (GOp id GIf [c] [] [r]) = Some (bind_results id [] e, w).
Proof. intros Hc Hd. cbn. rewrite Hc. cbn. by rewrite Hd. Qed.

Lemma results_lookup {A} id (rs : list A) v : (list_to_map (imap (fun i r => (OpResult id i, r)) rs) : gmap value A) !! v =
  match v with OpResult id' j => if decide (id' = id) then rs !! j else None | BlockArg _ _ => None end.
Proof.
  assert (Hnd : NoDup (imap (fun i (r : A) => (OpResult id i, r)) rs).*1).
  { rewrite fmap_imap. apply NoDup_alt. intros i j x. rewrite !list_lookup_imap. destruct (rs !! i), (rs !! j); cbn; try done.
    by intros [= <-] [= ->]. }
  destruct (list_to_map _ !! v) as [a|] eqn:E.
  - apply elem_of_list_to_map_2, elem_of_lookup_imap in E as (i & r & [= -> ->] & Hi). by rewrite decide_True.
  - destruct v as [|id' j]; [done|]. case_decide as Hd; [|done]. subst id'. destruct (rs !! j) as [r|] eqn:Ej; [|done].
    apply not_elem_of_list_to_map_2 in E. destruct E. apply list_elem_of_fmap. exists (OpResult id j, r). split; [done|].
    apply elem_of_lookup_imap. eauto.
Qed.

Lemma reads_all {A B} (f : A -> M B) (R : A -> B -> Prop) g l bs g' : (forall a b g', f a g = Ok b g' -> g' = g /\ R a b) ->
  mapM_ f l g = Ok bs g' -> g' = g /\ Forall2 R l bs.
Proof.
  intros Hf. revert bs g'. induction l as [|a l IH]; intros bs g' H; cbn [mapM_] in H.
  - by apply ret_ok in H as [-> ->].
  - apply bind_ok in H as (b & g1 & H1 & H). apply Hf in H1 as [-> H1]. apply bind_ok in H as (bs' & g2 & H2 & H).
    apply IH in H2 as [-> H2]. apply ret_ok in H as [-> ->]. split; [done|by constructor].
Qed.

Lemma yields_ok keys u ops g ops' g' : yields keys u ops g = Ok ops' g' -> frame g g' /\
  exists vs, Forall2 (fun k v => table_find k u = Some v) keys vs /\ ops' = ops ++ [GOp (nextId g) GYield vs [] []].
Proof.
  intros H. unfold yields in H. apply bind_ok in H as (vs & g1 & H1 & H).
  apply (reads_all _ (fun k v => table_find k u = Some v)) in H1 as [-> Hvs].
  2:{ intros k v g2 Hk. unfold table_at in Hk. destruct (table_find k u); [|done]. by apply ret_ok in Hk as [-> ->]. }
  cbn in H. injection H as <- <-. split; [split; cbn; [done..|lia| |]|by exists vs].
  - intros id Hid. rewrite lookup_insert_ne by lia. split; [done|]. intros i t Ht _. by rewrite (left_id_L ∅ (∪)).
  - intros b i t Ht _. by rewrite (left_id_L ∅ (∪)).
Qed.

(** The values a branch yields. *)
Lemma yield_branch g e w s u0 u ops e2 w' s' keys vs n : branch g e w s u0 ops e2 w' s' ->
  (forall k sym, find_symbol k (symbolTable g) = Some sym -> default (s_value sym) (table_find k u) = default (s_value sym) (table_find k u0)) ->
  Forall (fun k => is_Some (find_symbol k (symbolTable g))) keys -> Forall2 (fun k v => table_find k u = Some v) keys vs ->
  exists rs, run_region e w (ops ++ [GOp n GYield vs [] []]) = Some (rs, w') /\
    Forall2 (fun k r => forall sym, find_symbol k (symbolTable g) = Some sym -> e2 !! default (s_value sym) (table_find k u0) = Some r) keys rs.
Proof.
  intros [B1 B2 B3 B4 B5] Hu Hk Hvs.
  assert (Hrs : exists rs, mapM (fun v => e2 !! v) vs = Some rs /\
    Forall2 (fun k r => forall sym, find_symbol k (symbolTable g) = Some sym -> e2 !! default (s_value sym) (table_find k u0) = Some r) keys rs).
  { induction Hvs as [|k v keys vs Hv _ IH]; [by exists []|]. inversion_clear Hk as [|? ? [sym Hsym] Hk']. destruct (IH Hk') as (rs & E & Hrs).
    destruct (B5 k sym Hsym) as [r Hr]. assert (Ev : default (s_value sym) (table_find k u0) = v) by (rewrite <- Hu, Hv; done).
    exists (r :: rs). cbn. rewrite <- Ev, Hr. cbn. rewrite E. split; [done|]. constructor; [|done]. intros sym' Hsym'. congruence. }
  destruct Hrs as (rs & E & Hrs). exists rs. split; [|done]. rewrite (run_region_app sem truth _ _ _ _ _ _ B1). cbn. by rewrite E.
Qed.

(** The results of the conditional become the values of the merged variables. *)
Lemma update_same x v g g' sym : find_symbol x (symbolTable g) = Some sym -> types g !! v = Some (s_type sym) -> update x v g = Ok tt g' ->
  opBlock g' = opBlock g /\ opTable g' = opTable g /\ types g' = types g /\ (track g -> track g') /\
  (forall y, find_symbol y (symbolTable g') = if decide (y = x) then Some (Symbol v (s_type sym) (s_decl sym)) else find_symbol y (symbolTable g)).
Proof.
  intros Hs Ht Hu. apply update_spec in Hu as (sym' & v' & g1 & Hs' & Hc & Eb & Eo & Et & Hf & Htr). rewrite Hs in Hs'. injection Hs' as <-.
  assert (Hc' : v' = v /\ g1 = g).
  { unfold tryCast in Hc. apply bind_ok in Hc as (tv & g0 & H0 & Hc). unfold inspect in H0. apply bind_ok in H0 as (t0 & g00 & H00 & H0).
    rewrite (getType_ok _ _ _ Ht) in H00. injection H00 as <- <-. destruct (is_null _); [done|]. apply ret_ok in H0 as [-> ->].
    destruct (s_type sym); try by apply ret_ok in Hc as [-> ->]. rewrite Z.eqb_refl in Hc. by apply ret_ok in Hc as [-> ->]. }
  destruct Hc' as [-> ->]. rewrite Eb, Eo, Et. done.
Qed.

Lemma update_all_spec id keys : forall i g g', update_all id i keys g = Ok tt g' ->
  (forall j k, keys !! j = Some k -> exists sym, find_symbol k (symbolTable g) = Some sym /\ types g !! OpResult id (i + j) = Some (s_type sym)) ->
  opBlock g' = opBlock g /\ opTable g' = opTable g /\ types g' = types g /\ (track g -> track g') /\
  (forall x, (exists j sym, keys !! j = Some x /\ find_symbol x (symbolTable g) = Some sym /\
      find_symbol x (symbolTable g') = Some (Symbol (OpResult id (i + j)) (s_type sym) (s_decl sym))) \/
    (x ∉ keys /\ find_symbol x (symbolTable g') = find_symbol x (symbolTable g))).
Proof.
  induction keys as [|k keys IH]; intros i g g' H Hk; cbn [update_all] in H.
  { apply ret_ok in H as [_ ->]. split_and!; try done. intros x. right. split; [apply not_elem_of_nil|done]. }
  apply bind_ok in H as ([] & g1 & H1 & H2). destruct (Hk 0%nat k eq_refl) as (sym & Hs & Ht). rewrite Nat.add_0_r in Ht.
  destruct (update_same _ _ _ _ _ Hs Ht H1) as (Eb & Eo & Et & Htr & Hf).
  destruct (IH (S i) g1 g' H2) as (Eb' & Eo' & Et' & Htr' & Hf').
  { intros j k' Hj. destruct (Hk (S j) k' Hj) as (sym' & Hs' & Ht'). rewrite Nat.add_succ_r in Ht'. rewrite Hf, Et.
    case_decide as Hd; [|by exists sym']. subst k'. rewrite Hs in Hs'. injection Hs' as <-. by eexists. }
  split_and!; [congruence..|auto|]. intros x. destruct (Hf' x) as [(j & sym' & Hj & Hs' & Hx)|[Hn Hx]].
  - left. exists (S j). rewrite Hf in Hs'. rewrite Nat.add_succ_r. destruct (decide (x = k)) as [->|Hd].
    + injection Hs' as <-. exists sym. split; [done|]. by split.
    + exists sym'. split; [done|]. by split.
  - destruct (decide (x = k)) as [->|Hd].
    + left. exists 0%nat, sym. rewrite Nat.add_0_r. split; [done|]. split; [done|]. by rewrite Hx, Hf, decide_True.
    + right. rewrite elem_of_cons. split; [tauto|]. by rewrite Hx, Hf, decide_False.
Qed.

(** The parts of a conditional. *)
Record if_parts (c : value) (mt : M unit) (me : option (M unit)) (g g' : gen) : Prop := IfParts {
  ip_parts : exists u1 ops1 g2 u2 ops2 g3 u1' u2' ts vs1 n1 regions g5 g6,
    in_region (with_table mt) g = Ok (u1, ops1) g2 /\ in_region (with_table (default (mret tt) me)) g2 = Ok (u2, ops2) g3 /\
    merge u1 u2 g3 = Ok u2' g3 /\ merge u2' u1 g3 = Ok u1' g3 /\
    Forall2 (fun k t => exists sym, find_symbol k (symbolTable g3) = Some sym /\ s_type sym = t) (map fst u1') ts /\
    Forall2 (fun k v => table_find k u1' = Some v) (map fst u1') vs1 /\
    ((regions = [ops1 ++ [GOp n1 GYield vs1 [] []]] /\ map fst u1' = [] /\ me = None) \/
     (exists vs2 n2, regions = [ops1 ++ [GOp n1 GYield vs1 [] []]; ops2 ++ [GOp n2 GYield vs2 [] []]] /\
       Forall2 (fun k v => table_find k u2' = Some v) (map fst u1') vs2)) /\
    frame g3 g5 /\ create_op GIf [c] ts regions g5 = Ok (nextId g5) g6 /\ update_all (nextId g5) 0 (map fst u1') g6 = Ok tt g' }.

Lemma if_parts_ok c mt me g g' : gen_ifelse (mret c) mt me g = Ok tt g' -> if_parts c mt me g g'.
Proof.
  intros H. unfold gen_ifelse in H. apply bind_ok in H as (c' & g1 & H1 & H). apply ret_ok in H1 as [-> ->].
  apply bind_ok in H as ([u1 ops1] & g2 & H2 & H). apply bind_ok in H as ([u2 ops2] & g3 & H3 & H).
  apply bind_ok in H as (u2' & g4 & H4 & H). pose proof (merge_find _ _ _ _ _ H4) as (-> & _ & _).
  apply bind_ok in H as (u1' & g4 & H5 & H). pose proof (merge_find _ _ _ _ _ H5) as (-> & _ & _).
  cbv zeta in H. apply bind_ok in H as (ts & g4 & H6 & H).
  apply (reads_all _ (fun k t => exists sym, find_symbol k (symbolTable g3) = Some sym /\ s_type sym = t)) in H6 as [-> Hts].
  2:{ intros k t g4' Hk. unfold symbol_type in Hk. apply bind_ok in Hk as (o & g0 & H0 & Hk). injection H0 as <- <-.
      destruct (find_symbol k _) as [sym|]; [|done]. apply ret_ok in Hk as [-> ->]. eauto. }
  apply bind_ok in H as (ops1' & g4 & H7 & H). apply yields_ok in H7 as (F7 & vs1 & Hvs1 & ->).
  apply bind_ok in H as (ops2' & g5 & H8 & H). apply bind_ok in H as (id & g6 & H9 & H). pose proof H9 as Eid. cbn in Eid. injection Eid as <- _.
  split. exists u1, ops1, g2, u2, ops2, g3, u1', u2', ts, vs1, (nextId g3).
  destruct (bool_decide (is_Some me) || negb (Nat.eqb (length (map fst u1')) 0)) eqn:Ee.
  - apply yields_ok in H8 as (F8 & vs2 & Hvs2 & ->). eexists _, g5, g6. split_and!; [done..| |by eapply still_trans|exact H9|exact H].
    right. eauto.
  - apply ret_ok in H8 as [-> ->]. apply orb_false_iff in Ee as [E1 E2]. apply negb_false_iff, Nat.eqb_eq, length_zero_iff_nil in E2.
    apply bool_decide_eq_false in E1. eexists _, g4, g6. split_and!; [done..| |done|exact H9|exact H]. left. split; [done|]. split; [done|].
    destruct me; [|done]. destruct E1. by eexists.
Qed.

Lemma frame_steps vis g g' e w : inv vis g -> env_in (cur vis g) e -> frame g g' -> steps vis g e w g' e w /\ quiet g g'.
Proof.
  intros Hi He Hf. split; [|by split; apply Hf]. split; [by eapply frame_inv|by apply frame_extends| |done|by rewrite (frame_cur _ _ _ Hf)].
  exists []. split; [|done]. by rewrite app_nil_r, (fr_block _ _ Hf).
Qed.

Lemma bind_lookup id (rs : list D) (e : env) v : bind_results id rs e !! v =
  match v with OpResult id' j => if decide (id' = id) then (match rs !! j with Some r => Some r | None => e !! v end) else e !! v | _ => e !! v end.
Proof.
  unfold bind_results. destruct ((list_to_map (imap (fun i r => (OpResult id i, r)) rs) : env) !! v) as [a|] eqn:E.
  - rewrite (lookup_union_Some_l _ _ _ _ E). rewrite results_lookup in E. destruct v as [|id' j]; [done|]. case_decide; [|done]. by rewrite E.
  - rewrite lookup_union_r by done. rewrite results_lookup in E. destruct v as [|id' j]; [done|]. case_decide; [|done]. by rewrite E.
Qed.

(** What follows the regions: the operation itself and the new values of the variables. *)
Record if_end (g g5 g' : gen) (c : value) (keys : list string) (ts : list ty) (regions : list (list gop)) : Prop := IfEnd {
  ie_block : opBlock g' = opBlock g ++ [GOp (nextId g5) GIf [c] ts regions];
  ie_table : opTable g' !! nextId g5 = Some (GIf, [c]);
  ie_types : forall j t, ts !! j = Some t -> types g' !! OpResult (nextId g5) j = Some t;
  ie_track : track g -> track g';
  ie_symbols : forall x, (exists j sym, keys !! j = Some x /\ find_symbol x (symbolTable g) = Some sym /\
      find_symbol x (symbolTable g') = Some (Symbol (OpResult (nextId g5) j) (s_type sym) (s_decl sym)) /\ ts !! j = Some (s_type sym)) \/
    (x ∉ keys /\ find_symbol x (symbolTable g') = find_symbol x (symbolTable g)) }.

Lemma if_end_ok g g5 g6 g' c keys ts regions : frame g g5 -> create_op GIf [c] ts regions g5 = Ok (nextId g5) g6 ->
  update_all (nextId g5) 0 keys g6 = Ok tt g' ->
  Forall2 (fun k t => exists sym, find_symbol k (symbolTable g) = Some sym /\ s_type sym = t) keys ts -> if_end g g5 g' c keys ts regions.
Proof.
  intros Hf Hc Hu Hts. cbn in Hc. injection Hc as <-.
  assert (Hty : forall j k, keys !! j = Some k -> exists sym, find_symbol k (symbolTable g) = Some sym /\ ts !! j = Some (s_type sym)).
  { intros j k Hj. destruct (Forall2_lookup_l _ _ _ _ _ Hts Hj) as (t & Ht & sym & Hs & <-). eauto. }
  apply update_all_spec in Hu as (Eb & Eo & Et & Htr & Hs); cbn [opBlock opTable types symbolTable] in *; rewrite ?(fr_symbols _ _ Hf) in *.
  - split.
    + by rewrite Eb, (fr_block _ _ Hf).
    + by rewrite Eo, lookup_insert_eq.
    + intros j t Hj. rewrite Et. apply lookup_union_Some_l. rewrite results_lookup, decide_True; done.
    + intros Ht. apply Htr. revert Ht. apply track_quiet. split; [done|apply Hf].
    + intros x. destruct (Hs x) as [(j & sym & Hj & Hx & Hx')|Hx]; [left|by right]. exists j, sym. split_and!; try done.
      destruct (Hty j x Hj) as (sym' & Hsym & Ht). congruence.
  - intros j k Hj. destruct (Hty j k Hj) as (sym & Hsym & Ht). exists sym. split; [done|].
    apply lookup_union_Some_l. rewrite results_lookup, decide_True; done.
Qed.

Lemma if_ready vis g e w s c ts regions keys g5 g' rs u0 ops e2 w' s' : ready vis g e s -> if_end g g5 g' c keys ts regions ->
  (nextId g <= nextId g5)%nat -> forallb simple ts = true -> inv vis g' -> extends g g' -> branch g e w s u0 ops e2 w' s' ->
  (forall x sym, x ∉ keys -> find_symbol x (symbolTable g) = Some sym -> default (s_value sym) (table_find x u0) = s_value sym) ->
  run_op e w (GOp (nextId g5) GIf [c] ts regions) = Some (bind_results (nextId g5) rs e, w') -> length rs = length ts ->
  Forall2 (fun k r => forall sym, find_symbol k (symbolTable g) = Some sym -> e2 !! default (s_value sym) (table_find k u0) = Some r) keys rs ->
  executed vis g e w s g' w' s'.
Proof.
  intros Hr Hie Hn Hsimple Hi' Hx Hb Hout Hrun Hlen Hrs. pose proof Hr as [R1 R2 R3 R4 R5 R6]. destruct Hie as [I1 I2 I3 I4 I5]. destruct Hb as [_ B2 B3 B4 B5].
  set (id := nextId g5) in *. set (e' := bind_results id rs e) in *.
  assert (Hold : e ⊆ e').
  { apply map_subseteq_spec. intros v d Hv. unfold e'. rewrite bind_lookup. pose proof (R2 _ _ Hv) as Hc. destruct v as [|id' j]; [done|].
    apply (inv_fresh _ _ R1) in Hc. rewrite decide_False by lia. done. }
  assert (Hnew : forall j r, rs !! j = Some r -> e' !! OpResult id j = Some r) by (intros j r Hj; unfold e'; by rewrite bind_lookup, decide_True, Hj).
  assert (Hin : env_in (cur vis g') e').
  { intros v d Hv. unfold e' in Hv. rewrite bind_lookup in Hv. assert (Ho : e !! v = Some d -> v ∈ cur vis g') by (intros H; eapply extends_cur; [exact Hx|by eapply R2]).
    destruct v as [|id' j]; [by apply Ho|]. case_decide as Hid; [|by apply Ho]. subst id'. destruct (rs !! j) as [r|] eqn:Ej; [|by apply Ho].
    unfold cur. rewrite I1, block_values_app. apply lookup_lt_Some in Ej. rewrite Hlen in Ej. unfold block_values at 2. cbn [map union_list foldr].
    rewrite (right_id_L ∅ (∪)). apply elem_of_union. right. apply elem_of_union. right. apply op_values_in. eauto. }
  assert (S : steps vis g e w g' e' w').
  { split; [done|done| |done|done]. exists [GOp id GIf [c] ts regions]. split; [done|]. cbn [MlirGenSem.run_ops]. by rewrite Hrun. }
  exists e'. split; [done|]. split; [|by apply scopes_like_tail]. split; [done|done| |by apply I4| |by eapply fresh_head_like].
  - intros x b Hfx. pose proof (scopes_like_find _ _ x B3) as Hsh. rewrite Hfx in Hsh.
    assert (Hsame : forall sym, find_symbol x (symbolTable g) = Some sym -> x ∉ keys -> find_symbol x (symbolTable g') = Some sym ->
      exists sym, find_symbol x (symbolTable g') = Some sym /\ binding_ok g' e' (cur vis g') x sym b).
    { intros sym Hsym Hnk Hsym'. exists sym. split; [done|]. destruct b as [d t|t].
      - destruct (find_var x s) as [[d0 t0|]|] eqn:Ex; try done. injection Hsh as ->. destruct (get_variable _ _ _ _ _ _ _ R3 Ex) as (sym0 & Hs0 & Hv & Hst).
        rewrite Hsym in Hs0. injection Hs0 as <-. pose proof (B4 _ _ _ _ Hfx Hsym) as Hd. rewrite (Hout x sym Hnk Hsym) in Hd.
        rewrite (lookup_weaken _ _ _ _ (vo_env _ _ _ _ _ Hv) B2) in Hd. injection Hd as ->. split; [by eapply value_ok_steps|done].
      - destruct (find_var x s) as [[|t0]|] eqn:Ex; try done. injection Hsh as ->. destruct (R3 _ _ Ex) as (sym0 & Hs0 & Hb0).
        rewrite Hsym in Hs0. injection Hs0 as <-. by eapply (binding_ok_steps sem truth vis g e w g' e' w'). }
    destruct (I5 x) as [(j & sym & Hj & Hsym & Hsym' & Htj)|[Hnk Hsym']].
    + exists (Symbol (OpResult id j) (s_type sym) (s_decl sym)). split; [done|].
      assert (Hst : simple (s_type sym) = true).
      { rewrite forallb_forall in Hsimple. apply Hsimple, list_elem_of_In. by eapply list_elem_of_lookup_2. }
      destruct (Forall2_lookup_l _ _ _ _ _ Hrs Hj) as (r & Hrj & Hr'). specialize (Hr' sym Hsym). destruct b as [d t|t]; cbn.
      * destruct (find_var x s) as [[d0 t0|]|] eqn:Ex; try done. injection Hsh as ->. destruct (get_variable _ _ _ _ _ _ _ R3 Ex) as (sym0 & Hs0 & _ & Hty).
        rewrite Hsym in Hs0. injection Hs0 as <-. rewrite Hty in Hst. split; [|done]. rewrite (B4 _ _ _ _ Hfx Hsym) in Hr'. injection Hr' as ->.
        split; [by apply Hnew|done|rewrite <- Hty; by apply I3|cbn; by rewrite I2|cbn; by rewrite I2].
      * destruct (find_var x s) as [[|t0]|] eqn:Ex; try done. destruct (R3 _ _ Ex) as (sym0 & Hs0 & _ & _ & _ & _ & Hty & Hns).
        rewrite Hsym in Hs0. injection Hs0 as <-. congruence.
    + destruct (find_symbol x (symbolTable g)) as [sym|] eqn:Hsym; [by eapply Hsame|]. destruct (find_var x s) as [b0|] eqn:Ex; [|by destruct b].
      destruct (R3 _ _ Ex) as (sym0 & Hs0 & _). congruence.
  - intros x sym Hsym. destruct (I5 x) as [(j & sym0 & Hj & Hsym0 & Hsym' & _)|[Hnk Hsym']].
    + rewrite Hsym in Hsym'. injection Hsym' as ->. destruct (Forall2_lookup_l _ _ _ _ _ Hrs Hj) as (r & Hrj & _). exists r. by apply Hnew.
    + rewrite Hsym in Hsym'. destruct (R5 x sym (eq_sym Hsym')) as [d Hd]. exists d. by eapply lookup_weaken.
Qed.

(** ** Conditionals *)

Definition scoped_runs (m : M unit) : Prop := runs ∅ m none /\ scoped m.

Lemma branch_symbols g0 g e w s u ops e2 w' s' : symbolTable g0 = symbolTable g -> branch g0 e w s u ops e2 w' s' -> branch g e w s u ops e2 w' s'.
Proof. intros E [B1 B2 B3 B4 B5]. rewrite E in *. by split. Qed.

Lemma ready_frame vis g (e : env) s g' (w : W) : ready vis g e s -> frame g g' -> ready vis g' e s.
Proof. intros Hr Hf. destruct (frame_steps vis g g' e w) as [S Q]; [apply Hr..|done|]. by eapply ready_quiet. Qed.

Lemma mt_region (g g' : gen) u ops : in_region (with_table (mret tt)) g = Ok (u, ops) g' -> u = [] /\ ops = [].
Proof. unfold in_region, with_table, mbind, gen_bind, modify, get. cbn. by intros [= <- <- _]. Qed.

Lemma region_frame vis g m u ops g' : inv vis g -> scoped_runs m -> in_region (with_table m) g = Ok (u, ops) g' -> frame g g'.
Proof. intros Hi [H1 H2] E. pose proof (region_spec vis g m Hi H1 H2) as H. rewrite E in H. by destruct H. Qed.

(** The branch that is taken, and the state its updates are noted from. *)
Definition taken (g : gen) (e : env) (w : W) s (m : M unit) (w' : W) s' : Prop := forall g0 u ops g1, frame g g0 ->
  in_region (with_table m) g0 = Ok (u, ops) g1 -> merges_simple ops = true -> exists e2, branch g e w s u ops e2 w' s'.

Lemma merge_sim vis g e w s c d mt me s' w' g' : ready vis g e s -> e !! c = Some d -> scoped_runs mt ->
  (forall m, me = Some m -> scoped_runs m) -> gen_ifelse (mret c) mt me g = Ok tt g' -> merges_simple (opBlock g') = true ->
  (if truth d then taken g e w s mt w' s' else match me with Some m => taken g e w s m w' s' | None => s' = s /\ w' = w end) ->
  executed vis g e w s g' w' s'.
Proof.
  intros Hr Hc Ht He Hg Hm Hb. pose proof (rd_inv _ _ _ _ Hr) as Hi.
  assert (Hcv : c ∈ cur vis g) by (eapply (rd_in _ _ _ _ Hr); exact Hc).
  pose proof (runs_ifelse {[c]} (mret c) mt me (sound_ret _ _ _ ltac:(set_solver)) Ht He vis g Hi ltac:(set_solver)) as Hx.
  rewrite Hg in Hx. destruct Hx as (Hi' & Hx & _).
  destruct (if_parts_ok _ _ _ _ _ Hg) as [(u1 & ops1 & g2 & u2 & ops2 & g3 & u1' & u2' & ts & vs1 & n1 & regions & g5 & g6 & P1 & P2 & P3 & P4 & P5 & P6 & P7 & P8 & P9 & P10)].
  assert (Hme : scoped_runs (default (mret tt) me)).
  { destruct me as [m|]; [by apply He|]. split; [apply sound_runs, sound_ret; unfold none; set_solver|by intros ? ? _]. }
  pose proof (region_frame vis _ _ _ _ _ Hi Ht P1) as F1. pose proof (region_frame vis _ _ _ _ _ (frame_inv vis _ _ Hi F1) Hme P2) as F2.
  pose proof (still_trans _ _ _ F1 F2) as F13. pose proof (still_trans _ _ _ F13 P8) as F15.
  apply merge_find in P3 as (_ & K3 & M3). apply merge_find in P4 as (_ & K4 & M4). rewrite (fr_symbols _ _ F13) in M3, M4, P5.
  pose proof (if_end_ok _ _ _ _ _ _ _ _ F15 P9 P10 P5) as Hie.
  rewrite (ie_block _ _ _ _ _ _ _ Hie), merges_app in Hm. apply andb_true_iff in Hm as [_ Hm]. cbn [merges_simple forallb op_merges] in Hm.
  rewrite andb_true_r in Hm. apply andb_true_iff in Hm as [Hsimple Hregions]. change (forallb (forallb op_merges)) with (forallb merges_simple) in Hregions.
  assert (Hkeys : Forall (fun k => is_Some (find_symbol k (symbolTable g))) (map fst u1')).
  { eapply Forall2_Forall_l; [exact P5|]. apply Forall_true. intros t k (sym & Hs & _). by eexists. }
  pose proof (Forall2_length P5) as Lts.
  assert (Hout1 : forall x sym, x ∉ map fst u1' -> find_symbol x (symbolTable g) = Some sym -> default (s_value sym) (table_find x u1) = s_value sym).
  { intros x sym Hn Hs. rewrite <- (M4 x sym Hs). destruct (table_find x u1') eqn:E; [|done]. destruct Hn. apply table_find_keys. by eexists. }
  assert (Hout2 : forall x sym, x ∉ map fst u1' -> find_symbol x (symbolTable g) = Some sym -> default (s_value sym) (table_find x u2) = s_value sym).
  { intros x sym Hn Hs. rewrite <- (M3 x sym Hs). destruct (table_find x u2') eqn:E; [|done]. destruct Hn. apply K4. left. apply table_find_keys. by eexists. }
  assert (Hrest : exists rest, regions = (ops1 ++ [GOp n1 GYield vs1 [] []]) :: rest) by (destruct P7 as [(-> & _)|(vs2 & n2 & -> & _)]; eauto).
  assert (Hm1 : merges_simple ops1 = true).
  { destruct Hrest as [rest ->]. cbn [forallb] in Hregions. rewrite merges_app in Hregions. by repeat apply andb_true_iff in Hregions as [Hregions _]. }
  destruct (truth d) eqn:Ed.
  - destruct (Hb _ _ _ _ (still_refl g) P1 Hm1) as [e2 B]. destruct (yield_branch g e w s u1 u1' ops1 e2 w' s' _ vs1 n1 B M4 Hkeys P6) as (rs & Hrun & Hrs).
    destruct Hrest as [rest ->]. pose proof (Forall2_length Hrs) as Lrs.
    eapply (if_ready vis g e w s c ts _ _ g5 g' rs u1 ops1 e2 w' s' Hr Hie (fr_next _ _ F15) Hsimple Hi' Hx B Hout1); [|congruence|exact Hrs].
    eapply run_if_then; [done|done|exact Hrun|congruence].
  - destruct P7 as [(-> & Hk & ->)|(vs2 & n2 & -> & P7)].
    + destruct Hb as [-> ->]. rewrite Hk in Lts. destruct ts; [|done].
      eapply (if_ready vis g e w s c [] _ _ g5 g' [] [] [] e w s Hr Hie (fr_next _ _ F15) eq_refl Hi' Hx (no_branch _ _ _ _ _ Hr));
        [done|by eapply run_if_none|done|by rewrite Hk].
    + cbn [forallb] in Hregions. rewrite !merges_app in Hregions.
      assert (Hm2 : merges_simple ops2 = true) by (apply andb_true_iff in Hregions as [_ H]; by repeat apply andb_true_iff in H as [H _]).
      assert (B : exists e2, branch g e w s u2 ops2 e2 w' s').
      { destruct me as [m|]; [exact (Hb _ _ _ _ F1 P2 Hm2)|]. destruct Hb as [-> ->]. apply mt_region in P2 as [-> ->]. exists e. by eapply no_branch. }
      destruct B as [e2 B]. destruct (yield_branch g e w s u2 u2' ops2 e2 w' s' _ vs2 n2 B M3 Hkeys P7) as (rs & Hrun & Hrs).
      pose proof (Forall2_length Hrs) as Lrs.
      eapply (if_ready vis g e w s c ts _ _ g5 g' rs u2 ops2 e2 w' s' Hr Hie (fr_next _ _ F15) Hsimple Hi' Hx B Hout2); [|congruence|exact Hrs].
      eapply run_if_else; [done|done|exact Hrun|congruence].
Qed.

(** ** Statements *)

Lemma scoped_block l : scoped_runs (in_scope (_ ← mapM_ gen_stmt l; mret tt)).
Proof.
  assert (H : forall need, runs need (_ ← mapM_ gen_stmt l; mret tt) none).
  { intros need. eapply runs_bind; [apply runs_list; intros; apply runs_stmt|]. intros ?. apply sound_runs, sound_ret. unfold none. set_solver. }
  split; [apply runs_scope, H|apply scoped_scope, H].
Qed.

Lemma taken_block vis g e w s l s' w' : Forall stmt_ok l -> ready vis g e s -> exec_block s l w = Some (s', w') ->
  taken g e w s (in_scope (_ ← mapM_ gen_stmt l; mret tt)) w' s'.
Proof.
  intros Hl Hr He g0 u ops g1 Hf Hg Hm.
  destruct (region_branch vis g0 e w s l u ops g1 s' w' Hl (ready_frame _ _ _ _ _ w Hr Hf) Hg Hm He) as [e2 B]. exists e2.
  eapply branch_symbols; [apply Hf|exact B].
Qed.

Lemma exec_if s loc c t f w : exec s (IfElseExprAST loc c (Some t) f) w =
  '(d, _, _, w) ← eval sem s c w;
  if truth d then exec_block s t w else match f with Some l => exec_block s l w | None => Some (s, w) end.
Proof. reflexivity. Qed.

Lemma if_sim loc c t f : Forall stmt_ok t -> Forall stmt_ok (default [] f) -> stmt_ok (IfElseExprAST loc c (Some t) f).
Proof.
  intros Ht Hf vis g e w s g' s' w' Hr Hg He Hm. rewrite exec_if in He. opt (eval sem s c w) as [[[[d td] lit] w1]|] by Ec in He.
  cbn [gen_stmt] in Hg. unfold gen_ifelse in Hg. apply bind_ok in Hg as (v & g1 & Hv & Hg).
  destruct (ready_eval sem truth _ _ _ _ _ _ _ _ _ _ _ _ Hr Hv Ec) as (e1 & S1 & Q1 & R1 & V1).
  assert (Hg' : gen_ifelse (mret v) (in_scope (_ ← mapM_ gen_stmt t; mret tt))
    (match f with Some l => Some (in_scope (_ ← mapM_ gen_stmt l; mret tt)) | None => None end) g1 = Ok tt g') by exact Hg. clear Hg.
  assert (Hsc : forall m, (match f with Some l => Some (in_scope (_ ← mapM_ gen_stmt l; mret tt)) | None => None end) = Some m -> scoped_runs m).
  { intros m. destruct f; [intros [= <-]; apply scoped_block|done]. }
  destruct (merge_sim vis g1 e1 w1 s v d _ _ s' w' g' R1 (vo_env _ _ _ _ _ V1) (scoped_block t)
    Hsc Hg' Hm) as (e2 & S2 & R2 & L2).
  - destruct (truth d); [by eapply taken_block|]. destruct f as [l|]; [by eapply taken_block|]. by injection He as <- <-.
  - exists e2. split; [by eapply steps_trans|]. done.
Qed.

Lemma value_stmt vis g e w s x g' d t lit w' : ready vis g e s -> (_ ← gen_expr x; mret tt) g = Ok tt g' ->
  eval sem s x w = Some (d, t, lit, w') -> executed vis g e w s g' w' s.
Proof.
  intros Hr Hg He. apply bind_ok in Hg as (v & g1 & Hv & Hg). apply ret_ok in Hg as [_ ->].
  destruct (ready_eval sem truth _ _ _ _ _ _ _ _ _ _ _ _ Hr Hv He) as (e1 & S1 & Q1 & R1 & V1). by eapply executed_quiet.
Qed.

Lemma stmt_sim x : stmt_ok x.
Proof.
  induction x as [x IH] using expr_ind. destruct x as [loc n| | | | |p|d| | |loc op l r|loc p args ins outs|loc c t f]; try done.
  - intros vis g e w s g' s' w' Hr Hg He _. cbn [MlirGenSem.exec] in He.
    opt (eval sem s (NumberExprAST loc n) w) as [[[[d t] b] w1]|] by E in He. injection He as <- <-. by eapply value_stmt.
  - intros vis g e w s g' s' w' Hr Hg He _. cbn [MlirGenSem.exec] in He.
    opt (eval sem s (PathExpr p) w) as [[[[d t] b] w1]|] by E in He. injection He as <- <-. by eapply value_stmt.
  - intros vis g e w s g' s' w' Hr Hg He _. cbn [MlirGenSem.exec gen_stmt] in He, Hg.
    apply bind_ok in Hg as (v & g1 & Hv & Hg). apply ret_ok in Hg as [_ ->]. by eapply decl_sim.
  - intros vis g e w s g' s' w' Hr Hg He _. cbn [MlirGenSem.exec] in He. destruct (Z.eqb_spec op Lexer.tok_eq) as [->|Hne].
    + cbn [gen_stmt] in Hg. apply bind_ok in Hg as (v & g1 & Hv & Hg). apply ret_ok in Hg as [_ ->]. cbn [gen_expr] in Hv.
      by eapply assign_sim.
    + opt (eval sem s (BinaryExprAST loc op l r) w) as [[[[d t] b] w1]|] by E in He. injection He as <- <-. by eapply value_stmt.
  - intros vis g e w s g' s' w' Hr Hg He _. cbn [MlirGenSem.exec] in He. destruct ins; [|done]. destruct outs; [|done].
    destruct (bool_decide _).
    + opt (eval sem s (CallExprAST loc p args [] []) w) as [[[[d t] b] w1]|] by E in He. injection He as <- <-. by eapply value_stmt.
    + cbn [gen_stmt] in Hg. apply bind_ok in Hg as (v & g1 & Hv & Hg). apply ret_ok in Hg as [_ ->]. cbn [gen_expr] in Hv.
      by eapply call_sim.
  - cbn [children] in IH. inversion_clear IH as [|? ? _ IH']. apply Forall_app in IH' as [Ht Hf]. destruct t as [t|]; [|done]. by apply if_sim.
Qed.

End Control.
End MlirGenControl.
