(* ===== verification/MlirGenModule.v ===== *)
(** Functions and modules of the ep2 generator: every function MLIRGen.cpp builds has the
    effect its source says (MlirGenControl has the statements), and what it does with
    programs outside that reading. *)
From Stdlib Require Import ZArith Lia List String.
From stdpp Require Import base list numbers option gmap sets strings countable.
From S2P Require Import Prelude Lexer Ast Parser Ir MlirGen MlirGenSsa MlirGenSem MlirGenCorrect MlirGenControl.
Import Ast Ir MlirGen MlirGenSsa MlirGenSem MlirGenCorrect MlirGenControl.
#[local] Open Scope Z_scope.

Module MlirGenModule.

(** ** Types that do not depend on the structs *)

Lemma plain_var_type structs t t' : getVarType ∅ t = Some t' -> simple t' || table t' = true -> getVarType structs t = Some t'.
Proof.
  destruct t as [name ps]. cbn [getVarType]. repeat match goal with
    | |- context [if String.eqb name ?s then _ else _] => destruct (String.eqb name s); [try done|] end; try done.
  - destruct ps as [|[|[k|]] [|[|[v|]] [|[n'|] [|]]]]; try done. destruct (getVarType ∅ k) as [tk|] eqn:Ek; [|done].
    destruct (getVarType ∅ v) as [tv|] eqn:Ev; [|done]. cbn. intros [= <-]. cbn. destruct tk; try done. destruct tv; try done. intros _.
    apply (declared_integer structs) in Ek as [-> _]. by apply (declared_integer structs) in Ev as [-> _].
  - cbn. rewrite lookup_empty. by intros [= <-].
Qed.

(** ** Globals *)

(** The tables of the records so far, in the symbol table. *)
Definition tables_known (vis : gset value) (g : gen) (m : gmap string ty) : Prop := forall x t, m !! x = Some t -> table t = true /\
  exists sym, find_symbol x (symbolTable g) = Some sym /\ (exists id i ops, s_value sym = OpResult id i /\ opTable g !! id = Some (GGlobal x, ops)) /\
    types g !! s_value sym = Some t /\ s_value sym ∈ vis /\ s_type sym = t.

Lemma tables_after vis g g' m : top vis g -> after_record g g' -> tables_known vis g m -> tables_known vis g' m.
Proof.
  intros Ht [A1 A2 A3] Hm x t Hx. destruct (Hm x t Hx) as (Htt & sym & S1 & (id & i & ops & S2 & S2') & S3 & S4 & S5). split; [done|].
  pose proof (top_cur _ _ Ht) as Hc. assert (Hid : (id < nextId g)%nat).
  { eapply (inv_fresh _ _ (top_inv _ _ Ht)). rewrite Hc, <- S2. exact S4. }
  destruct (A3 id Hid) as [K1 K2]. exists sym. rewrite A1. split; [done|]. split; [exists id, i, ops; by rewrite K1|].
  rewrite S2 in *. split; [|done]. apply K2; [done|by destruct t].
Qed.

Lemma global_known vis g g' (d : VarDeclExprAST ExprAST) t v m : top vis g ->
  ('(v, _) ← in_region (create (GGlobal (d_name d)) [] t); _ ← declare (d_name d) (d_type d) v; mret v) g = Ok v g' ->
  tables_known vis g m -> tables_known (vis ∪ {[v]}) g' m /\ (table t = true -> tables_known (vis ∪ {[v]}) g' (<[d_name d := t]> m)).
Proof.
  intros Ht Hg Hm. unfold in_region, create, declare, lookup_symbol, mbind, gen_bind in Hg. cbn in Hg.
  destruct (find_symbol (d_name d) (symbolTable g)) as [|] eqn:Ef; [done|]. destruct (symbolTable g) as [|s ss] eqn:Es; [done|].
  cbn in Hg. rewrite <- !insert_union_l, (left_id_L ∅ (∪)) in Hg. unfold insert_symbol in Hg. cbn in Hg. rewrite lookup_insert_eq in Hg. injection Hg as <- <-.
  assert (Hold : tables_known (vis ∪ {[OpResult (nextId g) 0]}) (with_symbols (<[d_name d := Symbol (OpResult (nextId g) 0) t (d_type d)]> s :: ss)
      (with_block (opBlock g) (Gen (S (nextId g)) (<[nextId g := (GGlobal (d_name d), [])]> (opTable g)) (<[OpResult (nextId g) 0 := t]> (types g))
        (s :: ss) (updateTables g) (structMap g) (functionMap g) [GOp (nextId g) (GGlobal (d_name d)) [] [t] []]))) m).
  { intros x t' Hx. destruct (Hm x t' Hx) as (Htt & sym & S1 & (id & i & ops & S2 & S2') & S3 & S4 & S5). split; [done|].
    pose proof (top_cur _ _ Ht) as Hc. assert (Hid : (id < nextId g)%nat) by (eapply (inv_fresh _ _ (top_inv _ _ Ht)); rewrite Hc, <- S2; exact S4).
    exists sym. cbn. rewrite Es in S1. split; [|split; [|split; [|split]]].
    - destruct (decide (x = d_name d)) as [->|Hne]; [cbn in Ef; cbn in S1; congruence|]. by rewrite lookup_insert_ne by done.
    - exists id, i, ops. split; [done|]. by rewrite lookup_insert_ne by lia.
    - rewrite lookup_insert_ne; [done|]. rewrite S2. intros [= E _]. lia.
    - set_solver.
    - done. }
  split; [exact Hold|]. intros Et x t' Hx. apply lookup_insert_Some in Hx as [[<- <-]|[Hne Hx]]; [|by apply Hold].
  split; [done|]. eexists. cbn. rewrite lookup_insert_eq. split; [done|]. cbn. split; [|split; [|split; [set_solver|done]]].
  - eexists _, _, _. split; [done|]. by rewrite lookup_insert_eq.
  - by rewrite lookup_insert_eq.
Qed.

(** ** Records *)

Definition handlers (rs : list RecordAST) : list (PrototypeAST * ExprASTList) :=
  omap (fun r => match r_body r with FunctionAST p body => Some (p, body) | _ => None end) rs.
Definition functions (items : list gitem) : list gfunc := omap (fun i => match i with FuncItem f => Some f | _ => None end) items.

Record modeled (vis : gset value) (g : gen) (rs : list RecordAST) : Prop := Modeled {
  mo_top : top vis g; mo_tables : tables_known vis g (tables rs) }.

Lemma tables_snoc rs r : tables (rs ++ [r]) = add_table (tables rs) r.
Proof. unfold tables. by rewrite foldl_app. Qed.

Lemma record_modeled vis g rs scopes r scopes' items g' : modeled vis g rs -> gen_record scopes r g = Ok (scopes', items) g' ->
  modeled (vis ∪ globals_of items) g' (rs ++ [r]) /\ length (functions items) = length (handlers [r]).
Proof.
  intros [Ht Hm] Hg. pose proof (record_spec vis g scopes r Ht) as Hs. rewrite Hg in Hs. destruct Hs as [Ht' _].
  unfold gen_record in Hg.
  assert (E0 : vis ∪ globals_of [] = vis) by (cbn; set_solver).
  enough (tables_known (vis ∪ globals_of items) g' (tables (rs ++ [r])) /\ length (functions items) =
    length (handlers [r])) as [H1 H2] by (split; [by split|exact H2]).
  rewrite tables_snoc. unfold add_table, handlers. cbn [omap list_omap]. destruct (r_body r) as [p body|ev loc name vars|loc name hs key|loc name d].
  - apply bind_ok in Hg as (f & g1 & Hf & Hg). pose proof (function_spec vis g p body Ht) as Hs. rewrite Hf in Hs.
    destruct Hs as (Ht1 & _ & Ha & _). apply bind_ok in Hg as ([] & g2 & H2 & Hg). injection H2 as <-.
    destruct (record_attrs _ _ _) as [attrs|]; [|done]. apply ret_ok in Hg as [[= -> ->] ->]. split; [|done].
    cbn. rewrite (left_id_L ∅ (∪)), (right_id_L ∅ (∪)).
    pose proof (tables_after _ _ _ _ Ht Ha Hm) as Hm'. by destruct (functionMap g1 !! gf_name f).
  - apply bind_ok in Hg as ([] & g1 & Hs & Hg). apply ret_ok in Hg as [[= -> ->] ->]. rewrite E0. split; [|done].
    unfold gen_struct in Hs. apply bind_ok in Hs as (o & g2 & Ho & Hs). injection Ho as <- <-. destruct (structMap g !! name); [done|].
    apply bind_ok in Hs as (ts & g2 & H2 & Hs). apply (reads_all _ (fun _ _ => True)) in H2 as [-> _].
    + injection Hs as <-. exact Hm.
    + intros d t g2' Hd. destruct (initVal d); [done|]. pose proof (required_reads (d_type d) g) as Hr. rewrite Hd in Hr. destruct Hr. done.
  - apply ret_ok in Hg as [[= -> ->] ->]. by rewrite E0.
  - apply bind_ok in Hg as (t & g1 & Hty & Hg). unfold var_type in Hty. destruct (getVarType (structMap g) (d_type d)) as [t0|] eqn:Et; [|done].
    injection Hty as -> <-. apply bind_ok in Hg as ([v ops] & g1 & H1 & Hg). apply bind_ok in Hg as ([] & g2 & H2 & Hg).
    assert (Hv : ('(v, _) ← in_region (create (GGlobal (d_name d)) [] t); _ ← declare (d_name d) (d_type d) v; mret v) g = Ok v g2).
    { unfold mbind, gen_bind in *. rewrite H1. by rewrite H2. }
    destruct (record_attrs _ _ _) as [attrs|]; [|done]. destruct v as [|id i]; [done|]. apply ret_ok in Hg as [[= -> ->] ->]. split; [|done].
    pose proof (global_spec vis g d t Ht) as Hgs. rewrite Hv in Hgs. destruct Hgs as [[= Eid Ei] _]. subst id i.
    destruct (global_known _ _ _ _ _ _ _ Ht Hv Hm) as [Hk Hk']. cbn. rewrite (right_id_L ∅ (∪)).
    destruct (getVarType ∅ (d_type d)) as [t'|] eqn:Et'; [|exact Hk]. destruct (table t') eqn:Ett; [|exact Hk].
    rewrite (plain_var_type (structMap g) _ _ Et') in Et by (by rewrite Ett, orb_true_r). injection Et as ->. by apply Hk'.
Qed.
(** ** Arguments *)

Abbreviation declare_arg := (fun '(i, (d, t)) => _ ← modify (with_type (BlockArg 0 i) t); declare (d_name d) (d_type d) (BlockArg 0 i)).

(** The symbols and types of the arguments, once declared over the scopes [ss]. *)
Record args_declared (l : list (nat * (VarDeclExprAST ExprAST * ty))) (g g' : gen) (m m' : gmap string symbol) (ss : list (gmap string symbol)) : Prop := ArgsDeclared {
  ad_symbols : symbolTable g' = m' :: ss;
  ad_old : forall x sym, m !! x = Some sym -> m' !! x = Some sym;
  ad_new : forall i d t, (i, (d, t)) ∈ l -> m' !! d_name d = Some (Symbol (BlockArg 0 i) t (d_type d)) /\ find_symbol (d_name d) ss = None;
  ad_all : forall x sym, m' !! x = Some sym -> m !! x = Some sym \/ exists i d t, (i, (d, t)) ∈ l /\ x = d_name d /\ s_value sym = BlockArg 0 i;
  ad_types : forall i d t, (i, (d, t)) ∈ l -> types g' !! BlockArg 0 i = Some t;
  ad_others : forall v, (forall i, i ∈ map fst l -> v <> BlockArg 0 i) -> types g' !! v = types g !! v;
  ad_names : forall i d t, (i, (d, t)) ∈ l -> m !! d_name d = None }.

Lemma declare_args_ok l : NoDup (map fst l) -> forall g us g' m ss, symbolTable g = m :: ss -> mapM_ declare_arg l g = Ok us g' ->
  exists m', args_declared l g g' m m' ss.
Proof.
  induction l as [|[i [d t]] l IH]; intros Hnd g us g' m ss Hs Hg; cbn [mapM_] in Hg.
  { apply ret_ok in Hg as [_ ->]. exists m. assert (Hnil : forall p (P : Prop), p ∈ @nil (nat * (VarDeclExprAST ExprAST * ty)) -> P) by (by intros ? ? ?%elem_of_nil).
    split; [done|done|..]; try (intros i d t Hin; by eapply Hnil in Hin); [by left|done]. }
  inversion_clear Hnd as [|? ? Hi Hnd']. apply bind_ok in Hg as ([] & g1 & H1 & Hg). apply bind_ok in Hg as (us' & g2 & H2 & Hg).
  apply ret_ok in Hg as [_ ->]. unfold mbind, gen_bind in H1. cbn [modify] in H1. unfold declare, lookup_symbol, getType, insert_symbol, mbind, gen_bind, get in H1.
  change (symbolTable (with_type (BlockArg 0 i) t g)) with (symbolTable g) in H1. rewrite Hs in H1.
  destruct (find_symbol (d_name d) (m :: ss)) eqn:Ef; [done|]. cbn in H1. rewrite lookup_insert_eq in H1. rewrite Hs in H1. injection H1 as <-.
  cbn in Ef. destruct (m !! d_name d) eqn:Em; [done|].
  pose proof (fun E => IH Hnd' _ _ _ (<[d_name d := Symbol (BlockArg 0 i) t (d_type d)]> m) ss E H2) as IH'.
  destruct (IH' eq_refl) as [m' [D1 D2 D3 D4 D5 D6 D7]]. exists m'. split.
  - exact D1.
  - intros x sym Hx. apply D2. rewrite lookup_insert_ne; [done|]. intros E. rewrite E in Em. congruence.
  - intros i0 d0 t0 [[= -> -> ->]|Hin]%elem_of_cons; [|by apply D3]. split; [|done]. apply D2. by rewrite lookup_insert_eq.
  - intros x sym Hx. destruct (D4 x sym Hx) as [H|(i0 & d0 & t0 & Hin & Hv)].
    + apply lookup_insert_Some in H as [[<- <-]|[_ H]]; [|by left]. right. exists i, d, t. split; [by left|done].
    + right. exists i0, d0, t0. split; [by right|done].
  - intros i0 d0 t0 [[= -> -> ->]|Hin]%elem_of_cons; [|by eapply D5]. rewrite D6; [cbn; by rewrite lookup_insert_eq|].
    intros j Hj [= E]. by rewrite E in Hi.
  - intros v Hv. rewrite D6 by (intros j Hj; apply Hv; by right). cbn. rewrite lookup_insert_ne; [done|]. intros E. by apply (Hv i); [left|].
  - intros i0 d0 t0 [[= -> -> ->]|Hin]%elem_of_cons; [done|]. specialize (D7 _ _ _ Hin). by apply lookup_insert_None in D7 as [? _].
Qed.

Section Functions.
Context {D W : Type}.
Context (sem : gkind -> list D -> list ty -> W -> option (list D * W)) (truth : D -> bool).
Context (Hcast : casts_pure sem).
Abbreviation env := (gmap value D).

Lemma arg_scope_lookup ps : forall ds (m : gmap string (@binding D)) x b, arg_scope ps ds = Some m -> m !! x = Some b ->
  exists i p d t, ps !! i = Some p /\ ds !! i = Some d /\ d_name p = x /\ getVarType ∅ (d_type p) = Some t /\ simple t = true /\ b = Local d t.
Proof.
  induction ps as [|p ps IH]; intros [|d ds] m x b H Hx; cbn [arg_scope] in H; try done.
  - injection H as <-. by rewrite lookup_empty in Hx.
  - opt (getVarType ∅ (d_type p)) as [t|] by Et in H. opt (arg_scope ps ds) as [m0|] by Em in H. destruct (simple t) eqn:Est; [|done].
    injection H as <-. apply lookup_insert_Some in Hx as [[<- <-]|[_ Hx]]; [by exists 0%nat, p, d, t|].
    destruct (IH _ _ _ _ Em Hx) as (i & p' & d' & t' & H). by exists (S i), p', d', t'.
Qed.

Lemma arg_scope_length ps : forall ds (m : gmap string (@binding D)), arg_scope ps ds = Some m -> length ds = length ps.
Proof.
  induction ps as [|p ps IH]; intros [|d ds] m H; cbn [arg_scope] in H; try done.
  opt (getVarType ∅ (d_type p)) as [t|] by Et in H. opt (arg_scope ps ds) as [m0|] by Em in H. cbn. by rewrite (IH _ _ Em).
Qed.

Definition args_env (args : list D) : env := list_to_map (imap (fun i a => (BlockArg 0 i, a)) args).
Lemma args_lookup args v : args_env args !! v = match v with BlockArg 0 i => args !! i | _ => None end.
Proof.
  assert (Hnd : NoDup (imap (fun i (r : D) => (BlockArg 0 i, r)) args).*1).
  { rewrite fmap_imap. apply NoDup_alt. intros i j x. rewrite !list_lookup_imap. destruct (args !! i), (args !! j); cbn; try done.
    by intros [= <-] [= ->]. }
  unfold args_env. destruct (list_to_map _ !! v) as [a|] eqn:E.
  - apply elem_of_list_to_map_2, elem_of_lookup_imap in E as (i & r & [= -> ->] & Hi). done.
  - destruct v as [[|b] j|]; try done. destruct (args !! j) as [r|] eqn:Ej; [|done].
    apply not_elem_of_list_to_map_2 in E. destruct E. apply list_elem_of_fmap. exists (BlockArg 0 j, r). split; [done|].
    apply elem_of_lookup_imap. eauto.
Qed.

(** ** Functions *)

Lemma arg_index (ps : list (VarDeclExprAST ExprAST)) (ts : list ty) i d t : (i, (d, t)) ∈ imap pair (zip ps ts) <-> ps !! i = Some d /\ ts !! i = Some t.
Proof.
  rewrite elem_of_lookup_imap. split.
  - intros (j & [d' t'] & [= -> -> ->] & H). apply lookup_zip_with_Some in H as (? & ? & [= -> ->] & H1 & H2). done.
  - intros [H1 H2]. exists i, (d, t). split; [done|]. apply lookup_zip_with_Some. eauto 10.
Qed.

Lemma body_ready vis g p ts ga rs args genv (m : gmap string (@binding D)) : modeled vis g rs ->
  declare_args (pr_args p) ts (body_start g) = Ok tt ga -> Forall2 (fun d t => getVarType (structMap g) (d_type d) = Some t) (pr_args p) ts ->
  dom genv = vis -> arg_scope (pr_args p) args = Some m ->
  ready (vis ∪ args_values (length ts)) ga (args_env args ∪ genv) [m; Global <$> tables rs] /\ opBlock ga = [] /\ updateTables ga = [].
Proof.
  intros [Ht Hm] Hd Hts Hdom Ha. pose proof (body_start_inv vis g (length ts) Ht) as Hi0.
  pose proof (declare_args_spec _ _ (pr_args p) ts Hi0 ltac:(set_solver)) as Hds. rewrite Hd in Hds. destruct Hds as [Hi [R1 R2 R3 R4 R5 R6]].
  unfold declare_args in Hd. apply bind_ok in Hd as (us & g1 & Hd & He). apply ret_ok in He as [_ <-].
  assert (Hnd : NoDup (map fst (imap pair (zip (pr_args p) ts)))).
  { change (NoDup ((imap pair (zip (pr_args p) ts)).*1)). rewrite fmap_imap. apply NoDup_alt. intros i j x. rewrite !list_lookup_imap.
    destruct (zip (pr_args p) ts !! i), (zip (pr_args p) ts !! j); cbn; try done. by intros [= <-] [= ->]. }
  destruct (declare_args_ok _ Hnd (body_start g) us ga ∅ (symbolTable g) eq_refl Hd) as [m' [D1 D2 D3 D4 D5 D6 D7]].
  pose proof (arg_scope_length _ _ _ Ha) as La. pose proof (Forall2_length Hts) as Lt. pose proof (top_cur _ _ Ht) as Hcur.
  assert (Hvis : vis ∪ args_values (length ts) ⊆ cur (vis ∪ args_values (length ts)) ga) by (unfold cur; set_solver).
  destruct Ht as [Hti Htb Htu]. split; [|split; [by rewrite R1|rewrite R4; exact Htu]]. split.
  - exact Hi.
  - intros v d Hv. apply Hvis. apply lookup_union_Some_raw in Hv as [Hv|[_ Hv]]; [|apply elem_of_union; left; rewrite <- Hdom; by apply elem_of_dom_2 in Hv].
    rewrite args_lookup in Hv. destruct v as [[|b] i|]; try done. apply elem_of_union. right. unfold args_values. apply elem_of_list_to_set, list_elem_of_fmap.
    exists i. split; [done|]. apply elem_of_seq. apply lookup_lt_Some in Hv. cbn. lia.
  - intros x b Hx. rewrite D1. cbn [find_var] in Hx. destruct (m !! x) as [b0|] eqn:Em.
    + injection Hx as ->. destruct (arg_scope_lookup _ _ _ _ _ Ha Em) as (i & q & d & t & Hq & Hd' & <- & Hty & Hst & ->).
      destruct (Forall2_lookup_l _ _ _ _ _ Hts Hq) as (t' & Ht' & Hty'). rewrite (plain_var_type _ _ _ Hty) in Hty' by (by rewrite Hst). injection Hty' as <-.
      assert (Hin : (i, (q, t)) ∈ imap pair (zip (pr_args p) ts)) by by apply arg_index. destruct (D3 _ _ _ Hin) as [Hs _].
      eexists. cbn [find_symbol]. rewrite Hs. split; [done|]. cbn. split; [|done]. split; cbn; [|done|by eapply D5|done|done].
      apply lookup_union_Some_l. by rewrite args_lookup.
    + rewrite lookup_fmap in Hx. destruct (tables rs !! x) as [t|] eqn:Et; [|done]. injection Hx as <-.
      destruct (Hm x t Et) as (Htt & sym & S1 & (id & i & ops & S2 & S2') & S3 & S4 & S5). exists sym. split.
      * cbn [find_symbol]. destruct (m' !! x) as [sym'|] eqn:Em'; [|done]. destruct (D4 _ _ Em') as [H|(i0 & d0 & t0 & Hin & -> & Hv)]; [by rewrite lookup_empty in H|].
        pose proof (D3 _ _ _ Hin) as [_ Hn]. congruence.
      * cbn. split; [exists id, i, ops; by rewrite R5|]. split; [rewrite S2; rewrite S2 in S3; by rewrite R6|]. split; [by destruct t|].
        split; [apply Hvis; set_solver|]. split; [done|by destruct t].
  - unfold track. rewrite R4. cbn. by rewrite Htu.
  - intros x sym Hx. rewrite D1 in Hx. cbn [find_symbol] in Hx. destruct (m' !! x) as [sym'|] eqn:Em'.
    + injection Hx as <-. destruct (D4 _ _ Em') as [H|(i0 & d0 & t0 & Hin & _ & Hv)]; [by rewrite lookup_empty in H|]. rewrite Hv.
      apply arg_index in Hin as [_ Hin]. apply lookup_lt_Some in Hin. rewrite <- Lt, <- La in Hin. apply lookup_lt_is_Some in Hin as [a Ha'].
      exists a. apply lookup_union_Some_l. by rewrite args_lookup.
    + assert (Hv : s_value sym ∈ dom genv) by (rewrite Hdom, <- Hcur; eapply find_symbol_in; [apply Hti|exact Hx]).
      apply elem_of_dom in Hv as [a Hv]. destruct (args_env args !! s_value sym) as [a'|] eqn:E.
      * exists a'. by apply lookup_union_Some_l.
      * exists a. by rewrite lookup_union_r.
  - cbn. intros x [b Hx]. destruct (arg_scope_lookup _ _ _ _ _ Ha Hx) as (i & q & d & t & Hq & _ & <- & _).
    destruct (Forall2_lookup_l _ _ _ _ _ Hts Hq) as (t' & Ht' & _).
    assert (Hin : (i, (q, t')) ∈ imap pair (zip (pr_args p) ts)) by by apply arg_index. destruct (D3 _ _ _ Hin) as [_ Hn].
    rewrite lookup_fmap. destruct (tables rs !! d_name q) as [t0|] eqn:Et; [|done]. destruct (Hm _ _ Et) as (_ & sym & S1 & _). congruence.
Qed.

Lemma scope_ready vis g (e : env) s : ready vis g e s -> updateTables g = [] -> ready vis (with_symbols (∅ :: symbolTable g) g) e (∅ :: s).
Proof.
  intros [R1 R2 R3 R4 R5 R6] Hu. split; try done.
  - destruct R1 as [H1 H2 H3 H4 H5]. split; try done. intros s0 x sy [->|Hs]%elem_of_cons Hl; [done|by eapply H2].
  - intros x b Hx. destruct (R3 x b Hx) as (sym & Hsym & Hb). exists sym. split; [done|]. destruct b; [|exact Hb].
    destruct Hb as [[B1 B2 B3 B4 B5] Ht]. done.
  - unfold track. cbn. by rewrite Hu.
  - cbn. intros x [b Hx]. by rewrite lookup_empty in Hx.
Qed.

Lemma function_correct vis g p body rs ts g1 args genv w w' : modeled vis g rs -> gen_body p body ts (body_start g) = Ok tt g1 ->
  Forall2 (fun d t => getVarType (structMap g) (d_type d) = Some t) (pr_args p) ts -> dom genv = vis -> merges_simple (opBlock g1) = true ->
  exec_function sem truth rs p body args w = Some w' -> run_region sem truth (args_env args ∪ genv) w (opBlock g1) = Some ([], w').
Proof.
  intros Hmo Hg Hts Hdom Hms He. unfold gen_body in Hg. apply bind_ok in Hg as ([] & ga & Hd & Hg). apply bind_ok in Hg as ([] & gb & Hb & Hg).
  apply bind_ok in Hg as (ops & gc & Ho & Hg). injection Ho as <- <-. unfold exec_function in He. opt (arg_scope (pr_args p) args) as [m|] by Em in He.
  destruct (body_ready _ _ _ _ _ _ _ _ _ Hmo Hd Hts Hdom Em) as (Hr & Hbl & Hup).
  unfold exec_block, leave in He. opt (exec_list sem truth (∅ :: [m; Global <$> tables rs]) body w) as [[s2 w2]|] by E in He. injection He as <-.
  unfold gen_block, in_scope, mbind, gen_bind in Hb. destruct (mapM_ gen_stmt body _) as [us g2|g2|] eqn:Eg; [|done|done]. injection Hb as <-. cbn [opBlock with_symbols] in Hg.
  assert (Hm2 : merges_simple (opBlock g2) = true).
  { destruct (is_terminated (opBlock g2)); [apply ret_ok in Hg as [_ ->]; exact Hms|]. cbn in Hg. injection Hg as <-. cbn in Hms. rewrite merges_app in Hms.
    by apply andb_true_iff in Hms as [Hms _]. }
  assert (Hall : Forall (stmt_ok sem truth) body) by (apply Forall_true; intros; by apply stmt_sim).
  destruct (list_ok sem truth Hcast body Hall _ _ _ _ _ _ _ _ _ (scope_ready _ _ _ _ Hr Hup) Eg E Hm2) as (e2 & S & _).
  destruct (st_ops _ _ _ _ _ _ _ _ _ S) as (ops & Eb & Hops). cbn in Eb. rewrite Hbl in Eb. cbn in Eb. rewrite Eb in Hg.
  destruct (is_terminated ops) eqn:Et.
  - unfold is_terminated in Et. destruct (list.last ops) as [[id [] vs tys regions]|] eqn:El; try done. apply last_Some in El as [ops' ->].
    rewrite run_ops_app in Hops. destruct (run_ops sem truth _ _ ops') as [[e3 w3]|]; [|done]. cbn in Hops. by destruct (mapM _ vs).
  - cbn in Hg. injection Hg as <-. cbn [opBlock]. cbn. rewrite Eb. rewrite (run_region_app sem truth _ _ _ _ _ _ Hops). done.
Qed.

End Functions.

(** ** Modules *)

Lemma records_correct r p body rs' : r_body r = FunctionAST p body -> forall rs vis g scopes before items g', modeled vis g before ->
  gen_records scopes (rs ++ r :: rs') g = Ok items g' -> exists pre f post g0 ts g1, items = pre ++ FuncItem f :: post /\
    length (functions pre) = length (handlers rs) /\ gf_name f = getMangledName p /\ modeled (vis ∪ globals_of pre) g0 (before ++ rs) /\
    gen_body p body ts (body_start g0) = Ok tt g1 /\ Forall2 (fun d t => getVarType (structMap g0) (d_type d) = Some t) (pr_args p) ts /\
    gf_body f = opBlock g1.
Proof.
  intros Hr rs. induction rs as [|r0 rs IH]; intros vis g scopes before items g' Hm Hg; cbn [app gen_records] in Hg.
  - apply bind_ok in Hg as ([scopes' items1] & g1 & H1 & Hg). apply bind_ok in Hg as (items2 & g2 & H2 & Hg). apply ret_ok in Hg as [-> ->].
    unfold gen_record in H1. rewrite Hr in H1. apply bind_ok in H1 as (f & g3 & Hf & H1). pose proof (function_spec vis g p body (mo_top _ _ _ Hm)) as Hs.
    assert (Hname : gf_name f = getMangledName p).
    { unfold gen_function, in_scope, mbind, gen_bind in Hf. destruct (mapM_ _ (pr_args p) _) as [ts gt|gt|]; [|done|done].
      destruct (in_region _ gt) as [[u ops] gt'|gt'|]; [|done|done]. by injection Hf as <- _. }
    rewrite Hf in Hs. destruct Hs as (_ & _ & _ & ts & gb & _ & Hts & Hb & Hbody). apply bind_ok in H1 as ([] & g4 & _ & H1).
    destruct (record_attrs _ _ _) as [attrs|]; [|done]. apply ret_ok in H1 as [[= -> ->] ->].
    eexists [], _, items2, g, ts, gb. cbn. rewrite (right_id_L ∅ (∪)), app_nil_r. done.
  - apply bind_ok in Hg as ([scopes' items1] & g1 & H1 & Hg). apply bind_ok in Hg as (items2 & g2 & H2 & Hg). apply ret_ok in Hg as [-> ->].
    destruct (record_modeled _ _ _ _ _ _ _ _ Hm H1) as [Hm1 Hl].
    destruct (IH _ _ _ _ _ _ Hm1 H2) as (pre & f & post & g0 & ts & gb & -> & Hlen & Hname & Hm0 & Hb & Hts & Hbody).
    exists (items1 ++ pre), f, post, g0, ts, gb. rewrite <- !app_assoc in *. split; [done|]. split.
    + unfold functions, handlers in *. rewrite omap_app, length_app, Hl, Hlen. change (r0 :: rs) with ([r0] ++ rs). by rewrite omap_app, length_app.
    + split; [done|]. split; [|done]. unfold globals_of in *. rewrite map_app, union_list_app_L. rewrite <- (assoc_L (∪)) in Hm0. exact Hm0.
Qed.

(** C16: Every function of a module MLIRGen accepts has its item, at its place
    among the functions and under its mangled name, and the operations built for
    it do what its source says: whatever the meaning of the primitive operations
    (a width cast having no effect), if the handler, read directly over named
    variables (declarations, assignments, arithmetic and comparisons, context
    fields, buffers, table lookups and updates, nested conditionals), takes a
    world to another, then so does running the generated operations on the same
    arguments. The handler assigns to no table in a conditional. *)
Theorem mlirGen_correct m items g rs r p body rs' : mlirGen m = Ok items g -> m = rs ++ r :: rs' -> r_body r = FunctionAST p body ->
  exists pre f post, items = pre ++ FuncItem f :: post /\ length (functions pre) = length (handlers rs) /\ gf_name f = getMangledName p /\
    forall (D W : Type) (sem : gkind -> list D -> list ty -> W -> option (list D * W)) (truth : D -> bool) globals args w w',
      casts_pure sem -> merges_simple (gf_body f) = true -> dom globals = globals_of pre ->
      exec_function sem truth rs p body args w = Some w' -> run_func sem truth globals f args w = Some w'.
Proof.
  intros Hg -> Hr. unfold mlirGen, in_scope in Hg.
  destruct (gen_records ∅ (rs ++ r :: rs') _) as [items' g'|g'|] eqn:E; [|done|done]. injection Hg as -> _.
  assert (Hm : modeled ∅ (with_symbols (∅ :: symbolTable start) start) []) by (split; [exact start_top|by intros x t H]).
  destruct (records_correct _ _ _ _ Hr rs _ _ _ _ _ _ Hm E) as (pre & f & post & g0 & ts & g1 & -> & Hlen & Hname & Hm0 & Hb & Hts & Hbody).
  exists pre, f, post. split; [done|]. split; [done|]. split; [done|]. intros D W sem truth globals args w w' Hc Hms Hdom He.
  unfold run_func. fold (args_env args). rewrite (left_id_L ∅ (∪)) in Hm0. cbn in Hm0. rewrite Hbody in *.
  by rewrite (function_correct sem truth Hc _ _ _ _ _ _ _ _ globals _ _ Hm0 Hb Hts Hdom Hms He).
Qed.
(** ** An example *)

Definition module_of (text : string) : ModuleAST := match Parser.parse text with Lexer.Ok (Some m, _) => m | _ => [] end.

Definition demo_text : string := "global table <bits<16>, bits<32>, 4> tab;
handler h (context ctx, bits<16> k, buf b) {
  bits<32> n; bits<32> m;
  n = tab.lookup(k);
  m = 1;
  b.extract(m);
  if (n < 10) {
    n = n + m;
    tab.update(k, n);
  } else {
    if (m == 3) { n = 0; } else { m = n - 2; }
    ctx.last = m;
  }
  n = n + m;
  ctx.sum = n;
  b.emit(n);
}"%string.
Definition demo : ModuleAST := module_of demo_text.
Definition demo_items : list gitem := match mlirGen demo with Ok items _ => items | _ => [] end.

(** A meaning for the operations of the example: fields, one table, bytes in and out. *)
Inductive datum := Num (n : Z) | Field (name : string) | Object (name : string).
Record world := World { w_fields : gmap string Z; w_entries : gmap Z Z; w_input : list Z; w_output : list Z }.

Definition demo_sem (k : gkind) (args : list datum) (ts : list ty) (w : world) : option (list datum * world) :=
  match k, args, ts with
  | GConstant (IntAttr n), [], _ => Some ([Num n], w)
  | GBitCast, [d], [IntegerType b] => Some ([match d with Num n => Num (wrap b n) | _ => d end], w)
  | GAdd, [Num a; Num b], [IntegerType n] => Some ([Num (wrap n (a + b))], w)
  | GSub, [Num a; Num b], [IntegerType n] => Some ([Num (wrap n (a - b))], w)
  | GCmp 60, [Num a; Num b], _ => Some ([Num (if a <? b then 1 else 0)], w)
  | GCmp 40, [Num a; Num b], _ => Some ([Num (if a =? b then 1 else 0)], w)
  | GContextRef f, [Object _], _ => Some ([Field f], w)
  | GLoad, [Field f], _ => Some ([Num (default 0 (w_fields w !! f))], w)
  | GStore, [Field f; Num d], [] => Some ([], World (<[f := d]> (w_fields w)) (w_entries w) (w_input w) (w_output w))
  | GNop, [], _ | GInit, [], _ => Some ([Num 0], w)
  | GGlobalImport x, [], _ => Some ([Object x], w)
  | GLookup, [Object _; Num key], _ => Some ([Num (default 0 (w_entries w !! key))], w)
  | GUpdate, [Object _; Num key; Num d], [] => Some ([], World (w_fields w) (<[key := d]> (w_entries w)) (w_input w) (w_output w))
  | GExtract, [Object _], _ =>
      match w_input w with
      | x :: l => Some ([Num x], World (w_fields w) (w_entries w) l (w_output w))
      | [] => None
      end
  | GEmit, [Object _; Num d], [] => Some ([], World (w_fields w) (w_entries w) (w_input w) (w_output w ++ [d]))
  | _, _, _ => None
  end.
Definition demo_truth (d : datum) : bool := match d with Num n => negb (n =? 0) | _ => false end.

Lemma demo_casts : casts_pure demo_sem.
Proof. intros d n w. cbn. by eexists. Qed.

Definition demo_world (entry input : Z) : world := World ∅ {[7 := entry]} [input] [].
Definition demo_args : list datum := [Object "ctx"; Num 7; Object "b"].

(** The handler, read directly: an entry below 10, and one above. *)
Definition demo_run (m : ModuleAST) (entry input : Z) : option world :=
  match m with
  | t :: h :: _ => match r_body h with
                   | FunctionAST p body => exec_function demo_sem demo_truth [t] p body demo_args (demo_world entry input)
                   | _ => None
                   end
  | _ => None
  end.
Example demo_below : demo_run demo 9 4 = Some (World {["sum"%string := 17]} {[7 := 13]} [] [17]).
Proof. vm_compute. reflexivity. Qed.
Example demo_above : demo_run demo 20 4 = Some (World {["last"%string := 18; "sum"%string := 38]} {[7 := 20]} [] [38]).
Proof. vm_compute. reflexivity. Qed.

Lemma demo_accepted : exists g, mlirGen demo = Ok demo_items g.
Proof.
  assert (H : match mlirGen demo with Ok _ _ => true | _ => false end = true) by (vm_compute; reflexivity).
  unfold demo_items. destruct (mlirGen demo) as [items g|g|]; [eauto|discriminate..].
Qed.
Lemma demo_merges pre f post : demo_items = pre ++ FuncItem f :: post -> merges_simple (gf_body f) = true.
Proof.
  intros E. assert (H : forallb (fun f => merges_simple (gf_body f)) (functions demo_items) = true) by (vm_compute; reflexivity).
  rewrite E in H. unfold functions in H. rewrite omap_app, forallb_app in H. apply andb_true_iff in H as [_ H]. cbn in H.
  by apply andb_true_iff in H as [H _].
Qed.

Lemma demo_shape m w : demo_run m 20 4 = Some w -> exists t h rs p body, m = [t] ++ h :: rs /\ r_body h = FunctionAST p body /\
  exec_function demo_sem demo_truth [t] p body demo_args (demo_world 20 4) = Some w.
Proof.
  unfold demo_run. destruct m as [|t [|h rs]]; [done|done|]. destruct (r_body h) as [p body| | |] eqn:Er; [|done..]. intros H.
  by exists t, h, rs, p, body.
Qed.

Lemma mlirGen_correct_witness : exists pre f post, demo_items = pre ++ FuncItem f :: post /\
  run_func demo_sem demo_truth (gset_to_gmap (Num 0) (globals_of pre)) f demo_args (demo_world 20 4) =
    Some (World {["last"%string := 18; "sum"%string := 38]} {[7 := 20]} [] [38]).
Proof.
  destruct demo_accepted as [g Hg]. destruct (demo_shape _ _ demo_above) as (t & h & rs & p & body & Em & Er & Hrun).
  destruct (mlirGen_correct _ _ _ [t] h p body rs Hg Em Er) as (pre & f & post & E & _ & _ & H). exists pre, f, post. split; [exact E|].
  apply H; [exact demo_casts|exact (demo_merges _ _ _ E)|apply dom_gset_to_gmap|exact Hrun].
Defined.

(** ** Programs outside that reading *)

(** Whether a program is accepted ([Ok]), refused ([Fail]) or crashes the compiler. *)
Inductive verdict := Accepted (bodies : list (list gop)) | Refused | Crashes.
Definition compile (text : string) : verdict :=
  match mlirGen (module_of text) with
  | Ok items _ => Accepted (map gf_body (functions items))
  | Fail _ => Refused
  | Crash => Crashes
  end.

(** An argument has no operation that defines it, and both an assignment and a cast read it. *)
Lemma assign_argument_crashes : compile "handler f (context ctx, int x) { x = 1; }" = Crashes.
Proof. vm_compute. reflexivity. Qed.
Lemma cast_argument_crashes : compile "handler f (context ctx, int x) { long y; y = x; }" = Crashes.
Proof. vm_compute. reflexivity. Qed.

(** The update of a variable of the branch itself is merged after the branch. *)
Lemma branch_variable_crashes : compile "handler f (context ctx, int x) { if (x) { int y; y = 2; } }" = Crashes.
Proof. vm_compute. reflexivity. Qed.

(** A call of a function has the results of its record, of which it reads the first. *)
Lemma call_crashes : compile "handler f (context ctx, int x) { print(x); }" = Crashes.
Proof. vm_compute. reflexivity. Qed.

(** A branch without braces is no branch to the parser, and is dereferenced. *)
Lemma bare_branch_crashes : compile "handler f (context ctx, int x) { if (x) 5; }" = Crashes.
Proof. vm_compute. reflexivity. Qed.

(** Literals are 64 bits wide, and a declaration does not cast its initial value. *)
Lemma int_literal_refused : compile "handler f (context ctx) { int x = 2; }" = Refused.
Proof. vm_compute. reflexivity. Qed.

(** A product has the type of a tensor of doubles. *)
Lemma product_type : compile "handler f (context ctx, int x, int y) { ctx.a = x * y; }" =
  Accepted [[GOp 0 (GContextRef "a") [BlockArg 0 0] [ContextRefType AnyType] [];
             GOp 1 GMul [BlockArg 0 1; BlockArg 0 2] [UnrankedTensorType] [];
             GOp 2 GStore [OpResult 0 0; OpResult 1 0] [] []; GOp 3 GNop [] [NoneType] []; GOp 4 GTerminate [] [] []]].
Proof. vm_compute. reflexivity. Qed.

(** The operands of a sum may differ in width. *)
Lemma sum_widths : compile "handler f (context ctx, int x, long y) { ctx.a = x + y; }" =
  Accepted [[GOp 0 (GContextRef "a") [BlockArg 0 0] [ContextRefType AnyType] [];
             GOp 1 GAdd [BlockArg 0 1; BlockArg 0 2] [IntegerType 32] [];
             GOp 2 GStore [OpResult 0 0; OpResult 1 0] [] []; GOp 3 GNop [] [NoneType] []; GOp 4 GTerminate [] [] []]].
Proof. vm_compute. reflexivity. Qed.

(** A variable that holds a member of a struct: assigning to it updates the struct, and
    gives the variable that struct as its value. *)
Lemma member_copy : compile "struct s { int a; int b; } handler f (s q, buf x) { int y = q.a; y = 2; x.emit(y); }" =
  Accepted [[GOp 0 (GStructAccess 0) [BlockArg 0 0] [IntegerType 32] []; GOp 1 (GConstant (IntAttr 2)) [] [IntegerType 64] [];
             GOp 2 GBitCast [OpResult 1 0] [IntegerType 32] [];
             GOp 3 (GStructUpdate 0) [BlockArg 0 0; OpResult 2 0] [StructType false [IntegerType 32; IntegerType 32] "s"] [];
             GOp 4 GEmit [BlockArg 0 1; OpResult 3 0] [] []; GOp 5 GNop [] [NoneType] []; GOp 6 GTerminate [] [] []]].
Proof. vm_compute. reflexivity. Qed.

(** Extracting into a member, or setting a bit of it, makes the member the value of the
    whole struct variable. *)
Lemma extract_member : compile "struct s { int a; int b; } handler f (buf x) { s q; x.extract(q.a); x.emit(q); }" =
  Accepted [[GOp 0 GInit [] [StructType false [IntegerType 32; IntegerType 32] "s"] []; GOp 1 (GStructAccess 0) [OpResult 0 0] [IntegerType 32] [];
             GOp 2 GExtract [BlockArg 0 0] [IntegerType 32] []; GOp 3 GEmit [BlockArg 0 0; OpResult 2 0] [] [];
             GOp 4 GNop [] [NoneType] []; GOp 5 GTerminate [] [] []]].
Proof. vm_compute. reflexivity. Qed.
Lemma set_member : compile "struct s { int a; int b; } handler f (buf x) { s q; q.a.set(1, 0); x.emit(q); }" =
  Accepted [[GOp 0 GInit [] [StructType false [IntegerType 32; IntegerType 32] "s"] []; GOp 1 (GStructAccess 0) [OpResult 0 0] [IntegerType 32] [];
             GOp 2 (GConstant (IntAttr 1)) [] [IntegerType 64] []; GOp 3 (GConstant (IntAttr 0)) [] [IntegerType 64] [];
             GOp 4 (GBitSet 1) [OpResult 1 0; OpResult 3 0] [IntegerType 32] []; GOp 5 GEmit [BlockArg 0 0; OpResult 4 0] [] [];
             GOp 6 GNop [] [NoneType] []; GOp 7 GTerminate [] [] []]].
Proof. vm_compute. reflexivity. Qed.

(** A return whose value is refused is dropped, and the handler accepted. *)
Lemma return_dropped : compile "handler f (context ctx) { return q; }" = Accepted [[GOp 0 GTerminate [] [] []]].
Proof. vm_compute. reflexivity. Qed.

End MlirGenModule.
