(* ===== verification/Deps.v ===== *)
(** src/lib/ep2/HandlerDependencyAnalysis.cpp and its class in
    src/include/ep2/dialect/Passes.h: which handler sends events to which, the connected
    components of that graph, and an order of the handlers of each component.

    A handler is known by a number, its address: [std::map] iterates over handlers by
    address, which the theorems leave arbitrary. *)
From Stdlib Require Import ZArith Lia List String.
From stdpp Require Import base list numbers option gmap sets sorting strings relations.
From S2P Require Import Prelude Ir.
#[local] Open Scope Z_scope.

Module Deps.

(** ** Names *)

Record HandlerFullName := FullName { event : string; atom : string }.
#[export] Instance HandlerFullName_eq_dec : EqDecision HandlerFullName.
Proof. solve_decision. Defined.

(** [std::tie(l.event, l.atom) < std::tie(r.event, r.atom)] *)
Definition name_ltb (l r : HandlerFullName) : bool :=
  match String.compare (event l) (event r) with
  | Lt => true
  | Eq => match String.compare (atom l) (atom r) with Lt => true | _ => false end
  | Gt => false
  end.

Definition mangle (n : HandlerFullName) : string :=
  let surffix := (if String.eqb (atom n) "" then "" else "_" ++ atom n)%string in
  ("__handler_" ++ event n ++ surffix)%string.

Definition join (n : HandlerFullName) : string :=
  let surffix := (if String.eqb (atom n) "" then "" else ":" ++ atom n)%string in (event n ++ surffix)%string.

(** A function with its address; the constants are the string attributes of the
    operations that define them. *)
Record handler := Handler { h_addr : nat; h_func : Ir.func; h_const : nat -> option string }.

(** A failed assertion, or the dereference of an end iterator. *)
Inductive result (A : Type) := Done (a : A) | Assertion | DerefEnd.
Arguments Done {A} a.
Arguments Assertion {A}.
Arguments DerefEnd {A}.

Definition funcName (h : handler) : result HandlerFullName :=
  match Ir.f_attrs (h_func h) !! "event"%string with
  | Some (Ir.StringAttr e) =>
      Done (FullName e (match Ir.f_attrs (h_func h) !! "atom"%string with
                        | Some (Ir.StringAttr a) => a | _ => ""%string end))
  | _ => Assertion
  end.

Definition initName (h : handler) (initOp : Ir.op) : result HandlerFullName :=
  match Ir.o_results initOp with
  | Ir.StructType true _ name :: _ =>
      match Ir.o_operands initOp with
      | v :: _ =>
          match Ir.getDefiningOp (h_func h) v with
          | Some c =>
              match Ir.o_kind c with
              | Ir.ConstantOp =>
                  match h_const h (Ir.o_id c) with
                  | Some a => Done (FullName name a)
                  | None => Assertion
                  end
              | _ => Done (FullName name "")
              end
          | None => Done (FullName name "")
          end
      | [] => Assertion
      end
  | _ => Assertion
  end.

Definition returnName (h : handler) (returnOp : Ir.op) : result HandlerFullName :=
  match Ir.o_operands returnOp with
  | v :: _ =>
      match Ir.getDefiningOp (h_func h) v with
      | Some o => match Ir.o_kind o with Ir.InitOp => initName h o | _ => Assertion end
      | None => Assertion
      end
  | [] => Assertion
  end.

Fixpoint names_of (h : handler) (ops : list Ir.op) : result (list HandlerFullName) :=
  match ops with
  | [] => Done []
  | o :: ops' =>
      if match Ir.o_kind o with Ir.ReturnOp => (length (Ir.o_operands o) =? 1)%nat | _ => false end then
        match returnName h o with
        | Done n => match names_of h ops' with Done l => Done (n :: l) | e => e end
        | Assertion => Assertion
        | DerefEnd => DerefEnd
        end
      else names_of h ops'
  end.

(** The events a handler returns: the walk over its returns of one value. *)
Definition returnNames (h : handler) : result (list HandlerFullName) :=
  names_of h (Ir.func_ops (h_func h)).

(** ** The maps of handlers and controllers: [std::map]s ordered by name *)

Abbreviation handlersMapT := (list (HandlerFullName * handler)).

Fixpoint emplace (n : HandlerFullName) (h : handler) (m : handlersMapT) : handlersMapT :=
  match m with
  | [] => [(n, h)]
  | (n', h') :: m' =>
      if bool_decide (n = n') then m
      else if name_ltb n n' then (n, h) :: m
      else (n', h') :: emplace n h m'
  end.

Definition find_name (n : HandlerFullName) (m : handlersMapT) : option handler :=
  snd <$> List.find (fun p => bool_decide (p.1 = n)) m.

(** The general match: the event, and no atom. *)
Definition find_general (n : HandlerFullName) (m : handlersMapT) : option handler :=
  snd <$> List.find (fun p => String.eqb (event p.1) (event n) && String.eqb (atom p.1) "") m.

Definition lookupHandler (n : HandlerFullName) (m : handlersMapT) : option handler :=
  match find_name n m with Some h => Some h | None => find_general n m end.

Definition lookupController (n : HandlerFullName) (m : handlersMapT) : option handler :=
  snd <$> List.find (fun p => String.eqb (event p.1) (event n)) m.

Fixpoint emplace_all (hs : list handler) (m : handlersMapT) : result handlersMapT :=
  match hs with
  | [] => Done m
  | h :: hs' =>
      match funcName h with
      | Done n => emplace_all hs' (emplace n h m)
      | Assertion => Assertion
      | DerefEnd => DerefEnd
      end
  end.

(** ** The graph *)

Abbreviation graphT := (gmap nat (list nat)).

(** [operator[]] of a [std::map]: the entry, an empty one if there is none; and the map
    in which there is one. *)
Definition gget (g : graphT) (k : nat) : list nat := default [] (g !! k).
Definition touch (g : graphT) (k : nat) : graphT :=
  match g !! k with Some _ => g | None => <[k := []]> g end.

(** The keys of a [std::map], in the order of its iteration. *)
Definition keys (g : graphT) : list nat := merge_sort Nat.le (elements (dom g : gset nat)).

(** The targets of one returned event: the exact match; or else the general match, which
    is dereferenced whether it exists or not; and for an extern what it forwards, which is
    looked up by the name that has already not been found. *)
Definition targets_of (m : handlersMapT) (externForwards : list (string * list HandlerFullName))
    (target : HandlerFullName) : result (list nat) :=
  match find_name target m with
  | Some h => Done [h_addr h]
  | None =>
      match find_general target m with
      | None => DerefEnd
      | Some h =>
          if negb (Ir.isExtern (h_func h)) then Done [h_addr h]
          else
            let forwards := from_option snd [] (List.find (fun p => String.eqb p.1 (event target)) externForwards) in
            Done (h_addr h :: concat (map (fun _ => match find_name target m with
                                                    | Some h => [h_addr h] | None => [] end) forwards))
      end
  end.

Fixpoint all_targets (m : handlersMapT) (ef : list (string * list HandlerFullName))
    (to : list HandlerFullName) : result (list nat) :=
  match to with
  | [] => Done []
  | t :: to' =>
      match targets_of m ef t with
      | Done l => match all_targets m ef to' with Done l' => Done (l ++ l')%list | e => e end
      | e => e
      end
  end.

Record deps := Deps {
  d_graph : graphT;
  d_eventDeps : gmap string (gset string);
  d_forward : gset nat;  (* the functions with the attribute extern_forward *)
  d_externForwards : list (string * list HandlerFullName) }.

Definition no_deps : deps := Deps ∅ ∅ ∅ [].

(** [std::map::emplace] for the forwards of an extern. *)
Definition emplace_forward (e : string) (to : list HandlerFullName)
    (l : list (string * list HandlerFullName)) : list (string * list HandlerFullName) :=
  if existsb (fun p => String.eqb p.1 e) l then l else l ++ [(e, to)].

Definition add_event_deps (e : string) (to : list HandlerFullName) (m : gmap string (gset string)) :=
  fold_left (fun m t => <[e := default ∅ (m !! e) ∪ {[event t]}]> m) to m.

(** One round of the loop over the handlers. *)
Definition add_handler (m : handlersMapT) (h : handler) (d : deps) : result deps :=
  match funcName h with
  | Done from =>
      match returnNames h with
      | Done to =>
          if Ir.isExtern (h_func h) then
            let marked := omap (fun t => h_addr <$> lookupHandler t m) to in
            let self := match to with [] => [] | _ => [h_addr h] end in
            Done (Deps (d_graph d) (d_eventDeps d) (d_forward d ∪ list_to_set (self ++ marked))
                    (emplace_forward (event from) to (d_externForwards d)))
          else
            match all_targets m (d_externForwards d) to with
            | Done targets =>
                Done (Deps (<[h_addr h := targets]> (d_graph d))
                        (add_event_deps (event from) to (d_eventDeps d))
                        (d_forward d) (d_externForwards d))
            | Assertion => Assertion
            | DerefEnd => DerefEnd
            end
      | Assertion => Assertion
      | DerefEnd => DerefEnd
      end
  | Assertion => Assertion
  | DerefEnd => DerefEnd
  end.

Fixpoint add_handlers (m : handlersMapT) (hs : list handler) (d : deps) : result deps :=
  match hs with
  | [] => Done d
  | h :: hs' => match add_handler m h d with Done d' => add_handlers m hs' d' | e => e end
  end.

(** The constructor up to the call of [getConnectedComponents]; the functions of the
    module are given in order. *)
Definition build (funcs : list handler) : result deps :=
  let funcOps := List.filter (fun h => Ir.isHandler (h_func h)) funcs in
  match emplace_all funcOps [] with
  | Done m => add_handlers m funcOps no_deps
  | Assertion => Assertion
  | DerefEnd => DerefEnd
  end.

(** ** Connected components *)

Abbreviation degT := (gmap nat Z).
Definition dget (d : degT) (k : nat) : Z := default 0 (d !! k).

(** The body of the loop over the edges: count the target, and add the edge back. *)
Definition undirect_edge (handler : nat) (s : degT * graphT) (target : nat) : degT * graphT :=
  let '(inDegree, und) := s in
  let targetEdges := gget und target in
  (<[target := dget inDegree target + 1]> inDegree,
   if existsb (Nat.eqb handler) targetEdges then touch und target
   else <[target := targetEdges ++ [handler]]> und).

Definition undirect_node (graph : graphT) (s : degT * graphT) (handler : nat) : degT * graphT :=
  fold_left (undirect_edge handler) (gget graph handler) s.

Definition undirect (graph : graphT) : degT * graphT :=
  fold_left (undirect_node graph) (keys graph) (∅, graph).

Record search := Search {
  s_graph : graphT; s_color : gmap nat Z; s_sub : graphT; s_nodes : list nat }.

Definition color_of (c : gmap nat Z) (k : nat) : Z := default 0 (c !! k).

(** One node taken from the worklist, and the worklist it leaves. *)
Definition visit (und : graphT) (inDegree : degT) (curColor : Z) (cur : nat) (wl : list nat)
    (s : search) : search * list nat :=
  let color := <[cur := curColor]> (s_color s) in
  (Search (touch (s_graph s) cur) color (<[cur := gget (s_graph s) cur]> (s_sub s))
     (if dget inDegree cur =? 0 then s_nodes s ++ [cur] else s_nodes s),
   wl ++ List.filter (fun t => color_of color t =? 0) (gget und cur)).

Fixpoint bfs (fuel : nat) (und : graphT) (inDegree : degT) (curColor : Z) (wl : list nat)
    (s : search) : option search :=
  match wl with
  | [] => Some s
  | cur :: wl' =>
      match fuel with
      | O => None
      | S fuel' =>
          let '(s', wl'') := visit und inDegree curColor cur wl' s in
          bfs fuel' und inDegree curColor wl'' s'
      end
  end.

(** The components found so far: each with its handlers and the ones without
    predecessors, in the order they were met. *)
Record components := Components {
  c_graph : graphT; c_color : gmap nat Z; c_numColors : Z; c_found : list (graphT * list nat) }.

Fixpoint color_nodes (fuel : nat) (und : graphT) (inDegree : degT) (todo : list nat)
    (c : components) : option components :=
  match todo with
  | [] => Some c
  | handler :: todo' =>
      if color_of (c_color c) handler =? 0 then
        match bfs fuel und inDegree (c_numColors c) [handler]
                (Search (c_graph c) (c_color c) ∅ []) with
        | None => None
        | Some s =>
            color_nodes fuel und inDegree todo'
              (Components (s_graph s) (s_color s) (c_numColors c + 1)
                 (c_found c ++ [(s_sub s, s_nodes s)]))
        end
      else color_nodes fuel und inDegree todo' c
  end.

Definition color_graph (fuel : nat) (graph : graphT) : option components :=
  let '(inDegree, und) := undirect graph in
  color_nodes fuel und inDegree (keys und) (Components graph ∅ 1 []).

(** ** The order of a component *)

Definition relax (s : degT * list nat) (target : nat) : degT * list nat :=
  let '(inDegree, wl) := s in
  let d := dget inDegree target - 1 in
  (<[target := d]> inDegree, if d =? 0 then wl ++ [target] else wl).

Fixpoint sort_component (fuel : nat) (graph : graphT) (wl : list nat) (inDegree : degT)
    (nodes : list nat) : option (degT * list nat) :=
  match wl with
  | [] => Some (inDegree, nodes)
  | cur :: wl' =>
      match fuel with
      | O => None
      | S fuel' =>
          let '(inDegree', wl'') := fold_left relax (gget graph cur) (inDegree, wl') in
          sort_component fuel' graph wl'' inDegree' (nodes ++ [cur])
      end
  end.

Fixpoint sort_components (fuel : nat) (graph : graphT) (initial : list (list nat)) (inDegree : degT)
    : option (list (list nat)) :=
  match initial with
  | [] => Some []
  | wl :: initial' =>
      match sort_component fuel graph wl inDegree [] with
      | None => None
      | Some (inDegree', nodes) =>
          match sort_components fuel graph initial' inDegree' with
          | Some l => Some (nodes :: l)
          | None => None
          end
      end
  end.

(** The subgraphs and their orders. *)
Definition getConnectedComponents (fuel : nat) (graph : graphT)
    : option (list graphT * list (list nat)) :=
  match color_graph fuel graph with
  | None => None
  | Some c =>
      match sort_components fuel (c_graph c) (map snd (c_found c)) (undirect graph).1 with
      | Some orders => Some (map fst (c_found c), orders)
      | None => None
      end
  end.

(** ** The queries of the class *)

Definition getSuccessors (graph : graphT) (f : nat) : list nat := gget graph f.

Definition hasSuccessor (m : handlersMapT) (eventName : string) : bool :=
  match List.find (fun p => String.eqb (event p.1) eventName) m with
  | Some (_, h) => negb (Ir.isExtern (h_func h))
  | None => false
  end.

Definition edge_to (f : nat) (edges : list nat) : bool := existsb (Nat.eqb f) edges.

(** [isExternAddr] says whether the function at an address is an extern. *)
Definition hasPredecessor (graph : graphT) (isExternAddr : nat -> bool) (f : nat) : bool :=
  existsb (fun k => negb (isExternAddr k) && edge_to f (gget graph k)) (keys graph).

Definition isStartOfChain (graph : graphT) (f : nat) : bool :=
  existsb (fun k => negb (edge_to f (gget graph k))) (keys graph).

(** ** Maps and their keys *)

Lemma elem_keys g k : k ∈ keys g <-> is_Some (g !! k).
Proof.
  unfold keys. rewrite merge_sort_Permutation, elem_of_elements.
  apply (elem_of_dom (D := gset nat)).
Qed.

Lemma NoDup_keys g : NoDup (keys g).
Proof. unfold keys. rewrite merge_sort_Permutation. apply NoDup_elements. Qed.

Lemma gget_key g x y : y ∈ gget g x -> x ∈ keys g.
Proof.
  unfold gget. rewrite elem_keys. destruct (g !! x); [by eexists|]. cbn. by intros ?%not_elem_of_nil.
Qed.

Lemma gget_insert g k l x : gget (<[k := l]> g) x = if decide (x = k) then l else gget g x.
Proof.
  unfold gget. destruct (decide (x = k)) as [->|]; [by rewrite lookup_insert_eq|].
  by rewrite lookup_insert_ne.
Qed.

Lemma gget_touch g k x : gget (touch g k) x = gget g x.
Proof.
  unfold touch. destruct (g !! k) eqn:E; [done|]. rewrite gget_insert.
  destruct (decide (x = k)) as [->|]; [|done]. unfold gget. by rewrite E.
Qed.

Lemma dom_touch g k : dom (touch g k) = {[k]} ∪ dom g.
Proof.
  unfold touch. destruct (g !! k) eqn:E; [|by rewrite dom_insert_L].
  apply elem_of_dom_2 in E. set_solver.
Qed.

Lemma dget_insert d k n x : dget (<[k := n]> d) x = if decide (x = k) then n else dget d x.
Proof.
  unfold dget. destruct (decide (x = k)) as [->|]; [by rewrite lookup_insert_eq|].
  by rewrite lookup_insert_ne.
Qed.

Lemma color_insert c k n x : color_of (<[k := n]> c) x = if decide (x = k) then n else color_of c x.
Proof. apply dget_insert. Qed.

(** How often [x] is in a list. *)
Definition cnt (x : nat) (l : list nat) : Z := Z.of_nat (count_occ Nat.eq_dec l x).

Lemma cnt_cons x y l : cnt x (y :: l) = cnt x l + (if decide (x = y) then 1 else 0).
Proof. unfold cnt. cbn. destruct (Nat.eq_dec y x), (decide (x = y)); try lia; congruence. Qed.

Lemma cnt_nonneg x l : 0 <= cnt x l.
Proof. unfold cnt. lia. Qed.

Lemma cnt_pos x l : 0 < cnt x l <-> x ∈ l.
Proof. unfold cnt. rewrite list_elem_of_In, (count_occ_In Nat.eq_dec). lia. Qed.

(** The edges into [x] from a list of nodes. *)
Definition edges_into (g : graphT) (us : list nat) (x : nat) : Z :=
  sumZ (map (fun u => cnt x (gget g u)) us).

Lemma edges_into_cons g u us x : edges_into g (u :: us) x = cnt x (gget g u) + edges_into g us x.
Proof. done. Qed.

Lemma edges_into_app g us vs x : edges_into g (us ++ vs) x = edges_into g us x + edges_into g vs x.
Proof. unfold edges_into. by rewrite map_app, sumZ_app. Qed.

Lemma edges_into_nonneg g us x : 0 <= edges_into g us x.
Proof. induction us; [done|]. rewrite edges_into_cons. pose proof (cnt_nonneg x (gget g a)). lia. Qed.

Lemma edges_into_perm g us vs x : us ≡ₚ vs -> edges_into g us x = edges_into g vs x.
Proof. induction 1; rewrite ?edges_into_cons in *; lia. Qed.

(** ** The undirected graph *)

Lemma undirect_edges h edges : forall s, let s' := fold_left (undirect_edge h) edges s in
  (forall v x, v ∈ gget s'.2 x <-> v ∈ gget s.2 x \/ (x ∈ edges /\ v = h))
  /\ dom s'.2 = list_to_set edges ∪ dom s.2
  /\ (forall x, dget s'.1 x = dget s.1 x + cnt x edges).
Proof.
  induction edges as [|t edges IH]; intros [deg und]; cbn [fold_left].
  - split_ands; [set_solver|set_solver|]. intros x. unfold cnt. cbn. lia.
  - specialize (IH (undirect_edge h (deg, und) t)). cbn zeta in *.
    destruct IH as (Hg & Hdom & Hd).
    set (r := fold_left (undirect_edge h) edges (undirect_edge h (deg, und) t)) in *.
    assert (Hone : forall v x, v ∈ gget (undirect_edge h (deg, und) t).2 x
                   <-> v ∈ gget und x \/ (x = t /\ v = h)).
    { intros v x. cbn. destruct (existsb (Nat.eqb h) (gget und t)) eqn:E.
      - rewrite gget_touch. apply existsb_exists in E as (h' & Hin & Heq%Nat.eqb_eq). subst h'.
        apply list_elem_of_In in Hin. naive_solver.
      - rewrite gget_insert. destruct (decide (x = t)) as [->|]; [|naive_solver].
        rewrite elem_of_app, list_elem_of_singleton. naive_solver. }
    split_ands.
    + intros v x. rewrite Hg, Hone. cbn. rewrite elem_of_cons. naive_solver.
    + rewrite Hdom. cbn. destruct (existsb _ _); rewrite ?dom_touch, ?dom_insert_L; set_solver.
    + intros x. rewrite Hd. cbn. rewrite dget_insert, cnt_cons. destruct (decide (x = t)) as [->|]; lia.
Qed.

Lemma undirect_nodes g ks : forall s, let s' := fold_left (undirect_node g) ks s in
  (forall v x, v ∈ gget s'.2 x <-> v ∈ gget s.2 x \/ (v ∈ ks /\ x ∈ gget g v))
  /\ (forall x, x ∈ dom s'.2 <-> x ∈ dom s.2 \/ exists v, v ∈ ks /\ x ∈ gget g v)
  /\ (forall x, dget s'.1 x = dget s.1 x + edges_into g ks x).
Proof.
  induction ks as [|k ks IH]; intros s; cbn [fold_left].
  - split_ands; [set_solver|set_solver|]. intros x. cbn. lia.
  - specialize (IH (undirect_node g s k)). cbn zeta in *. destruct IH as (Hg & Hdom & Hd).
    unfold undirect_node in Hg, Hdom, Hd at 2. unfold undirect_node at 2.
    destruct (undirect_edges k (gget g k) s) as (Hg' & Hdom' & Hd').
    split_ands.
    + intros v x. rewrite Hg. unfold undirect_node. rewrite Hg', elem_of_cons. naive_solver.
    + intros x. rewrite Hdom. unfold undirect_node. rewrite Hdom'.
      rewrite elem_of_union, elem_of_list_to_set. setoid_rewrite elem_of_cons. naive_solver.
    + intros x. rewrite Hd. unfold undirect_node. rewrite Hd', edges_into_cons. lia.
Qed.

(** [adj g] is the edge relation read both ways. *)
Definition adj (g : graphT) (u v : nat) : Prop := v ∈ gget g u \/ u ∈ gget g v.

#[export] Instance adj_symm g : Symmetric (adj g).
Proof. intros u v [H|H]; [by right|by left]. Qed.

(** The nodes: the handlers of the graph and the targets of its edges. *)
Definition node (g : graphT) (x : nat) : Prop := x ∈ keys g \/ exists v, x ∈ gget g v.

Lemma undirect_spec g :
  (forall u v, v ∈ gget (undirect g).2 u <-> adj g u v)
  /\ (forall x, x ∈ keys (undirect g).2 <-> node g x)
  /\ (forall x, dget (undirect g).1 x = edges_into g (keys g) x).
Proof.
  unfold undirect. destruct (undirect_nodes g (keys g) (∅, g)) as (Hg & Hdom & Hd). cbn in *.
  split_ands.
  - intros u v. rewrite Hg. unfold adj. split; [tauto|]. intros [H|H]; [by left|right].
    split; [by eapply gget_key|done].
  - intros x. rewrite elem_keys, <- elem_of_dom, Hdom. unfold node. rewrite elem_keys, elem_of_dom.
    split; [naive_solver|]. intros [H|[v H]]; [by left|right]. exists v.
    split; [by eapply gget_key|done].
  - intros x. rewrite Hd. unfold dget. by rewrite lookup_empty.
Qed.

Lemma adj_node g u v : adj g u v -> node g u.
Proof. intros [H|H]; [left; by eapply gget_key|right; eauto]. Qed.

(** ** The search from a handler *)

Section Bfs.

Context (g und : graphT) (deg : degT) (curColor : Z) (start : nat) (old : nat -> Prop).
Context (Hund : forall u v, v ∈ gget und u <-> adj g u v).
Context (Hcolor : curColor <> 0).
Context (Hclosed : forall u v, old u -> adj g u v -> old v).
Context (Hstart : ~ old start).

(** What holds between the visits: the nodes of the subgraph are those coloured since
    the start, and their neighbours are coloured or wait. *)
Record bfs_inv (wl : list nat) (s : search) : Prop := {
  bi_graph : forall x, gget (s_graph s) x = gget g x;
  bi_color : forall x, color_of (s_color s) x <> 0 <-> old x \/ x ∈ dom (s_sub s);
  bi_wl : forall x, x ∈ wl -> rtc (adj g) start x /\ ~ old x;
  bi_dom : forall x, x ∈ dom (s_sub s) -> rtc (adj g) start x /\ ~ old x;
  bi_next : forall x y, x ∈ dom (s_sub s) -> adj g x y -> y ∈ dom (s_sub s) \/ y ∈ wl;
  bi_start : start ∈ dom (s_sub s) \/ start ∈ wl;
  bi_sub : forall x l, s_sub s !! x = Some l -> l = gget g x;
  bi_nodes : forall x, x ∈ s_nodes s <-> x ∈ dom (s_sub s) /\ dget deg x = 0 }.

Lemma visit_inv cur wl s : bfs_inv (cur :: wl) s ->
  bfs_inv (visit und deg curColor cur wl s).2 (visit und deg curColor cur wl s).1.
Proof.
  intros [Hg Hc Hw Hd Hn Hs Hsub Hnodes]. destruct (Hw cur) as [Hreach Hold]; [by left|].
  assert (Hpush : forall t, t ∈ List.filter (fun t => color_of (<[cur := curColor]> (s_color s)) t =? 0)
                    (gget und cur) <-> adj g cur t /\ t <> cur /\ ~ old t /\ t ∉ dom (s_sub s)).
  { intros t. rewrite list_elem_of_In, filter_In, <- list_elem_of_In, Hund, Z.eqb_eq, color_insert.
    destruct (decide (t = cur)) as [->|]; [tauto|]. specialize (Hc t).
    destruct (decide (color_of (s_color s) t = 0)); tauto. }
  unfold visit. cbn. split; cbn.
  - intros x. by rewrite gget_touch.
  - intros x. rewrite color_insert, dom_insert, elem_of_union, elem_of_singleton.
    destruct (decide (x = cur)) as [->|]; [tauto|]. rewrite Hc. tauto.
  - intros x [Hx|Hx]%elem_of_app; [apply Hw; by right|]. apply Hpush in Hx as (Ha & _ & Ho & _).
    split; [by eapply rtc_r|done].
  - intros x. rewrite dom_insert, elem_of_union, elem_of_singleton. intros [->|Hx]; [done|by apply Hd].
  - intros x y. rewrite !dom_insert, !elem_of_union, !elem_of_singleton, elem_of_app, Hpush.
    intros Hx Ha. destruct (decide (y = cur)) as [->|Hne]; [by left; left|].
    destruct Hx as [->|Hx].
    + destruct (decide (y ∈ dom (s_sub s))); [tauto|]. right. right. split_ands; try done.
      intros Ho. apply Hold. eapply Hclosed; [exact Ho|by symmetry].
    + destruct (Hn x y Hx Ha) as [?|[?|?]%elem_of_cons]; tauto.
  - rewrite dom_insert, elem_of_union, elem_of_singleton, elem_of_app.
    destruct Hs as [?|[->|?]%elem_of_cons]; tauto.
  - intros x l. destruct (decide (x = cur)) as [->|].
    + rewrite lookup_insert_eq. intros [= <-]. apply Hg.
    + rewrite lookup_insert_ne by done. apply Hsub.
  - intros x. rewrite dom_insert, elem_of_union, elem_of_singleton.
    destruct (Z.eqb_spec (dget deg cur) 0); rewrite ?elem_of_app, ?list_elem_of_singleton, Hnodes; [naive_solver|].
    split; [tauto|]. intros [[->|?] ?]; tauto.
Qed.

Lemma bfs_keeps fuel : forall wl s s', bfs_inv wl s ->
  bfs fuel und deg curColor wl s = Some s' -> bfs_inv [] s'.
Proof.
  induction fuel as [|fuel IH]; intros [|cur wl] s s' Hi Hb; cbn in Hb; simplify_eq; try done.
  apply visit_inv in Hi. unfold visit in Hi. eapply IH; [exact Hi|exact Hb].
Qed.

(** When nothing waits, the subgraph is the component of the start. *)
Lemma bfs_inv_component s : bfs_inv [] s ->
  forall x, x ∈ dom (s_sub s) <-> rtc (adj g) start x.
Proof.
  intros [Hg Hc Hw Hd Hn Hs Hsub Hnodes] x. split; [apply Hd|]. intros Hr.
  destruct Hs as [Hs|Hs]; [|by apply not_elem_of_nil in Hs]. clear Hw Hd Hc Hstart. revert Hs.
  induction Hr as [|x y z Hxy _ IH]; intros Hs; [done|]. apply IH.
  destruct (Hn x y Hs Hxy) as [?|H%not_elem_of_nil]; done.
Qed.

(** The start waits once: it is coloured by the first visit, and only nodes without colour
    are added. So when no other node of the component has in-degree 0, it is noted once. *)
Definition noted_once (wl : list nat) (s : search) : Prop :=
  start ∉ wl /\ color_of (s_color s) start <> 0
  /\ (s_nodes s = [] \/ s_nodes s = [start]).

Lemma visit_once cur wl s : (forall x, rtc (adj g) start x -> dget deg x = 0 -> x = start) ->
  bfs_inv (cur :: wl) s -> noted_once (cur :: wl) s ->
  noted_once (visit und deg curColor cur wl s).2 (visit und deg curColor cur wl s).1.
Proof.
  intros Hone Hi (Hw & Hc & Hn). apply not_elem_of_cons in Hw as [Hne Hw].
  destruct (bi_wl _ _ Hi cur) as [Hr _]; [by left|].
  unfold noted_once, visit. cbn. split_ands.
  - rewrite elem_of_app. intros [?|H]; [done|].
    apply list_elem_of_In, filter_In in H as [_ H]. rewrite color_insert in H.
    rewrite decide_False in H by done. apply Z.eqb_eq in H. done.
  - by rewrite color_insert, decide_False.
  - destruct (Z.eqb_spec (dget deg cur) 0) as [H0|]; [|done]. by destruct (Hne (eq_sym (Hone cur Hr H0))).
Qed.

Lemma bfs_once fuel : (forall x, rtc (adj g) start x -> dget deg x = 0 -> x = start) ->
  forall wl s s', bfs_inv wl s -> noted_once wl s ->
  bfs fuel und deg curColor wl s = Some s' -> NoDup (s_nodes s').
Proof.
  intros Hone. induction fuel as [|fuel IH]; intros [|cur wl] s s' Hi Ho Hb; cbn in Hb; simplify_eq.
  - destruct Ho as (_ & _ & [-> | ->]); [constructor|apply NoDup_singleton].
  - destruct Ho as (_ & _ & [-> | ->]); [constructor|apply NoDup_singleton].
  - pose proof (visit_inv _ _ _ Hi) as Hi'. pose proof (visit_once _ _ _ Hone Hi Ho) as Ho'.
    eapply IH; [exact Hi'|exact Ho'|exact Hb].
Qed.

Lemma bfs_start_once fuel s s' : (forall x, rtc (adj g) start x -> dget deg x = 0 -> x = start) ->
  bfs_inv [start] s -> s_nodes s = [] ->
  bfs fuel und deg curColor [start] s = Some s' -> NoDup (s_nodes s').
Proof.
  intros Hone Hi Hn Hb. destruct fuel as [|fuel]; [done|]. cbn in Hb.
  pose proof (visit_inv _ _ _ Hi) as Hi'. eapply (bfs_once fuel Hone); [exact Hi'| |exact Hb].
  unfold noted_once, visit. cbn. rewrite Hn. split_ands.
  - intros H. apply list_elem_of_In, filter_In in H as [_ H].
    rewrite color_insert, decide_True in H by done. apply Z.eqb_eq in H. done.
  - by rewrite color_insert, decide_True.
  - destruct (_ =? 0); [by right|by left].
Qed.

(** *** Termination: a node already coloured leaves the worklist and adds none that is;
    one that is not is coloured. *)
Definition uncolored (s : search) : gset nat :=
  filter (fun x => color_of (s_color s) x = 0) (dom und).

Definition waiting_colored (wl : list nat) (s : search) : nat :=
  length (List.filter (fun x => negb (color_of (s_color s) x =? 0)) wl).

Lemma bfs_more fuel : forall fuel' wl s s', (fuel <= fuel')%nat ->
  bfs fuel und deg curColor wl s = Some s' -> bfs fuel' und deg curColor wl s = Some s'.
Proof.
  induction fuel as [|fuel IH]; intros [|fuel'] [|cur wl] s s' Hle H; cbn in *; try done; try lia.
  apply IH; [lia|done].
Qed.

Lemma length_filter_app (f : nat -> bool) l1 l2 :
  length (List.filter f (l1 ++ l2)) = (length (List.filter f l1) + length (List.filter f l2))%nat.
Proof. by rewrite List.filter_app, length_app. Qed.

Lemma filter_none (f h : nat -> bool) l : (forall x, f x = true -> h x = false) ->
  List.filter h (List.filter f l) = [].
Proof.
  intros H. induction l as [|x l IH]; cbn; [done|]. destruct (f x) eqn:E; [|done]. cbn. by rewrite (H x E).
Qed.

Lemma bfs_ends : forall n m wl s, (forall x, x ∈ wl -> x ∈ dom und) ->
  (forall x y, y ∈ gget und x -> y ∈ dom und) ->
  size (uncolored s) = n -> waiting_colored wl s = m ->
  exists fuel s', bfs fuel und deg curColor wl s = Some s'.
Proof.
  induction n as [n IHn] using lt_wf_ind. induction m as [m IHm] using lt_wf_ind.
  intros [|cur wl] s Hwl Hkeys Hn Hm; [by exists O, s|].
  set (s1 := (visit und deg curColor cur wl s).1). set (wl1 := (visit und deg curColor cur wl s).2).
  assert (Hwl1 : forall x, x ∈ wl1 -> x ∈ dom und).
  { unfold wl1, visit. cbn. intros x [Hx|Hx]%elem_of_app; [apply Hwl; by right|].
    apply list_elem_of_In, filter_In in Hx as [Hx _]. apply (Hkeys cur). by apply list_elem_of_In. }
  assert (Hrec : exists fuel s', bfs fuel und deg curColor wl1 s1 = Some s').
  { destruct (decide (color_of (s_color s) cur = 0)) as [H0|H0].
    - apply (IHn (size (uncolored s1))) with (m := waiting_colored wl1 s1); try done.
      rewrite <- Hn. apply subset_size. unfold uncolored, s1. cbn. split.
      + intros x. rewrite !elem_of_filter, color_insert. destruct (decide (x = cur)); [lia|tauto].
      + intros Hsub. specialize (Hsub cur). rewrite !elem_of_filter, color_insert in Hsub.
        rewrite decide_True in Hsub by done. destruct Hsub; [|done]. split; [done|]. apply Hwl. by left.
    - assert (Hsame : forall x, (color_of (s_color s1) x =? 0) = (color_of (s_color s) x =? 0)).
      { intros x. unfold s1. cbn. rewrite color_insert. destruct (decide (x = cur)) as [->|]; [|done].
        destruct (Z.eqb_spec curColor 0), (Z.eqb_spec (color_of (s_color s) cur) 0); done. }
      apply (IHm (waiting_colored wl1 s1)); try done.
      + rewrite <- Hm. unfold waiting_colored. cbn [List.filter].
        destruct (Z.eqb_spec (color_of (s_color s) cur) 0); [done|]. cbn [negb length].
        unfold wl1, visit. cbn. rewrite length_filter_app, (filter_none _ (fun x => negb (color_of (s_color s1) x =? 0))).
        * cbn. rewrite (filter_ext _ (fun x => negb (color_of (s_color s) x =? 0)));
            [lia|]. intros x. by rewrite Hsame.
        * intros x Hx. unfold s1. cbn. by rewrite Hx.
      + rewrite <- Hn. unfold uncolored. f_equal. apply set_eq. intros x. rewrite !elem_of_filter.
        specialize (Hsame x). destruct (Z.eqb_spec (color_of (s_color s1) x) 0),
          (Z.eqb_spec (color_of (s_color s) x) 0); try done; tauto. }
  destruct Hrec as (fuel & s' & Hb). exists (S fuel), s'. exact Hb.
Qed.

End Bfs.

(** ** All components *)

(** One component: the handlers that edges connect to one of them, with their edges, and
    among them those that no edge enters. The search starts from its first handler; those
    are noted once when there is no other than that one. *)
Definition component (g : graphT) (c : graphT * list nat) : Prop :=
  (exists start, node g start /\ (forall x, x ∈ dom c.1 <-> rtc (adj g) start x)
    /\ (forall x, x ∈ dom c.1 -> (start <= x)%nat)
    /\ ((forall x, x ∈ dom c.1 -> edges_into g (keys g) x = 0 -> x = start) -> NoDup c.2))
  /\ (forall x l, c.1 !! x = Some l -> l = gget g x)
  /\ (forall x, x ∈ c.2 <-> x ∈ dom c.1 /\ edges_into g (keys g) x = 0).

Record color_inv (g : graphT) (c : components) : Prop := {
  ci_graph : forall x, gget (c_graph c) x = gget g x;
  ci_num : 0 < c_numColors c;
  ci_color : forall x, color_of (c_color c) x <> 0 <-> exists k, k ∈ c_found c /\ x ∈ dom k.1;
  ci_found : forall k, k ∈ c_found c -> component g k;
  ci_disjoint : forall i j a b x, c_found c !! i = Some a -> c_found c !! j = Some b ->
    x ∈ dom a.1 -> x ∈ dom b.1 -> i = j }.

Lemma rtc_adj_sym g x y : rtc (adj g) x y -> rtc (adj g) y x.
Proof.
  induction 1 as [|x y z Hxy _ IH]; [done|]. eapply rtc_r; [exact IH|by symmetry].
Qed.

Lemma component_closed g c u v : component g c -> u ∈ dom c.1 -> adj g u v -> v ∈ dom c.1.
Proof. intros ((s & _ & Hs & _) & _) Hu Ha. rewrite Hs in *. by eapply rtc_r. Qed.

Lemma component_same g c u v : component g c -> u ∈ dom c.1 -> v ∈ dom c.1 <-> rtc (adj g) u v.
Proof.
  intros ((s & _ & Hs & _) & _) Hu. rewrite Hs in *. split; intros H.
  - etrans; [by apply rtc_adj_sym|done].
  - by etrans.
Qed.

Lemma start_inv g deg start c : (forall x, dget deg x = edges_into g (keys g) x) ->
  color_inv g c -> color_of (c_color c) start = 0 ->
  bfs_inv g deg start (fun x => color_of (c_color c) x <> 0)
    [start] (Search (c_graph c) (c_color c) ∅ []).
Proof.
  intros Hdeg [Hg Hn Hc Hf Hd] H0. split; cbn; try done.
  - intros x. rewrite dom_empty. set_solver.
  - intros x ->%list_elem_of_singleton. split; [apply rtc_refl|tauto].
  - right. by left.
  - intros x. set_solver.
Qed.

(** A search from a handler without colour adds its component. *)
Lemma color_step g c start s fuel : color_inv g c -> node g start ->
  color_of (c_color c) start = 0 ->
  (forall x, node g x -> color_of (c_color c) x <> 0 \/ (start <= x)%nat) ->
  bfs fuel (undirect g).2 (undirect g).1 (c_numColors c) [start]
    (Search (c_graph c) (c_color c) ∅ []) = Some s ->
  color_inv g (Components (s_graph s) (s_color s) (c_numColors c + 1)
                 (c_found c ++ [(s_sub s, s_nodes s)]))
  /\ color_of (s_color s) start <> 0
  /\ forall x, color_of (c_color c) x <> 0 -> color_of (s_color s) x <> 0.
Proof.
  intros Hi Hnode H0 Hleast Hb. destruct (undirect_spec g) as (Hund & Hkeys & Hdeg).
  pose proof Hi as [Hg Hnum Hc Hf Hd].
  assert (Hold : forall u v, color_of (c_color c) u <> 0 -> adj g u v -> color_of (c_color c) v <> 0).
  { intros u v. rewrite !Hc. intros (k & Hk & Hu) Ha. exists k. split; [done|].
    by eapply component_closed; [apply Hf| |]. }
  assert (Hstart : bfs_inv g (undirect g).1 start (fun x => color_of (c_color c) x <> 0) [start]
                     (Search (c_graph c) (c_color c) ∅ [])) by (by apply start_inv).
  assert (Hb0 : bfs_inv g (undirect g).1 start (fun x => color_of (c_color c) x <> 0) [] s).
  { eapply (bfs_keeps g (undirect g).2 _ (c_numColors c));
      [exact Hund|lia|exact Hold|tauto|exact Hstart|exact Hb]. }
  pose proof (bfs_inv_component _ _ _ _ _ Hb0) as Hdom. cbn in Hdom.
  destruct Hb0 as [Bg Bc Bw Bd Bn Bs Bsub Bnodes].
  assert (Hnew : component g (s_sub s, s_nodes s)).
  { unfold component. cbn. split_ands; [exists start|done|].
    - split_ands; [done|done|..].
      + intros x Hx. destruct (Hleast x) as [Hc0|]; [|by destruct (Bd x Hx)|done].
        apply Hdom, rtc_adj_sym, rtc_inv in Hx as [->|(y & Ha & _)]; [done|by eapply adj_node].
      + intros Hone. eapply (bfs_start_once g (undirect g).2 _ (c_numColors c) start
          (fun x => color_of (c_color c) x <> 0));
          [exact Hund|lia|exact Hold|tauto| |exact Hstart|done|exact Hb].
        intros x Hx. rewrite Hdeg. apply Hone. by apply Hdom.
    - intros x. by rewrite Bnodes, Hdeg. }
  split_ands.
  - split; cbn.
    + done.
    + lia.
    + intros x. rewrite Bc, Hc. setoid_rewrite elem_of_app. setoid_rewrite list_elem_of_singleton.
      split.
      * intros [(k & Hk & Hx)|Hx]; [by exists k; split; [left|]|].
        exists (s_sub s, s_nodes s). split; [by right|done].
      * intros (k & [Hk| ->] & Hx); [left; eauto|by right].
    + intros k [Hk| ->%list_elem_of_singleton]%elem_of_app; [by apply Hf|done].
    + assert (Hx : forall k x, k ∈ c_found c -> x ∈ dom k.1 -> x ∈ dom (s_sub s) -> False).
      { intros k x Hk Hx Hs. destruct (Bd x Hs) as [_ Ho]. apply Ho, Hc. eauto. }
      intros i j a b x [Ha|[Hli Ha]]%lookup_app_Some [Hb'|[Hlj Hb']]%lookup_app_Some Hxa Hxb.
      * by eapply Hd.
      * apply list_lookup_singleton_Some in Hb' as [? <-]. exfalso.
        eapply Hx; [by eapply list_elem_of_lookup_2|exact Hxa|exact Hxb].
      * apply list_lookup_singleton_Some in Ha as [? <-]. exfalso.
        eapply Hx; [by eapply list_elem_of_lookup_2|exact Hxb|exact Hxa].
      * apply list_lookup_singleton_Some in Ha as [? <-], Hb' as [? <-]. lia.
  - apply Bc. right. by apply Hdom.
  - intros x Hx. apply Bc. by left.
Qed.

(** The handlers are taken in order, so the next without a colour is the least of them. *)
Lemma least_todo g c h todo : StronglySorted Nat.le (h :: todo) ->
  (forall x, node g x -> color_of c x <> 0 \/ x ∈ h :: todo) ->
  forall x, node g x -> color_of c x <> 0 \/ (h <= x)%nat.
Proof.
  intros Hs Hall x Hx. destruct (Hall x Hx) as [?|[->|Hin]%elem_of_cons]; [by left|by right; lia|right].
  apply StronglySorted_inv in Hs as [_ Hf]. by eapply Forall_forall in Hf.
Qed.

Lemma todo_tail g c c' h todo : (forall x, node g x -> color_of c x <> 0 \/ x ∈ h :: todo) ->
  color_of c' h <> 0 -> (forall x, color_of c x <> 0 -> color_of c' x <> 0) ->
  forall x, node g x -> color_of c' x <> 0 \/ x ∈ todo.
Proof.
  intros Hall Hh Hm x Hx. destruct (Hall x Hx) as [?|[->|?]%elem_of_cons]; auto.
Qed.

Lemma sorted_keys g : StronglySorted Nat.le (keys g).
Proof.
  apply Sorted_StronglySorted; [intros ???; unfold Nat.le; lia|].
  apply Sorted_merge_sort. intros ??. unfold Nat.le. lia.
Qed.

Lemma color_nodes_keeps g fuel : forall todo c c', color_inv g c -> (forall x, x ∈ todo -> node g x) ->
  StronglySorted Nat.le todo -> (forall x, node g x -> color_of (c_color c) x <> 0 \/ x ∈ todo) ->
  color_nodes fuel (undirect g).2 (undirect g).1 todo c = Some c' ->
  color_inv g c' /\ (forall x, color_of (c_color c) x <> 0 \/ x ∈ todo -> color_of (c_color c') x <> 0).
Proof.
  induction todo as [|h todo IH]; intros c c' Hi Htodo Hsort Hall H; cbn in H.
  - simplify_eq. split; [done|]. intros x [?|?%not_elem_of_nil]; done.
  - destruct (Z.eqb_spec (color_of (c_color c) h) 0) as [H0|H0].
    + destruct (bfs _ _ _ _ _ _) as [s|] eqn:Hb; [|done].
      destruct (color_step g c h s fuel Hi) as (Hi' & Hh & Hmono);
        [by apply Htodo; left|done|by eapply least_todo|done|].
      destruct (IH _ _ Hi' ltac:(intros x Hx; apply Htodo; by right)
                  ltac:(by inversion Hsort) ltac:(cbn; eapply todo_tail; eauto) H) as [Hi'' Hc'].
      split; [done|]. intros x Hx. apply Hc'. cbn.
      destruct Hx as [Hx|[->|Hx]%elem_of_cons]; [left; auto|by left|by right].
    + destruct (IH _ _ Hi ltac:(intros x Hx; apply Htodo; by right)
                  ltac:(by inversion Hsort) ltac:(eapply todo_tail; eauto) H) as [Hi'' Hc'].
      split; [done|]. intros x Hx. apply Hc'.
      destruct Hx as [Hx|[->|Hx]%elem_of_cons]; [by left|by left|by right].
Qed.

Lemma no_components g : color_inv g (Components g ∅ 1 []).
Proof.
  split; cbn; try done; try lia.
  - intros x. unfold color_of. rewrite lookup_empty. cbn. split; [done|].
    by intros (k & ?%not_elem_of_nil & _).
  - by intros k ?%not_elem_of_nil.
Qed.

(** The colouring finds the components. *)
Theorem components_spec g fuel c : color_graph fuel g = Some c ->
  Forall (component g) (c_found c)
  /\ (forall x, node g x <-> exists k, k ∈ c_found c /\ x ∈ dom k.1)
  /\ (forall i j a b x y, c_found c !! i = Some a -> c_found c !! j = Some b ->
        x ∈ dom a.1 -> y ∈ dom b.1 -> (i = j <-> rtc (adj g) x y)).
Proof.
  unfold color_graph. destruct (undirect_spec g) as (Hund & Hkeys & Hdeg).
  destruct (undirect g) as [deg und] eqn:E. intros H. cbn in Hkeys.
  pose proof (color_nodes_keeps g fuel (keys und) (Components g ∅ 1 []) c (no_components g)) as Hk.
  rewrite E in Hk. 
  destruct Hk as [[Hg Hn Hc Hf Hd] Hall];
    [intros x Hx; by apply Hkeys|apply sorted_keys|intros x Hx; right; by apply Hkeys|done|].
  assert (Hcov : forall x, node g x -> exists k, k ∈ c_found c /\ x ∈ dom k.1).
  { intros x Hx. apply Hc, Hall. right. by apply Hkeys. }
  split_ands.
  - apply Forall_forall. done.
  - intros x. split; [apply Hcov|]. intros (k & Hk & Hx). destruct (Hf k Hk) as ((s & Hs & Hsd & _) & _).
    apply Hsd in Hx. apply rtc_adj_sym, rtc_inv in Hx as [->|(y & Ha & _)]; [done|by eapply adj_node].
  - intros i j a b x y Ha Hb Hx Hy.
    pose proof (Hf a ltac:(by eapply list_elem_of_lookup_2)) as Hca. split.
    + intros ->. simplify_eq. by apply (component_same g a).
    + intros Hr. apply (Hd i j a b y); try done. by apply (component_same g a x).
Qed.

(** *** Some fuel is enough *)

Lemma color_nodes_more g fuel fuel' : (fuel <= fuel')%nat -> forall todo c c',
  color_nodes fuel (undirect g).2 (undirect g).1 todo c = Some c' ->
  color_nodes fuel' (undirect g).2 (undirect g).1 todo c = Some c'.
Proof.
  intros Hle. induction todo as [|h todo IH]; intros c c' H; cbn in *; [done|].
  destruct (_ =? 0); [|by apply IH]. destruct (bfs fuel _ _ _ _ _) as [s|] eqn:Hb; [|done].
  by rewrite (bfs_more _ _ _ _ _ _ _ _ Hle Hb), (IH _ _ H).
Qed.

Lemma color_nodes_ends g : forall todo c, color_inv g c -> (forall x, x ∈ todo -> node g x) ->
  StronglySorted Nat.le todo -> (forall x, node g x -> color_of (c_color c) x <> 0 \/ x ∈ todo) ->
  exists fuel c', color_nodes fuel (undirect g).2 (undirect g).1 todo c = Some c'.
Proof.
  destruct (undirect_spec g) as (Hund & Hkeys & Hdeg).
  assert (Hdom : forall x, node g x -> x ∈ dom (undirect g).2).
  { intros x Hx. apply Hkeys, elem_keys in Hx. by apply elem_of_dom. }
  induction todo as [|h todo IH]; intros c Hi Htodo Hsort Hall; [by exists O, c|]. cbn.
  destruct (Z.eqb_spec (color_of (c_color c) h) 0) as [H0|H0].
  - destruct (bfs_ends (undirect g).2 (undirect g).1 (c_numColors c)) with
      (n := size (uncolored (undirect g).2 (Search (c_graph c) (c_color c) ∅ [])))
      (m := waiting_colored [h] (Search (c_graph c) (c_color c) ∅ []))
      (wl := [h]) (s := Search (c_graph c) (c_color c) ∅ []) as (f1 & s & Hb); try done.
    + pose proof (ci_num g c Hi). lia.
    + intros x ->%list_elem_of_singleton. apply Hdom, Htodo. by left.
    + intros x y Hy. apply Hdom. apply Hund in Hy. eapply adj_node. symmetry. exact Hy.
    + destruct (color_step g c h s f1 Hi) as (Hi' & Hh & Hmono);
        [by apply Htodo; left|done|by eapply least_todo|done|].
      destruct (IH _ Hi' ltac:(intros x Hx; apply Htodo; by right)
                  ltac:(by inversion Hsort) ltac:(cbn; eapply todo_tail; eauto)) as (f2 & c' & Hc').
      exists (Nat.max f1 f2), c'.
      rewrite (bfs_more _ _ _ f1 _ _ _ _ (Nat.le_max_l f1 f2) Hb).
      by apply (color_nodes_more g f2 _ (Nat.le_max_r f1 f2)).
  - destruct (IH c Hi ltac:(intros x Hx; apply Htodo; by right)
                ltac:(by inversion Hsort) ltac:(eapply todo_tail; eauto)) as (f & c' & Hc').
    by exists f, c'.
Qed.

(** Colouring ends, with a fuel that depends on the graph. *)
Theorem color_graph_ends g : exists fuel c, color_graph fuel g = Some c.
Proof.
  destruct (undirect_spec g) as (Hund & Hkeys & Hdeg).
  destruct (color_nodes_ends g (keys (undirect g).2) (Components g ∅ 1 [])) as (fuel & c & H).
  - apply no_components.
  - intros x Hx. by apply Hkeys.
  - apply sorted_keys.
  - intros x Hx. right. by apply Hkeys.
  - exists fuel, c. unfold color_graph. by destruct (undirect g).
Qed.

(** ** Counting edges *)

Lemma edges_into_none g us x : (forall u, u ∈ us -> x ∉ gget g u) -> edges_into g us x = 0.
Proof.
  induction us as [|u us IH]; intros H; [done|]. rewrite edges_into_cons, IH.
  - pose proof (cnt_nonneg x (gget g u)). pose proof (cnt_pos x (gget g u)) as Hp.
    assert (~ 0 < cnt x (gget g u)); [|lia]. rewrite Hp. apply H. by left.
  - intros v Hv. apply H. by right.
Qed.

(** Distinct nodes have no more edges into [x] than there are. *)
Lemma edges_into_le g us x : NoDup us -> edges_into g us x <= edges_into g (keys g) x.
Proof.
  intros Hn. set (P := fun u => u ∈ keys g).
  assert (Hsub : filter P us ⊆+ keys g).
  { apply NoDup_submseteq; [by apply NoDup_filter|]. by intros u [? _]%list_elem_of_filter. }
  apply submseteq_Permutation in Hsub as [rest Hrest].
  rewrite (edges_into_perm g _ _ x Hrest), edges_into_app.
  assert (Hf : edges_into g us x = edges_into g (filter P us) x).
  { clear. induction us as [|u us IH]; [done|]. rewrite filter_cons.
    destruct (decide (P u)) as [Hu|Hu]; rewrite !edges_into_cons, IH; [done|].
    replace (gget g u) with (@nil nat); [unfold cnt; cbn; lia|].
    unfold P in Hu. rewrite elem_keys in Hu. unfold gget. destruct (g !! u); [|done].
    destruct Hu. by eexists. }
  pose proof (edges_into_nonneg g rest x). lia.
Qed.

(** When they have all of them, they are all the sources of such edges. *)
Lemma edges_into_all g us x u : NoDup us -> edges_into g us x = edges_into g (keys g) x ->
  x ∈ gget g u -> u ∈ us.
Proof.
  intros Hn He Hx. destruct (decide (u ∈ us)) as [|Hu]; [done|].
  pose proof (edges_into_le g (u :: us) x ltac:(by constructor)) as Hle.
  rewrite edges_into_cons in Hle. apply cnt_pos in Hx. lia.
Qed.

(** ** The order of a component *)

(** The targets of a handler, when no count is below the edges that are removed. *)
Lemma relax_spec edges : forall deg wl, (forall x, x ∈ edges -> cnt x edges <= dget deg x) ->
  exists deg' pushed, fold_left relax edges (deg, wl) = (deg', wl ++ pushed)
    /\ (forall x, dget deg' x = dget deg x - cnt x edges) /\ NoDup pushed
    /\ (forall x, x ∈ pushed <-> x ∈ edges /\ dget deg x = cnt x edges).
Proof.
  induction edges as [|t edges IH]; intros deg wl H.
  - exists deg, []. rewrite app_nil_r. split_ands; [done| |constructor|set_solver].
    intros x. unfold cnt. cbn. lia.
  - cbn [fold_left]. unfold relax at 2. set (d := dget deg t - 1).
    set (wl1 := if d =? 0 then wl ++ [t] else wl). set (deg1 := <[t := d]> deg).
    assert (Hd1 : forall x, dget deg1 x = dget deg x - (if decide (x = t) then 1 else 0)).
    { intros x. unfold deg1, d. rewrite dget_insert. destruct (decide (x = t)) as [->|]; lia. }
    destruct (IH deg1 wl1) as (deg' & pushed & Hf & Hd & Hn & Hp).
    { intros x Hx. specialize (H x ltac:(by right)). rewrite Hd1. rewrite cnt_cons in H. lia. }
    pose proof (H t ltac:(by left)) as Ht. rewrite cnt_cons, decide_True in Ht by done.
    rewrite Hf. unfold wl1. destruct (Z.eqb_spec d 0) as [H0|H0].
    + exists deg', (t :: pushed). rewrite <- app_assoc. split_ands; [done|..].
      * intros x. rewrite Hd, Hd1, cnt_cons. lia.
      * constructor; [|done]. rewrite Hp. intros [Hin _]. apply cnt_pos in Hin. unfold d in H0. lia.
      * intros x. rewrite !elem_of_cons, Hp, Hd1, cnt_cons. unfold d in H0.
        destruct (decide (x = t)) as [->|]; [|split; intros; naive_solver lia].
        pose proof (cnt_nonneg t edges). split; [intros _; split; [by left|lia]|by left].
    + exists deg', pushed. split_ands; [done|..|done|].
      * intros x. rewrite Hd, Hd1, cnt_cons. lia.
      * intros x. rewrite Hp, elem_of_cons, Hd1, cnt_cons.
        destruct (decide (x = t)) as [->|]; [|split; intros; naive_solver lia].
        split; [intros [? ?]; split; [by left|lia]|]. intros [_ He]. unfold d in H0.
        assert (Hc : 0 < cnt t edges) by (pose proof (cnt_nonneg t edges); lia).
        apply cnt_pos in Hc. split; [done|lia].
Qed.

(** In any case the counts outside the targets stay, and what is pushed are targets. *)
Lemma relax_others edges : forall deg wl deg' wl', fold_left relax edges (deg, wl) = (deg', wl') ->
  (forall x, x ∉ edges -> dget deg' x = dget deg x)
  /\ (forall x, x ∈ wl' -> x ∈ wl \/ x ∈ edges).
Proof.
  induction edges as [|t edges IH]; intros deg wl deg' wl' H; cbn [fold_left] in H.
  - simplify_eq. split; [done|by left].
  - unfold relax at 2 in H. destruct (IH _ _ _ _ H) as [Hd Hw]. split.
    + intros x Hx. apply not_elem_of_cons in Hx as [Hne Hx]. by rewrite Hd, dget_insert, decide_False.
    + intros x Hx. apply Hw in Hx as [Hx|Hx]; [|right; by right]. destruct (_ =? 0); [|by left].
      apply elem_of_app in Hx as [?| ->%list_elem_of_singleton]; [by left|right; by left].
Qed.

(** Counts only change inside a set that edges do not leave. *)
Lemma sort_others g comp fuel : (forall u v, comp u -> v ∈ gget g u -> comp v) ->
  forall wl deg nodes deg' nodes', (forall x, x ∈ wl -> comp x) ->
  sort_component fuel g wl deg nodes = Some (deg', nodes') ->
  forall x, ~ comp x -> dget deg' x = dget deg x.
Proof.
  intros Hc. induction fuel as [|fuel IH]; intros [|cur wl] deg nodes deg' nodes' Hwl H x Hx;
    cbn in H; simplify_eq; try done.
  destruct (fold_left relax (gget g cur) (deg, wl)) as [deg1 wl1] eqn:Er.
  destruct (relax_others _ _ _ _ _ Er) as [Hd Hw]. pose proof (Hwl cur ltac:(by left)) as Hcur.
  rewrite (IH wl1 deg1 _ _ _ ltac:(intros y Hy; destruct (Hw y Hy); [apply Hwl; by right|by eapply Hc]) H x Hx).
  apply Hd. intros Hin. apply Hx. by eapply Hc.
Qed.

(** Each round takes a handler from the worklist, and adds those whose count becomes 0. *)
Definition positive (deg : degT) : gset nat := filter (fun x => 0 < dget deg x) (dom deg).

Lemma relax_measure edges : forall deg wl deg' wl', fold_left relax edges (deg, wl) = (deg', wl') ->
  (length wl' + size (positive deg') <= length wl + size (positive deg))%nat.
Proof.
  induction edges as [|t edges IH]; intros deg wl deg' wl' H; cbn [fold_left] in H; [by simplify_eq|].
  unfold relax at 2 in H. etrans; [by eapply IH|]. set (d := dget deg t - 1).
  assert (Hsub : positive (<[t := d]> deg) ⊆ positive deg).
  { intros x. unfold positive. rewrite !elem_of_filter, dget_insert, dom_insert, elem_of_union, elem_of_singleton.
    unfold d. destruct (decide (x = t)) as [->|]; [|tauto]. intros [Hp _]. split; [lia|].
    unfold dget in Hp. destruct (deg !! t) eqn:E; [by eapply elem_of_dom_2|cbn in Hp; lia]. }
  destruct (Z.eqb_spec d 0) as [H0|H0].
  - rewrite length_app. cbn. enough (size (positive (<[t := d]> deg)) < size (positive deg))%nat by lia.
    apply subset_size. split; [done|]. intros Hs. specialize (Hs t).
    unfold positive in Hs. rewrite !elem_of_filter, dget_insert, decide_True in Hs by done.
    destruct Hs as [? _]; [|lia]. unfold d in H0. split; [lia|].
    unfold dget in H0. destruct (deg !! t) eqn:E; [by eapply elem_of_dom_2|cbn in H0; lia].
  - apply subseteq_size in Hsub. lia.
Qed.

Lemma sort_ends g fuel : forall wl deg nodes, (length wl + size (positive deg) <= fuel)%nat ->
  exists deg' nodes', sort_component fuel g wl deg nodes = Some (deg', nodes')
    /\ (size (positive deg') <= length wl + size (positive deg))%nat.
Proof.
  induction fuel as [|fuel IH]; intros [|cur wl] deg nodes Hf; cbn in *; try lia.
  - exists deg, nodes. split; [done|lia].
  - exists deg, nodes. split; [done|lia].
  - destruct (fold_left relax (gget g cur) (deg, wl)) as [deg1 wl1] eqn:Er.
    apply relax_measure in Er. destruct (IH wl1 deg1 (nodes ++ [cur])) as (deg' & nodes' & H & Hs); [lia|].
    exists deg', nodes'. split; [done|lia].
Qed.

Lemma sort_all_end g fuel : forall initial deg,
  (length (concat initial) + size (positive deg) <= fuel)%nat ->
  exists orders, sort_components fuel g initial deg = Some orders.
Proof.
  induction initial as [|wl initial IH]; intros deg Hf; [by exists []|]. cbn in *.
  rewrite length_app in Hf.
  destruct (sort_ends g fuel wl deg []) as (deg' & nodes & -> & Hs); [lia|].
  destruct (IH deg') as (orders & ->); [lia|]. by eexists.
Qed.

(** The whole analysis ends. *)
Theorem getConnectedComponents_ends g :
  exists fuel subs orders, getConnectedComponents fuel g = Some (subs, orders).
Proof.
  destruct (color_graph_ends g) as (f1 & c & Hc).
  set (f2 := (length (concat (map snd (c_found c))) + size (positive (undirect g).1))%nat).
  exists (Nat.max f1 f2). unfold getConnectedComponents.
  assert (Hc' : color_graph (Nat.max f1 f2) g = Some c).
  { unfold color_graph in *. pose proof (color_nodes_more g f1 (Nat.max f1 f2) ltac:(lia)) as Hm.
    destruct (undirect g). by apply Hm. }
  rewrite Hc'. destruct (sort_all_end (c_graph c) (Nat.max f1 f2) (map snd (c_found c)) (undirect g).1) as [o ->];
    [fold f2; lia|]. by eexists _, _.
Qed.

(** More fuel changes nothing. *)
Lemma sort_more g fuel : forall fuel' wl deg nodes r, (fuel <= fuel')%nat ->
  sort_component fuel g wl deg nodes = Some r -> sort_component fuel' g wl deg nodes = Some r.
Proof.
  induction fuel as [|fuel IH]; intros [|fuel'] [|cur wl] deg nodes r Hle H; cbn in *; try done; try lia.
  destruct (fold_left relax _ _) as [deg1 wl1]. apply IH; [lia|done].
Qed.

Lemma sort_components_more g fuel fuel' : (fuel <= fuel')%nat -> forall initial deg orders,
  sort_components fuel g initial deg = Some orders -> sort_components fuel' g initial deg = Some orders.
Proof.
  intros Hle. induction initial as [|wl initial IH]; intros deg orders H; cbn in *; [done|].
  destruct (sort_component fuel g wl deg []) as [[deg1 nodes]|] eqn:E; [|done].
  rewrite (sort_more _ _ _ _ _ _ _ Hle E). destruct (sort_components fuel g initial deg1) as [l|] eqn:El; [|done].
  by rewrite (IH _ _ El).
Qed.

Lemma getConnectedComponents_more g fuel fuel' r : (fuel <= fuel')%nat ->
  getConnectedComponents fuel g = Some r -> getConnectedComponents fuel' g = Some r.
Proof.
  intros Hle. unfold getConnectedComponents, color_graph. pose proof (color_nodes_more g fuel fuel' Hle) as Hc.
  destruct (undirect g) as [deg und] eqn:Eu. cbn [fst snd] in *.
  destruct (color_nodes fuel und deg (keys und) (Components g ∅ 1 [])) as [c|] eqn:E; [|done].
  rewrite (Hc _ _ _ E). destruct (sort_components fuel _ _ _) as [o|] eqn:Eo; [|done].
  by rewrite (sort_components_more _ _ _ Hle _ _ _ Eo).
Qed.

(** From some fuel on the result is the same. *)
Corollary getConnectedComponents_result g : exists n subs orders,
  forall fuel, (n <= fuel)%nat -> getConnectedComponents fuel g = Some (subs, orders).
Proof.
  destruct (getConnectedComponents_ends g) as (n & subs & orders & H). exists n, subs, orders.
  intros fuel Hle. by eapply getConnectedComponents_more.
Qed.

Section Sort.

Context (g : graphT) (comp : nat -> Prop) (deg0 : degT).
Context (Hout : forall u v, comp u -> v ∈ gget g u -> comp v).
Context (Hin : forall u v, comp v -> v ∈ gget g u -> comp u).
Context (Hdeg0 : forall x, comp x -> dget deg0 x = edges_into g (keys g) x).

(** [l] lists handlers after all that send to them. *)
Definition after_sources (l : list nat) : Prop :=
  forall l1 v l2, l = l1 ++ v :: l2 -> forall u, v ∈ gget g u -> u ∈ l1.

Record sort_inv (nodes wl : list nat) (deg : degT) : Prop := {
  si_nodup : NoDup (nodes ++ wl);
  si_comp : forall x, x ∈ nodes ++ wl -> comp x;
  si_deg : forall x, comp x -> dget deg x = edges_into g (keys g) x - edges_into g nodes x;
  si_zero : forall x, comp x -> x ∈ nodes ++ wl <-> dget deg x = 0;
  si_order : after_sources nodes }.

Lemma sort_inv_init wl : NoDup wl ->
  (forall x, x ∈ wl <-> comp x /\ edges_into g (keys g) x = 0) -> sort_inv [] wl deg0.
Proof.
  intros Hn Hw. split; cbn; try done.
  - intros x Hx. by apply Hw.
  - intros x Hx. rewrite Hdeg0 by done. change (edges_into g [] x) with 0. lia.
  - intros x Hx. rewrite Hw, Hdeg0 by done. tauto.
  - intros [|? ?] v l2 H; done.
Qed.

Lemma after_sources_app nodes cur : after_sources nodes -> (forall u, cur ∈ gget g u -> u ∈ nodes) ->
  after_sources (nodes ++ [cur]).
Proof.
  intros Ha Hc l1 v l2 He u Hu. destruct l2 as [|z l2] using rev_ind.
  - apply app_inj_tail in He as [-> ->]. by apply Hc.
  - rewrite app_comm_cons, app_assoc in He. apply app_inj_tail in He as [-> _]. by eapply Ha.
Qed.

Lemma sort_step nodes cur wl deg : sort_inv nodes (cur :: wl) deg ->
  exists deg' pushed, fold_left relax (gget g cur) (deg, wl) = (deg', wl ++ pushed)
    /\ sort_inv (nodes ++ [cur]) (wl ++ pushed) deg'.
Proof.
  intros [Hn Hc Hd Hz Ho].
  assert (Hcur : comp cur) by (apply Hc; set_solver).
  assert (Hnc : NoDup (nodes ++ [cur])).
  { replace (nodes ++ cur :: wl) with ((nodes ++ [cur]) ++ wl) in Hn by (by rewrite <- app_assoc).
    by apply NoDup_app in Hn as [? _]. }
  assert (Hge : forall x, comp x -> cnt x (gget g cur) <= dget deg x).
  { intros x Hx. rewrite Hd by done. pose proof (edges_into_le g (nodes ++ [cur]) x Hnc) as Hle.
    rewrite edges_into_app, edges_into_cons in Hle. change (edges_into g [] x) with 0 in Hle. lia. }
  destruct (relax_spec (gget g cur) deg wl) as (deg' & pushed & Hf & Hd' & Hnp & Hp).
  { intros x Hx. apply Hge. by eapply Hout. }
  exists deg', pushed. split; [done|].
  assert (Hpc : forall x, x ∈ pushed -> comp x /\ dget deg x <> 0).
  { intros x Hx. apply Hp in Hx as [Hx He]. split; [by eapply Hout|]. apply cnt_pos in Hx. lia. }
  assert (Heq : (nodes ++ [cur]) ++ wl ++ pushed = (nodes ++ cur :: wl) ++ pushed)
    by (by rewrite <- !app_assoc).
  split.
  - rewrite Heq. apply NoDup_app. split_ands; [done| |done]. intros x Hx Hxp.
    destruct (Hpc x Hxp) as [Hxc Hne]. apply Hne. by apply Hz.
  - rewrite Heq. intros x [Hx|Hx]%elem_of_app; [by apply Hc|by apply Hpc].
  - intros x Hx. rewrite Hd', Hd, edges_into_app, edges_into_cons by done.
    change (edges_into g [] x) with 0. lia.
  - intros x Hx. rewrite Heq, elem_of_app, Hz, Hp, Hd' by done. specialize (Hge x Hx).
    pose proof (cnt_nonneg x (gget g cur)). pose proof (cnt_pos x (gget g cur)) as Hpos. split; [lia|].
    intros H0. destruct (decide (0 < cnt x (gget g cur))) as [Hlt|]; [|left; lia].
    right. split; [by apply Hpos|lia].
  - apply after_sources_app; [done|]. intros u Hu.
    assert (He : edges_into g nodes cur = edges_into g (keys g) cur).
    { assert (H0 : dget deg cur = 0) by (apply Hz; [done|set_solver]). rewrite Hd in H0 by done. lia. }
    eapply edges_into_all; [|exact He|exact Hu]. by apply NoDup_app in Hnc as [? _].
Qed.

Lemma sort_keeps fuel : forall nodes wl deg deg' nodes', sort_inv nodes wl deg ->
  sort_component fuel g wl deg nodes = Some (deg', nodes') -> sort_inv nodes' [] deg'.
Proof.
  induction fuel as [|fuel IH]; intros nodes [|cur wl] deg deg' nodes' Hi H; cbn in H; simplify_eq; try done.
  destruct (sort_step _ _ _ _ Hi) as (deg1 & pushed & Hf & Hi'). rewrite Hf in H. by eapply IH.
Qed.

(** What the order of a component is, when its first handlers are noted once. *)
Record topological (nodes : list nat) : Prop := {
  tp_nodup : NoDup nodes;
  tp_comp : forall x, x ∈ nodes -> comp x;
  tp_order : after_sources nodes;
  tp_all : forall rank : nat -> nat, (forall u v, comp u -> v ∈ gget g u -> (rank u < rank v)%nat) ->
    forall x, comp x -> x ∈ nodes }.

Lemma sort_inv_topological nodes deg : sort_inv nodes [] deg -> topological nodes.
Proof.
  intros [Hn Hc Hd Hz Ho]. rewrite app_nil_r in *. split; try done.
  intros rank Hr x Hx. remember (rank x) as n eqn:En. revert x Hx En.
  induction n as [n IH] using lt_wf_ind. intros x Hx ->. apply Hz; [done|]. rewrite Hd by done.
  enough (edges_into g (keys g) x <= edges_into g nodes x)
    by (pose proof (edges_into_le g nodes x Hn); lia).
  assert (Hall : forall us, NoDup us -> edges_into g us x <= edges_into g nodes x).
  { intros us Hus. set (P := fun u => u ∈ nodes).
    assert (Hsub : filter P us ⊆+ nodes).
    { apply NoDup_submseteq; [by apply NoDup_filter|]. by intros u [? _]%list_elem_of_filter. }
    apply submseteq_Permutation in Hsub as [rest Hrest].
    rewrite (edges_into_perm g nodes _ x Hrest), edges_into_app.
    pose proof (edges_into_nonneg g rest x). enough (edges_into g us x = edges_into g (filter P us) x) by lia.
    clear -Hr Hx IH Hin. induction us as [|u us IHus]; [done|]. rewrite filter_cons.
    destruct (decide (P u)) as [Hu|Hu]; rewrite !edges_into_cons, IHus; [done|].
    enough (cnt x (gget g u) = 0) by lia. pose proof (cnt_nonneg x (gget g u)).
    destruct (decide (0 < cnt x (gget g u))) as [Hp|]; [|lia]. apply cnt_pos in Hp.
    destruct Hu. apply (IH (rank u)) with (x := u); [|by eapply Hin|done]. apply Hr; [by eapply Hin|done]. }
  apply Hall, NoDup_keys.
Qed.

End Sort.

(** ** The analysis *)

Lemma sort_component_same g h fuel : (forall x, gget h x = gget g x) -> forall wl deg nodes,
  sort_component fuel h wl deg nodes = sort_component fuel g wl deg nodes.
Proof.
  intros He. induction fuel as [|fuel IH]; intros [|cur wl] deg nodes; cbn; try done.
  rewrite He. by destruct (fold_left _ _ _).
Qed.

(** A component is sorted from the counts of the graph, whatever was sorted before. *)
Lemma sort_components_nth g fuel (comp : nat -> Prop) : forall initial deg orders i wl,
  sort_components fuel g initial deg = Some orders -> initial !! i = Some wl ->
  (forall j wl', (j < i)%nat -> initial !! j = Some wl' -> exists comp' : nat -> Prop,
    (forall u v, comp' u -> v ∈ gget g u -> comp' v) /\ (forall x, x ∈ wl' -> comp' x)
    /\ (forall x, comp x -> ~ comp' x)) ->
  exists nodes deg1 deg2, orders !! i = Some nodes
    /\ sort_component fuel g wl deg1 [] = Some (deg2, nodes)
    /\ forall x, comp x -> dget deg1 x = dget deg x.
Proof.
  induction initial as [|wl0 initial IH]; intros deg orders i wl H Hi Hj; [done|]. cbn in H.
  destruct (sort_component fuel g wl0 deg []) as [[deg1 nodes0]|] eqn:H0; [|done].
  destruct (sort_components fuel g initial deg1) as [l|] eqn:Hl; [|done]. simplify_eq H. intros <-.
  destruct i as [|i]; cbn in Hi; [simplify_eq; by exists nodes0, deg, deg1|].
  destruct (Hj O wl0) as (comp0 & Hc0 & Hw0 & Hd0); [lia|done|].
  destruct (IH deg1 l i wl Hl Hi) as (nodes & d1 & d2 & Hn & Hs & Hd).
  { intros j wl' Hlt Hwl'. apply (Hj (S j)); [lia|done]. }
  exists nodes, d1, d2. split_ands; [done|done|]. intros x Hx. rewrite Hd by done.
  eapply (sort_others g comp0 fuel Hc0 wl0); [exact Hw0|exact H0|by apply Hd0].
Qed.

(** The subgraphs of a result are the components. *)
Lemma components_of_result g fuel subs orders :
  getConnectedComponents fuel g = Some (subs, orders) ->
  (forall x, node g x <-> exists sub, sub ∈ subs /\ x ∈ dom sub)
  /\ (forall i j a b x y, subs !! i = Some a -> subs !! j = Some b -> x ∈ dom a -> y ∈ dom b ->
        (i = j <-> rtc (adj g) x y))
  /\ (forall sub x l, sub ∈ subs -> sub !! x = Some l -> l = gget g x)
  /\ length orders = length subs.
Proof.
  unfold getConnectedComponents. destruct (color_graph fuel g) as [c|] eqn:Hc; [|done].
  destruct (sort_components _ _ _ _) as [os|] eqn:Hs; [|done]. intros [= <- <-].
  destruct (components_spec g fuel c Hc) as (Hcomp & Hcov & Hsame).
  rewrite Forall_forall in Hcomp. split_ands.
  - intros x. rewrite Hcov. split.
    + intros (k & Hk & Hx). exists k.1. split; [|done]. by apply list_elem_of_fmap_2.
    + intros (sub & (k & -> & Hk)%list_elem_of_fmap & Hx). by exists k.
  - intros i j a b x y (ka & Ha & Hia)%list_lookup_fmap_Some (kb & Hb & Hjb)%list_lookup_fmap_Some Hx Hy.
    subst. by eapply Hsame.
  - intros sub x l (k & -> & Hk)%list_elem_of_fmap. destruct (Hcomp k Hk) as (_ & Hl & _). apply Hl.
  - rewrite length_map. rewrite <- (length_map snd (c_found c)). revert Hs.
    generalize (map snd (c_found c)), (undirect g).1, os. clear.
    induction l as [|wl l IH]; intros deg os H; cbn in H; [by simplify_eq|].
    destruct (sort_component _ _ _ _ _) as [[d n]|]; [|done].
    destruct (sort_components _ _ l d) eqn:E; [|done]. simplify_eq H. intros <-. cbn. f_equal. by eapply IH.
Qed.

(** The orders of a result. *)
Lemma order_of_result g fuel subs orders i sub :
  getConnectedComponents fuel g = Some (subs, orders) -> subs !! i = Some sub ->
  exists start nodes, start ∈ dom sub /\ (forall x, x ∈ dom sub -> (start <= x)%nat)
    /\ orders !! i = Some nodes
    /\ ((forall x, x ∈ dom sub -> edges_into g (keys g) x = 0 -> x = start) ->
        topological g (fun x => x ∈ dom sub) nodes).
Proof.
  unfold getConnectedComponents. destruct (color_graph fuel g) as [c|] eqn:Hc; [|done].
  destruct (sort_components _ _ _ _) as [os|] eqn:Hs; [|done]. intros [= <- <-].
  intros (k & Hk & Hik)%list_lookup_fmap_Some. subst sub.
  destruct (components_spec g fuel c Hc) as (Hcomp & Hcov & Hsame). rewrite Forall_forall in Hcomp.
  assert (Hg : forall x, gget (c_graph c) x = gget g x).
  { unfold color_graph in Hc. destruct (undirect_spec g) as (Hund & Hkeys & Hdeg).
    pose proof (color_nodes_keeps g fuel (keys (undirect g).2) (Components g ∅ 1 []) c
      (no_components g)) as Hkeep. destruct (undirect g) as [deg und] eqn:E. cbn in *.
    destruct Hkeep as [Hi _]; [intros x Hx; by apply Hkeys|apply sorted_keys|
      intros x Hx; right; by apply Hkeys|done|]. by destruct Hi. }
  pose proof (Hcomp k ltac:(by eapply list_elem_of_lookup_2)) as Hck.
  destruct (sort_components_nth (c_graph c) fuel (fun x => x ∈ dom k.1) _ _ _ i k.2 Hs)
    as (nodes & d1 & d2 & Hn & Hsort & Hd).
  { apply list_lookup_fmap_Some. by exists k. }
  { intros j wl' Hlt (k' & -> & Hk')%list_lookup_fmap_Some. exists (fun x => x ∈ dom k'.1).
    pose proof (Hcomp k' ltac:(by eapply list_elem_of_lookup_2)) as Hck'. split_ands.
    - intros u v Hu Hv. rewrite Hg in Hv. eapply component_closed; [done|done|by left].
    - intros x Hx. by apply Hck' in Hx as [? _].
    - intros x Hx Hx'. assert (j = i) by (by eapply (Hsame j i k' k x x)). lia. }
  pose proof Hck as ((start & _ & Hdom & Hleast & Honce) & _ & Hini).
  exists start, nodes. split_ands; [by apply Hdom|done|done|]. intros Hone.
  rewrite (sort_component_same g) in Hsort by done.
  assert (Hout : forall u v, u ∈ dom k.1 -> v ∈ gget g u -> v ∈ dom k.1)
    by (intros u v Hu Hv; eapply component_closed; [done|done|by left]).
  assert (Hin : forall u v, v ∈ dom k.1 -> v ∈ gget g u -> u ∈ dom k.1)
    by (intros u v Hu Hv; eapply component_closed; [done|done|by right]).
  assert (Hdeg : forall x, x ∈ dom k.1 -> dget d1 x = edges_into g (keys g) x)
    by (intros x Hx; rewrite Hd by done; apply undirect_spec).
  apply (sort_inv_topological g (fun x => x ∈ dom k.1) Hin) with (deg := d2).
  eapply (sort_keeps g (fun x => x ∈ dom k.1) d1 Hout Hin Hdeg); [|exact Hsort].
  apply (sort_inv_init g (fun x => x ∈ dom k.1) d1 Hdeg); [by apply Honce|done].
Qed.

(** C18: The dependency analysis ends on every graph, and finds exactly its
    connected components: from some fuel on the result is the same, and in it
    every handler, and every target of an event, is in one subgraph; two are in
    the same subgraph if and only if a chain of edges connects them, in either
    direction; and a subgraph has the edges of the graph. *)
Theorem connected_components g : exists n subs orders,
  (forall fuel, (n <= fuel)%nat -> getConnectedComponents fuel g = Some (subs, orders))
  /\ (forall x, node g x <-> exists sub, sub ∈ subs /\ x ∈ dom sub)
  /\ (forall i j a b x y, subs !! i = Some a -> subs !! j = Some b -> x ∈ dom a -> y ∈ dom b ->
        (i = j <-> rtc (adj g) x y))
  /\ (forall sub x l, sub ∈ subs -> sub !! x = Some l -> l = gget g x)
  /\ length orders = length subs.
Proof.
  destruct (getConnectedComponents_result g) as (n & subs & orders & H). exists n, subs, orders.
  split; [exact H|]. by apply (components_of_result g n), H.
Qed.

(** C19: The analysis ends on every graph with an order for every component, and
    that of a component whose first handler by address is its only one without
    predecessors is topological: it lists no handler twice, lists each after all
    that send events to it, and lists every handler when there is no cycle. *)
Theorem component_order g : exists n subs orders,
  (forall fuel, (n <= fuel)%nat -> getConnectedComponents fuel g = Some (subs, orders))
  /\ forall i sub, subs !! i = Some sub ->
    exists start nodes, start ∈ dom sub /\ (forall x, x ∈ dom sub -> (start <= x)%nat)
      /\ orders !! i = Some nodes
      /\ ((forall x, x ∈ dom sub -> edges_into g (keys g) x = 0 -> x = start) ->
          topological g (fun x => x ∈ dom sub) nodes).
Proof.
  destruct (getConnectedComponents_result g) as (n & subs & orders & H). exists n, subs, orders.
  split; [exact H|]. intros i sub Hs. by eapply order_of_result; [apply (H n)|].
Qed.

Definition demo_graph : graphT := list_to_map [(1, [3; 2]); (2, [4]); (3, [4; 5]); (7, [8])]%nat.
Definition demo_subs : list graphT :=
  [list_to_map [(1, [3; 2]); (2, [4]); (3, [4; 5]); (4, []); (5, [])];
   list_to_map [(7, [8]); (8, [])]]%nat.
Definition demo_orders : list (list nat) := [[1; 3; 2; 5; 4]; [7; 8]]%nat.

Definition demo_sub : graphT := list_to_map [(1, [3; 2]); (2, [4]); (3, [4; 5]); (4, []); (5, [])]%nat.

Lemma demo_dom x : x ∈ dom demo_sub -> In x [1; 2; 3; 4; 5]%nat.
Proof.
  intros H. apply elem_of_dom in H as [l H]. apply elem_of_list_to_map_2 in H.
  apply list_elem_of_In in H. cbn in *. naive_solver.
Qed.

Lemma demo_root x : x ∈ dom demo_sub -> edges_into demo_graph (keys demo_graph) x = 0 -> x = 1%nat.
Proof.
  intros H%demo_dom H0. cbn in H.
  repeat destruct H as [<-|H]; try done; vm_compute in H0; done.
Qed.

(** What the analysis gives here. *)
Lemma demo_result n subs orders :
  (forall fuel, (n <= fuel)%nat -> getConnectedComponents fuel demo_graph = Some (subs, orders)) ->
  subs = demo_subs /\ orders = demo_orders.
Proof.
  intros H. assert (Hd : getConnectedComponents 20 demo_graph = Some (demo_subs, demo_orders)) by (vm_compute; reflexivity).
  apply (getConnectedComponents_more _ 20 (Nat.max n 20) _ (Nat.le_max_r _ _)) in Hd.
  rewrite (H _ (Nat.le_max_l _ _)) in Hd. by injection Hd.
Qed.

Lemma component_order_witness : topological demo_graph (fun x => x ∈ dom demo_sub) [1; 3; 2; 5; 4]%nat.
Proof.
  destruct (component_order demo_graph) as (n & subs & orders & H & Ho).
  destruct (demo_result n subs orders H) as [-> ->].
  destruct (Ho 0%nat demo_sub) as (start & nodes & Hs & Hleast & Hn & Ht); [reflexivity|].
  injection Hn as <-. apply Ht. intros x Hx Hx0. pose proof (demo_root x Hx Hx0) as ->.
  pose proof (Hleast 1%nat Hx). pose proof (demo_dom start Hs) as Hin. cbn in Hin. lia.
Defined.

(** Handler 8, the target of an event, is in the second subgraph, and no chain of edges
    connects it to handler 1. *)
Lemma connected_components_witness : node demo_graph 8%nat /\ ~ rtc (adj demo_graph) 1%nat 8%nat.
Proof.
  destruct (connected_components demo_graph) as (n & subs & orders & H & Hn & Hc & _).
  destruct (demo_result n subs orders H) as [-> _]. split.
  - apply Hn. exists (list_to_map [(7, [8]); (8, [])]%nat).
    split; [right; left|]; by apply (bool_decide_unpack _); vm_compute.
  - intros Hr. assert (E : 0%nat = 1%nat); [|discriminate E].
    eapply (Hc 0%nat 1%nat); [reflexivity|reflexivity| | |exact Hr]; by apply (bool_decide_unpack _); vm_compute.
Defined.

(** ** Behaviour at the edges *)

(** With handler 1 first and handler 2 the only one without predecessors, the search
    queues 2 twice: it is listed twice, and handler 4 before handler 3 that sends to it. *)
Lemma order_not_topological :
  (fun r => r.2) <$> getConnectedComponents 20
    (list_to_map [(1, [4; 3]); (2, [4; 1]); (3, [4])]%nat)
  = Some [[2; 2; 1; 4; 3]%nat].
Proof. by vm_compute. Qed.

(** A cycle of handlers has no order at all. *)
Lemma cycle_not_ordered :
  (fun r => r.2) <$> getConnectedComponents 20 (list_to_map [(1, [2]); (2, [1])]%nat) = Some [[]].
Proof. by vm_compute. Qed.

(** Every handler that does not send to itself counts as the start of a chain. *)
Lemma every_handler_starts_chain g f : f ∈ keys g -> f ∉ gget g f -> isStartOfChain g f = true.
Proof.
  intros Hf Hn. unfold isStartOfChain. apply existsb_exists. exists f.
  split; [by apply list_elem_of_In|]. apply negb_true_iff. unfold edge_to.
  destruct (existsb (Nat.eqb f) (gget g f)) eqn:E; [|done].
  apply existsb_exists in E as (x & Hx & ->%Nat.eqb_eq). by apply list_elem_of_In in Hx.
Qed.

(** A returned event that no handler takes dereferences the end of the map. *)
Lemma unhandled_event_deref m ef t : find_name t m = None -> find_general t m = None ->
  targets_of m ef t = DerefEnd.
Proof. unfold targets_of. by intros -> ->. Qed.

(** The forwards of an extern are looked up under a name that was not found: they never
    add an edge. *)
Lemma extern_forwards_ignored m ef t h : find_name t m = None -> find_general t m = Some h ->
  targets_of m ef t = Done [h_addr h].
Proof.
  unfold targets_of. intros -> ->. destruct (negb _); [done|]. do 2 f_equal.
  generalize (from_option snd [] (List.find (fun p => String.eqb p.1 (event t)) ef)).
  by induction l.
Qed.

(** So the target of a returned event is the handler that [lookupHandler] finds. *)
Lemma targets_spec m ef t : targets_of m ef t
  = match lookupHandler t m with Some h => Done [h_addr h] | None => DerefEnd end.
Proof.
  unfold lookupHandler. destruct (find_name t m) as [h|] eqn:Hf; [unfold targets_of; by rewrite Hf|].
  destruct (find_general t m) as [h|] eqn:Hg; [by apply extern_forwards_ignored|].
  by apply unhandled_event_deref.
Qed.

(** The handler an event reaches: the exact name before the event alone. *)
Lemma lookupHandler_spec n m h : lookupHandler n m = Some h ->
  exists k, In (k, h) m /\ event k = event n /\ (atom k = atom n \/ (atom k = ""%string /\ find_name n m = None)).
Proof.
  unfold lookupHandler. destruct (find_name n m) as [h'|] eqn:Hf.
  - intros [= ->]. unfold find_name in Hf.
    destruct (List.find _ m) as [[k h']|] eqn:E; [|done]. apply find_some in E as [Hin Hk].
    apply bool_decide_eq_true in Hk. cbn in *. simplify_eq. exists n. auto.
  - unfold find_general. destruct (List.find _ m) as [[k h']|] eqn:E; [|done]. intros [= ->].
    apply find_some in E as [Hin Hk]. apply andb_true_iff in Hk as [He Ha].
    apply String.eqb_eq in He, Ha. exists k. auto.
Qed.

End Deps.
