(* ===== verification/ArchMap.v ===== *)
(** src/include/ep2/dialect/CostModel.h and src/lib/ep2/ArchMappingPass.cpp (whose solver
    src/lib/ep2/Passes/Mapping/MappingSolver.cpp repeats): the description of a target,
    the cost models, the constraints that place replicas of handlers on compute units, and
    what is made of a solution.  The constraints are terms of integer arithmetic; the
    solver of Z3 is a parameter. *)
From Stdlib Require Import ZArith Lia List String.
From stdpp Require Import base list numbers option gmap strings pretty.
From S2P Require Import Prelude Ir Deps.
#[local] Open Scope Z_scope.

Module ArchMap.
Import Deps (handler, h_addr, h_func, HandlerFullName, handlersMapT, graphT, keys).

(** ** Outcomes *)

(** A value; a failed assertion; undefined behaviour (a null pointer read, a vector read
    out of bounds, a sum of no terms); an exception of Z3. *)
Inductive outcome (A : Type) := Done (a : A) | Assertion | Undefined | Throws.
Arguments Done {A} a.
Arguments Assertion {A}.
Arguments Undefined {A}.
Arguments Throws {A}.

#[export] Instance outcome_ret : MRet outcome := @Done.
#[export] Instance outcome_bind : MBind outcome := fun A B f m =>
  match m with Done a => f a | Assertion => Assertion | Undefined => Undefined | Throws => Throws end.

Definition assert_ (b : bool) : outcome () := if b then Done () else Assertion.
Definition deref {A} (p : option A) : outcome A := match p with Some a => Done a | None => Undefined end.

(** ** The description of a target *)

Record ComputeUnit := { cu_id : string; cpu : Z; cu_mem : Z }.
Record MemoryUnit := { mu_id : string; mu_mem : Z }.
Record ArchSpec := {
  computeUnits : list ComputeUnit; memoryUnits : list MemoryUnit;
  communicationMatrix : list (list Z); memoryMatrix : list (list Z) }.

(** The object a file is parsed to: a member is [None] when it is not an array, and an
    element is when it has not the members, or the type, that are asked for. *)
Record top_object := {
  t_computeUnits : option (list (option ComputeUnit)); t_memoryUnits : option (list (option MemoryUnit));
  t_communicationMatrix : option (list (option (list Z))); t_memoryMatrix : option (list (option (list Z))) }.

Definition all_read {A} (l : list (option A)) : outcome (list A) :=
  match mapM id l with Some l' => Done l' | None => Assertion end.

Definition matrix_size {A B} (m : list (list Z)) (rows : list A) (cols : list B) : bool :=
  (length m =? length rows)%nat && forallb (fun row => (length row =? length cols)%nat) m.

(** The constructor, from a file that is read as a single object. *)
Definition read_spec (top : top_object) : outcome ArchSpec :=
  _ ← assert_ (bool_decide (is_Some (t_computeUnits top)));
  cus ← deref (t_computeUnits top); cus ← all_read cus;
  _ ← assert_ (bool_decide (is_Some (t_computeUnits top)));
  mus ← deref (t_memoryUnits top); mus ← all_read mus;
  _ ← assert_ (bool_decide (is_Some (t_communicationMatrix top)));
  comm ← deref (t_communicationMatrix top); comm ← all_read comm;
  _ ← assert_ (matrix_size comm cus cus);
  _ ← assert_ (bool_decide (is_Some (t_memoryMatrix top)));
  memory ← deref (t_memoryMatrix top); memory ← all_read memory;
  _ ← assert_ (matrix_size memory cus mus);
  Done {| computeUnits := cus; memoryUnits := mus; communicationMatrix := comm; memoryMatrix := memory |}.

Definition getNumUnit (spec : ArchSpec) : Z := Z.of_nat (length (computeUnits spec)).

(** ** Cost models *)

Definition unitTick : Z := 1000.

Definition is_table_op (o : Ir.op) : bool :=
  match Ir.o_kind o with Ir.LookupOp | Ir.UpdateOp => true | _ => false end.

(** [FPGACostModel] *)
Definition fpga_cost (f : Ir.func) : Z :=
  fold_left (fun count b =>
    fold_left (fun count o => if is_table_op o then 3 else count) (Ir.b_ops b) count)
    (Ir.f_blocks f) 1.

(** [SimpleCostModel]: what is counted is not used. *)
Definition simple_cost (f : Ir.func) : Z :=
  let count := fold_left (fun count b => count + Z.of_nat (length (Ir.b_ops b))) (Ir.f_blocks f) 0 in
  let count := 1 in count.

(** ** Terms of Z3 *)

Inductive expr :=
  | int_val (n : Z)
  | int_const (name : string)
  | ite (c : cond) (t e : expr)
  | sum_of (l : list expr)
  | plus (a b : expr)
  | div_of (a b : expr)
with cond :=
  | Eq_ (a b : expr)
  | Ne_ (a b : expr)
  | Ge_ (a b : expr)
  | Le_ (a b : expr)
  | And_ (a b : cond)
  | Or_ (a b : cond).

(** An interpretation of the constants, and of a division by zero, which SMT-LIB leaves
    open. *)
Record model := { m_const : string -> Z; m_div0 : Z -> Z }.

(** The division of SMT-LIB has a remainder that is not negative. *)
Definition smt_div (m : model) (a b : Z) : Z :=
  if b =? 0 then m_div0 m a else if 0 <? b then a / b else - (a / - b).

Fixpoint ev (m : model) (e : expr) : Z :=
  match e with
  | int_val n => n
  | int_const x => m_const m x
  | ite c t e => if holds m c then ev m t else ev m e
  | sum_of l => (fix go l := match l with [] => 0 | e :: l' => ev m e + go l' end) l
  | plus a b => ev m a + ev m b
  | div_of a b => smt_div m (ev m a) (ev m b)
  end
with holds (m : model) (c : cond) : bool :=
  match c with
  | Eq_ a b => ev m a =? ev m b
  | Ne_ a b => negb (ev m a =? ev m b)
  | Ge_ a b => ev m b <=? ev m a
  | Le_ a b => ev m a <=? ev m b
  | And_ a b => holds m a && holds m b
  | Or_ a b => holds m a || holds m b
  end.

(** [z3::sum] *)
Definition z3_sum (l : list expr) : outcome expr := match l with [] => Undefined | _ => Done (sum_of l) end.

Definition to_string (n : Z) : string := pretty n.

(** ** The constraints *)

Section Solver.
Context (spec : ArchSpec) (computationCost : Ir.func -> Z) (graph : graphT).

Abbreviation mappingT := (list (handler * list expr)).

Definition oneOf (index1 index2 : expr) : outcome expr :=
  commOverhead ← (if 1 <? getNumUnit spec
                  then row ← deref (communicationMatrix spec !! 0%nat); deref (row !! 1%nat)
                  else Done 0);
  Done (ite (Eq_ index1 index2) (int_val 0) (int_val commOverhead)).

Definition getTargetThroughput : Z := unitTick.

(** [std::map::try_emplace]: the handlers in the order of their addresses. *)
Fixpoint try_emplace (h : handler) (l : list handler) : list handler :=
  match l with
  | [] => [h]
  | h' :: l' => if (h_addr h <? h_addr h')%nat then h :: l
                else if (h_addr h =? h_addr h')%nat then l else h' :: try_emplace h l'
  end.

Definition mapped_handlers (hm : handlersMapT) : list handler :=
  fold_left (fun l p => if Ir.isExtern (h_func p.2) then l else try_emplace p.2 l) hm [].

(** The arithmetic is that of [size_t]. *)
Definition maxReplications (nfuncs : Z) (h : handler) : Z :=
  Z.min (wrap 64 (wrap 64 (computationCost (h_func h)) * 3)) (wrap 64 (getNumUnit spec - nfuncs + 1)).

Definition rep_var (h : handler) (i : nat) : expr :=
  int_const (Ir.f_name (h_func h) ++ "_" ++ "rep" ++ "_" ++ to_string (Z.of_nat i)).

Definition rep_range (var : expr) : cond :=
  And_ (Ge_ var (int_val 0)) (Le_ var (int_val (s32 (wrap 32 (getNumUnit spec))))).

Definition apart (a b : expr) : cond := Or_ (Or_ (Eq_ a (int_val 0)) (Eq_ b (int_val 0))) (Ne_ a b).

Definition all_apart (vec : list expr) : list cond :=
  concat (imap (fun i a => map (apart a) (take i vec)) vec).

(** The variables of a function, and what is added to the solver for them. *)
Definition add_reps (nfuncs : Z) (h : handler) : list expr * list cond :=
  let vec := map (rep_var h) (seq 0 (Z.to_nat (maxReplications nfuncs h))) in
  (vec, map rep_range vec ++ all_apart vec).

Definition find_reps (mapping : mappingT) (f : nat) : option (list expr) :=
  snd <$> List.find (fun p => (h_addr p.1 =? f)%nat) mapping.

(** The terms between a replica and those of the successors. *)
Definition comm_terms (mapping : mappingT) (h : handler) (rep : expr) : outcome (list expr) :=
  mapM (oneOf rep) (concat (map (fun suc => default [] (find_reps mapping suc))
                              (Deps.getSuccessors graph (h_addr h)))).

(** The costs of the replicas of a function; [c] counts the constants. *)
Fixpoint rep_costs (mapping : mappingT) (h : handler) (c : Z) (reps : list expr)
    : outcome (list expr * list cond * Z) :=
  match reps with
  | [] => Done ([], [], c)
  | rep :: reps' =>
      commTicks ← comm_terms mapping h rep;
      let tick := match commTicks with [] => int_val 0 | _ => sum_of commTicks end in
      let costVar := int_const ("cost" ++ to_string c) in
      r ← rep_costs mapping h (c + 1) reps';
      let '(costs, added, c') := r in
      Done (costVar :: costs,
            Eq_ costVar (plus tick (int_val (computationCost (h_func h)))) :: added, c')
  end.

Abbreviation costsT := (list (handler * list expr * list expr)).

(** Every function with its replicas and their costs. *)
Fixpoint calculateCommunicationOverhead (mapping : mappingT) (c : Z) (todo : mappingT)
    : outcome (costsT * list cond) :=
  match todo with
  | [] => Done ([], [])
  | (h, reps) :: todo' =>
      r ← rep_costs mapping h c reps;
      let '(costs, added, c') := r in
      r' ← calculateCommunicationOverhead mapping c' todo';
      Done ((h, reps, costs) :: r'.1, added ++ r'.2)
  end.

Definition units_from_1 : list Z := map (fun i => Z.of_nat i) (seq 1 (length (computeUnits spec))).

Definition cu_var (i : Z) : expr := int_const ("cu" ++ to_string i).

Definition ticks_of (i : Z) (all : costsT) : list expr :=
  concat (map (fun p => zip_with (fun cu cost => ite (Eq_ cu (int_val (s32 (wrap 32 i)))) cost (int_val 0))
                          p.1.2 p.2) all).

Definition calculateTicksPerCU (all : costsT) : outcome (list cond) :=
  mapM (fun i => total ← z3_sum (ticks_of i all); Done (Eq_ (cu_var i) total)) units_from_1.

Definition rep_tputs (rep : expr) : list expr :=
  map (fun i => ite (Eq_ rep (int_val i)) (plus (div_of (int_val unitTick) (cu_var i)) (int_val 1)) (int_val 0))
    units_from_1.

Definition func_tput (reps : list expr) : outcome expr := z3_sum (concat (map rep_tputs reps)).

Definition calculateThroughput (mapping : mappingT) : outcome (list expr * list cond) :=
  tputs ← mapM (fun p => func_tput p.2) mapping;
  Done (tputs, map (fun e => Ge_ e (int_val getTargetThroughput)) tputs).

Record problem := Problem {
  p_mapping : mappingT; p_ticks : list expr; p_tputs : list expr; p_asserts : list cond }.

Definition calculateCost (hm : handlersMapT) : outcome problem :=
  let funcs := mapped_handlers hm in
  let reps := map (fun h => (h, add_reps (Z.of_nat (length funcs)) h)) funcs in
  let mapping := map (fun p => (p.1, p.2.1)) reps in
  costs ← calculateCommunicationOverhead mapping 0 mapping;
  ticks ← calculateTicksPerCU costs.1;
  tputs ← calculateThroughput mapping;
  Done (Problem mapping (map cu_var units_from_1) tputs.1
    (concat (map (fun p => p.2.2) reps) ++ costs.2 ++ ticks ++ tputs.2)).

(** ** Solutions *)

(** Z3, given the constraints and the assumptions: a model, or that there is none or that
    it does not know.  A model it gives satisfies them. *)
Context (check : list cond -> list cond -> option model).

(** [get_numeral_int] of a value in a model. *)
Definition get_numeral_int (m : model) (e : expr) : outcome Z :=
  let v := ev m e in if (- 2 ^ 31 <=? v) && (v <? 2 ^ 31) then Done v else Throws.

(** [dumpSolution] reads the model and prints; [get_model] raises when there is none. *)
Definition dumpSolution (p : problem) : outcome () :=
  match check (p_asserts p) [] with
  | None => Throws
  | Some m =>
      _ ← mapM (fun q => _ ← mapM (get_numeral_int m) q.1.2; get_numeral_int m q.2)
            (zip (p_mapping p) (p_tputs p));
      _ ← mapM (get_numeral_int m) (p_ticks p);
      Done ()
  end.

Definition all_eq (mapping : mappingT) : bool :=
  match mapping with
  | [] => true
  | p0 :: _ => forallb (fun p => (length p.2 =? length p0.2)%nat) mapping
  end.

Definition symmetric_assumptions (mapping : mappingT) : list cond :=
  concat (map (fun p => imap (fun i rep => Eq_ rep (int_val (Z.of_nat i + 1))) p.2) mapping).

Definition unit_id (cuIndex : Z) : outcome string :=
  if cuIndex <? 0 then Undefined
  else cu ← deref (computeUnits spec !! Z.to_nat cuIndex); Done (cu_id cu).

Fixpoint placed_ids (m : model) (reps : list expr) : outcome (list string) :=
  match reps with
  | [] => Done []
  | rep :: reps' =>
      cuIndex ← get_numeral_int m rep;
      if cuIndex =? 0 then placed_ids m reps'
      else i ← unit_id cuIndex; l ← placed_ids m reps'; Done (i :: l)
  end.

(** The units of every function; empty when there is no solution. *)
Definition extractSolution (p : problem) : outcome (list (handler * list string)) :=
  let mapping := p_mapping p in
  assumptions ← (if all_eq mapping
                 then match mapping with [] => Undefined | _ => Done (symmetric_assumptions mapping) end
                 else Done []);
  match check (p_asserts p) assumptions with
  | Some m => mapM (fun q => ids ← placed_ids m q.2; Done (q.1, ids)) mapping
  | None => Done []
  end.

(** ** The pass *)

Definition set_attr (k : string) (a : Ir.attr) (h : handler) : handler :=
  Deps.Handler (h_addr h)
    (Ir.Func (Ir.f_name (h_func h)) (<[k := a]> (Ir.f_attrs (h_func h))) (Ir.f_blocks (h_func h)))
    (Deps.h_const h).

Definition set_instances (map : list (handler * list string)) (h : handler) : handler :=
  match List.find (fun p => (h_addr p.1 =? h_addr h)%nat) map with
  | Some p => set_attr "instances" (Ir.ArrayAttr p.2) h
  | None => h
  end.

(** A global: its name, the handlers of its scope, if it has one, and its instances. *)
Record global := Global { g_name : string; g_scope : option (list string); g_instances : option Ir.attr }.

Definition full_name (h : handler) : outcome HandlerFullName :=
  match Deps.funcName h with Deps.Done n => Done n | _ => Assertion end.

(** The loop over the handlers of a scope, for one function. *)
Definition partition_one (join : string) (s : global * handler) (h : string) : global * handler :=
  let '(g, f) := s in
  if negb (String.eqb join h) then s
  else match Ir.f_attrs (h_func f) !! "instances"%string with
       | Some a => (Global (g_name g) (g_scope g) (Some a), set_attr ("instances_" ++ g_name g) a f)
       | None => s
       end.

Fixpoint partition_funcs (handlers : list string) (g : global) (funcs : list handler)
    : outcome (global * list handler) :=
  match funcs with
  | [] => Done (g, [])
  | f :: funcs' =>
      name ← full_name f;
      let '(g, f) := fold_left (partition_one (Deps.join name)) handlers (g, f) in
      r ← partition_funcs handlers g funcs';
      Done (r.1, f :: r.2)
  end.

Fixpoint partition_globals (globals : list global) (funcs : list handler)
    : outcome (list global * list handler) :=
  match globals with
  | [] => Done ([], funcs)
  | g :: globals' =>
      r ← match g_scope g with Some handlers => partition_funcs handlers g funcs | None => Done (g, funcs) end;
      r' ← partition_globals globals' r.2;
      Done (r.1 :: r'.1, r'.2)
  end.

(** The part of the pass that follows the choice of a cost model; [None] is the error
    that no mapping was found. *)
Definition solve_and_annotate (hm : handlersMapT) (funcs : list handler) (globals : list global)
    : outcome (option (list global * list handler)) :=
  p ← calculateCost hm;
  _ ← dumpSolution p;
  map ← extractSolution p;
  match map with
  | [] => Done None
  | _ => r ← partition_globals globals (List.map (set_instances map) funcs); Done (Some r)
  end.
End Solver.

(** [costModelName], and the errors of the options. *)
Definition cost_model (name : string) : option (Ir.func -> Z) :=
  if String.eqb name "simple" then Some simple_cost
  else if String.eqb name "fpga" then Some fpga_cost else None.

Definition runOnOperation (archSpecFile : option top_object) (name : string) (graph : graphT)
    (check : list cond -> list cond -> option model) (hm : handlersMapT) (funcs : list handler)
    (globals : list global) : outcome (option (list global * list handler)) :=
  match archSpecFile with
  | None => Done None
  | Some top =>
      spec ← read_spec top;
      match cost_model name with
      | None => Done None
      | Some computationCost => solve_and_annotate spec computationCost graph check hm funcs globals
      end
  end.
(** ** Values of terms *)

Lemma bind_Done {A B} (x : outcome A) (f : A -> outcome B) b :
  x ≫= f = Done b -> exists a, x = Done a /\ f a = Done b.
Proof. destruct x; cbn; try done. by eexists. Qed.

Ltac done_inv H :=
  let a := fresh "a" in let E := fresh "E" in apply bind_Done in H as (a & E & H).







(** ** What the constraints say *)

Section Placement.
Context (spec : ArchSpec) (computationCost : Ir.func -> Z) (graph : graphT) (m : model).
Abbreviation mappingT := (list (handler * list expr)).

(** What a replica pays for a successor that has another number. *)
Definition overhead : Z :=
  if 1 <? getNumUnit spec
  then default 0 (communicationMatrix spec !! 0%nat ≫= fun row : list Z => row !! 1%nat) else 0.

Definition comm_value (mapping : mappingT) (h : handler) (rep : expr) : Z :=
  sumZ (map (fun suc => if ev m rep =? ev m suc then 0 else overhead)
    (concat (map (fun suc => default [] (find_reps mapping suc)) (Deps.getSuccessors graph (h_addr h))))).








(** The units that the replicas of a function are placed on. *)
Definition placement (reps : list expr) : list Z := List.filter (fun u => negb (u =? 0)) (map (ev m) reps).














End Placement.

(** ** A model of the constraints is a placement *)

Section Sound.
Context (spec : ArchSpec) (computationCost : Ir.func -> Z) (graph : graphT).







End Sound.

(** ** Reading a solution *)

(** The name a placed replica gets is that of the unit at the index of its number. *)
Lemma placed_ids_spec spec m : forall reps ids, placed_ids spec m reps = Done ids ->
  Forall2 (fun u i => exists cu, computeUnits spec !! Z.to_nat u = Some cu /\ i = cu_id cu) (placement m reps) ids.
Proof.
  induction reps as [|r reps IH]; intros ids H; cbn in H; [by simplify_eq H; intros <-|]. done_inv H.
  assert (a = ev m r) as ->.
  { unfold get_numeral_int in E. destruct (_ && _); [|done]. by simplify_eq E. }
  unfold placement. cbn. destruct (Z.eqb_spec (ev m r) 0) as [|Hr]; cbn; [by apply IH|].
  done_inv H. done_inv H. simplify_eq H. intros <-. constructor; [|by apply IH].
  unfold unit_id in E0. destruct (ev m r <? 0); [done|]. done_inv E0. simplify_eq E0. intros <-.
  unfold deref in E2. destruct (computeUnits spec !! Z.to_nat (ev m r)) as [cu|] eqn:Ec; [|done].
  exists cu. by injection E2 as <-.
Qed.

(** The solver numbers the units from one, as the ticks of unit i show; names are taken
    from zero: a target's first unit is given to nobody. *)
Lemma first_unit_unused spec m reps ids cu : placed_ids spec m reps = Done ids ->
  Forall (fun r => 0 <= ev m r <= getNumUnit spec) reps -> NoDup (map cu_id (computeUnits spec)) ->
  computeUnits spec !! 0%nat = Some cu -> cu_id cu ∉ ids.
Proof.
  intros H%placed_ids_spec Hr Hnd H0 Hin. apply list_elem_of_lookup in Hin as [k Hk].
  destruct (Forall2_lookup_r _ _ _ _ _ H Hk) as (u & Hu & cu' & Hcu & Ei).
  assert (Hu1 : 1 <= u).
  { apply list_elem_of_lookup_2, list_elem_of_In, filter_In in Hu as [Hu Hz].
    apply list_elem_of_In, list_elem_of_fmap in Hu as (r & -> & Hin). rewrite Forall_forall in Hr.
    specialize (Hr r Hin). destruct (Z.eqb_spec (ev m r) 0); [done|]. cbn in Hr. lia. }
  assert (E : Z.to_nat u = O); [|lia].
  apply (NoDup_lookup (map cu_id (computeUnits spec)) _ _ (cu_id cu) Hnd); rewrite list_lookup_fmap.
  - by rewrite Hcu, Ei.
  - by rewrite H0.
Qed.

(** A replica on the last unit reads the vector of units past its end. *)
Lemma last_unit_undefined spec m reps r : r ∈ reps -> ev m r = getNumUnit spec -> 1 <= getNumUnit spec ->
  forall ids, placed_ids spec m reps <> Done ids.
Proof.
  intros Hin He Hn ids H%placed_ids_spec.
  assert (Hp : getNumUnit spec ∈ placement m reps).
  { unfold placement. apply list_elem_of_In, filter_In. split; [|by apply negb_true_iff, Z.eqb_neq; lia].
    apply list_elem_of_In, list_elem_of_fmap. by exists r. }
  apply list_elem_of_lookup in Hp as [k Hk]. destruct (Forall2_lookup_l _ _ _ _ _ H Hk) as (i & _ & cu & Hcu & _).
  apply lookup_lt_Some in Hcu. unfold getNumUnit in Hcu. lia.
Qed.

(** When the constraints have no solution, printing the model raises before the error that
    no mapping was found can be reported. *)
Lemma unsat_raises spec cost graph check hm funcs globals p : calculateCost spec cost graph hm = Done p ->
  check (p_asserts p) [] = None -> solve_and_annotate spec cost graph check hm funcs globals = Throws.
Proof. intros Hp Hc. unfold solve_and_annotate, dumpSolution. rewrite Hp. cbn. by rewrite Hc. Qed.

(** With more functions than units and one the difference wraps around, and the bound that
    is left is three times the cost (the comment says twice). *)
Lemma replications_wrap spec cost nfuncs h : getNumUnit spec + 1 < nfuncs < 2 ^ 63 ->
  0 <= cost (h_func h) < 2 ^ 31 -> maxReplications spec cost nfuncs h = 3 * cost (h_func h).
Proof.
  intros Hf Hc. assert (0 <= getNumUnit spec) by (unfold getNumUnit; lia). unfold maxReplications.
  rewrite (wrap_id 64 (cost (h_func h))) by (unfold in_word; lia).
  rewrite (wrap_id 64 (_ * 3)) by (unfold in_word; lia).
  unfold wrap. rewrite <- (Z.mod_add _ 1) by lia. rewrite (Z.mod_small (_ + _ * _)) by lia. lia.
Qed.

(** A description without memory units passes the assertion, which tests the compute
    units again, and a null pointer is read. *)
Lemma no_memory_units cus comm memory : forall l, mapM id cus = Some l ->
  read_spec {| t_computeUnits := Some cus; t_memoryUnits := None; t_communicationMatrix := comm;
               t_memoryMatrix := memory |} = Undefined.
Proof. intros l H. unfold read_spec, all_read. cbn. by rewrite H. Qed.

(** ** An example *)

Definition demo_spec (n : nat) (c : Z) : ArchSpec := {|
  computeUnits := map (fun i => {| cu_id := "cu" ++ to_string (Z.of_nat i); cpu := 0; cu_mem := 0 |}) (seq 1 n);
  memoryUnits := [];
  communicationMatrix := map (fun i => map (fun j => if (i =? j)%nat then 0 else c) (seq 0 n)) (seq 0 n);
  memoryMatrix := repeat [] n |}.

Definition demo_handler (addr : nat) (name : string) : handler :=
  Deps.Handler addr (Ir.Func ("__handler_" ++ name) {["event"%string := Ir.StringAttr name]} [Ir.Block [] []])
    (fun _ => None).
Definition ping : handler := demo_handler 1 "ping".
Definition pong : handler := demo_handler 2 "pong".
Definition demo_hm : handlersMapT := [(Deps.FullName "ping" "", ping); (Deps.FullName "pong" "", pong)].
Definition demo_graph : graphT := {[1%nat := [2%nat]; 2%nat := []]}.

Definition model_of (l : list (string * Z)) : model := {|
  m_const := fun x => from_option snd 0 (List.find (fun p => String.eqb p.1 x) l); m_div0 := fun _ => 0 |}.

(** Both handlers on the first three of six units. *)
Definition demo_model : model := model_of
  [("__handler_ping_rep_0", 1); ("__handler_ping_rep_1", 2); ("__handler_ping_rep_2", 3);
   ("__handler_pong_rep_0", 1); ("__handler_pong_rep_1", 2); ("__handler_pong_rep_2", 3);
   ("cost0", 1); ("cost1", 1); ("cost2", 1); ("cost3", 1); ("cost4", 1); ("cost5", 1);
   ("cu1", 2); ("cu2", 2); ("cu3", 2)]%string.

(** A solver that knows some models. *)
Definition check_in (ms : list model) (asserts assumptions : list cond) : option model :=
  List.find (fun m => forallb (holds m) (asserts ++ assumptions)) ms.

Definition demo_problem : problem :=
  match calculateCost (demo_spec 6 0) simple_cost demo_graph demo_hm with
  | Done p => p | _ => Problem [] [] [] [] end.


(** The names that come out of it are shifted by one. *)
Example demo_names :
  extractSolution (demo_spec 6 0) (check_in [demo_model]) demo_problem =
  Done [(ping, ["cu2"; "cu3"; "cu4"]); (pong, ["cu2"; "cu3"; "cu4"])]%string.
Proof. by vm_compute. Qed.

(** One handler on two units: the replicas are assumed on both, and the second has no name. *)
Example two_units_undefined :
  let p := match calculateCost (demo_spec 2 0) simple_cost ∅ [(Deps.FullName "ping" "", ping)] with
           | Done p => p | _ => Problem [] [] [] [] end in
  let m := model_of [("__handler_ping_rep_0", 1); ("__handler_ping_rep_1", 2); ("cost0", 1); ("cost1", 1);
                     ("cu1", 1); ("cu2", 1)]%string in
  forallb (holds m) (p_asserts p) = true /\
  extractSolution (demo_spec 2 0) (check_in [m]) p = Undefined.
Proof. by vm_compute. Qed.

(** A replica pays for a successor that is placed nowhere (the comment says it is
    skipped). *)
Example unplaced_is_charged :
  let m := model_of [("__handler_ping_rep_0", 1)]%string in
  let mapping := [(ping, [rep_var ping 0%nat; rep_var ping 1%nat]); (pong, [rep_var pong 0%nat])] in
  comm_value (demo_spec 6 7) demo_graph m mapping ping (rep_var ping 0%nat) = 7.
Proof. by vm_compute. Qed.

(** As many functions as units and one more have no replicas, and a sum of no terms is built. *)
Example no_replicas :
  calculateCost (demo_spec 1 0) simple_cost demo_graph demo_hm = Undefined.
Proof. by vm_compute. Qed.
End ArchMap.
