(* ===== verification/Dataflow.v ===== *)
(** The forward dataflow analysis of the compiler,
    src/include/ep2/dialect/Analysis/ForwardDataflowAnalysis.h, and the two analyses made
    of it, src/include/ep2/dialect/Analysis/Passes.h: which fields of extracted structs
    are used, and which context variables.

    A function is known by its address (Deps), a block by that and its index.  States
    flow from a block to its successors, along the operands of conditional branches, and
    from a handler to the one its event is for. *)
From Stdlib Require Import ZArith Lia List String.
From stdpp Require Import base list numbers option gmap strings relations.
From S2P Require Import Prelude Ir Deps.
#[local] Open Scope Z_scope.

Module Dataflow.
#[local] Existing Instances Ir.value_eq_dec Ir.value_countable.
Import Deps (handler, h_addr, h_func, handlersMapT, graphT).

(** What is known of a value: [merge] is the method, whose object it changes. *)
Class ValueState (V : Type) := merge : V -> V -> V.

(** ** Contexts *)

Section Context_.
Context {V : Type} `{!ValueState V}.

Abbreviation ctxT := (gmap Ir.value V).
Abbreviation InputMapT := (list (gmap Z V)).

(** [decalre] *)
Definition declare_ (v : Ir.value) (s : V) (table : ctxT) : ctxT :=
  match table !! v with Some _ => table | None => <[v := s]> table end.

Definition update (v : Ir.value) (s : V) (table : ctxT) : ctxT :=
  match table !! v with Some s0 => <[v := merge s0 s]> table | None => <[v := s]> table end.

Definition query (v : Ir.value) (table : ctxT) : option V := table !! v.

(** For every key of the second map: its value, merged into the one of the first if there
    is one. *)
Definition merge_maps `{Countable K} : gmap K V -> gmap K V -> gmap K V :=
  union_with (fun a b => Some (merge a b)).

(** The constructor from inputs; [None]: an input for an argument the block has not. *)
Definition context_of (inputs : InputMapT) (b : nat) (args : list Ir.ty) : option ctxT :=
  let merged := fold_left merge_maps inputs ∅ in
  if forallb (fun p => (0 <=? p.1) && (p.1 <? Z.of_nat (length args))) (map_to_list merged)
  then Some (list_to_map (map (fun p => (Ir.BlockArg b (Z.to_nat p.1), p.2)) (map_to_list merged)))
  else None.

(** The states of operands, by their position plus [off]. *)
Definition operand_states (off : Z) (table : ctxT) (operands : list Ir.value) : gmap Z V :=
  list_to_map (omap (fun p => (fun s => (Z.of_nat p.1 + off, s)) <$> table !! p.2)
                 (imap (fun i v => (i, v)) operands)).
End Context_.

(** ** The analysis *)

(** A visitor; [None] is a failed assertion or a null pointer. *)
Class Visitor (V G : Type) := {
  visit : handler -> Ir.op -> gmap Ir.value V -> G -> option (gmap Ir.value V * G);
  processInitialHandler : handler -> list (gmap Z V) -> list (gmap Z V) }.

Section Analysis.
Context {V : Type} `{!ValueState V} {G : Type} `{!Visitor V G}.
Context (hm : handlersMapT) (graph : graphT) (isExternAddr : nat -> bool).
(** [getNumTrueOperands]: the condition of a conditional branch comes first, then the
    operands of the block it goes to when it holds, then the others. *)
Context (numTrueOperands : Ir.op -> nat).

Abbreviation ctxT := (gmap Ir.value V).
Abbreviation inputsT := (gmap (nat * nat) (list (gmap Z V))).
Abbreviation contextsT := (gmap (nat * nat) ctxT).

Record state := State { inputTable : inputsT; blockContext : contextsT; globalState : G }.

(** [try_emplace] of no inputs, and [emplace_back]. *)
Definition add_input (k : nat * nat) (m : gmap Z V) (t : inputsT) : inputsT :=
  <[k := default [] (t !! k) ++ [m]]> t.

Definition isEvent (o : Ir.op) : bool :=
  match Ir.o_results o with Ir.StructType true _ _ :: _ => true | _ => false end.

(** [dependency.lookupHandler] of an event, which is then dereferenced. *)
Definition lookup_target (f : handler) (o : Ir.op) : option handler :=
  match Deps.initName f o with Deps.Done n => Deps.lookupHandler n hm | _ => None end.

(** What an operation passes to other blocks. *)
Definition pass_on (f : handler) (o : Ir.op) (table : ctxT) (t : inputsT) : option inputsT :=
  match Ir.o_kind o with
  | Ir.InitOp =>
      if isEvent o then
        target ← lookup_target f o;
        if Ir.isExtern (h_func target) then Some t
        else Some (add_input (h_addr target, O) (operand_states (-1) table (Ir.o_operands o)) t)
      else Some t
  | Ir.CondBranchOp =>
      match Ir.o_succs o with
      | [trueDest; falseDest] =>
          let operands := drop 1 (Ir.o_operands o) in
          let n := numTrueOperands o in
          let t := add_input (h_addr f, trueDest) (operand_states 0 table (take n operands)) t in
          Some (add_input (h_addr f, falseDest) (operand_states 0 table (drop n operands)) t)
      | _ => None
      end
  | _ => Some t
  end.

Fixpoint visit_ops (f : handler) (ops : list Ir.op) (table : ctxT) (t : inputsT) (g : G)
    : option (ctxT * inputsT * G) :=
  match ops with
  | [] => Some (table, t, g)
  | o :: ops' =>
      r ← visit f o table g;
      t ← pass_on f o r.1 t;
      visit_ops f ops' r.1 t r.2
  end.

(** [context.merge(blockContext[pre])]: a block that has no context yet gets an empty one. *)
Definition merge_pred (a b : nat) (c : contextsT) (pre : nat) : contextsT :=
  let c := match c !! (a, pre) with Some _ => c | None => <[(a, pre) := ∅]> c end in
  <[(a, b) := merge_maps (default ∅ (c !! (a, b))) (default ∅ (c !! (a, pre)))]> c.

(** One block; a context that is there already is kept, and the inputs are not looked at. *)
Definition analyse_block (f : handler) (b : nat) (bl : Ir.block) (st : state) : option state :=
  let k := (h_addr f, b) in
  let inputs := default [] (inputTable st !! k) in
  let t := <[k := inputs]> (inputTable st) in
  c0 ← match blockContext st !! k with
       | Some c => Some c
       | None => context_of inputs b (Ir.b_args bl)
       end;
  let c := fold_left (merge_pred (h_addr f) b) (Ir.preds (h_func f) b) (<[k := c0]> (blockContext st)) in
  r ← visit_ops f (Ir.b_ops bl) (default ∅ (c !! k)) t (globalState st);
  Some (State r.1.2 (<[k := r.1.1]> c) r.2).

Fixpoint analyse_blocks (f : handler) (b : nat) (bls : list Ir.block) (st : state) : option state :=
  match bls with
  | [] => Some st
  | bl :: bls' => st ← analyse_block f b bl st; analyse_blocks f (S b) bls' st
  end.

Definition analysisFunction (f : handler) (st : state) : option state :=
  analyse_blocks f O (Ir.f_blocks (h_func f)) st.

Definition analyse_handler (f : handler) (st : state) : option state :=
  let st :=
    if Deps.hasPredecessor graph isExternAddr (h_addr f) then st
    else let k := (h_addr f, O) in
         State (<[k := processInitialHandler f (default [] (inputTable st !! k))]> (inputTable st))
           (blockContext st) (globalState st) in
  analysisFunction f st.

(** The constructor: the handlers of every component in its order. *)
Fixpoint analyse (order : list handler) (st : state) : option state :=
  match order with
  | [] => Some st
  | f :: order' => st ← analyse_handler f st; analyse order' st
  end.
End Analysis.
Arguments state V G : clear implicits.
Arguments State {V G} _ _ _.

(** ** Used fields *)

(** A value of a function. *)
Abbreviation source := (nat * Ir.value)%type.

(** [llvm::BitVector] *)
Fixpoint bits_or (a b : list bool) : list bool :=
  match a, b with
  | [], _ => b
  | _, [] => a
  | x :: a', y :: b' => (x || y) :: bits_or a' b'
  end.
Definition bit_set (i : Z) (a : list bool) : option (list bool) :=
  if (0 <=? i) && (i <? Z.of_nat (length a)) then Some (<[Z.to_nat i := true]> a) else None.

Record FieldUsage := Usage {
  u_source : source; u_types : list Ir.ty; u_name : string; used : list bool; writed : list bool }.

#[export] Instance FieldUsage_merge : ValueState FieldUsage := fun a b =>
  Usage (u_source a) (u_types a) (u_name a) (bits_or (used a) (used b)) (bits_or (writed a) (writed b)).

(** The constructor reads the number of fields of the type as a struct. *)
Definition new_usage (a : nat) (o : Ir.op) : option FieldUsage :=
  match Ir.o_results o with
  | Ir.StructType _ types name :: _ =>
      Some (Usage (a, Ir.OpResult (Ir.o_id o) 0) types name
              (repeat false (length types)) (repeat false (length types)))
  | _ => None
  end.

Record FieldExtractInfo := ExtractInfo { usage : gmap source FieldUsage; users : gmap source (list source) }.

Definition info_update (u : FieldUsage) (op : source) (g : FieldExtractInfo) : FieldExtractInfo :=
  ExtractInfo
    (match usage g !! u_source u with
     | Some u0 => <[u_source u := merge u0 u]> (usage g)
     | None => <[u_source u := u]> (usage g)
     end)
    (<[u_source u := default [] (users g !! u_source u) ++ [op]]> (users g)).

Definition set_used (i : Z) (u : FieldUsage) : option FieldUsage :=
  b ← bit_set i (used u); Some (Usage (u_source u) (u_types u) (u_name u) b (writed u)).
Definition set_writed (i : Z) (u : FieldUsage) : option FieldUsage :=
  b ← bit_set i (writed u); Some (Usage (u_source u) (u_types u) (u_name u) (used u) b).

(** [getInput] of an access or an update. *)
Definition input_of (o : Ir.op) : option Ir.value := Ir.o_operands o !! 0%nat.

Definition visit_field (f : handler) (o : Ir.op) (table : gmap Ir.value FieldUsage) (g : FieldExtractInfo)
    : option (gmap Ir.value FieldUsage * FieldExtractInfo) :=
  let result := Ir.OpResult (Ir.o_id o) 0 in
  let op := (h_addr f, result) in
  match Ir.o_kind o with
  | Ir.ExtractOffsetOp _ =>
      u ← new_usage (h_addr f) o; Some (declare_ result u table, info_update u op g)
  | Ir.StructAccessOp i =>
      v ← input_of o;
      match query v table with
      | Some u => u ← set_used i u; Some (<[v := u]> table, info_update u op g)
      | None => Some (table, g)
      end
  | Ir.StructUpdateOp i =>
      v ← input_of o;
      match query v table with
      | Some u => u ← set_used i u; u ← set_writed i u; Some (declare_ result u table, info_update u op g)
      | None => Some (table, g)
      end
  | _ => Some (table, g)
  end.

#[export] Instance FieldExtractVisitor : Visitor FieldUsage FieldExtractInfo := {
  visit := visit_field; processInitialHandler _ inputs := inputs }.

(** [ExtractFiledAnalysis] *)
Definition field_analysis hm graph ext nt order : option (state FieldUsage FieldExtractInfo) :=
  analyse hm graph ext nt order (State ∅ ∅ (ExtractInfo ∅ ∅)).

(** ** Used context variables *)

Record ContextVariableInfo := VarInfo { v_name : string; v_used : bool }.

#[export] Instance ContextVariableInfo_merge : ValueState ContextVariableInfo := fun a b =>
  VarInfo (v_name a) (v_used a || v_used b).

Abbreviation finalInfoT := (gmap string ContextVariableInfo).

Definition result_update (name : string) (info : ContextVariableInfo) (g : finalInfoT) : finalInfoT :=
  match g !! name with Some i => <[name := merge i info]> g | None => <[name := info]> g end.

Definition isUnused (g : finalInfoT) (name : string) : bool :=
  if String.eqb name "flow_id" then false
  else match g !! name with Some i => negb (v_used i) | None => false end.

Section ContextVariables.
(** The attribute [context_names] of an operation. *)
Context (context_names : Ir.op -> option (list string)).

Definition use_operand (real : bool) (s : gmap Ir.value ContextVariableInfo * finalInfoT) (v : Ir.value) :=
  match query v s.1 with
  | Some i => let i := VarInfo (v_name i) (v_used i || real) in
              (<[v := i]> s.1, result_update (v_name i) i s.2)
  | None => s
  end.

Definition name_operand (s : gmap Ir.value ContextVariableInfo * finalInfoT) (p : string * Ir.value) :=
  if String.eqb p.1 "" then s
  else (update p.2 (VarInfo p.1 false) s.1, result_update p.1 (VarInfo p.1 false) s.2).

Definition visit_variable (f : handler) (o : Ir.op) (table : gmap Ir.value ContextVariableInfo) (g : finalInfoT)
    : option (gmap Ir.value ContextVariableInfo * finalInfoT) :=
  let real := match Ir.o_kind o with Ir.InitOp => false | _ => true end in
  let s := fold_left (use_operand real) (Ir.o_operands o) (table, g) in
  match Ir.o_kind o, isEvent o, context_names o with
  | Ir.InitOp, true, Some names =>
      if (length names =? length (Ir.o_operands o))%nat
      then Some (fold_left name_operand (zip names (Ir.o_operands o)) s) else None
  | _, _, _ => Some s
  end.

#[export] Instance ContextVariableAnalysisVisitor : Visitor ContextVariableInfo finalInfoT := {
  visit := visit_variable; processInitialHandler _ inputs := inputs }.

(** [ContextVariableAnalysis] *)
Definition variable_analysis hm graph ext nt order : option (state ContextVariableInfo finalInfoT) :=
  analyse hm graph ext nt order (State ∅ ∅ ∅).
End ContextVariables.
(** ** The used fields are found *)

(** A field of a source is noted as used. *)
Definition noted (g : FieldExtractInfo) (s : source) (i : nat) : Prop :=
  exists u, usage g !! s = Some u /\ used u !! i = Some true.
Definition keeps (g g' : FieldExtractInfo) : Prop := forall s i, noted g s i -> noted g' s i.

#[export] Instance keeps_preorder : PreOrder keeps.
Proof. split; [by intros g s i|]. intros g1 g2 g3 H1 H2 s i H. by apply H2, H1. Qed.






Lemma set_writed_source i u u' : set_writed i u = Some u' -> u_source u' = u_source u.
Proof. unfold set_writed, bit_set. destruct (_ && _); [|done]. cbn. by intros [= <-]. Qed.

Section Fields.
Context (f : handler) (Hwf : Ir.wf_func (h_func f)).
Abbreviation a := (h_addr f).
Abbreviation ops_of := (Ir.func_ops (h_func f)).









(** The operations of a block. *)
Context (hm : handlersMapT) (nt : Ir.op -> nat).


(** Contexts of blocks only grow. *)
Definition grows (c c' : gmap (nat * nat) (gmap Ir.value FieldUsage)) : Prop :=
  forall k x, c !! k = Some x -> exists y, c' !! k = Some y /\ dom x ⊆ dom y.

#[local] Instance grows_preorder : PreOrder grows.
Proof.
  split; [intros c k x H; by exists x|]. intros c1 c2 c3 H1 H2 k x H.
  destruct (H1 k x H) as (y & Hy & ?). destruct (H2 k y Hy) as (z & Hz & ?). exists z. split; [done|]. by etrans.
Qed.












End Fields.

(** The whole analysis. *)
Section Whole.
Context (hm : handlersMapT) (graph : graphT) (ext : nat -> bool) (nt : Ir.op -> nat).




End Whole.

(** ** Examples *)

Definition struct3 : Ir.ty := Ir.StructType false [Ir.IntegerType 8; Ir.IntegerType 16; Ir.IntegerType 32] "hdr".
Definition u1 : Ir.ty := Ir.IntegerType 1.
Definition extract0 : Ir.op := Ir.Op 0 (Ir.ExtractOffsetOp 0) [Ir.BlockArg 0 1] [struct3] [].
Definition access_ (id : nat) (v : Ir.value) (i : Z) : Ir.op :=
  Ir.Op id (Ir.StructAccessOp i) [v] [Ir.IntegerType 16] [].
Definition handler_ (addr : nat) (event : string) (blocks : list Ir.block) : handler :=
  Deps.Handler addr (Ir.Func event {["event"%string := Ir.StringAttr event]} blocks) (fun _ => None).

Definition used_of (st : option (state FieldUsage FieldExtractInfo)) (a : nat) : option (list bool) :=
  st ≫= fun st => used <$> usage (globalState st) !! (a, Ir.OpResult 0 0).


(** Two handlers send a struct to the same event: what the receiver uses is noted for the
    first sender only. *)
Definition sender (addr : nat) : handler := handler_ addr "in"
  [Ir.Block [u1; Ir.BufferType]
     [extract0; Ir.Op 1 Ir.InitOp [Ir.BlockArg 0 0; Ir.OpResult 0 0] [Ir.StructType true [struct3] "ev"] []]].
Definition receiver : handler := handler_ 3 "ev" [Ir.Block [struct3] [access_ 0 (Ir.BlockArg 0 0) 1]].

Example second_source_lost :
  let r := field_analysis [(Deps.FullName "ev" "", receiver)] ∅ (fun _ => false) (fun _ => O)
             [sender 1; sender 2; receiver] in
  used_of r 1 = Some [false; true; false] /\ used_of r 2 = Some [false; false; false].
Proof. by vm_compute. Qed.

(** A struct that a plain branch passes to a block is not followed: only conditional ones are. *)
Example plain_branch_lost :
  used_of (field_analysis [] ∅ (fun _ => false) (fun _ => O)
    [handler_ 1 "in" [Ir.Block [u1; Ir.BufferType] [extract0; Ir.Op 1 Ir.BranchOp [Ir.OpResult 0 0] [] [1]%nat];
                      Ir.Block [struct3] [access_ 2 (Ir.BlockArg 1 0) 1]]]) 1 = Some [false; false; false].
Proof. by vm_compute. Qed.

(** The first operand of an event is its atom: a struct there is an input for the argument
    before the first, and asking for that argument fails. *)
Example first_operand_fails :
  field_analysis [(Deps.FullName "ev" "", receiver)] ∅ (fun _ => false) (fun _ => O)
    [handler_ 1 "in" [Ir.Block [u1; Ir.BufferType]
       [extract0; Ir.Op 1 Ir.InitOp [Ir.OpResult 0 0] [Ir.StructType true [struct3] "ev"] []]]; receiver] = None.
Proof. by vm_compute. Qed.

(** ** Context variables *)

Definition var_used (g : finalInfoT) (x : string) : Prop := exists i, g !! x = Some i /\ v_used i = true.

Lemma result_update_used x i g : (forall y, var_used g y -> var_used (result_update x i g) y)
  /\ (v_used i = true -> var_used (result_update x i g) x).
Proof.
  unfold result_update, var_used. split.
  - intros y (j & Hj & Hu). destruct (decide (x = y)) as [->|].
    + rewrite Hj, lookup_insert_eq. eexists. split; [done|]. cbn. by rewrite Hu.
    + exists j. split; [|done]. destruct (g !! x); by rewrite lookup_insert_ne.
  - intros Hi. destruct (g !! x) as [j|]; rewrite lookup_insert_eq; eexists; (split; [done|]); [|done].
    cbn. by rewrite Hi, orb_true_r.
Qed.

Lemma use_operand_keeps real s v y : var_used s.2 y -> var_used (use_operand real s v).2 y.
Proof. intros H. unfold use_operand. destruct (query v s.1); [|done]. by apply result_update_used. Qed.

Lemma use_operands_used : forall vs s v i, v ∈ vs -> query v s.1 = Some i ->
  var_used (fold_left (use_operand true) vs s).2 (v_name i).
Proof.
  assert (Hk : forall vs s y, var_used s.2 y -> var_used (fold_left (use_operand true) vs s).2 y).
  { induction vs as [|w vs IH]; intros s y H; [done|]. cbn. by apply IH, use_operand_keeps. }
  induction vs as [|w vs IH]; intros s v i Hin Hq; [by apply elem_of_nil in Hin|]. cbn.
  destruct (decide (v = w)) as [->|Hne].
  - apply Hk. unfold use_operand. rewrite Hq. cbn -[result_update]. apply result_update_used. cbn. apply orb_true_r.
  - apply elem_of_cons in Hin as [->|Hin]; [done|]. apply (IH _ v i Hin). unfold use_operand.
    destruct (query w s.1); [|done]. cbn. unfold query. by rewrite lookup_insert_ne.
Qed.

(** A variable that an operation other than the making of an event reads is not unused. *)
Lemma read_variable_used names f o table g table' g' v i : visit_variable names f o table g = Some (table', g') ->
  Ir.o_kind o <> Ir.InitOp -> v ∈ Ir.o_operands o -> table !! v = Some i -> isUnused g' (v_name i) = false.
Proof.
  unfold visit_variable. intros H Hk Hv Hi.
  assert (E : Some (fold_left (use_operand true) (Ir.o_operands o) (table, g)) = Some (table', g'))
    by (destruct (Ir.o_kind o); done).
  simplify_eq E. clear E. intros E. pose proof (use_operands_used (Ir.o_operands o) (table, g) v i Hv Hi) as (j & Hj & Hu).
  rewrite E in Hj. cbn in Hj. unfold isUnused. rewrite Hj, Hu. by destruct (String.eqb _ _).
Qed.
End Dataflow.
