(* ===== verification/FieldSplit.v ===== *)
(** src/lib/ep2/Passes/DeadFieldEliminatePass.cpp: an extracted struct is split into the
    runs of its used fields, each extracted on its own; accesses, updates and emits go to
    the run that has the field. *)
From Stdlib Require Import ZArith Lia List String.
From stdpp Require Import base list numbers option gmap strings pretty.
From S2P Require Import Prelude Ir Deps Dataflow.
#[local] Open Scope Z_scope.

Module FieldSplit.
Import Dataflow (FieldUsage, Usage, u_types, u_name, used, writed).
#[local] Existing Instances Ir.value_eq_dec Ir.value_countable.

(** ** Splits *)

(** The bits of a type; other types are unreachable. *)
Fixpoint bits_of (t : Ir.ty) : option Z :=
  match t with
  | Ir.StructType _ ts _ =>
      (fix sizes (ts : list Ir.ty) : option Z :=
         match ts with
         | [] => Some 0
         | t :: ts' => a ← bits_of t; b ← sizes ts'; Some (a + b)
         end) ts
  | Ir.IntegerType w => Some w
  | _ => None
  end.

Fixpoint sizes (ts : list Ir.ty) : option Z :=
  match ts with [] => Some 0 | t :: ts' => a ← bits_of t; b ← sizes ts'; Some (a + b) end.

(** Sizes are ints: the sum of more than 2^31 - 1 bits is undefined, and the model stops. *)
Definition int_of (s : Z) : option Z := if (0 <=? s) && (s <? 2 ^ 31) then Some s else None.
Definition getEP2TypeSize (t : Ir.ty) : option Z := s ← bits_of t; int_of s.

Lemma int_of_inv s n : int_of s = Some n -> n = s /\ 0 <= s < 2 ^ 31.
Proof.
  unfold int_of. destruct (Z.leb_spec 0 s), (Z.ltb_spec s (2 ^ 31)); cbn; intros [=]; lia.
Qed.

Definition renameSub (name : string) (index : nat) : string := name ++ "_sub_" ++ pretty (N.of_nat index).

(** A run: the struct type, its offset in the whole, and whether it is written. *)
Record StructMap := Run { r_types : list Ir.ty; r_name : string; r_offset : Z; r_write : bool }.

Record SplitMap := Split {
  fieldToIndex : gmap nat nat; indexToNewIndex : gmap nat nat; newTypes : list StructMap }.

(** The locals of the loop over the fields. *)
Record locals := Locals { l_map : SplitMap; l_offset : Z; l_fields : list Ir.ty; l_write : bool }.

Definition try_emplace (i n : nat) (m : gmap nat nat) : gmap nat nat :=
  match m !! i with Some _ => m | None => <[i := n]> m end.

Definition finalize (name : string) (close : bool) (l : locals) : option locals :=
  match l_fields l with
  | [] => Some l
  | fields =>
      if close then
        size ← sizes fields;
        let m := l_map l in
        let run := Run fields (renameSub name (length (newTypes m))) (l_offset l - size) (l_write l) in
        Some (Locals (Split (fieldToIndex m) (indexToNewIndex m) (newTypes m ++ [run])) (l_offset l) [] false)
      else Some l
  end.

Definition collect (i : nat) (field : Ir.ty) (w : bool) (l : locals) : locals :=
  let m := l_map l in
  Locals (Split (try_emplace i (length (newTypes m)) (fieldToIndex m))
            (try_emplace i (length (l_fields l)) (indexToNewIndex m)) (newTypes m))
    (l_offset l) (l_fields l ++ [field]) (l_write l || w).

(** One round of the loop; [used[i]] and [writed[i]] assert that the bits exist. *)
Definition split_field (u : FieldUsage) (i : nat) (field : Ir.ty) (l : locals) : option locals :=
  isUsed ← used u !! i;
  l ← (if (isUsed : bool) then w ← writed u !! i; Some (collect i field w l) else Some l);
  l ← finalize (u_name u) (negb isUsed) l;
  size ← getEP2TypeSize field;
  offset ← int_of (l_offset l + size);
  Some (Locals (l_map l) offset (l_fields l) (l_write l)).

Fixpoint split_loop (u : FieldUsage) (i : nat) (fields : list Ir.ty) (l : locals) : option locals :=
  match fields with
  | [] => Some l
  | field :: fields' => l ← split_field u i field l; split_loop u (S i) fields' l
  end.

Definition no_locals : locals := Locals (Split ∅ ∅ []) 0 [] false.

Definition split (u : FieldUsage) : option SplitMap :=
  l ← split_loop u 0 (u_types u) no_locals;
  l ← finalize (u_name u) true l;
  Some (l_map l).

(** ** The new definitions and uses *)

(** The offsets of the extractions that replace one at [offset]. *)
Definition extract_offsets (offset : Z) (m : SplitMap) : list Z :=
  map (fun r => offset + r_offset r) (newTypes m).

(** [SplitMapContext]: the split with the values of the runs.  [std::map::operator[]]
    gives 0 for an index it has not. *)
Record SplitMapContext (V : Type) := Ctx { c_map : SplitMap; values : list V }.
Arguments Ctx {V} _ _.
Arguments c_map {V} _.
Arguments values {V} _.

Section Values.
Context {V : Type}.

Definition index_of (c : SplitMapContext V) (i : nat) : nat := default O (fieldToIndex (c_map c) !! i).
Definition indexToValue (c : SplitMapContext V) (i : nat) : option V := values c !! index_of c i.
Definition updateValueByIndex (c : SplitMapContext V) (i : nat) (v : V) : SplitMapContext V :=
  Ctx (c_map c) (<[index_of c i := v]> (values c)).
Definition indexToNewIndex_ (c : SplitMapContext V) (i : nat) : nat :=
  default O (indexToNewIndex (c_map c) !! i).

(** An access to field [i]: the value and the field it is replaced by. *)
Definition rewrite_access (c : SplitMapContext V) (i : nat) : option (V * nat) :=
  v ← indexToValue c i; Some (v, indexToNewIndex_ c i).

(** An update of field [i]: [build] makes the operation that updates a field of a run. *)
Definition rewrite_update (build : V -> nat -> V) (c : SplitMapContext V) (i : nat) : option (SplitMapContext V) :=
  v ← indexToValue c i; Some (updateValueByIndex c i (build v (indexToNewIndex_ c i))).

(** An emit at [offset]: the runs that are written, with their offsets.  The operation is
    erased whether or not the value it emits is one that was split. *)
Definition rewrite_emit (ctx : option (SplitMapContext V)) (offset : Z) : list (V * Z) :=
  match ctx with
  | Some c => omap (fun p => if r_write p.2 then Some (p.1, r_offset p.2 + offset) else None)
                (zip (values c) (newTypes (c_map c)))
  | None => []
  end.

(** [updateValueList]: the values of the runs go to the end, named after the value. *)
Definition updateValueList `{Countable V} (vs : list V) (m : gmap V (SplitMapContext V)) (names : list string)
    : list V * list string :=
  fold_left (fun s p =>
    match m !! p.1.2 with
    | Some c => (s.1 ++ values c, s.2 ++ imap (fun j _ => renameSub p.2 j) (values c))
    | None => s
    end) (zip (imap (fun i v => (i, v)) vs) names) (vs, names).
End Values.

(** ** The split has every used field, where it was *)

Lemma sizes_app a b : sizes (a ++ b) = (x ← sizes a; y ← sizes b; Some (x + y)).
Proof.
  induction a as [|t a IH]; cbn; [by destruct (sizes b)|]. destruct (bits_of t) as [x|]; [|done]. cbn.
  rewrite IH. destruct (sizes a) as [y|]; [|done]. cbn. destruct (sizes b) as [z|]; [|done]. cbn. f_equal. lia.
Qed.

Lemma sizes_snoc a t x y : sizes a = Some x -> bits_of t = Some y -> sizes (a ++ [t]) = Some (x + y).
Proof. intros Ha Ht. rewrite sizes_app, Ha. cbn. rewrite Ht. cbn. f_equal. lia. Qed.

(** Field [i] of the struct is field [j] of a run of [fields] that starts at [start]. *)
Definition at_place (types fields : list Ir.ty) (start : Z) (i j : nat) : Prop :=
  exists t x y, types !! i = Some t /\ fields !! j = Some t /\ sizes (take i types) = Some x /\
    sizes (take j fields) = Some y /\ start + y = x.

(** Where the field is: in run [k], or in the one that is being collected. *)
Definition placed (u : FieldUsage) (l : locals) (start : Z) (i k j : nat) : Prop :=
  (exists r, newTypes (l_map l) !! k = Some r /\ at_place (u_types u) (r_types r) (r_offset r) i j /\
     (writed u !! i = Some true -> r_write r = true)) \/
  (k = length (newTypes (l_map l)) /\ at_place (u_types u) (l_fields l) start i j /\
     (writed u !! i = Some true -> l_write l = true)).

Definition indices (m : SplitMap) (i k j : nat) : Prop :=
  fieldToIndex m !! i = Some k /\ indexToNewIndex m !! i = Some j.

(** What holds after the first [n] fields. *)
Record loop_inv (u : FieldUsage) (n : nat) (l : locals) : Prop := LoopInv {
  li_offset : sizes (take n (u_types u)) = Some (l_offset l);
  li_start : exists size, sizes (l_fields l) = Some size /\
    forall i k j, indices (l_map l) i k j -> placed u l (l_offset l - size) i k j;
  li_used : forall i, (i < n)%nat -> used u !! i = Some true -> exists k j, indices (l_map l) i k j;
  li_below : forall i, is_Some (fieldToIndex (l_map l) !! i) \/ is_Some (indexToNewIndex (l_map l) !! i) ->
    (i < n)%nat /\ used u !! i = Some true;
  li_inj : forall i i' k j, indices (l_map l) i k j -> indices (l_map l) i' k j -> i = i';
  li_onto : (forall k r j, newTypes (l_map l) !! k = Some r -> (j < length (r_types r))%nat -> exists i, indices (l_map l) i k j)
    /\ (forall j, (j < length (l_fields l))%nat -> exists i, indices (l_map l) i (length (newTypes (l_map l))) j);
  li_runs : Forall (fun r => r_types r <> []) (newTypes (l_map l)) }.

Lemma try_emplace_new i n m : m !! i = None -> try_emplace i n m = <[i := n]> m.
Proof. unfold try_emplace. by intros ->. Qed.

Lemma finalize_inv u n l l' : loop_inv u n l -> finalize (u_name u) true l = Some l' ->
  loop_inv u n l' /\ l_fields l' = [] /\ l_offset l' = l_offset l.
Proof.
  intros [Hoff (size & Hsize & Hpl) Hused Hbelow Hinj [Honto1 Honto2] Hruns] H. unfold finalize in H.
  destruct (l_fields l) as [|t ts] eqn:Ef; [simplify_eq H; intros <-; split_ands; [|done|done];
    split; rewrite ?Ef; eauto|].
  rewrite Hsize in H. cbn [mbind option_bind] in H. simplify_eq H. intros <-. cbn. split_ands; [|done|done].
  set (run := Run _ _ _ _).
  assert (Hlast : (newTypes (l_map l) ++ [run]) !! length (newTypes (l_map l)) = Some run)
    by (rewrite lookup_app_r, Nat.sub_diag by lia; done).
  split; cbn; try done.
  - exists 0. split; [done|]. intros i k j Hi. left. cbn.
    destruct (Hpl i k j Hi) as [(r & Hr & Ha & Hw)|(-> & Ha & Hw)].
    + exists r. split; [by apply lookup_app_l_Some|done].
    + exists run. split; [exact Hlast|]. rewrite Ef in Ha. split; [exact Ha|exact Hw].
  - split; [|lia]. intros k r j Hr Hj. apply lookup_app_Some in Hr as [Hr|[Hk Hr]]; [by eapply Honto1|].
    apply list_lookup_singleton_Some in Hr as [Hk0 <-]. replace k with (length (newTypes (l_map l))) by lia.
    by apply Honto2.
  - apply Forall_app. split; [done|]. by constructor.
Qed.
Lemma take_S_sizes types n t x y : types !! n = Some t -> sizes (take n types) = Some x ->
  bits_of t = Some y -> sizes (take (S n) types) = Some (x + y).
Proof. intros Ht Hx Hy. rewrite (take_S_r _ _ _ Ht). by apply sizes_snoc. Qed.

(** Collecting the next field. *)
Lemma collect_inv u n l t w size x : loop_inv u n l -> u_types u !! n = Some t -> used u !! n = Some true ->
  writed u !! n = Some w -> bits_of t = Some x -> sizes (l_fields l) = Some size ->
  let l' := collect n t w l in
  loop_inv u (S n) (Locals (l_map l') (l_offset l' + x) (l_fields l') (l_write l')).
Proof.
  intros [Hoff (size' & Hsize' & Hpl) Hused Hbelow Hinj [Honto1 Honto2] Hruns] Ht Hu Hw Hx Hsize l'.
  rewrite Hsize in Hsize'. injection Hsize' as <-. set (N := length (newTypes (l_map l))) in *. set (J := length (l_fields l)) in *.
  assert (Hn1 : fieldToIndex (l_map l) !! n = None).
  { apply eq_None_not_Some. intros Hs. destruct (Hbelow n) as [Hlt _]; [by left|lia]. }
  assert (Hn2 : indexToNewIndex (l_map l) !! n = None).
  { apply eq_None_not_Some. intros Hs. destruct (Hbelow n) as [Hlt _]; [by right|lia]. }
  assert (Hind : forall i k j, indices (l_map l') i k j <->
    (i = n /\ k = N /\ j = J) \/ (i <> n /\ indices (l_map l) i k j)).
  { intros i k j. unfold indices. cbn. rewrite !try_emplace_new by done.
    destruct (decide (i = n)) as [->|]; [rewrite !lookup_insert_eq|rewrite !lookup_insert_ne by done]; naive_solver. }
  assert (Hnew : forall k j, ~ indices (l_map l) n k j) by (intros k j [H _]; congruence).
  assert (HJ : forall i j, indices (l_map l) i N j -> (j < J)%nat).
  { intros i j Hi. destruct (Hpl i N j Hi) as [(r & Hr & _)|(_ & (t' & ? & ? & _ & Hj & _) & _)].
    - apply lookup_lt_Some in Hr. unfold N in Hr. lia.
    - by apply lookup_lt_Some in Hj. }
  split; cbn -[collect].
  - by apply (take_S_sizes _ _ t).
  - exists (size + x). split; [by apply sizes_snoc|]. intros i k j [(-> & -> & ->)|[Hne Hi]]%Hind.
    + right. split; [done|]. split; [|intros E; cbn; rewrite Hw in E; simplify_eq E; intros ->; apply orb_true_r].
      exists t, (l_offset l), size. split_ands; [done| |done| |unfold l'; cbn; lia].
      * cbn. rewrite lookup_app_r, Nat.sub_diag by (unfold J; lia). done.
      * cbn. unfold J. by rewrite take_app_length.
    + destruct (Hpl i k j Hi) as [Hl|(-> & (t' & a & b & Ht' & Hf & Ha & Hb & Hs) & Hwr)]; [by left|]. right.
      split; [done|]. split; [|intros E; cbn; by rewrite Hwr].
      exists t', a, b. split_ands; [done|by apply lookup_app_l_Some|done| |unfold l'; cbn; lia].
      cbn. rewrite take_app_le; [done|]. apply lookup_lt_Some in Hf. lia.
  - intros i Hi Hui. destruct (decide (i = n)) as [->|].
    + exists N, J. apply Hind. by left.
    + destruct (Hused i ltac:(lia) Hui) as (k & j & H). exists k, j. apply Hind. by right.
  - intros i. cbn. rewrite !try_emplace_new by done. destruct (decide (i = n)) as [->|].
    + intros _. split; [lia|done].
    + rewrite !lookup_insert_ne by done. intros H%Hbelow. split; [lia|apply H].
  - intros i i' k j [(-> & -> & ->)|[Hne Hi]]%Hind [(-> & E1 & E2)|[Hne' Hi']]%Hind; [done| | |by eapply Hinj].
    + apply HJ in Hi'. lia.
    + subst. apply HJ in Hi. lia.
  - split.
    + intros k r j Hr Hj. destruct (Honto1 k r j Hr Hj) as (i & Hi). exists i. apply Hind. right.
      split; [intros ->; by eapply Hnew|done].
    + intros j Hj. unfold l' in Hj. cbn in Hj. rewrite length_app in Hj. cbn in Hj. fold J in Hj. destruct (decide (j = J)) as [->|].
      * exists n. apply Hind. by left.
      * destruct (Honto2 j) as (i & Hi); [lia|]. exists i. apply Hind. right. split; [intros ->; by eapply Hnew|done].
  - done.
Qed.

(** Passing over a field that is not used. *)
Lemma skip_inv u n l t x : loop_inv u n l -> l_fields l = [] -> u_types u !! n = Some t ->
  used u !! n = Some false -> bits_of t = Some x ->
  loop_inv u (S n) (Locals (l_map l) (l_offset l + x) (l_fields l) (l_write l)).
Proof.
  intros [Hoff (size & Hsize & Hpl) Hused Hbelow Hinj [Honto1 Honto2] Hruns] Hnil Ht Hu Hx.
  split; cbn; try done.
  - by apply (take_S_sizes _ _ t).
  - exists size. split; [done|]. intros i k j Hi.
    destruct (Hpl i k j Hi) as [Hl|(-> & (t' & a & b & _ & Hf & _) & _)]; [by left|]. by rewrite Hnil in Hf.
  - intros i Hi Hui. apply Hused; [|done]. destruct (decide (i = n)) as [->|]; [congruence|lia].
  - intros i H%Hbelow. split; [lia|apply H].
Qed.

(** The offset advances by the bits of the field. *)
Lemma field_size_inv t m z fs w l' :
  (size ← getEP2TypeSize t; offset ← int_of (z + size); Some (Locals m offset fs w)) = Some l' ->
  exists x, bits_of t = Some x /\ Locals m (z + x) fs w = l'.
Proof.
  unfold getEP2TypeSize. destruct (bits_of t) as [s|]; [|done]. cbn.
  destruct (int_of s) as [x|] eqn:Ex; [|done]. cbn. destruct (int_of (z + x)) as [y|] eqn:Ey; [|done]. cbn.
  apply int_of_inv in Ex as [-> _]. apply int_of_inv in Ey as [-> _]. intros [= <-]. by exists s.
Qed.

Lemma split_field_inv u n t l l' : loop_inv u n l -> u_types u !! n = Some t -> split_field u n t l = Some l' ->
  loop_inv u (S n) l'.
Proof.
  intros Hinv Ht H. unfold split_field in H. destruct (used u !! n) as [b|] eqn:Hu; [|done]. cbn in H.
  pose proof (li_start _ _ _ Hinv) as (size & Hsize & _). destruct b; cbn in H.
  - destruct (writed u !! n) as [w|] eqn:Hw; [|done]. cbn in H.
    assert (Ef : finalize (u_name u) false (collect n t w l) = Some (collect n t w l))
      by (unfold finalize; by destruct (l_fields (collect n t w l))).
    rewrite Ef in H. cbn -[collect] in H. destruct (field_size_inv _ _ _ _ _ _ H) as (x & Hx & <-). by eapply collect_inv.
  - destruct (finalize (u_name u) true l) as [l1|] eqn:Ef; [|done]. cbn in H.
    destruct (field_size_inv _ _ _ _ _ _ H) as (x & Hx & <-).
    destruct (finalize_inv u n l l1 Hinv Ef) as (Hinv1 & Hnil & _). by eapply skip_inv.
Qed.

Lemma split_loop_inv u : forall fields n l l', loop_inv u n l -> drop n (u_types u) = fields ->
  split_loop u n fields l = Some l' -> loop_inv u (n + length fields) l'.
Proof.
  induction fields as [|t fields IH]; intros n l l' Hinv Hd H; cbn in H.
  - simplify_eq H. intros <-. by rewrite Nat.add_0_r.
  - destruct (split_field u n t l) as [l1|] eqn:E; [|done]. cbn in H.
    assert (Ht : u_types u !! n = Some t) by (rewrite <- (Nat.add_0_r n), <- lookup_drop, Hd; done).
    cbn [length]. rewrite <- Nat.add_succ_comm. eapply IH; [by eapply split_field_inv| |done].
    rewrite <- Nat.add_1_r, <- drop_drop, Hd. done.
Qed.

Lemma loop_start u : loop_inv u 0 no_locals.
Proof.
  split; cbn; try done.
  - exists 0. split; [done|]. intros i k j [H _]. cbn in H. by rewrite lookup_empty in H.
  - intros i Hi. lia.
  - intros i. rewrite !lookup_empty. by intros [[? ?]|[? ?]].
  - intros i i' k j [H _]. cbn in H. by rewrite lookup_empty in H.
  - split; [done|]. intros j Hj. lia.
Qed.

Lemma split_inv u m : split u = Some m ->
  exists l, loop_inv u (length (u_types u)) l /\ l_fields l = [] /\ l_map l = m.
Proof.
  unfold split. intros H. destruct (split_loop u 0 (u_types u) no_locals) as [l|] eqn:E; [|done]. cbn in H.
  apply (split_loop_inv u (u_types u) 0 no_locals l (loop_start u) (drop_0 _)) in E.
  destruct (finalize (u_name u) true l) as [l'|] eqn:Ef; [|done]. cbn in H. simplify_eq H. intros <-.
  destruct (finalize_inv u _ l l' E Ef) as (Hinv & Hnil & _). by exists l'.
Qed.

(** Splitting an extracted struct keeps its used fields where they were, and
    nothing else. Every used field is a field of exactly one run, which starts in
    the buffer so that the field has the bits it had in the struct, and which is
    written if the field is; every field of a run is a used field; and different
    fields are at different places. *)
Theorem split_fields u m : split u = Some m ->
  (forall i, (i < length (u_types u))%nat -> used u !! i = Some true ->
     exists k j r, indices m i k j /\ newTypes m !! k = Some r /\
       at_place (u_types u) (r_types r) (r_offset r) i j /\ (writed u !! i = Some true -> r_write r = true)) /\
  (forall k r j, newTypes m !! k = Some r -> (j < length (r_types r))%nat ->
     exists i, indices m i k j /\ used u !! i = Some true) /\
  (forall i i' k j, indices m i k j -> indices m i' k j -> i = i').
Proof.
  intros (l & Hinv & Hnil & <-)%split_inv.
  destruct Hinv as [_ (size & _ & Hpl) Hused Hbelow Hinj [Honto _] _]. split_ands; [| |exact Hinj].
  - intros i Hi Hu. destruct (Hused i Hi Hu) as (k & j & Hij). exists k, j.
    destruct (Hpl i k j Hij) as [(r & Hr & Ha & Hw)|(-> & (t & x & y & _ & Hf & _) & _)]; [by exists r|].
    by rewrite Hnil in Hf.
  - intros k r j Hr Hj. destruct (Honto k r j Hr Hj) as (i & Hi). exists i. split; [done|].
    apply (Hbelow i). left. destruct Hi as [H _]. by rewrite H.
Qed.
(** ** Uses *)

(** A split value, as the values of the fields of its runs. *)
Definition shaped {W} (c : SplitMapContext (list W)) : Prop :=
  Forall2 (fun v r => length v = length (r_types r)) (values c) (newTypes (c_map c)).
Definition field_of {W} (c : SplitMapContext (list W)) (i : nat) : option W :=
  p ← rewrite_access c i; p.1 !! p.2.

Lemma field_of_at {W} (c : SplitMapContext (list W)) i k j : indices (c_map c) i k j ->
  field_of c i = v ← values c !! k; v !! j.
Proof.
  intros [Hk Hj]. unfold field_of, rewrite_access, indexToValue, index_of, indexToNewIndex_. rewrite Hk, Hj. cbn.
  by destruct (values c !! k).
Qed.

(** Rewritten updates and accesses: a field reads as last updated, and no other changes. *)
Lemma update_access {W} u (c c' : SplitMapContext (list W)) w i i' : split u = Some (c_map c) -> shaped c ->
  (i < length (u_types u))%nat -> used u !! i = Some true -> (i' < length (u_types u))%nat -> used u !! i' = Some true ->
  rewrite_update (fun v j => <[j := w]> v) c i = Some c' ->
  shaped c' /\ field_of c' i' = if decide (i = i') then Some w else field_of c i'.
Proof.
  intros Hs Hsh Hi Hu Hi' Hu' H. destruct (split_fields u _ Hs) as (Hf & _ & Hinj).
  destruct (Hf i Hi Hu) as (k & j & r & Hij & Hr & (t & _ & _ & _ & Ht & _) & _).
  destruct (Hf i' Hi' Hu') as (k' & j' & r' & Hij' & Hr' & _).
  destruct (Forall2_lookup_r _ _ _ _ _ Hsh Hr) as (v & Hv & Hlen).
  assert (Hj : (j < length v)%nat) by (rewrite Hlen; by eapply lookup_lt_Some).
  pose proof Hij as [Hk Hjn]. unfold rewrite_update, indexToValue, updateValueByIndex, index_of, indexToNewIndex_ in H.
  rewrite Hk, Hjn in H. cbn in H. rewrite Hv in H. cbn in H. simplify_eq H. intros <-. split.
  - unfold shaped. cbn. rewrite <- (list_insert_id (newTypes (c_map c)) k r) by done.
    apply Forall2_insert; [done|]. by rewrite length_insert.
  - rewrite (field_of_at c i' k' j' Hij'). rewrite (field_of_at (Ctx (c_map c) _) i' k' j' Hij'). cbn.
    pose proof (lookup_lt_Some _ _ _ Hv) as Hlt. destruct (decide (k = k')) as [<-|Hne].
    + rewrite list_lookup_insert_eq by done. rewrite Hv. cbn. destruct (decide (i = i')) as [<-|Hni].
      * destruct Hij' as [_ Hj']. simplify_eq. by apply list_lookup_insert_eq.
      * apply list_lookup_insert_ne. intros <-. by apply Hni, (Hinj i i' k j).
    + rewrite list_lookup_insert_ne by done. destruct (decide (i = i')) as [<-|]; [|done].
      destruct Hij' as [Hk' _]. congruence.
Qed.

(** A written field is emitted, in its run, at the offset of the run. *)
Lemma written_emitted {V} u (c : SplitMapContext V) offset i : split u = Some (c_map c) ->
  length (values c) = length (newTypes (c_map c)) -> (i < length (u_types u))%nat ->
  used u !! i = Some true -> writed u !! i = Some true ->
  exists k j r v, indices (c_map c) i k j /\ values c !! k = Some v /\
    at_place (u_types u) (r_types r) (r_offset r) i j /\ (v, r_offset r + offset) ∈ rewrite_emit (Some c) offset.
Proof.
  intros Hs Hlen Hi Hu Hw. destruct (split_fields u _ Hs) as (Hf & _ & _).
  destruct (Hf i Hi Hu) as (k & j & r & Hij & Hr & Ha & Hwr).
  destruct (lookup_lt_is_Some_2 (values c) k) as [v Hv]; [rewrite Hlen; by eapply lookup_lt_Some|].
  exists k, j, r, v. split_ands; [done|done|done|]. cbn. apply list_elem_of_omap. exists (v, r). cbn.
  rewrite (Hwr Hw). split; [|done]. apply list_elem_of_lookup. exists k. by apply lookup_zip_Some.
Qed.

(** The values of an event keep their places; those of the runs follow. *)
Lemma updateValueList_prefix `{Countable V} (vs : list V) m names :
  exists vs' names', updateValueList vs m names = (vs ++ vs', names ++ names') /\ length vs' = length names'.
Proof.
  unfold updateValueList.
  assert (Hg : forall l (a a' : list V) (b b' : list string), length a' = length b' ->
    exists a'' b'', fold_left (fun s p => match m !! p.1.2 with
      | Some c => (s.1 ++ values c, s.2 ++ imap (fun j _ => renameSub p.2 j) (values c)) | None => s end)
      (l : list (nat * V * string)) (a ++ a', b ++ b') = (a ++ a'', b ++ b'') /\ length a'' = length b'').
  { induction l as [|p l IH]; intros a a' b b' Hl; [by exists a', b'|]. cbn.
    destruct (m !! p.1.2) as [c|]; [|by apply IH]. cbn. rewrite <- !app_assoc. apply IH.
    by rewrite !length_app, length_imap, Hl. }
  destruct (Hg (zip (imap (fun i v => (i, v)) vs) names) vs [] names [] eq_refl) as (vs' & names' & E & Hl).
  rewrite !app_nil_r in E. by exists vs', names'.
Qed.

(** ** Examples *)

Definition demo_usage : FieldUsage :=
  Usage (O, Ir.OpResult 0 0) [Ir.IntegerType 8; Ir.IntegerType 16; Ir.IntegerType 32; Ir.IntegerType 8] "hdr"
    [true; false; true; true] [false; false; true; false].
Definition demo_split : SplitMap := default (Split ∅ ∅ []) (split demo_usage).

(** Fields 0, 2 and 3 are used, and 2 is written. *)
Example demo_runs : split demo_usage = Some demo_split /\
  newTypes demo_split = [Run [Ir.IntegerType 8] "hdr_sub_0" 0 false;
                         Run [Ir.IntegerType 32; Ir.IntegerType 8] "hdr_sub_1" 24 true] /\
  extract_offsets 100 demo_split = [100; 124] /\
  rewrite_emit (Some (Ctx demo_split ["a"; "b"]%string)) 100 = [("b"%string, 124)].
Proof. by vm_compute. Qed.

Lemma split_fields_witness : split demo_usage = Some demo_split /\
  exists k j r, indices demo_split 3 k j /\ newTypes demo_split !! k = Some r /\
    at_place (u_types demo_usage) (r_types r) (r_offset r) 3 j.
Proof.
  assert (H : split demo_usage = Some demo_split) by (vm_compute; reflexivity). split; [exact H|].
  destruct (split_fields demo_usage demo_split H) as (Hf & _ & _).
  destruct (Hf 3%nat) as (k & j & r & Hi & Hr & Ha & _); [cbn; lia|reflexivity|]. by exists k, j, r.
Defined.

(** Emitting a value that was not split, an initialised struct say, is erased too. *)
Lemma untracked_emit_erased {V} offset : @rewrite_emit V None offset = [].
Proof. done. Qed.
End FieldSplit.
