(* ===== verification/BufferHist.v ===== *)
(** src/lib/ep2/BufferAnalysis.cpp and its class in src/include/ep2/dialect/Passes.h: at
    which bit of its buffer each extract and emit is, where the analysis knows it, and
    which buffers are parts of one. *)
From Stdlib Require Import ZArith Lia List String.
From stdpp Require Import base list numbers option gmap strings relations.
From S2P Require Import Prelude Ir Deps Split FieldSplit.
#[local] Open Scope Z_scope.

Module BufferHist.
Import Deps (handler, h_addr, h_func, handlersMapT, graphT).
#[local] Existing Instances Ir.value_eq_dec Ir.value_countable.

(** A value of a function. *)
Abbreviation source := (nat * Ir.value)%type.

Record BufferHistory := Hist { h_source : option source; known : bool; offset : Z }.
#[export] Instance BufferHistory_eq_dec : EqDecision BufferHistory.
Proof. solve_decision. Defined.

Definition no_history : BufferHistory := Hist None false 0.

Definition merge (a b : BufferHistory) : BufferHistory :=
  let known' := bool_decide (h_source a = h_source b) && (offset a =? offset b) in
  Hist (h_source a) (known' && known b) (offset a).

(** ** Tables *)

Abbreviation tableT := (gmap Ir.value BufferHistory).
Abbreviation ArgMap := (gmap Z BufferHistory).

Definition declare_ (a : nat) (v : Ir.value) (t : tableT) : tableT :=
  match t !! v with Some _ => t | None => <[v := Hist (Some (a, v)) true 0]> t end.

(** The offset before, and the table after; [None]: a type without a size, or an
    offset that overflows. *)
Definition emit (v : Ir.value) (ty : Ir.ty) (t : tableT) : option (Z * tableT) :=
  match t !! v with
  | None => Some (0, t)
  | Some h =>
      size ← FieldSplit.getEP2TypeSize ty;
      offset' ← FieldSplit.int_of (offset h + size);
      Some (offset h, <[v := Hist (h_source h) (known h) offset']> t)
  end.

(** [operator[]]: a value that has no history gets an unknown one. *)
Definition bracket (v : Ir.value) (t : tableT) : BufferHistory * tableT :=
  match t !! v with Some h => (h, t) | None => (no_history, <[v := no_history]> t) end.

Definition merge_maps `{Countable K} : gmap K BufferHistory -> gmap K BufferHistory -> gmap K BufferHistory :=
  union_with (fun a b => Some (merge a b)).

(** [None]: an argument that the block has not. *)
Definition installMapping (b : nat) (args : list Ir.ty) (mappings : list ArgMap) (t : tableT) : option tableT :=
  let merged := map_to_list (fold_left merge_maps mappings ∅) in
  if forallb (fun p => (0 <=? p.1) && (p.1 <? Z.of_nat (length args))) merged
  then Some (fold_left (fun t p =>
         let ba := Ir.BlockArg b (Z.to_nat p.1) in
         match t !! ba with Some _ => t | None => <[ba := p.2]> t end) merged t)
  else None.

(** ** The analysis of a function *)

(** The members of the class; a class of buffers is given by the unions made. *)
Record state := State {
  blockInput : gmap (nat * nat) (list ArgMap); bufferClasses : list (source * source);
  offsetAt : gmap (nat * nat) Z }.

Section Analysis.
Context (hm : handlersMapT) (graph : graphT) (isExternAddr : nat -> bool).
(** [getNumTrueOperands], of a conditional branch whose first operand is the condition. *)
Context (numTrueOperands : Ir.op -> nat).

Definition is_buffer (f : handler) (v : Ir.value) : bool :=
  match Split.value_type (h_func f) v with Ir.BufferType => true | _ => false end.

Definition add_input (k : nat * nat) (m : ArgMap) (st : state) : state :=
  State (<[k := default [] (blockInput st !! k) ++ [m]]> (blockInput st)) (bufferClasses st) (offsetAt st).

(** [offsetAt.try_emplace] *)
Definition note_offset (f : handler) (o : Ir.op) (z : Z) (st : state) : state :=
  let k := (h_addr f, Ir.o_id o) in
  match offsetAt st !! k with
  | Some _ => st
  | None => State (blockInput st) (bufferClasses st) (<[k := z]> (offsetAt st))
  end.

(** The histories of the operands that are buffers, by their position plus [off]. *)
Definition buffer_inputs (f : handler) (off : Z) (operands : list Ir.value) (t : tableT) : ArgMap * tableT :=
  fold_left (fun s p =>
    if is_buffer f p.2 then
      let '(h, t) := bracket p.2 s.2 in
      (match s.1 !! (Z.of_nat p.1 + off) with Some _ => s.1 | None => <[Z.of_nat p.1 + off := h]> s.1 end, t)
    else s) (imap (fun i v => (i, v)) operands) (∅, t).

Definition event_of (o : Ir.op) : bool :=
  match Ir.o_results o with Ir.StructType true _ _ :: _ => true | _ => false end.
Definition makes_buffer (o : Ir.op) : bool :=
  match Ir.o_results o with Ir.BufferType :: _ => true | _ => false end.

(** One operation; the branches of the loop are taken one after the other, and a kind
    selects among them. *)
Definition visit (f : handler) (o : Ir.op) (t : tableT) (st : state) : option (tableT * state) :=
  match Ir.o_kind o with
  | Ir.InitOp =>
      let t := if makes_buffer o then declare_ (h_addr f) (Ir.OpResult (Ir.o_id o) 0) t else t in
      if event_of o then
        target ← match Deps.initName f o with Deps.Done n => Deps.lookupHandler n hm | _ => None end;
        if Ir.isExtern (h_func target) then Some (t, st)
        else let '(m, t) := buffer_inputs f (-1) (Ir.o_operands o) t in
             Some (t, add_input (h_addr target, O) m st)
      else Some (t, st)
  | Ir.EmitOp =>
      buffer ← Ir.o_operands o !! 0%nat; value ← Ir.o_operands o !! 1%nat;
      if is_buffer f value then
        let '(valueHist, t) := bracket value t in
        let '(bufferHist, t) := bracket buffer t in
        match known valueHist && known bufferHist, h_source valueHist, h_source bufferHist with
        | true, Some s1, Some s2 => Some (t, State (blockInput st) (bufferClasses st ++ [(s1, s2)]) (offsetAt st))
        | true, _, _ => None
        | false, _, _ => Some (t, st)
        end
      else r ← emit buffer (Split.value_type (h_func f) value) t; Some (r.2, note_offset f o r.1 st)
  | Ir.ExtractOp =>
      buffer ← Ir.o_operands o !! 0%nat; ty ← Ir.o_results o !! 0%nat;
      r ← emit buffer ty t; Some (r.2, note_offset f o r.1 st)
  | Ir.CondBranchOp =>
      match Ir.o_succs o with
      | trueDest :: _ =>
          let args := take (numTrueOperands o) (drop 1 (Ir.o_operands o)) in
          let '(m, t) := buffer_inputs f 0 args t in
          let st := add_input (h_addr f, trueDest) m st in
          let '(m2, t) := buffer_inputs f 0 args t in
          Some (t, add_input (h_addr f, trueDest) m2 st)
      | [] => None
      end
  | _ => Some (t, st)
  end.

Fixpoint visit_ops (f : handler) (ops : list Ir.op) (t : tableT) (st : state) : option (tableT * state) :=
  match ops with [] => Some (t, st) | o :: ops' => r ← visit f o t st; visit_ops f ops' r.1 r.2 end.

(** The blocks in order; [c] are their tables so far. *)
Fixpoint analyse_blocks (f : handler) (b : nat) (bls : list Ir.block) (c : gmap nat tableT) (st : state)
    : option state :=
  match bls with
  | [] => Some st
  | bl :: bls' =>
      let t := fold_left (fun t pre => merge_maps t (default ∅ (c !! pre))) (Ir.preds (h_func f) b)
                 (default ∅ (c !! b)) in
      t ← installMapping b (Ir.b_args bl) (default [] (blockInput st !! (h_addr f, b))) t;
      r ← visit_ops f (Ir.b_ops bl) t st;
      analyse_blocks f (S b) bls' (<[b := r.1]> c) r.2
  end.

Definition analysisFunction (f : handler) (st : state) : option state :=
  analyse_blocks f O (Ir.f_blocks (h_func f)) ∅ st.

(** The buffers an extern passes to a handler that has no predecessor. *)
Definition extern_inputs (f : handler) : ArgMap :=
  match Ir.f_blocks (h_func f) with
  | bl :: _ => list_to_map (omap (fun p => match p.2 with
                 | Ir.BufferType => Some (Z.of_nat p.1, Hist (Some (h_addr f, Ir.BlockArg 0 p.1)) true 0)
                 | _ => None end) (imap (fun i t => (i, t)) (Ir.b_args bl)))
  | [] => ∅
  end.

Definition analyse_handler (f : handler) (st : state) : option state :=
  let st := if Deps.hasPredecessor graph isExternAddr (h_addr f) then st
            else add_input (h_addr f, O) (extern_inputs f) st in
  analysisFunction f st.

(** The constructor: the handlers of every component in its order. *)
Fixpoint analyse (order : list handler) (st : state) : option state :=
  match order with [] => Some st | f :: order' => st ← analyse_handler f st; analyse order' st end.

Definition BufferAnalysis (order : list handler) : option state := analyse order (State ∅ [] ∅).

(** ** Offsets in a run of operations *)

(** What an operation takes from a buffer, in bits. *)
Definition taken (f : handler) (v : Ir.value) (o : Ir.op) : option Z :=
  match Ir.o_kind o, Ir.o_operands o with
  | Ir.ExtractOp, b :: _ =>
      if bool_decide (b = v) then ty ← Ir.o_results o !! 0%nat; FieldSplit.getEP2TypeSize ty else Some 0
  | Ir.EmitOp, b :: w :: _ =>
      if bool_decide (b = v) then
        if is_buffer f w then Some 0 else FieldSplit.getEP2TypeSize (Split.value_type (h_func f) w)
      else Some 0
  | _, _ => Some 0
  end.
Definition all_taken (f : handler) (v : Ir.value) (ops : list Ir.op) : Z :=
  sumZ (map (fun o => default 0 (taken f v o)) ops).
(** It takes a field. *)
Definition takes (f : handler) (v : Ir.value) (o : Ir.op) : Prop :=
  Ir.o_operands o !! 0%nat = Some v /\
  (Ir.o_kind o = Ir.ExtractOp \/
   Ir.o_kind o = Ir.EmitOp /\ exists w, Ir.o_operands o !! 1%nat = Some w /\ is_buffer f w = false).

Lemma bracket_lookup w t v h : t !! v = Some h -> (bracket w t).2 !! v = Some h.
Proof.
  intros H. unfold bracket. destruct (t !! w) eqn:E; [done|]. cbn. rewrite lookup_insert_ne; [done|]. congruence.
Qed.

Lemma buffer_inputs_lookup f off operands t v h : t !! v = Some h ->
  (buffer_inputs f off operands t).2 !! v = Some h.
Proof.
  unfold buffer_inputs. generalize (∅ : ArgMap) as m. generalize (imap (fun i v => (i, v)) operands) as l.
  intros l. revert t. induction l as [|p l IH]; intros t m H; [done|]. cbn. destruct (is_buffer f p.2); [|by apply IH].
  pose proof (bracket_lookup p.2 t v h H) as Hb. destruct (bracket p.2 t) as [h' t']. by apply IH.
Qed.

Lemma note_offset_spec f o z st : let st' := note_offset f o z st in
  (forall k x, offsetAt st !! k = Some x -> offsetAt st' !! k = Some x) /\
  (offsetAt st !! (h_addr f, Ir.o_id o) = None -> offsetAt st' !! (h_addr f, Ir.o_id o) = Some z) /\
  (forall k, k <> (h_addr f, Ir.o_id o) -> offsetAt st' !! k = offsetAt st !! k).
Proof.
  cbn. unfold note_offset. destruct (offsetAt st !! (h_addr f, Ir.o_id o)) eqn:E; [done|]. cbn. split_ands.
  - intros k x H. rewrite lookup_insert_ne; [done|]. congruence.
  - by rewrite lookup_insert_eq.
  - intros k Hk. by rewrite lookup_insert_ne.
Qed.

(** One operation, for a buffer that is followed. *)
Lemma visit_spec f o t st t' st' v h : visit f o t st = Some (t', st') -> t !! v = Some h ->
  exists n, taken f v o = Some n /\ t' !! v = Some (Hist (h_source h) (known h) (offset h + n)) /\
    (forall k x, offsetAt st !! k = Some x -> offsetAt st' !! k = Some x) /\
    (forall k, k <> (h_addr f, Ir.o_id o) -> offsetAt st' !! k = offsetAt st !! k) /\
    (takes f v o -> offsetAt st !! (h_addr f, Ir.o_id o) = None ->
     offsetAt st' !! (h_addr f, Ir.o_id o) = Some (offset h)).
Proof.
  intros H Hv. unfold visit in H.
  assert (Hz : Hist (h_source h) (known h) (offset h + 0) = h) by (destruct h; cbn; f_equal; lia).
  assert (Hcase : forall b ty, Ir.o_operands o !! 0%nat = Some b -> takes f v o \/ b <> v ->
    forall r, emit b ty t = Some r -> t' = r.2 -> st' = note_offset f o r.1 st ->
    taken f v o = (if bool_decide (b = v) then FieldSplit.getEP2TypeSize ty else Some 0) ->
    exists n, taken f v o = Some n /\ t' !! v = Some (Hist (h_source h) (known h) (offset h + n)) /\
    (forall k x, offsetAt st !! k = Some x -> offsetAt st' !! k = Some x) /\
    (forall k, k <> (h_addr f, Ir.o_id o) -> offsetAt st' !! k = offsetAt st !! k) /\
    (takes f v o -> offsetAt st !! (h_addr f, Ir.o_id o) = None ->
     offsetAt st' !! (h_addr f, Ir.o_id o) = Some (offset h))).
  { intros b ty Hb Hor r He -> -> Ht. destruct (note_offset_spec f o r.1 st) as (H1 & H2 & H3).
    unfold emit in He. case_bool_decide as Hbv.
    - subst b. rewrite Hv in He. destruct (FieldSplit.getEP2TypeSize ty) as [n|]; [|done]. cbn in He.
      destruct (FieldSplit.int_of _) as [z|] eqn:Ez; [|done]. apply FieldSplit.int_of_inv in Ez as [-> _].
      cbn in He. simplify_eq He. intros <-. exists n. split_ands; [done|cbn; by rewrite lookup_insert_eq|done|done|]. intros _ Hn. by apply H2.
    - exists 0. rewrite Hz. split_ands; [done| |done|done|].
      + destruct (t !! b) as [hb|]; [|by simplify_eq He; intros <-].
        destruct (FieldSplit.getEP2TypeSize ty) as [n|]; [|done]. cbn in He.
        destruct (FieldSplit.int_of (offset hb + n)) as [z|]; [|done]. cbn in He. simplify_eq He. intros <-. cbn.
        by rewrite lookup_insert_ne.
      + intros [Hb' _] _. congruence. }
  destruct (Ir.o_kind o) eqn:Ek; try (simplify_eq H; intros <- <-; exists 0; rewrite Hz;
    split_ands; [unfold taken; rewrite Ek; done|done|done|done|intros [_ [?|[? _]]]; congruence]).
  - destruct (Ir.o_operands o !! 0%nat) as [b|] eqn:Eb; [|done]. cbn in H.
    destruct (Ir.o_results o !! 0%nat) as [ty|] eqn:Ety; [|done]. cbn in H.
    destruct (emit b ty t) as [r|] eqn:Ee; [|done]. cbn in H. simplify_eq H. intros <- <-.
    apply (Hcase b ty eq_refl) with (r := r); [|done|done|done|].
    + destruct (decide (b = v)) as [->|]; [left; split; [done|by left]|by right].
    + unfold taken. rewrite Ek. destruct (Ir.o_operands o); [done|]. cbn in Eb. simplify_eq Eb. intros ->.
      by rewrite Ety.
  - destruct (Ir.o_operands o !! 0%nat) as [b|] eqn:Eb; [|done]. cbn in H.
    destruct (Ir.o_operands o !! 1%nat) as [w|] eqn:Ew; [|done]. cbn in H.
    assert (Et : taken f v o = if bool_decide (b = v) then
      if is_buffer f w then Some 0 else FieldSplit.getEP2TypeSize (Split.value_type (h_func f) w) else Some 0).
    { unfold taken. rewrite Ek. destruct (Ir.o_operands o) as [|b' [|w' ?]]; try done. cbn in Eb, Ew. by simplify_eq. }
    destruct (is_buffer f w) eqn:Ebuf.
    + pose proof (bracket_lookup w t v h Hv) as H1. destruct (bracket w t) as [vh t1]. cbn in H1.
      pose proof (bracket_lookup b t1 v h H1) as H2. destruct (bracket b t1) as [bh t2]. cbn in H2.
      assert (Hfin : t' = t2 /\ offsetAt st' = offsetAt st)
        by (destruct (known vh && known bh), (h_source vh), (h_source bh); simplify_eq H; by intros <- <-).
      destruct Hfin as [-> Ho]. exists 0. rewrite Hz, Ho. split_ands; [by rewrite Et; case_bool_decide|done|done|done|].
      intros [_ [?|(_ & w' & Hw' & Hb')]]; congruence.
    + destruct (emit b _ t) as [r|] eqn:Ee; [|done]. cbn in H. simplify_eq H. intros <- <-.
      apply (Hcase b (Split.value_type (h_func f) w) eq_refl) with (r := r); [|done|done|done|exact Et].
      destruct (decide (b = v)) as [->|]; [left; split; [done|right]|by right]. split; [done|]. by exists w.
  - assert (Hd : forall a w, declare_ a w t !! v = Some h).
    { intros a w. unfold declare_. destruct (t !! w) eqn:Ew; [done|]. rewrite lookup_insert_ne; [done|]. congruence. }
    assert (Hfin : t' !! v = Some h /\ offsetAt st' = offsetAt st).
    { set (t1 := if makes_buffer o then _ else t) in H. assert (H1 : t1 !! v = Some h) by (unfold t1; destruct (makes_buffer o); [apply Hd|done]).
      destruct (event_of o); [|by simplify_eq H; intros <- <-].
      destruct (match Deps.initName f o with Deps.Done n => Deps.lookupHandler n hm | _ => None end) as [target|]; [|done].
      cbn in H. destruct (Ir.isExtern (h_func target)); [by simplify_eq H; intros <- <-|].
      pose proof (buffer_inputs_lookup f (-1) (Ir.o_operands o) t1 v h H1) as H2.
      destruct (buffer_inputs _ _ _ _) as [m t2]. simplify_eq H. by intros <- <-. }
    destruct Hfin as [Hf1 Hf2]. exists 0. rewrite Hz, Hf2. split_ands; [by unfold taken; rewrite Ek|done|done|done|].
    intros [_ [?|[? _]]]; congruence.
  - destruct (Ir.o_succs o) as [|trueDest rest]; [done|].
    pose proof (buffer_inputs_lookup f 0 (take (numTrueOperands o) (drop 1 (Ir.o_operands o))) t v h Hv) as H1.
    destruct (buffer_inputs f 0 _ t) as [m t1]. cbn in H1.
    pose proof (buffer_inputs_lookup f 0 (take (numTrueOperands o) (drop 1 (Ir.o_operands o))) t1 v h H1) as H2.
    destruct (buffer_inputs f 0 _ t1) as [m2 t2]. simplify_eq H. intros <- <-. cbn in H2.
    exists 0. rewrite Hz. split_ands; [by unfold taken; rewrite Ek|done|done|done|]. intros [_ [?|[? _]]]; congruence.
Qed.

(** In a run of operations on a buffer whose history is known at its start, every field
    extracted from the buffer or emitted to it is at the offset of the start and the
    bits of the fields before it. *)
Theorem offsets_add_up f ops t st t' st' v h : visit_ops f ops t st = Some (t', st') -> t !! v = Some h ->
  NoDup (map Ir.o_id ops) -> (forall o, o ∈ ops -> offsetAt st !! (h_addr f, Ir.o_id o) = None) ->
  t' !! v = Some (Hist (h_source h) (known h) (offset h + all_taken f v ops)) /\
  forall before o after, ops = before ++ o :: after -> takes f v o ->
    offsetAt st' !! (h_addr f, Ir.o_id o) = Some (offset h + all_taken f v before).
Proof.
  intros H Hv Hnd Hnew.
  enough (Hgen : (forall k x, offsetAt st !! k = Some x -> offsetAt st' !! k = Some x) /\
    t' !! v = Some (Hist (h_source h) (known h) (offset h + all_taken f v ops)) /\
    forall before o after, ops = before ++ o :: after -> takes f v o ->
      offsetAt st' !! (h_addr f, Ir.o_id o) = Some (offset h + all_taken f v before)) by apply Hgen.
  revert t st h H Hv Hnd Hnew. induction ops as [|o ops IH]; intros t st h H Hv Hnd Hnew; cbn [visit_ops] in H.
  - simplify_eq H. intros <- <-. unfold all_taken. cbn. rewrite Z.add_0_r.
    split_ands; [done|by destruct h|]. by intros [].
  - destruct (visit f o t st) as [[t1 st1]|] eqn:Ev; [|done]. cbn [mbind option_bind fst snd] in H.
    destruct (visit_spec f o t st t1 st1 v h Ev Hv) as (n & Ht & Hv1 & Hkeep & Hother & Hat).
    cbn [map] in Hnd. apply NoDup_cons in Hnd as [Hno Hnd].
    assert (Hall : forall l, all_taken f v (o :: l) = n + all_taken f v l)
      by (intros l; unfold all_taken; cbn [map]; rewrite Ht; done).
    destruct (IH t1 st1 _ H Hv1 Hnd) as (Hk & Hv' & Ho).
    { intros o' Ho'. rewrite Hother; [apply Hnew; by right|]. intros [= E]. apply Hno. rewrite <- E.
      apply list_elem_of_fmap. by exists o'. }
    split_ands; [auto|rewrite Hall, Hv'; cbn; do 2 f_equal; lia|].
    intros [|o1 before] o2 after [= <- E] Htk.
    + apply Hk. rewrite Hat; [cbn; f_equal; unfold all_taken; cbn; lia|done|apply Hnew; by left].
    + rewrite Hall, (Ho _ _ _ E Htk). cbn. f_equal. lia.
Qed.

(** The block a conditional branch goes to when its condition is false gets no history:
    the second half of the code asks for the true destination again. *)
Lemma false_destination_forgotten f o t st t' st' a b : Ir.o_kind o = Ir.CondBranchOp ->
  Ir.o_succs o = [a; b] -> a <> b -> visit f o t st = Some (t', st') ->
  blockInput st' !! (h_addr f, b) = blockInput st !! (h_addr f, b).
Proof.
  intros Ek Es Hab H. unfold visit in H. rewrite Ek, Es in H.
  destruct (buffer_inputs f 0 _ t) as [m t1]. destruct (buffer_inputs f 0 _ t1) as [m2 t2].
  simplify_eq H. intros <- <-. cbn. by rewrite !lookup_insert_ne by congruence.
Qed.
End Analysis.

(** A history that two predecessors disagree on is known again when a third agrees with
    the first of them: [merge] forgets that it was unknown. *)
Lemma merge_forgets_unknown s :
  known (merge (Hist s true 0) (Hist s true 8)) = false /\
  merge (merge (Hist s true 0) (Hist s true 8)) (Hist s true 0) = Hist s true 0.
Proof. unfold merge. cbn. by rewrite !bool_decide_true by done. Qed.

(** ** Examples *)

(** A header and a field extracted from a packet, and a byte emitted to another one. *)
Definition forwarder : handler := Deps.Handler 1 (Ir.Func "in" ∅
  [Ir.Block [Ir.BufferType; Ir.BufferType]
     [Ir.Op 0 Ir.ExtractOp [Ir.BlockArg 0 0] [Ir.StructType false [Ir.IntegerType 16; Ir.IntegerType 32] "hdr"] [];
      Ir.Op 1 Ir.ExtractOp [Ir.BlockArg 0 0] [Ir.IntegerType 8] [];
      Ir.Op 2 Ir.EmitOp [Ir.BlockArg 0 1; Ir.OpResult 1 0] [] [];
      Ir.Op 3 Ir.ExtractOp [Ir.BlockArg 0 0] [Ir.IntegerType 32] []]]) (fun _ => None).
Definition forwarder_ops : list Ir.op := concat (map Ir.b_ops (Ir.f_blocks (h_func forwarder))).
Definition at_start : tableT :=
  {[Ir.BlockArg 0 0 := Hist (Some (1%nat, Ir.BlockArg 0 0)) true 0;
    Ir.BlockArg 0 1 := Hist (Some (1%nat, Ir.BlockArg 0 1)) true 0]}.

Example forwarder_offsets :
  map (fun i => (BufferAnalysis [] ∅ (fun _ => false) (fun _ => O) [forwarder] ≫=
                 fun st => offsetAt st !! (1, i)%nat)) (seq 0 4) = [Some 0; Some 48; Some 0; Some 56].
Proof. by vm_compute. Qed.

Lemma offsets_add_up_witness :
  let r := visit_ops [] (fun _ => O) forwarder forwarder_ops at_start (State ∅ [] ∅) in
  exists t' st', r = Some (t', st') /\ offsetAt st' !! (1, 3)%nat = Some (0 + 56).
Proof.
  intros r. destruct r as [[t' st']|] eqn:E; [|vm_compute in E; discriminate E].
  exists t', st'. split; [done|].
  refine (proj2 (offsets_add_up [] (fun _ => O) forwarder forwarder_ops at_start _ t' st' (Ir.BlockArg 0 0)
    (Hist (Some (1%nat, Ir.BlockArg 0 0)) true 0) E eq_refl _ _) (take 3 forwarder_ops) _ [] eq_refl _).
  - apply (bool_decide_unpack _). by vm_compute.
  - done.
  - split; [done|by left].
Defined.
End BufferHist.
