(* ===== verification/Memcpy.v ===== *)
(** src/lib/ep2/LowerMemcpyPass.cpp: a copy between packet buffers, local buffers and
    memory becomes intrinsics the microengine has, each of a bounded size and starting
    at a member of the struct in the transfer registers. *)
From Stdlib Require Import ZArith Lia List String.
From stdpp Require Import base list numbers option strings pretty.
From S2P Require Import Prelude.
#[local] Open Scope Z_scope.

Module Memcpy.

(** ** Operations of the EmitC dialect, as far as the pass looks at them *)

Inductive cty := PointerType (pointee : cty) | OpaqueType (name : string) | OtherType.

(** An operation with what defines its operands; [None] for a block argument. *)
Inductive cop :=
  | VariableOp (value : string) (type : cty)
  | CallOp (callee : string) (args : list Z) (operands : list (option cop)) (type : cty)
  | OtherOp (type : cty).

Definition result_type (op : cop) : cty :=
  match op with VariableOp _ t => t | CallOp _ _ _ t => t | OtherOp t => t end.

(** The body of an LLVM struct. *)
Inductive member := IntOrFloat (bits : Z) | LLVMPointer | OtherMember.

(** What the rewriter creates: operations over the two operands of the copy, the new
    transfer variable and the local buffer. *)
Inductive ref := Opd0 | Opd1 | Xfer | LocBuf.
Inductive rop :=
  | NewVariable (type : cty) (value : string)
  | NewCall (callee : string) (args : list Z) (operands : list ref).

(** A failed assertion is [None]; so is a null pointer passed to [isa]. *)

Definition is_call (name : string) (op : cop) : bool :=
  match op with CallOp c _ _ _ => String.eqb c name | _ => false end.

(** Follow the chain of struct updates to its source, through operand 1. *)
Fixpoint followUpdateOps (op : cop) : option cop :=
  match op with
  | CallOp c _ (_ :: o1 :: _) _ =>
      if String.eqb c "__ep2_intrin_struct_write" then
        match o1 with Some op' => followUpdateOps op' | None => None end
      else Some op
  | _ => Some op
  end.

Definition isPointer (t : cty) : bool := match t with PointerType _ => true | _ => false end.

(** The loop over struct accesses, through operand 0. *)
Fixpoint followAccessOps (op : cop) : option cop :=
  match op with
  | CallOp c _ (o0 :: _) t =>
      if negb (String.eqb c "__ep2_intrin_struct_access") || negb (isPointer t) then Some op
      else match o0 with Some op' => followAccessOps op' | None => None end
  | _ => Some op
  end.

Definition variable_starts (prefix : string) (op : cop) : bool :=
  match op with VariableOp v _ => String.prefix prefix v | _ => false end.

Definition isLocBuf (op : option cop) : option bool :=
  match op with
  | None => Some false
  | Some op =>
      match followUpdateOps op with
      | None => Some false
      | Some op =>
          if variable_starts "&_loc_buf" op then Some true
          else
            match followAccessOps op with
            | None => None
            | Some op => Some (variable_starts "&work" op)
            end
      end
  end.

Definition isRtBuf (op : option cop) : bool :=
  match op with
  | None => false
  | Some op =>
      match followUpdateOps op with
      | None => false
      | Some op =>
          match result_type op with OpaqueType n => String.eqb n "struct __buf_t" | _ => false end
      end
  end.

(** ** Offsets of members *)

Inductive position := Found (i : Z) | NotFound | Crash.

Definition member_size (t : member) : Z :=
  match t with IntOrFloat bits => bits / 8 | LLVMPointer => 8 | OtherMember => 0 end.

Fixpoint member_at (body : list member) (i partialSum offs : Z) : position :=
  match body with
  | [] => NotFound
  | t :: body' =>
      if negb (partialSum <=? offs) then Crash
      else if partialSum =? offs then Found i
      else member_at body' (i + 1) (partialSum + member_size t) offs
  end.

(** [name.find(sub) != npos] *)
Definition contains (sub name : string) : bool :=
  match String.index 0 sub name with Some _ => true | None => false end.

Fixpoint translateStructOffset (structDefs : list (string * list member)) (offs : Z)
    (structName : string) : position :=
  match structDefs with
  | [] => NotFound
  | (name, body) :: defs =>
      if contains structName name then
        match member_at body 0 0 offs with
        | NotFound => translateStructOffset defs offs structName
        | p => p
        end
      else translateStructOffset defs offs structName
  end.

(** ** Decomposition *)

(** The two kinds of copies of a decomposition: the member and offset a copy starts at,
    how much it copies and how much it advances. *)
Record chunk := Chunk { c_fast : bool; c_member : Z; c_off : Z; c_size : Z; c_advance : Z }.

Inductive emission := Emitted (canUseFast : bool) (chunks : list chunk) | Crashed | OutOfFuel.

(** The loop of [doEmission]; what a dry run would emit is dropped by its caller. *)
Fixpoint doEmission (fuel : nat) (pos : Z -> position)
    (fastMaxSize fastAlign slowMaxSize slowAlign szAdvance : Z) (canUseFast : bool) (sz off : Z)
    : emission :=
  if negb (sz >? 0) then Emitted canUseFast []
  else
    match fuel with
    | O => OutOfFuel
    | S fuel' =>
        match pos off with
        | Crash => Crashed
        | NotFound => Emitted false []
        | Found m =>
            let again := doEmission fuel' pos fastMaxSize fastAlign slowMaxSize slowAlign szAdvance
                           canUseFast in
            if canUseFast && (sz >=? fastAlign) then
              let szFast := Z.min fastMaxSize (sz / fastAlign * fastAlign) in
              match again (sz - szFast) (off + szFast) with
              | Emitted c cs => Emitted c (Chunk true m off szFast (Z.min szFast (szAdvance - off)) :: cs)
              | e => e
              end
            else if sz >=? slowAlign then
              let szSlow := Z.min slowMaxSize sz in
              match again (sz - szSlow) (off + szSlow) with
              | Emitted c cs => Emitted c (Chunk false m off szSlow (Z.min szSlow (szAdvance - off)) :: cs)
              | e => e
              end
            else again sz off
        end
    end.

(** The arguments of [__ep2_intrin_memcpy]: offset, size, tag, and for a copy at a known
    place of a packet buffer that place. *)
Record memcpy_args := MemcpyArgs { a_off : Z; a_size : Z; a_tag : Z; a_place : option Z }.

Definition DECOMPOSE_FUEL (size : Z) : nat := S (Z.to_nat size).

(** The dry run decides whether the fast copies can be used; then the same loop emits. *)
Definition decompose (pos : Z -> position) (isWrite usePktBuf : bool) (a : memcpy_args)
    : option (list chunk) :=
  let szAdvance := a_size a in
  if negb (szAdvance >=? 0) then None
  else
    let szOrig := if negb (usePktBuf && isWrite) then (szAdvance + 3) / 4 * 4 else szAdvance in
    let run c := doEmission (DECOMPOSE_FUEL szOrig) pos 128 4 32 1 szAdvance c szOrig (a_off a) in
    match run true with
    | Emitted canUse32 _ =>
        match run canUse32 with
        | Emitted _ cs => Some cs
        | _ => None
        end
    | _ => None
    end.

Inductive MemType := EMEM | CLS.
Definition toStringFunc (m : MemType) : string := match m with EMEM => "mem" | CLS => "cls" end.

Definition bool_Z (b : bool) : Z := if b then 1 else 0.

(** The intrinsics of one copy. *)
Definition emitMemIntrinsic (intrinsic : string) (isWrite usePktBuf : bool) (a : memcpy_args)
    (c : chunk) : option (list rop) :=
  let mem := if isWrite then Opd0 else Opd1 in
  let setOffset := match a_place a with Some p => c_off c + p | None => -1 end in
  let emitOffsetCmd (doSetOffset : bool) :=
    [NewCall "__ep2_intrin_incr_offs" [bool_Z isWrite; c_advance c; if doSetOffset then setOffset else -1]
       [mem]] in
  let before := if usePktBuf && negb (setOffset =? -1) then emitOffsetCmd true else [] in
  let after := if (setOffset =? -1) && usePktBuf then emitOffsetCmd false else [] in
  let args := [Z.lnot (c_member c); c_size c; a_tag a] in
  let call :=
    if String.eqb intrinsic "__ep2_intrin_memcpy_cls_write32" then
      Some (NewCall "__ep2_intrin_memcpy_cls_write" args [Xfer; mem])
    else if String.eqb intrinsic "__ep2_intrin_memcpy_cls_read32" then
      Some (NewCall "__ep2_intrin_memcpy_cls_read" args [Xfer; mem])
    else if String.eqb intrinsic "__ep2_intrin_memcpy_cls_write8" then
      Some (NewCall "__ep2_intrin_ctx_write" [c_member c; 0; 1] [Xfer; mem])
    else if String.eqb intrinsic "__ep2_intrin_memcpy_cls_read8" then None
    else Some (NewCall intrinsic args [Xfer; mem]) in
  match call with Some r => Some (before ++ [r] ++ after) | None => None end.

Definition intrinsic_name (isWrite usePktBuf : bool) (mem : MemType) (c : chunk) : string :=
  "__ep2_intrin_memcpy" ++ (if usePktBuf then "buf_" else "_") ++ toStringFunc mem
  ++ (if isWrite then "_write" else "_read") ++ (if c_fast c then "32" else "8").

Fixpoint emit_all (isWrite usePktBuf : bool) (mem : MemType) (a : memcpy_args) (cs : list chunk)
    : option (list rop) :=
  match cs with
  | [] => Some []
  | c :: cs' =>
      match emitMemIntrinsic (intrinsic_name isWrite usePktBuf mem c) isWrite usePktBuf a c,
            emit_all isWrite usePktBuf mem a cs' with
      | Some l, Some l' => Some (l ++ l')%list
      | _, _ => None
      end
  end.

Definition decomposeMemcpy (pos : Z -> position) (isWrite usePktBuf : bool) (mem : MemType)
    (a : memcpy_args) : option (list rop) :=
  match decompose pos isWrite usePktBuf a with
  | Some cs => emit_all isWrite usePktBuf mem a cs
  | None => None
  end.

(** ** The pattern *)

(** [s.substr(s.find("struct ") + 7)] *)
Definition struct_name (s : string) : option string :=
  let from n := if (n <=? String.length s)%nat then Some (String.substring n (String.length s - n) s)
                else None in
  match String.index 0 "struct " s with Some n => from (n + 7)%nat | None => from 6%nat end.

Definition convertToXferType (t : cty) : option cty :=
  match t with
  | PointerType (OpaqueType base) => Some (PointerType (OpaqueType ("__xrw " ++ base)))
  | _ => None
  end.

Definition getMemberPos (structDefs : list (string * list member)) (xfer : cty) (offs : Z) : position :=
  match xfer with
  | PointerType (OpaqueType n) =>
      match struct_name n with
      | Some s => translateStructOffset structDefs (wrap 32 offs) s
      | None => Crash
      end
  | _ => Crash
  end.

Definition getNewXferName (locBuf : cop) : option string :=
  match locBuf with
  | VariableOp v _ => Some (v ++ "_xfer")%string
  | CallOp c (n :: _) _ _ =>
      if String.eqb c "__ep2_intrin_struct_access" then Some ("_work_" ++ pretty n ++ "_xfer")%string
      else None
  | _ => None
  end.

Inductive rewrite := NoMatch | Aborts | Rewritten (ops : list rop).

(** Copies from memory to a local buffer ([isWrite] false) or the other way. *)
Definition through_xfer (structDefs : list (string * list member)) (isWrite isBuf : bool)
    (opd : option cop) (a : memcpy_args) : rewrite :=
  match opd with
  | None => Aborts
  | Some op =>
      match followUpdateOps op with
      | None => Aborts
      | Some locBuf =>
          match convertToXferType (result_type locBuf), getNewXferName locBuf with
          | Some t, Some name =>
              let mem := if isBuf then EMEM else CLS in
              match decomposeMemcpy (getMemberPos structDefs t) isWrite isBuf mem a with
              | Some ops =>
                  Rewritten (NewVariable t name ::
                    (if isWrite then NewCall "__ep2_intrin_gpr2xfer" [] [LocBuf; Xfer] :: ops
                     else ops ++ [NewCall "__ep2_intrin_xfer2gpr" [] [Xfer; LocBuf]]))
              | None => Aborts
              end
          | _, _ => Aborts
          end
      end
  end.

Definition memcpy_arg_list (a : memcpy_args) : list Z :=
  [a_off a; a_size a; a_tag a] ++ option_list (a_place a).

Definition matchAndRewrite (structDefs : list (string * list member)) (callee : string)
    (opd0 opd1 : option cop) (a : memcpy_args) : rewrite :=
  if negb (String.eqb callee "__ep2_intrin_memcpy") then NoMatch
  else
    let isBuf0 := isRtBuf opd0 in
    match isLocBuf opd0 with
    | None => Aborts
    | Some isLoc0 =>
        let isBuf1 := isRtBuf opd1 in
        match isLocBuf opd1 with
        | None => Aborts
        | Some isLoc1 =>
            if isBuf0 && isBuf1 then
              Rewritten [NewCall "__ep2_intrin_memcpybuf_bulk_memcpy" (memcpy_arg_list a) [Opd0; Opd1];
                         NewCall "__ep2_intrin_incr_offs" [2; - 2 ^ 31; -1] [Opd0; Opd1]]
            else if isLoc0 then through_xfer structDefs false isBuf1 opd0 a
            else if isLoc1 then through_xfer structDefs true isBuf0 opd1 a
            else Aborts
        end
    end.

(** ** What a decomposition covers *)

(** The copies follow each other without a gap, each from the member at its offset. *)
Inductive tiles (pos : Z -> position) : Z -> list chunk -> Z -> Prop :=
  | tiles_nil off : tiles pos off [] off
  | tiles_cons c cs off e :
      c_off c = off -> 0 < c_size c -> pos off = Found (c_member c) ->
      tiles pos (off + c_size c) cs e -> tiles pos off (c :: cs) e.

(** The sizes the hardware accepts. *)
Definition size_ok (c : chunk) : Prop :=
  if c_fast c then c_size c mod 4 = 0 /\ c_size c <= 128 else c_size c <= 32.

(** A copy that starts inside advances by what is left, at most its size. *)
Definition advance_ok (szAdvance : Z) (c : chunk) : Prop :=
  c_advance c = Z.min (c_size c) (szAdvance - c_off c).

Lemma doEmission_spec pos adv fuel : forall canUse sz off, (Z.to_nat sz < fuel)%nat ->
  doEmission fuel pos 128 4 32 1 adv canUse sz off = Crashed
  \/ exists c cs e, doEmission fuel pos 128 4 32 1 adv canUse sz off = Emitted c cs
     /\ tiles pos off cs e /\ Forall size_ok cs /\ Forall (advance_ok adv) cs
     /\ (e = off + Z.max 0 sz \/ (e < off + sz /\ pos e = NotFound))
     /\ (sz mod 4 = 0 -> Forall (fun c => c_size c mod 4 = 0) cs).
Proof.
  induction fuel as [|fuel IH]; intros canUse sz off Hf; [lia|].
  cbn [doEmission]. rewrite Z.gtb_ltb. destruct (Z.ltb_spec 0 sz); cbn [negb].
  2: { right. exists canUse, [], off. split_ands; try done; [constructor|left; lia]. }
  destruct (pos off) as [m| |] eqn:Hp; [|right|by left].
  2: { exists false, [], off. split_ands; try done; [constructor|right; split; [lia|done]]. }
  assert (Hstep : forall (k : Z) (b : bool) (adv' : Z), 0 < k <= sz -> (if b then k mod 4 = 0 /\ k <= 128 else k <= 32) ->
    adv' = Z.min k (adv - off) -> (sz mod 4 = 0 -> k mod 4 = 0) ->
    let r := match doEmission fuel pos 128 4 32 1 adv canUse (sz - k) (off + k) with
             | Emitted c cs => Emitted c (Chunk b m off k adv' :: cs) | e => e end in
    r = Crashed
    \/ exists c cs e, r = Emitted c cs /\ tiles pos off cs e /\ Forall size_ok cs
       /\ Forall (advance_ok adv) cs /\ (e = off + Z.max 0 sz \/ (e < off + sz /\ pos e = NotFound))
       /\ (sz mod 4 = 0 -> Forall (fun c => c_size c mod 4 = 0) cs)).
  { intros k b adv' Hk Hb Hadv Hk4. cbn zeta.
    destruct (IH canUse (sz - k) (off + k)) as [->|(c & cs & e & -> & Ht & Hs & Ha & He & H4)];
      [lia|by left|right]. exists c, (Chunk b m off k adv' :: cs), e. split_ands.
    - done.
    - by constructor; cbn; [|lia| |].
    - by constructor.
    - by constructor.
    - destruct He as [->|[He Hn]]; [left; lia|right; split; [lia|done]].
    - intros Hm. constructor; [cbn; auto|]. apply H4. specialize (Hk4 Hm). divlia. }
  destruct (canUse && (sz >=? 4)) eqn:Hc.
  - apply andb_true_iff in Hc as [_ Hc]. apply Z.geb_le in Hc.
    assert (Hk : 0 < Z.min 128 (sz / 4 * 4) <= sz /\ Z.min 128 (sz / 4 * 4) mod 4 = 0
                 /\ Z.min 128 (sz / 4 * 4) <= 128).
    { destruct (Z.min_spec 128 (sz / 4 * 4)) as [[? ->]|[? ->]]; split_ands; divlia. }
    apply Hstep; try tauto; lia.
  - destruct (Z.geb_spec sz 1); [|lia]. apply Hstep; [lia|lia|done|].
    intros Hm. destruct (Z.min_spec 32 sz) as [[_ ->]|[_ ->]]; done.
Qed.

Lemma doEmission_total pos adv canUse sz off :
  doEmission (DECOMPOSE_FUEL sz) pos 128 4 32 1 adv canUse sz off <> OutOfFuel.
Proof.
  destruct (doEmission_spec pos adv (DECOMPOSE_FUEL sz) canUse sz off) as [->|(c & cs & e & -> & _)];
    try done. unfold DECOMPOSE_FUEL. lia.
Qed.

(** The bytes that are copied: a transfer register is filled in units of four bytes. *)
Definition total_size (isWrite usePktBuf : bool) (a : memcpy_args) : Z :=
  if negb (usePktBuf && isWrite) then (a_size a + 3) / 4 * 4 else a_size a.

Lemma decompose_spec pos isWrite usePktBuf a cs : decompose pos isWrite usePktBuf a = Some cs ->
  let n := total_size isWrite usePktBuf a in
  0 <= a_size a <= n /\ exists e,
    tiles pos (a_off a) cs e /\ Forall size_ok cs /\ Forall (advance_ok (a_size a)) cs
    /\ (e = a_off a + n \/ (e < a_off a + n /\ pos e = NotFound))
    /\ (n mod 4 = 0 -> Forall (fun c => c_size c mod 4 = 0) cs).
Proof.
  unfold decompose. cbn zeta. fold (total_size isWrite usePktBuf a). rewrite Z.geb_leb.
  destruct (Z.leb_spec 0 (a_size a)); cbn [negb]; [|done].
  assert (Hn : a_size a <= total_size isWrite usePktBuf a) by (unfold total_size; case_bool; divlia).
  set (n := total_size isWrite usePktBuf a) in *. intros H0. split; [lia|].
  destruct (doEmission _ _ _ _ _ _ _ true _ _) as [c1 cs1| |]; try done.
  destruct (doEmission_spec pos (a_size a) (DECOMPOSE_FUEL n) c1 n (a_off a))
    as [Hr|(c & cs' & e & Hr & Ht & Hs & Ha & He & H4)]; [unfold DECOMPOSE_FUEL; lia| |];
    rewrite Hr in H0; [done|]. simplify_eq H0; intros <-. exists e. split_ands; try done.
  destruct He as [->|?]; [left; lia|by right].
Qed.

Lemma sum_sizes c cs : sumZ (map c_size (c :: cs)) = c_size c + sumZ (map c_size cs).
Proof. done. Qed.

Lemma sum_advances c cs : sumZ (map c_advance (c :: cs)) = c_advance c + sumZ (map c_advance cs).
Proof. done. Qed.

Lemma tiles_end pos off cs e : tiles pos off cs e -> e = off + sumZ (map c_size cs).
Proof. induction 1; [cbn; lia|]. rewrite sum_sizes. lia. Qed.

Lemma tiles_mod4 pos off cs e : tiles pos off cs e -> Forall (fun c => c_size c mod 4 = 0) cs ->
  e mod 4 = off mod 4.
Proof.
  induction 1 as [|c cs off e Ho Hs Hp Ht IH]; [done|]. intros HF. inversion HF; subst.
  rewrite IH by done. divlia.
Qed.

(** The advances of a complete decomposition from offset 0 add up to the size. *)
Lemma tiles_advance pos off cs e size : tiles pos off cs e -> Forall (advance_ok size) cs ->
  0 <= off -> off <= size -> (forall c, c ∈ cs -> c_off c < size) ->
  size <= e -> sumZ (map c_advance cs) = size - off.
Proof.
  induction 1 as [off|c cs off e Ho Hs Hp Ht IH]; intros Ha H0 Hle Hlt He; [cbn; lia|].
  rewrite sum_advances.
  inversion Ha as [|?? Hc Ha']; subst. unfold advance_ok in Hc. rewrite Hc.
  destruct (decide (c_off c + c_size c <= size)) as [Hin|Hout].
  - rewrite IH; [lia|done|lia|lia| |done]. intros c' Hc'. apply Hlt. by right.
  - assert (cs = []) as ->.
    { destruct cs as [|c' cs']; [done|]. inversion Ht; subst.
      specialize (Hlt c' ltac:(right; left)). lia. }
    cbn. lia.
Qed.

Lemma tiles_off_lt pos off cs e : tiles pos off cs e -> forall c, c ∈ cs ->
  off <= c_off c /\ c_off c + c_size c <= e.
Proof.
  induction 1 as [off|c cs off e Ho Hs Hp Ht IH]; intros c' Hc'; [by apply not_elem_of_nil in Hc'|].
  apply elem_of_cons in Hc' as [->|Hc'].
  - split; [lia|]. pose proof (tiles_end _ _ _ _ Ht). enough (0 <= sumZ (map c_size cs)) by lia.
    clear -Ht. induction Ht; [cbn; lia|]. rewrite sum_sizes. lia.
  - specialize (IH c' Hc'). lia.
Qed.

Lemma tiles_positive pos off cs e : tiles pos off cs e -> forall c, c ∈ cs -> 0 < c_size c.
Proof.
  induction 1 as [|c0 cs off e Ho Hs Hp Ht IH]; intros c Hc; [by apply not_elem_of_nil in Hc|].
  apply elem_of_cons in Hc as [->|Hc]; auto.
Qed.

(** ** Where members are *)

(** Where the last member of a body starts. *)
Definition last_start (body : list member) : Z := sumZ (map member_size (removelast body)).

(** The search asserts that it has not passed the offset at the start of each member, so
    it gives up only past the start of the last. *)
Lemma member_at_not_found body : forall i partial offs, member_at body i partial offs = NotFound ->
  body = [] \/ partial + last_start body < offs.
Proof.
  induction body as [|t body IH]; intros i partial offs H; [by left|right]. cbn in H.
  destruct (Z.leb_spec partial offs); [|done]. cbn in H.
  destruct (Z.eqb_spec partial offs); [done|]. apply IH in H as [->|H]; [cbn; lia|].
  unfold last_start in *. destruct body; [cbn in *; lia|]. cbn [removelast map sumZ fold_right] in *.
  cbn in *. lia.
Qed.

Lemma translate_not_found defs : forall offs s, translateStructOffset defs offs s = NotFound ->
  forall name body, In (name, body) defs -> contains s name = true ->
  body = [] \/ last_start body < offs.
Proof.
  induction defs as [|[n b] defs IH]; intros offs s H name body Hin Hc; [done|]. cbn in H.
  destruct Hin as [[= -> ->]|Hin].
  - rewrite Hc in H. destruct (member_at body 0 0 offs) eqn:Hm; try done.
    apply member_at_not_found in Hm. cbn in Hm. exact Hm.
  - destruct (contains s n); [destruct (member_at b 0 0 offs); try done|]; by eapply IH.
Qed.

Lemma member_at_found body : forall i partial offs m, member_at body i partial offs = Found m ->
  exists l1 t l2, body = l1 ++ t :: l2 /\ m = i + Z.of_nat (length l1)
                  /\ offs = partial + sumZ (map member_size l1).
Proof.
  induction body as [|t body IH]; intros i partial offs m H; [done|]. cbn in H.
  destruct (negb _); [done|]. destruct (Z.eqb_spec partial offs) as [->|].
  - simplify_eq H; intros <-. exists [], t, body. cbn. split_ands; [done|lia|lia].
  - apply IH in H as (l1 & t' & l2 & -> & -> & ->). exists (t :: l1), t', l2.
    change (sumZ (map member_size (t :: l1))) with (member_size t + sumZ (map member_size l1)).
    cbn [length app]. split_ands; [done|lia|lia].
Qed.

(** C20: Decomposing a copy into intrinsics: the copies follow each other without
    gap or overlap from the first offset, each starts at the member it names and
    is a multiple of four up to 128 bytes or at most 32 bytes, and together they
    cover the size (rounded up to four bytes unless a packet is written), or stop
    where no member starts. From offset 0 a complete decomposition advances the
    buffer by exactly the size. *)
Theorem memcpy_tiles structDefs xfer isWrite usePktBuf a cs :
  decompose (getMemberPos structDefs xfer) isWrite usePktBuf a = Some cs ->
  let pos := getMemberPos structDefs xfer in
  let n := total_size isWrite usePktBuf a in
  a_size a <= n < a_size a + 4 /\ exists e,
    tiles pos (a_off a) cs e /\ Forall size_ok cs
    /\ (e = a_off a + n \/ (e < a_off a + n /\ pos e = NotFound))
    /\ (a_off a = 0 -> e = n -> sumZ (map c_advance cs) = a_size a).
Proof.
  intros H. cbn zeta. destruct (decompose_spec _ _ _ _ _ H) as [Hn (e & Ht & Hs & Ha & He & H4)].
  assert (Hlt : total_size isWrite usePktBuf a < a_size a + 4) by (unfold total_size; case_bool; divlia).
  split; [lia|]. exists e. split_ands; try done. intros H0 Hen.
  rewrite H0 in *. rewrite (tiles_advance _ _ _ _ _ Ht Ha); [lia|lia|lia| |lia].
  intros c Hc. pose proof (tiles_off_lt _ _ _ _ Ht c Hc) as [Hc0 Hce].
  pose proof (tiles_positive _ _ _ _ Ht c Hc) as Hpos.
  unfold total_size in *. destruct (negb (usePktBuf && isWrite)); [|lia].
  assert (Hm : (a_size a + 3) / 4 * 4 mod 4 = 0) by divlia. specialize (H4 Hm).
  rewrite List.Forall_forall in H4. pose proof (H4 c ltac:(by apply list_elem_of_In)). divlia.
Qed.

Definition demo_defs : list (string * list member) :=
  [("eth_t"%string, [IntOrFloat 48; IntOrFloat 48; IntOrFloat 16])].
Definition demo_xfer : cty := PointerType (OpaqueType "__xrw struct eth_t").

Lemma memcpy_tiles_witness :
  decompose (getMemberPos demo_defs demo_xfer) true true (MemcpyArgs 0 14 1 None)
  = Some [Chunk true 0 0 12 12; Chunk false 2 12 2 2]
  /\ 14 <= total_size true true (MemcpyArgs 0 14 1 None) < 14 + 4.
Proof.
  split; [by vm_compute|].
  apply (memcpy_tiles demo_defs demo_xfer true true (MemcpyArgs 0 14 1 None)
           [Chunk true 0 0 12 12; Chunk false 2 12 2 2]). by vm_compute.
Defined.

(** Where a decomposition that is not complete stops: past the start of the last member
    of every struct of that name. *)
Lemma memcpy_stops structDefs t s e : struct_name t = Some s ->
  getMemberPos structDefs (PointerType (OpaqueType t)) e = NotFound ->
  forall name body, In (name, body) structDefs -> contains s name = true ->
  body = [] \/ last_start body < wrap 32 e.
Proof. intros Hs. cbn. rewrite Hs. apply translate_not_found. Qed.

(** The member a copy names starts at the offset of the copy. *)
Lemma member_pos_found structDefs s offs m : translateStructOffset structDefs offs s = Found m ->
  exists name body, In (name, body) structDefs /\ contains s name = true
    /\ exists l1 t l2, body = (l1 ++ t :: l2)%list /\ m = Z.of_nat (length l1)
       /\ offs = sumZ (map member_size l1).
Proof.
  induction structDefs as [|[n b] defs IH]; [done|]. cbn.
  assert (Hrec : translateStructOffset defs offs s = Found m -> exists name body,
    In (name, body) ((n, b) :: defs) /\ contains s name = true
    /\ exists l1 t l2, body = (l1 ++ t :: l2)%list /\ m = Z.of_nat (length l1)
       /\ offs = sumZ (map member_size l1)).
  { intros H. destruct (IH H) as (name & body & Hin & Hrest). exists name, body.
    split; [by right|done]. }
  destruct (contains s n) eqn:Hc; [|done]. destruct (member_at b 0 0 offs) as [i| |] eqn:Hm; try done.
  intros [= ->]. exists n, b. split; [by left|]. split; [done|].
  apply member_at_found in Hm as (l1 & t & l2 & -> & -> & ->). exists l1, t, l2. split_ands; [done|lia..].
Qed.

(** ** The order of what is emitted *)

(** Each copy moves the place in the packet buffer before it or after it. *)
Lemma emit_places isWrite a c intr l : a_place a <> None ->
  0 <= from_option id 0 (a_place a) -> 0 <= c_off c ->
  emitMemIntrinsic intr isWrite true a c = Some l ->
  exists r p, a_place a = Some p
    /\ l = [NewCall "__ep2_intrin_incr_offs" [bool_Z isWrite; c_advance c; c_off c + p]
             [if isWrite then Opd0 else Opd1]; r].
Proof.
  intros Hp. destruct (a_place a) as [p|] eqn:Ep; [|done]. cbn. intros Hp0 Hc0.
  unfold emitMemIntrinsic. rewrite Ep. destruct (Z.eqb_spec (c_off c + p) (-1)); [lia|].
  cbn [negb andb]. intros H.
  repeat match type of H with context [if ?b then _ else _] => destruct b end; try done;
    simplify_eq H; intros <-; by eexists _, p.
Qed.

(** ** Behaviour at the edges *)

(** A last member larger than a copy: the dry run meets no member at 128 and forbids the
    fast copies, the slow run stops at 32, and 32 of the 256 bytes are copied. *)
Lemma large_member_truncated :
  decompose (getMemberPos [("big_t"%string, [IntOrFloat 2048])]
               (PointerType (OpaqueType "__xrw struct big_t"))) true true (MemcpyArgs 0 256 1 None)
  = Some [Chunk false 0 0 32 32].
Proof. by vm_compute. Qed.

(** The same member anywhere but last fails the assertion instead. *)
Lemma large_member_asserts :
  decompose (getMemberPos [("big_t"%string, [IntOrFloat 2048; IntOrFloat 8])]
               (PointerType (OpaqueType "__xrw struct big_t"))) true true (MemcpyArgs 0 257 1 None)
  = None.
Proof. by vm_compute. Qed.

(** From an offset other than 0 the advance counts the bytes before it as copied. *)
Lemma advance_from_offset :
  decompose (getMemberPos [("pair_t"%string, [IntOrFloat 32; IntOrFloat 32])]
               (PointerType (OpaqueType "__xrw struct pair_t"))) true true (MemcpyArgs 4 4 1 None)
  = Some [Chunk true 1 4 4 0].
Proof. by vm_compute. Qed.

(** Names of structs are compared as substrings: the first struct whose name contains
    the name asked for is used. *)
Lemma substring_struct :
  getMemberPos [("ext_hdr_t"%string, [IntOrFloat 8; IntOrFloat 8]); ("hdr_t"%string, [IntOrFloat 32])]
    (PointerType (OpaqueType "__xrw struct hdr_t")) 1 = Found 1.
Proof. by vm_compute. Qed.

(** A chain of struct accesses that starts at a block argument is a null pointer to
    [isa]. *)
Lemma access_of_argument_aborts structDefs a :
  matchAndRewrite structDefs "__ep2_intrin_memcpy"
    (Some (CallOp "__ep2_intrin_struct_access" [0] [None] (PointerType (OpaqueType "struct s"))))
    None a = Aborts.
Proof. done. Qed.

(** A copy into a local buffer from a packet, from end to end. *)
Lemma extract_example :
  matchAndRewrite demo_defs "__ep2_intrin_memcpy"
    (Some (VariableOp "&_loc_buf_0" (PointerType (OpaqueType "struct eth_t"))))
    (Some (OtherOp (OpaqueType "struct __buf_t"))) (MemcpyArgs 0 14 0 None)
  = Rewritten
      [NewVariable (PointerType (OpaqueType "__xrw struct eth_t")) "&_loc_buf_0_xfer";
       NewCall "__ep2_intrin_memcpybuf_mem_read32" [-1; 16; 0] [Xfer; Opd1];
       NewCall "__ep2_intrin_incr_offs" [0; 14; -1] [Opd1];
       NewCall "__ep2_intrin_xfer2gpr" [] [Xfer; LocBuf]].
Proof. by vm_compute. Qed.

End Memcpy.
