(* ===== verification/Gro.v ===== *)
(** lib/gro/libgro.c: the client of the global reorder block (GRO).  A packet's
    metadata goes into the slot of its sequence number in a queue; a ticket tells the
    hardware that the slot is filled, and what the hardware then releases is put on the
    ring of the block, in the order of the sequence numbers.  Constants and layouts are
    those of blocks/gro/gro.h, most significant bit-field first.  GroOrder has the
    theorems about contexts that send at once. *)
From Stdlib Require Import ZArith Lia List String.
From stdpp Require Import base list numbers option strings.
From S2P Require Import Prelude Me MemBulk MemAtomic.
#[local] Open Scope Z_scope.

Module Gro.

(** ** Constants (gro.h) *)

Definition GRO_DIRECT_ACCESS := 0x80.
Definition GRO_DTYPE_DROP_SEQ := 0.
Definition GRO_DTYPE_IFACE := 1.
Definition GRO_DTYPE_NFD := 2.
Definition GRO_DTYPE_WORKQ := 3.
Definition GRO_DTYPE_RING := 4.
Definition GRO_DTYPE_DROP_CTM_BUF := 5.
Definition GRO_DTYPE_DROP_MU_BUF := 6.
Definition GRO_META_TYPE_shf := 0.
Definition GRO_META_DEST_shf := 3.
Definition GRO_META_DROP_PNUM_shf := 0.
Definition GRO_META_DROP_CTMHI_shf := 24.
Definition GRO_META_DROP_RINGNUM_shf := 0.
Definition GRO_META_DROP_RINGHI_shf := 24.
Definition GRO_NUM_IFACE_DEST := 2.
Definition GRO_NUM_NFD_DEST := 4.
Definition GRO_NUM_WORKQ_DEST := 3.
Definition GRO_DEST_NFD_BASE := 0.
Definition GRO_DEST_IFACE_BASE := GRO_DEST_NFD_BASE + GRO_NUM_NFD_DEST.
Definition GRO_DEST_WORKQ_BASE := GRO_DEST_IFACE_BASE + GRO_NUM_IFACE_DEST.
Definition GRO_DEST_MEM_RING_BASE := GRO_DEST_WORKQ_BASE + GRO_NUM_WORKQ_DEST.
Definition GRO_DEST_WORKQ_1WORD := GRO_DEST_WORKQ_BASE + 0.
Definition GRO_DEST_MEM_RING_1WORD := GRO_DEST_MEM_RING_BASE + 0.
Definition GRO_NFD_MAX_OFFSET := 255.
Definition GRO_META_SIZE_LW := 4.
Definition GRO_META_SIZE := 16.
Definition GRO_TICKET_PER_TAPE := 64.
Definition GRO_SEQSKID_VALUE := 65.
Definition GRO_TICKET_msk := 0x3F.
Definition GRO_TICKET_TAPE_SEQ_shf := 6.
Definition GRO_TICKET_TAPE_SIZE := 16.
Definition GRO_TICKET_ERROR := 0xFF.
Definition GRO_TAPE_SEQ_msk := 0x7F.
Definition GRO_NUM_EPOCHS := 4.
Definition GRO_EPOCH_TICKET_SEQ_shf := 8.
Definition GRO_EPOCH_msk := 3.

(** ** The context of a client *)

Record gro_client_ctx := ClientCtx {
  ring_addr_hi : Z; ring_addr_lo : Z; bm_addr_hi : Z; bm_addr_lo : Z;
  q_addr_hi : Z; q_size : Z; q_addr_lo : Z }.

Definition client_ctx_of (ws : list Z) : gro_client_ctx :=
  let w (i : nat) := nth i ws 0 in
  ClientCtx (field 24 8 (w 0%nat)) (field 0 24 (w 0%nat)) (field 24 8 (w 1%nat)) (field 0 24 (w 1%nat))
    (field 24 8 (w 2%nat)) (field 0 24 (w 2%nat)) (w 3%nat).

(** The loop of [gro_cli_init] from context [i] on; it returns [gro_cli_lm_ctx]. *)
Fixpoint init_contexts (n : nat) (gro_ctxcfg i : Z) : prog (list gro_client_ctx) :=
  match n with
  | O => Ret []
  | S n' =>
      xctx ← MemBulk.mem_read64 (gro_ctxcfg + 16 * i) (ct 16);
      rest ← init_contexts n' gro_ctxcfg (i + 1);
      Ret (client_ctx_of xctx :: rest)
  end.

Definition gro_cli_init (GRO_TOTAL_CTX : nat) (gro_ctxcfg : Z) : prog (list gro_client_ctx) :=
  init_contexts GRO_TOTAL_CTX gro_ctxcfg 0.

(** ** Metadata: the four words of a slot *)

Definition gro_cli_build_drop_seq_meta : list Z :=
  [shl32 GRO_DTYPE_DROP_SEQ GRO_META_TYPE_shf; 0; 0; 0].

Definition gro_cli_build_drop_ctm_buf_meta (isl pkt_num : Z) : list Z :=
  [shl32 GRO_DTYPE_DROP_CTM_BUF GRO_META_TYPE_shf;
   shl32 (0x80 .| isl) GRO_META_DROP_CTMHI_shf .| shl32 pkt_num GRO_META_DROP_PNUM_shf; 0; 0].

Definition gro_cli_build_drop_mu_buf_meta (ring_hi ring_num mu_handle : Z) : list Z :=
  [shl32 GRO_DTYPE_DROP_MU_BUF GRO_META_TYPE_shf; 0;
   shl32 ring_hi GRO_META_DROP_RINGHI_shf .| shl32 ring_num GRO_META_DROP_RINGNUM_shf; mu_handle].

(** struct gro_meta_memq_w0 *)
Definition gro_meta_memq_w0 (q_hi qnum dest type : Z) : Z :=
  (wrap 8 q_hi ≪ 24) .| (wrap 10 qnum ≪ 7) .| (wrap 4 dest ≪ 3) .| wrap 3 type.

Definition gro_cli_build_memq_meta (type isl qnum nwords qd0 qd1 qd2 : Z) : list Z :=
  let dest := if type =? GRO_DTYPE_WORKQ then GRO_DEST_WORKQ_1WORD + nwords - 1
              else GRO_DEST_MEM_RING_1WORD + nwords - 1 in
  [gro_meta_memq_w0 (isl .| GRO_DIRECT_ACCESS) qnum dest type; u32 qd0; u32 qd1; u32 qd2].

Definition gro_cli_build_workq_meta1 (isl qnum qd0 : Z) : list Z :=
  gro_cli_build_memq_meta GRO_DTYPE_WORKQ isl qnum 1 qd0 0 0.
Definition gro_cli_build_workq_meta2 (isl qnum qd0 qd1 : Z) : list Z :=
  gro_cli_build_memq_meta GRO_DTYPE_WORKQ isl qnum 2 qd0 qd1 0.
Definition gro_cli_build_workq_meta3 (isl qnum qd0 qd1 qd2 : Z) : list Z :=
  gro_cli_build_memq_meta GRO_DTYPE_WORKQ isl qnum 3 qd0 qd1 qd2.
Definition gro_cli_build_mem_ring_meta1 (isl qnum qd0 : Z) : list Z :=
  gro_cli_build_memq_meta GRO_DTYPE_RING isl qnum 1 qd0 0 0.
Definition gro_cli_build_mem_ring_meta2 (isl qnum qd0 qd1 : Z) : list Z :=
  gro_cli_build_memq_meta GRO_DTYPE_RING isl qnum 2 qd0 qd1 0.
Definition gro_cli_build_mem_ring_meta3 (isl qnum qd0 qd1 qd2 : Z) : list Z :=
  gro_cli_build_memq_meta GRO_DTYPE_RING isl qnum 3 qd0 qd1 qd2.

Definition NBI_IREF_LO8 : Z := (1 ≪ 0) .| (1 ≪ 1) .| (1 ≪ 3) .| (1 ≪ 6) .| (1 ≪ 7).

Definition nbi_prev_alu (ms_off txq ctm_sz : Z) : Z :=
  NBI_IREF_LO8 .| shl32 (sub32 (ms_off / 8) 1) 8 .| shl32 txq 16 .| shl32 ctm_sz 28.

Definition gro_cli_build_nbi_meta (pkt_isl pkt_num : carg) (ctm_sz : Z) (ms_off : carg) (eoff : Z)
    (nbi txq : carg) : prog (list Z) :=
  _ ← try_ctassert (is_ct pkt_isl) (cval pkt_isl <? 64);
  _ ← try_ctassert (is_ct pkt_num) (cval pkt_num <? 512);
  _ ← try_ctassert (is_ct ms_off) ((cval ms_off mod 8 =? 0) && (cval ms_off <=? 56));
  _ ← try_ctassert (is_ct nbi) (cval nbi <? 2);
  _ ← try_ctassert (is_ct txq) (cval txq <? 1024);
  let w0 := shl32 GRO_DTYPE_IFACE GRO_META_TYPE_shf
            .| shl32 (add32 GRO_DEST_IFACE_BASE (cval nbi)) GRO_META_DEST_shf in
  me ← MeC.__ME;
  let dm := add32 (me .& 1) 2 in
  let addr_hi := shl32 (cval nbi) 30 .| shl32 (cval pkt_isl) 24 .| shl32 dm 20 in
  let addr_lo := eoff .| shl32 (cval pkt_num) 16 in
  Ret [w0; addr_hi; addr_lo; nbi_prev_alu (cval ms_off) (cval txq) ctm_sz].

(** struct gro_meta_nfd3_w0: [w0.__raw = raw; w0.type = ..; w0.pcie = ..; w0.off = ..] *)
Definition set_field (pos len v raw : Z) : Z :=
  (raw .& not32 (Z.ones len ≪ pos)) .| (wrap len v ≪ pos).

(** The even-offsets build leaves the low bit of the offset out. *)
Definition gro_cli_nfd_desc2meta (GRO_EVEN_NFD_OFFSETS_ONLY : bool) (idesc : list Z) (pcie qid : Z)
    : list Z :=
  let d (i : nat) := nth i idesc 0 in
  let off := d 0%nat .& GRO_NFD_MAX_OFFSET in
  let w0 := set_field 7 7 (off ≫ 1) (set_field 3 4 pcie (set_field 0 3 GRO_DTYPE_NFD (d 0%nat))) in
  let w2 := if GRO_EVEN_NFD_OFFSETS_ONLY then (d 2%nat .& 0xFF00FFFF) .| shl32 qid 16
            else (d 2%nat .& 0x7F00FFFF) .| shl32 qid 16 .| shl32 off 31 in
  [w0; d 1%nat; w2; d 3%nat].

(** With NFD_USE_MOCKUP: its struct gro_meta_nfd3_w0 and functions. *)
Definition mockup_w0 (vlan flags qid pcie type : Z) : Z :=
  (wrap 16 vlan ≪ 16) .| (wrap 3 flags ≪ 13) .| (wrap 6 qid ≪ 7) .| (wrap 4 pcie ≪ 3) .| wrap 3 type.

Definition gro_cli_build_nfd_meta (pcie qid flags pktnum ctm_isl mu_addr offset len meta_len vlan : Z)
    : list Z :=
  [mockup_w0 vlan flags qid pcie GRO_DTYPE_NFD;
   (mu_addr ≫ (40 - 11 - 8)) .| shl32 offset 8 .| shl32 pktnum 16 .| shl32 ctm_isl 26;
   shl32 mu_addr 11;
   len .| shl32 meta_len 16 .| shl32 64 24 .| shl32 1 31].

Definition mockup_desc2meta (idesc : list Z) (pcie : Z) : list Z :=
  let d (i : nat) := nth i idesc 0 in
  [mockup_w0 (d 3%nat ≫ 16) (d 3%nat .& 0x7) ((d 3%nat ≫ 8) .& 0x3F) pcie GRO_DTYPE_NFD;
   d 0%nat; d 1%nat; d 2%nat].

(** ** Counters and releases *)

(** [&gro_cli_cntrs[i]], an array of 64-bit counters. *)
Definition cntr_addr (gro_cli_cntrs i : Z) : Z := gro_cli_cntrs + 8 * i.

Definition gro_cli_cntr_enqueued_incr (gro_cli_cntrs ctx : Z) : prog unit :=
  MemAtomic.mem_add64_imm (ct 1) (cntr_addr gro_cli_cntrs (2 * ctx)).

Definition gro_cli_cntr_released_add (gro_cli_cntrs ctx : Z) (amt : carg) : prog unit :=
  MemAtomic.mem_add64_imm amt (cntr_addr gro_cli_cntrs (2 * ctx + 1)).

(** struct gro_release *)
Definition gro_release (valid nrel ctx : Z) : Z :=
  (wrap 1 valid ≪ 31) .| (wrap 7 nrel ≪ 16) .| wrap 3 ctx.
Definition rel_valid (raw : Z) : bool := field 31 1 raw =? 1.
Definition rel_nrel (raw : Z) : Z := field 16 7 raw.

(** [mem[put, xrel, addr_hi, <<8, addr_lo, 1], sig_done[putsig]; ctx_arb[putsig]] and the
    other commands of the file: one word to or from an address. *)
Definition gro_cmd (op : string) (data : list Z) (hi lo refs : Z) (sync : sync_t) : event :=
  ECmd (Cmd T_mem op data hi true lo (Some refs) (Some sync) None).

Fixpoint put_loop (fuel : nat) (rel hi lo : Z) : prog unit :=
  match fuel with
  | O => Stop Fuel
  | S fuel' =>
      r ← trigger (gro_cmd "put" [rel] hi lo 1 sig_done);
      if rel_valid (word0 r) then Ret tt else put_loop fuel' rel hi lo
  end.

Record gro_config := GroConfig { g_cntrs : Z; g_ctx_per_block : Z; g_sleep_sig : Z }.

Definition _gro_cli_release (fuel : nat) (g : gro_config) (clictx : gro_client_ctx) (ctx nrel : Z)
    : prog unit :=
  let rel := gro_release 1 nrel (ctx mod g_ctx_per_block g) in
  _ ← put_loop fuel rel (shl32 (ring_addr_hi clictx) 24) (ring_addr_lo clictx);
  gro_cli_cntr_released_add (g_cntrs g) ctx (rt nrel).

(** The endless loop after a breakpoint stops the context. *)
Definition abort_with (m0 m1 m2 m3 : Z) : prog unit :=
  _ ← local_csr_write local_csr_mailbox_0 m0;
  _ ← local_csr_write local_csr_mailbox_1 m1;
  _ ← local_csr_write local_csr_mailbox_2 m2;
  _ ← local_csr_write local_csr_mailbox_3 m3;
  Vis (EArb A_bpt) (fun _ => Stop Halted).

Definition gro_cli_abort_ticket (ctx tape seq : Z) : prog unit := abort_with 0x71CE7E44 ctx tape seq.
Definition gro_cli_abort_tape (ctx tape nrel : Z) : prog unit := abort_with 0x77BE4404 ctx tape nrel.

(** ** Tickets *)

Definition prev_epoch (epoch : Z) : Z := if epoch =? 0 then GRO_NUM_EPOCHS - 1 else epoch - 1.
Definition skid_marker (epoch : Z) : Z :=
  GRO_SEQSKID_VALUE .| (prev_epoch epoch ≪ GRO_EPOCH_TICKET_SEQ_shf).

Definition ticket_error_is_fatal (hi lo ticket_seq epoch : Z) : prog bool :=
  r ← trigger (gro_cmd "read_atomic" [] hi lo 3 ctx_swap);
  let tape (i : nat) := nth i (r_words r) 0 in
  if tape 0%nat =? skid_marker epoch then Ret false
  else
    let tape_epoch := (tape 0%nat ≫ GRO_EPOCH_TICKET_SEQ_shf) .& GRO_EPOCH_msk in
    if negb (tape_epoch =? epoch) then Ret true
    else
      let tape_seq := tape 0%nat .& GRO_TAPE_SEQ_msk in
      if tape_seq =? ticket_seq then Ret false
      else if tape_seq >? ticket_seq then Ret true
      else
        let rel_seq := ticket_seq - tape_seq - 1 in
        if rel_seq <? 32 then Ret (negb (tape 1%nat .& (1 ≪ rel_seq) =? 0))
        else Ret (negb (tape 2%nat .& (1 ≪ (rel_seq - 32)) =? 0)).

Definition cascaded_ticket_error_is_fatal (hi lo epoch : Z) : prog bool :=
  r ← trigger (gro_cmd "read_atomic" [] hi lo 1 ctx_swap);
  let tape_seq := word0 r in
  if tape_seq =? skid_marker epoch then Ret false
  else if tape_seq =? epoch ≪ GRO_EPOCH_TICKET_SEQ_shf then Ret false
  else Ret true.

Definition release_ticket (ticket hi lo : Z) : prog Z :=
  r ← trigger (gro_cmd "release_ticket" [ticket] hi lo 1 sig_done);
  Ret (word0 r).

(** Release a ticket until the hardware accepts it; [fatal] is the test that tells a tape
    that is not ready from an error, and [abort] what to do about an error. *)
Fixpoint ticket_loop (fuel : nat) (sleep_sig ticket hi lo : Z) (fatal : prog bool) (abort : prog unit)
    : prog Z :=
  match fuel with
  | O => Stop Fuel
  | S fuel' =>
      r ← release_ticket ticket hi lo;
      if r =? GRO_TICKET_ERROR then
        f ← fatal;
        _ ← (if (f : bool) then abort else Ret tt);
        _ ← MeC.sleep 2560 sleep_sig;
        ticket_loop fuel' sleep_sig ticket hi lo fatal abort
      else Ret r
  end.

(** The do-while over the tapes that follow one that is complete. *)
Fixpoint cascade_loop (fuel : nat) (g : gro_config) (clictx : gro_client_ctx)
    (ctx seq ntapes hi tape epoch : Z) : prog unit :=
  match fuel with
  | O => Stop Fuel
  | S fuel' =>
      let '(tape, epoch) :=
        if tape + 1 >=? ntapes then (0, (epoch + 1) mod GRO_NUM_EPOCHS) else (tape + 1, epoch) in
      let ticket := epoch ≪ GRO_EPOCH_TICKET_SEQ_shf in
      let lo := bm_addr_lo clictx .| (tape * GRO_TICKET_TAPE_SIZE) in
      r ← ticket_loop fuel' (g_sleep_sig g) ticket hi lo (cascaded_ticket_error_is_fatal hi lo epoch)
            (gro_cli_abort_ticket ctx tape (seq .| (1 ≪ 31)));
      _ ← (if r <? 1 then gro_cli_abort_tape ctx tape r else Ret tt);
      let nrel := s32 (sub32 r 1) in
      _ ← (if nrel >? 0 then _gro_cli_release fuel' g clictx ctx nrel else Ret tt);
      if nrel >=? GRO_TICKET_PER_TAPE then cascade_loop fuel' g clictx ctx seq ntapes hi tape epoch
      else Ret tt
  end.

(** The local memory context [gro_cli_lm_ctx[ctx]] is given. *)
Definition gro_cli_send (fuel : nat) (g : gro_config) (clictx : gro_client_ctx) (meta : list Z)
    (ctx seq : Z) : prog unit :=
  let epoch := (seq ≫ q_size clictx) mod GRO_NUM_EPOCHS in
  let ticket_seq := (seq .& GRO_TICKET_msk) + 1 in
  let ticket := ticket_seq .| (epoch ≪ GRO_EPOCH_TICKET_SEQ_shf) in
  let adj_seq := seq .& sub32 (shl32 1 (q_size clictx)) 1 in
  _ ← trigger (gro_cmd "write32" meta (shl32 (q_addr_hi clictx) 24)
                 (q_addr_lo clictx .| u32 (adj_seq * GRO_META_SIZE)) GRO_META_SIZE_LW ctx_swap);
  let tape := adj_seq / GRO_TICKET_PER_TAPE in
  let hi := shl32 (bm_addr_hi clictx) 24 in
  let lo := bm_addr_lo clictx .| (tape * GRO_TICKET_TAPE_SIZE) in
  r ← ticket_loop fuel (g_sleep_sig g) ticket hi lo (ticket_error_is_fatal hi lo ticket_seq epoch)
        (gro_cli_abort_ticket ctx tape seq);
  _ ← gro_cli_cntr_enqueued_incr (g_cntrs g) ctx;
  if negb (r =? 0) then
    _ ← _gro_cli_release fuel g clictx ctx r;
    if r + ticket_seq >? GRO_TICKET_PER_TAPE then
      let ntapes := shl32 1 (q_size clictx - GRO_TICKET_TAPE_SEQ_shf) in
      cascade_loop fuel g clictx ctx seq ntapes hi tape epoch
    else Ret tt
  else Ret tt.

(** ** Releases and metadata read back *)

Lemma release_read nrel ctx : in_word 7 nrel ->
  rel_valid (gro_release 1 nrel ctx) = true /\ rel_nrel (gro_release 1 nrel ctx) = nrel.
Proof.
  intros Hn. unfold rel_valid, rel_nrel, gro_release. rewrite (wrap_id 7 nrel), (wrap_id 1 1) by done.
  pose proof (wrap_range 3 ctx ltac:(lia)) as Hc. unfold in_word in *.
  rewrite <- Z.lor_assoc.
  assert (E : (nrel ≪ 16) .| wrap 3 ctx = nrel * 2 ^ 16 + wrap 3 ctx).
  { apply lor_shift_add; [lia|]. unfold in_word. lia. }
  rewrite E, lor_shift_add by (unfold in_word; lia).
  rewrite !field_eq by lia. split; [apply Z.eqb_eq|]; Z.div_mod_to_equations; lia.
Qed.

(** Assigning a bit-field replaces it and keeps the others. *)
Lemma set_field_testbit pos len v raw i : 0 <= pos -> 0 <= len -> pos + len <= 32 -> in_word 32 raw ->
  0 <= i ->
  Z.testbit (set_field pos len v raw) i =
    (if (pos <=? i) && (i <? pos + len) then Z.testbit v (i - pos) else Z.testbit raw i).
Proof.
  intros Hp Hl Hs Hr Hi. unfold set_field.
  assert (Hm : in_word 32 (Z.ones len ≪ pos)).
  { rewrite Z.shiftl_mul_pow2, Z.ones_equiv by lia. unfold in_word.
    assert (0 < 2 ^ len) by (apply Z.pow_pos_nonneg; lia).
    assert (2 ^ (pos + len) <= 2 ^ 32) by (apply Z.pow_le_mono_r; lia).
    rewrite Z.pow_add_r in * by lia. assert (0 < 2 ^ pos) by (apply Z.pow_pos_nonneg; lia). nia. }
  rewrite Z.lor_spec, Z.land_spec, not32_testbit, !testbit_shiftl by (done || lia).
  destruct (Z.leb_spec pos i); cbn [andb negb orb].
  - rewrite testbit_ones, testbit_wrap by lia.
    destruct (Z.ltb_spec (i - pos) len), (Z.ltb_spec i (pos + len)); try lia; cbn [andb negb orb].
    + by rewrite !andb_false_r.
    + destruct (Z.ltb_spec i 32); cbn; [by rewrite andb_true_r, orb_false_r|].
      by rewrite (testbit_high 32 raw) by (done || lia).
  - destruct (Z.ltb_spec i 32); cbn; [by rewrite andb_true_r, orb_false_r|]. lia.
Qed.

Lemma field_bits pos len x i : 0 <= pos -> 0 <= len -> 0 <= i ->
  Z.testbit (field pos len x) i = (i <? len) && Z.testbit x (i + pos).
Proof. intros. unfold field. by rewrite testbit_wrap, testbit_shiftr by lia. Qed.

Lemma set_field_range pos len v raw : 0 <= pos -> 0 <= len -> pos + len <= 32 -> in_word 32 raw ->
  in_word 32 (set_field pos len v raw).
Proof.
  intros. rewrite <- (wrap_id 32 raw) by done.
  replace (set_field pos len v (wrap 32 raw)) with (wrap 32 (set_field pos len v raw)).
  { apply wrap_range. lia. }
  rewrite (wrap_id 32 raw) by done. bitwise_as i. rewrite set_field_testbit by done.
  destruct (Z.ltb_spec i 32); [done|].
  destruct (Z.leb_spec pos i), (Z.ltb_spec i (pos + len)); try lia; cbn [andb];
    by rewrite (testbit_high 32 raw) by (done || lia).
Qed.

Lemma set_field_same pos len v raw : 0 <= pos -> 0 <= len -> pos + len <= 32 -> in_word 32 raw ->
  field pos len (set_field pos len v raw) = wrap len v.
Proof.
  intros. bitwise_as i. rewrite field_bits, set_field_testbit by (done || lia).
  destruct (Z.ltb_spec i len); cbn [andb]; [|done].
  destruct (Z.leb_spec pos (i + pos)), (Z.ltb_spec (i + pos) (pos + len)); try lia. cbn. f_equal. lia.
Qed.

Lemma set_field_other pos len v raw pos' len' : 0 <= pos -> 0 <= len -> pos + len <= 32 -> in_word 32 raw ->
  0 <= pos' -> 0 <= len' -> pos' + len' <= pos \/ pos + len <= pos' ->
  field pos' len' (set_field pos len v raw) = field pos' len' raw.
Proof.
  intros. bitwise_as i. rewrite !field_bits, set_field_testbit by (done || lia).
  destruct (Z.ltb_spec i len'); cbn [andb]; [|done].
  by destruct (Z.leb_spec pos (i + pos')), (Z.ltb_spec (i + pos') (pos + len)); try lia.
Qed.

#[local] Hint Resolve set_field_range : core.

(** The third word of a descriptor. *)
Definition nfd_w2 (even : bool) (d0 d2 qid : Z) : Z :=
  if even then (d2 .& 0xFF00FFFF) .| shl32 qid 16
  else (d2 .& 0x7F00FFFF) .| shl32 qid 16 .| shl32 (d0 .& GRO_NFD_MAX_OFFSET) 31.

Lemma mask_testbit a b i : 0 <= a <= b -> 0 <= i ->
  Z.testbit (Z.ones a ≪ (b - a)) i = (b - a <=? i) && (i <? b).
Proof.
  intros. rewrite testbit_shiftl by lia. destruct (Z.leb_spec (b - a) i); [|done].
  rewrite testbit_ones by lia. destruct (Z.ltb_spec (i - (b - a)) a), (Z.ltb_spec i b); lia.
Qed.

(** Case analysis on the comparisons of a goal. *)
Ltac cases :=
  repeat match goal with
  | |- context [?a <=? ?b] => destruct (Z.leb_spec a b); try lia
  | |- context [?a <? ?b] => destruct (Z.ltb_spec a b); try lia
  end; cbn [andb orb].

Lemma nfd_w2_testbit even d0 d2 qid i : in_word 32 d2 -> in_word 8 qid -> 0 <= i < 32 ->
  Z.testbit (nfd_w2 even d0 d2 qid) i =
    if i <? 16 then Z.testbit d2 i else if i <? 24 then Z.testbit qid (i - 16)
    else if i <? 31 then Z.testbit d2 i else Z.testbit (if even then d2 else d0) (if even then 31 else 0).
Proof.
  intros Hd Hq Hi. unfold nfd_w2, shl32, GRO_NFD_MAX_OFFSET.
  change 0xFF00FFFF with (Z.ones 16 .| (Z.ones 8 ≪ (32 - 8))).
  change 0x7F00FFFF with (Z.ones 16 .| (Z.ones 7 ≪ (31 - 7))). change 255 with (Z.ones 8).
  assert (Hbig : i < 16 \/ 16 <= i < 24 \/ 24 <= i < 31 \/ i = 31) by lia.
  destruct even; rewrite ?Z.lor_spec, ?Z.land_spec, ?Z.lor_spec, mask_testbit, ?testbit_wrap by lia;
    rewrite ?testbit_shiftl by lia; rewrite ?Z.land_spec, (testbit_ones 16) by lia;
  destruct Hbig as [Hb|[Hb|[Hb|Hb]]]; try subst i;
  cases; rewrite ?andb_false_r, ?andb_true_r, ?orb_false_r, ?(testbit_high 8 qid) by (done || lia);
  cbn [andb orb]; rewrite ?orb_false_r; try done.
Qed.

Ltac w2_bits i :=
  bitwise_as i; rewrite ?field_bits by lia; cases; rewrite ?nfd_w2_testbit by (done || lia); cases.

(** A descriptor keeps its offset, its upper bits, its second and its last word;
    the low bit of the offset moves to the third word, unless only even offsets are sent. *)
Lemma nfd_desc2meta_fields even d0 d1 d2 d3 pcie qid : in_word 32 d0 -> in_word 32 d2 -> in_word 8 qid ->
  exists w0 w2, gro_cli_nfd_desc2meta even [d0; d1; d2; d3] pcie qid = [w0; d1; w2; d3] /\
    field 0 3 w0 = GRO_DTYPE_NFD /\ field 3 4 w0 = wrap 4 pcie /\ field 14 18 w0 = field 14 18 d0 /\
    field 7 7 w0 = field 1 7 d0 /\ field 16 8 w2 = qid /\ field 0 16 w2 = field 0 16 d2 /\
    field 24 7 w2 = field 24 7 d2 /\ field 31 1 w2 = if even then field 31 1 d2 else field 0 1 d0.
Proof.
  intros H0 H2 Hq. eexists _, (nfd_w2 even d0 d2 qid). unfold gro_cli_nfd_desc2meta. cbn [nth]. split; [reflexivity|].
  assert (Hr1 : in_word 32 (set_field 0 3 GRO_DTYPE_NFD d0)) by (apply set_field_range; (done || lia)).
  assert (Hr2 : in_word 32 (set_field 3 4 pcie (set_field 0 3 GRO_DTYPE_NFD d0)))
    by (apply set_field_range; (done || lia)).
  split_ands.
  - rewrite !set_field_other, set_field_same by (done || lia). done.
  - rewrite set_field_other, set_field_same by (done || lia). done.
  - rewrite !set_field_other by (done || lia). done.
  - rewrite set_field_same by (done || lia). unfold GRO_NFD_MAX_OFFSET. change 255 with (Z.ones 8).
    unfold field. bitwise_as i. destruct (Z.ltb_spec i 7); cbn [andb]; [|done].
    destruct (Z.ltb_spec (i + 1) 8); [|lia]. by rewrite andb_true_r.
  - w2_bits i; [f_equal; lia|]. by rewrite (testbit_high 8 qid) by (done || lia).
  - by w2_bits i.
  - by w2_bits i.
  - destruct even; w2_bits i; try done; f_equal; lia.
Qed.

(** The word that overrides the command: the script offset in units of eight bytes,
    less one, the transmit queue and the size of the buffer. *)
Lemma nbi_prev_alu_fields ms_off txq ctm_sz : 8 <= ms_off <= 56 -> (ms_off mod 8 = 0) ->
  in_word 10 txq -> in_word 2 ctm_sz ->
  let w := nbi_prev_alu ms_off txq ctm_sz in
  field 8 3 w = ms_off / 8 - 1 /\ field 16 10 w = txq /\ field 28 2 w = ctm_sz.
Proof.
  intros Hm Hm8 Ht Hc. unfold nbi_prev_alu, shl32, sub32. unfold in_word in *.
  assert (Hd : 0 <= ms_off / 8 - 1 <= 6) by (Z.div_mod_to_equations; lia).
  rewrite (wrap_id 32 (ms_off / 8 - 1)) by (unfold in_word; lia). set (d := ms_off / 8 - 1) in *.
  rewrite !wrap_id by (rewrite Z.shiftl_mul_pow2 by lia; unfold in_word; lia).
  assert (E : NBI_IREF_LO8 .| (d ≪ 8) .| (txq ≪ 16) .| (ctm_sz ≪ 28)
              = ctm_sz * 2 ^ 28 + (txq * 2 ^ 16 + (d * 2 ^ 8 + 203))).
  { change NBI_IREF_LO8 with 203. rewrite (Z.lor_comm 203), (lor_shift_add d) by (unfold in_word; lia).
    rewrite (Z.lor_comm _ (txq ≪ 16)), lor_shift_add by (unfold in_word; lia).
    rewrite (Z.lor_comm _ (ctm_sz ≪ 28)), lor_shift_add by (unfold in_word; lia). done. }
  rewrite E, !field_eq by lia. clear E. split_ands; Z.div_mod_to_equations; lia.
Qed.

(** With no script before the packet the borrow overwrites both. *)
Lemma nbi_prev_alu_no_script txq ctm_sz : nbi_prev_alu 0 txq ctm_sz = 0xFFFFFFCB.
Proof.
  unfold nbi_prev_alu, shl32. change (sub32 (0 / 8) 1) with (Z.ones 32).
  change 0xFFFFFFCB with (203 .| (Z.ones 24 ≪ (32 - 24))). change NBI_IREF_LO8 with 203.
  bitwise_as i. rewrite ?testbit_wrap, ?mask_testbit, ?testbit_shiftl by lia.
  assert (Hlow : 8 <= i -> Z.testbit 203 i = false) by (intros; apply (testbit_high 8); [by unfold in_word|lia]).
  assert (Hb : i < 8 \/ 8 <= i < 32 \/ 32 <= i) by lia.
  destruct Hb as [Hb|[Hb|Hb]]; [|rewrite Hlow by lia|rewrite Hlow by lia]; cases;
    rewrite ?testbit_ones by lia; cases; rewrite ?orb_false_r; done.
Qed.

End Gro.
