(* ===== verification/GroOrder.v ===== *)
(** The order the global reorder library keeps: contexts that send the packets of a
    queue at once, over the queue and the ticket tapes of the memory unit.

    A tape of 64 tickets opens when the one before it is complete; the context that
    completes a tape opens the next (the do-while of [gro_cli_send]). *)
From Stdlib Require Import ZArith Lia List String.
From stdpp Require Import base list numbers option strings gmap relations.
From S2P Require Import Prelude Me MemBulk MemAtomic Conc Gro.
Import Gro.
#[local] Open Scope Z_scope.

Module GroOrder.

(** ** The memory behind a block *)

(** A ticket tape: the next ticket it expects and those that came before their turn. *)
Record tape := Tape { t_seq : Z; t_pend : gset Z }.
(** The tapes, the metadata in the slots of the queue, and the number of slots
    released on the ring. *)
Record view := View { v_tapes : Z -> tape; v_slots : gmap Z (list Z); v_rel : Z }.

Inductive gro_op := Slot (q : Z) (m : list Z) | Ticket (t k : Z) | Put (n : Z) | Quiet | Foreign.

(** A command at [base + 16 * i], for [i] below [n]. *)
Definition unit_at (c : cmd) (hi base n : Z) : option Z :=
  let d := c_lo c - base in
  if (c_hi c =? hi) && (0 <=? d) && (d <? 16 * n) && (d mod 16 =? 0) then Some (d / 16) else None.

Section Order.
Context (cc : gro_client_ctx) (g : gro_config) (GRO_TOTAL_CTX : Z).

Definition nslots : Z := 2 ^ q_size cc.
Definition ntapes : Z := 2 ^ (q_size cc - 6).

Definition gro_kind (e : event) : gro_op :=
  match e with
  | ECmd c =>
      if negb (bool_decide (c_tgt c = T_mem)) then Foreign
      else if bool_decide (c_op c = "write32"%string) then
        match unit_at c (shl32 (q_addr_hi cc) 24) (q_addr_lo cc) nslots with
        | Some q => if bool_decide (length (c_data c) = 4%nat) then Slot q (c_data c) else Foreign
        | None => Foreign
        end
      else if bool_decide (c_op c = "release_ticket"%string) then
        match unit_at c (shl32 (bm_addr_hi cc) 24) (bm_addr_lo cc) ntapes, c_data c with
        | Some t, [k] => Ticket t k
        | _, _ => Foreign
        end
      else if bool_decide (c_op c = "put"%string) then
        if (c_hi c =? shl32 (ring_addr_hi cc) 24) && (c_lo c =? ring_addr_lo cc) then
          match c_data c with [rel] => Put (rel_nrel rel) | _ => Foreign end
        else Foreign
      else if bool_decide (c_op c = "add64_imm"%string) && (g_cntrs g <=? cmd_addr c)
              && (cmd_addr c <? g_cntrs g + 16 * GRO_TOTAL_CTX) then Quiet
      else Foreign
  | _ => Quiet
  end.

(** A ticket in turn is released with those that wait behind it; one that is early
    waits; any other is an error. *)
Inductive ticket_spec (tp : tape) (k : Z) : Z -> tape -> Prop :=
  | ticket_turn n P' : k = t_seq tp -> 1 <= n ->
      (forall j, k < j < k + n -> j ∈ t_pend tp) -> k + n ∉ t_pend tp ->
      (forall j, j ∈ P' <-> j ∈ t_pend tp /\ k + n < j) ->
      ticket_spec tp k n (Tape (k + n) P')
  | ticket_early : t_seq tp < k <= t_seq tp + 64 -> k ∉ t_pend tp ->
      ticket_spec tp k 0 (Tape (t_seq tp) ({[k]} ∪ t_pend tp))
  | ticket_error : k < t_seq tp \/ t_seq tp + 64 < k \/ k ∈ t_pend tp ->
      ticket_spec tp k GRO_TICKET_ERROR tp.

(** What the library relies on.  [lossy] says whether the ring can be full: its reply
    then has no valid bit, and nothing is put. *)
Class GroHw {St : Type} (h : St -> event -> reply * St) (lossy : bool) (vw : St -> view) : Prop := {
  hw_slot : forall s e q m, gro_kind e = Slot q m ->
    v_slots (vw (snd (h s e))) = <[q := m]> (v_slots (vw s)) /\
    (forall t, v_tapes (vw (snd (h s e))) t = v_tapes (vw s) t) /\ v_rel (vw (snd (h s e))) = v_rel (vw s);
  hw_ticket : forall s e t k, gro_kind e = Ticket t k ->
    (exists n, r_words (fst (h s e)) = [n] /\
       ticket_spec (v_tapes (vw s) t) k n (v_tapes (vw (snd (h s e))) t)) /\
    (forall t', t' <> t -> v_tapes (vw (snd (h s e))) t' = v_tapes (vw s) t') /\
    v_slots (vw (snd (h s e))) = v_slots (vw s) /\ v_rel (vw (snd (h s e))) = v_rel (vw s);
  hw_put : forall s e n, gro_kind e = Put n ->
    (rel_valid (word0 (fst (h s e))) = false -> lossy = true) /\
    v_rel (vw (snd (h s e))) = v_rel (vw s) + (if rel_valid (word0 (fst (h s e))) then n else 0) /\
    v_slots (vw (snd (h s e))) = v_slots (vw s) /\
    (forall t, v_tapes (vw (snd (h s e))) t = v_tapes (vw s) t);
  hw_quiet : forall s e, gro_kind e = Quiet ->
    v_rel (vw (snd (h s e))) = v_rel (vw s) /\ v_slots (vw (snd (h s e))) = v_slots (vw s) /\
    (forall t, v_tapes (vw (snd (h s e))) t = v_tapes (vw s) t) }.

(** ** A context and what it owes *)

(** The packets a context still has to send (the ticket of the first is not out),
    whether the metadata of the first is written, the slots it has to put on the ring,
    and the tape it has to open. *)
Record role := Role {
  r_todo : list (Z * list Z); r_wrote : bool; r_pend : Z; r_duty : option Z }.

Context (lossy : bool).

Definition idle (l : list (Z * list Z)) : role := Role l false 0 None.

Fixpoint plays {A} (p : prog A) (Q : A -> role -> Prop) (r : role) : Prop :=
  match p with
  | Ret a => Q a r
  | Stop f => f = Fuel /\ lossy = true
  | Vis e k =>
      match gro_kind e with
      | Slot q m => exists rest, r_todo r = (q, m) :: rest /\
          forall x, plays (k x) Q (Role (r_todo r) true (r_pend r) (r_duty r))
      | Ticket t i =>
          r_pend r = 0 /\
          match r_duty r with
          | Some t' => t = t' /\ i = 0 /\
              forall n x, r_words x = [n] -> 1 <= n <= 65 -> (n = 65 -> t + 1 < ntapes) ->
                plays (k x) Q (Role (r_todo r) (r_wrote r) (n - 1) (if n =? 65 then Some (t + 1) else None))
          | None => exists q m rest, r_todo r = (q, m) :: rest /\ r_wrote r = true /\
              t = q / 64 /\ i = q mod 64 + 1 /\
              forall n x, r_words x = [n] -> 0 <= n -> n + i <= 65 -> (n + i = 65 -> t + 1 < ntapes) ->
                plays (k x) Q (Role rest false n (if n + i =? 65 then Some (t + 1) else None))
          end
      | Put n => n = r_pend r /\ forall x,
          (rel_valid (word0 x) = false -> lossy = true) ->
          plays (k x) Q
            (Role (r_todo r) (r_wrote r) (if rel_valid (word0 x) then 0 else r_pend r) (r_duty r))
      | Quiet => forall x, plays (k x) Q r
      | Foreign => False
      end
  end.

Lemma gro_plays_bind {A B} (p : prog A) (f : A -> prog B) Q Q' r :
  plays p Q r -> (forall a r', Q a r' -> plays (f a) Q' r') -> plays (bind p f) Q' r.
Proof.
  intros Hp Hf. revert r Hp. induction p as [a|x|e k IH]; cbn; intros r; [by apply Hf|done|].
  destruct (gro_kind e) as [q m|t i|n| |]; [| | | |done].
  - intros (rest & ? & Hk). eauto.
  - intros [? Hk]. split; [done|]. destruct (r_duty r); [intuition eauto|].
    destruct Hk as (q & m & rest & ? & ? & ? & ? & Hk). eauto 10.
  - intros [? Hk]. eauto.
  - eauto.
Qed.

(** ** The events of the library *)

(** The queue and the tapes are aligned to their sizes, and the queue has one tape at
    least; the counters are in the 40-bit address space. *)
Definition layout_ok : Prop :=
  6 <= q_size cc <= 24 /\ in_word 32 (q_addr_lo cc) /\ q_addr_lo cc mod 2 ^ (q_size cc + 4) = 0 /\
  in_word 32 (bm_addr_lo cc) /\ bm_addr_lo cc mod 2 ^ (q_size cc - 2) = 0 /\
  0 <= g_cntrs g /\ g_cntrs g + 16 * GRO_TOTAL_CTX <= 2 ^ 40.

Context (Hok : layout_ok).

Lemma lor_aligned base n x : 0 <= n -> base mod 2 ^ n = 0 -> 0 <= x < 2 ^ n -> base .| x = base + x.
Proof.
  intros Hn Hb Hx. assert (Hp : 2 ^ n <> 0) by (apply Z.pow_nonzero; lia).
  assert (E : base = base / 2 ^ n * 2 ^ n) by (pose proof (Z.div_mod base (2 ^ n) Hp); lia).
  rewrite E at 1. rewrite <- Z.shiftl_mul_pow2, lor_shift_add by (done || lia). by rewrite <- E.
Qed.

Lemma unit_at_ok op data hi base i n refs sync : 0 <= i < n ->
  unit_at (Cmd T_mem op data hi true (base + i * 16) (Some refs) (Some sync) None) hi base n = Some i.
Proof.
  intros Hi. unfold unit_at. cbn [c_lo c_hi]. replace (base + i * 16 - base) with (i * 16) by lia.
  rewrite Z.eqb_refl, Z.mod_mul, Z.div_mul by lia.
  destruct (Z.leb_spec 0 (i * 16)), (Z.ltb_spec (i * 16) (16 * n)); lia || done.
Qed.

Lemma nslots_ntapes : nslots = 64 * ntapes.
Proof.
  unfold nslots, ntapes. destruct Hok as (? & _). change 64 with (2 ^ 6).
  rewrite <- Z.pow_add_r by lia. f_equal. lia.
Qed.

Lemma slot_addr q : 0 <= q < nslots -> q_addr_lo cc .| u32 (q * GRO_META_SIZE) = q_addr_lo cc + q * 16.
Proof.
  intros Hq. destruct Hok as (Hs & _ & Ha & _). unfold nslots, GRO_META_SIZE in *.
  assert (E : 2 ^ (q_size cc + 4) = 2 ^ q_size cc * 16) by (rewrite Z.pow_add_r by lia; lia).
  assert (2 ^ (q_size cc + 4) <= 2 ^ 28) by (apply Z.pow_le_mono_r; lia).
  rewrite wrap_id by (unfold in_word; lia). apply (lor_aligned _ (q_size cc + 4)); lia.
Qed.

Lemma tape_addr t : 0 <= t < ntapes -> bm_addr_lo cc .| (t * GRO_TICKET_TAPE_SIZE) = bm_addr_lo cc + t * 16.
Proof.
  intros Ht. destruct Hok as (Hs & _ & _ & _ & Ha & _). unfold ntapes, GRO_TICKET_TAPE_SIZE in *.
  assert (E : 2 ^ (q_size cc - 2) = 2 ^ (q_size cc - 6) * 16)
    by (change 16 with (2 ^ 4); rewrite <- Z.pow_add_r by lia; f_equal; lia).
  apply (lor_aligned _ (q_size cc - 2)); lia.
Qed.

Lemma kind_slot q m : 0 <= q < nslots -> length m = 4%nat ->
  gro_kind (gro_cmd "write32" m (shl32 (q_addr_hi cc) 24) (q_addr_lo cc .| u32 (q * GRO_META_SIZE))
              GRO_META_SIZE_LW ctx_swap) = Slot q m.
Proof.
  intros Hq Hm. rewrite slot_addr by done. unfold gro_kind, gro_cmd. cbn -[unit_at nslots].
  rewrite unit_at_ok by done. by rewrite Hm.
Qed.

Lemma kind_ticket t k : 0 <= t < ntapes ->
  gro_kind (gro_cmd "release_ticket" [k] (shl32 (bm_addr_hi cc) 24)
              (bm_addr_lo cc .| (t * GRO_TICKET_TAPE_SIZE)) 1 sig_done) = Ticket t k.
Proof.
  intros Ht. rewrite tape_addr by done. unfold gro_kind, gro_cmd. cbn -[unit_at ntapes].
  by rewrite unit_at_ok by done.
Qed.

Lemma kind_put n ctx : in_word 7 n ->
  gro_kind (gro_cmd "put" [gro_release 1 n ctx] (shl32 (ring_addr_hi cc) 24) (ring_addr_lo cc) 1 sig_done)
  = Put n.
Proof.
  intros Hn. unfold gro_kind, gro_cmd. cbn -[rel_nrel gro_release shl32].
  rewrite !Z.eqb_refl. cbn -[rel_nrel gro_release]. by destruct (release_read n ctx Hn) as [_ ->].
Qed.

Lemma kind_counter i : 0 <= i < 2 * GRO_TOTAL_CTX -> forall ref prev,
  gro_kind (ECmd (Cmd T_mem "add64_imm" [] (addr_hi (cntr_addr (g_cntrs g) i)) true
                    (addr_lo (cntr_addr (g_cntrs g) i)) ref None prev)) = Quiet.
Proof.
  intros Hi ref prev. destruct Hok as (_ & _ & _ & _ & _ & Hc & Hc').
  unfold gro_kind. cbn -[cmd_addr]. unfold cmd_addr. cbn -[addr_hi addr_lo].
  unfold cntr_addr. rewrite addr_split by (unfold in_word; lia).
  destruct (Z.leb_spec (g_cntrs g) (g_cntrs g + 8 * i)),
    (Z.ltb_spec (g_cntrs g + 8 * i) (g_cntrs g + 16 * GRO_TOTAL_CTX)); lia || done.
Qed.

(** ** What the functions play *)

(** The loop bound that is enough when the ring always accepts. *)
Definition enough (n : Z) (fuel : nat) : Prop := lossy = false -> n <= Z.of_nat fuel.

Lemma enough_0 n : 0 < n -> enough n 0 -> lossy = true.
Proof. unfold enough. destruct lossy; [done|]. intros ? H. specialize (H eq_refl). lia. Qed.

Lemma enough_S n m fuel : m <= n - 1 -> enough n (S fuel) -> enough m fuel.
Proof. unfold enough. intros ? H Hl. specialize (H Hl). lia. Qed.

Lemma enough_mono n m fuel : m <= n -> enough n fuel -> enough m fuel.
Proof. unfold enough. intros ? H Hl. specialize (H Hl). lia. Qed.

Lemma ntapes_pos : 1 <= ntapes.
Proof.
  unfold ntapes. destruct Hok as (? & _). pose proof (Z.pow_pos_nonneg 2 (q_size cc - 6)). lia.
Qed.

Lemma plays_turn fuel sig q m rest fatal ab (Q : Z -> role -> Prop) :
  0 <= q < nslots -> enough 1 fuel ->
  (forall n, 0 <= n -> n + (q mod 64 + 1) <= 65 -> (n + (q mod 64 + 1) = 65 -> q / 64 + 1 < ntapes) ->
     Q n (Role rest false n (if n + (q mod 64 + 1) =? 65 then Some (q / 64 + 1) else None))) ->
  plays (ticket_loop fuel sig (q mod 64 + 1) (shl32 (bm_addr_hi cc) 24)
           (bm_addr_lo cc .| (q / 64 * GRO_TICKET_TAPE_SIZE)) fatal ab) Q (Role ((q, m) :: rest) true 0 None).
Proof.
  intros Hq He HQ. rewrite nslots_ntapes in Hq.
  assert (Ht : 0 <= q / 64 < ntapes) by (Z.div_mod_to_equations; lia).
  destruct fuel as [|fuel]; [split; [done|apply (enough_0 1); [lia|done]]|].
  cbn -[gro_cmd gro_kind]. rewrite kind_ticket by done. split; [done|].
  exists q, m, rest. split_ands; try done. intros n x Hx Hn Hn' Hl.
  unfold word0. rewrite Hx. cbn [nth].
  assert (0 <= q mod 64) by (apply Z.mod_pos_bound; lia).
  destruct (Z.eqb_spec n GRO_TICKET_ERROR) as [E|_]; [unfold GRO_TICKET_ERROR in E; lia|]. by apply HQ.
Qed.

Lemma plays_open fuel sig t todo fatal ab (Q : Z -> role -> Prop) :
  0 <= t < ntapes -> enough 1 fuel ->
  (forall n, 1 <= n <= 65 -> (n = 65 -> t + 1 < ntapes) ->
     Q n (Role todo false (n - 1) (if n =? 65 then Some (t + 1) else None))) ->
  plays (ticket_loop fuel sig 0 (shl32 (bm_addr_hi cc) 24)
           (bm_addr_lo cc .| (t * GRO_TICKET_TAPE_SIZE)) fatal ab) Q (Role todo false 0 (Some t)).
Proof.
  intros Ht He HQ. destruct fuel as [|fuel]; [split; [done|apply (enough_0 1); [lia|done]]|].
  cbn -[gro_cmd gro_kind]. rewrite kind_ticket by done. split; [done|]. split; [done|]. split; [done|].
  intros n x Hx Hn Hl. unfold word0. rewrite Hx. cbn [nth].
  destruct (Z.eqb_spec n GRO_TICKET_ERROR) as [E|_]; [unfold GRO_TICKET_ERROR in E; lia|]. by apply HQ.
Qed.

Lemma plays_put fuel n ctx todo w d : in_word 7 n -> enough 1 fuel ->
  plays (put_loop fuel (gro_release 1 n ctx) (shl32 (ring_addr_hi cc) 24) (ring_addr_lo cc))
    (fun _ r' => r' = Role todo w 0 d) (Role todo w n d).
Proof.
  intros Hn. induction fuel as [|fuel IH]; intros He; [split; [done|apply (enough_0 1); [lia|done]]|].
  cbn -[gro_cmd gro_kind gro_release rel_valid]. rewrite kind_put by done. split; [done|].
  intros x Hx. destruct (rel_valid (word0 x)) eqn:E; [done|]. apply IH.
  specialize (Hx eq_refl). unfold enough. congruence.
Qed.

Lemma plays_count i amt Q r : 0 <= i < 2 * GRO_TOTAL_CTX -> cval amt <= 65536 -> Q tt r ->
  plays (MemAtomic.mem_add64_imm amt (cntr_addr (g_cntrs g) i)) Q r.
Proof.
  intros Hi Ha HQ. unfold MemAtomic.mem_add64_imm.
  assert (E : try_ctassert (is_ct amt) (cval amt <=? MemAtomic.SZ_64K) = Ret tt).
  { unfold try_ctassert, MemAtomic.SZ_64K. destruct (is_ct amt); [|done].
    by destruct (Z.leb_spec (cval amt) 65536); [|lia]. }
  rewrite E. cbn -[gro_kind addr_hi addr_lo ind_data]. by rewrite kind_counter.
Qed.

Lemma plays_release fuel ctx n todo w d : 0 <= ctx < GRO_TOTAL_CTX -> in_word 7 n -> enough 1 fuel ->
  plays (_gro_cli_release fuel g cc ctx n) (fun _ r' => r' = Role todo w 0 d) (Role todo w n d).
Proof.
  intros Hc Hn He. unfold _gro_cli_release. eapply gro_plays_bind; [by apply plays_put|].
  intros _ r' ->. unfold gro_cli_cntr_released_add. apply plays_count; [lia| |done].
  cbn. unfold in_word in Hn. lia.
Qed.

Lemma plays_cascade fuel ctx seq t todo : 0 <= ctx < GRO_TOTAL_CTX -> 0 <= t -> t + 1 < ntapes ->
  enough (ntapes - t + 1) fuel ->
  plays (cascade_loop fuel g cc ctx seq ntapes (shl32 (bm_addr_hi cc) 24) t 0)
    (fun _ r' => r' = idle todo) (Role todo false 0 (Some (t + 1))).
Proof.
  intros Hc. revert t. induction fuel as [|fuel IH]; intros t Ht Hl He.
  { split; [done|]. eapply enough_0; [|done]. lia. }
  cbn [cascade_loop]. destruct (t + 1 >=? ntapes) eqn:E; [apply Z.geb_le in E; lia|].
  assert (He1 : enough 1 fuel) by (apply (enough_S (ntapes - t + 1)); [lia|done]).
  eapply gro_plays_bind; [apply (plays_open fuel _ (t + 1) todo _ _ (fun n r' =>
    1 <= n <= 65 /\ (n = 65 -> t + 1 + 1 < ntapes) /\
    r' = Role todo false (n - 1) (if n =? 65 then Some (t + 1 + 1) else None))); [lia|done|by intros]|].
  cbv beta. intros n r' (Hn & Hl' & ->).
  destruct (Z.ltb_spec n 1); [lia|]. cbn [bind mbind prog_bind].
  assert (En : s32 (sub32 n 1) = n - 1).
  { unfold sub32. rewrite wrap_id by (unfold in_word; lia). unfold s32. destruct (Z.ltb_spec (n - 1) (2 ^ 31)); lia. }
  rewrite En. eapply (gro_plays_bind _ _ (fun _ r' => r' = Role todo false 0 (if n =? 65 then Some (t + 1 + 1) else None))).
  { destruct (n - 1 >? 0) eqn:E1; [apply plays_release; [done| |done]; unfold in_word; lia|].
    rewrite Z.gtb_ltb in E1. apply Z.ltb_ge in E1. replace (n - 1) with 0 by lia. done. }
  intros _ r' ->. unfold GRO_TICKET_PER_TAPE. rewrite Z.geb_leb.
  destruct (Z.leb_spec 64 (n - 1)), (Z.eqb_spec n 65); try lia; [|done].
  apply IH; [lia|auto|]. apply (enough_S (ntapes - t + 1)); [lia|done].
Qed.

Lemma plays_send fuel m ctx q rest : 0 <= ctx < GRO_TOTAL_CTX -> 0 <= q < nslots -> length m = 4%nat ->
  enough (ntapes + 2) fuel ->
  plays (gro_cli_send fuel g cc m ctx q) (fun _ r' => r' = idle rest) (idle ((q, m) :: rest)).
Proof.
  intros Hc Hq Hm He. destruct Hok as (Hs & _).
  assert (E1 : (q ≫ q_size cc) mod GRO_NUM_EPOCHS = 0).
  { rewrite Z.shiftr_div_pow2, Z.div_small by (unfold nslots in Hq; lia). done. }
  assert (Hp : 0 < 2 ^ q_size cc <= 2 ^ 24) by (split; [apply Z.pow_pos_nonneg; lia|apply Z.pow_le_mono_r; lia]).
  assert (E2 : q .& sub32 (shl32 1 (q_size cc)) 1 = q).
  { unfold shl32, sub32. rewrite Z.shiftl_mul_pow2, Z.mul_1_l by lia.
    rewrite (wrap_id 32 (2 ^ _)), wrap_id by (unfold in_word; lia).
    rewrite Z.sub_1_r, <- Z.ones_equiv, Z.land_ones by lia. apply Z.mod_small. done. }
  assert (E3 : q .& GRO_TICKET_msk = q mod 64) by (apply (Z.land_ones q 6); lia).
  assert (E4 : shl32 1 (q_size cc - GRO_TICKET_TAPE_SEQ_shf) = ntapes).
  { unfold shl32, GRO_TICKET_TAPE_SEQ_shf, ntapes. rewrite Z.shiftl_mul_pow2, Z.mul_1_l by lia.
    apply wrap_id. split; [apply Z.pow_nonneg; lia|]. apply Z.pow_lt_mono_r; lia. }
  pose proof ntapes_pos as Hnt. unfold gro_cli_send. rewrite E1, E2, E3, E4.
  change (0 ≪ GRO_EPOCH_TICKET_SEQ_shf) with 0. rewrite Z.lor_0_r.
  eapply (gro_plays_bind _ _ (fun _ r' => r' = Role ((q, m) :: rest) true 0 None)).
  { cbn -[gro_cmd gro_kind]. rewrite kind_slot by done. by exists rest. }
  intros _ r' ->. unfold GRO_TICKET_PER_TAPE at 1.
  eapply gro_plays_bind; [apply (plays_turn _ _ q m rest _ _ (fun n r' =>
    0 <= n /\ n + (q mod 64 + 1) <= 65 /\ (n + (q mod 64 + 1) = 65 -> q / 64 + 1 < ntapes) /\
    r' = Role rest false n (if n + (q mod 64 + 1) =? 65 then Some (q / 64 + 1) else None)));
    [done|by apply (enough_mono (ntapes + 2)); [lia|]|by intros]|].
  cbv beta. intros n r' (Hn & Hn' & Hl & ->).
  assert (Hm64 : 0 <= q mod 64 < 64) by (apply Z.mod_pos_bound; lia).
  eapply (gro_plays_bind _ _ (fun _ r' => r' = Role rest false n (if n + (q mod 64 + 1) =? 65 then Some (q / 64 + 1) else None))).
  { apply plays_count; [lia|done|done]. }
  intros _ r' ->. destruct (Z.eqb_spec n 0) as [->|Hn0]; cbn [negb].
  { destruct (Z.eqb_spec (0 + (q mod 64 + 1)) 65); [lia|done]. }
  eapply gro_plays_bind; [apply plays_release; [done|unfold in_word; lia|by apply (enough_mono (ntapes + 2)); [lia|]]|].
  intros _ r' ->. rewrite Z.gtb_ltb. unfold GRO_TICKET_PER_TAPE.
  destruct (Z.ltb_spec 64 (n + (q mod 64 + 1))), (Z.eqb_spec (n + (q mod 64 + 1)) 65); try lia; [|done].
  assert (0 <= q / 64) by (apply Z.div_pos; lia).
  apply plays_cascade; [done..|auto|]. by apply (enough_mono (ntapes + 2)); [lia|].
Qed.


(** ** The tickets that are out *)

(** [p] is the first packet whose ticket is not out. *)
Definition prefix (S : list Z) (p : Z) : Prop := 0 <= p /\ (forall i, 0 <= i < p -> i ∈ S) /\ p ∉ S.

Lemma prefix_exists S B : (forall i, i ∈ S -> i < B) -> exists p, prefix S p.
Proof.
  intros HB.
  assert (H : forall n p0, 0 <= p0 -> (forall i, 0 <= i < p0 -> i ∈ S) -> (Z.to_nat (B - p0) < n)%nat ->
    exists p, prefix S p); [|apply (H (Datatypes.S (Z.to_nat (B - 0))) 0); [lia|lia|lia]].
  induction n as [|n IH]; intros p0 Hp0 Hin Hn; [lia|].
  destruct (decide (p0 ∈ S)) as [Hp|Hp]; [|by exists p0].
  pose proof (HB _ Hp). apply (IH (p0 + 1)); [lia| |lia].
  intros i Hi. destruct (decide (i = p0)) as [->|]; [done|]. apply Hin. lia.
Qed.

Lemma prefix_le S p n : prefix S p -> (forall i, 0 <= i < n -> i ∈ S) -> n <= p.
Proof.
  intros (Hp & _ & Hn) Hin. destruct (Z.le_gt_cases n p); [done|]. destruct Hn. apply Hin. lia.
Qed.

Lemma prefix_lt S p n : prefix S p -> 0 <= n -> n ∉ S -> p <= n.
Proof.
  intros (Hp & Hin & _) Hn0 Hn. destruct (Z.le_gt_cases p n); [done|]. destruct Hn. apply Hin. lia.
Qed.

(** The tapes when the tickets [S] are out and [T] tapes are open. *)
Record tapes_ok (tp : Z -> tape) (S : list Z) (p T : Z) : Prop := {
  tok_range : forall i, i ∈ S -> 0 <= i < nslots - 1;
  tok_prefix : prefix S p;
  tok_opened : 1 <= T /\ 64 * (T - 1) <= p;
  tok_open : forall t, 0 <= t < T -> t_seq (tp t) = 1 + Z.min 64 (p - 64 * t);
  tok_closed : forall t, T <= t < ntapes -> t_seq (tp t) = 0;
  tok_pend : forall t k, 0 <= t < ntapes ->
    k ∈ t_pend (tp t) <-> 1 <= k <= 64 /\ t_seq (tp t) < k /\ 64 * t + k - 1 ∈ S }.

Lemma tok_bound tp S p T : tapes_ok tp S p T -> p <= nslots - 1.
Proof.
  intros H. destruct (tok_prefix _ _ _ _ H) as (Hp & Hin & _).
  destruct (Z.le_gt_cases p (nslots - 1)) as [|Hgt]; [done|].
  assert (0 <= nslots - 1) by (rewrite nslots_ntapes; pose proof ntapes_pos; lia).
  assert (Hi : nslots - 1 ∈ S) by (apply Hin; lia). pose proof (tok_range _ _ _ _ H _ Hi). lia.
Qed.

Lemma tok_seq_range tp S p T t : tapes_ok tp S p T -> 0 <= t < ntapes -> 0 <= t_seq (tp t) <= 65.
Proof.
  intros H Ht. pose proof (tok_opened _ _ _ _ H). destruct (Z.lt_ge_cases t T).
  - rewrite (tok_open _ _ _ _ H) by lia. lia.
  - rewrite (tok_closed _ _ _ _ H) by lia. lia.
Qed.

(** What the reply to the ticket of a packet tells: it is in turn or early. *)
Lemma ticket_reply tp tp' S p T t k n : tapes_ok tp S p T -> 0 <= t < ntapes -> 1 <= k <= 64 ->
  64 * t + k - 1 ∉ S -> ticket_spec (tp t) k n tp' ->
  (k = t_seq (tp t) /\ t = T - 1 /\ p = 64 * t + k - 1 /\ 1 <= n /\ n + k <= 65 /\ t_seq tp' = k + n /\
   (forall i, p < i < p + n -> i ∈ S) /\ (n + k <= 64 -> p + n ∉ S) /\
   (forall j, j ∈ t_pend tp' <-> j ∈ t_pend (tp t) /\ k + n < j)) \/
  (t_seq (tp t) < k /\ n = 0 /\ t_seq tp' = t_seq (tp t) /\ t_pend tp' = {[k]} ∪ t_pend (tp t) /\
   (p = 64 * t + k - 1 -> 64 * T <= p)).
Proof.
  intros H Ht Hk HS Hspec. pose proof (tok_opened _ _ _ _ H) as [HT1 HT2].
  pose proof (tok_pend _ _ _ _ H t) as Hp. pose proof (tok_seq_range _ _ _ _ t H Ht) as Hr.
  destruct (tok_prefix _ _ _ _ H) as (Hp0 & Hpin & HpS).
  assert (Hseq : t < T /\ t_seq (tp t) = 1 + Z.min 64 (p - 64 * t) \/ T <= t /\ t_seq (tp t) = 0).
  { destruct (Z.lt_ge_cases t T); [left; split; [done|]; apply (tok_open _ _ _ _ H); lia|].
    right. split; [done|]. apply (tok_closed _ _ _ _ H). lia. }
  destruct Hspec as [n P' Hturn Hn1 Hrun Hstop HP'|Hs Hfresh|Herr].
  - left. assert (Hpq : t = T - 1 /\ p = 64 * t + k - 1) by lia. destruct Hpq as [-> Epq].
    assert (Hn : n + k <= 65).
    { destruct (Z.le_gt_cases (n + k) 65); [done|]. pose proof (Hrun 65 ltac:(lia)) as Hj; apply Hp in Hj as [? _]; lia. }
    split_ands; try done; try lia.
    + intros i Hi. pose proof (Hrun (i - 64 * (T - 1) + 1) ltac:(lia)) as Hj; apply Hp in Hj as (_ & _ & Hi'); [|lia].
      by replace i with (64 * (T - 1) + (i - 64 * (T - 1) + 1) - 1) by lia.
    + intros Hnk Hin. apply Hstop, Hp; [lia|]. split_ands; [lia..|].
      by replace (64 * (T - 1) + (k + n) - 1) with (p + n) by lia.
  - right. split_ands; try done; lia.
  - exfalso. destruct Herr as [Hlt|[Hgt|Hin]]; [|lia|].
    + apply HS, Hpin. lia.
    + apply Hp in Hin; [|done]. tauto.
Qed.

(** A ticket of a packet goes out. *)
Lemma tapes_turn tp tp' S p T q n : tapes_ok tp S p T -> 0 <= q < nslots - 1 -> q ∉ S ->
  ticket_spec (tp (q / 64)) (q mod 64 + 1) n (tp' (q / 64)) ->
  (forall t, t <> q / 64 -> tp' t = tp t) ->
  0 <= n /\ n + (q mod 64 + 1) <= 65 /\
  exists p', tapes_ok tp' (q :: S) p' T /\ Z.min p' (64 * T) = Z.min p (64 * T) + n /\
    if n + (q mod 64 + 1) =? 65 then q / 64 = T - 1 /\ p < 64 * T <= p'
    else (64 * T <=? p') = (64 * T <=? p).
Proof.
  intros H Hq HqS Hspec Hother. rewrite nslots_ntapes in Hq.
  assert (Hq' : q = 64 * (q / 64) + (q mod 64 + 1) - 1 /\ 1 <= q mod 64 + 1 <= 64 /\ 0 <= q / 64 < ntapes)
    by (Z.div_mod_to_equations; lia).
  generalize dependent (q / 64). generalize dependent (q mod 64 + 1). intros k t Hspec Hother (Eq & Hk & Ht).
  assert (HqS' : 64 * t + k - 1 ∉ S) by (by rewrite <- Eq).
  pose proof (ticket_reply _ _ _ _ _ _ _ _ H Ht Hk HqS' Hspec) as Hrep. rewrite <- Eq in Hrep. clear Hspec HqS'.
  pose proof (tok_opened _ _ _ _ H) as [HT1 HT2]. pose proof (tok_prefix _ _ _ _ H) as Hpre.
  assert (HB : forall i, i ∈ q :: S -> 0 <= i < nslots - 1).
  { intros i [->|Hi]%elem_of_cons; [rewrite nslots_ntapes; lia|]. by apply (tok_range _ _ _ _ H). }
  destruct (prefix_exists (q :: S) (nslots - 1)) as [p' Hp']; [intros i Hi; apply HB in Hi; lia|].
  assert (Hpp : p <= p').
  { apply (prefix_le _ _ _ Hp'). intros i Hi. apply elem_of_cons. right. by apply Hpre. }
  assert (Hpq : q <> p -> p' = p).
  { intros Hne. assert (p' <= p); [|lia]. apply (prefix_lt _ _ _ Hp'); [apply Hpre|].
    intros [->|Hi]%elem_of_cons; [done|]. by apply Hpre. }
  assert (Hpend : forall t1 k1, 0 <= t1 < ntapes -> t1 <> t ->
    k1 ∈ t_pend (tp' t1) <-> 1 <= k1 <= 64 /\ t_seq (tp' t1) < k1 /\ 64 * t1 + k1 - 1 ∈ q :: S).
  { intros t1 k1 Ht1 Hne. rewrite Hother, (tok_pend _ _ _ _ H), elem_of_cons by done.
    split; [tauto|]. intros (? & ? & [?|?]); [lia|tauto]. }
  destruct Hrep as [(Hks & HtT & Epq & Hn1 & Hn & Es & Hrun & Hstop & HP)|(Hks & -> & Es & EP & Hlate)].
  - split; [lia|]. split; [done|]. exists p'.
    assert (Hge : p + n <= p').
    { apply (prefix_le _ _ _ Hp'). intros i Hi. apply elem_of_cons.
      destruct (decide (i = q)); [by left|right]. destruct (Z.lt_ge_cases i p); [by apply Hpre; lia|].
      apply Hrun. lia. }
    assert (Hle : n + k <= 64 -> p' = p + n).
    { intros Hnk. assert (p' <= p + n); [|lia]. apply (prefix_lt _ _ _ Hp'); [lia|].
      intros [?|Hin]%elem_of_cons; [lia|]. by apply Hstop. }
    split; [|destruct (Z.eqb_spec (n + k) 65); [lia|]; split; [lia|];
             destruct (Z.leb_spec (64 * T) p'), (Z.leb_spec (64 * T) p); lia].
    split; [done|done|lia| | |].
    + intros t1 Ht1. destruct (decide (t1 = t)) as [->|]; [lia|].
      rewrite Hother, (tok_open _ _ _ _ H) by done. lia.
    + intros t1 Ht1. rewrite Hother by lia. by apply (tok_closed _ _ _ _ H).
    + intros t1 k1 Ht1. destruct (decide (t1 = t)) as [->|]; [|by apply Hpend].
      rewrite HP, (tok_pend _ _ _ _ H), Es, elem_of_cons by done.
      split; [intros ((? & ? & ?) & ?); split_ands; try lia; by right|].
      intros (? & ? & [?|?]); [lia|]. split_ands; try done; lia.
  - split; [lia|]. split; [lia|]. exists p'.
    assert (Hp'T : p' = p \/ 64 * T <= p) by (destruct (decide (q = p)) as [->|]; auto).
    split; [|destruct (Z.eqb_spec (0 + k) 65); [lia|]; split; [lia|];
             destruct (Z.leb_spec (64 * T) p'), (Z.leb_spec (64 * T) p); lia].
    split; [done|done|lia| | |].
    + intros t1 Ht1. assert (E : t_seq (tp' t1) = t_seq (tp t1)).
      { destruct (decide (t1 = t)) as [->|]; [done|]. by rewrite Hother. }
      rewrite E, (tok_open _ _ _ _ H) by done. lia.
    + intros t1 Ht1. destruct (decide (t1 = t)) as [->|]; [rewrite Es|rewrite Hother by done];
        by apply (tok_closed _ _ _ _ H).
    + intros t1 k1 Ht1. destruct (decide (t1 = t)) as [->|]; [|by apply Hpend].
      rewrite EP, elem_of_union, elem_of_singleton, (tok_pend _ _ _ _ H), Es, elem_of_cons by done.
      split; [intros [->|(? & ? & ?)]; split_ands; try lia; by right|].
      intros (? & ? & [?|?]); [left; lia|by right].
Qed.

(** The ticket that opens a tape. *)
Lemma tapes_open tp tp' S p T n : tapes_ok tp S p T -> 64 * T <= p ->
  ticket_spec (tp T) 0 n (tp' T) -> (forall t, t <> T -> tp' t = tp t) ->
  1 <= n <= 65 /\ tapes_ok tp' S p (T + 1) /\ Z.min p (64 * (T + 1)) = Z.min p (64 * T) + (n - 1) /\
  (64 * (T + 1) <=? p) = (n =? 65).
Proof.
  intros H HTp Hspec Hother. pose proof (tok_opened _ _ _ _ H) as [HT1 _].
  pose proof (tok_bound _ _ _ _ H) as Hb. rewrite nslots_ntapes in Hb.
  assert (Ht : 0 <= T < ntapes) by lia.
  pose proof (tok_closed _ _ _ _ H T ltac:(lia)) as Hs. pose proof (tok_pend _ _ _ _ H T) as Hp.
  pose proof (tok_prefix _ _ _ _ H) as Hpre.
  inversion Hspec as [n' P' Hturn Hn1 Hrun Hstop HP' En Etp|Hlt|Herr]; subst; [|lia|].
  2: { exfalso. destruct Herr as [?|[?|Hin]]; [lia..|]. apply Hp in Hin; [lia|done]. }
  assert (Hn : n <= 65).
  { destruct (Z.le_gt_cases n 65); [done|]. pose proof (Hrun 65 ltac:(lia)) as Hj; apply Hp in Hj as [? _]; lia. }
  assert (Hge : 64 * T + n - 1 <= p).
  { apply (prefix_le _ _ _ Hpre). intros i Hi. destruct (Z.lt_ge_cases i p); [by apply Hpre; lia|].
    pose proof (Hrun (i - 64 * T + 1) ltac:(lia)) as Hj; apply Hp in Hj as (_ & _ & Hi'); [|lia].
    by replace i with (64 * T + (i - 64 * T + 1) - 1) by lia. }
  assert (Hle : n <= 64 -> p = 64 * T + n - 1).
  { intros Hn64. assert (p <= 64 * T + n - 1); [|lia]. apply (prefix_lt _ _ _ Hpre); [lia|].
    intros Hin. apply Hstop, Hp; [done|]. split_ands; [lia..|]. done. }
  split; [lia|]. split; [|split; [lia|]; destruct (Z.leb_spec (64 * (T + 1)) p), (Z.eqb_spec n 65); lia].
  split; [apply H|done|lia| | |].
  - intros t1 Ht1. destruct (decide (t1 = T)) as [->|]; [rewrite <- Etp; cbn; lia|].
    rewrite Hother by done. apply (tok_open _ _ _ _ H). lia.
  - intros t1 Ht1. rewrite Hother by lia. apply (tok_closed _ _ _ _ H). lia.
  - intros t1 k1 Ht1. destruct (decide (t1 = T)) as [->|]; [|rewrite Hother by done; by apply (tok_pend _ _ _ _ H)].
    rewrite <- Etp. cbn [t_pend t_seq]. rewrite HP', Hp, Hs by done. split; [tauto|].
    intros (? & ? & ?). split_ands; try done; lia.
Qed.

(** ** The contexts together *)

(** The packets all contexts send: each has a slot of its own, the last slot of the
    queue stays free, and its metadata fills the slot. *)
Section Packets.
Context (all : list (Z * list Z)).
Definition packets_ok : Prop :=
  NoDup (map fst all) /\ Forall (fun qm => 0 <= qm.1 < nslots - 1 /\ length qm.2 = 4%nat) all.

Definition wrote_ok (slots : gmap Z (list Z)) (r : role) : Prop :=
  r_wrote r = true -> exists q m rest, r_todo r = (q, m) :: rest /\ slots !! q = Some m.

(** The memory and the roles when the tickets [sent] are out, [p] is the first packet
    whose ticket is not, and [T] tapes are open: one context owes the tape that has to
    be opened, and what is released, with what contexts still have to release, is the
    open part of the prefix. *)
Record ledger (v : view) (rs : list role) (sent : list (Z * list Z)) (p T : Z) : Prop := {
  l_all : Permutation (concat (map r_todo rs) ++ sent) all;
  l_tapes : tapes_ok (v_tapes v) (map fst sent) p T;
  l_duty : omap r_duty rs = if 64 * T <=? p then [T] else [];
  l_pend : Forall (fun r => 0 <= r_pend r) rs;
  l_rel : v_rel v + sumZ (map r_pend rs) = Z.min p (64 * T);
  l_sent : Forall (fun qm => v_slots v !! qm.1 = Some qm.2) sent;
  l_wrote : Forall (wrote_ok (v_slots v)) rs }.

Section Hardware.
Context {St : Type} (h : St -> event -> reply * St) (vw : St -> view).
Context `{!GroHw h lossy vw} (Hall : packets_ok).

Definition inv (s : St) (rs : list role) : Prop := exists sent p T, ledger (vw s) rs sent p T.
Definition in_role (r : role) (prg : prog unit) : Prop := plays prg (fun _ r' => r' = idle []) r.

Lemma tapes_ok_ext tp tp' S p T : (forall t, tp' t = tp t) -> tapes_ok tp S p T -> tapes_ok tp' S p T.
Proof.
  intros E H. split; [apply H..|intros t ?; rewrite E; by apply (tok_open _ _ _ _ H)|
    intros t ?; rewrite E; by apply (tok_closed _ _ _ _ H)|intros t k ?; rewrite E; by apply (tok_pend _ _ _ _ H)].
Qed.

Lemma omap_middle l1 r l2 : omap r_duty (l1 ++ r :: l2) = omap r_duty l1 ++ match r_duty r with Some t => [t] | None => [] end ++ omap r_duty l2.
Proof. rewrite omap_app. cbn. by destruct (r_duty r). Qed.

Lemma pend_middle l1 r l2 : sumZ (map r_pend (l1 ++ r :: l2)) = sumZ (map r_pend (l1 ++ l2)) + r_pend r.
Proof. rewrite !map_app, !sumZ_app. cbn. fold (sumZ (map r_pend l2)). lia. Qed.

Lemma todo_middle l1 r l2 : Permutation (concat (map r_todo (l1 ++ r :: l2))) (r_todo r ++ concat (map r_todo (l1 ++ l2))).
Proof.
  rewrite !map_app, !concat_app. cbn. rewrite !app_assoc. f_equiv. apply Permutation_app_comm.
Qed.

(** The packets that are not out are distinct from those that are. *)
Lemma ledger_head v l1 r l2 sent p T q m rest : ledger v (l1 ++ r :: l2) sent p T ->
  r_todo r = (q, m) :: rest ->
  0 <= q < nslots - 1 /\ length m = 4%nat /\ q ∉ map fst sent /\
  q ∉ map fst (concat (map r_todo (l1 ++ l2))).
Proof.
  intros H E. destruct Hall as [Hnd Hok']. pose proof (l_all _ _ _ _ _ H) as Hp.
  rewrite todo_middle, E in Hp. rewrite <- Hp in Hnd, Hok'. cbn in Hnd, Hok'.
  apply Forall_cons in Hok' as [[Hq Hm] _]. apply NoDup_cons in Hnd as [Hnd _].
  rewrite !(map_app fst), !elem_of_app in Hnd. cbn in *. tauto.
Qed.

(** A step that leaves packets and duties alone. *)
Lemma ledger_quiet v v' l1 r l2 r' sent p T : ledger v (l1 ++ r :: l2) sent p T ->
  r_todo r' = r_todo r -> r_duty r' = r_duty r -> 0 <= r_pend r' -> r_wrote r' = r_wrote r ->
  (forall t, v_tapes v' t = v_tapes v t) -> v_slots v' = v_slots v ->
  v_rel v' + r_pend r' = v_rel v + r_pend r ->
  ledger v' (l1 ++ r' :: l2) sent p T.
Proof.
  intros H Et Ed Hp Ew Etp Es Er. pose proof (l_rel _ _ _ _ _ H) as Hr. rewrite pend_middle in Hr.
  split.
  - rewrite <- (l_all _ _ _ _ _ H), !todo_middle. by rewrite Et.
  - eapply tapes_ok_ext; [done|apply H].
  - rewrite <- (l_duty _ _ _ _ _ H), !omap_middle. by rewrite Ed.
  - pose proof (l_pend _ _ _ _ _ H) as Hf. apply Forall_app in Hf as [? [_ ?]%Forall_cons].
    apply Forall_app. split; [done|]. by constructor.
  - rewrite pend_middle. lia.
  - rewrite Es. apply H.
  - pose proof (l_wrote _ _ _ _ _ H) as Hf. apply Forall_app in Hf as [? [Hw ?]%Forall_cons].
    rewrite Es. apply Forall_app. split; [done|]. constructor; [|done]. unfold wrote_ok in *. by rewrite Ew, Et.
Qed.

(** The slot of the first packet is filled. *)
Lemma ledger_slot v v' l1 r l2 sent p T q m rest : ledger v (l1 ++ r :: l2) sent p T ->
  r_todo r = (q, m) :: rest ->
  v_slots v' = <[q := m]> (v_slots v) -> (forall t, v_tapes v' t = v_tapes v t) -> v_rel v' = v_rel v ->
  ledger v' (l1 ++ Role (r_todo r) true (r_pend r) (r_duty r) :: l2) sent p T.
Proof.
  intros H E Es Etp Er. destruct (ledger_head _ _ _ _ _ _ _ _ _ _ H E) as (_ & _ & Hsent & Htodo).
  set (r' := Role _ _ _ _).
  assert (Hkeep : forall q' m', (q', m') ∈ sent \/ (q', m') ∈ concat (map r_todo (l1 ++ l2)) ->
    v_slots v !! q' = Some m' -> v_slots v' !! q' = Some m').
  { intros q' m' Hin Hl. rewrite Es, lookup_insert_ne; [done|]. intros ->.
    destruct Hin as [Hin|Hin]; [apply Hsent|apply Htodo]; by apply (list_elem_of_fmap_2 fst) in Hin. }
  pose proof (l_rel _ _ _ _ _ H) as Hr. rewrite pend_middle in Hr.
  pose proof (l_pend _ _ _ _ _ H) as Hf. apply Forall_app in Hf as [Hf1 [Hfr Hf2]%Forall_cons].
  pose proof (l_wrote _ _ _ _ _ H) as Hw. apply Forall_app in Hw as [Hw1 [_ Hw2]%Forall_cons].
  assert (Hothers : Forall (wrote_ok (v_slots v')) (l1 ++ l2)).
  { apply Forall_forall. intros r1 Hin1 Hwr.
    assert (Hr1 : wrote_ok (v_slots v) r1) by (by apply (Forall_forall _ (l1 ++ l2)); [apply Forall_app|]).
    destruct (Hr1 Hwr) as (q1 & m1 & rest1 & E1 & Hl). exists q1, m1, rest1. split; [done|].
    apply Hkeep; [|done]. right. apply list_elem_of_In, in_concat. exists (r_todo r1).
    split; [apply in_map, list_elem_of_In, Hin1|]. rewrite E1. by left. }
  apply Forall_app in Hothers as [Ho1 Ho2].
  split.
  - rewrite <- (l_all _ _ _ _ _ H), !todo_middle. done.
  - eapply tapes_ok_ext; [done|apply H].
  - rewrite <- (l_duty _ _ _ _ _ H), !omap_middle. done.
  - apply Forall_app. split; [done|]. by constructor.
  - rewrite pend_middle. cbn. lia.
  - pose proof (l_sent _ _ _ _ _ H) as Hs. rewrite Forall_forall in *. intros [q' m'] Hin.
    apply Hkeep; [by left|]. by apply (Hs (q', m')).
  - apply Forall_app. split; [done|]. constructor; [|done]. intros _. exists q, m, rest.
    split; [done|]. by rewrite Es, lookup_insert_eq.
Qed.

(** A ticket of a packet goes out. *)
Lemma ledger_turn v v' l1 l2 sent p T q m rest n :
  ledger v (l1 ++ Role ((q, m) :: rest) true 0 None :: l2) sent p T ->
  ticket_spec (v_tapes v (q / 64)) (q mod 64 + 1) n (v_tapes v' (q / 64)) ->
  (forall t, t <> q / 64 -> v_tapes v' t = v_tapes v t) -> v_slots v' = v_slots v -> v_rel v' = v_rel v ->
  0 <= n /\ n + (q mod 64 + 1) <= 65 /\ (n + (q mod 64 + 1) = 65 -> q / 64 + 1 < ntapes) /\
  exists p', ledger v' (l1 ++ Role rest false n (if n + (q mod 64 + 1) =? 65 then Some (q / 64 + 1) else None) :: l2)
    ((q, m) :: sent) p' T.
Proof.
  intros H Hspec Etp Es Er. destruct (ledger_head _ _ _ _ _ _ _ _ _ _ H eq_refl) as (Hq & _ & Hsent & _).
  destruct (tapes_turn _ _ _ _ _ _ _ (l_tapes _ _ _ _ _ H) Hq Hsent Hspec Etp) as (Hn & Hnk & p' & Ht & Hmin & Hcase).
  split; [done|]. split; [done|].
  pose proof (l_rel _ _ _ _ _ H) as Hr. rewrite pend_middle in Hr. cbn [r_pend] in Hr.
  pose proof (l_duty _ _ _ _ _ H) as Hd. rewrite omap_middle in Hd. cbn [r_duty app] in Hd.
  pose proof (l_pend _ _ _ _ _ H) as Hf. apply Forall_app in Hf as [Hf1 [_ Hf2]%Forall_cons].
  pose proof (l_wrote _ _ _ _ _ H) as Hw. apply Forall_app in Hw as [Hw1 [Hw Hw2]%Forall_cons].
  destruct (Hw eq_refl) as (? & ? & ? & [= <- <- <-] & Hl).
  pose proof (tok_bound _ _ _ _ Ht) as Hb. rewrite nslots_ntapes in Hb.
  split; [intros Hn65; rewrite (proj2 (Z.eqb_eq _ _) Hn65) in Hcase; lia|].
  exists p'. split.
  - rewrite <- (l_all _ _ _ _ _ H), !todo_middle. cbn. by rewrite <- Permutation_middle.
  - apply Ht.
  - rewrite omap_middle. cbn [r_duty]. destruct (Z.eqb_spec (n + (q mod 64 + 1)) 65) as [E|E].
    + destruct Hcase as (EqT & HpT & HTp). destruct (Z.leb_spec (64 * T) p), (Z.leb_spec (64 * T) p'); try lia.
      apply app_eq_nil in Hd as [-> ->]. cbn. do 2 f_equal. lia.
    + rewrite Hcase, <- Hd. done.
  - apply Forall_app. split; [done|]. by constructor.
  - rewrite pend_middle. cbn [r_pend]. lia.
  - rewrite Es. constructor; [done|apply H].
  - rewrite Es. apply Forall_app. split; [done|]. by constructor.
Qed.

(** A tape is opened. *)
Lemma ledger_open v v' l1 l2 sent p T t todo w n :
  ledger v (l1 ++ Role todo w 0 (Some t) :: l2) sent p T ->
  ticket_spec (v_tapes v t) 0 n (v_tapes v' t) ->
  (forall t', t' <> t -> v_tapes v' t' = v_tapes v t') -> v_slots v' = v_slots v -> v_rel v' = v_rel v ->
  1 <= n <= 65 /\ (n = 65 -> t + 1 < ntapes) /\
  ledger v' (l1 ++ Role todo w (n - 1) (if n =? 65 then Some (t + 1) else None) :: l2) sent p (T + 1).
Proof.
  intros H Hspec Etp Es Er.
  pose proof (l_rel _ _ _ _ _ H) as Hr. rewrite pend_middle in Hr. cbn [r_pend] in Hr.
  pose proof (l_duty _ _ _ _ _ H) as Hd. rewrite omap_middle in Hd. cbn [r_duty app] in Hd.
  pose proof (l_pend _ _ _ _ _ H) as Hf. apply Forall_app in Hf as [Hf1 [_ Hf2]%Forall_cons].
  assert (HdT : 64 * T <= p /\ t = T /\ omap r_duty l1 = [] /\ omap r_duty l2 = []).
  { destruct (Z.leb_spec (64 * T) p); [|by destruct (omap r_duty l1)].
    destruct (omap r_duty l1) as [|d [|]]; [|by inversion Hd..]. by injection Hd as -> ->. }
  destruct HdT as (HTp & -> & Hd1 & Hd2).
  destruct (tapes_open _ _ _ _ _ _ (l_tapes _ _ _ _ _ H) HTp Hspec Etp) as (Hn & Ht & Hmin & Hcase).
  pose proof (tok_bound _ _ _ _ Ht) as Hb. rewrite nslots_ntapes in Hb.
  split; [done|]. split; [intros ->; apply Z.leb_le in Hcase; lia|]. split.
  - rewrite <- (l_all _ _ _ _ _ H), !todo_middle. done.
  - apply Ht.
  - rewrite omap_middle, Hd1, Hd2, Hcase. cbn [r_duty]. by destruct (n =? 65).
  - apply Forall_app. split; [done|]. constructor; [cbn; lia|done].
  - rewrite pend_middle. cbn [r_pend]. lia.
  - rewrite Es. apply H.
  - pose proof (l_wrote _ _ _ _ _ H) as Hw. apply Forall_app in Hw as [Hw1 [Hw Hw2]%Forall_cons].
    rewrite Es. apply Forall_app. split; [done|]. by constructor.
Qed.

Lemma gro_step s l1 r l2 e k : inv s (l1 ++ r :: l2) -> in_role r (Vis e k) ->
  exists r', in_role r' (k (fst (h s e))) /\ inv (snd (h s e)) (l1 ++ r' :: l2).
Proof.
  intros (sent & p & T & H) Hr. unfold in_role in *. cbn [plays] in Hr.
  destruct (gro_kind e) as [q m|t i|n| |] eqn:Ek; [| | | |done].
  - destruct Hr as (rest & E & Hk). destruct (hw_slot s e q m Ek) as (Es & Etp & Er).
    eexists. split; [apply Hk|]. exists sent, p, T. by eapply ledger_slot.
  - destruct (hw_ticket s e t i Ek) as ((n & Hn & Hspec) & Etp & Es & Er).
    destruct Hr as [Hp0 Hr]. destruct r as [todo w pend [t'|]]; cbn [r_pend r_duty r_todo r_wrote] in *; subst pend.
    + destruct Hr as (-> & -> & Hk).
      destruct (ledger_open _ _ _ _ _ _ _ _ _ _ _ H Hspec Etp Es Er) as (Hn1 & Hl & H').
      eexists. split; [by apply (Hk n)|]. by exists sent, p, (T + 1).
    + destruct Hr as (q & m & rest & -> & -> & -> & -> & Hk).
      destruct (ledger_turn _ _ _ _ _ _ _ _ _ _ _ H Hspec Etp Es Er) as (Hn1 & Hn2 & Hl & p' & H').
      eexists. split; [by apply (Hk n)|]. by exists ((q, m) :: sent), p', T.
  - destruct Hr as (-> & Hk). destruct (hw_put s e _ Ek) as (Hv & Er & Es & Etp).
    pose proof (l_pend _ _ _ _ _ H) as Hf. apply Forall_app in Hf as [_ [Hf _]%Forall_cons].
    eexists. split; [by apply Hk|]. exists sent, p, T. eapply ledger_quiet; try done; cbn.
    + by destruct (rel_valid _).
    + rewrite Er. destruct (rel_valid _); lia.
  - destruct (hw_quiet s e Ek) as (Er & Es & Etp). exists r. split; [apply Hr|].
    exists sent, p, T. pose proof (l_pend _ _ _ _ _ H) as Hf. apply Forall_app in Hf as [_ [Hf _]%Forall_cons].
    eapply ledger_quiet; try done. by rewrite Er.
Qed.
End Hardware.
End Packets.

(** ** The theorem *)

(** A context sends its packets one after the other. *)
Fixpoint send_all (fuel : nat) (ctx : Z) (l : list (Z * list Z)) : prog unit :=
  match l with
  | [] => Ret tt
  | (q, m) :: l => _ ← gro_cli_send fuel g cc m ctx q; send_all fuel ctx l
  end.

Lemma plays_all fuel ctx l : 0 <= ctx < GRO_TOTAL_CTX -> enough (ntapes + 2) fuel ->
  Forall (fun qm => 0 <= qm.1 < nslots - 1 /\ length qm.2 = 4%nat) l ->
  in_role (idle l) (send_all fuel ctx l).
Proof.
  intros Hc He Hl. unfold in_role. induction Hl as [|[q m] l [Hq Hm] _ IH]; [done|]. cbn [send_all].
  eapply gro_plays_bind; [apply (plays_send fuel m ctx q l); cbn in *; lia || done|]. intros _ r' ->. exact IH.
Qed.

(** An empty queue: the first tape is open. *)
Definition fresh (v : view) : Prop :=
  v_rel v = 0 /\ (forall t, v_tapes v t = Tape (if t =? 0 then 1 else 0) ∅).

Definition gro_pool {St} (fuel : nat) (s : St) (ctxs : list (Z * list (Z * list Z))) : pool St :=
  Pool s (map (fun c => send_all fuel c.1 c.2) ctxs).

Lemma fresh_ledger v ls : fresh v -> ledger (concat ls) v (map idle ls) [] 0 1.
Proof.
  intros [Hr Ht]. split; cbn.
  - rewrite app_nil_r, map_map. cbn. by rewrite map_id.
  - split.
    + by intros i Hi%elem_of_nil.
    + split; [lia|]. split; [lia|]. by intros Hi%elem_of_nil.
    + lia.
    + intros t Hti. rewrite Ht. destruct (Z.eqb_spec t 0); cbn; lia.
    + intros t Hti. rewrite Ht. destruct (Z.eqb_spec t 0); cbn; lia.
    + intros t k Hti. rewrite Ht. cbn. rewrite elem_of_empty, elem_of_nil. tauto.
  - induction ls; [done|]. by cbn.
  - apply Forall_map. by apply Forall_true.
  - rewrite Hr, map_map. cbn. induction ls; [done|]. by cbn.
  - done.
  - apply Forall_map. apply Forall_true. intros l. by unfold wrote_ok.
Qed.

(** C23: The global reorder library releases packets in order. Contexts that send
    the packets of a queue at once, in any order and under any interleaving,
    release on the ring only a prefix of the sequence, each packet with the
    metadata its sender gave in its slot; no context meets a ticket error, and
    none stops early when the ring always accepts; when all contexts have sent,
    every packet before the first missing number is released. *)
Theorem gro_in_order {St} (h : St -> event -> reply * St) (vw : St -> view) fuel st ctxs p :
  GroHw h lossy vw -> enough (ntapes + 2) fuel ->
  packets_ok (concat (map snd ctxs)) -> Forall (fun c => 0 <= c.1 < GRO_TOTAL_CTX) ctxs ->
  fresh (vw st) -> pool_reach h (gro_pool fuel st ctxs) p ->
  (forall q, 0 <= q < v_rel (vw (p_hw p)) -> exists m,
     (q, m) ∈ concat (map snd ctxs) /\ v_slots (vw (p_hw p)) !! q = Some m) /\
  Forall (fun t => forall f, t = Stop f -> f = Fuel /\ lossy = true) (p_threads p) /\
  (Forall (eq (Ret tt)) (p_threads p) -> prefix (map fst (concat (map snd ctxs))) (v_rel (vw (p_hw p)))).
Proof.
  intros Hh He Hall Hctx Hf Hr.
  assert (Hinv : exists rs, inv (concat (map snd ctxs)) vw (p_hw p) rs /\ Forall2 in_role rs (p_threads p)).
  { refine (pool_invariant h in_role _ (fun s l1 r l2 e k => gro_step _ h vw Hall s l1 r l2 e k) _ _ Hr _).
    exists (map idle (map snd ctxs)). split; [exists [], 0, 1; by apply fresh_ledger|].
    cbn. rewrite map_map. destruct Hall as [_ Hall']. clear - Hctx Hall' He Hok.
    induction Hctx as [|c ctxs Hc _ IH]; cbn in *; [constructor|].
    apply Forall_app in Hall' as [Hc' Hall']. constructor; [by apply plays_all|by apply IH]. }
  destruct Hinv as (rs & (sent & n & T & H) & Hroles).
  pose proof (l_rel _ _ _ _ _ _ H) as Hrel. split_ands.
  - intros q Hq. pose proof (sumZ_nonneg (map r_pend rs)) as Hs. rewrite Forall_map in Hs.
    specialize (Hs (l_pend _ _ _ _ _ _ H)).
    destruct (tok_prefix _ _ _ _ (l_tapes _ _ _ _ _ _ H)) as (_ & Hin & _).
    destruct (list_elem_of_fmap_1 _ _ _ (Hin q ltac:(lia))) as ([q' m] & -> & Hm). exists m. split.
    + rewrite <- (l_all _ _ _ _ _ _ H). apply elem_of_app. by right.
    + by apply (proj1 (Forall_forall _ _) (l_sent _ _ _ _ _ _ H) (q', m)).
  - clear - Hroles. induction Hroles as [|r t rs ts Hr _ IH]; constructor; [|exact IH].
    intros f ->. exact Hr.
  - intros Hfin. assert (Hidle : Forall (eq (idle [])) rs).
    { clear - Hroles Hfin. induction Hroles as [|r t rs ts Hr _ IH]; [constructor|].
      apply Forall_cons in Hfin as [<- Hfin]. constructor; [by symmetry|by apply IH]. }
    assert (Hnil : concat (map r_todo rs) = [] /\ omap r_duty rs = [] /\ sumZ (map r_pend rs) = 0).
    { clear - Hidle. induction Hidle as [|r rs <- _ (IH1 & IH2 & IH3)]; [done|]. cbn.
      by rewrite IH1, IH2. }
    destruct Hnil as (E1 & E2 & E3). pose proof (l_all _ _ _ _ _ _ H) as Hp. rewrite E1 in Hp. cbn in Hp.
    pose proof (l_duty _ _ _ _ _ _ H) as Hd. rewrite E2 in Hd.
    destruct (Z.leb_spec (64 * T) n); [done|]. replace (v_rel (vw (p_hw p))) with n by lia.
    destruct (tok_prefix _ _ _ _ (l_tapes _ _ _ _ _ _ H)) as (Hn & Hin & Hout).
    split; [done|]. split; [intros i Hi; rewrite <- Hp; by apply Hin|]. by rewrite <- Hp.
Qed.

End Order.
(** ** A memory unit *)

(** The tickets that follow [j] without a gap, counted from 1; [fuel] is the number of
    tickets. *)
Fixpoint ticket_run (fuel : nat) (j : Z) (P : gset Z) : Z :=
  match fuel with
  | O => 1
  | S fuel => if decide (j ∈ P) then 1 + ticket_run fuel (j + 1) (P ∖ {[j]}) else 1
  end.

Lemma ticket_run_spec fuel j P : (size P <= fuel)%nat ->
  let n := ticket_run fuel j P in
  1 <= n /\ (forall i, j <= i < j + n - 1 -> i ∈ P) /\ j + n - 1 ∉ P.
Proof.
  revert j P. induction fuel as [|fuel IH]; intros j P Hs; cbn.
  - assert (E : P ≡ ∅) by (apply size_empty_iff; lia). split; [lia|]. split; [lia|]. set_solver.
  - destruct (decide (j ∈ P)) as [Hj|Hj].
    + assert (Hs' : (size (P ∖ {[j]}) <= fuel)%nat).
      { rewrite size_difference by set_solver. rewrite size_singleton. lia. }
      destruct (IH (j + 1) _ Hs') as (H1 & H2 & H3). split; [lia|]. split.
      * intros i Hi. destruct (decide (i = j)) as [->|]; [done|].
        specialize (H2 i ltac:(lia)). set_solver.
      * intros Hin. apply H3. replace (j + 1 + ticket_run fuel (j + 1) (P ∖ {[j]}) - 1) with
          (j + (1 + ticket_run fuel (j + 1) (P ∖ {[j]})) - 1) by lia.
        apply elem_of_difference. split; [done|]. rewrite elem_of_singleton. lia.
    + split; [lia|]. split; [lia|]. by replace (j + 1 - 1) with j by lia.
Qed.

(** The memory, and how often the ring is still full. *)
Record gro_mem := GroMem { m_tapes : gmap Z tape; m_slots : gmap Z (list Z); m_rel : Z; m_busy : nat }.
Definition mem_tape (m : gro_mem) (t : Z) : tape :=
  default (Tape (if t =? 0 then 1 else 0) ∅) (m_tapes m !! t).
Definition mem_view (m : gro_mem) : view := View (mem_tape m) (m_slots m) (m_rel m).

Definition mem_ticket (tp : tape) (k : Z) : Z * tape :=
  let '(Tape s P) := tp in
  if k =? s then
    let n := ticket_run (size P) (k + 1) P in (n, Tape (k + n) (filter (fun j => k + n < j) P))
  else if (s <? k) && (k <=? s + 64) && bool_decide (k ∉ P) then (0, Tape s ({[k]} ∪ P))
  else (GRO_TICKET_ERROR, tp).

Definition gro_hw (cc : gro_client_ctx) (g : gro_config) (total : Z) (m : gro_mem) (e : event)
    : reply * gro_mem :=
  match gro_kind cc g total e with
  | Slot q d => (Reply [] false, GroMem (m_tapes m) (<[q := d]> (m_slots m)) (m_rel m) (m_busy m))
  | Ticket t k =>
      let '(n, tp) := mem_ticket (mem_tape m t) k in
      (Reply [n] false, GroMem (<[t := tp]> (m_tapes m)) (m_slots m) (m_rel m) (m_busy m))
  | Put n =>
      match m_busy m with
      | O => (Reply [2 ^ 31] false, GroMem (m_tapes m) (m_slots m) (m_rel m + n) O)
      | S b => (Reply [0] false, GroMem (m_tapes m) (m_slots m) (m_rel m) b)
      end
  | _ => (Reply [] false, m)
  end.

Lemma mem_ticket_spec tp k : ticket_spec tp k (mem_ticket tp k).1 (mem_ticket tp k).2.
Proof.
  destruct tp as [s P]. cbn. destruct (Z.eqb_spec k s) as [->|Hne].
  - destruct (ticket_run_spec (size P) (s + 1) P) as (H1 & H2 & H3); [done|].
    cbn. set (n := ticket_run _ _ _) in *. apply (ticket_turn (Tape s P) s n); cbn; [done|lia| | |].
    + intros j Hj. apply H2. lia.
    + by replace (s + n) with (s + 1 + n - 1) by lia.
    + intros j. rewrite elem_of_filter. tauto.
  - destruct (Z.ltb_spec s k), (Z.leb_spec k (s + 64)); cbn;
      try (apply ticket_error; cbn; lia).
    case_bool_decide as Hin; cbn; [by apply (ticket_early (Tape s P))|].
    apply ticket_error. cbn. by right; right.
Qed.

#[export] Instance gro_hw_ok cc g total : GroHw cc g total (gro_hw cc g total) true mem_view.
Proof.
  split.
  - intros m e q d E. unfold gro_hw. by rewrite E.
  - intros m e t k E. unfold gro_hw. rewrite E. cbn [v_tapes mem_view].
    pose proof (mem_ticket_spec (mem_tape m t) k) as Hs.
    destruct (mem_ticket (mem_tape m t) k) as [n tp] eqn:Et. cbn in *. split_ands; try done.
    + exists n. split; [done|]. unfold mem_tape at 2. cbn. by rewrite lookup_insert_eq.
    + intros t' Hne. unfold mem_tape. cbn. by rewrite lookup_insert_ne.
  - intros m e n E. unfold gro_hw. rewrite E. destruct (m_busy m).
    + done.
    + cbn. by rewrite Z.add_0_r.
  - intros m e E. unfold gro_hw. by rewrite E.
Qed.

(** Two contexts share 66 packets, the even and the odd ones; the ring is full at first. *)
Definition two_cc : gro_client_ctx := ClientCtx 0x98 5 0x81 0x1000 0x82 7 0x4000.
Definition two_cfg : gro_config := GroConfig 0x8000 8 7.
Definition two_ctxs : list (Z * list (Z * list Z)) :=
  map (fun c => (c, map (fun i => let q := 2 * Z.of_nat i + c in (q, [0xab; c; q; 0])) (seq 0 33))) [0; 1].
Definition two_sched : list nat := concat (replicate 140 [1; 0; 1; 1; 0; 0; 0]%nat).

Lemma two_layout : layout_ok two_cc two_cfg 2.
Proof. unfold layout_ok, in_word. cbn -[Z.pow]. split_ands; (lia || by vm_compute). Qed.

Lemma two_packets : packets_ok two_cc (concat (map snd two_ctxs)).
Proof.
  split; [by apply (bool_decide_unpack _); vm_compute|].
  apply (bool_decide_unpack (Forall (fun qm : Z * list Z => 0 <= qm.1 < 127 /\ length qm.2 = 4%nat) _)).
  by vm_compute.
Qed.

Lemma gro_in_order_witness :
  let p := run (gro_hw two_cc two_cfg 2) two_sched
             (gro_pool two_cc two_cfg 9 (GroMem ∅ ∅ 0 3) two_ctxs) in
  Forall (eq (Ret tt)) (p_threads p) /\ m_rel (p_hw p) = 66 /\
  prefix (map fst (concat (map snd two_ctxs))) (v_rel (mem_view (p_hw p))).
Proof.
  intros p. assert (Hf : Forall (eq (Ret tt)) (p_threads p)) by (vm_compute; repeat constructor).
  split; [exact Hf|]. split; [by vm_compute|].
  apply (gro_in_order two_cc two_cfg 2 true two_layout (gro_hw two_cc two_cfg 2) mem_view 9
    (GroMem ∅ ∅ 0 3) two_ctxs p); [apply _|done|apply two_packets| |done|apply run_reach|exact Hf].
  by apply (bool_decide_unpack _); vm_compute.
Defined.

End GroOrder.
