(* ===== verification/Blm.v ===== *)
(** blocks/blm/libblm.c: the free lists of packet buffers, rings of the memory unit
    that contexts of all microengines pop and push at once.  [ring0] is the ring number
    of the first list of the first network block and [q_base] the address of its memory,
    symbols that the linker gives. *)
From Stdlib Require Import ZArith Lia List String.
From stdpp Require Import base list numbers option strings relations.
From S2P Require Import Prelude Me MemRing Conc.
#[local] Open Scope Z_scope.

Module Blm.

Section Library.
Context (ring0 q_base : Z).

Definition blm_buf_handle2ptr (bh : Z) : Z := u64 (bh ≪ 11).
Definition blm_buf_ptr2handle (bp : Z) : Z := u32 (u64 bp ≫ 11).

Definition ring_of (blq : carg) : carg := rt (add32 (cval blq) ring0).
Definition size_of (count : carg) : carg := CArg (shl32 (cval count) 2) (is_ct count).

(** The handles and 0, or -1 when the list has too few. *)
Definition __blm_buf_alloc_bulk (count blq : carg) (sync : sync_t) : prog (list Z * Z) :=
  _ ← try_ctassert (is_ct blq) (cval blq <=? 3);
  _ ← try_ctassert (is_ct count) (cval count <=? 16);
  let raddr_hi := MemRing.mem_ring_get_addr q_base in
  if bool_decide (sync = sig_done) then
    r ← MemRing.__mem_ring_pop (ring_of blq) raddr_hi (size_of count) (ct 64) sync;
    Ret (r_words r, 0)
  else
    r ← MemRing.__mem_ring_pop (ring_of blq) raddr_hi (size_of count) (ct 64) sig_done;
    MemRing.wait_pair r.

Definition __blm_buf_alloc (blq : carg) (sync : sync_t) : prog (list Z * Z) :=
  __blm_buf_alloc_bulk (ct 1) blq sync.
Definition blm_buf_alloc_bulk (count blq : carg) : prog (list Z * Z) :=
  __blm_buf_alloc_bulk count blq ctx_swap.
Definition blm_buf_alloc (blq : carg) : prog (list Z * Z) := blm_buf_alloc_bulk (ct 1) blq.

Definition blm_buf_free (buf : Z) (blq : carg) : prog unit :=
  _ ← try_ctassert (is_ct blq) (cval blq <=? 3);
  MemRing.mem_ring_journal_fast (ring_of blq) (MemRing.mem_ring_get_addr q_base) buf.

Definition __blm_buf_free_bulk (bufs : list Z) (count blq : carg) (sync : sync_t) : prog unit :=
  _ ← try_ctassert (is_ct blq) (cval blq <=? 3);
  _ ← try_ctassert (is_ct count) (cval count <=? 16);
  _ ← MemRing.__mem_ring_journal (ring_of blq) (MemRing.mem_ring_get_addr q_base) bufs
        (size_of count) (ct 64) sync;
  Ret tt.

Definition blm_buf_free_bulk (bufs : list Z) (count blq : carg) : prog unit :=
  __blm_buf_free_bulk bufs count blq ctx_swap.

(** A handle and the address of its buffer. *)
Lemma handle_ptr bh : in_word 29 bh -> blm_buf_ptr2handle (blm_buf_handle2ptr bh) = bh.
Proof.
  intros Hb. unfold blm_buf_ptr2handle, blm_buf_handle2ptr. unfold in_word in *.
  rewrite Z.shiftl_mul_pow2 by lia. rewrite (wrap_id 64 (bh * 2 ^ 11)), (wrap_id 64 (bh * 2 ^ 11)) by (unfold in_word; lia).
  rewrite Z.shiftr_div_pow2, Z.div_mul by lia. apply wrap_id. unfold in_word. lia.
Qed.

(** ** The rings *)

Inductive blm_op := Pop (b n : Z) | Push (b : Z) (bufs : list Z) | Quiet | Foreign.

Definition list_of (rnum : Z) : option Z :=
  let b := rnum - ring0 in if (0 <=? b) && (b <=? 3) then Some b else None.

Definition blm_kind (e : event) : blm_op :=
  match e with
  | ECmd c =>
      if negb (bool_decide (c_tgt c = T_mem) && (c_hi c =? MemRing.mem_ring_get_addr q_base)) then Foreign
      else if bool_decide (c_op c = "pop"%string) then
        match list_of (c_lo c), cmd_count c with Some b, Some n => Pop b n | _, _ => Foreign end
      else if bool_decide (c_op c = "journal"%string) then
        match list_of (c_lo c), cmd_count c with
        | Some b, Some n => if n =? Z.of_nat (length (c_data c)) then Push b (c_data c) else Foreign
        | _, _ => Foreign
        end
      else if bool_decide (c_op c = "fast_journal"%string) then
        match option_map prev_data16 (c_prev c) with
        | Some rnum => match list_of rnum with Some b => Push b [c_lo c] | None => Foreign end
        | None => Foreign
        end
      else Foreign
  | _ => Quiet
  end.

(** The free lists: a pop takes handles out when there are enough and else signals an
    error; a push below the capacity adds them. *)
Class BlmHw {St : Type} (h : St -> event -> reply * St) (cap : nat) (free : St -> Z -> list Z) : Prop := {
  hw_pop : forall s e b n, blm_kind e = Pop b n -> 1 <= n ->
    (forall b', b' <> b -> free (snd (h s e)) b' = free s b') /\
    if r_odd (fst (h s e)) then free (snd (h s e)) b = free s b
    else Z.of_nat (length (r_words (fst (h s e)))) = n /\
         Permutation (r_words (fst (h s e)) ++ free (snd (h s e)) b) (free s b);
  hw_pop_enough : forall s e b n, blm_kind e = Pop b n -> n <= Z.of_nat (length (free s b)) ->
    r_odd (fst (h s e)) = false;
  hw_push : forall s e b bufs, blm_kind e = Push b bufs ->
    (length bufs + length (free s b) <= cap)%nat ->
    (forall b', b' <> b -> free (snd (h s e)) b' = free s b') /\
    Permutation (free (snd (h s e)) b) (bufs ++ free s b);
  hw_quiet : forall s e, blm_kind e = Quiet -> forall b, free (snd (h s e)) b = free s b }.

(** ** A context and the buffers it holds *)

Fixpoint holds {A} (p : prog A) (Q : A -> list Z -> Prop) (held : list Z) : Prop :=
  match p with
  | Ret a => Q a held
  | Stop f => False
  | Vis e k =>
      match blm_kind e with
      | Pop b n => 0 <= b <= 3 /\ 1 <= n /\ forall r,
          (r_odd r = false -> Z.of_nat (length (r_words r)) = n) ->
          holds (k r) Q (if r_odd r then held else r_words r ++ held)
      | Push b bufs => 0 <= b <= 3 /\ exists rest, Permutation held (bufs ++ rest) /\
          forall r, holds (k r) Q rest
      | Quiet => forall r, holds (k r) Q held
      | Foreign => False
      end
  end.

Lemma holds_bind {A B} (p : prog A) (f : A -> prog B) Q Q' held :
  holds p Q held -> (forall a held', Q a held' -> holds (f a) Q' held') -> holds (bind p f) Q' held.
Proof.
  intros Hp Hf. revert held Hp. induction p as [a|x|e k IH]; cbn; intros held; [by apply Hf|done|].
  destruct (blm_kind e); [| | |done].
  - intros (Hb & Hn & Hk). eauto.
  - intros (Hb & rest & Hperm & Hk). eauto 6.
  - eauto.
Qed.

Context (Hring : 0 <= ring0 /\ ring0 + 3 < 1024).

Definition count_ok (count : carg) : Prop := 1 <= cval count <= 16.
Definition blq_ok (blq : carg) : Prop := 0 <= cval blq <= 3.

Lemma ring_val blq : blq_ok blq -> cval (ring_of blq) = cval blq + ring0.
Proof. unfold blq_ok. intros. cbn. unfold add32. apply wrap_id. unfold in_word. lia. Qed.

Lemma list_of_ring blq : blq_ok blq -> list_of (cval blq + ring0) = Some (cval blq).
Proof.
  unfold blq_ok, list_of. intros. replace (cval blq + ring0 - ring0) with (cval blq) by lia.
  destruct (Z.leb_spec 0 (cval blq)), (Z.leb_spec (cval blq) 3); lia || done.
Qed.

Lemma size_count count : count_ok count -> cval (size_of count) = 4 * cval count /\ cval (size_of count) ≫ 2 = cval count.
Proof.
  unfold count_ok. intros. cbn. unfold shl32. rewrite Z.shiftl_mul_pow2 by lia.
  rewrite wrap_id by (unfold in_word; lia). split; [lia|].
  rewrite Z.shiftr_div_pow2 by lia. apply Z.div_mul. lia.
Qed.

(** The command of a ring operation of [count] words. *)
Definition is_ring_cmd (op : string) (data : list Z) (blq count : carg) (c : cmd) : Prop :=
  c_tgt c = T_mem /\ c_op c = op /\ c_data c = data /\ c_hi c = MemRing.mem_ring_get_addr q_base /\
  c_lo c = cval blq + ring0 /\ cmd_count c = Some (cval count).

Lemma count_checks count : count_ok count ->
  negb (4 * cval count =? 0) = true /\ is_aligned (4 * cval count) 4 = true /\ (4 * cval count <=? 16 * 4) = true.
Proof.
  unfold count_ok, is_aligned. intros. replace (4 * cval count) with (cval count * 4) by lia.
  rewrite Z.mod_mul by lia. destruct (Z.eqb_spec (cval count * 4) 0), (Z.leb_spec (cval count * 4) (16 * 4)); lia || done.
Qed.

Lemma ring_prefix {A} k b (p : prog A) : b = true -> (_ ← try_ctassert k b; p) = p.
Proof. intros ->. by destruct k. Qed.

(** The rest of both command macros: the count in the instruction or over it. *)
Lemma ring_cmd_count op data blq count sync : blq_ok blq -> count_ok count ->
  exists c, is_ring_cmd op data blq count c /\
    (if is_ct count then
       if 4 * cval count <=? 8 * 4
       then MemRing.ring_cmd op data (cval blq + ring0) (MemRing.mem_ring_get_addr q_base) (cval count) sync None
       else MemRing.ring_cmd op data (cval blq + ring0) (MemRing.mem_ring_get_addr q_base) (cval count) sync
              (Some (ind_len (sub32 (cval count) 1)))
     else
       max_count ← ct_const_val (ct 64) (64 ≫ 2);
       MemRing.ring_cmd op data (cval blq + ring0) (MemRing.mem_ring_get_addr q_base) max_count sync
         (Some (ind_len (sub32 (cval count) 1)))) = trigger (ECmd c).
Proof.
  intros Hb Hc. unfold count_ok in Hc.
  assert (Hind : forall n, is_ring_cmd op data blq count
    (Cmd T_mem op data (MemRing.mem_ring_get_addr q_base) true (cval blq + ring0) (Some n) (Some sync)
      (Some (ind_len (sub32 (cval count) 1))))).
  { intros n. unfold is_ring_cmd. split_ands; try done. apply ind_len_count; [lia|done]. }
  destruct (is_ct count).
  - destruct (4 * cval count <=? 8 * 4); eexists; (split; [|reflexivity]); [by unfold is_ring_cmd|apply Hind].
  - eexists. split; [|reflexivity]. apply Hind.
Qed.

Lemma ring_cmd_sigpair op data blq count : blq_ok blq -> count_ok count ->
  exists c, is_ring_cmd op data blq count c /\
    MemRing.MEM_RING_CMD_SIGPAIR op data (ring_of blq) (MemRing.mem_ring_get_addr q_base)
      (size_of count) (ct 64) sig_done = trigger (ECmd c).
Proof.
  intros Hb Hc. destruct (size_count count Hc) as [E1 E2]. destruct (count_checks count Hc) as (C1 & C2 & C3).
  destruct (ring_cmd_count op data blq count sig_done Hb Hc) as (c & Hcmd & E). exists c. split; [done|].
  rewrite <- E. unfold MemRing.MEM_RING_CMD_SIGPAIR. rewrite E2, E1, ring_val by done.
  rewrite !ring_prefix by (done || (apply Z.ltb_lt; unfold blq_ok in *; lia)). done.
Qed.

Lemma ring_cmd_sig op data blq count sync : blq_ok blq -> count_ok count ->
  exists c, is_ring_cmd op data blq count c /\
    MemRing.MEM_RING_CMD_SIG op data (ring_of blq) (MemRing.mem_ring_get_addr q_base)
      (size_of count) (ct 64) sync = trigger (ECmd c).
Proof.
  intros Hb Hc. destruct (size_count count Hc) as [E1 E2]. destruct (count_checks count Hc) as (C1 & C2 & C3).
  destruct (ring_cmd_count op data blq count sync Hb Hc) as (c & Hcmd & E). exists c. split; [done|].
  rewrite <- E. unfold MemRing.MEM_RING_CMD_SIG. rewrite E2, E1, ring_val by done.
  rewrite !ring_prefix by (done || (apply Z.ltb_lt; unfold blq_ok in *; lia)). done.
Qed.

Lemma kind_pop blq count c : blq_ok blq -> is_ring_cmd "pop" [] blq count c ->
  blm_kind (ECmd c) = Pop (cval blq) (cval count).
Proof.
  intros Hb (E1 & E2 & E3 & E4 & E5 & E6). unfold blm_kind. rewrite E1, E2, E4, E5, E6, Z.eqb_refl.
  cbn. by rewrite list_of_ring.
Qed.

Lemma kind_push blq count bufs c : blq_ok blq -> cval count = Z.of_nat (length bufs) ->
  is_ring_cmd "journal" bufs blq count c -> blm_kind (ECmd c) = Push (cval blq) bufs.
Proof.
  intros Hb Hn (E1 & E2 & E3 & E4 & E5 & E6). unfold blm_kind. rewrite E1, E2, E3, E4, E5, E6, Z.eqb_refl.
  cbn. by rewrite list_of_ring, Hn, Z.eqb_refl by done.
Qed.

Lemma check_le k x n : x <= n -> try_ctassert k (x <=? n) = Ret tt.
Proof. intros. destruct (Z.leb_spec x n); [by destruct k|lia]. Qed.

(** An allocation: all buffers asked for, or none and -1. *)
Lemma holds_alloc count blq held : blq_ok blq -> count_ok count ->
  holds (blm_buf_alloc_bulk count blq)
    (fun res held' => if res.2 =? 0 then Z.of_nat (length res.1) = cval count /\ held' = res.1 ++ held
                      else res.2 = -1 /\ held' = held) held.
Proof.
  intros Hb Hc. unfold blm_buf_alloc_bulk, __blm_buf_alloc_bulk.
  rewrite !check_le by (unfold blq_ok, count_ok in *; lia).
  destruct (ring_cmd_sigpair "pop" [] blq count Hb Hc) as (c & Hcmd & E).
  unfold MemRing.__mem_ring_pop. cbn -[blm_kind MemRing.MEM_RING_CMD_SIGPAIR ring_of size_of]. rewrite E.
  rewrite bool_decide_eq_false_2 by done. cbn -[blm_kind]. rewrite (kind_pop blq count) by done. unfold count_ok in Hc. split; [done|]. split; [lia|].
  intros r Hr. cbn -[blm_kind]. intros _. destruct (r_odd r); cbn; auto.
Qed.

Lemma holds_free buf blq held rest : blq_ok blq -> Permutation held (buf :: rest) ->
  holds (blm_buf_free buf blq) (fun _ held' => held' = rest) held.
Proof.
  intros Hb Hp. unfold blm_buf_free, MemRing.mem_ring_journal_fast.
  rewrite !check_le by (unfold blq_ok in *; lia).
  change (is_ct (ring_of blq)) with false.
  cbn -[blm_kind MemRing.ind_rnum cval ring_of MemRing.mem_ring_get_addr]. rewrite ring_val by done.
  assert (E : blm_kind (ECmd (Cmd T_mem "fast_journal" [] (MemRing.mem_ring_get_addr q_base) true buf None None
    (Some (MemRing.ind_rnum (cval blq + ring0))))) = Push (cval blq) [buf]).
  { unfold blm_kind. cbn -[prev_data16 MemRing.ind_rnum MemRing.mem_ring_get_addr]. rewrite Z.eqb_refl.
    cbn -[prev_data16 MemRing.ind_rnum]. unfold blq_ok in Hb.
    destruct (MemRing.prev_rnum (cval blq + ring0)) as [-> _]; [lia|]. by rewrite list_of_ring. }
  rewrite E. split; [done|]. by exists rest.
Qed.

Lemma holds_free_bulk bufs count blq held rest : blq_ok blq -> count_ok count ->
  cval count = Z.of_nat (length bufs) -> Permutation held (bufs ++ rest) ->
  holds (blm_buf_free_bulk bufs count blq) (fun _ held' => held' = rest) held.
Proof.
  intros Hb Hc Hn Hp. unfold blm_buf_free_bulk, __blm_buf_free_bulk.
  rewrite !check_le by (unfold blq_ok, count_ok in *; lia).
  destruct (ring_cmd_sig "journal" bufs blq count ctx_swap Hb Hc) as (c & Hcmd & E).
  unfold MemRing.__mem_ring_journal. cbn -[blm_kind MemRing.MEM_RING_CMD_SIG ring_of size_of]. rewrite E.
  cbn -[blm_kind]. rewrite (kind_push blq count bufs) by done. split; [done|]. by exists rest.
Qed.

(** ** Contexts at work *)

(** What a context does with buffers: the ones it holds are a stack. *)
Inductive buf_use := UAlloc (count blq : carg) | UAlloc1 (blq : carg) | UFree (blq : carg) | UFreeBulk (count blq : carg).

Definition use_buf (u : buf_use) (held : list Z) : prog (list Z) :=
  match u with
  | UAlloc count blq => res ← blm_buf_alloc_bulk count blq; Ret (if res.2 =? 0 then res.1 ++ held else held)
  | UAlloc1 blq => res ← blm_buf_alloc blq; Ret (if res.2 =? 0 then res.1 ++ held else held)
  | UFree blq => match held with [] => Ret [] | b :: held => _ ← blm_buf_free b blq; Ret held end
  | UFreeBulk count blq =>
      let n := Z.to_nat (cval count) in
      if (n <=? length held)%nat then _ ← blm_buf_free_bulk (take n held) count blq; Ret (drop n held)
      else Ret held
  end.

Definition use_ok (u : buf_use) : Prop :=
  match u with
  | UAlloc count blq | UFreeBulk count blq => count_ok count /\ blq_ok blq
  | UAlloc1 blq | UFree blq => blq_ok blq
  end.

Fixpoint free_all (held : list Z) : prog unit :=
  match held with [] => Ret tt | b :: held => _ ← blm_buf_free b (ct 0); free_all held end.

(** A context frees what it still holds at the end. *)
Fixpoint buf_user (us : list buf_use) (held : list Z) : prog unit :=
  match us with
  | [] => free_all held
  | u :: us => held ← use_buf u held; buf_user us held
  end.

Definition in_role (held : list Z) (p : prog unit) : Prop := holds p (fun _ held' => held' = []) held.

Lemma holds_mono {A} (p : prog A) (Q Q' : A -> list Z -> Prop) held :
  holds p Q held -> (forall a h, Q a h -> Q' a h) -> holds p Q' held.
Proof.
  intros Hp HQ. revert held Hp. induction p as [a|x|e k IH]; cbn; intros held; [by apply HQ|done|].
  destruct (blm_kind e); [| | |done].
  - intros (Hb & Hn & Hk). eauto.
  - intros (Hb & rest & Hperm & Hk). eauto 6.
  - eauto.
Qed.

Lemma holds_use u held : use_ok u -> holds (use_buf u held) eq held.
Proof.
  destruct u as [count blq|blq|blq|count blq]; cbn [use_ok use_buf].
  - intros [Hc Hb]. eapply holds_bind; [by apply holds_alloc|]. intros [ws r] held'. cbn [fst snd].
    destruct (r =? 0); [by intros [_ ->]|by intros [_ ->]].
  - intros Hb. eapply holds_bind; [by apply (holds_alloc (ct 1))|]. intros [ws r] held'. cbn [fst snd].
    destruct (r =? 0); [by intros [_ ->]|by intros [_ ->]].
  - intros Hb. destruct held as [|b held]; [done|].
    eapply holds_bind; [by apply (holds_free b blq _ held)|]. by intros _ held' ->.
  - intros [Hc Hb]. destruct (Nat.leb_spec (Z.to_nat (cval count)) (length held)) as [Hl|]; [|done].
    unfold count_ok in Hc. eapply holds_bind.
    + apply (holds_free_bulk _ _ _ _ (drop (Z.to_nat (cval count)) held)); [done..| |].
      * rewrite length_take. lia.
      * by rewrite take_drop.
    + by intros _ held' ->.
Qed.

Lemma holds_free_all held : in_role held (free_all held).
Proof.
  induction held as [|b held IH]; [done|]. cbn [free_all].
  eapply holds_bind; [apply (holds_free b (ct 0) _ held); done|]. by intros _ held' ->.
Qed.

Lemma holds_user us held : Forall use_ok us -> in_role held (buf_user us held).
Proof.
  intros Hu. revert held. induction Hu as [|u us Hu _ IH]; intros held; [apply holds_free_all|].
  cbn [buf_user]. eapply holds_bind; [by apply holds_use|]. intros a held' <-. apply IH.
Qed.

(** ** No buffer is lost or given out twice *)

(** The free buffers of the four lists. *)
Definition all_free (free : Z -> list Z) : list Z := concat (map free [0; 1; 2; 3]).

Lemma lists_change (f f' : Z -> list Z) L b ws : NoDup L -> b ∈ L ->
  (forall b', b' <> b -> f' b' = f b') -> Permutation (f b) (ws ++ f' b) ->
  Permutation (concat (map f L)) (ws ++ concat (map f' L)).
Proof.
  intros HL Hin Hother Hp. induction HL as [|x L Hx HL IH]; [by apply elem_of_nil in Hin|].
  cbn. destruct (decide (x = b)) as [->|Hne].
  - rewrite Hp, <- app_assoc. apply Permutation_app_head, Permutation_app_head.
    assert (E : map f L = map f' L); [|by rewrite E].
    apply map_ext_in. intros y Hy. symmetry. apply Hother. intros ->. apply Hx. by apply list_elem_of_In.
  - apply elem_of_cons in Hin as [->|Hin]; [done|]. rewrite (IH Hin), (Hother x) by done.
    by rewrite Permutation_app_swap_app.
Qed.

Lemma free_change (f f' : Z -> list Z) b ws : 0 <= b <= 3 ->
  (forall b', b' <> b -> f' b' = f b') -> Permutation (f b) (ws ++ f' b) ->
  Permutation (all_free f) (ws ++ all_free f').
Proof.
  intros Hb. apply lists_change.
  - by apply (bool_decide_unpack _); vm_compute.
  - rewrite !elem_of_cons. lia.
Qed.

Lemma free_length (f : Z -> list Z) b : 0 <= b <= 3 -> (length (f b) <= length (all_free f))%nat.
Proof.
  intros Hb. unfold all_free. cbn. rewrite !length_app.
  assert (b = 0 \/ b = 1 \/ b = 2 \/ b = 3) as [->|[->|[->| ->]]] by lia; lia.
Qed.

Section Hardware.
Context {St : Type} (h : St -> event -> reply * St) (cap : nat) (free : St -> Z -> list Z).
Context `{!BlmHw h cap free} (total : list Z) (Hcap : (length total <= cap)%nat).

Definition ledger (s : St) (gs : list (list Z)) : Prop := Permutation (concat gs ++ all_free (free s)) total.

Lemma concat_middle (l1 : list (list Z)) g l2 : Permutation (concat (l1 ++ g :: l2)) (g ++ concat (l1 ++ l2)).
Proof. rewrite !concat_app. cbn. by rewrite Permutation_app_swap_app. Qed.

Lemma blm_step s l1 g l2 e k : ledger s (l1 ++ g :: l2) -> in_role g (Vis e k) ->
  exists g', in_role g' (k (fst (h s e))) /\ ledger (snd (h s e)) (l1 ++ g' :: l2).
Proof.
  unfold ledger, in_role. rewrite concat_middle. cbn [holds]. intros Hl Hr.
  destruct (blm_kind e) as [b n|b bufs| |] eqn:Ek; [| | |done].
  - destruct Hr as (Hb & Hn & Hk). destruct (hw_pop s e b n Ek Hn) as [Hother Hpop].
    eexists. split; [apply Hk|].
    + destruct (r_odd _); [done|]. by destruct Hpop.
    + rewrite concat_middle, <- Hl. destruct (r_odd (fst (h s e))).
      * rewrite (free_change (free s) (free (snd (h s e))) b []) by (done || by rewrite Hpop). done.
      * destruct Hpop as [_ Hpop]. rewrite (free_change (free s) (free (snd (h s e))) b (r_words (fst (h s e)))) by done.
        rewrite <- !app_assoc. rewrite (Permutation_app_swap_app (r_words _) g). apply Permutation_app_head.
        by rewrite Permutation_app_swap_app.
  - destruct Hr as (Hb & rest & Hg & Hk).
    destruct (hw_push s e b bufs Ek) as [Hother Hpush].
    { apply Permutation_length in Hl as Hlen. apply Permutation_length in Hg as Hlen'.
      rewrite !length_app in *. pose proof (free_length (free s) b Hb). lia. }
    exists rest. split; [apply Hk|]. rewrite concat_middle, <- Hl, Hg.
    rewrite (free_change (free (snd (h s e))) (free s) b bufs) by (done || (intros; symmetry; by apply Hother)).
    rewrite <- !app_assoc. rewrite (Permutation_app_swap_app bufs rest). apply Permutation_app_head.
    by rewrite Permutation_app_swap_app.
  - exists g. split; [apply Hr|]. rewrite concat_middle, <- Hl.
    rewrite (free_change (free s) (free (snd (h s e))) 0 []); [done|done| |]; intros; by rewrite (hw_quiet s e Ek).
Qed.
End Hardware.

Definition blm_pool {St} (s : St) (users : list (list buf_use)) : pool St :=
  Pool s (map (fun us => buf_user us []) users).

(** C24: The buffer lists lose no buffer and give none out twice. However contexts
    that allocate buffers, singly or in bulk, from the four lists and free them to
    any list interleave, the buffers the contexts hold and the free ones are
    always those there were at the start, each once; a context frees only what it
    holds; and when all have finished, all buffers are free again. *)
Theorem blm_conserved {St} (h : St -> event -> reply * St) cap free st users p :
  BlmHw h cap free -> (length (all_free (free st)) <= cap)%nat -> Forall (Forall use_ok) users ->
  pool_reach h (blm_pool st users) p ->
  exists gs, Forall2 in_role gs (p_threads p) /\
    Permutation (concat gs ++ all_free (free (p_hw p))) (all_free (free st)) /\
    (Forall (eq (Ret tt)) (p_threads p) -> Permutation (all_free (free (p_hw p))) (all_free (free st))).
Proof.
  intros Hh Hcap Hu Hr.
  destruct (pool_invariant h in_role _ (fun s l1 g l2 e k => blm_step h cap free _ Hcap s l1 g l2 e k) _ _ Hr)
    as (gs & Hl & Hg).
  { exists (map (fun _ => []) users). split; cbn.
    - unfold ledger. by replace (concat (map (fun _ => []) users)) with ([] : list Z) by (clear; induction users; by cbn).
    - clear Hr. induction Hu; constructor; [by apply holds_user|done]. }
  exists gs. split; [done|]. split; [exact Hl|]. intros Hfin.
  assert (E : concat gs = []); [|unfold ledger in Hl; by rewrite E in Hl].
  clear - Hg Hfin. induction Hg as [|g t gs ts Hgt _ IH]; [done|].
  apply Forall_cons in Hfin as [<- Hfin]. cbn in Hgt. subst g. by apply IH.
Qed.

(** ** A memory unit *)

Definition blm_mem (cap : nat) (s : Z -> list Z) (e : event) : reply * (Z -> list Z) :=
  let upd b l := fun b' => if b' =? b then l else s b' in
  match blm_kind e with
  | Pop b n => if n <=? Z.of_nat (length (s b)) then
                 (Reply (take (Z.to_nat n) (s b)) false, upd b (drop (Z.to_nat n) (s b)))
               else (Reply [] true, s)
  | Push b bufs => if (length bufs + length (s b) <=? cap)%nat then (Reply [] false, upd b (bufs ++ s b))
                   else (Reply [] false, s)
  | _ => (Reply [] false, s)
  end.

End Library.

#[export] Instance blm_mem_ok ring0 q_base cap : BlmHw ring0 q_base (blm_mem ring0 q_base cap) cap id.
Proof.
  split.
  - intros s e b n E Hn1. unfold blm_mem. rewrite E. destruct (Z.leb_spec n (Z.of_nat (length (s b)))); cbn; [|done].
    rewrite Z.eqb_refl. split.
    + intros b' Hne. by destruct (Z.eqb_spec b' b).
    + rewrite length_take, take_drop. split; [lia|done].
  - intros s e b n E Hn. unfold blm_mem. rewrite E. by destruct (Z.leb_spec n (Z.of_nat (length (s b)))); [|cbn in *; lia].
  - intros s e b bufs E Hn. unfold blm_mem. rewrite E. cbn in *.
    destruct (Nat.leb_spec (length bufs + length (s b)) cap); [|lia]. cbn. rewrite Z.eqb_refl.
    split; [|done]. intros b' Hne. by destruct (Z.eqb_spec b' b).
  - intros s e E b. unfold blm_mem. by rewrite E.
Qed.

(** Three contexts over 20 buffers; the second asks for more than are left. *)
Definition three_lists (b : Z) : list Z :=
  if b =? 0 then map Z.of_nat (seq 100 16) else if b =? 2 then [7; 8; 9; 10] else [].
Definition three_users : list (list buf_use) :=
  [ [UAlloc (rt 4) (ct 0); UAlloc1 (ct 2); UFree (rt 0); UFreeBulk (rt 4) (ct 1)];
    [UAlloc (ct 16) (ct 0); UAlloc (ct 9) (rt 0); UFreeBulk (ct 9) (ct 3); UAlloc1 (ct 1)];
    [UAlloc1 (ct 3); UAlloc (ct 4) (ct 2); UFree (rt 3)] ].

Lemma blm_conserved_witness :
  let p := run (blm_mem 8 0x9800000000 20) (concat (replicate 30 [0; 1; 2; 1]%nat))
             (blm_pool 8 0x9800000000 three_lists three_users) in
  Forall (eq (Ret tt)) (p_threads p) /\ length (all_free (p_hw p)) = 20%nat /\
  Permutation (all_free (p_hw p)) (all_free three_lists).
Proof.
  intros p. assert (Hf : Forall (eq (Ret tt)) (p_threads p)) by (vm_compute; repeat constructor).
  split; [exact Hf|]. split; [by vm_compute|].
  destruct (blm_conserved 8 0x9800000000 ltac:(lia) (blm_mem 8 0x9800000000 20) 20 id three_lists three_users p)
    as (gs & _ & _ & H).
  - apply _.
  - vm_compute. lia.
  - repeat constructor; by vm_compute.
  - apply run_reach.
  - by apply H.
Defined.

End Blm.
