(* ===== verification/Ctm.v ===== *)
(** lib/nfp/_c/ctm.c: rings in cluster target memory, set up through its XPB registers. *)
From Stdlib Require Import ZArith Lia List String.
From stdpp Require Import base list numbers option strings.
From S2P Require Import Prelude Me MemRing.
#[local] Open Scope Z_scope.

Module Ctm.

(** nfp_ctm.h *)
Definition NFP_CTM_MISC_XPB_OFF : Z := 0x80000.
Definition NFP_CTM_RING_BASE (x : Z) : Z := 0x0100 + x * 0x10.
Definition NFP_CTM_RING_HEAD (x : Z) : Z := 0x0104 + x * 0x10.
Definition NFP_CTM_RING_TAIL (x : Z) : Z := 0x0108 + x * 0x10.
Definition NFP_CTM_RING_BASE_STATUS_TYPE_Empty : Z := 0.
Definition NFP_CTM_RING_BASE_BASE_shf : Z := 9.
(** struct nfp_ctm_ring_base *)
Definition nfp_ctm_ring_base (size status_type base : Z) : Z :=
  (wrap 3 size ≪ 29) .| (wrap 1 status_type ≪ 28) .| (wrap 9 base ≪ 9).
Definition SZ_16K : Z := 16384.

Definition ct_cmd (op : string) (data : list Z) (addr r : Z) (ind : option Z) : cmd :=
  Cmd T_ct op data addr false 0 (Some r) (Some sig_done) ind.

Definition ring_base_of (base size : Z) : Z :=
  nfp_ctm_ring_base (Z.log2 (size / 4) - 7) NFP_CTM_RING_BASE_STATUS_TYPE_Empty
    ((u32 base .& not32 (size - 1)) ≫ NFP_CTM_RING_BASE_BASE_shf).

Definition ctm_ring_setup (rnum : carg) (base : Z) (size : carg) : prog unit :=
  let entries := cval size / 4 in
  _ ← try_ctassert (is_ct rnum) (cval rnum <? 16);
  _ ← ctassert (is_ct size);
  _ ← ctassert (MemRing.is_log2 (cval size));
  _ ← ctassert ((128 <=? entries) && (entries <=? SZ_16K));
  _ ← issue (ct_cmd "xpb_write" [ring_base_of base (cval size)]
        (NFP_CTM_MISC_XPB_OFF + NFP_CTM_RING_BASE (cval rnum)) 1 None);
  _ ← issue (ct_cmd "xpb_write" [0] (NFP_CTM_MISC_XPB_OFF + NFP_CTM_RING_HEAD (cval rnum)) 1 None);
  let xpb_addr := NFP_CTM_MISC_XPB_OFF + NFP_CTM_RING_TAIL (cval rnum) in
  _ ← issue (ct_cmd "xpb_write" [0] xpb_addr 1 None);
  _ ← issue (ct_cmd "xpb_read" [] xpb_addr 1 None);
  Vis (EArb A_wait) (fun _ => Ret tt).

Definition ring_op (op : string) (data : list Z) (isl : Z) (rnum size : carg) (sync : sync_t)
    : prog (list Z) :=
  let count := cval size / 4 in
  let ring_addr := shl32 isl 24 .| shl32 (cval rnum) 2 in
  _ ← ctassert (cval rnum <? 16);
  _ ← ctassert (is_ct size);
  _ ← ctassert (is_aligned (cval size) 4);
  _ ← ctassert (cval size <=? 16 * 4);
  ws ← (if cval size <=? 8 * 4 then issue (ct_cmd op data ring_addr count None)
        else issue (ct_cmd op data ring_addr count (Some (ind_len (sub32 count 1)))));
  if bool_decide (sync = ctx_swap) then Vis (EArb A_wait) (fun _ => Ret ws) else Ret ws.

Definition ctm_ring_get (isl : Z) (rnum size : carg) (sync : sync_t) : prog (list Z) :=
  ring_op "ring_get" [] isl rnum size sync.
Definition ctm_ring_put (isl : Z) (rnum : carg) (data : list Z) (size : carg) (sync : sync_t) : prog unit :=
  _ ← ring_op "ring_put" data isl rnum size sync; Ret tt.

Lemma align_down base k : 0 <= k <= 32 -> in_word 32 base ->
  base .& not32 (Z.ones k) = base / 2 ^ k * 2 ^ k.
Proof.
  intros Hk Hb. rewrite <- Z.shiftr_div_pow2, <- Z.shiftl_mul_pow2 by lia. apply Z.bits_inj'. intros i Hi.
  assert (Ho : in_word 32 (Z.ones k)).
  { rewrite Z.ones_equiv. assert (0 < 2 ^ k) by (apply Z.pow_pos_nonneg; lia).
    assert (2 ^ k <= 2 ^ 32) by (apply Z.pow_le_mono_r; lia). unfold in_word. lia. }
  rewrite Z.land_spec, not32_testbit, testbit_ones, testbit_shiftl by (done || lia).
  destruct (Z.leb_spec k i).
  - rewrite testbit_shiftr by lia. replace (i - k + k) with i by lia.
    destruct (Z.ltb_spec i k), (Z.ltb_spec i 32); try lia; cbn; [by rewrite andb_true_r|].
    by rewrite (testbit_high 32 base) by (done || lia).
  - destruct (Z.ltb_spec i k); [|lia]. cbn. by rewrite !andb_false_r.
Qed.

(** The base register of a ring of [2^k] bytes: the logarithm of its entries and the
    base rounded down to its size. *)
Lemma ctm_ring_base_fields base k : 9 <= k <= 16 -> in_word 18 base ->
  let w := ring_base_of base (2 ^ k) in
  2 ^ (field 29 3 w + 7) * 4 = 2 ^ k /\ field 28 1 w = 0 /\ field 9 9 w * 2 ^ 9 = base - base mod 2 ^ k.
Proof.
  intros Hk Hb. unfold in_word in Hb.
  assert (Hk2 : 2 ^ k = 2 ^ (k - 2) * 4) by (change 4 with (2 ^ 2); rewrite <- Z.pow_add_r by lia; f_equal; lia).
  assert (Hkp : 2 ^ 9 <= 2 ^ k <= 2 ^ 16) by (split; apply Z.pow_le_mono_r; lia).
  set (b := base / 2 ^ k * 2 ^ (k - 9)).
  assert (Hd : base / 2 ^ k * 2 ^ k = b * 2 ^ 9).
  { unfold b. rewrite <- Z.mul_assoc, <- Z.pow_add_r by lia. do 2 f_equal. lia. }
  pose proof (Z.div_mod base (2 ^ k) ltac:(lia)) as Hdm. pose proof (Z.mod_pos_bound base (2 ^ k) ltac:(lia)).
  assert (0 <= base / 2 ^ k) by (apply Z.div_pos; lia).
  assert (Hbr : 0 <= b < 2 ^ 9) by (split; [apply Z.mul_nonneg_nonneg; lia|lia]).
  assert (E : ring_base_of base (2 ^ k) = (k - 9) * 2 ^ 29 + b * 2 ^ 9).
  { unfold ring_base_of. rewrite (wrap_id 32 base) by (unfold in_word; lia).
    rewrite (Z.sub_1_r (2 ^ k)), <- Z.ones_equiv, align_down, Hd by (unfold in_word; lia).
    rewrite Hk2, Z.div_mul, Z.log2_pow2 by lia.
    unfold NFP_CTM_RING_BASE_BASE_shf, nfp_ctm_ring_base, NFP_CTM_RING_BASE_STATUS_TYPE_Empty.
    rewrite Z.shiftr_div_pow2, Z.div_mul by lia.
    rewrite (wrap_id 3), (wrap_id 9) by (unfold in_word; lia).
    change (wrap 1 0 ≪ 28) with 0. rewrite Z.lor_0_r, (Z.shiftl_mul_pow2 b) by lia.
    rewrite lor_shift_add by (unfold in_word; lia). f_equal. f_equal. lia. }
  cbv zeta. rewrite E, !field_eq by lia. split; [|split].
  - replace ((((k - 9) * 2 ^ 29 + b * 2 ^ 9) / 2 ^ 29) mod 2 ^ 3) with (k - 9) by (Z.div_mod_to_equations; lia).
    rewrite Hk2. do 2 f_equal. lia.
  - Z.div_mod_to_equations. lia.
  - replace ((((k - 9) * 2 ^ 29 + b * 2 ^ 9) / 2 ^ 9) mod 2 ^ 9) with b by (Z.div_mod_to_equations; lia). lia.
Qed.

(** Setting up a ring issues three register writes and a read that confirms them. *)
Lemma ctm_ring_setup_trace {St} (h : St -> event -> reply * St) s rnum base k : 9 <= k <= 16 -> cval rnum < 16 ->
  let xpb r := NFP_CTM_MISC_XPB_OFF + r (cval rnum) in
  let o := exec h (ctm_ring_setup rnum base (ct (2 ^ k))) s in
  o_res o = inl tt /\
  o_trace o = [ECmd (ct_cmd "xpb_write" [ring_base_of base (2 ^ k)] (xpb NFP_CTM_RING_BASE) 1 None);
               ECmd (ct_cmd "xpb_write" [0] (xpb NFP_CTM_RING_HEAD) 1 None);
               ECmd (ct_cmd "xpb_write" [0] (xpb NFP_CTM_RING_TAIL) 1 None);
               ECmd (ct_cmd "xpb_read" [] (xpb NFP_CTM_RING_TAIL) 1 None); EArb A_wait].
Proof.
  intros Hk Hr. unfold ctm_ring_setup, mbind, prog_bind. cbn [cval ct is_ct].
  assert (E : 2 ^ k / 4 = 2 ^ (k - 2)).
  { change 4 with (2 ^ 2). rewrite <- Z.pow_sub_r by lia. done. }
  assert (2 ^ 7 <= 2 ^ (k - 2) <= 2 ^ 14) by (split; apply Z.pow_le_mono_r; lia).
  rewrite E, MemRing.is_log2_pow2 by lia.
  rewrite try_ctassert_true by (apply Z.ltb_lt; done).
  rewrite !ctassert_true by (done || (apply andb_true_iff; unfold SZ_16K; split; apply Z.leb_le; lia)).
  split; reflexivity.
Qed.

End Ctm.
