(* ===== verification/LmemHash.v ===== *)
(** lib/lu/_c/cam_lmem_hash.c: the copy of the hash table for tables in local memory. *)
From Stdlib Require Import ZArith Lia List String.
From stdpp Require Import base list numbers option strings.
From S2P Require Import Prelude Me RegUtils Cls CamHash.
Import CamHash.
#[local] Open Scope Z_scope.

Module LmemHash.

(** The CAM commands are commented out here too. *)
Definition camht_lmem_lookup_idx (hash_tbl : Z) (entries : carg) (hash : camht_hash_t) : prog Z :=
  _ ← entries_asserts entries;
  let b_idx := CAMHT_BUCKET_IDX (primary hash) (cval entries) in
  Ret (s32 (add32 (mul32 b_idx CAMHT_BUCKET_ENTRIES) 1)).

Definition camht_lmem_lookup_idx_add (hash_tbl : Z) (entries : carg) (hash : camht_hash_t)
    : prog (Z * Z) :=
  _ ← entries_asserts entries;
  let b_idx := CAMHT_BUCKET_IDX (primary hash) (cval entries) in
  Ret (s32 (add32 (mul32 b_idx CAMHT_BUCKET_ENTRIES) (1 .& 0x7F)), 1).

(** The functions above are not called: the lookups take the ones of the scratch copy,
    and read the stored key by a scratch command at the local-memory address. *)
Definition camht_lmem_lookup (hash_tbl key_tbl : Z) (entries entry_sz : carg) (key : list Z)
    (key_sz : carg) : prog Z :=
  _ ← entries_asserts entries;
  _ ← key_asserts key_sz entry_sz;
  hash ← camht_hash key key_sz;
  idx ← camht_cls_lookup_idx hash_tbl entries hash;
  if idx <? 0 then Ret (-1)
  else
    let kt := key_tbl + mul32 idx (cval entry_sz) in
    ht_key ← Cls.cls_read kt key_sz;
    eq ← key_eq ht_key key key_sz;
    Ret (if negb (eq =? 0) then idx else -1).

(** A table of keys in local memory, by byte address. *)
Definition store (kt : Z) (words : list Z) (lmem : Z -> Z) : Z -> Z :=
  fun a => if (kt <=? a) && (a <? kt + 4 * Z.of_nat (length words)) && ((a - kt) mod 4 =? 0)
           then nth (Z.to_nat ((a - kt) / 4)) words 0 else lmem a.

(** [memcpy(kt, key, entry_sz)] into the words of local memory; past the key it has no
    defined result. *)
Definition camht_lmem_lookup_add (hash_tbl key_tbl : Z) (entries : carg) (key : list Z)
    (key_sz entry_sz : carg) (added : Z) (lmem : Z -> Z) : prog (Z * Z * (Z -> Z)) :=
  _ ← ctassert (is_ct key_sz);
  _ ← ctassert (is_ct entry_sz);
  _ ← ctassert (cval entry_sz mod 4 =? 0);
  hash ← camht_hash key key_sz;
  r ← camht_cls_lookup_idx_add hash_tbl entries hash added;
  let '(ret, added) := r in
  if ret <? 0 then Ret (ret, added, lmem)
  else if negb (added =? 0) then
    let kt := key_tbl + mul32 ret (cval entry_sz) in
    let n := Z.to_nat (cval entry_sz / 4) in
    if (length key <? n)%nat then Stop Undef
    else Ret (ret, added, store kt (take n key) lmem)
  else Ret (ret, added, lmem).

(** A lookup is the one of the scratch copy: it does not read local memory, so it never
    sees what [camht_lmem_lookup_add] stored. *)
Lemma camht_lmem_lookup_cls hash_tbl key_tbl entries entry_sz key key_sz :
  camht_lmem_lookup hash_tbl key_tbl entries entry_sz key key_sz =
  camht_cls_lookup hash_tbl key_tbl entries entry_sz key key_sz.
Proof. reflexivity. Qed.

(** An addition always reports entry 1 of the bucket as added, and stores the key there,
    over the key of the bucket that was added before. *)
Lemma camht_lmem_add_entry {St} (h : St -> event -> reply * St) s hash_tbl key_tbl n key added lmem ret a lmem' :
  8 <= n < 2 ^ 24 -> n mod 8 = 0 -> length key = 1%nat ->
  (forall hash, o_res (exec h (camht_hash key (ct 4)) s) = inl hash -> 0 <= primary hash) ->
  o_res (exec h (camht_lmem_lookup_add hash_tbl key_tbl (ct n) key (ct 4) (ct 4) added lmem) s) =
    inl (ret, a, lmem') ->
  a = 1 /\ ret mod 8 = 1 /\ 0 <= ret < n /\ lmem' = store (key_tbl + mul32 ret 4) key lmem.
Proof.
  intros Hn H8 Hk Hp. unfold camht_lmem_lookup_add, mbind, prog_bind.
  rewrite !ctassert_true by done. rewrite exec_bind. cbv zeta.
  destruct (o_res (exec h (camht_hash key (ct 4)) s)) as [hash|]; [|done].
  specialize (Hp hash eq_refl).
  destruct (camht_cls_idx_fixed hash_tbl n hash added) as [_ E]; [lia|done|done|]. rewrite E. cbn [bind].
  pose proof (bucket_idx_range (primary hash) n ltac:(lia) Hp) as Hb. set (b := CAMHT_BUCKET_IDX _ _) in *.
  assert (8 * (n / 8) = n) by (Z.div_mod_to_equations; lia).
  destruct (Z.ltb_spec (8 * b + 1) 0); [lia|]. cbn [negb Z.eqb]. cbn [cval ct].
  change (Z.to_nat (4 / 4)) with 1%nat. rewrite Hk. cbn. intros [= <- <- <-].
  split_ands; [done|Z.div_mod_to_equations; lia|lia|lia|]. destruct key as [|x [|]]; done.
Qed.

End LmemHash.
