(* ===== verification/NfpLib.v ===== *)
(** lib/nfplib.h and lib/lmem_lookup.h: what generated programs call.  The copy of a
    buffer, the CAM of a microengine as the index of a table, the flow table in local
    memory, packet buffers, and the start of a stage. *)
From Stdlib Require Import ZArith Lia List String.
From stdpp Require Import base list numbers option strings relations sorting.
From S2P Require Import Prelude Me RegUtils MemBulk MemRing Cls CamHash Pkt Blm Ctm.
#[local] Open Scope Z_scope.

Module NfpLib.

Definition ALIGNED_U64 (x : Z) : bool := (x .& 0x7) =? 0.
Definition ALIGNED_U32 (x : Z) : bool := (x .& 0x3) =? 0.
Definition ALIGNED_U16 (x : Z) : bool := (x .& 0x1) =? 0.

(** ** Copying a buffer *)

(** The bytes at the 32-bit addresses of a microengine. *)
Definition memory : Type := Z -> Z.

(** The assignment through pointers to an integer of [w] bytes. *)
Definition move (w p q : Z) (m : memory) : memory :=
  fun a => if (p <=? a) && (a <? p + w) then m (q + (a - p)) else m a.

Record cursor := Cursor { c_p : Z; c_q : Z; c_n : Z; c_mem : memory }.
Definition advance (w : Z) (c : cursor) : cursor :=
  Cursor (u32 (c_p c + w)) (u32 (c_q c + w)) (c_n c - w) (move w (c_p c) (c_q c) (c_mem c)).

(** [while (n >= w)] *)
Fixpoint block_loop (fuel : nat) (w : Z) (c : cursor) : option cursor :=
  match fuel with
  | O => None
  | S fuel => if c_n c >=? w then block_loop fuel w (advance w c) else Some c
  end.

(** [while (n > 0)] *)
Fixpoint tail_loop (fuel : nat) (c : cursor) : option cursor :=
  match fuel with
  | O => None
  | S fuel =>
      if c_n c >? 0 then
        if (c_n c >? 8) && ALIGNED_U64 (c_p c) && ALIGNED_U64 (c_q c) then tail_loop fuel (advance 8 c)
        else if (c_n c >? 4) && ALIGNED_U32 (c_p c) && ALIGNED_U32 (c_q c) then tail_loop fuel (advance 4 c)
        else tail_loop fuel (advance 1 c)
      else Some c
  end.

Definition bulk_memcpy (fuel : nat) (dest src n : Z) (m : memory) : option memory :=
  let c := Cursor (u32 dest) (u32 src) n m in
  c ← (if ALIGNED_U64 (c_p c) && ALIGNED_U64 (c_q c) then block_loop fuel 8 c else Some c);
  c ← (if ALIGNED_U32 (c_p c) && ALIGNED_U32 (c_q c) then block_loop fuel 4 c else Some c);
  c ← tail_loop fuel c;
  Some (c_mem c).

(** After [k] bytes. *)
Definition copied (p q k : Z) (m0 : memory) (c : cursor) : Prop :=
  c_p c = p + k /\ c_q c = q + k /\ 0 <= k /\
  forall a, c_mem c a = if (p <=? a) && (a <? p + k) then m0 (q + (a - p)) else m0 a.

Section Copy.
Context (p q n : Z) (m0 : memory).
Context (Hp : 0 <= p /\ p + n < 2 ^ 32) (Hq : 0 <= q /\ q + n < 2 ^ 32).
(** The regions are apart, or the destination comes first. *)
Context (Hover : p <= q \/ q + n <= p).

(** [k] bytes are copied and [n - k] are left. *)
Definition progress (k : Z) (c : cursor) : Prop := copied p q k m0 c /\ c_n c = n - k /\ k <= n.

Lemma advance_progress w k c : 1 <= w <= n - k -> progress k c -> progress (k + w) (advance w c).
Proof.
  intros Hw ((E1 & E2 & Hk & Hm) & En & _). split; [|split; cbn; lia]. unfold copied. cbn.
  rewrite E1, E2. split_ands; [rewrite wrap_id by (unfold in_word; lia); lia..|lia|].
  intros a. unfold move. rewrite !Hm.
  repeat match goal with
  | |- context [?x <=? ?y] => destruct (Z.leb_spec x y); try lia
  | |- context [?x <? ?y] => destruct (Z.ltb_spec x y); try lia
  end; cbn; try done; f_equal; lia.
Qed.

Lemma block_progress fuel w k c : 1 <= w -> n - k < Z.of_nat fuel -> progress k c ->
  exists k' c', block_loop fuel w c = Some c' /\ progress k' c' /\ k <= k'.
Proof.
  intros Hw. revert k c. induction fuel as [|fuel IH]; intros k c Hf Hc.
  - destruct Hc as (_ & _ & ?). lia.
  - cbn [block_loop]. rewrite Z.geb_leb. destruct (Z.leb_spec w (c_n c)); [|by exists k, c].
    pose proof Hc as (_ & En & _).
    destruct (IH (k + w) (advance w c)) as (k' & c' & E & Hp' & Hk); [lia|apply advance_progress; [lia|done]|].
    exists k', c'. split; [done|]. split; [done|]. lia.
Qed.

Lemma tail_progress fuel k c : n - k < Z.of_nat fuel -> progress k c ->
  exists c', tail_loop fuel c = Some c' /\ progress n c'.
Proof.
  revert k c. induction fuel as [|fuel IH]; intros k c Hf Hc; pose proof Hc as (_ & En & Hk); [lia|].
  cbn [tail_loop]. rewrite !Z.gtb_ltb. destruct (Z.ltb_spec 0 (c_n c)).
  - destruct (Z.ltb_spec 8 (c_n c)), (Z.ltb_spec 4 (c_n c)); cbn [andb]; try lia;
      repeat case_match; (eapply IH; [|apply advance_progress; [|exact Hc]]; lia).
  - exists c. split; [done|]. by replace n with k by lia.
Qed.
End Copy.

(** C21: bulk_memcpy copies. Between 32-bit addresses, for regions that are apart
    or a destination that does not come after its source, it always ends, the
    destination holds the bytes the source held, and every other byte is
    unchanged: the strides of eight, four and one bytes that the alignment of the
    pointers selects, and change on the way, leave no byte out and take none
    twice. *)
Theorem bulk_memcpy_copies fuel dest src n m : 0 <= n < Z.of_nat fuel ->
  0 <= dest /\ dest + n < 2 ^ 32 -> 0 <= src /\ src + n < 2 ^ 32 -> dest <= src \/ src + n <= dest ->
  exists m', bulk_memcpy fuel dest src n m = Some m' /\
    forall a, m' a = if (dest <=? a) && (a <? dest + n) then m (src + (a - dest)) else m a.
Proof.
  intros Hn Hd Hs Ho. unfold bulk_memcpy. rewrite !wrap_id by (unfold in_word; lia).
  set (c := Cursor dest src n m).
  assert (H0 : progress dest src n m 0 c).
  { split; [|split; cbn; lia]. unfold copied. cbn. split_ands; [lia..|]. intros a.
    by destruct (Z.leb_spec dest a), (Z.ltb_spec a (dest + 0)); try lia. }
  assert (Hblk : forall (b : bool) w k c, 1 <= w -> progress dest src n m k c -> 0 <= k -> exists k' c',
    (if b then block_loop fuel w c else Some c) = Some c' /\ progress dest src n m k' c' /\ 0 <= k').
  { intros [] w k c1 Hw Hc Hk; [|by exists k, c1].
    destruct (block_progress dest src n m Hd Hs Ho fuel w k c1 Hw ltac:(lia) Hc) as (k' & c' & E & Hc' & Hk').
    exists k', c'. split; [done|]. split; [done|lia]. }
  destruct (Hblk (ALIGNED_U64 dest && ALIGNED_U64 src) 8 0 c) as (k1 & c1 & E1 & Hc1 & Hk1); [lia|done|lia|].
  cbn [c_p c_q]. change (ALIGNED_U64 (c_p c)) with (ALIGNED_U64 dest).
  change (ALIGNED_U64 (c_q c)) with (ALIGNED_U64 src). rewrite E1. cbn [mbind option_bind].
  destruct (Hblk (ALIGNED_U32 (c_p c1) && ALIGNED_U32 (c_q c1)) 4 k1 c1) as (k2 & c2 & E2 & Hc2 & Hk2); [lia|done|lia|].
  rewrite E2. cbn [mbind option_bind].
  destruct (tail_progress dest src n m Hd Hs Ho fuel k2 c2 ltac:(lia) Hc2) as (c3 & E3 & (_ & _ & _ & Hm) & _).
  rewrite E3. exists (c_mem c3). split; [done|]. exact Hm.
Qed.

Lemma bulk_memcpy_copies_witness :
  let m a := a mod 251 in
  exists m', bulk_memcpy 30 101 1005 27 m = Some m' /\ m' 101 = 1005 mod 251 /\ m' 127 = 1031 mod 251 /\
    m' 128 = 128.
Proof.
  intros m. destruct (bulk_memcpy_copies 30 101 1005 27 m) as (m' & E & Hm); [lia..|].
  exists m'. split; [exact E|]. by rewrite !Hm.
Defined.

(** The pointers are 40 bits wide, but the copy is between their low 32 bits. *)
Lemma bulk_memcpy_low fuel dest src n m : bulk_memcpy fuel dest src n m = bulk_memcpy fuel (u32 dest) (u32 src) n m.
Proof. unfold bulk_memcpy. by rewrite !(wrap_idem 32) by lia. Qed.

Lemma bulk_memcpy_other_island : exists m',
  bulk_memcpy 9 (0x8600000000 + 64) 128 8 (fun a => if a =? 128 then 1 else 0) = Some m' /\
  m' 64 = 1 /\ m' (0x8600000000 + 64) = 0.
Proof. eexists. split; [reflexivity|]. split; reflexivity. Qed.

(** ** The CAM of a microengine *)

(** The instructions, the tags of the entries, and the entries from the least to the
    most recently used one. *)
Class MeCam (C : Type) := {
  cam_clear : C -> C;
  cam_write : C -> Z -> Z -> Z -> C;
  cam_lookup : C -> Z -> bool * Z * C;
  cam_tags : C -> list Z;
  cam_order : C -> list Z }.

Definition cam_ok {C} `{MeCam C} (c : C) : Prop :=
  length (cam_tags c) = 16%nat /\ Permutation (cam_order c) (seqZ 0 16).
Definition cam_tag {C} `{MeCam C} (c : C) (e : Z) : Z := nth (Z.to_nat e) (cam_tags c) 0.
Definition used (e : Z) (order : list Z) : list Z := filter (fun x => x <> e) order ++ [e].

(** A write or a hit makes an entry the most recently used one; a miss tells the least
    recently used one.  Nothing is said of tags that are not distinct. *)
Class MeCamLaws (C : Type) `{MeCam C} : Prop := {
  clear_law : forall c, cam_ok (cam_clear c) /\ cam_tags (cam_clear c) = replicate 16 0;
  write_law : forall c e tag st, cam_ok c -> 0 <= e < 16 ->
    cam_tags (cam_write c e tag st) = <[Z.to_nat e := tag]> (cam_tags c) /\
    cam_order (cam_write c e tag st) = used e (cam_order c);
  hit_law : forall c e, cam_ok c -> NoDup (cam_tags c) -> 0 <= e < 16 ->
    exists c', cam_lookup c (cam_tag c e) = (true, e, c') /\
      cam_tags c' = cam_tags c /\ cam_order c' = used e (cam_order c);
  miss_law : forall c key, cam_ok c -> NoDup (cam_tags c) -> key ∉ cam_tags c ->
    cam_lookup c key = (false, hd 0 (cam_order c), c) }.

Section Cam.
Context {C : Type} `{MC : MeCam C}.

Fixpoint init_loop (n : nat) (i : Z) (c : C) : C :=
  match n with O => c | S n => init_loop n (i + 1) (cam_write c i (sub32 0xFFFFFFFF i) 0) end.

Definition init_me_cam (ctx : Z) (size : nat) (c : C) : C :=
  if ctx =? 0 then init_loop size 0 (cam_clear c) else c.

Definition me_cam_lookup (key : Z) (c : C) : Z * C :=
  let '(hit, lookup_index, c) := cam_lookup c (u32 key) in
  (if (hit : bool) then lookup_index else -1, c).

Definition me_cam_update (key : Z) (c : C) : Z * C :=
  let '(hit, lookup_index, c) := cam_lookup c (u32 key) in
  if (hit : bool) then (lookup_index, c) else (lookup_index, cam_write c lookup_index (u32 key) 0).

Definition updates (keys : list Z) (c : C) : C := fold_left (fun c key => snd (me_cam_update key c)) keys c.

(** *** The keys used last *)

Definition recent (keys : list Z) : list Z := fold_left (fun r key => used key r) keys [].
Definition last16 {A} (l : list A) : list A := drop (length l - 16) l.

(** The tags that are written at the start. *)
Definition first_tags : list Z := map (fun i => 0xFFFFFFFF - i) (seqZ 0 16).

Lemma used_perm e l : NoDup l -> e ∈ l -> Permutation (used e l) l.
Proof.
  intros Hn He. unfold used. apply NoDup_Permutation.
  - apply NoDup_app. split; [by apply NoDup_filter|]. split; [|by apply NoDup_singleton].
    intros x Hx%list_elem_of_filter Hx'. apply list_elem_of_singleton in Hx'. tauto.
  - done.
  - intros x. rewrite elem_of_app, list_elem_of_filter, list_elem_of_singleton.
    destruct (decide (x = e)) as [->|]; [tauto|]. split; [intros [[_ ?]|?]; done|]. by left.
Qed.

Lemma filter_other (k : Z) (l : list Z) : k ∉ l -> filter (fun x => x <> k) l = l.
Proof.
  induction l as [|x l IH]; intros Hk; [done|]. apply not_elem_of_cons in Hk as [Hx Hk].
  rewrite filter_cons_True by done. by rewrite IH.
Qed.

Lemma filter_one (k : Z) (l1 l2 : list Z) : k ∉ l1 -> k ∉ l2 -> filter (fun x => x <> k) (l1 ++ k :: l2) = l1 ++ l2.
Proof.
  intros H1 H2. rewrite filter_app, (filter_other k l1), filter_cons_False, (filter_other k l2) by (done || naive_solver). done.
Qed.

Lemma last16_app {A} (a b : list A) : length b = 16%nat -> last16 (a ++ b) = b.
Proof. intros Hb. unfold last16. rewrite length_app, Hb. by rewrite drop_app_length' by lia. Qed.

Lemma last16_split {A} (r : list A) : (16 <= length r)%nat ->
  exists a, r = a ++ last16 r /\ length (last16 r) = 16%nat.
Proof.
  intros Hl. exists (take (length r - 16) r). unfold last16. rewrite take_drop, length_drop. split; [done|lia].
Qed.

(** Using a key that is among the last 16, and one that is not. *)
Lemma last16_used_in k r : NoDup r -> (16 <= length r)%nat -> k ∈ last16 r ->
  last16 (used k r) = used k (last16 r).
Proof.
  intros Hn Hl Hk. destruct (last16_split r Hl) as (a & Er & Hb). generalize dependent (last16 r).
  intros b Hk -> Hb. apply NoDup_app in Hn as (_ & Hab & Hnb). unfold used.
  assert (Hka : k ∉ a) by (intros ?; by apply (Hab k)).
  rewrite filter_app, (filter_other k a), <- app_assoc by done. apply last16_app.
  change (length (used k b) = 16%nat). by rewrite (Permutation_length (used_perm k b Hnb Hk)).
Qed.

Lemma last16_used_out k r : (16 <= length r)%nat -> k ∉ last16 r ->
  last16 (used k r) = tl (last16 r) ++ [k].
Proof.
  intros Hl Hk. destruct (last16_split r Hl) as (a & Er & Hb). generalize dependent (last16 r).
  intros b Hk -> Hb. unfold used. rewrite filter_app, (filter_other k b), <- app_assoc by done.
  destruct b as [|x b]; [done|]. cbn [tl].
  replace (filter _ a ++ (x :: b) ++ [k]) with ((filter (fun x => x <> k) a ++ [x]) ++ b ++ [k]) by (by rewrite <- app_assoc).
  apply last16_app. rewrite length_app. cbn in *. lia.
Qed.

Lemma used_nodup k l : NoDup l -> NoDup (used k l).
Proof.
  intros Hn. unfold used. apply NoDup_app. split; [by apply NoDup_filter|]. split; [|by apply NoDup_singleton].
  intros x Hx%list_elem_of_filter Hx'. apply list_elem_of_singleton in Hx'. tauto.
Qed.

Lemma recent_snoc ks k : recent (ks ++ [k]) = used k (recent ks).
Proof. unfold recent. by rewrite fold_left_app. Qed.

Lemma recent_nodup ks : NoDup (recent ks).
Proof. induction ks as [|k ks IH] using rev_ind; [by apply NoDup_nil|]. rewrite recent_snoc. by apply used_nodup. Qed.

Lemma used_length k l : NoDup l -> (length l <= length (used k l))%nat.
Proof.
  intros Hn. destruct (decide (k ∈ l)) as [Hk|Hk].
  - by rewrite (Permutation_length (used_perm k l Hn Hk)).
  - unfold used. rewrite filter_other, length_app by done. lia.
Qed.

(** *** What the entries hold *)

Lemma nth_seqZ (ts : list Z) : length ts = 16%nat -> map (fun e => nth (Z.to_nat e) ts 0) (seqZ 0 16) = ts.
Proof. intros Hl. do 16 (destruct ts as [|? ts]; [done|]). by destruct ts. Qed.

Lemma tags_order c : cam_ok c -> Permutation (map (cam_tag c) (cam_order c)) (cam_tags c).
Proof. intros [Hl Ho]. rewrite Ho. unfold cam_tag. by rewrite nth_seqZ. Qed.

Lemma order_range c e : cam_ok c -> e ∈ cam_order c <-> 0 <= e < 16.
Proof. intros [_ Ho]. rewrite Ho, elem_of_seqZ. lia. Qed.

Lemma order_nodup c : cam_ok c -> NoDup (cam_order c).
Proof. intros [_ Ho]. rewrite Ho. apply NoDup_seqZ. Qed.

Lemma tag_in c e : cam_ok c -> 0 <= e < 16 -> cam_tag c e ∈ cam_tags c.
Proof.
  intros Hc He. rewrite <- (tags_order c Hc). apply list_elem_of_fmap_2. by apply order_range.
Qed.

Lemma in_tag c key : cam_ok c -> key ∈ cam_tags c -> exists e, 0 <= e < 16 /\ cam_tag c e = key.
Proof.
  intros Hc Hk. rewrite <- (tags_order c Hc) in Hk. apply list_elem_of_fmap_1 in Hk as (e & -> & He).
  exists e. split; [by apply (order_range c)|done].
Qed.

Lemma tag_inj c e e' : cam_ok c -> NoDup (cam_tags c) -> 0 <= e < 16 -> 0 <= e' < 16 ->
  cam_tag c e = cam_tag c e' -> e = e'.
Proof.
  intros [Hl _] Hn He He' E. unfold cam_tag in E.
  pose proof (NoDup_nth (cam_tags c) 0) as Hi. rewrite NoDup_ListNoDup in Hn. rewrite Hi in Hn.
  apply Z2Nat.inj; [lia..|]. apply Hn; [lia..|done].
Qed.

Lemma map_used (f : Z -> Z) e (l : list Z) : (forall x, x ∈ l -> f x = f e -> x = e) ->
  map f (used e l) = used (f e) (map f l).
Proof.
  intros Hf. unfold used. rewrite map_app. f_equal.
  induction l as [|x l IH]; [done|]. cbn [map].
  assert (IH' := IH (fun y Hy => Hf y (list_elem_of_further _ _ _ Hy))).
  destruct (decide (x = e)) as [->|Hne].
  - rewrite !filter_cons_False by naive_solver. exact IH'.
  - rewrite !filter_cons_True; [cbn; by rewrite IH'| |done]. intros E. apply Hne, Hf; [by left|done].
Qed.

(** The tags, from the least to the most recently used, are the 16 keys used last. *)
Record cam_inv (c : C) (h : list Z) : Prop := {
  ci_ok : cam_ok c;
  ci_tags : NoDup (cam_tags c);
  ci_recent : map (cam_tag c) (cam_order c) = last16 (recent h);
  ci_length : (16 <= length (recent h))%nat }.

Context `{ML : !MeCamLaws C}.

Lemma used_ok c c' e : cam_ok c -> 0 <= e < 16 -> length (cam_tags c') = 16%nat ->
  cam_order c' = used e (cam_order c) -> cam_ok c'.
Proof.
  intros Hc He Hl Ho. split; [done|]. rewrite Ho, used_perm; [apply Hc|by apply order_nodup|by apply order_range].
Qed.

Lemma last16_nodup h : NoDup (last16 (recent h)).
Proof. unfold last16. apply (NoDup_app (take (length (recent h) - 16) (recent h))). rewrite take_drop. apply recent_nodup. Qed.

Lemma in_live c h key : cam_inv c h -> key ∈ cam_tags c <-> key ∈ last16 (recent h).
Proof. intros H. rewrite <- (ci_recent c h H), (tags_order c (ci_ok c h H)). done. Qed.

(** A key that is not live takes the entry of the least recently used one. *)
Lemma update_miss c h key : cam_inv c h -> in_word 32 key -> key ∉ cam_tags c ->
  exists e c', me_cam_update key c = (e, c') /\ 0 <= e < 16 /\ cam_tag c' e = key /\ cam_inv c' (h ++ [key]) /\
    forall e', 0 <= e' < 16 -> e' <> e -> cam_tag c' e' = cam_tag c e'.
Proof.
  intros H Hw Hk. pose proof (ci_ok c h H) as Hc. unfold me_cam_update. rewrite wrap_id by done.
  rewrite (miss_law c key Hc (ci_tags c h H) Hk). cbv beta iota.
  destruct (cam_order c) as [|e o] eqn:Eo.
  { destruct Hc as [_ Ho]. rewrite Eo in Ho. by apply Permutation_nil_l in Ho. }
  cbn [hd]. assert (He : 0 <= e < 16) by (apply (order_range c e Hc); rewrite Eo; by left).
  destruct (write_law c e key 0 Hc He) as [Et Eord]. set (c' := cam_write c e key 0) in *.
  assert (Htag : forall e', 0 <= e' < 16 -> cam_tag c' e' = if decide (e' = e) then key else cam_tag c e').
  { intros e' He'. unfold cam_tag. rewrite Et. destruct Hc as [Hl _]. rewrite !nth_lookup.
    destruct (decide (e' = e)) as [->|Hne]; [by rewrite list_lookup_insert_eq by lia|].
    by rewrite list_lookup_insert_ne by lia. }
  assert (Hc' : cam_ok c').
  { apply (used_ok c c' e); [done|done| |done]. rewrite Et, length_insert. by destruct Hc. }
  assert (Hno : e ∉ o) by (pose proof (order_nodup c Hc) as Hn; rewrite Eo in Hn; by apply NoDup_cons in Hn as [? _]).
  assert (Hmap : map (cam_tag c') (cam_order c') = last16 (recent (h ++ [key]))).
  { rewrite recent_snoc, last16_used_out by (apply (ci_length c h H) || by rewrite <- (in_live c h key H)).
    rewrite <- (ci_recent c h H), Eord, Eo. unfold used. rewrite filter_cons_False, (filter_other e o) by naive_solver.
    cbn [map tl]. rewrite map_app. cbn [map]. rewrite (Htag e He), decide_True by done. f_equal.
    apply map_ext_in. intros x Hx. apply list_elem_of_In in Hx.
    assert (Hx' : 0 <= x < 16) by (apply (order_range c x Hc); rewrite Eo; by right).
    rewrite (Htag x Hx'), decide_False; [done|]. by intros ->. }
  exists e, c'. split; [done|]. split; [done|]. split; [by rewrite (Htag e He), decide_True|]. split.
  - split; [done| |done|].
    + rewrite <- (tags_order c' Hc'), Hmap. apply last16_nodup.
    + rewrite recent_snoc. etrans; [apply (ci_length c h H)|]. apply used_length, recent_nodup.
  - intros e' He' Hne. by rewrite (Htag e' He'), decide_False.
Qed.

(** A live key keeps its entry and becomes the one used last. *)
Lemma lookup_hit c h e : cam_inv c h -> 0 <= e < 16 ->
  exists c', cam_lookup c (cam_tag c e) = (true, e, c') /\ cam_tags c' = cam_tags c /\
    cam_inv c' (h ++ [cam_tag c e]).
Proof.
  intros H He. pose proof (ci_ok c h H) as Hc. pose proof (ci_tags c h H) as Hn.
  destruct (hit_law c e Hc Hn He) as (c' & El & Et & Eo). exists c'. split; [done|]. split; [done|].
  assert (Htag : forall x, cam_tag c' x = cam_tag c x) by (intros x; unfold cam_tag; by rewrite Et).
  split.
  - apply (used_ok c c' e); [done|done| |done]. rewrite Et. by destruct Hc.
  - by rewrite Et.
  - rewrite recent_snoc, last16_used_in; [|apply recent_nodup|apply (ci_length c h H)|].
    + rewrite <- (ci_recent c h H), Eo, (map_ext _ _ Htag). apply map_used.
      intros x Hx. apply tag_inj; [done|done|by apply (order_range c)|done].
    + rewrite <- (in_live c h _ H). by apply tag_in.
  - rewrite recent_snoc. etrans; [apply (ci_length c h H)|]. apply used_length, recent_nodup.
Qed.

Lemma init_loop_spec n i c : cam_ok c -> 0 <= i -> i + Z.of_nat n <= 16 ->
  cam_ok (init_loop n i c) /\
  cam_order (init_loop n i c) = filter (fun e => ~ (i <= e < i + Z.of_nat n)) (cam_order c) ++ seqZ i (Z.of_nat n) /\
  forall e, 0 <= e < 16 -> cam_tag (init_loop n i c) e =
    if decide (i <= e < i + Z.of_nat n) then 0xFFFFFFFF - e else cam_tag c e.
Proof.
  revert i c. induction n as [|n IH]; intros i c Hc Hi Hn; cbn [init_loop].
  - split; [done|]. split.
    + rewrite app_nil_r. symmetry. induction (cam_order c) as [|x l IHl]; [done|].
      rewrite filter_cons_True by lia. by rewrite IHl.
    + intros e He. rewrite decide_False by lia. done.
  - destruct (write_law c i (sub32 0xFFFFFFFF i) 0 Hc) as [Et Eo]; [lia|].
    set (c1 := cam_write _ _ _ _) in *.
    assert (Hc1 : cam_ok c1).
    { apply (used_ok c c1 i); [done|lia| |done]. rewrite Et, length_insert. by destruct Hc. }
    destruct (IH (i + 1) c1 Hc1) as (Hok & Ho & Ht); [lia..|]. split; [done|]. split.
    + rewrite Ho, Eo. unfold used. rewrite filter_app, filter_cons_True by lia.
      rewrite filter_nil, list_filter_filter, <- app_assoc. f_equal.
      * apply list_filter_iff. intros x. lia.
      * cbn [app]. rewrite Nat2Z.inj_succ, (seqZ_cons i (Z.succ (Z.of_nat n))) by lia.
        f_equal. f_equal; lia.
    + intros e He. rewrite Ht by done. destruct Hc as [Hl _].
      assert (Etag : cam_tag c1 e = if decide (e = i) then 0xFFFFFFFF - i else cam_tag c e).
      { unfold cam_tag. rewrite Et, !nth_lookup. destruct (decide (e = i)) as [->|].
        - rewrite list_lookup_insert_eq by lia. cbn. unfold sub32. apply wrap_id. unfold in_word. lia.
        - by rewrite list_lookup_insert_ne by lia. }
      rewrite Etag. repeat case_decide; lia.
Qed.

Lemma init_inv c : cam_inv (init_me_cam 0 16 c) first_tags.
Proof.
  destruct (clear_law c) as [Hc _]. unfold init_me_cam. cbn [Z.eqb].
  destruct (init_loop_spec 16 0 (cam_clear c) Hc) as (Hok & Ho & Ht); [lia..|].
  set (c' := init_loop _ _ _) in *.
  assert (Eo : cam_order c' = seqZ 0 16).
  { rewrite Ho. replace (filter _ (cam_order (cam_clear c))) with ([] : list Z); [done|].
    assert (Hr : Forall (fun e => 0 <= e < 16) (cam_order (cam_clear c))).
    { apply Forall_forall. intros e. by apply order_range. }
    clear -Hr; induction Hr as [|e l He _ IH]; [done|]. rewrite filter_cons_False; [exact IH|lia]. }
  assert (Etags : cam_tags c' = first_tags).
  { rewrite <- (nth_seqZ (cam_tags c')) by apply Hok. unfold first_tags. apply map_ext_in.
    intros e He. apply list_elem_of_In, elem_of_seqZ in He. specialize (Ht e ltac:(lia)).
    rewrite decide_True in Ht by lia. exact Ht. }
  split; [done| | |].
  - rewrite Etags. by apply (bool_decide_unpack _); vm_compute.
  - rewrite Eo. unfold cam_tag. rewrite nth_seqZ by apply Hok. rewrite Etags. by vm_compute.
  - by apply (bool_decide_unpack _); vm_compute.
Qed.

Lemma update_inv c h key : cam_inv c h -> in_word 32 key ->
  exists e c', me_cam_update key c = (e, c') /\ 0 <= e < 16 /\ cam_tag c' e = key /\ cam_inv c' (h ++ [key]) /\
    (key ∈ cam_tags c -> cam_tag c e = key) /\
    forall e', 0 <= e' < 16 -> e' <> e -> cam_tag c' e' = cam_tag c e'.
Proof.
  intros H Hw. destruct (decide (key ∈ cam_tags c)) as [Hk|Hk].
  - destruct (in_tag c key (ci_ok c h H) Hk) as (e & He & <-).
    destruct (lookup_hit c h e H He) as (c' & El & Et & Hc'). exists e, c'.
    unfold me_cam_update. rewrite wrap_id, El by done.
    assert (Htag : forall x, cam_tag c' x = cam_tag c x) by (intros x; unfold cam_tag; by rewrite Et).
    split_ands; try done; try lia; intros; by rewrite ?Htag.
  - destruct (update_miss c h key H Hw Hk) as (e & c' & E1 & E2 & E3 & E4 & E5). exists e, c'. done.
Qed.

Lemma updates_inv c h ks : cam_inv c h -> Forall (in_word 32) ks -> cam_inv (updates ks c) (h ++ ks).
Proof.
  intros H Hks. revert c h H. induction Hks as [|k ks Hk _ IH]; intros c h H; cbn; [by rewrite app_nil_r|].
  destruct (update_inv c h k H Hk) as (e & c' & E & _ & _ & Hc' & _). rewrite E. cbn [snd].
  rewrite cons_middle, app_assoc. by apply IH.
Qed.

(** What a lookup returns. *)
Lemma lookup_index c h e : cam_inv c h -> 0 <= e < 16 -> in_word 32 (cam_tag c e) ->
  fst (me_cam_lookup (cam_tag c e) c) = e.
Proof.
  intros H He Hw. destruct (lookup_hit c h e H He) as (c' & El & _). unfold me_cam_lookup.
  by rewrite wrap_id, El.
Qed.

Lemma lookup_none c h key : cam_inv c h -> in_word 32 key -> key ∉ cam_tags c -> fst (me_cam_lookup key c) = -1.
Proof.
  intros H Hw Hk. unfold me_cam_lookup. rewrite wrap_id by done.
  by rewrite (miss_law c key (ci_ok c h H) (ci_tags c h H) Hk).
Qed.

(** C22: The CAM of a microengine is a cache of the 16 keys used last. After
    init_me_cam(16) and any updates, a lookup finds exactly the keys among the
    last 16 distinct ones (the initial tags count as used first), at an entry
    below 16; two such keys have different entries; an update returns the entry at
    which its key is then found, and a key that stays among the last 16 keeps its
    entry. *)
Theorem me_cam_lru c ks key : Forall (in_word 32) ks -> in_word 32 key ->
  let at_ ks := updates ks (init_me_cam 0 16 c) in
  let index ks k := fst (me_cam_lookup k (at_ ks)) in
  let live ks := last16 (recent (first_tags ++ ks)) in
  (forall k, in_word 32 k -> if decide (k ∈ live ks) then 0 <= index ks k < 16 else index ks k = -1) /\
  (forall k k', in_word 32 k -> in_word 32 k' -> k ∈ live ks -> k' ∈ live ks -> index ks k = index ks k' -> k = k') /\
  fst (me_cam_update key (at_ ks)) = index (ks ++ [key]) key /\
  (forall k, in_word 32 k -> k ∈ live ks -> k ∈ live (ks ++ [key]) -> index (ks ++ [key]) k = index ks k).
Proof.
  intros Hks Hkey at_ index live.
  pose proof (updates_inv _ _ ks (init_inv c) Hks) as H. fold (at_ ks) in H.
  destruct (update_inv _ _ key H Hkey) as (e & c' & Eu & He & Etag & H' & Hsame & Hother).
  assert (Eat : at_ (ks ++ [key]) = c').
  { transitivity (snd (me_cam_update key (at_ ks))); [|by rewrite Eu].
    unfold at_, updates. by rewrite fold_left_app. }
  assert (Hlive : forall k, k ∈ live ks -> exists e, 0 <= e < 16 /\ cam_tag (at_ ks) e = k).
  { intros k Hk. apply (in_tag _ _ (ci_ok _ _ H)). by apply (in_live _ _ _ H). }
  assert (Hidx : forall k, in_word 32 k -> k ∈ live ks -> 0 <= index ks k < 16 /\ cam_tag (at_ ks) (index ks k) = k).
  { intros k Hw Hk. destruct (Hlive k Hk) as (i & Hi & <-). unfold index. by rewrite (lookup_index _ _ i H). }
  split_ands.
  - intros k Hw. case_decide as Hk; [by apply Hidx|]. apply (lookup_none _ _ _ H Hw). by rewrite (in_live _ _ _ H).
  - intros k k' Hw Hw' Hk Hk' E. destruct (Hidx k Hw Hk) as [_ <-], (Hidx k' Hw' Hk') as [_ <-]. by rewrite E.
  - rewrite Eu. cbn [fst]. unfold index. rewrite Eat. rewrite <- Etag at 1. symmetry. apply (lookup_index _ _ e H' He). by rewrite Etag.
  - intros k Hw Hk Hk'. unfold live in Hk'. rewrite app_assoc, <- (in_live _ _ _ H') in Hk'.
    destruct (in_tag _ _ (ci_ok _ _ H') Hk') as (i & Hi & Ei). destruct (Hidx k Hw Hk) as [Hj Ej].
    assert (E : index (ks ++ [key]) k = i).
    { unfold index. rewrite Eat, <- Ei. apply (lookup_index _ _ i H' Hi). by rewrite Ei. }
    rewrite E.
    assert (Ei' : cam_tag (at_ ks) i = k).
    { destruct (decide (i = e)) as [->|Hne]; [|by rewrite <- Hother].
      rewrite Etag in Ei. subst k. apply Hsame. by apply (in_live _ _ _ H). }
    apply (tag_inj _ _ _ (ci_ok _ _ H) (ci_tags _ _ H)); [done|done|]. by rewrite Ei', Ej.
Qed.

End Cam.

(** A CAM. *)
Record cam := MkCam { k_tags : list Z; k_order : list Z }.
Fixpoint find_tag (l : list Z) (tag i : Z) : option Z :=
  match l with [] => None | x :: l => if x =? tag then Some i else find_tag l tag (i + 1) end.
#[export] Instance cam_ops : MeCam cam := {
  cam_clear c := MkCam (replicate 16 0) (seqZ 0 16);
  cam_write c e tag st := MkCam (<[Z.to_nat e := tag]> (k_tags c)) (used e (k_order c));
  cam_lookup c key :=
    match find_tag (k_tags c) key 0 with
    | Some e => (true, e, MkCam (k_tags c) (used e (k_order c)))
    | None => (false, hd 0 (k_order c), c)
    end;
  cam_tags := k_tags; cam_order := k_order }.

Lemma find_tag_spec l tag i : 0 <= i ->
  match find_tag l tag i with
  | Some e => i <= e /\ l !! Z.to_nat (e - i) = Some tag
  | None => tag ∉ l
  end.
Proof.
  revert i. induction l as [|x l IH]; intros i Hi; cbn; [by apply not_elem_of_nil|].
  destruct (Z.eqb_spec x tag) as [->|Hne].
  - split; [lia|]. by rewrite Z.sub_diag.
  - specialize (IH (i + 1) ltac:(lia)). destruct (find_tag l tag (i + 1)) as [e|].
    + destruct IH as [? IH]. split; [lia|].
      replace (Z.to_nat (e - i)) with (S (Z.to_nat (e - (i + 1)))) by lia. exact IH.
    + rewrite not_elem_of_cons. split; [congruence|done].
Qed.

#[export] Instance cam_laws : MeCamLaws cam.
Proof.
  split.
  - intros c. split; [by split|done].
  - done.
  - intros c e [Hl Ho] Hn He. cbn in *.
    pose proof (find_tag_spec (k_tags c) (cam_tag c e) 0 ltac:(lia)) as Hf.
    assert (Hx : k_tags c !! Z.to_nat e = Some (cam_tag c e)).
    { unfold cam_tag. cbn. rewrite nth_lookup. destruct (lookup_lt_is_Some_2 (k_tags c) (Z.to_nat e)) as [x Ex]; [lia|].
      by rewrite Ex. }
    destruct (find_tag _ _ _) as [e'|]; [|destruct Hf; by apply list_elem_of_lookup_2 in Hx].
    destruct Hf as [He' Hf]. rewrite Z.sub_0_r in Hf.
    pose proof (NoDup_lookup _ _ _ _ Hn Hf Hx) as E. assert (e' = e) as -> by lia. by eexists.
  - intros c key _ _ Hk. cbn. pose proof (find_tag_spec (k_tags c) key 0 ltac:(lia)) as Hf.
    destruct (find_tag _ _ _) as [e'|]; [|done]. destruct Hk. by eapply list_elem_of_lookup_2; destruct Hf.
Qed.

Lemma me_cam_lru_witness :
  let c := MkCam [] [] in
  let at_ ks := updates ks (init_me_cam 0 16 c) in
  fst (me_cam_lookup 7 (at_ [7; 8; 7; 9])) = 0 /\
  fst (me_cam_lookup 7 (at_ ([7; 8; 7; 9] ++ [5]))) = fst (me_cam_lookup 7 (at_ [7; 8; 7; 9])).
Proof.
  intros c at_. split; [by vm_compute|].
  destruct (me_cam_lru c [7; 8; 7; 9] 5) as (_ & _ & _ & H).
  - by apply (bool_decide_unpack (Forall (fun x => 0 <= x < 2 ^ 32) _)); vm_compute.
  - by unfold in_word.
  - apply H; [by unfold in_word|by apply (bool_decide_unpack _); vm_compute..].
Defined.

(** With fewer than 15 entries written, several keep the tag 0 of the clear, which the
    rules above the function forbid. *)
Lemma init_me_cam_few : ~ NoDup (cam_tags (init_me_cam 0 14 (MkCam [] []))).
Proof. apply (bool_decide_unpack (~ _)). by vm_compute. Qed.

(** The initial tags are found although no update wrote them. *)
Lemma initial_tag_found : fst (me_cam_lookup 0xFFFFFFFF (init_me_cam 0 16 (MkCam [] []))) = 0.
Proof. by vm_compute. Qed.

(** ** The flow table in local memory (lmem_lookup.h) *)

Record flowht_entry_t := FlowEntry { e_key : Z; e_flow_id : Z }.

Definition lmem_flow_hash (key : Z) : prog Z :=
  hash ← CamHash.camht_hash [key] (ct 4);
  Ret ((CamHash.primary hash ≪ 32) .| CamHash.secondary hash).

(** The table after it; the function has no return statement. *)
Definition lmem_flow_insert (tb : list flowht_entry_t) (entry : flowht_entry_t) (size : Z)
    : prog (list flowht_entry_t) :=
  b_idx ← lmem_flow_hash (e_key entry);
  let b_idx := CamHash.CAMHT_BUCKET_IDX b_idx size in
  if b_idx <? Z.of_nat (length tb) then Ret (<[Z.to_nat b_idx := entry]> tb) else Stop Undef.

(** [entry] is the local variable that the key is compared with: nothing assigns it. *)
Definition lmem_flow_lookup (entry : Z) (tb : list flowht_entry_t) (key size : Z) : prog Z :=
  b_idx ← lmem_flow_hash key;
  let b_idx := CamHash.CAMHT_BUCKET_IDX b_idx size in
  match tb !! Z.to_nat b_idx with
  | None => Stop Undef
  | Some b =>
      let result := s32 (u32 (e_flow_id b)) in
      eq ← CamHash.key_eq [entry] [key] (ct 4);
      Ret (if eq =? 0 then -1 else result)
  end.

Definition lmem_cam_lookup (entry : Z) (tb : list flowht_entry_t) (key size : Z) : prog Z :=
  lmem_flow_lookup entry tb key size.

(** [returned] is what the caller takes for the result of [lmem_flow_insert]. *)
Definition lmem_cam_update (entry returned : Z) (tb : list flowht_entry_t) (key size : Z)
    : prog (Z * list flowht_entry_t) :=
  flow_id ← lmem_flow_lookup entry tb key size;
  if flow_id =? -1 then
    tb ← lmem_flow_insert tb (FlowEntry key 0) size;
    Ret (returned, tb)
  else Ret (flow_id, tb).

(** The comparison of a lookup is with the value that happens to be in the register. *)
Lemma key_eq_word entry key : CamHash.key_eq [entry] [key] (ct 4) = Ret (if entry =? key then 1 else 0).
Proof. unfold CamHash.key_eq, RegUtils.reg_eq.
  change (RegUtils.check_args _ (ct 4)) with (@None failure). cbn. by destruct (entry =? key). Qed.

(** Whatever the table holds: a register that does not hold the key makes every lookup
    fail, and one that does makes it return the bucket's flow, whose key is not read. *)
Lemma lmem_lookup_ignores_keys {St} (h : St -> event -> reply * St) s entry tb tb' key size :
  map e_flow_id tb = map e_flow_id tb' ->
  exec h (lmem_cam_lookup entry tb key size) s = exec h (lmem_cam_lookup entry tb' key size) s /\
  (entry <> key -> forall r, o_res (exec h (lmem_cam_lookup entry tb key size) s) = inl r -> r = -1).
Proof.
  intros Hf. assert (Hl : forall i, option_map e_flow_id (tb !! i) = option_map e_flow_id (tb' !! i)).
  { intros i. change (option_map e_flow_id (tb !! i)) with (e_flow_id <$> tb !! i).
    change (option_map e_flow_id (tb' !! i)) with (e_flow_id <$> tb' !! i).
    rewrite <- !list_lookup_fmap. change (map e_flow_id tb !! i = map e_flow_id tb' !! i). by rewrite Hf. }
  unfold lmem_cam_lookup, lmem_flow_lookup, mbind, prog_bind. rewrite !exec_bind. cbv zeta.
  destruct (o_res (exec h (lmem_flow_hash key) s)) as [b|f]; [|done].
  specialize (Hl (Z.to_nat (CamHash.CAMHT_BUCKET_IDX b size))).
  destruct (tb !! _) as [x|], (tb' !! _) as [x'|]; try done. injection Hl as Hl.
  rewrite key_eq_word. cbn [bind]. rewrite Hl. split; [done|]. intros Hne r Hr.
  destruct (Z.eqb_spec entry key); [done|]. by injection Hr as <-.
Qed.

(** A table of [size] entries is entered in its first eighth only. *)
Lemma lmem_insert_slot hash size : 8 <= size < 2 ^ 31 -> 0 <= hash ->
  0 <= CamHash.CAMHT_BUCKET_IDX hash size < size / 8.
Proof. apply CamHash.bucket_idx_range. Qed.

(** An update that misses stores the flow 0, whatever the key. *)
Lemma lmem_update_flow_0 {St} (h : St -> event -> reply * St) s entry returned tb key size r tb' :
  entry <> key -> o_res (exec h (lmem_cam_update entry returned tb key size) s) = inl (r, tb') ->
  r = returned /\ exists b, tb' = <[b := FlowEntry key 0]> tb.
Proof.
  intros Hne. unfold lmem_cam_update, mbind, prog_bind. rewrite exec_bind. cbv zeta.
  destruct (o_res (exec h (lmem_flow_lookup entry tb key size) s)) as [i|] eqn:E; [|done].
  pose proof (proj2 (lmem_lookup_ignores_keys h s entry tb tb key size eq_refl) Hne i E) as Ei.
  cbn [o_res]. destruct (Z.eqb_spec i (-1)) as [->|]; [|done]. rewrite exec_bind. cbv zeta. clear Ei.
  set (s1 := o_st _). unfold lmem_flow_insert, mbind, prog_bind. rewrite exec_bind. cbv zeta. cbn [e_key].
  destruct (o_res (exec h (lmem_flow_hash key) s1)) as [b|]; [|done].
  destruct (_ <? _); cbn; [|done]. intros [= <- <-]. split; [done|]. by eexists.
Qed.

(** ** Packet buffers *)

Definition PKT_NBI_OFFSET := 64.
Definition MAC_PREPEND_BYTES := 0.
Definition PKBUF_SHIF_BYTES := 0.

Section Buffers.
Context (ring0 q_base ISLAND : Z) (sig : Z).

Fixpoint alloc_ctm_loop (fuel : nat) (ctm_credits : Z) : prog Z :=
  match fuel with
  | O => Stop Fuel
  | S fuel' =>
      pnum ← Pkt.pkt_ctm_alloc fuel' ctm_credits ISLAND Pkt.PKT_CTM_SIZE_2048 true true sig;
      if negb (pnum =? 0xffffffff) then Ret pnum else alloc_ctm_loop fuel' ctm_credits
  end.

Fixpoint alloc_mu_loop (fuel : nat) : prog Z :=
  match fuel with
  | O => Stop Fuel
  | S fuel' =>
      res ← Blm.blm_buf_alloc ring0 q_base (ct 0);
      if snd res =? 0 then Ret (nth 0 (fst res) 0) else alloc_mu_loop fuel'
  end.

(** struct nbi_meta_pkt_info; its length and flags are not assigned: [junk]. *)
Definition nbi_meta_pkt_info (isl pnum bls muptr junk0 junk1 : Z) : list Z :=
  [(wrap 6 isl ≪ 26) .| (wrap 10 pnum ≪ 16) .| (wrap 2 bls ≪ 14) .| wrap 14 junk0;
   (wrap 3 junk1 ≪ 29) .| wrap 29 muptr].

Definition alloc_packet_buffer (fuel : nat) (ctm_credits junk0 junk1 : Z) : prog Z :=
  _ ← Cls.cls_write [128] ctm_credits (ct 4);
  _ ← Cls.cls_write [64] (ctm_credits + 4) (ct 4);
  pnum ← alloc_ctm_loop fuel ctm_credits;
  buf ← alloc_mu_loop fuel;
  let pbuf := Pkt.pkt_ctm_ptr40 ISLAND pnum 0 in
  _ ← MemBulk.mem_write32 (nbi_meta_pkt_info ISLAND pnum 0 buf junk0 junk1) pbuf (ct 8);
  Ret (u64 (pbuf + PKT_NBI_OFFSET + MAC_PREPEND_BYTES + PKBUF_SHIF_BYTES)).

(** ** The start of a stage *)

Fixpoint wait_global_start_ (fuel : nat) (global_start : Z) : prog unit :=
  match fuel with
  | O => Stop Fuel
  | S fuel' =>
      t ← MemBulk.mem_read32 global_start (ct 4);
      if nth 0 t 0 =? 1 then Ret tt else wait_global_start_ fuel' global_start
  end.

Definition MEM_TYEP_CLS := 0.
Definition MEM_TYEP_CTM := 1.
Definition MEM_TYEP_EMEM := 3.

Fixpoint signal_all (n : nat) (i sig_no : Z) : prog unit :=
  match n with O => Ret tt | S n => _ ← MeC.signal_ctx i sig_no; signal_all n (i + 1) sig_no end.

(** [start_sig] is the number of the signal; every context waits for it. *)
Definition init_recv_event_workq (ctx : Z) (ring_id : carg) (ring_ptr mem_type : Z) (ring_size : carg)
    (thread_count : nat) (start_sig : Z) : prog unit :=
  _ ← (if ctx =? 0 then
         _ ← (if mem_type =? MEM_TYEP_CLS then Cls.cls_workq_setup ring_id ring_ptr ring_size
              else if mem_type =? MEM_TYEP_CTM then Ctm.ctm_ring_setup ring_id ring_ptr ring_size
              else if mem_type =? MEM_TYEP_EMEM then
                _ ← MemRing.mem_ring_setup ring_id ring_ptr ring_size; Ret tt
              else Ret tt);
         signal_all thread_count 0 start_sig
       else Ret tt);
  Vis (EArb A_wait) (fun _ => Ret tt).

(** Only the first context sets the ring up and signals; the others wait. *)
Lemma init_workq_other ctx ring_id ring_ptr mem_type ring_size thread_count start_sig : ctx <> 0 ->
  init_recv_event_workq ctx ring_id ring_ptr mem_type ring_size thread_count start_sig =
  Vis (EArb A_wait) (fun _ => Ret tt).
Proof. intros H. unfold init_recv_event_workq. by destruct (Z.eqb_spec ctx 0). Qed.
End Buffers.

End NfpLib.
