(* ===== verification/Cntrs.v ===== *)
(** lib/std/_c/cntrs.c: 64-bit counters in memory and in cluster scratch, and the packet
    and byte counters of the statistics engine. *)
From Stdlib Require Import ZArith Lia List String.
From stdpp Require Import base list numbers option strings.
From S2P Require Import Prelude Me.
#[local] Open Scope Z_scope.

Module Cntrs.

(** ** 64-bit counters *)

Definition cntr64_get_addr (base : Z) : Z := (u64 base ≫ 8) .& 0xffffffff.

(** [tgt[op, data, base, <<8, byte_offset, ref]] *)
Definition cntr_cmd (t : target) (op : string) (data : list Z) (base offset : Z) (ref : option Z)
    (sync : option sync_t) (ind : option Z) : cmd :=
  Cmd t op data base true (shl32 offset 3) ref sync ind.

Definition run_cmd (c : cmd) : prog unit := _ ← issue c; Ret tt.

Definition cntr64_clr (base offset : Z) : prog unit :=
  run_cmd (cntr_cmd T_mem "atomic_write_imm" [] base offset None None (Some (ind_data 2 0 9))).

Definition cntr64_incr (base offset : Z) : prog unit :=
  run_cmd (cntr_cmd T_mem "incr64" [] base offset None None None).

Definition cntr64_add (base offset : Z) (count : carg) : prog unit :=
  _ ← try_ctassert (is_ct count) (0 <? cval count);
  if is_ct count && (cval count =? 1) then
    run_cmd (cntr_cmd T_mem "incr64" [] base offset None None None)
  else if is_ct count && (cval count <=? 0xffff) then
    run_cmd (cntr_cmd T_mem "add64_imm" [] base offset None None (Some (ind_data 2 (cval count .& 0xffff) 8)))
  else
    run_cmd (cntr_cmd T_mem "add64" [cval count; 0] base offset (Some 1) (Some ctx_swap) None).

Definition cntr64_cls_get_addr (base : Z) : Z := (u64 base ≫ 8) .& 0xffffffff.

Definition cntr64_cls_clr (base offset : Z) : prog unit :=
  run_cmd (cntr_cmd T_cls "write" [0; 0] base offset (Some 2) (Some ctx_swap) None).

Definition cntr64_cls_incr (base offset : Z) : prog unit :=
  run_cmd (cntr_cmd T_cls "incr64" [] base offset None None None).

Definition cntr64_cls_add (base offset : Z) (count : carg) : prog unit :=
  _ ← try_ctassert (is_ct count) (0 <? cval count);
  if is_ct count && (cval count =? 1) then
    run_cmd (cntr_cmd T_cls "incr64" [] base offset None None None)
  else if is_ct count && (cval count <? 8) then
    run_cmd (cntr_cmd T_cls "add64_imm" [] base offset (Some (cval count)) None None)
  else if is_ct count && (cval count <=? 0xffff) then
    run_cmd (cntr_cmd T_cls "add64_imm" [] base offset None None (Some (ind_data 2 (cval count .& 0xffff) 0)))
  else
    run_cmd (cntr_cmd T_cls "add64" [cval count; 0] base offset (Some 2) (Some ctx_swap) None).

(** ** Packet and byte counters *)

Record pkt_cntr_addr := PktCntrAddr { hi : Z; lo : Z }.

Definition pkt_cntr_get_addr (base : Z) : pkt_cntr_addr :=
  PktCntrAddr ((u64 base ≫ 8) .& 0xff000000) ((u64 base ≫ 3) .& 0x0007ffff).

Definition STATS_ALL_32_BIT_UNPACKED : Z := 2.
Definition stats_push_cmd (base addrs : Z) : Z := (wrap 2 base ≪ 30) .| (wrap 19 addrs ≪ 3).
Definition stats_addr (base addrs : Z) : Z := (wrap 2 base ≪ 30) .| wrap 19 addrs.
Definition stats_log_cmd (pack bytes : Z) : Z := (wrap 2 pack ≪ 16) .| wrap 16 bytes.

Definition stats_cmd (op : string) (data : list Z) (base : pkt_cntr_addr) (raw ref : Z) (sync : sync_t) : cmd :=
  Cmd T_mem op data (hi base) true raw (Some ref) (Some sync) None.

Definition pkt_cntr_clr (base : pkt_cntr_addr) (offset : Z) (base_select : carg) (sync : sync_t) : prog unit :=
  _ ← try_ctassert (is_ct base_select) (cval base_select <=? 3);
  run_cmd (stats_cmd "stats_push_clear" [] base (stats_push_cmd (cval base_select) (add32 (lo base) offset)) 1 sync).

Definition pkt_cntr_add (base : pkt_cntr_addr) (offset : Z) (base_select : carg) (byte_count : Z)
    (sync : sync_t) : prog unit :=
  _ ← try_ctassert (is_ct base_select) (cval base_select <=? 3);
  run_cmd (stats_cmd "stats_log" [stats_addr (cval base_select) (add32 (lo base) offset)] base
             (stats_log_cmd STATS_ALL_32_BIT_UNPACKED (u16 byte_count)) 2 sync).

(** [unsigned long long] in two transfer registers: the first is the upper half. *)
Definition read_val (ws : list Z) : Z := (nth 0 ws 0 ≪ 32) .| nth 1 ws 0.
Definition counts_of (v : Z) : Z * Z :=
  (u32 ((v ≫ 3) .& 0x1fffffff), ((v ≫ 32) .| u64 (v ≪ 32)) .& 0x7ffffffff).

(** The packet count and the byte count. *)
Definition pkt_cntr_read_with (op : string) (base : pkt_cntr_addr) (offset : Z) (base_select : carg)
    : prog (Z * Z) :=
  _ ← try_ctassert (is_ct base_select) (cval base_select <=? 3);
  ws ← issue (stats_cmd op [] base (stats_push_cmd (cval base_select) (add32 (lo base) offset)) 1 ctx_swap);
  Ret (counts_of (read_val ws)).
Definition pkt_cntr_read := pkt_cntr_read_with "stats_push".
Definition pkt_cntr_read_and_clr := pkt_cntr_read_with "stats_push_clear".

(** ** What the commands do *)

(** A counter is at its base plus eight times its index, for a base aligned to 256. *)
Lemma cntr_address t op data base offset ref sync ind : in_word 40 base -> base mod 256 = 0 -> 0 <= offset < 2 ^ 29 ->
  cmd_addr (cntr_cmd t op data (cntr64_get_addr base) offset ref sync ind) = base + 8 * offset.
Proof.
  intros Hb H8 Ho. unfold in_word in Hb. unfold cmd_addr, cntr_cmd, cntr64_get_addr, shl32. cbn.
  rewrite (wrap_id 64 base) by (unfold in_word; lia). change 0xffffffff with (Z.ones 32).
  rewrite Z.land_ones, Z.shiftr_div_pow2, !Z.shiftl_mul_pow2 by lia.
  rewrite (wrap_id 32 (offset * _)) by (unfold in_word; lia).
  rewrite Z.mod_small; Z.div_mod_to_equations; lia.
Qed.

(** The amount an adding command adds. *)
Definition added (c : cmd) : option Z :=
  if bool_decide (c_op c = "incr64"%string) then Some 1
  else if bool_decide (c_op c = "add64_imm"%string) then
    match c_tgt c, c_prev c with
    | _, Some raw => if prev_ove_data raw =? 2 then Some (prev_data16 raw) else None
    | T_cls, None => c_ref c
    | _, None => None
    end
  else if bool_decide (c_op c = "add64"%string) then
    match c_data c with [low; high] => Some (low + high * 2 ^ 32) | _ => None end
  else None.

Lemma run_cmd_issues c : issues_one (run_cmd c) c (fun _ => tt).
Proof. done. Qed.

Lemma imm_added t op base offset v len : 0 <= v <= 0xffff -> op = "add64_imm"%string ->
  added (cntr_cmd t op [] base offset None None (Some (ind_data 2 (v .& 0xffff) len))) = Some v.
Proof.
  intros Hv ->. assert (E : v .& 0xffff = v) by (change 0xffff with (Z.ones 16); rewrite Z.land_ones, Z.mod_small; lia).
  rewrite E. unfold added, ind_data. cbn -[prev_alu_raw prev_ove_data prev_data16].
  rewrite prev_alu_ove_data, prev_alu_data16. cbn [pa_ove_data pa_data16].
  rewrite (wrap_id 16 v) by (unfold in_word; lia). by destruct t.
Qed.

(** However the amount is known, one command adds it: the increment, the immediate or the
    two words. *)
Lemma cntr64_add_one base offset count : 0 < cval count < 2 ^ 32 ->
  exists c, issues_one (cntr64_add base offset count) c (fun _ => tt) /\ added c = Some (cval count) /\
    c_tgt c = T_mem /\ c_hi c = base /\ c_lo c = shl32 offset 3.
Proof.
  intros Hc. unfold cntr64_add, mbind, prog_bind. rewrite try_ctassert_true by (apply Z.ltb_lt; lia).
  destruct (is_ct count && (cval count =? 1)) eqn:E1.
  { apply andb_true_iff in E1 as [_ E1%Z.eqb_eq]. eexists. split; [apply run_cmd_issues|]. by rewrite E1. }
  destruct (is_ct count && (cval count <=? 0xffff)) eqn:E2.
  { apply andb_true_iff in E2 as [_ E2%Z.leb_le]. eexists. split; [apply run_cmd_issues|].
    split; [apply imm_added; [lia|done]|done]. }
  eexists. split; [apply run_cmd_issues|]. unfold added. cbn. split; [f_equal; lia|done].
Qed.

Lemma cntr64_cls_add_one base offset count : 0 < cval count < 2 ^ 32 ->
  exists c, issues_one (cntr64_cls_add base offset count) c (fun _ => tt) /\ added c = Some (cval count) /\
    c_tgt c = T_cls /\ c_hi c = base /\ c_lo c = shl32 offset 3.
Proof.
  intros Hc. unfold cntr64_cls_add, mbind, prog_bind. rewrite try_ctassert_true by (apply Z.ltb_lt; lia).
  destruct (is_ct count && (cval count =? 1)) eqn:E1.
  { apply andb_true_iff in E1 as [_ E1%Z.eqb_eq]. eexists. split; [apply run_cmd_issues|]. by rewrite E1. }
  destruct (is_ct count && (cval count <? 8)) eqn:E2.
  { eexists. split; [apply run_cmd_issues|done]. }
  destruct (is_ct count && (cval count <=? 0xffff)) eqn:E3.
  { apply andb_true_iff in E3 as [_ E3%Z.leb_le]. eexists. split; [apply run_cmd_issues|].
    split; [apply imm_added; [lia|done]|done]. }
  eexists. split; [apply run_cmd_issues|]. unfold added. cbn. split; [f_equal; lia|done].
Qed.

(** A counter holds the packets above its 35 bits of bytes, the low word first in memory:
    reading it gives both back. *)
Lemma counts_of_fields pkts bytes : 0 <= pkts < 2 ^ 29 -> 0 <= bytes < 2 ^ 35 ->
  let c := pkts * 2 ^ 35 + bytes in
  counts_of (read_val [c mod 2 ^ 32; c / 2 ^ 32]) = (pkts, bytes).
Proof.
  intros Hp Hb. set (c := pkts * 2 ^ 35 + bytes). cbv zeta. unfold counts_of, read_val. cbn [nth].
  set (low := c mod 2 ^ 32). set (high := c / 2 ^ 32).
  assert (Hc : c = high * 2 ^ 32 + low) by (unfold low, high; Z.div_mod_to_equations; lia).
  assert (Hl : 0 <= low < 2 ^ 32) by (apply Z.mod_pos_bound; lia).
  assert (Hh : 0 <= high < 2 ^ 32) by (unfold high; Z.div_mod_to_equations; lia). clearbody low high.
  rewrite lor_shift_add by (unfold in_word; lia).
  change 0x1fffffff with (Z.ones 29). change 0x7ffffffff with (Z.ones 35).
  rewrite !Z.land_ones, !Z.shiftr_div_pow2, Z.shiftl_mul_pow2 by lia.
  assert (E : (low * 2 ^ 32 + high) / 2 ^ 32 = low) by (Z.div_mod_to_equations; lia).
  assert (E' : u64 ((low * 2 ^ 32 + high) * 2 ^ 32) = high ≪ 32).
  { unfold wrap. rewrite Z.shiftl_mul_pow2 by lia. Z.div_mod_to_equations. lia. }
  rewrite E, E', Z.lor_comm, lor_shift_add by (unfold in_word; lia).
  unfold c in Hc. f_equal.
  - rewrite wrap_id; [Z.div_mod_to_equations; lia|]. unfold in_word. Z.div_mod_to_equations. lia.
  - Z.div_mod_to_equations. lia.
Qed.

End Cntrs.
