(* ===== verification/Events.v ===== *)
(** lib/std/_c/event.c, write_alert.c and reorder.c: the event filters and the autopush
    entries of the cluster scratch, alerts on its writes, and the signals that keep contexts
    in order. *)
From Stdlib Require Import ZArith Lia List String.
From stdpp Require Import base list numbers option strings.
From S2P Require Import Prelude Me Cls.
#[local] Open Scope Z_scope.

Module Events.
Import MeC Cls.

(** ** Registers: nfp6000/nfp_cls.h and nfp6000/nfp_event.h *)

Definition NFP_CLS_EM : Z := 0x20000.
Definition NFP_CLS_EM_CSR_SPACING : Z := 8.
Definition NFP_CLS_AUTOPUSH_STATUS (x : Z) : Z := 0x30000 + x * 0x8.
Definition STATUS_MONITOR (x : Z) : Z := (x .& 3) ≪ 8.
Definition MONITOR_ONE_SHOT_ACK : Z := 3.
Definition STATUS_AUTOPUSH (x : Z) : Z := (x .& 0xf) ≪ 0.
Definition NFP_CLS_AUTOPUSH_SIGNAL (x : Z) : Z := 0x30200 + x * 0x8.
Definition MASTER_ISL_LO (x : Z) : Z := (x .& 0xf) ≪ 28.
Definition MASTER (x : Z) : Z := (x .& 0xf) ≪ 24.
Definition SIGNAL_REF (x : Z) : Z := (x .& 0x7f) ≪ 16.
Definition MASTER_ISL_HI (x : Z) : Z := (x .& 3) ≪ 14.
Definition DATA_REF (x : Z) : Z := (x .& 0x3fff) ≪ 0.
Definition NFP_CLS_AUTOPUSH_USER_EVENT : Z := 0x30400.
Definition NFP_CLS_AUTOPUSH_WRITE_ALERT_CFG : Z := 0x30600.
Definition CFG_ADDR_MASK (x : Z) : Z := (x .& 0xff) ≪ 16.
Definition CFG_ADDR_MATCH (x : Z) : Z := (x .& 0xff) ≪ 8.
Definition CFG_REGION (x : Z) : Z := (x .& 7) ≪ 4.
Definition CFG_EVENTS : Z := 1 ≪ 2.
Definition CFG_DATA63 : Z := 1 ≪ 1.
Definition CFG_ENABLE : Z := 1 ≪ 0.
Definition NFP_CLS_AUTOPUSH_WRITE_ALERT_PEND : Z := 0x30608.

Definition PROVIDER_INDEX (ind : Z) : Z := ind .& 3.
Definition PROVIDER_INDEX_CLS : Z := 0.
Definition PROVIDER_ISL (isl : Z) : Z := (isl .& 0x3f) ≪ 2.
Definition PROVIDER_NUM (isl pvdr : Z) : Z := PROVIDER_ISL isl .| PROVIDER_INDEX pvdr.
Definition EVENT_TYPE (type : Z) : Z := type .& 0xf.
Definition EVENT_TYPE_of (ev : Z) : Z := ev .& 0xf.
Definition VALUE_UPDATED : Z := 5.
Definition EVENT_SOURCE (src : Z) : Z := (src .& 0xfff) ≪ 4.
Definition EVENT_PROVIDER (pvdr : Z) : Z := (pvdr .& 0xff) ≪ 16.
Definition EVENT_PROVIDER_of (ev : Z) : Z := (ev ≫ 16) .& 0xff.
Definition EVENT_MATCH (pvdr src type : Z) : Z := EVENT_PROVIDER pvdr .| EVENT_SOURCE src .| EVENT_TYPE type.

Definition EM_FILTER (f : Z) : Z := f * 0x8.
Definition FILTER_STATUS : Z := 0.
Definition FILTER_MASK : Z := 2.
Definition FILTER_MATCH : Z := 3.
Definition FILTER_ACK : Z := 4.
Definition MASK_TYPE (x : Z) : Z := (x .& 7) ≪ 24.
Definition MASK_EVENT (x : Z) : Z := (x .& 0xffffff) ≪ 0.
Definition MATCH_EVENT (x : Z) : Z := (x .& 0xffffff) ≪ 0.

(** ** event.c *)

(** A filter is the address of its registers. *)
Definition event_cls_filter_handle (fnum : Z) : Z :=
  NFP_CLS_EM + NFP_CLS_EM_CSR_SPACING * EM_FILTER fnum.
Definition filter_reg (filter reg : Z) : Z := filter + NFP_CLS_EM_CSR_SPACING * reg.

(** The word of [evack] is read and dropped. *)
Definition event_cls_filter_setup (filter type match' mask status : Z) : prog unit :=
  let evmatch := MATCH_EVENT match' in
  let evmask := MASK_TYPE type .| MASK_EVENT mask in
  let evstatus := status in
  _ ← __cls_write [evmatch] (filter_reg filter FILTER_MATCH) (ct 4) (ct 4) sig_done;
  _ ← __cls_write [evmask] (filter_reg filter FILTER_MASK) (ct 4) (ct 4) sig_done;
  _ ← __cls_write [evstatus] (filter_reg filter FILTER_STATUS) (ct 4) (ct 4) sig_done;
  _ ← __cls_read (filter_reg filter FILTER_ACK) (ct 4) (ct 4) sig_done;
  wait_for_all.

Definition event_cls_filter_disable (filter : Z) : prog unit :=
  _ ← __cls_write [0] (filter_reg filter FILTER_MATCH) (ct 4) (ct 4) sig_done;
  _ ← __cls_write [0] (filter_reg filter FILTER_MASK) (ct 4) (ct 4) sig_done;
  _ ← __cls_write [0] (filter_reg filter FILTER_STATUS) (ct 4) (ct 4) sig_done;
  wait_for_all.

Definition event_cls_filter_ack (filter : Z) : prog Z :=
  ws ← cls_read (filter_reg filter FILTER_ACK) (ct 4);
  Ret (nth 0 ws 0).

Definition event_cls_user_event (evdata : Z) : prog unit :=
  cls_write [evdata] NFP_CLS_AUTOPUSH_USER_EVENT (ct 4).

(** [unsigned int] arguments: the shifts left of the masked fields stay inside a word. *)
Definition autopush_signal_word (master thd signum xfernum : Z) : Z :=
  MASTER_ISL_LO (master ≫ 4) .| MASTER master .|
  SIGNAL_REF (((thd .& 7) ≪ 4) .| (signum .& 0xf)) .|
  MASTER_ISL_HI (master ≫ 8) .|
  DATA_REF (((thd .& 7) ≪ 7) .| ((xfernum .& 0x3f) ≪ 2)).

Definition event_cls_autopush_signal_setup (apnum master thd signum xfernum : Z) : prog unit :=
  let apaddr := NFP_CLS_AUTOPUSH_SIGNAL apnum in
  let apcfg := autopush_signal_word master thd signum xfernum in
  cls_write [apcfg] apaddr (ct 4).

Definition __event_cls_autopush_filter_reset (fnum type autopush : Z) (sync : sync_t) : prog unit :=
  let apfaddr := NFP_CLS_AUTOPUSH_STATUS fnum in
  _ ← ctassert (bool_decide (sync = sig_done) || bool_decide (sync = ctx_swap));
  let apfwr := STATUS_MONITOR type .| STATUS_AUTOPUSH autopush in
  __cls_write [apfwr] apfaddr (ct 4) (ct 4) sync.

Definition event_cls_autopush_filter_reset (fnum type autopush : Z) : prog unit :=
  __event_cls_autopush_filter_reset fnum type autopush ctx_swap.

Definition event_cls_autopush_filter_disable (fnum : Z) : prog unit :=
  cls_write [0] (NFP_CLS_AUTOPUSH_STATUS fnum) (ct 4).

(** ** write_alert.c *)

Definition write_alert_word (addr_mask addr_match region events data63 : Z) : Z :=
  let wacfg_temp := if negb (events =? 0) then 0 .| CFG_EVENTS else 0 in
  let wacfg_temp := if negb (data63 =? 0) then wacfg_temp .| CFG_DATA63 else wacfg_temp in
  wacfg_temp .| (CFG_ADDR_MASK addr_mask .| CFG_ADDR_MATCH addr_match .| CFG_REGION region .| CFG_ENABLE).

Definition cls_write_alert_setup (addr_mask addr_match region events data63 : Z) : prog unit :=
  cls_write [write_alert_word addr_mask addr_match region events data63]
            NFP_CLS_AUTOPUSH_WRITE_ALERT_CFG (ct 4).

Definition cls_write_alert_disable : prog unit :=
  cls_write [0] NFP_CLS_AUTOPUSH_WRITE_ALERT_CFG (ct 4).

(** The destination of the read is [&wa_pending], the parameter, and not the registers it
    points to: the caller has no result. *)
Definition __cls_read_write_alert_pending (size : carg) (sync : sync_t) : prog unit :=
  _ ← try_ctassert (is_ct size) (cval size =? 8);
  _ ← __cls_read NFP_CLS_AUTOPUSH_WRITE_ALERT_PEND size size sync;
  Ret tt.
Definition cls_read_write_alert_pending (size : carg) : prog unit :=
  __cls_read_write_alert_pending size ctx_swap.

Definition cls_write_alert_event_reset (fnum apnum : Z) : prog unit :=
  event_cls_autopush_filter_reset fnum MONITOR_ONE_SHOT_ACK apnum.

Definition write_alert_event_mask : Z := EVENT_MATCH 0xFF 0 VALUE_UPDATED.
Definition write_alert_event_match (emeid : Z) : Z :=
  EVENT_MATCH (PROVIDER_NUM (emeid ≫ 4) PROVIDER_INDEX_CLS) 0 VALUE_UPDATED.

Definition cls_write_alert_event_setup (fnum apnum emeid ectx esig exfer : Z) : prog Z :=
  let event_mask := write_alert_event_mask in
  let event_match := write_alert_event_match emeid in
  let status := 0 in
  let filter := event_cls_filter_handle fnum in
  _ ← event_cls_filter_setup filter VALUE_UPDATED event_match event_mask status;
  _ ← event_cls_autopush_signal_setup apnum emeid ectx esig exfer;
  _ ← cls_write_alert_event_reset fnum apnum;
  Ret filter.

Definition cls_write_alert_event_disable (filter fnum : Z) : prog unit :=
  _ ← event_cls_autopush_filter_disable fnum;
  event_cls_filter_disable filter.

(** ** reorder.c *)

(** [sig] is the number of the signal; [ctx] what [ctx()] gives. *)
Definition reorder_start (start_ctx : carg) (sig : Z) : prog unit :=
  _ ← ctassert (is_ct start_ctx); signal_ctx (cval start_ctx) sig.
Definition reorder_signal (next_ctx : carg) (sig : Z) : prog unit :=
  _ ← ctassert (is_ct next_ctx); signal_ctx (cval next_ctx) sig.
Definition reorder_signal_next (sig : Z) : prog unit := signal_next_ctx sig.
Definition reorder_self (ctx sig : Z) : prog unit := signal_ctx ctx sig.

(** ** What they program *)

Definition wr (data : list Z) (addr : Z) (sync : sync_t) : event :=
  ECmd (cls_cmd "write_be" data addr 0 (Some 1) (Some sync) None).
Definition rd (addr : Z) (sync : sync_t) : event :=
  ECmd (cls_cmd "read_be" [] addr 0 (Some 1) (Some sync) None).

(** The masks of the fields. *)
Lemma field_masks x :
  x .& 3 = wrap 2 x /\ x .& 7 = wrap 3 x /\ x .& 0xf = wrap 4 x /\ x .& 0x3f = wrap 6 x /\
  x .& 0x7f = wrap 7 x /\ x .& 0xff = wrap 8 x /\ x .& 0xfff = wrap 12 x /\ x .& 0x3fff = wrap 14 x.
Proof. split_ands; by rewrite <- wrap_land_ones by lia. Qed.

Ltac masks :=
  repeat match goal with |- context [?x .& ?m] =>
    let H := fresh in
    pose proof (field_masks x) as H; destruct H as (?E & ?E & ?E & ?E & ?E & ?E & ?E & ?E);
    first [match goal with E : x .& m = _ |- _ => rewrite E; clear E end];
    repeat match goal with E : x .& _ = wrap _ x |- _ => clear E end
  end.

(** A masked field stays in its bits. *)
Lemma masked_range n k x : 0 <= n -> 0 <= k -> in_word (k + n) ((x .& Z.ones n) ≪ k).
Proof.
  intros Hn Hk. rewrite wrap_land_ones by lia. destruct (wrap_range n x Hn) as [H0 H1].
  unfold in_word. rewrite Z.shiftl_mul_pow2, Z.pow_add_r by lia. nia.
Qed.

Lemma provider_range isl pvdr : in_word 8 (PROVIDER_NUM isl pvdr).
Proof.
  apply in_word_lor; [lia|apply (masked_range 6 2); lia|].
  apply (in_word_mono 2); [lia|]. apply (in_word_land_r 2); [lia|]. unfold in_word. lia.
Qed.

(** The fields of an event: provider, source and type. *)
Lemma event_match_fields pvdr src type : in_word 8 pvdr ->
  EVENT_MATCH pvdr src type = pvdr * 2 ^ 16 + (wrap 12 src * 2 ^ 4 + wrap 4 type).
Proof.
  intros Hp. unfold EVENT_MATCH, EVENT_PROVIDER, EVENT_SOURCE, EVENT_TYPE.
  masks. rewrite (wrap_id 8 pvdr), <- Z.lor_assoc by (lia || done).
  pose proof (wrap_range 4 type ltac:(lia)) as Ht. pose proof (wrap_range 12 src ltac:(lia)) as Hs.
  rewrite !lor_shift_add; [done|lia|done|lia|].
  rewrite lor_shift_add by (lia || done). unfold in_word in *. lia.
Qed.

Lemma write_alert_event_match_range emeid : in_word 24 (write_alert_event_match emeid).
Proof.
  unfold write_alert_event_match. rewrite event_match_fields by apply provider_range.
  pose proof (provider_range (emeid ≫ 4) PROVIDER_INDEX_CLS) as Hp. unfold in_word in *.
  change (wrap 12 0) with 0. change (wrap 4 VALUE_UPDATED) with 5. lia.
Qed.

Section Hardware.
Context {St : Type} (h : St -> event -> reply * St).

(** Setting up a write alert programs its filter, then its autopush entry, and arms it
    last. *)
Lemma write_alert_event_setup_trace fnum apnum emeid ectx esig exfer s :
  let o := exec h (cls_write_alert_event_setup fnum apnum emeid ectx esig exfer) s in
  let filter := event_cls_filter_handle fnum in
  o_res o = inl filter /\
  o_trace o =
    [ wr [write_alert_event_match emeid] (filter_reg filter FILTER_MATCH) sig_done;
      wr [MASK_TYPE VALUE_UPDATED .| write_alert_event_mask] (filter_reg filter FILTER_MASK) sig_done;
      wr [0] (filter_reg filter FILTER_STATUS) sig_done;
      rd (filter_reg filter FILTER_ACK) sig_done;
      EArb A_wait;
      wr [autopush_signal_word emeid ectx esig exfer] (NFP_CLS_AUTOPUSH_SIGNAL apnum) ctx_swap;
      wr [(3 ≪ 8) .| (apnum .& 0xf)] (NFP_CLS_AUTOPUSH_STATUS fnum) ctx_swap ].
Proof.
  assert (E : MATCH_EVENT (write_alert_event_match emeid) = write_alert_event_match emeid).
  { unfold MATCH_EVENT. change 0xffffff with (Z.ones 24).
    by rewrite Z.shiftl_0_r, wrap_land_ones, wrap_id by (lia || apply write_alert_event_match_range). }
  cbn zeta. split; [done|]. rewrite <- E. done.
Qed.

(** Registers of filters, and of different filters, are not at one address. *)
Lemma filter_reg_inj f r f' r' : 0 <= r < 8 -> 0 <= r' < 8 ->
  filter_reg (event_cls_filter_handle f) r = filter_reg (event_cls_filter_handle f') r' -> f = f' /\ r = r'.
Proof. unfold filter_reg, event_cls_filter_handle, EM_FILTER, NFP_CLS_EM_CSR_SPACING. lia. Qed.

Lemma write_alert_setup_trace addr_mask addr_match region events data63 s :
  o_trace (exec h (cls_write_alert_setup addr_mask addr_match region events data63) s) =
    [wr [write_alert_word addr_mask addr_match region events data63] NFP_CLS_AUTOPUSH_WRITE_ALERT_CFG ctx_swap].
Proof. done. Qed.

End Hardware.

(** An autopush entry names the microengine by island and number, the signal by context and
    number, and the transfer register. *)
Lemma autopush_signal_fields master thd signum xfernum :
  let w := autopush_signal_word master thd signum xfernum in
  field 24 4 w = wrap 4 master /\
  (field 14 2 w ≪ 4) .| field 28 4 w = field 4 6 master /\
  field 20 3 w = wrap 3 thd /\ field 16 4 w = wrap 4 signum /\
  field 0 14 w = (wrap 3 thd ≪ 7) .| (wrap 6 xfernum ≪ 2).
Proof.
  unfold autopush_signal_word, MASTER_ISL_LO, MASTER, SIGNAL_REF, MASTER_ISL_HI, DATA_REF, field.
  cbn zeta. masks. split_ands; bitwise_as i; bits_cases; first [f_equal; lia | f_equal; f_equal; lia].
Qed.

(** The two modes of a microengine: in both the entry names one register of the context. *)
Lemma data_ref_modes thd xfernum : 0 <= thd < 8 ->
  (0 <= xfernum < 32 -> (thd ≪ 7) .| (xfernum ≪ 2) = 4 * (32 * thd + xfernum)) /\
  (thd mod 2 = 0 -> 0 <= xfernum < 64 -> (thd ≪ 7) .| (xfernum ≪ 2) = 4 * (64 * (thd / 2) + xfernum)).
Proof.
  intros Ht. split.
  - intros Hx. rewrite lor_shift_add; rewrite ?Z.shiftl_mul_pow2; unfold in_word; lia.
  - intros He Hx. assert (E : thd ≪ 7 = (thd / 2) ≪ 8) by (rewrite !Z.shiftl_mul_pow2 by lia; divlia).
    rewrite E, lor_shift_add; rewrite ?Z.shiftl_mul_pow2; unfold in_word; lia.
Qed.

(** The configuration of a write alert. *)
Lemma write_alert_fields addr_mask addr_match region events data63 :
  let w := write_alert_word addr_mask addr_match region events data63 in
  field 16 8 w = wrap 8 addr_mask /\ field 8 8 w = wrap 8 addr_match /\ field 4 3 w = wrap 3 region /\
  Z.testbit w 2 = negb (events =? 0) /\ Z.testbit w 1 = negb (data63 =? 0) /\ Z.testbit w 0 = true.
Proof.
  unfold write_alert_word, CFG_ADDR_MASK, CFG_ADDR_MATCH, CFG_REGION, field.
  cbn zeta. masks. destruct (events =? 0), (data63 =? 0); cbn [negb];
    change CFG_EVENTS with (Z.ones 1 ≪ 2); change CFG_DATA63 with (Z.ones 1 ≪ 1);
    change CFG_ENABLE with (Z.ones 1); split_ands;
    try bitwise_as i; bits_cases; try (f_equal; lia).
Qed.

(** ** Which events a filter sees *)

(** An event [ev] passes a filter when it agrees with the match word on the mask. *)
Definition passes (mask match' ev : Z) : bool := ev .& mask =? match' .& mask.

(** Under the mask of a write alert: the provider, and two bits of the type. *)
Lemma event_match_masked p s t : in_word 8 p ->
  EVENT_MATCH p s t .& write_alert_event_mask = p * 2 ^ 16 + (wrap 4 t .& 5).
Proof.
  intros Hp. unfold EVENT_MATCH, EVENT_PROVIDER, EVENT_SOURCE, EVENT_TYPE.
  masks. assert (H5 : in_word 16 (wrap 4 t .& 5)).
  { apply (in_word_mono 3); [lia|]. apply in_word_land_r; [lia|]. unfold in_word. lia. }
  rewrite <- (lor_shift_add p _ 16) by (lia || done). rewrite <- (wrap_id 8 p) at 2 by done.
  change write_alert_event_mask with ((Z.ones 8 ≪ 16) .| ((Z.ones 1 ≪ 2) .| Z.ones 1)).
  change 5 with ((Z.ones 1 ≪ 2) .| Z.ones 1).
  bitwise_as i. bits_cases.
Qed.

(** The filter of a write alert, made with the type as its mask, passes the updates it waits
    for; but of the types of events from the same provider it passes four. *)
Lemma write_alert_passes emeid pvdr src type :
  in_word 8 pvdr -> in_word 12 src -> in_word 4 type ->
  passes write_alert_event_mask (write_alert_event_match emeid) (EVENT_MATCH pvdr src type) = true <->
    pvdr = PROVIDER_NUM (emeid ≫ 4) PROVIDER_INDEX_CLS /\ In type [5; 7; 13; 15].
Proof.
  intros Hp Hs Ht. unfold passes. rewrite Z.eqb_eq.
  pose proof (provider_range (emeid ≫ 4) PROVIDER_INDEX_CLS) as Hq.
  unfold write_alert_event_match. revert Hq. generalize (PROVIDER_NUM (emeid ≫ 4) PROVIDER_INDEX_CLS). intros q Hq.
  rewrite !event_match_masked by done.
  change (wrap 4 VALUE_UPDATED .& 5) with 5. rewrite (wrap_id 4 type) by done.
  assert (H : In type (map Z.of_nat (seq 0 16))).
  { apply in_map_iff. exists (Z.to_nat type). unfold in_word in Ht. rewrite in_seq. lia. }
  vm_compute in H.
  repeat (destruct H as [<-|H];
    [match goal with |- context [?x .& 5] => let v := eval vm_compute in (x .& 5) in change (x .& 5) with v end;
     cbn [In]; lia|]).
  done.
Qed.

(** ** Contexts in order *)

Lemma reorder_self_word ctx sig St (h : St -> event -> reply * St) s :
  o_trace (exec h (reorder_self ctx sig) s) =
    [ECsrWr local_csr_same_me_signal (wrap 4 sig * 8 + wrap 3 ctx)].
Proof.
  cbn. unfold SIGNAL_SIG_NO, SIGNAL_CTX. masks.
  rewrite Z.shiftl_0_r, lor_shift_add by (lia || (apply wrap_range; lia)). done.
Qed.

End Events.
