(* ===== verification/RemoteMe.v ===== *)
(** lib/nfp/_c/remote_me.c: the registers of another microengine, over the reflect commands
    of the cluster target. *)
From Stdlib Require Import ZArith Lia List String.
From stdpp Require Import base list numbers option strings.
From S2P Require Import Prelude Me.
#[local] Open Scope Z_scope.

Module RemoteMe.

Definition CT_REFLECT_ISL_MASK : Z := 2 ^ 6 - 1.
Definition CT_REFLECT_MASTER_MASK : Z := 2 ^ 4 - 1.
Definition CT_REFLECT_REG_MASK : Z := 2 ^ 8 - 1.
Definition CT_REFLECT_MAX_ME_NUM : Z := CT_REFLECT_MASTER_MASK - 4.

Definition MEREG_CT_REFLECT_ADDR (isl me is_csr addr : Z) : Z :=
  ((isl .& CT_REFLECT_ISL_MASK) ≪ 24) .| (if is_csr =? 0 then 0 else 0x10000) .|
  ((add32 me 4 .& CT_REFLECT_MASTER_MASK) ≪ 10) .| ((addr .& CT_REFLECT_REG_MASK) ≪ 2).

(** Where a register is: island, microengine, whether it is a CSR, and its address. *)
Record remote_reg := RemoteReg { island : carg; me : carg; reg_is_csr : carg; reg_addr : carg }.
Definition reflect_addr (r : remote_reg) : Z :=
  MEREG_CT_REFLECT_ADDR (cval (island r)) (cval (me r)) (cval (reg_is_csr r)) (cval (reg_addr r)).

Definition remote_me_reg_check_params (r : remote_reg) (size : carg) : prog unit :=
  _ ← try_ctassert (is_ct (island r)) ((cval (island r) .& not32 CT_REFLECT_ISL_MASK) =? 0);
  _ ← try_ctassert (is_ct (me r)) (cval (me r) <=? CT_REFLECT_MAX_ME_NUM);
  _ ← try_ctassert (is_ct (reg_addr r)) ((cval (reg_addr r) .& not32 CT_REFLECT_REG_MASK) =? 0);
  _ ← try_ctassert (is_ct size) (is_aligned (cval size) 4);
  try_ctassert (is_ct size) ((4 <=? cval size) && (cval size <=? 32)).

(** [ct[op, *data, addr, 0, cnt]] *)
Definition reflect (op : string) (data : list Z) (r : remote_reg) (size : carg) (sync : option sync_t) : cmd :=
  Cmd T_ct op data (reflect_addr r) false 0 (Some (cval size ≫ 2)) sync None.

Definition __remote_me_reg_read_signal_local (r : remote_reg) (size : carg) (sync : sync_t) : prog (list Z) :=
  _ ← remote_me_reg_check_params r size;
  issue (reflect "reflect_read_sig_init" [] r size (Some sync)).
Definition remote_me_reg_read_signal_local (r : remote_reg) (size : carg) : prog (list Z) :=
  __remote_me_reg_read_signal_local r size ctx_swap.

Definition remote_me_reg_read_signal_none (r : remote_reg) (size : carg) : prog (list Z) :=
  _ ← remote_me_reg_check_params r size;
  issue (reflect "reflect_read_none" [] r size None).

Definition __remote_me_reg_write_signal_local (data : list Z) (r : remote_reg) (size : carg) (sync : sync_t)
    : prog unit :=
  _ ← remote_me_reg_check_params r size;
  _ ← issue (reflect "reflect_write_sig_init" data r size (Some sync)); Ret tt.
Definition remote_me_reg_write_signal_local (data : list Z) (r : remote_reg) (size : carg) : prog unit :=
  __remote_me_reg_write_signal_local data r size ctx_swap.

Definition remote_me_reg_write_signal_none (data : list Z) (r : remote_reg) (size : carg) : prog unit :=
  _ ← remote_me_reg_check_params r size;
  _ ← issue (reflect "reflect_write_none" data r size None); Ret tt.

Definition remote_csr_read (island me reg_addr : carg) : prog Z :=
  data ← remote_me_reg_read_signal_local (RemoteReg island me (ct 1) reg_addr) (ct 4);
  Ret (nth 0 data 0).

Definition remote_csr_write (island me reg_addr : carg) (val : Z) : prog unit :=
  remote_me_reg_write_signal_local [val] (RemoteReg island me (ct 1) reg_addr) (ct 4).

(** ** What is reached *)

(** A register that exists: the ranges the code asserts. *)
Definition reg_ok (r : remote_reg) : Prop :=
  in_word 6 (cval (island r)) /\ 0 <= cval (me r) <= 11 /\ in_word 8 (cval (reg_addr r)).

Lemma masked_zero n x : 0 <= n <= 32 -> in_word n x -> (x .& not32 (2 ^ n - 1)) = 0.
Proof.
  intros Hn Hx. apply Z.bits_inj'. intros i Hi. rewrite Z.land_spec, Z.testbit_0_l.
  rewrite not32_testbit; [|unfold in_word; pose proof (Z.pow_le_mono_r 2 n 32); lia|lia].
  replace (2 ^ n - 1) with (Z.ones n) by (rewrite Z.ones_equiv; lia). rewrite testbit_ones by lia. destruct (Z.ltb_spec i n); [by rewrite !andb_false_r|].
  by rewrite (testbit_high n x) by (done || lia).
Qed.

Lemma check_params_ok {A} r size (p : prog A) : reg_ok r -> cval size mod 4 = 0 -> 4 <= cval size <= 32 ->
  bind (remote_me_reg_check_params r size) (fun _ => p) = p.
Proof.
  intros (Hi & Hm & Ha) H4 Hs. unfold remote_me_reg_check_params, mbind, prog_bind, is_aligned.
  unfold CT_REFLECT_ISL_MASK, CT_REFLECT_REG_MASK.
  rewrite !masked_zero by (done || lia). rewrite H4.
  rewrite !try_ctassert_true by (done || (apply Z.leb_le; unfold CT_REFLECT_MAX_ME_NUM, CT_REFLECT_MASTER_MASK; lia)).
  apply try_ctassert_true, andb_true_iff; split; apply Z.leb_le; lia.
Qed.

(** The address names the register, so that two registers have two addresses. *)
Lemma reflect_addr_fields r : reg_ok r ->
  let a := reflect_addr r in
  field 24 6 a = cval (island r) /\ Z.testbit a 16 = negb (cval (reg_is_csr r) =? 0) /\
  field 10 4 a = cval (me r) + 4 /\ field 2 8 a = cval (reg_addr r) /\ in_word 32 a.
Proof.
  intros (Hi & Hm & Ha). unfold reflect_addr, MEREG_CT_REFLECT_ADDR, add32.
  assert (Hm' : in_word 4 (cval (me r) + 4)) by (unfold in_word; lia).
  rewrite (wrap_id 32 (_ + 4)) by (unfold in_word; lia).
  unfold CT_REFLECT_ISL_MASK, CT_REFLECT_MASTER_MASK, CT_REFLECT_REG_MASK.
  change (2 ^ 6 - 1) with (Z.ones 6). change (2 ^ 4 - 1) with (Z.ones 4). change (2 ^ 8 - 1) with (Z.ones 8).
  rewrite !wrap_land_ones, !wrap_id by (done || lia).
  set (bit := if _ =? 0 then 0 else 0x10000).
  assert (E : ((cval (island r) ≪ 24 .| bit) .| (cval (me r) + 4) ≪ 10) .| cval (reg_addr r) ≪ 2 =
    cval (island r) * 2 ^ 24 + (bit + ((cval (me r) + 4) * 2 ^ 10 + cval (reg_addr r) * 2 ^ 2))).
  { unfold in_word in *. rewrite <- !Z.lor_assoc.
    assert (Ez : forall b, 0 <= b < 2 ^ 16 -> bit .| b = bit + b).
    { intros b Hb. unfold bit. destruct (_ =? 0); [done|]. apply (lor_shift_add 1 b 16); [lia|done]. }
    rewrite (Z.shiftl_mul_pow2 (cval (reg_addr r))), (lor_shift_add (cval (me r) + 4)) by (unfold in_word; lia).
    rewrite Ez, lor_shift_add by (unfold in_word, bit; try destruct (_ =? 0); lia). done. }
  rewrite E. unfold in_word in *. rewrite !field_eq by lia.
  assert (Hb : bit = if cval (reg_is_csr r) =? 0 then 0 else 2 ^ 16) by done.
  rewrite Z.testbit_odd, Z.shiftr_div_pow2 by lia.
  split_ands; try (rewrite Hb; destruct (_ =? 0); divlia).
  rewrite Hb. destruct (_ =? 0); cbn [negb]; rewrite Zodd_mod; [apply Z.eqb_neq|apply Z.eqb_eq]; divlia.
Qed.

(** Every access is one command to the register, of the words of its size. *)
Lemma remote_accesses r size data sync : reg_ok r -> cval size mod 4 = 0 -> 4 <= cval size <= 32 ->
  issues_one (__remote_me_reg_read_signal_local r size sync) (reflect "reflect_read_sig_init" [] r size (Some sync)) (fun ws => ws) /\
  issues_one (remote_me_reg_read_signal_none r size) (reflect "reflect_read_none" [] r size None) (fun ws => ws) /\
  issues_one (__remote_me_reg_write_signal_local data r size sync) (reflect "reflect_write_sig_init" data r size (Some sync)) (fun _ => tt) /\
  issues_one (remote_me_reg_write_signal_none data r size) (reflect "reflect_write_none" data r size None) (fun _ => tt).
Proof.
  intros Hr H4 Hs. unfold __remote_me_reg_read_signal_local, remote_me_reg_read_signal_none,
    __remote_me_reg_write_signal_local, remote_me_reg_write_signal_none, mbind, prog_bind.
  rewrite !check_params_ok by done. split_ands; done.
Qed.

(** A CSR of another microengine that holds what was written gives it back. *)
Section Csr.
Context {St : Type} (h : St -> event -> reply * St) (rd : St -> Z -> Z).
Hypothesis h_write : forall s c v, c_tgt c = T_ct -> c_op c = "reflect_write_sig_init"%string -> c_data c = [v] ->
  c_ref c = Some 1 -> rd (snd (h s (ECmd c))) (cmd_addr c) = v.
Hypothesis h_read : forall s c, c_tgt c = T_ct -> c_op c = "reflect_read_sig_init"%string -> c_ref c = Some 1 ->
  r_words (fst (h s (ECmd c))) = [rd s (cmd_addr c)].

Lemma remote_csr_write_read island me reg_addr val s : reg_ok (RemoteReg island me (ct 1) reg_addr) ->
  wp h (_ ← remote_csr_write island me reg_addr val; remote_csr_read island me reg_addr) (fun v _ => v = val) s.
Proof.
  intros Hr. unfold remote_csr_write, remote_csr_read, remote_me_reg_write_signal_local, remote_me_reg_read_signal_local,
    __remote_me_reg_write_signal_local, __remote_me_reg_read_signal_local, mbind, prog_bind.
  rewrite !check_params_ok by (done || cbn; lia). cbn -[reflect].
  set (cw := reflect "reflect_write_sig_init" _ _ _ _). set (cr := reflect "reflect_read_sig_init" _ _ _ _).
  rewrite (h_read _ cr) by done. cbn. by apply (h_write s cw).
Qed.
End Csr.

End RemoteMe.
