(* ===== verification/MemEngines.v ===== *)
(** lib/nfp/_c/mem_lkup.c and mem_pe.c: the lookup engine of a memory unit, and the packet
    engine's copies between memory and CTM. *)
From Stdlib Require Import ZArith Lia List String.
From stdpp Require Import base list numbers option strings.
From S2P Require Import Prelude Me MemRing.
#[local] Open Scope Z_scope.

Module MemEngines.

(** ** mem_lkup.c *)

Definition HASH_BASE_ADDR_FIELD_MASK : Z := 2 ^ 17 - 1.
Definition HASH_BASE_ADDR_MIN_ALIGN : Z := 0x10000.
Definition HASH_MAX_NUM_BUCKETS : Z := 2 ^ 17.
Definition HASH_MIN_NUM_BUCKETS : Z := 2 ^ 10.
Definition HASH_16B_TABLE_SIZE_MAX : Z := HASH_MAX_NUM_BUCKETS ≪ 4.
Definition HASH_16B_TABLE_SIZE_MIN : Z := HASH_MIN_NUM_BUCKETS ≪ 4.
Definition HASH_64B_TABLE_SIZE_MAX : Z := HASH_MAX_NUM_BUCKETS ≪ 6.
Definition HASH_64B_TABLE_SIZE_MIN : Z := HASH_MIN_NUM_BUCKETS ≪ 6.

Inductive hash_lkup_opcode :=
  | HASH_OP_CAMR32_16B | HASH_OP_CAMR32_64B | HASH_OP_CAMR48_64B | HASH_OP_CAMR64_16B | HASH_OP_CAMR64_64B
  | HASH_OP_CAM32_16B | HASH_OP_CAM32_64B | HASH_OP_CAM48_16B | HASH_OP_CAM48_64B | HASH_OP_CAM64_16B
  | HASH_OP_CAM64_64B | HASH_OP_CAM128_16B | HASH_OP_CAM128_64B.

Definition opcode_val (o : hash_lkup_opcode) : Z :=
  match o with
  | HASH_OP_CAMR32_16B => 0x0 | HASH_OP_CAMR32_64B => 0x1 | HASH_OP_CAMR48_64B => 0x5 | HASH_OP_CAMR64_16B => 0x8
  | HASH_OP_CAMR64_64B => 0x9 | HASH_OP_CAM32_16B => 0x10 | HASH_OP_CAM32_64B => 0x11 | HASH_OP_CAM48_16B => 0x14
  | HASH_OP_CAM48_64B => 0x15 | HASH_OP_CAM64_16B => 0x18 | HASH_OP_CAM64_64B => 0x19 | HASH_OP_CAM128_16B => 0x1c
  | HASH_OP_CAM128_64B => 0x1d
  end.

Definition HASH_IS_64B_TABLE (o : hash_lkup_opcode) : bool := negb ((opcode_val o .& 1) =? 0).

(** struct hash_lkup_addr: [addr_hi], and the fields of [addr_lo]. *)
Record hash_lkup_addr := HashLkupAddr {
  la_addr_hi : Z; la_use_internal_le : Z; la_direct_lkup : Z; la_hash_lkup : Z; la_base_addr : Z;
  la_table_size : Z; la_hash_opcode : Z; la_start_pos : Z }.
Definition lkup_addr_lo (a : hash_lkup_addr) : Z :=
  (wrap 1 (la_use_internal_le a) ≪ 31) .| (wrap 1 (la_direct_lkup a) ≪ 30) .| (wrap 1 (la_hash_lkup a) ≪ 29)
  .| (wrap 17 (la_base_addr a) ≪ 12) .| (wrap 3 (la_table_size a) ≪ 8) .| (wrap 6 (la_hash_opcode a) ≪ 2)
  .| wrap 2 (la_start_pos a).

Definition table_size_ok (o : hash_lkup_opcode) (size : Z) : bool :=
  if HASH_IS_64B_TABLE o then (HASH_64B_TABLE_SIZE_MIN <=? size) && (size <=? HASH_64B_TABLE_SIZE_MAX)
  else (HASH_16B_TABLE_SIZE_MIN <=? size) && (size <=? HASH_16B_TABLE_SIZE_MAX).

Definition hash_init_lkup_addr (addr : carg) (opcode : hash_lkup_opcode) (data_offset table_size : carg)
    : prog hash_lkup_addr :=
  let start_pos := (cval data_offset ≫ 5) .& 0x3 in
  _ ← try_ctassert (is_ct addr) (is_aligned (cval addr) HASH_BASE_ADDR_MIN_ALIGN);
  _ ← try_ctassert (is_ct data_offset) (is_aligned (cval data_offset) 32 && (cval data_offset <? 128));
  _ ← try_ctassert (is_ct table_size) (MemRing.is_log2 (cval table_size));
  _ ← try_ctassert (is_ct addr && is_ct table_size) (is_aligned (cval addr) (cval table_size));
  _ ← try_ctassert (is_ct table_size) (table_size_ok opcode (cval table_size));
  let table_sz_enc := sub32 (Z.log2 (cval table_size)) (if HASH_IS_64B_TABLE opcode then 16 else 14) .& 0x7 in
  Ret (HashLkupAddr ((u64 (cval addr) ≫ 8) .& 0xff000000) ((u64 (cval addr) ≫ 39) .& 0x1) 0 1
         ((u64 (cval addr) ≫ 16) .& HASH_BASE_ADDR_FIELD_MASK) table_sz_enc (opcode_val opcode) start_pos).

(** The key is in the registers the command takes, and the result in those it fills. *)
Definition hash_generic_lkup (data : list Z) (addr : carg) (opcode : hash_lkup_opcode)
    (data_offset data_size table_size : carg) (sync : sync_t) : prog (list Z) :=
  let cnt := if cval data_size <=? 8 then 1 else 2 in
  _ ← try_ctassert (is_ct data_size) ((cval data_size =? 8) || (cval data_size =? 16));
  _ ← ctassert (bool_decide (sync = sig_done));
  lkup_addr ← hash_init_lkup_addr addr opcode data_offset table_size;
  issue (Cmd T_mem "lookup" data (la_addr_hi lkup_addr) true (lkup_addr_lo lkup_addr) (Some cnt) (Some sig_done) None).

Definition and_wait {A} (p : prog A) : prog A :=
  x ← p; Vis (EArb A_wait) (fun _ => Ret x).

Section Lookup.
Variables (data : list Z) (addr data_offset data_size table_size : carg).

Definition __mem_lkup_cam32_16B (sync : sync_t) : prog (list Z) :=
  hash_generic_lkup data addr HASH_OP_CAM32_16B data_offset data_size table_size sync.
Definition mem_lkup_cam32_16B : prog (list Z) := and_wait (__mem_lkup_cam32_16B sig_done).

Definition __mem_lkup_cam128_64B (sync : sync_t) : prog (list Z) :=
  hash_generic_lkup data addr HASH_OP_CAM128_64B data_offset data_size table_size sync.
Definition mem_lkup_cam128_64B : prog (list Z) := and_wait (__mem_lkup_cam128_64B sig_done).

Definition __mem_lkup_cam48_64B (sync : sync_t) : prog (list Z) :=
  hash_generic_lkup data addr HASH_OP_CAM48_64B data_offset data_size table_size sync.
Definition mem_lkup_cam48_64B : prog (list Z) := and_wait (__mem_lkup_cam48_64B sig_done).

Definition __mem_lkup_cam_r_48_64B (sync : sync_t) : prog (list Z) :=
  hash_generic_lkup data addr HASH_OP_CAMR48_64B data_offset data_size table_size sync.
Definition mem_lkup_cam_r_48_64B : prog (list Z) := and_wait (__mem_lkup_cam_r_48_64B sig_done).
End Lookup.

(** The macros of mem_lkup.h for who fills the tables: the bucket a key is looked up in, and
    the position of the bits it is compared by. *)
Definition MEM_LKUP_CAM_WORD_OFFSET (data_offset : Z) : Z := data_offset ≫ 5.
Definition MEM_LKUP_CAM_16B_NUM_ENTRIES (table_size : Z) : Z := table_size ≫ 4.
Definition MEM_LKUP_CAM_16B_BUCKET_IDX (data : list Z) (data_offset table_size : Z) : Z :=
  nth (Z.to_nat (MEM_LKUP_CAM_WORD_OFFSET data_offset .& 0x3)) data 0 .& (MEM_LKUP_CAM_16B_NUM_ENTRIES table_size - 1).
Definition MEM_LKUP_CAM_16B_KEY_OFFSET (data_offset table_size : Z) : Z :=
  data_offset + Z.log2 (MEM_LKUP_CAM_16B_NUM_ENTRIES table_size).
Definition MEM_LKUP_CAM_64B_NUM_ENTRIES (table_size : Z) : Z := table_size ≫ 6.
Definition MEM_LKUP_CAM_64B_BUCKET_IDX (data : list Z) (data_offset table_size : Z) : Z :=
  nth (Z.to_nat (MEM_LKUP_CAM_WORD_OFFSET data_offset .& 0x3)) data 0 .& (MEM_LKUP_CAM_64B_NUM_ENTRIES table_size - 1).
Definition MEM_LKUP_CAM_64B_KEY_OFFSET (data_offset table_size : Z) : Z :=
  data_offset + Z.log2 (MEM_LKUP_CAM_64B_NUM_ENTRIES table_size).

(** ** mem_pe.c *)

(** [__ISLAND], the island the program is compiled for. *)
Section PacketEngine.
Variable ISLAND : Z.

Definition MEM_PE_CMD (cmd : string) (mem_addr ctm_addr size : Z) (sync : sync_t) (shift : Z) : prog unit :=
  let count := size ≫ shift in
  let addr_hi := u32 (u64 mem_addr ≫ 32) in
  let addr_lo := u64 mem_addr .& 0xffffffff in
  let alu_ind := prev_alu_raw (PrevAlu 0 0 2 1 1 (sub32 count 1) 0 0 ((u32 ctm_addr ≫ 3) .& 0x7fff)) in
  let csr_ind := wrap 8 (addr_hi .& 0xff) in
  let addr_hi := shl32 (0x80 .| ISLAND) 24 in
  _ ← local_csr_write local_csr_cmd_indirect_ref_0 csr_ind;
  _ ← issue (Cmd T_mem cmd [] addr_hi true addr_lo None (Some sync) (Some alu_ind));
  Ret tt.

Definition __mem_pe_dma_mu_to_ctm (ctm_addr mem_addr : Z) (size : carg) (sync : sync_t) : prog unit :=
  _ ← try_ctassert (is_ct size) (is_aligned (cval size) 64);
  _ ← try_ctassert (is_ct size) (cval size <=? 2048);
  MEM_PE_CMD "pe_dma_from_memory_buffer" mem_addr ctm_addr (cval size) sync 6.
Definition mem_pe_dma_mu_to_ctm (ctm_addr mem_addr : Z) (size : carg) : prog unit :=
  __mem_pe_dma_mu_to_ctm ctm_addr mem_addr size ctx_swap.

Definition __mem_pe_dma_ctm_to_mu (mem_addr ctm_addr : Z) (size : carg) (sync : sync_t) : prog unit :=
  _ ← try_ctassert (is_ct size) (is_aligned (cval size) 64);
  _ ← try_ctassert (is_ct size) (cval size <=? 2048);
  MEM_PE_CMD "pe_dma_to_memory_buffer" mem_addr ctm_addr (cval size) sync 6.
Definition mem_pe_dma_ctm_to_mu (mem_addr ctm_addr : Z) (size : carg) : prog unit :=
  __mem_pe_dma_ctm_to_mu mem_addr ctm_addr size ctx_swap.
End PacketEngine.

(** [mem[op, --, addr_lo, 0, <<8, 1]]: the shift is on the second operand, which is zero. *)
Definition __mem_pe_dma_ctm_to_mu_packet (mem_addr : Z) (pnum offset : carg) (sync : sync_t) : prog unit :=
  _ ← try_ctassert (is_ct pnum) (cval pnum <=? 1024);
  _ ← try_ctassert (is_ct offset) (cval offset <=? 2048);
  let copy_offset := (cval offset ≫ 3) .& 0xff in
  let addr := u64 mem_addr ≫ 11 in
  let addr_hi := u32 (addr ≫ 24) .& 0x1f in
  let addr_lo := u32 ((addr ≪ 8) .| copy_offset) in
  let alu_ind := prev_alu_raw (PrevAlu 0 0 2 1 1 addr_hi 0 0 (cval pnum)) in
  let csr_ind := wrap 8 copy_offset in
  _ ← local_csr_write local_csr_cmd_indirect_ref_0 csr_ind;
  _ ← issue (Cmd T_mem "pe_dma_to_memory_packet" [] addr_lo false 0 (Some 1) (Some sync) (Some alu_ind));
  Ret tt.
Definition mem_pe_dma_ctm_to_mu_packet (mem_addr : Z) (pnum offset : carg) : prog unit :=
  __mem_pe_dma_ctm_to_mu_packet mem_addr pnum offset ctx_swap.

(** ** The lookup a table gets *)

(** What the lookup engine reads from the address: the base of the table, its number of
    buckets and their size, and the word of the key. *)
Definition le_base (a : hash_lkup_addr) : Z := (field 24 8 (la_addr_hi a) ≪ 32) .| (field 12 17 (lkup_addr_lo a) ≪ 16).
Definition le_buckets (a : hash_lkup_addr) : Z := 2 ^ (10 + field 8 3 (lkup_addr_lo a)).
Definition le_bucket_size (a : hash_lkup_addr) : Z := if Z.testbit (lkup_addr_lo a) 2 then 64 else 16.
Definition le_word (a : hash_lkup_addr) : Z := field 0 2 (lkup_addr_lo a).

Lemma lkup_fields a :
  field 12 17 (lkup_addr_lo a) = wrap 17 (la_base_addr a) /\ field 8 3 (lkup_addr_lo a) = wrap 3 (la_table_size a) /\
  field 2 6 (lkup_addr_lo a) = wrap 6 (la_hash_opcode a) /\ field 0 2 (lkup_addr_lo a) = wrap 2 (la_start_pos a) /\
  field 29 3 (lkup_addr_lo a) =
    wrap 1 (la_use_internal_le a) * 4 + (wrap 1 (la_direct_lkup a) * 2 + wrap 1 (la_hash_lkup a)).
Proof.
  unfold lkup_addr_lo.
  pose proof (wrap_range 1 (la_use_internal_le a) ltac:(lia)) as H1. pose proof (wrap_range 1 (la_direct_lkup a) ltac:(lia)) as H2.
  pose proof (wrap_range 1 (la_hash_lkup a) ltac:(lia)) as H3. pose proof (wrap_range 17 (la_base_addr a) ltac:(lia)) as H4.
  pose proof (wrap_range 3 (la_table_size a) ltac:(lia)) as H5. pose proof (wrap_range 6 (la_hash_opcode a) ltac:(lia)) as H6.
  pose proof (wrap_range 2 (la_start_pos a) ltac:(lia)) as H7.
  rewrite <- !Z.lor_assoc. unfold in_word in *.
  rewrite (lor_shift_add (wrap 6 _)), (lor_shift_add (wrap 3 _)), (lor_shift_add (wrap 17 _)), (lor_shift_add (wrap 1 (la_hash_lkup a))),
    (lor_shift_add (wrap 1 (la_direct_lkup a))), (lor_shift_add (wrap 1 (la_use_internal_le a)))
    by (unfold in_word; lia).
  rewrite !field_eq by lia. split_ands; divlia.
Qed.

(** The base survives its two fields, which share a bit. *)
Lemma lkup_base addr : in_word 40 addr -> addr mod 2 ^ 16 = 0 ->
  (field 24 8 ((addr ≫ 8) .& 0xff000000) ≪ 32) .| (wrap 17 ((addr ≫ 16) .& HASH_BASE_ADDR_FIELD_MASK) ≪ 16) = addr.
Proof.
  intros Ha H16. change 0xff000000 with (Z.ones 8 ≪ 24). change HASH_BASE_ADDR_FIELD_MASK with (Z.ones 17).
  assert (E : addr = (addr ≫ 16) ≪ 16) by (rewrite Z.shiftr_div_pow2, Z.shiftl_mul_pow2 by lia; divlia).
  assert (Hq : in_word 24 (addr ≫ 16)) by (unfold in_word in *; rewrite Z.shiftr_div_pow2 by lia; divlia).
  rewrite E at 1 3. revert Hq. generalize (addr ≫ 16). clear. intros q Hq.
  rewrite <- (wrap_id 24 q) by done. unfold field. bitwise_as i. bits_cases; try (f_equal; lia).
  replace (i - 32 + 24 + 8 - 16) with (i - 16) by lia. apply orb_diag.
Qed.

Lemma lkup_size opcode k : (if HASH_IS_64B_TABLE opcode then 16 <= k <= 23 else 14 <= k <= 21) ->
  2 ^ (10 + wrap 3 (sub32 (Z.log2 (2 ^ k)) (if HASH_IS_64B_TABLE opcode then 16 else 14) .& 0x7)) *
  (if HASH_IS_64B_TABLE opcode then 64 else 16) = 2 ^ k.
Proof.
  intros Hk. change 0x7 with (Z.ones 3). rewrite wrap_land_ones, wrap_idem by lia. unfold sub32.
  destruct (HASH_IS_64B_TABLE opcode); rewrite Z.log2_pow2 by lia;
    rewrite !wrap_id by (unfold in_word; try rewrite wrap_id; unfold in_word; lia).
  - change 64 with (2 ^ 6). rewrite <- Z.pow_add_r by lia. f_equal. lia.
  - change 16 with (2 ^ 4). rewrite <- Z.pow_add_r by lia. f_equal. lia.
Qed.

(** The engine takes the size of the buckets from the operation. *)
Lemma lkup_bit_64 h u d l b t o st :
  Z.testbit (lkup_addr_lo (HashLkupAddr h u d l b t (opcode_val o) st)) 2 = HASH_IS_64B_TABLE o.
Proof.
  set (a := HashLkupAddr _ _ _ _ _ _ _ _). destruct (lkup_fields a) as (_ & _ & E & _).
  assert (Et : Z.testbit (lkup_addr_lo a) 2 = Z.testbit (field 2 6 (lkup_addr_lo a)) 0).
  { unfold field. rewrite testbit_wrap, testbit_shiftr by lia. done. }
  rewrite Et, E. by destruct o.
Qed.

(** A table that satisfies the assertions is the one the engine looks in: at its address, of
    its size, with the buckets of the operation. *)
Lemma lookup_table addr opcode data_offset table_size k :
  in_word 40 (cval addr) -> cval addr mod cval table_size = 0 -> cval addr mod 2 ^ 16 = 0 ->
  cval table_size = 2 ^ k -> (if HASH_IS_64B_TABLE opcode then 16 <= k <= 23 else 14 <= k <= 21) ->
  In (cval data_offset) [0; 32; 64; 96] ->
  exists a, (forall St (h : St -> event -> reply * St) (s : St),
      exec h (hash_init_lkup_addr addr opcode data_offset table_size) s = Outcome [] (inl a) s) /\
    le_base a = cval addr /\ le_buckets a * le_bucket_size a = cval table_size /\
    le_word a = cval data_offset / 32 /\ field 29 3 (lkup_addr_lo a) = field 39 1 (cval addr) * 4 + 1.
Proof.
  intros Ha Hal H16 Hts Hk Ho.
  assert (Hok : table_size_ok opcode (cval table_size) = true).
  { unfold table_size_ok. rewrite Hts.
    change HASH_64B_TABLE_SIZE_MIN with (2 ^ 16). change HASH_64B_TABLE_SIZE_MAX with (2 ^ 23).
    change HASH_16B_TABLE_SIZE_MIN with (2 ^ 14). change HASH_16B_TABLE_SIZE_MAX with (2 ^ 21). destruct (HASH_IS_64B_TABLE opcode); apply andb_true_iff; split; apply Z.leb_le;
      apply (Z.pow_le_mono_r 2); lia. }
  assert (Hl : MemRing.is_log2 (cval table_size) = true).
  { rewrite Hts. apply MemRing.is_log2_pow2. destruct (HASH_IS_64B_TABLE opcode); lia. }
  eexists. split.
  { intros. unfold hash_init_lkup_addr, mbind, prog_bind, is_aligned, HASH_BASE_ADDR_MIN_ALIGN.
    change 0x10000 with (2 ^ 16). rewrite H16, Hal, Hok, Hl.
    rewrite !try_ctassert_true; [reflexivity|done..| |done].
    by destruct Ho as [<-|[<-|[<-|[<-|[]]]]]. }
  rewrite (wrap_id 64 (cval addr)) by (apply (in_word_mono 40); [lia|done]).
  unfold le_base, le_buckets, le_bucket_size, le_word.
  edestruct lkup_fields as (E1 & E2 & E3 & E4 & E5). rewrite E1, E2, E4, E5, lkup_bit_64.
  cbn [la_addr_hi la_use_internal_le la_direct_lkup la_hash_lkup la_base_addr la_table_size la_hash_opcode la_start_pos].
  rewrite Hts, lkup_base, lkup_size by done. split_ands.
  - done.
  - done.
  - by destruct Ho as [<-|[<-|[<-|[<-|[]]]]].
  - replace ((cval addr ≫ 39) .& 0x1) with (wrap 1 (cval addr ≫ 39)) by (by rewrite <- wrap_land_ones).
    by rewrite wrap_idem by lia.
Qed.

(** ** The copies *)

(** A copy moves its size in units of 64 bytes: from the address in CTM, in units of eight,
    to or from the memory unit of the upper byte of the address. *)
Lemma mem_pe_cmd_spec ISLAND cmd mem_addr ctm_addr size sync St (h : St -> event -> reply * St) s :
  in_word 40 mem_addr -> in_word 18 ctm_addr -> size mod 64 = 0 -> 64 <= size <= 2048 ->
  exists c, o_trace (exec h (MEM_PE_CMD ISLAND cmd mem_addr ctm_addr size sync 6) s) =
      [ECsrWr local_csr_cmd_indirect_ref_0 (mem_addr / 2 ^ 32); ECmd c] /\
    c_op c = cmd /\ c_lo c = mem_addr mod 2 ^ 32 /\ cmd_count c = Some (size / 64) /\
    exists raw, c_prev c = Some raw /\ prev_ove_data raw = 2 /\ prev_data16 raw = ctm_addr / 8.
Proof.
  intros Hm Hc H64 Hs. unfold in_word in *.
  assert (E1 : u64 mem_addr = mem_addr) by (apply wrap_id; unfold in_word; lia).
  assert (E2 : wrap 8 (u32 (mem_addr ≫ 32) .& 0xff) = mem_addr / 2 ^ 32).
  { change 0xff with (Z.ones 8). rewrite Z.shiftr_div_pow2, wrap_land_ones, wrap_idem by lia.
    rewrite !wrap_id; [done|..]; unfold in_word; rewrite ?wrap_id; unfold in_word; divlia. }
  assert (E3 : (u32 ctm_addr ≫ 3) .& 0x7fff = ctm_addr / 8).
  { change 0x7fff with (Z.ones 15). rewrite (wrap_id 32) by (unfold in_word; lia).
    rewrite Z.shiftr_div_pow2, wrap_land_ones, wrap_id by (unfold in_word; divlia). done. }
  unfold MEM_PE_CMD. rewrite E1, E2, E3. eexists. split; [reflexivity|]. cbn [c_op c_lo c_prev].
  split; [done|]. split; [change 0xffffffff with (Z.ones 32); by rewrite Z.land_ones|].
  assert (Ec : (size ≫ 6) = size / 64) by (by rewrite Z.shiftr_div_pow2). rewrite Ec.
  split.
  - unfold cmd_count. cbn [c_prev]. rewrite prev_alu_ov_len, prev_alu_length. cbn [pa_ov_len pa_length].
    change (wrap 1 1 =? 1) with true. cbn iota. f_equal. unfold sub32.
    rewrite !wrap_id; unfold in_word; try (rewrite wrap_id; unfold in_word); divlia.
  - eexists. split; [done|]. rewrite prev_alu_ove_data, prev_alu_data16. cbn [pa_ove_data pa_data16].
    split; [done|]. apply wrap_id. unfold in_word. divlia.
Qed.

(** The copy of a packet starts at its offset, in units of eight bytes, to a buffer aligned
    to 2048 bytes; at the end of the buffer, which the assertion allows, it starts at zero. *)
Lemma packet_copy_offset mem_addr pnum offset sync St (h : St -> event -> reply * St) s :
  0 <= cval pnum <= 1024 -> 0 <= cval offset <= 2048 -> cval offset mod 8 = 0 ->
  exists c, o_trace (exec h (__mem_pe_dma_ctm_to_mu_packet mem_addr pnum offset sync) s) =
      [ECsrWr local_csr_cmd_indirect_ref_0 (cval offset mod 2048 / 8); ECmd c] /\
    cmd_addr c mod 2 ^ 8 = cval offset mod 2048 / 8.
Proof.
  intros Hp Ho H8. unfold __mem_pe_dma_ctm_to_mu_packet, mbind, prog_bind.
  rewrite !try_ctassert_true by (apply Z.leb_le; lia).
  assert (E : (cval offset ≫ 3) .& 0xff = cval offset mod 2048 / 8).
  { change 0xff with (Z.ones 8). rewrite Z.land_ones, Z.shiftr_div_pow2 by lia. divlia. }
  rewrite E. set (o := cval offset mod 2048 / 8). assert (Ho' : in_word 8 o) by (unfold o, in_word; divlia).
  rewrite (wrap_id 8 o) by done. eexists. split; [reflexivity|]. unfold cmd_addr. cbn [c_shl8 c_hi c_lo].
  rewrite lor_shift_add by (lia || done). unfold wrap, in_word in *. divlia.
Qed.

End MemEngines.
