(* ===== verification/NfpStats.v ===== *)
(** lib/nfp/_c/tmq.c, macstats.c and mac_csr_synch.c: the counters of the traffic manager's
    queues and of the MACs, and commands to the MACs through an arbiter. *)
From Stdlib Require Import ZArith Lia List String.
From stdpp Require Import base list numbers option strings.
From S2P Require Import Prelude Me MemBulk MemAtomic Xpb.
#[local] Open Scope Z_scope.

Module NfpStats.

(** ** tmq.c *)

Definition MAX_NBI_NUMBER : Z := 1.
Definition MAX_TM_QUEUE_NUM : Z := 1023.
Definition MAX_CMD_BURST_SZ : Z := 16.
Definition TMQ_XPB_BASE (nbi : Z) : Z := add32 (shl32 nbi 24 .| 0x8140000) 0x10000.
Definition QUEUE_STATUS (q : Z) : Z := u32 (0x0000 + q * 0x4).
Definition QUEUE_DROP_COUNT (q : Z) : Z := u32 (0x2000 + q * 0x4).
Definition QUEUE_DROP_COUNT_CLEAR (q : Z) : Z := u32 (0x3000 + q * 0x4).
Definition TMQ_DROP_READ_ADDR (nbi qnum : Z) : Z := TMQ_XPB_BASE nbi .| QUEUE_DROP_COUNT qnum.
Definition TMQ_DROP_READ_CLEAR_ADDR (nbi qnum : Z) : Z := TMQ_XPB_BASE nbi .| QUEUE_DROP_COUNT_CLEAR qnum.
Definition TMQ_STATUS_ADDR (nbi qnum : Z) : Z := TMQ_XPB_BASE nbi .| QUEUE_STATUS qnum.

(** The result, and what [*counter] holds after. *)
Definition tmq_cnt_read (nbi : carg) (counter : Z) (qnum : carg) (clear : Z) : prog (Z * Z) :=
  if MAX_NBI_NUMBER <? cval nbi then Ret (-1, counter)
  else if MAX_TM_QUEUE_NUM <? cval qnum then Ret (-1, counter)
  else
    let addr := if negb (clear =? 0) then TMQ_DROP_READ_CLEAR_ADDR (cval nbi) (cval qnum)
                else TMQ_DROP_READ_ADDR (cval nbi) (cval qnum) in
    counter' ← Xpb.xpb_read (CArg addr (is_ct nbi && is_ct qnum));
    Ret (0, counter').

Definition __tmq_status_read (nbi qnum num_qs : carg) (sync : sync_t) : prog (list Z) :=
  let addr := TMQ_STATUS_ADDR (cval nbi) (cval qnum) in
  _ ← try_ctassert (is_ct nbi) (cval nbi <? MAX_NBI_NUMBER);
  _ ← try_ctassert (is_ct qnum) (cval qnum <? MAX_TM_QUEUE_NUM);
  Xpb.__xpb_read (CArg addr (is_ct nbi && is_ct qnum)) (CArg (shl32 (cval num_qs) 2) (is_ct num_qs))
    (ct MAX_CMD_BURST_SZ) sync.
Definition tmq_status_read (nbi qnum num_qs : carg) : prog (list Z) :=
  __tmq_status_read nbi qnum num_qs ctx_swap.

(** ** macstats.c *)

Definition MAX_MAC_NUMBER : Z := 1.
Definition MAX_PORT_NUMBER : Z := 23.
Definition PORTS_PER_MAC_CORE : Z := 12.
Definition MAX_CHANNEL_NUMBER : Z := 127.
Definition MACSTATS_BASE : Z := 0x100000.
Definition MACSTATS_CHANNEL_BASE : Z := MACSTATS_BASE + 0x10000.
Definition MACSTATS_PER_CORE_PORT_SIZE : Z := 4096.
Definition MACSTATS_PER_PORT_SIZE : Z := 256.
Definition MACSTATS_PER_CHANNEL_SIZE : Z := 256.
Definition MACSTATS_CHAN_ADDR_HI (mac : Z) : Z := shl32 mac 30.
Definition MACSTATS_CHAN_ADDR_LO (ch : Z) : Z := u32 (MACSTATS_CHANNEL_BASE + ch * MACSTATS_PER_CHANNEL_SIZE).
Definition MACSTATS_PORT_ADDR_HI (mac : Z) : Z := shl32 mac 30.
Definition MACSTATS_PORT_ADDR_LO (core seg : Z) : Z :=
  MACSTATS_BASE + core * MACSTATS_PER_CORE_PORT_SIZE + seg * MACSTATS_PER_PORT_SIZE.
Definition MAC_HEAD_DROP_SLEEP : Z := 2000.
(** The sizes of struct macstats_port and struct macstats_channel. *)
Definition sizeof_macstats_port : Z := 256.
Definition sizeof_macstats_channel : Z := 128.

(** The read and the write transfer registers of [stats] are different registers: the moves
    read the ones and write the others. *)
Definition mac_stats_load (src_hi src_lo dst_hi dst_lo : Z) : prog unit :=
  ws ← issue (Cmd T_nbi "read" [] src_hi true src_lo (Some 4) (Some ctx_swap) None);
  let stats i := nth (Z.to_nat i) ws 0 in
  _ ← issue (Cmd T_mem "write"
               [stats 1; stats 0; stats 3; stats 2; stats 5; stats 4; stats 7; stats 6]
               dst_hi true dst_lo (Some 4) (Some ctx_swap) None);
  Ret tt.

Definition mac_stats_add (src_hi src_lo dst_hi dst_lo : Z) : prog unit :=
  let dst_lo2 := add32 dst_lo 32 in
  ws ← issue (Cmd T_nbi "read" [] src_hi true src_lo (Some 4) (Some ctx_swap) None);
  let stats i := nth (Z.to_nat i) ws 0 in
  _ ← issue (Cmd T_mem "add64" [stats 0; 0; stats 1; 0; stats 2; 0; stats 3; 0]
               dst_hi true dst_lo (Some 4) (Some ctx_swap) None);
  _ ← issue (Cmd T_mem "add64" [stats 4; 0; stats 5; 0; stats 6; 0; stats 7; 0]
               dst_hi true dst_lo2 (Some 4) (Some ctx_swap) None);
  Ret tt.

(** [for (off = 0; off < n * 32; off += 32)] *)
Fixpoint for_off (n : nat) (off : Z) (body : Z -> prog unit) : prog unit :=
  match n with
  | O => Ret tt
  | S n' => _ ← body off; for_off n' (off + 32) body
  end.
Definition rounds (size : Z) : nat := Z.to_nat (size / 32).

(** [(core, seg)] of a port; both are [unsigned char]. *)
Definition port_core (port : Z) : Z := if PORTS_PER_MAC_CORE <=? port then 1 else 0.
Definition port_seg (port : Z) : Z := u8 (port - port_core port * PORTS_PER_MAC_CORE).

Definition macstats_port_read (mac port port_stats : Z) : prog Z :=
  if MAX_MAC_NUMBER <? mac then Ret (-1)
  else if MAX_PORT_NUMBER <? port then Ret (-1)
  else
    let src_hi := MACSTATS_PORT_ADDR_HI mac in
    let src_lo := MACSTATS_PORT_ADDR_LO (port_core port) (port_seg port) in
    let dst_hi := (u64 port_stats ≫ 8) .& 0xFF000000 in
    let dst_lo := u64 port_stats .& 0xFFFFFFFF in
    _ ← for_off (rounds sizeof_macstats_port) 0 (fun off =>
          mac_stats_load src_hi (add32 src_lo off) dst_hi (add32 dst_lo off));
    Ret 0.

(** A C access to a counter in memory: the compiler's read or write of its eight bytes, the
    upper word first. *)
Definition load64 (addr : Z) : prog Z :=
  ws ← MemBulk.mem_read64 addr (ct 8); Ret ((nth 0 ws 0 ≪ 32) .| nth 1 ws 0).
Definition store64 (addr v : Z) : prog unit := MemBulk.mem_write64 [v ≫ 32; u32 v] addr (ct 8).

(** [p->c += (p->c_unused << 32); p->c_unused = 0], for the counter at [addr] and the next *)
Definition fix_40_bit (addr : Z) : prog unit :=
  c ← load64 addr;
  unused ← load64 (addr + 8);
  _ ← store64 addr (u64 (c + u64 (unused ≪ 32)));
  store64 (addr + 8) 0.

(** The offsets of the octet counters in the accumulating structures. *)
Definition RxPIfInOctets : Z := 0.
Definition TxPIfOutOctets : Z := 40 * 8.
Definition RxCIfInOctets : Z := 0.
Definition RxCStatsOctets : Z := 2 * 8.
Definition TxCIfOutOctets : Z := 24 * 8.

Definition macstats_port_accum (mac port port_stats : Z) : prog Z :=
  if MAX_MAC_NUMBER <? mac then Ret (-1)
  else if MAX_PORT_NUMBER <? port then Ret (-1)
  else
    let src_hi := MACSTATS_PORT_ADDR_HI mac in
    let src_lo := MACSTATS_PORT_ADDR_LO (port_core port) (port_seg port) in
    let dst_hi := (u64 port_stats ≫ 8) .& 0xFF000000 in
    let dst_lo := u64 port_stats .& 0xFFFFFFFF in
    _ ← for_off (rounds sizeof_macstats_port) 0 (fun off =>
          mac_stats_add src_hi (add32 src_lo off) dst_hi (add32 dst_lo (2 * off)));
    _ ← fix_40_bit (port_stats + RxPIfInOctets);
    _ ← fix_40_bit (port_stats + TxPIfOutOctets);
    Ret 0.

Definition macstats_channel_read (mac channel channel_stats : Z) : prog Z :=
  if MAX_MAC_NUMBER <? mac then Ret (-1)
  else if MAX_CHANNEL_NUMBER <? channel then Ret (-1)
  else
    let src_hi := MACSTATS_CHAN_ADDR_HI mac in
    let src_lo := MACSTATS_CHAN_ADDR_LO channel in
    let dst_hi := (u64 channel_stats ≫ 8) .& 0xFF000000 in
    let dst_lo := u64 channel_stats .& 0xFFFFFFFF in
    _ ← for_off (rounds sizeof_macstats_channel) 0 (fun off =>
          mac_stats_load src_hi (add32 src_lo off) dst_hi (add32 dst_lo off));
    Ret 0.

Definition macstats_channel_accum (mac channel channel_stats : Z) : prog Z :=
  if MAX_MAC_NUMBER <? mac then Ret (-1)
  else if MAX_CHANNEL_NUMBER <? channel then Ret (-1)
  else
    let src_hi := MACSTATS_CHAN_ADDR_HI mac in
    let src_lo := MACSTATS_CHAN_ADDR_LO channel in
    let dst_hi := (u64 channel_stats ≫ 8) .& 0xFF000000 in
    let dst_lo := u64 channel_stats .& 0xFFFFFFFF in
    _ ← for_off (rounds sizeof_macstats_channel) 0 (fun off =>
          mac_stats_add src_hi (add32 src_lo off) dst_hi (add32 dst_lo (2 * off)));
    _ ← fix_40_bit (channel_stats + RxCIfInOctets);
    _ ← fix_40_bit (channel_stats + RxCStatsOctets);
    _ ← fix_40_bit (channel_stats + TxCIfOutOctets);
    Ret 0.

(** nfp6000/nfp_mac.h *)
Definition NFP_MAX_ETH_PORTS_PER_MAC_CORE : Z := 12.
Definition NFP_MAX_MAC_CORES_PER_MAC_ISL : Z := 2.
Definition NFP_MAC_MAX_ISLANDS_PER_NFP : Z := 2.
Definition NFP_MAC_XPB_OFF (isl : Z) : Z := shl32 isl 24 .| 0x8400000.
Definition ETH0_IG_HEAD_DROP_CNTR_PAIR (x : Z) : Z := 0x0280 + x * 0x4.
Definition ETH1_IG_HEAD_DROP_CNTR_PAIR (x : Z) : Z := 0x02a0 + x * 0x4.

(** The ports [i] and [i + 1]: one register holds both counters. *)
Definition head_drop_pair (addr ports_mask port_stats : Z) (break_cpp_burst sig i : Z) : prog unit :=
  let add_even := Z.testbit ports_mask i in
  let add_odd := Z.testbit ports_mask (i + 1) in
  if add_even || add_odd then
    drop_pair ← Xpb.xpb_read (rt (add32 addr (i ≪ 1)));
    let add_val0 := [drop_pair .& 0xffff; 0] in
    let add_val1 := [(drop_pair ≫ 16) .& 0xffff; 0] in
    _ ← (if add_even then MemAtomic.mem_add64 add_val0 (port_stats + 8 * i) (ct 8) else Ret tt);
    _ ← (if add_odd then MemAtomic.mem_add64 add_val1 (port_stats + 8 * (i + 1)) (ct 8) else Ret tt);
    if negb (break_cpp_burst =? 0) then MeC.sleep MAC_HEAD_DROP_SLEEP sig else Ret tt
  else Ret tt.

Fixpoint head_drop_loop (n : nat) (i : Z) (body : Z -> prog unit) : prog unit :=
  match n with
  | O => Ret tt
  | S n' => if i <? NFP_MAX_ETH_PORTS_PER_MAC_CORE then _ ← body i; head_drop_loop n' (i + 2) body else Ret tt
  end.

(** [sig]: the signal of the alarm in [sleep]. *)
Definition __macstats_head_drop_accum (nbi core ports_mask port_stats : Z) (break_cpp_burst : carg) (sig : Z) : prog Z :=
  _ ← ctassert (is_ct break_cpp_burst);
  if 1 <? nbi then Ret (-1)
  else if NFP_MAX_MAC_CORES_PER_MAC_ISL - 1 <? core then Ret (-1)
  else
    let addr := NFP_MAC_XPB_OFF nbi in
    let addr := if core =? 0 then add32 addr (ETH0_IG_HEAD_DROP_CNTR_PAIR 0)
                else add32 addr (ETH1_IG_HEAD_DROP_CNTR_PAIR 0) in
    _ ← head_drop_loop 7 0 (head_drop_pair addr ports_mask port_stats (cval break_cpp_burst) sig);
    Ret 0.
Definition macstats_head_drop_accum (nbi core ports_mask port_stats : Z) : prog Z :=
  __macstats_head_drop_accum nbi core ports_mask port_stats (ct 0) 0.

(** ** mac_csr_synch.c *)

Definition MAC_FORCE_RECACHE : Z := 0.
Definition MAC_ARB_SRC_APP : Z := 4.
Definition ARB_CLS_RING_NUM : Z := 4.
Definition ARB_CLS_BASE_ADDR_Hi32 : Z := 0x04000000.
Definition ARB_CODE_MAX : Z := 7.
Definition ARB_CMD (x : Z) : Z := (x .& 0xff) ≪ 0.
Definition ARB_PORT (x : Z) : Z := (x .& 0x3f) ≪ 8.
Definition ARB_CORE (x : Z) : Z := (x .& 0x1) ≪ 14.
Definition ARB_NBI (x : Z) : Z := (x .& 0x1) ≪ 15.
Definition ARB_RECACHE (x : Z) : Z := (x .& 0x1) ≪ 16.
Definition ARB_SOURCE (x : Z) : Z := (x .& 0xff) ≪ 24.

Definition arb_word (nbi core port cmd : Z) : Z :=
  ARB_SOURCE MAC_ARB_SRC_APP .| ARB_RECACHE MAC_FORCE_RECACHE .| ARB_NBI nbi .| ARB_PORT port
  .| ARB_CORE core .| ARB_CMD cmd.

Definition __mac_eth_cmd_config (nbi core port cmd : carg) (sync : sync_t) : prog unit :=
  let ring_num := shl32 ARB_CLS_RING_NUM 2 in
  let ring_isl := ARB_CLS_BASE_ADDR_Hi32 in
  _ ← try_ctassert (is_ct nbi) (cval nbi <? NFP_MAC_MAX_ISLANDS_PER_NFP);
  _ ← try_ctassert (is_ct core) (cval core <? NFP_MAX_MAC_CORES_PER_MAC_ISL);
  _ ← try_ctassert (is_ct port) (cval port <? NFP_MAX_ETH_PORTS_PER_MAC_CORE);
  _ ← try_ctassert (is_ct cmd) (cval cmd <=? ARB_CODE_MAX);
  _ ← issue (Cmd T_cls "ring_workq_add_work" [arb_word (cval nbi) (cval core) (cval port) (cval cmd)]
               ring_isl true ring_num (Some 1) (Some sync) None);
  Ret tt.
Definition mac_eth_cmd_config (nbi core port cmd : carg) : prog unit :=
  __mac_eth_cmd_config nbi core port cmd ctx_swap.

(** ** The queues' counters *)

(** A queue of an NBI that exists is read from its own register; any other is refused, and
    the counter is left. *)
Lemma tmq_cnt_read_spec nbi counter qnum clear : 0 <= cval nbi -> 0 <= cval qnum ->
  if decide (cval nbi <= 1 /\ cval qnum <= 1023) then
    exists c, issues_one (tmq_cnt_read nbi counter qnum clear) c (fun ws => (0, nth 0 ws 0)) /\
      presents c T_ct "xpb_read" [] (0x8150000 + cval nbi * 2 ^ 24 + (if clear =? 0 then 0x2000 else 0x3000) + 4 * cval qnum)
        (Some 1) (Some ctx_swap)
  else tmq_cnt_read nbi counter qnum clear = Ret (-1, counter).
Proof.
  intros Hn Hq. unfold tmq_cnt_read, MAX_NBI_NUMBER, MAX_TM_QUEUE_NUM. case_decide as D.
  - destruct (Z.ltb_spec 1 (cval nbi)), (Z.ltb_spec 1023 (cval qnum)); try lia.
    set (a := if negb _ then _ else _).
    assert (E : a = 0x8150000 + cval nbi * 2 ^ 24 + (if clear =? 0 then 0x2000 else 0x3000) + 4 * cval qnum).
    { unfold a, TMQ_DROP_READ_CLEAR_ADDR, TMQ_DROP_READ_ADDR, TMQ_XPB_BASE, QUEUE_DROP_COUNT, QUEUE_DROP_COUNT_CLEAR.
      assert (Hc : cval nbi = 0 \/ cval nbi = 1) by lia.
      destruct Hc as [-> | ->]; destruct (clear =? 0); cbn [negb].
      all: rewrite (wrap_id 32) by (unfold in_word; lia).
      all: match goal with |- ?b .| _ = _ =>
        let v := eval vm_compute in (b / 2 ^ 16) in change b with (v * 2 ^ 16); rewrite <- (Z.shiftl_mul_pow2 v) by lia end.
      all: rewrite lor_shift_add by (unfold in_word; lia); lia. }
    destruct (Xpb.XPB_CMD_issues "xpb_read" [] (CArg a (is_ct nbi && is_ct qnum)) (ct 4) (ct 4) ctx_swap) as (c & H1 & H2);
      try (cbn; done || lia).
    { cbn [cval]. rewrite E. apply Xpb.xpb_addr_ok_spec; [unfold in_word; destruct (clear =? 0); lia|].
      split; [destruct (clear =? 0); lia|]. destruct (clear =? 0); divlia. }
    exists c. split; [|cbn [cval] in H2; by rewrite E in H2].
    unfold Xpb.xpb_read, Xpb.__xpb_read. apply (issues_one_ret _ c (fun ws => nth 0 ws 0) (fun v => (0, v))).
    by apply (issues_one_ret _ c (fun ws => ws) (fun ws => nth 0 ws 0)).
  - destruct (Z.ltb_spec 1 (cval nbi)); [done|]. destruct (Z.ltb_spec 1023 (cval qnum)); [done|lia].
Qed.

(** The status of the second NBI, and of the last queue, is refused when the compiler knows
    them, although both exist. *)
Lemma tmq_status_refuses St (h : St -> event -> reply * St) s num_qs :
  exec h (tmq_status_read (ct 1) (ct 0) num_qs) s = Outcome [] (inr CtAssert) s /\
  exec h (tmq_status_read (ct 0) (ct 1023) num_qs) s = Outcome [] (inr CtAssert) s.
Proof. done. Qed.

(** ** The statistics *)

(** Ports, and channels, have segments of their own. *)
Lemma port_segments mac port mac' port' : 0 <= mac <= 1 -> 0 <= port <= 23 -> 0 <= mac' <= 1 -> 0 <= port' <= 23 ->
  MACSTATS_PORT_ADDR_HI mac = MACSTATS_PORT_ADDR_HI mac' ->
  MACSTATS_PORT_ADDR_LO (port_core port) (port_seg port) / 256 =
    MACSTATS_PORT_ADDR_LO (port_core port') (port_seg port') / 256 -> mac = mac' /\ port = port'.
Proof.
  intros Hm Hp Hm' Hp'. unfold MACSTATS_PORT_ADDR_HI, MACSTATS_PORT_ADDR_LO, port_seg, port_core, PORTS_PER_MAC_CORE,
    MACSTATS_BASE, MACSTATS_PER_CORE_PORT_SIZE, MACSTATS_PER_PORT_SIZE, shl32.
  rewrite !Z.shiftl_mul_pow2, !(wrap_id 32) by (lia || (unfold in_word; lia)).
  destruct (Z.leb_spec 12 port), (Z.leb_spec 12 port'); rewrite !(wrap_id 8) by (unfold in_word; lia);
    intros; split; try lia; divlia.
Qed.

(** The commands of a trace: target, operation and address. *)
Definition commands (tr : list event) : list (target * string * Z) :=
  omap (fun e => match e with ECmd c => Some (c_tgt c, c_op c, cmd_addr c) | _ => None end) tr.

Section Hardware.
Context {St : Type} (h : St -> event -> reply * St).

Lemma dst_addr dst off : in_word 40 dst -> dst mod 2 ^ 32 + off < 2 ^ 32 -> 0 <= off ->
  (((u64 dst ≫ 8) .& 0xFF000000) ≪ 8) + add32 (u64 dst .& 0xFFFFFFFF) off = dst + off.
Proof.
  intros Hd Ho H0. rewrite (wrap_id 64 dst) by (apply (in_word_mono 40); [lia|done]).
  pose proof (addr_split dst Hd) as E. unfold addr_hi, addr_lo in E.
  assert (El : dst .& 0xFFFFFFFF = dst mod 2 ^ 32) by (change 0xFFFFFFFF with (Z.ones 32); by rewrite Z.land_ones).
  rewrite El in *. unfold add32. rewrite wrap_id by (unfold in_word; divlia). lia.
Qed.

(** A loop whose rounds issue the commands [T] of their offset. *)
Lemma for_off_commands n off body T s :
  (forall o s, off <= o < off + 32 * Z.of_nat n ->
     o_res (exec h (body o) s) = inl tt /\ commands (o_trace (exec h (body o) s)) = T o) ->
  o_res (exec h (for_off n off body) s) = inl tt /\
  commands (o_trace (exec h (for_off n off body) s)) = concat (map (fun k => T (off + 32 * Z.of_nat k)) (seq 0 n)).
Proof.
  revert off s. induction n as [|n IH]; intros off s HT; [done|]. cbn [for_off].
  unfold mbind, prog_bind. rewrite exec_bind; cbv zeta. destruct (HT off s) as [H1 H2]; [lia|]. rewrite H1. cbn [o_res o_trace].
  destruct (IH (off + 32) (o_st (exec h (body off) s))) as [H3 H4]; [intros; apply HT; lia|].
  split; [done|]. unfold commands in *. rewrite omap_app, H2, H4. cbn [seq map concat].
  rewrite Z.add_0_r. f_equal. rewrite <- seq_shift, map_map. f_equal. apply map_ext. intros k. f_equal. lia.
Qed.

(** Reading a port copies its 256 bytes, in eight pieces, to the structure. *)
Lemma macstats_port_read_copies mac port dst s : 0 <= mac <= 1 -> 0 <= port <= 23 -> in_word 40 dst ->
  dst mod 2 ^ 32 + 256 <= 2 ^ 32 ->
  let src := (mac * 2 ^ 38) + MACSTATS_PORT_ADDR_LO (port_core port) (port_seg port) in
  let o := exec h (macstats_port_read mac port dst) s in
  o_res o = inl 0 /\
  commands (o_trace o) =
    concat (map (fun k => [(T_nbi, "read"%string, src + 32 * k); (T_mem, "write"%string, dst + 32 * k)])
      [0; 1; 2; 3; 4; 5; 6; 7]).
Proof.
  intros Hm Hp Hd H32. unfold macstats_port_read, MAX_MAC_NUMBER, MAX_PORT_NUMBER.
  destruct (Z.ltb_spec 1 mac), (Z.ltb_spec 23 port); try lia.
  assert (Hl : 0 <= MACSTATS_PORT_ADDR_LO (port_core port) (port_seg port) < 2 ^ 24).
  { unfold MACSTATS_PORT_ADDR_LO, port_seg, port_core, PORTS_PER_MAC_CORE, MACSTATS_BASE, MACSTATS_PER_CORE_PORT_SIZE,
      MACSTATS_PER_PORT_SIZE. destruct (Z.leb_spec 12 port); rewrite wrap_id by (unfold in_word; lia); lia. }
  cbv zeta. revert Hl. generalize (MACSTATS_PORT_ADDR_LO (port_core port) (port_seg port)). intros lo Hl.
  change (rounds sizeof_macstats_port) with 8%nat.
  assert (Es : forall off, 0 <= off < 256 -> (MACSTATS_PORT_ADDR_HI mac ≪ 8) + add32 lo off = mac * 2 ^ 38 + lo + off).
  { intros off Ho. unfold MACSTATS_PORT_ADDR_HI, shl32, add32. rewrite !Z.shiftl_mul_pow2 by lia.
    rewrite !(wrap_id 32) by (unfold in_word; lia). lia. }
  unfold mbind, prog_bind. rewrite exec_bind. cbv zeta.
  match goal with |- context [for_off 8 0 ?f] => set (body := f) end.
  destruct (for_off_commands 8 0 body (fun off => [(T_nbi, "read"%string, mac * 2 ^ 38 + lo + off); (T_mem, "write"%string, dst + off)])
    s) as [Hr Hc].
  { intros off s' Ho. unfold body. cbn. unfold cmd_addr. cbn [c_shl8 c_hi c_lo]. by rewrite Es, dst_addr by (done || lia). }
  rewrite Hr. cbn [o_res o_trace exec]. split; [done|]. rewrite app_nil_r, Hc. reflexivity.
Qed.

End Hardware.

(** ** Counters of 40 bits *)

(** A memory of counters, for the reads and writes of eight bytes. *)
Section Counters.
Context {St : Type} (h : St -> event -> reply * St) (mem : St -> Z -> Z).
Hypothesis h_read : forall s c, c_tgt c = T_mem -> c_op c = "read"%string -> c_ref c = Some 1 ->
  r_words (fst (h s (ECmd c))) = [mem s (cmd_addr c) / 2 ^ 32; mem s (cmd_addr c) mod 2 ^ 32] /\
  snd (h s (ECmd c)) = s.
Hypothesis h_write : forall s c hi lo a, c_tgt c = T_mem -> c_op c = "write"%string -> c_ref c = Some 1 ->
  c_data c = [hi; lo] -> mem (snd (h s (ECmd c))) a = if a =? cmd_addr c then hi * 2 ^ 32 + lo else mem s a.

Definition access64 (op : string) (data : list Z) (a : Z) : cmd :=
  Cmd T_mem op data (addr_hi a) true (addr_lo a) (Some 1) (Some ctx_swap) None.

Lemma access64_addr op data a : in_word 40 a -> cmd_addr (access64 op data a) = a.
Proof. intros Ha. unfold cmd_addr, access64. cbn [c_shl8 c_hi c_lo]. by apply addr_split. Qed.

Lemma load64_wp a Q s : in_word 40 a -> in_word 64 (mem s a) -> Q (mem s a) s -> wp h (load64 a) Q s.
Proof.
  intros Ha Hm HQ. set (c := access64 "read" [] a).
  change (wp h (Vis (ECmd c) (fun r => Ret ((nth 0 (r_words r) 0 ≪ 32) .| nth 1 (r_words r) 0))) Q s).
  destruct (h_read s c eq_refl eq_refl eq_refl) as [E1 E2]. unfold c in E1 at 2 3. rewrite access64_addr in E1 by done.
  cbn [wp]. rewrite E1, E2. cbn [nth].
  rewrite lor_shift_add; [|lia|apply Z.mod_pos_bound; lia].
  replace (mem s a / 2 ^ 32 * 2 ^ 32 + mem s a mod 2 ^ 32) with (mem s a) by divlia. done.
Qed.

Lemma store64_wp a v Q s : in_word 40 a -> in_word 64 v ->
  (forall s', (forall b, mem s' b = if b =? a then v else mem s b) -> Q tt s') -> wp h (store64 a v) Q s.
Proof.
  intros Ha Hv HQ. set (c := access64 "write" [v ≫ 32; u32 v] a).
  change (wp h (Vis (ECmd c) (fun _ => Ret tt)) Q s). cbn [wp].
  apply HQ. intros b. rewrite (h_write s c (v ≫ 32) (u32 v) b eq_refl eq_refl eq_refl eq_refl).
  unfold c. rewrite access64_addr by done.
  destruct (b =? a); [|done]. rewrite Z.shiftr_div_pow2 by lia. unfold wrap. divlia.
Qed.

(** The upper eight bits of a counter of 40 bits, accumulated next to the lower, are carried
    into it, and no other counter changes. *)
Lemma fix_40_bit_carries addr s : in_word 40 (addr + 8) -> 0 <= addr -> (forall a, in_word 64 (mem s a)) ->
  wp h (fix_40_bit addr) (fun _ s' => forall a, mem s' a =
    if a =? addr then u64 (mem s addr + 2 ^ 32 * mem s (addr + 8)) else if a =? addr + 8 then 0 else mem s a) s.
Proof.
  intros Ha H0 Hm. assert (Ha' : in_word 40 addr) by (unfold in_word in *; lia).
  unfold fix_40_bit. apply wp_bind, load64_wp; [done..|]. apply wp_bind, load64_wp; [done..|].
  apply wp_bind, store64_wp; [done|apply wrap_range; lia|]. intros s1 H1.
  apply store64_wp; [done|unfold in_word; lia|]. intros s2 H2 a. rewrite H2, H1.
  destruct (Z.eqb_spec a (addr + 8)), (Z.eqb_spec a addr); try done; try lia.
  rewrite Z.shiftl_mul_pow2, wrap_add_r by lia. f_equal. lia.
Qed.
End Counters.

(** ** Drops *)

(** The additions of a trace: where, and which words. *)
Definition additions (tr : list event) : list (Z * list Z) :=
  omap (fun e => match e with
    | ECmd c => if bool_decide (c_op c = "add64"%string) then Some (cmd_addr c, c_data c) else None | _ => None end) tr.

Section Drops.
Context {St : Type} (h : St -> event -> reply * St) (reg : Z -> Z).
Hypothesis h_xpb : forall s c, c_tgt c = T_ct -> c_op c = "xpb_read"%string ->
  nth 0 (r_words (fst (h s (ECmd c)))) 0 = reg (cmd_addr c).

(** What is added for port [i]: its half of the register it shares with its neighbour. *)
Definition drop_of (addr mask dst i : Z) : list (Z * list Z) :=
  if Z.testbit mask i then [(dst + 8 * i, [field (16 * (i mod 2)) 16 (reg (addr + 2 * (i - i mod 2))); 0])] else [].

(** A program that ends, and whose additions are [T]. *)
Definition adds (p : prog unit) (T : list (Z * list Z)) : Prop :=
  forall s, o_res (exec h p s) = inl tt /\ additions (o_trace (exec h p s)) = T.

Lemma adds_bind p q T T' : adds p T -> adds q T' -> adds (bind p (fun _ => q)) (T ++ T').
Proof.
  intros Hp Hq s. rewrite exec_bind. cbv zeta. destruct (Hp s) as [-> H1].
  destruct (Hq (o_st (exec h p s))) as [H2 H3]. cbn [o_res o_trace]. split; [done|].
  unfold additions in *. by rewrite omap_app, H1, H3.
Qed.

Lemma mem_add64_adds b data a : in_word 40 a ->
  adds (if b : bool then MemAtomic.mem_add64 data a (ct 8) else Ret tt) (if b then [(a, data)] else []).
Proof.
  intros Ha s. destruct b; [|done]. split; [done|].
  change (additions [ECmd (access64 "add64" data a)] = [(a, data)]).
  cbn [additions omap list_omap]. cbn -[cmd_addr]. by rewrite access64_addr.
Qed.

Lemma xpb_read_adds a k T : 0 <= a < 2 ^ 31 -> a mod 4 = 0 -> adds (k (reg a)) T ->
  adds (bind (Xpb.xpb_read (rt a)) k) T.
Proof.
  intros Ha H4 Hk s.
  destruct (Xpb.XPB_CMD_issues "xpb_read" [] (rt a) (ct 4) (ct 4) ctx_swap) as (c & H1 & Hp); try done; try (cbn; lia).
  { apply Xpb.xpb_addr_ok_spec; [unfold in_word; cbn; lia|]. cbn. split; [lia|done]. }
  assert (Hx : issues_one (Xpb.xpb_read (rt a)) c (fun ws => nth 0 ws 0)).
  { by apply (issues_one_ret _ c (fun ws => ws) (fun ws => nth 0 ws 0)). }
  rewrite (exec_issues _ c _ _ h s Hx). cbv zeta. destruct Hp as [Ht Ho _ Hc _ _].
  rewrite h_xpb, Hc by done. cbn [o_res o_trace]. destruct (Hk (snd (h s (ECmd c)))) as [H2 H3].
  split; [done|]. unfold additions in *. cbn. rewrite Ho. exact H3.
Qed.

(** One register is read for a pair, and each of the two ports in use gets its half. *)
Lemma head_drop_pair_adds addr mask dst brk sig i : 0 <= i <= 10 -> i mod 2 = 0 -> 0 <= dst -> in_word 40 (dst + 96) ->
  0 <= addr -> addr + 24 < 2 ^ 31 -> addr mod 4 = 0 ->
  adds (head_drop_pair addr mask dst brk sig i) (drop_of addr mask dst i ++ drop_of addr mask dst (i + 1)).
Proof.
  intros Hi H2 Hd Hd' Ha Ha' H4. unfold in_word in Hd'. unfold head_drop_pair, drop_of.
  replace ((i + 1) mod 2) with 1 by divlia. rewrite H2, Z.sub_0_r. replace (i + 1 - 1) with i by lia.
  destruct (Z.testbit mask i || Z.testbit mask (i + 1)) eqn:E.
  2:{ apply orb_false_iff in E as [-> ->]. done. }
  assert (Er : add32 addr (i ≪ 1) = addr + 2 * i).
  { unfold add32. rewrite Z.shiftl_mul_pow2, wrap_id by (unfold in_word; lia). lia. }
  rewrite Er. apply xpb_read_adds; [lia|divlia|].
  set (v := reg (addr + 2 * i)). change 0xffff with (Z.ones 16). rewrite !wrap_land_ones by lia.
  change (v .& Z.ones 16) with (field (16 * 0) 16 v).
  apply adds_bind; [apply mem_add64_adds; unfold in_word; lia|].
  rewrite <- (app_nil_r (if Z.testbit mask (i + 1) then _ else _)).
  apply adds_bind; [apply mem_add64_adds; unfold in_word; lia|].
  intros s. by destruct (negb (brk =? 0)).
Qed.

Lemma head_drop_loop_adds n i body T : 0 <= i -> i + 2 * Z.of_nat n = 12 ->
  (forall j, 0 <= j < Z.of_nat n -> adds (body (i + 2 * j)) (T (i + 2 * j))) ->
  adds (head_drop_loop (S n) i body) (concat (map (fun j => T (i + 2 * Z.of_nat j)) (seq 0 n))).
Proof.
  revert i. induction n as [|n IH]; intros i Hi Hn Hb.
  - intros s. cbn. unfold NFP_MAX_ETH_PORTS_PER_MAC_CORE. destruct (Z.ltb_spec i 12); [lia|done].
  - cbn [head_drop_loop]. unfold NFP_MAX_ETH_PORTS_PER_MAC_CORE. destruct (Z.ltb_spec i 12); [|lia].
    cbn [seq map concat]. apply adds_bind.
    + specialize (Hb 0). rewrite Z.mul_0_r, Z.add_0_r in *. apply Hb. lia.
    + rewrite <- seq_shift, map_map.
      rewrite (map_ext _ (fun j => T (i + 2 + 2 * Z.of_nat j))) by (intros j; f_equal; lia).
      apply IH; [lia..|]. intros j Hj. replace (i + 2 + 2 * j) with (i + 2 * (j + 1)) by lia. apply Hb. lia.
Qed.

(** Of the twelve ports of a core, those in the mask get their drops, once, in order. *)
Lemma macstats_head_drop_adds nbi core mask dst s : 0 <= nbi <= 1 -> 0 <= core <= 1 -> 0 <= dst -> in_word 40 (dst + 96) ->
  let addr := 0x8400000 + nbi * 2 ^ 24 + 0x280 + 0x20 * core in
  let o := exec h (macstats_head_drop_accum nbi core mask dst) s in
  o_res o = inl 0 /\
  additions (o_trace o) = concat (map (drop_of addr mask dst) [0; 1; 2; 3; 4; 5; 6; 7; 8; 9; 10; 11]).
Proof.
  intros Hn Hc Hd Hd'. cbv zeta. unfold macstats_head_drop_accum, __macstats_head_drop_accum.
  unfold mbind, prog_bind. rewrite ctassert_true by done.
  destruct (Z.ltb_spec 1 nbi); [lia|]. destruct (Z.ltb_spec (NFP_MAX_MAC_CORES_PER_MAC_ISL - 1) core) as [Hx|_].
  { unfold NFP_MAX_MAC_CORES_PER_MAC_ISL in Hx. lia. }
  set (a := 0x8400000 + nbi * 2 ^ 24 + 0x280 + 0x20 * core).
  assert (Ea : (if core =? 0 then add32 (NFP_MAC_XPB_OFF nbi) (ETH0_IG_HEAD_DROP_CNTR_PAIR 0)
    else add32 (NFP_MAC_XPB_OFF nbi) (ETH1_IG_HEAD_DROP_CNTR_PAIR 0)) = a).
  { assert (Hcase : (nbi = 0 \/ nbi = 1) /\ (core = 0 \/ core = 1)) by lia. unfold a.
    by destruct Hcase as [[-> | ->] [-> | ->]]. }
  rewrite Ea. assert (Ha : a mod 4 = 0) by (unfold a; divlia).
  destruct (head_drop_loop_adds 6 0 (head_drop_pair a mask dst (cval (ct 0)) 0)
    (fun i => drop_of a mask dst i ++ drop_of a mask dst (i + 1)) ltac:(lia) ltac:(lia)) with (s := s) as [H1 H2].
  { intros j Hj. apply head_drop_pair_adds; try done; unfold a in *; try lia. divlia. }
  rewrite exec_bind. cbv zeta. rewrite H1. cbn [o_res o_trace exec]. split; [done|]. rewrite app_nil_r, H2.
  cbn [seq map concat]. by rewrite <- !app_assoc, !app_nil_r.
Qed.

End Drops.

(** ** Commands to the MACs *)

Lemma arb_word_fields nbi core port cmd :
  let w := arb_word nbi core port cmd in
  field 0 8 w = wrap 8 cmd /\ field 8 6 w = wrap 6 port /\ field 14 1 w = wrap 1 core /\ field 15 1 w = wrap 1 nbi /\
  field 24 8 w = MAC_ARB_SRC_APP /\ field 16 1 w = MAC_FORCE_RECACHE.
Proof.
  unfold arb_word, ARB_SOURCE, ARB_RECACHE, ARB_NBI, ARB_PORT, ARB_CORE, ARB_CMD, MAC_ARB_SRC_APP, MAC_FORCE_RECACHE.
  change 0xff with (Z.ones 8). change 0x3f with (Z.ones 6). change 0x1 with (Z.ones 1).
  cbn zeta. rewrite !wrap_land_ones by lia. change (wrap 8 4) with 4. change (wrap 1 0) with 0.
  rewrite Z.shiftl_0_l, Z.shiftl_0_r, Z.lor_0_r.
  rewrite <- !Z.lor_assoc, (Z.lor_comm (wrap 6 port ≪ 8)), <- !Z.lor_assoc,
    (Z.lor_comm (wrap 8 cmd)).
  pose proof (wrap_range 8 cmd ltac:(lia)) as H1. pose proof (wrap_range 6 port ltac:(lia)) as H2.
  pose proof (wrap_range 1 core ltac:(lia)) as H3. pose proof (wrap_range 1 nbi ltac:(lia)) as H4.
  unfold in_word in *. change (Z.ones 1) with 1.
  rewrite (lor_shift_add (wrap 6 port)), (lor_shift_add (wrap 1 core)), (lor_shift_add (wrap 1 nbi)), (lor_shift_add 4)
    by (unfold in_word; lia).
  rewrite !field_eq by lia. split_ands; divlia.
Qed.

End NfpStats.
