(* ===== verification/Pcie.v ===== *)
(** lib/nfp/_c/pcie.c: the windows to the memory of the host, and the descriptors, the
    configurations and the queues of the DMA engines. *)
From Stdlib Require Import ZArith Lia List String.
From stdpp Require Import base list numbers option strings.
From S2P Require Import Prelude Me Cls.
#[local] Open Scope Z_scope.

Module Pcie.

(** ** Registers: nfp6000/nfp_pcie.h *)

Definition NFP_PCIE_BARCFG_C2P (bar : Z) : Z := 0x30180 + bar * 0x4.
Definition BARCFG_C2P_ARI_ENABLE : Z := 1 ≪ 29.
Definition BARCFG_C2P_ARI (x : Z) : Z := (x .& 0xff) ≪ 21.
Definition BARCFG_C2P_ADDR_msk : Z := 0x1fffff.
Definition NFP_PCIE_DMA_CFG0 : Z := 0x400c0.
Definition DMA_MODE_shf : Z := 14.
Definition DMA_CMD_DMA_MODE_2 : Z := 2.
Definition QSTS0_TOPCI : Z := 0x400e0.
Definition QSTS1_TOPCI : Z := 0x400e4.
Definition QSTS0_FROMPCI : Z := 0x400e8.
Definition QSTS1_FROMPCI : Z := 0x400ec.

(** Assigning the bit-field of [len] bits at [pos] of a word. *)
Definition set_bits (pos len v w : Z) : Z :=
  (w .& not32 (Z.ones len ≪ pos)) .| (wrap len v ≪ pos).

(** struct nfp_pcie_dma_cmd: its four words, and the fields of the second. *)
Record dma_cmd := DmaCmd { raw0 : Z; raw1 : Z; raw2 : Z; raw3 : Z }.
Definition cmd_words (c : dma_cmd) : list Z := [raw0 c; raw1 c; raw2 c; raw3 c].
Definition mode_sel (c : dma_cmd) : Z := field 30 2 (raw1 c).
Definition dma_mode (c : dma_cmd) : Z := field 14 16 (raw1 c).
Definition low_fields (c : dma_cmd) : Z := field 0 14 (raw1 c).
Definition set_raw1 (w : Z) (c : dma_cmd) : dma_cmd := DmaCmd (raw0 c) w (raw2 c) (raw3 c).

(** ** Windows *)

Definition pcie_c2p_barcfg_val (addr_hi addr_lo : Z) (req_id : carg) : Z :=
  let tmp := MeC.dbl_shf addr_hi addr_lo 27 in
  let tmp := tmp .& BARCFG_C2P_ADDR_msk in
  if negb (is_ct req_id) || negb (cval req_id =? 0) then
    (tmp .| BARCFG_C2P_ARI_ENABLE) .| BARCFG_C2P_ARI (cval req_id)
  else tmp.

(** [pcie[op, data, hi, <<8, lo, n]] *)
Definition pcie_cmd (op : string) (data : list Z) (hi lo n : Z) (sync : option sync_t) (ind : option Z) : cmd :=
  Cmd T_pcie op data hi true lo (Some n) sync ind.

(** A write of a register, read back. *)
Definition write_back (isl bar_addr wr_val : Z) : prog unit :=
  _ ← issue (pcie_cmd "write_pci" [wr_val] isl bar_addr 1 (Some sig_done) None);
  _ ← issue (pcie_cmd "read_pci" [] isl bar_addr 1 (Some sig_done) None);
  Cls.wait_for_all.

Definition pcie_c2p_barcfg_set_expl (pcie_isl bar_idx bar_val : Z) : prog unit :=
  let isl := shl32 pcie_isl 30 in
  let bar_addr := NFP_PCIE_BARCFG_C2P (u8 bar_idx) in
  write_back isl bar_addr bar_val.

Definition pcie_c2p_barcfg_set (pcie_isl bar_idx addr_hi addr_lo : Z) (req_id : carg) : prog unit :=
  let isl := shl32 pcie_isl 30 in
  let bar_addr := NFP_PCIE_BARCFG_C2P (u8 bar_idx) in
  write_back isl bar_addr (pcie_c2p_barcfg_val addr_hi addr_lo (CArg (u8 (cval req_id)) (is_ct req_id))).

Definition c2p_addr (isl bar addr_hi : Z) : Z :=
  shl32 isl 30 .| ((bar .& 0x7) ≪ 27) .| ((addr_hi .& 0x7) ≪ 24).

(** With a size known only at run time, the command that swaps out is given [addr_hi] where
    the others are given [addr]. *)
Definition PCIE_C2P_CMD (cmdname : string) (data : list Z) (isl bar addr_hi addr_lo : Z)
    (size max_size : carg) (sync : sync_t) : prog (list Z) :=
  let count := cval size ≫ 2 in
  let max_count := cval max_size ≫ 2 in
  _ ← try_ctassert (is_ct size) (negb (cval size =? 0));
  _ ← try_ctassert (is_ct size) (is_aligned (cval size) 4);
  _ ← try_ctassert (is_ct size) (cval size <=? 128);
  let addr := c2p_addr isl bar addr_hi in
  if is_ct size then
    if cval size <=? 32 then issue (pcie_cmd cmdname data addr addr_lo count (Some sync) None)
    else issue (pcie_cmd cmdname data addr addr_lo count (Some sync) (Some (ind_len (sub32 count 1))))
  else
    n ← ct_const_val max_size max_count;
    match sync with
    | sig_done => issue (pcie_cmd cmdname data addr addr_lo n (Some sync) (Some (ind_len (sub32 count 1))))
    | ctx_swap => issue (pcie_cmd cmdname data addr_hi addr_lo n (Some sync) (Some (ind_len (sub32 count 1))))
    end.

Definition __pcie_read (pcie_isl bar_idx addr_hi addr_lo : Z) (size max_size : carg) (sync : sync_t) : prog (list Z) :=
  PCIE_C2P_CMD "read" [] pcie_isl (u8 bar_idx) addr_hi addr_lo size max_size sync.
Definition pcie_read (pcie_isl bar_idx addr_hi addr_lo : Z) (size : carg) : prog (list Z) :=
  _ ← ctassert (is_ct size);
  __pcie_read pcie_isl bar_idx addr_hi addr_lo size size ctx_swap.

Definition __pcie_write (data : list Z) (pcie_isl bar_idx addr_hi addr_lo : Z) (size max_size : carg) (sync : sync_t)
    : prog unit :=
  _ ← PCIE_C2P_CMD "write" data pcie_isl (u8 bar_idx) addr_hi addr_lo size max_size sync; Ret tt.
Definition pcie_write (data : list Z) (pcie_isl bar_idx addr_hi addr_lo : Z) (size : carg) : prog unit :=
  _ ← ctassert (is_ct size);
  __pcie_write data pcie_isl bar_idx addr_hi addr_lo size size ctx_swap.

(** ** DMA *)

(** A register holds the configurations of an odd and an even index. *)
Definition cfg_reg (index : Z) : Z := NFP_PCIE_DMA_CFG0 + (((index ≫ 1) .& 0x7) ≪ 2).

Definition update_cfg (index new_cfg cfg : Z) : Z :=
  if negb ((index .& 1) =? 0) then set_bits 16 16 new_cfg cfg else set_bits 0 16 new_cfg cfg.

(** [new_cfg] is the [__raw] of a struct pcie_dma_cfg_one. *)
Definition pcie_dma_cfg_set_one (pcie_isl index new_cfg : Z) : prog unit :=
  let addr_lo := cfg_reg index in
  let addr_hi := shl32 pcie_isl 30 in
  ws ← issue (pcie_cmd "read_pci" [] addr_hi addr_lo 1 (Some ctx_swap) None);
  let cfg := update_cfg index new_cfg (nth 0 ws 0) in
  _ ← issue (pcie_cmd "write_pci" [cfg] addr_hi addr_lo 1 (Some ctx_swap) None);
  Ret tt.

Definition __pcie_dma_cfg_set_pair (pcie_isl index new_cfg : Z) (sync : sync_t) : prog unit :=
  let addr_lo := cfg_reg index in
  let addr_hi := shl32 pcie_isl 30 in
  _ ← issue (pcie_cmd "write_pci" [new_cfg] addr_hi addr_lo 1 (Some sync) None);
  Ret tt.
Definition pcie_dma_cfg_set_pair (pcie_isl index new_cfg : Z) : prog unit :=
  __pcie_dma_cfg_set_pair pcie_isl index new_cfg ctx_swap.

Definition pcie_dma_set_sig (cmd : dma_cmd) (meid ctx sig_no : Z) : dma_cmd :=
  let mode_msk_inv := (1 ≪ DMA_MODE_shf) - 1 in
  let mode := ((meid .& 0xF) ≪ 13) .| (((meid ≫ 4) .& 0x3F) ≪ 7) .| ((ctx .& 0x7) ≪ 4) .| sig_no in
  set_raw1 (shl32 mode DMA_MODE_shf .| (raw1 cmd .& mode_msk_inv)) cmd.

Definition pcie_dma_set_event (cmd : dma_cmd) (type source : Z) : dma_cmd :=
  let cmd := set_raw1 (set_bits 30 2 DMA_CMD_DMA_MODE_2 (raw1 cmd)) cmd in
  set_raw1 (set_bits 14 16 (((type .& 0xF) ≪ 12) .| (source .& 0xFFF)) (raw1 cmd)) cmd.

Definition __pcie_dma_enq (pcie_isl : Z) (cmd : dma_cmd) (queue : Z) (sync : sync_t) : prog unit :=
  let addr_hi := shl32 pcie_isl 30 in
  _ ← issue (pcie_cmd "write_pci" (cmd_words cmd) addr_hi queue 4 (Some sync) None);
  Ret tt.
Definition pcie_dma_enq (pcie_isl : Z) (cmd : dma_cmd) (queue : Z) : prog unit :=
  __pcie_dma_enq pcie_isl cmd queue ctx_swap.

Definition pcie_dma_enq_no_sig (pcie_isl : Z) (cmd : dma_cmd) (queue : Z) : prog unit :=
  let addr_hi := shl32 pcie_isl 30 in
  _ ← issue (pcie_cmd "write_pci" (cmd_words cmd) addr_hi queue 4 None None);
  Ret tt.

(** The words of the two status registers. *)
Definition pcie_dmaq_status (pcie_isl direction : Z) : prog (Z * Z) :=
  let addr_hi := shl32 pcie_isl 30 in
  let addr_lo := if negb (direction =? 0) then QSTS0_FROMPCI else QSTS0_TOPCI in
  s0 ← issue (pcie_cmd "read_pci" [] addr_hi addr_lo 1 (Some ctx_swap) None);
  let addr_lo := if negb (direction =? 0) then QSTS1_FROMPCI else QSTS1_TOPCI in
  s1 ← issue (pcie_cmd "read_pci" [] addr_hi addr_lo 1 (Some ctx_swap) None);
  Ret (nth 0 s0 0, nth 0 s1 0).

(** ** What is reached through a window *)

(** A window covers 2 ^ 27 bytes of the host, aligned: those of the top bits of the address. *)
Lemma barcfg_val_fields addr_hi addr_lo req_id : in_word 16 addr_hi -> in_word 32 addr_lo -> in_word 8 (cval req_id) ->
  let v := pcie_c2p_barcfg_val addr_hi addr_lo req_id in
  field 0 21 v = (addr_hi * 2 ^ 32 + addr_lo) / 2 ^ 27 /\
  (Z.testbit v 29 = false <-> is_ct req_id = true /\ cval req_id = 0) /\
  field 21 8 v = cval req_id.
Proof.
  intros Hh Hl Hr. unfold pcie_c2p_barcfg_val, MeC.dbl_shf.
  rewrite lor_shift_add by (lia || done). change (wrap 5 27) with 27. rewrite Z.shiftr_div_pow2 by lia.
  set (b := (addr_hi * 2 ^ 32 + addr_lo) / 2 ^ 27).
  assert (Hb : in_word 21 b) by (unfold b, in_word in *; divlia).
  change BARCFG_C2P_ADDR_msk with (Z.ones 21).
  rewrite wrap_land_ones, (wrap_id 32 b), (wrap_id 21 b) by (lia || done || (apply (in_word_mono 21); [lia|done])).
  unfold BARCFG_C2P_ARI. change 0xff with (Z.ones 8). rewrite wrap_land_ones, (wrap_id 8) by (lia || done).
  change BARCFG_C2P_ARI_ENABLE with (1 ≪ 29).
  destruct (negb (is_ct req_id) || negb (cval req_id =? 0)) eqn:E.
  - assert (Ev : b .| 1 ≪ 29 .| cval req_id ≪ 21 = 1 * 2 ^ 29 + (cval req_id * 2 ^ 21 + b)).
    { rewrite (Z.lor_comm b), <- Z.lor_assoc, (Z.lor_comm b). unfold in_word in *.
      rewrite (lor_shift_add (cval req_id)), lor_shift_add by (unfold in_word; lia). done. }
    rewrite Ev. unfold in_word in *. rewrite !field_eq by lia. split_ands; [divlia| |divlia].
    rewrite Z.testbit_odd, Z.shiftr_div_pow2 by lia.
    replace ((1 * 2 ^ 29 + (cval req_id * 2 ^ 21 + b)) / 2 ^ 29) with 1 by divlia. split; [done|].
    intros [Hc H0]. by rewrite Hc, H0 in E.
  - apply orb_false_iff in E as [E1%negb_false_iff E2%negb_false_iff]. apply Z.eqb_eq in E2. rewrite E2.
    rewrite !field_eq by lia. unfold in_word in *. split_ands; [divlia| |divlia].
    rewrite (testbit_high 21 b) by (done || lia). done.
Qed.

(** A transfer through a window of a known size is one command at the island, the window and
    the lower bits of the address. *)
Lemma c2p_ct op data isl bar addr_hi addr_lo size max_size sync :
  is_ct size = true -> cval size mod 4 = 0 -> 4 <= cval size <= 128 ->
  exists c, issues_one (PCIE_C2P_CMD op data isl bar addr_hi addr_lo size max_size sync) c (fun ws => ws) /\
    presents c T_pcie op data ((c2p_addr isl bar addr_hi ≪ 8) + addr_lo) (Some (cval size / 4)) (Some sync).
Proof.
  intros Hc H4 Hs. unfold PCIE_C2P_CMD, is_aligned, mbind, prog_bind. rewrite H4, Hc.
  rewrite !try_ctassert_true by (done || (apply Z.leb_le; lia) || (apply negb_true_iff, Z.eqb_neq; lia)).
  assert (E : (cval size ≫ 2) = cval size / 4) by (by rewrite Z.shiftr_div_pow2). rewrite E.
  assert (Hn : 1 <= cval size / 4 <= 32) by divlia.
  destruct (cval size <=? 32); (eexists; split; [apply issues_one_issue|]; split; try done).
  by apply ind_len_count.
Qed.

(** The window is in the address; but of a size known at run time, and swapping out, it is
    not. *)
Lemma c2p_addr_fields isl bar addr_hi : in_word 2 isl ->
  let a := c2p_addr isl bar addr_hi in
  field 30 2 a = isl /\ field 27 3 a = wrap 3 bar /\ field 24 3 a = wrap 3 addr_hi /\ field 0 24 a = 0.
Proof.
  intros Hi. unfold c2p_addr, shl32. change 0x7 with (Z.ones 3). rewrite !wrap_land_ones by lia.
  pose proof (wrap_range 3 bar ltac:(lia)) as H1. pose proof (wrap_range 3 addr_hi ltac:(lia)) as H2.
  unfold in_word in *. rewrite (wrap_id 32) by (unfold in_word; rewrite Z.shiftl_mul_pow2; lia).
  rewrite <- Z.lor_assoc, (Z.shiftl_mul_pow2 (wrap 3 addr_hi)) by lia.
  rewrite (lor_shift_add (wrap 3 bar)), (lor_shift_add isl) by (unfold in_word; lia).
  cbv zeta. rewrite !field_eq by lia. split_ands; divlia.
Qed.

Lemma c2p_swap_loses_window op data isl bar addr_hi addr_lo size max_size :
  is_ct size = false -> is_ct max_size = true ->
  exists c, issues_one (PCIE_C2P_CMD op data isl bar addr_hi addr_lo size max_size ctx_swap) c (fun ws => ws) /\
    c_hi c = addr_hi.
Proof.
  intros Hs Hm. unfold PCIE_C2P_CMD, ct_const_val. rewrite Hs, Hm. eexists. split; [apply issues_one_issue|done].
Qed.

(** ** Descriptors and configurations *)

Lemma testbit_set_bits pos len v w i : 0 <= pos -> 0 <= len -> pos + len <= 32 -> in_word 32 w -> 0 <= i ->
  Z.testbit (set_bits pos len v w) i =
    if (pos <=? i) && (i <? pos + len) then Z.testbit v (i - pos) else Z.testbit w i.
Proof.
  intros Hp Hl Hs Hw Hi. unfold set_bits.
  assert (Hm : in_word 32 (Z.ones len ≪ pos)).
  { unfold in_word. rewrite Z.ones_equiv, Z.shiftl_mul_pow2 by lia.
    pose proof (Z.pow_pos_nonneg 2 len). pose proof (Z.pow_pos_nonneg 2 pos).
    assert (2 ^ len * 2 ^ pos <= 2 ^ 32) by (rewrite <- Z.pow_add_r by lia; apply Z.pow_le_mono_r; lia). nia. }
  rewrite Z.lor_spec, Z.land_spec, not32_testbit, !testbit_shiftl by (done || lia).
  destruct (Z.leb_spec pos i); cbn [andb negb].
  - rewrite testbit_wrap, testbit_ones by lia.
    destruct (Z.ltb_spec (i - pos) len), (Z.ltb_spec i (pos + len)); try lia; cbn [andb negb].
    + by rewrite !andb_false_r.
    + rewrite andb_true_r, orb_false_r. destruct (Z.ltb_spec i 32); [by rewrite andb_true_r|].
      by rewrite (testbit_high 32 w i) by (done || lia).
  - rewrite andb_true_r, orb_false_r. destruct (Z.ltb_spec i 32); [by rewrite andb_true_r|lia].
Qed.

Lemma field_set_same pos len v w : 0 <= pos -> 0 <= len -> pos + len <= 32 -> in_word 32 w ->
  field pos len (set_bits pos len v w) = wrap len v.
Proof.
  intros Hp Hl Hs Hw. unfold field. apply Z.bits_inj'; intros i Hi.
  rewrite !testbit_wrap, !testbit_shiftr, testbit_set_bits by (done || lia).
  destruct (Z.ltb_spec i len); [|done]. destruct (Z.leb_spec pos (i + pos)), (Z.ltb_spec (i + pos) (pos + len)); try lia.
  cbn [andb]. f_equal. lia.
Qed.

Lemma field_set_other pos len v w pos' len' : 0 <= pos -> 0 <= len -> pos + len <= 32 -> in_word 32 w ->
  0 <= pos' -> 0 <= len' -> pos' + len' <= pos \/ pos + len <= pos' ->
  field pos' len' (set_bits pos len v w) = field pos' len' w.
Proof.
  intros Hp Hl Hs Hw Hp' Hl' Hd. unfold field. apply Z.bits_inj'; intros i Hi.
  rewrite !testbit_wrap, !testbit_shiftr, testbit_set_bits by (done || lia).
  destruct (Z.ltb_spec i len'); [|done]. by destruct (Z.leb_spec pos (i + pos')), (Z.ltb_spec (i + pos') (pos + len)); try lia.
Qed.

Lemma set_bits_range pos len v w : 0 <= pos -> 0 <= len -> pos + len <= 32 -> in_word 32 w -> in_word 32 (set_bits pos len v w).
Proof.
  intros Hp Hl Hs Hw. rewrite <- (wrap_id 32 w) at 1 by done.
  replace (set_bits pos len v (wrap 32 w)) with (wrap 32 (set_bits pos len v w)); [apply wrap_range; lia|].
  rewrite (wrap_id 32 w) by done. apply Z.bits_inj'; intros i Hi.
  rewrite testbit_wrap, testbit_set_bits by (done || lia). destruct (Z.ltb_spec i 32); [done|].
  rewrite (testbit_high 32 w i) by (done || lia). destruct (Z.leb_spec pos i), (Z.ltb_spec i (pos + len)); try done; lia.
Qed.

(** Configuring one index changes its half of the register and not its neighbour's. *)
Lemma update_cfg_halves index new_cfg cfg : in_word 32 cfg ->
  let cfg' := update_cfg index new_cfg cfg in
  let half := if index mod 2 =? 1 then 16 else 0 in
  field half 16 cfg' = u16 new_cfg /\ field (16 - half) 16 cfg' = field (16 - half) 16 cfg.
Proof.
  intros Hc. cbv zeta. unfold update_cfg.
  assert (E : index .& 1 = index mod 2) by (by apply (Z.land_ones index 1)). rewrite E.
  pose proof (Z.mod_pos_bound index 2).
  destruct (Z.eqb_spec (index mod 2) 0), (Z.eqb_spec (index mod 2) 1); try lia; cbn [negb];
    (split; [apply field_set_same; (done || lia) | apply field_set_other; (done || lia)]).
Qed.

(** The 18 bits of the mode of a signal: the microengine, its island, the context and the
    number, below a zero. *)
Lemma set_sig_fields cmd meid ctx sig_no : in_word 4 sig_no ->
  let c := pcie_dma_set_sig cmd meid ctx sig_no in
  field 14 18 (raw1 c) = wrap 4 meid * 2 ^ 13 + (field 4 6 meid * 2 ^ 7 + (wrap 3 ctx * 2 ^ 4 + sig_no)) /\
  low_fields c = low_fields cmd.
Proof.
  intros Hs. cbv zeta. unfold pcie_dma_set_sig, low_fields, set_raw1. cbn [raw1].
  change 0xF with (Z.ones 4). change 0x3F with (Z.ones 6). change (ctx .& 0x7) with (ctx .& Z.ones 3).
  change ((1 ≪ DMA_MODE_shf) - 1) with (Z.ones 14). change DMA_MODE_shf with 14.
  rewrite !wrap_land_ones by lia. fold (field 4 6 meid).
  pose proof (wrap_range 4 meid ltac:(lia)) as H1. pose proof (field_range 4 6 meid ltac:(lia)) as H2.
  pose proof (wrap_range 3 ctx ltac:(lia)) as H3. pose proof (wrap_range 14 (raw1 cmd) ltac:(lia)) as H4.
  rewrite <- !Z.lor_assoc. unfold in_word in *.
  rewrite (lor_shift_add (wrap 3 ctx)), (lor_shift_add (field 4 6 meid)), (lor_shift_add (wrap 4 meid)) by (unfold in_word; lia).
  unfold shl32. rewrite (wrap_id 32) by (unfold in_word; rewrite Z.shiftl_mul_pow2 by lia; lia).
  rewrite lor_shift_add by (unfold in_word; lia). rewrite !field_eq by lia. change (2 ^ 0) with 1. rewrite !Z.div_1_r.
  revert H1 H2 H3 H4. rewrite (field_eq 4 6) by lia.
  generalize (wrap 4 meid), ((meid / 2 ^ 4) mod 2 ^ 6), (wrap 3 ctx). intros m i x H1 H2 H3 H4. unfold wrap in *.
  split; divlia.
Qed.

(** The mode of an event has its type and source, under mode select 2. *)
Lemma set_event_fields cmd type source : in_word 32 (raw1 cmd) ->
  let c := pcie_dma_set_event cmd type source in
  mode_sel c = 2 /\ dma_mode c = wrap 4 type * 2 ^ 12 + wrap 12 source /\ low_fields c = low_fields cmd.
Proof.
  intros Hw. cbv zeta. unfold pcie_dma_set_event, mode_sel, dma_mode, low_fields, set_raw1. cbn [raw1].
  pose proof (set_bits_range 30 2 DMA_CMD_DMA_MODE_2 (raw1 cmd) ltac:(lia) ltac:(lia) ltac:(lia) Hw) as Hw'.
  split_ands.
  - rewrite field_set_other, field_set_same by (done || lia). done.
  - rewrite field_set_same by (done || lia). change 0xF with (Z.ones 4). change 0xFFF with (Z.ones 12).
    pose proof (wrap_range 4 type ltac:(lia)) as H1. pose proof (wrap_range 12 source ltac:(lia)) as H2.
    rewrite !wrap_land_ones, lor_shift_add by (lia || done). unfold in_word in *. apply wrap_id. unfold in_word. lia.
  - rewrite !field_set_other by (done || lia). done.
Qed.

End Pcie.
