(* ===== verification/ExternNet.v ===== *)
(** lib/extern/extern_net.h: how a generated program receives a packet from the network and
    sends one, over libpkt. *)
From Stdlib Require Import ZArith Lia List String.
From stdpp Require Import base list numbers option strings.
From S2P Require Import Prelude Me MemBulk Pkt NfpLib.
#[local] Open Scope Z_scope.

Module ExternNet.
Import NfpLib.

(** struct extern_event_param_NET_RECV and _NET_SEND: the fields the functions use; the
    bit-fields of [meta] have 16 bits. *)
Record net_event := NetEvent { packet_ptr : Z; packet_offs : Z; packet_sz : Z; meta_seq : Z; meta_len : Z }.

(** struct pkt_raw_t: six words of metadata, a time stamp and a word of the MAC. *)
Definition sizeof_pkt_raw_t : Z := 32.
Definition pkt_isl (ws : list Z) : Z := field 26 6 (nth 0 ws 0).
Definition pkt_pnum (ws : list Z) : Z := field 16 10 (nth 0 ws 0).
Definition pkt_len (ws : list Z) : Z := field 0 14 (nth 0 ws 0).
Definition pkt_seq (ws : list Z) : Z := field 16 16 (nth 2 ws 0).

(** The call has two arguments more than pkt.h declares, [sig_done] and a signal that is not
    waited for; without them the function swaps out until the packet is there. *)
Definition inlined_net_recv : prog net_event :=
  pkt ← Pkt.pkt_nbi_recv_with_hdrs (ct sizeof_pkt_raw_t) PKT_NBI_OFFSET;
  let pbuf := Pkt.pkt_ctm_ptr40 (pkt_isl pkt) (pkt_pnum pkt) 0 in
  let seq := u16 (pkt_seq pkt) in
  let len := u16 (pkt_len pkt) in
  Ret (NetEvent (u64 (pbuf + PKT_NBI_OFFSET + MAC_PREPEND_BYTES + PKBUF_SHIF_BYTES)) 0 len seq len).

Definition get_pnum_from_addr (addr : Z) : Z :=
  let pnum := addr .& 0x7FFF0000 in
  let pnum := pnum ≫ 16 in
  u32 pnum.

Definition NBI : Z := 0.
Definition TMQ_PER_PORT : Z := 4 * 8.
Definition PORT_TO_TMQ (x : Z) : Z := x * TMQ_PER_PORT.

Section Send.
(** The revision of the chip, and [__ISLAND]. *)
Context (b0 : bool) (ISLAND : Z).

(** The event, which the function changes. *)
Definition inlined_net_send (event : net_event) : prog net_event :=
  let ptr := u64 (packet_ptr event - (PKT_NBI_OFFSET + MAC_PREPEND_BYTES + PKBUF_SHIF_BYTES)) in
  let seq := 0 in
  _ ← Pkt.pkt_mac_egress_cmd_write ptr (PKT_NBI_OFFSET + MAC_PREPEND_BYTES) 1 1;
  msi ← Pkt.pkt_msd_write b0 ptr (PKT_NBI_OFFSET + MAC_PREPEND_BYTES);
  _ ← Pkt.pkt_nbi_send ISLAND (get_pnum_from_addr ptr) msi (sub32 (meta_len event) MAC_PREPEND_BYTES) NBI
        (PORT_TO_TMQ 0) 0 seq Pkt.PKT_CTM_SIZE_256;
  Ret (NetEvent ptr (packet_offs event) (packet_sz event) seq (meta_len event)).
End Send.

(** ** A packet that is received and sent *)

(** The pointer to a packet. *)
Lemma ptr40_eq isl pnum : in_word 6 isl -> in_word 10 pnum ->
  exists hi, Pkt.pkt_ctm_ptr40 isl pnum 0 = hi * 2 ^ 32 + (2 ^ 31 + pnum * 2 ^ 16) /\ in_word 8 hi /\ 2 ^ 7 <= hi.
Proof.
  intros Hi Hp. exists (0x80 .| isl). unfold Pkt.pkt_ctm_ptr40, Pkt.pkt_addr_lo, shl32. unfold in_word in *.
  rewrite Z.lor_0_r, (wrap_id 32 (pnum ≪ 16)) by (unfold in_word; rewrite Z.shiftl_mul_pow2; lia).
  change 0x80000000 with (1 ≪ 31). rewrite (lor_shift_add 1), (wrap_id 32)
    by (unfold in_word; rewrite ?Z.shiftl_mul_pow2; lia).
  rewrite lor_shift_add by (unfold in_word; rewrite ?Z.shiftl_mul_pow2; lia).
  rewrite !Z.shiftl_mul_pow2 by lia. change (0x80 .| isl) with ((1 ≪ 7) .| isl).
  rewrite lor_shift_add by (unfold in_word; lia). split; [lia|]. unfold in_word. lia.
Qed.

(** A packet's number is read back from the pointer to it, whatever its offset in the buffer. *)
Lemma get_pnum_of_ptr isl pnum off : in_word 6 isl -> in_word 10 pnum -> 0 <= off < 2 ^ 14 ->
  get_pnum_from_addr (Pkt.pkt_ctm_ptr40 isl pnum 0 + off) = pnum.
Proof.
  intros Hi Hp Ho. destruct (ptr40_eq isl pnum Hi Hp) as (hi & -> & Hh & _). unfold get_pnum_from_addr.
  change 0x7FFF0000 with (Z.ones 15 ≪ 16). unfold in_word in *.
  assert (E : ((hi * 2 ^ 32 + (2 ^ 31 + pnum * 2 ^ 16) + off) .& (Z.ones 15 ≪ 16)) ≫ 16 =
    field 16 15 (hi * 2 ^ 32 + (2 ^ 31 + pnum * 2 ^ 16) + off)).
  { unfold field. generalize (hi * 2 ^ 32 + (2 ^ 31 + pnum * 2 ^ 16) + off). intros x. bitwise_as i. bits_cases; f_equal; lia. }
  rewrite E, field_eq by lia. rewrite wrap_id by (unfold in_word; divlia). divlia.
Qed.

Section Forward.
Context {St : Type} (h : St -> event -> reply * St).

Definition recv_cmd : cmd := Cmd T_mem "packet_add_thread" [] 16 false 0 (Some 8) (Some ctx_swap) None.

(** Receiving gives a pointer to the packet's first byte, and its length. *)
Lemma net_recv_event s : let ws := r_words (fst (h s (ECmd recv_cmd))) in
  in_word 32 (nth 0 ws 0) ->
  exec h inlined_net_recv s =
    Outcome [ECmd recv_cmd]
      (inl (NetEvent (Pkt.pkt_ctm_ptr40 (pkt_isl ws) (pkt_pnum ws) 0 + 64) 0 (pkt_len ws) (pkt_seq ws) (pkt_len ws)))
      (snd (h s (ECmd recv_cmd))).
Proof.
  intros ws Hw. change (exec h inlined_net_recv s) with
    (Outcome [ECmd recv_cmd] (inl (NetEvent (u64 (Pkt.pkt_ctm_ptr40 (pkt_isl ws) (pkt_pnum ws) 0 + 64 + 0 + 0)) 0
       (u16 (pkt_len ws)) (u16 (pkt_seq ws)) (u16 (pkt_len ws))) : net_event + failure) (snd (h s (ECmd recv_cmd)))).
  pose proof (field_range 26 6 (nth 0 ws 0) ltac:(lia)) as Hi. pose proof (field_range 16 10 (nth 0 ws 0) ltac:(lia)) as Hp.
  destruct (ptr40_eq _ _ Hi Hp) as (hi & E & Hh & _). fold (pkt_isl ws) (pkt_pnum ws) in E. fold (pkt_pnum ws) in Hp.
  rewrite !Z.add_0_r. rewrite (wrap_id 64).
  2:{ rewrite E. unfold in_word in *. lia. }
  rewrite (wrap_id 16 (pkt_len ws)), (wrap_id 16 (pkt_seq ws)); [done|apply field_range; lia|].
  apply (in_word_mono 14); [lia|]. apply field_range; lia.
Qed.

(** Sending a packet that came in: the checksum command goes to the four bytes before the
    packet, then the script to the eight, and the packet is handed over by its number, with
    its length and the offset of its first byte. *)
Lemma net_send_trace b0 ISLAND isl pnum len offs sz seq s : in_word 6 isl -> in_word 10 pnum -> in_word 14 len ->
  let ptr := Pkt.pkt_ctm_ptr40 isl pnum 0 in
  exists egress script ready hi lo palu,
    o_trace (exec h (inlined_net_send b0 ISLAND (NetEvent (ptr + 64) offs sz seq len)) s) =
      [ECmd egress; ECmd script; ECsrRd local_csr_active_ctx_sts; ECsrWr local_csr_cmd_indirect_ref_0 0; ECmd ready] /\
    o_res (exec h (inlined_net_send b0 ISLAND (NetEvent (ptr + 64) offs sz seq len)) s) =
      inl (NetEvent ptr offs sz 0 len) /\
    presents egress T_mem "write32" [3 * 2 ^ 30] (ptr + 60) (Some 1) (Some ctx_swap) /\
    presents script T_mem "write" [Pkt.script_word b0 64; 0] (ptr + 56) (Some 1) (Some ctx_swap) /\
    ready = Cmd T_nbi "packet_ready_unicast" [] hi true lo None None (Some palu) /\
    lo = pnum * 2 ^ 16 + (len + 64).
Proof.
  intros Hi Hp Hl ptr. destruct (ptr40_eq isl pnum Hi Hp) as (hi & E & Hh & _). fold ptr in E.
  unfold in_word in *. assert (Hptr : in_word 40 (ptr + 64) /\ 0 <= ptr) by (unfold in_word; lia).
  unfold inlined_net_send, PKT_NBI_OFFSET, MAC_PREPEND_BYTES, PKBUF_SHIF_BYTES. cbn [packet_ptr packet_offs packet_sz meta_len].
  replace (ptr + 64 - (64 + 0 + 0)) with ptr by lia. change (64 + 0) with 64.
  rewrite (wrap_id 64 ptr) by (unfold in_word in *; lia).
  assert (Eat : Pkt.script_at b0 64 = 56) by (by destruct b0).
  destruct (Pkt.msd_write_is b0 ptr 64) as [Hw _]; [unfold Pkt.MS_MAX_OFF; destruct b0; lia|].
  destruct (MemBulk.MEM_CMD_write "write32" [3 * 2 ^ 30] (ptr + 64 - 4) (ct 4) (ct 4) ctx_swap 2) as (e & He & Pe);
    [unfold in_word in *; lia|done|by cbn|by left|].
  destruct (MemBulk.MEM_CMD_write "write" [Pkt.script_word b0 64; 0] (ptr + Pkt.script_at b0 64) (ct 8) (ct 8) ctx_swap 3) as (w & Hs & Ps);
    [rewrite Eat; unfold in_word in *; lia|done|by cbn|by left|].
  assert (Hm : issues_one (Pkt.pkt_msd_write b0 ptr 64) w (fun _ => Pkt.script_info b0 64)).
  { rewrite Hw. by apply (issues_one_ret _ _ (fun _ => tt) (fun _ => Pkt.script_info b0 64)). }
  rewrite Eat in Ps.
  change (Pkt.pkt_mac_egress_cmd_write ptr 64 1 1)
    with (bind (MemBulk.MEM_CMD "write32" [3 * 2 ^ 30] (ptr + 64 - 4) (ct 4) (ct 4) ctx_swap 2) (fun _ => Ret tt)).
  unfold mbind, prog_bind. rewrite (exec_issues _ e _ _ h s He). cbv zeta.
  rewrite (exec_issues _ w _ _ h _ Hm). cbv zeta. cbn [o_trace o_res].
  replace (get_pnum_from_addr ptr) with pnum.
  2:{ rewrite <- (Z.add_0_r ptr). symmetry. by apply get_pnum_of_ptr. }
  do 6 eexists. split; [reflexivity|]. split; [reflexivity|].
  split; [by replace (ptr + 60) with (ptr + 64 - 4) by lia|]. split; [done|]. split; [reflexivity|].
  cbn [Pkt.len_adj Pkt.script_info].
  unfold Pkt.PKT_READY_ADDR_LO_FIELDS, shl32, add32, sub32. rewrite Z.sub_0_r.
  rewrite (wrap_id 32 len), (wrap_id 32 (len + 64)), (wrap_id 32 (pnum ≪ 16))
    by (unfold in_word; rewrite ?Z.shiftl_mul_pow2; lia).
  rewrite lor_shift_add by (unfold in_word; lia). apply wrap_id. unfold in_word. lia.
Qed.

(** The second write covers the four bytes of the first: the command for the checksums is
    lost. *)
Lemma net_send_loses_egress b0 ISLAND isl pnum len offs sz seq s : in_word 6 isl -> in_word 10 pnum -> in_word 14 len ->
  let ptr := Pkt.pkt_ctm_ptr40 isl pnum 0 in
  exists egress script rest,
    o_trace (exec h (inlined_net_send b0 ISLAND (NetEvent (ptr + 64) offs sz seq len)) s) =
      ECmd egress :: ECmd script :: rest /\
    cmd_addr egress = cmd_addr script + 4 /\ c_data egress = [3 * 2 ^ 30] /\ length (c_data script) = 2%nat.
Proof.
  intros Hi Hp Hl ptr. destruct (net_send_trace b0 ISLAND isl pnum len offs sz seq s Hi Hp Hl)
    as (e & w & r & hi & lo & palu & Ht & _ & [_ _ He1 He2 _ _] & [_ _ Hw1 Hw2 _ _] & _).
  exists e, w. eexists. split; [exact Ht|]. rewrite He1, He2, Hw1, Hw2. split; [fold ptr; lia|done].
Qed.

(** A packet received and sent on is handed over with its own number, and its length behind
    the 64 bytes before it. *)
Lemma net_forward b0 ISLAND s : let ws := r_words (fst (h s (ECmd recv_cmd))) in
  in_word 32 (nth 0 ws 0) ->
  exists mid hi palu,
    o_trace (exec h (event ← inlined_net_recv; inlined_net_send b0 ISLAND event) s) =
      ECmd recv_cmd :: mid ++
      [ECmd (Cmd T_nbi "packet_ready_unicast" [] hi true (pkt_pnum ws * 2 ^ 16 + (pkt_len ws + 64)) None None (Some palu))].
Proof.
  intros ws Hw. unfold mbind, prog_bind. rewrite exec_bind, net_recv_event by done. cbv zeta. cbn [o_res o_trace o_st].
  fold ws. destruct (net_send_trace b0 ISLAND (pkt_isl ws) (pkt_pnum ws) (pkt_len ws) 0 (pkt_len ws) (pkt_seq ws)
    (snd (h s (ECmd recv_cmd)))) as (e & w & r & hi & lo & palu & Ht & _ & _ & _ & -> & ->);
    [apply field_range; lia..|].
  rewrite Ht. exists [ECmd e; ECmd w; ECsrRd local_csr_active_ctx_sts; ECsrWr local_csr_cmd_indirect_ref_0 0], hi, palu.
  reflexivity.
Qed.
End Forward.

End ExternNet.
